(* ===== verification/_CoqProject ===== *)
-Q . S2P
Prelude.v
Cbor.v
CborSpec.v
CborTrack.v
CborEnc.v
CborDec.v
CborCanon.v
CborContract.v
CborKv.v
CborRecord.v
CborCodec.v
CborParse.v
Ledger.v
LedgerThms.v
LedgerUnchoke.v
LedgerCodec.v
Crypto.v
Bond.v
BondThms.v
BondCodec.v
Payment.v
PaymentThms.v
PaymentCodec.v
OpenTable.v
Merkle.v
Crdt.v
CrdtMerkle.v
CrdtParse.v
CrdtVerify.v
CrdtSet.v
CrdtSetThms.v
CrdtSetOps.v
CrdtReach.v
CrdtGSet.v
InsertionSort.v
Reputation.v
RepFixed.v
RepCompute.v
RepStanding.v
Chain.v
ChainPattern.v
ChainFinality.v
ChainFork.v
ChainCommittee.v
ChainCommit.v
ChainCodec.v
ChainBlock.v
ChainHonest.v
RepBag.v
RepBagTree.v
RepDisclose.v
RepDiscloseThms.v
RepSummary.v
RepBuckets.v
RepSummaryThms.v
RepSummaryCodec.v
Infer.v
InferCommit.v
InferChallenge.v
InferEnvelope.v
InferAnswer.v
Beacon.v
ChainRuntime.v
RuntimeFinal.v
RuntimeInv.v
RuntimeSteps.v
RuntimeReach.v
RuntimeHandlers.v
RuntimeThms.v
Dht.v
DhtClosest.v
DhtOps.v
DhtSteps.v
DhtReach.v
DhtSample.v
DhtThms.v
DhtWire.v
DhtWireThms.v
DhtServer.v
DhtServerThms.v
