(* ===== verification/Prelude.v ===== *)
(** * The ants-client verification library

    The client is a peer of a decentralised inference network, written in C.
    Its protocol core is a stack of small libraries that share one wire format
    and call one another directly; this library models that core and proves
    what each layer promises to the next one.

    ** Parts, files and how they correspond to the code

    - Prelude: machine integers with their wrap-around, byte strings, the
      [outcome] of a C call ([Ok] with the state and the results, [Err] with an
      [ants_error_t], [UB] for an access outside an object, [NoFuel] for a loop
      that outruns its bound) and the state monad [action] over it.
    - Cbor .. CborContract (foundation/cbor/src/cbor.c): the canonical
      CBOR encoder, decoder and validator.  Cbor holds the code; CborSpec the
      data items, their well-formedness and their one encoding; CborTrack the
      container stack; CborEnc, CborDec, CborCanon the two directions and the
      validator; CborContract the guarantees.
    - CborKv, CborRecord, CborCodec, CborParse: the field helpers
      every record codec repeats ([expect_key], [decode_uint_field], ...; each
      source file has its own identical copy, modelled once) and the reasoning
      principles of record codecs, with the class [RecordCodec].
    - Crypto (foundation/crypto/src/crypto.c): the BLAKE3 and Ed25519 wrappers
      over the vendored primitives, which are the classes [Blake3], [Ed25519]
      and [Ed25519Signing] with their laws.
    - Ledger, LedgerThms, LedgerUnchoke, LedgerCodec (economy/ledger/src/
      ledger.c): the pairwise ledger, the unchoke round and its record codec.
    - Bond, BondThms, BondCodec (economy/bond/src/bond.c): locked bonds,
      admission objects and the tie-break.
    - Payment, PaymentThms, PaymentCodec (economy/ledger/src/payment.c):
      payment terms.
    - Crdt, CrdtMerkle, CrdtParse, CrdtVerify (reputation/crdt/src/crdt.c, the
      proof half): fault proofs, their codec and VERIFY.
    - OpenTable, CrdtSet .. CrdtGSet (crdt.c, the set half): the open-addressed
      tables, the grow-only set with pruning, merge and snapshots, and networks
      of such sets as a step relation.
    - Reputation, RepFixed, RepCompute, RepStanding
      (reputation/identity/src/reputation.c, first third): receipts,
      fixed-point decay, the (A, T) computation and the slash gate.
    - RepBag, RepBagTree, RepDisclose, RepDiscloseThms (the bag):
      the commitment to the receipts, openings, the proof of a standing from
      some of them; RepSummary, RepBuckets, RepSummaryThms, RepSummaryCodec:
      the compact summary, its audit and its wire form.
    - Merkle, InsertionSort: the shared Merkle tree specification (CrdtMerkle
      adds what opened positions bind), and the in-place sort.
    - Chain, ChainPattern, ChainFinality, ChainFork, ChainCommittee,
      ChainCommit, ChainCodec, ChainBlock, ChainHonest, Beacon (reputation/chain/src/chain.c): the confirmed-proofs
      commitment, the pattern engine, committees, finality, fork choice,
      blocks and their proposal, the beacon check.
    - ChainRuntime, RuntimeFinal, RuntimeInv, RuntimeSteps, RuntimeReach,
      RuntimeHandlers, RuntimeThms (reputation/chain/src/chain_runtime.c): the
      per-node block-production state machine and networks of nodes.
    - Infer, InferCommit, InferChallenge, InferEnvelope, InferAnswer
      (inference/orchestration/src/orchestration.c): the commit to an
      inference, the audit challenge and the requester's check of an answer.
    - Dht, DhtClosest .. DhtThms (network/dht/src/dht.c and the selection of
      dht_server.c): the routing table.  Dht holds the code; DhtClosest the
      XOR metric and the K-closest selections; DhtOps, DhtSteps the operations;
      DhtReach the liveness sweep and the runs; DhtSample the sample; DhtThms
      the guarantees.
    - DhtWire, DhtWireThms (network/dht/src/dht_wire.c): the eight messages of
      the DHT, one encoder and one decoder each, and the look at the type.
    - DhtServer, DhtServerThms (network/dht/src/dht_server.c, the
      announcements of dht.c): the streams of peers and their buffers, the
      tokens, the announce set, the four request handlers and the dispatch of
      transport events.  [ants_dht_announce_shard] is [ants_dht_announce] of
      dht.c, whose name the record of one announcement has in the model, and
      [server_init] is the part of [ants_dht_init] the server works on.

    The layers meet in the types they share: every record goes through Cbor;
    Crdt's VERIFY reads the block bytes ChainBlock writes; RepStanding asks the
    set of CrdtGSet for the slashing verdict; ChainRuntime calls Chain for
    every decision it takes; DhtServer reads the routing table of Dht and
    speaks DhtWire.

    ** Conventions

    A w-bit unsigned value is a [Z] in range; every operation that can leave
    the range wraps explicitly.  [size_t] has 64 bits.  An object behind a
    pointer argument is the state of the [action] that runs on it, so a NULL
    object is not representable and the NULL guards of such arguments are not
    modelled; a pointer that the code accepts or tests as NULL with a meaning
    is an [option].  A pointer with a length is a byte string and the length;
    reading beyond the string is [UB].  A NULL array with capacity zero is the
    empty list.  Fixed arrays of characters are byte strings of that size.

    Loops over a list are structural; loops with another measure carry fuel,
    and the theorems show that the fuel suffices: the validator's walk by the
    length of the buffer, tree climbs by 65 levels of a 64-bit index, probing
    by the capacity of the table, the sample by one pass more than a bucket
    has entries.  The rejection samplers of the committee and auditor draws
    have no bound in the code; their models take the number [draws] of words
    they may examine, and the theorems say exactly when that is not enough,
    which is the only way those functions give [NoFuel].

    Allocation is an oracle that may refuse any request.  Callbacks that
    answer are arguments of the call; callbacks that only receive append to a
    log, and they do not call back into the object (the headers of the runtime
    and of the DHT allow some such calls; they are not modelled).  The clock
    is an argument, and what the DHT server asks of the transport is a log of
    [transport_call]s whose results the code ignores.
    [ants_crdt_merge] takes a source distinct from its target.  A theorem
    about hashes has as side condition that the strings hashed in the
    statement do not collide, or gives the collision; none assumes that the
    hash is injective.

    ** What is proved

    - CBOR: the validator accepts exactly the canonical encodings and always
      terminates in bounds; encoder and decoder stay in bounds under any
      sequence of calls, produce and accept canonical items only, and a failed
      decoder call changes nothing.
    - Ledger, bonds, payment terms: refinement of abstract accounts by any
      sequence of operations, exactness of the formulas with their overflow
      behaviour, capacity and fairness of the unchoke round, and for each
      record a round trip and a strict decoder.
    - Fault proofs: the exact set of proofs VERIFY accepts; that honest
      evidence packs into an accepted proof.
    - The proof set: insertion, pruning, merge and snapshots act as on a
      finite map; in every reachable network each stored proof verifies, and a
      slashing verdict is founded and permanent.
    - Reputation: A and T equal their definitions for every order of the
      receipts, decay is exact, T_eff stays within its cap, a slashed peer has
      no standing; a disclosed standing is backed by receipts of the committed
      bag, whatever leaf count is claimed, and a prover who has the standing
      can disclose it; summaries are built exactly, audited fairly and decoded
      strictly.
    - Chain: the online Merkle root is the level-by-level root, inclusion paths
      are complete and binding; reports, committees, finality and fork choice
      are exact; conflicting finality exhibits double signers; blocks survive
      the wire; the block of an honest proposer cannot be turned into an
      accepted accusation.
    - Runtime: in every reachable state a node signs at most one block per
      height, adopts only certified heads, and two honest nodes agree.
    - Inference: commits survive the wire with their signature; the challenge
      opens one position per stratum and draws the auditor without bias; the
      requester's check is decided exactly on arbitrary bytes, and an accepted
      commit binds the request and the distributions (but not the tokens).
    - Routing table: the invariant of every run, with every operation
      returning; eviction only after three consecutive missed probes; the
      events as a faithful account of the membership; the K-closest answers
      and the sample against their references; and that no sweep, probe or
      newcomer removes an entry without a connection, unless it had two
      strikes and a probe outstanding already.
    - DHT messages and server: the decoders accept exactly the canonical
      encodings of the documented maps, and every message survives the wire;
      in every run the server handles each event to its end; a request gets
      its documented answer if the answer fits the response buffer, and a
      reset otherwise (which twenty long addresses do bring about); every
      stored announcement of another peer came from that peer with its token,
      which anyone can compute, the secret being the hash of a public
      identity.

    ** Not modelled, and why

    The client side of network/dht (dht_rpc.c, dht_lookup.c and in dht.c the
    bootstrap dials, the lookups' dials and the republish chain) and
    network/gossip, network/attest and inference/exchange are left out for
    scope: the codecs of the latter repeat the pattern of the record codecs
    above, and the behaviour is driven by RPC completions inside the callbacks
    of the QUIC transport.  So is the order in which one transport event
    passes the client side and the server: no stream is in both registries.
    network/transport is glue around picoquic.  The e-process, the discrepancy
    score, the reference model and the serving and auditing built on it
    (orchestration.c), the cache, the embedding model and the kernels compute
    in IEEE floating point with libm.  foundation/tee and the remaining crypto
    wrappers parse vendor formats over vendored libraries.  antsd is command
    line, configuration and event loop.  src/deps is third-party code. *)

From Stdlib Require Export Sorting.Sorted ZArith Lia ZifyNat.
From stdpp Require Export prelude.

#[global] Open Scope Z_scope.

(** ** Machine integers

    A [w]-bit unsigned C value is a [Z] in [0, 2^w); conversions and
    arithmetic that can leave the range wrap explicitly.  [size_t] is 64 bits
    wide on the targets of the client. *)

Definition UINT16_MAX : Z := 2 ^ 16 - 1.
Definition UINT64_MAX : Z := 2 ^ 64 - 1.
Definition INT64_MAX : Z := 2 ^ 63 - 1.
Definition INT64_MIN : Z := - 2 ^ 63.
Definition SIZE_MAX : Z := 2 ^ 64 - 1.

Definition u8 (z : Z) : Z := z mod 2 ^ 8.
Definition u16 (z : Z) : Z := z mod 2 ^ 16.
Definition u32 (z : Z) : Z := z mod 2 ^ 32.
Definition u64 (z : Z) : Z := z mod 2 ^ 64.

(** [size_t] addition and subtraction, with their wrap-around. *)
Definition size_add (a b : Z) : Z := u64 (a + b).
Definition size_sub (a b : Z) : Z := u64 (a - b).

(** Conversion of a 64-bit pattern to [int64_t] (two's complement). *)
Definition to_int64 (z : Z) : Z :=
  if u64 z <? 2 ^ 63 then u64 z else u64 z - 2 ^ 64.

Definition is_u8 (z : Z) : Prop := 0 <= z < 2 ^ 8.
Definition is_u16 (z : Z) : Prop := 0 <= z < 2 ^ 16.
Definition is_u32 (z : Z) : Prop := 0 <= z < 2 ^ 32.
Definition is_u64 (z : Z) : Prop := 0 <= z < 2 ^ 64.

(** ** Bytes *)

Abbreviation bytes := (list Z).

Definition bytes_ok (b : bytes) : Prop := Forall is_u8 b.

#[export] Instance is_u8_dec z : Decision (is_u8 z).
Proof. unfold is_u8. apply _. Defined.

#[export] Instance bytes_ok_dec b : Decision (bytes_ok b).
Proof. unfold bytes_ok. apply _. Defined.

(** The length of a byte string as a [size_t] value. *)
Definition zlen {A} (l : list A) : Z := Z.of_nat (length l).

(** No C object is larger than [PTRDIFF_MAX] bytes. *)
Definition object_size (n : Z) : Prop := 0 <= n <= INT64_MAX.

(** [buf[i]]: [None] is an access outside the object. *)
Definition byte_at (buf : bytes) (i : Z) : option Z :=
  if 0 <=? i then buf !! Z.to_nat i else None.

(** The [len] bytes starting at [buf + off]; [None] when they are not all
    inside the object. *)
Definition slice (buf : bytes) (off len : Z) : option bytes :=
  if (0 <=? off) && (0 <=? len) && (off + len <=? zlen buf)
  then Some (take (Z.to_nat len) (drop (Z.to_nat off) buf))
  else None.

(** The bytes of [dst] after [memcpy(dst + off, src, zlen src)]. *)
Definition splice {A} (dst : list A) (off : Z) (src : list A) : option (list A) :=
  if (0 <=? off) && (off + zlen src <=? zlen dst)
  then Some (take (Z.to_nat off) dst ++ src ++ drop (Z.to_nat off + length src) dst)
  else None.

(** [a[i]] and [a[i] = x] for an array of any element type. *)
Definition get_at {A} (l : list A) (i : Z) : option A :=
  if 0 <=? i then l !! Z.to_nat i else None.

Definition set_at {A} (l : list A) (i : Z) (x : A) : option (list A) :=
  if (0 <=? i) && (i <? zlen l) then Some (<[Z.to_nat i := x]> l) else None.

(** The [n] elements of the caller's array. *)
Definition first_n {A} (l : list A) (n : Z) : option (list A) :=
  if (0 <=? n) && (n <=? zlen l) then Some (take (Z.to_nat n) l) else None.

(** [memcmp] over two strings of equal length: the difference of the first
    pair of bytes that differ.  C fixes only the sign of the result. *)
Fixpoint memcmp (a b : bytes) : Z :=
  match a, b with
  | x :: a', y :: b' => if x =? y then memcmp a' b' else x - y
  | _, _ => 0
  end.

(** ** Return codes: [ants_error_t]

    [ANTS_OK] is the [Ok] outcome below; every other code of ants_common.h is
    a constructor here. *)

Inductive ants_error_t : Type :=
| ANTS_ERROR_INVALID_ARG
| ANTS_ERROR_BUFFER_TOO_SMALL
| ANTS_ERROR_NOT_IMPLEMENTED
| ANTS_ERROR_MALFORMED
| ANTS_ERROR_NON_CANONICAL
| ANTS_ERROR_UNSUPPORTED_TYPE
| ANTS_ERROR_OVERFLOW
| ANTS_ERROR_PEER_UNREACHABLE
| ANTS_ERROR_HANDSHAKE_FAILED
| ANTS_ERROR_PEER_MISMATCH
| ANTS_ERROR_STREAM_RESET
| ANTS_ERROR_NOT_FOUND.

#[export] Instance ants_error_t_eq_dec : EqDecision ants_error_t.
Proof. solve_decision. Defined.

(** ** Effects

    A C function that works on an object of type [S] and returns an
    [ants_error_t] is an action: from the object before the call to the
    object after it together with either its out-parameters ([Ok], the code
    is [ANTS_OK]) or the error code ([Err]).  [UB] is an access outside an
    object; [NoFuel] is only produced when a recursion bound of the model is
    too small. *)

Inductive outcome (S A : Type) : Type :=
| Ok (s : S) (a : A)
| Err (s : S) (e : ants_error_t)
| UB
| NoFuel.
Arguments Ok {S A} s a.
Arguments Err {S A} s e.
Arguments UB {S A}.
Arguments NoFuel {S A}.

Definition action (S A : Type) : Type := S -> outcome S A.

Definition ret {S A} (a : A) : action S A := fun s => Ok s a.
Definition fail {S A} (e : ants_error_t) : action S A := fun s => Err s e.
Definition bind {S A B} (m : action S A) (k : A -> action S B) : action S B :=
  fun s => match m s with
           | Ok s' a => k a s'
           | Err s' e => Err s' e
           | UB => UB
           | NoFuel => NoFuel
           end.
Definition get {S} : action S S := fun s => Ok s s.
Definition modify {S} (f : S -> S) : action S unit := fun s => Ok (f s) tt.

(** [if (err != ANTS_OK) { <f>; return err; }] *)
Definition on_err {S A} (f : S -> S) (m : action S A) : action S A :=
  fun s => match m s with
           | Err s' e => Err (f s') e
           | r => r
           end.

(** Replace the code of a failing call ([return rc != ANTS_OK ? e' : rc]). *)
Definition map_err {S A} (g : ants_error_t -> ants_error_t) (m : action S A)
  : action S A :=
  fun s => match m s with
           | Err s' e => Err s' (g e)
           | r => r
           end.

(** Use of a value that only exists when an access is inside its object. *)
Definition deref {S A} (o : option A) : action S A :=
  fun s => match o with Some a => Ok s a | None => UB end.

Declare Scope ants_scope.
Delimit Scope ants_scope with ants.
Notation "'let*' x ':=' m 'in' k" := (bind m (fun x => k))
  (at level 10, x pattern, k at level 200) : ants_scope.
Notation "m ';*' k" := (bind m (fun _ => k))
  (at level 199, right associativity) : ants_scope.
#[global] Open Scope ants_scope.

(** Run an action on one component of a larger state. *)
Definition on_fst {S T A} (m : action S A) : action (S * T) A :=
  fun st => match m st.1 with
            | Ok s a => Ok (s, st.2) a
            | Err s e => Err (s, st.2) e
            | UB => UB
            | NoFuel => NoFuel
            end.
Definition on_snd {S T A} (m : action T A) : action (S * T) A :=
  fun st => match m st.2 with
            | Ok t a => Ok (st.1, t) a
            | Err t e => Err (st.1, t) e
            | UB => UB
            | NoFuel => NoFuel
            end.
Definition modify_snd {S T} (f : T -> T) : action (S * T) unit :=
  fun st => Ok (st.1, f st.2) tt.

(** A call that works on objects of its own frame. *)
Definition pure_call {S A} (m : action unit A) : action S A := fun s =>
  match m tt with
  | Ok _ a => Ok s a
  | Err _ e => Err s e
  | UB => UB
  | NoFuel => NoFuel
  end.

(** A counted loop [for (i = 0; i < n; i++) body(i)] whose iteration count is
    bounded by [fuel]. *)
Fixpoint for_loop {S} (fuel : nat) (i n : Z) (body : Z -> action S unit)
  : action S unit :=
  if n <=? i then ret tt
  else match fuel with
       | O => fun _ => NoFuel
       | Datatypes.S f => body i ;* for_loop f (i + 1) n body
       end.

(** ** Automation *)

(** Linear arithmetic with the widths of the machine types unfolded. *)
Ltac zlia :=
  unfold size_add, size_sub, u64, u32, u16, u8, is_u64, is_u32, is_u16, is_u8,
    object_size, UINT64_MAX, UINT16_MAX, SIZE_MAX, INT64_MAX, INT64_MIN, zlen in *;
  lia.

(** A decidable fact about a concrete value. *)
Ltac by_decision := apply (bool_decide_unpack _); vm_compute; exact I.

(** Linear arithmetic with divisions by constants. *)
Ltac divlia := zify; Z.to_euclidean_division_equations; lia.

(** Contradictory bounds on the length of an explicit list. *)
Ltac short_list := exfalso; unfold zlen in *; cbn [length] in *; lia.

(** Reflect the boolean tests of the code into propositions. *)
Ltac breflect :=
  repeat match goal with
  | H : _ && _ = true |- _ => apply andb_true_iff in H; destruct H
  | H : _ && _ = false |- _ => apply andb_false_iff in H
  | H : _ || _ = true |- _ => apply orb_true_iff in H
  | H : _ || _ = false |- _ => apply orb_false_iff in H; destruct H
  | H : negb _ = true |- _ => apply negb_true_iff in H
  | H : negb _ = false |- _ => apply negb_false_iff in H
  | H : (_ <? _) = true |- _ => apply Z.ltb_lt in H
  | H : (_ <? _) = false |- _ => apply Z.ltb_ge in H
  | H : (_ <=? _) = true |- _ => apply Z.leb_le in H
  | H : (_ <=? _) = false |- _ => apply Z.leb_gt in H
  | H : (_ =? _) = true |- _ => apply Z.eqb_eq in H
  | H : (_ =? _) = false |- _ => apply Z.eqb_neq in H
  end.

(** Case analysis on the next boolean test of the goal. *)
Ltac bcase :=
  match goal with
  | |- context [if ?b then _ else _] =>
    lazymatch b with
    | context [if _ then _ else _] => fail
    | _ => let E := fresh "E" in destruct b eqn:E; breflect
    end
  end.

(** Decide the next boolean test of the goal by arithmetic. *)
Ltac bdecide :=
  match goal with
  | |- context [?a <? ?b] =>
    first [ replace (a <? b) with true by (symmetry; apply Z.ltb_lt; zlia)
          | replace (a <? b) with false by (symmetry; apply Z.ltb_ge; zlia) ]
  | |- context [?a <=? ?b] =>
    first [ replace (a <=? b) with true by (symmetry; apply Z.leb_le; zlia)
          | replace (a <=? b) with false by (symmetry; apply Z.leb_gt; zlia) ]
  | |- context [?a =? ?b] =>
    first [ replace (a =? b) with true by (symmetry; apply Z.eqb_eq; zlia)
          | replace (a =? b) with false by (symmetry; apply Z.eqb_neq; zlia) ]
  end.

(** ** Machine arithmetic *)

Create HintDb ants.
Create Rewrite HintDb ants.

Lemma u64_small z : is_u64 z -> u64 z = z.
Proof. intros H. apply Z.mod_small. exact H. Qed.

Lemma u8_small z : is_u8 z -> u8 z = z.
Proof. intros H. apply Z.mod_small. exact H. Qed.

Lemma u8_range z : is_u8 (u8 z).
Proof. apply Z.mod_pos_bound. lia. Qed.

Lemma u64_range z : is_u64 (u64 z).
Proof. apply Z.mod_pos_bound. lia. Qed.

Lemma size_add_small a b : 0 <= a + b <= SIZE_MAX -> size_add a b = a + b.
Proof. intros H. apply u64_small. zlia. Qed.

Lemma size_sub_small a b : 0 <= a - b <= SIZE_MAX -> size_sub a b = a - b.
Proof. intros H. apply u64_small. zlia. Qed.

Lemma lor_disjoint a b k :
  0 <= k -> 0 <= b < 2 ^ k -> Z.lor (Z.shiftl a k) b = a * 2 ^ k + b.
Proof.
  intros Hk Hb. rewrite <- Z.add_nocarry_lor.
  - by rewrite Z.shiftl_mul_pow2.
  - apply Z.bits_inj'. intros i Hi. rewrite Z.land_spec, Z.bits_0.
    destruct (Z.lt_ge_cases i k).
    + by rewrite Z.shiftl_spec_low.
    + assert (Z.testbit b i = false) as ->; [|apply andb_false_r].
      destruct (decide (b = 0)) as [->|]; [apply Z.bits_0|].
      apply Z.bits_above_log2; [lia|]. apply Z.log2_lt_pow2; [lia|].
      apply Z.lt_le_trans with (2 ^ k); [lia|]. apply Z.pow_le_mono_r; lia.
Qed.

Lemma land_low z k : 0 <= k -> Z.land z (Z.ones k) = z mod 2 ^ k.
Proof. apply Z.land_ones. Qed.

Lemma land_ff z : Z.land z 0xff = z mod 256.
Proof. exact (land_low z 8 ltac:(lia)). Qed.

Lemma land_1f z : Z.land z 0x1f = z mod 32.
Proof. exact (land_low z 5 ltac:(lia)). Qed.

Lemma shiftr_div z k : 0 <= k -> Z.shiftr z k = z / 2 ^ k.
Proof. apply Z.shiftr_div_pow2. Qed.

(** ** Byte strings *)

Lemma zlen_nonneg {A} (l : list A) : 0 <= zlen l.
Proof. unfold zlen. lia. Qed.

Lemma zlen_nil {A} : zlen (@nil A) = 0.
Proof. reflexivity. Qed.

Lemma zlen_cons {A} (x : A) l : zlen (x :: l) = 1 + zlen l.
Proof. unfold zlen. cbn [length]. lia. Qed.

Lemma zlen_map {A B} (f : A -> B) l : zlen (map f l) = zlen l.
Proof. unfold zlen. by rewrite length_map. Qed.
Lemma zlen_app {A} (l k : list A) : zlen (l ++ k) = zlen l + zlen k.
Proof. unfold zlen. rewrite length_app. lia. Qed.

Lemma zlen_to_nat {A} (l : list A) : Z.to_nat (zlen l) = length l.
Proof. unfold zlen. lia. Qed.

Lemma zlen_replicate {A} n (x : A) : zlen (replicate n x) = Z.of_nat n.
Proof. unfold zlen. by rewrite length_replicate. Qed.

#[export] Hint Rewrite @zlen_nil @zlen_cons @zlen_app @zlen_to_nat @zlen_replicate : ants.

Lemma bytes_ok_app a b : bytes_ok (a ++ b) <-> bytes_ok a /\ bytes_ok b.
Proof. apply Forall_app. Qed.

Lemma byte_at_app (pre : bytes) b rest : byte_at (pre ++ b :: rest) (zlen pre) = Some b.
Proof.
  unfold byte_at. rewrite zlen_to_nat.
  replace (0 <=? zlen pre) with true by (pose proof (zlen_nonneg pre); zlia).
  by rewrite lookup_app_r, Nat.sub_diag.
Qed.

Lemma byte_at_inside (buf : bytes) i : 0 <= i < zlen buf -> exists b, byte_at buf i = Some b.
Proof.
  intros H. unfold byte_at. bdecide.
  destruct (lookup_lt_is_Some_2 buf (Z.to_nat i)) as [b Hb]; [zlia | eauto].
Qed.

Lemma slice_mid (a b c : bytes) : slice (a ++ b ++ c) (zlen a) (zlen b) = Some b.
Proof.
  unfold slice. pose proof (zlen_nonneg a). pose proof (zlen_nonneg b).
  pose proof (zlen_nonneg c).
  rewrite !zlen_app. repeat bdecide. cbn [andb].
  rewrite !zlen_to_nat, drop_app_length, take_app_length. done.
Qed.

Lemma slice_all (a : bytes) : slice a 0 (zlen a) = Some a.
Proof. pose proof (slice_mid [] a []) as H. by rewrite app_nil_r in H. Qed.

Lemma slice_app_l (a b k : bytes) off len :
  slice a off len = Some k -> slice (a ++ b) off len = Some k.
Proof.
  unfold slice. rewrite zlen_app. pose proof (zlen_nonneg b).
  bcase; [|done]. intros [= <-]. repeat bdecide. cbn [andb]. f_equal.
  rewrite drop_app_le by zlia. rewrite take_app_le; [done|].
  rewrite length_drop. zlia.
Qed.

Lemma slice_length (a k : bytes) off len : slice a off len = Some k -> zlen k = len.
Proof.
  unfold slice. bcase; [|done]. intros [= <-].
  unfold zlen in *. rewrite length_take, length_drop. lia.
Qed.

Lemma first_n_all {A} (l : list A) : first_n l (zlen l) = Some l.
Proof.
  unfold first_n. pose proof (zlen_nonneg l). repeat bdecide. cbn [andb].
  unfold zlen. by rewrite Nat2Z.id, take_ge by lia.
Qed.


Lemma memcmp_refl a : memcmp a a = 0.
Proof. induction a as [|x a IH]; simpl; [done|]. by rewrite Z.eqb_refl. Qed.

Lemma memcmp_eq a : forall b, zlen a = zlen b -> (memcmp a b =? 0) = bool_decide (a = b).
Proof.
  induction a as [|x a IH]; intros [|y b] H; cbn [memcmp].
  1-3: unfold zlen in H; cbn in H; by (rewrite bool_decide_true || lia).
  rewrite !zlen_cons in H. destruct (Z.eqb_spec x y) as [->|Hne].
  - rewrite IH by lia. apply bool_decide_ext. split; [by intros ->|by intros [=]].
  - rewrite bool_decide_false by congruence. apply Z.eqb_neq. lia.
Qed.

(** ** Actions *)

Lemma bind_ret_l {S A B} (a : A) (k : A -> action S B) s : bind (ret a) k s = k a s.
Proof. reflexivity. Qed.

Lemma bind_Ok {S A B} (m : action S A) (k : A -> action S B) s s' a :
  m s = Ok s' a -> bind m k s = k a s'.
Proof. intros H. unfold bind. by rewrite H. Qed.

Lemma bind_assoc {S A B C} (m : action S A) (k : A -> action S B) (h : B -> action S C) s :
  bind (bind m k) h s = bind m (fun a => bind (k a) h) s.
Proof. unfold bind. by destruct (m s). Qed.

Lemma bind_Ok_inv {S A B} (m : action S A) (k : A -> action S B) s s' b :
  bind m k s = Ok s' b -> exists s1 a, m s = Ok s1 a /\ k a s1 = Ok s' b.
Proof. unfold bind. destruct (m s); [eauto | done..]. Qed.

Lemma bind_ret_r {S} (m : action S unit) s : (m ;* ret tt) s = m s.
Proof. unfold bind, ret. by destruct (m s) as [? [] | | | ]. Qed.

(** Actions that behave alike on every state. *)
Record same_action {S A} (m m' : action S A) : Prop := same_at { same_run : forall s, m s = m' s }.

#[export] Instance action_equiv {S A} : Equiv (action S A) := same_action.

#[export] Instance action_equivalence {S A} : Equivalence (≡@{action S A}).
Proof.
  split; [by intros m | by intros m m' [H]; split; intros s; rewrite H |].
  intros m1 m2 m3 [H] [H']. split. intros s. by rewrite H.
Qed.

#[export] Instance bind_proper {S A B} :
  Proper ((≡@{action S A}) ==> pointwise_relation A (≡@{action S B}) ==> (≡)) bind.
Proof.
  intros m m' [Hm] k k' Hk. split. intros s. unfold bind. rewrite Hm.
  destruct (m' s); try done. apply Hk.
Qed.

Lemma bind_assoc_equiv {S A B C} (m : action S A) (k : A -> action S B) (h : B -> action S C) :
  bind (bind m k) h ≡ bind m (fun a => bind (k a) h).
Proof. split. intros s. apply bind_assoc. Qed.

Lemma bind_ret_equiv {S} (m : action S unit) : (m ;* ret tt) ≡ m.
Proof. split. intros s. apply bind_ret_r. Qed.

#[export] Instance on_err_proper {S A} (f : S -> S) : Proper ((≡@{action S A}) ==> (≡)) (on_err f).
Proof. intros m m' [Hm]. split. intros s. unfold on_err. by rewrite Hm. Qed.
