(* ===== verification/Cbor.v ===== *)
(** * The deterministic CBOR codec (src/foundation/cbor)

    The encoder and decoder objects, every entry point of cbor.c and the
    canonical-form validator, as actions on the encoder or decoder object.
    The [== NULL] guards on the object and on the out-parameters have no
    counterpart: the object is the state of the action and an out-parameter
    is its result.  Data pointers that the code tests together with a length
    ([b == NULL && len > 0]) are [option bytes]. *)

From stdpp Require Import strings.
From S2P Require Import Prelude.

(** ** Error strings *)

Definition ants_strerror (err : Z) : string :=
  match err with
  | 0 => "ok"
  | 1 => "invalid argument"
  | 2 => "buffer too small"
  | 3 => "not implemented"
  | 4 => "malformed input"
  | 5 => "non-canonical encoding"
  | 6 => "unsupported type"
  | 7 => "overflow"
  | 8 => "peer unreachable"
  | 9 => "handshake failed"
  | 10 => "peer pubkey mismatch"
  | 11 => "stream reset"
  | 12 => "not found"
  | _ => "unknown"
  end.

(** ** Contexts *)

Definition ANTS_CBOR_MAX_DEPTH : Z := 16.

Inductive ants_cbor_ctx_kind_t : Type :=
| ANTS_CBOR_CTX_NONE
| ANTS_CBOR_CTX_ARRAY
| ANTS_CBOR_CTX_MAP_KEY
| ANTS_CBOR_CTX_MAP_VALUE
| ANTS_CBOR_CTX_TAG.

#[export] Instance ants_cbor_ctx_kind_t_eq_dec : EqDecision ants_cbor_ctx_kind_t.
Proof. solve_decision. Defined.

Record ants_cbor_ctx_t : Type := mk_ctx {
  kind : ants_cbor_ctx_kind_t;
  remaining : Z;
  container_begin : Z;
  last_key_begin : Z;
  last_key_end : Z
}.

Definition ctx_zero : ants_cbor_ctx_t := mk_ctx ANTS_CBOR_CTX_NONE 0 0 0 0.

Record ants_cbor_enc_t : Type := mk_enc {
  enc_buf : bytes;
  enc_cap : Z;
  enc_pos : Z;
  enc_stack : list ants_cbor_ctx_t;
  enc_depth : Z
}.

Definition set_enc_pos (p : Z) (e : ants_cbor_enc_t) : ants_cbor_enc_t :=
  mk_enc (enc_buf e) (enc_cap e) p (enc_stack e) (enc_depth e).

Definition set_enc_stack (st : list ants_cbor_ctx_t) (d : Z) (e : ants_cbor_enc_t)
  : ants_cbor_enc_t :=
  mk_enc (enc_buf e) (enc_cap e) (enc_pos e) st d.

Record ants_cbor_dec_t : Type := mk_dec {
  dec_buf : bytes;
  dec_len : Z;
  dec_pos : Z;
  dec_stack : list ants_cbor_ctx_t;
  dec_depth : Z
}.

Definition set_dec_pos (p : Z) (d : ants_cbor_dec_t) : ants_cbor_dec_t :=
  mk_dec (dec_buf d) (dec_len d) p (dec_stack d) (dec_depth d).

Definition set_dec_stack (st : list ants_cbor_ctx_t) (dp : Z) (d : ants_cbor_dec_t)
  : ants_cbor_dec_t :=
  mk_dec (dec_buf d) (dec_len d) (dec_pos d) st dp.

Inductive ants_cbor_type_t : Type :=
| ANTS_CBOR_TYPE_UINT
| ANTS_CBOR_TYPE_NEGINT
| ANTS_CBOR_TYPE_BYTES
| ANTS_CBOR_TYPE_TEXT
| ANTS_CBOR_TYPE_ARRAY
| ANTS_CBOR_TYPE_MAP
| ANTS_CBOR_TYPE_TAG
| ANTS_CBOR_TYPE_BOOL
| ANTS_CBOR_TYPE_NULL.

#[export] Instance ants_cbor_type_t_eq_dec : EqDecision ants_cbor_type_t.
Proof. solve_decision. Defined.

(** ** Item heads *)

(** [enc->buf[enc->pos++] = b] *)
Definition put_byte (b : Z) : action ants_cbor_enc_t unit := fun e =>
  if (0 <=? enc_pos e) && (enc_pos e <? zlen (enc_buf e))
  then Ok (mk_enc (<[Z.to_nat (enc_pos e) := b]> (enc_buf e)) (enc_cap e)
             (size_add (enc_pos e) 1) (enc_stack e) (enc_depth e)) tt
  else UB.

Fixpoint put_bytes (bs : bytes) : action ants_cbor_enc_t unit :=
  match bs with
  | [] => ret tt
  | b :: bs' => put_byte b ;* put_bytes bs'
  end.

(** [if (enc->pos + n > enc->cap) return ANTS_ERROR_BUFFER_TOO_SMALL;] *)
Definition enc_room (n : Z) : action ants_cbor_enc_t unit := fun e =>
  if enc_cap e <? size_add (enc_pos e) n
  then Err e ANTS_ERROR_BUFFER_TOO_SMALL else Ok e tt.

Definition cbor_write_head (major value : Z) : action ants_cbor_enc_t unit :=
  if 7 <? major then fail ANTS_ERROR_INVALID_ARG
  else
    let initial := u8 (Z.shiftl major 5) in
    if value <? 24 then
      enc_room 1 ;*
      put_byte (u8 (Z.lor initial (u8 value)))
    else if value <? 256 then
      enc_room 2 ;*
      put_byte (u8 (Z.lor initial 24)) ;*
      put_byte (u8 value)
    else if value <? 65536 then
      enc_room 3 ;*
      put_byte (u8 (Z.lor initial 25)) ;*
      put_byte (u8 (Z.shiftr value 8)) ;*
      put_byte (u8 (Z.land value 0xff))
    else if value <? 0x100000000 then
      enc_room 5 ;*
      put_byte (u8 (Z.lor initial 26)) ;*
      put_byte (u8 (Z.shiftr value 24)) ;*
      put_byte (u8 (Z.land (Z.shiftr value 16) 0xff)) ;*
      put_byte (u8 (Z.land (Z.shiftr value 8) 0xff)) ;*
      put_byte (u8 (Z.land value 0xff))
    else
      enc_room 9 ;*
      put_byte (u8 (Z.lor initial 27)) ;*
      put_bytes (map (fun i => u8 (Z.land (Z.shiftr value (i * 8)) 0xff))
                     [7; 6; 5; 4; 3; 2; 1; 0]).

(** [dec->buf[dec->pos++]] *)
Definition next_byte : action ants_cbor_dec_t Z := fun d =>
  match byte_at (dec_buf d) (dec_pos d) with
  | Some b => Ok (set_dec_pos (size_add (dec_pos d) 1) d) b
  | None => UB
  end.

(** [dec->buf[dec->pos + k]] *)
Definition byte_ahead (k : Z) : action ants_cbor_dec_t Z := fun d =>
  deref (byte_at (dec_buf d) (size_add (dec_pos d) k)) d.

(** [dec->pos += n] *)
Definition advance (n : Z) : action ants_cbor_dec_t unit :=
  modify (fun d => set_dec_pos (size_add (dec_pos d) n) d).

(** [if (dec->pos + n > dec->len) return ANTS_ERROR_MALFORMED;] *)
Definition dec_need (n : Z) : action ants_cbor_dec_t unit := fun d =>
  if dec_len d <? size_add (dec_pos d) n
  then Err d ANTS_ERROR_MALFORMED else Ok d tt.

(** [n] bytes, most significant first, shifted into [v]. *)
Fixpoint read_be (n : nat) (v : Z) : action ants_cbor_dec_t Z :=
  match n with
  | O => ret v
  | S n' => let* b := next_byte in
            read_be n' (Z.lor (u64 (Z.shiftl v 8)) b)
  end.

Definition cbor_read_head : action ants_cbor_dec_t (Z * Z) :=
  let* d := get in
  if dec_len d <=? dec_pos d then fail ANTS_ERROR_MALFORMED
  else
    let* b := next_byte in
    let major := u8 (Z.shiftr b 5) in
    let info := u8 (Z.land b 0x1f) in
    if info <? 24 then ret (major, info)
    else if info =? 24 then
      dec_need 1 ;*
      let* v := next_byte in
      if v <? 24 then fail ANTS_ERROR_NON_CANONICAL else ret (major, v)
    else if info =? 25 then
      dec_need 2 ;*
      let* b0 := byte_ahead 0 in
      let* b1 := byte_ahead 1 in
      let v := Z.lor (Z.shiftl b0 8) b1 in
      advance 2 ;*
      if v <? 256 then fail ANTS_ERROR_NON_CANONICAL else ret (major, v)
    else if info =? 26 then
      dec_need 4 ;*
      let* b0 := byte_ahead 0 in
      let* b1 := byte_ahead 1 in
      let* b2 := byte_ahead 2 in
      let* b3 := byte_ahead 3 in
      let v := Z.lor (Z.lor (Z.lor (Z.shiftl b0 24) (Z.shiftl b1 16)) (Z.shiftl b2 8)) b3 in
      advance 4 ;*
      if v <? 65536 then fail ANTS_ERROR_NON_CANONICAL else ret (major, v)
    else if info =? 27 then
      dec_need 8 ;*
      let* v := read_be 8 0 in
      if v <? 0x100000000 then fail ANTS_ERROR_NON_CANONICAL else ret (major, v)
    else fail ANTS_ERROR_NON_CANONICAL.

(** ** Container tracking *)

Definition compare_keys (a b : bytes) : Z :=
  let min_len := if zlen a <? zlen b then zlen a else zlen b in
  let c := memcmp (take (Z.to_nat min_len) a) (take (Z.to_nat min_len) b) in
  if negb (c =? 0) then c
  else if zlen a <? zlen b then -1
  else if zlen b <? zlen a then 1
  else 0.

(** The [while (depth >= 0)] loop that [enc_track_item] and [dec_track_item]
    both contain, over the buffer and position of the codec object.  [n] is
    [depth + 1], so the loop runs down on it.  The state is the context array
    and the depth. *)
Fixpoint track_loop (buf : bytes) (pos : Z) (n : nat) (item_begin : Z)
  (stack : list ants_cbor_ctx_t) : outcome (list ants_cbor_ctx_t * Z) unit :=
  let depth := Z.of_nat n - 1 in
  let failed := fun e => Err (stack, depth) e in
  match n with
  | O => Ok (stack, depth) tt
  | S n' =>
    match stack !! n' with
    | None => UB
    | Some ctx =>
      let less := size_sub (remaining ctx) 1 in
      let ctx_less := mk_ctx (kind ctx) less (container_begin ctx)
                        (last_key_begin ctx) (last_key_end ctx) in
      let close := track_loop buf pos n' (container_begin ctx)
                     (<[n' := ctx_less]> stack) in
      match kind ctx with
      | ANTS_CBOR_CTX_ARRAY | ANTS_CBOR_CTX_TAG =>
        if remaining ctx =? 0 then failed ANTS_ERROR_MALFORMED
        else if less =? 0 then close
        else Ok (<[n' := ctx_less]> stack, depth) tt
      | ANTS_CBOR_CTX_MAP_KEY =>
        if remaining ctx =? 0 then failed ANTS_ERROR_MALFORMED
        else
          let accept := Ok (<[n' := mk_ctx ANTS_CBOR_CTX_MAP_VALUE (remaining ctx)
                                      (container_begin ctx) item_begin pos]> stack,
                            depth) tt in
          if 0 <? last_key_end ctx then
            match slice buf (last_key_begin ctx)
                    (size_sub (last_key_end ctx) (last_key_begin ctx)),
                  slice buf item_begin (size_sub pos item_begin) with
            | Some prev, Some this =>
              if 0 <=? compare_keys prev this
              then failed ANTS_ERROR_NON_CANONICAL else accept
            | _, _ => UB
            end
          else accept
      | ANTS_CBOR_CTX_MAP_VALUE =>
        if remaining ctx =? 0 then failed ANTS_ERROR_MALFORMED
        else if less =? 0 then close
        else Ok (<[n' := mk_ctx ANTS_CBOR_CTX_MAP_KEY less (container_begin ctx)
                           (last_key_begin ctx) (last_key_end ctx)]> stack, depth) tt
      | ANTS_CBOR_CTX_NONE => failed ANTS_ERROR_MALFORMED
      end
    end
  end.

(** On failure [ENC_TRACK_FAIL] restores the depth and the context array the
    function was entered with. *)
Definition enc_track_item (item_begin : Z) : action ants_cbor_enc_t unit := fun e =>
  match track_loop (enc_buf e) (enc_pos e) (Z.to_nat (enc_depth e + 1)) item_begin
          (enc_stack e) with
  | Ok (st, d) _ => Ok (set_enc_stack st d e) tt
  | Err _ err => Err (set_enc_stack (enc_stack e) (enc_depth e) e) err
  | UB => UB
  | NoFuel => NoFuel
  end.

Definition dec_track_item (item_begin : Z) : action ants_cbor_dec_t unit := fun d =>
  match track_loop (dec_buf d) (dec_pos d) (Z.to_nat (dec_depth d + 1)) item_begin
          (dec_stack d) with
  | Ok (st, dp) _ => Ok (set_dec_stack st dp d) tt
  | Err _ err => Err (set_dec_stack (dec_stack d) (dec_depth d) d) err
  | UB => UB
  | NoFuel => NoFuel
  end.

(** ** Encoder *)

Definition ants_cbor_enc_init (buf : option bytes) (cap : Z)
  : outcome unit ants_cbor_enc_t :=
  match buf with
  | None => Err tt ANTS_ERROR_INVALID_ARG
  | Some b =>
    if cap =? 0 then Err tt ANTS_ERROR_INVALID_ARG
    else Ok tt (mk_enc b cap 0 (replicate (Z.to_nat ANTS_CBOR_MAX_DEPTH) ctx_zero) (-1))
  end.

(** Write one item with [w], then register it; [pos] is put back when either
    fails. *)
Definition enc_item (w : action ants_cbor_enc_t unit) : action ants_cbor_enc_t unit :=
  let* e := get in
  let item_begin := enc_pos e in
  on_err (set_enc_pos item_begin) w ;*
  on_err (set_enc_pos item_begin) (enc_track_item item_begin).

Definition ants_cbor_enc_uint (v : Z) : action ants_cbor_enc_t unit :=
  enc_item (cbor_write_head 0 v).

(** [~(uint64_t)v] for the negative branch. *)
Definition ants_cbor_enc_int (v : Z) : action ants_cbor_enc_t unit :=
  enc_item (if 0 <=? v then cbor_write_head 0 (u64 v)
            else cbor_write_head 1 (u64 (Z.lnot (u64 v)))).

(** [memcpy(enc->buf + enc->pos, b, len); enc->pos += len], skipped for
    [len == 0], after the capacity test. *)
Definition enc_copy (b : option bytes) (len : Z) : action ants_cbor_enc_t unit := fun e =>
  if size_sub (enc_cap e) (enc_pos e) <? len
  then Err e ANTS_ERROR_BUFFER_TOO_SMALL
  else if 0 <? len then
    match b with
    | None => UB
    | Some src =>
      match slice src 0 len with
      | None => UB
      | Some s =>
        match splice (enc_buf e) (enc_pos e) s with
        | None => UB
        | Some buf' => Ok (mk_enc buf' (enc_cap e) (size_add (enc_pos e) len)
                             (enc_stack e) (enc_depth e)) tt
        end
      end
    end
  else Ok (set_enc_pos (size_add (enc_pos e) len) e) tt.

Definition is_null {A} (p : option A) : bool :=
  match p with None => true | Some _ => false end.

Definition ants_cbor_enc_bytes (b : option bytes) (len : Z)
  : action ants_cbor_enc_t unit :=
  if (0 <? len) && is_null b then fail ANTS_ERROR_INVALID_ARG
  else enc_item (cbor_write_head 2 len ;* enc_copy b len).

Definition ants_cbor_enc_text (s : option bytes) (len : Z)
  : action ants_cbor_enc_t unit :=
  if (0 <? len) && is_null s then fail ANTS_ERROR_INVALID_ARG
  else enc_item (cbor_write_head 3 len ;* enc_copy s len).

(** [depth++] and the five stores into [stack[depth]]. *)
Definition push_ctx (k : ants_cbor_ctx_kind_t) (n item_begin depth : Z)
  (stack : list ants_cbor_ctx_t) : option (list ants_cbor_ctx_t) :=
  let i := Z.to_nat (depth + 1) in
  if (0 <=? depth + 1) && (depth + 1 <? zlen stack)
  then Some (<[i := mk_ctx k n item_begin 0 0]> stack) else None.

Definition enc_push (k : ants_cbor_ctx_kind_t) (n item_begin : Z)
  : action ants_cbor_enc_t unit := fun e =>
  match push_ctx k n item_begin (enc_depth e) (enc_stack e) with
  | Some st => Ok (set_enc_stack st (enc_depth e + 1) e) tt
  | None => UB
  end.

Definition ants_cbor_enc_array (n : Z) : action ants_cbor_enc_t unit :=
  let* e := get in
  let item_begin := enc_pos e in
  on_err (set_enc_pos item_begin) (cbor_write_head 4 n) ;*
  if n =? 0 then on_err (set_enc_pos item_begin) (enc_track_item item_begin)
  else if ANTS_CBOR_MAX_DEPTH <=? enc_depth e + 1
  then on_err (set_enc_pos item_begin) (fail ANTS_ERROR_OVERFLOW)
  else enc_push ANTS_CBOR_CTX_ARRAY n item_begin.

Definition ants_cbor_enc_map (n : Z) : action ants_cbor_enc_t unit :=
  let* e := get in
  let item_begin := enc_pos e in
  on_err (set_enc_pos item_begin) (cbor_write_head 5 n) ;*
  if n =? 0 then on_err (set_enc_pos item_begin) (enc_track_item item_begin)
  else if ANTS_CBOR_MAX_DEPTH <=? enc_depth e + 1
  then on_err (set_enc_pos item_begin) (fail ANTS_ERROR_OVERFLOW)
  else enc_push ANTS_CBOR_CTX_MAP_KEY n item_begin.

Definition ants_cbor_enc_bool (v : bool) : action ants_cbor_enc_t unit :=
  let* e := get in
  let item_begin := enc_pos e in
  enc_room 1 ;*
  put_byte (if v then 0xf5 else 0xf4) ;*
  on_err (set_enc_pos item_begin) (enc_track_item item_begin).

Definition ants_cbor_enc_null : action ants_cbor_enc_t unit :=
  let* e := get in
  let item_begin := enc_pos e in
  enc_room 1 ;*
  put_byte 0xf6 ;*
  on_err (set_enc_pos item_begin) (enc_track_item item_begin).

(** The tags of RFC-0008 §1.1. *)
Definition tag_reserved (tag : Z) : bool := (tag =? 0) || (tag =? 32) || (tag =? 42).

Definition ants_cbor_enc_tag (tag : Z) : action ants_cbor_enc_t unit :=
  if negb (tag_reserved tag) then fail ANTS_ERROR_UNSUPPORTED_TYPE
  else
    let* e := get in
    if ANTS_CBOR_MAX_DEPTH <=? enc_depth e + 1 then fail ANTS_ERROR_OVERFLOW
    else
      let item_begin := enc_pos e in
      on_err (set_enc_pos item_begin) (cbor_write_head 6 tag) ;*
      enc_push ANTS_CBOR_CTX_TAG 1 item_begin.

Definition ants_cbor_enc_size (e : ants_cbor_enc_t) : Z := enc_pos e.

Definition ants_cbor_enc_finalise : action ants_cbor_enc_t unit := fun e =>
  if negb (enc_depth e =? -1) then Err e ANTS_ERROR_MALFORMED
  else if enc_pos e =? 0 then Err e ANTS_ERROR_MALFORMED
  else Ok e tt.

(** ** Decoder *)

Definition ants_cbor_dec_init (buf : option bytes) (len : Z)
  : outcome unit ants_cbor_dec_t :=
  if is_null buf && (0 <? len) then Err tt ANTS_ERROR_INVALID_ARG
  else Ok tt (mk_dec (default [] buf) len 0
                (replicate (Z.to_nat ANTS_CBOR_MAX_DEPTH) ctx_zero) (-1)).

Definition ants_cbor_dec_peek_type : action ants_cbor_dec_t ants_cbor_type_t :=
  let* d := get in
  if dec_len d <=? dec_pos d then fail ANTS_ERROR_MALFORMED
  else
    let* b := deref (byte_at (dec_buf d) (dec_pos d)) in
    let major := u8 (Z.shiftr b 5) in
    let info := u8 (Z.land b 0x1f) in
    match major with
    | 0 => ret ANTS_CBOR_TYPE_UINT
    | 1 => ret ANTS_CBOR_TYPE_NEGINT
    | 2 => ret ANTS_CBOR_TYPE_BYTES
    | 3 => ret ANTS_CBOR_TYPE_TEXT
    | 4 => ret ANTS_CBOR_TYPE_ARRAY
    | 5 => ret ANTS_CBOR_TYPE_MAP
    | 6 => ret ANTS_CBOR_TYPE_TAG
    | 7 => if (info =? 20) || (info =? 21) then ret ANTS_CBOR_TYPE_BOOL
           else if info =? 22 then ret ANTS_CBOR_TYPE_NULL
           else fail ANTS_ERROR_UNSUPPORTED_TYPE
    | _ => fail ANTS_ERROR_MALFORMED
    end.

(** [{ dec->pos = saved; return e; }] *)
Definition dec_fail {A} (saved : Z) (e : ants_error_t) : action ants_cbor_dec_t A :=
  on_err (set_dec_pos saved) (fail e).

(** The common opening of the typed readers: remember [pos], read a head. *)
Definition dec_head : action ants_cbor_dec_t (Z * (Z * Z)) :=
  let* d := get in
  let saved := dec_pos d in
  let* h := on_err (set_dec_pos saved) cbor_read_head in
  ret (saved, h).

Definition dec_register (saved : Z) : action ants_cbor_dec_t unit :=
  on_err (set_dec_pos saved) (dec_track_item saved).

Definition ants_cbor_dec_uint : action ants_cbor_dec_t Z :=
  let* (saved, (major, value)) := dec_head in
  if negb (major =? 0) then dec_fail saved ANTS_ERROR_UNSUPPORTED_TYPE
  else dec_register saved ;* ret value.

Definition ants_cbor_dec_int : action ants_cbor_dec_t Z :=
  let* (saved, (major, value)) := dec_head in
  let* result :=
    if major =? 0 then
      if INT64_MAX <? value then dec_fail saved ANTS_ERROR_OVERFLOW
      else ret (to_int64 value)
    else if major =? 1 then
      if INT64_MAX <? value then dec_fail saved ANTS_ERROR_OVERFLOW
      else ret (-1 - to_int64 value)
    else dec_fail saved ANTS_ERROR_UNSUPPORTED_TYPE in
  dec_register saved ;* ret result.

(** The body [ants_cbor_dec_bytes] and [ants_cbor_dec_text] share; the string
    the caller receives as a pointer into the buffer is the list of its
    bytes. *)
Definition dec_string (want_major : Z) : action ants_cbor_dec_t bytes :=
  let* (saved, (major, value)) := dec_head in
  if negb (major =? want_major) then dec_fail saved ANTS_ERROR_UNSUPPORTED_TYPE
  else if SIZE_MAX <? value then dec_fail saved ANTS_ERROR_OVERFLOW
  else
    let len := value in
    let* d := get in
    if size_sub (dec_len d) (dec_pos d) <? len
    then dec_fail saved ANTS_ERROR_MALFORMED
    else
      let* bp := deref (slice (dec_buf d) (dec_pos d) len) in
      advance len ;*
      dec_register saved ;*
      ret bp.

Definition ants_cbor_dec_bytes : action ants_cbor_dec_t bytes := dec_string 2.
Definition ants_cbor_dec_text : action ants_cbor_dec_t bytes := dec_string 3.

Definition dec_push (k : ants_cbor_ctx_kind_t) (n saved : Z)
  : action ants_cbor_dec_t unit := fun d =>
  match push_ctx k n saved (dec_depth d) (dec_stack d) with
  | Some st => Ok (set_dec_stack st (dec_depth d + 1) d) tt
  | None => UB
  end.

(** The body [ants_cbor_dec_array] and [ants_cbor_dec_map] share. *)
Definition dec_container (want_major : Z) (k : ants_cbor_ctx_kind_t)
  : action ants_cbor_dec_t Z :=
  let* (saved, (major, value)) := dec_head in
  if negb (major =? want_major) then dec_fail saved ANTS_ERROR_UNSUPPORTED_TYPE
  else if SIZE_MAX <? value then dec_fail saved ANTS_ERROR_OVERFLOW
  else
    let n := value in
    if n =? 0 then dec_register saved ;* ret 0
    else
      let* d := get in
      if ANTS_CBOR_MAX_DEPTH <=? dec_depth d + 1
      then dec_fail saved ANTS_ERROR_OVERFLOW
      else dec_push k n saved ;* ret n.

Definition ants_cbor_dec_array : action ants_cbor_dec_t Z :=
  dec_container 4 ANTS_CBOR_CTX_ARRAY.
Definition ants_cbor_dec_map : action ants_cbor_dec_t Z :=
  dec_container 5 ANTS_CBOR_CTX_MAP_KEY.

Definition ants_cbor_dec_tag : action ants_cbor_dec_t Z :=
  let* (saved, (major, value)) := dec_head in
  if negb (major =? 6) then dec_fail saved ANTS_ERROR_UNSUPPORTED_TYPE
  else if negb (tag_reserved value) then dec_fail saved ANTS_ERROR_UNSUPPORTED_TYPE
  else
    let* d := get in
    if ANTS_CBOR_MAX_DEPTH <=? dec_depth d + 1
    then dec_fail saved ANTS_ERROR_OVERFLOW
    else dec_push ANTS_CBOR_CTX_TAG 1 saved ;* ret value.

Definition ants_cbor_dec_bool : action ants_cbor_dec_t bool :=
  let* d := get in
  let saved := dec_pos d in
  dec_need 1 ;*
  let* b := deref (byte_at (dec_buf d) (dec_pos d)) in
  if negb (b =? 0xf4) && negb (b =? 0xf5) then fail ANTS_ERROR_UNSUPPORTED_TYPE
  else
    advance 1 ;*
    dec_register saved ;*
    ret (b =? 0xf5).

Definition ants_cbor_dec_null : action ants_cbor_dec_t unit :=
  let* d := get in
  let saved := dec_pos d in
  dec_need 1 ;*
  let* b := deref (byte_at (dec_buf d) (dec_pos d)) in
  if negb (b =? 0xf6) then fail ANTS_ERROR_UNSUPPORTED_TYPE
  else
    advance 1 ;*
    dec_register saved.

Definition ants_cbor_dec_pos (d : ants_cbor_dec_t) : Z := dec_pos d.

Definition ants_cbor_dec_eof (d : ants_cbor_dec_t) : bool := dec_len d <=? dec_pos d.

Definition ants_cbor_dec_finalise : action ants_cbor_dec_t unit := fun d =>
  if negb (dec_depth d =? -1) then Err d ANTS_ERROR_MALFORMED
  else if negb (dec_pos d =? dec_len d) then Err d ANTS_ERROR_MALFORMED
  else Ok d tt.

(** ** Validator *)

(** The recursion is bounded by [fuel]; a nested call or an iteration of the
    item loops consumes at least one byte, so one more than the number of
    bytes left is enough (see [is_canonical_total]). *)
Fixpoint walk_one_item (fuel : nat) : action ants_cbor_dec_t unit :=
  match fuel with
  | O => fun _ => NoFuel
  | S fuel' =>
    let* d := get in
    if ants_cbor_dec_eof d then fail ANTS_ERROR_MALFORMED
    else
      let* t := ants_cbor_dec_peek_type in
      match t with
      | ANTS_CBOR_TYPE_UINT => ants_cbor_dec_uint ;* ret tt
      | ANTS_CBOR_TYPE_NEGINT => ants_cbor_dec_int ;* ret tt
      | ANTS_CBOR_TYPE_BYTES => ants_cbor_dec_bytes ;* ret tt
      | ANTS_CBOR_TYPE_TEXT => ants_cbor_dec_text ;* ret tt
      | ANTS_CBOR_TYPE_ARRAY =>
        let* n := ants_cbor_dec_array in
        for_loop fuel' 0 n (fun _ => walk_one_item fuel')
      | ANTS_CBOR_TYPE_MAP =>
        let* n := ants_cbor_dec_map in
        for_loop fuel' 0 n (fun _ => walk_one_item fuel' ;* walk_one_item fuel')
      | ANTS_CBOR_TYPE_TAG => ants_cbor_dec_tag ;* walk_one_item fuel'
      | ANTS_CBOR_TYPE_BOOL => ants_cbor_dec_bool ;* ret tt
      | ANTS_CBOR_TYPE_NULL => ants_cbor_dec_null
      end
  end.

Definition ants_cbor_is_canonical (buf : option bytes) (len : Z) : outcome unit unit :=
  if is_null buf && (0 <? len) then Err tt ANTS_ERROR_INVALID_ARG
  else if len =? 0 then Err tt ANTS_ERROR_MALFORMED
  else
    match ants_cbor_dec_init buf len with
    | Ok _ dec =>
      match walk_one_item (S (Z.to_nat len)) dec with
      | Ok dec' _ =>
        if negb (ants_cbor_dec_eof dec') then Err tt ANTS_ERROR_MALFORMED
        else if negb (dec_depth dec' =? -1) then Err tt ANTS_ERROR_MALFORMED
        else Ok tt tt
      | Err _ e => Err tt e
      | UB => UB
      | NoFuel => NoFuel
      end
    | Err _ e => Err tt e
    | UB => UB
    | NoFuel => NoFuel
    end.

(** ** How the other components use the codec

    Every encoder of a record is [ants_cbor_enc_init] on the caller's buffer,
    the calls [m] with [if (rc != ANTS_OK) return rc;] after each,
    [ants_cbor_enc_finalise], and [*out_len = ants_cbor_enc_size].  The state
    of the action is the caller's buffer. *)
Definition with_encoder (cap : Z) (m : action ants_cbor_enc_t unit) : action bytes Z :=
  fun buf =>
  match ants_cbor_enc_init (Some buf) cap with
  | Ok _ e =>
    match (m ;* ants_cbor_enc_finalise) e with
    | Ok e' _ => Ok (enc_buf e') (ants_cbor_enc_size e')
    | Err e' err => Err (enc_buf e') err
    | UB => UB
    | NoFuel => NoFuel
    end
  | Err _ err => Err buf err
  | UB => UB
  | NoFuel => NoFuel
  end.

(** Every decoder of a record is [ants_cbor_dec_init], the calls [m], which
    fill the record of the caller as they go, and [ants_cbor_dec_finalise];
    [norm_init] and [norm] are the component's foldings of the codec's error
    codes on the first and the last call. *)
Definition with_decoder {T} (norm_init norm : ants_error_t -> ants_error_t) (buf : option bytes)
  (len : Z) (m : action (ants_cbor_dec_t * T) unit) : action T unit :=
  fun rec =>
  match ants_cbor_dec_init buf len with
  | Ok _ d =>
    match (m ;* on_fst (map_err norm ants_cbor_dec_finalise)) (d, rec) with
    | Ok (_, rec') _ => Ok rec' tt
    | Err (_, rec') e => Err rec' e
    | UB => UB
    | NoFuel => NoFuel
    end
  | Err _ e => Err rec (norm_init e)
  | UB => UB
  | NoFuel => NoFuel
  end.
