(* ===== verification/CborSpec.v ===== *)
(** * What the CBOR codec promises: values, canonical bytes, open containers

    The abstract side of the codec: CBOR data items of the deterministic
    profile (RFC 8949 §4.2.1, no floats, reserved tags only), their one
    canonical encoding, well-formedness, and the container tracker as a
    machine on open containers that knows nothing of buffers or positions.
    The theorems of [CborTrack], [CborEnc] and [CborDec] show that cbor.c
    implements it. *)

From S2P Require Import Prelude Cbor.

(** ** Canonical heads *)

Fixpoint be_bytes (n : nat) (v : Z) : bytes :=
  match n with
  | O => []
  | S n' => (v / 256 ^ Z.of_nat n') mod 256 :: be_bytes n' v
  end.

Definition encode_head (major v : Z) : bytes :=
  if v <? 24 then [major * 32 + v]
  else if v <? 2 ^ 8 then (major * 32 + 24) :: be_bytes 1 v
  else if v <? 2 ^ 16 then (major * 32 + 25) :: be_bytes 2 v
  else if v <? 2 ^ 32 then (major * 32 + 26) :: be_bytes 4 v
  else (major * 32 + 27) :: be_bytes 8 v.

(** ** Data items *)

(** [CNint n] is the negative integer [-1 - n]. *)
#[local] Unset Elimination Schemes.
Inductive cbor : Type :=
| CUint (v : Z)
| CNint (n : Z)
| CBytes (b : bytes)
| CText (b : bytes)
| CArray (l : list cbor)
| CMap (l : list (cbor * cbor))
| CTag (t : Z) (c : cbor)
| CBool (b : bool)
| CNull.
#[local] Set Elimination Schemes.

Section cbor_induction.
Context (P : cbor -> Prop).
Context (HU : forall v, P (CUint v)) (HN : forall n, P (CNint n))
        (HB : forall b, P (CBytes b)) (HT : forall b, P (CText b))
        (HA : forall l, Forall P l -> P (CArray l))
        (HM : forall l, Forall (fun p => P p.1 /\ P p.2) l -> P (CMap l))
        (HG : forall t c, P c -> P (CTag t c))
        (HO : forall b, P (CBool b)) (HX : P CNull).

(** Structural induction that reaches the items inside containers. *)
Fixpoint cbor_rect' (c : cbor) : P c :=
  match c with
  | CUint v => HU v
  | CNint n => HN n
  | CBytes b => HB b
  | CText b => HT b
  | CArray l => HA l ((fix go l : Forall P l :=
      match l with
      | [] => Forall_nil_2 P
      | x :: l' => Forall_cons_2 P x l' (cbor_rect' x) (go l')
      end) l)
  | CMap l => HM l ((fix go l : Forall (fun p => P p.1 /\ P p.2) l :=
      match l with
      | [] => Forall_nil_2 _
      | (k, v) :: l' =>
        Forall_cons_2 (fun p => P p.1 /\ P p.2) (k, v) l'
          (conj (cbor_rect' k) (cbor_rect' v)) (go l')
      end) l)
  | CTag t c => HG t c (cbor_rect' c)
  | CBool b => HO b
  | CNull => HX
  end.
End cbor_induction.

Fixpoint encode (c : cbor) : bytes :=
  match c with
  | CUint v => encode_head 0 v
  | CNint n => encode_head 1 n
  | CBytes b => encode_head 2 (zlen b) ++ b
  | CText b => encode_head 3 (zlen b) ++ b
  | CArray l => encode_head 4 (zlen l) ++ concat (map encode l)
  | CMap l => encode_head 5 (zlen l) ++
              concat (map (fun p => let '(k, v) := p in encode k ++ encode v) l)
  | CTag t c => encode_head 6 t ++ encode c
  | CBool b => [if b then 0xf5 else 0xf4]
  | CNull => [0xf6]
  end.

(** Strictly increasing in the bytewise order of RFC 8949 §4.2.1. *)
Definition key_lt (a b : bytes) : Prop := compare_keys a b < 0.

Definition encoded_keys (l : list (cbor * cbor)) : list bytes :=
  map (fun p => encode p.1) l.

(** The items of the deterministic profile. *)
Fixpoint wf (c : cbor) : Prop :=
  match c with
  | CUint v => is_u64 v
  | CNint n => 0 <= n <= INT64_MAX
  | CBytes b | CText b => bytes_ok b /\ zlen b <= SIZE_MAX
  | CArray l => zlen l <= SIZE_MAX /\ foldr (fun x Q => wf x /\ Q) True l
  | CMap l => zlen l <= SIZE_MAX /\ Sorted key_lt (encoded_keys l) /\
              foldr (fun p Q => let '(k, v) := p in (wf k /\ wf v) /\ Q) True l
  | CTag t c => tag_reserved t = true /\ wf c
  | CBool _ | CNull => True
  end.

(** Number of contexts an item needs while it is being written or read. *)
Fixpoint height (c : cbor) : nat :=
  match c with
  | CArray [] | CMap [] => 0
  | CArray l => S (foldr (fun x h => Nat.max (height x) h) 0%nat l)
  | CMap l => S (foldr (fun p h => let '(k, v) := p in
                   Nat.max (Nat.max (height k) (height v)) h) 0%nat l)
  | CTag _ c => S (height c)
  | _ => 0
  end.

(** ** The tracker on open containers *)

(** What an open container expects next.  A map remembers its last key. *)
Inductive fstate : Type :=
| FArr
| FKey (last : option bytes)
| FVal (key : bytes)
| FTag.

(** An open container: what it expects, how many items (pairs for a map) it
    still misses, and the bytes of its head and completed items. *)
Record frame : Type := Frame { f_st : fstate; f_rem : Z; f_bytes : bytes }.

(** Register the bytes of a complete item with the open containers, innermost
    first; a container that becomes complete is an item of its parent.  [None]
    is a map key that is not larger than the previous one. *)
Fixpoint track (fs : list frame) (item : bytes) : option (list frame) :=
  match fs with
  | [] => Some []
  | Frame st rem fb :: fs' =>
    match st with
    | FArr | FTag =>
      if rem =? 1 then track fs' (fb ++ item)
      else Some (Frame st (rem - 1) (fb ++ item) :: fs')
    | FKey last =>
      match last with
      | Some k => if compare_keys k item <? 0
                  then Some (Frame (FVal item) rem (fb ++ item) :: fs') else None
      | None => Some (Frame (FVal item) rem (fb ++ item) :: fs')
      end
    | FVal k =>
      if rem =? 1 then track fs' (fb ++ item)
      else Some (Frame (FKey (Some k)) (rem - 1) (fb ++ item) :: fs')
    end
  end.

(** ** Facts about items *)

Lemma wf_array l : wf (CArray l) <-> zlen l <= SIZE_MAX /\ Forall wf l.
Proof.
  cbn [wf]. f_equiv. induction l as [|x l IH]; cbn; [by split|].
  by rewrite IH, Forall_cons.
Qed.

Lemma wf_map l :
  wf (CMap l) <-> zlen l <= SIZE_MAX /\ Sorted key_lt (encoded_keys l) /\
                  Forall (fun p => wf p.1 /\ wf p.2) l.
Proof.
  cbn [wf]. f_equiv. f_equiv. induction l as [|[k v] l IH]; cbn; [by split|].
  by rewrite IH, Forall_cons.
Qed.

Lemma height_array_item l x : x ∈ l -> (S (height x) <= height (CArray l))%nat.
Proof.
  intros Hx. assert (height (CArray l) =
    S (foldr (fun x h => Nat.max (height x) h) 0%nat l)) as ->.
  { destruct l; [by apply not_elem_of_nil in Hx | done]. }
  apply le_n_S. induction Hx; cbn; lia.
Qed.

Lemma height_map_item l k v : (k, v) ∈ l ->
  (S (height k) <= height (CMap l))%nat /\ (S (height v) <= height (CMap l))%nat.
Proof.
  intros Hx. assert (height (CMap l) =
    S (foldr (fun p h => let '(k, v) := p in
         Nat.max (Nat.max (height k) (height v)) h) 0%nat l)) as ->.
  { destruct l; [by apply not_elem_of_nil in Hx | done]. }
  enough (height k <= _ /\ height v <= _)%nat as [? ?] by (split; apply le_n_S; eassumption).
  remember (k, v) as p eqn:Hp.
  induction Hx as [? l|? [k' v'] l ? IH]; subst; cbn; [lia|].
  destruct (IH eq_refl). lia.
Qed.

Lemma encode_array_cons x l :
  concat (map encode (x :: l)) = encode x ++ concat (map encode l).
Proof. reflexivity. Qed.

(** The bytes of the pairs of a map. *)
Definition encode_pairs (l : list (cbor * cbor)) : bytes :=
  concat (map (fun p => let '(k, v) := p in encode k ++ encode v) l).

Lemma encode_pairs_cons k v l :
  encode_pairs ((k, v) :: l) = encode k ++ encode v ++ encode_pairs l.
Proof. unfold encode_pairs. cbn. by rewrite app_assoc. Qed.

Lemma be_bytes_length n v : length (be_bytes n v) = n.
Proof. induction n; cbn; by f_equal. Qed.

Lemma be_bytes_ok n v : bytes_ok (be_bytes n v).
Proof.
  induction n; cbn; constructor; [|done]. apply Z.mod_pos_bound. lia.
Qed.

Lemma encode_head_length major v : 1 <= zlen (encode_head major v) <= 9.
Proof. unfold encode_head, zlen. repeat case_match; cbn; lia. Qed.

Lemma encode_head_ne major v : encode_head major v <> [].
Proof. unfold encode_head. repeat case_match; done. Qed.

Lemma encode_head_ok major v :
  0 <= major <= 7 -> 0 <= v -> bytes_ok (encode_head major v).
Proof.
  intros Hm Hv. unfold encode_head. repeat case_match; breflect;
    (constructor; [zlia|]); try apply be_bytes_ok. constructor.
Qed.

Lemma encode_ne c : encode c <> [].
Proof.
  destruct c; cbn [encode]; try done; try apply encode_head_ne;
    intros H; apply app_eq_nil in H as [H _]; by apply encode_head_ne in H.
Qed.

Lemma encode_zlen_ne c : zlen (encode c) <> 0.
Proof. pose proof (encode_ne c). destruct (encode c); [done|]. unfold zlen. cbn [length]. lia. Qed.

(** ** Facts about the tracker *)

(** Several items in a row. *)
Fixpoint track_all (fs : list frame) (items : list bytes) : option (list frame) :=
  match items with
  | [] => Some fs
  | i :: items' => match track fs i with
                   | Some fs' => track_all fs' items'
                   | None => None
                   end
  end.

Lemma track_length fs item fs' : track fs item = Some fs' -> (length fs' <= length fs)%nat.
Proof.
  revert item. induction fs as [|[st rem fb] fs IH]; intros item; cbn [track].
  { by intros [= <-]. }
  destruct st as [|[k|]|k|]; try case_match; intros Ht; simplify_eq/=; try lia;
    apply IH in Ht; lia.
Qed.

(** An array (or the tag, with one item) absorbs its items and becomes an
    item of its parent. *)
Lemma track_array st fs hd items :
  st = FArr \/ st = FTag -> items <> [] ->
  track_all (Frame st (zlen items) hd :: fs) items = track fs (hd ++ concat items).
Proof.
  intros Hst. revert hd. induction items as [|i items IH]; intros hd Hne; [done|].
  cbn [track_all concat]. rewrite app_assoc.
  assert (Hstep : track (Frame st (zlen (i :: items)) hd :: fs) i =
    if zlen (i :: items) =? 1 then track fs (hd ++ i)
    else Some (Frame st (zlen (i :: items) - 1) (hd ++ i) :: fs)).
  { by destruct Hst as [-> | ->]. }
  rewrite Hstep. clear Hstep. rewrite zlen_cons. destruct items as [|j items].
  - cbn. rewrite app_nil_r. by destruct (track fs _).
  - rewrite zlen_cons. pose proof (zlen_nonneg items). bdecide.
    rewrite <- IH by done. rewrite zlen_cons. do 3 f_equal. lia.
Qed.

(** The items of a map, keys and values alternating. *)
Definition pair_items (l : list (bytes * bytes)) : list bytes :=
  concat (map (fun p => [p.1; p.2]) l).

Lemma track_map fs hd last l :
  l <> [] -> Sorted key_lt (option_list last ++ map fst l) ->
  track_all (Frame (FKey last) (zlen l) hd :: fs) (pair_items l) =
    track fs (hd ++ concat (pair_items l)).
Proof.
  revert hd last. induction l as [|[k v] l IH]; intros hd last Hne Hs; [done|].
  cbn [pair_items map concat app track_all fst snd].
  assert (track (Frame (FKey last) (zlen ((k, v) :: l)) hd :: fs) k =
    Some (Frame (FVal k) (zlen ((k, v) :: l)) (hd ++ k) :: fs)) as ->.
  { destruct last as [k'|]; cbn [track]; [|done]. apply Sorted_inv in Hs as [_ Hhd].
    apply HdRel_inv in Hhd. unfold key_lt in Hhd. cbn [fst] in Hhd. by bdecide. }
  cbn [track]. rewrite zlen_cons. rewrite !app_assoc. destruct l as [|p l].
  - cbn. rewrite app_nil_r. by destruct (track fs _).
  - rewrite zlen_cons. pose proof (zlen_nonneg l). bdecide.
    change (concat (map _ (p :: l))) with (pair_items (p :: l)).
    rewrite <- (IH _ (Some k)); [|done|].
    + rewrite zlen_cons. do 3 f_equal. lia.
    + destruct last; cbn in Hs; [by apply Sorted_inv in Hs as [? _] | done].
Qed.

(** Conversely, a map that was accepted had strictly increasing keys. *)
Lemma track_map_sorted fs hd last rem l fs' :
  zlen l <= rem ->
  track_all (Frame (FKey last) rem hd :: fs) (pair_items l) = Some fs' ->
  Sorted key_lt (option_list last ++ map fst l).
Proof.
  revert hd last rem. induction l as [|[k v] l IH]; intros hd last rem Hrem H.
  { rewrite app_nil_r. destruct last; repeat constructor. }
  cbn [pair_items map concat app track_all fst snd] in H. rewrite zlen_cons in Hrem.
  assert (Hk : track (Frame (FKey last) rem hd :: fs) k =
                 Some (Frame (FVal k) rem (hd ++ k) :: fs) /\
               match last with Some k' => key_lt k' k | None => True end).
  { destruct last as [k'|]; cbn [track] in *; [|by repeat constructor].
    destruct (Z.ltb_spec (compare_keys k' k) 0); [by repeat constructor | done]. }
  destruct Hk as [Htr Hlt]. rewrite Htr in H. cbn [track] in H.
  assert (Hrest : Sorted key_lt (k :: map fst l)).
  { destruct l as [|p l]; [by repeat constructor|].
    rewrite zlen_cons in Hrem. pose proof (zlen_nonneg l).
    replace (rem =? 1) with false in H by zlia.
    apply (IH _ (Some k)) in H; [done | rewrite zlen_cons; lia]. }
  destruct last as [k'|]; cbn; [|done]. by constructor; [|constructor].
Qed.

(** ** Big-endian integers *)

Fixpoint be_value (a : Z) (bs : bytes) : Z :=
  match bs with
  | [] => a
  | b :: bs' => be_value (a * 256 + b) bs'
  end.

Lemma be_value_acc a bs : be_value a bs = a * 256 ^ zlen bs + be_value 0 bs.
Proof.
  revert a. induction bs as [|b bs IH]; intros a; cbn [be_value].
  { rewrite zlen_nil. lia. }
  pose proof (zlen_nonneg bs). rewrite (IH (a * 256 + b)), (IH (0 * 256 + b)), zlen_cons.
  rewrite Z.pow_add_r by lia. lia.
Qed.

Lemma be_value_bound bs : bytes_ok bs -> 0 <= be_value 0 bs < 256 ^ zlen bs.
Proof.
  induction 1 as [|b bs Hb _ IH]; cbn [be_value]; [by split|].
  pose proof (zlen_nonneg bs). rewrite be_value_acc, zlen_cons, Z.pow_add_r by lia.
  unfold is_u8 in Hb. change (2 ^ 8) with 256 in Hb.
  assert (b * 256 ^ zlen bs <= 255 * 256 ^ zlen bs) by (apply Z.mul_le_mono_nonneg_r; lia).
  assert (0 <= b * 256 ^ zlen bs) by (apply Z.mul_nonneg_nonneg; lia). lia.
Qed.

Lemma be_bytes_mod_eq n v w :
  v mod 256 ^ Z.of_nat n = w mod 256 ^ Z.of_nat n -> be_bytes n v = be_bytes n w.
Proof.
  induction n as [|n IH]; intros H; [done|].
  assert (Hp : 256 ^ Z.of_nat (S n) = 256 ^ Z.of_nat n * 256).
  { rewrite Nat2Z.inj_succ, Z.pow_succ_r by lia. lia. }
  assert (0 < 256 ^ Z.of_nat n) by (apply Z.pow_pos_nonneg; lia).
  cbn [be_bytes]. f_equal.
  - rewrite Hp in H. rewrite !Z.rem_mul_r in H by lia.
    apply (f_equal (fun z => z / 256 ^ Z.of_nat n)) in H.
    rewrite !(Z.mul_comm (256 ^ Z.of_nat n)), !Z.div_add in H by lia.
    rewrite !(Z.div_small (_ mod _)) in H by (apply Z.mod_pos_bound; lia). exact H.
  - apply IH. rewrite Hp in H.
    rewrite <- (Z.mod_mod_divide v (256 ^ Z.of_nat n * 256)), H, Z.mod_mod_divide;
      [done | by apply Z.divide_factor_l ..].
Qed.

Lemma be_bytes_value bs : bytes_ok bs -> be_bytes (length bs) (be_value 0 bs) = bs.
Proof.
  induction 1 as [|b bs Hb Hbs IH]; [done|].
  pose proof (be_value_bound bs Hbs) as Hv. unfold zlen in Hv.
  cbn [length be_bytes be_value]. rewrite be_value_acc. unfold zlen. f_equal.
  - rewrite Z.add_comm, Z.div_add by (apply Z.pow_nonzero; lia).
    rewrite Z.div_small by lia. unfold is_u8 in Hb. apply Z.mod_small. lia.
  - etransitivity; [|exact IH]. apply be_bytes_mod_eq.
    rewrite Z.add_comm, Z.mod_add by (apply Z.pow_nonzero; lia). done.
Qed.

Lemma be_value_bytes n v : be_value 0 (be_bytes n v) = v mod 256 ^ Z.of_nat n.
Proof.
  assert (Hz : zlen (be_bytes n v) = Z.of_nat n) by (unfold zlen; by rewrite be_bytes_length).
  induction n as [|n IH]; [by rewrite Z.mod_1_r|].
  cbn [be_bytes be_value]. rewrite be_value_acc.
  assert (zlen (be_bytes n v) = Z.of_nat n) as Hn by (unfold zlen; by rewrite be_bytes_length).
  rewrite (IH Hn), Hn. rewrite Nat2Z.inj_succ, Z.pow_succ_r, (Z.mul_comm 256) by lia.
  rewrite Z.rem_mul_r by (try apply Z.pow_nonzero; lia). lia.
Qed.
