(* ===== verification/CborTrack.v ===== *)
(** * The context array of cbor.c implements the abstract tracker

    [frames_rep] relates the bytes in front of the codec's position and its
    context array to the open containers of [CborSpec]; [track_loop_refines]
    is the simulation of [track] by the loop of [enc_track_item] and
    [dec_track_item]. *)

From S2P Require Import Prelude Cbor CborSpec.

(** ** Representation *)

Definition kind_of (st : fstate) : ants_cbor_ctx_kind_t :=
  match st with
  | FArr => ANTS_CBOR_CTX_ARRAY
  | FKey _ => ANTS_CBOR_CTX_MAP_KEY
  | FVal _ => ANTS_CBOR_CTX_MAP_VALUE
  | FTag => ANTS_CBOR_CTX_TAG
  end.

(** The byte range of the last key, inside the bytes before the position. *)
Definition key_rep (pre : bytes) (ctx : ants_cbor_ctx_t) (st : fstate) : Prop :=
  match st with
  | FKey None => last_key_end ctx = 0
  | FKey (Some k) | FVal k =>
    0 < last_key_end ctx /\ 0 <= last_key_begin ctx <= last_key_end ctx /\
    last_key_end ctx <= zlen pre /\
    slice pre (last_key_begin ctx) (last_key_end ctx - last_key_begin ctx) = Some k
  | FArr | FTag => True
  end.

Fixpoint frames_rep (pre : bytes) (stack : list ants_cbor_ctx_t) (fs : list frame)
  : Prop :=
  match fs with
  | [] => True
  | f :: fs' =>
    exists pre' ctx,
      pre = pre' ++ f_bytes f /\ f_bytes f <> [] /\
      stack !! length fs' = Some ctx /\
      kind ctx = kind_of (f_st f) /\
      remaining ctx = f_rem f /\ 1 <= f_rem f <= SIZE_MAX /\
      container_begin ctx = zlen pre' /\
      key_rep pre ctx (f_st f) /\
      frames_rep pre' stack fs'
  end.

(** The contexts above the open ones are never looked at. *)
Lemma frames_rep_insert pre stack fs i ctx :
  (length fs <= i)%nat -> frames_rep pre stack fs -> frames_rep pre (<[i := ctx]> stack) fs.
Proof.
  revert pre. induction fs as [|f fs IH]; intros pre Hi; cbn in *; [done|].
  intros (pre' & c & ? & ? & ? & ? & ? & ? & ? & ? & ?). exists pre', c.
  rewrite list_lookup_insert_ne by lia. split_and!; try (done || lia). apply IH; [lia|done].
Qed.

Lemma key_rep_app pre x ctx st : key_rep pre ctx st -> key_rep (pre ++ x) ctx st.
Proof.
  pose proof (zlen_nonneg x).
  destruct st as [|[k|]|k|]; cbn; rewrite ?zlen_app; intros; [done|..|done].
  all: destruct_and?; split_and?; try lia; by apply slice_app_l.
Qed.

(** The key just read is the range from its first byte to the position. *)
Lemma key_rep_new pre item stk rem cb :
  item <> [] ->
  key_rep (pre ++ item) (mk_ctx stk rem cb (zlen pre) (zlen (pre ++ item))) (FVal item).
Proof.
  intros Hne. pose proof (zlen_nonneg pre). cbn. rewrite zlen_app.
  assert (1 <= zlen item) by (destruct item; [done | rewrite zlen_cons; pose proof (zlen_nonneg item); lia]).
  split_and!; try lia. replace (zlen pre + zlen item - zlen pre) with (zlen item) by lia.
  pose proof (slice_mid pre item []) as Hs. by rewrite app_nil_r in Hs.
Qed.

(** ** Simulation *)

Section simulation.
Context (buf post : bytes) (pos : Z).
Context (Hsize : zlen buf <= INT64_MAX).

(** The two key ranges the loop compares are the abstract keys. *)
Lemma key_slices pre item ctx k st :
  buf = (pre ++ item) ++ post -> pos = zlen (pre ++ item) -> item <> [] ->
  st = FKey (Some k) \/ st = FVal k ->
  key_rep pre ctx st ->
  (0 <? last_key_end ctx) = true /\
  slice buf (last_key_begin ctx) (size_sub (last_key_end ctx) (last_key_begin ctx)) = Some k /\
  slice buf (zlen pre) (size_sub pos (zlen pre)) = Some item.
Proof.
  intros Hb Hp Hne Hst Hk.
  assert (0 < last_key_end ctx /\ 0 <= last_key_begin ctx <= last_key_end ctx /\
    last_key_end ctx <= zlen pre /\
    slice pre (last_key_begin ctx) (last_key_end ctx - last_key_begin ctx) = Some k)
    as (? & ? & ? & Hs) by (destruct Hst as [-> | ->]; exact Hk).
  rewrite Hb, !zlen_app in Hsize. rewrite zlen_app in Hp.
  pose proof (zlen_nonneg pre). pose proof (zlen_nonneg item).
  pose proof (zlen_nonneg post).
  split_and!; [by apply Z.ltb_lt| |].
  - rewrite size_sub_small by zlia. rewrite Hb. by apply slice_app_l, slice_app_l.
  - rewrite size_sub_small by zlia. rewrite Hb, <- app_assoc.
    replace (pos - zlen pre) with (zlen item) by lia. apply slice_mid.
Qed.

Definition refines_track (pre item : bytes) (fs : list frame)
  (r : outcome (list ants_cbor_ctx_t * Z) unit) (n bound : nat) : Prop :=
  match track fs item with
  | Some fs' =>
    exists stack', r = Ok (stack', Z.of_nat (length fs') - 1) tt /\
      frames_rep (pre ++ item) stack' fs' /\ length stack' = n /\
      (length fs' <= bound)%nat
  | None => exists s, r = Err s ANTS_ERROR_NON_CANONICAL
  end.

Lemma refines_track_weaken pre item fs r n b b' :
  (b <= b')%nat -> refines_track pre item fs r n b -> refines_track pre item fs r n b'.
Proof.
  unfold refines_track. intros Hb. destruct (track fs item); [|done].
  intros (st & ? & ? & ? & ?). exists st. split_and!; try done. lia.
Qed.

Lemma track_loop_refines fs pre item stack :
  buf = (pre ++ item) ++ post -> pos = zlen (pre ++ item) -> item <> [] ->
  frames_rep pre stack fs ->
  refines_track pre item fs
    (track_loop buf pos (length fs) (zlen pre) stack) (length stack) (length fs).
Proof.
  unfold refines_track. revert pre item stack.
  induction fs as [|[st rem fb] fs IH]; intros pre item stack Hb Hp Hne.
  { intros _. cbn. eauto. }
  cbn [frames_rep f_bytes f_st f_rem].
  intros (pre' & ctx & Hpre & Hfb & Hlk & Hkind & Hrem & Hrange & Hcb & Hkey & Hrep).
  cbn [length track_loop track]. rewrite Hlk, Hkind, Hrem, Hcb.
  assert (Hlen : (length fs < length stack)%nat) by (by eapply lookup_lt_Some).
  rewrite size_sub_small by zlia.
  replace (rem =? 0) with false by zlia.
  (* closing the container *)
  assert (Hclose : refines_track pre' (fb ++ item) fs
    (track_loop buf pos (length fs) (zlen pre')
       (<[length fs:=mk_ctx (kind_of st) (rem - 1) (zlen pre') (last_key_begin ctx)
                      (last_key_end ctx)]> stack)) (length stack) (S (length fs))).
  { eapply refines_track_weaken; [apply Nat.le_succ_diag_r|].
    unfold refines_track. erewrite <- (length_insert stack). apply IH.
    - by rewrite app_assoc, <- Hpre.
    - by rewrite app_assoc, <- Hpre.
    - by destruct fb.
    - by apply frames_rep_insert. }
  unfold refines_track in Hclose. rewrite app_assoc, <- Hpre in Hclose.
  (* staying in it *)
  assert (Hstay : forall ctx' st' rem',
    kind ctx' = kind_of st' -> remaining ctx' = rem' -> 1 <= rem' <= SIZE_MAX ->
    container_begin ctx' = zlen pre' -> key_rep (pre ++ item) ctx' st' ->
    exists stack', (@Ok _ unit (<[length fs := ctx']> stack, Z.of_nat (S (length fs)) - 1) tt)
      = Ok (stack', Z.of_nat (length (Frame st' rem' (fb ++ item) :: fs)) - 1) tt /\
      frames_rep (pre ++ item) stack' (Frame st' rem' (fb ++ item) :: fs) /\
      length stack' = length stack /\
      (length (Frame st' rem' (fb ++ item) :: fs) <= S (length fs))%nat).
  { intros ctx' st' rem' H1 H2 H3 H4 H5. eexists. split; [reflexivity|].
    split_and!; [|apply length_insert|done].
    exists pre', ctx'. cbn [f_bytes f_st f_rem]. split_and!; try (done || lia).
    - by rewrite Hpre, app_assoc.
    - by destruct fb.
    - by apply list_lookup_insert_eq.
    - by apply frames_rep_insert. }
  destruct st as [|last|k|]; cbn [kind_of].
  - destruct (Z.eqb_spec rem 1) as [->|]; [exact Hclose|].
    bdecide. apply Hstay; try done; zlia.
  - assert (Haccept := Hstay (mk_ctx ANTS_CBOR_CTX_MAP_VALUE rem (zlen pre') (zlen pre) pos)
      (FVal item) rem eq_refl eq_refl Hrange eq_refl
      ltac:(subst pos; by apply key_rep_new)).
    destruct last as [k|].
    + destruct (key_slices pre item ctx k (FKey (Some k))) as (-> & -> & ->); eauto.
      destruct (Z.ltb_spec (compare_keys k item) 0); bdecide; eauto.
    + cbn in Hkey. rewrite Hkey. bdecide. done.
  - destruct (Z.eqb_spec rem 1) as [->|]; [exact Hclose|].
    bdecide. apply Hstay; try done; [zlia|]. by apply (key_rep_app pre item ctx (FVal k)).
  - destruct (Z.eqb_spec rem 1) as [->|]; [exact Hclose|].
    bdecide. apply Hstay; try done; zlia.
Qed.
End simulation.
