(* ===== verification/CborEnc.v ===== *)
(** * Encoder refinement

    [enc_rep] relates an encoder object to the bytes written so far and the
    open containers.  Every encoder call either appends exactly the canonical
    bytes of its item and registers it with the open containers, or fails
    leaving both as they were; no call touches memory outside the buffer. *)

From S2P Require Import Prelude Cbor CborSpec CborTrack.

(** ** Representation *)

(** The written bytes and the bounds of the buffer. *)
Definition enc_raw (e : ants_cbor_enc_t) (pre : bytes) : Prop :=
  take (length pre) (enc_buf e) = pre /\ enc_pos e = zlen pre /\
  zlen pre <= enc_cap e /\ enc_cap e <= zlen (enc_buf e) /\
  zlen (enc_buf e) <= INT64_MAX.

Definition enc_rep (e : ants_cbor_enc_t) (pre : bytes) (fs : list frame) : Prop :=
  enc_raw e pre /\ length (enc_stack e) = 16%nat /\
  enc_depth e = Z.of_nat (length fs) - 1 /\ (length fs <= 16)%nat /\
  frames_rep pre (enc_stack e) fs.

(** Two encoder objects that differ in what is written only. *)
Definition enc_same (e e' : ants_cbor_enc_t) : Prop :=
  enc_cap e' = enc_cap e /\ enc_stack e' = enc_stack e /\ enc_depth e' = enc_depth e.

(** ** Raw writes *)

Lemma put_byte_ok e pre b :
  enc_raw e pre -> zlen pre + 1 <= enc_cap e ->
  exists e', put_byte b e = Ok e' tt /\ enc_raw e' (pre ++ [b]) /\ enc_same e e'.
Proof.
  intros (Ht & Hp & Hc & Hb & Hs) Hroom. pose proof (zlen_nonneg pre).
  unfold put_byte. rewrite Hp. repeat bdecide. cbn [andb].
  eexists. split; [reflexivity|]. split; [|done].
  unfold enc_raw. cbn [enc_buf enc_pos enc_cap].
  unfold zlen in *. rewrite length_insert, length_app, size_add_small by (cbn; zlia).
  cbn [length]. split_and!; try lia.
  rewrite Nat2Z.id, Nat.add_1_r. rewrite (take_S_r _ _ b).
  - f_equal. by rewrite take_insert_ge.
  - apply list_lookup_insert_eq. lia.
Qed.

Lemma put_bytes_ok bs e pre :
  enc_raw e pre -> zlen pre + zlen bs <= enc_cap e ->
  exists e', put_bytes bs e = Ok e' tt /\ enc_raw e' (pre ++ bs) /\ enc_same e e'.
Proof.
  revert e pre. induction bs as [|b bs IH]; intros e pre Hr Hroom; cbn [put_bytes].
  { exists e. rewrite app_nil_r. done. }
  rewrite zlen_cons in Hroom. pose proof (zlen_nonneg bs).
  destruct (put_byte_ok e pre b Hr) as (e1 & H1 & Hr1 & Hc1 & Hs1 & Hd1); [lia|].
  rewrite (bind_Ok _ _ _ _ _ H1).
  destruct (IH e1 (pre ++ [b]) Hr1) as (e2 & H2 & Hr2 & Hc2 & Hs2 & Hd2).
  { rewrite Hc1. autorewrite with ants. lia. }
  exists e2. split; [done|]. split; [by rewrite <- app_assoc in Hr2|].
  unfold enc_same. split_and!; congruence.
Qed.

Lemma bind_ext {S A B} (m : action S A) (k k' : A -> action S B) s :
  (forall a t, k a t = k' a t) -> bind m k s = bind m k' s.
Proof. intros H. unfold bind. by destruct (m s). Qed.

Lemma put_last b e : put_byte b e = put_bytes [b] e.
Proof. cbn. unfold bind, ret. by destruct (put_byte b e) as [? [] | | | ]. Qed.

Lemma put_more b m bs e :
  (forall e', m e' = put_bytes bs e') -> (put_byte b ;* m) e = put_bytes (b :: bs) e.
Proof. intros H. by apply bind_ext. Qed.

(** ** Heads *)

Lemma initial_byte major info :
  0 <= major <= 7 -> 0 <= info < 32 ->
  u8 (Z.lor (u8 (Z.shiftl major 5)) info) = major * 32 + info.
Proof.
  intros Hm Hi. rewrite (u8_small (Z.shiftl major 5)).
  - rewrite lor_disjoint by lia. apply u8_small. zlia.
  - rewrite Z.shiftl_mul_pow2 by lia. zlia.
Qed.

Lemma u8_land_ff z : u8 (Z.land z 0xff) = z mod 256.
Proof. rewrite land_ff. apply Z.mod_mod. lia. Qed.

(** The head bytes cbor.c computes by shifting and masking are the canonical
    ones. *)
Lemma cbor_write_head_bytes major v e :
  0 <= major <= 7 -> is_u64 v ->
  cbor_write_head major v e =
    (enc_room (zlen (encode_head major v)) ;* put_bytes (encode_head major v)) e.
Proof.
  intros Hm [Hv _]. unfold cbor_write_head, encode_head.
  change (2 ^ 8) with 256. change (2 ^ 16) with 65536. change (2 ^ 32) with 0x100000000.
  bdecide. cbn [be_bytes map].
  repeat bcase; rewrite ?u8_land_ff, ?shiftr_div, ?(u8_small v) by zlia;
    rewrite initial_byte by lia; apply bind_ext; intros _ e'.
  - apply put_last.
  - apply put_more; intros. rewrite put_last.
    change (256 ^ Z.of_nat 0) with 1. by rewrite Z.div_1_r, Z.mod_small by zlia.
  - repeat (apply put_more; intros). rewrite put_last.
    change (256 ^ Z.of_nat 0) with 1. by rewrite Z.div_1_r.
  - repeat (apply put_more; intros). rewrite put_last.
    change (256 ^ Z.of_nat 0) with 1. by rewrite Z.div_1_r.
  - by apply put_more.
Qed.

Lemma cbor_write_head_spec major v e pre :
  0 <= major <= 7 -> is_u64 v -> enc_raw e pre ->
  match cbor_write_head major v e with
  | Ok e' _ => enc_raw e' (pre ++ encode_head major v) /\ enc_same e e'
  | Err e' err => e' = e /\ err = ANTS_ERROR_BUFFER_TOO_SMALL /\
                  enc_cap e < zlen pre + zlen (encode_head major v)
  | UB | NoFuel => False
  end.
Proof.
  intros Hm Hv Hr. rewrite cbor_write_head_bytes by done.
  pose proof (encode_head_length major v). pose proof (zlen_nonneg pre).
  assert (enc_pos e = zlen pre /\ enc_cap e <= INT64_MAX /\ zlen pre <= enc_cap e)
    as (Hp & Hc & Hpc) by (destruct Hr as (_ & ? & ? & ? & ?); split_and!; lia).
  unfold bind, enc_room. rewrite Hp, size_add_small by zlia. bcase; [done|].
  edestruct (put_bytes_ok (encode_head major v) e pre) as (e' & -> & ? & ?); eauto.
Qed.

(** ** Strings *)

Lemma enc_copy_spec (s : bytes) e pre :
  enc_raw e pre -> zlen s <= SIZE_MAX ->
  match enc_copy (Some s) (zlen s) e with
  | Ok e' _ => enc_raw e' (pre ++ s) /\ enc_same e e'
  | Err e' err => e' = e /\ err = ANTS_ERROR_BUFFER_TOO_SMALL /\
                  enc_cap e < zlen pre + zlen s
  | UB | NoFuel => False
  end.
Proof.
  intros (Ht & Hp & Hc & Hb & Hs) Hlen. unfold enc_copy.
  pose proof (zlen_nonneg pre). pose proof (zlen_nonneg s).
  rewrite Hp, size_sub_small by zlia. bcase; [split_and!; [done..|lia]|].
  rewrite size_add_small by zlia. bcase.
  - rewrite slice_all. unfold splice. repeat bdecide. cbn [andb].
    split; [|done]. unfold enc_raw. cbn [enc_buf enc_pos enc_cap].
    rewrite zlen_to_nat, Ht, app_assoc, take_app_length, !zlen_app.
    split_and!; try done; try lia; unfold zlen in *; rewrite length_drop; lia.
  - assert (s = []) as -> by (destruct s; [done | rewrite zlen_cons in *; pose proof (zlen_nonneg s); lia]).
    rewrite app_nil_r. unfold enc_raw. cbn. rewrite zlen_nil, Z.add_0_r. done.
Qed.

(** ** Registering an item *)

Lemma enc_track_spec e e0 pre item fs :
  enc_rep e0 pre fs -> enc_raw e (pre ++ item) -> enc_same e0 e -> item <> [] ->
  match enc_track_item (zlen pre) e with
  | Ok e' _ => exists fs', track fs item = Some fs' /\ enc_rep e' (pre ++ item) fs'
  | Err e' err => e' = e /\ err = ANTS_ERROR_NON_CANONICAL /\ track fs item = None
  | UB | NoFuel => False
  end.
Proof.
  intros (_ & Hst & Hd & Hle & Hf) Hr (Hsc & Hss & Hsd) Hne.
  pose proof Hr as (Ht & Hp & Hc & Hb & Hs).
  unfold enc_track_item. rewrite Hss, Hsd, Hd, Hp.
  replace (Z.to_nat (Z.of_nat (length fs) - 1 + 1)) with (length fs) by lia.
  pose proof (track_loop_refines (enc_buf e) (drop (length (pre ++ item)) (enc_buf e))
    (zlen (pre ++ item)) Hs fs pre item (enc_stack e0)) as Href.
  unfold refines_track in Href. rewrite <- Ht in Href at 1.
  rewrite take_drop in Href. specialize (Href eq_refl eq_refl Hne Hf).
  destruct (track fs item) as [fs'|].
  - destruct Href as (st' & -> & Hf' & Hst' & Hlen'). exists fs'. split; [done|].
    split_and!; cbn; [done|congruence|done|lia|done].
  - destruct Href as (? & ->). split; [|done].
    destruct e; unfold set_enc_stack; cbn in *; congruence.
Qed.

Lemma enc_rep_reset e0 e pre item fs :
  enc_rep e0 pre fs -> enc_raw e (pre ++ item) -> enc_same e0 e ->
  enc_rep (set_enc_pos (zlen pre) e) pre fs.
Proof.
  intros (_ & Hst & Hd & Hle & Hf) (Ht & Hp & Hc & Hb & Hs) (Hsc & Hss & Hsd).
  pose proof (zlen_nonneg item). rewrite zlen_app in *.
  split_and!; cbn; try (congruence || lia).
  split_and!; cbn; try lia; try done.
  apply (f_equal (take (length pre))) in Ht.
  rewrite take_app_length, take_take in Ht. rewrite length_app, Nat.min_l in Ht by lia.
  done.
Qed.

(** ** Encoder calls *)

(** What a call that writes the item [item] does from [enc_rep e pre fs]. *)
Definition enc_post (item : bytes) (e : ants_cbor_enc_t) (pre : bytes) (fs : list frame)
  (r : outcome ants_cbor_enc_t unit) : Prop :=
  match r with
  | Ok e' _ => exists fs', track fs item = Some fs' /\
                 enc_rep e' (pre ++ item) fs' /\ enc_cap e' = enc_cap e
  | Err e' err => enc_rep e' pre fs /\ enc_cap e' = enc_cap e /\
                  (err = ANTS_ERROR_BUFFER_TOO_SMALL /\ enc_cap e < zlen pre + zlen item \/
                   err = ANTS_ERROR_NON_CANONICAL /\ track fs item = None)
  | UB | NoFuel => False
  end.

(** What a call that opens a container in state [st] with [n] items does. *)
Definition enc_post_open (st : fstate) (n : Z) (head : bytes)
  (e : ants_cbor_enc_t) (pre : bytes) (fs : list frame)
  (r : outcome ants_cbor_enc_t unit) : Prop :=
  match r with
  | Ok e' _ => (length fs < 16)%nat /\
               enc_rep e' (pre ++ head) (Frame st n head :: fs) /\ enc_cap e' = enc_cap e
  | Err e' err => enc_rep e' pre fs /\ enc_cap e' = enc_cap e /\
                  (err = ANTS_ERROR_BUFFER_TOO_SMALL /\ enc_cap e < zlen pre + zlen head \/
                   err = ANTS_ERROR_OVERFLOW /\ length fs = 16%nat)
  | UB | NoFuel => False
  end.

(** [w] writes [item], or runs out of room. *)
Definition raw_writes (w : action ants_cbor_enc_t unit) (item : bytes) : Prop :=
  forall e pre, enc_raw e pre ->
  match w e with
  | Ok e' _ => enc_raw e' (pre ++ item) /\ enc_same e e'
  | Err e' err => (exists part, enc_raw e' (pre ++ part)) /\ enc_same e e' /\
                  err = ANTS_ERROR_BUFFER_TOO_SMALL /\ enc_cap e < zlen pre + zlen item
  | UB | NoFuel => False
  end.

Lemma enc_same_refl e : enc_same e e.
Proof. done. Qed.

Lemma raw_writes_head major v :
  0 <= major <= 7 -> is_u64 v -> raw_writes (cbor_write_head major v) (encode_head major v).
Proof.
  intros Hm Hv e pre Hr. pose proof (cbor_write_head_spec major v e pre Hm Hv Hr) as H.
  destruct (cbor_write_head major v e); try done.
  destruct H as (-> & -> & ?). split_and!; try done. exists []. by rewrite app_nil_r.
Qed.

Lemma raw_writes_string major s :
  0 <= major <= 7 -> zlen s <= SIZE_MAX ->
  raw_writes (cbor_write_head major (zlen s) ;* enc_copy (Some s) (zlen s))
    (encode_head major (zlen s) ++ s).
Proof.
  intros Hm Hs e pre Hr. pose proof (zlen_nonneg s).
  pose proof (raw_writes_head major (zlen s) Hm ltac:(zlia) e pre Hr) as H1.
  unfold bind. destruct (cbor_write_head major (zlen s) e) as [e1 ?|e1 err| |]; try done.
  - destruct H1 as (Hr1 & Hc1 & Hst1 & Hd1).
    pose proof (enc_copy_spec s e1 _ Hr1 Hs) as H2.
    destruct (enc_copy (Some s) (zlen s) e1) as [e2 ?|e2 err| |]; try done.
    + destruct H2 as (Hr2 & Hc2 & Hst2 & Hd2). rewrite app_assoc. split; [done|].
      unfold enc_same. split_and!; congruence.
    + destruct H2 as (-> & -> & Hroom). split_and!; [eauto|done|done|].
      rewrite Hc1 in Hroom. rewrite zlen_app in *. lia.
  - destruct H1 as (? & ? & ? & ?). split_and!; try done.
    rewrite zlen_app. lia.
Qed.

Lemma raw_writes_simple b : raw_writes (enc_room 1 ;* put_byte b) [b].
Proof.
  intros e pre Hr. pose proof Hr as (? & Hp & ? & ? & ?).
  pose proof (zlen_nonneg pre).
  unfold bind, enc_room. rewrite Hp, size_add_small by zlia. bcase.
  - split_and!; try done. exists []. by rewrite app_nil_r.
  - destruct (put_byte_ok e pre b Hr) as (e' & -> & ? & ?); [zlia|]. done.
Qed.

Lemma enc_rep_raw e pre fs : enc_rep e pre fs -> enc_raw e pre.
Proof. by intros [? _]. Qed.

(** Write, then register, with [pos] put back on failure. *)
Lemma enc_item_spec w item e pre fs :
  raw_writes w item -> item <> [] -> enc_rep e pre fs ->
  enc_post item e pre fs (enc_item w e).
Proof.
  intros Hw Hne Hrep. pose proof (enc_rep_raw _ _ _ Hrep) as Hr.
  assert (enc_pos e = zlen pre) as Hp by apply Hr.
  specialize (Hw e pre Hr). unfold enc_item, bind, get, on_err. rewrite Hp.
  destruct (w e) as [e1 ?|e1 err| |]; try done.
  - destruct Hw as [Hr1 Hs1].
    pose proof (enc_track_spec e1 e pre item fs Hrep Hr1 Hs1 Hne) as Ht.
    destruct (enc_track_item (zlen pre) e1) as [e2 ?|e2 err| |] eqn:E; try done.
    + destruct Ht as (fs' & ? & Hrep2). exists fs'. split_and!; try done.
      unfold enc_track_item in E. repeat case_match; simplify_eq. apply Hs1.
    + destruct Ht as (-> & -> & ?). split_and!; [|apply Hs1|by right].
      by eapply enc_rep_reset.
  - destruct Hw as ((part & Hr1) & Hs1 & -> & Hroom). split_and!; [|apply Hs1|by left].
    by eapply enc_rep_reset.
Qed.

Lemma enc_push_spec e0 e pre head k st n fs :
  enc_rep e0 pre fs -> enc_raw e (pre ++ head) -> enc_same e0 e -> head <> [] ->
  kind_of st = k -> st = FArr \/ st = FKey None \/ st = FTag ->
  1 <= n <= SIZE_MAX -> (length fs < 16)%nat ->
  exists e', enc_push k n (zlen pre) e = Ok e' tt /\
    enc_rep e' (pre ++ head) (Frame st n head :: fs) /\ enc_cap e' = enc_cap e0.
Proof.
  intros (_ & Hst & Hd & Hle & Hf) Hr (Hsc & Hss & Hsd) Hne <- Hk Hn Hlt.
  unfold enc_push, push_ctx. rewrite Hss, Hsd, Hd.
  unfold zlen at 1. rewrite Hst.
  replace (Z.of_nat (length fs) - 1 + 1) with (Z.of_nat (length fs)) by lia.
  repeat bdecide. cbn [andb]. rewrite Nat2Z.id.
  eexists. split; [reflexivity|]. split; [|by cbn; congruence].
  split_and!; cbn [set_enc_stack enc_stack enc_depth length];
    [done | by rewrite length_insert | lia | lia |].
  cbn [frames_rep f_bytes f_st f_rem]. eexists pre, _. split_and!; try (done || lia).
  - apply list_lookup_insert_eq. lia.
  - done.
  - done.
  - done.
  - by destruct Hk as [-> | [-> | ->]].
  - by apply frames_rep_insert.
Qed.

(** The encoder interface: each call writes the item it names. *)

Lemma enc_uint_spec v e pre fs :
  is_u64 v -> enc_rep e pre fs ->
  enc_post (encode (CUint v)) e pre fs (ants_cbor_enc_uint v e).
Proof.
  intros Hv. apply enc_item_spec; [by apply raw_writes_head | apply encode_head_ne].
Qed.

Lemma lnot_u64 v : INT64_MIN <= v < 0 -> u64 (Z.lnot (u64 v)) = -1 - v.
Proof.
  intros H. assert (u64 v = v + 2 ^ 64) as ->.
  { symmetry. apply Z.mod_unique_pos with (-1); zlia. }
  symmetry. unfold Z.lnot. apply Z.mod_unique_pos with (-1); zlia.
Qed.

Lemma enc_int_spec v e pre fs :
  INT64_MIN <= v <= INT64_MAX -> enc_rep e pre fs ->
  enc_post (encode (if 0 <=? v then CUint v else CNint (-1 - v))) e pre fs
    (ants_cbor_enc_int v e).
Proof.
  intros Hv. unfold ants_cbor_enc_int. destruct (Z.leb_spec 0 v).
  - rewrite u64_small by zlia.
    apply enc_item_spec; [apply raw_writes_head; zlia | apply encode_head_ne].
  - rewrite lnot_u64 by lia.
    apply enc_item_spec; [apply raw_writes_head; zlia | apply encode_head_ne].
Qed.

Lemma enc_bytes_spec s e pre fs :
  zlen s <= SIZE_MAX -> enc_rep e pre fs ->
  enc_post (encode (CBytes s)) e pre fs (ants_cbor_enc_bytes (Some s) (zlen s) e).
Proof.
  intros Hs. unfold ants_cbor_enc_bytes. rewrite andb_false_r.
  apply enc_item_spec; [by apply raw_writes_string | by apply (encode_ne (CBytes s))].
Qed.

Lemma enc_text_spec s e pre fs :
  zlen s <= SIZE_MAX -> enc_rep e pre fs ->
  enc_post (encode (CText s)) e pre fs (ants_cbor_enc_text (Some s) (zlen s) e).
Proof.
  intros Hs. unfold ants_cbor_enc_text. rewrite andb_false_r.
  apply enc_item_spec; [by apply raw_writes_string | by apply (encode_ne (CText s))].
Qed.

Lemma enc_simple_item b e :
  (let* e0 := get in
   enc_room 1 ;* put_byte b ;*
   on_err (set_enc_pos (enc_pos e0)) (enc_track_item (enc_pos e0))) e =
  enc_item (enc_room 1 ;* put_byte b) e.
Proof.
  unfold enc_item, bind, get, on_err, enc_room, put_byte.
  repeat bcase; try done. by destruct e.
Qed.

Lemma enc_bool_spec b e pre fs :
  enc_rep e pre fs -> enc_post (encode (CBool b)) e pre fs (ants_cbor_enc_bool b e).
Proof.
  unfold ants_cbor_enc_bool. rewrite enc_simple_item.
  apply enc_item_spec; [apply raw_writes_simple | done].
Qed.

Lemma enc_null_spec e pre fs :
  enc_rep e pre fs -> enc_post (encode CNull) e pre fs (ants_cbor_enc_null e).
Proof.
  unfold ants_cbor_enc_null. rewrite enc_simple_item.
  apply enc_item_spec; [apply raw_writes_simple | done].
Qed.

(** Containers: the body [ants_cbor_enc_array] and [ants_cbor_enc_map] have
    in common. *)
Lemma enc_container_spec major k st n e pre fs :
  0 <= major <= 7 -> is_u64 n -> kind_of st = k -> st = FArr \/ st = FKey None ->
  enc_rep e pre fs ->
  let r :=
    (let* e := get in
     let item_begin := enc_pos e in
     on_err (set_enc_pos item_begin) (cbor_write_head major n) ;*
     if n =? 0 then on_err (set_enc_pos item_begin) (enc_track_item item_begin)
     else if ANTS_CBOR_MAX_DEPTH <=? enc_depth e + 1
     then on_err (set_enc_pos item_begin) (fail ANTS_ERROR_OVERFLOW)
     else enc_push k n item_begin) e in
  if n =? 0 then enc_post (encode_head major 0) e pre fs r
  else enc_post_open st n (encode_head major n) e pre fs r.
Proof.
  intros Hm Hn Hk Hst Hrep r. destruct (Z.eqb_spec n 0) as [->|Hn0].
  { apply (enc_item_spec (cbor_write_head major 0));
      [by apply raw_writes_head | apply encode_head_ne | done]. }
  subst r. pose proof (enc_rep_raw _ _ _ Hrep) as Hr.
  assert (enc_pos e = zlen pre) as Hp by apply Hr.
  pose proof (raw_writes_head major n Hm Hn e pre Hr) as Hw.
  unfold bind, get, on_err. rewrite Hp.
  destruct (cbor_write_head major n e) as [e1 ?|e1 err| |]; try done.
  - destruct Hw as [Hr1 Hs1].
    replace (n =? 0) with false by zlia.
    assert (enc_depth e = Z.of_nat (length fs) - 1 /\ (length fs <= 16)%nat) as [-> ?]
      by (destruct Hrep as (_ & _ & ? & ? & _); done).
    unfold ANTS_CBOR_MAX_DEPTH, fail. bcase.
    + split_and!; [by eapply enc_rep_reset | apply Hs1 | right; split; [done | lia]].
    + destruct (enc_push_spec e e1 pre (encode_head major n) k st n fs)
        as (e2 & -> & ? & ?); try done.
      * apply encode_head_ne.
      * destruct Hst; auto.
      * zlia.
      * lia.
      * split_and!; try done. lia.
  - destruct Hw as ((part & Hr1) & Hs1 & -> & Hroom). split_and!; [|apply Hs1|by left].
    by eapply enc_rep_reset.
Qed.

Lemma enc_array_spec n e pre fs :
  is_u64 n -> enc_rep e pre fs ->
  if n =? 0 then enc_post (encode (CArray [])) e pre fs (ants_cbor_enc_array n e)
  else enc_post_open FArr n (encode_head 4 n) e pre fs (ants_cbor_enc_array n e).
Proof. intros Hn Hrep. apply enc_container_spec; auto; lia. Qed.

Lemma enc_map_spec n e pre fs :
  is_u64 n -> enc_rep e pre fs ->
  if n =? 0 then enc_post (encode (CMap [])) e pre fs (ants_cbor_enc_map n e)
  else enc_post_open (FKey None) n (encode_head 5 n) e pre fs (ants_cbor_enc_map n e).
Proof. intros Hn Hrep. apply enc_container_spec; auto; lia. Qed.

Lemma enc_tag_spec t e pre fs :
  tag_reserved t = true -> enc_rep e pre fs ->
  enc_post_open FTag 1 (encode_head 6 t) e pre fs (ants_cbor_enc_tag t e).
Proof.
  intros Ht Hrep. unfold ants_cbor_enc_tag. rewrite Ht. cbn [negb].
  assert (is_u64 t) as Hu.
  { unfold tag_reserved in Ht. breflect. destruct Ht as [Ht|Ht]; breflect; [|zlia].
    destruct Ht; breflect; zlia. }
  pose proof (enc_rep_raw _ _ _ Hrep) as Hr.
  assert (enc_pos e = zlen pre) as Hp by apply Hr.
  pose proof (raw_writes_head 6 t ltac:(lia) Hu e pre Hr) as Hw.
  unfold bind, get, on_err. rewrite Hp.
  assert (enc_depth e = Z.of_nat (length fs) - 1 /\ (length fs <= 16)%nat) as [-> ?]
    by (destruct Hrep as (_ & _ & ? & ? & _); done).
  unfold ANTS_CBOR_MAX_DEPTH, fail. bcase.
  { split_and!; [done..|right; split; [done | lia]]. }
  destruct (cbor_write_head 6 t e) as [e1 ?|e1 err| |]; try done.
  - destruct Hw as [Hr1 Hs1].
    destruct (enc_push_spec e e1 pre (encode_head 6 t) ANTS_CBOR_CTX_TAG FTag 1 fs)
      as (e2 & -> & ? & ?); try done; auto using encode_head_ne; try zlia.
    split_and!; try done. lia.
  - destruct Hw as ((part & Hr1) & Hs1 & -> & Hroom). split_and!; [|apply Hs1|by left].
    by eapply enc_rep_reset.
Qed.

(** ** Writing a whole item *)

(** The calls a client makes to write an item. *)
Definition seq_actions {S} (ms : list (action S unit)) : action S unit :=
  foldr (fun m k => m ;* k) (ret tt) ms.

Fixpoint emit (c : cbor) : action ants_cbor_enc_t unit :=
  match c with
  | CUint v => ants_cbor_enc_uint v
  | CNint n => ants_cbor_enc_int (-1 - n)
  | CBytes b => ants_cbor_enc_bytes (Some b) (zlen b)
  | CText b => ants_cbor_enc_text (Some b) (zlen b)
  | CArray l => ants_cbor_enc_array (zlen l) ;* seq_actions (map emit l)
  | CMap l => ants_cbor_enc_map (zlen l) ;*
              seq_actions (map (fun p => let '(k, v) := p in emit k ;* emit v) l)
  | CTag t c => ants_cbor_enc_tag t ;* emit c
  | CBool b => ants_cbor_enc_bool b
  | CNull => ants_cbor_enc_null
  end.

(** [m] writes the bytes [item] as one item, when there is room for them, the
    key order allows them and [h] contexts are free. *)
Definition writes (m : action ants_cbor_enc_t unit) (item : bytes) (h : nat) : Prop :=
  forall e pre fs fs',
    enc_rep e pre fs -> (length fs + h <= 16)%nat ->
    zlen pre + zlen item <= enc_cap e -> track fs item = Some fs' ->
    exists e', m e = Ok e' tt /\ enc_rep e' (pre ++ item) fs' /\ enc_cap e' = enc_cap e.

Lemma writes_post m item :
  (forall e pre fs, enc_rep e pre fs -> enc_post item e pre fs (m e)) -> writes m item 0.
Proof.
  intros H e pre fs fs' Hrep _ Hroom Ht. specialize (H e pre fs Hrep).
  unfold enc_post in H. destruct (m e) as [e' []|e' err| |]; try done.
  - destruct H as (fs'' & Ht' & ? & ?). exists e'. split_and!; congruence.
  - destruct H as (_ & _ & [[_ ?]|[_ ?]]); [lia | congruence].
Qed.

(** A sequence of items is absorbed by the open containers one by one. *)
Lemma writes_seq (ms : list (action ants_cbor_enc_t unit)) (items : list bytes) h :
  Forall2 (fun m item => writes m item h) ms items ->
  forall e pre fs fs',
    enc_rep e pre fs -> (length fs + h <= 16)%nat ->
    zlen pre + zlen (concat items) <= enc_cap e ->
    track_all fs items = Some fs' ->
    exists e', seq_actions ms e = Ok e' tt /\ enc_rep e' (pre ++ concat items) fs' /\
               enc_cap e' = enc_cap e.
Proof.
  induction 1 as [|m item ms items Hm _ IH]; intros e pre fs fs' Hrep Hh Hroom Ht.
  { cbn in *. simplify_eq. exists e. by rewrite app_nil_r. }
  cbn [track_all concat seq_actions foldr] in *. rewrite zlen_app in Hroom.
  pose proof (zlen_nonneg (concat items)).
  destruct (track fs item) as [fs1|] eqn:Ht1; [|done].
  destruct (Hm e pre fs fs1) as (e1 & He1 & Hrep1 & Hc1); try done; [lia|].
  rewrite (bind_Ok _ _ _ _ _ He1).
  destruct (IH e1 (pre ++ item) fs1 fs') as (e2 & He2 & Hrep2 & Hc2); try done.
  - apply track_length in Ht1. lia.
  - rewrite zlen_app. lia.
  - exists e2. rewrite app_assoc. split_and!; try done. congruence.
Qed.

Lemma enc_post_open_ok st n head e pre fs r :
  enc_post_open st n head e pre fs r ->
  (length fs < 16)%nat -> zlen pre + zlen head <= enc_cap e ->
  exists e', r = Ok e' tt /\ enc_rep e' (pre ++ head) (Frame st n head :: fs) /\
             enc_cap e' = enc_cap e.
Proof.
  unfold enc_post_open. intros H Hl Hroom. destruct r as [e' []|e' err| |]; try done.
  - destruct H as (_ & ? & ?). eauto.
  - destruct H as (_ & _ & [[_ ?]|[_ ?]]); lia.
Qed.

Lemma writes_mono m item h h' : (h <= h')%nat -> writes m item h -> writes m item h'.
Proof. intros Hh H e pre fs fs' Hrep Hl. apply H; [done | lia]. Qed.

(** Opening a container and writing its items is writing the container. *)
Lemma writes_container (open : action ants_cbor_enc_t unit) st n head ms items h :
  (forall e pre fs, enc_rep e pre fs -> enc_post_open st n head e pre fs (open e)) ->
  Forall2 (fun m item => writes m item h) ms items ->
  (forall fs, track_all (Frame st n head :: fs) items = track fs (head ++ concat items)) ->
  writes (open ;* seq_actions ms) (head ++ concat items) (S h).
Proof.
  intros Hopen Hms Htr e pre fs fs' Hrep Hl Hroom Ht. rewrite zlen_app in Hroom.
  pose proof (zlen_nonneg (concat items)).
  destruct (enc_post_open_ok _ _ _ _ _ _ _ (Hopen e pre fs Hrep))
    as (e1 & He1 & Hrep1 & Hc1); [lia..|].
  rewrite (bind_Ok _ _ _ _ _ He1).
  destruct (writes_seq ms items h Hms e1 (pre ++ head) (Frame st n head :: fs) fs')
    as (e2 & He2 & Hrep2 & Hc2); try done.
  - cbn. lia.
  - rewrite zlen_app. lia.
  - by rewrite Htr.
  - exists e2. rewrite app_assoc. split_and!; try done. congruence.
Qed.

Lemma writes_ext m m' item h :
  (forall e, m e = m' e) -> writes m item h -> writes m' item h.
Proof. intros Hm H e pre fs fs'. rewrite <- Hm. apply H. Qed.

Lemma seq_actions_pairs {A} (f g : A -> action ants_cbor_enc_t unit) (l : list A) e :
  seq_actions (map (fun p => f p ;* g p) l) e =
  seq_actions (concat (map (fun p => [f p; g p]) l)) e.
Proof.
  revert e. induction l as [|p l IH]; intros e; [done|].
  cbn [map concat app seq_actions foldr].
  rewrite bind_assoc. apply bind_ext. intros _ e1. apply bind_ext. intros _ e2. apply IH.
Qed.

Lemma pair_items_encode l :
  concat (map (fun p => [encode p.1; encode p.2]) l) =
  pair_items (map (fun p => (encode p.1, encode p.2)) l).
Proof. unfold pair_items. by rewrite map_map. Qed.

Lemma concat_pair_items l :
  concat (concat (map (fun p => [encode p.1; encode p.2]) l)) = encode_pairs l.
Proof.
  induction l as [|[k v] l IH]; [done|]. rewrite encode_pairs_cons, <- IH.
  cbn. by rewrite ?app_nil_r.
Qed.

Lemma Forall2_map_map {A B C} (R : B -> C -> Prop) (f : A -> B) (g : A -> C) l :
  (forall x, x ∈ l -> R (f x) (g x)) -> Forall2 R (map f l) (map g l).
Proof. induction l; intros H; constructor; [apply H; left | apply IHl; intros; apply H; by right]. Qed.

Lemma emit_writes_map l :
  wf (CMap l) -> l <> [] ->
  Forall (fun p => (wf p.1 -> writes (emit p.1) (encode p.1) (height p.1)) /\
                   (wf p.2 -> writes (emit p.2) (encode p.2) (height p.2))) l ->
  writes (emit (CMap l)) (encode (CMap l)) (height (CMap l)).
Proof.
  intros Hwf Hne IH. apply wf_map in Hwf as (Hlen & Hsort & Hall).
  assert (Hh : exists h, height (CMap l) = S h) by (destruct l; [done | by eexists]).
  destruct Hh as [h Hh]. rewrite Hh. cbn [encode].
  change (concat (map _ l)) with (encode_pairs l). rewrite <- concat_pair_items.
  apply (writes_ext (ants_cbor_enc_map (zlen l) ;*
    seq_actions (concat (map (fun p => [emit p.1; emit p.2]) l)))).
  { intros e. cbn [emit]. apply bind_ext. intros _ e1.
    rewrite <- (seq_actions_pairs (fun p => emit p.1) (fun p => emit p.2)).
    assert (forall f g : cbor * cbor -> action ants_cbor_enc_t unit,
      (forall p, f p = g p) -> seq_actions (map f l) e1 = seq_actions (map g l) e1) as Hext
      by (intros f g Hfg; by rewrite (map_ext f g Hfg)).
    apply Hext. by intros [k v]. }
  apply writes_container with (st := FKey None) (n := zlen l).
  - intros e pre fs Hrep. pose proof (enc_map_spec (zlen l) e pre fs) as H.
    replace (zlen l =? 0) with false in H by (destruct l; [done | by unfold zlen; cbn]).
    pose proof (zlen_nonneg l). apply H; [zlia | done].
  - assert (forall p, p ∈ l -> writes (emit p.1) (encode p.1) h /\ writes (emit p.2) (encode p.2) h)
      as Hp.
    { rewrite Forall_forall in IH, Hall. intros [k v] Hkv.
      destruct (IH _ Hkv), (Hall _ Hkv), (height_map_item l k v Hkv).
      split; (eapply writes_mono; [|eauto]); cbn in *; lia. }
    clear -Hp. induction l as [|p l IHl]; [constructor|].
    destruct (Hp p) as [? ?]; [left|]. repeat constructor; try done.
    apply IHl. intros. apply Hp. by right.
  - intros fs. rewrite pair_items_encode.
    replace (zlen l) with (zlen (map (fun p => (encode p.1, encode p.2)) l))
      by (unfold zlen; by rewrite length_map).
    apply track_map; [by destruct l|]. cbn. rewrite map_map. exact Hsort.
Qed.

(** Writing an item of the profile appends its canonical bytes. *)
Lemma emit_writes c : wf c -> writes (emit c) (encode c) (height c).
Proof.
  induction c as [v|n|b|b|l IH|l IH|t c IH|b|] using cbor_rect'; intros Hwf.
  - apply writes_post. intros. by apply enc_uint_spec.
  - apply writes_post. intros e pre fs. pose proof (enc_int_spec (-1 - n) e pre fs) as H.
    cbn in Hwf. replace (0 <=? -1 - n) with false in H by zlia.
    replace (-1 - (-1 - n)) with n in H by lia. apply H. zlia.
  - apply writes_post. intros. apply enc_bytes_spec; [apply Hwf | done].
  - apply writes_post. intros. apply enc_text_spec; [apply Hwf | done].
  - destruct (decide (l = [])) as [->|Hne].
    { apply (writes_post (emit (CArray []))). intros e pre fs Hrep.
      cbn [emit map seq_actions foldr]. 
      pose proof (enc_array_spec 0 e pre fs ltac:(zlia) Hrep) as H. cbn [Z.eqb] in H.
      unfold bind, ret. change (zlen []) with 0.
      by destruct (ants_cbor_enc_array 0 e) as [? [] | | | ]. }
    apply wf_array in Hwf as [Hlen Hall].
    assert (Hh : exists h, height (CArray l) = S h) by (destruct l; [done | by eexists]).
    destruct Hh as [h Hh]. rewrite Hh. cbn [emit encode].
    apply writes_container with (st := FArr) (n := zlen l).
    + intros e pre fs Hrep. pose proof (enc_array_spec (zlen l) e pre fs) as H.
      replace (zlen l =? 0) with false in H by (destruct l; [done | by unfold zlen; cbn]).
      pose proof (zlen_nonneg l). apply H; [zlia | done].
    + apply Forall2_map_map. intros x Hx. rewrite Forall_forall in IH, Hall.
      eapply writes_mono; [|by apply IH; auto]. pose proof (height_array_item l x Hx). lia.
    + intros fs. replace (zlen l) with (zlen (map encode l)) by (unfold zlen; by rewrite length_map).
      apply track_array; [by left | by destruct l].
  - destruct (decide (l = [])) as [->|Hne]; [|by apply emit_writes_map].
    apply (writes_post (emit (CMap []))). intros e pre fs Hrep.
    cbn [emit map seq_actions foldr].
    pose proof (enc_map_spec 0 e pre fs ltac:(zlia) Hrep) as H. cbn [Z.eqb] in H.
    unfold bind, ret. change (zlen []) with 0.
    by destruct (ants_cbor_enc_map 0 e) as [? [] | | | ].
  - destruct Hwf as [Ht Hwf]. cbn [emit encode height].
    pose proof (writes_container (ants_cbor_enc_tag t) FTag 1 (encode_head 6 t)
      [emit c] [encode c] (height c)) as H. cbn [concat] in H. rewrite app_nil_r in H.
    apply (writes_ext (ants_cbor_enc_tag t ;* seq_actions [emit c])); [|apply H].
    + intros e. apply bind_ext. intros _ e1. cbn. unfold bind, ret.
      by destruct (emit c e1) as [? [] | | | ].
    + intros. by apply enc_tag_spec.
    + constructor; [by apply IH | constructor].
    + intros fs. pose proof (track_array FTag fs (encode_head 6 t) [encode c]) as Htr.
      cbn [concat] in Htr. rewrite app_nil_r in Htr. apply Htr; [by right | done].
  - apply writes_post. intros. by apply enc_bool_spec.
  - apply writes_post. intros. by apply enc_null_spec.
Qed.
