(* ===== verification/CborDec.v ===== *)
(** * Decoder refinement

    [dec_rep] relates a decoder object to the bytes consumed, the bytes left
    and the open containers.  Every decoder call reads inside the buffer; it
    either consumes exactly the canonical bytes of the item it returns and
    registers it, or fails leaving the decoder as it was. *)

From S2P Require Import Prelude Cbor CborSpec CborTrack.

(** ** Representation *)

Definition dec_raw (d : ants_cbor_dec_t) (pre rest : bytes) : Prop :=
  dec_buf d = pre ++ rest /\ dec_len d = zlen pre + zlen rest /\
  dec_len d <= INT64_MAX /\ dec_pos d = zlen pre /\ bytes_ok (pre ++ rest).

Definition dec_rep (d : ants_cbor_dec_t) (pre rest : bytes) (fs : list frame) : Prop :=
  dec_raw d pre rest /\ length (dec_stack d) = 16%nat /\
  dec_depth d = Z.of_nat (length fs) - 1 /\ (length fs <= 16)%nat /\
  frames_rep pre (dec_stack d) fs.

(** The decoder with [bs] more bytes consumed. *)
Definition dec_skip (pre bs : bytes) (d : ants_cbor_dec_t) : ants_cbor_dec_t :=
  set_dec_pos (zlen (pre ++ bs)) d.

Lemma dec_raw_skip d pre bs rest :
  dec_raw d pre (bs ++ rest) -> dec_raw (dec_skip pre bs d) (pre ++ bs) rest.
Proof.
  intros (Hb & Hl & Hs & Hp & Hok). unfold dec_raw. cbn.
  rewrite zlen_app in Hl. rewrite zlen_app, <- app_assoc. split_and!; try done. lia.
Qed.

Lemma dec_skip_skip pre a b d : dec_skip (pre ++ a) b (dec_skip pre a d) = dec_skip pre (a ++ b) d.
Proof. unfold dec_skip, set_dec_pos. cbn. by rewrite app_assoc. Qed.

Lemma set_pos_id d : set_dec_pos (dec_pos d) d = d.
Proof. by destruct d. Qed.

Lemma dec_raw_bounds d pre rest :
  dec_raw d pre rest -> 0 <= zlen pre /\ 0 <= zlen rest /\ zlen pre + zlen rest <= INT64_MAX.
Proof.
  intros (? & ? & ? & ? & ?). pose proof (zlen_nonneg pre). pose proof (zlen_nonneg rest). lia.
Qed.

(** ** Reading bytes *)

Lemma next_byte_ok d pre b rest :
  dec_raw d pre (b :: rest) -> next_byte d = Ok (dec_skip pre [b] d) b.
Proof.
  intros Hr. pose proof (dec_raw_bounds _ _ _ Hr). destruct Hr as (Hb & Hl & Hs & Hp & _).
  unfold next_byte. rewrite Hb, Hp, byte_at_app, size_add_small.
  - unfold dec_skip. by rewrite zlen_app.
  - rewrite zlen_cons in *. zlia.
Qed.

Lemma byte_ahead_ok d pre a b rest :
  dec_raw d pre (a ++ b :: rest) -> byte_ahead (zlen a) d = Ok d b.
Proof.
  intros Hr. pose proof (dec_raw_bounds _ _ _ Hr) as Hbd.
  pose proof (zlen_nonneg a). pose proof (zlen_nonneg rest).
  rewrite zlen_app, zlen_cons in Hbd.
  destruct Hr as (Hb & Hl & Hs & Hp & _).
  unfold byte_ahead. rewrite Hb, Hp, size_add_small by zlia.
  rewrite <- zlen_app, app_assoc, byte_at_app. done.
Qed.

Lemma advance_ok d pre bs rest n :
  dec_raw d pre (bs ++ rest) -> n = zlen bs -> advance n d = Ok (dec_skip pre bs d) tt.
Proof.
  intros Hr ->. pose proof (dec_raw_bounds _ _ _ Hr) as Hbd.
  pose proof (zlen_nonneg bs). pose proof (zlen_nonneg rest). rewrite zlen_app in Hbd.
  destruct Hr as (Hb & Hl & Hs & Hp & _).
  unfold advance, modify. rewrite Hp, size_add_small by zlia.
  unfold dec_skip. by rewrite zlen_app.
Qed.

(** A size test passes exactly when that many bytes are left. *)
Lemma dec_need_spec d pre rest n :
  dec_raw d pre rest -> 0 <= n <= 9 ->
  dec_need n d = if zlen rest <? n then Err d ANTS_ERROR_MALFORMED else Ok d tt.
Proof.
  intros Hr Hn. pose proof (dec_raw_bounds _ _ _ Hr) as Hbd.
  destruct Hr as (Hb & Hl & Hs & Hp & _). unfold dec_need.
  rewrite Hp, Hl, size_add_small by zlia.
  destruct (Z.ltb_spec (zlen pre + zlen rest) (zlen pre + n)), (Z.ltb_spec (zlen rest) n);
    try done; lia.
Qed.

Lemma read_be_ok bs rest : forall d pre v,
  dec_raw d pre (bs ++ rest) -> 0 <= v -> be_value v bs < 2 ^ 64 ->
  read_be (length bs) v d = Ok (dec_skip pre bs d) (be_value v bs).
Proof.
  induction bs as [|b bs IH]; intros d pre v Hr Hv Hlt.
  { cbn. unfold dec_skip. rewrite app_nil_r.
    destruct Hr as (_ & _ & _ & <- & _). by rewrite set_pos_id. }
  assert (bytes_ok (b :: bs)) as Hok.
  { destruct Hr as (_ & _ & _ & _ & Hok). by apply bytes_ok_app in Hok as [_ [? _]%bytes_ok_app]. }
  apply Forall_cons in Hok as [Hb Hbs]. unfold is_u8 in Hb.
  cbn [length read_be be_value app] in *.
  rewrite (bind_Ok _ _ _ _ _ (next_byte_ok _ _ _ _ Hr)).
  assert (v * 256 + b < 2 ^ 64) as Hstep.
  { rewrite be_value_acc in Hlt. pose proof (be_value_bound bs Hbs).
    assert (1 <= 256 ^ zlen bs) by (pose proof (zlen_nonneg bs); apply (Z.pow_le_mono_r 256 0); lia).
    nia. }
  assert (Z.lor (u64 (Z.shiftl v 8)) b = v * 256 + b) as ->.
  { rewrite u64_small; [by rewrite lor_disjoint by lia|].
    rewrite Z.shiftl_mul_pow2 by lia. zlia. }
  change (b :: bs ++ rest) with ([b] ++ (bs ++ rest)) in Hr.
  rewrite (IH _ (pre ++ [b])) by (try done; try lia; by apply dec_raw_skip).
  by rewrite dec_skip_skip.
Qed.

(** ** Heads *)

(** The first byte of a head splits into major type and additional
    information. *)
Lemma head_byte major info :
  0 <= major <= 7 -> 0 <= info < 32 ->
  u8 (Z.shiftr (major * 32 + info) 5) = major /\ u8 (Z.land (major * 32 + info) 0x1f) = info.
Proof.
  intros Hm Hi. rewrite shiftr_div, land_1f by lia. change (2 ^ 5) with 32.
  rewrite (Z.add_comm (major * 32)), Z.div_add, Z.mod_add, Z.div_small, Z.mod_small by lia.
  split; apply u8_small; zlia.
Qed.

Lemma byte_split b : is_u8 b ->
  exists major info, b = major * 32 + info /\ 0 <= major <= 7 /\ 0 <= info < 32.
Proof.
  intros Hb. exists (b / 32), (b mod 32). unfold is_u8 in Hb.
  pose proof (Z.mod_pos_bound b 32 ltac:(lia)). pose proof (Z_div_mod_eq_full b 32).
  split_and!; lia.
Qed.

Lemma lor4 b0 b1 b2 b3 :
  is_u8 b0 -> is_u8 b1 -> is_u8 b2 -> is_u8 b3 ->
  Z.lor (Z.lor (Z.lor (Z.shiftl b0 24) (Z.shiftl b1 16)) (Z.shiftl b2 8)) b3 =
    be_value 0 [b0; b1; b2; b3].
Proof.
  intros H0 H1 H2 H3. cbn [be_value].
  assert (forall x i j, 0 <= i -> 0 <= j -> Z.shiftl x (i + j) = Z.shiftl (Z.shiftl x i) j) as Hsh.
  { intros. by rewrite Z.shiftl_shiftl. }
  change 24 with (8 + 16). rewrite (Hsh b0 8 16), <- Z.shiftl_lor, (lor_disjoint b0 b1) by zlia.
  change 16 with (8 + 8). rewrite (Hsh _ 8 8), <- Z.shiftl_lor, lor_disjoint by zlia.
  rewrite lor_disjoint by zlia. lia.
Qed.

(** How many bytes follow a first byte with additional information [info],
    and the smallest value they may carry. *)
Definition extra_bytes (info : Z) : option (nat * Z) :=
  if info <? 24 then None
  else if info =? 24 then Some (1%nat, 24)
  else if info =? 25 then Some (2%nat, 2 ^ 8)
  else if info =? 26 then Some (4%nat, 2 ^ 16)
  else if info =? 27 then Some (8%nat, 2 ^ 32)
  else None.

(** [cbor_read_head] past its first byte, on the bytes that follow it. *)
Lemma read_head_run d pre major info rest :
  dec_raw d pre (major * 32 + info :: rest) -> 0 <= major <= 7 -> 0 <= info < 32 ->
  let d1 := dec_skip pre [major * 32 + info] d in
  cbor_read_head d =
    if info <? 24 then Ok d1 (major, info)
    else match extra_bytes info with
         | None => Err d1 ANTS_ERROR_NON_CANONICAL
         | Some (n, least) =>
           if zlen rest <? Z.of_nat n then Err d1 ANTS_ERROR_MALFORMED
           else let bs := take n rest in
                let d2 := dec_skip (pre ++ [major * 32 + info]) bs d1 in
                let v := be_value 0 bs in
                if v <? least then Err d2 ANTS_ERROR_NON_CANONICAL else Ok d2 (major, v)
         end.
Proof.
  intros Hr Hm Hi d1. pose proof (dec_raw_bounds _ _ _ Hr) as Hbd. rewrite zlen_cons in Hbd.
  pose proof (zlen_nonneg rest).
  assert (Hr1 : dec_raw d1 (pre ++ [major * 32 + info]) rest)
    by exact (dec_raw_skip d pre [_] rest Hr).
  assert (Hok : bytes_ok rest).
  { destruct Hr1 as (_ & _ & _ & _ & Hok). by apply bytes_ok_app in Hok as [_ ?]. }
  unfold cbor_read_head, bind at 1, get.
  destruct (head_byte major info Hm Hi) as [Hmaj Hinf].
  assert (Hlen : (dec_len d <=? dec_pos d) = false).
  { destruct Hr as (_ & Hl & _ & Hp & _). rewrite Hl, Hp, zlen_cons. zlia. }
  rewrite Hlen, (bind_Ok _ _ _ _ _ (next_byte_ok _ _ _ _ Hr)).
  rewrite Hmaj, Hinf. fold d1. unfold extra_bytes.
  destruct (info <? 24); [done|].
  destruct (Z.eqb_spec info 24); [|destruct (Z.eqb_spec info 25);
    [|destruct (Z.eqb_spec info 26); [|destruct (Z.eqb_spec info 27); [|done]]]];
    unfold bind at 1; rewrite (dec_need_spec _ _ _ _ Hr1) by lia;
    change (Z.of_nat 1) with 1; change (Z.of_nat 2) with 2;
    change (Z.of_nat 4) with 4; change (Z.of_nat 8) with 8;
    match goal with |- context [zlen rest <? ?n] => destruct (Z.ltb_spec (zlen rest) n) end;
    try done.
  - destruct rest as [|b rest]; [short_list|].
    rewrite (bind_Ok _ _ _ _ _ (next_byte_ok _ _ _ _ Hr1)).
    change (take 1 (b :: rest)) with [b]. cbn [be_value].
    replace (0 * 256 + b) with b by lia. by destruct (b <? 24).
  - destruct rest as [|b0 [|b1 rest]]; try short_list.
    change (b0 :: b1 :: rest) with ([b0; b1] ++ rest) in Hr1.
    apply Forall_cons in Hok as [? [? ?]%Forall_cons].
    rewrite (bind_Ok _ _ _ _ _ (byte_ahead_ok d1 _ [] b0 (b1 :: rest) Hr1)).
    rewrite (bind_Ok _ _ _ _ _ (byte_ahead_ok d1 _ [b0] b1 rest Hr1)).
    rewrite (bind_Ok _ _ _ _ _ (advance_ok d1 _ [b0; b1] rest 2 Hr1 eq_refl)).
    rewrite lor_disjoint by zlia.
    change (take 2 (b0 :: b1 :: rest)) with [b0; b1]. cbn [be_value].
    replace ((0 * 256 + b0) * 256 + b1) with (b0 * 2 ^ 8 + b1) by lia.
    by destruct (_ <? _).
  - destruct rest as [|b0 [|b1 [|b2 [|b3 rest]]]]; try short_list.
    change (b0 :: b1 :: b2 :: b3 :: rest) with ([b0; b1; b2; b3] ++ rest) in Hr1.
    apply Forall_cons in Hok as [? [? [? [? ?]%Forall_cons]%Forall_cons]%Forall_cons].
    rewrite (bind_Ok _ _ _ _ _ (byte_ahead_ok d1 _ [] b0 (b1 :: b2 :: b3 :: rest) Hr1)).
    rewrite (bind_Ok _ _ _ _ _ (byte_ahead_ok d1 _ [b0] b1 (b2 :: b3 :: rest) Hr1)).
    rewrite (bind_Ok _ _ _ _ _ (byte_ahead_ok d1 _ [b0; b1] b2 (b3 :: rest) Hr1)).
    rewrite (bind_Ok _ _ _ _ _ (byte_ahead_ok d1 _ [b0; b1; b2] b3 rest Hr1)).
    rewrite (bind_Ok _ _ _ _ _ (advance_ok d1 _ [b0; b1; b2; b3] rest 4 Hr1 eq_refl)).
    rewrite lor4 by done.
    change (take 4 (b0 :: b1 :: b2 :: b3 :: rest)) with [b0; b1; b2; b3].
    by destruct (_ <? _).
  - rewrite <- (take_drop 8 rest) in Hr1.
    assert (length (take 8 rest) = 8%nat) as Hl8 by (rewrite length_take; zlia).
    assert (Hok8 : bytes_ok (take 8 rest)) by (by apply Forall_take).
    pose proof (be_value_bound _ Hok8) as Hbv.
    unfold zlen in Hbv. rewrite Hl8 in Hbv.
    pose proof (read_be_ok (take 8 rest) (drop 8 rest) d1 _ 0 Hr1 ltac:(lia) ltac:(lia)) as Hbe.
    rewrite Hl8 in Hbe. rewrite (bind_Ok _ _ _ _ _ Hbe). by destruct (_ <? _).
Qed.

(** The bytes after the first one determine the canonical head, and vice
    versa. *)
Lemma encode_head_extra major info n least bs :
  extra_bytes info = Some (n, least) -> length bs = n -> bytes_ok bs ->
  least <= be_value 0 bs ->
  encode_head major (be_value 0 bs) = (major * 32 + info) :: bs /\ is_u64 (be_value 0 bs).
Proof.
  unfold extra_bytes. intros He Hl Hok Hv. pose proof (be_value_bound bs Hok) as Hb.
  pose proof (be_bytes_value bs Hok) as Hbb. unfold zlen in Hb. rewrite Hl in *.
  unfold encode_head.
  destruct (info <? 24); [done|].
  destruct (Z.eqb_spec info 24) as [->|]; [|destruct (Z.eqb_spec info 25) as [->|];
    [|destruct (Z.eqb_spec info 26) as [->|]; [|destruct (Z.eqb_spec info 27) as [->|]; [|done]]]];
    injection He as <- <-;
    (split; [repeat bdecide; by rewrite Hbb | zlia]).
Qed.

Lemma encode_head_cases major v :
  is_u64 v ->
  (v < 24 /\ encode_head major v = [major * 32 + v]) \/
  exists info n least bs,
    extra_bytes info = Some (n, least) /\ encode_head major v = (major * 32 + info) :: bs /\
    length bs = n /\ be_value 0 bs = v /\ least <= v /\ 24 <= info < 32.
Proof.
  intros Hv. unfold encode_head.
  assert (Hval : forall n, v < 256 ^ Z.of_nat n -> be_value 0 (be_bytes n v) = v).
  { intros n Hn. rewrite be_value_bytes. apply Z.mod_small. zlia. }
  destruct (Z.ltb_spec v 24); [by left|]. right.
  destruct (Z.ltb_spec v (2 ^ 8)); [exists 24, 1%nat, 24, (be_bytes 1 v)|
    destruct (Z.ltb_spec v (2 ^ 16)); [exists 25, 2%nat, (2 ^ 8), (be_bytes 2 v)|
      destruct (Z.ltb_spec v (2 ^ 32)); [exists 26, 4%nat, (2 ^ 16), (be_bytes 4 v)|
        exists 27, 8%nat, (2 ^ 32), (be_bytes 8 v)]]];
    rewrite Hval by zlia; split_and!; try (done || lia).
Qed.

Lemma cbor_read_head_sound d pre rest :
  dec_raw d pre rest ->
  match cbor_read_head d with
  | Ok d' (major, v) =>
    exists rest', rest = encode_head major v ++ rest' /\ 0 <= major <= 7 /\ is_u64 v /\
                  d' = dec_skip pre (encode_head major v) d
  | Err d' _ => exists p, d' = set_dec_pos p d
  | UB | NoFuel => False
  end.
Proof.
  intros Hr. destruct rest as [|b rest].
  { unfold cbor_read_head, bind at 1, get. destruct Hr as (_ & Hl & _ & Hp & _).
    rewrite Hl, Hp, zlen_nil. bdecide. exists (dec_pos d). by rewrite set_pos_id. }
  assert (Hok : is_u8 b /\ bytes_ok rest).
  { destruct Hr as (_ & _ & _ & _ & Hok).
    by apply bytes_ok_app in Hok as [_ [? ?]%Forall_cons]. }
  destruct Hok as [Hb Hok]. destruct (byte_split b Hb) as (major & info & -> & Hm & Hi).
  rewrite (read_head_run d pre major info rest Hr Hm Hi).
  destruct (Z.ltb_spec info 24) as [Hlt|Hge].
  { exists rest. assert (encode_head major info = [major * 32 + info]) as ->.
    { unfold encode_head. by bdecide. }
    split_and!; try done; zlia. }
  destruct (extra_bytes info) as [[n least]|] eqn:He; [|by eexists].
  bcase; [by eexists|]. cbn zeta. bcase; [by eexists|].
  destruct (encode_head_extra major info n least (take n rest)) as [Henc Hu]; try done.
  { rewrite length_take. zlia. }
  { by apply Forall_take. }
  exists (drop n rest). rewrite Henc. split; [|split; [done|split; [done|]]].
  - cbn. by rewrite take_drop.
  - exact (dec_skip_skip pre [_] _ d).
Qed.

Lemma cbor_read_head_complete d pre major v rest :
  dec_raw d pre (encode_head major v ++ rest) -> 0 <= major <= 7 -> is_u64 v ->
  cbor_read_head d = Ok (dec_skip pre (encode_head major v) d) (major, v).
Proof.
  intros Hr Hm Hv.
  destruct (encode_head_cases major v Hv) as [[Hlt Henc] |
    (info & n & least & bs & He & Henc & Hl & Hbv & Hle & Hi)]; rewrite Henc in *.
  - rewrite (read_head_run d pre major v rest Hr Hm) by zlia. by bdecide.
  - cbn [app] in Hr. rewrite (read_head_run d pre major info (bs ++ rest) Hr Hm) by lia.
    bdecide. rewrite He, zlen_app. unfold zlen at 1. rewrite Hl.
    pose proof (zlen_nonneg rest).
    replace (Z.of_nat n + zlen rest <? Z.of_nat n) with false by zlia.
    rewrite take_app_length' by done. cbn zeta. rewrite Hbv. bdecide.
    by rewrite dec_skip_skip.
Qed.

(** ** Registering an item *)

Lemma set_dec_pos_set p q d : set_dec_pos p (set_dec_pos q d) = set_dec_pos p d.
Proof. done. Qed.

(** After the bytes [item] have been consumed from [d]. *)
Lemma dec_register_spec d pre item rest fs :
  dec_rep d pre (item ++ rest) fs -> item <> [] ->
  match dec_register (zlen pre) (dec_skip pre item d) with
  | Ok d' _ => exists fs', track fs item = Some fs' /\ dec_rep d' (pre ++ item) rest fs'
  | Err d' err => d' = d /\ err = ANTS_ERROR_NON_CANONICAL /\ track fs item = None
  | UB | NoFuel => False
  end.
Proof.
  intros (Hr & Hst & Hd & Hle & Hf) Hne.
  pose proof (dec_raw_skip _ _ _ _ Hr) as Hr1.
  assert (Hsize : zlen (dec_buf d) <= INT64_MAX).
  { destruct Hr as (-> & Hl & ? & _). rewrite zlen_app. lia. }
  assert (Hbuf : dec_buf d = (pre ++ item) ++ rest) by apply Hr1.
  unfold dec_register, on_err, dec_track_item. cbn [dec_skip set_dec_pos dec_buf dec_pos dec_stack dec_depth].
  rewrite Hd. replace (Z.to_nat (Z.of_nat (length fs) - 1 + 1)) with (length fs) by lia.
  pose proof (track_loop_refines (dec_buf d) rest (zlen (pre ++ item)) Hsize fs pre item
    (dec_stack d) Hbuf eq_refl Hne Hf) as Href.
  unfold refines_track in Href. destruct (track fs item) as [fs'|].
  - destruct Href as (st' & -> & Hf' & Hst' & Hlen'). exists fs'. split; [done|].
    split_and!; cbn; [exact Hr1 | congruence | done | lia | done].
  - destruct Href as (? & ->). split_and!; try done.
    destruct Hr as (_ & _ & _ & Hp & _). destruct d; cbn in *.
    unfold set_dec_stack, set_dec_pos; cbn. congruence.
Qed.

(** ** Typed readers *)

(** A reader is sound when every item it returns was there, in canonical form,
    and is now registered, and a failure leaves the decoder as it was. *)
Definition reads_sound {A} (m : action ants_cbor_dec_t A) (enc : A -> cbor) : Prop :=
  forall d pre rest fs, dec_rep d pre rest fs ->
  match m d with
  | Ok d' a => exists rest' fs', rest = encode (enc a) ++ rest' /\ wf (enc a) /\
                 track fs (encode (enc a)) = Some fs' /\
                 dec_rep d' (pre ++ encode (enc a)) rest' fs'
  | Err d' _ => d' = d
  | UB | NoFuel => False
  end.

(** A reader is complete when it accepts the canonical form of [enc a]. *)
Definition reads_complete {A} (m : action ants_cbor_dec_t A) (enc : A -> cbor) : Prop :=
  forall a d pre rest fs fs',
    wf (enc a) -> dec_rep d pre (encode (enc a) ++ rest) fs ->
    track fs (encode (enc a)) = Some fs' ->
    exists d', m d = Ok d' a /\ dec_rep d' (pre ++ encode (enc a)) rest fs'.

Lemma dec_rep_raw d pre rest fs : dec_rep d pre rest fs -> dec_raw d pre rest.
Proof. by intros [? _]. Qed.

Lemma dec_head_sound d pre rest :
  dec_raw d pre rest ->
  match dec_head d with
  | Ok d' (saved, (major, v)) =>
    saved = zlen pre /\
    exists rest', rest = encode_head major v ++ rest' /\ 0 <= major <= 7 /\ is_u64 v /\
                  d' = dec_skip pre (encode_head major v) d
  | Err d' _ => d' = d
  | UB | NoFuel => False
  end.
Proof.
  intros Hr. pose proof (cbor_read_head_sound d pre rest Hr) as H.
  unfold dec_head, bind, get, on_err, ret.
  destruct (cbor_read_head d) as [d' [major v]|d' e| |]; try done.
  - split; [apply Hr | done].
  - destruct H as [p ->]. rewrite set_dec_pos_set. apply set_pos_id.
Qed.

Lemma dec_head_complete d pre major v rest :
  dec_raw d pre (encode_head major v ++ rest) -> 0 <= major <= 7 -> is_u64 v ->
  dec_head d = Ok (dec_skip pre (encode_head major v) d) (zlen pre, (major, v)).
Proof.
  intros Hr Hm Hv. unfold dec_head, bind, get, on_err, ret.
  rewrite (cbor_read_head_complete d pre major v rest Hr Hm Hv).
  do 3 f_equal. apply Hr.
Qed.

(** [{ dec->pos = saved; return e; }] undoes what was consumed. *)
Lemma dec_fail_id {A} d pre rest bs e :
  dec_raw d pre rest -> @dec_fail A (zlen pre) e (dec_skip pre bs d) = Err d e.
Proof.
  intros (_ & _ & _ & Hp & _). unfold dec_fail, on_err, fail, dec_skip.
  rewrite set_dec_pos_set, <- Hp, set_pos_id. done.
Qed.

(** Consume [item], register it and return [a]. *)
Lemma register_sound {A} d pre item rest fs (enc : A -> cbor) a :
  dec_rep d pre (item ++ rest) fs -> item = encode (enc a) -> wf (enc a) ->
  match (dec_register (zlen pre) ;* ret a) (dec_skip pre item d) with
  | Ok d' a' => exists rest' fs', item ++ rest = encode (enc a') ++ rest' /\ wf (enc a') /\
                  track fs (encode (enc a')) = Some fs' /\
                  dec_rep d' (pre ++ encode (enc a')) rest' fs'
  | Err d' _ => d' = d
  | UB | NoFuel => False
  end.
Proof.
  intros Hrep -> Hwf. pose proof (dec_register_spec d pre (encode (enc a)) rest fs Hrep
    (encode_ne _)) as H. unfold bind, ret.
  destruct (dec_register _ _) as [d' ?|d' err| |]; try done.
  - destruct H as (fs' & ? & ?). eauto 10.
  - by destruct H as (-> & _ & _).
Qed.

Lemma register_complete {A} d pre item rest fs fs' (enc : A -> cbor) a :
  dec_rep d pre (item ++ rest) fs -> item = encode (enc a) ->
  track fs item = Some fs' ->
  exists d', (dec_register (zlen pre) ;* ret a) (dec_skip pre item d) = Ok d' a /\
             dec_rep d' (pre ++ item) rest fs'.
Proof.
  intros Hrep -> Ht. pose proof (dec_register_spec d pre (encode (enc a)) rest fs Hrep
    (encode_ne _)) as H. unfold bind, ret.
  destruct (dec_register _ _) as [d' ?|d' err| |]; try done.
  - destruct H as (fs'' & ? & ?). exists d'. split; [done | congruence].
  - destruct H as (_ & _ & ?). congruence.
Qed.

Lemma dec_uint_sound : reads_sound ants_cbor_dec_uint CUint.
Proof.
  intros d pre rest fs Hrep. pose proof (dec_rep_raw _ _ _ _ Hrep) as Hr.
  pose proof (dec_head_sound d pre rest Hr) as H. unfold ants_cbor_dec_uint, bind at 1.
  destruct (dec_head d) as [d' [saved [major v]]|d' e| |]; try done.
  destruct H as (-> & rest' & -> & Hm & Hv & ->).
  destruct (Z.eqb_spec major 0) as [->|]; cbn [negb].
  - by apply register_sound.
  - by erewrite dec_fail_id.
Qed.

Lemma dec_uint_complete : reads_complete ants_cbor_dec_uint CUint.
Proof.
  intros v d pre rest fs fs' Hwf Hrep Ht. pose proof (dec_rep_raw _ _ _ _ Hrep) as Hr.
  unfold ants_cbor_dec_uint, bind at 1.
  rewrite (dec_head_complete d pre 0 v rest Hr) by (done || lia). cbn [negb Z.eqb].
  by apply (register_complete d pre _ rest fs fs' CUint v).
Qed.

(** The integers [ants_cbor_dec_int] returns, as items. *)
Definition CInt (v : Z) : cbor := if 0 <=? v then CUint v else CNint (-1 - v).

Lemma to_int64_small v : 0 <= v <= INT64_MAX -> to_int64 v = v.
Proof. intros H. unfold to_int64. rewrite u64_small by zlia. by bdecide. Qed.

Lemma dec_int_sound : reads_sound ants_cbor_dec_int CInt.
Proof.
  intros d pre rest fs Hrep. pose proof (dec_rep_raw _ _ _ _ Hrep) as Hr.
  pose proof (dec_head_sound d pre rest Hr) as H. unfold ants_cbor_dec_int, bind at 1.
  destruct (dec_head d) as [d' [saved [major v]]|d' e| |]; try done.
  destruct H as (-> & rest' & -> & Hm & Hv & ->). unfold bind at 1.
  destruct (Z.eqb_spec major 0) as [->|]; [|destruct (Z.eqb_spec major 1) as [->|]].
  1,2: bcase; [by erewrite dec_fail_id|];
    rewrite to_int64_small by zlia; unfold ret at 1.
  - apply register_sound; try done; unfold CInt; by bdecide.
  - apply register_sound; try done; unfold CInt; bdecide;
      replace (-1 - (-1 - v)) with v by lia; [done | cbn; zlia].
  - by erewrite dec_fail_id.
Qed.

Lemma dec_int_complete v d pre rest fs fs' :
  INT64_MIN <= v <= INT64_MAX -> dec_rep d pre (encode (CInt v) ++ rest) fs ->
  track fs (encode (CInt v)) = Some fs' ->
  exists d', ants_cbor_dec_int d = Ok d' v /\ dec_rep d' (pre ++ encode (CInt v)) rest fs'.
Proof.
  intros Hv Hrep Ht. pose proof (dec_rep_raw _ _ _ _ Hrep) as Hr.
  unfold ants_cbor_dec_int, bind at 1. unfold CInt in *. destruct (Z.leb_spec 0 v).
  - rewrite (dec_head_complete d pre 0 v rest Hr) by zlia. unfold bind at 1. cbn [Z.eqb].
    bdecide. rewrite to_int64_small by lia. unfold ret at 1.
    by apply (register_complete d pre _ rest fs fs' CUint v).
  - rewrite (dec_head_complete d pre 1 (-1 - v) rest Hr) by zlia. unfold bind at 1. cbn [Z.eqb Pos.eqb].
    bdecide. rewrite to_int64_small by zlia. unfold ret at 1.
    replace (-1 - (-1 - v)) with v by lia.
    apply (register_complete d pre _ rest fs fs' (fun _ : Z => CNint (-1 - v)) v); done.
Qed.

Section strings.
Context (major : Z) (mk : bytes -> cbor).
Context (Hmajor : 0 <= major <= 7)
        (Hmk : forall b, encode (mk b) = encode_head major (zlen b) ++ b)
        (Hwf : forall b, wf (mk b) <-> bytes_ok b /\ zlen b <= SIZE_MAX).

Lemma dec_string_sound : reads_sound (dec_string major) mk.
Proof.
  intros d pre rest fs Hrep. pose proof (dec_rep_raw _ _ _ _ Hrep) as Hr.
  pose proof (dec_head_sound d pre rest Hr) as H. unfold dec_string, bind at 1.
  destruct (dec_head d) as [d' [saved [m v]]|d' e| |]; try done.
  destruct H as (-> & rest' & -> & Hm & Hv & ->).
  destruct (Z.eqb_spec m major) as [->|]; cbn [negb]; [|by erewrite dec_fail_id].
  replace (SIZE_MAX <? v) with false by zlia. unfold bind at 1, get.
  pose proof (dec_raw_skip _ _ _ _ Hr) as Hr1. pose proof (dec_raw_bounds _ _ _ Hr1) as Hbd.
  destruct Hr1 as (Hbuf & Hlen & ? & Hpos & Hok).
  rewrite Hlen, Hpos, size_sub_small by zlia.
  bcase; [by erewrite dec_fail_id|]. unfold zlen in Hv.
  assert (exists s rest2, rest' = s ++ rest2 /\ v = zlen s) as (s & rest2 & -> & Hs).
  { exists (take (Z.to_nat v) rest'), (drop (Z.to_nat v) rest').
    rewrite take_drop. split; [done|]. unfold zlen in *. rewrite length_take. zlia. }
  subst v. unfold bind at 1. rewrite Hbuf, slice_mid. unfold deref.
  unfold bind at 1.
  erewrite (advance_ok _ (pre ++ encode_head major (zlen s)) s);
    [|by apply dec_raw_skip | done].
  rewrite dec_skip_skip, app_assoc, <- Hmk. rewrite app_assoc, <- Hmk in Hrep.
  apply register_sound; try done. apply Hwf.
  apply bytes_ok_app in Hok as [_ [? _]%bytes_ok_app]. split; [done | zlia].
Qed.

Lemma dec_string_complete : reads_complete (dec_string major) mk.
Proof.
  intros s d pre rest fs fs' Hs%Hwf Hrep Ht. destruct Hs as [Hok Hlen].
  pose proof (zlen_nonneg s). rewrite Hmk, <- app_assoc in Hrep.
  pose proof (dec_rep_raw _ _ _ _ Hrep) as Hr. unfold dec_string, bind at 1.
  rewrite (dec_head_complete d pre major (zlen s) _ Hr) by zlia.
  rewrite Z.eqb_refl. cbn [negb]. replace (SIZE_MAX <? zlen s) with false by zlia.
  unfold bind at 1, get.
  pose proof (dec_raw_skip _ _ _ _ Hr) as Hr1. pose proof (dec_raw_bounds _ _ _ Hr1) as Hbd.
  pose proof Hr1 as (Hbuf & Hl & ? & Hpos & _). rewrite (zlen_app s rest) in Hl, Hbd.
  pose proof (zlen_nonneg rest).
  rewrite Hl, Hpos, size_sub_small by zlia. bdecide.
  unfold bind at 1. rewrite Hbuf, slice_mid. unfold deref. unfold bind at 1.
  erewrite (advance_ok _ (pre ++ encode_head major (zlen s)) s); [|done|done].
  rewrite dec_skip_skip, <- Hmk. rewrite app_assoc, <- Hmk in Hrep.
  by apply (register_complete d pre _ rest fs fs' mk s).
Qed.
End strings.

Lemma dec_bytes_sound : reads_sound ants_cbor_dec_bytes CBytes.
Proof. by apply dec_string_sound. Qed.
Lemma dec_bytes_complete : reads_complete ants_cbor_dec_bytes CBytes.
Proof. by apply dec_string_complete. Qed.
Lemma dec_text_sound : reads_sound ants_cbor_dec_text CText.
Proof. by apply dec_string_sound. Qed.
Lemma dec_text_complete : reads_complete ants_cbor_dec_text CText.
Proof. by apply dec_string_complete. Qed.

(** ** Simple values *)

Lemma dec_simple_peek d pre b rest :
  dec_raw d pre (b :: rest) ->
  dec_need 1 d = Ok d tt /\ byte_at (dec_buf d) (dec_pos d) = Some b /\
  advance 1 d = Ok (dec_skip pre [b] d) tt /\ dec_pos d = zlen pre.
Proof.
  intros Hr. pose proof (zlen_nonneg rest). split_and!.
  - rewrite (dec_need_spec d pre _ 1 Hr) by lia. rewrite zlen_cons. by bdecide.
  - destruct Hr as (-> & _ & _ & -> & _). apply byte_at_app.
  - by apply (advance_ok d pre [b] rest 1 Hr).
  - apply Hr.
Qed.

Lemma dec_need_1_nil d pre : dec_raw d pre [] -> dec_need 1 d = Err d ANTS_ERROR_MALFORMED.
Proof. intros Hr. by rewrite (dec_need_spec d pre _ 1 Hr) by lia. Qed.

Lemma dec_bool_sound : reads_sound ants_cbor_dec_bool CBool.
Proof.
  intros d pre rest fs Hrep. pose proof (dec_rep_raw _ _ _ _ Hrep) as Hr.
  unfold ants_cbor_dec_bool, bind at 1, get. destruct rest as [|b rest].
  { unfold bind at 1. by rewrite (dec_need_1_nil d pre Hr). }
  destruct (dec_simple_peek d pre b rest Hr) as (Hn & Hb & Ha & Hp).
  rewrite (bind_Ok _ _ _ _ _ Hn). unfold bind at 1. rewrite Hb, Hp. unfold deref.
  bcase; [done|]. rewrite (bind_Ok _ _ _ _ _ Ha).
  apply (register_sound d pre [b] rest); [done| |done].
  destruct E as [E|E]; breflect; subst b; done.
Qed.

Lemma dec_bool_complete : reads_complete ants_cbor_dec_bool CBool.
Proof.
  intros v d pre rest fs fs' _ Hrep Ht. pose proof (dec_rep_raw _ _ _ _ Hrep) as Hr.
  unfold ants_cbor_dec_bool, bind at 1, get. cbn [encode] in *.
  destruct (dec_simple_peek d pre _ rest Hr) as (Hn & Hb & Ha & Hp).
  rewrite (bind_Ok _ _ _ _ _ Hn). unfold bind at 1. rewrite Hb, Hp. unfold deref.
  assert ((negb ((if v then 245 else 244) =? 244) &&
           negb ((if v then 245 else 244) =? 245)) = false) as -> by (by destruct v).
  rewrite (bind_Ok _ _ _ _ _ Ha).
  assert (((if v then 245 else 244) =? 245) = v) as -> by (by destruct v).
  by apply (register_complete d pre _ rest fs fs' CBool v).
Qed.

Lemma dec_null_sound : reads_sound ants_cbor_dec_null (fun _ => CNull).
Proof.
  intros d pre rest fs Hrep. pose proof (dec_rep_raw _ _ _ _ Hrep) as Hr.
  unfold ants_cbor_dec_null, bind at 1, get. destruct rest as [|b rest].
  { unfold bind at 1. by rewrite (dec_need_1_nil d pre Hr). }
  destruct (dec_simple_peek d pre b rest Hr) as (Hn & Hb & Ha & Hp).
  rewrite (bind_Ok _ _ _ _ _ Hn). unfold bind at 1. rewrite Hb, Hp. unfold deref.
  bcase; [done|]. rewrite (bind_Ok _ _ _ _ _ Ha). subst b.
  pose proof (dec_register_spec d pre [246] rest fs Hrep ltac:(done)) as H.
  destruct (dec_register _ _) as [d' ?|d' err| |]; try done.
  - destruct H as (fs' & ? & ?). exists rest, fs'. done.
  - by destruct H as (-> & _ & _).
Qed.

Lemma dec_null_complete : reads_complete ants_cbor_dec_null (fun _ => CNull).
Proof.
  intros [] d pre rest fs fs' _ Hrep Ht. pose proof (dec_rep_raw _ _ _ _ Hrep) as Hr.
  unfold ants_cbor_dec_null, bind at 1, get. cbn [encode] in *.
  destruct (dec_simple_peek d pre _ rest Hr) as (Hn & Hb & Ha & Hp).
  rewrite (bind_Ok _ _ _ _ _ Hn). unfold bind at 1. rewrite Hb, Hp. unfold deref.
  cbn [Z.eqb Pos.eqb negb]. rewrite (bind_Ok _ _ _ _ _ Ha).
  pose proof (dec_register_spec d pre [246] rest fs Hrep ltac:(done)) as H.
  destruct (dec_register _ _) as [d' []|d' err| |]; try done.
  - destruct H as (fs'' & ? & ?). exists d'. split; [done | congruence].
  - destruct H as (_ & _ & ?). congruence.
Qed.

(** ** Containers *)

(** The open containers after the head of a container with [n] items. *)
Definition open_result (st : fstate) (head : bytes) (n : Z) (fs fs' : list frame) : Prop :=
  if n =? 0 then track fs head = Some fs'
  else fs' = Frame st n head :: fs /\ (length fs < 16)%nat.

Lemma dec_push_ok d pre head rest fs k st n :
  dec_rep d pre (head ++ rest) fs -> head <> [] ->
  kind_of st = k -> st = FArr \/ st = FKey None \/ st = FTag ->
  1 <= n <= SIZE_MAX -> (length fs < 16)%nat ->
  exists d', dec_push k n (zlen pre) (dec_skip pre head d) = Ok d' tt /\
    dec_rep d' (pre ++ head) rest (Frame st n head :: fs).
Proof.
  intros (Hr & Hst & Hd & Hle & Hf) Hne <- Hk Hn Hlt.
  unfold dec_push, push_ctx, dec_skip. cbn [set_dec_pos dec_depth dec_stack]. rewrite Hd.
  unfold zlen at 1. rewrite Hst.
  replace (Z.of_nat (length fs) - 1 + 1) with (Z.of_nat (length fs)) by lia.
  repeat bdecide. cbn [andb]. rewrite Nat2Z.id.
  eexists. split; [reflexivity|].
  split; [exact (dec_raw_skip _ _ _ _ Hr)|].
  split_and!; cbn [set_dec_stack dec_stack dec_depth length];
    [by rewrite length_insert | lia | lia |].
  cbn [frames_rep f_bytes f_st f_rem]. eexists pre, _. split_and!; try (done || lia).
  - apply list_lookup_insert_eq. lia.
  - done.
  - done.
  - done.
  - by destruct Hk as [-> | [-> | ->]].
  - by apply frames_rep_insert.
Qed.

Lemma dec_rep_depth d pre rest fs :
  dec_rep d pre rest fs -> dec_depth d = Z.of_nat (length fs) - 1 /\ (length fs <= 16)%nat.
Proof. by intros (_ & _ & ? & ? & _). Qed.

Section containers.
Context (major : Z) (k : ants_cbor_ctx_kind_t) (st : fstate) (mk : cbor).
Context (Hmajor : 0 <= major <= 7) (Hk : kind_of st = k)
        (Hst : st = FArr \/ st = FKey None)
        (Hmk : encode mk = encode_head major 0).

Lemma dec_container_sound d pre rest fs :
  dec_rep d pre rest fs ->
  match dec_container major k d with
  | Ok d' n => exists rest' fs', rest = encode_head major n ++ rest' /\ is_u64 n /\
                 open_result st (encode_head major n) n fs fs' /\
                 dec_rep d' (pre ++ encode_head major n) rest' fs'
  | Err d' _ => d' = d
  | UB | NoFuel => False
  end.
Proof.
  intros Hrep. pose proof (dec_rep_raw _ _ _ _ Hrep) as Hr.
  pose proof (dec_head_sound d pre rest Hr) as H. unfold dec_container, bind at 1.
  destruct (dec_head d) as [d' [saved [m v]]|d' e| |]; try done.
  destruct H as (-> & rest' & -> & Hm & Hv & ->).
  destruct (Z.eqb_spec m major) as [->|]; cbn [negb]; [|by erewrite dec_fail_id].
  replace (SIZE_MAX <? v) with false by zlia. unfold open_result.
  destruct (Z.eqb_spec v 0) as [->|Hv0].
  - pose proof (dec_register_spec d pre _ rest' fs Hrep (encode_head_ne _ _)) as H.
    unfold bind, ret. destruct (dec_register _ _) as [d' ?|d' err| |]; try done.
    + destruct H as (fs' & ? & ?). exists rest', fs'. done.
    + by destruct H as (-> & _ & _).
  - unfold bind at 1, get. cbn [dec_skip set_dec_pos dec_depth].
    destruct (dec_rep_depth _ _ _ _ Hrep) as [-> ?].
    unfold ANTS_CBOR_MAX_DEPTH. bcase; [by erewrite dec_fail_id|].
    destruct (dec_push_ok d pre (encode_head major v) rest' fs k st v)
      as (d' & Hp & Hrep'); try done; [apply encode_head_ne|destruct Hst; auto|zlia|lia|].
    rewrite (bind_Ok _ _ _ _ _ Hp). exists rest', (Frame st v (encode_head major v) :: fs).
    split; [done|]. split; [done|]. split; [|done].
    apply Z.eqb_neq in Hv0. rewrite Hv0. split; [done | lia].
Qed.

Lemma dec_container_complete n d pre rest fs fs' :
  is_u64 n -> dec_rep d pre (encode_head major n ++ rest) fs ->
  open_result st (encode_head major n) n fs fs' ->
  exists d', dec_container major k d = Ok d' n /\
             dec_rep d' (pre ++ encode_head major n) rest fs'.
Proof.
  intros Hn Hrep Ho. pose proof (dec_rep_raw _ _ _ _ Hrep) as Hr.
  unfold dec_container, bind at 1. rewrite (dec_head_complete d pre major n rest Hr) by done.
  rewrite Z.eqb_refl. cbn [negb]. replace (SIZE_MAX <? n) with false by zlia.
  unfold open_result in Ho. destruct (Z.eqb_spec n 0) as [->|Hn0].
  - by apply (register_complete d pre _ rest fs fs' (fun _ : Z => mk) 0).
  - destruct Ho as [-> Hlt]. unfold bind at 1, get. cbn [dec_skip set_dec_pos dec_depth].
    destruct (dec_rep_depth _ _ _ _ Hrep) as [-> ?].
    unfold ANTS_CBOR_MAX_DEPTH. bdecide.
    destruct (dec_push_ok d pre (encode_head major n) rest fs k st n)
      as (d' & Hp & Hrep'); try done; [apply encode_head_ne|destruct Hst; auto|zlia|].
    rewrite (bind_Ok _ _ _ _ _ Hp). by exists d'.
Qed.
End containers.

Lemma dec_array_sound d pre rest fs :
  dec_rep d pre rest fs ->
  match ants_cbor_dec_array d with
  | Ok d' n => exists rest' fs', rest = encode_head 4 n ++ rest' /\ is_u64 n /\
                 open_result FArr (encode_head 4 n) n fs fs' /\
                 dec_rep d' (pre ++ encode_head 4 n) rest' fs'
  | Err d' _ => d' = d
  | UB | NoFuel => False
  end.
Proof. apply dec_container_sound; auto; lia. Qed.

Lemma dec_array_complete n d pre rest fs fs' :
  is_u64 n -> dec_rep d pre (encode_head 4 n ++ rest) fs ->
  open_result FArr (encode_head 4 n) n fs fs' ->
  exists d', ants_cbor_dec_array d = Ok d' n /\ dec_rep d' (pre ++ encode_head 4 n) rest fs'.
Proof. apply dec_container_complete with (mk := CArray []); auto; lia. Qed.

Lemma dec_map_sound d pre rest fs :
  dec_rep d pre rest fs ->
  match ants_cbor_dec_map d with
  | Ok d' n => exists rest' fs', rest = encode_head 5 n ++ rest' /\ is_u64 n /\
                 open_result (FKey None) (encode_head 5 n) n fs fs' /\
                 dec_rep d' (pre ++ encode_head 5 n) rest' fs'
  | Err d' _ => d' = d
  | UB | NoFuel => False
  end.
Proof. apply dec_container_sound; auto; lia. Qed.

Lemma dec_map_complete n d pre rest fs fs' :
  is_u64 n -> dec_rep d pre (encode_head 5 n ++ rest) fs ->
  open_result (FKey None) (encode_head 5 n) n fs fs' ->
  exists d', ants_cbor_dec_map d = Ok d' n /\ dec_rep d' (pre ++ encode_head 5 n) rest fs'.
Proof. apply dec_container_complete with (mk := CMap []); auto; lia. Qed.

Lemma tag_reserved_u64 t : tag_reserved t = true -> is_u64 t.
Proof.
  unfold tag_reserved. intros Ht. breflect. destruct Ht as [Ht|Ht]; breflect; [|zlia].
  destruct Ht; breflect; zlia.
Qed.

Lemma dec_tag_sound d pre rest fs :
  dec_rep d pre rest fs ->
  match ants_cbor_dec_tag d with
  | Ok d' t => exists rest', rest = encode_head 6 t ++ rest' /\ tag_reserved t = true /\
                 (length fs < 16)%nat /\
                 dec_rep d' (pre ++ encode_head 6 t) rest' (Frame FTag 1 (encode_head 6 t) :: fs)
  | Err d' _ => d' = d
  | UB | NoFuel => False
  end.
Proof.
  intros Hrep. pose proof (dec_rep_raw _ _ _ _ Hrep) as Hr.
  pose proof (dec_head_sound d pre rest Hr) as H. unfold ants_cbor_dec_tag, bind at 1.
  destruct (dec_head d) as [d' [saved [m v]]|d' e| |]; try done.
  destruct H as (-> & rest' & -> & Hm & Hv & ->).
  destruct (Z.eqb_spec m 6) as [->|]; cbn [negb]; [|by erewrite dec_fail_id].
  destruct (tag_reserved v) eqn:Ht; cbn [negb]; [|by erewrite dec_fail_id].
  unfold bind at 1, get. cbn [dec_skip set_dec_pos dec_depth].
  destruct (dec_rep_depth _ _ _ _ Hrep) as [-> ?].
  unfold ANTS_CBOR_MAX_DEPTH. bcase; [by erewrite dec_fail_id|].
  destruct (dec_push_ok d pre (encode_head 6 v) rest' fs ANTS_CBOR_CTX_TAG FTag 1)
    as (d' & Hp & Hrep'); try done; [apply encode_head_ne|auto|lia|].
  rewrite (bind_Ok _ _ _ _ _ Hp). exists rest'. split_and!; try done. lia.
Qed.

Lemma dec_tag_complete t d pre rest fs :
  tag_reserved t = true -> (length fs < 16)%nat ->
  dec_rep d pre (encode_head 6 t ++ rest) fs ->
  exists d', ants_cbor_dec_tag d = Ok d' t /\
    dec_rep d' (pre ++ encode_head 6 t) rest (Frame FTag 1 (encode_head 6 t) :: fs).
Proof.
  intros Ht Hlt Hrep. pose proof (dec_rep_raw _ _ _ _ Hrep) as Hr.
  unfold ants_cbor_dec_tag, bind at 1.
  rewrite (dec_head_complete d pre 6 t rest Hr) by (try apply tag_reserved_u64; done || lia).
  rewrite Ht. cbn [negb Z.eqb Pos.eqb].
  unfold bind at 1, get. cbn [dec_skip set_dec_pos dec_depth].
  destruct (dec_rep_depth _ _ _ _ Hrep) as [-> ?].
  unfold ANTS_CBOR_MAX_DEPTH. bdecide.
  destruct (dec_push_ok d pre (encode_head 6 t) rest fs ANTS_CBOR_CTX_TAG FTag 1)
    as (d' & Hp & Hrep'); try done; [apply encode_head_ne|auto|].
  rewrite (bind_Ok _ _ _ _ _ Hp). by exists d'.
Qed.

(** ** The next item's type *)

Definition type_of (c : cbor) : ants_cbor_type_t :=
  match c with
  | CUint _ => ANTS_CBOR_TYPE_UINT
  | CNint _ => ANTS_CBOR_TYPE_NEGINT
  | CBytes _ => ANTS_CBOR_TYPE_BYTES
  | CText _ => ANTS_CBOR_TYPE_TEXT
  | CArray _ => ANTS_CBOR_TYPE_ARRAY
  | CMap _ => ANTS_CBOR_TYPE_MAP
  | CTag _ _ => ANTS_CBOR_TYPE_TAG
  | CBool _ => ANTS_CBOR_TYPE_BOOL
  | CNull => ANTS_CBOR_TYPE_NULL
  end.

(** The major type and additional information of an item's first byte. *)
Lemma encode_first c : wf c ->
  exists major info bs, encode c = (major * 32 + info) :: bs /\ 0 <= major <= 7 /\
    0 <= info < 32 /\
    forall (d : ants_cbor_dec_t),
      match major with
      | 0 => ret ANTS_CBOR_TYPE_UINT
      | 1 => ret ANTS_CBOR_TYPE_NEGINT
      | 2 => ret ANTS_CBOR_TYPE_BYTES
      | 3 => ret ANTS_CBOR_TYPE_TEXT
      | 4 => ret ANTS_CBOR_TYPE_ARRAY
      | 5 => ret ANTS_CBOR_TYPE_MAP
      | 6 => ret ANTS_CBOR_TYPE_TAG
      | 7 => if (info =? 20) || (info =? 21) then ret ANTS_CBOR_TYPE_BOOL
             else if info =? 22 then ret ANTS_CBOR_TYPE_NULL
             else fail ANTS_ERROR_UNSUPPORTED_TYPE
      | _ => fail ANTS_ERROR_MALFORMED
      end d = Ok d (type_of c).
Proof.
  assert (Hh : forall major v, 0 <= major <= 6 -> is_u64 v -> exists info bs,
    encode_head major v = (major * 32 + info) :: bs /\ 0 <= info < 32).
  { intros major v Hm Hv. destruct (encode_head_cases major v Hv) as [[? ->]|
      (info & ? & ? & bs & _ & -> & _ & _ & _ & ?)].
    - exists v, []. split; [done | zlia].
    - exists info, bs. split; [done | lia]. }
  destruct c as [v|n|b|b|l|l|t c|b|]; intros Hwf.
  1: destruct (Hh 0 v) as (info & bs & E & ?); [lia | exact Hwf |].
  2: destruct (Hh 1 n) as (info & bs & E & ?); [lia | cbn in Hwf; zlia |].
  3: destruct (Hh 2 (zlen b)) as (info & bs & E & ?);
       [lia | pose proof (zlen_nonneg b); destruct Hwf; zlia |].
  4: destruct (Hh 3 (zlen b)) as (info & bs & E & ?);
       [lia | pose proof (zlen_nonneg b); destruct Hwf; zlia |].
  5: destruct (Hh 4 (zlen l)) as (info & bs & E & ?);
       [lia | pose proof (zlen_nonneg l); destruct Hwf; zlia |].
  6: destruct (Hh 5 (zlen l)) as (info & bs & E & ?);
       [lia | pose proof (zlen_nonneg l); destruct Hwf; zlia |].
  7: destruct (Hh 6 t) as (info & bs & E & ?);
       [lia | apply tag_reserved_u64; apply Hwf |].
  1-7: cbn [encode]; rewrite E; eexists _, info, _; split; [reflexivity|];
       split; [lia|]; split; [lia | done].
  - exists 7, (if b then 21 else 20), []. by destruct b.
  - exists 7, 22, []. done.
Qed.

Lemma peek_type_ok d pre c rest :
  dec_raw d pre (encode c ++ rest) -> wf c ->
  ants_cbor_dec_peek_type d = Ok d (type_of c) /\ ants_cbor_dec_eof d = false.
Proof.
  intros Hr Hwf. destruct (encode_first c Hwf) as (major & info & bs & E & Hm & Hi & Hty).
  rewrite E in Hr. cbn [app] in Hr. pose proof (zlen_nonneg (bs ++ rest)) as Hz.
  destruct Hr as (Hb & Hl & Hs & Hp & _).
  assert (Heof : (dec_len d <=? dec_pos d) = false) by (rewrite Hl, Hp, zlen_cons; zlia).
  unfold ants_cbor_dec_eof. split; [|done].
  unfold ants_cbor_dec_peek_type, bind, get. rewrite Heof, Hb, Hp, byte_at_app.
  unfold deref. destruct (head_byte major info Hm Hi) as [-> ->]. apply Hty.
Qed.

Lemma peek_type_safe d pre rest :
  dec_raw d pre rest ->
  match ants_cbor_dec_peek_type d with
  | Ok d' _ | Err d' _ => d' = d
  | UB | NoFuel => False
  end.
Proof.
  intros (Hb & Hl & Hs & Hp & _). unfold ants_cbor_dec_peek_type, bind, get.
  bcase; [done|]. destruct (byte_at_inside (dec_buf d) (dec_pos d)) as [b ->].
  { rewrite Hb, zlen_app, Hp in *. pose proof (zlen_nonneg pre). lia. }
  unfold deref. generalize (u8 (Z.shiftr b 5)), (u8 (Z.land b 31)). intros major info.
  destruct major as [|[[[p|p|]|[p|p|]|]|[[p|p|]|[p|p|]|]|]|p]; try done.
  repeat bcase; done.
Qed.
