(* ===== verification/CborCanon.v ===== *)
(** * The canonical-form validator and the codec's contract

    [ants_cbor_is_canonical] accepts exactly the encodings of the items of the
    deterministic profile that nest at most 16 deep; the encoding is
    injective, so no accepted document has a second form; the encoder writes
    those bytes and the decoder reads them back. *)

From S2P Require Import Prelude Cbor CborSpec CborTrack CborEnc CborDec.

(** ** The validator is sound *)

(** What one successful walk has read. *)
Definition walked (d' : ants_cbor_dec_t) (pre rest : bytes) (fs : list frame) : Prop :=
  exists c rest' fs', rest = encode c ++ rest' /\ wf c /\ (length fs + height c <= 16)%nat /\
    track fs (encode c) = Some fs' /\ dec_rep d' (pre ++ encode c) rest' fs'.

Definition walk_sound (fuel : nat) (m : action ants_cbor_dec_t unit) : Prop :=
  forall d pre rest fs, dec_rep d pre rest fs ->
  match m d with
  | Ok d' _ => walked d' pre rest fs
  | Err _ _ => True
  | UB => False
  | NoFuel => (fuel <= length rest)%nat
  end.

Lemma walked_leaf {A} (m : action ants_cbor_dec_t A) (enc : A -> cbor) n :
  reads_sound m enc -> (forall a, height (enc a) = 0%nat) -> walk_sound n (m ;* ret tt).
Proof.
  intros Hm Hh d pre rest fs Hrep. specialize (Hm d pre rest fs Hrep).
  unfold bind, ret. destruct (m d) as [d' a|d' e| |]; try done.
  destruct Hm as (rest' & fs' & -> & Hwf & Ht & Hrep').
  exists (enc a), rest', fs'. split_and!; try done. rewrite Hh.
  destruct (dec_rep_depth _ _ _ _ Hrep). lia.
Qed.

Lemma encode_length_pos c : (1 <= length (encode c))%nat.
Proof. pose proof (encode_ne c). destruct (encode c); [done | cbn; lia]. Qed.

Lemma encode_head_pos major v : (1 <= length (encode_head major v))%nat.
Proof. pose proof (encode_head_length major v). unfold zlen in *. lia. Qed.

(** The item loop of an array, with [n - i] items still to come. *)
Lemma walk_array_items fuel body f : walk_sound fuel body ->
  forall i n hd d pre rest fs,
  0 <= i < n -> dec_rep d pre rest (Frame FArr (n - i) hd :: fs) ->
  match for_loop f i n (fun _ => body) d with
  | Ok d' _ => exists cs rest' fs', cs <> [] /\ zlen cs = n - i /\
      rest = concat (map encode cs) ++ rest' /\ Forall wf cs /\
      Forall (fun c => (S (length fs) + height c <= 16)%nat) cs /\
      track fs (hd ++ concat (map encode cs)) = Some fs' /\
      dec_rep d' (pre ++ concat (map encode cs)) rest' fs'
  | Err _ _ => True
  | UB => False
  | NoFuel => (Nat.min f fuel <= length rest)%nat
  end.
Proof.
  intros Hbody. induction f as [|f IH]; intros i n hd d pre rest fs Hi Hrep; cbn [for_loop];
    bdecide; [cbn; lia|].
  unfold bind at 1. pose proof (Hbody d pre rest _ Hrep) as H.
  destruct (body d) as [d1 ?|d1 e| |]; try done; [|lia].
  destruct H as (c & rest1 & fs1 & -> & Hwf & Hh & Ht & Hrep1). cbn [track length] in *.
  pose proof (encode_length_pos c). destruct (Z.eqb_spec (n - i) 1) as [Hlast|Hmore].
  - destruct f as [|f]; cbn [for_loop]; bdecide; exists [c], rest1, fs1;
      cbn [map concat]; rewrite !app_nil_r; split_and!; try done; try (by constructor); rewrite Hlast; done.
  - injection Ht as <-.
    assert (n - i - 1 = n - (i + 1)) as Hn by lia. rewrite Hn in Hrep1.
    pose proof (IH (i + 1) n _ d1 _ rest1 fs ltac:(lia) Hrep1) as H2.
    destruct (for_loop f (i + 1) n _ d1) as [d2 ?|d2 e| |]; try done.
    + destruct H2 as (cs & rest2 & fs2 & ? & Hl & -> & ? & ? & ? & ?).
      exists (c :: cs), rest2, fs2. cbn [map concat]. rewrite !app_assoc in *.
      split_and!; try done; try (by constructor). rewrite zlen_cons. lia.
    + rewrite length_app. lia.
Qed.

(** The pair loop of a map. *)
Lemma walk_map_items fuel body f : walk_sound fuel body ->
  forall i n last hd d pre rest fs,
  0 <= i < n -> dec_rep d pre rest (Frame (FKey last) (n - i) hd :: fs) ->
  match for_loop f i n (fun _ => body ;* body) d with
  | Ok d' _ => exists l rest' fs', l <> [] /\ zlen l = n - i /\
      rest = encode_pairs l ++ rest' /\ Forall (fun p => wf p.1 /\ wf p.2) l /\
      Forall (fun p => (S (length fs) + height p.1 <= 16)%nat /\
                       (S (length fs) + height p.2 <= 16)%nat) l /\
      Sorted key_lt (option_list last ++ encoded_keys l) /\
      track fs (hd ++ encode_pairs l) = Some fs' /\
      dec_rep d' (pre ++ encode_pairs l) rest' fs'
  | Err _ _ => True
  | UB => False
  | NoFuel => (Nat.min f fuel <= length rest)%nat
  end.
Proof.
  intros Hbody. induction f as [|f IH]; intros i n last hd d pre rest fs Hi Hrep;
    cbn [for_loop]; bdecide; [cbn; lia|].
  unfold bind at 1 2. pose proof (Hbody d pre rest _ Hrep) as H.
  destruct (body d) as [d1 ?|d1 e| |]; try done; [|lia].
  destruct H as (k & rest1 & fs1 & -> & Hwfk & Hhk & Htk & Hrep1).
  assert (Hk : fs1 = Frame (FVal (encode k)) (n - i) (hd ++ encode k) :: fs /\
               Sorted key_lt (option_list last ++ [encode k])).
  { destruct last as [k'|]; cbn [track] in Htk.
    - destruct (Z.ltb_spec (compare_keys k' (encode k)) 0); [|done].
      injection Htk as <-. split; [done|]. by repeat constructor.
    - injection Htk as <-. split; [done|]. by repeat constructor. }
  destruct Hk as [-> Hsort]. clear Htk.
  pose proof (Hbody d1 _ rest1 _ Hrep1) as H.
  pose proof (encode_length_pos k).
  destruct (body d1) as [d2 ?|d2 e| |]; try done; [|rewrite length_app; lia].
  destruct H as (v & rest2 & fs2 & -> & Hwfv & Hhv & Htv & Hrep2).
  cbn [track length] in *. destruct (Z.eqb_spec (n - i) 1) as [Hlast|Hmore].
  - assert (Hone : encode_pairs [(k, v)] = encode k ++ encode v).
    { unfold encode_pairs. cbn. by rewrite app_nil_r. }
    destruct f as [|f]; cbn [for_loop]; bdecide; exists [(k, v)], rest2, fs2;
      rewrite Hone; rewrite <- !app_assoc in *;
      split_and!; try done; try (by constructor; [|constructor]); rewrite Hlast; done.
  - injection Htv as <-.
    assert (n - i - 1 = n - (i + 1)) as Hn by lia. rewrite Hn in Hrep2.
    pose proof (IH (i + 1) n _ _ d2 _ rest2 fs ltac:(lia) Hrep2) as H2.
    destruct (for_loop f (i + 1) n _ d2) as [d3 ?|d3 e| |]; try done.
    + destruct H2 as (l & rest3 & fs3 & ? & Hl & -> & ? & ? & Hs & ? & ?).
      exists ((k, v) :: l), rest3, fs3. rewrite encode_pairs_cons. rewrite <- !app_assoc in *.
      split_and!; try done; try (by constructor).
      * rewrite zlen_cons. lia.
      * cbn [option_list app] in Hs. change (encoded_keys ((k, v) :: l))
          with (encode k :: encoded_keys l).
        destruct last as [k'|]; cbn in *; [|done].
        apply Sorted_inv in Hsort as [_ Hhd]. apply HdRel_inv in Hhd.
        by constructor; [|constructor].
    + rewrite !length_app. lia.
Qed.

Lemma foldr_max_le {A} (f : A -> nat) (l : list A) h :
  Forall (fun x => (f x <= h)%nat) l -> (foldr (fun x m => Nat.max (f x) m) 0%nat l <= h)%nat.
Proof. induction 1; cbn; lia. Qed.

Lemma height_array_le l h :
  Forall (fun c => (S (height c) <= h)%nat) l -> (height (CArray l) <= h)%nat.
Proof.
  destruct l as [|x l]; [cbn; lia|]. intros Hall. cbn [height].
  pose proof Hall as [Hx _]%Forall_cons.
  enough (foldr (fun x m => Nat.max (height x) m) 0%nat (x :: l) <= h - 1)%nat by lia.
  apply foldr_max_le. eapply Forall_impl; [exact Hall|]. cbn. lia.
Qed.

Lemma height_map_le l h :
  Forall (fun p => (S (height p.1) <= h)%nat /\ (S (height p.2) <= h)%nat) l ->
  (height (CMap l) <= h)%nat.
Proof.
  destruct l as [|[k v] l]; [cbn; lia|]. intros Hall. cbn [height].
  pose proof Hall as [Hx _]%Forall_cons. cbn in Hx.
  enough (foldr (fun (p : cbor * cbor) m => let '(k, v) := p in
    Nat.max (Nat.max (height k) (height v)) m) 0%nat ((k, v) :: l) <= h - 1)%nat by lia.
  clear Hx. induction Hall as [|[k' v'] l' [? ?] _ IH]; cbn in *; lia.
Qed.

Lemma walk_array_sound fuel : walk_sound fuel (walk_one_item fuel) ->
  walk_sound (S fuel)
    (let* n := ants_cbor_dec_array in for_loop fuel 0 n (fun _ => walk_one_item fuel)).
Proof.
  intros IH d pre rest fs Hrep. pose proof (dec_array_sound d pre rest fs Hrep) as H.
  unfold bind at 1. destruct (ants_cbor_dec_array d) as [d1 n|d1 e| |]; try done.
  destruct H as (rest1 & fs1 & -> & Hn & Ho & Hrep1).
  unfold open_result in Ho. destruct (Z.eqb_spec n 0) as [->|Hn0].
  { assert (for_loop fuel 0 0 (fun _ => walk_one_item fuel) d1 = Ok d1 tt) as ->
      by (by destruct fuel).
    exists (CArray []), rest1, fs1. cbn [encode map concat]. rewrite app_nil_r.
    split_and!; try done. cbn. destruct (dec_rep_depth _ _ _ _ Hrep). lia. }
  destruct Ho as [-> Hlt]. replace n with (n - 0) in Hrep1 at 2 by lia.
  pose proof (walk_array_items fuel _ fuel IH 0 n _ d1 _ _ fs ltac:(zlia) Hrep1) as H2.
  destruct (for_loop fuel 0 n _ d1) as [d2 ?|d2 e| |]; try done.
  - destruct H2 as (cs & rest2 & fs2 & ? & Hl & -> & ? & Hh & Ht & Hrep2).
    rewrite Z.sub_0_r in Hl. exists (CArray cs), rest2, fs2. cbn [encode]. rewrite Hl.
    rewrite !app_assoc in *. split; [done|]. split; [|split; [|done]].
    + apply wf_array. split; [zlia | done].
    + enough (height (CArray cs) <= 16 - length fs)%nat by lia.
      apply height_array_le. eapply Forall_impl; [exact Hh|]. cbn. lia.
  - rewrite length_app. pose proof (encode_head_length 4 n). unfold zlen in *. lia.
Qed.

Lemma walk_map_sound fuel : walk_sound fuel (walk_one_item fuel) ->
  walk_sound (S fuel)
    (let* n := ants_cbor_dec_map in
     for_loop fuel 0 n (fun _ => walk_one_item fuel ;* walk_one_item fuel)).
Proof.
  intros IH d pre rest fs Hrep. pose proof (dec_map_sound d pre rest fs Hrep) as H.
  unfold bind at 1. destruct (ants_cbor_dec_map d) as [d1 n|d1 e| |]; try done.
  destruct H as (rest1 & fs1 & -> & Hn & Ho & Hrep1).
  unfold open_result in Ho. destruct (Z.eqb_spec n 0) as [->|Hn0].
  { assert (for_loop fuel 0 0 (fun _ => walk_one_item fuel ;* walk_one_item fuel) d1 = Ok d1 tt)
      as -> by (by destruct fuel).
    exists (CMap []), rest1, fs1. cbn [encode map concat]. rewrite app_nil_r.
    split; [done|]. split; [by repeat constructor|]. split; [|done].
    cbn. destruct (dec_rep_depth _ _ _ _ Hrep). lia. }
  destruct Ho as [-> Hlt]. replace n with (n - 0) in Hrep1 at 2 by lia.
  pose proof (walk_map_items fuel _ fuel IH 0 n None _ d1 _ _ fs ltac:(zlia) Hrep1) as H2.
  destruct (for_loop fuel 0 n _ d1) as [d2 ?|d2 e| |]; try done.
  - destruct H2 as (l & rest2 & fs2 & ? & Hl & -> & ? & Hh & Hs & Ht & Hrep2).
    rewrite Z.sub_0_r in Hl. exists (CMap l), rest2, fs2. cbn [encode]. rewrite Hl.
    fold (encode_pairs l). rewrite !app_assoc in *.
    split; [done|]. split; [|split; [|done]].
    + apply wf_map. split_and!; [zlia | done | done].
    + enough (height (CMap l) <= 16 - length fs)%nat by lia.
      apply height_map_le. eapply Forall_impl; [exact Hh|]. cbn. lia.
  - rewrite length_app. pose proof (encode_head_length 5 n). unfold zlen in *. lia.
Qed.

Lemma walk_tag_sound fuel : walk_sound fuel (walk_one_item fuel) ->
  walk_sound (S fuel) (ants_cbor_dec_tag ;* walk_one_item fuel).
Proof.
  intros IH d pre rest fs Hrep. pose proof (dec_tag_sound d pre rest fs Hrep) as H.
  unfold bind at 1. destruct (ants_cbor_dec_tag d) as [d1 t|d1 e| |]; try done.
  destruct H as (rest1 & -> & Ht & Hlt & Hrep1).
  pose proof (IH d1 _ _ _ Hrep1) as H2.
  destruct (walk_one_item fuel d1) as [d2 ?|d2 e| |]; try done.
  - destruct H2 as (c & rest2 & fs2 & -> & Hwf & Hh & Htr & Hrep2).
    cbn [track length Z.eqb] in *.
    exists (CTag t c), rest2, fs2. cbn [encode height]. rewrite !app_assoc in *.
    split_and!; try done. lia.
  - rewrite length_app. pose proof (encode_head_length 6 t). unfold zlen in *. lia.
Qed.

Lemma walk_one_item_sound fuel : walk_sound fuel (walk_one_item fuel).
Proof.
  induction fuel as [|fuel IH]; intros d pre rest fs Hrep; cbn [walk_one_item]; [lia|].
  unfold bind at 1, get. bcase; [done|].
  pose proof (peek_type_safe d pre rest (dec_rep_raw _ _ _ _ Hrep)) as Hpk.
  unfold bind at 1. destruct (ants_cbor_dec_peek_type d) as [d1 t|d1 e| |]; try done.
  subst d1. revert d pre rest fs Hrep E. 
  enough (Hw : walk_sound (S fuel) match t with
      | ANTS_CBOR_TYPE_UINT => ants_cbor_dec_uint ;* ret tt
      | ANTS_CBOR_TYPE_NEGINT => ants_cbor_dec_int ;* ret tt
      | ANTS_CBOR_TYPE_BYTES => ants_cbor_dec_bytes ;* ret tt
      | ANTS_CBOR_TYPE_TEXT => ants_cbor_dec_text ;* ret tt
      | ANTS_CBOR_TYPE_ARRAY =>
        let* n := ants_cbor_dec_array in
        for_loop fuel 0 n (fun _ => walk_one_item fuel)
      | ANTS_CBOR_TYPE_MAP =>
        let* n := ants_cbor_dec_map in
        for_loop fuel 0 n (fun _ => walk_one_item fuel ;* walk_one_item fuel)
      | ANTS_CBOR_TYPE_TAG => ants_cbor_dec_tag ;* walk_one_item fuel
      | ANTS_CBOR_TYPE_BOOL => ants_cbor_dec_bool ;* ret tt
      | ANTS_CBOR_TYPE_NULL => ants_cbor_dec_null
      end).
  { intros d pre rest fs Hrep _. exact (Hw d pre rest fs Hrep). }
  destruct t.
  - by apply (walked_leaf _ CUint _ dec_uint_sound).
  - apply (walked_leaf _ CInt _ dec_int_sound).
    intros a. unfold CInt. by bcase.
  - by apply (walked_leaf _ CBytes _ dec_bytes_sound).
  - by apply (walked_leaf _ CText _ dec_text_sound).
  - by apply walk_array_sound.
  - by apply walk_map_sound.
  - by apply walk_tag_sound.
  - by apply (walked_leaf _ CBool _ dec_bool_sound).
  - intros d pre rest fs Hrep.
    pose proof (walked_leaf _ (fun _ => CNull) (S fuel) dec_null_sound (fun _ => eq_refl)
      d pre rest fs Hrep) as H.
    unfold bind, ret in H. by destruct (ants_cbor_dec_null d).
Qed.

(** ** The validator is complete *)

Definition walk_complete (c : cbor) : Prop :=
  forall fuel d pre rest fs fs',
    (length (encode c) <= fuel)%nat -> (length fs + height c <= 16)%nat ->
    dec_rep d pre (encode c ++ rest) fs -> track fs (encode c) = Some fs' ->
    exists d', walk_one_item fuel d = Ok d' tt /\ dec_rep d' (pre ++ encode c) rest fs'.

(** One unfolding of the walker in front of the item [c]. *)
Lemma walk_step c fuel d pre rest fs :
  wf c -> dec_rep d pre (encode c ++ rest) fs ->
  walk_one_item (S fuel) d =
    match type_of c with
    | ANTS_CBOR_TYPE_UINT => ants_cbor_dec_uint ;* ret tt
    | ANTS_CBOR_TYPE_NEGINT => ants_cbor_dec_int ;* ret tt
    | ANTS_CBOR_TYPE_BYTES => ants_cbor_dec_bytes ;* ret tt
    | ANTS_CBOR_TYPE_TEXT => ants_cbor_dec_text ;* ret tt
    | ANTS_CBOR_TYPE_ARRAY =>
      let* n := ants_cbor_dec_array in
      for_loop fuel 0 n (fun _ => walk_one_item fuel)
    | ANTS_CBOR_TYPE_MAP =>
      let* n := ants_cbor_dec_map in
      for_loop fuel 0 n (fun _ => walk_one_item fuel ;* walk_one_item fuel)
    | ANTS_CBOR_TYPE_TAG => ants_cbor_dec_tag ;* walk_one_item fuel
    | ANTS_CBOR_TYPE_BOOL => ants_cbor_dec_bool ;* ret tt
    | ANTS_CBOR_TYPE_NULL => ants_cbor_dec_null
    end d.
Proof.
  intros Hwf Hrep.
  destruct (peek_type_ok d pre c rest (dec_rep_raw _ _ _ _ Hrep) Hwf) as [Hpk Heof].
  cbn [walk_one_item]. unfold bind at 1, get. rewrite Heof.
  by rewrite (bind_Ok _ _ _ _ _ Hpk).
Qed.

Lemma walk_leaf_complete {A} (m : action ants_cbor_dec_t A) (enc : A -> cbor) a :
  reads_complete m enc -> wf (enc a) ->
  (forall fuel d pre rest fs, dec_rep d pre (encode (enc a) ++ rest) fs ->
     walk_one_item (S fuel) d = (m ;* ret tt) d) ->
  walk_complete (enc a).
Proof.
  intros Hm Hwf Hstep fuel d pre rest fs fs' Hfuel _ Hrep Ht.
  pose proof (encode_length_pos (enc a)). destruct fuel as [|fuel]; [lia|].
  rewrite (Hstep fuel d pre rest fs Hrep).
  destruct (Hm a d pre rest fs fs' Hwf Hrep Ht) as (d' & Hd & Hrep').
  exists d'. by rewrite (bind_Ok _ _ _ _ _ Hd).
Qed.

(** A counted loop whose bodies consume the items [its] one after the other. *)
Lemma loop_complete (body : action ants_cbor_dec_t unit) (fs0 : list frame) (groups : list (list bytes)) :
  forall f i n d pre rest fs fs',
  (forall g, g ∈ groups -> g <> [] /\ forall d pre rest fs fs',
     (length fs <= length fs0)%nat ->
     dec_rep d pre (concat g ++ rest) fs -> track_all fs g = Some fs' ->
     exists d', body d = Ok d' tt /\ dec_rep d' (pre ++ concat g) rest fs') ->
  zlen groups = n - i -> (length groups <= f)%nat -> (length fs <= length fs0)%nat ->
  dec_rep d pre (concat (concat groups) ++ rest) fs ->
  track_all fs (concat groups) = Some fs' ->
  exists d', for_loop f i n (fun _ => body) d = Ok d' tt /\
             dec_rep d' (pre ++ concat (concat groups)) rest fs'.
Proof.
  induction groups as [|g groups IH]; intros f i n d pre rest fs fs' Hb Hn Hf Hle Hrep Ht.
  { cbn in *. simplify_eq. exists d. rewrite app_nil_r. split; [|done].
    rewrite zlen_nil in Hn. destruct f; cbn [for_loop]; by bdecide. }
  rewrite zlen_cons in Hn. pose proof (zlen_nonneg groups).
  destruct f as [|f]; [cbn in Hf; lia|]. cbn [for_loop length] in *. bdecide.
  cbn [concat] in *. rewrite concat_app in *. rewrite <- app_assoc in Hrep.
  assert (exists fs1, track_all fs g = Some fs1 /\ track_all fs1 (concat groups) = Some fs' /\
          (length fs1 <= length fs)%nat) as (fs1 & Ht1 & Ht2 & Hle1).
  { clear -Ht. revert fs Ht. induction g as [|x g IHg]; intros fs Ht; cbn in *; [eauto|].
    destruct (track fs x) as [fsx|] eqn:E; [|done]. apply track_length in E.
    destruct (IHg fsx Ht) as (fs1 & ? & ? & ?). exists fs1. split_and!; try done. lia. }
  destruct (Hb g) as [_ Hg]; [by left|].
  destruct (Hg d pre _ fs fs1 Hle Hrep Ht1) as (d1 & Hd1 & Hrep1).
  rewrite (bind_Ok _ _ _ _ _ Hd1).
  destruct (IH f (i + 1) n d1 (pre ++ concat g) rest fs1 fs') as (d2 & Hd2 & Hrep2); try done.
  - intros g' Hg'. apply Hb. by right.
  - lia.
  - lia.
  - lia.
  - exists d2. by rewrite app_assoc.
Qed.

Lemma open_result_array l fs fs' :
  wf (CArray l) -> (length fs + height (CArray l) <= 16)%nat ->
  track fs (encode (CArray l)) = Some fs' ->
  exists fs1, open_result FArr (encode_head 4 (zlen l)) (zlen l) fs fs1 /\
    track_all fs1 (map encode l) = Some fs' /\
    (l <> [] -> length fs1 = S (length fs)).
Proof.
  intros Hwf Hh Ht. unfold open_result. destruct l as [|x l].
  { exists fs'. cbn in *. done. }
  replace (zlen (x :: l) =? 0) with false
    by (rewrite zlen_cons; pose proof (zlen_nonneg l); zlia).
  eexists. split; [split; [reflexivity|]|].
  { cbn [height] in Hh. lia. }
  split; [|done].
  replace (zlen (x :: l)) with (zlen (map encode (x :: l))) at 1
    by (unfold zlen; by rewrite length_map).
  rewrite track_array by (done || by left). exact Ht.
Qed.

Lemma open_result_map l fs fs' :
  wf (CMap l) -> (length fs + height (CMap l) <= 16)%nat ->
  track fs (encode (CMap l)) = Some fs' ->
  exists fs1, open_result (FKey None) (encode_head 5 (zlen l)) (zlen l) fs fs1 /\
    track_all fs1 (concat (map (fun p => [encode p.1; encode p.2]) l)) = Some fs' /\
    (l <> [] -> length fs1 = S (length fs)).
Proof.
  intros (Hlen & Hs & _)%wf_map Hh Ht. unfold open_result. destruct l as [|x l].
  { exists fs'. cbn in *. done. }
  replace (zlen (x :: l) =? 0) with false
    by (rewrite zlen_cons; pose proof (zlen_nonneg l); zlia).
  eexists. split; [split; [reflexivity|]|].
  { destruct x. cbn [height] in Hh. lia. }
  split; [|done]. rewrite pair_items_encode.
  replace (zlen (x :: l)) with (zlen (map (fun p => (encode p.1, encode p.2)) (x :: l))) at 1
    by (unfold zlen; by rewrite length_map).
  rewrite track_map; [|done|].
  - rewrite <- pair_items_encode, concat_pair_items. exact Ht.
  - cbn [option_list app]. rewrite map_map. exact Hs.
Qed.

Lemma concat_singletons {A} (l : list A) : concat (map (fun x => [x]) l) = l.
Proof. induction l; cbn; by f_equal. Qed.

Lemma length_concat_ge {A} (f : A -> bytes) l :
  (forall x, (1 <= length (f x))%nat) -> (length l <= length (concat (map f l)))%nat.
Proof.
  intros Hf. induction l as [|x l IH]; cbn; [lia|]. rewrite length_app. specialize (Hf x). lia.
Qed.

Lemma length_concat_elem {A} (f : A -> bytes) l x :
  x ∈ l -> (length (f x) <= length (concat (map f l)))%nat.
Proof. induction 1; cbn; rewrite length_app; lia. Qed.

Lemma walk_array_complete l :
  wf (CArray l) -> Forall walk_complete l -> walk_complete (CArray l).
Proof.
  intros Hwf Hall fuel d pre rest fs fs' Hfuel Hh Hrep Ht.
  pose proof (encode_length_pos (CArray l)). destruct fuel as [|fuel]; [lia|].
  rewrite (walk_step (CArray l) fuel d pre rest fs Hwf Hrep). cbn [type_of].
  destruct (open_result_array l fs fs' Hwf Hh Ht) as (fs1 & Ho & Ht1 & Hl1).
  cbn [encode] in *. rewrite <- app_assoc in Hrep. rewrite length_app in Hfuel.
  pose proof (encode_head_pos 4 (zlen l)) as Hhd.
  destruct (dec_array_complete (zlen l) d pre (concat (map encode l) ++ rest) fs fs1) as (d1 & Hd1 & Hrep1); try done.
  { apply wf_array in Hwf as [? _]. pose proof (zlen_nonneg l). zlia. }
  rewrite (bind_Ok _ _ _ _ _ Hd1).
  set (groups := map (fun x => [encode x]) l).
  assert (Hg : concat groups = map encode l).
  { rewrite <- (concat_singletons (map encode l)), map_map. done. }
  rewrite <- Hg in Hrep1, Ht1.
  destruct (loop_complete (walk_one_item fuel) fs1 groups fuel 0 (zlen l) d1
    (pre ++ encode_head 4 (zlen l)) rest fs1 fs') as (d2 & Hd2 & Hrep2); try done.
  - intros g (x & -> & Hx)%list_elem_of_fmap. split; [done|]. cbn [concat]. rewrite app_nil_r.
    intros d0 pre0 rest0 fs0 fs0' Hle Hrep0 Ht0. cbn [track_all] in Ht0.
    rewrite Forall_forall in Hall. apply (Hall x Hx fuel d0 pre0 rest0 fs0 fs0').
    + pose proof (length_concat_elem encode l x Hx). lia.
    + pose proof (height_array_item l x Hx). rewrite Hl1 in Hle by (by intros ->; apply not_elem_of_nil in Hx). lia.
    + done.
    + by destruct (track fs0 (encode x)).
  - subst groups. unfold zlen. rewrite length_map. lia.
  - subst groups. rewrite length_map.
    pose proof (length_concat_ge encode l encode_length_pos). lia.
  - exists d2. rewrite Hg in Hrep2. rewrite app_assoc. done.
Qed.

Lemma walk_map_complete l :
  wf (CMap l) -> Forall (fun p => walk_complete p.1 /\ walk_complete p.2) l ->
  walk_complete (CMap l).
Proof.
  intros Hwf Hall fuel d pre rest fs fs' Hfuel Hh Hrep Ht.
  pose proof (encode_length_pos (CMap l)). destruct fuel as [|fuel]; [lia|].
  rewrite (walk_step (CMap l) fuel d pre rest fs Hwf Hrep). cbn [type_of].
  destruct (open_result_map l fs fs' Hwf Hh Ht) as (fs1 & Ho & Ht1 & Hl1).
  cbn [encode] in *. fold (encode_pairs l) in *.
  rewrite <- app_assoc in Hrep. rewrite length_app in Hfuel.
  pose proof (encode_head_pos 5 (zlen l)) as Hhd.
  destruct (dec_map_complete (zlen l) d pre (encode_pairs l ++ rest) fs fs1) as (d1 & Hd1 & Hrep1); try done.
  { apply wf_map in Hwf as [? _]. pose proof (zlen_nonneg l). zlia. }
  rewrite (bind_Ok _ _ _ _ _ Hd1). rewrite <- concat_pair_items in *.
  set (groups := map (fun p => [encode p.1; encode p.2]) l) in *.
  assert (Hlen : forall k v, (k, v) ∈ l -> (length (encode k) <= length (concat (concat groups)))%nat
                          /\ (length (encode v) <= length (concat (concat groups)))%nat).
  { intros k v Hkv. subst groups. rewrite concat_pair_items. unfold encode_pairs.
    pose proof (length_concat_elem (fun p : cbor * cbor => let '(k, v) := p in encode k ++ encode v)
      l (k, v) Hkv) as Hl. cbn in Hl. rewrite length_app in Hl. lia. }
  destruct (loop_complete (walk_one_item fuel ;* walk_one_item fuel) fs1 groups fuel 0 (zlen l) d1
    (pre ++ encode_head 5 (zlen l)) rest fs1 fs') as (d2 & Hd2 & Hrep2); try done.
  - intros g ([k v] & -> & Hkv)%list_elem_of_fmap. split; [done|].
    cbn [concat fst snd]. rewrite app_nil_r.
    intros d0 pre0 rest0 fs0 fs0' Hle Hrep0 Ht0. cbn [track_all] in Ht0.
    rewrite Hl1 in Hle by (by intros ->; apply not_elem_of_nil in Hkv).
    rewrite Forall_forall in Hall. destruct (Hall _ Hkv) as [Hk Hv]. cbn in Hk, Hv.
    destruct (Hlen k v Hkv), (height_map_item l k v Hkv).
    destruct (track fs0 (encode k)) as [fsk|] eqn:Htk; [|done].
    destruct (track fsk (encode v)) as [fsv|] eqn:Htv; [|done]. simplify_eq.
    rewrite <- app_assoc in Hrep0.
    destruct (Hk fuel d0 pre0 (encode v ++ rest0) fs0 fsk) as (dk & Hdk & Hrepk); try done; [lia..|].
    rewrite (bind_Ok _ _ _ _ _ Hdk). apply track_length in Htk.
    destruct (Hv fuel dk (pre0 ++ encode k) rest0 fsk fs0') as (dv & Hdv & Hrepv); try done; [lia..|].
    exists dv. by rewrite app_assoc.
  - subst groups. unfold zlen. rewrite length_map. lia.
  - subst groups. rewrite length_map. rewrite concat_pair_items in Hfuel.
    pose proof (length_concat_ge (fun p : cbor * cbor => let '(k, v) := p in encode k ++ encode v) l)
      as Hge. unfold encode_pairs in Hfuel.
    enough (length l <= length (concat (map (fun p : cbor * cbor => let '(k, v) := p in encode k ++ encode v) l)))%nat by lia.
    apply Hge. intros [k v]. rewrite length_app. pose proof (encode_length_pos k). lia.
  - exists d2. by rewrite app_assoc.
Qed.

Lemma walk_tag_complete t c :
  wf (CTag t c) -> walk_complete c -> walk_complete (CTag t c).
Proof.
  intros Hwf Hc fuel d pre rest fs fs' Hfuel Hh Hrep Ht.
  pose proof (encode_length_pos (CTag t c)). destruct fuel as [|fuel]; [lia|].
  rewrite (walk_step (CTag t c) fuel d pre rest fs Hwf Hrep). cbn [type_of].
  cbn [encode height] in *. rewrite <- app_assoc in Hrep. rewrite length_app in Hfuel.
  pose proof (encode_head_pos 6 t) as Hhd.
  destruct Hwf as [Htag Hwf].
  destruct (dec_tag_complete t d pre _ fs Htag ltac:(lia) Hrep) as (d1 & Hd1 & Hrep1).
  rewrite (bind_Ok _ _ _ _ _ Hd1).
  destruct (Hc fuel d1 _ rest (Frame FTag 1 (encode_head 6 t) :: fs) fs' ltac:(lia) ltac:(cbn; lia) Hrep1) as (d2 & Hd2 & Hrep2).
  { cbn [track Z.eqb Pos.eqb]. done. }
  exists d2. by rewrite app_assoc.
Qed.

Lemma walk_one_item_complete c : wf c -> walk_complete c.
Proof.
  induction c as [v|n|b|b|l IH|l IH|t c IH|b|] using cbor_rect'; intros Hwf.
  - apply (walk_leaf_complete _ CUint v dec_uint_complete Hwf).
    intros. by erewrite (walk_step (CUint v)).
  - intros fuel d pre rest fs fs' Hfuel _ Hrep Ht.
    pose proof (encode_length_pos (CNint n)). destruct fuel as [|fuel]; [lia|].
    rewrite (walk_step (CNint n) fuel d pre rest fs Hwf Hrep). cbn [type_of].
    cbn in Hwf. assert (Hn : CInt (-1 - n) = CNint n).
    { unfold CInt. bdecide. f_equal. lia. }
    rewrite <- Hn in *.
    destruct (dec_int_complete (-1 - n) d pre rest fs fs') as (d' & Hd & Hrep'); try done.
    { clear -Hwf. zlia. }
    exists d'. by rewrite (bind_Ok _ _ _ _ _ Hd).
  - apply (walk_leaf_complete _ CBytes b dec_bytes_complete Hwf).
    intros. by erewrite (walk_step (CBytes b)).
  - apply (walk_leaf_complete _ CText b dec_text_complete Hwf).
    intros. by erewrite (walk_step (CText b)).
  - apply walk_array_complete; [done|]. apply wf_array in Hwf as [_ Hwf].
    rewrite Forall_forall in *. auto.
  - apply walk_map_complete; [done|]. apply wf_map in Hwf as (_ & _ & Hwf).
    rewrite Forall_forall in *. intros p Hp. destruct (IH p Hp), (Hwf p Hp). auto.
  - apply walk_tag_complete; [done|]. apply IH, Hwf.
  - apply (walk_leaf_complete _ CBool b dec_bool_complete Hwf).
    intros. by erewrite (walk_step (CBool b)).
  - apply (walk_leaf_complete _ (fun _ => CNull) tt dec_null_complete Hwf).
    intros fuel d pre rest fs Hrep. erewrite (walk_step CNull); [|done..]. cbn [type_of].
    unfold bind, ret. by destruct (ants_cbor_dec_null d) as [? [] | | | ].
Qed.
