(* ===== verification/CborContract.v ===== *)
(** * The contract of the CBOR codec

    The theorems clients of src/foundation/cbor rely on: the validator
    decides canonical form, one item has one encoding, the encoder produces
    it, no sequence of encoder calls produces anything else, and the decoder
    stays inside its buffer and is unchanged by a call that fails. *)

From S2P Require Import Prelude Cbor CborSpec CborTrack CborEnc CborDec CborCanon.

(** ** Fresh codec objects *)

Lemma enc_init_rep buf cap :
  0 < cap <= zlen buf -> zlen buf <= INT64_MAX ->
  exists e, ants_cbor_enc_init (Some buf) cap = Ok tt e /\ enc_rep e [] [] /\
            enc_cap e = cap /\ enc_buf e = buf.
Proof.
  intros Hc Hb. eexists. unfold ants_cbor_enc_init. replace (cap =? 0) with false by zlia.
  split; [reflexivity|]. split; [|done]. split_and!; cbn; try done; try lia.
  split_and!; cbn; rewrite ?zlen_nil; try done; zlia.
Qed.

Lemma dec_init_rep buf :
  bytes_ok buf -> zlen buf <= INT64_MAX ->
  exists d, ants_cbor_dec_init (Some buf) (zlen buf) = Ok tt d /\ dec_rep d [] buf [].
Proof.
  intros Hok Hb. eexists. split; [reflexivity|]. pose proof (zlen_nonneg buf).
  split_and!; cbn; rewrite ?zlen_nil; try done; zlia.
Qed.

Lemma dec_rep_eof d pre rest fs :
  dec_rep d pre rest fs -> ants_cbor_dec_eof d = true <-> rest = [].
Proof.
  intros ((_ & Hl & _ & Hp & _) & _). unfold ants_cbor_dec_eof. rewrite Hl, Hp.
  pose proof (zlen_nonneg rest). split.
  - intros Heof. breflect. destruct rest; [done|]. rewrite zlen_cons in *.
    pose proof (zlen_nonneg rest). lia.
  - intros ->. rewrite zlen_nil. zlia.
Qed.

Lemma is_canonical_unfold buf :
  bytes_ok buf -> zlen buf <= INT64_MAX -> buf <> [] ->
  exists d, dec_rep d [] buf [] /\
    ants_cbor_is_canonical (Some buf) (zlen buf) =
    match walk_one_item (S (length buf)) d with
    | Ok dec' _ =>
      if negb (ants_cbor_dec_eof dec') then Err tt ANTS_ERROR_MALFORMED
      else if negb (dec_depth dec' =? -1) then Err tt ANTS_ERROR_MALFORMED
      else Ok tt tt
    | Err _ e => Err tt e
    | UB => UB
    | NoFuel => NoFuel
    end.
Proof.
  intros Hok Hb Hne. destruct (dec_init_rep buf Hok Hb) as (d & Hd & Hrep).
  exists d. split; [done|]. unfold ants_cbor_is_canonical. rewrite Hd. cbn [is_null andb].
  replace (zlen buf =? 0) with false; [by rewrite zlen_to_nat|].
  destruct buf; [done|]. rewrite zlen_cons. pose proof (zlen_nonneg buf). zlia.
Qed.

Lemma is_canonical_sound buf :
  bytes_ok buf -> zlen buf <= INT64_MAX ->
  ants_cbor_is_canonical (Some buf) (zlen buf) = Ok tt tt ->
  exists c, wf c /\ (height c <= 16)%nat /\ encode c = buf.
Proof.
  intros Hok Hb. destruct (decide (buf = [])) as [->|Hne]; [done|].
  destruct (is_canonical_unfold buf Hok Hb Hne) as (d & Hrep & ->).
  pose proof (walk_one_item_sound (S (length buf)) d [] buf [] Hrep) as H.
  destruct (walk_one_item _ d) as [d'|d' e| |]; try done.
  destruct H as (c & rest & fs & -> & Hwf & Hh & _ & Hrep').
  destruct (ants_cbor_dec_eof d') eqn:E; [|done].
  apply (dec_rep_eof _ _ _ _ Hrep') in E as ->. intros _. exists c.
  by rewrite app_nil_r.
Qed.

Lemma is_canonical_complete c :
  wf c -> (height c <= 16)%nat -> bytes_ok (encode c) -> zlen (encode c) <= INT64_MAX ->
  ants_cbor_is_canonical (Some (encode c)) (zlen (encode c)) = Ok tt tt.
Proof.
  intros Hwf Hh Hok Hb.
  destruct (is_canonical_unfold (encode c) Hok Hb (encode_ne c)) as (d & Hrep & ->).
  destruct (walk_one_item_complete c Hwf (S (length (encode c))) d [] [] [] [])
    as (d' & -> & Hrep'); try done; try (cbn; lia); [by rewrite app_nil_r|].
  assert (ants_cbor_dec_eof d' = true) as -> by (by eapply dec_rep_eof).
  destruct Hrep' as (_ & _ & Hd & _). by rewrite Hd.
Qed.

(** C1: [ants_cbor_is_canonical] accepts a buffer exactly when it is the
    canonical encoding of one well-formed item that nests at most 16 deep. *)
Theorem is_canonical_iff buf :
  bytes_ok buf -> zlen buf <= INT64_MAX ->
  ants_cbor_is_canonical (Some buf) (zlen buf) = Ok tt tt <->
  exists c, wf c /\ (height c <= 16)%nat /\ encode c = buf.
Proof.
  intros Hok Hb. split; [by apply is_canonical_sound|].
  intros (c & Hwf & Hh & <-). by apply is_canonical_complete.
Qed.

Lemma is_canonical_iff_witness :
  ants_cbor_is_canonical (Some [0x82; 1; 0xf6]) 3 = Ok tt tt <->
  exists c, wf c /\ (height c <= 16)%nat /\ encode c = [0x82; 1; 0xf6].
Proof.
  apply (is_canonical_iff [0x82; 1; 0xf6]); [by repeat constructor | done].
Defined.

Lemma canonical_total buf :
  bytes_ok buf -> zlen buf <= INT64_MAX ->
  ants_cbor_is_canonical (Some buf) (zlen buf) = Ok tt tt \/
  exists e, ants_cbor_is_canonical (Some buf) (zlen buf) = Err tt e.
Proof.
  intros Hok Hb. destruct (decide (buf = [])) as [->|Hne]; [right; by eexists|].
  destruct (is_canonical_unfold buf Hok Hb Hne) as (d & Hrep & ->).
  pose proof (walk_one_item_sound (S (length buf)) d [] buf [] Hrep) as H.
  destruct (walk_one_item _ d) as [d' []|d' e| |]; try done; [|eauto|lia].
  repeat bcase; eauto.
Qed.

(** C28: the validator terminates on every buffer and never reads outside it;
    the fuel of the model, one more than the length, is never exhausted. *)
Theorem is_canonical_total buf :
  bytes_ok buf -> zlen buf <= INT64_MAX ->
  ants_cbor_is_canonical (Some buf) (zlen buf) = Ok tt tt \/
  exists e, ants_cbor_is_canonical (Some buf) (zlen buf) = Err tt e.
Proof. apply canonical_total. Qed.

Lemma is_canonical_total_witness :
  ants_cbor_is_canonical (Some [0xa1; 0xbf; 0xff]) 3 = Ok tt tt \/
  exists e, ants_cbor_is_canonical (Some [0xa1; 0xbf; 0xff]) 3 = Err tt e.
Proof.
  apply (is_canonical_total [0xa1; 0xbf; 0xff]); [by repeat constructor | done].
Defined.

(** ** One item, one encoding *)

Lemma encode_head_inj m m' v v' r r' :
  0 <= m <= 7 -> 0 <= m' <= 7 -> is_u64 v -> is_u64 v' ->
  encode_head m v ++ r = encode_head m' v' ++ r' -> m = m' /\ v = v' /\ r = r'.
Proof.
  intros Hm Hm' Hv Hv' H.
  destruct (encode_head_cases m v Hv) as [[Hlt E]|(i & n & lo & bs & Hx & E & Hl & Hb & Hle & Hi)],
    (encode_head_cases m' v' Hv') as [[Hlt' E']|(i' & n' & lo' & bs' & Hx' & E' & Hl' & Hb' & Hle' & Hi')];
    rewrite E, E' in H; cbn [app] in H; injection H as Hh Ht.
  - split_and!; zlia || done.
  - zlia.
  - zlia.
  - assert (m = m' /\ i = i') as [-> ->] by lia.
    rewrite Hx in Hx'. injection Hx' as -> ->.
    apply app_inj_1 in Ht as [-> ->]; [|lia]. by subst.
Qed.

(** Every item is a head with a major type and an argument, and a body. *)
Definition major_of (c : cbor) : Z :=
  match c with
  | CUint _ => 0 | CNint _ => 1 | CBytes _ => 2 | CText _ => 3
  | CArray _ => 4 | CMap _ => 5 | CTag _ _ => 6 | CBool _ | CNull => 7
  end.

Definition arg_of (c : cbor) : Z :=
  match c with
  | CUint v => v | CNint n => n
  | CBytes b | CText b => zlen b
  | CArray l => zlen l | CMap l => zlen l
  | CTag t _ => t
  | CBool b => if b then 21 else 20
  | CNull => 22
  end.

Definition body_of (c : cbor) : bytes :=
  match c with
  | CBytes b | CText b => b
  | CArray l => concat (map encode l)
  | CMap l => encode_pairs l
  | CTag _ c => encode c
  | _ => []
  end.

Lemma encode_parts c : encode c = encode_head (major_of c) (arg_of c) ++ body_of c.
Proof. destruct c as [| | | | | | |[]|]; cbn [encode body_of major_of arg_of];
  by rewrite ?app_nil_r. Qed.

Lemma arg_of_u64 c : wf c -> is_u64 (arg_of c).
Proof.
  destruct c as [v|n|b|b|l|l|t c|[]|]; cbn [wf arg_of]; intros Hwf; try zlia; try done.
  apply tag_reserved_u64, Hwf.
Qed.

Lemma major_of_range c : 0 <= major_of c <= 7.
Proof. destruct c; cbn; lia. Qed.

(** Bytes in front of which an item can be cut off in one way only. *)
Definition prefix_free (c : cbor) : Prop :=
  forall c' r r', wf c -> wf c' -> encode c ++ r = encode c' ++ r' -> c = c' /\ r = r'.

Lemma encode_items_inj l : Forall prefix_free l ->
  forall l' r r', Forall wf l -> Forall wf l' -> length l = length l' ->
  concat (map encode l) ++ r = concat (map encode l') ++ r' -> l = l' /\ r = r'.
Proof.
  induction 1 as [|c l Hc _ IH]; intros [|c' l'] r r' Hwf Hwf' Hlen H; try done.
  apply Forall_cons in Hwf as [? ?], Hwf' as [? ?].
  cbn [map concat length] in *. rewrite <- !app_assoc in H.
  destruct (Hc c' _ _ ltac:(done) ltac:(done) H) as [-> H'].
  destruct (IH l' r r') as [-> ->]; try done. lia.
Qed.

Lemma encode_pairs_inj l : Forall (fun p => prefix_free p.1 /\ prefix_free p.2) l ->
  forall l' r r', Forall (fun p => wf p.1 /\ wf p.2) l ->
  Forall (fun p => wf p.1 /\ wf p.2) l' -> length l = length l' ->
  encode_pairs l ++ r = encode_pairs l' ++ r' -> l = l' /\ r = r'.
Proof.
  induction 1 as [|[k v] l [Hk Hv] _ IH]; intros [|[k' v'] l'] r r' Hwf Hwf' Hlen H; try done.
  apply Forall_cons in Hwf as [[? ?] ?], Hwf' as [[? ?] ?]. cbn [fst snd length] in *.
  rewrite !encode_pairs_cons, <- !app_assoc in H.
  destruct (Hk k' _ _ ltac:(done) ltac:(done) H) as [-> Hr1].
  destruct (Hv v' _ _ ltac:(done) ltac:(done) Hr1) as [-> Hr2].
  destruct (IH l' r r') as [-> ->]; try done. lia.
Qed.

Lemma encode_prefix_free c : prefix_free c.
Proof.
  induction c as [v|n|b|b|l IH|l IH|t c IH|b|] using cbor_rect'; intros c' r r' Hwf Hwf' H.
  all: rewrite 2!encode_parts, <- !app_assoc in H;
    apply encode_head_inj in H as (Hm & Ha & H); auto using arg_of_u64, major_of_range.
  all: destruct c' as [v'|n'|b'|b'|l'|l'|t' c'|b'|]; try (cbn in Hm; lia);
    cbn [arg_of body_of major_of app] in *; subst; try done.
  - apply app_inj_1 in H as [-> ->]; [done | zlia].
  - apply app_inj_1 in H as [-> ->]; [done | zlia].
  - apply wf_array in Hwf as [_ Hwf], Hwf' as [_ Hwf'].
    destruct (encode_items_inj l IH l' r r') as [-> ->]; try done. zlia.
  - apply wf_map in Hwf as (_ & _ & Hwf), Hwf' as (_ & _ & Hwf').
    destruct (encode_pairs_inj l IH l' r r') as [-> ->]; try done. zlia.
  - destruct Hwf, Hwf'. by destruct (IH c' r r') as [-> ->].
  - by destruct b, b'.
  - by destruct b.
  - by destruct b'.
Qed.

(** No malleability.  A buffer the validator accepts is the encoding of
    exactly one well-formed item, and no proper extension of it is accepted:
    a document has one reading and cannot be continued into another. *)
Theorem canonical_unambiguous buf ext :
  bytes_ok (buf ++ ext) -> zlen (buf ++ ext) <= INT64_MAX ->
  ants_cbor_is_canonical (Some buf) (zlen buf) = Ok tt tt ->
  (exists! c, wf c /\ encode c = buf) /\
  (ants_cbor_is_canonical (Some (buf ++ ext)) (zlen (buf ++ ext)) = Ok tt tt -> ext = []).
Proof.
  intros Hok Hb Hacc. pose proof (proj1 (bytes_ok_app _ _) Hok) as [Hok1 _].
  assert (zlen buf <= INT64_MAX) by (rewrite zlen_app in Hb; pose proof (zlen_nonneg ext); lia).
  destruct (is_canonical_sound buf) as (c & Hwf & _ & <-); try done. split.
  - exists c. split; [done|]. intros c' [Hwf' Henc].
    destruct (encode_prefix_free c c' [] [] Hwf Hwf'); by rewrite ?app_nil_r.
  - intros Hacc'. destruct (is_canonical_sound (encode c ++ ext)) as (c' & Hwf' & _ & Henc); try done.
    destruct (encode_prefix_free c c' ext [] Hwf Hwf'); [by rewrite app_nil_r | done].
Qed.

Lemma canonical_unambiguous_witness :
  (exists! c, wf c /\ encode c = [0x82; 1; 0xf6]) /\
  (ants_cbor_is_canonical (Some [0x82; 1; 0xf6; 0]) 4 = Ok tt tt -> [0] = []).
Proof.
  apply (canonical_unambiguous [0x82; 1; 0xf6] [0]); [by repeat constructor | done | reflexivity].
Defined.

(** ** The encoder *)

Lemma bytes_ok_concat (l : list bytes) : Forall bytes_ok l -> bytes_ok (concat l).
Proof. induction 1; cbn; [constructor | by apply bytes_ok_app]. Qed.

Lemma encode_ok c : wf c -> bytes_ok (encode c).
Proof.
  induction c as [v|n|b|b|l IH|l IH|t c IH|b|] using cbor_rect'; intros Hwf;
    pose proof (arg_of_u64 _ Hwf) as Ha; cbn [arg_of] in Ha; cbn [encode].
  1,2: apply encode_head_ok; zlia.
  1-5: apply bytes_ok_app; split; [apply encode_head_ok; zlia|].
  - apply Hwf.
  - apply Hwf.
  - apply bytes_ok_concat, Forall_map. apply wf_array in Hwf as [_ Hwf].
    rewrite Forall_forall in *. auto.
  - apply bytes_ok_concat, Forall_map. apply wf_map in Hwf as (_ & _ & Hwf).
    rewrite Forall_forall in *. intros [k v] Hkv. destruct (IH _ Hkv), (Hwf _ Hkv).
    apply bytes_ok_app. auto.
  - by apply IH, Hwf.
  - destruct b; by repeat constructor.
  - by repeat constructor.
Qed.

(** The bytes written so far. *)
Definition written (e : ants_cbor_enc_t) : bytes :=
  take (Z.to_nat (ants_cbor_enc_size e)) (enc_buf e).

Lemma enc_raw_written e pre : enc_raw e pre -> written e = pre /\ ants_cbor_enc_size e = zlen pre.
Proof.
  intros (Ht & Hp & _). unfold written, ants_cbor_enc_size. by rewrite Hp, zlen_to_nat.
Qed.

(** Any client program that writes the bytes [item] as one item. *)
Lemma writes_document m item h buf cap :
  writes m item h -> (h <= 16)%nat -> item <> [] ->
  zlen item <= cap <= zlen buf -> zlen buf <= INT64_MAX ->
  exists buf', with_encoder cap m buf = Ok buf' (zlen item) /\ take (length item) buf' = item.
Proof.
  intros Hm Hh Hne Hc Hb. assert (1 <= zlen item).
  { destruct item; [done|]. rewrite zlen_cons. pose proof (zlen_nonneg item). lia. }
  destruct (enc_init_rep buf cap) as (e0 & He0 & Hrep0 & Hcap & _); [lia|done|].
  unfold with_encoder. rewrite He0.
  destruct (Hm e0 [] [] []) as (e & He & Hrep & _); try done; [rewrite zlen_nil; lia|].
  rewrite (bind_Ok _ _ _ _ _ He). destruct (enc_raw_written e item) as [Hw Hs]; [apply Hrep|].
  assert (ants_cbor_enc_finalise e = Ok e tt) as ->.
  { unfold ants_cbor_enc_finalise. unfold ants_cbor_enc_size in Hs.
    destruct Hrep as (_ & _ & -> & _). cbn [length Z.of_nat]. by repeat bdecide. }
  exists (enc_buf e). rewrite Hs. split; [done|].
  unfold written in Hw. by rewrite Hs, zlen_to_nat in Hw.
Qed.

(** Encoding.  Writing a well-formed item that nests at most 16 deep into
    a large enough buffer succeeds, stores exactly the canonical encoding,
    reports its length, and the validator accepts what was written. *)
Theorem encoder_canonical c buf cap :
  wf c -> (height c <= 16)%nat ->
  zlen (encode c) <= cap <= zlen buf -> zlen buf <= INT64_MAX ->
  exists buf' n, with_encoder cap (emit c) buf = Ok buf' n /\ n = zlen (encode c) /\
    take (Z.to_nat n) buf' = encode c /\
    ants_cbor_is_canonical (Some (take (Z.to_nat n) buf')) n = Ok tt tt.
Proof.
  intros Hwf Hh Hc Hb.
  destruct (writes_document _ _ _ buf cap (emit_writes c Hwf) Hh (encode_ne c) Hc Hb)
    as (buf' & He & Hw). exists buf', (zlen (encode c)). rewrite zlen_to_nat, Hw.
  split_and!; try done. apply is_canonical_complete; try done; [by apply encode_ok | lia].
Qed.

Lemma encoder_canonical_witness :
  exists buf' n, with_encoder 8 (emit (CArray [CNint 9; CText [97; 98]])) (replicate 8 0) = Ok buf' n /\
    n = 5 /\ take (Z.to_nat n) buf' = [0x82; 0x29; 0x62; 97; 98] /\
    ants_cbor_is_canonical (Some (take (Z.to_nat n) buf')) n = Ok tt tt.
Proof.
  apply (encoder_canonical (CArray [CNint 9; CText [97; 98]]) (replicate 8 0) 8).
  - apply wf_array. split; [done|]. repeat constructor; done.
  - cbn. lia.
  - done.
  - done.
Defined.

(** ** Every sequence of encoder calls *)

Inductive enc_call : Type :=
| EUint (v : Z)
| EInt (v : Z)
| EBytes (s : bytes)
| EText (s : bytes)
| EArray (n : Z)
| EMap (n : Z)
| ETag (t : Z)
| EBool (b : bool)
| ENull.

Definition run_enc_call (c : enc_call) : action ants_cbor_enc_t unit :=
  match c with
  | EUint v => ants_cbor_enc_uint v
  | EInt v => ants_cbor_enc_int v
  | EBytes s => ants_cbor_enc_bytes (Some s) (zlen s)
  | EText s => ants_cbor_enc_text (Some s) (zlen s)
  | EArray n => ants_cbor_enc_array n
  | EMap n => ants_cbor_enc_map n
  | ETag t => ants_cbor_enc_tag t
  | EBool b => ants_cbor_enc_bool b
  | ENull => ants_cbor_enc_null
  end.

(** The arguments have the types of the C prototypes. *)
Definition enc_call_ok (c : enc_call) : Prop :=
  match c with
  | EUint v => is_u64 v
  | EInt v => INT64_MIN <= v <= INT64_MAX
  | EBytes s | EText s => bytes_ok s /\ zlen s <= SIZE_MAX
  | EArray n | EMap n | ETag n => is_u64 n
  | EBool _ | ENull => True
  end.

(** A client that ignores the error codes; [None] is an access outside the
    buffer or the context array. *)
Fixpoint run_enc_calls (cs : list enc_call) (e : ants_cbor_enc_t) : option ants_cbor_enc_t :=
  match cs with
  | [] => Some e
  | c :: cs' => match run_enc_call c e with
                | Ok e' _ | Err e' _ => run_enc_calls cs' e'
                | UB | NoFuel => None
                end
  end.

(** An item that may stand below [d] open containers. *)
Definition good_item (d : nat) (c : cbor) : Prop := wf c /\ (d + height c <= 16)%nat.

(** The bytes of an open container are its head and complete items. *)
Definition frame_ok (d : nat) (f : frame) : Prop :=
  match f_st f with
  | FArr => exists n l, f_bytes f = encode_head 4 n ++ concat (map encode l) /\
      Forall (good_item (S d)) l /\ zlen l + f_rem f = n /\ is_u64 n
  | FTag => exists t, f_bytes f = encode_head 6 t /\ tag_reserved t = true /\ f_rem f = 1
  | FKey k => exists n l, f_bytes f = encode_head 5 n ++ encode_pairs l /\
      Forall (fun p => good_item (S d) p.1 /\ good_item (S d) p.2) l /\
      zlen l + f_rem f = n /\ is_u64 n /\ Sorted key_lt (encoded_keys l) /\ last (encoded_keys l) = k
  | FVal k => exists n l kc, f_bytes f = encode_head 5 n ++ encode_pairs l ++ encode kc /\
      Forall (fun p => good_item (S d) p.1 /\ good_item (S d) p.2) l /\
      zlen l + f_rem f = n /\ is_u64 n /\ good_item (S d) kc /\ k = encode kc /\
      Sorted key_lt (encoded_keys l ++ [k])
  end /\ 1 <= f_rem f.

(** The bytes written are complete items and then the open containers,
    outermost first. *)
Fixpoint doc_ok (pre : bytes) (fs : list frame) : Prop :=
  match fs with
  | [] => exists items, Forall (good_item 0) items /\ pre = concat (map encode items)
  | f :: fs' => exists pre', pre = pre' ++ f_bytes f /\ frame_ok (length fs') f /\ doc_ok pre' fs'
  end.

Lemma Sorted_snoc {A} (R : A -> A -> Prop) l x :
  Sorted R l -> (forall y, last l = Some y -> R y x) -> Sorted R (l ++ [x]).
Proof.
  induction l as [|a l IH]; intros Hs Hl; cbn; [by repeat constructor|].
  apply Sorted_inv in Hs as [Hs Hhd]. constructor.
  - apply IH; [done|]. intros y Hy. apply Hl. destruct l; [done|exact Hy].
  - destruct l as [|b l]; cbn; constructor; [by apply Hl | by apply HdRel_inv in Hhd].
Qed.

Lemma encode_pairs_app l l' : encode_pairs (l ++ l') = encode_pairs l ++ encode_pairs l'.
Proof. unfold encode_pairs. by rewrite map_app, concat_app. Qed.

Lemma encode_pairs_snoc l k v :
  encode_pairs (l ++ [(k, v)]) = encode_pairs l ++ encode k ++ encode v.
Proof. rewrite encode_pairs_app, encode_pairs_cons. cbn. by rewrite app_nil_r. Qed.

Lemma encode_items_snoc l c : concat (map encode (l ++ [c])) = concat (map encode l) ++ encode c.
Proof. rewrite map_app, concat_app. cbn. by rewrite app_nil_r. Qed.

Lemma good_item_array d l : Forall (good_item (S d)) l -> zlen l <= SIZE_MAX ->
  (d <= 16)%nat -> good_item d (CArray l).
Proof.
  intros Hl Hn Hd. split.
  - apply wf_array. split; [done|]. eapply Forall_impl; [exact Hl|]. by intros ? [? _].
  - enough (height (CArray l) <= 16 - d)%nat by lia. apply height_array_le.
    eapply Forall_impl; [exact Hl|]. intros ? [_ ?]. cbn in *. lia.
Qed.

Lemma good_item_map d l :
  Forall (fun p => good_item (S d) p.1 /\ good_item (S d) p.2) l -> zlen l <= SIZE_MAX ->
  Sorted key_lt (encoded_keys l) -> (d <= 16)%nat -> good_item d (CMap l).
Proof.
  intros Hl Hn Hs Hd. split.
  - apply wf_map. split; [done|]. split; [done|].
    eapply Forall_impl; [exact Hl|]. by intros ? [[? _] [? _]].
  - enough (height (CMap l) <= 16 - d)%nat by lia. apply height_map_le.
    eapply Forall_impl; [exact Hl|]. intros ? [[_ ?] [_ ?]]. cbn in *. lia.
Qed.

(** The item that completes a container turns it into an item. *)
Lemma frame_close d f c :
  frame_ok d f -> good_item (S d) c -> f_rem f = 1 ->
  match f_st f with FKey _ => False | _ => True end ->
  exists c', good_item d c' /\ encode c' = f_bytes f ++ encode c.
Proof.
  intros [Hf _] Hc Hr Hst. assert (d <= 16)%nat by (destruct Hc; lia).
  destruct f as [[|k|k|] rem fb]; cbn in *; try done; subst rem.
  - destruct Hf as (n & l & -> & Hl & Hn & Hu). exists (CArray (l ++ [c])).
    assert (Hz : zlen (l ++ [c]) = n) by (rewrite zlen_app, zlen_cons, zlen_nil; lia). split.
    + apply good_item_array; [apply Forall_app; auto | zlia | done].
    + cbn [encode]. by rewrite Hz, encode_items_snoc, app_assoc.
  - destruct Hf as (n & l & kc & -> & Hl & Hn & Hu & Hk & -> & Hs). exists (CMap (l ++ [(kc, c)])).
    assert (Hz : zlen (l ++ [(kc, c)]) = n) by (rewrite zlen_app, zlen_cons, zlen_nil; lia). split.
    + apply good_item_map; [apply Forall_app; auto | zlia | | done].
      unfold encoded_keys in *. by rewrite map_app.
    + cbn [encode]. fold (encode_pairs (l ++ [(kc, c)])).
      by rewrite Hz, encode_pairs_snoc, !app_assoc.
  - destruct Hf as (t & -> & Ht & _). exists (CTag t c). split; [|done].
    destruct Hc. split; [done|]. cbn. lia.
Qed.

Lemma doc_track fs : forall pre c fs',
  doc_ok pre fs -> good_item (length fs) c -> track fs (encode c) = Some fs' ->
  doc_ok (pre ++ encode c) fs'.
Proof.
  induction fs as [|[st rem fb] fs IH]; intros pre c fs' Hd Hc Ht; cbn [track length] in *.
  { injection Ht as <-. destruct Hd as (items & Hi & ->). exists (items ++ [c]).
    split; [apply Forall_app; auto | by rewrite encode_items_snoc]. }
  destruct Hd as (pre' & -> & Hf & Hd). cbn [f_bytes].
  assert (Hclose : rem = 1 -> match st with FKey _ => False | _ => True end ->
    track fs (fb ++ encode c) = Some fs' -> doc_ok ((pre' ++ fb) ++ encode c) fs').
  { intros Hr Hst Ht'. destruct (frame_close _ _ c Hf Hc Hr Hst) as (c' & Hc' & He).
    cbn [f_bytes] in He. rewrite <- app_assoc, <- He in *. by apply IH. }
  assert (Hopen : forall f, fs' = f :: fs -> f_bytes f = fb ++ encode c ->
    frame_ok (length fs) f -> doc_ok ((pre' ++ fb) ++ encode c) fs').
  { intros f -> Hfb Hfok. exists pre'. by rewrite Hfb, app_assoc. }
  destruct Hf as [Hf Hrem]. cbn [f_st f_rem f_bytes] in *. destruct st as [|k|k|].
  - destruct (Z.eqb_spec rem 1) as [|Hne]; [by apply Hclose|]. injection Ht as Ht.
    eapply Hopen; [done | done |]. destruct Hf as (n & l & -> & Hl & Hn & Hu).
    split; [|cbn; lia]. exists n, (l ++ [c]). cbn [f_bytes f_rem].
    rewrite encode_items_snoc, app_assoc, zlen_app, zlen_cons, zlen_nil.
    split; [done|]. split; [apply Forall_app; auto|]. split; [lia | done].
  - assert (Hlt : fs' = Frame (FVal (encode c)) rem (fb ++ encode c) :: fs /\
                  forall y, k = Some y -> key_lt y (encode c)).
    { destruct k as [k|]; [|by injection Ht as <-].
      destruct (Z.ltb_spec (compare_keys k (encode c)) 0) as [Hlt|]; [|done]. injection Ht as <-.
      split; [done|]. by intros ? [= <-]. }
    destruct Hlt as [-> Hlt]. eapply Hopen; [done | done |].
    destruct Hf as (n & l & -> & Hl & Hn & Hu & Hs & <-).
    split; [|done]. exists n, l, c. cbn [f_bytes f_rem]. rewrite <- app_assoc.
    split; [done|]. split; [done|]. split; [done|]. split; [done|]. split; [done|].
    split; [done|]. by apply Sorted_snoc.
  - destruct (Z.eqb_spec rem 1) as [|Hne]; [by apply Hclose|]. injection Ht as Ht.
    eapply Hopen; [done | done |]. destruct Hf as (n & l & kc & -> & Hl & Hn & Hu & Hk & -> & Hs).
    split; [|cbn; lia]. exists n, (l ++ [(kc, c)]). cbn [f_bytes f_rem].
    rewrite encode_pairs_snoc, zlen_app, <- !app_assoc.
    split; [done|]. split; [apply Forall_app; auto|]. split; [rewrite zlen_cons, zlen_nil; lia|]. split; [done|].
    unfold encoded_keys in *. rewrite map_app. cbn [map fst].
    split; [done|]. by rewrite last_snoc.
  - destruct Hf as (t & -> & Ht' & ->). rewrite Z.eqb_refl in Ht. by apply Hclose.
Qed.

(** The invariant of every encoder a client can obtain. *)
Definition enc_inv (e : ants_cbor_enc_t) : Prop :=
  exists pre fs, enc_rep e pre fs /\ doc_ok pre fs.

Definition call_safe (m : action ants_cbor_enc_t unit) : Prop :=
  forall e, enc_inv e ->
  match m e with
  | Ok e' _ => enc_inv e'
  | Err e' _ => enc_inv e' /\ ants_cbor_enc_size e' = ants_cbor_enc_size e /\ written e' = written e
  | UB | NoFuel => False
  end.

Lemma same_written e e' pre fs fs' :
  enc_rep e pre fs -> enc_rep e' pre fs' ->
  ants_cbor_enc_size e' = ants_cbor_enc_size e /\ written e' = written e.
Proof.
  intros [Hr _] [Hr' _]. apply enc_raw_written in Hr as [? ?], Hr' as [? ?].
  split; congruence.
Qed.

Lemma call_safe_item m c :
  wf c -> height c = 0%nat ->
  (forall e pre fs, enc_rep e pre fs -> enc_post (encode c) e pre fs (m e)) -> call_safe m.
Proof.
  intros Hwf Hh Hm e (pre & fs & Hrep & Hd). specialize (Hm e pre fs Hrep).
  unfold enc_post in Hm. destruct (m e) as [e' ?|e' err| |]; try done.
  - destruct Hm as (fs' & Ht & Hrep' & _). exists (pre ++ encode c), fs'. split; [done|].
    apply (doc_track fs); try done. split; [done|]. rewrite Hh.
    destruct Hrep as (_ & _ & _ & ? & _). lia.
  - destruct Hm as (Hrep' & _). split; [by exists pre, fs | by eapply same_written].
Qed.

Lemma call_safe_open m st n head :
  (forall d, (d < 16)%nat -> frame_ok d (Frame st n head)) ->
  (forall e pre fs, enc_rep e pre fs -> enc_post_open st n head e pre fs (m e)) -> call_safe m.
Proof.
  intros Hf Hm e (pre & fs & Hrep & Hd). specialize (Hm e pre fs Hrep).
  unfold enc_post_open in Hm. destruct (m e) as [e' ?|e' err| |]; try done.
  - destruct Hm as (Hlt & Hrep' & _). exists (pre ++ head), (Frame st n head :: fs).
    split; [done|]. exists pre. auto.
  - destruct Hm as (Hrep' & _). split; [by exists pre, fs | by eapply same_written].
Qed.

Lemma call_safe_fail err : call_safe (fail err).
Proof. intros e He. by cbn. Qed.

Lemma enc_call_safe c : enc_call_ok c -> call_safe (run_enc_call c).
Proof.
  destruct c as [v|v|s|s|n|n|t|b|]; cbn [enc_call_ok run_enc_call]; intros Hok.
  - apply (call_safe_item _ (CUint v)); [done..|]. intros. by apply enc_uint_spec.
  - apply (call_safe_item _ (if 0 <=? v then CUint v else CNint (-1 - v)));
      [destruct (Z.leb_spec 0 v); cbn; zlia | by destruct (0 <=? v) |].
    intros. by apply enc_int_spec.
  - apply (call_safe_item _ (CBytes s)); [done..|]. intros. apply enc_bytes_spec; [apply Hok | done].
  - apply (call_safe_item _ (CText s)); [done..|]. intros. apply enc_text_spec; [apply Hok | done].
  - pose proof (enc_array_spec n) as H. destruct (Z.eqb_spec n 0).
    + apply (call_safe_item _ (CArray [])); [done..|]. auto.
    + apply (call_safe_open _ FArr n (encode_head 4 n)); [|auto]. intros d Hd.
      split; [|cbn; zlia]. exists n, []. cbn [map concat]. by rewrite app_nil_r.
  - pose proof (enc_map_spec n) as H. destruct (Z.eqb_spec n 0).
    + apply (call_safe_item _ (CMap [])); [by repeat constructor|done|]. auto.
    + apply (call_safe_open _ (FKey None) n (encode_head 5 n)); [|auto]. intros d Hd.
      split; [|cbn; zlia]. exists n, []. unfold encode_pairs. cbn [map concat]. rewrite app_nil_r.
      split; [done|]. split; [done|]. split; [done|]. split; [done|]. by split; [constructor|].
  - destruct (tag_reserved t) eqn:Ht.
    + apply (call_safe_open _ FTag 1 (encode_head 6 t)).
      * intros d Hd. split; [|done]. by exists t.
      * intros. by apply enc_tag_spec.
    + unfold ants_cbor_enc_tag. rewrite Ht. apply call_safe_fail.
  - apply (call_safe_item _ (CBool b)); [done..|]. intros. by apply enc_bool_spec.
  - apply (call_safe_item _ CNull); [done..|]. intros. by apply enc_null_spec.
Qed.

Lemma run_enc_calls_inv cs e :
  Forall enc_call_ok cs -> enc_inv e -> exists e', run_enc_calls cs e = Some e' /\ enc_inv e'.
Proof.
  intros Hcs. revert e. induction Hcs as [|c cs Hc _ IH]; intros e He; cbn; [eauto|].
  pose proof (enc_call_safe c Hc e He) as H.
  destruct (run_enc_call c e); try done; apply IH; [done | apply H].
Qed.

(** Whatever calls a client makes on a fresh encoder, in whatever order
    and ignoring the errors it gets, no call touches memory outside the
    buffer, and when [ants_cbor_enc_finalise] then succeeds the bytes written
    are one or more complete canonical items, each at most 16 deep. *)
Theorem encoder_any_calls buf cap calls :
  0 < cap <= zlen buf -> zlen buf <= INT64_MAX -> Forall enc_call_ok calls ->
  exists e0 e, ants_cbor_enc_init (Some buf) cap = Ok tt e0 /\
    run_enc_calls calls e0 = Some e /\
    (ants_cbor_enc_finalise e = Ok e tt ->
     exists items, items <> [] /\ Forall (fun c => wf c /\ (height c <= 16)%nat) items /\
                   written e = concat (map encode items)).
Proof.
  intros Hc Hb Hok. destruct (enc_init_rep buf cap Hc Hb) as (e0 & He0 & Hrep0 & _).
  destruct (run_enc_calls_inv calls e0 Hok) as (e & He & pre & fs & Hrep & Hd).
  { exists [], []. split; [done|]. by exists []. }
  exists e0, e. split; [done|]. split; [done|]. unfold ants_cbor_enc_finalise.
  destruct (Z.eqb_spec (enc_depth e) (-1)) as [Hdep|]; cbn [negb]; [|done].
  destruct (Z.eqb_spec (enc_pos e) 0) as [|Hpos]; [done|]. intros _.
  destruct Hrep as (Hr & _ & Hl & _). rewrite Hdep in Hl.
  destruct fs as [|f fs]; [|cbn in Hl; lia]. destruct Hd as (items & Hi & ->). exists items.
  apply enc_raw_written in Hr as [Hw Hs]. split; [|done]. intros ->. by cbn in Hs.
Qed.

Lemma encoder_any_calls_witness :
  exists e0 e, ants_cbor_enc_init (Some (replicate 8 0)) 8 = Ok tt e0 /\
    run_enc_calls [EMap 2; EUint 1; ETag 42; EBytes [9]; EUint 1; EUint 2; ENull] e0 = Some e /\
    (ants_cbor_enc_finalise e = Ok e tt ->
     exists items, items <> [] /\ Forall (fun c => wf c /\ (height c <= 16)%nat) items /\
                   written e = concat (map encode items)).
Proof.
  apply (encoder_any_calls (replicate 8 0) 8); [done | done |]. repeat constructor; done.
Defined.

(** ** Every sequence of decoder calls *)

Inductive dec_call : Type :=
| DUint | DInt | DBytes | DText | DArray | DMap | DTag | DBool | DNull | DPeek.

Definition run_dec_call (c : dec_call) : action ants_cbor_dec_t unit :=
  match c with
  | DUint => ants_cbor_dec_uint ;* ret tt
  | DInt => ants_cbor_dec_int ;* ret tt
  | DBytes => ants_cbor_dec_bytes ;* ret tt
  | DText => ants_cbor_dec_text ;* ret tt
  | DArray => ants_cbor_dec_array ;* ret tt
  | DMap => ants_cbor_dec_map ;* ret tt
  | DTag => ants_cbor_dec_tag ;* ret tt
  | DBool => ants_cbor_dec_bool ;* ret tt
  | DNull => ants_cbor_dec_null
  | DPeek => ants_cbor_dec_peek_type ;* ret tt
  end.

(** The decoders a client can obtain over [buf]: a fresh one, and what a call
    leaves, whether it succeeds or fails. *)
Inductive dec_reachable (buf : bytes) : ants_cbor_dec_t -> Prop :=
| reach_init d :
    ants_cbor_dec_init (Some buf) (zlen buf) = Ok tt d -> dec_reachable buf d
| reach_ok d c d' :
    dec_reachable buf d -> run_dec_call c d = Ok d' tt -> dec_reachable buf d'
| reach_err d c d' err :
    dec_reachable buf d -> run_dec_call c d = Err d' err -> dec_reachable buf d'.

Definition dec_inv (buf : bytes) (d : ants_cbor_dec_t) : Prop :=
  exists pre rest fs, dec_rep d pre rest fs /\ doc_ok pre fs /\ buf = pre ++ rest.

(** A call consumes bytes of the buffer, or fails without effect. *)
Definition read_safe (m : action ants_cbor_dec_t unit) : Prop :=
  forall buf d, dec_inv buf d ->
  match m d with
  | Ok d' _ => dec_inv buf d' /\ dec_pos d <= dec_pos d'
  | Err d' _ => d' = d
  | UB | NoFuel => False
  end.

Lemma dec_rep_pos d pre rest fs : dec_rep d pre rest fs -> dec_pos d = zlen pre.
Proof. by intros ((_ & _ & _ & ? & _) & _). Qed.

Lemma read_safe_intro d d' buf pre bs rest fs fs' :
  dec_rep d pre (bs ++ rest) fs -> dec_rep d' (pre ++ bs) rest fs' -> buf = pre ++ bs ++ rest ->
  doc_ok (pre ++ bs) fs' -> dec_inv buf d' /\ dec_pos d <= dec_pos d'.
Proof.
  intros Hr Hr' -> Hd. split.
  - exists (pre ++ bs), rest, fs'. by rewrite app_assoc.
  - rewrite (dec_rep_pos _ _ _ _ Hr), (dec_rep_pos _ _ _ _ Hr'), zlen_app.
    pose proof (zlen_nonneg bs). lia.
Qed.

Lemma read_safe_item {A} (m : action ants_cbor_dec_t A) enc :
  reads_sound m enc -> (forall a, height (enc a) = 0%nat) -> read_safe (m ;* ret tt).
Proof.
  intros Hm Hh buf d (pre & rest & fs & Hrep & Hd & ->). specialize (Hm d pre rest fs Hrep).
  unfold bind, ret. destruct (m d) as [d' a|d' e| |]; try done.
  destruct Hm as (rest' & fs' & -> & Hwf & Ht & Hrep').
  eapply read_safe_intro; [exact Hrep | exact Hrep' | done |].
  apply (doc_track fs); try done. split; [done|]. rewrite Hh.
  destruct (dec_rep_depth _ _ _ _ Hrep). lia.
Qed.

Lemma read_safe_container (m : action ants_cbor_dec_t Z) major st mk :
  encode mk = encode_head major 0 -> wf mk -> height mk = 0%nat ->
  (forall n d, is_u64 n -> n <> 0 -> frame_ok d (Frame st n (encode_head major n))) ->
  (forall d pre rest fs, dec_rep d pre rest fs ->
    match m d with
    | Ok d' n => exists rest' fs', rest = encode_head major n ++ rest' /\ is_u64 n /\
                   open_result st (encode_head major n) n fs fs' /\
                   dec_rep d' (pre ++ encode_head major n) rest' fs'
    | Err d' _ => d' = d
    | UB | NoFuel => False
    end) ->
  read_safe (m ;* ret tt).
Proof.
  intros He Hwf Hh Hf Hm buf d (pre & rest & fs & Hrep & Hd & ->). specialize (Hm d pre rest fs Hrep).
  unfold bind, ret. destruct (m d) as [d' n|d' e| |]; try done.
  destruct Hm as (rest' & fs' & -> & Hn & Ho & Hrep').
  eapply read_safe_intro; [exact Hrep | exact Hrep' | done |]. unfold open_result in Ho.
  destruct (Z.eqb_spec n 0) as [->|Hn0].
  - rewrite <- He in *. apply (doc_track fs); try done. split; [done|]. rewrite Hh.
    destruct (dec_rep_depth _ _ _ _ Hrep). lia.
  - destruct Ho as [-> _]. exists pre. auto.
Qed.

Lemma dec_call_safe c : read_safe (run_dec_call c).
Proof.
  destruct c; cbn [run_dec_call].
  - by apply (read_safe_item _ CUint dec_uint_sound).
  - apply (read_safe_item _ CInt dec_int_sound). intros a. unfold CInt. by bcase.
  - by apply (read_safe_item _ CBytes dec_bytes_sound).
  - by apply (read_safe_item _ CText dec_text_sound).
  - apply (read_safe_container _ 4 FArr (CArray [])); try done; [|apply dec_array_sound].
    intros n d Hn Hn0. split; [|cbn; zlia]. exists n, []. cbn [map concat].
    rewrite app_nil_r. split; [done|]. by split.
  - apply (read_safe_container _ 5 (FKey None) (CMap [])); try done;
      [| apply dec_map_sound].
    intros n d Hn Hn0. split; [|cbn; zlia]. exists n, [].
    unfold encode_pairs. cbn [map concat]. rewrite app_nil_r.
    split; [done|]. split; [done|]. split; [done|]. split; [done|]. by split; [constructor|].
  - intros buf d (pre & rest & fs & Hrep & Hd & ->).
    pose proof (dec_tag_sound d pre rest fs Hrep) as H. unfold bind, ret.
    destruct (ants_cbor_dec_tag d) as [d' t|d' e| |]; try done.
    destruct H as (rest' & -> & Ht & Hlt & Hrep').
    eapply read_safe_intro; [exact Hrep | exact Hrep' | done |].
    exists pre. split; [done|]. split; [|done]. split; [|done]. by exists t.
  - by apply (read_safe_item _ CBool dec_bool_sound).
  - intros buf d Hd. pose proof (read_safe_item _ (fun _ => CNull) dec_null_sound
      (fun _ => eq_refl) buf d Hd) as H. unfold bind, ret in H.
    by destruct (ants_cbor_dec_null d).
  - intros buf d Hd. pose proof Hd as (pre & rest & fs & Hrep & _ & _).
    pose proof (peek_type_safe d pre rest (dec_rep_raw _ _ _ _ Hrep)) as H.
    unfold bind, ret. by destruct (ants_cbor_dec_peek_type d) as [d' ?|d' ?| |]; subst.
Qed.

Lemma dec_reachable_inv buf d :
  bytes_ok buf -> zlen buf <= INT64_MAX -> dec_reachable buf d -> dec_inv buf d.
Proof.
  intros Hok Hb. induction 1 as [d Hd|d c d' _ IH Hc|d c d' err _ IH Hc].
  - destruct (dec_init_rep buf Hok Hb) as (d0 & Hd0 & Hrep). assert (d0 = d) as -> by congruence.
    exists [], buf, []. split; [done|]. split; [|done]. by exists [].
  - pose proof (dec_call_safe c buf d IH) as H. rewrite Hc in H. apply H.
  - pose proof (dec_call_safe c buf d IH) as H. rewrite Hc in H. by subst.
Qed.

(** The decoder on untrusted bytes.  After any sequence of calls, every
    further call stays inside the buffer; a call that fails leaves the
    decoder exactly as it was, a call that succeeds moves forward. *)
Theorem decoder_transactional buf d c :
  bytes_ok buf -> zlen buf <= INT64_MAX -> dec_reachable buf d ->
  match run_dec_call c d with
  | Ok d' _ => dec_pos d <= dec_pos d' <= zlen buf
  | Err d' _ => d' = d
  | UB | NoFuel => False
  end.
Proof.
  intros Hok Hb Hd. pose proof (dec_reachable_inv buf d Hok Hb Hd) as Hi.
  pose proof (dec_call_safe c buf d Hi) as H.
  destruct (run_dec_call c d) as [d' ?|d' ?| |]; try done.
  destruct H as ((pre & rest & fs & Hrep & _ & ->) & Hle). split; [done|].
  rewrite (dec_rep_pos _ _ _ _ Hrep), zlen_app. pose proof (zlen_nonneg rest). lia.
Qed.

Lemma decoder_transactional_witness :
  match run_dec_call DText (mk_dec [0x81; 0x43; 1] 3 0 (replicate 16 ctx_zero) (-1)) with
  | Ok d' _ => 0 <= dec_pos d' <= 3
  | Err d' _ => d' = mk_dec [0x81; 0x43; 1] 3 0 (replicate 16 ctx_zero) (-1)
  | UB | NoFuel => False
  end.
Proof.
  exact (decoder_transactional [0x81; 0x43; 1]
    (mk_dec [0x81; 0x43; 1] 3 0 (replicate 16 ctx_zero) (-1)) DText
    ltac:(by repeat constructor) ltac:(done) (reach_init _ _ eq_refl)).
Defined.

Lemma inv_finalise buf d d' :
  dec_inv buf d -> ants_cbor_dec_finalise d = Ok d' tt ->
  exists items, Forall (fun c => wf c /\ (height c <= 16)%nat) items /\
                buf = concat (map encode items).
Proof.
  intros (pre & rest & fs & Hrep & Hdoc & ->).
  unfold ants_cbor_dec_finalise. bcase; [done|]. bcase; [done|]. intros _.
  destruct (dec_rep_depth _ _ _ _ Hrep) as [Hl _]. destruct fs as [|f fs]; [|cbn in Hl; lia].
  assert (ants_cbor_dec_eof d = true) as ->%(dec_rep_eof _ _ _ _ Hrep)
    by (unfold ants_cbor_dec_eof; zlia).
  destruct Hdoc as (items & Hi & ->). exists items. by rewrite app_nil_r.
Qed.

(** A decoding session that ends with a successful
    [ants_cbor_dec_finalise] has read a buffer that consists of complete
    canonical items, whatever typed calls it was made of. *)
Theorem decoder_accepts_canonical buf d d' :
  bytes_ok buf -> zlen buf <= INT64_MAX -> dec_reachable buf d ->
  ants_cbor_dec_finalise d = Ok d' tt ->
  exists items, Forall (fun c => wf c /\ (height c <= 16)%nat) items /\
                buf = concat (map encode items).
Proof.
  intros Hok Hb Hd. apply inv_finalise. by apply dec_reachable_inv.
Qed.

Lemma decoder_accepts_canonical_witness :
  exists items, Forall (fun c => wf c /\ (height c <= 16)%nat) items /\
                [0x18; 0x2a] = concat (map encode items).
Proof.
  apply (decoder_accepts_canonical [0x18; 0x2a]
    (mk_dec [0x18; 0x2a] 2 2 (replicate 16 ctx_zero) (-1))
    (mk_dec [0x18; 0x2a] 2 2 (replicate 16 ctx_zero) (-1)));
    [by repeat constructor | done | | done].
  apply (reach_ok _ (mk_dec [0x18; 0x2a] 2 0 (replicate 16 ctx_zero) (-1)) DUint);
    [by apply reach_init | done].
Defined.

(** ** Round trip *)

Lemma finalise_ok d pre : dec_rep d pre [] [] -> ants_cbor_dec_finalise d = Ok d tt.
Proof.
  intros ((_ & Hl & _ & Hp & _) & _ & Hd & _). unfold ants_cbor_dec_finalise.
  rewrite zlen_nil in Hl. rewrite Hd, Hl, Hp. cbn [length Z.of_nat]. by bdecide; bdecide.
Qed.

(** Signed integers survive the wire.  Every [int64_t], INT64_MIN
    included, written with [ants_cbor_enc_int] into nine bytes or more is
    read back by [ants_cbor_dec_int] from exactly the bytes written. *)
Theorem int_roundtrip v buf :
  INT64_MIN <= v <= INT64_MAX -> 9 <= zlen buf <= INT64_MAX ->
  exists buf' n d d', with_encoder (zlen buf) (ants_cbor_enc_int v) buf = Ok buf' n /\
    ants_cbor_dec_init (Some (take (Z.to_nat n) buf')) n = Ok tt d /\
    ants_cbor_dec_int d = Ok d' v /\ ants_cbor_dec_finalise d' = Ok d' tt.
Proof.
  intros Hv Hb. pose proof (encode_head_length 0 v). pose proof (encode_head_length 1 (-1 - v)).
  assert (Hlen : zlen (encode (CInt v)) <= 9 /\ wf (CInt v)).
  { unfold CInt. destruct (Z.leb_spec 0 v); cbn [encode wf]; split; zlia. }
  destruct (writes_document (ants_cbor_enc_int v) (encode (CInt v)) 0 buf (zlen buf))
    as (buf' & He & Hw).
  - apply writes_post. intros. by apply enc_int_spec.
  - lia.
  - apply encode_ne.
  - lia.
  - lia.
  - destruct Hlen as [Hlen Hwf].
    destruct (dec_init_rep (encode (CInt v))) as (d & Hd & Hrep); [by apply encode_ok | lia |].
    destruct (dec_int_complete v d [] [] [] []) as (d' & Hd' & Hrep'); [done| |done|].
    { by rewrite app_nil_r. }
    exists buf', (zlen (encode (CInt v))), d, d'. rewrite zlen_to_nat, Hw.
    split; [done|]. split; [done|]. split; [done|]. by eapply finalise_ok.
Qed.

Lemma int_roundtrip_witness :
  exists buf' n d d', with_encoder 9 (ants_cbor_enc_int INT64_MIN) (replicate 9 0) = Ok buf' n /\
    ants_cbor_dec_init (Some (take (Z.to_nat n) buf')) n = Ok tt d /\
    ants_cbor_dec_int d = Ok d' INT64_MIN /\ ants_cbor_dec_finalise d' = Ok d' tt.
Proof. apply (int_roundtrip INT64_MIN (replicate 9 0)); done. Defined.

(** ** The order on keys *)

Lemma compare_keys_cons x y a b :
  compare_keys (x :: a) (y :: b) = if x =? y then compare_keys a b else x - y.
Proof.
  unfold compare_keys. rewrite !zlen_cons. pose proof (zlen_nonneg a). pose proof (zlen_nonneg b).
  replace (1 + zlen a <? 1 + zlen b) with (zlen a <? zlen b) by zlia.
  replace (1 + zlen b <? 1 + zlen a) with (zlen b <? zlen a) by zlia.
  replace (Z.to_nat (if zlen a <? zlen b then 1 + zlen a else 1 + zlen b))
    with (S (Z.to_nat (if zlen a <? zlen b then zlen a else zlen b))) by (case_match; lia).
  cbn [take memcmp]. destruct (Z.eqb_spec x y); [done|].
  by replace (x - y =? 0) with false by zlia.
Qed.

Lemma compare_keys_nil_l b : compare_keys [] b = if zlen b =? 0 then 0 else -1.
Proof.
  unfold compare_keys. rewrite zlen_nil. pose proof (zlen_nonneg b).
  destruct b as [|y b]; [done|]. rewrite zlen_cons in *. by repeat bdecide.
Qed.

Lemma compare_keys_nil_r x a : compare_keys (x :: a) [] = 1.
Proof.
  unfold compare_keys. rewrite zlen_cons, (@zlen_nil Z). pose proof (zlen_nonneg a). by repeat bdecide.
Qed.

Lemma compare_keys_trichotomy a : forall b,
  (compare_keys a b = 0 <-> a = b) /\ (compare_keys a b < 0 <-> 0 < compare_keys b a).
Proof.
  induction a as [|x a IH]; intros [|y b].
  - done.
  - rewrite compare_keys_nil_l, compare_keys_nil_r, zlen_cons. pose proof (zlen_nonneg b).
    bdecide. split; split; done.
  - rewrite compare_keys_nil_l, compare_keys_nil_r, zlen_cons. pose proof (zlen_nonneg a).
    bdecide. split; split; done.
  - rewrite !compare_keys_cons. destruct (IH b) as [H0 H1].
    destruct (Z.eqb_spec x y) as [->|Hne].
    + rewrite Z.eqb_refl, H0, H1. split; [|done]. split; congruence.
    + replace (y =? x) with false by zlia. split; [|lia]. split; [lia | congruence].
Qed.

Lemma compare_keys_trans a : forall b c,
  compare_keys a b < 0 -> compare_keys b c < 0 -> compare_keys a c < 0.
Proof.
  induction a as [|x a IH]; intros [|y b] [|z c]; rewrite ?compare_keys_nil_r, ?compare_keys_cons;
    try (cbn; lia).
  - intros _ _. rewrite compare_keys_nil_l, zlen_cons. pose proof (zlen_nonneg c). by bdecide.
  - destruct (Z.eqb_spec x y), (Z.eqb_spec y z), (Z.eqb_spec x z); try lia; subst; eauto.
Qed.

(** [compare_keys] is a strict total order on byte strings (equal only on
    equal keys, antisymmetric, transitive), so the ascending order the codec
    enforces leaves no room for duplicate map keys. *)
Theorem compare_keys_total_order :
  (forall a b, compare_keys a b = 0 <-> a = b) /\
  (forall a b, compare_keys a b < 0 <-> 0 < compare_keys b a) /\
  (forall a b c, compare_keys a b < 0 -> compare_keys b c < 0 -> compare_keys a c < 0) /\
  (forall l k v, wf (CMap ((k, v) :: l)) -> k ∉ map fst l).
Proof.
  split_and!.
  - intros. apply compare_keys_trichotomy.
  - intros. apply compare_keys_trichotomy.
  - apply compare_keys_trans.
  - intros l k v (_ & Hs & _)%wf_map Hin. cbn [encoded_keys map fst] in Hs.
    apply Sorted_StronglySorted in Hs; [|intros a b c; apply compare_keys_trans].
    apply StronglySorted_inv in Hs as [_ Hall]. rewrite Forall_forall in Hall.
    apply list_elem_of_fmap in Hin as ([k' v'] & -> & Hin). cbn [fst] in *.
    assert (Hlt : key_lt (encode k') (encode k')).
    { apply Hall. apply list_elem_of_fmap. by exists (k', v'). }
    unfold key_lt in Hlt. rewrite (proj2 (proj1 (compare_keys_trichotomy _ _)) eq_refl) in Hlt. lia.
Qed.
