(* ===== verification/CborKv.v ===== *)
(** * The key-value helpers of the record codecs

    ledger.c, payment.c and bond.c each contain the same static helpers around
    the codec: write a key and its value, read a key that has to be the given
    one, and read a key and its value, folding the codec's error codes to
    NON_CANONICAL and MALFORMED.  They are modelled once here.

    Then: what a decoder never touches, and that encoding keeps the size of
    the buffer. *)

From S2P Require Import Prelude Cbor.
(** ** Encoding *)

Definition enc_kv_bytes (key : Z) (b : bytes) : action ants_cbor_enc_t unit :=
  ants_cbor_enc_uint key ;* ants_cbor_enc_bytes (Some b) (zlen b).

Definition enc_kv_uint (key val : Z) : action ants_cbor_enc_t unit :=
  ants_cbor_enc_uint key ;* ants_cbor_enc_uint val.

Definition enc_kv_bool (key : Z) (val : bool) : action ants_cbor_enc_t unit :=
  ants_cbor_enc_uint key ;* ants_cbor_enc_bool val.

(** ** Decoding *)

Definition norm_decode_err (rc : ants_error_t) : ants_error_t :=
  match rc with
  | ANTS_ERROR_NON_CANONICAL => rc
  | _ => ANTS_ERROR_MALFORMED
  end.

Definition expect_key (want : Z) : action ants_cbor_dec_t unit :=
  let* key := map_err norm_decode_err ants_cbor_dec_uint in
  if negb (key =? want) then fail ANTS_ERROR_MALFORMED else ret tt.

(** The [want] bytes the caller copies into its field. *)
Definition decode_bytes_field (key want : Z) : action ants_cbor_dec_t bytes :=
  expect_key key ;*
  let* p := map_err norm_decode_err ants_cbor_dec_bytes in
  if negb (zlen p =? want) then fail ANTS_ERROR_MALFORMED else ret p.

Definition decode_uint_field (key : Z) : action ants_cbor_dec_t Z :=
  expect_key key ;* map_err norm_decode_err ants_cbor_dec_uint.

Definition decode_bool_field (key : Z) : action ants_cbor_dec_t bool :=
  expect_key key ;* map_err norm_decode_err ants_cbor_dec_bool.

(** * What a decoder never touches

    No call of the decoder changes the buffer it reads or its length:
    [ReadOnly m].  A program built from the decoder's calls inherits it, which
    is what lets a caller turn the decoder's position into an offset of its
    own buffer. *)

Definition frame_kept (d d' : ants_cbor_dec_t) : Prop :=
  dec_buf d' = dec_buf d /\ dec_len d' = dec_len d.

Class ReadOnly {A} (m : action ants_cbor_dec_t A) : Prop :=
  read_only d : match m d with
                | Ok d' _ | Err d' _ => frame_kept d d'
                | UB | NoFuel => True
                end.

#[export] Instance frame_kept_preorder : PreOrder frame_kept.
Proof.
  split; [by intros d; split|].
  intros d1 d2 d3 [H1 H2] [H3 H4]. split; by etransitivity; [|eassumption].
Qed.

Lemma read_only_ok {A} (m : action ants_cbor_dec_t A) d d' a :
  ReadOnly m -> m d = Ok d' a -> dec_buf d' = dec_buf d /\ dec_len d' = dec_len d.
Proof. intros Hm H. specialize (Hm d). by rewrite H in Hm. Qed.

(** ** The combinators *)

#[export] Instance bind_read_only {A C} (m : action ants_cbor_dec_t A) k :
  ReadOnly m -> (forall a, ReadOnly (k a)) -> ReadOnly (A := C) (bind m k).
Proof.
  intros Hm Hk d. specialize (Hm d). unfold bind. destruct (m d) as [d' a|d' e| |]; try done.
  specialize (Hk a d'). by destruct (k a d'); try done; etransitivity.
Qed.

#[export] Instance ret_read_only {A} (a : A) : ReadOnly (ret a).
Proof. done. Qed.

#[export] Instance fail_read_only {A} e : ReadOnly (A := A) (fail e).
Proof. done. Qed.

#[export] Instance get_read_only : ReadOnly get.
Proof. done. Qed.

#[export] Instance deref_read_only {A} (o : option A) : ReadOnly (deref o).
Proof. intros d. by destruct o. Qed.

#[export] Instance map_err_read_only {A} g (m : action ants_cbor_dec_t A) :
  ReadOnly m -> ReadOnly (map_err g m).
Proof. intros Hm d. specialize (Hm d). unfold map_err. by destruct (m d). Qed.

#[export] Instance restore_read_only {A} p (m : action ants_cbor_dec_t A) :
  ReadOnly m -> ReadOnly (on_err (set_dec_pos p) m).
Proof.
  intros Hm d. specialize (Hm d). unfold on_err. by destruct (m d); try done; destruct Hm.
Qed.

#[export] Instance if_read_only {A} (b : bool) (m m' : action ants_cbor_dec_t A) :
  ReadOnly m -> ReadOnly m' -> ReadOnly (if b then m else m').
Proof. by destruct b. Qed.

#[export] Instance for_read_only fuel n body :
  (forall i, ReadOnly (body i)) -> forall i, ReadOnly (for_loop fuel i n body).
Proof.
  intros Hb. induction fuel as [|f IH]; intros i; cbn [for_loop]; case_match; try apply _.
  by intros d.
Qed.

(** ** The decoder *)

#[export] Instance next_byte_read_only : ReadOnly next_byte.
Proof. intros d. unfold next_byte. by destruct (byte_at _ _). Qed.

#[export] Instance byte_ahead_read_only k : ReadOnly (byte_ahead k).
Proof. intros d. unfold byte_ahead. by destruct (byte_at _ _). Qed.

#[export] Instance advance_read_only n : ReadOnly (advance n).
Proof. done. Qed.

#[export] Instance dec_need_read_only n : ReadOnly (dec_need n).
Proof. intros d. unfold dec_need. by destruct (_ <? _). Qed.

#[export] Instance read_be_read_only n : forall v, ReadOnly (read_be n v).
Proof. induction n; intros v; cbn [read_be]; apply _. Qed.

#[export] Instance read_head_read_only : ReadOnly cbor_read_head.
Proof. unfold cbor_read_head. apply _. Qed.

#[export] Instance dec_track_read_only b : ReadOnly (dec_track_item b).
Proof. intros d. unfold dec_track_item. by destruct (track_loop _ _ _ _ _) as [[] ?|[] ?| |]. Qed.

#[export] Instance dec_push_read_only k n s : ReadOnly (dec_push k n s).
Proof. intros d. unfold dec_push. by destruct (push_ctx _ _ _ _ _). Qed.

#[export] Instance dec_head_read_only : ReadOnly dec_head.
Proof. unfold dec_head. apply _. Qed.

#[export] Instance dec_register_read_only s : ReadOnly (dec_register s).
Proof. unfold dec_register. apply _. Qed.

#[export] Instance dec_fail_read_only {A} s e : ReadOnly (A := A) (dec_fail s e).
Proof. unfold dec_fail. apply _. Qed.

(** Unfold the destructuring of a call's results on the way. *)
Ltac read_only :=
  repeat first [ progress intros | apply bind_read_only | case_match | apply _ ].

#[export] Instance dec_peek_read_only : ReadOnly ants_cbor_dec_peek_type.
Proof. unfold ants_cbor_dec_peek_type. read_only. Qed.

#[export] Instance dec_uint_read_only : ReadOnly ants_cbor_dec_uint.
Proof. unfold ants_cbor_dec_uint. read_only. Qed.

#[export] Instance dec_int_read_only : ReadOnly ants_cbor_dec_int.
Proof. unfold ants_cbor_dec_int. read_only. Qed.

#[export] Instance dec_string_read_only m : ReadOnly (dec_string m).
Proof. unfold dec_string. read_only. Qed.

#[export] Instance dec_bytes_read_only : ReadOnly ants_cbor_dec_bytes.
Proof. apply dec_string_read_only. Qed.

#[export] Instance dec_text_read_only : ReadOnly ants_cbor_dec_text.
Proof. apply dec_string_read_only. Qed.

#[export] Instance dec_container_read_only m k : ReadOnly (dec_container m k).
Proof. unfold dec_container. read_only. Qed.

#[export] Instance dec_array_read_only : ReadOnly ants_cbor_dec_array.
Proof. apply dec_container_read_only. Qed.

#[export] Instance dec_map_read_only : ReadOnly ants_cbor_dec_map.
Proof. apply dec_container_read_only. Qed.

#[export] Instance dec_tag_read_only : ReadOnly ants_cbor_dec_tag.
Proof. unfold ants_cbor_dec_tag. read_only. Qed.

#[export] Instance dec_bool_read_only : ReadOnly ants_cbor_dec_bool.
Proof. unfold ants_cbor_dec_bool. read_only. Qed.

#[export] Instance dec_null_read_only : ReadOnly ants_cbor_dec_null.
Proof. unfold ants_cbor_dec_null. read_only. Qed.

(** * Encoding keeps the size of the buffer (src/foundation/cbor/src/cbor.c)

    The calls of the encoder write inside the caller's array and never change
    its size, whatever their outcome. *)

#[local] Arguments zlen {A} l : simpl never.

(** [m] leaves the encoder a buffer of the same size. *)
Definition sized_buf {A} (m : action ants_cbor_enc_t A) : Prop := forall e,
  match m e with
  | Ok e' _ | Err e' _ => zlen (enc_buf e') = zlen (enc_buf e)
  | UB | NoFuel => True
  end.

Lemma sized_bind {A C} (m : action ants_cbor_enc_t A) (k : A -> action ants_cbor_enc_t C) :
  sized_buf m -> (forall a, sized_buf (k a)) -> sized_buf (bind m k).
Proof.
  intros Hm Hk e. specialize (Hm e). unfold bind. destruct (m e) as [e' a|e' err| |]; try done.
  specialize (Hk a e'). destruct (k a e'); try done; congruence.
Qed.

Lemma sized_on_err {A} p (m : action ants_cbor_enc_t A) : sized_buf m -> sized_buf (on_err (set_enc_pos p) m).
Proof. intros Hm e. specialize (Hm e). unfold on_err. by destruct (m e). Qed.

Lemma sized_if {A} (c : bool) (m k : action ants_cbor_enc_t A) :
  sized_buf m -> sized_buf k -> sized_buf (if c then m else k).
Proof. by destruct c. Qed.

Lemma sized_get : sized_buf (@get ants_cbor_enc_t).
Proof. by intros e. Qed.

Lemma sized_fail {A} err : sized_buf (@fail ants_cbor_enc_t A err).
Proof. by intros e. Qed.

Lemma sized_ret {A} (a : A) : sized_buf (ret a).
Proof. by intros e. Qed.

Lemma sized_put_byte b : sized_buf (put_byte b).
Proof.
  intros e. unfold put_byte. destruct (_ && _); [|done]. cbn [enc_buf]. unfold zlen. by rewrite length_insert.
Qed.

Lemma sized_room n : sized_buf (enc_room n).
Proof. intros e. unfold enc_room. by destruct (_ <? _). Qed.

Lemma sized_track i : sized_buf (enc_track_item i).
Proof. intros e. unfold enc_track_item. by destruct (track_loop _ _ _ _ _) as [[] ?|? ?| |]. Qed.

Lemma sized_push k n i : sized_buf (enc_push k n i).
Proof. intros e. unfold enc_push. by destruct (push_ctx _ _ _ _ _). Qed.

Lemma splice_size {A} (dst : list A) off src dst' : splice dst off src = Some dst' -> zlen dst' = zlen dst.
Proof.
  unfold splice. destruct (_ && _) eqn:E; [|done]. intros [= <-].
  apply andb_true_iff in E as [?%Z.leb_le ?%Z.leb_le]. unfold zlen in *.
  rewrite !length_app, length_take, length_drop. lia.
Qed.

Lemma sized_copy b len : sized_buf (enc_copy b len).
Proof.
  intros e. unfold enc_copy. destruct (_ <? _); [done|]. destruct (0 <? len); [|done].
  destruct b as [b|]; [|done]. destruct (slice b 0 len) as [s|]; [|done].
  destruct (splice (enc_buf e) (enc_pos e) s) eqn:E; [|done]. by apply splice_size in E.
Qed.

Create HintDb sized.
#[export] Hint Resolve sized_on_err sized_if sized_get sized_fail sized_ret sized_put_byte
  sized_room sized_track sized_push sized_copy : sized.

Ltac sized := repeat first [ apply sized_bind; [|intros ?] | solve [auto with sized] | apply sized_if | apply sized_on_err ].

Lemma sized_put_bytes bs : sized_buf (put_bytes bs).
Proof. induction bs as [|b bs IH]; cbn [put_bytes]; sized. Qed.
#[export] Hint Resolve sized_put_bytes : sized.

Lemma sized_head major v : sized_buf (cbor_write_head major v).
Proof. unfold cbor_write_head. sized. Qed.
#[export] Hint Resolve sized_head : sized.

Lemma sized_item w : sized_buf w -> sized_buf (enc_item w).
Proof. intros Hw. unfold enc_item. sized. Qed.

Lemma sized_uint v : sized_buf (ants_cbor_enc_uint v).
Proof. apply sized_item, sized_head. Qed.

Lemma sized_bytes b len : sized_buf (ants_cbor_enc_bytes b len).
Proof. unfold ants_cbor_enc_bytes. apply sized_if; [sized|]. apply sized_item. sized. Qed.

Lemma sized_map n : sized_buf (ants_cbor_enc_map n).
Proof. unfold ants_cbor_enc_map. sized. Qed.

Lemma sized_bool v : sized_buf (ants_cbor_enc_bool v).
Proof. unfold ants_cbor_enc_bool. sized. Qed.
#[export] Hint Resolve sized_uint sized_bytes sized_map sized_bool : sized.

Lemma sized_with_encoder cap m buf :
  sized_buf m ->
  match with_encoder cap m buf with
  | Ok buf' _ | Err buf' _ => zlen buf' = zlen buf
  | UB | NoFuel => True
  end.
Proof.
  intros Hm. unfold with_encoder, ants_cbor_enc_init. destruct (cap =? 0); [done|].
  specialize (Hm (mk_enc buf cap 0 (replicate (Z.to_nat ANTS_CBOR_MAX_DEPTH) ctx_zero) (-1))).
  unfold bind. destruct (m _) as [e' []|e' err| |]; try done.
  unfold ants_cbor_enc_finalise. destruct (negb _); [done|]. by destruct (enc_pos e' =? 0).
Qed.
