(* ===== verification/CborRecord.v ===== *)
(** * Reasoning about record codecs

    The components above the codec encode a record as one map with fixed
    integer keys and decode it with the same sequence of typed calls.  [at_]
    describes a decoder by the data items it still has in front of it, with
    one lemma per decoder call in each direction: the call succeeds on the
    item it expects, and when a call succeeds that item was there.  [keeps]
    is the frame rule that carries memory safety through any such program. *)

From S2P Require Import Prelude Cbor CborSpec CborTrack CborEnc CborDec CborCanon CborContract CborKv.

(** ** Decoders as streams of items *)

(** The items [items] can be read, one after the other, by a decoder whose
    open containers are [fs], and complete all of them. *)
Fixpoint stream (fs : list frame) (items : list cbor) : Prop :=
  match items with
  | [] => fs = []
  | c :: cs => (length fs + height c <= 16)%nat /\
               exists fs', track fs (encode c) = Some fs' /\ stream fs' cs
  end.

Definition encodes (items : list cbor) : bytes := concat (map encode items).

Definition at_ (d : ants_cbor_dec_t) (items : list cbor) : Prop :=
  exists pre fs, dec_rep d pre (encodes items) fs /\ stream fs items /\ Forall wf items.

(** The keys and values of a map in the order they are written. *)
Definition flat (l : list (cbor * cbor)) : list cbor := concat (map (fun p => [p.1; p.2]) l).

Lemma encodes_cons c cs : encodes (c :: cs) = encode c ++ encodes cs.
Proof. reflexivity. Qed.

Lemma encodes_app cs cs' : encodes (cs ++ cs') = encodes cs ++ encodes cs'.
Proof. unfold encodes. by rewrite map_app, concat_app. Qed.

Lemma encodes_flat l : encodes (flat l) = encode_pairs l.
Proof.
  induction l as [|[k v] l IH]; [done|]. rewrite encode_pairs_cons, <- IH.
  change (flat ((k, v) :: l)) with (k :: v :: flat l). by rewrite !encodes_cons.
Qed.

Lemma map_encode_flat l :
  map encode (flat l) = pair_items (map (fun p => (encode p.1, encode p.2)) l).
Proof.
  unfold flat, pair_items. rewrite concat_map, !map_map. by f_equal.
Qed.

Lemma stream_app fs fs' items cs : forall
  (Hh : forall c, c ∈ items -> (length fs + height c <= 16)%nat)
  (Ht : track_all fs (map encode items) = Some fs') (Hs : stream fs' cs),
  stream fs (items ++ cs).
Proof.
  revert fs. induction items as [|c items IH]; intros fs Hh Ht Hs; cbn in *; [by simplify_eq|].
  destruct (track fs (encode c)) as [fs1|] eqn:E; [|done].
  split; [apply Hh; by left|]. exists fs1. split; [done|]. apply track_length in E.
  apply IH; [|done..]. intros c' Hc'. specialize (Hh c'). 
  enough (length fs + height c' <= 16)%nat by lia. apply Hh. by right.
Qed.

Lemma at_init buf items :
  bytes_ok buf -> zlen buf <= INT64_MAX -> buf = encodes items ->
  Forall (fun c => wf c /\ (height c <= 16)%nat) items ->
  exists d, ants_cbor_dec_init (Some buf) (zlen buf) = Ok tt d /\ at_ d items.
Proof.
  intros Hok Hb -> Hi. destruct (dec_init_rep _ Hok Hb) as (d & Hd & Hrep).
  exists d. split; [done|]. exists [], []. split; [done|]. split.
  - clear -Hi. induction Hi as [|c cs [_ Hh] _ IH]; cbn; [done|]. split; [lia|]. by exists [].
  - eapply Forall_impl; [exact Hi|]. by intros c [? _].
Qed.

Lemma at_finalise d : at_ d [] -> ants_cbor_dec_finalise d = Ok d tt.
Proof. intros (pre & fs & Hrep & -> & _). by eapply finalise_ok. Qed.

Lemma at_finalise_inv d d' cs : at_ d cs -> ants_cbor_dec_finalise d = Ok d' tt -> cs = [].
Proof.
  intros (pre & fs & ((_ & Hl & _ & Hp & _) & _) & _ & _).
  unfold ants_cbor_dec_finalise. bcase; [done|]. bcase; [done|]. intros _.
  destruct cs as [|c cs]; [done|]. rewrite encodes_cons, zlen_app in Hl.
  pose proof (encode_length_pos c). pose proof (zlen_nonneg (encodes cs)). zlia.
Qed.

(** A reader of scalar items: reads the item in front of it, and succeeds
    only when that item is there. *)
Record reader {A} (m : action ants_cbor_dec_t A) (enc : A -> cbor) : Prop := {
  reader_sound : reads_sound m enc;
  reader_complete : reads_complete m enc
}.

Lemma reader_uint : reader ants_cbor_dec_uint CUint.
Proof. split; [exact dec_uint_sound | exact dec_uint_complete]. Qed.
Lemma reader_bytes : reader ants_cbor_dec_bytes CBytes.
Proof. split; [exact dec_bytes_sound | exact dec_bytes_complete]. Qed.
Lemma reader_text : reader ants_cbor_dec_text CText.
Proof. split; [exact dec_text_sound | exact dec_text_complete]. Qed.
Lemma reader_bool : reader ants_cbor_dec_bool CBool.
Proof. split; [exact dec_bool_sound | exact dec_bool_complete]. Qed.
Lemma reader_null : reader ants_cbor_dec_null (fun _ => CNull).
Proof. split; [exact dec_null_sound | exact dec_null_complete]. Qed.

Lemma at_read {A} (m : action ants_cbor_dec_t A) enc d a cs :
  reader m enc -> at_ d (enc a :: cs) -> exists d', m d = Ok d' a /\ at_ d' cs.
Proof.
  intros Hm (pre & fs & Hrep & (_ & fs' & Ht & Hs) & [Hc Hcs]%Forall_cons).
  destruct (reader_complete _ _ Hm a d pre (encodes cs) fs fs') as (d' & Hd & Hrep'); try done.
  exists d'. split; [done|]. by exists (pre ++ encode (enc a)), fs'.
Qed.

Lemma at_read_inv {A} (m : action ants_cbor_dec_t A) enc d d' a cs :
  reader m enc -> at_ d cs -> m d = Ok d' a -> exists cs', cs = enc a :: cs' /\ at_ d' cs'.
Proof.
  intros Hm (pre & fs & Hrep & Hs & Hcs) Hd.
  pose proof (reader_sound _ _ Hm d pre _ fs Hrep) as H. rewrite Hd in H.
  destruct H as (rest & fs' & He & Hwf & Ht & Hrep'). destruct cs as [|c cs].
  { symmetry in He. apply app_eq_nil in He as [He _]. by apply encode_ne in He. }
  apply Forall_cons in Hcs as [Hc Hcs]. rewrite encodes_cons in He.
  destruct (encode_prefix_free c (enc a) _ _ Hc Hwf He) as [-> <-].
  exists cs. split; [done|]. destruct Hs as (_ & fs'' & Ht' & Hs). rewrite Ht in Ht'.
  injection Ht' as <-. by exists (pre ++ encode (enc a)), fs'.
Qed.

(** Containers: the call takes the head and leaves the items. *)

Lemma at_array d l cs : at_ d (CArray l :: cs) ->
  exists d', ants_cbor_dec_array d = Ok d' (zlen l) /\ at_ d' (l ++ cs).
Proof.
  intros (pre & fs & Hrep & (Hh & fs' & Ht & Hs) & [Hc Hcs]%Forall_cons).
  destruct (open_result_array l fs fs' Hc Hh Ht) as (fs1 & Ho & Ht1 & Hl1).
  rewrite encodes_cons in Hrep. cbn [encode] in Hrep. rewrite <- app_assoc in Hrep.
  pose proof (arg_of_u64 _ Hc). apply wf_array in Hc as [_ Hc].
  destruct (dec_array_complete (zlen l) d pre (encodes l ++ encodes cs) fs fs1)
    as (d' & Hd & Hrep'); try done.
  exists d'. split; [done|]. exists (pre ++ encode_head 4 (zlen l)), fs1.
  rewrite encodes_app. split; [done|]. split; [|by apply Forall_app].
  apply (stream_app fs1 fs'); [|done..]. intros c Hc'.
  rewrite Hl1 by (by intros ->; apply not_elem_of_nil in Hc').
  pose proof (height_array_item l c Hc'). lia.
Qed.

Lemma Forall_flat (P : cbor -> Prop) l : Forall P (flat l) <-> Forall (fun p => P p.1 /\ P p.2) l.
Proof.
  induction l as [|[k v] l IH]; [by rewrite !Forall_nil|].
  change (flat ((k, v) :: l)) with (k :: v :: flat l). rewrite !Forall_cons, IH. tauto.
Qed.

Lemma at_map d l cs : at_ d (CMap l :: cs) ->
  exists d', ants_cbor_dec_map d = Ok d' (zlen l) /\ at_ d' (flat l ++ cs).
Proof.
  intros (pre & fs & Hrep & (Hh & fs' & Ht & Hs) & [Hc Hcs]%Forall_cons).
  destruct (open_result_map l fs fs' Hc Hh Ht) as (fs1 & Ho & Ht1 & Hl1).
  rewrite encodes_cons in Hrep. cbn [encode] in Hrep. rewrite <- app_assoc in Hrep.
  pose proof (arg_of_u64 _ Hc). apply wf_map in Hc as (_ & _ & Hc).
  destruct (dec_map_complete (zlen l) d pre (encode_pairs l ++ encodes cs) fs fs1)
    as (d' & Hd & Hrep'); try done.
  exists d'. split; [done|]. exists (pre ++ encode_head 5 (zlen l)), fs1.
  rewrite encodes_app, encodes_flat. split; [done|].
  split; [|apply Forall_app; split; [by apply Forall_flat | done]].
  apply (stream_app fs1 fs'); [|by rewrite map_encode_flat, <- pair_items_encode|done].
  apply Forall_forall, Forall_flat, Forall_forall. intros [k v] Hkv. cbn [fst snd].
  rewrite Hl1 by (by intros ->; apply not_elem_of_nil in Hkv).
  destruct (height_map_item l k v Hkv). lia.
Qed.

(** The item in front of a decoder whose next bytes are a head. *)
Lemma at_head_inv d cs pre fs major n rest :
  dec_rep d pre (encodes cs) fs -> Forall wf cs -> encodes cs = encode_head major n ++ rest ->
  0 <= major <= 7 -> is_u64 n ->
  exists c cs', cs = c :: cs' /\ major_of c = major /\ arg_of c = n.
Proof.
  intros Hrep Hcs He Hm Hn. destruct cs as [|c cs].
  { symmetry in He. apply app_eq_nil in He as [He _]. by apply encode_head_ne in He. }
  apply Forall_cons in Hcs as [Hc Hcs]. exists c, cs. split; [done|].
  rewrite encodes_cons, encode_parts, <- app_assoc in He.
  apply encode_head_inj in He as (? & ? & _); auto using arg_of_u64, major_of_range.
Qed.

Lemma at_array_inv d d' n cs : at_ d cs -> ants_cbor_dec_array d = Ok d' n ->
  exists l cs', cs = CArray l :: cs' /\ n = zlen l /\ at_ d' (l ++ cs').
Proof.
  intros Hat Hd. pose proof Hat as (pre & fs & Hrep & Hs & Hcs).
  pose proof (dec_array_sound d pre _ fs Hrep) as H. rewrite Hd in H.
  destruct H as (rest & fs' & He & Hn & _).
  destruct (at_head_inv d cs pre fs 4 n rest) as (c & cs' & -> & Hm & Ha); try done.
  destruct c as [| | | |l| | | |]; try done. cbn in Ha. subst n. exists l, cs'.
  destruct (at_array d l cs' Hat) as (d'' & Hd'' & Hat'). assert (d'' = d') as <- by congruence. done.
Qed.

Lemma at_map_inv d d' n cs : at_ d cs -> ants_cbor_dec_map d = Ok d' n ->
  exists l cs', cs = CMap l :: cs' /\ n = zlen l /\ at_ d' (flat l ++ cs').
Proof.
  intros Hat Hd. pose proof Hat as (pre & fs & Hrep & Hs & Hcs).
  pose proof (dec_map_sound d pre _ fs Hrep) as H. rewrite Hd in H.
  destruct H as (rest & fs' & He & Hn & _).
  destruct (at_head_inv d cs pre fs 5 n rest) as (c & cs' & -> & Hm & Ha); try done.
  destruct c as [| | | | |l| | |]; try done. cbn in Ha. subst n. exists l, cs'.
  destruct (at_map d l cs' Hat) as (d'' & Hd'' & Hat'). assert (d'' = d') as <- by congruence. done.
Qed.

(** ** Memory safety of decoding programs *)

(** [m] runs on a decoder over some buffer and never leaves the buffer or
    runs out of fuel. *)
Definition keeps1 {A} (m : action ants_cbor_dec_t A) : Prop :=
  forall buf d, dec_inv buf d ->
  match m d with
  | Ok d' _ => dec_inv buf d'
  | Err _ _ => True
  | UB | NoFuel => False
  end.

Lemma keeps1_ret {A} (a : A) : keeps1 (ret a).
Proof. intros buf d H. exact H. Qed.
Lemma keeps1_fail {A} e : keeps1 (A := A) (fail e).
Proof. intros buf d H. done. Qed.
Lemma keeps1_bind {A B} (m : action ants_cbor_dec_t A) (k : A -> action _ B) :
  keeps1 m -> (forall a, keeps1 (k a)) -> keeps1 (bind m k).
Proof.
  intros Hm Hk buf d H. specialize (Hm buf d H). unfold bind.
  destruct (m d); try done. by apply Hk.
Qed.
Lemma keeps1_if {A} (b : bool) (m m' : action ants_cbor_dec_t A) :
  keeps1 m -> keeps1 m' -> keeps1 (if b then m else m').
Proof. by destruct b. Qed.
Lemma keeps1_map_err {A} g (m : action ants_cbor_dec_t A) : keeps1 m -> keeps1 (map_err g m).
Proof. intros Hm buf d H. specialize (Hm buf d H). unfold map_err. by destruct (m d). Qed.

Lemma keeps1_call {A} (m : action ants_cbor_dec_t A) : read_safe (m ;* ret tt) -> keeps1 m.
Proof.
  intros Hm buf d H. specialize (Hm buf d H). unfold bind, ret in Hm.
  destruct (m d); try done. apply Hm.
Qed.

Lemma keeps1_uint : keeps1 ants_cbor_dec_uint.
Proof. apply keeps1_call, (dec_call_safe DUint). Qed.
Lemma keeps1_bytes : keeps1 ants_cbor_dec_bytes.
Proof. apply keeps1_call, (dec_call_safe DBytes). Qed.
Lemma keeps1_text : keeps1 ants_cbor_dec_text.
Proof. apply keeps1_call, (dec_call_safe DText). Qed.
Lemma keeps1_array : keeps1 ants_cbor_dec_array.
Proof. apply keeps1_call, (dec_call_safe DArray). Qed.
Lemma keeps1_map : keeps1 ants_cbor_dec_map.
Proof. apply keeps1_call, (dec_call_safe DMap). Qed.
Lemma keeps1_bool : keeps1 ants_cbor_dec_bool.
Proof. apply keeps1_call, (dec_call_safe DBool). Qed.

#[export] Hint Resolve keeps1_ret keeps1_fail keeps1_if keeps1_map_err
  keeps1_uint keeps1_bytes keeps1_text keeps1_array keeps1_map keeps1_bool : ants.

(** With the record being filled, whose shape [I] the program maintains also
    when it fails. *)
Section keeps.
Context {T : Type} (I : T -> Prop).

Definition keeps {A} (m : action (ants_cbor_dec_t * T) A) : Prop :=
  forall buf s, dec_inv buf s.1 -> I s.2 ->
  match m s with
  | Ok s' _ => dec_inv buf s'.1 /\ I s'.2
  | Err s' _ => I s'.2
  | UB | NoFuel => False
  end.

Lemma keeps_ret {A} (a : A) : keeps (ret a).
Proof. by intros buf s. Qed.
Lemma keeps_fail {A} e : keeps (A := A) (fail e).
Proof. by intros buf s. Qed.
Lemma keeps_get : keeps get.
Proof. by intros buf s. Qed.
Lemma keeps_modify (f : T -> T) : (forall t, I t -> I (f t)) -> keeps (modify_snd f).
Proof. intros Hf buf s ? ?. cbn. auto. Qed.
Lemma keeps_bind {A B} (m : action (ants_cbor_dec_t * T) A) (k : A -> action _ B) :
  keeps m -> (forall a, keeps (k a)) -> keeps (bind m k).
Proof.
  intros Hm Hk buf s Hd Ht. specialize (Hm buf s Hd Ht). unfold bind.
  destruct (m s); try done. destruct Hm. by apply Hk.
Qed.
Lemma keeps_if {A} (b : bool) (m m' : action (ants_cbor_dec_t * T) A) :
  (b = true -> keeps m) -> (b = false -> keeps m') -> keeps (if b then m else m').
Proof. destruct b; auto. Qed.
Lemma keeps_fst {A} (m : action ants_cbor_dec_t A) : keeps1 m -> keeps (on_fst m).
Proof.
  intros Hm buf [d t] Hd Ht. specialize (Hm buf d Hd). unfold on_fst. cbn. by destruct (m d).
Qed.
Lemma keeps_for fuel i n (body : Z -> action (ants_cbor_dec_t * T) unit) :
  0 <= i -> n - i <= Z.of_nat fuel -> (forall j, i <= j < n -> keeps (body j)) ->
  keeps (for_loop fuel i n body).
Proof.
  revert i. induction fuel as [|fuel IH]; intros i Hi Hf Hb; cbn [for_loop];
    apply keeps_if; intros E; breflect; try apply keeps_ret; [lia|].
  apply keeps_bind; [apply Hb; lia|]. intros _. apply IH; [lia..|]. intros. apply Hb. lia.
Qed.

(** A decoding program that is run over a whole document either fills the
    record from complete canonical items or reports an error. *)
Lemma with_decoder_safe norm_init norm buf m rec :
  bytes_ok buf -> zlen buf <= INT64_MAX -> I rec -> keeps m ->
  match with_decoder norm_init norm (Some buf) (zlen buf) m rec with
  | Ok rec' _ => I rec'
  | Err rec' _ => I rec'
  | UB | NoFuel => False
  end.
Proof.
  intros Hok Hb Ht Hm. destruct (dec_init_rep buf Hok Hb) as (d & Hd & Hrep).
  unfold with_decoder. rewrite Hd.
  assert (Hi : dec_inv buf d).
  { exists [], buf, []. split; [done|]. split; [|done]. by exists []. }
  specialize (Hm buf (d, rec) Hi Ht). unfold bind at 1.
  destruct (m (d, rec)) as [[d' t] ?|[d' t] e| |]; try done. destruct Hm as [_ Ht'].
  unfold on_fst, map_err, ants_cbor_dec_finalise. cbn. by repeat bcase.
Qed.

(** When it succeeds, the document is one the stream lemmas apply to. *)
Lemma with_decoder_inv norm_init norm buf m rec rec' :
  bytes_ok buf -> zlen buf <= INT64_MAX -> I rec -> keeps m ->
  with_decoder norm_init norm (Some buf) (zlen buf) m rec = Ok rec' tt ->
  exists items d d', buf = encodes items /\ at_ d items /\ m (d, rec) = Ok (d', rec') tt /\
    ants_cbor_dec_finalise d' = Ok d' tt.
Proof.
  intros Hok Hb Ht Hm. destruct (dec_init_rep buf Hok Hb) as (d & Hd & Hrep).
  unfold with_decoder. rewrite Hd.
  assert (Hi : dec_inv buf d).
  { exists [], buf, []. split; [done|]. split; [|done]. by exists []. }
  specialize (Hm buf (d, rec) Hi Ht). unfold bind at 1.
  destruct (m (d, rec)) as [[d' t] []|[d' t] e| |] eqn:E; try done.
  destruct Hm as [Hi' _]. cbn [fst] in Hi'. unfold on_fst, map_err. cbn [fst snd].
  destruct (ants_cbor_dec_finalise d') as [d'' []|? ?| |] eqn:Ef; try done. intros [= ->].
  assert (d'' = d') as -> by (unfold ants_cbor_dec_finalise in Ef; repeat case_match; congruence).
  destruct (inv_finalise buf d' d' Hi' Ef) as (items & Hit & ->).
  fold (encodes items) in *.
  destruct (at_init (encodes items) items) as (d0 & Hd0 & Hat); try done.
  assert (d0 = d) as -> by congruence. by exists items, d, d'.
Qed.

Lemma with_decoder_ok norm_init norm buf (m : action (ants_cbor_dec_t * T) unit) rec rec' items :
  bytes_ok buf -> zlen buf <= INT64_MAX -> buf = encodes items ->
  Forall (fun c => wf c /\ (height c <= 16)%nat) items ->
  (forall d, at_ d items -> exists d', m (d, rec) = Ok (d', rec') tt /\ at_ d' []) ->
  with_decoder norm_init norm (Some buf) (zlen buf) m rec = Ok rec' tt.
Proof.
  intros Hok Hb He Hi Hm. destruct (at_init buf items Hok Hb He Hi) as (d & Hd & Hat).
  destruct (Hm d Hat) as (d' & Hd' & Hat'). unfold with_decoder.
  rewrite Hd, (bind_Ok _ _ _ _ _ Hd'). unfold on_fst, map_err. cbn.
  by rewrite (at_finalise d' Hat').
Qed.
End keeps.

#[export] Hint Resolve keeps_ret keeps_fail keeps_fst keeps_get : ants.

(** ** Error vocabulary *)

(** Every error [m] reports satisfies [P]. *)
Definition codes {S A} (P : ants_error_t -> Prop) (m : action S A) : Prop :=
  forall s, match m s with Err _ e => P e | _ => True end.

Section codes.
Context {S : Type} (P : ants_error_t -> Prop).

Lemma codes_ret {A} (a : A) : codes (S := S) P (ret a).
Proof. by intros s. Qed.
Lemma codes_fail {A} e : P e -> codes (S := S) (A := A) P (fail e).
Proof. by intros ? s. Qed.
Lemma codes_bind {A B} (m : action S A) (k : A -> action S B) :
  codes P m -> (forall a, codes P (k a)) -> codes P (bind m k).
Proof.
  intros Hm Hk s. specialize (Hm s). unfold bind. destruct (m s); try done. apply Hk.
Qed.
Lemma codes_if {A} (b : bool) (m m' : action S A) :
  codes P m -> codes P m' -> codes P (if b then m else m').
Proof. by destruct b. Qed.
Lemma codes_map_err {A} g (m : action S A) : (forall e, P (g e)) -> codes P (map_err g m).
Proof. intros Hg s. unfold map_err. by destruct (m s). Qed.
Lemma codes_fst {T A} (m : action S A) : codes P m -> codes (S := S * T) P (on_fst m).
Proof. intros Hm s. specialize (Hm s.1). unfold on_fst. by destruct (m s.1). Qed.
Lemma codes_snd {T} (f : T -> T) : codes (S := S * T) P (modify_snd f).
Proof. by intros s. Qed.
Lemma codes_for fuel i n (body : Z -> action S unit) :
  (forall j, codes P (body j)) -> codes P (for_loop fuel i n body).
Proof.
  intros Hb. revert i. induction fuel as [|fuel IH]; intros i; cbn [for_loop]; bcase; try done.
  apply codes_bind; [apply Hb | intros; apply IH].
Qed.
End codes.

(** The two codes the record decoders report. *)
Definition decode_error (e : ants_error_t) : Prop :=
  e = ANTS_ERROR_NON_CANONICAL \/ e = ANTS_ERROR_MALFORMED.

Lemma norm_decode_error e : decode_error (norm_decode_err e).
Proof. destruct e; cbn; unfold decode_error; auto. Qed.

Lemma malformed_decode_error : decode_error ANTS_ERROR_MALFORMED.
Proof. by right. Qed.

#[export] Hint Resolve codes_ret codes_fail codes_bind codes_if codes_map_err codes_fst codes_snd
  codes_for norm_decode_error malformed_decode_error : ants.

Lemma codes_expect_key key : codes decode_error (expect_key key).
Proof. unfold expect_key. eauto 7 with ants. Qed.
Lemma codes_uint_field key : codes decode_error (decode_uint_field key).
Proof. apply codes_bind; [apply codes_expect_key | auto with ants]. Qed.
Lemma codes_bool_field key : codes decode_error (decode_bool_field key).
Proof. apply codes_bind; [apply codes_expect_key | auto with ants]. Qed.
Lemma codes_bytes_field key want : codes decode_error (decode_bytes_field key want).
Proof. apply codes_bind; [apply codes_expect_key | auto 8 with ants]. Qed.

#[export] Hint Resolve codes_expect_key codes_uint_field codes_bool_field codes_bytes_field : ants.

(** The error of a whole decoding program. *)
Lemma with_decoder_codes {T} (P : ants_error_t -> Prop) norm_init norm buf len
  (m : action (ants_cbor_dec_t * T) unit) rec rec' e :
  codes P m -> (forall e, P (norm e)) ->
  with_decoder norm_init norm (Some buf) len m rec = Err rec' e -> P e.
Proof.
  intros Hm Hn. unfold with_decoder, ants_cbor_dec_init. cbn [is_null andb].
  assert (Hc : codes P (m ;* on_fst (map_err norm ants_cbor_dec_finalise)))
    by (auto with ants).
  match goal with |- context [(m ;* ?k) ?s] => specialize (Hc s); destruct ((m ;* k) s) as [[? ?] ?|[? ?] ?| |] end;
    try done. by intros [= <- <-].
Qed.

(** A weaker vocabulary. *)
Lemma codes_weaken {S A} (P Q : ants_error_t -> Prop) (m : action S A) :
  (forall e, P e -> Q e) -> codes P m -> codes Q m.
Proof. intros H Hm s. specialize (Hm s). destruct (m s); auto. Qed.

(** ** The key-value helpers *)

Lemma map_err_ok {S A} g (m : action S A) s s' a : m s = Ok s' a -> map_err g m s = Ok s' a.
Proof. intros H. unfold map_err. by rewrite H. Qed.

Lemma map_err_inv {S A} g (m : action S A) s s' a : map_err g m s = Ok s' a -> m s = Ok s' a.
Proof. unfold map_err. by destruct (m s). Qed.

Lemma on_fst_ok {S T A} (m : action S A) s s' (t : T) a :
  m s = Ok s' a -> on_fst m (s, t) = Ok (s', t) a.
Proof. intros H. unfold on_fst. cbn. by rewrite H. Qed.

Lemma on_fst_inv {S T A} (m : action S A) s (t : T) st a :
  on_fst m (s, t) = Ok st a -> exists s', st = (s', t) /\ m s = Ok s' a.
Proof. unfold on_fst. cbn. destruct (m s); try done. intros [= <- <-]. eauto. Qed.

Lemma at_expect_key d key cs :
  at_ d (CUint key :: cs) -> exists d', expect_key key d = Ok d' tt /\ at_ d' cs.
Proof.
  intros Hat. destruct (at_read _ CUint d key cs reader_uint Hat) as (d' & Hd & Hat').
  exists d'. split; [|done]. unfold expect_key.
  rewrite (bind_Ok _ _ _ _ _ (map_err_ok _ _ _ _ _ Hd)), Z.eqb_refl. done.
Qed.

Lemma at_expect_key_inv d d' key cs :
  at_ d cs -> expect_key key d = Ok d' tt -> exists cs', cs = CUint key :: cs' /\ at_ d' cs'.
Proof.
  intros Hat (d1 & k & Hd & Hk)%bind_Ok_inv. apply map_err_inv in Hd.
  destruct (at_read_inv _ CUint d d1 k cs reader_uint Hat Hd) as (cs' & -> & Hat').
  destruct (Z.eqb_spec k key) as [->|]; [|done]. cbn in Hk. injection Hk as <-. eauto.
Qed.

(** A field: its key, then its value by a typed reader. *)
Lemma at_field {A} (m : action ants_cbor_dec_t A) enc d key a cs :
  reader m enc -> at_ d (CUint key :: enc a :: cs) ->
  exists d', (expect_key key ;* map_err norm_decode_err m) d = Ok d' a /\ at_ d' cs.
Proof.
  intros Hm Hat. destruct (at_expect_key d key _ Hat) as (d1 & Hd1 & Hat1).
  destruct (at_read m enc d1 a cs Hm Hat1) as (d2 & Hd2 & Hat2).
  exists d2. split; [|done]. rewrite (bind_Ok _ _ _ _ _ Hd1). by apply map_err_ok.
Qed.

Lemma at_field_inv {A} (m : action ants_cbor_dec_t A) enc d d' key a cs :
  reader m enc -> at_ d cs -> (expect_key key ;* map_err norm_decode_err m) d = Ok d' a ->
  exists cs', cs = CUint key :: enc a :: cs' /\ at_ d' cs'.
Proof.
  intros Hm Hat (d1 & [] & Hd1 & Hd2)%bind_Ok_inv.
  destruct (at_expect_key_inv d d1 key cs Hat Hd1) as (cs1 & -> & Hat1). apply map_err_inv in Hd2.
  destruct (at_read_inv m enc d1 d' a cs1 Hm Hat1 Hd2) as (cs2 & -> & Hat2). eauto.
Qed.

Lemma at_uint_field d key v cs :
  at_ d (CUint key :: CUint v :: cs) -> exists d', decode_uint_field key d = Ok d' v /\ at_ d' cs.
Proof. apply (at_field _ CUint); apply reader_uint. Qed.

Lemma at_uint_field_inv d d' key v cs :
  at_ d cs -> decode_uint_field key d = Ok d' v ->
  exists cs', cs = CUint key :: CUint v :: cs' /\ at_ d' cs'.
Proof. apply (at_field_inv _ CUint), reader_uint. Qed.

Lemma at_bool_field d key v cs :
  at_ d (CUint key :: CBool v :: cs) -> exists d', decode_bool_field key d = Ok d' v /\ at_ d' cs.
Proof. apply (at_field _ CBool); apply reader_bool. Qed.

Lemma at_bool_field_inv d d' key v cs :
  at_ d cs -> decode_bool_field key d = Ok d' v ->
  exists cs', cs = CUint key :: CBool v :: cs' /\ at_ d' cs'.
Proof. apply (at_field_inv _ CBool), reader_bool. Qed.

Lemma at_bytes_field d key want b cs :
  at_ d (CUint key :: CBytes b :: cs) -> zlen b = want ->
  exists d', decode_bytes_field key want d = Ok d' b /\ at_ d' cs.
Proof.
  intros Hat <-. destruct (at_field _ CBytes d key b cs reader_bytes Hat) as (d' & Hd & Hat').
  exists d'. split; [|done]. apply bind_Ok_inv in Hd as (d1 & [] & Hd1 & Hd2).
  unfold decode_bytes_field. rewrite (bind_Ok _ _ _ _ _ Hd1), (bind_Ok _ _ _ _ _ Hd2), Z.eqb_refl.
  done.
Qed.

Lemma at_bytes_field_inv d d' key want b cs :
  at_ d cs -> decode_bytes_field key want d = Ok d' b ->
  exists cs', cs = CUint key :: CBytes b :: cs' /\ zlen b = want /\ at_ d' cs'.
Proof.
  intros Hat (d1 & [] & Hd1 & (d2 & p & Hd2 & Hp)%bind_Ok_inv)%bind_Ok_inv.
  destruct (Z.eqb_spec (zlen p) want) as [Hl|]; [|done]. cbn in Hp. injection Hp as <- <-.
  assert (Hd : (expect_key key ;* map_err norm_decode_err ants_cbor_dec_bytes) d = Ok d2 p)
    by (by rewrite (bind_Ok _ _ _ _ _ Hd1)).
  destruct (at_field_inv _ CBytes d d2 key p cs reader_bytes Hat Hd) as (cs' & -> & Hat'). eauto.
Qed.

Lemma keeps1_expect_key key : keeps1 (expect_key key).
Proof. apply keeps1_bind; [auto with ants|]. intros k. auto with ants. Qed.

Lemma keeps1_uint_field key : keeps1 (decode_uint_field key).
Proof. apply keeps1_bind; [apply keeps1_expect_key | intros; auto with ants]. Qed.

Lemma keeps1_bool_field key : keeps1 (decode_bool_field key).
Proof. apply keeps1_bind; [apply keeps1_expect_key | intros; auto with ants]. Qed.

Lemma keeps1_bytes_field key want : keeps1 (decode_bytes_field key want).
Proof.
  apply keeps1_bind; [apply keeps1_expect_key | intros _].
  apply keeps1_bind; [auto with ants | intros p; auto with ants].
Qed.

#[export] Hint Resolve keeps1_expect_key keeps1_uint_field keeps1_bool_field keeps1_bytes_field : ants.

(** ** Record encoders are [emit] *)

Lemma bind_skip {S} (m : action S unit) k s : (forall t, k tt t = Ok t tt) -> bind m k s = m s.
Proof. intros H. unfold bind. destruct (m s) as [t []| | |]; [apply H|done..]. Qed.

(** Two programs of the encoder with the same calls in the same order. *)
Ltac act_eq :=
  repeat first
    [ reflexivity
    | rewrite bind_assoc
    | rewrite bind_ret_l; cbv beta
    | rewrite bind_ret_r
    | symmetry; apply bind_skip; reflexivity
    | apply bind_ext; intros [] ? ].

(** ** Stepping through a decoding program

    [read_field L H] runs the next call of the program in the goal by the
    stream lemma [L] at the stream [H]; [peel L H Hat] takes the next call
    off the successful run [H] by the inverse lemma [L] at [Hat]. *)

Ltac read_field L H :=
  let d := fresh "d" in let Hd := fresh "Hd" in let Hat := fresh "Hat" in
  destruct (L _ _ _ _ H) as (d & Hd & Hat);
  rewrite (bind_Ok _ _ _ _ _ (on_fst_ok _ _ _ _ _ Hd)); clear Hd H; rename Hat into H.

Ltac peel_call H x :=
  let s := fresh "s" in let H1 := fresh "H1" in
  apply bind_Ok_inv in H as (s & x & H1 & H);
  let d := fresh "d" in
  apply on_fst_inv in H1 as (d & -> & H1).

Ltac peel_store H :=
  let s := fresh "s" in let E := fresh "E" in
  apply bind_Ok_inv in H as (s & [] & E & H);
  unfold modify_snd in E; cbn [fst snd] in E; injection E as <-.

(** Take a field off a run: [L] is the inverse lemma of its reader. *)
Ltac peel_field L H Hat v :=
  let Hc := fresh "Hc" in let cs := fresh "cs" in let E := fresh "E" in let Hat' := fresh "Hat" in
  let d := fresh "d" in let s := fresh "s" in
  apply bind_Ok_inv in H as (s & v & Hc & H);
  apply on_fst_inv in Hc as (d & -> & Hc);
  destruct (L _ _ _ _ _ Hat Hc) as (cs & E & Hat'); injection E as -> -> <-;
  clear Hc Hat; rename Hat' into Hat.

Ltac read_bytes_field H Hlen :=
  let d := fresh "d" in let Hd := fresh "Hd" in let Hat := fresh "Hat" in
  destruct (at_bytes_field _ _ _ _ _ H Hlen) as (d & Hd & Hat);
  rewrite (bind_Ok _ _ _ _ _ (on_fst_ok _ _ _ _ _ Hd)); clear Hd H; rename Hat into H.

Ltac peel_bytes_field H Hat v :=
  let Hc := fresh "Hc" in let cs := fresh "cs" in let E := fresh "E" in let Hat' := fresh "Hat" in
  let d := fresh "d" in let s := fresh "s" in let Hl := fresh "Hl" in
  apply bind_Ok_inv in H as (s & v & Hc & H);
  apply on_fst_inv in Hc as (d & -> & Hc);
  destruct (at_bytes_field_inv _ _ _ _ _ _ Hat Hc) as (cs & E & Hl & Hat'); injection E as -> -> <-;
  clear Hc Hat; rename Hat' into Hat.

(** Lists of a known length, as explicit lists. *)
Lemma zlen_S {A} (l : list A) n : zlen l = Z.of_nat (S n) -> exists a l', l = a :: l' /\ zlen l' = Z.of_nat n.
Proof.
  intros H. destruct l as [|a l]; [unfold zlen in H; cbn in H; lia|]. exists a, l.
  rewrite zlen_cons in H. split; [done|lia].
Qed.

Lemma zlen_O {A} (l : list A) : zlen l = 0 -> l = [].
Proof. intros H. apply nil_length_inv. unfold zlen in H. lia. Qed.

Ltac explicit_list H :=
  let a := fresh "x" in let l := fresh "l" in let E := fresh "E" in
  first
    [ apply zlen_O in H as ->
    | apply (zlen_S _ 0) in H | apply (zlen_S _ 1) in H | apply (zlen_S _ 2) in H
    | apply (zlen_S _ 3) in H | apply (zlen_S _ 4) in H | apply (zlen_S _ 5) in H ];
  try (destruct H as (a & l & -> & E); explicit_list E).

Lemma zlen_2 {A} (l : list A) : zlen l = 2 -> exists a b, l = [a; b].
Proof. intros H. explicit_list H. by do 2 eexists. Qed.
Lemma zlen_4 {A} (l : list A) : zlen l = 4 -> exists a b c d, l = [a; b; c; d].
Proof. intros H. explicit_list H. by do 4 eexists. Qed.
Lemma zlen_5 {A} (l : list A) : zlen l = 5 -> exists a b c d e, l = [a; b; c; d; e].
Proof. intros H. explicit_list H. by do 5 eexists. Qed.
Lemma zlen_6 {A} (l : list A) : zlen l = 6 -> exists a b c d e f, l = [a; b; c; d; e; f].
Proof. intros H. explicit_list H. by do 6 eexists. Qed.
