(* ===== verification/CborCodec.v ===== *)
(** * Record codecs

    Every record the economy and reputation layers put on the wire is one
    canonical CBOR document, written field by field and read back into a
    caller's object.  [RecordCodec] is what such a pair of functions
    provides, [RecordCodecLaws] what each record proves of it; the three
    facts a client relies on (the encoder writes the canonical document, the
    decoder undoes it, the decoder accepts nothing else) follow here once. *)

From S2P Require Import Prelude Cbor CborSpec CborEnc CborCanon CborContract CborKv CborRecord.

Class RecordCodec (T : Type) : Type := {
  codec_doc : T -> cbor;                                     (** the documented form *)
  codec_max : Z;                                             (** the documented size bound *)
  codec_body : T -> action ants_cbor_enc_t unit;             (** the encoder's calls *)
  codec_read : action (ants_cbor_dec_t * T) unit;            (** the decoder's calls *)
  codec_ok : T -> Prop;                                      (** field types of the record *)
  codec_obj : T -> Prop;                                     (** shape of a caller's object *)
  codec_same : T -> T -> Prop;                               (** same content *)
  codec_from : T -> cbor -> Prop                             (** documents read as this object *)
}.

Class RecordCodecLaws (T : Type) `{C : RecordCodec T} : Prop := {
  codec_wf r : codec_ok r -> wf (codec_doc r);
  codec_height r : codec_ok r -> (height (codec_doc r) <= 16)%nat;
  codec_size r : codec_ok r -> zlen (encode (codec_doc r)) <= codec_max;
  codec_max_small : codec_max <= INT64_MAX;
  codec_emit r e : codec_ok r -> codec_body r e = emit (codec_doc r) e;
  codec_keeps : exists I : T -> Prop, (forall r, codec_obj r -> I r) /\ keeps I codec_read;
  codec_codes : codes decode_error codec_read;
  codec_read_ok d old r :
    codec_obj old -> codec_ok r -> at_ d [codec_doc r] ->
    exists d' r', codec_read (d, old) = Ok (d', r') tt /\ at_ d' [] /\
      codec_same r r' /\ codec_ok r';
  codec_read_inv d old st items :
    codec_obj old -> at_ d items -> codec_read (d, old) = Ok st tt ->
    exists c cs, items = c :: cs /\ codec_from st.2 c /\ at_ st.1 cs
}.

Section codec.
Context {T : Type} `{CL : RecordCodecLaws T}.

(** What the encoder writes. *)
Lemma codec_encodes r buf cap :
  codec_ok r -> codec_max <= cap <= zlen buf -> zlen buf <= INT64_MAX ->
  exists buf', with_encoder cap (codec_body r) buf = Ok buf' (zlen (encode (codec_doc r))) /\
    take (length (encode (codec_doc r))) buf' = encode (codec_doc r).
Proof.
  intros Hok Hc Hb. pose proof (codec_size r Hok).
  apply (writes_document _ _ (height (codec_doc r))); try done.
  - eapply writes_ext; [|by apply emit_writes, codec_wf]. intros e. by rewrite codec_emit.
  - by apply codec_height.
  - apply encode_ne.
  - lia.
Qed.

(** The decoder reads it back into any object. *)
Lemma codec_decodes norm_init norm r old :
  codec_ok r -> codec_obj old ->
  exists r', with_decoder norm_init norm (Some (encode (codec_doc r))) (zlen (encode (codec_doc r)))
               codec_read old = Ok r' tt /\ codec_same r r' /\ codec_ok r'.
Proof.
  intros Hok Hold. pose proof (codec_wf r Hok) as Hwf.
  destruct (at_init (encode (codec_doc r)) [codec_doc r]) as (d & Hd & Hat).
  - by apply encode_ok.
  - pose proof (codec_size r Hok). pose proof codec_max_small. lia.
  - unfold encodes. cbn [map concat]. by rewrite app_nil_r.
  - constructor; [|constructor]. split; [done|by apply codec_height].
  - destruct (codec_read_ok d old r Hold Hok Hat) as (d' & r' & Hrun & Hat' & Hs & Hok').
    exists r'. split; [|done]. unfold with_decoder. rewrite Hd, (bind_Ok _ _ _ _ _ Hrun).
    unfold on_fst, map_err. cbn [fst snd]. by rewrite (at_finalise d' Hat').
Qed.

(** The decoder accepts nothing else, stays inside its input, and reports
    one of two codes. *)
Lemma codec_strict norm_init norm buf old :
  (forall e, decode_error (norm e)) ->
  bytes_ok buf -> zlen buf <= INT64_MAX -> codec_obj old ->
  match with_decoder norm_init norm (Some buf) (zlen buf) codec_read old with
  | Ok r' _ => exists c, codec_from r' c /\ buf = encode c
  | Err _ e => decode_error e
  | UB | NoFuel => False
  end.
Proof.
  intros Hn Hok Hb Hold. destruct codec_keeps as (I & HI & Hkeep). pose proof (HI old Hold) as Hi.
  pose proof (with_decoder_safe I norm_init norm buf codec_read old Hok Hb Hi Hkeep) as Hsafe.
  destruct (with_decoder _ _ _ _ _ _) as [r' []|r' e| |] eqn:E; try done.
  - destruct (with_decoder_inv I _ _ buf codec_read old r' Hok Hb Hi Hkeep E)
      as (items & d & d' & -> & Hat & Hrun & Hfin).
    destruct (codec_read_inv d old (d', r') items Hold Hat Hrun) as (c & cs & -> & Hrec & Hat').
    cbn [fst snd] in *. rewrite (at_finalise_inv d' d' cs Hat' Hfin). exists c. split; [done|].
    unfold encodes. cbn [map concat]. by rewrite app_nil_r.
  - by eapply with_decoder_codes in E; [|apply codec_codes|done].
Qed.
End codec.

(** ** Arrays of records

    A counted loop that reads one item per iteration and stores it at the
    iteration's index. *)
Section array_loop.
Context {T X : Type} (elem : X -> cbor) (okx : X -> Prop) (I : T -> Prop) (put : nat -> X -> T -> T)
  (body : Z -> action (ants_cbor_dec_t * T) unit) (max : nat).

(** The object after storing [l] from index [i] on. *)
Fixpoint puts (i : nat) (l : list X) (t : T) : T :=
  match l with
  | [] => t
  | x :: l' => puts (S i) l' (put i x t)
  end.

Hypothesis put_I : forall i x t, (i < max)%nat -> okx x -> I t -> I (put i x t).
Hypothesis body_ok : forall d t k x cs, I t -> (k < max)%nat -> okx x -> at_ d (elem x :: cs) ->
  exists d', body (Z.of_nat k) (d, t) = Ok (d', put k x t) tt /\ at_ d' cs.
Hypothesis body_inv : forall d t k st cs, I t -> (k < max)%nat -> at_ d cs ->
  body (Z.of_nat k) (d, t) = Ok st tt ->
  exists x cs', cs = elem x :: cs' /\ okx x /\ at_ st.1 cs' /\ st.2 = put k x t.

Lemma puts_I l : forall i t, (i + length l <= max)%nat -> Forall okx l -> I t -> I (puts i l t).
Proof using put_I.
  induction l as [|x l IH]; intros i t Hi Hok Ht; [done|]. cbn [puts length] in *.
  apply Forall_cons in Hok as [Hx Hok]. apply IH; [lia|done|]. by apply put_I; [lia| |].
Qed.

Lemma loop_ok l : forall f i d t cs,
  I t -> (i + length l <= max)%nat -> (length l <= f)%nat -> Forall okx l ->
  at_ d (map elem l ++ cs) ->
  exists d', for_loop f (Z.of_nat i) (Z.of_nat i + zlen l) body (d, t) = Ok (d', puts i l t) tt /\
    at_ d' cs.
Proof using put_I body_ok.
  induction l as [|x l IH]; intros f i d t cs Ht Hi Hf Hok Hat.
  { exists d. split; [|done]. rewrite (@zlen_nil X), Z.add_0_r.
    destruct f; cbn [for_loop]; by bdecide. }
  cbn [length map app puts] in *. destruct f as [|f]; [lia|]. cbn [for_loop]. rewrite zlen_cons.
  pose proof (zlen_nonneg l). bdecide. apply Forall_cons in Hok as [Hx Hok].
  destruct (body_ok d t i x _ Ht ltac:(lia) Hx Hat) as (d1 & Hd1 & Hat1).
  rewrite (bind_Ok _ _ _ _ _ Hd1).
  destruct (IH f (S i) d1 (put i x t) cs) as (d2 & Hd2 & Hat2); try done; try lia.
  { apply put_I; [lia|done..]. }
  exists d2. split; [|done]. rewrite <- Hd2. f_equal; lia.
Qed.

Lemma loop_inv f : forall i n d t st cs,
  I t -> Z.of_nat i <= n <= Z.of_nat max -> at_ d cs ->
  for_loop f (Z.of_nat i) n body (d, t) = Ok st tt ->
  exists l cs', cs = map elem l ++ cs' /\ zlen l = n - Z.of_nat i /\ Forall okx l /\
    at_ st.1 cs' /\ st.2 = puts i l t.
Proof using put_I body_inv.
  induction f as [|f IH]; intros i n d t st cs Ht Hn Hat H; cbn [for_loop] in H.
  all: destruct (Z.leb_spec n (Z.of_nat i));
    [injection H as <-; exists [], cs; split_and!; try done; rewrite (@zlen_nil X); lia|].
  { done. }
  apply bind_Ok_inv in H as ([d1 t1] & [] & H1 & H).
  destruct (body_inv d t i _ cs Ht ltac:(lia) Hat H1) as (x & cs1 & -> & Hx & Hat1 & Et).
  cbn [fst snd] in *. subst t1. replace (Z.of_nat i + 1) with (Z.of_nat (S i)) in H by lia.
  destruct (IH (S i) n d1 (put i x t) st cs1) as (l & cs2 & -> & Hl & Hall & Hat2 & Hst); try done.
  { apply put_I; [lia|done..]. }
  { lia. }
  exists (x :: l), cs2. rewrite zlen_cons. split; [done|]. split; [lia|]. split; [by constructor|].
  done.
Qed.
End array_loop.

(** Two flattened maps with as many pairs. *)
Lemma flat_inj l : forall l' a b,
  zlen l = zlen l' -> flat l ++ a = flat l' ++ b -> l = l' /\ a = b.
Proof.
  induction l as [|[k v] l IH]; intros [|[k' v'] l'] a b Hl H;
    try (unfold zlen in Hl; cbn in Hl; lia); rewrite ?zlen_cons in Hl.
  - done.
  - change (k :: v :: flat l ++ a = k' :: v' :: flat l' ++ b) in H. injection H as -> -> H.
    destruct (IH l' a b) as [-> ->]; [lia|done|done].
Qed.

Lemma flat_cons k v l : flat ((k, v) :: l) = k :: v :: flat l.
Proof. reflexivity. Qed.

Lemma flat_app l l' : flat (l ++ l') = flat l ++ flat l'.
Proof. unfold flat. by rewrite map_app, concat_app. Qed.

(** ** Sizes *)

Lemma head_size major v : zlen (encode_head major v) <= 9.
Proof. unfold encode_head, zlen. repeat case_match; cbn [be_bytes length]; lia. Qed.

Lemma head_size_u8 major v : v < 2 ^ 8 -> zlen (encode_head major v) <= 2.
Proof. unfold encode_head, zlen. repeat case_match; breflect; cbn [be_bytes length]; lia. Qed.

Lemma head_size_u16 major v : v < 2 ^ 16 -> zlen (encode_head major v) <= 3.
Proof. unfold encode_head, zlen. repeat case_match; breflect; cbn [be_bytes length]; lia. Qed.

Lemma head_size_tiny major v : v < 24 -> zlen (encode_head major v) = 1.
Proof. unfold encode_head. intros H. by rewrite (proj2 (Z.ltb_lt v 24)) by lia. Qed.
