(* ===== verification/CborParse.v ===== *)
(** * Decoding programs as parsers of items

    Where a program only reads a document, without storing into an object as
    it goes, its meaning is a function from the items in front of it to a
    value and the items left.  [parses m p] says that the calls [m] compute
    exactly the function [p] on every decoder: they succeed where [p] does,
    with its result, and fail (inside the buffer) where it does not. *)

From S2P Require Import Prelude Cbor CborSpec CborTrack CborEnc CborDec CborCanon CborContract CborKv CborRecord.

Definition parser (A : Type) : Type := list cbor -> option (A * list cbor).

Definition parses {A} (E : ants_error_t -> Prop) (m : action ants_cbor_dec_t A) (p : parser A)
  : Prop :=
  forall d cs, at_ d cs ->
  match p cs with
  | Some (a, cs') => exists d', m d = Ok d' a /\ at_ d' cs'
  | None => exists d' e, m d = Err d' e /\ E e
  end.

(** Any code; the one code of a caller that folds all of them. *)
Definition any_code (e : ants_error_t) : Prop := True.
Definition only_malformed (e : ants_error_t) : Prop := e = ANTS_ERROR_MALFORMED.

(** ** Combinators *)

Definition p_ret {A} (a : A) : parser A := fun cs => Some (a, cs).
Definition p_fail {A} : parser A := fun _ => None.
Definition p_bind {A B} (p : parser A) (k : A -> parser B) : parser B :=
  fun cs => match p cs with Some (a, cs') => k a cs' | None => None end.

Section combinators.
Context (E : ants_error_t -> Prop).

Lemma parses_ret {A} (a : A) : parses E (ret a) (p_ret a).
Proof. intros d cs Hat. by exists d. Qed.

Lemma parses_fail {A} e : E e -> parses (A := A) E (fail e) p_fail.
Proof. intros He d cs Hat. by exists d, e. Qed.

Lemma parses_bind {A B} (m : action ants_cbor_dec_t A) (k : A -> action ants_cbor_dec_t B) p q :
  parses E m p -> (forall a, parses E (k a) (q a)) -> parses E (bind m k) (p_bind p q).
Proof.
  intros Hm Hk d cs Hat. specialize (Hm d cs Hat). unfold p_bind, bind.
  destruct (p cs) as [[a cs']|].
  - destruct Hm as (d' & -> & Hat'). by apply Hk.
  - destruct Hm as (d' & e & -> & He). by exists d', e.
Qed.

Lemma parses_if {A} (b : bool) (m m' : action ants_cbor_dec_t A) p q :
  parses E m p -> parses E m' q -> parses E (if b then m else m') (if b then p else q).
Proof. by destruct b. Qed.

Lemma parses_map_err {A} g (m : action ants_cbor_dec_t A) p :
  (forall e, E (g e)) -> parses any_code m p -> parses E (map_err g m) p.
Proof.
  intros Hg Hm d cs Hat. specialize (Hm d cs Hat). unfold map_err.
  destruct (p cs) as [[a cs']|].
  - destruct Hm as (d' & -> & Hat'). by exists d'.
  - destruct Hm as (d' & e & -> & _). exists d', (g e). auto.
Qed.

Lemma parses_ext {A} (m : action ants_cbor_dec_t A) p q :
  (forall cs, p cs = q cs) -> parses E m p -> parses E m q.
Proof. intros He Hm d cs Hat. rewrite <- He. by apply Hm. Qed.

(** A counted loop: [n] times [p], by the iterations left. *)
Fixpoint p_times (n : nat) (p : parser unit) : parser unit :=
  match n with
  | O => p_ret tt
  | Datatypes.S n' => p_bind p (fun _ => p_times n' p)
  end.

Lemma parses_for fuel (m : action ants_cbor_dec_t unit) p n : forall i,
  parses E m p -> 0 <= i -> n - i <= Z.of_nat fuel ->
  parses E (for_loop fuel i n (fun _ => m)) (p_times (Z.to_nat (n - i)) p).
Proof.
  induction fuel as [|fuel IH]; intros i Hm Hi Hf; cbn [for_loop].
  all: destruct (Z.leb_spec n i); [replace (Z.to_nat (n - i)) with 0%nat by lia; apply parses_ret|].
  { lia. }
  replace (Z.to_nat (n - i)) with (Datatypes.S (Z.to_nat (n - (i + 1)))) by lia. cbn [p_times].
  apply parses_bind; [done|]. intros _. apply IH; [done|lia..].
Qed.
End combinators.

(** ** The decoder's calls *)

Definition p_uint : parser Z :=
  fun cs => match cs with CUint v :: cs' => Some (v, cs') | _ => None end.
Definition p_bytes : parser bytes :=
  fun cs => match cs with CBytes b :: cs' => Some (b, cs') | _ => None end.
Definition p_bool : parser bool :=
  fun cs => match cs with CBool b :: cs' => Some (b, cs') | _ => None end.
Definition p_array : parser Z :=
  fun cs => match cs with CArray l :: cs' => Some (zlen l, l ++ cs') | _ => None end.
Definition p_map : parser Z :=
  fun cs => match cs with CMap l :: cs' => Some (zlen l, flat l ++ cs') | _ => None end.
Definition p_peek : parser ants_cbor_type_t :=
  fun cs => match cs with c :: _ => Some (type_of c, cs) | [] => None end.
Definition p_end : parser unit :=
  fun cs => match cs with [] => Some (tt, []) | _ => None end.

Lemma at_rep d cs : at_ d cs -> exists pre fs, dec_rep d pre (encodes cs) fs.
Proof. intros (pre & fs & H & _). eauto. Qed.

(** A typed reader and the items it accepts. *)
Lemma parses_reader {A} (m : action ants_cbor_dec_t A) enc p :
  reader m enc ->
  (forall cs, match p cs with
              | Some (a, cs') => cs = enc a :: cs'
              | None => forall a cs', cs <> enc a :: cs'
              end) ->
  parses any_code m p.
Proof.
  intros Hm Hp d cs Hat. specialize (Hp cs). destruct (p cs) as [[a cs']|].
  - subst cs. by apply (at_read m enc).
  - destruct (at_rep _ _ Hat) as (pre & fs & Hrep).
    pose proof (reader_sound _ _ Hm d pre _ fs Hrep) as Hs.
    destruct (m d) as [d' a|d' e| |] eqn:E; try done; [|by exists d', e].
    destruct (at_read_inv m enc d d' a cs Hm Hat E) as (cs' & -> & _). by destruct (Hp a cs').
Qed.

Lemma parses_uint : parses any_code ants_cbor_dec_uint p_uint.
Proof. apply (parses_reader _ _ _ reader_uint). by intros [|[]]. Qed.
Lemma parses_bytes : parses any_code ants_cbor_dec_bytes p_bytes.
Proof. apply (parses_reader _ _ _ reader_bytes). by intros [|[]]. Qed.
Lemma parses_bool : parses any_code ants_cbor_dec_bool p_bool.
Proof. apply (parses_reader _ _ _ reader_bool). by intros [|[]]. Qed.

Lemma parses_array : parses any_code ants_cbor_dec_array p_array.
Proof.
  intros d cs Hat. destruct (p_array cs) as [[n cs']|] eqn:E.
  - destruct cs as [|[] cs]; try done. injection E as <- <-. by apply at_array.
  - destruct (at_rep _ _ Hat) as (pre & fs & Hrep).
    pose proof (dec_array_sound d pre _ fs Hrep) as Hs.
    destruct (ants_cbor_dec_array d) as [d' n|d' e| |] eqn:Er; try done; [|by exists d', e].
    destruct (at_array_inv d d' n cs Hat Er) as (l & cs' & -> & _). done.
Qed.

Lemma parses_map : parses any_code ants_cbor_dec_map p_map.
Proof.
  intros d cs Hat. destruct (p_map cs) as [[n cs']|] eqn:E.
  - destruct cs as [|[] cs]; try done. injection E as <- <-. by apply at_map.
  - destruct (at_rep _ _ Hat) as (pre & fs & Hrep).
    pose proof (dec_map_sound d pre _ fs Hrep) as Hs.
    destruct (ants_cbor_dec_map d) as [d' n|d' e| |] eqn:Er; try done; [|by exists d', e].
    destruct (at_map_inv d d' n cs Hat Er) as (l & cs' & -> & _). done.
Qed.

Lemma parses_peek : parses any_code ants_cbor_dec_peek_type p_peek.
Proof.
  intros d cs Hat. destruct Hat as (pre & fs & Hrep & Hs & Hwf). destruct cs as [|c cs]; cbn [p_peek].
  - destruct Hrep as ((Hb & Hl & _ & Hp & _) & _). unfold ants_cbor_dec_peek_type, bind, get.
    rewrite Hl, Hp. change (encodes []) with (@nil Z). rewrite (@zlen_nil Z), Z.add_0_r, Z.leb_refl.
    by eexists _, _.
  - apply Forall_cons in Hwf as Hw. destruct Hw as [Hc _]. exists d. split.
    + eapply peek_type_ok; [|exact Hc]. rewrite encodes_cons in Hrep. apply Hrep.
    + by exists pre, fs.
Qed.

Lemma parses_finalise : parses any_code ants_cbor_dec_finalise p_end.
Proof.
  intros d cs Hat. destruct cs as [|c cs]; cbn [p_end].
  - exists d. split; [by apply at_finalise|done].
  - destruct (ants_cbor_dec_finalise d) as [d' []|d' e| |] eqn:E.
    + exfalso. unfold ants_cbor_dec_finalise in E. repeat case_match; try done. injection E as ->.
      assert (Hf : ants_cbor_dec_finalise d' = Ok d' tt).
      { unfold ants_cbor_dec_finalise. by repeat case_match. }
      by apply (at_finalise_inv d' d' (c :: cs) Hat) in Hf.
    + by exists d', e.
    + unfold ants_cbor_dec_finalise in E. by repeat case_match.
    + unfold ants_cbor_dec_finalise in E. by repeat case_match.
Qed.

#[export] Hint Resolve parses_ret parses_fail parses_uint parses_bytes parses_bool parses_array
  parses_map parses_peek parses_finalise parses_map_err : ants.

(** ** Parts of a document *)

(** An item a decoder can read: well formed, not too deep, and of a size that
    fits an object. *)
Definition readable (c : cbor) : Prop :=
  wf c /\ (height c <= 16)%nat /\ zlen (encode c) <= INT64_MAX.

Lemma concat_in {A} (f : A -> bytes) x l : x ∈ l -> zlen (f x) <= zlen (concat (map f l)).
Proof.
  induction 1 as [? k|? y k ? IH]; cbn [map concat]; rewrite zlen_app.
  - pose proof (zlen_nonneg (concat (map f k))). lia.
  - pose proof (zlen_nonneg (f y)). lia.
Qed.

Lemma array_item_size l x : x ∈ l -> zlen (encode x) <= zlen (encode (CArray l)).
Proof.
  intros Hx. cbn [encode]. rewrite zlen_app. pose proof (encode_head_length 4 (zlen l)).
  enough (zlen (encode x) <= zlen (concat (map encode l))) by lia. by apply concat_in.
Qed.

Lemma map_item_size l k v :
  (k, v) ∈ l -> zlen (encode k) + zlen (encode v) <= zlen (encode (CMap l)).
Proof.
  intros Hx. change (encode (CMap l)) with (encode_head 5 (zlen l) ++ encode_pairs l).
  rewrite <- zlen_app, (zlen_app (encode_head _ _)). pose proof (encode_head_length 5 (zlen l)).
  enough (zlen (encode k ++ encode v) <= zlen (encode_pairs l)) by lia.
  exact (concat_in (fun p => let '(k, v) := p in encode k ++ encode v) (k, v) l Hx).
Qed.

Lemma bytes_item_size b : zlen b <= zlen (encode (CBytes b)).
Proof. cbn [encode]. rewrite zlen_app. pose proof (encode_head_length 2 (zlen b)). lia. Qed.

Lemma readable_array l x : readable (CArray l) -> x ∈ l -> readable x.
Proof.
  intros ([_ Hw]%wf_array & Hh & Hb) Hx. split; [by apply (proj1 (Forall_forall _ _) Hw)|].
  pose proof (height_array_item l x Hx). pose proof (array_item_size l x Hx). split; lia.
Qed.

Lemma readable_map l k v : readable (CMap l) -> (k, v) ∈ l -> readable k /\ readable v.
Proof.
  intros ((_ & _ & Hw)%wf_map & Hh & Hb) Hx.
  apply (proj1 (Forall_forall _ _)) with (x := (k, v)) in Hw as [Hk Hv]; [|done].
  pose proof (height_map_item l k v Hx). pose proof (map_item_size l k v Hx).
  pose proof (zlen_nonneg (encode k)). pose proof (zlen_nonneg (encode v)).
  split; (split; [done|split; lia]).
Qed.

Lemma readable_bytes b : readable (CBytes b) -> bytes_ok b /\ zlen b <= INT64_MAX.
Proof. intros ((Hok & _) & _ & Hb). pose proof (bytes_item_size b). split; [done|lia]. Qed.

(** A program that emits a readable document writes its canonical bytes. *)
Lemma emits_document c m buf cap :
  readable c -> (forall e, m e = emit c e) ->
  zlen (encode c) <= cap <= zlen buf -> zlen buf <= INT64_MAX ->
  exists buf', with_encoder cap m buf = Ok buf' (zlen (encode c)) /\
    take (length (encode c)) buf' = encode c.
Proof.
  intros (Hw & Hh & _) Hm Hc Hb. apply (writes_document _ _ (height c)); try done.
  - eapply writes_ext; [|by apply emit_writes]. intros e. by rewrite Hm.
  - apply encode_ne.
Qed.
