(* ===== verification/Ledger.v ===== *)
(** * The community-layer ledger (src/economy/ledger/src/ledger.c)

    One record per counterparty: the two running totals, the ring buffer of
    recent receipts, the choke/unchoke round over a set of records, and the
    canonical serialisation.  The state of an action is the record, or the
    array of records together with the caller's score scratch. *)

From S2P Require Import Prelude Cbor CborKv.

Module Ledger.

(** ** Data *)

Definition ANTS_LEDGER_PEER_ID_SIZE : Z := 32.
Definition ANTS_LEDGER_OPTIMISTIC_UNCHOKE_DIVISOR : Z := 8.
Definition ANTS_LEDGER_RECENT_SAMPLES : Z := 32.
Definition ANTS_LEDGER_RECORD_ENCODED_MAX : Z := 1024.
Definition LEDGER_CBOR_PAIRS : Z := 8.
Definition LEDGER_QUALITY_ONE : Z := 10000.

Definition LEDGER_KEY_PEER_ID : Z := 1.
Definition LEDGER_KEY_SERVED_TO : Z := 2.
Definition LEDGER_KEY_SERVED_BY : Z := 3.
Definition LEDGER_KEY_SINCE : Z := 4.
Definition LEDGER_KEY_LAST_UPDATE : Z := 5.
Definition LEDGER_KEY_QUALITY : Z := 6.
Definition LEDGER_KEY_CHOKED : Z := 7.
Definition LEDGER_KEY_RECENT : Z := 8.

Record ants_ledger_recv_sample_t : Type := mk_sample { unix_s : Z; amount_uncs : Z }.

Record ants_ledger_peer_t : Type := mk_peer {
  peer_id : bytes;
  served_to : Z;
  served_by : Z;
  since_unix_s : Z;
  last_update_unix_s : Z;
  quality_q14k : Z;
  choked : bool;
  recent : list ants_ledger_recv_sample_t;
  recent_head : Z;
  recent_count : Z
}.

Definition set_peer_id (x : bytes) (r : ants_ledger_peer_t) :=
  mk_peer x (served_to r) (served_by r) (since_unix_s r) (last_update_unix_s r)
    (quality_q14k r) (choked r) (recent r) (recent_head r) (recent_count r).
Definition set_served_to (x : Z) (r : ants_ledger_peer_t) :=
  mk_peer (peer_id r) x (served_by r) (since_unix_s r) (last_update_unix_s r)
    (quality_q14k r) (choked r) (recent r) (recent_head r) (recent_count r).
Definition set_served_by (x : Z) (r : ants_ledger_peer_t) :=
  mk_peer (peer_id r) (served_to r) x (since_unix_s r) (last_update_unix_s r)
    (quality_q14k r) (choked r) (recent r) (recent_head r) (recent_count r).
Definition set_since (x : Z) (r : ants_ledger_peer_t) :=
  mk_peer (peer_id r) (served_to r) (served_by r) x (last_update_unix_s r)
    (quality_q14k r) (choked r) (recent r) (recent_head r) (recent_count r).
Definition set_last_update (x : Z) (r : ants_ledger_peer_t) :=
  mk_peer (peer_id r) (served_to r) (served_by r) (since_unix_s r) x
    (quality_q14k r) (choked r) (recent r) (recent_head r) (recent_count r).
Definition set_quality (x : Z) (r : ants_ledger_peer_t) :=
  mk_peer (peer_id r) (served_to r) (served_by r) (since_unix_s r) (last_update_unix_s r)
    x (choked r) (recent r) (recent_head r) (recent_count r).
Definition set_choked (x : bool) (r : ants_ledger_peer_t) :=
  mk_peer (peer_id r) (served_to r) (served_by r) (since_unix_s r) (last_update_unix_s r)
    (quality_q14k r) x (recent r) (recent_head r) (recent_count r).
Definition set_recent (x : list ants_ledger_recv_sample_t) (h c : Z) (r : ants_ledger_peer_t) :=
  mk_peer (peer_id r) (served_to r) (served_by r) (since_unix_s r) (last_update_unix_s r)
    (quality_q14k r) (choked r) x h c.

(** ** Record lifecycle and accounting *)

Definition ants_ledger_peer_init (pid : bytes) (now_unix_s : Z)
  : action ants_ledger_peer_t unit := fun _ =>
  Ok (mk_peer pid 0 0 now_unix_s now_unix_s (u16 LEDGER_QUALITY_ONE) true
        (replicate (Z.to_nat ANTS_LEDGER_RECENT_SAMPLES) (mk_sample 0 0)) 0 0) tt.

(** [total] and [set_total] are the field the pointer argument refers to. *)
Definition credit (total : ants_ledger_peer_t -> Z)
  (set_total : Z -> ants_ledger_peer_t -> ants_ledger_peer_t) (amount now_unix_s : Z)
  : action ants_ledger_peer_t unit :=
  let* rec := get in
  if UINT64_MAX - total rec <? amount then fail ANTS_ERROR_OVERFLOW
  else
    modify (set_total (u64 (total rec + amount))) ;*
    if negb (now_unix_s =? 0) then modify (set_last_update now_unix_s) else ret tt.

Definition ants_ledger_credit_served_to (amount_uncs now_unix_s : Z)
  : action ants_ledger_peer_t unit := credit served_to set_served_to amount_uncs now_unix_s.

Definition ants_ledger_credit_served_by (amount_uncs now_unix_s : Z)
  : action ants_ledger_peer_t unit := credit served_by set_served_by amount_uncs now_unix_s.

Definition ants_ledger_net_balance : action ants_ledger_peer_t Z :=
  let* rec := get in
  if served_by rec <=? served_to rec then
    let d := u64 (served_to rec - served_by rec) in
    if INT64_MAX <? d then fail ANTS_ERROR_OVERFLOW else ret (to_int64 d)
  else
    let d := u64 (served_by rec - served_to rec) in
    if INT64_MAX + 1 <? d then fail ANTS_ERROR_OVERFLOW
    else if d =? INT64_MAX + 1 then ret INT64_MIN
    else ret (- to_int64 d).

(** ** Choke / unchoke loop *)

Definition sat_add_u64 (a b : Z) : Z := if UINT64_MAX - b <? a then UINT64_MAX else u64 (a + b).

Definition sat_mul_u64 (a b : Z) : Z :=
  if negb (a =? 0) && (UINT64_MAX / a <? b) then UINT64_MAX else u64 (a * b).

Definition recent_push (now_unix_s amount : Z) : action ants_ledger_peer_t unit :=
  let* rec := get in
  let cap := ANTS_LEDGER_RECENT_SAMPLES in
  let* r' := deref (set_at (recent rec) (recent_head rec) (mk_sample now_unix_s amount)) in
  modify (set_recent r' (u32 (recent_head rec + 1) mod cap)
            (if recent_count rec <? cap then u32 (recent_count rec + 1) else recent_count rec)).

Definition ants_ledger_record_recv (amount now_unix_s : Z) : action ants_ledger_peer_t unit :=
  credit served_by set_served_by amount now_unix_s ;*
  recent_push now_unix_s amount.

(** The test for one sample of the generosity loop. *)
Definition in_window (now_unix_s window_s : Z) (s : ants_ledger_recv_sample_t) : bool :=
  if (unix_s s =? 0) || (now_unix_s <=? window_s) then true
  else u64 (now_unix_s - window_s) <=? unix_s s.

(** The loop over [k, k + n) with the running sum. *)
Fixpoint generosity_loop (n : nat) (k : Z) (r : list ants_ledger_recv_sample_t)
  (now_unix_s window_s sum : Z) : option Z :=
  match n with
  | O => Some sum
  | S n' =>
    match get_at r k with
    | None => None
    | Some s =>
      generosity_loop n' (k + 1) r now_unix_s window_s
        (if in_window now_unix_s window_s s then sat_add_u64 sum (amount_uncs s) else sum)
    end
  end.

Definition ants_ledger_generosity (now_unix_s window_s : Z) : action ants_ledger_peer_t Z :=
  let* rec := get in
  deref (generosity_loop (Z.to_nat (recent_count rec)) 0 (recent rec) now_unix_s window_s 0).

Definition unchoke_score (rec : ants_ledger_peer_t) (now_unix_s window_s : Z) : option Z :=
  match ants_ledger_generosity now_unix_s window_s rec with
  | Ok _ gen => Some (sat_mul_u64 gen (quality_q14k rec))
  | Err _ _ => Some (sat_mul_u64 0 (quality_q14k rec))
  | UB | NoFuel => None
  end.

(** Is the record [ri] with score [si] ranked above [rj] with score [sj]? *)
Definition ranks_above (ri : ants_ledger_peer_t) (si : Z) (rj : ants_ledger_peer_t) (sj : Z)
  : bool :=
  if negb (si =? sj) then sj <? si else memcmp (peer_id ri) (peer_id rj) <? 0.

(** The inner loop for record [i]: [l] are the records from [j] on, with
    their scores. *)
Fixpoint count_above (l : list (ants_ledger_peer_t * Z)) (j i : Z)
  (ri : ants_ledger_peer_t) (si earned above : Z) : Z :=
  match l with
  | [] => above
  | (rj, sj) :: l' =>
    if negb (j =? i) && ranks_above rj sj ri si then
      if earned <=? above + 1 then above + 1
      else count_above l' (j + 1) i ri si earned (above + 1)
    else count_above l' (j + 1) i ri si earned above
  end.

(** The earned-slot loop over the records [l] from index [i] on; [all] are
    all the records with their scores. *)
Fixpoint earned_loop (all l : list (ants_ledger_peer_t * Z)) (i earned : Z)
  : list ants_ledger_peer_t :=
  match l with
  | [] => []
  | (ri, si) :: l' =>
    let r := set_choked true ri in
    let r' := if earned =? 0 then r
              else if count_above all 0 i ri si earned 0 <? earned then set_choked false r else r in
    r' :: earned_loop all l' (i + 1) earned
  end.

Definition count_choked (l : list ants_ledger_peer_t) : Z :=
  foldl (fun n r => if choked r then size_add n 1 else n) 0 l.

(** The optimistic walk in index order. *)
Fixpoint optimistic_loop (l : list ants_ledger_peer_t)
  (optimistic still_choked start seen opt_taken : Z) : list ants_ledger_peer_t :=
  match l with
  | [] => []
  | r :: l' =>
    if optimistic <=? opt_taken then l
    else if negb (choked r) then
      r :: optimistic_loop l' optimistic still_choked start seen opt_taken
    else
      let rel := size_sub (size_add seen still_choked) start mod still_choked in
      if rel <? optimistic then
        set_choked false r ::
          optimistic_loop l' optimistic still_choked start (size_add seen 1) (u64 (opt_taken + 1))
      else r :: optimistic_loop l' optimistic still_choked start (size_add seen 1) opt_taken
  end.

(** Compute the score of every record, in order. *)
Fixpoint score_all (l : list ants_ledger_peer_t) (now_unix_s window_s : Z) : option (list Z) :=
  match l with
  | [] => Some []
  | r :: l' =>
    match unchoke_score r now_unix_s window_s, score_all l' now_unix_s window_s with
    | Some s, Some ss => Some (s :: ss)
    | _, _ => None
    end
  end.

(** The state is the array of records and the score scratch. *)
Definition ants_ledger_unchoke_round (now_unix_s window_s slots rotation : Z)
  : action (list ants_ledger_peer_t * list Z) unit := fun st =>
  let records := st.1 in
  let scratch := st.2 in
  let n_records := zlen records in
  if n_records =? 0 then Ok st tt
  else if zlen scratch <? n_records then Err st ANTS_ERROR_INVALID_ARG
  else if slots =? 0 then Ok (map (set_choked true) records, scratch) tt
  else
    let optimistic := if slots / ANTS_LEDGER_OPTIMISTIC_UNCHOKE_DIVISOR =? 0 then 1
                      else slots / ANTS_LEDGER_OPTIMISTIC_UNCHOKE_DIVISOR in
    let earned := if slots <=? optimistic then 0 else slots - optimistic in
    match score_all records now_unix_s window_s with
    | None => UB
    | Some scores =>
      let scratch' := scores ++ drop (length scores) scratch in
      let scored := zip records scores in
      let records' := earned_loop scored scored 0 earned in
      let still_choked := count_choked records' in
      if (still_choked =? 0) || (optimistic =? 0) then Ok (records', scratch') tt
      else
        let start := rotation mod still_choked in
        Ok (optimistic_loop records' optimistic still_choked start 0 0, scratch') tt
    end.

(** ** Serialisation *)

(** The loop over the ring: [n] samples from logical position [k] on. *)
Fixpoint enc_recent (n : nat) (k oldest : Z) (r : list ants_ledger_recv_sample_t)
  : action ants_cbor_enc_t unit :=
  match n with
  | O => ret tt
  | S n' =>
    let idx := u32 (oldest + k) mod ANTS_LEDGER_RECENT_SAMPLES in
    let* s := deref (get_at r idx) in
    ants_cbor_enc_array 2 ;*
    ants_cbor_enc_uint (unix_s s) ;*
    ants_cbor_enc_uint (amount_uncs s) ;*
    enc_recent n' (k + 1) oldest r
  end.

Definition record_body (rec : ants_ledger_peer_t) : action ants_cbor_enc_t unit :=
  ants_cbor_enc_map LEDGER_CBOR_PAIRS ;*
  enc_kv_bytes LEDGER_KEY_PEER_ID (peer_id rec) ;*
  enc_kv_uint LEDGER_KEY_SERVED_TO (served_to rec) ;*
  enc_kv_uint LEDGER_KEY_SERVED_BY (served_by rec) ;*
  enc_kv_uint LEDGER_KEY_SINCE (since_unix_s rec) ;*
  enc_kv_uint LEDGER_KEY_LAST_UPDATE (last_update_unix_s rec) ;*
  enc_kv_uint LEDGER_KEY_QUALITY (quality_q14k rec) ;*
  enc_kv_bool LEDGER_KEY_CHOKED (choked rec) ;*
  ants_cbor_enc_uint LEDGER_KEY_RECENT ;*
  ants_cbor_enc_array (recent_count rec) ;*
  enc_recent (Z.to_nat (recent_count rec)) 0
    (u32 (u32 (recent_head rec + ANTS_LEDGER_RECENT_SAMPLES) - recent_count rec)
       mod ANTS_LEDGER_RECENT_SAMPLES) (recent rec).

Definition ants_ledger_record_encode (rec : ants_ledger_peer_t) (cap : Z) : action bytes Z :=
  with_encoder cap (record_body rec).

(** [rec->recent[k] = ...] *)
Definition put_recent (k : Z) (s : ants_ledger_recv_sample_t)
  : action (ants_cbor_dec_t * ants_ledger_peer_t) unit := fun st =>
  match set_at (recent st.2) k s with
  | Some r => Ok (st.1, set_recent r (recent_head st.2) (recent_count st.2) st.2) tt
  | None => UB
  end.

Definition decode_sample (k : Z) : action (ants_cbor_dec_t * ants_ledger_peer_t) unit :=
  let* two := on_fst (map_err norm_decode_err ants_cbor_dec_array) in
  if negb (two =? 2) then fail ANTS_ERROR_MALFORMED
  else
    let* ts := on_fst (map_err norm_decode_err ants_cbor_dec_uint) in
    let* amt := on_fst (map_err norm_decode_err ants_cbor_dec_uint) in
    put_recent k (mk_sample ts amt).

Definition decode_body : action (ants_cbor_dec_t * ants_ledger_peer_t) unit :=
  let* n_pairs := on_fst (map_err norm_decode_err ants_cbor_dec_map) in
  if negb (n_pairs =? LEDGER_CBOR_PAIRS) then fail ANTS_ERROR_MALFORMED
  else
    let* pid := on_fst (decode_bytes_field LEDGER_KEY_PEER_ID ANTS_LEDGER_PEER_ID_SIZE) in
    modify_snd (set_peer_id pid) ;*
    let* st := on_fst (decode_uint_field LEDGER_KEY_SERVED_TO) in
    modify_snd (set_served_to st) ;*
    let* sb := on_fst (decode_uint_field LEDGER_KEY_SERVED_BY) in
    modify_snd (set_served_by sb) ;*
    let* si := on_fst (decode_uint_field LEDGER_KEY_SINCE) in
    modify_snd (set_since si) ;*
    let* lu := on_fst (decode_uint_field LEDGER_KEY_LAST_UPDATE) in
    modify_snd (set_last_update lu) ;*
    let* u := on_fst (decode_uint_field LEDGER_KEY_QUALITY) in
    if UINT16_MAX <? u then fail ANTS_ERROR_MALFORMED
    else
      modify_snd (set_quality (u16 u)) ;*
      let* ch := on_fst (decode_bool_field LEDGER_KEY_CHOKED) in
      modify_snd (set_choked ch) ;*
      on_fst (expect_key LEDGER_KEY_RECENT) ;*
      let* n_recent := on_fst (map_err norm_decode_err ants_cbor_dec_array) in
      if ANTS_LEDGER_RECENT_SAMPLES <? n_recent then fail ANTS_ERROR_MALFORMED
      else
        for_loop (Z.to_nat ANTS_LEDGER_RECENT_SAMPLES) 0 n_recent decode_sample ;*
        modify_snd (fun r => set_recent (recent r)
          (if n_recent =? ANTS_LEDGER_RECENT_SAMPLES then 0 else u32 n_recent) (u32 n_recent) r).

Definition ants_ledger_record_decode (buf : option bytes) (len : Z)
  : action ants_ledger_peer_t unit :=
  if is_null buf then fail ANTS_ERROR_INVALID_ARG
  else with_decoder norm_decode_err norm_decode_err buf len decode_body.

End Ledger.
