(* ===== verification/LedgerThms.v ===== *)
(** * What the ledger promises

    The record refines an abstract book (two exact totals and the log of
    receipts, of which the ring buffer keeps the last 32); the net balance is
    exact; generosity is the capped sum of the receipts in the window. *)

From S2P Require Import Prelude Cbor Ledger.
Import Ledger.

(** ** The abstract book *)

Record book : Type := mk_book { b_to : Z; b_by : Z; b_log : list ants_ledger_recv_sample_t }.

Inductive ledger_op : Type :=
| OpServedTo (amount now : Z)
| OpServedBy (amount now : Z)
| OpRecv (amount now : Z).

(** A credit is accepted exactly when the total stays a 64-bit number. *)
Definition book_step (op : ledger_op) (b : book) : option book :=
  match op with
  | OpServedTo a _ => if b_to b + a <=? UINT64_MAX
                      then Some (mk_book (b_to b + a) (b_by b) (b_log b)) else None
  | OpServedBy a _ => if b_by b + a <=? UINT64_MAX
                      then Some (mk_book (b_to b) (b_by b + a) (b_log b)) else None
  | OpRecv a now => if b_by b + a <=? UINT64_MAX
                    then Some (mk_book (b_to b) (b_by b + a) (b_log b ++ [mk_sample now a]))
                    else None
  end.

Definition run_op (op : ledger_op) : action ants_ledger_peer_t unit :=
  match op with
  | OpServedTo a now => ants_ledger_credit_served_to a now
  | OpServedBy a now => ants_ledger_credit_served_by a now
  | OpRecv a now => ants_ledger_record_recv a now
  end.

Definition op_ok (op : ledger_op) : Prop :=
  match op with
  | OpServedTo a now | OpServedBy a now | OpRecv a now => is_u64 a /\ is_u64 now
  end.

(** ** The ring buffer *)

Definition cap : nat := Z.to_nat ANTS_LEDGER_RECENT_SAMPLES.

(** What the ring operations maintain. *)
Definition ring_ok (rec : ants_ledger_peer_t) : Prop :=
  length (recent rec) = cap /\ 0 <= recent_head rec < 32 /\ 0 <= recent_count rec <= 32 /\
  (recent_count rec < 32 -> recent_head rec = recent_count rec).

(** The samples, oldest first. *)
Definition ring (rec : ants_ledger_peer_t) : list ants_ledger_recv_sample_t :=
  let h := Z.to_nat (recent_head rec) in
  if recent_count rec <? 32 then take h (recent rec)
  else drop h (recent rec) ++ take h (recent rec).

(** The last [n] elements: Python's [deque(maxlen=n)]. *)
Definition lastn {A} (n : nat) (l : list A) : list A := drop (length l - n) l.

Lemma lastn_snoc {A} n (l : list A) x :
  lastn (S n) (l ++ [x]) = lastn n l ++ [x].
Proof.
  unfold lastn. rewrite length_app. cbn [length].
  replace (length l + 1 - S n)%nat with (length l - n)%nat by lia.
  rewrite drop_app_le; [done | lia].
Qed.

Lemma lastn_lastn_snoc {A} n (l : list A) x : lastn n (lastn n l ++ [x]) = lastn n (l ++ [x]).
Proof.
  destruct n as [|n].
  - unfold lastn. rewrite !drop_ge by (rewrite ?length_app, ?length_drop; lia). done.
  - rewrite !lastn_snoc. f_equal. unfold lastn. rewrite drop_drop, length_drop. f_equal. lia.
Qed.

Lemma ring_length rec : ring_ok rec -> zlen (ring rec) = recent_count rec.
Proof.
  intros (Hl & Hh & Hc & Hlt). unfold ring, cap, zlen in *. bcase.
  - rewrite length_take, Hl. change (Z.to_nat ANTS_LEDGER_RECENT_SAMPLES) with 32%nat. lia.
  - rewrite length_app, length_drop, length_take, Hl.
    change (Z.to_nat ANTS_LEDGER_RECENT_SAMPLES) with 32%nat. lia.
Qed.

(** The record after [recent_push]. *)
Definition pushed (s : ants_ledger_recv_sample_t) (rec : ants_ledger_peer_t) : ants_ledger_peer_t :=
  set_recent (<[Z.to_nat (recent_head rec) := s]> (recent rec))
    ((recent_head rec + 1) mod 32)
    (if recent_count rec <? 32 then recent_count rec + 1 else recent_count rec) rec.

Lemma recent_push_spec now a rec :
  ring_ok rec -> recent_push now a rec = Ok (pushed (mk_sample now a) rec) tt.
Proof.
  intros (Hl & Hh & Hc & Hlt). unfold recent_push, bind, get, deref, set_at, modify, pushed.
  unfold zlen. rewrite Hl. unfold cap, ANTS_LEDGER_RECENT_SAMPLES. repeat bdecide. cbn [andb].
  unfold u32. rewrite (Z.mod_small (recent_head rec + 1) (2 ^ 32)) by lia.
  destruct (Z.ltb_spec (recent_count rec) 32); [|done].
  by rewrite (Z.mod_small (recent_count rec + 1) (2 ^ 32)) by lia.
Qed.

Lemma pushed_ok s rec : ring_ok rec -> ring_ok (pushed s rec).
Proof.
  intros (Hl & Hh & Hc & Hlt). unfold ring_ok, pushed. cbn. rewrite length_insert.
  pose proof (Z.mod_pos_bound (recent_head rec + 1) 32 ltac:(lia)).
  split; [done|]. split; [lia|]. destruct (Z.ltb_spec (recent_count rec) 32).
  - split; [lia|]. intros. rewrite Hlt by lia. apply Z.mod_small. lia.
  - split; [lia|]. lia.
Qed.

(** The ring is a queue of the last 32 samples. *)
Lemma ring_pushed s rec : ring_ok rec -> ring (pushed s rec) = lastn cap (ring rec ++ [s]).
Proof.
  intros Hok. pose proof Hok as (Hl & Hh & Hc & Hlt).
  pose proof (ring_length rec Hok) as Hlen. change cap with 32%nat in *.
  assert (Hi : (Z.to_nat (recent_head rec) < length (recent rec))%nat) by lia.
  set (h := Z.to_nat (recent_head rec)) in *.
  assert (Hsnoc : take (S h) (<[h := s]> (recent rec)) = take h (recent rec) ++ [s]).
  { rewrite (take_S_r _ _ s) by (by apply list_lookup_insert_eq). by rewrite take_insert_ge. }
  rewrite lastn_snoc. unfold ring, pushed in *. cbn [recent_head recent_count set_recent recent].
  fold h in Hlen |- *. destruct (Z.ltb_spec (recent_count rec) 32) as [Hcl|Hcg].
  - assert (lastn 31 (take h (recent rec)) = take h (recent rec)) as ->.
    { unfold lastn. rewrite length_take. replace (_ - 31)%nat with 0%nat by lia. done. }
    rewrite <- Hsnoc. specialize (Hlt Hcl).
    destruct (Z.ltb_spec (recent_count rec + 1) 32).
    + rewrite Z.mod_small by lia. f_equal. lia.
    + replace (recent_head rec + 1) with 32 by lia. change (Z.to_nat (32 mod 32)) with 0%nat. cbn [take drop]. rewrite app_nil_r.
      rewrite take_ge; [done|]. rewrite length_insert. lia.
  - replace (recent_count rec <? 32) with false by zlia.
    destruct (lookup_lt_is_Some_2 (recent rec) h Hi) as [x Hx].
    assert (lastn 31 (drop h (recent rec) ++ take h (recent rec)) =
            drop (S h) (recent rec) ++ take h (recent rec)) as ->.
    { unfold lastn. rewrite length_app, length_drop, length_take, Hl.
      replace (32 - h + h `min` 32 - 31)%nat with 1%nat by lia. by rewrite (drop_S (recent rec) x h Hx). }
    rewrite <- app_assoc, <- Hsnoc. destruct (Z.eqb_spec (recent_head rec) 31) as [E|E].
    + replace (recent_head rec + 1) with 32 by lia. change (Z.to_nat (32 mod 32)) with 0%nat.
      cbn [take drop]. rewrite app_nil_r. rewrite (drop_ge (recent rec)) by lia. cbn [app].
      rewrite take_ge; [done|]. rewrite length_insert. lia.
    + rewrite Z.mod_small by lia. replace (Z.to_nat (recent_head rec + 1)) with (S h) by lia.
      by rewrite drop_insert_lt by lia.
Qed.

(** ** Refinement of the book *)

(** The record's field types. *)
Definition peer_ok (rec : ants_ledger_peer_t) : Prop :=
  is_u64 (served_to rec) /\ is_u64 (served_by rec) /\ ring_ok rec.

Definition rep (rec : ants_ledger_peer_t) (b : book) : Prop :=
  peer_ok rec /\ served_to rec = b_to b /\ served_by rec = b_by b /\
  ring rec = lastn cap (b_log b).

(** The fields no credit touches. *)
Definition same_identity (rec rec' : ants_ledger_peer_t) : Prop :=
  peer_id rec' = peer_id rec /\ since_unix_s rec' = since_unix_s rec /\
  quality_q14k rec' = quality_q14k rec /\ choked rec' = choked rec.

Definition stamped (now : Z) (rec : ants_ledger_peer_t) : ants_ledger_peer_t :=
  if negb (now =? 0) then set_last_update now rec else rec.

Lemma credit_spec total set_total a now rec :
  is_u64 (total rec) -> is_u64 a ->
  credit total set_total a now rec =
    if total rec + a <=? UINT64_MAX then Ok (stamped now (set_total (total rec + a) rec)) tt
    else Err rec ANTS_ERROR_OVERFLOW.
Proof.
  intros Ht Ha. unfold credit, bind, get, modify, fail, ret, stamped.
  destruct (Z.leb_spec (total rec + a) UINT64_MAX).
  - replace (UINT64_MAX - total rec <? a) with false by zlia. rewrite u64_small by zlia.
    by destruct (now =? 0).
  - by replace (UINT64_MAX - total rec <? a) with true by zlia.
Qed.

Lemma stamped_ring now rec : ring (stamped now rec) = ring rec.
Proof. unfold stamped. by destruct (now =? 0). Qed.

Lemma stamped_ok now rec : ring_ok rec -> ring_ok (stamped now rec).
Proof. unfold stamped. by destruct (now =? 0). Qed.

Lemma run_op_refines op rec b :
  op_ok op -> rep rec b ->
  match book_step op b with
  | Some b' => exists rec', run_op op rec = Ok rec' tt /\ rep rec' b' /\ same_identity rec rec'
  | None => run_op op rec = Err rec ANTS_ERROR_OVERFLOW
  end.
Proof.
  intros Hop ((Hto & Hby & Hr) & Et & Eb & El).
  destruct op as [a now|a now|a now]; destruct Hop as [Ha Hn]; cbn [run_op book_step];
    unfold ants_ledger_credit_served_to, ants_ledger_credit_served_by, ants_ledger_record_recv;
    [ | | unfold bind]; rewrite credit_spec by done; rewrite ?Et, ?Eb.
  - bcase; [|done]. eexists. split; [reflexivity|]. unfold stamped.
    split; [|by destruct (now =? 0)]. unfold rep, peer_ok.
    destruct (now =? 0); cbn in *; (split; [|done]); split_and!; try done; zlia.
  - bcase; [|done]. eexists. split; [reflexivity|]. unfold stamped.
    split; [|by destruct (now =? 0)]. unfold rep, peer_ok.
    destruct (now =? 0); cbn in *; (split; [|done]); split_and!; try done; zlia.
  - bcase; [|done]. set (rec1 := stamped now (set_served_by (b_by b + a) rec)).
    assert (Hr1 : ring_ok rec1) by (by apply stamped_ok).
    rewrite recent_push_spec by done. eexists. split; [reflexivity|].
    assert (Hf : served_to rec1 = b_to b /\ served_by rec1 = b_by b + a /\ same_identity rec rec1).
    { subst rec1. unfold stamped. by destruct (now =? 0). }
    destruct Hf as (Ht1 & Hb1 & Hid). split; [|exact Hid]. split.
    + split; [|split]; [| |by apply pushed_ok]; cbn; rewrite ?Ht1, ?Hb1; zlia.
    + cbn [b_to b_by b_log]. split; [exact Ht1|]. split; [exact Hb1|].
      rewrite ring_pushed by done. subst rec1. rewrite stamped_ring.
      change (ring (set_served_by (b_by b + a) rec)) with (ring rec).
      rewrite El. apply lastn_lastn_snoc.
Qed.

(** A sequence of operations; a rejected one is skipped on both sides. *)
Fixpoint run_ops (ops : list ledger_op) (rec : ants_ledger_peer_t) : option ants_ledger_peer_t :=
  match ops with
  | [] => Some rec
  | op :: ops' => match run_op op rec with
                  | Ok rec' _ | Err rec' _ => run_ops ops' rec'
                  | UB | NoFuel => None
                  end
  end.

Definition book_steps (ops : list ledger_op) (b : book) : book :=
  foldl (fun b op => default b (book_step op b)) b ops.

Lemma run_ops_refines ops rec b :
  Forall op_ok ops -> rep rec b -> exists rec', run_ops ops rec = Some rec' /\
    rep rec' (book_steps ops b) /\ same_identity rec rec'.
Proof.
  intros Hops. revert rec b. induction Hops as [|op ops Hop _ IH]; intros rec b Hrep.
  { exists rec. done. }
  cbn [run_ops book_steps foldl]. pose proof (run_op_refines op rec b Hop Hrep) as H.
  destruct (book_step op b) as [b'|] eqn:E; cbn [default].
  - destruct H as (rec1 & -> & Hrep1 & Hid1). destruct (IH rec1 b' Hrep1) as (rec2 & ? & ? & Hid2).
    exists rec2. split; [done|]. split; [done|].
    destruct Hid1 as (? & ? & ? & ?), Hid2 as (? & ? & ? & ?). unfold same_identity.
    split_and!; congruence.
  - rewrite H. by apply IH.
Qed.

Lemma init_rep pid now rec :
  exists rec', ants_ledger_peer_init pid now rec = Ok rec' tt /\ rep rec' (mk_book 0 0 []) /\
    peer_id rec' = pid /\ choked rec' = true /\ quality_q14k rec' = 10000.
Proof.
  eexists. split; [reflexivity|]. split; [|done]. split; [|done].
  split; [|split]; [done..|]. split; [done|]. cbn. lia.
Qed.

(** C29: the record implements the book.  After any sequence of credits and
    receipts on a fresh record the two totals are the exact sums of the
    accepted amounts, never wrapped; an operation that would overflow is
    refused without effect; the ring holds the last 32 accepted receipts,
    oldest first; and the identity fields are untouched. *)
Theorem ledger_refines_book pid now0 rec ops :
  Forall op_ok ops ->
  exists rec0 rec', ants_ledger_peer_init pid now0 rec = Ok rec0 tt /\
    run_ops ops rec0 = Some rec' /\
    let b := book_steps ops (mk_book 0 0 []) in
    served_to rec' = b_to b /\ served_by rec' = b_by b /\ ring rec' = lastn 32 (b_log b) /\
    b_to b <= UINT64_MAX /\ b_by b <= UINT64_MAX /\
    peer_id rec' = pid /\ choked rec' = true.
Proof.
  intros Hops. destruct (init_rep pid now0 rec) as (rec0 & Hi & Hrep0 & Hpid & Hch & _).
  destruct (run_ops_refines ops rec0 _ Hops Hrep0) as (rec' & Hrun & Hrep & Hid).
  exists rec0, rec'. split; [done|]. split; [done|]. cbn zeta.
  destruct Hrep as ((Hto & Hby & _) & Et & Eb & El), Hid as (? & _ & _ & ?).
  rewrite <- Et, <- Eb. split_and!; try done; try congruence; zlia.
Qed.

Lemma ledger_refines_book_witness :
  let ops := [OpRecv 5 100; OpServedTo 7 0; OpServedBy UINT64_MAX 0; OpRecv 9 200] in
  exists rec0 rec', ants_ledger_peer_init [1] 50 (mk_peer [] 0 0 0 0 0 true [] 0 0) = Ok rec0 tt /\
    run_ops ops rec0 = Some rec' /\
    let b := book_steps ops (mk_book 0 0 []) in
    served_to rec' = b_to b /\ served_by rec' = b_by b /\ ring rec' = lastn 32 (b_log b) /\
    b_to b <= UINT64_MAX /\ b_by b <= UINT64_MAX /\
    peer_id rec' = [1] /\ choked rec' = true.
Proof.
  apply (ledger_refines_book [1] 50 (mk_peer [] 0 0 0 0 0 true [] 0 0)).
  repeat constructor; done.
Defined.

(** ** Net balance *)

(** [ants_ledger_net_balance] returns the exact difference of the totals
    whenever it is an [int64_t], INT64_MIN included, and ANTS_ERROR_OVERFLOW
    exactly when it is not; the record is not changed. *)
Theorem net_balance_exact rec :
  is_u64 (served_to rec) -> is_u64 (served_by rec) ->
  let net := served_to rec - served_by rec in
  ants_ledger_net_balance rec =
    if (INT64_MIN <=? net) && (net <=? INT64_MAX) then Ok rec net
    else Err rec ANTS_ERROR_OVERFLOW.
Proof.
  intros Ht Hb net. subst net. unfold ants_ledger_net_balance, bind, get, ret, fail, to_int64.
  assert (Hi : forall d, 0 <= d <= INT64_MAX -> (if u64 d <? 2 ^ 63 then u64 d else u64 d - 2 ^ 64) = d).
  { intros d Hd. rewrite u64_small by zlia. by bdecide. }
  destruct (Z.leb_spec (served_by rec) (served_to rec)).
  - rewrite (u64_small (served_to rec - served_by rec)) by zlia.
    replace (INT64_MIN <=? served_to rec - served_by rec) with true by zlia. cbn [andb].
    destruct (Z.leb_spec (served_to rec - served_by rec) INT64_MAX).
    + bdecide. by rewrite Hi by zlia.
    + by bdecide.
  - rewrite (u64_small (served_by rec - served_to rec)) by zlia.
    replace (served_to rec - served_by rec <=? INT64_MAX) with true by zlia.
    rewrite andb_true_r. destruct (Z.leb_spec INT64_MIN (served_to rec - served_by rec)).
    + replace (INT64_MAX + 1 <? served_by rec - served_to rec) with false by zlia.
      destruct (Z.eqb_spec (served_by rec - served_to rec) (INT64_MAX + 1)).
      * f_equal. zlia.
      * rewrite Hi by zlia. f_equal. lia.
    + by replace (INT64_MAX + 1 <? served_by rec - served_to rec) with true by zlia.
Qed.

Lemma net_balance_exact_witness :
  let rec := mk_peer [] 0 (2 ^ 63) 0 0 0 true [] 0 0 in
  ants_ledger_net_balance rec = Ok rec INT64_MIN.
Proof. exact (net_balance_exact (mk_peer [] 0 (2 ^ 63) 0 0 0 true [] 0 0) ltac:(done) ltac:(done)). Defined.

(** ** Generosity *)

(** A receipt counts when it is clockless or not older than the window. *)
Definition counts (now window : Z) (s : ants_ledger_recv_sample_t) : bool :=
  (unix_s s =? 0) || (now <=? unix_s s + window).

Definition window_sum (now window : Z) (l : list ants_ledger_recv_sample_t) : Z :=
  foldr (fun s t => (if counts now window s then amount_uncs s else 0) + t) 0 l.

Definition sample_ok (s : ants_ledger_recv_sample_t) : Prop :=
  is_u64 (unix_s s) /\ is_u64 (amount_uncs s).

Lemma in_window_counts now window s :
  is_u64 now -> is_u64 window -> is_u64 (unix_s s) ->
  in_window now window s = counts now window s.
Proof.
  intros Hn Hw Hs. unfold in_window, counts. destruct (Z.eqb_spec (unix_s s) 0); [done|]. cbn [orb].
  destruct (Z.leb_spec now window).
  - symmetry. apply Z.leb_le. zlia.
  - rewrite u64_small by zlia. zlia.
Qed.

Lemma sat_add_min x a : 0 <= x -> is_u64 a ->
  sat_add_u64 (Z.min UINT64_MAX x) a = Z.min UINT64_MAX (x + a).
Proof.
  intros Hx Ha. unfold sat_add_u64. bcase; [zlia|]. rewrite u64_small by zlia. zlia.
Qed.

Lemma window_sum_nonneg now window l : Forall sample_ok l -> 0 <= window_sum now window l.
Proof.
  induction 1 as [|s l [_ Hs] _ IH]; cbn [window_sum foldr]; [lia|].
  unfold window_sum in IH. case_match; zlia.
Qed.

Lemma generosity_loop_spec n now window r :
  is_u64 now -> is_u64 window -> Forall sample_ok r ->
  forall k acc, (k + n <= length r)%nat -> 0 <= acc ->
  generosity_loop n (Z.of_nat k) r now window (Z.min UINT64_MAX acc) =
    Some (Z.min UINT64_MAX (acc + window_sum now window (take n (drop k r)))).
Proof.
  intros Hn Hw Hr. induction n as [|n IH]; intros k acc Hk Hacc; cbn [generosity_loop].
  { change (window_sum now window (take 0 (drop k r))) with 0. by rewrite Z.add_0_r. }
  destruct (lookup_lt_is_Some_2 r k ltac:(lia)) as [s Hs]. unfold get_at. bdecide.
  rewrite Nat2Z.id, Hs. rewrite Forall_lookup in Hr. destruct (Hr k s Hs) as [Hu Ha].
  rewrite in_window_counts by done. rewrite (drop_S r s k Hs). cbn [take].
  change (window_sum now window (s :: take n (drop (S k) r))) with
    ((if counts now window s then amount_uncs s else 0) + window_sum now window (take n (drop (S k) r))).
  replace (Z.of_nat k + 1) with (Z.of_nat (S k)) by lia.
  destruct (counts now window s).
  - rewrite sat_add_min by done. rewrite IH by zlia. do 2 f_equal; lia.
  - rewrite IH by lia. do 2 f_equal; lia.
Qed.

Lemma window_sum_perm now window l l' :
  l ≡ₚ l' -> window_sum now window l = window_sum now window l'.
Proof. unfold window_sum. induction 1; cbn [foldr] in *; lia. Qed.

Lemma ring_perm rec :
  ring_ok rec -> take (Z.to_nat (recent_count rec)) (recent rec) ≡ₚ ring rec.
Proof.
  intros (Hl & Hh & Hc & Hlt). change cap with 32%nat in Hl. unfold ring. bcase.
  - rewrite Hlt by lia. done.
  - rewrite take_ge by lia. rewrite Permutation_app_comm. by rewrite take_drop.
Qed.

(** Generosity.  For a record whose samples are 64-bit numbers,
    [ants_ledger_generosity] reads only valid samples and returns the sum of
    the amounts of the receipts in the ring that are clockless or at most
    [window_s] old, capped at UINT64_MAX. *)
Theorem generosity_windowed rec now window :
  ring_ok rec -> Forall sample_ok (recent rec) -> is_u64 now -> is_u64 window ->
  ants_ledger_generosity now window rec =
    Ok rec (Z.min UINT64_MAX (window_sum now window (ring rec))).
Proof.
  intros Hr Hs Hn Hw. unfold ants_ledger_generosity, bind, get, deref.
  pose proof (generosity_loop_spec (Z.to_nat (recent_count rec)) now window (recent rec)
    Hn Hw Hs 0%nat 0) as H.
  change (Z.min UINT64_MAX 0) with 0 in H. change (Z.of_nat 0) with 0 in H. rewrite H.
  - cbn [drop]. by rewrite (window_sum_perm _ _ _ _ (ring_perm rec Hr)).
  - destruct Hr as (-> & ? & ? & _). change cap with 32%nat. lia.
  - done.
Qed.

Definition sample_record : ants_ledger_peer_t :=
  mk_peer (replicate 32 1) 0 50 0 0 10000 true
    (mk_sample 0 3 :: mk_sample 990 7 :: mk_sample 10 40 :: replicate 29 (mk_sample 0 0)) 3 3.

Lemma sample_record_ok : ring_ok sample_record /\ Forall sample_ok (recent sample_record).
Proof.
  split.
  - split; [done|]. cbn. lia.
  - repeat constructor; done.
Qed.

Lemma generosity_windowed_witness :
  ants_ledger_generosity 1000 100 sample_record = Ok sample_record 10.
Proof.
  exact (generosity_windowed sample_record 1000 100 (proj1 sample_record_ok)
    (proj2 sample_record_ok) ltac:(done) ltac:(done)).
Defined.
