(* ===== verification/LedgerUnchoke.v ===== *)
(** * The choke / unchoke round

    With distinct peer ids, [ranks_above] is a strict total order on the
    scored records; the round unchokes exactly as many peers as there are
    slots, serves the best-ranked first, and its rotation reaches everyone. *)

From S2P Require Import Prelude Cbor CborSpec CborContract Ledger LedgerThms.
Import Ledger.

(** ** Counting *)

Fixpoint countb {A} (f : A -> bool) (l : list A) : Z :=
  match l with
  | [] => 0
  | x :: l' => (if f x then 1 else 0) + countb f l'
  end.

Lemma countb_bound {A} (f : A -> bool) l : 0 <= countb f l <= zlen l.
Proof.
  unfold zlen. induction l as [|x l IH]; cbn [countb length]; [lia|]. destruct (f x); lia.
Qed.

Lemma countb_app {A} (f : A -> bool) l l' : countb f (l ++ l') = countb f l + countb f l'.
Proof. induction l; cbn [countb app]; lia. Qed.

Lemma countb_perm {A} (f : A -> bool) l l' : l ≡ₚ l' -> countb f l = countb f l'.
Proof. induction 1; cbn [countb] in *; lia. Qed.

Lemma countb_ext {A} (f g : A -> bool) l :
  (forall x, x ∈ l -> f x = g x) -> countb f l = countb g l.
Proof.
  induction l as [|x l IH]; intros H; cbn [countb]; [done|].
  rewrite H by (by left). rewrite IH; [done|]. intros. apply H. by right.
Qed.

Lemma countb_map {A B} (f : B -> bool) (g : A -> B) l : countb f (map g l) = countb (fun x => f (g x)) l.
Proof. induction l; cbn [countb map]; congruence. Qed.

Lemma countb_all {A} (f : A -> bool) l : (forall x, x ∈ l -> f x = true) -> countb f l = zlen l.
Proof.
  induction l as [|x l IH]; intros H; cbn [countb]; [done|].
  rewrite H by (by left). rewrite IH, zlen_cons; [lia|]. intros. apply H. by right.
Qed.

Lemma countb_none {A} (f : A -> bool) l : (forall x, x ∈ l -> f x = false) -> countb f l = 0.
Proof.
  induction l as [|x l IH]; intros H; cbn [countb]; [done|].
  rewrite H by (by left). rewrite IH; [lia|]. intros. apply H. by right.
Qed.

Lemma countb_negb {A} (f : A -> bool) l : countb (fun x => negb (f x)) l = zlen l - countb f l.
Proof.
  unfold zlen. induction l as [|x l IH]; cbn [countb length]; [lia|]. destruct (f x); cbn [negb]; lia.
Qed.

(** ** Ranks in a strict total order *)

Section ranks.
Context {A : Type} (above : A -> A -> bool).

Definition aboveP (x y : A) : Prop := above x y = true.

(** How many elements of [l] rank above [x]. *)
Definition rank (l : list A) (x : A) : Z := countb (fun y => above y x) l.

(** [above] is a strict total order on the elements of [l]. *)
Record order_on (l : list A) : Prop := {
  ord_irrefl : forall x, x ∈ l -> above x x = false;
  ord_asym : forall x y, x ∈ l -> y ∈ l -> above x y = true -> above y x = false;
  ord_trans : forall x y z, x ∈ l -> y ∈ l -> z ∈ l ->
    above x y = true -> above y z = true -> above x z = true;
  ord_total : forall x y, x ∈ l -> y ∈ l -> x <> y -> above x y = true \/ above y x = true
}.

Lemma order_on_incl l l' : (forall x, x ∈ l' -> x ∈ l) -> order_on l -> order_on l'.
Proof. intros Hi [H1 H2 H3 H4]. split; eauto. Qed.

Lemma sorted_insert x l :
  order_on (x :: l) -> x ∉ l -> StronglySorted aboveP l ->
  exists l', l' ≡ₚ x :: l /\ StronglySorted aboveP l'.
Proof.
  intros Ho Hx Hs. exists (filter (fun y => above y x = true) l ++ x ::
                           filter (fun y => ~ above y x = true) l). split.
  { rewrite <- Permutation_middle. constructor. apply filter_app_complement. }
  destruct Ho as [_ _ Htr Htot].
  assert (Hf : forall P `{!forall y, Decision (P y)}, StronglySorted aboveP (filter P l)).
  { intros P HP. clear -Hs. induction Hs as [|y l Hl IH Hall]; [constructor|].
    rewrite filter_cons. case_decide; [|done]. constructor; [done|].
    rewrite Forall_forall in *. intros z [_ Hz]%list_elem_of_filter. auto. }
  assert (Hafter : Forall (fun b => above x b = true) (filter (fun y => ~ above y x = true) l)).
  { apply Forall_forall. intros b [Hb Hin]%list_elem_of_filter.
    destruct (Htot x b) as [?|?]; try done; [by left | by right | congruence]. }
  assert (Hb4 : Forall (fun a => above a x = true /\ a ∈ l) (filter (fun y => above y x = true) l)).
  { apply Forall_forall. by intros a [? ?]%list_elem_of_filter. }
  assert (Hl : StronglySorted aboveP (x :: filter (fun y => ~ above y x = true) l)).
  { constructor; [apply Hf | done]. }
  specialize (Hf (fun y => above y x = true) _).
  revert Hf Hb4. generalize (filter (fun y => above y x = true) l) as l1.
  induction l1 as [|a l1 IH]; intros Hs1 Hb; [done|]. cbn.
  apply StronglySorted_inv in Hs1 as [Hs1 Ha]. apply Forall_cons in Hb as [[Hax Hal] Hb].
  constructor; [by apply IH|]. apply Forall_app. split; [done|]. constructor; [done|].
  rewrite Forall_forall in *. intros b Hin. apply (Htr a x b).
  - by right.
  - by left.
  - right. by apply list_elem_of_filter in Hin as [_ ?].
  - done.
  - by apply Hafter.
Qed.

Lemma sorted_exists l :
  order_on l -> NoDup l -> exists l', l' ≡ₚ l /\ StronglySorted aboveP l'.
Proof.
  induction l as [|x l IH]; intros Ho Hnd; [exists []; by split; [|constructor]|].
  apply NoDup_cons in Hnd as [Hx Hnd].
  destruct IH as (l' & Hp & Hs); [eapply order_on_incl; [|exact Ho]; intros; by right | done |].
  destruct (sorted_insert x l') as (l'' & Hp' & Hs'); try done.
  - eapply order_on_incl; [|exact Ho]. intros y. by rewrite Hp.
  - by rewrite Hp.
  - exists l''. split; [|done]. by rewrite Hp', Hp.
Qed.

(** In a sorted list the rank of an element is its position. *)
Lemma sorted_rank pre x suf :
  order_on (pre ++ x :: suf) -> StronglySorted aboveP (pre ++ x :: suf) ->
  rank (pre ++ x :: suf) x = zlen pre.
Proof.
  intros Ho Hs. unfold rank. rewrite countb_app. cbn [countb].
  assert (Hin : forall y, y ∈ x :: suf -> y ∈ pre ++ x :: suf).
  { intros. apply elem_of_app. by right. }
  rewrite (ord_irrefl _ Ho) by (apply Hin; by left).
  assert (Hpre : forall y, y ∈ pre -> above y x = true).
  { clear -Hs. induction pre as [|z pre IH]; intros y Hy; [by apply not_elem_of_nil in Hy|].
    cbn in Hs. apply StronglySorted_inv in Hs as [Hs Hall]. apply elem_of_cons in Hy as [->|Hy].
    - rewrite Forall_forall in Hall. apply Hall. apply elem_of_app. right. by left.
    - by apply IH. }
  rewrite (countb_all _ pre Hpre). rewrite countb_none; [lia|].
  intros y Hy. apply (ord_asym _ Ho).
  - apply Hin. by left.
  - apply Hin. by right.
  - clear -Hs Hy. induction pre as [|z pre IH]; cbn in Hs; apply StronglySorted_inv in Hs as [Hs Hall].
    + rewrite Forall_forall in Hall. by apply Hall.
    + by apply IH.
Qed.

(** Exactly [min n e] of [n] elements have fewer than [e] above them. *)
Lemma rank_count l e :
  order_on l -> NoDup l -> 0 <= e ->
  countb (fun x => rank l x <? e) l = Z.min (zlen l) e.
Proof.
  intros Ho Hnd He. destruct (sorted_exists l Ho Hnd) as (l' & Hp & Hs).
  assert (Ho' : order_on l') by (eapply order_on_incl; [|exact Ho]; intros x; by rewrite Hp).
  rewrite <- (countb_perm _ _ _ Hp).
  rewrite (countb_ext _ (fun x => rank l' x <? e)) by
    (intros x _; unfold rank; by rewrite (countb_perm _ _ _ Hp)).
  assert (Hz : zlen l = zlen l') by (unfold zlen; by rewrite Hp). rewrite Hz. clear Hz Hp Hnd Ho l.
  assert (Hgen : forall suf pre, l' = pre ++ suf ->
    countb (fun x => rank l' x <? e) suf = Z.max 0 (Z.min (zlen suf) (e - zlen pre))).
  { induction suf as [|x suf IH]; intros pre Heq; cbn [countb].
    { unfold zlen. cbn [length]. lia. }
    rewrite (IH (pre ++ [x])) by (by rewrite <- app_assoc).
    assert (rank l' x = zlen pre) as ->.
    { rewrite Heq. apply sorted_rank; by rewrite <- Heq. }
    unfold zlen. rewrite length_app. cbn [length].
    destruct (Z.ltb_spec (Z.of_nat (length pre)) e); lia. }
  rewrite (Hgen l' []) by done. unfold zlen. cbn [length]. lia.
Qed.
End ranks.

(** ** The ranking is a strict total order *)

Definition scored : Type := ants_ledger_peer_t * Z.
Definition ranked (p q : scored) : bool := ranks_above p.1 p.2 q.1 q.2.

Definition ids (l : list ants_ledger_peer_t) : list bytes := map peer_id l.

Lemma memcmp_compare a b : zlen a = zlen b -> memcmp a b = compare_keys a b.
Proof.
  intros H. unfold compare_keys. rewrite H, Z.ltb_irrefl, zlen_to_nat.
  rewrite !firstn_all2 by (unfold zlen in H; lia). by destruct (Z.eqb_spec (memcmp a b) 0).
Qed.

Lemma NoDup_map_inj {A B} (f : A -> B) l x y :
  NoDup (map f l) -> x ∈ l -> y ∈ l -> f x = f y -> x = y.
Proof.
  induction l as [|z l IH]; intros Hnd Hx Hy He; [by apply not_elem_of_nil in Hx|].
  cbn in Hnd. apply NoDup_cons in Hnd as [Hz Hnd].
  assert (Hin : forall w, w ∈ l -> f w = f z -> False).
  { intros w Hw Hf. apply Hz. rewrite <- Hf. by apply (list_elem_of_fmap_2 f). }
  apply elem_of_cons in Hx as [->|Hx], Hy as [->|Hy]; [done | | | by apply IH];
    exfalso; eauto.
Qed.

Lemma ranked_order (l : list scored) :
  NoDup (map (fun p => peer_id p.1) l) -> Forall (fun p => zlen (peer_id p.1) = 32) l ->
  order_on ranked l.
Proof.
  intros Hnd Hlen. rewrite Forall_forall in Hlen.
  assert (Hr : forall x y, x ∈ l -> y ∈ l ->
    ranked x y = if negb (x.2 =? y.2) then y.2 <? x.2 else compare_keys (peer_id x.1) (peer_id y.1) <? 0).
  { intros x y Hx Hy. unfold ranked, ranks_above.
    rewrite memcmp_compare; [done|]. by rewrite (Hlen x Hx), (Hlen y Hy). }
  split.
  - intros x Hx. rewrite Hr, Z.eqb_refl by done. cbn [negb].
    by rewrite (proj2 (proj1 (compare_keys_trichotomy _ _)) eq_refl).
  - intros x y Hx Hy. rewrite !Hr, (Z.eqb_sym y.2) by done.
    destruct (Z.eqb_spec x.2 y.2); cbn [negb]; intros H; breflect; [|zlia].
    apply compare_keys_trichotomy in H. zlia.
  - intros x y z Hx Hy Hz. rewrite !Hr by done.
    destruct (Z.eqb_spec x.2 y.2), (Z.eqb_spec y.2 z.2), (Z.eqb_spec x.2 z.2); cbn [negb];
      intros; breflect; try zlia. apply Z.ltb_lt. by eapply compare_keys_trans.
  - intros x y Hx Hy Hne. rewrite !Hr, (Z.eqb_sym y.2) by done.
    destruct (Z.eqb_spec x.2 y.2); cbn [negb]; [|zlia].
    destruct (compare_keys_trichotomy (peer_id x.1) (peer_id y.1)) as [H0 H1].
    assert (compare_keys (peer_id x.1) (peer_id y.1) <> 0).
    { rewrite H0. intros He. apply Hne. by apply (NoDup_map_inj (fun p => peer_id p.1) l). }
    destruct (Z.ltb_spec (compare_keys (peer_id x.1) (peer_id y.1)) 0); [by left|right].
    destruct (compare_keys_trichotomy (peer_id y.1) (peer_id x.1)) as [_ Hyx].
    apply Z.ltb_lt, Hyx. lia.
Qed.

(** ** Earned slots *)

Lemma count_above_spec (l : list scored) : forall j i ri si earned a,
  ranked (ri, si) (ri, si) = false ->
  (forall k p, l !! k = Some p -> j + Z.of_nat k = i -> p = (ri, si)) ->
  a < earned ->
  (count_above l j i ri si earned a <? earned) = (a + countb (fun q => ranked q (ri, si)) l <? earned).
Proof.
  induction l as [|[rj sj] l IH]; intros j i ri si earned a Hirr Hself Ha; cbn [count_above countb].
  { by rewrite Z.add_0_r. }
  change (ranks_above rj sj ri si) with (ranked (rj, sj) (ri, si)).
  assert (Hstep : forall a', a' < earned -> (count_above l (j + 1) i ri si earned a' <? earned) =
                   (a' + countb (fun q => ranked q (ri, si)) l <? earned)).
  { intros a' Ha'. apply IH; [done| |done]. intros k p Hk Hi. apply (Hself (S k)); [done | lia]. }
  pose proof (countb_bound (fun q => ranked q (ri, si)) l).
  destruct (Z.eqb_spec j i) as [->|Hne]; cbn [negb andb].
  - specialize (Hself 0%nat (rj, sj) eq_refl ltac:(lia)). injection Hself as -> ->.
    rewrite Hirr. rewrite Hstep by done. f_equal.
  - destruct (ranked (rj, sj) (ri, si)).
    + destruct (Z.leb_spec earned (a + 1)); [zlia|]. rewrite Hstep by lia. f_equal. lia.
    + rewrite Hstep by done. f_equal.
Qed.

(** What the earned loop leaves for a record. *)
Definition earned_record (all : list scored) (earned : Z) (p : scored) : ants_ledger_peer_t :=
  set_choked (negb (rank ranked all p <? earned)) p.1.

Lemma set_choked_twice b b' r : set_choked b (set_choked b' r) = set_choked b r.
Proof. reflexivity. Qed.

Lemma earned_loop_spec (all : list scored) earned :
  (forall p, p ∈ all -> ranked p p = false) -> 0 <= earned ->
  forall l pre, all = pre ++ l ->
  earned_loop all l (zlen pre) earned = map (earned_record all earned) l.
Proof.
  intros Hirr He. induction l as [|[ri si] l IH]; intros pre Heq; cbn [earned_loop map]; [done|].
  f_equal.
  - unfold earned_record. cbn [fst]. assert (Hin : (ri, si) ∈ all).
    { rewrite Heq. apply elem_of_app. right. by left. }
    destruct (Z.eqb_spec earned 0) as [->|].
    { pose proof (countb_bound (fun y => ranked y (ri, si)) all) as Hb. unfold rank. by bdecide. }
    rewrite count_above_spec; [|by apply Hirr| |lia].
    + rewrite Z.add_0_l. fold (rank ranked all (ri, si)). by destruct (rank _ _ _ <? earned).
    + intros k p Hk Hi. unfold zlen in Hi. assert (k = length pre) as -> by lia.
      rewrite Heq, list_lookup_middle in Hk by done. by injection Hk as <-.
  - rewrite <- (IH (pre ++ [(ri, si)])) by (by rewrite <- app_assoc).
    f_equal. rewrite zlen_app. reflexivity.
Qed.

(** ** Optimistic slots *)

Section optimistic.
Context (o k start : Z).
Context (Ho : 1 <= o < 2 ^ 32) (Hk : 0 < k <= INT64_MAX) (Hstart : 0 <= start < k).

(** The distance of logical position [s] from the start of the window. *)
Definition rel (s : Z) : Z := if s <? start then s + k - start else s - start.

Lemma rel_mod s : 0 <= s < k -> size_sub (size_add s k) start mod k = rel s.
Proof.
  intros Hs. rewrite size_add_small, size_sub_small by zlia. unfold rel. bcase.
  - apply Z.mod_small. lia.
  - replace (s + k - start) with (s - start + 1 * k) by lia.
    rewrite Z.mod_add by lia. apply Z.mod_small. lia.
Qed.

(** How many of the positions below [m] the window takes. *)
Definition chosen_below (m : Z) : Z :=
  if m <=? start then Z.max 0 (Z.min m (o - (k - start)))
  else Z.max 0 (Z.min start (o - (k - start))) + Z.min (m - start) o.

Lemma chosen_step m : 0 <= m < k ->
  chosen_below (m + 1) = chosen_below m + (if rel m <? o then 1 else 0).
Proof.
  intros Hm. unfold chosen_below, rel.
  destruct (Z.leb_spec (m + 1) start), (Z.leb_spec m start), (Z.ltb_spec m start); try lia;
    (case_match; breflect; lia).
Qed.

Lemma chosen_0 : chosen_below 0 = 0.
Proof. unfold chosen_below. bdecide. lia. Qed.

Lemma chosen_all : chosen_below k = Z.min k o.
Proof. unfold chosen_below. bdecide. lia. Qed.

Lemma chosen_mono m m' : 0 <= m <= m' -> m' <= k -> chosen_below m <= chosen_below m' <= Z.min k o.
Proof.
  intros Hm Hm'. rewrite <- chosen_all. unfold chosen_below. repeat case_match; breflect; lia.
Qed.

Lemma chosen_stop m s : 0 <= m <= s -> s < k -> o <= chosen_below m -> (rel s <? o) = false.
Proof.
  intros Hm Hs Hstop. pose proof (chosen_step s ltac:(lia)) as Hst.
  destruct (rel s <? o) eqn:E; [|done].
  pose proof (chosen_mono m s ltac:(lia) ltac:(lia)).
  pose proof (chosen_mono (s + 1) k ltac:(lia) ltac:(lia)). lia.
Qed.

(** The walk, without its counter: the choked record at logical position [s]
    is unchoked when it lies in the window. *)
Fixpoint window_walk (l : list ants_ledger_peer_t) (s : Z) : list ants_ledger_peer_t :=
  match l with
  | [] => []
  | r :: l' => if choked r then (if rel s <? o then set_choked false r else r) :: window_walk l' (s + 1)
               else r :: window_walk l' s
  end.

Lemma window_walk_stop l : forall m s,
  0 <= m <= s -> s + countb choked l <= k -> o <= chosen_below m -> window_walk l s = l.
Proof.
  induction l as [|r l IH]; intros m s Hm Hs Hstop; cbn [window_walk countb] in *; [done|].
  pose proof (countb_bound choked l). destruct (choked r).
  - rewrite (chosen_stop m s) by lia. f_equal. apply (IH m); lia.
  - f_equal. apply (IH m); lia.
Qed.

Lemma optimistic_loop_walk l : forall s,
  0 <= s -> s + countb choked l <= k ->
  optimistic_loop l o k start s (chosen_below s) = window_walk l s.
Proof.
  induction l as [|r l IH]; intros s Hs Hl; cbn [optimistic_loop]; [done|].
  pose proof (countb_bound choked l) as Hb.
  destruct (Z.leb_spec o (chosen_below s)) as [Hstop|Hgo].
  { symmetry. apply (window_walk_stop _ s); lia. }
  cbn [window_walk countb] in *. destruct (choked r) eqn:Er; cbn [negb].
  - rewrite rel_mod by lia. rewrite size_add_small by zlia.
    pose proof (chosen_step s ltac:(lia)) as Hst.
    pose proof (chosen_mono 0 s ltac:(lia) ltac:(lia)). rewrite chosen_0 in *.
    destruct (rel s <? o).
    + rewrite u64_small by zlia. rewrite <- Hst, IH by lia. done.
    + rewrite Z.add_0_r in Hst. rewrite <- Hst, IH by lia. done.
  - rewrite IH by lia. done.
Qed.

(** The window takes [chosen_below] of the choked records. *)
Lemma window_walk_count l : forall s,
  0 <= s -> s + countb choked l <= k ->
  countb choked (window_walk l s) =
    countb choked l - (chosen_below (s + countb choked l) - chosen_below s).
Proof.
  induction l as [|r l IH]; intros s Hs Hl; cbn [window_walk countb] in *.
  { rewrite Z.add_0_r. lia. }
  pose proof (countb_bound choked l). destruct (choked r) eqn:Er; cbn [countb].
  - rewrite IH by lia. rewrite chosen_step by lia.
    replace (s + 1 + countb choked l) with (s + (1 + countb choked l)) by lia.
    destruct (rel s <? o); cbn [choked set_choked]; rewrite ?Er; lia.
  - rewrite Er, IH by lia. done.
Qed.

Lemma window_walk_same l : forall s, map (set_choked true) (window_walk l s) = map (set_choked true) l.
Proof.
  induction l as [|r l IH]; intros s; cbn [window_walk map]; [done|].
  destruct (choked r); cbn [map]; rewrite IH; [|done]. by destruct (rel s <? o).
Qed.

Lemma window_walk_unchoked l : forall s i r,
  l !! i = Some r -> choked r = false -> window_walk l s !! i = Some r.
Proof.
  induction l as [|r0 l IH]; intros s [|i] r Hi Hr; try done.
  - injection Hi as ->. cbn [window_walk]. by rewrite Hr.
  - cbn [window_walk]. destruct (choked r0); cbn; by apply IH.
Qed.

(** The choked record at index [i] has as many choked ones before it as its
    logical position. *)
Lemma window_walk_lookup l : forall s i r,
  l !! i = Some r -> choked r = true -> rel (s + countb choked (take i l)) < o ->
  window_walk l s !! i = Some (set_choked false r).
Proof.
  induction l as [|r0 l IH]; intros s [|i] r Hi Hr Hrel; try done.
  - injection Hi as ->. cbn [window_walk take countb] in *. rewrite Hr, Z.add_0_r in *. by bdecide.
  - cbn [window_walk take countb] in *. destruct (choked r0); cbn; apply IH; try done.
    + by replace (s + 1 + countb choked (take i l)) with (s + (1 + countb choked (take i l))) by lia.
Qed.
End optimistic.

Lemma count_choked_spec l : zlen l <= INT64_MAX -> count_choked l = countb choked l.
Proof.
  unfold count_choked. assert (Hg : forall a, 0 <= a -> a + zlen l <= INT64_MAX ->
    foldl (fun n r => if choked r then size_add n 1 else n) a l = a + countb choked l).
  { induction l as [|r l IH]; intros a Ha Hl; cbn [foldl countb]; [lia|].
    rewrite zlen_cons in Hl. pose proof (zlen_nonneg l). destruct (choked r).
    - rewrite size_add_small by zlia. rewrite IH; lia.
    - rewrite IH; lia. }
  intros Hl. rewrite Hg; lia.
Qed.

(** ** The round *)

Definition optimistic_of (slots : Z) : Z := Z.max 1 (slots / 8).
Definition earned_of (slots : Z) : Z := slots - optimistic_of slots.

(** The records of a round: distinct 32-byte peer ids, intact rings. *)
Definition round_ok (records : list ants_ledger_peer_t) : Prop :=
  NoDup (ids records) /\ Forall (fun r => zlen (peer_id r) = 32 /\ ring_ok r) records /\
  zlen records <= INT64_MAX.

Definition score_of (now window : Z) (r : ants_ledger_peer_t) : Z :=
  default 0 (unchoke_score r now window).

Definition scores (now window : Z) (records : list ants_ledger_peer_t) : list scored :=
  map (fun r => (r, score_of now window r)) records.

Lemma generosity_loop_some n : forall k r now window sum,
  0 <= k -> k + Z.of_nat n <= zlen r -> exists v, generosity_loop n k r now window sum = Some v.
Proof.
  induction n as [|n IH]; intros k r now window sum Hk Hn; cbn [generosity_loop]; [eauto|].
  unfold get_at. bdecide. destruct (lookup_lt_is_Some_2 r (Z.to_nat k)) as [s ->]; [zlia|].
  apply IH; lia.
Qed.

Lemma unchoke_score_some r now window :
  ring_ok r -> unchoke_score r now window = Some (score_of now window r).
Proof.
  intros (Hl & _ & Hc & _). unfold score_of.
  enough (exists v, unchoke_score r now window = Some v) as [v ->] by done.
  unfold unchoke_score, ants_ledger_generosity, bind, get, deref.
  destruct (generosity_loop_some (Z.to_nat (recent_count r)) 0 (recent r) now window 0) as [v ->];
    [lia | unfold zlen; rewrite Hl; change cap with 32%nat; lia | eauto].
Qed.

Lemma score_all_some now window records :
  Forall ring_ok records ->
  score_all records now window = Some (map (score_of now window) records).
Proof.
  induction 1 as [|r l Hr _ IH]; cbn [score_all map]; [done|].
  by rewrite unchoke_score_some, IH by done.
Qed.

Lemma zip_scores now window records :
  zip records (map (score_of now window) records) = scores now window records.
Proof. induction records as [|r l IH]; cbn; [done|]. by f_equal. Qed.

(** The records after the earned loop. *)
Definition after_earned (now window slots : Z) (records : list ants_ledger_peer_t)
  : list ants_ledger_peer_t :=
  map (earned_record (scores now window records) (earned_of slots)) (scores now window records).

Definition after_round (now window slots rotation : Z) (records : list ants_ledger_peer_t)
  : list ants_ledger_peer_t :=
  let rs := after_earned now window slots records in
  let k := countb choked rs in
  if k =? 0 then rs else window_walk (optimistic_of slots) k (rotation mod k) rs 0.

Lemma slots_split slots : 0 < slots < 2 ^ 32 ->
  (if slots / 8 =? 0 then 1 else slots / 8) = optimistic_of slots /\
  (if slots <=? optimistic_of slots then 0 else slots - optimistic_of slots) = earned_of slots /\
  1 <= optimistic_of slots < 2 ^ 32 /\ 0 <= earned_of slots.
Proof.
  intros Hs. unfold earned_of, optimistic_of.
  assert (0 <= slots / 8 < slots) by (split; [apply Z.div_pos; lia | apply Z.div_lt; lia]).
  destruct (Z.eqb_spec (slots / 8) 0), (Z.leb_spec slots (Z.max 1 (slots / 8))); split_and!; lia.
Qed.

Lemma scores_order now window records : round_ok records -> order_on ranked (scores now window records).
Proof.
  intros (Hnd & Hall & _). apply ranked_order; unfold scores; rewrite ?map_map; [exact Hnd|].
  apply Forall_map. eapply Forall_impl; [exact Hall|]. by intros r [? _].
Qed.

Lemma after_earned_length now window slots records :
  zlen (after_earned now window slots records) = zlen records.
Proof. unfold after_earned, scores, zlen. by rewrite !length_map. Qed.

Lemma unchoke_round_spec now window slots rotation records scratch :
  round_ok records -> zlen records <= zlen scratch -> 0 < slots < 2 ^ 32 -> 0 <= rotation ->
  exists scratch',
    ants_ledger_unchoke_round now window slots rotation (records, scratch) =
      Ok (after_round now window slots rotation records, scratch') tt.
Proof.
  intros Hok Hscr Hs Hrot. pose proof Hok as (Hnd & Hall & Hn).
  unfold ants_ledger_unchoke_round, after_round. cbn [fst snd].
  destruct (Z.eqb_spec (zlen records) 0) as [Hz|Hz].
  { destruct records; [|rewrite zlen_cons in Hz; pose proof (zlen_nonneg records); lia].
    by exists scratch. }
  replace (zlen scratch <? zlen records) with false by zlia.
  replace (slots =? 0) with false by zlia.
  rewrite score_all_some by (eapply Forall_impl; [exact Hall|]; by intros ? [_ ?]).
  rewrite zip_scores. unfold ANTS_LEDGER_OPTIMISTIC_UNCHOKE_DIVISOR.
  destruct (slots_split slots Hs) as (-> & -> & Ho & He).
  assert (earned_loop (scores now window records) (scores now window records) 0 (earned_of slots) =
          after_earned now window slots records) as ->.
  { apply (earned_loop_spec _ _ (ord_irrefl _ _ (scores_order now window records Hok)) He _ []).
    done. }
  rewrite count_choked_spec by (rewrite after_earned_length; lia).
  pose proof (countb_bound choked (after_earned now window slots records)) as Hb.
  rewrite after_earned_length in Hb.
  replace (optimistic_of slots =? 0) with false by zlia. rewrite orb_false_r.
  destruct (Z.eqb_spec (countb choked (after_earned now window slots records)) 0); [by eexists|].
  eexists. do 2 f_equal.
  set (rs := after_earned now window slots records) in *. set (k := countb choked rs) in *.
  assert (Hst : 0 <= rotation mod k < k) by (apply Z.mod_pos_bound; lia).
  pose proof (optimistic_loop_walk (optimistic_of slots) k (rotation mod k) Ho ltac:(lia) Hst rs 0
    ltac:(lia) ltac:(lia)) as Hw.
  by rewrite chosen_0 in Hw by lia.
Qed.

Lemma after_earned_choked now window slots records :
  round_ok records -> 0 <= earned_of slots ->
  countb choked (after_earned now window slots records) =
    zlen records - Z.min (zlen records) (earned_of slots).
Proof.
  intros Hok He. unfold after_earned. rewrite countb_map.
  rewrite (countb_ext _ (fun p => negb (rank ranked (scores now window records) p <? earned_of slots)))
    by done.
  rewrite countb_negb, rank_count; [| by apply scores_order | | done].
  - unfold scores, zlen. by rewrite length_map.
  - destruct Hok as (Hnd & _). apply (NoDup_fmap_1 (fun p : scored => peer_id p.1)).
    unfold scores. cbn. by rewrite list_fmap_compose || by rewrite map_map.
Qed.

Lemma after_earned_same now window slots records :
  map (set_choked true) (after_earned now window slots records) = map (set_choked true) records.
Proof. unfold after_earned, scores. rewrite !map_map. by apply map_ext. Qed.

(** C24: capacity.  A round over peers with distinct ids changes nothing but
    the choke flags and leaves exactly [min(n_records, slots)] peers
    unchoked: no slot is wasted and none is given twice. *)
Theorem unchoke_round_capacity now window slots rotation records scratch :
  round_ok records -> zlen records <= zlen scratch -> 0 <= slots < 2 ^ 32 -> 0 <= rotation ->
  exists records' scratch',
    ants_ledger_unchoke_round now window slots rotation (records, scratch) =
      Ok (records', scratch') tt /\
    map (set_choked true) records' = map (set_choked true) records /\
    countb (fun r => negb (choked r)) records' = Z.min (zlen records) slots.
Proof.
  intros Hok Hscr Hs Hrot. destruct (Z.eqb_spec slots 0) as [->|Hs0].
  { unfold ants_ledger_unchoke_round. cbn [fst snd]. destruct (Z.eqb_spec (zlen records) 0) as [Hz|Hz].
    - exists records, scratch. split; [done|]. split; [done|].
      pose proof (countb_bound (fun r => negb (choked r)) records). lia.
    - replace (zlen scratch <? zlen records) with false by zlia. cbn [Z.eqb].
      eexists _, _. split; [reflexivity|]. rewrite map_map, countb_map.
      split; [by apply map_ext|]. rewrite countb_none by done. pose proof (zlen_nonneg records). lia. }
  destruct (unchoke_round_spec now window slots rotation records scratch Hok Hscr ltac:(lia) Hrot)
    as (scratch' & ->). eexists _, scratch'. split; [reflexivity|].
  destruct (slots_split slots ltac:(lia)) as (_ & _ & Ho & He).
  pose proof (after_earned_choked now window slots records Hok He) as Hc.
  pose proof (after_earned_same now window slots records) as Hsame.
  pose proof (zlen_nonneg records). unfold after_round.
  assert (earned_of slots + optimistic_of slots = slots) by (unfold earned_of; lia).
  assert (Hlen : forall rs, map (set_choked true) rs = map (set_choked true) records -> zlen rs = zlen records).
  { intros rs Hrs. apply (f_equal length) in Hrs. rewrite !length_map in Hrs. zlia. }
  destruct (Z.eqb_spec (countb choked (after_earned now window slots records)) 0) as [E|E].
  { split; [done|]. rewrite countb_negb, E, (Hlen _ Hsame). lia. }
  set (rs := after_earned now window slots records) in *. set (k := countb choked rs) in *.
  assert (Hst : 0 <= rotation mod k < k).
  { apply Z.mod_pos_bound. pose proof (countb_bound choked rs). lia. }
  assert (Hw : map (set_choked true) (window_walk (optimistic_of slots) k (rotation mod k) rs 0)
               = map (set_choked true) records) by (by rewrite window_walk_same).
  assert (Hkb : 0 < k <= INT64_MAX).
  { pose proof (countb_bound choked rs). destruct Hok as (_ & _ & ?). lia. }
  split; [done|]. rewrite countb_negb, (Hlen _ Hw).
  rewrite window_walk_count by lia. fold k. rewrite Z.add_0_l, chosen_all, chosen_0 by lia. lia.
Qed.

(** Merit.  A peer below which fewer than [earned] other peers rank
    (higher generosity times quality, then smaller peer id) is unchoked by
    the round whatever the rotation. *)
Theorem unchoke_round_merit now window slots rotation records scratch i r :
  round_ok records -> zlen records <= zlen scratch -> 0 < slots < 2 ^ 32 -> 0 <= rotation ->
  records !! i = Some r ->
  rank ranked (scores now window records) (r, score_of now window r) < earned_of slots ->
  exists records' scratch',
    ants_ledger_unchoke_round now window slots rotation (records, scratch) =
      Ok (records', scratch') tt /\
    records' !! i = Some (set_choked false r).
Proof.
  intros Hok Hscr Hs Hrot Hi Hrank.
  destruct (unchoke_round_spec now window slots rotation records scratch Hok Hscr Hs Hrot)
    as (scratch' & ->). eexists _, scratch'. split; [reflexivity|].
  assert (Hr : after_earned now window slots records !! i = Some (set_choked false r)).
  { unfold after_earned, scores. rewrite map_map, list_lookup_fmap, Hi. cbn.
    unfold earned_record. cbn [fst]. fold (scores now window records).
    by replace (rank ranked (scores now window records) (r, score_of now window r) <? earned_of slots)
      with true by zlia. }
  unfold after_round. bcase; [done|]. by apply window_walk_unchoked.
Qed.

(** Optimistic unchoke reaches everyone.  Over any [n_records]
    consecutive values of the rotation counter every peer is unchoked in at
    least one round. *)
Theorem unchoke_round_fair now window slots base records scratch i r :
  round_ok records -> zlen records <= zlen scratch -> 0 < slots < 2 ^ 32 ->
  0 <= base -> base + zlen records <= 2 ^ 64 -> records !! i = Some r ->
  exists rotation records' scratch',
    base <= rotation < base + zlen records /\
    ants_ledger_unchoke_round now window slots rotation (records, scratch) =
      Ok (records', scratch') tt /\
    records' !! i = Some (set_choked false r).
Proof.
  intros Hok Hscr Hs Hbase _ Hi.
  assert (Hr : exists b, after_earned now window slots records !! i = Some (set_choked b r)).
  { unfold after_earned, scores. rewrite map_map, list_lookup_fmap, Hi. by eexists. }
  destruct Hr as [b Hr]. set (rs := after_earned now window slots records) in *.
  pose proof (countb_bound choked rs) as Hk. subst rs. rewrite after_earned_length in Hk.
  set (rs := after_earned now window slots records) in *. set (k := countb choked rs) in *.
  assert (Hn : 0 < zlen records) by (apply lookup_lt_Some in Hi; zlia).
  destruct (slots_split slots Hs) as (_ & _ & Ho & He). destruct b.
  - set (pos := countb choked (take i rs)).
    assert (Hpos : 0 <= pos < k).
    { subst pos k. rewrite <- (take_drop i rs) at 3. rewrite countb_app, (drop_S _ _ _ Hr).
      cbn [countb]. pose proof (countb_bound choked (take i rs)).
      pose proof (countb_bound choked (drop (S i) rs)). cbn. lia. }
    set (rotation := base + (pos - base) mod k).
    pose proof (Z.mod_pos_bound (pos - base) k ltac:(lia)) as Hm.
    assert (Hrot : rotation mod k = pos).
    { subst rotation. rewrite Zplus_mod_idemp_r. replace (base + (pos - base)) with pos by lia.
      by apply Z.mod_small. }
    destruct (unchoke_round_spec now window slots rotation records scratch Hok Hscr Hs)
      as (scratch' & E); [lia|]. eexists rotation, _, scratch'.
    split; [lia|]. split; [exact E|]. unfold after_round. fold rs. fold k.
    replace (k =? 0) with false by zlia. rewrite Hrot.
    change (set_choked false r) with (set_choked false (set_choked true r)).
    apply window_walk_lookup; [done..|]. fold pos. unfold rel. bcase; lia.
  - destruct (unchoke_round_spec now window slots base records scratch Hok Hscr Hs Hbase)
      as (scratch' & E). eexists base, _, scratch'. split; [lia|]. split; [exact E|].
    unfold after_round. bcase; [done|]. by apply window_walk_unchoked.
Qed.

(** A newcomer next to [sample_record]. *)
Definition newcomer : ants_ledger_peer_t :=
  mk_peer (replicate 32 2) 0 0 0 0 10000 true (replicate 32 (mk_sample 0 0)) 0 0.

Lemma demo_round_ok : round_ok [sample_record; newcomer].
Proof.
  split; [|split; [|done]].
  - apply (bool_decide_unpack _). vm_compute. exact I.
  - repeat constructor; cbn; lia.
Qed.

Lemma unchoke_round_capacity_witness :
  exists records' scratch',
    ants_ledger_unchoke_round 1000 100 8 3 ([sample_record; newcomer], [0; 0; 0]) =
      Ok (records', scratch') tt /\
    map (set_choked true) records' = map (set_choked true) [sample_record; newcomer] /\
    countb (fun r => negb (choked r)) records' = Z.min 2 8.
Proof.
  exact (unchoke_round_capacity 1000 100 8 3 [sample_record; newcomer] [0; 0; 0]
    demo_round_ok ltac:(done) ltac:(done) ltac:(done)).
Defined.

Lemma unchoke_round_merit_witness :
  exists records' scratch',
    ants_ledger_unchoke_round 1000 100 2 0 ([sample_record; newcomer], [0; 0]) =
      Ok (records', scratch') tt /\
    records' !! 0%nat = Some (set_choked false sample_record).
Proof.
  apply (unchoke_round_merit 1000 100 2 0 [sample_record; newcomer] [0; 0] 0 sample_record
    demo_round_ok); done.
Defined.

Lemma unchoke_round_fair_witness :
  exists rotation records' scratch',
    7 <= rotation < 7 + 2 /\
    ants_ledger_unchoke_round 1000 100 1 rotation ([sample_record; newcomer], [0; 0]) =
      Ok (records', scratch') tt /\
    records' !! 1%nat = Some (set_choked false newcomer).
Proof.
  apply (unchoke_round_fair 1000 100 1 7 [sample_record; newcomer] [0; 0] 1 newcomer
    demo_round_ok); done.
Defined.
