(* ===== verification/LedgerCodec.v ===== *)
(** * The ledger record on the wire

    [ants_ledger_record_encode] writes the canonical encoding of the map
    documented in ants_ledger.h; [ants_ledger_record_decode] accepts nothing
    else, on any input stays inside it, and rebuilds the same record. *)

From S2P Require Import Prelude Cbor CborSpec CborEnc CborCanon CborContract CborKv CborRecord CborCodec Ledger LedgerThms.
Import Ledger.

(** ** The map of a record *)

Definition sample_cbor (s : ants_ledger_recv_sample_t) : cbor :=
  CArray [CUint (unix_s s); CUint (amount_uncs s)].

Definition record_cbor (rec : ants_ledger_peer_t) : cbor :=
  CMap [(CUint 1, CBytes (peer_id rec)); (CUint 2, CUint (served_to rec));
        (CUint 3, CUint (served_by rec)); (CUint 4, CUint (since_unix_s rec));
        (CUint 5, CUint (last_update_unix_s rec)); (CUint 6, CUint (quality_q14k rec));
        (CUint 7, CBool (choked rec)); (CUint 8, CArray (map sample_cbor (ring rec)))].

(** The field types of the C struct. *)
Definition record_ok (rec : ants_ledger_peer_t) : Prop :=
  bytes_ok (peer_id rec) /\ zlen (peer_id rec) = 32 /\ is_u64 (served_to rec) /\
  is_u64 (served_by rec) /\ is_u64 (since_unix_s rec) /\ is_u64 (last_update_unix_s rec) /\
  is_u16 (quality_q14k rec) /\ ring_ok rec /\ Forall sample_ok (recent rec).

Lemma ring_samples rec : ring_ok rec -> Forall sample_ok (recent rec) -> Forall sample_ok (ring rec).
Proof.
  intros Hr Hs. unfold ring. bcase; [by apply Forall_take|].
  apply Forall_app. split; [by apply Forall_drop | by apply Forall_take].
Qed.

Lemma sample_cbor_wf s : sample_ok s -> wf (sample_cbor s).
Proof.
  intros [? ?]. apply wf_array. split; [done|]. constructor; [done|]. constructor; [done|]. constructor.
Qed.

Lemma record_cbor_wf rec : record_ok rec -> wf (record_cbor rec).
Proof.
  intros (Hb & Hl & Ht & Hby & Hsi & Hlu & Hq & Hr & Hs). apply wf_map.
  split; [done|]. split; [by repeat constructor|].
  assert (wf (CArray (map sample_cbor (ring rec)))).
  { apply wf_array. split.
    - unfold zlen. rewrite length_map. pose proof (ring_length rec Hr).
      destruct Hr as (_ & _ & ? & _). zlia.
    - apply Forall_map. eapply Forall_impl; [by apply ring_samples | apply sample_cbor_wf]. }
  repeat (constructor; [split; [done|]|]); try done; cbn; try zlia. split; [done | zlia].
Qed.

Lemma record_cbor_height rec : (height (record_cbor rec) <= 16)%nat.
Proof.
  assert (height (CArray (map sample_cbor (ring rec))) <= 15)%nat.
  { apply height_array_le, Forall_map, Forall_forall. intros s _. cbn. lia. }
  apply height_map_le.
  repeat (constructor; [cbn [fst snd]; split; (lia || (cbn [height]; lia))|]). constructor.
Qed.

(** ** Encoding *)

(** The index arithmetic of the encoder walks the ring oldest first. *)
Definition oldest_of (rec : ants_ledger_peer_t) : Z :=
  u32 (u32 (recent_head rec + ANTS_LEDGER_RECENT_SAMPLES) - recent_count rec)
    mod ANTS_LEDGER_RECENT_SAMPLES.

Lemma ring_index rec k s :
  ring_ok rec -> ring rec !! k = Some s ->
  get_at (recent rec) (u32 (oldest_of rec + Z.of_nat k) mod ANTS_LEDGER_RECENT_SAMPLES) = Some s.
Proof.
  intros Hok Hk. pose proof (ring_length rec Hok) as Hlen. apply lookup_lt_Some in Hk as Hlt.
  destruct Hok as (Hl & Hh & Hc & Hlt32). change cap with 32%nat in Hl.
  unfold oldest_of, ANTS_LEDGER_RECENT_SAMPLES, u32.
  rewrite (Z.mod_small (recent_head rec + 32)) by lia.
  assert (Hx : 0 <= recent_head rec + 32 - recent_count rec < 2 ^ 32) by lia.
  rewrite (Z.mod_small (recent_head rec + 32 - recent_count rec) (2 ^ 32) Hx). clear Hx.
  unfold ring, zlen in *. destruct (Z.ltb_spec (recent_count rec) 32) as [E|E].
  - rewrite (Hlt32 E) in *.
    replace (recent_count rec + 32 - recent_count rec) with 32 by lia. change (32 mod 32) with 0.
    rewrite length_take in Hlt. rewrite Z.add_0_l, (Z.mod_small _ (2 ^ 32)), Z.mod_small by lia.
    unfold get_at. bdecide. rewrite Nat2Z.id. rewrite lookup_take_lt in Hk; [done | lia].
  - replace (recent_head rec + 32 - recent_count rec) with (recent_head rec) by lia.
    rewrite length_app, length_drop, length_take in Hlt.
    rewrite (Z.mod_small (recent_head rec) 32), (Z.mod_small _ (2 ^ 32)) by lia.
    unfold get_at. pose proof (Z.mod_pos_bound (recent_head rec + Z.of_nat k) 32 ltac:(lia)).
    bdecide. destruct (decide (k < length (drop (Z.to_nat (recent_head rec)) (recent rec)))%nat) as [Hd|Hd].
    + rewrite lookup_app_l in Hk by done. rewrite lookup_drop in Hk.
      rewrite length_drop in Hd. rewrite Z.mod_small by lia. rewrite <- Hk. f_equal. lia.
    + rewrite lookup_app_r, length_drop in Hk by lia. rewrite length_drop in Hd.
      rewrite lookup_take_lt in Hk by lia.
      replace (recent_head rec + Z.of_nat k) with (recent_head rec + Z.of_nat k - 32 + 1 * 32) by lia.
      rewrite Z.mod_add, Z.mod_small by lia. rewrite <- Hk. f_equal. lia.
Qed.

Lemma enc_recent_emit rec : ring_ok rec ->
  forall n k e, (k + n = length (ring rec))%nat ->
  enc_recent n (Z.of_nat k) (oldest_of rec) (recent rec) e =
  seq_actions (map emit (map sample_cbor (drop k (ring rec)))) e.
Proof.
  intros Hok. induction n as [|n IH]; intros k e Hk; cbn [enc_recent].
  { rewrite drop_ge by lia. done. }
  destruct (lookup_lt_is_Some_2 (ring rec) k ltac:(lia)) as [s Hs].
  rewrite (ring_index rec k s Hok Hs), (drop_S _ _ _ Hs). cbn [map seq_actions foldr].
  unfold bind at 1, deref. cbn [sample_cbor emit map seq_actions foldr].
  change (zlen [CUint (unix_s s); CUint (amount_uncs s)]) with 2.
  rewrite bind_assoc. apply bind_ext. intros [] e1. rewrite bind_assoc.
  apply bind_ext. intros [] e2. rewrite bind_assoc. apply bind_ext. intros [] e3.
  rewrite bind_ret_l. replace (Z.of_nat k + 1) with (Z.of_nat (S k)) by lia. apply IH. lia.
Qed.

Lemma record_body_emit rec e :
  ring_ok rec -> record_body rec e = emit (record_cbor rec) e.
Proof.
  intros Hok. unfold record_body, enc_kv_bytes, enc_kv_uint, enc_kv_bool.
  cbn [record_cbor emit map seq_actions foldr].
  pose proof (ring_length rec Hok) as Hlen.
  assert (zlen (map sample_cbor (ring rec)) = recent_count rec) as ->
    by (unfold zlen in *; by rewrite length_map).
  act_eq. fold (oldest_of rec).
  change 0 with (Z.of_nat 0). rewrite (enc_recent_emit rec Hok); [done|]. zlia.
Qed.

Lemma samples_size l : zlen (encodes (map sample_cbor l)) <= 19 * zlen l.
Proof.
  induction l as [|s l IH]; [done|]. cbn [map]. rewrite encodes_cons, zlen_app, zlen_cons.
  cbn [sample_cbor encode map concat]. rewrite !zlen_app.
  pose proof (head_size 0 (unix_s s)). pose proof (head_size 0 (amount_uncs s)).
  change (zlen (encode_head 4 (zlen [CUint (unix_s s); CUint (amount_uncs s)]))) with 1.
  change (zlen (@nil Z)) with 0. lia.
Qed.

(** The buffer size ants_ledger.h promises is enough. *)
Lemma record_size rec : record_ok rec -> zlen (encode (record_cbor rec)) <= ANTS_LEDGER_RECORD_ENCODED_MAX.
Proof.
  intros (_ & Hl & _ & _ & _ & _ & Hq & Hr & _).
  cbn [record_cbor encode map concat]. rewrite !zlen_app, Hl.
  fold (encodes (map sample_cbor (ring rec))).
  assert (Hz : zlen (map sample_cbor (ring rec)) = zlen (ring rec))
    by (unfold zlen; by rewrite length_map).
  assert (Hn : zlen (ring rec) <= 32)
    by (rewrite (ring_length rec Hr); destruct Hr as (_ & _ & ? & _); lia).
  pose proof (samples_size (ring rec)). rewrite Hz in *.
  pose proof (head_size 0 (served_to rec)). pose proof (head_size 0 (served_by rec)).
  pose proof (head_size 0 (since_unix_s rec)).
  pose proof (head_size 0 (last_update_unix_s rec)).
  pose proof (head_size 0 (quality_q14k rec)).
  pose proof (head_size_u8 4 (zlen (ring rec)) ltac:(lia)).
  change (zlen (@nil Z)) with 0. unfold ANTS_LEDGER_RECORD_ENCODED_MAX.
  change (zlen [if choked rec then 245 else 244]) with 1.
  change (zlen (encode_head 2 32)) with 2.
  match goal with |- context [encode_head 5 ?n] => change (zlen (encode_head 5 n)) with 1 end.
  rewrite (head_size_tiny 0 1), (head_size_tiny 0 2), (head_size_tiny 0 3), (head_size_tiny 0 4),
    (head_size_tiny 0 5), (head_size_tiny 0 6), (head_size_tiny 0 7), (head_size_tiny 0 8) by lia.
  lia.
Qed.

(** ** Decoding *)

Lemma codes_decode_sample k : codes decode_error (decode_sample k).
Proof.
  unfold decode_sample. apply codes_bind; [auto with ants|intros two].
  apply codes_if; [auto with ants|]. apply codes_bind; [auto with ants|intros ts].
  apply codes_bind; [auto with ants|intros amt]. intros s. unfold put_recent.
  by destruct (set_at _ _ _).
Qed.

Lemma codes_decode_body : codes decode_error decode_body.
Proof.
  unfold decode_body. repeat first
    [ apply codes_bind; [solve [auto with ants]|intros ?]
    | apply codes_if; [solve [auto with ants]|] ].
  apply codes_bind; [|auto with ants]. apply codes_for. apply codes_decode_sample.
Qed.

(** The shape of the caller's record: its sample array has 32 elements. *)
Definition array_ok (r : ants_ledger_peer_t) : Prop := length (recent r) = 32%nat.

Lemma put_recent_ok d r k s :
  array_ok r -> 0 <= k < 32 ->
  put_recent k s (d, r) =
    Ok (d, set_recent (<[Z.to_nat k := s]> (recent r)) (recent_head r) (recent_count r) r) tt.
Proof.
  intros Hr Hk. unfold put_recent, set_at. cbn [fst snd]. unfold zlen. rewrite Hr.
  by repeat bdecide.
Qed.

Lemma keeps_decode_sample k : 0 <= k < 32 -> keeps array_ok (decode_sample k).
Proof.
  intros Hk. unfold decode_sample.
  apply keeps_bind; [auto with ants|intros two]. apply keeps_if; intros _; [auto with ants|].
  apply keeps_bind; [auto with ants|intros ts]. apply keeps_bind; [auto with ants|intros amt].
  intros buf [d r] Hd Hr. cbn [fst snd] in *. rewrite put_recent_ok by done. cbn. split; [done|].
  unfold array_ok. cbn. by rewrite length_insert.
Qed.

Lemma keeps_decode_body : keeps array_ok decode_body.
Proof.
  unfold decode_body.
  repeat first
    [ apply keeps_bind; [solve [auto with ants | by apply keeps_modify]|intros ?]
    | apply keeps_if; intros ?; [solve [auto with ants]|] ].
  breflect. apply keeps_bind; [|intros _; by apply keeps_modify].
  apply keeps_for; [lia | unfold ANTS_LEDGER_RECENT_SAMPLES in *; lia |].
  intros j Hj. apply keeps_decode_sample. unfold ANTS_LEDGER_RECENT_SAMPLES in *. lia.
Qed.

(** The record with the samples [l] stored from index [i] on. *)
Definition stored (i : nat) (l : list ants_ledger_recv_sample_t) (r : ants_ledger_peer_t)
  : ants_ledger_peer_t :=
  set_recent (take i (recent r) ++ l ++ drop (i + length l) (recent r))
    (recent_head r) (recent_count r) r.

Lemma stored_nil i r : stored i [] r = r.
Proof.
  unfold stored. cbn [app length]. rewrite Nat.add_0_r, take_drop. by destruct r.
Qed.

Lemma stored_cons i s l r : (i < length (recent r))%nat ->
  stored (S i) l (set_recent (<[i := s]> (recent r)) (recent_head r) (recent_count r) r) =
  stored i (s :: l) r.
Proof.
  intros Hi. unfold stored. cbn [recent set_recent recent_head recent_count length].
  rewrite (take_S_r _ _ s) by (by apply list_lookup_insert_eq).
  rewrite take_insert_ge, drop_insert_lt by lia. rewrite <- app_assoc. cbn [app].
  by replace (i + S (length l))%nat with (S i + length l)%nat by lia.
Qed.

Lemma decode_sample_ok d r k s cs :
  array_ok r -> 0 <= k < 32 -> at_ d (sample_cbor s :: cs) ->
  exists d', decode_sample k (d, r) =
    Ok (d', set_recent (<[Z.to_nat k := s]> (recent r)) (recent_head r) (recent_count r) r) tt /\
    at_ d' cs.
Proof.
  intros Hr Hk Hat. unfold decode_sample, sample_cbor in *.
  destruct (at_array _ _ _ Hat) as (d1 & Hd1 & Hat1). cbn [app] in Hat1.
  rewrite (bind_Ok _ _ _ _ _ (on_fst_ok _ _ _ _ _ (map_err_ok _ _ _ _ _ Hd1))).
  replace (negb (zlen [CUint (unix_s s); CUint (amount_uncs s)] =? 2)) with false by done.
  destruct (at_read _ CUint _ _ _ reader_uint Hat1) as (d2 & Hd2 & Hat2).
  rewrite (bind_Ok _ _ _ _ _ (on_fst_ok _ _ _ _ _ (map_err_ok _ _ _ _ _ Hd2))).
  destruct (at_read _ CUint _ _ _ reader_uint Hat2) as (d3 & Hd3 & Hat3).
  rewrite (bind_Ok _ _ _ _ _ (on_fst_ok _ _ _ _ _ (map_err_ok _ _ _ _ _ Hd3))).
  exists d3. split; [|done]. rewrite put_recent_ok by done. by destruct s.
Qed.

Lemma decode_sample_inv d r k st cs :
  array_ok r -> 0 <= k < 32 -> at_ d cs -> decode_sample k (d, r) = Ok st tt ->
  exists s cs', cs = sample_cbor s :: cs' /\ at_ st.1 cs' /\ wf (sample_cbor s) /\
    st.2 = set_recent (<[Z.to_nat k := s]> (recent r)) (recent_head r) (recent_count r) r.
Proof.
  intros Hr Hk Hat H. assert (Hcs : Forall wf cs) by (by destruct Hat as (? & ? & _ & _ & ?)).
  unfold decode_sample in H.
  apply bind_Ok_inv in H as (s1 & two & H1 & H). apply on_fst_inv in H1 as (d1 & -> & H1%map_err_inv).
  destruct (Z.eqb_spec two 2) as [->|]; [|done]. cbn [negb] in H.
  destruct (at_array_inv _ _ _ _ Hat H1) as (l & cs1 & -> & Hl & Hat1).
  apply bind_Ok_inv in H as (s2 & ts & H2 & H). apply on_fst_inv in H2 as (d2 & -> & H2%map_err_inv).
  destruct (at_read_inv _ CUint _ _ _ _ reader_uint Hat1 H2) as (cs2 & E2 & Hat2).
  apply bind_Ok_inv in H as (s3 & amt & H3 & H). apply on_fst_inv in H3 as (d3 & -> & H3%map_err_inv).
  destruct (at_read_inv _ CUint _ _ _ _ reader_uint Hat2 H3) as (cs3 & -> & Hat3).
  rewrite put_recent_ok in H by done. injection H as <-.
  destruct l as [|x [|y [|z l]]]; try (unfold zlen in Hl; cbn in Hl; lia). cbn in E2.
  injection E2 as -> -> ->. exists (mk_sample ts amt), cs3. apply Forall_cons in Hcs as [Hwf _]. done.
Qed.

Lemma decode_samples_ok l : forall f i d r cs,
  array_ok r -> (i + length l <= 32)%nat -> (length l <= f)%nat ->
  at_ d (map sample_cbor l ++ cs) ->
  exists d', for_loop f (Z.of_nat i) (Z.of_nat i + zlen l) decode_sample (d, r) =
    Ok (d', stored i l r) tt /\ at_ d' cs.
Proof.
  induction l as [|s l IH]; intros f i d r cs Hr Hi Hf Hat.
  { exists d. rewrite stored_nil. split; [|done]. change (zlen (@nil ants_ledger_recv_sample_t)) with 0.
    destruct f; cbn [for_loop]; by bdecide. }
  cbn [length map app] in *. destruct f as [|f]; [lia|]. cbn [for_loop]. rewrite zlen_cons.
  pose proof (zlen_nonneg l). bdecide.
  destruct (decode_sample_ok d r (Z.of_nat i) s _ Hr ltac:(lia) Hat) as (d1 & Hd1 & Hat1).
  rewrite (bind_Ok _ _ _ _ _ Hd1), Nat2Z.id.
  destruct (IH f (S i) d1 (set_recent (<[i:=s]> (recent r)) (recent_head r) (recent_count r) r) cs)
    as (d2 & Hd2 & Hat2); [|lia|lia|done|].
  { unfold array_ok. cbn. by rewrite length_insert. }
  exists d2. split; [|done]. rewrite stored_cons in Hd2 by (rewrite Hr; lia). rewrite <- Hd2.
  f_equal; lia.
Qed.

Lemma decode_samples_inv f : forall i n d r st cs,
  array_ok r -> Z.of_nat i <= n <= 32 -> at_ d cs ->
  for_loop f (Z.of_nat i) n decode_sample (d, r) = Ok st tt ->
  exists l cs', cs = map sample_cbor l ++ cs' /\ zlen l = n - Z.of_nat i /\ Forall sample_ok l /\
    at_ st.1 cs' /\ st.2 = stored i l r.
Proof.
  induction f as [|f IH]; intros i n d r st cs Hr Hn Hat H; cbn [for_loop] in H.
  all: destruct (Z.leb_spec n (Z.of_nat i)); [injection H as <-; exists [], cs;
    rewrite stored_nil; split_and!; try done; change (zlen (@nil ants_ledger_recv_sample_t)) with 0; lia|].
  { done. }
  apply bind_Ok_inv in H as ([d1 r1] & [] & H1 & H).
  destruct (decode_sample_inv d r (Z.of_nat i) _ cs Hr ltac:(lia) Hat H1)
    as (s & cs1 & -> & Hat1 & Hwf & Hr1). cbn [fst snd] in *. rewrite Nat2Z.id in Hr1. subst r1.
  replace (Z.of_nat i + 1) with (Z.of_nat (S i)) in H by lia.
  set (r1 := set_recent (<[i:=s]> (recent r)) (recent_head r) (recent_count r) r) in *.
  assert (Hr1 : array_ok r1) by (unfold array_ok; cbn; by rewrite length_insert).
  destruct (IH (S i) n d1 r1 st cs1 Hr1 ltac:(lia) Hat1 H) as (l & cs2 & -> & Hl & Hall & Hat2 & Hst).
  exists (s :: l), cs2. rewrite zlen_cons. split; [done|]. split; [lia|]. split; [|split; [done|]].
  - constructor; [|done]. apply wf_array in Hwf as [_ Hwf].
    apply Forall_cons in Hwf as [? Hwf]. apply Forall_cons in Hwf as [? _]. done.
  - rewrite Hst. apply stored_cons. rewrite Hr. lia.
Qed.

(** What decoding the map of [rec] leaves in the caller's record [old]. *)
Definition decoded (old rec : ants_ledger_peer_t) : ants_ledger_peer_t :=
  mk_peer (peer_id rec) (served_to rec) (served_by rec) (since_unix_s rec)
    (last_update_unix_s rec) (quality_q14k rec) (choked rec)
    (ring rec ++ drop (length (ring rec)) (recent old))
    (if zlen (ring rec) =? 32 then 0 else zlen (ring rec)) (zlen (ring rec)).

Lemma decode_body_ok d old rec :
  array_ok old -> record_ok rec -> at_ d [record_cbor rec] ->
  exists d', decode_body (d, old) = Ok (d', decoded old rec) tt /\ at_ d' [].
Proof.
  intros Hold (_ & Hl & _ & _ & _ & _ & Hq & Hr & _) Hat. unfold decode_body.
  destruct (at_map _ _ _ Hat) as (d1 & Hd1 & Hat1). cbn [flat map concat app fst snd] in Hat1.
  rewrite (bind_Ok _ _ _ _ _ (on_fst_ok _ _ _ _ _ (map_err_ok _ _ _ _ _ Hd1))).
  match goal with |- context [negb (?a =? LEDGER_CBOR_PAIRS)] =>
    replace (negb (a =? LEDGER_CBOR_PAIRS)) with false by done end.
  destruct (at_bytes_field _ _ ANTS_LEDGER_PEER_ID_SIZE _ _ Hat1 Hl) as (d2 & Hd2 & Hat2).
  rewrite (bind_Ok _ _ _ _ _ (on_fst_ok _ _ _ _ _ Hd2)). clear Hd1 Hd2 Hat Hat1.
  do 4 (unfold bind at 1, modify_snd; cbn [fst snd]; read_field at_uint_field Hat2).
  unfold bind at 1, modify_snd; cbn [fst snd]. read_field at_uint_field Hat2.
  replace (UINT16_MAX <? quality_q14k rec) with false by zlia.
  unfold bind at 1, modify_snd; cbn [fst snd]. read_field at_bool_field Hat2.
  unfold bind at 1, modify_snd; cbn [fst snd].
  destruct (at_expect_key _ _ _ Hat2) as (dk & Hdk & Hatk).
  rewrite (bind_Ok _ _ _ _ _ (on_fst_ok _ _ _ _ _ Hdk)).
  destruct (at_array _ _ _ Hatk) as (da & Hda & Hata).
  rewrite (bind_Ok _ _ _ _ _ (on_fst_ok _ _ _ _ _ (map_err_ok _ _ _ _ _ Hda))).
  assert (Hz : zlen (map sample_cbor (ring rec)) = zlen (ring rec)) by (unfold zlen; by rewrite length_map).
  pose proof (ring_length rec Hr) as Hlen. destruct Hr as (_ & _ & Hc & _). rewrite Hz.
  replace (ANTS_LEDGER_RECENT_SAMPLES <? zlen (ring rec)) with false by (unfold ANTS_LEDGER_RECENT_SAMPLES; zlia).
  match goal with |- context [bind (for_loop ?f 0 _ _) _ (_, ?r)] =>
    destruct (decode_samples_ok (ring rec) f 0 da r [] Hold) as (dz & Hdz & Hatz) end.
  - zlia.
  - change (Z.to_nat ANTS_LEDGER_RECENT_SAMPLES) with 32%nat. zlia.
  - done.
  - change (Z.of_nat 0) with 0 in Hdz. rewrite Z.add_0_l in Hdz.
    rewrite (bind_Ok _ _ _ _ _ Hdz). exists dz. split; [|done].
    assert (Hu : u16 (quality_q14k rec) = quality_q14k rec) by (apply Z.mod_small; exact Hq).
    unfold decoded, stored, u32. cbn. rewrite Hu, !Z.mod_small by zlia. done.
Qed.

(** The ring a decoder rebuilds from the samples [ss], over stale ones. *)
Lemma rebuilt_ring r ss stale :
  length stale = 32%nat -> (length ss <= 32)%nat ->
  recent r = ss ++ drop (length ss) stale -> recent_count r = zlen ss ->
  recent_head r = (if zlen ss =? 32 then 0 else zlen ss) ->
  ring_ok r /\ ring r = ss.
Proof.
  intros Hs Hl Hrec Hc Hh. unfold ring_ok, ring. rewrite Hc, Hh, Hrec. unfold zlen in *. split.
  - split; [rewrite length_app, length_drop, Hs; change cap with 32%nat; lia|].
    destruct (Z.eqb_spec (Z.of_nat (length ss)) 32); (split; [lia|]); split; lia.
  - destruct (Z.ltb_spec (Z.of_nat (length ss)) 32).
    + replace (Z.of_nat (length ss) =? 32) with false by zlia.
      rewrite Nat2Z.id. by rewrite take_app_length.
    + replace (Z.of_nat (length ss) =? 32) with true by zlia.
      change (Z.to_nat 0) with 0%nat. rewrite drop_0, app_nil_r.
      rewrite drop_ge, app_nil_r; [done|]. lia.
Qed.

Lemma decoded_facts old rec :
  array_ok old -> Forall sample_ok (recent old) -> record_ok rec ->
  record_ok (decoded old rec) /\ ring (decoded old rec) = ring rec.
Proof.
  intros Hold Hso (Hb & Hl & Ht & Hby & Hsi & Hlu & Hq & Hr & Hs).
  pose proof (ring_length rec Hr) as Hlen. pose proof (ring_samples rec Hr Hs) as Hrs.
  destruct Hr as (_ & _ & Hc & _). unfold zlen in Hlen.
  destruct (rebuilt_ring (decoded old rec) (ring rec) (recent old) Hold) as [Hok Hring];
    try done; [lia|]. split; [|done].
  repeat (split; [done|]). cbn. apply Forall_app. split; [done | by apply Forall_drop].
Qed.

(** A successful run has read the map of the record it leaves. *)
Lemma decode_body_inv d old st items :
  array_ok old -> Forall sample_ok (recent old) -> at_ d items ->
  decode_body (d, old) = Ok st tt ->
  exists cs, items = record_cbor st.2 :: cs /\ record_ok st.2 /\ at_ st.1 cs.
Proof.
  intros Hold Hso Hat H. assert (Hwf : Forall wf items) by (by destruct Hat as (? & ? & _ & _ & ?)).
  unfold decode_body in H. peel_call H n. apply map_err_inv in H1.
  destruct (at_map_inv _ _ _ _ Hat H1) as (l & cs & -> & -> & Hat1). clear H1 Hat.
  destruct (Z.eqb_spec (zlen l) LEDGER_CBOR_PAIRS) as [Hlen|]; [|done]. cbn [negb] in H.
  assert (exists kv1 kv2 kv3 kv4 kv5 kv6 kv7 kv8, l = [kv1; kv2; kv3; kv4; kv5; kv6; kv7; kv8])
    as ([k1 v1] & [k2 v2] & [k3 v3] & [k4 v4] & [k5 v5] & [k6 v6] & [k7 v7] & [k8 v8] & ->).
  { unfold zlen, LEDGER_CBOR_PAIRS in Hlen.
    do 9 (destruct l as [|? l]; [try (cbn in Hlen; lia)|]); [by repeat eexists | cbn in Hlen; lia]. }
  cbn [flat map concat app fst snd] in Hat1. clear Hlen.
  peel_call H pid. destruct (at_bytes_field_inv _ _ _ _ _ _ Hat1 H1) as (c1 & E1 & Hpl & Hat2).
  injection E1 as -> -> <-. clear Hat1 H1. peel_store H.
  peel_field at_uint_field_inv H Hat2 x2. peel_store H.
  peel_field at_uint_field_inv H Hat2 x3. peel_store H.
  peel_field at_uint_field_inv H Hat2 x4. peel_store H.
  peel_field at_uint_field_inv H Hat2 x5. peel_store H.
  peel_field at_uint_field_inv H Hat2 x6.
  destruct (Z.ltb_spec UINT16_MAX x6) as [|Hq]; [done|]. peel_store H.
  peel_field at_bool_field_inv H Hat2 x7. peel_store H.
  peel_call H u. destruct u. destruct (at_expect_key_inv _ _ _ _ Hat2 H1) as (c8 & E8 & Hat8).
  injection E8 as -> <-. clear Hat2 H1. peel_call H n. apply map_err_inv in H1.
  destruct (at_array_inv _ _ _ _ Hat8 H1) as (l & c9 & E9 & -> & Hat9).
  injection E9 as -> <-. clear Hat8 H1.
  destruct (Z.ltb_spec ANTS_LEDGER_RECENT_SAMPLES (zlen l)) as [|Hn]; [done|].
  unfold ANTS_LEDGER_RECENT_SAMPLES in Hn.
  apply bind_Ok_inv in H as ([dz rz] & [] & Hloop & H). change 0 with (Z.of_nat 0) in Hloop at 1.
  match type of Hloop with for_loop _ _ _ _ (?d0, ?r0) = _ =>
    destruct (decode_samples_inv (Z.to_nat ANTS_LEDGER_RECENT_SAMPLES) 0 (zlen l) d0 r0 (dz, rz)
      (l ++ cs) Hold) as (ss & cs' & E & Hz & Hss & Hatz & Hrz);
    [pose proof (zlen_nonneg l); lia | exact Hat9 | exact Hloop |] end.
  change (Z.of_nat 0) with 0 in Hz. rewrite Z.sub_0_r in Hz. rewrite <- Hz in *.
  apply app_inj_1 in E as [-> ->]; [|unfold zlen in Hz; rewrite length_map; lia].
  cbn [fst snd] in *. unfold modify_snd in H. cbn [fst snd] in H. injection H as <-. subst rz.
  cbn [fst snd]. pose proof (zlen_nonneg ss).
  assert (Hu : u32 (zlen ss) = zlen ss) by (apply Z.mod_small; lia). rewrite Hu. clear Hu.
  assert (Hu : u16 x6 = x6).
  { apply Z.mod_small. apply Forall_cons in Hwf as [(_ & _ & Hw)%wf_map _].
    repeat apply Forall_cons in Hw as [[_ ?] Hw]. cbn in *. zlia. }
  rewrite Hu in *. clear Hu.
  match goal with |- context [record_cbor ?r] =>
    destruct (rebuilt_ring r ss (recent old) Hold) as [Hok Hring] end; [zlia | done..|].
  exists cs'. apply Forall_cons in Hwf as [(_ & _ & Hw)%wf_map _].
  do 6 (apply Forall_cons in Hw as [[_ ?] Hw]). cbn [snd wf] in *.
  unfold record_cbor at 1. rewrite Hring. split; [done|]. split; [|done].
  unfold record_ok. cbn. destruct_and?.
  split; [done|]. split; [done|]. do 4 (split; [done|]). split; [zlia|]. split; [done|].
  apply Forall_app. split; [done|]. apply Forall_app. split; [done | by apply Forall_drop].
Qed.

(** Two records with the same content; the ring may be laid out
    differently. *)
Definition same_record (r r' : ants_ledger_peer_t) : Prop :=
  peer_id r' = peer_id r /\ served_to r' = served_to r /\ served_by r' = served_by r /\
  since_unix_s r' = since_unix_s r /\ last_update_unix_s r' = last_update_unix_s r /\
  quality_q14k r' = quality_q14k r /\ choked r' = choked r /\ ring r' = ring r.

(** ** The codec interface *)

#[export] Instance ledger_codec : RecordCodec ants_ledger_peer_t := {
  codec_doc := record_cbor;
  codec_max := ANTS_LEDGER_RECORD_ENCODED_MAX;
  codec_body := record_body;
  codec_read := decode_body;
  codec_ok := record_ok;
  codec_obj r := array_ok r /\ Forall sample_ok (recent r);
  codec_same := same_record;
  codec_from r c := record_ok r /\ c = record_cbor r
}.

#[export] Instance ledger_codec_laws : RecordCodecLaws ants_ledger_peer_t.
Proof.
  split; cbn [codec_doc codec_max codec_body codec_read codec_ok codec_obj codec_same codec_from
    ledger_codec].
  - exact record_cbor_wf.
  - intros r _. apply record_cbor_height.
  - exact record_size.
  - done.
  - intros r e Hok. apply record_body_emit, Hok.
  - exists array_ok. split; [by intros r []|apply keeps_decode_body].
  - apply codes_decode_body.
  - intros d old r [Hold Hso] Hok Hat.
    destruct (decode_body_ok d old r Hold Hok Hat) as (d' & Hrun & Hat').
    destruct (decoded_facts old r Hold Hso Hok) as [Hok' Hring].
    exists d', (decoded old r). split; [done|]. split; [done|]. split; [|done].
    by repeat (split; [done|]).
  - intros d old st items [Hold Hso] Hat Hrun.
    destruct (decode_body_inv d old st items Hold Hso Hat Hrun) as (cs & -> & ? & ?). eauto 10.
Qed.

(** Encoding a record.  For a record with the struct's field types and a
    buffer of ANTS_LEDGER_RECORD_ENCODED_MAX bytes, [ants_ledger_record_encode]
    succeeds and writes exactly the canonical encoding of the documented map,
    with the recent receipts oldest first wherever the ring's head is. *)
Theorem record_encode_canonical rec buf cap_ :
  record_ok rec -> ANTS_LEDGER_RECORD_ENCODED_MAX <= cap_ <= zlen buf -> zlen buf <= INT64_MAX ->
  exists buf' n, ants_ledger_record_encode rec cap_ buf = Ok buf' n /\
    n <= ANTS_LEDGER_RECORD_ENCODED_MAX /\ take (Z.to_nat n) buf' = encode (record_cbor rec).
Proof.
  intros Hok Hc Hb. pose proof (record_size rec Hok).
  destruct (codec_encodes (CL := ledger_codec_laws) rec buf cap_ Hok Hc Hb) as (buf' & He & Hw).
  exists buf', (zlen (encode (record_cbor rec))). by rewrite zlen_to_nat.
Qed.

Lemma sample_record_codable : record_ok sample_record.
Proof.
  pose proof sample_record_ok as [Hr Hs].
  repeat (split; [by repeat constructor|]). done.
Qed.

Lemma record_encode_canonical_witness :
  exists buf' n, ants_ledger_record_encode sample_record 1024 (replicate 1024 0) = Ok buf' n /\
    n <= 1024 /\ take (Z.to_nat n) buf' = encode (record_cbor sample_record).
Proof.
  apply (record_encode_canonical sample_record (replicate 1024 0) 1024 sample_record_codable); done.
Defined.

(** Round trip.  Decoding what [ants_ledger_record_encode] wrote, into
    any record object, succeeds and yields the same record: every field, and
    the same receipts in the same order. *)
Theorem record_roundtrip rec old buf cap_ :
  record_ok rec -> array_ok old -> Forall sample_ok (recent old) ->
  ANTS_LEDGER_RECORD_ENCODED_MAX <= cap_ <= zlen buf -> zlen buf <= INT64_MAX ->
  exists buf' n rec', ants_ledger_record_encode rec cap_ buf = Ok buf' n /\
    ants_ledger_record_decode (Some (take (Z.to_nat n) buf')) n old = Ok rec' tt /\
    same_record rec rec' /\ record_ok rec'.
Proof.
  intros Hrec Hold Hso Hc Hb.
  destruct (codec_encodes (CL := ledger_codec_laws) rec buf cap_ Hrec Hc Hb) as (buf' & He & Hw).
  destruct (codec_decodes (CL := ledger_codec_laws) norm_decode_err norm_decode_err rec old Hrec (conj Hold Hso))
    as (rec' & Hd & Hs & Hok). change (codec_doc rec) with (record_cbor rec) in *.
  exists buf', (zlen (encode (record_cbor rec))), rec'. by rewrite zlen_to_nat, Hw.
Qed.

Lemma record_roundtrip_witness :
  exists buf' n rec', ants_ledger_record_encode sample_record 1024 (replicate 1024 0) = Ok buf' n /\
    ants_ledger_record_decode (Some (take (Z.to_nat n) buf')) n sample_record = Ok rec' tt /\
    same_record sample_record rec' /\ record_ok rec'.
Proof.
  apply (record_roundtrip sample_record sample_record (replicate 1024 0) 1024
    sample_record_codable eq_refl (proj2 sample_record_ok)); done.
Defined.

(** Strict decoding.  On any byte string [ants_ledger_record_decode]
    terminates without leaving the buffer or the record's arrays; when it
    accepts, the bytes are exactly the canonical encoding of the record it
    returns, whose fields have the struct's types; when it refuses, the code
    is NON_CANONICAL or MALFORMED. *)
Theorem record_decode_strict buf old :
  bytes_ok buf -> zlen buf <= INT64_MAX -> array_ok old -> Forall sample_ok (recent old) ->
  match ants_ledger_record_decode (Some buf) (zlen buf) old with
  | Ok rec' _ => record_ok rec' /\ buf = encode (record_cbor rec')
  | Err _ e => e = ANTS_ERROR_NON_CANONICAL \/ e = ANTS_ERROR_MALFORMED
  | UB | NoFuel => False
  end.
Proof.
  intros Hok Hb Hold Hso.
  pose proof (codec_strict (CL := ledger_codec_laws) norm_decode_err norm_decode_err buf old
    norm_decode_error Hok Hb (conj Hold Hso)) as H. cbn [codec_read ledger_codec] in H.
  unfold ants_ledger_record_decode. cbn [is_null].
  destruct (with_decoder _ _ _ _ _ _); try done. by destruct H as (c & [? ->] & ->).
Qed.

Lemma record_decode_strict_witness :
  match ants_ledger_record_decode (Some [0xa8; 0x01; 0x40]) 3 sample_record with
  | Ok rec' _ => record_ok rec' /\ [0xa8; 0x01; 0x40] = encode (record_cbor rec')
  | Err _ e => e = ANTS_ERROR_NON_CANONICAL \/ e = ANTS_ERROR_MALFORMED
  | UB | NoFuel => False
  end.
Proof.
  exact (record_decode_strict [0xa8; 0x01; 0x40] sample_record ltac:(by repeat constructor)
    ltac:(done) eq_refl (proj2 sample_record_ok)).
Defined.
