(* ===== verification/Crypto.v ===== *)
(** * The BLAKE3 wrappers (src/foundation/crypto/src/crypto.c)

    The vendored hasher is an interface: [Blake3] names its operations and
    [Blake3Laws] the documented facts the client relies on (32-byte digests,
    and that feeding chunks is feeding their concatenation). *)

From stdpp Require Import strings.
From S2P Require Import Prelude Cbor.

(** The hasher of deps/blake3. *)
Class Blake3 : Type := {
  blake3_hasher : Type;
  blake3_hasher_init : blake3_hasher;
  blake3_hasher_init_derive_key : string -> blake3_hasher;
  blake3_hasher_update : blake3_hasher -> bytes -> blake3_hasher;
  blake3_hasher_finalize : blake3_hasher -> bytes
}.

Definition ANTS_BLAKE3_HASH_SIZE : Z := 32.

Class Blake3Laws (B : Blake3) : Prop := {
  finalize_size : forall h, zlen (blake3_hasher_finalize h) = ANTS_BLAKE3_HASH_SIZE;
  finalize_bytes : forall h, bytes_ok (blake3_hasher_finalize h);
  update_app : forall h a b,
    blake3_hasher_update (blake3_hasher_update h a) b = blake3_hasher_update h (a ++ b);
  update_nil : forall h, blake3_hasher_update h [] = h
}.

Section blake3.
Context `{B : Blake3}.

Definition ants_blake3_ctx_t : Type := blake3_hasher.

(** The result is the digest written to [out]. *)
Definition ants_blake3_hash (data : option bytes) (len : Z) : outcome unit bytes :=
  if is_null data && (0 <? len) then Err tt ANTS_ERROR_INVALID_ARG
  else
    let h := blake3_hasher_init in
    if 0 <? len then
      match data with
      | None => UB
      | Some b => match slice b 0 len with
                  | None => UB
                  | Some s => Ok tt (blake3_hasher_finalize (blake3_hasher_update h s))
                  end
      end
    else Ok tt (blake3_hasher_finalize h).

Definition ants_blake3_derive_key (context : string) (key_material : option bytes) (len : Z)
  : outcome unit bytes :=
  if is_null key_material && (0 <? len) then Err tt ANTS_ERROR_INVALID_ARG
  else
    let h := blake3_hasher_init_derive_key context in
    if 0 <? len then
      match key_material with
      | None => UB
      | Some b => match slice b 0 len with
                  | None => UB
                  | Some s => Ok tt (blake3_hasher_finalize (blake3_hasher_update h s))
                  end
      end
    else Ok tt (blake3_hasher_finalize h).

(** The incremental interface; the state is the caller's context object. *)
Definition ants_blake3_init : action ants_blake3_ctx_t unit := fun _ => Ok blake3_hasher_init tt.

Definition ants_blake3_init_derive (context : string) : action ants_blake3_ctx_t unit :=
  fun _ => Ok (blake3_hasher_init_derive_key context) tt.

Definition ants_blake3_update (data : option bytes) (len : Z) : action ants_blake3_ctx_t unit :=
  fun ctx =>
  if is_null data && (0 <? len) then Err ctx ANTS_ERROR_INVALID_ARG
  else if 0 <? len then
    match data with
    | None => UB
    | Some b => match slice b 0 len with
                | None => UB
                | Some s => Ok (blake3_hasher_update ctx s) tt
                end
    end
  else Ok ctx tt.

Definition ants_blake3_final : action ants_blake3_ctx_t bytes :=
  fun ctx => Ok ctx (blake3_hasher_finalize ctx).

(** Feeding a whole chunk. *)
Lemma update_chunk `{!Blake3Laws B} ctx b :
  ants_blake3_update (Some b) (zlen b) ctx = Ok (blake3_hasher_update ctx b) tt.
Proof.
  unfold ants_blake3_update. cbn [is_null andb]. destruct (Z.ltb_spec 0 (zlen b)) as [|Hb].
  - by rewrite slice_all.
  - destruct b as [|x b]; [by rewrite update_nil|]. rewrite zlen_cons in Hb.
    pose proof (zlen_nonneg b). lia.
Qed.

Lemma update_sized `{!Blake3Laws B} ctx b n :
  zlen b = n -> ants_blake3_update (Some b) n ctx = Ok (blake3_hasher_update ctx b) tt.
Proof. intros <-. apply update_chunk. Qed.

Lemma derive_key_all `{!Blake3Laws B} context b :
  ants_blake3_derive_key context (Some b) (zlen b) =
    Ok tt (blake3_hasher_finalize (blake3_hasher_update (blake3_hasher_init_derive_key context) b)).
Proof.
  unfold ants_blake3_derive_key. cbn [is_null andb]. destruct (Z.ltb_spec 0 (zlen b)) as [|Hb].
  - by rewrite slice_all.
  - destruct b as [|x b]; [by rewrite update_nil|]. rewrite zlen_cons in Hb.
    pose proof (zlen_nonneg b). lia.
Qed.

End blake3.

(** The Ed25519 verifier of deps/ed25519: signature, message and public key
    to a verdict. *)
Class Ed25519 : Type := {
  crypto_sign_ed25519_verify_detached : bytes -> bytes -> bytes -> bool
}.

Definition ants_ed25519_verify `{Ed : Ed25519} (pub : bytes) (msg : option bytes) (len : Z)
  (sig : bytes) : outcome unit unit :=
  if is_null msg && (0 <? len) then Err tt ANTS_ERROR_INVALID_ARG
  else
    match (if 0 <? len then match msg with Some b => slice b 0 len | None => None end else Some []) with
    | None => UB
    | Some m =>
      if negb (crypto_sign_ed25519_verify_detached sig m pub) then Err tt ANTS_ERROR_MALFORMED
      else Ok tt tt
    end.

Lemma ed25519_verify_all `{Ed : Ed25519} pub b sig :
  ants_ed25519_verify pub (Some b) (zlen b) sig =
    if crypto_sign_ed25519_verify_detached sig b pub then Ok tt tt else Err tt ANTS_ERROR_MALFORMED.
Proof.
  unfold ants_ed25519_verify. cbn [is_null andb].
  destruct (Z.ltb_spec 0 (zlen b)) as [|Hb].
  - rewrite slice_all. by destruct (crypto_sign_ed25519_verify_detached _ _ _).
  - destruct b as [|x b]; [by destruct (crypto_sign_ed25519_verify_detached _ _ _)|].
    rewrite zlen_cons in Hb. pose proof (zlen_nonneg b). lia.
Qed.

(** A stand-in hasher with the laws: the state is the input so far and the
    digest its first 32 bytes, padded.  It shows that the interface can be
    inhabited and is used by the examples. *)
Definition toy_blake3 : Blake3 := {|
  blake3_hasher := bytes;
  blake3_hasher_init := [];
  blake3_hasher_init_derive_key := fun _ => [];
  blake3_hasher_update := fun h b => h ++ b;
  blake3_hasher_finalize := fun h => take 32 (map u8 h ++ replicate 32 0)
|}.

Lemma toy_blake3_laws : Blake3Laws toy_blake3.
Proof.
  split.
  - intros h. change (zlen (take 32 (map u8 h ++ replicate 32 0)) = 32). unfold zlen.
    rewrite length_take, length_app, length_replicate. lia.
  - intros h. change (bytes_ok (take 32 (map u8 h ++ replicate 32 0))).
    apply Forall_take, Forall_app. split.
    + apply Forall_map, Forall_forall. intros. apply u8_range.
    + apply Forall_replicate. done.
  - intros. cbn. by rewrite app_assoc.
  - intros. cbn. by rewrite app_nil_r.
Qed.

(** A stand-in signature scheme: the signature is the key followed by the
    first 32 bytes of the message. *)
Definition toy_ed25519 : Ed25519 := {|
  crypto_sign_ed25519_verify_detached := fun sig m pub =>
    bool_decide (sig = pub ++ take 32 (m ++ replicate 32 0))
|}.

(** The signer of deps/ed25519: a seed to the key pair, and a message with the
    secret key to a signature; [None] is a non-zero return code. *)
Class Ed25519Signing : Type := {
  crypto_sign_ed25519_seed_keypair : bytes -> option (bytes * bytes);
  crypto_sign_ed25519_detached : bytes -> bytes -> option bytes
}.

(** A signature made with a key pair verifies under it. *)
Class SigningLaws (Ed : Ed25519) (Sg : Ed25519Signing) : Prop := {
  signed_verifies : forall seed pk sk m sig,
    crypto_sign_ed25519_seed_keypair seed = Some (pk, sk) ->
    crypto_sign_ed25519_detached m sk = Some sig ->
    crypto_sign_ed25519_verify_detached sig m pk = true
}.

Section signing.
Context `{Sg : Ed25519Signing}.

(** The result is [out_pub]. *)
Definition ants_ed25519_pubkey_from_priv (priv : bytes) : outcome unit bytes :=
  match crypto_sign_ed25519_seed_keypair priv with
  | None => Err tt ANTS_ERROR_MALFORMED
  | Some (pk, _) => Ok tt pk
  end.

(** The result is [out_sig]. *)
Definition ants_ed25519_sign (priv : bytes) (msg : option bytes) (len : Z) : outcome unit bytes :=
  if is_null msg && (0 <? len) then Err tt ANTS_ERROR_INVALID_ARG
  else
    match crypto_sign_ed25519_seed_keypair priv with
    | None => Err tt ANTS_ERROR_MALFORMED
    | Some (_, sk) =>
      match (if 0 <? len then match msg with Some b => slice b 0 len | None => None end else Some []) with
      | None => UB
      | Some m =>
        match crypto_sign_ed25519_detached m sk with
        | None => Err tt ANTS_ERROR_MALFORMED
        | Some sig => Ok tt sig
        end
      end
    end.
End signing.

(** The stand-in signer: both keys are the seed. *)
Definition toy_signing : Ed25519Signing := {|
  crypto_sign_ed25519_seed_keypair := fun seed => Some (seed, seed);
  crypto_sign_ed25519_detached := fun m sk => Some (sk ++ take 32 (m ++ replicate 32 0))
|}.

Lemma toy_signing_laws : SigningLaws toy_ed25519 toy_signing.
Proof. split. cbn. intros seed pk sk m sig [= <- <-] [= <-]. by apply bool_decide_true. Qed.
