(* ===== verification/Bond.v ===== *)
(** * Reputation bonds (src/economy/bond/src/bond.c)

    The fixed-capacity ledger of locked bonds, the bond formulas, the
    admission object's codec, and the tie-break between conflicting
    admissions.  The state of an action is the ledger object. *)

From stdpp Require Import strings.
From S2P Require Import Prelude Cbor CborKv Crypto.

Module Bond.

(** ** Data *)

Definition ANTS_BOND_ACT_ID_SIZE : Z := 32.
Definition ANTS_BOND_PEER_ID_SIZE : Z := 32.
Definition ANTS_BOND_HASH_SIZE : Z := 32.
Definition ANTS_BOND_DISPUTE_WINDOW_S : Z := 604800.
Definition ANTS_BOND_MAX_LOCKED : Z := 32.
Definition ANTS_BOND_ADMISSION_ENCODED_MAX : Z := 160.
Definition BOND_ADMISSION_PAIRS : Z := 5.

Definition ADM_KEY_ACT : Z := 1.
Definition ADM_KEY_PEER : Z := 2.
Definition ADM_KEY_AMOUNT : Z := 3.
Definition ADM_KEY_VID : Z := 4.
Definition ADM_KEY_VIEW : Z := 5.

Record ants_bond_t : Type := mk_bond {
  act_id : bytes;
  amount : Z;
  t_start : Z;
  t_release : Z;
  slash_target : bytes
}.

Record ants_bond_ledger_t : Type := mk_bonds { count : Z; locked : list ants_bond_t }.

(** ** The local bond ledger *)

Definition ants_bond_ledger_init : action ants_bond_ledger_t unit :=
  modify (fun l => mk_bonds 0 (locked l)).

Definition ants_bond_count (l : ants_bond_ledger_t) : Z := count l.

(** The loop of [ants_bond_locked_total]: [n] entries from [i] on. *)
Fixpoint locked_sum (n : nat) (i : Z) (locked : list ants_bond_t) (total : Z) : option Z :=
  match n with
  | O => Some total
  | S n' =>
    match get_at locked i with
    | None => None
    | Some b =>
      if UINT64_MAX - total <? amount b then Some UINT64_MAX
      else locked_sum n' (i + 1) locked (u64 (total + amount b))
    end
  end.

Definition ants_bond_locked_total (l : ants_bond_ledger_t) : option Z :=
  locked_sum (Z.to_nat (count l)) 0 (locked l) 0.

(** The loop of [bond_index]; [-1] when the act is absent. *)
Fixpoint index_loop (n : nat) (i : Z) (locked : list ants_bond_t) (act : bytes) : option Z :=
  match n with
  | O => Some (-1)
  | S n' =>
    match get_at locked i with
    | None => None
    | Some b => if memcmp (act_id b) act =? 0 then Some i else index_loop n' (i + 1) locked act
    end
  end.

Definition bond_index (l : ants_bond_ledger_t) (act : bytes) : option Z :=
  index_loop (Z.to_nat (count l)) 0 (locked l) act.

(** The bond the returned pointer refers to. *)
Definition ants_bond_find (act : bytes) : action ants_bond_ledger_t (option ants_bond_t) :=
  let* l := get in
  let* idx := deref (bond_index l act) in
  if idx <? 0 then ret None
  else let* b := deref (get_at (locked l) idx) in ret (Some b).

Definition ants_bond_bondable_a (total_a : Z) : action ants_bond_ledger_t Z :=
  let* l := get in
  let* lk := deref (ants_bond_locked_total l) in
  ret (if lk <? total_a then total_a - lk else 0).

Definition ants_bond_admit (act : bytes) (amt start : Z) (target : bytes) (total_a : Z)
  : action ants_bond_ledger_t bool :=
  let* l := get in
  let* idx := deref (bond_index l act) in
  if 0 <=? idx then fail ANTS_ERROR_INVALID_ARG
  else if UINT64_MAX - ANTS_BOND_DISPUTE_WINDOW_S <? start then fail ANTS_ERROR_INVALID_ARG
  else if ANTS_BOND_MAX_LOCKED <=? count l then fail ANTS_ERROR_BUFFER_TOO_SMALL
  else
    let* lk := deref (ants_bond_locked_total l) in
    let bondable := if lk <? total_a then total_a - lk else 0 in
    if bondable <? amt then ret false
    else
      let* locked' := deref (set_at (locked l) (count l)
        (mk_bond act amt start (u64 (start + ANTS_BOND_DISPUTE_WINDOW_S)) target)) in
      modify (fun _ => mk_bonds (size_add (count l) 1) locked') ;*
      ret true.

Definition bond_remove_at (idx : Z) : action ants_bond_ledger_t unit :=
  let* l := get in
  let last := size_sub (count l) 1 in
  (if negb (idx =? last) then
     let* b := deref (get_at (locked l) last) in
     let* locked' := deref (set_at (locked l) idx b) in
     modify (fun l => mk_bonds (count l) locked')
   else ret tt) ;*
  modify (fun l => mk_bonds (size_sub (count l) 1) (locked l)).

Definition ants_bond_release (act : bytes) : action ants_bond_ledger_t bool :=
  let* l := get in
  let* idx := deref (bond_index l act) in
  (if 0 <=? idx then bond_remove_at idx else ret tt) ;*
  ret (0 <=? idx).

(** The amount and whether the bond was found. *)
Definition ants_bond_slash (act : bytes) : action ants_bond_ledger_t (Z * bool) :=
  let* l := get in
  let* idx := deref (bond_index l act) in
  if 0 <=? idx then
    let* b := deref (get_at (locked l) idx) in
    bond_remove_at idx ;*
    ret (amount b, true)
  else ret (0, false).

(** ** Bond formulas *)

Definition ants_bond_required_tier3 (query_stakes n : Z) : outcome unit Z :=
  if n =? 0 then Err tt ANTS_ERROR_INVALID_ARG else Ok tt (query_stakes / n).

Definition ants_bond_required_fork_recovery (total_t_at_stake : Z) : outcome unit Z :=
  Ok tt total_t_at_stake.

Definition ants_bond_required_value_scaled (value mult_num mult_den : Z) : outcome unit Z :=
  if mult_den =? 0 then Err tt ANTS_ERROR_INVALID_ARG
  else
    let q := value / mult_den in
    let r := value mod mult_den in
    if negb (mult_num =? 0) && (UINT64_MAX / mult_num <? q) then Err tt ANTS_ERROR_OVERFLOW
    else
      let term1 := u64 (q * mult_num) in
      if negb (mult_num =? 0) && (UINT64_MAX / mult_num <? r) then Err tt ANTS_ERROR_OVERFLOW
      else
        let term2 := u64 (r * mult_num) / mult_den in
        if UINT64_MAX - term2 <? term1 then Err tt ANTS_ERROR_OVERFLOW
        else Ok tt (u64 (term1 + term2)).

(** ** The admission object *)

Record ants_bond_admission_t : Type := mk_admission {
  adm_act_id : bytes;
  adm_peer : bytes;
  adm_amount : Z;
  adm_v_id : bytes;
  adm_l1_view_hash : bytes
}.

Definition write_le64 (v : Z) : bytes :=
  [u8 v; u8 (Z.shiftr v 8); u8 (Z.shiftr v 16); u8 (Z.shiftr v 24);
   u8 (Z.shiftr v 32); u8 (Z.shiftr v 40); u8 (Z.shiftr v 48); u8 (Z.shiftr v 56)].

Definition admission_body (adm : ants_bond_admission_t) : action ants_cbor_enc_t unit :=
  ants_cbor_enc_map BOND_ADMISSION_PAIRS ;*
  enc_kv_bytes ADM_KEY_ACT (adm_act_id adm) ;*
  enc_kv_bytes ADM_KEY_PEER (adm_peer adm) ;*
  enc_kv_uint ADM_KEY_AMOUNT (adm_amount adm) ;*
  enc_kv_bytes ADM_KEY_VID (adm_v_id adm) ;*
  enc_kv_bytes ADM_KEY_VIEW (adm_l1_view_hash adm).

Definition ants_bond_admission_encode (adm : ants_bond_admission_t) (cap : Z) : action bytes Z :=
  with_encoder cap (admission_body adm).

Definition admission_decode_body : action (ants_cbor_dec_t * ants_bond_admission_t) unit :=
  let* n_pairs := on_fst (map_err norm_decode_err ants_cbor_dec_map) in
  if negb (n_pairs =? BOND_ADMISSION_PAIRS) then fail ANTS_ERROR_MALFORMED
  else
    let* a := on_fst (decode_bytes_field ADM_KEY_ACT ANTS_BOND_ACT_ID_SIZE) in
    modify_snd (fun o => mk_admission a (adm_peer o) (adm_amount o) (adm_v_id o) (adm_l1_view_hash o)) ;*
    let* p := on_fst (decode_bytes_field ADM_KEY_PEER ANTS_BOND_PEER_ID_SIZE) in
    modify_snd (fun o => mk_admission (adm_act_id o) p (adm_amount o) (adm_v_id o) (adm_l1_view_hash o)) ;*
    let* m := on_fst (decode_uint_field ADM_KEY_AMOUNT) in
    modify_snd (fun o => mk_admission (adm_act_id o) (adm_peer o) m (adm_v_id o) (adm_l1_view_hash o)) ;*
    let* v := on_fst (decode_bytes_field ADM_KEY_VID ANTS_BOND_PEER_ID_SIZE) in
    modify_snd (fun o => mk_admission (adm_act_id o) (adm_peer o) (adm_amount o) v (adm_l1_view_hash o)) ;*
    let* w := on_fst (decode_bytes_field ADM_KEY_VIEW ANTS_BOND_HASH_SIZE) in
    modify_snd (fun o => mk_admission (adm_act_id o) (adm_peer o) (adm_amount o) (adm_v_id o) w).

Definition ants_bond_admission_decode (buf : option bytes) (len : Z)
  : action ants_bond_admission_t unit :=
  if is_null buf || (len =? 0) then fail ANTS_ERROR_INVALID_ARG
  else with_decoder (fun e => e) norm_decode_err buf len admission_decode_body.

(** ** Tie-break *)

Section tiebreak.
Context `{B : Blake3}.

(** The state is the hasher context on the stack. *)
Definition ants_bond_tiebreak_key (epoch_seed act v_id : bytes) (admission_round : Z)
  : action ants_blake3_ctx_t bytes :=
  ants_blake3_init_derive "ants-v1-bond-tiebreak" ;*
  ants_blake3_update (Some epoch_seed) ANTS_BOND_HASH_SIZE ;*
  ants_blake3_update (Some act) ANTS_BOND_ACT_ID_SIZE ;*
  ants_blake3_update (Some v_id) ANTS_BOND_PEER_ID_SIZE ;*
  (let le := write_le64 admission_round in
   ants_blake3_update (Some le) (zlen le)) ;*
  ants_blake3_final.
End tiebreak.

Definition ants_bond_admission_wins (my_key other_key : option bytes) : bool :=
  match my_key, other_key with
  | Some a, Some b => memcmp a b <? 0
  | _, _ => false
  end.

End Bond.
