(* ===== verification/BondThms.v ===== *)
(** * What the bond ledger promises

    The array of locked bonds implements a finite map from acts to bonds
    ([bond_refines_map]); the locked amounts never exceed the reputation they
    were admitted against; the value-scaled formula is exact when it answers;
    the admission object has one encoding; the tie-break has one winner. *)

From stdpp Require Import gmap strings.
From S2P Require Import Prelude Cbor CborSpec CborEnc CborCanon CborContract CborKv CborRecord Crypto Bond.
Import Bond.

(** ** The abstract ledger *)

Definition bonds (l : ants_bond_ledger_t) : list ants_bond_t :=
  take (Z.to_nat (count l)) (locked l).

Definition book_of (bs : list ants_bond_t) : gmap bytes ants_bond_t :=
  list_to_map (map (fun b => (act_id b, b)) bs).

(** The map from acts to locked bonds the array represents. *)
Definition abs (l : ants_bond_ledger_t) : gmap bytes ants_bond_t := book_of (bonds l).

Definition total_of (bs : list ants_bond_t) : Z := foldr (fun b t => amount b + t) 0 bs.

Definition bond_ok (b : ants_bond_t) : Prop :=
  zlen (act_id b) = 32 /\ is_u64 (amount b) /\
  t_release b = t_start b + ANTS_BOND_DISPUTE_WINDOW_S /\ is_u64 (t_release b).

Definition bonds_ok (l : ants_bond_ledger_t) : Prop :=
  length (locked l) = 32%nat /\ 0 <= count l <= 32 /\ NoDup (map act_id (bonds l)) /\
  Forall bond_ok (bonds l) /\ total_of (bonds l) <= UINT64_MAX.

Inductive bond_op : Type :=
| DoAdmit (act : bytes) (amt start : Z) (target : bytes) (total_a : Z)
| DoRelease (act : bytes)
| DoSlash (act : bytes)
| DoFind (act : bytes)
| DoBondable (total_a : Z)
| DoCount
| DoLockedTotal.

Definition op_ok (op : bond_op) : Prop :=
  match op with
  | DoAdmit act amt start _ total_a => zlen act = 32 /\ is_u64 amt /\ is_u64 start /\ is_u64 total_a
  | DoRelease act | DoSlash act | DoFind act => zlen act = 32
  | DoBondable total_a => is_u64 total_a
  | DoCount | DoLockedTotal => True
  end.

(** What an operation reports. *)
Inductive bond_result : Type :=
| Accepted (b : bool)
| Released (found : bool)
| Slashed (amt : Z) (found : bool)
| Found (b : option ants_bond_t)
| Value (v : Z)
| Refused (e : ants_error_t).

Definition map_total (m : gmap bytes ants_bond_t) : Z :=
  map_fold (fun _ b t => amount b + t) 0 m.

Definition isb {A} (o : option A) : bool := match o with Some _ => true | None => false end.

(** The operations on the map. *)
Definition spec_step (op : bond_op) (m : gmap bytes ants_bond_t)
  : bond_result * gmap bytes ants_bond_t :=
  match op with
  | DoAdmit act amt start target total_a =>
    if isb (m !! act) then (Refused ANTS_ERROR_INVALID_ARG, m)
    else if UINT64_MAX <? start + ANTS_BOND_DISPUTE_WINDOW_S then (Refused ANTS_ERROR_INVALID_ARG, m)
    else if ANTS_BOND_MAX_LOCKED <=? Z.of_nat (size m) then (Refused ANTS_ERROR_BUFFER_TOO_SMALL, m)
    else if Z.max 0 (total_a - map_total m) <? amt then (Accepted false, m)
    else (Accepted true,
          <[act := mk_bond act amt start (start + ANTS_BOND_DISPUTE_WINDOW_S) target]> m)
  | DoRelease act => (Released (isb (m !! act)), delete act m)
  | DoSlash act =>
    match m !! act with
    | Some b => (Slashed (amount b) true, delete act m)
    | None => (Slashed 0 false, m)
    end
  | DoFind act => (Found (m !! act), m)
  | DoBondable total_a => (Value (Z.max 0 (total_a - map_total m)), m)
  | DoCount => (Value (Z.of_nat (size m)), m)
  | DoLockedTotal => (Value (map_total m), m)
  end.

Definition run_bond_op (op : bond_op) (l : ants_bond_ledger_t)
  : option (bond_result * ants_bond_ledger_t) :=
  match op with
  | DoAdmit act amt start target total_a =>
    match ants_bond_admit act amt start target total_a l with
    | Ok l' b => Some (Accepted b, l')
    | Err l' e => Some (Refused e, l')
    | _ => None
    end
  | DoRelease act =>
    match ants_bond_release act l with
    | Ok l' f => Some (Released f, l')
    | Err l' e => Some (Refused e, l')
    | _ => None
    end
  | DoSlash act =>
    match ants_bond_slash act l with
    | Ok l' (a, f) => Some (Slashed a f, l')
    | Err l' e => Some (Refused e, l')
    | _ => None
    end
  | DoFind act =>
    match ants_bond_find act l with
    | Ok l' b => Some (Found b, l')
    | Err l' e => Some (Refused e, l')
    | _ => None
    end
  | DoBondable total_a =>
    match ants_bond_bondable_a total_a l with
    | Ok l' v => Some (Value v, l')
    | Err l' e => Some (Refused e, l')
    | _ => None
    end
  | DoCount => Some (Value (ants_bond_count l), l)
  | DoLockedTotal => (fun v => (Value v, l)) <$> ants_bond_locked_total l
  end.

(** A sequence of calls, on the map and on the array. *)
Fixpoint spec_run (ops : list bond_op) (m : gmap bytes ants_bond_t)
  : list bond_result * gmap bytes ants_bond_t :=
  match ops with
  | [] => ([], m)
  | op :: ops' =>
    let '(r, m') := spec_step op m in
    let '(rs, m'') := spec_run ops' m' in (r :: rs, m'')
  end.

Fixpoint run_bond_ops (ops : list bond_op) (l : ants_bond_ledger_t)
  : option (list bond_result * ants_bond_ledger_t) :=
  match ops with
  | [] => Some ([], l)
  | op :: ops' =>
    match run_bond_op op l with
    | Some (r, l') =>
      match run_bond_ops ops' l' with
      | Some (rs, l'') => Some (r :: rs, l'')
      | None => None
      end
    | None => None
    end
  end.

(** The reputation an admission is checked against. *)
Definition backed_by (A : Z) (op : bond_op) : Prop :=
  match op with DoAdmit _ _ _ _ total_a => total_a <= A | _ => True end.

(** ** Searching the array *)

Lemma bonds_length l : bonds_ok l -> zlen (bonds l) = count l.
Proof. intros (Hl & Hc & _). unfold bonds, zlen. rewrite length_take. lia. Qed.

Lemma index_loop_spec act (lk : list ants_bond_t) n : zlen act = 32 ->
  forall i, (i + n <= length lk)%nat -> Forall bond_ok (take n (drop i lk)) ->
  index_loop n (Z.of_nat i) lk act =
    Some (match list_find (fun b => act_id b = act) (take n (drop i lk)) with
          | Some (k, _) => Z.of_nat (i + k)
          | None => -1
          end).
Proof.
  intros Ha. induction n as [|n IH]; intros i Hi Hok; cbn [index_loop]; [done|].
  destruct (lookup_lt_is_Some_2 lk i ltac:(lia)) as [b Hb]. unfold get_at. bdecide.
  rewrite Nat2Z.id, Hb. rewrite (drop_S _ _ _ Hb) in *. cbn [take list_find] in *.
  apply Forall_cons in Hok as [(Hz & _) Hok].
  rewrite memcmp_eq by congruence. rewrite bool_decide_decide.
  destruct (decide (act_id b = act)); [by rewrite Nat.add_0_r|].
  replace (Z.of_nat i + 1) with (Z.of_nat (S i)) by lia. rewrite IH by (done || lia). f_equal.
  destruct (list_find _ _) as [[k x]|]; cbn; [|done]. f_equal. lia.
Qed.

Lemma bond_index_spec l act :
  bonds_ok l -> zlen act = 32 ->
  bond_index l act = Some (match list_find (fun b => act_id b = act) (bonds l) with
                           | Some (k, _) => Z.of_nat k
                           | None => -1
                           end).
Proof.
  intros (Hl & Hc & _ & Hok & _) Ha. unfold bond_index, bonds in *.
  by rewrite (index_loop_spec act (locked l) _ Ha 0) by (done || lia).
Qed.

Lemma book_lookup bs act :
  NoDup (map act_id bs) ->
  book_of bs !! act = snd <$> list_find (fun b => act_id b = act) bs.
Proof.
  induction bs as [|b bs IH]; intros Hnd; [done|]. cbn [map] in Hnd.
  apply NoDup_cons in Hnd as [Hb Hnd]. cbn [book_of list_find map list_to_map].
  unfold book_of in *. cbn. destruct (decide (act_id b = act)) as [<-|Hne].
  - by rewrite lookup_insert_eq.
  - rewrite lookup_insert_ne, IH by done. by destruct (list_find _ bs) as [[? ?]|].
Qed.

(** ** Totals *)

Lemma total_cons b bs : total_of (b :: bs) = amount b + total_of bs.
Proof. reflexivity. Qed.

Lemma total_nonneg bs : Forall bond_ok bs -> 0 <= total_of bs.
Proof.
  induction 1 as [|b bs (_ & Hb & _) _ IH]; [done|]. rewrite total_cons. zlia.
Qed.

Lemma locked_sum_spec (lk : list ants_bond_t) n : forall i acc,
  (i + n <= length lk)%nat -> Forall bond_ok (take n (drop i lk)) -> 0 <= acc ->
  acc + total_of (take n (drop i lk)) <= UINT64_MAX ->
  locked_sum n (Z.of_nat i) lk acc = Some (acc + total_of (take n (drop i lk))).
Proof.
  induction n as [|n IH]; intros i acc Hi Hok Hacc Ht; cbn [locked_sum].
  { change (total_of (take 0 (drop i lk))) with 0. by rewrite Z.add_0_r. }
  destruct (lookup_lt_is_Some_2 lk i ltac:(lia)) as [b Hb]. unfold get_at. bdecide.
  rewrite Nat2Z.id, Hb. rewrite (drop_S _ _ _ Hb) in *. cbn [take] in *.
  apply Forall_cons in Hok as [(_ & Ha & _) Hok].
  pose proof (total_nonneg _ Hok). rewrite total_cons in *. bdecide. rewrite u64_small by zlia. replace (Z.of_nat i + 1) with (Z.of_nat (S i)) by lia.
  rewrite IH by (done || zlia). f_equal. lia.
Qed.

Lemma locked_total_spec l :
  bonds_ok l -> ants_bond_locked_total l = Some (total_of (bonds l)).
Proof.
  intros (Hl & Hc & _ & Hok & Ht). unfold ants_bond_locked_total.
  pose proof (locked_sum_spec (locked l) (Z.to_nat (count l)) 0 0) as H.
  cbn [drop] in H. fold (bonds l) in H. rewrite Z.add_0_l in H. apply H; done || lia.
Qed.

#[export] Instance total_of_perm : Proper ((≡ₚ) ==> eq) total_of.
Proof. intros bs bs'. induction 1; rewrite ?total_cons in *; lia. Qed.

#[export] Instance zlen_perm {A} : Proper ((≡ₚ) ==> eq) (@zlen A).
Proof. intros l l' H. unfold zlen. by rewrite H. Qed.

Lemma map_total_book bs : NoDup (map act_id bs) -> map_total (book_of bs) = total_of bs.
Proof.
  unfold map_total. induction bs as [|b bs IH]; intros Hnd; [apply map_fold_empty|].
  cbn [map] in Hnd. apply NoDup_cons in Hnd as [Hb Hnd].
  change (book_of (b :: bs)) with (<[act_id b := b]> (book_of bs)).
  rewrite map_fold_insert_L; [|lia|].
  - rewrite IH by done. done.
  - rewrite book_lookup by done. apply fmap_None, list_find_None, Forall_forall.
    intros x Hx He. apply Hb. rewrite <- He. by apply (list_elem_of_fmap_2 act_id).
Qed.

Lemma size_book bs : NoDup (map act_id bs) -> size (book_of bs) = length bs.
Proof.
  induction bs as [|b bs IH]; intros Hnd; [apply map_size_empty|].
  cbn [map] in Hnd. apply NoDup_cons in Hnd as [Hb Hnd].
  change (book_of (b :: bs)) with (<[act_id b := b]> (book_of bs)).
  rewrite map_size_insert_None, IH by
    (try done; rewrite book_lookup by done; apply fmap_None, list_find_None, Forall_forall;
     intros x Hx He; apply Hb; rewrite <- He; by apply (list_elem_of_fmap_2 act_id)).
  done.
Qed.

Lemma book_perm bs bs' : NoDup (map act_id bs) -> bs ≡ₚ bs' -> book_of bs = book_of bs'.
Proof.
  intros Hnd Hp. unfold book_of. apply list_to_map_proper.
  - rewrite map_map. exact Hnd.
  - by apply Permutation_map.
Qed.

(** ** Removing by moving the last entry down *)

Lemma insert_perm {A} (xs : list A) k x y :
  xs !! k = Some x -> x :: <[k := y]> xs ≡ₚ xs ++ [y].
Proof.
  intros Hk. pose proof (lookup_lt_Some _ _ _ Hk).
  rewrite insert_take_drop by done. rewrite <- (take_drop_middle _ _ _ Hk) at 3.
  solve_Permutation.
Qed.

Lemma remove_at_spec l k b :
  bonds_ok l -> bonds l !! k = Some b ->
  exists l', bond_remove_at (Z.of_nat k) l = Ok l' tt /\
    count l' = count l - 1 /\ length (locked l') = 32%nat /\ b :: bonds l' ≡ₚ bonds l.
Proof.
  intros (Hl & Hc & _) Hk. pose proof (lookup_lt_Some _ _ _ Hk) as Hlt.
  unfold bonds in Hk, Hlt. rewrite length_take in Hlt.
  rewrite lookup_take_lt in Hk by lia.
  destruct (lookup_lt_is_Some_2 (locked l) (Z.to_nat (count l - 1)) ltac:(lia)) as [x Hx].
  unfold bond_remove_at, bind, get. cbn beta zeta iota. rewrite size_sub_small by zlia.
  assert (Hsplit : bonds l = take (Z.to_nat (count l - 1)) (locked l) ++ [x]).
  { unfold bonds. rewrite <- (take_S_r _ _ _ Hx). f_equal. lia. }
  destruct (Z.eqb_spec (Z.of_nat k) (count l - 1)) as [He|Hne]; cbn [negb].
  - unfold ret, modify. eexists. split; [done|]. cbn [count locked].
    rewrite size_sub_small by zlia. split_and!; [done..|]. rewrite Hsplit.
    unfold bonds. cbn [count locked]. replace x with b; [solve_Permutation|].
    rewrite <- He, Nat2Z.id in Hx. congruence.
  - unfold get_at, set_at, deref. repeat bdecide. cbn [andb]. rewrite Hx, Nat2Z.id.
    unfold modify. cbn [count locked]. eexists. split; [done|]. cbn [count locked].
    rewrite size_sub_small by zlia. split_and!; [done|by rewrite length_insert|].
    rewrite Hsplit. unfold bonds. cbn [count locked].
    rewrite take_insert_lt by lia. apply insert_perm. rewrite lookup_take_lt by lia. done.
Qed.

Lemma book_delete bs bs' b :
  NoDup (map act_id bs) -> b :: bs' ≡ₚ bs -> book_of bs' = delete (act_id b) (book_of bs).
Proof.
  intros Hnd Hp. rewrite (book_perm _ _ Hnd (symmetry Hp)).
  rewrite <- Hp in Hnd. cbn [map] in Hnd. apply NoDup_cons in Hnd as [Hb Hnd].
  change (book_of (b :: bs')) with (<[act_id b := b]> (book_of bs')).
  rewrite delete_insert_id; [done|]. apply not_elem_of_list_to_map. by rewrite map_map.
Qed.

(** The array without one of its bonds is still well formed. *)
Lemma bonds_ok_remove l l' b :
  bonds_ok l -> count l' = count l - 1 -> length (locked l') = 32%nat ->
  b :: bonds l' ≡ₚ bonds l -> bonds_ok l'.
Proof.
  intros Hok Hc Hl Hp. pose proof (bonds_length l Hok) as Hlen.
  destruct Hok as (_ & Hc0 & Hnd & Hf & Ht). rewrite <- Hp in Hnd, Hf.
  apply Forall_cons in Hf as [Hb Hf]. cbn [map] in Hnd. apply NoDup_cons in Hnd as [_ Hnd].
  rewrite <- Hp, total_cons in Ht. destruct Hb as (_ & Ha & _).
  rewrite <- Hp in Hlen. rewrite zlen_cons in Hlen. pose proof (zlen_nonneg (bonds l')).
  split_and!; try done; zlia.
Qed.

Lemma find_bond l act k b :
  list_find (fun b => act_id b = act) (bonds l) = Some (k, b) ->
  bonds l !! k = Some b /\ act_id b = act.
Proof. intros H. apply list_find_Some in H as (? & ? & _). done. Qed.

(** Removal of the bond an act names. *)
Lemma remove_found l act k b :
  bonds_ok l -> list_find (fun b => act_id b = act) (bonds l) = Some (k, b) ->
  exists l', bond_remove_at (Z.of_nat k) l = Ok l' tt /\ bonds_ok l' /\
    abs l' = delete act (abs l) /\ total_of (bonds l') = total_of (bonds l) - amount b.
Proof.
  intros Hok Hf. apply find_bond in Hf as [Hk <-].
  destruct (remove_at_spec l k b Hok Hk) as (l' & He & Hc & Hl & Hp).
  exists l'. split; [done|]. split; [by eapply bonds_ok_remove|]. split.
  - apply book_delete; [apply Hok|done].
  - rewrite <- Hp, total_cons. lia.
Qed.

Lemma lookup_abs l act :
  bonds_ok l -> abs l !! act = snd <$> list_find (fun b => act_id b = act) (bonds l).
Proof. intros Hok. apply book_lookup, Hok. Qed.

(** Adding a bond at the end. *)
Lemma admit_new l act amt start target :
  bonds_ok l -> zlen act = 32 -> is_u64 amt ->
  start + ANTS_BOND_DISPUTE_WINDOW_S <= UINT64_MAX -> 0 <= start ->
  abs l !! act = None -> count l < 32 -> total_of (bonds l) + amt <= UINT64_MAX ->
  let b := mk_bond act amt start (start + ANTS_BOND_DISPUTE_WINDOW_S) target in
  let l' := mk_bonds (count l + 1) (<[Z.to_nat (count l) := b]> (locked l)) in
  bonds_ok l' /\ bonds l' = bonds l ++ [b] /\ abs l' = <[act := b]> (abs l).
Proof.
  intros Hok Ha Hamt Hs Hs0 Hnone Hlt Ht b l'.
  assert (Hb : bonds l' = bonds l ++ [b]).
  { destruct Hok as (Hl & Hc & _). unfold bonds, l'. cbn [count locked].
    replace (Z.to_nat (count l + 1)) with (S (Z.to_nat (count l))) by lia.
    rewrite (take_S_r _ _ b) by (apply list_lookup_insert_eq; lia).
    by rewrite take_insert_ge by lia. }
  assert (Hp : b :: bonds l ≡ₚ bonds l') by (rewrite Hb; solve_Permutation).
  destruct Hok as (Hl & Hc & Hnd & Hf & Ht0).
  assert (Hnd' : NoDup (map act_id (b :: bonds l))).
  { cbn [map]. apply NoDup_cons. split; [|done]. change (act_id b) with act.
    apply not_elem_of_list_to_map in Hnone. by rewrite map_map in Hnone. }
  split; [|split; [done|]].
  - repeat split; [by cbn; rewrite length_insert|cbn; lia|cbn; lia|by rewrite <- Hp| |].
    + rewrite <- Hp. apply Forall_cons. split; [|done]. unfold bond_ok, b. cbn [act_id amount t_release t_start].
      split_and!; try done; unfold ANTS_BOND_DISPUTE_WINDOW_S in *; zlia.
    + rewrite <- Hp, total_cons. cbn [amount b]. lia.
  - unfold abs. by rewrite <- (book_perm _ _ Hnd' Hp).
Qed.

(** ** One call *)

Lemma map_total_abs l : bonds_ok l -> map_total (abs l) = total_of (bonds l).
Proof. intros (_ & _ & Hnd & _). by apply map_total_book. Qed.

Lemma size_abs l : bonds_ok l -> Z.of_nat (size (abs l)) = count l.
Proof.
  intros Hok. rewrite <- (bonds_length l Hok). unfold abs, zlen.
  rewrite size_book; [done|apply Hok].
Qed.

(** A branch that leaves the ledger as it is. *)
Ltac same_state := do 2 eexists; split; [reflexivity|split; [assumption|reflexivity]].

Lemma admit_refines l act amt start target total_a :
  bonds_ok l -> zlen act = 32 -> is_u64 amt -> is_u64 start -> is_u64 total_a ->
  exists r l', run_bond_op (DoAdmit act amt start target total_a) l = Some (r, l') /\
    bonds_ok l' /\ spec_step (DoAdmit act amt start target total_a) (abs l) = (r, abs l').
Proof.
  intros Hok Ha Hamt Hs Hta. cbn [run_bond_op spec_step].
  unfold ants_bond_admit, bind, get, deref. rewrite (bond_index_spec l act Hok Ha).
  rewrite size_abs, map_total_abs, lookup_abs, (locked_total_spec l Hok) by done.
  destruct (list_find _ _) as [[k b]|] eqn:Hf; cbn [isb fmap option_fmap option_map snd];
    repeat bdecide; [by same_state|].
  replace (UINT64_MAX - ANTS_BOND_DISPUTE_WINDOW_S <? start)
    with (UINT64_MAX <? start + ANTS_BOND_DISPUTE_WINDOW_S) by zlia.
  replace (if total_of (bonds l) <? total_a then total_a - total_of (bonds l) else 0)
    with (Z.max 0 (total_a - total_of (bonds l))) by (bcase; lia).
  repeat bcase; [same_state..|].
  pose proof Hok as (Hl & Hc & _ & Hf' & Ht). pose proof (total_nonneg _ Hf').
  unfold ANTS_BOND_MAX_LOCKED in *. unfold set_at. rewrite (proj2 (Z.leb_le 0 _)) by lia.
  rewrite (proj2 (Z.ltb_lt _ (zlen _))) by zlia. cbn [andb]. unfold modify, ret.
  rewrite size_add_small, u64_small by (unfold ANTS_BOND_DISPUTE_WINDOW_S in *; zlia). do 2 eexists. split; [done|].
  destruct (admit_new l act amt start target) as (Hok' & _ & Habs); try done; try zlia.
  { by rewrite lookup_abs, Hf. }
  split; [done|]. by rewrite Habs.
Qed.

Lemma step_refines l op :
  bonds_ok l -> op_ok op ->
  exists r l', run_bond_op op l = Some (r, l') /\ bonds_ok l' /\
    spec_step op (abs l) = (r, abs l').
Proof.
  intros Hok Hop. destruct op as [act amt start target total_a|act|act|act|total_a| |];
    cbn [op_ok] in Hop.
  - destruct Hop as (? & ? & ? & ?). by apply admit_refines.
  - cbn [run_bond_op spec_step]. unfold ants_bond_release, bind, get, deref.
    rewrite (bond_index_spec l act Hok Hop), lookup_abs by done.
    destruct (list_find _ _) as [[k b]|] eqn:Hf; repeat bdecide.
    + destruct (remove_found l act k b Hok Hf) as (l' & -> & Hok' & <- & _).
      unfold ret. cbn. eauto.
    + rewrite delete_id by (by rewrite lookup_abs, Hf). same_state.
  - cbn [run_bond_op spec_step]. unfold ants_bond_slash, bind, get, deref.
    rewrite (bond_index_spec l act Hok Hop), lookup_abs by done.
    destruct (list_find _ _) as [[k b]|] eqn:Hf; repeat bdecide; [|same_state].
    destruct (remove_found l act k b Hok Hf) as (l' & Hr & Hok' & <- & _).
    apply find_bond in Hf as [Hk _]. apply lookup_take_Some in Hk as [Hk _].
    unfold get_at. bdecide. rewrite Nat2Z.id, Hk, Hr. cbn. eauto.
  - cbn [run_bond_op spec_step]. unfold ants_bond_find, bind, get, deref.
    rewrite (bond_index_spec l act Hok Hop), lookup_abs by done.
    destruct (list_find _ _) as [[k b]|] eqn:Hf; repeat bdecide; [|same_state].
    apply find_bond in Hf as [Hk _]. apply lookup_take_Some in Hk as [Hk _].
    unfold get_at. bdecide. rewrite Nat2Z.id, Hk. same_state.
  - cbn [run_bond_op spec_step]. unfold ants_bond_bondable_a, bind, get, deref.
    rewrite (locked_total_spec l Hok), map_total_abs by done. do 2 eexists.
    split; [reflexivity|]. split; [done|]. do 2 f_equal. bcase; lia.
  - cbn [run_bond_op spec_step]. rewrite size_abs by done. same_state.
  - cbn [run_bond_op spec_step]. rewrite (locked_total_spec l Hok), map_total_abs by done.
    same_state.
Qed.

(** ** Sequences of calls *)

Lemma run_refines ops : forall l,
  bonds_ok l -> Forall op_ok ops ->
  exists rs l', run_bond_ops ops l = Some (rs, l') /\ bonds_ok l' /\
    spec_run ops (abs l) = (rs, abs l').
Proof.
  induction ops as [|op ops IH]; intros l Hok Hops; cbn [run_bond_ops spec_run]; [same_state|].
  apply Forall_cons in Hops as [Hop Hops].
  destruct (step_refines l op Hok Hop) as (r & l1 & -> & Hok1 & ->).
  destruct (IH l1 Hok1 Hops) as (rs & l2 & -> & Hok2 & ->). eauto.
Qed.

Lemma init_ok l0 :
  length (locked l0) = 32%nat ->
  ants_bond_ledger_init l0 = Ok (mk_bonds 0 (locked l0)) tt /\
  bonds_ok (mk_bonds 0 (locked l0)) /\ abs (mk_bonds 0 (locked l0)) = ∅.
Proof.
  intros Hl. split; [done|]. split; [|done]. unfold bonds_ok. cbn.
  split_and!; try lia; [constructor|constructor|done].
Qed.

Lemma spec_step_solvent A op m :
  backed_by A op -> op_ok op -> (forall k b, m !! k = Some b -> 0 <= amount b) ->
  map_total m <= A ->
  map_total (spec_step op m).2 <= A /\
  (forall k b, (spec_step op m).2 !! k = Some b -> 0 <= amount b).
Proof.
  intros Hb Hop Hpos Ht.
  assert (Hdel : forall k, map_total (delete k m) <= A /\
            (forall k' b, delete k m !! k' = Some b -> 0 <= amount b)).
  { intros k. split; [|intros k' b [_ Hk]%lookup_delete_Some; eauto].
    destruct (m !! k) as [b|] eqn:Hk; [|by rewrite delete_id].
    unfold map_total in *. rewrite (map_fold_delete_L _ _ k b m) in Ht by (lia || done).
    specialize (Hpos k b Hk). lia. }
  destruct op as [act amt start target total_a|act|act|act|total_a| |]; cbn [spec_step];
    [|by apply Hdel|destruct (m !! act); [by apply Hdel|done]|done..].
  cbn in Hb, Hop. destruct (m !! act) eqn:Hm; cbn [isb]; [done|].
  repeat bcase; try done. cbn [snd]. split.
  - unfold map_total in *. rewrite map_fold_insert_L by (lia || done). cbn [amount]. lia.
  - intros k b [[_ <-]|[_ ?]]%lookup_insert_Some; [cbn; zlia|eauto].
Qed.

Lemma spec_run_solvent A ops : forall m,
  Forall (backed_by A) ops -> Forall op_ok ops ->
  (forall k b, m !! k = Some b -> 0 <= amount b) -> map_total m <= A ->
  map_total (spec_run ops m).2 <= A.
Proof.
  induction ops as [|op ops IH]; intros m Hb Hok Hpos Ht; [done|].
  apply Forall_cons in Hb as [Hb Hbs]. apply Forall_cons in Hok as [Hok Hoks].
  destruct (spec_step_solvent A op m Hb Hok Hpos Ht) as [Ht' Hpos']. cbn [spec_run].
  destruct (spec_step op m) as [r m']. cbn [snd] in *.
  specialize (IH m' Hbs Hoks Hpos' Ht'). by destruct (spec_run ops m').
Qed.

Definition bond_act (n : Z) : bytes := n :: replicate 31 0.

Definition demo_ops : list bond_op :=
  [DoAdmit (bond_act 1) 60 1000 (bond_act 9) 100; DoAdmit (bond_act 2) 50 1000 (bond_act 9) 100;
   DoAdmit (bond_act 2) 40 1000 (bond_act 9) 100; DoSlash (bond_act 1); DoBondable 100;
   DoRelease (bond_act 1); DoCount].

Definition demo_bonds : ants_bond_ledger_t :=
  mk_bonds 7 (replicate 32 (mk_bond [] 0 0 0 [])).

Lemma demo_ops_ok : Forall op_ok demo_ops.
Proof. repeat constructor; cbn; lia. Qed.

(** C22: the bond array, used through any sequence of calls after
    [ants_bond_ledger_init], behaves as a finite map from acts to bonds: an
    admission is refused when the act is already bonded, when its dispute
    window would pass the end of time, or when 32 bonds are locked; it is
    declined when the amount exceeds what the other bonds leave of [total_a];
    otherwise it adds exactly that bond.  Release and slash remove exactly the
    named bond and report whether (and with which amount) it was locked. *)
Theorem bond_refines_map l0 ops :
  length (locked l0) = 32%nat -> Forall op_ok ops ->
  exists l1 rs l2, ants_bond_ledger_init l0 = Ok l1 tt /\
    run_bond_ops ops l1 = Some (rs, l2) /\ bonds_ok l2 /\ spec_run ops ∅ = (rs, abs l2).
Proof.
  intros Hl Hops. destruct (init_ok l0 Hl) as (Hi & Hok & He).
  destruct (run_refines ops _ Hok Hops) as (rs & l2 & ? & ? & ?). rewrite He in *. eauto 10.
Qed.

Lemma bond_refines_map_witness :
  exists l1 rs l2, ants_bond_ledger_init demo_bonds = Ok l1 tt /\
    run_bond_ops demo_ops l1 = Some (rs, l2) /\ bonds_ok l2 /\
    spec_run demo_ops ∅ = (rs, abs l2).
Proof. exact (bond_refines_map demo_bonds demo_ops eq_refl demo_ops_ok). Defined.

(** As long as every admission was checked against a reputation of at
    most [A], the locked total never exceeds [A], whatever is admitted,
    released and slashed in between, and [ants_bond_locked_total] reports the
    sum of the locked amounts exactly (it never saturates). *)
Theorem locked_total_solvent l0 ops A :
  length (locked l0) = 32%nat -> Forall op_ok ops -> 0 <= A -> Forall (backed_by A) ops ->
  exists l1 rs l2 t, ants_bond_ledger_init l0 = Ok l1 tt /\
    run_bond_ops ops l1 = Some (rs, l2) /\
    ants_bond_locked_total l2 = Some t /\ t = total_of (bonds l2) /\ 0 <= t <= A.
Proof.
  intros Hl Hops HA Hb. destruct (init_ok l0 Hl) as (Hi & Hok & He).
  destruct (run_refines ops _ Hok Hops) as (rs & l2 & Hr & Hok2 & Hs).
  exists (mk_bonds 0 (locked l0)), rs, l2, (total_of (bonds l2)). split; [exact Hi|]. split; [done|].
  split; [by apply locked_total_spec|]. split; [done|].
  split; [apply total_nonneg, Hok2|]. rewrite <- map_total_abs by done.
  replace (abs l2) with (spec_run ops ∅).2 by (rewrite <- He, Hs; done).
  apply spec_run_solvent; try done.
Qed.

Lemma locked_total_solvent_witness :
  exists l1 rs l2 t, ants_bond_ledger_init demo_bonds = Ok l1 tt /\
    run_bond_ops demo_ops l1 = Some (rs, l2) /\
    ants_bond_locked_total l2 = Some t /\ t = total_of (bonds l2) /\ 0 <= t <= 100.
Proof.
  exact (locked_total_solvent demo_bonds demo_ops 100 eq_refl demo_ops_ok ltac:(lia)
           ltac:(repeat constructor; cbn; lia)).
Defined.
