(* ===== verification/BondCodec.v ===== *)
(** * Bond formulas, the admission object and the tie-break

    [ants_bond_required_value_scaled] is exact whenever it answers; the
    admission object has one encoding and the decoder accepts nothing else;
    of two admissions with different tie-break keys exactly one wins. *)

From stdpp Require Import strings.
From S2P Require Import Prelude Cbor CborSpec CborEnc CborCanon CborContract CborKv CborRecord CborCodec Crypto Bond.
Import Bond.

(** ** The value-scaled bond *)

Lemma div_guard a b :
  0 <= a -> 0 <= b -> negb (b =? 0) && (UINT64_MAX / b <? a) = (UINT64_MAX <? a * b).
Proof.
  intros Ha Hb. destruct (Z.eqb_spec b 0) as [->|Hn]; cbn [negb andb].
  { symmetry. apply Z.ltb_ge. rewrite Z.mul_0_r. done. }
  apply eq_true_iff_eq. rewrite !Z.ltb_lt.
  split; intros H.
  - apply Z.lt_nge. intros Hle. apply Z.lt_nge in H. apply H.
    apply Z.div_le_lower_bound; lia.
  - apply Z.div_lt_upper_bound; lia.
Qed.

Lemma scaled_split value num den :
  0 < den -> value * num / den = value / den * num + (value mod den) * num / den.
Proof.
  intros Hd. rewrite (Z.div_mod value den) at 1 by lia.
  replace ((den * (value / den) + value mod den) * num)
    with ((value / den * num) * den + value mod den * num) by ring.
  by rewrite Z.div_add_l by lia.
Qed.

(** The value-scaled bond.  When [ants_bond_required_value_scaled]
    answers, the answer is floor(value * mult_num / mult_den) computed as if
    with unbounded integers; it refuses a zero denominator with INVALID_ARG;
    otherwise it reports OVERFLOW, and only when that quotient does not fit 64
    bits or the partial product (value mod mult_den) * mult_num does not. *)
Theorem value_scaled_exact value num den :
  is_u64 value -> is_u64 num -> is_u64 den ->
  match ants_bond_required_value_scaled value num den with
  | Ok _ v => 0 < den /\ v = value * num / den /\ is_u64 v
  | Err _ ANTS_ERROR_INVALID_ARG => den = 0
  | Err _ ANTS_ERROR_OVERFLOW =>
      0 < den /\ (UINT64_MAX < value * num / den \/ UINT64_MAX < value mod den * num)
  | _ => False
  end.
Proof.
  intros Hv Hn Hd. unfold ants_bond_required_value_scaled.
  destruct (Z.eqb_spec den 0) as [|Hne]; [done|]. assert (Hpos : 0 < den) by zlia.
  pose proof (Z.div_pos value den ltac:(zlia) Hpos) as Hq.
  pose proof (Z.mod_pos_bound value den Hpos) as Hr.
  assert (Hrn : 0 <= value mod den * num / den) by (apply Z.div_pos; [apply Z.mul_nonneg_nonneg; zlia|done]).
  assert (Hqn : 0 <= value / den * num) by (apply Z.mul_nonneg_nonneg; zlia).
  assert (Hrn' : 0 <= value mod den * num) by (apply Z.mul_nonneg_nonneg; zlia).
  rewrite !div_guard by zlia. rewrite scaled_split by done.
  destruct (Z.ltb_spec UINT64_MAX (value / den * num)); [split; [done|]; left; lia|].
  destruct (Z.ltb_spec UINT64_MAX (value mod den * num)); [split; [done|]; by right|].
  rewrite (u64_small (value mod den * num)), (u64_small (value / den * num)) by zlia.
  bcase; [split; [done|]; left; lia|]. rewrite u64_small by zlia. split_and!; try done; zlia.
Qed.

Lemma value_scaled_exact_witness :
  match ants_bond_required_value_scaled 1000 3 7 with
  | Ok _ v => 0 < 7 /\ v = 1000 * 3 / 7 /\ is_u64 v
  | Err _ ANTS_ERROR_INVALID_ARG => 7 = 0
  | Err _ ANTS_ERROR_OVERFLOW =>
      0 < 7 /\ (UINT64_MAX < 1000 * 3 / 7 \/ UINT64_MAX < 1000 mod 7 * 3)
  | _ => False
  end.
Proof. apply (value_scaled_exact 1000 3 7); done. Defined.

(** The second disjunct of the OVERFLOW case happens: the quotient is 2^32,
    and the header promises OVERFLOW only when the result exceeds 64 bits. *)
Example value_scaled_spurious_overflow :
  ants_bond_required_value_scaled (2 ^ 33) (2 ^ 33) (2 ^ 34) = Err tt ANTS_ERROR_OVERFLOW /\
  2 ^ 33 * 2 ^ 33 / 2 ^ 34 <= UINT64_MAX.
Proof. by split. Qed.

(** ** The admission object on the wire *)

Definition admission_cbor (adm : ants_bond_admission_t) : cbor :=
  CMap [(CUint 1, CBytes (adm_act_id adm)); (CUint 2, CBytes (adm_peer adm));
        (CUint 3, CUint (adm_amount adm)); (CUint 4, CBytes (adm_v_id adm));
        (CUint 5, CBytes (adm_l1_view_hash adm))].

(** [uint8_t x[32]]. *)
Definition hash_ok (b : bytes) : Prop := bytes_ok b /\ zlen b = 32.

(** The field types of the C struct. *)
Definition admission_ok (adm : ants_bond_admission_t) : Prop :=
  hash_ok (adm_act_id adm) /\ hash_ok (adm_peer adm) /\ is_u64 (adm_amount adm) /\
  hash_ok (adm_v_id adm) /\ hash_ok (adm_l1_view_hash adm).

Lemma hash_wf b : hash_ok b -> wf (CBytes b).
Proof. intros [Hb Hl]. split; [done|]. zlia. Qed.

Lemma admission_wf adm : admission_ok adm -> wf (admission_cbor adm).
Proof.
  intros (Ha & Hp & Hm & Hv & Hw). apply wf_map.
  split; [done|]. split; [by repeat constructor|].
  repeat (constructor; [split; [done|]; first [done | by apply hash_wf]|]). constructor.
Qed.

Lemma admission_size adm :
  admission_ok adm -> zlen (encode (admission_cbor adm)) <= ANTS_BOND_ADMISSION_ENCODED_MAX.
Proof.
  intros ((_ & Ha) & (_ & Hp) & _ & (_ & Hv) & (_ & Hw)).
  cbn [admission_cbor encode map concat]. rewrite !zlen_app, Ha, Hp, Hv, Hw.
  pose proof (head_size 0 (adm_amount adm)).
  rewrite (head_size_tiny 0 1), (head_size_tiny 0 2), (head_size_tiny 0 3), (head_size_tiny 0 4),
    (head_size_tiny 0 5) by lia.
  change (zlen (encode_head 2 32)) with 2. change (zlen (@nil Z)) with 0.
  match goal with |- context [encode_head 5 ?n] => change (zlen (encode_head 5 n)) with 1 end.
  unfold ANTS_BOND_ADMISSION_ENCODED_MAX. lia.
Qed.

Lemma admission_emit adm e : admission_body adm e = emit (admission_cbor adm) e.
Proof.
  unfold admission_body, enc_kv_bytes, enc_kv_uint.
  cbn [admission_cbor emit map seq_actions foldr]. act_eq.
Qed.

Lemma codes_admission : codes decode_error admission_decode_body.
Proof.
  unfold admission_decode_body. repeat first
    [ apply codes_bind; [solve [auto with ants]|intros ?]
    | apply codes_if; [solve [auto with ants]|]
    | solve [auto with ants] ].
Qed.

Lemma keeps_admission : keeps (fun _ => True) admission_decode_body.
Proof.
  unfold admission_decode_body. repeat first
    [ apply keeps_bind; [solve [auto with ants | by apply keeps_modify]|intros ?]
    | apply keeps_if; intros ?; [solve [auto with ants]|]
    | by apply keeps_modify ].
Qed.

Lemma admission_read_ok d old adm :
  admission_ok adm -> at_ d [admission_cbor adm] ->
  exists d', admission_decode_body (d, old) = Ok (d', adm) tt /\ at_ d' [].
Proof.
  intros ((_ & Ha) & (_ & Hp) & _ & (_ & Hv) & (_ & Hw)) Hat. unfold admission_decode_body.
  destruct (at_map _ _ _ Hat) as (d1 & Hd1 & Hat1). cbn [flat map concat app fst snd] in Hat1.
  rewrite (bind_Ok _ _ _ _ _ (on_fst_ok _ _ _ _ _ (map_err_ok _ _ _ _ _ Hd1))). clear Hd1 Hat.
  match goal with |- context [negb (?a =? BOND_ADMISSION_PAIRS)] =>
    replace (negb (a =? BOND_ADMISSION_PAIRS)) with false by done end.
  read_bytes_field Hat1 Ha. unfold bind at 1, modify_snd; cbn [fst snd].
  read_bytes_field Hat1 Hp. unfold bind at 1, modify_snd; cbn [fst snd].
  read_field at_uint_field Hat1. unfold bind at 1, modify_snd; cbn [fst snd].
  read_bytes_field Hat1 Hv. unfold bind at 1, modify_snd; cbn [fst snd].
  read_bytes_field Hat1 Hw. unfold modify_snd; cbn [fst snd]. eexists. split; [|done].
  cbn. by destruct adm.
Qed.

Lemma admission_read_inv d old st items :
  at_ d items -> admission_decode_body (d, old) = Ok st tt ->
  exists cs, items = admission_cbor st.2 :: cs /\ admission_ok st.2 /\ at_ st.1 cs.
Proof.
  intros Hat H. assert (Hwf : Forall wf items) by (by destruct Hat as (? & ? & _ & _ & ?)).
  unfold admission_decode_body in H. peel_call H n. apply map_err_inv in H1.
  destruct (at_map_inv _ _ _ _ Hat H1) as (l & cs & -> & -> & Hat1). clear H1 Hat.
  destruct (Z.eqb_spec (zlen l) BOND_ADMISSION_PAIRS) as [Hlen|]; [|done]. cbn [negb] in H.
  apply (zlen_5 l) in Hlen as ([k1 v1] & [k2 v2] & [k3 v3] & [k4 v4] & [k5 v5] & ->).
  cbn [flat map concat app fst snd] in Hat1.
  peel_bytes_field H Hat1 x1. peel_store H. peel_bytes_field H Hat1 x2. peel_store H.
  peel_field at_uint_field_inv H Hat1 x3. peel_store H.
  peel_bytes_field H Hat1 x4. peel_store H. peel_bytes_field H Hat1 x5.
  unfold modify_snd in H. cbn [fst snd] in H. injection H as <-. cbn [fst snd].
  exists cs. split; [done|]. split; [|done].
  apply Forall_cons in Hwf as [(_ & _ & Hw)%wf_map _].
  do 5 (apply Forall_cons in Hw as [[_ ?] Hw]). cbn [snd wf] in *.
  unfold admission_ok, hash_ok. cbn. tauto.
Qed.

#[export] Instance admission_codec : RecordCodec ants_bond_admission_t := {
  codec_doc := admission_cbor;
  codec_max := ANTS_BOND_ADMISSION_ENCODED_MAX;
  codec_body := admission_body;
  codec_read := admission_decode_body;
  codec_ok := admission_ok;
  codec_obj _ := True;
  codec_same := eq;
  codec_from r c := admission_ok r /\ c = admission_cbor r
}.

#[export] Instance admission_codec_laws : RecordCodecLaws ants_bond_admission_t.
Proof.
  split; cbn [codec_doc codec_max codec_body codec_read codec_ok codec_obj codec_same codec_from
    admission_codec].
  - exact admission_wf.
  - intros r _. cbn. lia.
  - exact admission_size.
  - done.
  - intros r e _. apply admission_emit.
  - exists (fun _ => True). split; [done|apply keeps_admission].
  - apply codes_admission.
  - intros d old r _ Hok Hat. destruct (admission_read_ok d old r Hok Hat) as (d' & ? & ?).
    by exists d', r.
  - intros d old st items _ Hat Hrun.
    destruct (admission_read_inv d old st items Hat Hrun) as (cs & -> & ? & ?). eauto 10.
Qed.

Definition demo_admission : ants_bond_admission_t :=
  mk_admission (replicate 32 1) (replicate 32 2) 1000000 (replicate 32 3) (replicate 32 4).

Lemma demo_admission_ok : admission_ok demo_admission.
Proof. by repeat (split; [by repeat constructor|]); repeat constructor. Qed.

(** Round trip of the admission object.  Encoding into any buffer of at
    least ANTS_BOND_ADMISSION_ENCODED_MAX bytes succeeds, writes the canonical
    encoding of the documented map, and decoding those bytes into any object
    yields the same admission. *)
Theorem admission_roundtrip adm old buf cap :
  admission_ok adm -> ANTS_BOND_ADMISSION_ENCODED_MAX <= cap <= zlen buf -> zlen buf <= INT64_MAX ->
  exists buf' n, ants_bond_admission_encode adm cap buf = Ok buf' n /\
    take (Z.to_nat n) buf' = encode (admission_cbor adm) /\
    ants_bond_admission_decode (Some (take (Z.to_nat n) buf')) n old = Ok adm tt.
Proof.
  intros Hok Hc Hb.
  destruct (codec_encodes (CL := admission_codec_laws) adm buf cap Hok Hc Hb) as (buf' & He & Hw).
  destruct (codec_decodes (CL := admission_codec_laws) (fun e => e) norm_decode_err adm old Hok I)
    as (? & Hd & <- & _). change (codec_doc adm) with (admission_cbor adm) in *.
  exists buf', (zlen (encode (admission_cbor adm))). rewrite zlen_to_nat, Hw.
  split; [done|]. split; [done|]. unfold ants_bond_admission_decode. cbn [is_null orb].
  by rewrite (proj2 (Z.eqb_neq _ 0) (encode_zlen_ne _)).
Qed.

Lemma admission_roundtrip_witness :
  exists buf' n, ants_bond_admission_encode demo_admission 160 (replicate 160 0) = Ok buf' n /\
    take (Z.to_nat n) buf' = encode (admission_cbor demo_admission) /\
    ants_bond_admission_decode (Some (take (Z.to_nat n) buf')) n demo_admission
      = Ok demo_admission tt.
Proof.
  apply (admission_roundtrip demo_admission demo_admission (replicate 160 0) 160
    demo_admission_ok); done.
Defined.

(** Strict decoding of admissions.  On any byte string
    [ants_bond_admission_decode] terminates without reading outside it; when
    it accepts, the bytes are exactly the canonical encoding of the admission
    it returns, so no two byte strings decode to the same admission; when it
    refuses a non-empty input, the code is NON_CANONICAL or MALFORMED. *)
Theorem admission_decode_strict buf old :
  bytes_ok buf -> zlen buf <= INT64_MAX ->
  match ants_bond_admission_decode (Some buf) (zlen buf) old with
  | Ok adm _ => admission_ok adm /\ buf = encode (admission_cbor adm)
  | Err _ ANTS_ERROR_INVALID_ARG => buf = []
  | Err _ e => e = ANTS_ERROR_NON_CANONICAL \/ e = ANTS_ERROR_MALFORMED
  | UB | NoFuel => False
  end.
Proof.
  intros Hok Hb. unfold ants_bond_admission_decode. cbn [is_null orb].
  destruct (Z.eqb_spec (zlen buf) 0) as [Hz|]; [by apply nil_length_inv; unfold zlen in Hz; lia|].
  pose proof (codec_strict (CL := admission_codec_laws) (fun e => e) norm_decode_err buf old
    norm_decode_error Hok Hb I) as H. cbn [codec_read admission_codec] in H.
  destruct (with_decoder _ _ _ _ _ _) as [? ?|? e| |]; try done.
  - by destruct H as (c & [? ->] & ->).
  - by destruct H as [-> | ->]; auto.
Qed.

Lemma admission_decode_strict_witness :
  match ants_bond_admission_decode (Some [0xa5; 0x01; 0x40]) 3 demo_admission with
  | Ok adm _ => admission_ok adm /\ [0xa5; 0x01; 0x40] = encode (admission_cbor adm)
  | Err _ ANTS_ERROR_INVALID_ARG => [0xa5; 0x01; 0x40] = []
  | Err _ e => e = ANTS_ERROR_NON_CANONICAL \/ e = ANTS_ERROR_MALFORMED
  | UB | NoFuel => False
  end.
Proof.
  exact (admission_decode_strict [0xa5; 0x01; 0x40] demo_admission ltac:(by repeat constructor)
    ltac:(done)).
Defined.

(** ** The tie-break *)

Lemma wins_compare a b :
  zlen a = zlen b -> ants_bond_admission_wins (Some a) (Some b) = (compare_keys a b <? 0).
Proof.
  intros H. cbn. unfold compare_keys. rewrite H, Z.ltb_irrefl, zlen_to_nat.
  rewrite !firstn_all2 by (unfold zlen in H; lia).
  by destruct (Z.eqb_spec (memcmp a b) 0) as [->|].
Qed.

Lemma wins_trans a b c :
  zlen a = zlen b -> zlen b = zlen c ->
  ants_bond_admission_wins (Some a) (Some b) = true ->
  ants_bond_admission_wins (Some b) (Some c) = true ->
  ants_bond_admission_wins (Some a) (Some c) = true.
Proof.
  intros H1 H2. rewrite !wins_compare by congruence. rewrite !Z.ltb_lt. apply compare_keys_trans.
Qed.

Lemma wins_total a b :
  zlen a = zlen b -> a <> b ->
  ants_bond_admission_wins (Some b) (Some a) = negb (ants_bond_admission_wins (Some a) (Some b)).
Proof.
  intros H Hne. rewrite !wins_compare by congruence.
  destruct (compare_keys_trichotomy a b) as [H0 Hs].
  destruct (compare_keys_trichotomy b a) as [H0' Hs'].
  destruct (Z.ltb_spec (compare_keys b a) 0), (Z.ltb_spec (compare_keys a b) 0); try done.
  - exfalso. lia.
  - exfalso. apply Hne, H0. lia.
Qed.

Lemma minimum_exists (l : list bytes) n :
  l <> [] -> Forall (fun k => zlen k = n) l ->
  exists k, k ∈ l /\ forall k', k' ∈ l -> k' <> k ->
    ants_bond_admission_wins (Some k) (Some k') = true.
Proof.
  induction l as [|x l IH]; intros Hne Hl; [done|]. apply Forall_cons in Hl as [Hx Hl].
  destruct l as [|y l]; [exists x; split; [set_solver|]; intros k' Hk; set_solver|].
  destruct IH as (m & Hm & Hmin); [done..|]. rewrite Forall_forall in Hl.
  assert (Hmn : zlen m = n) by (by apply Hl).
  destruct (decide (x = m)) as [->|Hxm].
  { exists m. split; [set_solver|]. intros k' Hk' Hn. apply Hmin; set_solver. }
  destruct (ants_bond_admission_wins (Some x) (Some m)) eqn:Hw.
  - exists x. split; [set_solver|]. intros k' Hk' Hn.
    destruct (decide (k' = m)) as [->|Hkm]; [done|].
    assert (Hk : k' ∈ y :: l) by set_solver. pose proof (Hl k' Hk).
    apply (wins_trans x m k'); [congruence..|done|]. by apply Hmin.
  - exists m. split; [set_solver|]. intros k' Hk' Hn. apply elem_of_cons in Hk' as [->|Hk'].
    + rewrite (wins_total x m) by congruence. by rewrite Hw.
    + by apply Hmin.
Qed.

(** The tie-break has exactly one winner.  Among any set of conflicting
    admissions with 32-byte keys there is one key, and only one, for which
    [ants_bond_admission_wins] holds against every other key of the set, and
    no key wins against itself; so verifiers that see the same admissions
    agree on the one that stands, in whatever order they saw them. *)
Theorem tiebreak_one_winner keys :
  keys <> [] -> Forall (fun k => zlen k = ANTS_BOND_HASH_SIZE) keys ->
  (exists! k, k ∈ keys /\ forall k', k' ∈ keys -> k' <> k ->
    ants_bond_admission_wins (Some k) (Some k') = true) /\
  forall k, ants_bond_admission_wins (Some k) (Some k) = false.
Proof.
  intros Hne Hl. split.
  - destruct (minimum_exists keys _ Hne Hl) as (k & Hk & Hmin). exists k. split; [done|].
    intros k' [Hk' Hmin']. destruct (decide (k' = k)) as [|Hn]; [done|]. exfalso.
    rewrite Forall_forall in Hl. pose proof (wins_total k k') as Ht.
    rewrite (Hmin k'), (Hmin' k) in Ht by done.
    by specialize (Ht ltac:(by rewrite !Hl) ltac:(done)).
  - intros k. cbn. by rewrite memcmp_refl.
Qed.

Lemma tiebreak_one_winner_witness :
  (exists! k, k ∈ [replicate 32 5; replicate 32 3; replicate 32 4] /\
    forall k', k' ∈ [replicate 32 5; replicate 32 3; replicate 32 4] -> k' <> k ->
    ants_bond_admission_wins (Some k) (Some k') = true) /\
  forall k, ants_bond_admission_wins (Some k) (Some k) = false.
Proof. exact (tiebreak_one_winner [replicate 32 5; replicate 32 3; replicate 32 4] ltac:(done) ltac:(by repeat constructor)). Defined.

(** The message the key is derived from. *)
Definition tiebreak_message (epoch_seed act v_id : bytes) (round : Z) : bytes :=
  epoch_seed ++ act ++ v_id ++ write_le64 round.

(** The little-endian value of a byte string. *)
Definition le_value (b : bytes) : Z := foldr (fun x acc => x + 256 * acc) 0 b.

Lemma le_step x : u8 x + 256 * Z.shiftr x 8 = x.
Proof.
  unfold u8. rewrite Z.shiftr_div_pow2 by lia. change (2 ^ 8) with 256.
  pose proof (Z.div_mod x 256). lia.
Qed.

Lemma write_le64_value v : is_u64 v -> le_value (write_le64 v) = v.
Proof.
  intros Hv. unfold write_le64, le_value. cbn [foldr].
  assert (Hs : forall a b, 0 <= a -> 0 <= b -> Z.shiftr v (a + b) = Z.shiftr (Z.shiftr v a) b)
    by (intros; symmetry; by apply Z.shiftr_shiftr).
  assert (H0 : Z.shiftr v (56 + 8) = 0).
  { rewrite Z.shiftr_div_pow2 by lia. apply Z.div_small. exact Hv. }
  replace (256 * 0) with (256 * Z.shiftr v (56 + 8)) by (rewrite H0; done).
  rewrite (Hs 56 8), le_step by lia. change 56 with (48 + 8). rewrite (Hs 48 8), le_step by lia.
  change 48 with (40 + 8). rewrite (Hs 40 8), le_step by lia.
  change 40 with (32 + 8). rewrite (Hs 32 8), le_step by lia.
  change 32 with (24 + 8). rewrite (Hs 24 8), le_step by lia.
  change 24 with (16 + 8). rewrite (Hs 16 8), le_step by lia.
  change 16 with (8 + 8). rewrite (Hs 8 8), !le_step by lia. done.
Qed.

Lemma message_inj seed act v r seed' act' v' r' :
  zlen seed = 32 -> zlen act = 32 -> zlen v = 32 -> is_u64 r ->
  zlen seed' = 32 -> zlen act' = 32 -> zlen v' = 32 -> is_u64 r' ->
  tiebreak_message seed act v r = tiebreak_message seed' act' v' r' ->
  seed = seed' /\ act = act' /\ v = v' /\ r = r'.
Proof.
  unfold tiebreak_message, zlen. intros ? ? ? Hr ? ? ? Hr' H.
  apply app_inj_1 in H as [-> H]; [|lia]. apply app_inj_1 in H as [-> H]; [|lia].
  apply app_inj_1 in H as [-> H]; [|lia]. split_and!; try done.
  rewrite <- (write_le64_value r), <- (write_le64_value r') by done. by rewrite H.
Qed.

(** The tie-break key.  Whatever the hasher, [ants_bond_tiebreak_key]
    succeeds with a 32-byte key that is the keyed derivation of
    epoch_seed || act_id || v_id || LE64(round) under the context
    "ants-v1-bond-tiebreak", and that message determines all four inputs: two
    admissions share a message only if they are the same admission round of
    the same verifier for the same act in the same epoch. *)
Theorem tiebreak_key_message (B : Blake3) (laws : Blake3Laws B) ctx seed act v r :
  zlen seed = 32 -> zlen act = 32 -> zlen v = 32 -> is_u64 r ->
  (exists ctx' key, ants_bond_tiebreak_key seed act v r ctx = Ok ctx' key /\ zlen key = 32 /\
    ants_blake3_derive_key "ants-v1-bond-tiebreak" (Some (tiebreak_message seed act v r))
      (zlen (tiebreak_message seed act v r)) = Ok tt key) /\
  forall seed' act' v' r',
    zlen seed' = 32 -> zlen act' = 32 -> zlen v' = 32 -> is_u64 r' ->
    tiebreak_message seed act v r = tiebreak_message seed' act' v' r' ->
    seed = seed' /\ act = act' /\ v = v' /\ r = r'.
Proof.
  intros Hs Ha Hv Hr. split; [|intros; by eapply message_inj].
  rewrite derive_key_all. unfold ants_bond_tiebreak_key, ants_blake3_init_derive.
  unfold bind at 1.
  rewrite (bind_Ok _ _ _ _ _ (update_sized _ _ _ Hs)).
  rewrite (bind_Ok _ _ _ _ _ (update_sized _ _ _ Ha)).
  rewrite (bind_Ok _ _ _ _ _ (update_sized _ _ _ Hv)).
  rewrite (bind_Ok _ _ _ _ _ (update_chunk _ _)). unfold ants_blake3_final.
  rewrite !update_app. do 2 eexists. split; [reflexivity|]. split; [apply finalize_size|].
  reflexivity.
Qed.

Lemma tiebreak_key_message_witness :
  (exists ctx' key, ants_bond_tiebreak_key (B := toy_blake3) (replicate 32 1) (replicate 32 2)
      (replicate 32 3) 7 [] = Ok ctx' key /\ zlen key = 32 /\
    ants_blake3_derive_key (B := toy_blake3) "ants-v1-bond-tiebreak"
      (Some (tiebreak_message (replicate 32 1) (replicate 32 2) (replicate 32 3) 7))
      (zlen (tiebreak_message (replicate 32 1) (replicate 32 2) (replicate 32 3) 7)) = Ok tt key) /\
  forall seed' act' v' r',
    zlen seed' = 32 -> zlen act' = 32 -> zlen v' = 32 -> is_u64 r' ->
    tiebreak_message (replicate 32 1) (replicate 32 2) (replicate 32 3) 7
      = tiebreak_message seed' act' v' r' ->
    replicate 32 1 = seed' /\ replicate 32 2 = act' /\ replicate 32 3 = v' /\ 7 = r'.
Proof.
  exact (tiebreak_key_message toy_blake3 toy_blake3_laws [] (replicate 32 1) (replicate 32 2)
    (replicate 32 3) 7 eq_refl eq_refl eq_refl ltac:(done)).
Defined.
