(* ===== verification/Payment.v ===== *)
(** * Payment terms (src/economy/ledger/src/payment.c)

    The advertisement of payment schemes: structural validity, the bounded
    list, the match test and the codec.  A [char] buffer is a byte list of
    its declared size; its string ends at the first NUL.  The state of an
    action is the terms object. *)

From S2P Require Import Prelude Cbor CborKv.

Module Payment.

(** ** Data *)

Definition ANTS_PAYMENT_MAX_SCHEMES : Z := 8.
Definition ANTS_PAYMENT_REF_MAX : Z := 128.
Definition ANTS_PAYMENT_CURRENCY_MAX : Z := 8.
Definition ANTS_PAYMENT_NOTES_MAX : Z := 256.
Definition ANTS_PAYMENT_ENCODED_MAX : Z := 2560.

(** [ants_payment_scheme_kind_t]: a C enum, which may hold any int. *)
Definition ANTS_PAYMENT_SCHEME_NONE : Z := 0.
Definition ANTS_PAYMENT_SCHEME_NCS : Z := 1.
Definition ANTS_PAYMENT_SCHEME_FIAT_STRIPE : Z := 2.
Definition ANTS_PAYMENT_SCHEME_FIAT_LIGHTNING : Z := 3.
Definition ANTS_PAYMENT_SCHEME_SUBSCRIPTION : Z := 4.
Definition ANTS_PAYMENT_SCHEME_CUSTOM : Z := 5.

(** [ants_payment_scope_t]. *)
Definition ANTS_PAYMENT_SCOPE_PER_QUERY : Z := 0.
Definition ANTS_PAYMENT_SCOPE_SESSION : Z := 1.
Definition ANTS_PAYMENT_SCOPE_SUBSCRIPTION : Z := 2.

Record ants_payment_scheme_t : Type := mk_scheme {
  kind : Z;
  amount : Z;
  currency : bytes;
  ref_a : bytes;
  ref_b : bytes
}.

Record ants_payment_terms_t : Type := mk_terms {
  schemes : list ants_payment_scheme_t;
  n_schemes : Z;
  validity_unix_s : Z;
  scope : Z;
  notes : bytes
}.

Definition F_AMOUNT : Z := 0x1.
Definition F_CURRENCY : Z := 0x2.
Definition F_REF_A : Z := 0x4.
Definition F_REF_B : Z := 0x8.

Definition PAY_KEY_KIND : Z := 1.
Definition PAY_KEY_AMOUNT : Z := 2.
Definition PAY_KEY_CURRENCY : Z := 3.
Definition PAY_KEY_REF_A : Z := 4.
Definition PAY_KEY_REF_B : Z := 5.

Definition PAY_KEY_SCHEMES : Z := 1.
Definition PAY_KEY_VALIDITY : Z := 2.
Definition PAY_KEY_SCOPE : Z := 3.
Definition PAY_KEY_NOTES : Z := 4.
Definition PAY_TERMS_PAIRS : Z := 4.

(** ** The fields of a kind *)

Definition kind_valid (kind : Z) : bool := u32 kind <=? u32 ANTS_PAYMENT_SCHEME_CUSTOM.

Definition scheme_field_mask (kind : Z) : Z :=
  if kind =? ANTS_PAYMENT_SCHEME_NONE then 0
  else if kind =? ANTS_PAYMENT_SCHEME_NCS then F_REF_A
  else if kind =? ANTS_PAYMENT_SCHEME_FIAT_STRIPE then Z.lor (Z.lor F_AMOUNT F_CURRENCY) F_REF_A
  else if kind =? ANTS_PAYMENT_SCHEME_FIAT_LIGHTNING then Z.lor F_AMOUNT F_REF_A
  else if kind =? ANTS_PAYMENT_SCHEME_SUBSCRIPTION then Z.lor F_REF_A F_REF_B
  else if kind =? ANTS_PAYMENT_SCHEME_CUSTOM then F_REF_A
  else 0.

(** [mask & f] as a condition. *)
Definition has (mask f : Z) : bool := negb (Z.land mask f =? 0).

Definition scheme_pairs (mask : Z) : Z :=
  1 + (if has mask F_AMOUNT then 1 else 0) + (if has mask F_CURRENCY then 1 else 0)
    + (if has mask F_REF_A then 1 else 0) + (if has mask F_REF_B then 1 else 0).

(** [memchr(s, 0, cap) != NULL]. *)
Definition field_terminated (s : bytes) (cap : Z) : bool :=
  existsb (fun c => c =? 0) (take (Z.to_nat cap) s).

(** [s[0] != '\0'] for a [char] array, which is never empty. *)
Definition nonempty (s : bytes) : bool := negb (default 0 (byte_at s 0) =? 0).

Definition ants_payment_scheme_valid (scheme : ants_payment_scheme_t) : bool :=
  if negb (kind_valid (kind scheme)) then false
  else if negb (field_terminated (currency scheme) ANTS_PAYMENT_CURRENCY_MAX)
       || negb (field_terminated (ref_a scheme) ANTS_PAYMENT_REF_MAX)
       || negb (field_terminated (ref_b scheme) ANTS_PAYMENT_REF_MAX) then false
  else
    let mask := scheme_field_mask (kind scheme) in
    if negb (has mask F_AMOUNT) && negb (amount scheme =? 0) then false
    else if negb (has mask F_CURRENCY) && nonempty (currency scheme) then false
    else if negb (has mask F_REF_A) && nonempty (ref_a scheme) then false
    else if negb (has mask F_REF_B) && nonempty (ref_b scheme) then false
    else if (kind scheme =? ANTS_PAYMENT_SCHEME_FIAT_STRIPE) && negb (nonempty (currency scheme))
    then false
    else true.

(** ** Lifecycle *)

(** A zeroed object ([memset]). *)
Definition zero_chars (n : Z) : bytes := replicate (Z.to_nat n) 0.

Definition zero_scheme : ants_payment_scheme_t :=
  mk_scheme 0 0 (zero_chars ANTS_PAYMENT_CURRENCY_MAX) (zero_chars ANTS_PAYMENT_REF_MAX)
    (zero_chars ANTS_PAYMENT_REF_MAX).

Definition zero_terms : ants_payment_terms_t :=
  mk_terms (replicate (Z.to_nat ANTS_PAYMENT_MAX_SCHEMES) zero_scheme) 0 0 0
    (zero_chars ANTS_PAYMENT_NOTES_MAX).

Definition ants_payment_terms_init : action ants_payment_terms_t unit :=
  modify (fun _ => zero_terms) ;*
  modify (fun t => mk_terms (schemes t) 0 (validity_unix_s t) (scope t) (notes t)) ;*
  modify (fun t => mk_terms (schemes t) (n_schemes t) 0 (scope t) (notes t)) ;*
  modify (fun t => mk_terms (schemes t) (n_schemes t) (validity_unix_s t)
                     ANTS_PAYMENT_SCOPE_PER_QUERY (notes t)) ;*
  modify (fun t => mk_terms (schemes t) (n_schemes t) (validity_unix_s t) (scope t)
                     (<[0%nat := 0]> (notes t))).

Definition ants_payment_terms_add_scheme (scheme : ants_payment_scheme_t)
  : action ants_payment_terms_t unit :=
  let* terms := get in
  if negb (ants_payment_scheme_valid scheme) then fail ANTS_ERROR_INVALID_ARG
  else if ANTS_PAYMENT_MAX_SCHEMES <=? n_schemes terms then fail ANTS_ERROR_BUFFER_TOO_SMALL
  else
    let* ss := deref (set_at (schemes terms) (n_schemes terms) scheme) in
    modify (fun t => mk_terms ss (u32 (n_schemes t + 1)) (validity_unix_s t) (scope t) (notes t)).

(** The inner loop of [ants_payment_terms_intersects]: [n] schemes from [j]
    on have the kind [k]? *)
Fixpoint kind_among (n : nat) (j : Z) (ss : list ants_payment_scheme_t) (k : Z) : option bool :=
  match n with
  | O => Some false
  | S n' =>
    match get_at ss j with
    | None => None
    | Some s => if k =? kind s then Some true else kind_among n' (j + 1) ss k
    end
  end.

Fixpoint kinds_meet (n : nat) (i : Z) (ss : list ants_payment_scheme_t)
  (b : ants_payment_terms_t) : option bool :=
  match n with
  | O => Some false
  | S n' =>
    match get_at ss i with
    | None => None
    | Some s =>
      match kind_among (Z.to_nat (n_schemes b)) 0 (schemes b) (kind s) with
      | Some false => kinds_meet n' (i + 1) ss b
      | r => r
      end
    end
  end.

Definition ants_payment_terms_intersects (a b : ants_payment_terms_t) : option bool :=
  kinds_meet (Z.to_nat (n_schemes a)) 0 (schemes a) b.

(** ** Encoding *)

(** [strlen]: [None] when the object holds no NUL. *)
Fixpoint strlen (s : bytes) : option Z :=
  match s with
  | [] => None
  | c :: s' => if c =? 0 then Some 0 else (fun n => 1 + n) <$> strlen s'
  end.

Definition enc_kv_text (key : Z) (s : bytes) : action ants_cbor_enc_t unit :=
  ants_cbor_enc_uint key ;*
  let* n := deref (strlen s) in
  ants_cbor_enc_text (Some s) n.

Definition enc_scheme (s : ants_payment_scheme_t) : action ants_cbor_enc_t unit :=
  let mask := scheme_field_mask (kind s) in
  ants_cbor_enc_map (scheme_pairs mask) ;*
  enc_kv_uint PAY_KEY_KIND (kind s) ;*
  (if has mask F_AMOUNT then enc_kv_uint PAY_KEY_AMOUNT (amount s) else ret tt) ;*
  (if has mask F_CURRENCY then enc_kv_text PAY_KEY_CURRENCY (currency s) else ret tt) ;*
  (if has mask F_REF_A then enc_kv_text PAY_KEY_REF_A (ref_a s) else ret tt) ;*
  (if has mask F_REF_B then enc_kv_text PAY_KEY_REF_B (ref_b s) else ret tt).

(** The loop over [terms->schemes[i..]]. *)
Fixpoint enc_schemes (n : nat) (i : Z) (ss : list ants_payment_scheme_t)
  : action ants_cbor_enc_t unit :=
  match n with
  | O => ret tt
  | S n' => let* s := deref (get_at ss i) in enc_scheme s ;* enc_schemes n' (i + 1) ss
  end.

Fixpoint schemes_valid (n : nat) (i : Z) (ss : list ants_payment_scheme_t) : option bool :=
  match n with
  | O => Some true
  | S n' =>
    match get_at ss i with
    | None => None
    | Some s => if negb (ants_payment_scheme_valid s) then Some false else schemes_valid n' (i + 1) ss
    end
  end.

Definition terms_body (terms : ants_payment_terms_t) : action ants_cbor_enc_t unit :=
  ants_cbor_enc_map PAY_TERMS_PAIRS ;*
  ants_cbor_enc_uint PAY_KEY_SCHEMES ;*
  ants_cbor_enc_array (n_schemes terms) ;*
  enc_schemes (Z.to_nat (n_schemes terms)) 0 (schemes terms) ;*
  enc_kv_uint PAY_KEY_VALIDITY (validity_unix_s terms) ;*
  enc_kv_uint PAY_KEY_SCOPE (scope terms) ;*
  enc_kv_text PAY_KEY_NOTES (notes terms).

Definition ants_payment_terms_encode (terms : ants_payment_terms_t) (cap : Z) : action bytes Z :=
  if ANTS_PAYMENT_MAX_SCHEMES <? n_schemes terms then fail ANTS_ERROR_INVALID_ARG
  else if u32 ANTS_PAYMENT_SCOPE_SUBSCRIPTION <? u32 (scope terms) then fail ANTS_ERROR_INVALID_ARG
  else if negb (field_terminated (notes terms) ANTS_PAYMENT_NOTES_MAX)
  then fail ANTS_ERROR_INVALID_ARG
  else
    let* ok := deref (schemes_valid (Z.to_nat (n_schemes terms)) 0 (schemes terms)) in
    if negb ok then fail ANTS_ERROR_INVALID_ARG
    else with_encoder cap (terms_body terms).

(** ** Decoding *)

(** The bytes of [dst] after the call. *)
Definition decode_text_into (dst : bytes) (cap : Z) : action ants_cbor_dec_t bytes :=
  let* p := map_err norm_decode_err ants_cbor_dec_text in
  if cap <=? zlen p then fail ANTS_ERROR_MALFORMED
  else
    let* d1 := deref (if 0 <? zlen p then splice dst 0 p else Some dst) in
    deref (set_at d1 (zlen p) 0).

Definition decode_text_field (key : Z) (dst : bytes) (cap : Z) : action ants_cbor_dec_t bytes :=
  expect_key key ;* decode_text_into dst cap.

(** A field present in the mask: [rc = m; store]. *)
Definition when_field {T A} (b : bool) (m : action (ants_cbor_dec_t * T) A) (store : A -> T -> T)
  : action (ants_cbor_dec_t * T) unit :=
  if b then let* a := m in modify_snd (store a) else ret tt.

(** [decode_text_field(dec, key, s->field, cap)]. *)
Definition text_field_of {T} (key : Z) (field : T -> bytes) (cap : Z)
  : action (ants_cbor_dec_t * T) bytes :=
  fun st => on_fst (decode_text_field key (field st.2) cap) st.

Definition set_currency c s := mk_scheme (kind s) (amount s) c (ref_a s) (ref_b s).
Definition set_ref_a a s := mk_scheme (kind s) (amount s) (currency s) a (ref_b s).
Definition set_ref_b b s := mk_scheme (kind s) (amount s) (currency s) (ref_a s) b.

Definition decode_scheme : action (ants_cbor_dec_t * ants_payment_scheme_t) unit :=
  modify_snd (fun _ => zero_scheme) ;*
  let* n_pairs := on_fst (map_err norm_decode_err ants_cbor_dec_map) in
  let* kind_u := on_fst (decode_uint_field PAY_KEY_KIND) in
  if ANTS_PAYMENT_SCHEME_CUSTOM <? kind_u then fail ANTS_ERROR_MALFORMED
  else
    modify_snd (fun s => mk_scheme kind_u (amount s) (currency s) (ref_a s) (ref_b s)) ;*
    let mask := scheme_field_mask kind_u in
    if negb (n_pairs =? scheme_pairs mask) then fail ANTS_ERROR_MALFORMED
    else
      when_field (has mask F_AMOUNT) (on_fst (decode_uint_field PAY_KEY_AMOUNT))
        (fun v s => mk_scheme (kind s) v (currency s) (ref_a s) (ref_b s)) ;*
      when_field (has mask F_CURRENCY)
        (text_field_of PAY_KEY_CURRENCY currency ANTS_PAYMENT_CURRENCY_MAX) set_currency ;*
      when_field (has mask F_REF_A)
        (text_field_of PAY_KEY_REF_A ref_a ANTS_PAYMENT_REF_MAX) set_ref_a ;*
      when_field (has mask F_REF_B)
        (text_field_of PAY_KEY_REF_B ref_b ANTS_PAYMENT_REF_MAX) set_ref_b ;*
      let* st := get in
      if negb (ants_payment_scheme_valid st.2) then fail ANTS_ERROR_MALFORMED else ret tt.

Definition set_schemes ss t := mk_terms ss (n_schemes t) (validity_unix_s t) (scope t) (notes t).

(** Run on [&terms->schemes[i]]. *)
Definition at_scheme (i : Z) (m : action (ants_cbor_dec_t * ants_payment_scheme_t) unit)
  : action (ants_cbor_dec_t * ants_payment_terms_t) unit :=
  fun st =>
  match get_at (schemes st.2) i with
  | None => UB
  | Some s =>
    let put s' := set_schemes (<[Z.to_nat i := s']> (schemes st.2)) st.2 in
    match m (st.1, s) with
    | Ok (d, s') a => Ok (d, put s') a
    | Err (d, s') e => Err (d, put s') e
    | UB => UB
    | NoFuel => NoFuel
    end
  end.

Definition terms_decode_body : action (ants_cbor_dec_t * ants_payment_terms_t) unit :=
  let* n_pairs := on_fst (map_err norm_decode_err ants_cbor_dec_map) in
  if negb (n_pairs =? PAY_TERMS_PAIRS) then fail ANTS_ERROR_MALFORMED
  else
    on_fst (expect_key PAY_KEY_SCHEMES) ;*
    let* n := on_fst (map_err norm_decode_err ants_cbor_dec_array) in
    if ANTS_PAYMENT_MAX_SCHEMES <? n then fail ANTS_ERROR_MALFORMED
    else
      for_loop (Z.to_nat ANTS_PAYMENT_MAX_SCHEMES) 0 n (fun i => at_scheme i decode_scheme) ;*
      modify_snd (fun t => mk_terms (schemes t) (u32 n) (validity_unix_s t) (scope t) (notes t)) ;*
      let* validity := on_fst (decode_uint_field PAY_KEY_VALIDITY) in
      modify_snd (fun t => mk_terms (schemes t) (n_schemes t) validity (scope t) (notes t)) ;*
      let* scope_u := on_fst (decode_uint_field PAY_KEY_SCOPE) in
      if ANTS_PAYMENT_SCOPE_SUBSCRIPTION <? scope_u then fail ANTS_ERROR_MALFORMED
      else
        modify_snd (fun t => mk_terms (schemes t) (n_schemes t) (validity_unix_s t) scope_u (notes t)) ;*
        let* b := text_field_of PAY_KEY_NOTES notes ANTS_PAYMENT_NOTES_MAX in
        modify_snd (fun t => mk_terms (schemes t) (n_schemes t) (validity_unix_s t) (scope t) b).

Definition ants_payment_terms_decode (buf : option bytes) (len : Z)
  : action ants_payment_terms_t unit :=
  if is_null buf then fail ANTS_ERROR_INVALID_ARG
  else
    modify (fun _ => zero_terms) ;*
    with_decoder norm_decode_err norm_decode_err buf len terms_decode_body.

End Payment.
