(* ===== verification/PaymentThms.v ===== *)
(** * Payment terms as lists of valid schemes

    C strings in fixed buffers, the validity check and the bounded list it
    guards, and the match test.  [scheme_doc] and [terms_doc] are the contents of the C
    structs with every text field as the string it holds. *)

From S2P Require Import Prelude Cbor CborSpec CborEnc CborCanon CborContract CborKv CborRecord CborCodec Payment.
Import Payment.

(** ** C strings in fixed buffers *)

(** The string a buffer holds: its bytes before the first NUL. *)
Fixpoint cstr (s : bytes) : bytes :=
  match s with
  | [] => []
  | c :: s' => if c =? 0 then [] else c :: cstr s'
  end.

(** A zeroed buffer of [n] bytes with [p] copied to its start. *)
Definition pad (n : Z) (p : bytes) : bytes := p ++ replicate (Z.to_nat n - length p) 0.

Lemma terminated_strlen s cap :
  field_terminated s cap = true -> strlen s = Some (zlen (cstr s)) /\ zlen (cstr s) < cap.
Proof.
  unfold field_terminated. revert cap. induction s as [|c s IH]; intros cap H.
  { by destruct (Z.to_nat cap). }
  destruct (Z.to_nat cap) as [|n] eqn:Hn; [done|]. cbn [take existsb] in H. cbn [strlen cstr].
  destruct (Z.eqb_spec c 0) as [->|]; [split; [done|rewrite (@zlen_nil Z); lia]|]. cbn [orb] in H.
  destruct (IH (cap - 1)) as [-> Hc]; [by replace (Z.to_nat (cap - 1)) with n by lia|].
  rewrite zlen_cons. cbn. split; [done|lia].
Qed.

Lemma cstr_prefix s : exists r, s = cstr s ++ r.
Proof.
  induction s as [|c s [r IH]]; [by exists []|]. cbn [cstr]. destruct (Z.eqb_spec c 0).
  - by eexists.
  - exists r. cbn. by rewrite <- IH.
Qed.

Lemma cstr_bytes s : bytes_ok s -> bytes_ok (cstr s).
Proof. intros H. destruct (cstr_prefix s) as [r Hr]. rewrite Hr in H. by apply bytes_ok_app in H as []. Qed.

Lemma cstr_slice s : slice s 0 (zlen (cstr s)) = Some (cstr s).
Proof.
  destruct (cstr_prefix s) as [r Hr]. rewrite Hr at 1. apply slice_app_l, slice_all.
Qed.

Lemma cstr_nonzero s : Forall (fun c => c <> 0) (cstr s).
Proof. induction s as [|c s IH]; [done|]. cbn [cstr]. destruct (Z.eqb_spec c 0); by constructor. Qed.

Lemma cstr_pad n p : Forall (fun c => c <> 0) p -> zlen p < n -> cstr (pad n p) = p.
Proof.
  unfold pad, zlen. intros Hp Hn. destruct (Z.to_nat n - length p)%nat as [|k] eqn:Hk; [lia|].
  clear Hk Hn. induction Hp as [|c p Hc Hp IH]; [done|]. cbn [app cstr].
  destruct (Z.eqb_spec c 0); [done|]. by rewrite IH.
Qed.

Lemma pad_length n p : zlen p <= n -> zlen (pad n p) = n.
Proof. intros H. unfold pad. rewrite zlen_app, zlen_replicate. zlia. Qed.

Lemma pad_bytes n p : bytes_ok p -> bytes_ok (pad n p).
Proof. intros H. apply bytes_ok_app. split; [done|]. by apply Forall_replicate. Qed.

Lemma pad_terminated n p : zlen p < n -> field_terminated (pad n p) n = true.
Proof.
  intros H. unfold field_terminated. apply existsb_exists. exists 0. split; [|done].
  pose proof (pad_length n p ltac:(lia)) as Hl.
  rewrite take_ge by (unfold zlen in *; lia). unfold pad. apply in_or_app. right.
  apply list_elem_of_In, elem_of_replicate. unfold zlen in *. split; [done|lia].
Qed.

Lemma nonempty_cstr s : nonempty s = match cstr s with [] => false | _ => true end.
Proof.
  destruct s as [|c s]; [done|]. change (nonempty (c :: s)) with (negb (c =? 0)). cbn [cstr].
  by destruct (c =? 0).
Qed.

(** Copying [p] and a NUL to the start of a buffer. *)
Definition put_text (p dst : bytes) : bytes := p ++ 0 :: drop (S (length p)) dst.

Lemma put_text_zero n p : zlen p < n -> put_text p (zero_chars n) = pad n p.
Proof.
  intros H. unfold put_text, zero_chars, pad. rewrite drop_replicate. unfold zlen in H.
  replace (Z.to_nat n - length p)%nat with (S (Z.to_nat n - S (length p)))%nat by lia. done.
Qed.

Lemma put_text_length n p dst : zlen dst = n -> zlen p < n -> zlen (put_text p dst) = n.
Proof.
  intros Hd Hp. unfold put_text. rewrite zlen_app, zlen_cons. unfold zlen in *.
  rewrite length_drop. lia.
Qed.

(** ** Contents of the structs *)

Record scheme_doc : Type := mk_sdoc {
  d_kind : Z; d_amount : Z; d_currency : bytes; d_ref_a : bytes; d_ref_b : bytes
}.

Record terms_doc : Type := mk_tdoc {
  d_schemes : list scheme_doc; d_validity : Z; d_scope : Z; d_notes : bytes
}.

Definition opt {A} (b : bool) (x : A) : list A := if b then [x] else [].

Definition scheme_pairs_of (s : scheme_doc) : list (cbor * cbor) :=
  let mask := scheme_field_mask (d_kind s) in
  (CUint 1, CUint (d_kind s)) ::
  opt (has mask F_AMOUNT) (CUint 2, CUint (d_amount s)) ++
  opt (has mask F_CURRENCY) (CUint 3, CText (d_currency s)) ++
  opt (has mask F_REF_A) (CUint 4, CText (d_ref_a s)) ++
  opt (has mask F_REF_B) (CUint 5, CText (d_ref_b s)).

Definition scheme_cbor (s : scheme_doc) : cbor := CMap (scheme_pairs_of s).

Definition terms_cbor (t : terms_doc) : cbor :=
  CMap [(CUint 1, CArray (map scheme_cbor (d_schemes t))); (CUint 2, CUint (d_validity t));
        (CUint 3, CUint (d_scope t)); (CUint 4, CText (d_notes t))].

Definition text_ok (b : bytes) (cap : Z) : Prop := bytes_ok b /\ zlen b < cap.

(** A scheme carries exactly the fields of its kind. *)
Definition scheme_doc_ok (s : scheme_doc) : Prop :=
  let mask := scheme_field_mask (d_kind s) in
  0 <= d_kind s <= 5 /\ is_u64 (d_amount s) /\ text_ok (d_currency s) 8 /\
  text_ok (d_ref_a s) 128 /\ text_ok (d_ref_b s) 128 /\
  (has mask F_AMOUNT = false -> d_amount s = 0) /\
  (has mask F_CURRENCY = false -> d_currency s = []) /\
  (has mask F_REF_A = false -> d_ref_a s = []) /\
  (has mask F_REF_B = false -> d_ref_b s = []) /\
  (d_kind s = ANTS_PAYMENT_SCHEME_FIAT_STRIPE -> cstr (d_currency s) <> []).

Definition terms_doc_ok (t : terms_doc) : Prop :=
  zlen (d_schemes t) <= ANTS_PAYMENT_MAX_SCHEMES /\ Forall scheme_doc_ok (d_schemes t) /\
  is_u64 (d_validity t) /\ 0 <= d_scope t <= 2 /\ text_ok (d_notes t) 256.

(** The objects the decoder leaves for a document. *)
Definition load_scheme (s : scheme_doc) : ants_payment_scheme_t :=
  mk_scheme (d_kind s) (d_amount s) (pad 8 (d_currency s)) (pad 128 (d_ref_a s)) (pad 128 (d_ref_b s)).

Definition load (t : terms_doc) : ants_payment_terms_t :=
  mk_terms (map load_scheme (d_schemes t) ++ replicate (8 - length (d_schemes t)) zero_scheme)
    (zlen (d_schemes t)) (d_validity t) (d_scope t) (pad 256 (d_notes t)).

(** The contents of an object. *)
Definition cut_scheme (s : ants_payment_scheme_t) : scheme_doc :=
  mk_sdoc (kind s) (amount s) (cstr (currency s)) (cstr (ref_a s)) (cstr (ref_b s)).

Definition live (t : ants_payment_terms_t) : list ants_payment_scheme_t :=
  take (Z.to_nat (n_schemes t)) (schemes t).

Definition cut (t : ants_payment_terms_t) : terms_doc :=
  mk_tdoc (map cut_scheme (live t)) (validity_unix_s t) (scope t) (cstr (notes t)).

(** The C types of the fields. *)
Definition chars_ok (s : bytes) (n : Z) : Prop := bytes_ok s /\ zlen s = n.

Definition scheme_typed (s : ants_payment_scheme_t) : Prop :=
  is_u32 (kind s) /\ is_u64 (amount s) /\ chars_ok (currency s) 8 /\ chars_ok (ref_a s) 128 /\
  chars_ok (ref_b s) 128.

Definition terms_typed (t : ants_payment_terms_t) : Prop :=
  length (schemes t) = 8%nat /\ Forall scheme_typed (schemes t) /\ is_u32 (n_schemes t) /\
  is_u64 (validity_unix_s t) /\ is_u32 (scope t) /\ chars_ok (notes t) 256.

(** An advertisement that may be encoded. *)
Definition terms_valid (t : ants_payment_terms_t) : Prop :=
  terms_typed t /\ n_schemes t <= ANTS_PAYMENT_MAX_SCHEMES /\
  Forall (fun s => ants_payment_scheme_valid s = true) (live t) /\
  scope t <= ANTS_PAYMENT_SCOPE_SUBSCRIPTION /\
  field_terminated (notes t) ANTS_PAYMENT_NOTES_MAX = true.

(** ** Validity *)

Lemma guard_iff (b c k : bool) :
  (if negb b && c then false else k) = true <-> (b = false -> c = false) /\ k = true.
Proof. destruct b, c, k; cbn; intuition congruence. Qed.

Lemma nonempty_false s : nonempty s = false <-> cstr s = [].
Proof. rewrite nonempty_cstr. by destruct (cstr s). Qed.

Lemma cstr_idem s : cstr (cstr s) = cstr s.
Proof.
  induction s as [|c l IH]; [done|]. cbn [cstr].
  destruct (c =? 0) eqn:E; [done|]. cbn [cstr]. by rewrite E, IH.
Qed.

Lemma text_cut s n cap :
  chars_ok s n -> field_terminated s cap = true -> text_ok (cstr s) cap.
Proof. intros [Hb _] Ht. split; [by apply cstr_bytes|by apply terminated_strlen]. Qed.

Lemma scheme_valid_iff s :
  scheme_typed s ->
  ants_payment_scheme_valid s = true <->
    field_terminated (currency s) 8 = true /\ field_terminated (ref_a s) 128 = true /\
    field_terminated (ref_b s) 128 = true /\ scheme_doc_ok (cut_scheme s).
Proof.
  intros (Hk & Ha & Hc & Hra & Hrb). pose proof (text_cut _ _ 8 Hc).
  pose proof (text_cut _ _ 128 Hra). pose proof (text_cut _ _ 128 Hrb).
  unfold ants_payment_scheme_valid, kind_valid. change (u32 ANTS_PAYMENT_SCHEME_CUSTOM) with 5.
  replace (u32 (kind s)) with (kind s) by (symmetry; by apply Z.mod_small).
  unfold ANTS_PAYMENT_CURRENCY_MAX, ANTS_PAYMENT_REF_MAX.
  unfold scheme_doc_ok. cbn [cut_scheme d_kind d_amount d_currency d_ref_a d_ref_b].
  destruct (Z.leb_spec (kind s) 5); cbn [negb]; [|split; [done|lia]].
  destruct (field_terminated (currency s) 8) eqn:Tc; cbn [negb orb]; [|intuition congruence].
  destruct (field_terminated (ref_a s) 128) eqn:Ta; cbn [negb orb]; [|intuition congruence].
  destruct (field_terminated (ref_b s) 128) eqn:Tb; cbn [negb orb]; [|intuition congruence].
  rewrite !guard_iff, !nonempty_false, cstr_idem, negb_false_iff, Z.eqb_eq.
  assert (Hlast : (if (kind s =? ANTS_PAYMENT_SCHEME_FIAT_STRIPE) && negb (nonempty (currency s))
                   then false else true) = true <->
                  (kind s = ANTS_PAYMENT_SCHEME_FIAT_STRIPE -> cstr (currency s) <> [])).
  { rewrite <- nonempty_false.
    destruct (Z.eqb_spec (kind s) ANTS_PAYMENT_SCHEME_FIAT_STRIPE), (nonempty (currency s));
      cbn; intuition congruence. }
  rewrite Hlast. unfold is_u32 in Hk. intuition lia.
Qed.

(** ** The bounded list of schemes *)

(** A sequence of [ants_payment_terms_add_scheme] calls. *)
Fixpoint add_all (ss : list ants_payment_scheme_t) (t : ants_payment_terms_t)
  : option ants_payment_terms_t :=
  match ss with
  | [] => Some t
  | s :: ss' =>
    match ants_payment_terms_add_scheme s t with
    | Ok t' _ | Err t' _ => add_all ss' t'
    | _ => None
    end
  end.

Lemma zero_scheme_typed : scheme_typed zero_scheme.
Proof. by repeat split; try lia; repeat constructor. Qed.

Lemma zero_terms_typed : terms_typed zero_terms.
Proof.
  split; [done|]. split; [apply Forall_replicate, zero_scheme_typed|].
  split; [done|]. split; [done|]. split; [done|]. split; [|done]. apply Forall_replicate. done.
Qed.

Lemma init_terms t : ants_payment_terms_init t = Ok zero_terms tt.
Proof. reflexivity. Qed.

Lemma zero_terms_valid : terms_valid zero_terms.
Proof. split; [apply zero_terms_typed|]. split; [done|]. split; [constructor|done]. Qed.

Lemma live_length t : terms_valid t -> zlen (live t) = n_schemes t.
Proof.
  intros ((Hl & _ & Hn & _) & Hm & _). unfold live, zlen, ANTS_PAYMENT_MAX_SCHEMES in *.
  rewrite length_take. zlia.
Qed.

Lemma add_scheme_spec s t :
  scheme_typed s -> terms_valid t ->
  (ants_payment_scheme_valid s = false ->
     ants_payment_terms_add_scheme s t = Err t ANTS_ERROR_INVALID_ARG) /\
  (ants_payment_scheme_valid s = true -> n_schemes t = ANTS_PAYMENT_MAX_SCHEMES ->
     ants_payment_terms_add_scheme s t = Err t ANTS_ERROR_BUFFER_TOO_SMALL) /\
  (ants_payment_scheme_valid s = true -> n_schemes t < ANTS_PAYMENT_MAX_SCHEMES ->
     exists t', ants_payment_terms_add_scheme s t = Ok t' tt /\ terms_valid t' /\
       live t' = live t ++ [s] /\ validity_unix_s t' = validity_unix_s t /\
       scope t' = scope t /\ notes t' = notes t).
Proof.
  intros Hs Ht. unfold ants_payment_terms_add_scheme, bind, get.
  split; [by intros ->|]. split; [by intros -> ->|]. intros Hv Hlt. rewrite Hv. cbn [negb].
  bdecide. pose proof (live_length t Ht) as Hlen.
  destruct Ht as ((Hl & Hty & Hn & Hva & Hsc & Hno) & Hm & Hlv & Hsb & Hnt).
  unfold ANTS_PAYMENT_MAX_SCHEMES in *. unfold set_at.
  assert (Hz : zlen (schemes t) = 8) by (unfold zlen; by rewrite Hl).
  rewrite Hz. rewrite (proj2 (Z.leb_le 0 _)), (proj2 (Z.ltb_lt _ 8)) by zlia.
  cbn [andb deref]. unfold modify. eexists. split; [done|].
  assert (Hu : u32 (n_schemes t + 1) = n_schemes t + 1) by (apply Z.mod_small; zlia).
  match goal with |- terms_valid ?t' /\ _ => assert (Hlive : live t' = live t ++ [s]) end.
  { unfold live. cbn [schemes n_schemes]. rewrite Hu.
    replace (Z.to_nat (n_schemes t + 1)) with (S (Z.to_nat (n_schemes t))) by zlia.
    rewrite (take_S_r _ _ s) by (apply list_lookup_insert_eq; zlia).
    by rewrite take_insert_ge by lia. }
  split; [|done]. split; [|split; [cbn [n_schemes]; rewrite Hu; unfold ANTS_PAYMENT_MAX_SCHEMES; zlia|]].
  - split; [cbn; by rewrite length_insert|]. split; [by apply Forall_insert|].
    split; [cbn [n_schemes]; rewrite Hu; zlia|]. done.
  - rewrite Hlive. split; [|done]. apply Forall_app. split; [done|]. by constructor.
Qed.

Lemma add_all_spec ss : forall t,
  Forall scheme_typed ss -> terms_valid t ->
  exists t', add_all ss t = Some t' /\ terms_valid t' /\
    live t' = take 8 (live t ++ filter (fun s => ants_payment_scheme_valid s = true) ss) /\
    validity_unix_s t' = validity_unix_s t /\ scope t' = scope t /\ notes t' = notes t.
Proof.
  induction ss as [|s ss IH]; intros t Hss Ht.
  { exists t. rewrite app_nil_r, take_ge; [done|]. destruct Ht as ((Hl & _) & _).
    unfold live. rewrite length_take. lia. }
  apply Forall_cons in Hss as [Hs Hss]. destruct (add_scheme_spec s t Hs Ht) as (Hi & Hf & Hok).
  pose proof (live_length t Ht) as Hlen. cbn [add_all].
  destruct (ants_payment_scheme_valid s) eqn:Hv.
  - rewrite filter_cons_True by done. destruct (decide (n_schemes t = ANTS_PAYMENT_MAX_SCHEMES)).
    + rewrite Hf by done. destruct (IH t Hss Ht) as (t' & He & Hv' & Hlv & Hr).
      exists t'. split; [done|]. split; [done|]. split; [|done]. rewrite Hlv.
      assert (length (live t) = 8%nat) by (unfold zlen, ANTS_PAYMENT_MAX_SCHEMES in *; lia).
      by rewrite !take_app_le, !take_ge by lia.
    + destruct Ht as (Hty & Hm & Hr). destruct Hok as (t1 & -> & Hv1 & Hl1 & H1); [done|lia|].
      destruct (IH t1 Hss Hv1) as (t' & He & Hv' & Hlv & H2). exists t'.
      split; [done|]. split; [done|]. rewrite Hlv, Hl1, <- app_assoc.
      split; [done|]. destruct H1 as (<- & <- & <-). done.
  - rewrite filter_cons_False by congruence. rewrite Hi by done. by apply IH.
Qed.

(** ** Documents and objects *)

Lemma cut_doc_ok t : terms_valid t -> terms_doc_ok (cut t).
Proof.
  intros Ht. pose proof (live_length t Ht) as Hlen.
  destruct Ht as ((Hl & Hty & Hn & Hv & Hsc & Hno) & Hm & Hlv & Hsb & Hnt).
  split; [cbn [d_schemes cut]; unfold zlen in *; rewrite length_map; lia|].
  split; [|split; [done|split; [unfold ANTS_PAYMENT_SCOPE_SUBSCRIPTION in *; cbn; zlia|by eapply text_cut]]].
  apply Forall_map. rewrite Forall_forall in Hlv |- *. intros s Hs.
  assert (Hst : scheme_typed s).
  { rewrite Forall_forall in Hty. apply Hty. unfold live in Hs.
    apply elem_of_take in Hs as (i & Hi & _). by eapply list_elem_of_lookup_2. }
  by apply (scheme_valid_iff s Hst), Hlv.
Qed.

Lemma load_scheme_typed s : scheme_doc_ok s -> scheme_typed (load_scheme s).
Proof.
  intros (Hk & Ha & [Hc Hcl] & [Hra Hal] & [Hrb Hbl] & _). unfold scheme_typed. cbn.
  split; [zlia|]. split; [done|].
  split; [|split]; (split; [by apply pad_bytes|apply pad_length; lia]).
Qed.

Lemma cstr_pad_prefix n p : zlen p < n -> cstr (pad n p) = cstr p.
Proof.
  unfold pad, zlen. intros Hn. destruct (Z.to_nat n - length p)%nat as [|k] eqn:Hk; [lia|].
  clear Hk Hn. induction p as [|c p IH]; [done|]. cbn [app cstr]. by rewrite IH.
Qed.

Lemma load_scheme_valid s : scheme_doc_ok s -> ants_payment_scheme_valid (load_scheme s) = true.
Proof.
  intros Hok. apply (scheme_valid_iff _ (load_scheme_typed s Hok)).
  destruct Hok as (Hk & Ha & [Hcb Hcl] & [Hab Hal] & [Hbb Hbl] & H1 & H2 & H3 & H4 & H5).
  split; [by apply pad_terminated|]. split; [by apply pad_terminated|].
  split; [by apply pad_terminated|].
  unfold scheme_doc_ok, cut_scheme, load_scheme.
  cbn [d_kind d_amount d_currency d_ref_a d_ref_b kind amount currency ref_a ref_b].
  rewrite !cstr_pad_prefix, cstr_idem by done.
  assert (Htx : forall b cap, bytes_ok b -> zlen b < cap -> text_ok (cstr b) cap).
  { intros b c Hb Hl. split; [by apply cstr_bytes|]. destruct (cstr_prefix b) as [r Hr].
    rewrite Hr, zlen_app in Hl. pose proof (zlen_nonneg r). lia. }
  repeat (split; [by auto|]). split; [by intros E; rewrite H2|]. split; [by intros E; rewrite H3|].
  split; [by intros E; rewrite H4|]. done.
Qed.

Lemma load_valid t : terms_doc_ok t -> terms_valid (load t).
Proof.
  intros (Hm & Hs & Hv & Hsc & [Hnb Hnl]). unfold ANTS_PAYMENT_MAX_SCHEMES in *.
  assert (Hlive : live (load t) = map load_scheme (d_schemes t)).
  { unfold live, load. cbn [n_schemes schemes]. rewrite zlen_to_nat.
    rewrite take_app_le, take_ge; rewrite ?length_map; lia || done. }
  split; [|split; [exact Hm|split; [|split; [exact (proj2 Hsc)|by apply pad_terminated]]]].
  - split; [cbn [load schemes]; rewrite length_app, length_map, length_replicate; zlia|].
    split.
    { apply Forall_app. split; [|apply Forall_replicate, zero_scheme_typed].
      apply Forall_map. eapply Forall_impl; [exact Hs|apply load_scheme_typed]. }
    pose proof (zlen_nonneg (d_schemes t)).
    split; [cbn [load n_schemes]; zlia|]. split; [done|]. split; [cbn [load scope]; zlia|].
    split; [by apply pad_bytes|by apply pad_length; lia].
  - rewrite Hlive. apply Forall_map. eapply Forall_impl; [exact Hs|apply load_scheme_valid].
Qed.

(** Strings without an embedded NUL survive the buffer. *)
Definition clean_scheme (s : scheme_doc) : Prop :=
  cstr (d_currency s) = d_currency s /\ cstr (d_ref_a s) = d_ref_a s /\ cstr (d_ref_b s) = d_ref_b s.

Definition clean (t : terms_doc) : Prop :=
  Forall clean_scheme (d_schemes t) /\ cstr (d_notes t) = d_notes t.

Lemma cut_clean t : clean (cut t).
Proof.
  split; [|apply cstr_idem]. apply Forall_map, Forall_forall. intros s _.
  unfold clean_scheme. cbn. by rewrite !cstr_idem.
Qed.

Lemma cut_load t : terms_doc_ok t -> clean t -> cut (load t) = t.
Proof.
  intros (Hm & Hs & Hv & Hsc & [Hnb Hnl]) [Hcs Hcn].
  destruct t as [ss va sc no]. cbn [d_schemes d_validity d_scope d_notes] in *.
  unfold cut, load, live.
  cbn [n_schemes schemes validity_unix_s scope notes d_schemes d_validity d_scope d_notes].
  rewrite zlen_to_nat, take_app_le, take_ge by (rewrite ?length_map; lia).
  rewrite cstr_pad_prefix, Hcn by done. f_equal. rewrite map_map.
  induction Hs as [|s ss Hs Hss IH]; [done|]. apply Forall_cons in Hcs as [(H1 & H2 & H3) Hcs].
  cbn [map]. rewrite IH; [|rewrite zlen_cons in Hm; pose proof (zlen_nonneg ss); lia|done]. f_equal.
  destruct Hs as (_ & _ & [_ ?] & [_ ?] & [_ ?] & _). destruct s. unfold cut_scheme, load_scheme.
  cbn [kind amount currency ref_a ref_b d_kind d_amount d_currency d_ref_a d_ref_b] in *.
  rewrite !cstr_pad_prefix by done. by rewrite H1, H2, H3.
Qed.

(** ** The match test *)

Lemma kind_among_spec k (ss : list ants_payment_scheme_t) n : forall j,
  (j + n <= length ss)%nat ->
  kind_among n (Z.of_nat j) ss k = Some (bool_decide (k ∈ map kind (take n (drop j ss)))).
Proof.
  induction n as [|n IH]; intros j Hj; cbn [kind_among]; [done|].
  destruct (lookup_lt_is_Some_2 ss j ltac:(lia)) as [s Hx]. unfold get_at. bdecide.
  rewrite Nat2Z.id, Hx, (drop_S _ _ _ Hx). cbn [take map].
  destruct (Z.eqb_spec k (kind s)) as [->|Hne].
  - rewrite bool_decide_true; [done|left].
  - replace (Z.of_nat j + 1) with (Z.of_nat (S j)) by lia. rewrite IH by lia. f_equal.
    apply bool_decide_ext. rewrite elem_of_cons. tauto.
Qed.

Lemma kinds_meet_spec b (ss : list ants_payment_scheme_t) n : forall i,
  (i + n <= length ss)%nat -> n_schemes b <= zlen (schemes b) -> 0 <= n_schemes b ->
  kinds_meet n (Z.of_nat i) ss b =
    Some (existsb (fun s => bool_decide (kind s ∈ map kind (live b))) (take n (drop i ss))).
Proof.
  induction n as [|n IH]; intros i Hi Hb Hb0; cbn [kinds_meet]; [done|].
  destruct (lookup_lt_is_Some_2 ss i ltac:(lia)) as [s Hx]. unfold get_at. bdecide.
  rewrite Nat2Z.id, Hx, (drop_S _ _ _ Hx). cbn [take existsb].
  pose proof (kind_among_spec (kind s) (schemes b) (Z.to_nat (n_schemes b)) 0) as Hk.
  rewrite drop_0 in Hk. fold (live b) in Hk. change (Z.of_nat 0) with 0 in Hk.
  rewrite Hk by (unfold zlen in *; lia).
  cbv beta. destruct (bool_decide (kind s ∈ map kind (live b))); cbn [orb]; [done|].
  replace (Z.of_nat i + 1) with (Z.of_nat (S i)) by lia. by apply IH; [lia|..].
Qed.

Definition ncs_scheme : ants_payment_scheme_t :=
  mk_scheme 1 0 (zero_chars 8) (pad 128 [114; 116]) (zero_chars 128).

Definition stripe_scheme : ants_payment_scheme_t :=
  mk_scheme 2 5 (pad 8 [69; 85; 82]) (pad 128 [115]) (zero_chars 128).

Lemma ncs_typed : scheme_typed ncs_scheme.
Proof.
  unfold scheme_typed, chars_ok. split; [done|]. split; [done|].
  split; [split; [by apply Forall_replicate|done]|].
  split; [split; [apply pad_bytes; by repeat constructor|done]|].
  split; [by apply Forall_replicate|done].
Qed.

Lemma stripe_typed : scheme_typed stripe_scheme.
Proof.
  unfold scheme_typed, chars_ok. split; [done|]. split; [done|].
  split; [split; [apply pad_bytes; by repeat constructor|done]|].
  split; [split; [apply pad_bytes; by repeat constructor|done]|].
  split; [by apply Forall_replicate|done].
Qed.

(** A stripe scheme without a currency: refused. *)
Definition bad_scheme : ants_payment_scheme_t := set_currency (zero_chars 8) stripe_scheme.

Lemma bad_typed : scheme_typed bad_scheme.
Proof.
  destruct stripe_typed as (? & ? & _ & ? & ?). split; [done|]. split; [done|].
  split; [split; [by apply Forall_replicate|done]|]. done.
Qed.

Definition demo_terms : ants_payment_terms_t :=
  mk_terms ([ncs_scheme; stripe_scheme] ++ replicate 6 zero_scheme) 2 1700000000 1 (pad 256 [104; 105]).

Lemma demo_terms_valid : terms_valid demo_terms.
Proof.
  unfold terms_valid, terms_typed. split; [|split; [done|split; [by repeat constructor|done]]].
  split; [done|]. split.
  - constructor; [apply ncs_typed|]. constructor; [apply stripe_typed|].
    apply Forall_replicate, zero_scheme_typed.
  - split; [done|]. split; [done|]. split; [done|]. split; [|done].
    apply pad_bytes. by repeat constructor.
Qed.

(** The list of schemes.  After [ants_payment_terms_init] and any
    sequence of [ants_payment_terms_add_scheme] calls the object is a valid
    advertisement, and its schemes are exactly the first eight structurally
    valid schemes that were offered, in that order; refused schemes change
    nothing.  [ants_payment_scheme_valid] accepts a scheme exactly when its
    kind is known, its buffers hold NUL-terminated strings, the fields its
    kind does not use are empty and a Stripe scheme names a currency. *)
Theorem terms_accumulate ss t0 :
  Forall scheme_typed ss ->
  (exists t1 t, ants_payment_terms_init t0 = Ok t1 tt /\ add_all ss t1 = Some t /\ terms_valid t /\
    live t = take 8 (filter (fun s => ants_payment_scheme_valid s = true) ss)) /\
  Forall (fun s => ants_payment_scheme_valid s = true <->
    field_terminated (currency s) 8 = true /\ field_terminated (ref_a s) 128 = true /\
    field_terminated (ref_b s) 128 = true /\ scheme_doc_ok (cut_scheme s)) ss.
Proof.
  intros Hss. split.
  - destruct (add_all_spec ss zero_terms Hss zero_terms_valid) as (t & He & Hv & Hl & _).
    exists zero_terms, t. done.
  - eapply Forall_impl; [exact Hss|apply scheme_valid_iff].
Qed.

Lemma terms_accumulate_witness :
  (exists t1 t, ants_payment_terms_init demo_terms = Ok t1 tt /\
    add_all [ncs_scheme; bad_scheme; stripe_scheme] t1 = Some t /\ terms_valid t /\
    live t = take 8 (filter (fun s => ants_payment_scheme_valid s = true)
                       [ncs_scheme; bad_scheme; stripe_scheme])) /\
  Forall (fun s => ants_payment_scheme_valid s = true <->
    field_terminated (currency s) 8 = true /\ field_terminated (ref_a s) 128 = true /\
    field_terminated (ref_b s) 128 = true /\ scheme_doc_ok (cut_scheme s))
    [ncs_scheme; bad_scheme; stripe_scheme].
Proof.
  exact (terms_accumulate [ncs_scheme; bad_scheme; stripe_scheme] demo_terms
    (Forall_cons_2 _ _ _ ncs_typed (Forall_cons_2 _ _ _ bad_typed
      (Forall_cons_2 _ _ _ stripe_typed (Forall_nil_2 _))))).
Defined.

(** The match test.  [ants_payment_terms_intersects] reports whether
    some scheme of [a] and some scheme of [b] have the same kind, looks at
    the declared schemes only, and does not depend on which side is asked. *)
Theorem intersects_iff a b :
  terms_valid a -> terms_valid b ->
  exists r, ants_payment_terms_intersects a b = Some r /\
    ants_payment_terms_intersects b a = Some r /\
    (r = true <-> exists s s', s ∈ live a /\ s' ∈ live b /\ kind s = kind s').
Proof.
  assert (Hdir : forall a b, terms_valid a -> terms_valid b ->
    exists r, ants_payment_terms_intersects a b = Some r /\
      (r = true <-> exists s s', s ∈ live a /\ s' ∈ live b /\ kind s = kind s')).
  { intros x y ((Hlx & _ & Hnx & _) & Hmx & _) ((Hly & _ & Hny & _) & Hmy & _).
    unfold ANTS_PAYMENT_MAX_SCHEMES, is_u32 in *. unfold ants_payment_terms_intersects.
    pose proof (kinds_meet_spec y (schemes x) (Z.to_nat (n_schemes x)) 0) as Hk.
    change (Z.of_nat 0) with 0 in Hk. rewrite Hk by (unfold zlen; lia). clear Hk.
    rewrite drop_0. fold (live x). eexists. split; [done|]. rewrite existsb_exists.
    setoid_rewrite bool_decide_eq_true. setoid_rewrite <- list_elem_of_In.
    setoid_rewrite list_elem_of_fmap. split.
    - intros (s & Hs & s' & He & Hs'). by exists s, s'.
    - intros (s & s' & Hs & Hs' & He). exists s. split; [done|]. by exists s'. }
  intros Ha Hb. destruct (Hdir a b Ha Hb) as (r & Hr & Hi). destruct (Hdir b a Hb Ha) as (r' & Hr' & Hi').
  exists r. split; [done|]. split; [|done]. rewrite Hr'. f_equal. apply eq_true_iff_eq.
  rewrite Hi, Hi'. split; intros (s & s' & ? & ? & ?); exists s', s; done.
Qed.

Lemma intersects_iff_witness :
  exists r, ants_payment_terms_intersects demo_terms zero_terms = Some r /\
    ants_payment_terms_intersects zero_terms demo_terms = Some r /\
    (r = true <-> exists s s', s ∈ live demo_terms /\ s' ∈ live zero_terms /\ kind s = kind s').
Proof. exact (intersects_iff demo_terms zero_terms demo_terms_valid zero_terms_valid). Defined.
