(* ===== verification/PaymentCodec.v ===== *)
(** * Payment terms on the wire

    The encoder writes one canonical document for a valid advertisement and
    refuses any other; the decoder accepts exactly the canonical encodings of
    the documents [terms_doc_ok] describes, and never leaves its input or the
    object. *)

From S2P Require Import Prelude Cbor CborSpec CborEnc CborCanon CborContract CborKv CborRecord CborCodec Payment PaymentThms.
Import Payment.

(** ** The documents are canonical *)

Lemma text_wf b cap : text_ok b cap -> cap <= SIZE_MAX -> wf (CText b).
Proof. intros [Hb Hl] Hc. split; [done|lia]. Qed.

Lemma scheme_wf s : scheme_doc_ok s -> wf (scheme_cbor s).
Proof.
  intros (Hk & Ha & Hc & Hra & Hrb & _). apply wf_map. unfold scheme_pairs_of.
  assert (wf (CUint (d_kind s))) by (cbn; zlia).
  pose proof (text_wf _ _ Hc ltac:(done)). pose proof (text_wf _ _ Hra ltac:(done)).
  pose proof (text_wf _ _ Hrb ltac:(done)).
  destruct (has _ F_AMOUNT), (has _ F_CURRENCY), (has _ F_REF_A), (has _ F_REF_B);
    cbn [opt app]; (split; [done|]; split; [by repeat constructor|]);
    repeat (constructor; [split; done|]); constructor.
Qed.

Lemma scheme_height s : (height (scheme_cbor s) <= 1)%nat.
Proof.
  apply height_map_le. unfold scheme_pairs_of.
  destruct (has _ F_AMOUNT), (has _ F_CURRENCY), (has _ F_REF_A), (has _ F_REF_B);
    cbn [opt app]; repeat (constructor; [cbn; lia|]); constructor.
Qed.

Lemma terms_wf t : terms_doc_ok t -> wf (terms_cbor t).
Proof.
  intros (Hm & Hs & Hv & Hsc & Hn). apply wf_map.
  split; [done|]. split; [by repeat constructor|].
  assert (wf (CArray (map scheme_cbor (d_schemes t)))).
  { apply wf_array. split.
    - unfold zlen, ANTS_PAYMENT_MAX_SCHEMES in *. rewrite length_map. zlia.
    - apply Forall_map. eapply Forall_impl; [exact Hs|apply scheme_wf]. }
  repeat (constructor; [split; [done|]|]); try done.
  - cbn. zlia.
  - by apply (text_wf _ 256).
Qed.

Lemma terms_height t : (height (terms_cbor t) <= 3)%nat.
Proof.
  assert (height (CArray (map scheme_cbor (d_schemes t))) <= 2)%nat.
  { apply height_array_le, Forall_map, Forall_forall. intros s _.
    pose proof (scheme_height s). lia. }
  apply height_map_le.
  repeat (constructor; [cbn [fst snd]; split; (lia || (cbn [height]; lia))|]). constructor.
Qed.

(** ** The encoder's calls *)

#[export] Instance enc_item_proper : Proper ((≡) ==> (≡)) enc_item.
Proof.
  intros w w' Hw. apply bind_proper; [done|]. intros e. apply bind_proper; [|done].
  by apply on_err_proper.
Qed.

(** Writing the prefix of a buffer is writing that string. *)
Lemma enc_text_slice s p :
  slice s 0 (zlen p) = Some p ->
  ants_cbor_enc_text (Some s) (zlen p) ≡ ants_cbor_enc_text (Some p) (zlen p).
Proof.
  intros Hs. unfold ants_cbor_enc_text. cbn [is_null]. rewrite andb_false_r.
  apply enc_item_proper, bind_proper; [done|]. intros _. split. intros e. unfold enc_copy.
  by rewrite Hs, slice_all.
Qed.

Lemma enc_kv_text_emit key s cap :
  field_terminated s cap = true ->
  enc_kv_text key s ≡ (emit (CUint key) ;* emit (CText (cstr s))).
Proof.
  intros Ht. apply terminated_strlen in Ht as [Hl _]. unfold enc_kv_text. rewrite Hl.
  cbn [emit]. apply bind_proper; [done|]. intros _. rewrite <- enc_text_slice by apply cstr_slice.
  done.
Qed.

Lemma seq_cons {S} (m : action S unit) l : seq_actions (m :: l) = (m ;* seq_actions l).
Proof. reflexivity. Qed.

Lemma seq_app {S} (l l' : list (action S unit)) :
  seq_actions (l ++ l') ≡ (seq_actions l ;* seq_actions l').
Proof.
  induction l as [|m l IH]; cbn [app seq_actions foldr]; [done|].
  rewrite bind_assoc_equiv. apply bind_proper; [done|]. intros _. exact IH.
Qed.

Lemma seq_opt {S} (b : bool) (f : cbor * cbor -> action S unit) x :
  seq_actions (map f (opt b x)) ≡ (if b then f x else ret tt).
Proof. destruct b; [|done]. cbn. apply bind_ret_equiv. Qed.

Lemma scheme_pairs_length s : zlen (scheme_pairs_of s) = scheme_pairs (scheme_field_mask (d_kind s)).
Proof.
  unfold scheme_pairs_of, scheme_pairs.
  by destruct (has _ F_AMOUNT), (has _ F_CURRENCY), (has _ F_REF_A), (has _ F_REF_B).
Qed.

Lemma if_equiv {S A} (b : bool) (m m' k : action S A) :
  (b = true -> m ≡ m') -> (if b then m else k) ≡ (if b then m' else k).
Proof. destruct b; [auto|done]. Qed.

Lemma enc_scheme_emit s :
  scheme_typed s -> ants_payment_scheme_valid s = true ->
  enc_scheme s ≡ emit (scheme_cbor (cut_scheme s)).
Proof.
  intros Hty Hv. apply (scheme_valid_iff s Hty) in Hv as (Tc & Ta & Tb & _).
  unfold enc_scheme. cbn [emit scheme_cbor]. rewrite scheme_pairs_length.
  apply bind_proper; [done|]. intros _. unfold scheme_pairs_of.
  cbn [cut_scheme d_kind d_amount d_currency d_ref_a d_ref_b].
  rewrite map_cons, !map_app, seq_cons.
  apply bind_proper; [done|]. intros _.
  rewrite seq_app, seq_opt. apply bind_proper; [done|]. intros _.
  rewrite seq_app, seq_opt.
  apply bind_proper; [apply if_equiv; intros _; by eapply enc_kv_text_emit|]. intros _.
  rewrite seq_app, seq_opt.
  apply bind_proper; [apply if_equiv; intros _; by eapply enc_kv_text_emit|]. intros _.
  rewrite seq_opt. apply if_equiv; intros _; by eapply enc_kv_text_emit.
Qed.

Lemma enc_schemes_emit (ss : list ants_payment_scheme_t) n : forall i,
  (i + n <= length ss)%nat ->
  Forall (fun s => scheme_typed s /\ ants_payment_scheme_valid s = true) (take n (drop i ss)) ->
  enc_schemes n (Z.of_nat i) ss ≡
    seq_actions (map emit (map scheme_cbor (map cut_scheme (take n (drop i ss))))).
Proof.
  induction n as [|n IH]; intros i Hi Hs; cbn [enc_schemes]; [done|].
  destruct (lookup_lt_is_Some_2 ss i ltac:(lia)) as [s Hx].
  rewrite (drop_S _ _ _ Hx) in *. cbn [take map] in *. rewrite seq_cons.
  apply Forall_cons in Hs as [[Hty Hv] Hs]. unfold get_at. bdecide. rewrite Nat2Z.id, Hx.
  change ((enc_scheme s ;* enc_schemes n (Z.of_nat i + 1) ss) ≡
    (emit (scheme_cbor (cut_scheme s)) ;*
     seq_actions (map emit (map scheme_cbor (map cut_scheme (take n (drop (S i) ss))))))).
  apply bind_proper; [by apply enc_scheme_emit|]. intros _.
  replace (Z.of_nat i + 1) with (Z.of_nat (S i)) by lia. apply IH; [lia|done].
Qed.

Lemma live_typed t : terms_typed t -> Forall scheme_typed (live t).
Proof. intros (_ & Hty & _). by apply Forall_take. Qed.

Lemma terms_body_emit t : terms_valid t -> terms_body t ≡ emit (terms_cbor (cut t)).
Proof.
  intros Ht. pose proof (live_length t Ht) as Hlen.
  destruct Ht as (Hty & Hm & Hlv & Hsb & Hnt). unfold terms_body.
  cbn [emit terms_cbor cut d_schemes d_validity d_scope d_notes map].
  assert (Hz : zlen (map scheme_cbor (map cut_scheme (live t))) = n_schemes t)
    by (unfold zlen in *; by rewrite !length_map).
  rewrite Hz, !seq_cons. apply bind_proper; [done|]. intros _.
  rewrite bind_assoc_equiv. apply bind_proper; [done|]. intros _.
  rewrite bind_assoc_equiv. apply bind_proper; [done|]. intros _.
  change 0 with (Z.of_nat 0). rewrite enc_schemes_emit.
  - unfold live. apply bind_proper; [done|]. intros _.
    apply bind_proper; [done|]. intros _. apply bind_proper; [done|]. intros _.
    rewrite (enc_kv_text_emit _ _ _ Hnt). symmetry. apply bind_ret_equiv.
  - destruct Hty as (Hl & _). unfold ANTS_PAYMENT_MAX_SCHEMES in *. lia.
  - apply Forall_and. split; [by apply live_typed|exact Hlv].
Qed.

Lemma pairs_size l : zlen (encode_pairs l) =
  foldr (fun p n => zlen (encode p.1) + zlen (encode p.2) + n) 0 l.
Proof.
  induction l as [|[k v] l IH]; [done|]. rewrite encode_pairs_cons, !zlen_app.
  cbn [foldr fst snd]. lia.
Qed.

Lemma scheme_size s : scheme_doc_ok s -> zlen (encode (scheme_cbor s)) <= 282.
Proof.
  intros (Hk & Ha & [_ Hc] & [_ Hra] & [_ Hrb] & _).
  change (encode (scheme_cbor s)) with
    (encode_head 5 (zlen (scheme_pairs_of s)) ++ encode_pairs (scheme_pairs_of s)).
  rewrite zlen_app, pairs_size.
  assert (Hp : zlen (scheme_pairs_of s) <= 5).
  { rewrite scheme_pairs_length. unfold scheme_pairs. repeat case_match; lia. }
  rewrite (head_size_tiny 5) by lia. unfold scheme_pairs_of.
  assert (H0 : zlen (encode (CUint (d_kind s))) = 1) by (cbn [encode]; apply head_size_tiny; lia).
  assert (H1 : zlen (encode (CUint (d_amount s))) <= 9) by apply head_size.
  assert (H2 : zlen (encode (CText (d_currency s))) <= 8).
  { cbn [encode]. rewrite zlen_app, head_size_tiny by lia. lia. }
  assert (H3 : zlen (encode (CText (d_ref_a s))) <= 129).
  { cbn [encode]. rewrite zlen_app. pose proof (head_size_u8 3 (zlen (d_ref_a s))). lia. }
  assert (H4 : zlen (encode (CText (d_ref_b s))) <= 129).
  { cbn [encode]. rewrite zlen_app. pose proof (head_size_u8 3 (zlen (d_ref_b s))). lia. }
  destruct (has _ F_AMOUNT), (has _ F_CURRENCY), (has _ F_REF_A), (has _ F_REF_B);
    cbn [opt app foldr fst snd];
    change (zlen (encode (CUint 1))) with 1; change (zlen (encode (CUint 2))) with 1;
    change (zlen (encode (CUint 3))) with 1; change (zlen (encode (CUint 4))) with 1;
    change (zlen (encode (CUint 5))) with 1; lia.
Qed.

Lemma schemes_size l :
  Forall scheme_doc_ok l -> zlen (encodes (map scheme_cbor l)) <= 282 * zlen l.
Proof.
  induction 1 as [|s l Hs _ IH]; [done|]. cbn [map]. rewrite encodes_cons, zlen_app, zlen_cons.
  pose proof (scheme_size s Hs). lia.
Qed.

(** The buffer size ants_payment.h promises is enough. *)
Lemma terms_size t : terms_doc_ok t -> zlen (encode (terms_cbor t)) <= ANTS_PAYMENT_ENCODED_MAX.
Proof.
  intros (Hm & Hs & Hv & Hsc & [_ Hn]). unfold ANTS_PAYMENT_MAX_SCHEMES in *.
  cbn [terms_cbor encode map concat]. rewrite !zlen_app. fold (encodes (map scheme_cbor (d_schemes t))).
  pose proof (schemes_size _ Hs). pose proof (head_size 0 (d_validity t)).
  assert (Hz : zlen (map scheme_cbor (d_schemes t)) = zlen (d_schemes t))
    by (unfold zlen; by rewrite length_map). rewrite Hz.
  rewrite (head_size_tiny 4) by lia. rewrite (head_size_tiny 0 (d_scope t)) by lia.
  pose proof (head_size_u8 3 (zlen (d_notes t)) ltac:(lia)).
  match goal with |- context [encode_head 5 ?n] => change (zlen (encode_head 5 n)) with 1 end.
  rewrite (head_size_tiny 0 1), (head_size_tiny 0 2), (head_size_tiny 0 3), (head_size_tiny 0 4) by lia.
  change (zlen (@nil Z)) with 0. unfold ANTS_PAYMENT_ENCODED_MAX. lia.
Qed.

(** ** Reading text fields *)

Lemma store_text p dst cap :
  zlen dst = cap -> zlen p < cap ->
  exists d1, (if 0 <? zlen p then splice dst 0 p else Some dst) = Some d1 /\
    set_at d1 (zlen p) 0 = Some (put_text p dst).
Proof.
  intros Hd Hp. exists (p ++ drop (length p) dst). split.
  - destruct (Z.ltb_spec 0 (zlen p)) as [|Hz].
    + unfold splice. rewrite (proj2 (Z.leb_le (0 + zlen p) _)) by lia. cbn [andb Z.leb].
      done.
    + destruct p as [|x p]; [done|]. rewrite zlen_cons in Hz. pose proof (zlen_nonneg p). lia.
  - unfold set_at. pose proof (zlen_nonneg p). rewrite zlen_app.
    assert (Hl : zlen (drop (length p) dst) = cap - zlen p) by (unfold zlen in *; rewrite length_drop; lia).
    rewrite Hl. repeat bdecide. cbn [andb]. f_equal. rewrite zlen_to_nat.
    rewrite insert_app_r_alt, Nat.sub_diag by lia. unfold put_text. f_equal.
    destruct (lookup_lt_is_Some_2 dst (length p)) as [x Hx]; [unfold zlen in *; lia|].
    by rewrite (drop_S _ _ _ Hx).
Qed.

Lemma at_text_field d key dst cap p cs :
  zlen dst = cap -> zlen p < cap -> at_ d (CUint key :: CText p :: cs) ->
  exists d', decode_text_field key dst cap d = Ok d' (put_text p dst) /\ at_ d' cs.
Proof.
  intros Hd Hp Hat. destruct (at_expect_key _ _ _ Hat) as (d1 & Hd1 & Hat1).
  destruct (at_read _ CText _ _ _ reader_text Hat1) as (d2 & Hd2 & Hat2).
  exists d2. split; [|done]. unfold decode_text_field, decode_text_into.
  rewrite (bind_Ok _ _ _ _ _ Hd1), (bind_Ok _ _ _ _ _ (map_err_ok _ _ _ _ _ Hd2)). bdecide.
  destruct (store_text p dst cap Hd Hp) as (t & Ht & Hs). unfold bind, deref. by rewrite Ht, Hs.
Qed.

Lemma at_text_field_inv d d' key dst cap b cs :
  zlen dst = cap -> at_ d cs -> decode_text_field key dst cap d = Ok d' b ->
  exists p cs', cs = CUint key :: CText p :: cs' /\ zlen p < cap /\ b = put_text p dst /\ at_ d' cs'.
Proof.
  intros Hd Hat H. unfold decode_text_field, decode_text_into in H.
  apply bind_Ok_inv in H as (d1 & [] & H1 & H).
  destruct (at_expect_key_inv _ _ _ _ Hat H1) as (c1 & -> & Hat1).
  apply bind_Ok_inv in H as (d2 & p & H2%map_err_inv & H).
  destruct (at_read_inv _ CText _ _ _ _ reader_text Hat1 H2) as (c2 & -> & Hat2).
  destruct (Z.leb_spec cap (zlen p)) as [|Hp]; [done|].
  destruct (store_text p dst cap Hd Hp) as (t & Ht & Hs). unfold bind, deref in H.
  rewrite Ht, Hs in H. injection H as <- <-. by exists p, c2.
Qed.

Lemma keeps1_text_field key dst cap : zlen dst = cap -> keeps1 (decode_text_field key dst cap).
Proof.
  intros Hd. unfold decode_text_field, decode_text_into.
  apply keeps1_bind; [auto with ants|intros _].
  apply keeps1_bind; [apply keeps1_map_err, keeps1_text|intros p].
  destruct (Z.leb_spec cap (zlen p)) as [|Hp]; [apply keeps1_fail|].
  destruct (store_text p dst cap Hd Hp) as (t & Ht & Hs). rewrite Ht.
  intros buf d' H. unfold bind, deref. by rewrite Hs.
Qed.

Lemma text_field_length key dst cap d d' b :
  zlen dst = cap -> decode_text_field key dst cap d = Ok d' b -> zlen b = cap.
Proof.
  intros Hd H. unfold decode_text_field, decode_text_into in H.
  apply bind_Ok_inv in H as (d1 & [] & _ & H). apply bind_Ok_inv in H as (d2 & p & _ & H).
  destruct (Z.leb_spec cap (zlen p)) as [|Hp]; [done|].
  destruct (store_text p dst cap Hd Hp) as (t & Ht & Hs). unfold bind, deref in H.
  rewrite Ht, Hs in H. injection H as _ <-. by apply put_text_length.
Qed.

(** Reading a text field into a buffer of the object. *)
Lemma keeps_text {T} (I : T -> Prop) key field cap (store : bytes -> T -> T) :
  (forall t, I t -> zlen (field t) = cap) ->
  (forall b t, I t -> zlen b = cap -> I (store b t)) ->
  keeps I (let* b := text_field_of key field cap in modify_snd (store b)).
Proof.
  intros Hf Hs buf [d t] Hd Ht. cbn [fst snd] in *.
  pose proof (keeps1_text_field key (field t) cap (Hf t Ht) buf d Hd) as Hk.
  unfold bind, text_field_of, on_fst. cbn [fst snd].
  destruct (decode_text_field key (field t) cap d) as [d' b|? ?| |] eqn:E; try done.
  split; [done|]. apply Hs; [done|]. by eapply text_field_length in E; [|apply Hf].
Qed.

(** ** Reading a scheme *)

(** The buffers of a scheme object. *)
Definition scheme_shape (s : ants_payment_scheme_t) : Prop :=
  zlen (currency s) = 8 /\ zlen (ref_a s) = 128 /\ zlen (ref_b s) = 128.

Lemma keeps_decode_scheme : keeps scheme_shape decode_scheme.
Proof.
  unfold decode_scheme, when_field.
  apply keeps_bind; [by apply keeps_modify|intros _].
  apply keeps_bind; [auto with ants|intros n]. apply keeps_bind; [auto with ants|intros k].
  apply keeps_if; intros _; [auto with ants|].
  apply keeps_bind; [by apply keeps_modify|intros _].
  apply keeps_if; intros _; [auto with ants|].
  apply keeps_bind.
  { apply keeps_if; intros _; [|auto with ants]. apply keeps_bind; [auto with ants|].
    intros v. by apply keeps_modify. }
  intros _. apply keeps_bind.
  { apply keeps_if; intros _; [|auto with ants].
    apply (keeps_text _ _ currency); unfold scheme_shape; cbn; tauto. }
  intros _. apply keeps_bind.
  { apply keeps_if; intros _; [|auto with ants].
    apply (keeps_text _ _ ref_a); unfold scheme_shape; cbn; tauto. }
  intros _. apply keeps_bind.
  { apply keeps_if; intros _; [|auto with ants].
    apply (keeps_text _ _ ref_b); unfold scheme_shape; cbn; tauto. }
  intros _. apply keeps_bind; [auto with ants|intros st]. apply keeps_if; auto with ants.
Qed.

Lemma when_uint_ok {T} b key (store : Z -> T -> T) d o v cs :
  at_ d (flat (opt b (CUint key, CUint v)) ++ cs) ->
  exists d', when_field b (on_fst (decode_uint_field key)) store (d, o) =
    Ok (d', if b then store v o else o) tt /\ at_ d' cs.
Proof.
  destruct b; cbn [opt]; intros Hat; [|by exists d].
  destruct (at_uint_field _ _ _ _ Hat) as (d' & Hd & Hat'). exists d'. split; [|done].
  unfold when_field. by rewrite (bind_Ok _ _ _ _ _ (on_fst_ok _ _ _ _ _ Hd)).
Qed.

Lemma when_text_ok {T} b key field cap (store : bytes -> T -> T) d o p cs :
  zlen (field o) = cap -> zlen p < cap -> at_ d (flat (opt b (CUint key, CText p)) ++ cs) ->
  exists d', when_field b (text_field_of key field cap) store (d, o) =
    Ok (d', if b then store (put_text p (field o)) o else o) tt /\ at_ d' cs.
Proof.
  intros Hf Hp. destruct b; cbn [opt]; intros Hat; [|by exists d].
  destruct (at_text_field _ _ _ _ _ _ Hf Hp Hat) as (d' & Hd & Hat'). exists d'. split; [|done].
  unfold when_field. by rewrite (bind_Ok (text_field_of key field cap) _ _ _ _ (on_fst_ok _ _ _ _ _ Hd)).
Qed.

Lemma when_uint_inv {T} b key (store : Z -> T -> T) d o st cs :
  at_ d cs -> when_field b (on_fst (decode_uint_field key)) store (d, o) = Ok st tt ->
  exists v cs', cs = flat (opt b (CUint key, CUint v)) ++ cs' /\ at_ st.1 cs' /\
    st.2 = (if b then store v o else o) /\ (b = false -> v = 0).
Proof.
  intros Hat H. destruct b; [|injection H as <-; by exists 0, cs].
  unfold when_field in H. peel_call H v.
  destruct (at_uint_field_inv _ _ _ _ _ Hat H1) as (cs' & -> & Hat').
  injection H as <-. by exists v, cs'.
Qed.

Lemma when_text_inv {T} b key field cap (store : bytes -> T -> T) d o st cs :
  0 < cap -> zlen (field o) = cap -> at_ d cs ->
  when_field b (text_field_of key field cap) store (d, o) = Ok st tt ->
  exists p cs', cs = flat (opt b (CUint key, CText p)) ++ cs' /\ at_ st.1 cs' /\ zlen p < cap /\
    st.2 = (if b then store (put_text p (field o)) o else o) /\ (b = false -> p = []).
Proof.
  intros Hc Hf Hat H. destruct b; [|injection H as <-; exists [], cs; by split_and!].
  unfold when_field in H. apply bind_Ok_inv in H as (s & b & H1 & H).
  unfold text_field_of in H1. cbn [snd] in H1. apply on_fst_inv in H1 as (d1 & -> & H1).
  destruct (at_text_field_inv _ _ _ _ _ _ _ Hf Hat H1) as (p & cs' & -> & Hp & -> & Hat').
  injection H as <-. by exists p, cs'.
Qed.

Lemma put_pad n p (b : bool) : zlen p < n -> (b = false -> p = []) ->
  (if b then put_text p (zero_chars n) else zero_chars n) = pad n p.
Proof.
  intros Hp Hb. destruct b; [by apply put_text_zero|]. rewrite Hb by done.
  unfold pad, zero_chars. cbn. by rewrite Nat.sub_0_r.
Qed.

(** The object after the optional fields, in one step. *)
Lemma loaded_scheme k v c ra rb (b1 b2 b3 b4 : bool) :
  zlen c < 8 -> zlen ra < 128 -> zlen rb < 128 ->
  (b1 = false -> v = 0) -> (b2 = false -> c = []) -> (b3 = false -> ra = []) -> (b4 = false -> rb = []) ->
  let o0 := mk_scheme k 0 (zero_chars 8) (zero_chars 128) (zero_chars 128) in
  let o1 := if b1 then mk_scheme k v (zero_chars 8) (zero_chars 128) (zero_chars 128) else o0 in
  let o2 := if b2 then set_currency (put_text c (currency o1)) o1 else o1 in
  let o3 := if b3 then set_ref_a (put_text ra (ref_a o2)) o2 else o2 in
  (if b4 then set_ref_b (put_text rb (ref_b o3)) o3 else o3) = load_scheme (mk_sdoc k v c ra rb).
Proof.
  intros Hc Ha Hb H1 H2 H3 H4. unfold load_scheme. cbn [d_kind d_amount d_currency d_ref_a d_ref_b].
  rewrite <- (put_pad 8 c b2), <- (put_pad 128 ra b3), <- (put_pad 128 rb b4) by done.
  destruct b1; [|rewrite H1 by done]; destruct b2, b3, b4; reflexivity.
Qed.

Lemma decode_scheme_ok d old s cs :
  scheme_doc_ok s -> at_ d (scheme_cbor s :: cs) ->
  exists d', decode_scheme (d, old) = Ok (d', load_scheme s) tt /\ at_ d' cs.
Proof.
  intros Hok Hat. pose proof (load_scheme_valid s Hok) as Hv.
  destruct Hok as (Hk & Ha & [_ Hc] & [_ Hra] & [_ Hrb] & H1 & H2 & H3 & H4 & _).
  destruct (at_map _ _ _ Hat) as (d1 & Hd1 & Hat1). unfold scheme_pairs_of in Hat1.
  rewrite flat_cons, !flat_app in Hat1. cbn [app] in Hat1. rewrite <- !app_assoc in Hat1.
  unfold decode_scheme. unfold bind at 1, modify_snd. cbn [fst snd].
  rewrite (bind_Ok _ _ _ _ _ (on_fst_ok _ _ _ _ _ (map_err_ok _ _ _ _ _ Hd1))).
  read_field at_uint_field Hat1. unfold ANTS_PAYMENT_SCHEME_CUSTOM. bdecide.
  unfold bind at 1. cbn [fst snd]. rewrite scheme_pairs_length, Z.eqb_refl. cbn [negb].
  set (o0 := mk_scheme (d_kind s) (amount zero_scheme) (currency zero_scheme) (ref_a zero_scheme)
               (ref_b zero_scheme)).
  destruct (when_uint_ok _ PAY_KEY_AMOUNT
    (fun v s => mk_scheme (kind s) v (currency s) (ref_a s) (ref_b s)) _ o0 _ _ Hat1)
    as (d2 & Hd2 & Hat2). rewrite (bind_Ok _ _ _ _ _ Hd2).
  match type of Hd2 with _ = Ok (_, ?o) _ => set (o1 := o) in * end.
  assert (Hf1 : zlen (currency o1) = 8) by (unfold o1; by destruct (has _ _)).
  destruct (when_text_ok _ PAY_KEY_CURRENCY currency 8 set_currency _ o1 _ _ Hf1 Hc Hat2) as (d3 & Hd3 & Hat3).
  rewrite (bind_Ok _ _ _ _ _ Hd3). match type of Hd3 with _ = Ok (_, ?o) _ => set (o2 := o) in * end.
  assert (Hf2 : zlen (ref_a o2) = 128) by (unfold o2, o1; by do 2 destruct (has _ _)).
  destruct (when_text_ok _ PAY_KEY_REF_A ref_a 128 set_ref_a _ o2 _ _ Hf2 Hra Hat3) as (d4 & Hd4 & Hat4).
  rewrite (bind_Ok _ _ _ _ _ Hd4). match type of Hd4 with _ = Ok (_, ?o) _ => set (o3 := o) in * end.
  assert (Hf3 : zlen (ref_b o3) = 128) by (unfold o3, o2, o1; by do 3 destruct (has _ _)).
  destruct (when_text_ok _ PAY_KEY_REF_B ref_b 128 set_ref_b _ o3 _ _ Hf3 Hrb Hat4) as (d5 & Hd5 & Hat5).
  rewrite (bind_Ok _ _ _ _ _ Hd5).
  exists d5. split; [|done].
  assert (Ho : (if has (scheme_field_mask (d_kind s)) F_REF_B
                then set_ref_b (put_text (d_ref_b s) (ref_b o3)) o3 else o3) = load_scheme s).
  { destruct s. by apply loaded_scheme. }
  rewrite Ho. unfold bind, get. cbn [snd]. by rewrite Hv.
Qed.

Lemma opt_wf (b : bool) k v l :
  Forall (fun p : cbor * cbor => wf p.1 /\ wf p.2) (opt b (k, v) ++ l) ->
  (b = true -> wf v) /\ Forall (fun p => wf p.1 /\ wf p.2) l.
Proof. destruct b; cbn [opt app]; [|done]. intros [[_ H] Hl]%Forall_cons. done. Qed.

(** The well-formed map of a scheme, with the checks the decoder makes. *)
Lemma scheme_doc_of s :
  wf (scheme_cbor s) -> d_kind s <= 5 ->
  zlen (d_currency s) < 8 -> zlen (d_ref_a s) < 128 -> zlen (d_ref_b s) < 128 ->
  (has (scheme_field_mask (d_kind s)) F_AMOUNT = false -> d_amount s = 0) ->
  (has (scheme_field_mask (d_kind s)) F_CURRENCY = false -> d_currency s = []) ->
  (has (scheme_field_mask (d_kind s)) F_REF_A = false -> d_ref_a s = []) ->
  (has (scheme_field_mask (d_kind s)) F_REF_B = false -> d_ref_b s = []) ->
  ants_payment_scheme_valid (load_scheme s) = true ->
  scheme_doc_ok s.
Proof.
  intros (_ & _ & Hw)%wf_map Hk Hc Ha Hb H1 H2 H3 H4 Hv. unfold scheme_pairs_of in Hw.
  apply Forall_cons in Hw as [[_ Hkw] Hw]. cbn [snd wf] in Hkw.
  apply opt_wf in Hw as [W1 Hw]. apply opt_wf in Hw as [W2 Hw]. apply opt_wf in Hw as [W3 Hw].
  rewrite <- (app_nil_r (opt _ _)) in Hw. apply opt_wf in Hw as [W4 _].
  assert (Hamt : is_u64 (d_amount s)).
  { destruct (has _ F_AMOUNT); [by apply W1|]. by rewrite H1. }
  assert (Tc : text_ok (d_currency s) 8).
  { split; [|done]. destruct (has _ F_CURRENCY); [by apply W2|]. rewrite H2 by done. constructor. }
  assert (Ta : text_ok (d_ref_a s) 128).
  { split; [|done]. destruct (has _ F_REF_A); [by apply W3|]. rewrite H3 by done. constructor. }
  assert (Tb : text_ok (d_ref_b s) 128).
  { split; [|done]. destruct (has _ F_REF_B); [by apply W4|]. rewrite H4 by done. constructor. }
  unfold scheme_doc_ok. split; [zlia|]. repeat (split; [done|]). intros Hst.
  assert (Hty : scheme_typed (load_scheme s)).
  { unfold scheme_typed. cbn. destruct Tc, Ta, Tb. split; [zlia|]. split; [done|].
    split; [|split]; (split; [by apply pad_bytes|apply pad_length; lia]). }
  apply (scheme_valid_iff _ Hty) in Hv as (_ & _ & _ & Hd).
  destruct Hd as (_ & _ & _ & _ & _ & _ & _ & _ & _ & Hs5).
  specialize (Hs5 Hst). cbn [cut_scheme d_currency load_scheme currency] in Hs5.
  by rewrite cstr_pad_prefix, cstr_idem in Hs5.
Qed.

Lemma decode_scheme_inv d old st cs :
  at_ d cs -> decode_scheme (d, old) = Ok st tt ->
  exists s cs', cs = scheme_cbor s :: cs' /\ scheme_doc_ok s /\ at_ st.1 cs' /\ st.2 = load_scheme s.
Proof.
  intros Hat H. assert (Hwf : Forall wf cs) by (by destruct Hat as (? & ? & _ & _ & ?)).
  unfold decode_scheme in H. peel_store H. peel_call H n. apply map_err_inv in H1.
  destruct (at_map_inv _ _ _ _ Hat H1) as (l & c0 & -> & -> & Hat1). clear H1 Hat.
  apply bind_Ok_inv in H as (s0 & k & Hk & H). apply on_fst_inv in Hk as (dk & -> & Hk).
  destruct (at_uint_field_inv _ _ _ _ _ Hat1 Hk) as (c1 & E1 & Hat2). clear Hk Hat1.
  destruct (Z.ltb_spec ANTS_PAYMENT_SCHEME_CUSTOM k) as [|Hk5]; [done|]. peel_store H.
  destruct (Z.eqb_spec (zlen l) (scheme_pairs (scheme_field_mask k))) as [Hn|]; [|done].
  cbn [negb] in H. cbn [zero_scheme amount currency ref_a ref_b] in H.
  apply bind_Ok_inv in H as ([d2 o2] & [] & H2 & H).
  destruct (when_uint_inv _ _ _ _ _ _ _ Hat2 H2) as (v & c2 & -> & Hat3 & Eo2 & Z1).
  apply bind_Ok_inv in H as ([d3 o3] & [] & H3 & H). cbn [fst snd] in *.
  assert (Hf3 : zlen (currency o2) = ANTS_PAYMENT_CURRENCY_MAX) by (subst o2; by destruct (has _ _)).
  destruct (when_text_inv _ _ _ ANTS_PAYMENT_CURRENCY_MAX _ _ _ _ _ ltac:(done) Hf3 Hat3 H3)
    as (pc & c3 & -> & Hat4 & Hpc & Eo3 & Z2).
  apply bind_Ok_inv in H as ([d4 o4] & [] & H4 & H). cbn [fst snd] in *.
  assert (Hf4 : zlen (ref_a o3) = ANTS_PAYMENT_REF_MAX) by (subst o2 o3; by do 2 destruct (has _ _)).
  destruct (when_text_inv _ _ _ ANTS_PAYMENT_REF_MAX _ _ _ _ _ ltac:(done) Hf4 Hat4 H4)
    as (pa & c4 & -> & Hat5 & Hpa & Eo4 & Z3).
  apply bind_Ok_inv in H as ([d5 o5] & [] & H5 & H). cbn [fst snd] in *.
  assert (Hf5 : zlen (ref_b o4) = ANTS_PAYMENT_REF_MAX) by (subst o2 o3 o4; by do 3 destruct (has _ _)).
  destruct (when_text_inv _ _ _ ANTS_PAYMENT_REF_MAX _ _ _ _ _ ltac:(done) Hf5 Hat5 H5)
    as (pb & c5 & -> & Hat6 & Hpb & Eo5 & Z4).
  cbn [fst snd] in *. set (s := mk_sdoc k v pc pa pb).
  assert (Ho : o5 = load_scheme s).
  { subst o5 o4 o3 o2. by apply loaded_scheme. }
  unfold bind, get in H. cbn [snd] in H.
  destruct (ants_payment_scheme_valid o5) eqn:Hv; [|done]. injection H as <-.
  assert (El : l = scheme_pairs_of s /\ c0 = c5).
  { apply (flat_inj l (scheme_pairs_of s)); [by rewrite scheme_pairs_length|].
    unfold scheme_pairs_of. rewrite flat_cons, !flat_app. cbn [app].
    rewrite <- !app_assoc. exact E1. }
  destruct El as [-> ->]. exists s, c5. split; [done|]. split; [|done].
  apply Forall_cons in Hwf as [Hwf _]. rewrite Ho in Hv. by apply scheme_doc_of.
Qed.

(** ** Reading the terms object *)

Definition terms_shape (t : ants_payment_terms_t) : Prop :=
  length (schemes t) = 8%nat /\ Forall scheme_shape (schemes t) /\ zlen (notes t) = 256.

Lemma zero_shape : terms_shape zero_terms.
Proof. split; [done|]. split; [|done]. apply Forall_replicate. done. Qed.

Lemma shape_scheme t i :
  terms_shape t -> (i < 8)%nat -> exists s, schemes t !! i = Some s /\ scheme_shape s.
Proof.
  intros (Hl & Hs & _) Hi. destruct (lookup_lt_is_Some_2 (schemes t) i ltac:(lia)) as [s Hx].
  exists s. split; [done|]. by apply (Forall_lookup_1 _ _ _ _ Hs Hx).
Qed.

Lemma shape_put t i s :
  terms_shape t -> scheme_shape s -> terms_shape (set_schemes (<[i:=s]> (schemes t)) t).
Proof.
  intros (Hl & Hs & Hn) Hx. split; [cbn; by rewrite length_insert|].
  split; [by apply Forall_insert|done].
Qed.

Lemma keeps_at_scheme i m :
  0 <= i < 8 -> keeps scheme_shape m -> keeps terms_shape (at_scheme i m).
Proof.
  intros Hi Hm buf [d t] Hd Ht. cbn [fst snd] in *.
  destruct (shape_scheme t (Z.to_nat i) Ht ltac:(lia)) as (s & Hx & Hs).
  unfold at_scheme, get_at. cbn [fst snd]. bdecide. rewrite Hx.
  specialize (Hm buf (d, s) Hd Hs).
  destruct (m (d, s)) as [[d' s'] ?|[d' s'] ?| |]; cbn [fst snd] in *; try done.
  - destruct Hm as [? ?]. split; [done|]. by apply shape_put.
  - by apply shape_put.
Qed.

Lemma keeps_terms_body : keeps terms_shape terms_decode_body.
Proof.
  unfold terms_decode_body.
  apply keeps_bind; [auto with ants|intros n]. apply keeps_if; intros _; [auto with ants|].
  apply keeps_bind; [auto with ants|intros _]. apply keeps_bind; [auto with ants|intros k].
  apply keeps_if; intros Hk; [auto with ants|]. breflect. unfold ANTS_PAYMENT_MAX_SCHEMES in *.
  apply keeps_bind.
  { apply keeps_for; [lia|lia|]. intros j Hj. apply keeps_at_scheme; [lia|].
    apply keeps_decode_scheme. }
  intros _. apply keeps_bind; [by apply keeps_modify|intros _].
  apply keeps_bind; [auto with ants|intros v]. apply keeps_bind; [by apply keeps_modify|intros _].
  apply keeps_bind; [auto with ants|intros sc]. apply keeps_if; intros _; [auto with ants|].
  apply keeps_bind; [by apply keeps_modify|intros _].
  apply (keeps_text _ _ notes); unfold terms_shape; cbn; tauto.
Qed.

Definition put_scheme (i : nat) (s : scheme_doc) (t : ants_payment_terms_t) : ants_payment_terms_t :=
  set_schemes (<[i := load_scheme s]> (schemes t)) t.

Lemma load_scheme_shape s : scheme_doc_ok s -> scheme_shape (load_scheme s).
Proof.
  intros (_ & _ & [_ ?] & [_ ?] & [_ ?] & _). unfold scheme_shape. cbn [load_scheme currency ref_a ref_b].
  rewrite !pad_length by lia. done.
Qed.

Lemma puts_schemes l : forall i t, (i + length l <= length (schemes t))%nat ->
  puts put_scheme i l t =
    set_schemes (take i (schemes t) ++ map load_scheme l ++ drop (i + length l) (schemes t)) t.
Proof.
  induction l as [|s l IH]; intros i t Hi; cbn [puts map length app] in *.
  { rewrite Nat.add_0_r, take_drop. by destruct t. }
  rewrite IH by (cbn [put_scheme schemes set_schemes]; rewrite length_insert; lia).
  unfold put_scheme, set_schemes. cbn [schemes n_schemes validity_unix_s scope notes]. f_equal.
  rewrite (take_S_r _ _ (load_scheme s)) by (apply list_lookup_insert_eq; lia).
  rewrite take_insert_ge, drop_insert_lt by lia. rewrite <- app_assoc. cbn [app].
  by replace (i + S (length l))%nat with (S i + length l)%nat by lia.
Qed.

Lemma put_scheme_shape i s t :
  (i < 8)%nat -> scheme_doc_ok s -> terms_shape t -> terms_shape (put_scheme i s t).
Proof. intros _ Hs Ht. apply shape_put; [done|by apply load_scheme_shape]. Qed.

Lemma at_scheme_ok d t k s cs :
  terms_shape t -> (k < 8)%nat -> scheme_doc_ok s -> at_ d (scheme_cbor s :: cs) ->
  exists d', at_scheme (Z.of_nat k) decode_scheme (d, t) = Ok (d', put_scheme k s t) tt /\ at_ d' cs.
Proof.
  intros Ht Hk Hs Hat. destruct (shape_scheme t k Ht Hk) as (o & Hx & _).
  destruct (decode_scheme_ok d o s cs Hs Hat) as (d' & Hd & Hat'). exists d'. split; [|done].
  unfold at_scheme, get_at. cbn [fst snd]. bdecide. by rewrite Nat2Z.id, Hx, Hd.
Qed.

Lemma at_scheme_inv d t k st cs :
  terms_shape t -> (k < 8)%nat -> at_ d cs ->
  at_scheme (Z.of_nat k) decode_scheme (d, t) = Ok st tt ->
  exists s cs', cs = scheme_cbor s :: cs' /\ scheme_doc_ok s /\ at_ st.1 cs' /\
    st.2 = put_scheme k s t.
Proof.
  intros Ht Hk Hat H. destruct (shape_scheme t k Ht Hk) as (o & Hx & _).
  unfold at_scheme, get_at in H. cbn [fst snd] in H. rewrite (proj2 (Z.leb_le 0 _)) in H by lia.
  rewrite Nat2Z.id, Hx in H.
  destruct (decode_scheme (d, o)) as [[d' o'] []|[? ?] ?| |] eqn:E; try done. injection H as <-.
  destruct (decode_scheme_inv d o _ cs Hat E) as (s & cs' & -> & Hs & Hat' & Eo).
  cbn [fst snd] in *. subst o'. by exists s, cs'.
Qed.

Lemma loaded_schemes l :
  (length l <= 8)%nat ->
  puts put_scheme 0 l zero_terms =
    set_schemes (map load_scheme l ++ replicate (8 - length l) zero_scheme) zero_terms.
Proof.
  intros Hl. rewrite puts_schemes by (cbn [zero_terms schemes]; rewrite length_replicate;
    unfold ANTS_PAYMENT_MAX_SCHEMES; lia).
  cbn [zero_terms schemes take app Nat.add]. by rewrite drop_replicate.
Qed.

Lemma terms_read_ok d t :
  terms_doc_ok t -> at_ d [terms_cbor t] ->
  exists d', terms_decode_body (d, zero_terms) = Ok (d', load t) tt /\ at_ d' [].
Proof.
  intros (Hm & Hs & Hv & Hsc & [_ Hn]) Hat. unfold ANTS_PAYMENT_MAX_SCHEMES in Hm.
  unfold terms_decode_body. destruct (at_map _ _ _ Hat) as (d1 & Hd1 & Hat1).
  rewrite !flat_cons in Hat1. cbn [app] in Hat1.
  rewrite (bind_Ok _ _ _ _ _ (on_fst_ok _ _ _ _ _ (map_err_ok _ _ _ _ _ Hd1))).
  match goal with |- context [negb (?a =? PAY_TERMS_PAIRS)] =>
    replace (negb (a =? PAY_TERMS_PAIRS)) with false by done end.
  destruct (at_expect_key _ _ _ Hat1) as (d2 & Hd2 & Hat2).
  rewrite (bind_Ok _ _ _ _ _ (on_fst_ok _ _ _ _ _ Hd2)).
  destruct (at_array _ _ _ Hat2) as (d3 & Hd3 & Hat3).
  rewrite (bind_Ok _ _ _ _ _ (on_fst_ok _ _ _ _ _ (map_err_ok _ _ _ _ _ Hd3))).
  assert (Hz : zlen (map scheme_cbor (d_schemes t)) = zlen (d_schemes t))
    by (unfold zlen; by rewrite length_map). rewrite Hz.
  replace (ANTS_PAYMENT_MAX_SCHEMES <? zlen (d_schemes t)) with false
    by (unfold ANTS_PAYMENT_MAX_SCHEMES; zlia).
  destruct (loop_ok scheme_cbor scheme_doc_ok terms_shape put_scheme
    (fun i => at_scheme i decode_scheme) 8) with (l := d_schemes t)
    (f := Z.to_nat ANTS_PAYMENT_MAX_SCHEMES) (i := 0%nat) (d := d3) (t := zero_terms)
    (cs := [CUint 2; CUint (d_validity t); CUint 3; CUint (d_scope t); CUint 4; CText (d_notes t)])
    as (d4 & Hd4 & Hat4); try done.
  { apply put_scheme_shape. }
  { intros. by apply at_scheme_ok. }
  { apply zero_shape. }
  { unfold zlen in Hm. lia. }
  { unfold zlen in Hm. unfold ANTS_PAYMENT_MAX_SCHEMES. lia. }
  change (Z.of_nat 0) with 0 in Hd4. rewrite Z.add_0_l in Hd4. rewrite (bind_Ok _ _ _ _ _ Hd4).
  rewrite loaded_schemes by (unfold zlen in Hm; lia).
  unfold bind at 1, modify_snd; cbn [fst snd]. read_field at_uint_field Hat4.
  unfold bind at 1, modify_snd; cbn [fst snd]. read_field at_uint_field Hat4.
  replace (ANTS_PAYMENT_SCOPE_SUBSCRIPTION <? d_scope t) with false
    by (unfold ANTS_PAYMENT_SCOPE_SUBSCRIPTION; zlia).
  unfold bind at 1, modify_snd; cbn [fst snd].
  destruct (when_text_ok true PAY_KEY_NOTES notes 256
    (fun b t => mk_terms (schemes t) (n_schemes t) (validity_unix_s t) (scope t) b) _
    (mk_terms (schemes (load t)) (u32 (zlen (d_schemes t))) (d_validity t) (d_scope t)
       (notes zero_terms)) (d_notes t) [] eq_refl Hn Hat4) as (dz & Hdz & Hatz).
  exists dz. split; [|done]. etransitivity; [exact Hdz|].
  cbn [notes zero_terms schemes n_schemes validity_unix_s scope].
  unfold ANTS_PAYMENT_NOTES_MAX. rewrite put_text_zero by done.
  pose proof (zlen_nonneg (d_schemes t)).
  replace (u32 (zlen (d_schemes t))) with (zlen (d_schemes t))
    by (symmetry; apply Z.mod_small; lia). done.
Qed.

Lemma terms_read_inv d st items :
  at_ d items -> terms_decode_body (d, zero_terms) = Ok st tt ->
  exists t cs, items = terms_cbor t :: cs /\ terms_doc_ok t /\ at_ st.1 cs /\ st.2 = load t.
Proof.
  intros Hat H. assert (Hwf : Forall wf items) by (by destruct Hat as (? & ? & _ & _ & ?)).
  unfold terms_decode_body in H. peel_call H n. apply map_err_inv in H1.
  destruct (at_map_inv _ _ _ _ Hat H1) as (l & c0 & -> & -> & Hat1). clear H1 Hat.
  destruct (Z.eqb_spec (zlen l) PAY_TERMS_PAIRS) as [Hl|]; [|done]. cbn [negb] in H.
  peel_call H u. destruct u. destruct (at_expect_key_inv _ _ _ _ Hat1 H1) as (c1 & E1 & Hat2).
  clear Hat1 H1. peel_call H n. apply map_err_inv in H1.
  destruct (at_array_inv _ _ _ _ Hat2 H1) as (ss & c2 & -> & -> & Hat3). clear Hat2 H1.
  destruct (Z.ltb_spec ANTS_PAYMENT_MAX_SCHEMES (zlen ss)) as [|Hm]; [done|].
  unfold ANTS_PAYMENT_MAX_SCHEMES in Hm.
  apply bind_Ok_inv in H as ([d4 t4] & [] & Hloop & H). change 0 with (Z.of_nat 0) in Hloop at 1.
  pose proof (zlen_nonneg ss).
  assert (Hr : Z.of_nat 0 <= zlen ss <= Z.of_nat 8) by lia.
  destruct (loop_inv scheme_cbor scheme_doc_ok terms_shape put_scheme
    (fun i => at_scheme i decode_scheme) 8 put_scheme_shape at_scheme_inv _ _ _ _ _ _ (ss ++ c2)
    zero_shape Hr Hat3 Hloop) as (docs & c3 & E3 & Hz & Hdocs & Hat4 & Et).
  cbn [fst snd] in *. change (Z.of_nat 0) with 0 in Hz. rewrite Z.sub_0_r in Hz.
  apply app_inj_1 in E3 as [-> ->]; [|unfold zlen in Hz; rewrite length_map; lia].
  rewrite loaded_schemes in Et by (unfold zlen in *; lia). subst t4. rewrite <- Hz in *.
  peel_store H. peel_call H va. destruct (at_uint_field_inv _ _ _ _ _ Hat4 H1) as (c4 & -> & Hat5).
  clear H1 Hat4. peel_store H.
  peel_call H xs. destruct (at_uint_field_inv _ _ _ _ _ Hat5 H1) as (c5 & -> & Hat6).
  clear H1 Hat5. destruct (Z.ltb_spec ANTS_PAYMENT_SCOPE_SUBSCRIPTION xs) as [|Hsc]; [done|].
  peel_store H.
  match type of H with bind _ _ (_, ?o) = _ =>
    destruct (when_text_inv true PAY_KEY_NOTES notes 256
      (fun b t => mk_terms (schemes t) (n_schemes t) (validity_unix_s t) (scope t) b) _ o st _
      eq_refl eq_refl Hat6 H) as (no & c6 & -> & Hat7 & Hn & Est & _) end.
  set (t := mk_tdoc docs va xs no). exists t, c6.
  assert (El : l = [(CUint PAY_KEY_SCHEMES, CArray (map scheme_cbor docs));
    (CUint PAY_KEY_VALIDITY, CUint va); (CUint PAY_KEY_SCOPE, CUint xs);
    (CUint PAY_KEY_NOTES, CText no)] /\ c0 = c6) by (by apply flat_inj).
  destruct El as [-> ->]. apply Forall_cons in Hwf as [(_ & _ & Hw)%wf_map _].
  do 4 (apply Forall_cons in Hw as [[_ ?] Hw]). cbn [snd wf] in *.
  split; [done|]. split; [|split; [done|]].
  - unfold ANTS_PAYMENT_SCOPE_SUBSCRIPTION in *. unfold terms_doc_ok, text_ok.
    cbn [t d_schemes d_validity d_scope d_notes].
    split; [exact Hm|]. split; [done|]. split; [done|]. split; [unfold is_u64 in *; lia|]. split; [tauto|done].

  - rewrite Est. cbn [notes zero_terms schemes n_schemes validity_unix_s scope set_schemes].
    unfold ANTS_PAYMENT_NOTES_MAX. rewrite put_text_zero by done.
    replace (u32 (zlen docs)) with (zlen docs) by (symmetry; apply Z.mod_small; lia). done.
Qed.

(** ** Error codes *)

Lemma codes_text_field key dst cap : codes decode_error (decode_text_field key dst cap).
Proof.
  unfold decode_text_field, decode_text_into. apply codes_bind; [auto with ants|intros _].
  apply codes_bind; [apply codes_map_err; apply norm_decode_error|intros p].
  apply codes_if; [auto with ants|]. intros d. unfold bind, deref. by repeat case_match.
Qed.

Lemma codes_text_of {T} key (field : T -> bytes) cap :
  codes decode_error (text_field_of key field cap).
Proof. intros [d t]. apply (codes_fst decode_error _ (codes_text_field key (field t) cap) (d, t)). Qed.

Lemma codes_when {T A} b (m : action (ants_cbor_dec_t * T) A) store :
  codes decode_error m -> codes decode_error (when_field b m store).
Proof.
  intros Hm. unfold when_field. apply codes_if; [|auto with ants].
  apply codes_bind; [done|auto with ants].
Qed.

#[export] Hint Resolve codes_text_of codes_when : ants.

Lemma codes_decode_scheme : codes decode_error decode_scheme.
Proof.
  unfold decode_scheme. repeat first
    [ apply codes_bind; [solve [auto with ants]|intros ?]
    | apply codes_if; [solve [auto with ants]|] ].
  apply codes_bind; [by intros s|intros st]. apply codes_if; auto with ants.
Qed.

Lemma codes_at_scheme i m : codes decode_error m -> codes decode_error (at_scheme i m).
Proof.
  intros Hm [d t]. unfold at_scheme. destruct (get_at _ _) as [s|]; [|done]. cbn [fst snd].
  specialize (Hm (d, s)). by destruct (m (d, s)) as [[? ?] ?|[? ?] ?| |].
Qed.

Lemma codes_terms_body : codes decode_error terms_decode_body.
Proof.
  unfold terms_decode_body. repeat first
    [ apply codes_bind; [solve [auto with ants]|intros ?]
    | apply codes_if; [solve [auto with ants]|]
    | solve [auto with ants] ].
  apply codes_bind; [apply codes_for; intros j; apply codes_at_scheme, codes_decode_scheme|intros _].
  repeat first
    [ apply codes_bind; [solve [auto with ants]|intros ?]
    | apply codes_if; [solve [auto with ants]|]
    | solve [auto with ants] ].
Qed.

(** ** The codec interface *)

#[export] Instance terms_codec : RecordCodec ants_payment_terms_t := {
  codec_doc t := terms_cbor (cut t);
  codec_max := ANTS_PAYMENT_ENCODED_MAX;
  codec_body := terms_body;
  codec_read := terms_decode_body;
  codec_ok := terms_valid;
  codec_obj t := t = zero_terms;
  codec_same t t' := cut t' = cut t;
  codec_from t c := exists doc, terms_doc_ok doc /\ t = load doc /\ c = terms_cbor doc
}.

#[export] Instance terms_codec_laws : RecordCodecLaws ants_payment_terms_t.
Proof.
  split; cbn [codec_doc codec_max codec_body codec_read codec_ok codec_obj codec_same codec_from
    terms_codec].
  - intros t Ht. by apply terms_wf, cut_doc_ok.
  - intros t _. pose proof (terms_height (cut t)). lia.
  - intros t Ht. by apply terms_size, cut_doc_ok.
  - done.
  - intros t e Ht. apply (same_run _ _ (terms_body_emit t Ht)).
  - exists terms_shape. split; [intros t ->; apply zero_shape|apply keeps_terms_body].
  - apply codes_terms_body.
  - intros d old t -> Ht Hat. pose proof (cut_doc_ok t Ht) as Hd.
    destruct (terms_read_ok d (cut t) Hd Hat) as (d' & Hrun & Hat').
    exists d', (load (cut t)). split; [done|]. split; [done|].
    split; [by apply cut_load, cut_clean|by apply load_valid].
  - intros d old st items -> Hat Hrun.
    destruct (terms_read_inv d st items Hat Hrun) as (t & cs & -> & Ht & Hat' & ->). eauto 10.
Qed.

Lemma schemes_valid_spec (ss : list ants_payment_scheme_t) n : forall i,
  (i + n <= length ss)%nat ->
  schemes_valid n (Z.of_nat i) ss = Some (forallb ants_payment_scheme_valid (take n (drop i ss))).
Proof.
  induction n as [|n IH]; intros i Hi; cbn [schemes_valid]; [done|].
  destruct (lookup_lt_is_Some_2 ss i ltac:(lia)) as [s Hx]. unfold get_at. bdecide.
  rewrite Nat2Z.id, Hx, (drop_S _ _ _ Hx). cbn [take forallb].
  destruct (ants_payment_scheme_valid s); cbn [negb andb]; [|done].
  replace (Z.of_nat i + 1) with (Z.of_nat (S i)) by lia. apply IH. lia.
Qed.

(** The checks before the first byte is written decide validity. *)
Lemma encode_guard t cap buf :
  terms_typed t ->
  (terms_valid t /\ ants_payment_terms_encode t cap buf = with_encoder cap (terms_body t) buf) \/
  (~ terms_valid t /\ ants_payment_terms_encode t cap buf = Err buf ANTS_ERROR_INVALID_ARG).
Proof.
  intros Hty. pose proof Hty as (Hl & _ & Hn & _ & Hs & _). unfold ants_payment_terms_encode.
  change (u32 ANTS_PAYMENT_SCOPE_SUBSCRIPTION) with 2.
  replace (u32 (scope t)) with (scope t) by (symmetry; by apply Z.mod_small).
  unfold terms_valid. unfold ANTS_PAYMENT_SCOPE_SUBSCRIPTION.
  destruct (Z.ltb_spec ANTS_PAYMENT_MAX_SCHEMES (n_schemes t)); [right; split; [lia|done]|].
  destruct (Z.ltb_spec 2 (scope t)); [right; split; [lia|done]|].
  destruct (field_terminated (notes t) _); cbn [negb]; [|right; split; [intuition congruence|done]].
  unfold ANTS_PAYMENT_MAX_SCHEMES in *.
  pose proof (schemes_valid_spec (schemes t) (Z.to_nat (n_schemes t)) 0 ltac:(lia)) as Hv.
  change (Z.of_nat 0) with 0 in Hv. rewrite drop_0 in Hv. fold (live t) in Hv.
  rewrite Hv. unfold bind, deref.
  destruct (forallb ants_payment_scheme_valid (live t)) eqn:Hf; cbn [negb].
  - left. split; [|done]. repeat (split; [done|]). split; [|done]. apply Forall_forall.
    intros s Hx. apply forallb_forall with (x := s) in Hf; [done|by apply list_elem_of_In].
  - right. split; [|done]. intros (_ & _ & Hall & _). apply not_true_iff_false in Hf. apply Hf.
    apply forallb_forall. intros s Hx. rewrite Forall_forall in Hall. by apply Hall, list_elem_of_In.
Qed.

Definition demo_notes_missing : ants_payment_terms_t :=
  mk_terms (schemes demo_terms) 2 0 1 (replicate 256 65).

Lemma demo_missing_typed : terms_typed demo_notes_missing.
Proof.
  destruct demo_terms_valid as [(H1 & H2 & H3 & H4 & H5 & _) _].
  split; [done|]. split; [exact H2|]. repeat (split; [done|]).
  split; [by apply Forall_replicate|done].
Qed.

(** What the encoder emits.  For a valid advertisement and a buffer of at
    least ANTS_PAYMENT_ENCODED_MAX bytes [ants_payment_terms_encode] succeeds
    and writes exactly the canonical encoding of the documented map, each
    scheme with the fields of its kind and each text cut at its NUL; for an
    invalid one (too many schemes, an unknown scope, an unterminated text, an
    invalid scheme) it reports INVALID_ARG and leaves the buffer alone. *)
Theorem terms_encode_canonical t cap buf :
  terms_typed t -> ANTS_PAYMENT_ENCODED_MAX <= cap <= zlen buf -> zlen buf <= INT64_MAX ->
  (terms_valid t -> exists buf' n, ants_payment_terms_encode t cap buf = Ok buf' n /\
     n <= ANTS_PAYMENT_ENCODED_MAX /\ take (Z.to_nat n) buf' = encode (terms_cbor (cut t))) /\
  (~ terms_valid t -> ants_payment_terms_encode t cap buf = Err buf ANTS_ERROR_INVALID_ARG).
Proof.
  intros Hty Hc Hb. destruct (encode_guard t cap buf Hty) as [[Hv ->]|[Hv ->]]; [|done].
  split; [|done]. intros _.
  destruct (codec_encodes (CL := terms_codec_laws) t buf cap Hv Hc Hb) as (buf' & He & Hw).
  exists buf', (zlen (encode (terms_cbor (cut t)))). rewrite zlen_to_nat.
  split; [done|]. split; [|done]. by apply terms_size, cut_doc_ok.
Qed.

Lemma terms_encode_canonical_witness :
  (exists buf' n, ants_payment_terms_encode demo_terms 2560 (replicate 2560 0) = Ok buf' n /\
     n <= 2560 /\ take (Z.to_nat n) buf' = encode (terms_cbor (cut demo_terms))) /\
  (~ terms_valid demo_notes_missing -> ants_payment_terms_encode demo_notes_missing 2560
     (replicate 2560 0) = Err (replicate 2560 0) ANTS_ERROR_INVALID_ARG).
Proof.
  split.
  - exact (proj1 (terms_encode_canonical demo_terms 2560 (replicate 2560 0)
      (proj1 demo_terms_valid) ltac:(done) ltac:(done)) demo_terms_valid).
  - exact (proj2 (terms_encode_canonical demo_notes_missing 2560 (replicate 2560 0)
      demo_missing_typed ltac:(done) ltac:(done))).
Defined.

(** Round trip.  Decoding what the encoder wrote for a valid
    advertisement, into any object, yields a valid advertisement with the
    same schemes in the same order, the same texts and the same scalars. *)
Theorem terms_roundtrip t old cap buf :
  terms_valid t -> ANTS_PAYMENT_ENCODED_MAX <= cap <= zlen buf -> zlen buf <= INT64_MAX ->
  exists buf' n t', ants_payment_terms_encode t cap buf = Ok buf' n /\
    ants_payment_terms_decode (Some (take (Z.to_nat n) buf')) n old = Ok t' tt /\
    cut t' = cut t /\ terms_valid t'.
Proof.
  intros Hv Hc Hb. destruct (encode_guard t cap buf (proj1 Hv)) as [[_ ->]|[? _]]; [|done].
  destruct (codec_encodes (CL := terms_codec_laws) t buf cap Hv Hc Hb) as (buf' & He & Hw).
  destruct (codec_decodes (CL := terms_codec_laws) norm_decode_err norm_decode_err t zero_terms Hv
    eq_refl) as (t' & Hd & Hs & Ht'). change (codec_doc t) with (terms_cbor (cut t)) in *.
  exists buf', (zlen (encode (terms_cbor (cut t)))), t'. by rewrite zlen_to_nat, Hw.
Qed.

Lemma terms_roundtrip_witness :
  exists buf' n t', ants_payment_terms_encode demo_terms 2560 (replicate 2560 0) = Ok buf' n /\
    ants_payment_terms_decode (Some (take (Z.to_nat n) buf')) n zero_terms = Ok t' tt /\
    cut t' = cut demo_terms /\ terms_valid t'.
Proof.
  exact (terms_roundtrip demo_terms zero_terms 2560 (replicate 2560 0) demo_terms_valid
    ltac:(done) ltac:(done)).
Defined.

(** C26: the decoder fails closed.  On any byte string
    [ants_payment_terms_decode] terminates without leaving its input or the
    object; it accepts exactly the canonical encodings of documents with at
    most eight schemes, each holding exactly the fields of its kind in
    bounded texts, and a known scope; the object it then leaves is a valid
    advertisement that is determined by that document; every other input is
    refused with NON_CANONICAL or MALFORMED. *)
Theorem terms_decode_strict buf old :
  bytes_ok buf -> zlen buf <= INT64_MAX ->
  match ants_payment_terms_decode (Some buf) (zlen buf) old with
  | Ok t _ => terms_valid t /\
      exists doc, terms_doc_ok doc /\ buf = encode (terms_cbor doc) /\ t = load doc
  | Err _ e => (e = ANTS_ERROR_NON_CANONICAL \/ e = ANTS_ERROR_MALFORMED) /\
      ~ exists doc, terms_doc_ok doc /\ buf = encode (terms_cbor doc)
  | UB | NoFuel => False
  end.
Proof.
  intros Hok Hb. unfold ants_payment_terms_decode. cbn [is_null]. unfold bind, modify.
  pose proof (codec_strict (CL := terms_codec_laws) norm_decode_err norm_decode_err buf zero_terms
    norm_decode_error Hok Hb eq_refl) as H. cbn [codec_read codec_from terms_codec] in H.
  destruct (with_decoder _ _ _ _ _ _) as [t []|t e| |] eqn:E; try done.
  - destruct H as (c & (doc & Hd & -> & ->) & ->). split; [by apply load_valid|by exists doc].
  - split; [done|]. intros (doc & Hd & ->). assert (Hw : wf (terms_cbor doc)) by (by apply terms_wf).
    rewrite (with_decoder_ok norm_decode_err norm_decode_err _ terms_decode_body zero_terms (load doc)
      [terms_cbor doc]) in E; try done.
    + unfold encodes. cbn [map concat]. by rewrite app_nil_r.
    + constructor; [|constructor]. split; [done|]. pose proof (terms_height doc). lia.
    + intros d Hat. by apply terms_read_ok.
Qed.

Lemma terms_decode_strict_witness :
  match ants_payment_terms_decode (Some [0xa4; 0x01; 0x80; 0x02; 0x00; 0x03; 0x07; 0x04; 0x60]) 9
          zero_terms with
  | Ok t _ => terms_valid t /\
      exists doc, terms_doc_ok doc /\
        [0xa4; 0x01; 0x80; 0x02; 0x00; 0x03; 0x07; 0x04; 0x60] = encode (terms_cbor doc) /\ t = load doc
  | Err _ e => (e = ANTS_ERROR_NON_CANONICAL \/ e = ANTS_ERROR_MALFORMED) /\
      ~ exists doc, terms_doc_ok doc /\
        [0xa4; 0x01; 0x80; 0x02; 0x00; 0x03; 0x07; 0x04; 0x60] = encode (terms_cbor doc)
  | UB | NoFuel => False
  end.
Proof.
  exact (terms_decode_strict [0xa4; 0x01; 0x80; 0x02; 0x00; 0x03; 0x07; 0x04; 0x60] zero_terms
    ltac:(by repeat constructor) ltac:(done)).
Defined.

(** A text with an embedded NUL is accepted: these two inputs both decode,
    to objects with the same contents, so re-encoding the first gives the
    second. *)
Example embedded_nul_accepted :
  let b1 := [0xa4; 0x01; 0x80; 0x02; 0x00; 0x03; 0x00; 0x04; 0x63; 97; 0; 98] in
  let b2 := [0xa4; 0x01; 0x80; 0x02; 0x00; 0x03; 0x00; 0x04; 0x61; 97] in
  match ants_payment_terms_decode (Some b1) 12 zero_terms,
        ants_payment_terms_decode (Some b2) 10 zero_terms with
  | Ok t1 _, Ok t2 _ => bool_decide (cstr (notes t1) = [97] /\ cstr (notes t2) = [97]) &&
      match ants_payment_terms_encode t1 2560 (replicate 2560 0) with
      | Ok b n => bool_decide (take (Z.to_nat n) b = b2)
      | _ => false
      end
  | _, _ => false
  end = true.
Proof. vm_compute. reflexivity. Qed.
