(* ===== verification/OpenTable.v ===== *)
(** * Open addressing with linear probing

    The client keeps two hash tables of this kind (crdt.c): the slots of the
    fault-proof set and the index of retired subjects.  [Slot] says how a
    bucket shows its key; the probing loop is one definition, and the theory
    here is what both tables rely on: a table in which every stored key is
    where its probe finds it denotes a finite map, and storing an element in
    the slot a probe returns is insertion in that map. *)

From stdpp Require Import gmap.
From S2P Require Import Prelude Cbor.

#[local] Arguments zlen {A} l : simpl never.

(** The key a bucket holds; [None] for an empty bucket. *)
Class Slot (T : Type) : Type := slot_key : T -> option bytes.

(** [uint64_t h; memcpy(&h, b, sizeof h)] on a little-endian host. *)
Definition load_u64 (b : bytes) : option Z :=
  if 8 <=? zlen b then Some (foldr (fun x v => x + 256 * v) 0 (take 8 b)) else None.

Lemma mod_shift_inj h a b n :
  0 <= a < n -> 0 <= b < n -> (h + a) mod n = (h + b) mod n -> a = b.
Proof.
  intros Ha Hb Heq.
  assert (Hd : forall x y, (h + x) mod n = (h + y) mod n -> 0 <= x - y < n -> x = y).
  { intros x y H Hr. assert (Hm : (x - y) mod n = 0).
    - replace (x - y) with ((h + x) - (h + y)) by lia. rewrite Zminus_mod, H, Z.sub_diag. done.
    - rewrite Z.mod_small in Hm; lia. }
  destruct (Z.le_ge_cases b a); [apply Hd; [done|lia]|symmetry; apply Hd; [done|lia]].
Qed.

Section probe.
Context {T : Type} `{Slot T}.

(** From bucket [i] on: the bucket of [key], or the first empty one. *)
Fixpoint probe_loop {S} (fuel : nat) (tab : list T) (mask i : Z) (key : bytes) : action S (Z * bool) :=
  let* x := deref (get_at tab i) in
  match slot_key x with
  | None => ret (i, false)
  | Some k =>
    if memcmp k key =? 0 then ret (i, true)
    else match fuel with
         | O => fun _ => NoFuel
         | Datatypes.S f => probe_loop f tab mask (Z.land (u64 (i + 1)) mask) key
         end
  end.

(** A table of [cap] buckets is walked at most once around. *)
Definition probe {S} (tab : list T) (cap : Z) (key : bytes) : action S (Z * bool) :=
  let* h := deref (load_u64 key) in
  let mask := size_sub cap 1 in
  probe_loop (Z.to_nat cap) tab mask (Z.land h mask) key.

(** ** Where a probe stops *)

Definition hash_of (key : bytes) : Z := default 0 (load_u64 key).

(** The bucket looked at in step [s]. *)
Definition position (tab : list T) (key : bytes) (s : nat) : nat :=
  Z.to_nat ((hash_of key + Z.of_nat s) mod zlen tab).

Definition stops (key : bytes) (x : T) : Prop := slot_key x = None \/ slot_key x = Some key.

(** Step [s] is the first that stops, at the bucket [x]. *)
Definition lands (tab : list T) (key : bytes) (s : nat) (x : T) : Prop :=
  (s < length tab)%nat /\ tab !! position tab key s = Some x /\ stops key x /\
  forall s', (s' < s)%nat -> exists x', tab !! position tab key s' = Some x' /\ ~ stops key x'.

Lemma stops_dec key x : {stops key x} + {~ stops key x}.
Proof.
  unfold stops. destruct (slot_key x) as [k|]; [|by left; left].
  destruct (decide (k = key)) as [->|]; [by left; right|]. right. intros [?|[=]]; done.
Qed.

Lemma position_lt tab key s : (0 < length tab)%nat -> (position tab key s < length tab)%nat.
Proof.
  intros Hl. unfold position. pose proof (Z.mod_pos_bound (hash_of key + Z.of_nat s) (zlen tab)).
  unfold zlen in *. lia.
Qed.

Lemma position_lookup tab key s : (0 < length tab)%nat -> is_Some (tab !! position tab key s).
Proof. intros Hl. by apply lookup_lt_is_Some_2, position_lt. Qed.

Lemma position_inj tab key s s' :
  (s < length tab)%nat -> (s' < length tab)%nat -> position tab key s = position tab key s' -> s = s'.
Proof.
  unfold position. generalize (hash_of key). intros h Hs Hs' Hp.
  assert (Hz : 0 < zlen tab) by (unfold zlen; lia).
  apply Z2Nat.inj in Hp; [|apply Z.mod_pos_bound, Hz..].
  enough (Z.of_nat s = Z.of_nat s') by lia.
  apply (mod_shift_inj h _ _ (zlen tab)); [unfold zlen; lia..|done].
Qed.

(** Every bucket is looked at. *)
Lemma position_surj tab key i :
  (i < length tab)%nat -> exists s, (s < length tab)%nat /\ position tab key s = i.
Proof.
  intros Hi. assert (Hz : 0 < zlen tab) by (unfold zlen; lia).
  pose proof (Z.mod_pos_bound (Z.of_nat i - hash_of key) (zlen tab) Hz) as Hb.
  exists (Z.to_nat ((Z.of_nat i - hash_of key) mod zlen tab)). split; [unfold zlen in *; lia|].
  unfold position. rewrite Z2Nat.id by lia. rewrite Zplus_mod_idemp_r.
  replace (hash_of key + (Z.of_nat i - hash_of key)) with (Z.of_nat i) by lia.
  rewrite Z.mod_small by (unfold zlen; lia). lia.
Qed.

(** With a stopping bucket somewhere, there is a first one. *)
Lemma first_stop tab key s :
  (s <= length tab)%nat ->
  (exists s' y, lands tab key s' y) \/
  (forall s', (s' < s)%nat -> exists x', tab !! position tab key s' = Some x' /\ ~ stops key x').
Proof.
  induction s as [|s IH]; intros Hs; [right; lia|].
  destruct IH as [Hl|Hn]; [lia|by left|].
  destruct (position_lookup tab key s) as [x Hx]; [lia|].
  destruct (stops_dec key x) as [Hst|Hst]; [left; by exists s, x|right].
  intros s' Hs'. destruct (decide (s' = s)) as [->|]; [by exists x|]. apply Hn. lia.
Qed.

Lemma lands_exists tab key i x :
  tab !! i = Some x -> stops key x -> exists s y, lands tab key s y.
Proof.
  intros Hi Hx. pose proof (lookup_lt_Some _ _ _ Hi) as Hlt.
  destruct (position_surj tab key i Hlt) as (s & Hs & <-).
  destruct (first_stop tab key s) as [Hl|Hn]; [lia|done|]. by exists s, x.
Qed.

Lemma lands_unique tab key s x s' x' : lands tab key s x -> lands tab key s' x' -> s = s' /\ x = x'.
Proof.
  intros (_ & Hx & Hst & Hb) (_ & Hx' & Hst' & Hb').
  assert (s = s') as <-.
  { destruct (lt_eq_lt_dec s s') as [[H1|H1]|H1]; [|done|].
    - destruct (Hb' s H1) as (y & Hy & Hn). rewrite Hx in Hy. by injection Hy as <-.
    - destruct (Hb s' H1) as (y & Hy & Hn). rewrite Hx' in Hy. by injection Hy as <-. }
  split; [done|]. congruence.
Qed.

(** ** The loop computes where a probe stops *)

Lemma mask_mod h k : 0 <= k -> Z.land h (2 ^ k - 1) = h mod 2 ^ k.
Proof. intros Hk. replace (2 ^ k - 1) with (Z.ones k) by (rewrite Z.ones_equiv; lia). by apply land_low. Qed.

Definition cap_ok (tab : list T) : Prop := exists k, 0 <= k <= 62 /\ zlen tab = 2 ^ k.

Definition key_sized (key : bytes) : Prop := zlen key = 32.
Definition keys_sized (tab : list T) : Prop :=
  forall i x key, tab !! i = Some x -> slot_key x = Some key -> key_sized key.

Definition occupied (x : T) : bool := match slot_key x with Some _ => true | None => false end.

Lemma get_at_nat {A} (l : list A) i x : l !! i = Some x -> get_at l (Z.of_nat i) = Some x.
Proof. intros Hi. unfold get_at. bdecide. by rewrite Nat2Z.id. Qed.

Lemma position_next tab key s :
  cap_ok tab -> 
  Z.land (u64 (Z.of_nat (position tab key s) + 1)) (size_sub (zlen tab) 1) =
    Z.of_nat (position tab key (S s)).
Proof.
  intros (k & Hk & Hn).
  assert (Hpow : 1 <= 2 ^ k <= 2 ^ 62).
  { split; [apply (Z.pow_le_mono_r 2 0); lia|apply Z.pow_le_mono_r; lia]. }
  rewrite size_sub_small by (rewrite Hn; zlia). rewrite Hn, mask_mod by lia.
  unfold position. rewrite Hn. set (a := hash_of key + Z.of_nat s).
  pose proof (Z.mod_pos_bound a (2 ^ k) ltac:(lia)) as Hb. rewrite Z2Nat.id by lia.
  rewrite u64_small by (unfold is_u64; lia). rewrite Zplus_mod_idemp_l.
  replace (hash_of key + Z.of_nat (S s)) with (a + 1) by (subst a; lia).
  rewrite Z2Nat.id; [done|]. apply Z.mod_pos_bound. lia.
Qed.

Lemma probe_loop_lands {S} tab key x : forall m fuel s (st : S),
  cap_ok tab -> keys_sized tab -> key_sized key ->
  lands tab key (s + m) x -> (m <= fuel)%nat ->
  probe_loop fuel tab (size_sub (zlen tab) 1) (Z.of_nat (position tab key s)) key st =
    Ok st (Z.of_nat (position tab key (s + m)), occupied x).
Proof.
  intros m. induction m as [|m IH]; intros fuel s st Hc Hks Hk Hl Hf.
  - rewrite Nat.add_0_r in *. destruct Hl as (Hlt & Hx & Hst & _).
    destruct fuel; cbn [probe_loop]; rewrite (get_at_nat _ _ _ Hx); unfold bind, deref, occupied;
      destruct Hst as [Hst|Hst]; rewrite Hst; [done| |done|]; by rewrite memcmp_refl.
  - destruct fuel as [|f]; [lia|]. cbn [probe_loop].
    destruct Hl as (Hlt & Hx & Hst & Hb). destruct (Hb s ltac:(lia)) as (y & Hy & Hn).
    rewrite (get_at_nat _ _ _ Hy). unfold bind, deref.
    destruct (slot_key y) as [k|] eqn:Ek; [|by destruct Hn; left].
    pose proof (Hks _ _ _ Hy Ek) as Hk'. unfold key_sized in *.
    rewrite memcmp_eq by congruence. rewrite bool_decide_false by (intros ->; apply Hn; by right).
    rewrite position_next by done. replace (s + Datatypes.S m)%nat with (Datatypes.S s + m)%nat by lia.
    apply IH; try done; [|lia]. replace (Datatypes.S s + m)%nat with (s + Datatypes.S m)%nat by lia.
    by split.
Qed.

Lemma load_u64_hash key : key_sized key -> load_u64 key = Some (hash_of key).
Proof.
  unfold key_sized, hash_of, load_u64. intros ->. done.
Qed.

Lemma probe_lands {S} tab key s x (st : S) :
  cap_ok tab -> keys_sized tab -> key_sized key -> lands tab key s x ->
  probe tab (zlen tab) key st = Ok st (Z.of_nat (position tab key s), occupied x).
Proof.
  intros Hc Hks Hk Hl. unfold probe. rewrite load_u64_hash by done. unfold bind, deref.
  pose proof (proj1 Hl) as Hs. pose proof Hc as (k & Hk62 & Hn).
  replace (Z.land (hash_of key) (size_sub (zlen tab) 1)) with (Z.of_nat (position tab key 0)).
  - rewrite (probe_loop_lands tab key x s _ 0 st); try done. rewrite zlen_to_nat. lia.
  - assert (1 <= 2 ^ k <= 2 ^ 62).
    { split; [apply (Z.pow_le_mono_r 2 0); lia|apply Z.pow_le_mono_r; lia]. }
    rewrite size_sub_small by (rewrite Hn; zlia). rewrite Hn, mask_mod by lia.
    unfold position. rewrite Z.add_0_r, Hn, Z2Nat.id; [done|]. apply Z.mod_pos_bound. lia.
Qed.

(** ** The map a table denotes *)

Definition entry_of (x : T) : option (bytes * T) := (fun k => (k, x)) <$> slot_key x.
Definition entries (tab : list T) : list (bytes * T) := omap entry_of tab.
Definition table_map (tab : list T) : gmap bytes T := list_to_map (entries tab).

(** Every stored key is where its probe finds it. *)
Record table_ok (tab : list T) : Prop := {
  table_cap : cap_ok tab;
  table_sized : keys_sized tab;
  table_found : forall i x key, tab !! i = Some x -> slot_key x = Some key ->
    exists s, lands tab key s x /\ position tab key s = i
}.

Lemma entry_of_key x k y : entry_of x = Some (k, y) <-> slot_key x = Some k /\ y = x.
Proof.
  unfold entry_of. destruct (slot_key x); cbn; [|by split; [|intros []]].
  split; [by intros [= -> ->]|]. by intros [[= ->] ->].
Qed.

Lemma entries_cons_none x tab : slot_key x = None -> entries (x :: tab) = entries tab.
Proof. intros E. unfold entries. cbn [omap list_omap]. unfold entry_of at 1. by rewrite E. Qed.
Lemma entries_cons_some x k tab :
  slot_key x = Some k -> entries (x :: tab) = (k, x) :: entries tab.
Proof. intros E. unfold entries. cbn [omap list_omap]. unfold entry_of at 1. by rewrite E. Qed.
Lemma entries_app l k : entries (l ++ k) = entries l ++ entries k.
Proof. apply omap_app. Qed.

Lemma elem_of_entries tab k x :
  (k, x) ∈ entries tab <-> exists i, tab !! i = Some x /\ slot_key x = Some k.
Proof.
  unfold entries. rewrite list_elem_of_omap. split.
  - intros (y & Hy & [Hk ->]%entry_of_key). apply list_elem_of_lookup in Hy as [i Hi]. by exists i.
  - intros (i & Hi & Hk). exists x. split; [by eapply list_elem_of_lookup_2|]. by apply entry_of_key.
Qed.

Lemma entries_insert tab i x y k :
  tab !! i = Some x -> slot_key x = None -> slot_key y = Some k ->
  entries (<[i := y]> tab) ≡ₚ (k, y) :: entries tab.
Proof.
  intros Hi Hx Hy. pose proof (lookup_lt_Some _ _ _ Hi).
  rewrite insert_take_drop by done. rewrite <- (take_drop_middle tab i x Hi) at 3.
  rewrite !entries_app, (entries_cons_none x), (entries_cons_some y k) by done.
  by rewrite Permutation_middle.
Qed.

Lemma entries_keys_nodup tab :
  (forall i j x y k, tab !! i = Some x -> tab !! j = Some y ->
    slot_key x = Some k -> slot_key y = Some k -> i = j) ->
  NoDup (entries tab).*1.
Proof.
  induction tab as [|x tab IH]; intros Hinj; [constructor|].
  assert (Htl : NoDup (entries tab).*1).
  { apply IH. intros i j a b k Hi Hj Ha Hb. specialize (Hinj (S i) (S j) a b k Hi Hj Ha Hb). lia. }
  destruct (slot_key x) as [k|] eqn:Hk; [|by rewrite entries_cons_none].
  rewrite (entries_cons_some x k) by done. cbn [fmap list_fmap]. constructor; [|done].
  intros Hin. apply list_elem_of_fmap in Hin as ([k' z] & Hkz & Hz). cbn [fst] in Hkz. subst k'.
  apply elem_of_entries in Hz as (i & Hi & Hz). by specialize (Hinj 0%nat (S i) x z k eq_refl Hi Hk Hz).
Qed.

Lemma table_nodup tab : table_ok tab -> NoDup (entries tab).*1.
Proof.
  intros Hok. apply entries_keys_nodup. intros i j x y k Hi Hj Hx Hy.
  destruct (table_found _ Hok _ _ _ Hi Hx) as (s & Hs & <-).
  destruct (table_found _ Hok _ _ _ Hj Hy) as (s' & Hs' & <-).
  by destruct (lands_unique _ _ _ _ _ _ Hs Hs') as [-> _].
Qed.

Lemma table_map_lookup tab k x :
  table_ok tab -> table_map tab !! k = Some x <-> exists i, tab !! i = Some x /\ slot_key x = Some k.
Proof.
  intros Hok. unfold table_map. rewrite <- elem_of_entries. symmetry.
  apply elem_of_list_to_map, table_nodup, Hok.
Qed.

(** A table with fewer entries than buckets has an empty one. *)
Lemma empty_slot tab :
  (length (entries tab) < length tab)%nat -> exists i x, tab !! i = Some x /\ slot_key x = None.
Proof.
  induction tab as [|x tab IH]; intros Hl; [cbn in Hl; lia|].
  destruct (slot_key x) as [k|] eqn:E; [|by exists 0%nat, x].
  rewrite (entries_cons_some x k) in Hl by done. cbn [length] in Hl.
  destruct IH as (i & y & Hi & Hy); [lia|]. by exists (S i), y.
Qed.

(** What a probe of a table finds. *)
Lemma table_probe {S} tab key (st : S) :
  table_ok tab -> key_sized key -> (length (entries tab) < length tab)%nat ->
  exists s x, lands tab key s x /\
    probe tab (zlen tab) key st = Ok st (Z.of_nat (position tab key s), occupied x) /\
    match table_map tab !! key with
    | Some y => x = y /\ occupied x = true
    | None => slot_key x = None /\ occupied x = false
    end.
Proof.
  intros Hok Hk Hl. destruct (empty_slot tab Hl) as (i & e & Hi & He).
  destruct (lands_exists tab key i e Hi) as (s & x & Hs); [by left|].
  exists s, x. split; [done|]. split; [apply probe_lands; by try apply Hok|].
  unfold occupied. destruct (table_map tab !! key) as [y|] eqn:E.
  - apply table_map_lookup in E as (j & Hj & Hy); [|done].
    destruct (table_found _ Hok _ _ _ Hj Hy) as (s' & Hs' & _).
    destruct (lands_unique _ _ _ _ _ _ Hs Hs') as [_ ->]. by rewrite Hy.
  - destruct Hs as (_ & Hx & [Hst|Hst] & _); rewrite Hst; [done|].
    assert (Hsome : table_map tab !! key = Some x) by (apply table_map_lookup; eauto). congruence.
Qed.

(** Storing an element in the empty bucket its probe returned. *)
Lemma table_insert tab key s x y :
  table_ok tab -> key_sized key -> lands tab key s x -> slot_key x = None -> slot_key y = Some key ->
  table_ok (<[position tab key s := y]> tab).
Proof.
  intros Hok Hk Hl Hx Hy. pose proof Hl as (Hs & Hpx & _ & Hbefore).
  set (tab' := <[position tab key s := y]> tab).
  assert (Hlen : length tab' = length tab) by apply length_insert.
  assert (Hz : zlen tab' = zlen tab) by (unfold zlen; by rewrite Hlen).
  assert (Hpos : forall k s, position tab' k s = position tab k s) by (intros; unfold position; by rewrite Hz).
  assert (Hlook : forall j z, tab !! j = Some z -> slot_key z <> None -> tab' !! j = Some z).
  { intros j z Hj Hn. unfold tab'. rewrite list_lookup_insert_ne; [done|]. intros <-. congruence. }
  split.
  - destruct (table_cap _ Hok) as (k & Hk62 & Hn). exists k. by rewrite Hz.
  - intros i z k Hi Hz'. apply list_lookup_insert_Some in Hi as [(_ & <- & _)|[_ Hi]].
    + congruence.
    + by apply (table_sized _ Hok i z).
  - intros i z k Hi Hz'. apply list_lookup_insert_Some in Hi as [(<- & <- & Hlt)|[Hne Hi]].
    + assert (k = key) as -> by congruence. exists s. rewrite Hpos. split; [|done].
      split; [by rewrite Hlen|]. rewrite Hpos. split; [by apply list_lookup_insert_eq|].
      split; [by right|]. intros s' Hs'. rewrite Hpos.
      destruct (Hbefore s' Hs') as (z & Hz1 & Hz2). exists z. split; [|done].
      apply Hlook; [done|]. intros Hn. apply Hz2. by left.
    + destruct (table_found _ Hok _ _ _ Hi Hz') as (s' & (Hs' & Hz1 & Hst & Hb) & Hp).
      exists s'. rewrite Hpos. split; [|done]. split; [by rewrite Hlen|]. rewrite Hpos.
      split; [apply Hlook; [done|congruence]|]. split; [done|]. intros s'' Hs''. rewrite Hpos.
      destruct (Hb s'' Hs'') as (w & Hw & Hw2). exists w. split; [|done].
      apply Hlook; [done|]. intros Hn. apply Hw2. by left.
Qed.

(** ** Building a table *)

(** [j = probe(tab, cap, key); tab[j] = e;] *)
Definition table_put {S} (tab : list T) (cap : Z) (key : bytes) (e : T) : action S (list T) :=
  let* (j, found) := probe tab cap key in
  deref (set_at tab j e).

(** Move every element of [es] into [tab]. *)
Fixpoint move_all {S} (es tab : list T) (cap : Z) : action S (list T) :=
  match es with
  | [] => ret tab
  | e :: es' =>
    match slot_key e with
    | None => move_all es' tab cap
    | Some key => let* tab' := table_put tab cap key e in move_all es' tab' cap
    end
  end.

Lemma set_at_nat {A} (l : list A) i x :
  (i < length l)%nat -> set_at l (Z.of_nat i) x = Some (<[i := x]> l).
Proof. intros Hi. unfold set_at. repeat bdecide. cbn [andb]. by rewrite Nat2Z.id. Qed.

Lemma table_put_ok {S} tab key e (st : S) :
  table_ok tab -> key_sized key -> slot_key e = Some key -> table_map tab !! key = None ->
  (length (entries tab) < length tab)%nat ->
  exists tab', table_put tab (zlen tab) key e st = Ok st tab' /\ table_ok tab' /\
    entries tab' ≡ₚ (key, e) :: entries tab /\ length tab' = length tab.
Proof.
  intros Hok Hk He Hm Hl. destruct (table_probe tab key st Hok Hk Hl) as (s & x & Hs & Hp & Hx).
  rewrite Hm in Hx. destruct Hx as [Hx _]. pose proof (proj1 Hs) as Hlt.
  exists (<[position tab key s := e]> tab). split; [|split; [|split]].
  - unfold table_put. rewrite (bind_Ok _ _ _ _ _ Hp). rewrite set_at_nat; [done|].
    apply position_lt. lia.
  - by eapply table_insert.
  - eapply entries_insert; [apply Hs|done..].
  - apply length_insert.
Qed.

Lemma move_all_ok {S} es : forall tab (st : S),
  table_ok tab -> keys_sized es -> NoDup ((entries es).*1 ++ (entries tab).*1) ->
  (length (entries es) + length (entries tab) < length tab)%nat ->
  exists tab', move_all es tab (zlen tab) st = Ok st tab' /\ table_ok tab' /\
    entries tab' ≡ₚ entries es ++ entries tab /\ length tab' = length tab.
Proof.
  induction es as [|e es IH]; intros tab st Hok Hks Hnd Hl; [by exists tab|].
  assert (Hks' : keys_sized es) by (intros i x k; apply (Hks (Datatypes.S i))).
  cbn [move_all]. destruct (slot_key e) as [key|] eqn:E;
    [rewrite (entries_cons_some e key) in * by done|
     rewrite entries_cons_none in * by done; by apply IH].
  cbn [fmap list_fmap app fst length] in *. apply NoDup_cons in Hnd as [Hni Hnd].
  assert (Hk : key_sized key) by (by apply (Hks 0%nat e)).
  assert (Hnone : table_map tab !! key = None).
  { apply not_elem_of_list_to_map_1. intros Hin. apply Hni, elem_of_app. by right. }
  destruct (table_put_ok tab key e st Hok Hk E Hnone) as (tab1 & Hp & Hok1 & Hperm & Hlen); [lia|].
  rewrite (bind_Ok _ _ _ _ _ Hp).
  replace (zlen tab) with (zlen tab1) by (unfold zlen; by rewrite Hlen).
  destruct (IH tab1 st Hok1 Hks') as (tab2 & Hm & Hok2 & Hperm2 & Hlen2).
  - rewrite Hperm. cbn [fmap list_fmap fst]. rewrite <- Permutation_middle. by constructor.
  - rewrite Hperm. cbn [length]. lia.
  - exists tab2. split; [done|]. split; [done|]. split; [|lia].
    rewrite Hperm2, Hperm. by rewrite <- Permutation_middle.
Qed.

(** A fresh table. *)
Lemma entries_empty n e : slot_key e = None -> entries (replicate n e) = [].
Proof. intros He. induction n; [done|]. cbn [replicate]. by rewrite entries_cons_none. Qed.

Lemma table_empty k e :
  0 <= k <= 62 -> slot_key e = None -> table_ok (replicate (Z.to_nat (2 ^ k)) e).
Proof.
  intros Hk He. split.
  - exists k. split; [done|]. rewrite zlen_replicate, Z2Nat.id; [done|]. apply Z.pow_nonneg. lia.
  - intros i x key Hi. apply lookup_replicate in Hi as [-> _]. congruence.
  - intros i x key Hi. apply lookup_replicate in Hi as [-> _]. congruence.
Qed.

Lemma zlen_fresh k (e : T) : 0 <= k -> zlen (replicate (Z.to_nat (2 ^ k)) e) = 2 ^ k.
Proof. intros Hk. rewrite zlen_replicate, Z2Nat.id; [done|]. apply Z.pow_nonneg. lia. Qed.

Lemma Permutation_zlen {A} (l k : list A) : l ≡ₚ k -> zlen l = zlen k.
Proof. intros Hp. unfold zlen. by rewrite Hp. Qed.

(** Moving elements with distinct keys into a fresh table that has room. *)
Lemma rebuild_ok {S} es e k (st : S) :
  slot_key e = None -> keys_sized es -> NoDup (entries es).*1 -> 0 <= k <= 62 ->
  zlen (entries es) < 2 ^ k ->
  exists tab, move_all es (replicate (Z.to_nat (2 ^ k)) e) (2 ^ k) st = Ok st tab /\ table_ok tab /\
    entries tab ≡ₚ entries es /\ zlen tab = 2 ^ k.
Proof.
  intros He Hks Hnd Hk Hl. pose proof (zlen_fresh k e ltac:(lia)) as Hz.
  pose proof (entries_empty (Z.to_nat (2 ^ k)) e He) as Hnil.
  destruct (move_all_ok es (replicate (Z.to_nat (2 ^ k)) e) st) as (tab & Hm & Hok & Hp & Hlen).
  - by apply table_empty.
  - done.
  - by rewrite Hnil, app_nil_r.
  - rewrite Hnil, length_replicate. unfold zlen in Hl. cbn [length]. lia.
  - exists tab. rewrite Hz in Hm. split; [done|]. split; [done|]. rewrite Hnil, app_nil_r in Hp.
    split; [done|]. unfold zlen in *. by rewrite Hlen.
Qed.

(** Entries with the same contents denote the same map. *)
Lemma table_map_perm tab tab' :
  table_ok tab -> entries tab' ≡ₚ entries tab -> table_map tab' = table_map tab.
Proof.
  intros Hok Hp. unfold table_map. symmetry. apply list_to_map_proper; [|done].
  by apply table_nodup.
Qed.

Lemma table_map_cons tab tab' k e :
  entries tab' ≡ₚ (k, e) :: entries tab -> table_ok tab' -> table_map tab' = <[k := e]> (table_map tab).
Proof.
  intros Hp Hok. unfold table_map. rewrite <- list_to_map_cons. apply list_to_map_proper; [|done].
  by apply table_nodup.
Qed.

End probe.
