(* ===== verification/Merkle.v ===== *)
(** * Merkle trees with a promoted trailing node

    The reference definition the three implementations of the client are
    measured against (crdt.c, chain.c): a tree is built level by level, two
    neighbours are hashed together and a node without a right neighbour moves
    up unchanged.  A membership proof is the list of the siblings met on the
    way up.  Stated over the hash interface of Crypto.v; a digest is the hash
    of one byte string. *)

From S2P Require Import Prelude Cbor Crypto.

#[local] Arguments zlen {A} l : simpl never.

Section merkle.
Context `{B : Blake3}.

Definition digest (b : bytes) : bytes :=
  blake3_hasher_finalize (blake3_hasher_update blake3_hasher_init b).

Definition leaf_input (id : bytes) : bytes := 0x00 :: id.
Definition node_input (l r : bytes) : bytes := 0x01 :: l ++ r.
Definition leaf (id : bytes) : bytes := digest (leaf_input id).
Definition node (l r : bytes) : bytes := digest (node_input l r).

(** ** The tree *)

Fixpoint level_up (l : list bytes) : list bytes :=
  match l with
  | x :: y :: r => node x y :: level_up r
  | _ => l
  end.

Fixpoint root_levels (fuel : nat) (l : list bytes) : bytes :=
  match l with
  | [] => []
  | [x] => x
  | _ => match fuel with O => [] | S f => root_levels f (level_up l) end
  end.

(** The root over hashes already at the bottom level, and over leaf data. *)
Definition merkle_root (l : list bytes) : bytes := root_levels (length l) l.

(** ** Membership proofs *)

Inductive turn : Type := LeftSibling | RightSibling | Promoted.

Definition turn_at (i n : Z) : turn :=
  if Z.odd i then LeftSibling else if i + 1 <? n then RightSibling else Promoted.

Fixpoint turns_fuel (fuel : nat) (i n : Z) : list turn :=
  match fuel with
  | O => []
  | S f => turn_at i n :: turns_fuel f (i / 2) ((n + 1) / 2)
  end.

(** The way from leaf [i] of [n] to the root. *)
Definition turns (i n : Z) : list turn := turns_fuel (Z.to_nat (Z.log2_up n)) i n.

Definition has_sibling (t : turn) : bool := match t with Promoted => false | _ => true end.

(** The number of hashes a proof for leaf [i] of [n] carries. *)
Definition proof_size (i n : Z) : Z := zlen (filter (fun t => has_sibling t = true) (turns i n)).

Fixpoint climb (ts : list turn) (sibs : list bytes) (cur : bytes) : option bytes :=
  match ts, sibs with
  | [], [] => Some cur
  | Promoted :: ts', _ => climb ts' sibs cur
  | LeftSibling :: ts', s :: sibs' => climb ts' sibs' (node s cur)
  | RightSibling :: ts', s :: sibs' => climb ts' sibs' (node cur s)
  | _, _ => None
  end.

(** The siblings an honest prover collects. *)
Fixpoint siblings (ts : list turn) (i : nat) (l : list bytes) : list bytes :=
  match ts with
  | [] => []
  | t :: ts' =>
    match t with
    | LeftSibling => option_list (l !! (i - 1)%nat)
    | RightSibling => option_list (l !! (i + 1)%nat)
    | Promoted => []
    end ++ siblings ts' (i / 2)%nat (level_up l)
  end.

(** The byte strings hashed while building a tree, and while climbing. *)
Fixpoint level_inputs (l : list bytes) : list bytes :=
  match l with
  | x :: y :: r => node_input x y :: level_inputs r
  | _ => []
  end.

Fixpoint tree_inputs (fuel : nat) (l : list bytes) : list bytes :=
  match fuel with
  | O => []
  | S f => level_inputs l ++ tree_inputs f (level_up l)
  end.

Fixpoint climb_inputs (ts : list turn) (sibs : list bytes) (cur : bytes) : list bytes :=
  match ts, sibs with
  | Promoted :: ts', _ => climb_inputs ts' sibs cur
  | LeftSibling :: ts', s :: sibs' => node_input s cur :: climb_inputs ts' sibs' (node s cur)
  | RightSibling :: ts', s :: sibs' => node_input cur s :: climb_inputs ts' sibs' (node cur s)
  | _, _ => []
  end.

(** The hash does not collide between two finite sets of inputs. *)
Definition collision_free (xs ys : list bytes) : Prop :=
  forall a b, a ∈ xs -> b ∈ ys -> digest a = digest b -> a = b.

Definition hashes (l : list bytes) : Prop := Forall (fun h => zlen h = ANTS_BLAKE3_HASH_SIZE) l.

(** The bytes [path] prove that [id] is leaf [i] of [n] under [root]. *)
Definition proves (id : bytes) (i n : Z) (path root : bytes) : Prop :=
  exists sibs, path = concat sibs /\ hashes sibs /\ climb (turns i n) sibs (leaf id) = Some root.

(** ** Levels *)

Lemma list_ind2 {A} (P : list A -> Prop) :
  P [] -> (forall x, P [x]) -> (forall x y l, P l -> P (x :: y :: l)) -> forall l, P l.
Proof.
  intros H0 H1 H2 l. cut (P l /\ forall x, P (x :: l)); [tauto|].
  induction l as [|y l [IH1 IH2]]; [auto|]. split; [auto|]. intros x. auto.
Qed.

Lemma length_level_up l : length (level_up l) = ((length l + 1) / 2)%nat.
Proof.
  induction l as [| |x y l IH] using list_ind2; [done..|]. cbn [level_up length]. rewrite IH.
  replace (S (S (length l)) + 1)%nat with (1 * 2 + (length l + 1))%nat by lia.
  rewrite Nat.div_add_l; lia.
Qed.

Lemma zlen_level_up l : zlen (level_up l) = (zlen l + 1) / 2.
Proof.
  unfold zlen. rewrite length_level_up, Nat2Z.inj_div, Nat2Z.inj_add. done.
Qed.

Lemma level_up_lookup l : forall k,
  level_up l !! k = match l !! (2 * k)%nat with
                    | None => None
                    | Some x => match l !! (2 * k + 1)%nat with
                                | Some y => Some (node x y)
                                | None => Some x
                                end
                    end.
Proof.
  induction l as [|x|x y l IH] using list_ind2; intros k.
  - done.
  - destruct k as [|k]; [done|]. replace (2 * S k)%nat with (S (S (2 * k))) by lia. done.
  - destruct k as [|k]; [done|]. cbn [level_up lookup list_lookup].
    replace (2 * S k)%nat with (S (S (2 * k))) by lia. cbn [Nat.add]. apply IH.
Qed.

Lemma root_levels_fuel f : forall f' l,
  (length l <= S f)%nat -> (length l <= S f')%nat -> root_levels f l = root_levels f' l.
Proof.
  induction f as [|f IH]; intros f' l Hf Hf'.
  - destruct l as [|x [|y l]]; cbn [length] in *; [by destruct f'..|lia].
  - destruct l as [|x [|y l]]; [by destruct f'..|]. destruct f' as [|f']; [cbn in *; lia|].
    cbn [root_levels]. apply IH; rewrite length_level_up; cbn [length] in *.
    all: apply Nat.lt_succ_r, Nat.Div0.div_lt_upper_bound; lia.
Qed.

Lemma merkle_root_step l : merkle_root (level_up l) = merkle_root l.
Proof.
  destruct l as [|x [|y l]]; [done..|]. unfold merkle_root.
  assert (Hd : (length (level_up (x :: y :: l)) <= S (length l))%nat).
  { rewrite length_level_up. cbn [length]. apply Nat.lt_succ_r, Nat.Div0.div_lt_upper_bound. lia. }
  transitivity (root_levels (S (length l)) (level_up (x :: y :: l))).
  - apply root_levels_fuel; lia.
  - done.
Qed.

Lemma merkle_root_one x : merkle_root [x] = x.
Proof. done. Qed.

(** ** Perfect subtrees

    A tree whose left part is perfect splits at its root, and a node of an
    inner level is the root of its block of leaves. *)

Lemma level_up_app l k : Nat.even (length l) = true -> level_up (l ++ k) = level_up l ++ level_up k.
Proof.
  induction l as [| |x y l IH] using list_ind2; intros Hl; [done..|]. cbn [level_up app]. by rewrite IH.
Qed.

Lemma pow2_even k : Nat.even (2 ^ S k) = true.
Proof. by rewrite Nat.pow_succ_r', Nat.even_mul. Qed.

Lemma length_level_up_pow l k : (length l = 2 ^ S k)%nat -> (length (level_up l) = 2 ^ k)%nat.
Proof. intros Hl. rewrite length_level_up, Hl, Nat.pow_succ_r'. divlia. Qed.

Lemma merkle_root_app k : forall l r,
  (length l = 2 ^ k)%nat -> (0 < length r <= 2 ^ k)%nat ->
  merkle_root (l ++ r) = node (merkle_root l) (merkle_root r).
Proof.
  induction k as [|k IH]; intros l r Hl Hr.
  - change (2 ^ 0)%nat with 1%nat in *.
    destruct l as [|x [|]], r as [|y [|]]; cbn [length] in *; try lia. done.
  - rewrite <- merkle_root_step, level_up_app by (rewrite Hl; apply pow2_even).
    rewrite (IH (level_up l) (level_up r)), !merkle_root_step; [done|by apply length_level_up_pow|].
    rewrite length_level_up. rewrite Nat.pow_succ_r' in Hr. divlia.
Qed.

Definition level (k : nat) (l : list bytes) : list bytes := Nat.iter k level_up l.

Lemma level_S k l : level (S k) l = level_up (level k l).
Proof. done. Qed.

Definition block (k i : nat) (l : list bytes) : list bytes := take (2 ^ k) (drop (i * 2 ^ k) l).

Lemma block_split k i l : block (S k) i l = block k (2 * i) l ++ block k (2 * i + 1) l.
Proof.
  unfold block. rewrite Nat.pow_succ_r'. set (p := (2 ^ k)%nat).
  replace (2 * p)%nat with (p + p)%nat by lia.
  replace (i * (p + p))%nat with (2 * i * p)%nat by lia.
  rewrite <- (take_drop p (take (p + p) (drop (2 * i * p) l))), take_take, skipn_firstn_comm.
  rewrite drop_drop. f_equal; [f_equal; lia|]. f_equal; [lia|]. f_equal. lia.
Qed.

Lemma length_block k i l : length (block k i l) = Nat.min (2 ^ k) (length l - i * 2 ^ k).
Proof. unfold block. by rewrite length_take, length_drop. Qed.

Lemma level_lookup k l : forall i,
  level k l !! i = if decide (block k i l = []) then None else Some (merkle_root (block k i l)).
Proof.
  induction k as [|k IH]; intros i.
  - unfold block, level. cbn [Nat.iter Nat.pow]. rewrite Nat.mul_1_r.
    destruct (l !! i) as [x|] eqn:E.
    + rewrite (drop_S _ _ _ E). done.
    + rewrite drop_ge by by apply lookup_ge_None. done.
  - rewrite level_S, level_up_lookup, !IH, block_split.
    pose proof (length_block k (2 * i) l) as H1. pose proof (length_block k (2 * i + 1) l) as H2.
    pose proof (Nat.pow_nonzero 2 k ltac:(lia)).
    destruct (decide (block k (2 * i) l = [])) as [E1|E1].
    + rewrite E1 in *. cbn [length app] in *.
      assert (E2 : block k (2 * i + 1) l = []) by (apply nil_length_inv; lia). by rewrite E2.
    + destruct (decide (block k (2 * i + 1) l = [])) as [E2|E2].
      * rewrite E2, app_nil_r. by rewrite decide_False by done.
      * rewrite decide_False by (intros [? _]%app_eq_nil; done). f_equal. symmetry.
        assert (length (block k (2 * i + 1) l) <> 0%nat) by (by intros ?%nil_length_inv).
        apply (merkle_root_app k); lia.
Qed.

Context {Laws : Blake3Laws B}.

Lemma digest_size b : zlen (digest b) = ANTS_BLAKE3_HASH_SIZE.
Proof. apply finalize_size. Qed.

Lemma hashes_level_up l : hashes l -> hashes (level_up l).
Proof.
  induction l as [| |x y l IH] using list_ind2; [done..|]. intros H. cbn [level_up].
  apply Forall_cons in H as [_ H]. apply Forall_cons in H as [_ H].
  constructor; [apply digest_size|by apply IH].
Qed.

Lemma hashes_lookup l i x : hashes l -> l !! i = Some x -> zlen x = 32.
Proof. intros H Hi. by apply (Forall_lookup_1 _ _ _ _ H Hi). Qed.

(** ** The way up *)

Lemma log2_up_half n : 1 < n -> Z.log2_up n = Z.succ (Z.log2_up ((n + 1) / 2)).
Proof.
  intros Hn. set (m := (n + 1) / 2).
  assert (Hm : n <= 2 * m <= n + 1) by (subst m; divlia).
  destruct (Z.eq_dec m 1) as [E|].
  { rewrite E. replace n with 2 by lia. done. }
  pose proof (Z.log2_up_spec m ltac:(lia)) as [Hlo Hhi].
  pose proof (Z.log2_up_pos m ltac:(lia)).
  apply Z.log2_up_unique; [lia|]. rewrite Z.pow_succ_r by lia. cbn [Z.pred].
  replace (Z.pred (Z.succ (Z.log2_up m))) with (Z.succ (Z.pred (Z.log2_up m))) by lia.
  rewrite Z.pow_succ_r by lia. lia.
Qed.

Lemma turns_step i n : 1 < n -> turns i n = turn_at i n :: turns (i / 2) ((n + 1) / 2).
Proof.
  intros Hn. unfold turns. rewrite (log2_up_half n Hn), Z2Nat.inj_succ by apply Z.log2_up_nonneg.
  done.
Qed.

Lemma turns_done i n : n <= 1 -> turns i n = [].
Proof. intros Hn. unfold turns. by rewrite Z.log2_up_eqn0. Qed.

Lemma length_turns i n : zlen (turns i n) = Z.log2_up n.
Proof.
  unfold turns. pose proof (Z.log2_up_nonneg n). set (k := Z.log2_up n) in *. clearbody k.
  rewrite <- (Z2Nat.id k) at 2 by done. generalize (Z.to_nat k). intros m. clear. revert i n.
  induction m as [|m IH]; intros i n; [done|]. cbn [turns_fuel]. rewrite zlen_cons, IH. lia.
Qed.

Lemma proof_size_step i n : 1 < n ->
  proof_size i n = (if has_sibling (turn_at i n) then 1 else 0) + proof_size (i / 2) ((n + 1) / 2).
Proof.
  intros Hn. unfold proof_size. rewrite turns_step by done. rewrite filter_cons.
  by destruct (turn_at i n); cbn [has_sibling]; case_decide; rewrite ?zlen_cons.
Qed.

Lemma proof_size_done i n : n <= 1 -> proof_size i n = 0.
Proof. intros Hn. unfold proof_size. by rewrite turns_done. Qed.

Lemma climb_size ts : forall sibs cur r,
  climb ts sibs cur = Some r -> zlen sibs = zlen (filter (fun t => has_sibling t = true) ts).
Proof.
  induction ts as [|t ts IH]; intros sibs cur r H.
  - by destruct sibs.
  - rewrite filter_cons. destruct t; cbn [climb has_sibling] in *; case_decide; try done.
    1, 2: destruct sibs as [|s sibs]; [done|]; by rewrite !zlen_cons, (IH _ _ _ H).
    by apply (IH sibs cur r).
Qed.

Lemma proof_size_bound i n : 0 <= proof_size i n <= Z.log2_up n.
Proof.
  rewrite <- (length_turns i n). unfold proof_size, zlen.
  pose proof (length_filter (fun t => has_sibling t = true) (turns i n)). lia.
Qed.

(** ** One level of a membership proof *)

Lemma level_inputs_lookup l : forall k x y,
  l !! (2 * k)%nat = Some x -> l !! (2 * k + 1)%nat = Some y -> node_input x y ∈ level_inputs l.
Proof.
  induction l as [|z|a b l IH] using list_ind2; intros k x y Hx Hy.
  - done.
  - destruct k; done.
  - destruct k as [|k]; cbn [level_inputs].
    + injection Hx as ->. injection Hy as ->. by left.
    + right. apply (IH k); [rewrite <- Hx|rewrite <- Hy].
      * by replace (2 * S k)%nat with (S (S (2 * k))) by lia.
      * by replace (2 * S k + 1)%nat with (S (S (2 * k + 1))) by lia.
Qed.

(** What the level above holds over position [i], by the turn taken there. *)
Definition step_up (l : list bytes) (i : nat) (x : bytes) (t : turn) : Prop :=
  match t with
  | LeftSibling => exists y, l !! (i - 1)%nat = Some y /\
      level_up l !! (i / 2)%nat = Some (node y x) /\ node_input y x ∈ level_inputs l
  | RightSibling => exists y, l !! (i + 1)%nat = Some y /\
      level_up l !! (i / 2)%nat = Some (node x y) /\ node_input x y ∈ level_inputs l
  | Promoted => level_up l !! (i / 2)%nat = Some x
  end.

Lemma step_up_ok l i x : l !! i = Some x -> step_up l i x (turn_at (Z.of_nat i) (zlen l)).
Proof.
  intros Hi. pose proof (lookup_lt_Some _ _ _ Hi) as Hlt. unfold turn_at.
  pose proof (level_up_lookup l (i / 2)) as Hup.
  destruct (Z.odd (Z.of_nat i)) eqn:Ho; [|destruct (Z.ltb_spec (Z.of_nat i + 1) (zlen l))].
  - apply Z.odd_spec in Ho as [k Hk]. assert (Hi2 : i = (2 * (i / 2) + 1)%nat) by divlia.
    destruct (lookup_lt_is_Some_2 l (2 * (i / 2))) as [y Hy]; [lia|].
    rewrite Hy, <- Hi2, Hi in Hup. exists y. replace (i - 1)%nat with (2 * (i / 2))%nat by lia.
    split; [done|]. split; [done|]. apply (level_inputs_lookup l (i / 2)); [done|]. by rewrite <- Hi2.
  - assert (Z.even (Z.of_nat i) = true) as [k Hk]%Z.even_spec by (rewrite <- Z.negb_odd; by rewrite Ho).
    assert (Hi2 : i = (2 * (i / 2))%nat) by divlia.
    destruct (lookup_lt_is_Some_2 l (i + 1)) as [y Hy]; [zlia|].
    rewrite <- Hi2, Hi, Hy in Hup. exists y. split; [done|]. split; [done|].
    apply (level_inputs_lookup l (i / 2)); by rewrite <- Hi2.
  - assert (Z.even (Z.of_nat i) = true) as [k Hk]%Z.even_spec by (rewrite <- Z.negb_odd; by rewrite Ho).
    assert (Hi2 : i = (2 * (i / 2))%nat) by divlia.
    rewrite <- Hi2, Hi, (lookup_ge_None_2 l (i + 1)) in Hup; [done|zlia].
Qed.

Lemma turns_nat_step i (l : list bytes) : (1 < length l)%nat ->
  turns (Z.of_nat i) (zlen l) =
    turn_at (Z.of_nat i) (zlen l) :: turns (Z.of_nat (i / 2)) (zlen (level_up l)).
Proof.
  intros Hl. rewrite turns_step by zlia. rewrite zlen_level_up, Nat2Z.inj_div. done.
Qed.

Lemma length_level_up_lt l : (1 < length l)%nat -> (length (level_up l) < length l)%nat.
Proof. intros H. rewrite length_level_up. divlia. Qed.

(** ** Honest proofs compute the root *)

Lemma climb_honest l : forall i x,
  l !! i = Some x ->
  climb (turns (Z.of_nat i) (zlen l)) (siblings (turns (Z.of_nat i) (zlen l)) i l) x =
    Some (merkle_root l).
Proof.
  induction l as [l IH] using (well_founded_induction (well_founded_ltof _ (@length bytes))).
  intros i x Hi. destruct (decide (1 < length l)%nat) as [Hl|Hl].
  - rewrite turns_nat_step by done. pose proof (step_up_ok l i x Hi) as Hs.
    specialize (IH (level_up l) (length_level_up_lt l Hl) (i / 2)%nat).
    rewrite merkle_root_step in IH. cbn [siblings]. destruct (turn_at _ _); cbn [step_up] in Hs.
    + destruct Hs as (y & -> & Hu & _). by apply IH.
    + destruct Hs as (y & -> & Hu & _). by apply IH.
    + by apply IH.
  - pose proof (lookup_lt_Some _ _ _ Hi). destruct l as [|z [|z' l]]; cbn [length] in *; [lia| |lia].
    destruct i; [|lia]. injection Hi as ->. by rewrite turns_done.
Qed.

Lemma siblings_size l : forall i x,
  l !! i = Some x ->
  zlen (siblings (turns (Z.of_nat i) (zlen l)) i l) = proof_size (Z.of_nat i) (zlen l).
Proof.
  induction l as [l IH] using (well_founded_induction (well_founded_ltof _ (@length bytes))).
  intros i x Hi. destruct (decide (1 < length l)%nat) as [Hl|Hl].
  - rewrite turns_nat_step, proof_size_step by (done || zlia).
    pose proof (step_up_ok l i x Hi) as Hs.
    specialize (IH (level_up l) (length_level_up_lt l Hl) (i / 2)%nat).
    rewrite <- zlen_level_up. change 2 with (Z.of_nat 2). rewrite <- Nat2Z.inj_div.
    cbn [siblings]. rewrite zlen_app. destruct (turn_at _ _); cbn [step_up has_sibling] in *.
    + destruct Hs as (y & -> & Hu & _). by rewrite (IH _ Hu).
    + destruct Hs as (y & -> & Hu & _). by rewrite (IH _ Hu).
    + by rewrite (IH _ Hs).
  - by rewrite turns_done, proof_size_done by zlia.
Qed.

Lemma hashes_option l k : hashes l -> hashes (option_list (l !! k)).
Proof.
  intros Hl. destruct (l !! k) as [y|] eqn:E; [|constructor].
  constructor; [by apply (hashes_lookup l _ _ Hl E)|constructor].
Qed.

Lemma siblings_hashes ts : forall i l, hashes l -> hashes (siblings ts i l).
Proof.
  induction ts as [|t ts IH]; intros i l Hl; [constructor|]. cbn [siblings].
  apply Forall_app. split; [|apply IH, hashes_level_up, Hl].
  destruct t; [by apply hashes_option..|constructor].
Qed.

(** ** A proof that computes the root proves membership *)

Lemma node_input_inj l r l' r' :
  zlen l = zlen l' -> node_input l r = node_input l' r' -> l = l' /\ r = r'.
Proof. unfold node_input. intros Hl [= H]. apply app_inj_1 in H; [done|zlia]. Qed.

Lemma climb_binding f : forall l i sibs cur,
  (length l <= S f)%nat -> (i < length l)%nat -> hashes l -> hashes sibs -> zlen cur = 32 ->
  collision_free (tree_inputs f l) (climb_inputs (turns (Z.of_nat i) (zlen l)) sibs cur) ->
  climb (turns (Z.of_nat i) (zlen l)) sibs cur = Some (merkle_root l) ->
  l !! i = Some cur.
Proof.
  induction f as [|f IH]; intros l i sibs cur Hf Hi Hl Hs Hc Hcf Hr.
  all: destruct (decide (1 < length l)%nat) as [Hl1|Hl1]; [|
    destruct l as [|z [|z' l]]; cbn [length] in *; [lia| |lia]; destruct i; [|lia];
    rewrite turns_done in Hr by done; destruct sibs; [|done]; by injection Hr as ->].
  { lia. }
  rewrite turns_nat_step in Hcf, Hr by done.
  destruct (lookup_lt_is_Some_2 l i Hi) as [x Hx]. pose proof (step_up_ok l i x Hx) as Hup.
  rewrite <- merkle_root_step in Hr. pose proof (length_level_up_lt l Hl1).
  assert (Hi2 : (i / 2 < length (level_up l))%nat) by (rewrite length_level_up; divlia).
  specialize (IH (level_up l) (i / 2)%nat). cbn [tree_inputs] in Hcf.
  assert (Hnext : forall sibs' cur', hashes sibs' -> zlen cur' = 32 ->
    collision_free (tree_inputs f (level_up l))
      (climb_inputs (turns (Z.of_nat (i / 2)) (zlen (level_up l))) sibs' cur') ->
    climb (turns (Z.of_nat (i / 2)) (zlen (level_up l))) sibs' cur' = Some (merkle_root (level_up l)) ->
    level_up l !! (i / 2)%nat = Some cur').
  { intros. apply (IH sibs'); try done; [lia|by apply hashes_level_up]. }
  assert (Hsub : forall ys, collision_free (level_inputs l ++ tree_inputs f (level_up l)) ys ->
    collision_free (tree_inputs f (level_up l)) ys).
  { intros ys Hys a b Ha Hb. apply Hys; [|done]. apply elem_of_app. by right. }
  clear IH. destruct (turn_at _ _); cbn [climb climb_inputs step_up] in *.
  - destruct sibs as [|s sibs]; [done|]. apply Forall_cons in Hs as [Hs0 Hs].
    destruct Hup as (y & Hy & Hu & Hin).
    assert (Hn : level_up l !! (i / 2)%nat = Some (node s cur)).
    { apply (Hnext sibs); [done|apply digest_size| |done].
      apply Hsub. intros a b Ha Hb. apply Hcf; [done|by right]. }
    rewrite Hu in Hn. injection Hn as Hn. rewrite Hx. f_equal.
    apply Hcf in Hn; [|apply elem_of_app; by left|by left].
    apply node_input_inj in Hn as [_ ->]; [done|].
    rewrite Hs0. by apply (hashes_lookup l _ _ Hl Hy).
  - destruct sibs as [|s sibs]; [done|]. apply Forall_cons in Hs as [Hs0 Hs].
    destruct Hup as (y & Hy & Hu & Hin).
    assert (Hn : level_up l !! (i / 2)%nat = Some (node cur s)).
    { apply (Hnext sibs); [done|apply digest_size| |done].
      apply Hsub. intros a b Ha Hb. apply Hcf; [done|by right]. }
    rewrite Hu in Hn. injection Hn as Hn. rewrite Hx. f_equal.
    apply Hcf in Hn; [|apply elem_of_app; by left|by left].
    apply node_input_inj in Hn as [-> _]; [done|].
    rewrite Hc. by apply (hashes_lookup l _ _ Hl Hx).
  - assert (Hn : level_up l !! (i / 2)%nat = Some cur).
    { apply (Hnext sibs); [done|done|by apply Hsub|done]. }
    by rewrite Hx, <- Hn, <- Hup.
Qed.

End merkle.
