(* ===== verification/Crdt.v ===== *)
(** * Fault proofs (src/reputation/crdt/src/crdt.c, the codec and VERIFY)

    Encoding of statements and of the two fault classes, the structural
    decoder, the content address, and VERIFY.  A pointer with its length is
    the byte string it delimits; the signature scheme and the hash are the
    interfaces of Crypto.v. *)

From S2P Require Import Prelude Cbor CborKv Crypto.

Module Crdt.

(** ** Data *)

Definition ANTS_CRDT_PEER_ID_SIZE : Z := 32.
Definition ANTS_CRDT_SIG_SIZE : Z := 64.
Definition ANTS_CRDT_CONTENT_ID_SIZE : Z := 32.
Definition ANTS_FAULT_EQUIVOCATION : Z := 0.
Definition ANTS_FAULT_INVALID_TRANSITION : Z := 1.
Definition ANTS_FAULT__RESERVED_MIN : Z := 2.

Definition ENV_KEY_SUBJECT : Z := 0.
Definition ENV_KEY_FAULT_TYPE : Z := 1.
Definition ENV_KEY_EPOCH : Z := 2.
Definition ENV_KEY_EVIDENCE : Z := 3.
Definition ENV_PAIRS : Z := 4.

Definition STMT_KEY_DOMAIN : Z := 0.
Definition STMT_KEY_EPOCH : Z := 1.
Definition STMT_KEY_SLOT : Z := 2.
Definition STMT_KEY_PAYLOAD : Z := 3.
Definition STMT_PAIRS : Z := 4.
Definition EQUIV_STMTS : Z := 2.
Definition EQUIV_ELEMS : Z := 2.
Definition IT_EVID_ELEMS : Z := 6.

Definition CP_MERKLE_LEAF_PREFIX : Z := 0x00.
Definition CP_MERKLE_NODE_PREFIX : Z := 0x01.
Definition CP_MERKLE_MAX_DEPTH : Z := 32.

Definition L2_BLOCK_KEY_HEIGHT : Z := 1.
Definition L2_BLOCK_KEY_PREV : Z := 2.
Definition L2_BLOCK_KEY_DEGRADED : Z := 3.
Definition L2_BLOCK_KEY_SUMMARY : Z := 4.
Definition L2_SUM_KEY_EPOCH : Z := 1.
Definition L2_SUM_KEY_CUTOFF : Z := 2.
Definition L2_SUM_KEY_CONFIRMED : Z := 3.
Definition L2_SUM_KEY_FINDINGS : Z := 4.
Definition L2_FIND_KEY_SUBJECT : Z := 1.
Definition L2_FIND_KEY_RULE : Z := 2.
Definition L2_FIND_KEY_WINDOW : Z := 3.
Definition L2_FIND_KEY_COUNT : Z := 4.
Definition L2_FIND_KEY_SEVERITY : Z := 5.
Definition L2_BLOCK_PAIRS : Z := 4.
Definition L2_SUM_PAIRS : Z := 4.
Definition L2_FIND_PAIRS : Z := 5.

Record stmt_t : Type := mk_stmt {
  st_domain : Z; st_epoch : Z; st_slot : Z; st_payload : bytes
}.

Record ants_fault_proof_view_t : Type := mk_view {
  v_subject : bytes; v_fault_type : Z; v_epoch : Z; v_evidence : bytes
}.

(** ** Encoding *)

Definition statement_body (domain epoch slot : Z) (payload : option bytes) (payload_len : Z)
  : action ants_cbor_enc_t unit :=
  ants_cbor_enc_map STMT_PAIRS ;*
  ants_cbor_enc_uint STMT_KEY_DOMAIN ;* ants_cbor_enc_uint domain ;*
  ants_cbor_enc_uint STMT_KEY_EPOCH ;* ants_cbor_enc_uint epoch ;*
  ants_cbor_enc_uint STMT_KEY_SLOT ;* ants_cbor_enc_uint slot ;*
  ants_cbor_enc_uint STMT_KEY_PAYLOAD ;* ants_cbor_enc_bytes payload payload_len.

Definition ants_crdt_statement_encode (domain epoch slot : Z) (payload : option bytes)
  (payload_len cap : Z) : action bytes Z :=
  if is_null payload && negb (payload_len =? 0) then fail ANTS_ERROR_INVALID_ARG
  else with_encoder cap (statement_body domain epoch slot payload payload_len).

Definition enc_stmt_element (body sig : bytes) : action ants_cbor_enc_t unit :=
  ants_cbor_enc_array EQUIV_ELEMS ;*
  ants_cbor_enc_bytes (Some body) (zlen body) ;*
  ants_cbor_enc_bytes (Some sig) ANTS_CRDT_SIG_SIZE.

Definition equivocation_body (subject : bytes) (epoch : Z) (body_a sig_a body_b sig_b : bytes)
  : action ants_cbor_enc_t unit :=
  ants_cbor_enc_map ENV_PAIRS ;*
  ants_cbor_enc_uint ENV_KEY_SUBJECT ;* ants_cbor_enc_bytes (Some subject) ANTS_CRDT_PEER_ID_SIZE ;*
  ants_cbor_enc_uint ENV_KEY_FAULT_TYPE ;* ants_cbor_enc_uint ANTS_FAULT_EQUIVOCATION ;*
  ants_cbor_enc_uint ENV_KEY_EPOCH ;* ants_cbor_enc_uint epoch ;*
  ants_cbor_enc_uint ENV_KEY_EVIDENCE ;* ants_cbor_enc_array EQUIV_STMTS ;*
  enc_stmt_element body_a sig_a ;*
  enc_stmt_element body_b sig_b.

Definition ants_crdt_equivocation_encode (subject : bytes) (epoch : Z)
  (body_a sig_a body_b sig_b : bytes) (cap : Z) : action bytes Z :=
  if (zlen body_a =? 0) || (zlen body_b =? 0) then fail ANTS_ERROR_INVALID_ARG
  else with_encoder cap (equivocation_body subject epoch body_a sig_a body_b sig_b).

Definition invalid_transition_body (subject : bytes) (epoch : Z) (block sig cited : bytes)
  (leaf_index n_leaves : Z) (path : option bytes) (path_len : Z) : action ants_cbor_enc_t unit :=
  ants_cbor_enc_map ENV_PAIRS ;*
  ants_cbor_enc_uint ENV_KEY_SUBJECT ;* ants_cbor_enc_bytes (Some subject) ANTS_CRDT_PEER_ID_SIZE ;*
  ants_cbor_enc_uint ENV_KEY_FAULT_TYPE ;* ants_cbor_enc_uint ANTS_FAULT_INVALID_TRANSITION ;*
  ants_cbor_enc_uint ENV_KEY_EPOCH ;* ants_cbor_enc_uint epoch ;*
  ants_cbor_enc_uint ENV_KEY_EVIDENCE ;* ants_cbor_enc_array IT_EVID_ELEMS ;*
  ants_cbor_enc_bytes (Some block) (zlen block) ;*
  ants_cbor_enc_bytes (Some sig) ANTS_CRDT_SIG_SIZE ;*
  ants_cbor_enc_bytes (Some cited) (zlen cited) ;*
  ants_cbor_enc_uint leaf_index ;*
  ants_cbor_enc_uint n_leaves ;*
  ants_cbor_enc_bytes path path_len.

Definition ants_crdt_invalid_transition_encode (subject : bytes) (epoch : Z)
  (block sig cited : bytes) (leaf_index n_leaves : Z) (path : option bytes) (path_len cap : Z)
  : action bytes Z :=
  if (zlen block =? 0) || (zlen cited =? 0) then fail ANTS_ERROR_INVALID_ARG
  else if is_null path && negb (path_len =? 0) then fail ANTS_ERROR_INVALID_ARG
  else if (n_leaves =? 0) || (n_leaves <=? leaf_index) then fail ANTS_ERROR_INVALID_ARG
  else with_encoder cap
         (invalid_transition_body subject epoch block sig cited leaf_index n_leaves path path_len).

(** ** Decode helpers *)

(** [... != ANTS_OK ... return ANTS_ERROR_MALFORMED;] *)
Definition malformed {S A} (m : action S A) : action S A := map_err (fun _ => ANTS_ERROR_MALFORMED) m.

Definition dec_expect_key (expected : Z) : action ants_cbor_dec_t unit :=
  let* ty := malformed ants_cbor_dec_peek_type in
  if negb (bool_decide (ty = ANTS_CBOR_TYPE_UINT)) then fail ANTS_ERROR_MALFORMED
  else
    let* k := malformed ants_cbor_dec_uint in
    if negb (k =? expected) then fail ANTS_ERROR_MALFORMED else ret tt.

Definition dec_uint_val : action ants_cbor_dec_t Z :=
  let* ty := malformed ants_cbor_dec_peek_type in
  if negb (bool_decide (ty = ANTS_CBOR_TYPE_UINT)) then fail ANTS_ERROR_MALFORMED
  else malformed ants_cbor_dec_uint.

Definition dec_bytes_val : action ants_cbor_dec_t bytes :=
  let* ty := malformed ants_cbor_dec_peek_type in
  if negb (bool_decide (ty = ANTS_CBOR_TYPE_BYTES)) then fail ANTS_ERROR_MALFORMED
  else malformed ants_cbor_dec_bytes.

(** Run [m] on a decoder of the caller's frame over [buf]. *)
Definition local_dec {A} (buf : bytes) (m : action ants_cbor_dec_t A) : action unit A :=
  fun u =>
  match ants_cbor_dec_init (Some buf) (zlen buf) with
  | Ok _ d =>
    match m d with
    | Ok _ a => Ok u a
    | Err _ e => Err u e
    | UB => UB
    | NoFuel => NoFuel
    end
  | Err _ _ => Err u ANTS_ERROR_MALFORMED
  | UB => UB
  | NoFuel => NoFuel
  end.

(** [dec_map != ANTS_OK || n != want]. *)
Definition dec_map_of (want : Z) : action ants_cbor_dec_t unit :=
  let* n := malformed ants_cbor_dec_map in
  if negb (n =? want) then fail ANTS_ERROR_MALFORMED else ret tt.

Definition dec_array_of (want : Z) : action ants_cbor_dec_t unit :=
  let* n := malformed ants_cbor_dec_array in
  if negb (n =? want) then fail ANTS_ERROR_MALFORMED else ret tt.

(** A byte string of a fixed size: [... if (len != want) return MALFORMED]. *)
Definition dec_bytes_of (want : Z) : action ants_cbor_dec_t bytes :=
  let* b := dec_bytes_val in
  if negb (zlen b =? want) then fail ANTS_ERROR_MALFORMED else ret b.

Definition statement_walk : action ants_cbor_dec_t stmt_t :=
  dec_map_of STMT_PAIRS ;*
  dec_expect_key STMT_KEY_DOMAIN ;* let* domain := dec_uint_val in
  dec_expect_key STMT_KEY_EPOCH ;* let* epoch := dec_uint_val in
  dec_expect_key STMT_KEY_SLOT ;* let* slot := dec_uint_val in
  dec_expect_key STMT_KEY_PAYLOAD ;* let* payload := dec_bytes_val in
  malformed ants_cbor_dec_finalise ;*
  ret (mk_stmt domain epoch slot payload).

Definition decode_statement (body : bytes) : action unit stmt_t :=
  malformed (fun _ => ants_cbor_is_canonical (Some body) (zlen body)) ;*
  local_dec body statement_walk.

(** ** The envelope *)

Definition envelope_walk (buf : bytes) : action (ants_cbor_dec_t * ants_fault_proof_view_t) unit :=
  on_fst (dec_map_of ENV_PAIRS) ;*
  on_fst (dec_expect_key ENV_KEY_SUBJECT) ;*
  let* subj := on_fst (dec_bytes_of ANTS_CRDT_PEER_ID_SIZE) in
  on_fst (dec_expect_key ENV_KEY_FAULT_TYPE) ;*
  let* ft := on_fst dec_uint_val in
  modify_snd (fun v => mk_view (v_subject v) ft (v_epoch v) (v_evidence v)) ;*
  on_fst (dec_expect_key ENV_KEY_EPOCH) ;*
  let* ep := on_fst dec_uint_val in
  modify_snd (fun v => mk_view (v_subject v) (v_fault_type v) ep (v_evidence v)) ;*
  on_fst (dec_expect_key ENV_KEY_EVIDENCE) ;*
  let* st := get in
  let ev_start := ants_cbor_dec_pos st.1 in
  if zlen buf <=? ev_start then fail ANTS_ERROR_MALFORMED
  else
    let* ev := deref (slice buf ev_start (size_sub (zlen buf) ev_start)) in
    modify_snd (fun v => mk_view subj (v_fault_type v) (v_epoch v) ev).

Definition ants_crdt_fault_proof_decode (buf : option bytes)
  : action ants_fault_proof_view_t unit :=
  match buf with
  | None => fail ANTS_ERROR_INVALID_ARG
  | Some b =>
    if zlen b =? 0 then fail ANTS_ERROR_INVALID_ARG
    else fun out =>
      match ants_cbor_is_canonical (Some b) (zlen b) with
      | Ok _ _ =>
        match ants_cbor_dec_init (Some b) (zlen b) with
        | Ok _ d =>
          match envelope_walk b (d, out) with
          | Ok st _ => Ok st.2 tt
          | Err st e => Err st.2 e
          | UB => UB
          | NoFuel => NoFuel
          end
        | Err _ _ => Err out ANTS_ERROR_MALFORMED
        | UB => UB
        | NoFuel => NoFuel
        end
      | Err _ e => Err out e
      | UB => UB
      | NoFuel => NoFuel
      end
  end.

(** The view a caller's uninitialised object holds before the call. *)
Definition view_0 : ants_fault_proof_view_t := mk_view [] 0 0 [].

(** A call with a view of the caller's frame: its contents after success. *)
Definition decode_view (buf : option bytes) : action unit ants_fault_proof_view_t :=
  fun u =>
  match ants_crdt_fault_proof_decode buf view_0 with
  | Ok v _ => Ok u v
  | Err _ e => Err u e
  | UB => UB
  | NoFuel => NoFuel
  end.

(** ** Content address *)

Section verify.
Context `{B : Blake3} `{Ed : Ed25519}.

Definition ants_crdt_content_id (buf : option bytes) : action unit bytes :=
  match buf with
  | None => fail ANTS_ERROR_INVALID_ARG
  | Some b =>
    if zlen b =? 0 then fail ANTS_ERROR_INVALID_ARG
    else fun _ => ants_blake3_hash (Some b) (zlen b)
  end.

(** ** The equivocation class *)

Definition stmt_element_walk : action ants_cbor_dec_t (bytes * bytes) :=
  dec_array_of EQUIV_ELEMS ;*
  let* body := dec_bytes_val in
  let* sig := dec_bytes_of ANTS_CRDT_SIG_SIZE in
  ret (body, sig).

Definition equivocation_walk : action ants_cbor_dec_t ((bytes * bytes) * (bytes * bytes)) :=
  dec_map_of ENV_PAIRS ;*
  dec_expect_key ENV_KEY_SUBJECT ;* let* _ := dec_bytes_val in
  dec_expect_key ENV_KEY_FAULT_TYPE ;* let* _ := dec_uint_val in
  dec_expect_key ENV_KEY_EPOCH ;* let* _ := dec_uint_val in
  dec_expect_key ENV_KEY_EVIDENCE ;*
  dec_array_of EQUIV_STMTS ;*
  let* e0 := stmt_element_walk in
  let* e1 := stmt_element_walk in
  malformed ants_cbor_dec_finalise ;*
  ret (e0, e1).

Definition verify_equivocation (buf subject : bytes) (env_epoch : Z) : action unit unit :=
  let* (e0, e1) := local_dec buf equivocation_walk in
  let* st0 := decode_statement e0.1 in
  let* st1 := decode_statement e1.1 in
  if negb (st_epoch st0 =? env_epoch) || negb (st_epoch st1 =? env_epoch)
  then fail ANTS_ERROR_MALFORMED
  else if negb (st_domain st0 =? st_domain st1) || negb (st_slot st0 =? st_slot st1)
  then fail ANTS_ERROR_MALFORMED
  else if (zlen (st_payload st0) =? zlen (st_payload st1))
       && (memcmp (st_payload st0) (st_payload st1) =? 0)
  then fail ANTS_ERROR_MALFORMED
  else
    malformed (fun _ => ants_ed25519_verify subject (Some e0.1) (zlen e0.1) e0.2) ;*
    malformed (fun _ => ants_ed25519_verify subject (Some e1.1) (zlen e1.1) e1.2).

(** ** The invalid-transition class *)

(** Run on a hasher context of the caller's frame; the first call of every
    user initialises it. *)
Definition local_hash (m : action ants_blake3_ctx_t bytes) : action unit bytes :=
  fun u =>
  match m blake3_hasher_init with
  | Ok _ a => Ok u a
  | Err _ e => Err u e
  | UB => UB
  | NoFuel => NoFuel
  end.

Definition cp_leaf_hash (id : bytes) : action unit bytes :=
  local_hash (
    ants_blake3_init ;*
    ants_blake3_update (Some [CP_MERKLE_LEAF_PREFIX]) 1 ;*
    ants_blake3_update (Some id) ANTS_CRDT_CONTENT_ID_SIZE ;*
    ants_blake3_final).

Definition cp_node_hash (left right : bytes) : action unit bytes :=
  local_hash (
    ants_blake3_init ;*
    ants_blake3_update (Some [CP_MERKLE_NODE_PREFIX]) 1 ;*
    ants_blake3_update (Some left) ANTS_CRDT_CONTENT_ID_SIZE ;*
    ants_blake3_update (Some right) ANTS_CRDT_CONTENT_ID_SIZE ;*
    ants_blake3_final).

(** The level above: [idx /= 2; count = (count + 1) / 2]. *)
Definition up_count (count : Z) : Z := u64 (count + 1) / 2.

(** The loop of [cp_path_len]; a level halves the count, so 65 levels are
    enough for any 64-bit count. *)
Fixpoint path_len_loop (fuel : nat) (idx count len : Z) : option Z :=
  if 1 <? count then
    match fuel with
    | O => None
    | S f =>
      let len' := if Z.land idx 1 =? 1 then size_add len 1
                  else if u64 (idx + 1) <? count then size_add len 1 else len in
      path_len_loop f (idx / 2) (up_count count) len'
    end
  else Some len.

Definition cp_path_len (index n_leaves : Z) : action unit Z :=
  fun u => match path_len_loop 65 index n_leaves 0 with Some n => Ok u n | None => NoFuel end.

(** The loop of [cp_fold_to_root]: the hash it ends with and the siblings it
    consumed. *)
Fixpoint fold_loop (fuel : nat) (idx count consumed : Z) (path cur : bytes)
  : action unit (bytes * Z) :=
  if 1 <? count then
    match fuel with
    | O => fun _ => NoFuel
    | S f =>
      let* (cur', consumed') :=
        (if Z.land idx 1 =? 1 then
           let* sib := deref (slice path (consumed * 32) 32) in
           let* h := cp_node_hash sib cur in ret (h, consumed + 1)
         else if u64 (idx + 1) <? count then
           let* sib := deref (slice path (consumed * 32) 32) in
           let* h := cp_node_hash cur sib in ret (h, consumed + 1)
         else ret (cur, consumed)) in
      fold_loop f (idx / 2) (up_count count) consumed' path cur'
    end
  else ret (cur, consumed).

Definition cp_fold_to_root (leaf_id : bytes) (index n_leaves : Z) (path : bytes)
  : action unit bytes :=
  let* cur := cp_leaf_hash leaf_id in
  let* (root, _) := fold_loop 65 index n_leaves 0 path cur in
  ret root.

Definition finding_walk : action ants_cbor_dec_t unit :=
  dec_map_of L2_FIND_PAIRS ;*
  dec_expect_key L2_FIND_KEY_SUBJECT ;* let* _ := dec_bytes_of ANTS_CRDT_PEER_ID_SIZE in
  dec_expect_key L2_FIND_KEY_RULE ;* let* _ := dec_uint_val in
  dec_expect_key L2_FIND_KEY_WINDOW ;* let* _ := dec_uint_val in
  dec_expect_key L2_FIND_KEY_COUNT ;* let* _ := dec_uint_val in
  dec_expect_key L2_FIND_KEY_SEVERITY ;* let* _ := dec_uint_val in
  ret tt.

Definition block_walk : action ants_cbor_dec_t bytes :=
  dec_map_of L2_BLOCK_PAIRS ;*
  dec_expect_key L2_BLOCK_KEY_HEIGHT ;* let* _ := dec_uint_val in
  dec_expect_key L2_BLOCK_KEY_PREV ;* let* _ := dec_bytes_of ANTS_CRDT_CONTENT_ID_SIZE in
  dec_expect_key L2_BLOCK_KEY_DEGRADED ;* let* _ := malformed ants_cbor_dec_bool in
  dec_expect_key L2_BLOCK_KEY_SUMMARY ;* let* sp := dec_bytes_val in
  malformed ants_cbor_dec_finalise ;*
  ret sp.

Definition summary_walk : action ants_cbor_dec_t (Z * bytes) :=
  dec_map_of L2_SUM_PAIRS ;*
  dec_expect_key L2_SUM_KEY_EPOCH ;* let* epoch := dec_uint_val in
  dec_expect_key L2_SUM_KEY_CUTOFF ;* let* _ := dec_uint_val in
  dec_expect_key L2_SUM_KEY_CONFIRMED ;*
  let* root := dec_bytes_of ANTS_CRDT_CONTENT_ID_SIZE in
  dec_expect_key L2_SUM_KEY_FINDINGS ;*
  let* nf := malformed ants_cbor_dec_array in
  for_loop (Z.to_nat nf) 0 nf (fun _ => finding_walk) ;*
  malformed ants_cbor_dec_finalise ;*
  ret (epoch, root).

Definition parse_block_summary (block : bytes) : action unit (Z * bytes) :=
  malformed (fun _ => ants_cbor_is_canonical (Some block) (zlen block)) ;*
  let* sp := local_dec block block_walk in
  malformed (fun _ => ants_cbor_is_canonical (Some sp) (zlen sp)) ;*
  local_dec sp summary_walk.

Definition transition_walk
  : action ants_cbor_dec_t (bytes * bytes * bytes * Z * Z * bytes) :=
  dec_array_of IT_EVID_ELEMS ;*
  let* block := dec_bytes_val in
  let* sig := dec_bytes_val in
  let* cited := dec_bytes_val in
  let* leaf_index := dec_uint_val in
  let* n_leaves := dec_uint_val in
  let* path := dec_bytes_val in
  malformed ants_cbor_dec_finalise ;*
  ret (block, sig, cited, leaf_index, n_leaves, path).

(** The verdict on the citation; [verify] is the recursive call. *)
Definition judge_citation (verify : bytes -> action unit unit) (cited : bytes) : action unit unit :=
  fun u =>
  match decode_view (Some cited) u with
  | Err _ _ => Ok u tt
  | UB => UB
  | NoFuel => NoFuel
  | Ok _ view =>
    if v_fault_type view =? ANTS_FAULT_INVALID_TRANSITION then Err u ANTS_ERROR_MALFORMED
    else if ANTS_FAULT__RESERVED_MIN <=? v_fault_type view then Err u ANTS_ERROR_NOT_IMPLEMENTED
    else
      match verify cited u with
      | Ok _ _ => Err u ANTS_ERROR_MALFORMED
      | Err _ ANTS_ERROR_MALFORMED | Err _ ANTS_ERROR_NON_CANONICAL => Ok u tt
      | Err _ ANTS_ERROR_UNSUPPORTED_TYPE | Err _ ANTS_ERROR_NOT_IMPLEMENTED =>
        Err u ANTS_ERROR_NOT_IMPLEMENTED
      | Err _ _ => Err u ANTS_ERROR_MALFORMED
      | UB => UB
      | NoFuel => NoFuel
      end
  end.

Definition verify_invalid_transition (verify : bytes -> action unit unit)
  (evidence subject : bytes) (env_epoch : Z) : action unit unit :=
  let* (block, sig, cited, leaf_index, n_leaves, path) := local_dec evidence transition_walk in
  if (zlen block =? 0) || negb (zlen sig =? ANTS_CRDT_SIG_SIZE) || (zlen cited =? 0)
  then fail ANTS_ERROR_MALFORMED
  else if (n_leaves =? 0) || (Z.shiftl 1 CP_MERKLE_MAX_DEPTH <? n_leaves)
  then fail ANTS_ERROR_MALFORMED
  else if n_leaves <=? leaf_index then fail ANTS_ERROR_MALFORMED
  else
    let* plen := cp_path_len leaf_index n_leaves in
    if negb (zlen path =? u64 (plen * ANTS_CRDT_CONTENT_ID_SIZE)) then fail ANTS_ERROR_MALFORMED
    else
      let* (sum_epoch, root) := parse_block_summary block in
      if negb (sum_epoch =? env_epoch) then fail ANTS_ERROR_MALFORMED
      else
        let* block_hash := malformed (fun _ => ants_blake3_hash (Some block) (zlen block)) in
        malformed (fun _ => ants_ed25519_verify subject (Some block_hash) ANTS_CRDT_CONTENT_ID_SIZE sig) ;*
        let* leaf_id := malformed (ants_crdt_content_id (Some cited)) in
        let* folded := cp_fold_to_root leaf_id leaf_index n_leaves path in
        if negb (memcmp folded root =? 0) then fail ANTS_ERROR_MALFORMED
        else judge_citation verify cited.

(** ** VERIFY *)

(** [ants_crdt_verify] calls itself on a citation; the fuel bounds the
    nesting.  Two is enough: a citation of the invalid-transition class is
    refused before the call. *)
Fixpoint verify_nested (fuel : nat) (buf : bytes) : action unit unit :=
  match fuel with
  | O => fun _ => NoFuel
  | S f =>
    let* view := decode_view (Some buf) in
    if v_fault_type view =? ANTS_FAULT_EQUIVOCATION
    then verify_equivocation buf (v_subject view) (v_epoch view)
    else if v_fault_type view =? ANTS_FAULT_INVALID_TRANSITION
    then verify_invalid_transition (verify_nested f) (v_evidence view) (v_subject view) (v_epoch view)
    else fail ANTS_ERROR_UNSUPPORTED_TYPE
  end.

Definition ants_crdt_verify (buf : option bytes) : action unit unit :=
  match buf with
  | None => fail ANTS_ERROR_INVALID_ARG
  | Some b => if zlen b =? 0 then fail ANTS_ERROR_INVALID_ARG else verify_nested 2 b
  end.
End verify.

End Crdt.
