(* ===== verification/CrdtMerkle.v ===== *)
(** * The Merkle helpers of VERIFY (src/reputation/crdt/src/crdt.c)

    [cp_path_len] and [cp_fold_to_root] compute the reference functions of
    Merkle.v: the number of siblings on the way from a leaf to the root, and
    the root a membership proof leads to.

    Then: what the root of a tree binds, whatever number of leaves a path is
    checked against. *)

From S2P Require Import Prelude Cbor Crypto Merkle Crdt.
Import Crdt.

#[local] Arguments zlen {A} l : simpl never.

Section hashes.
Context `{B : Blake3} {Laws : Blake3Laws B}.

Lemma cp_leaf_hash_eq id u : zlen id = 32 -> cp_leaf_hash id u = Ok u (leaf id).
Proof.
  intros Hid. unfold cp_leaf_hash, local_hash, bind, ants_blake3_init.
  rewrite (update_sized _ [CP_MERKLE_LEAF_PREFIX] 1) by done.
  by rewrite (update_sized _ id) by done; cbn; rewrite update_app.
Qed.

Lemma cp_node_hash_eq l r u :
  zlen l = 32 -> zlen r = 32 -> cp_node_hash l r u = Ok u (node l r).
Proof.
  intros Hl Hr. unfold cp_node_hash, local_hash, bind, ants_blake3_init.
  rewrite (update_sized _ [CP_MERKLE_NODE_PREFIX] 1) by done.
  by rewrite (update_sized _ l), (update_sized _ r) by done; cbn; rewrite !update_app.
Qed.
End hashes.

(** ** The loops *)

Lemma up_count_eq n : 1 < n < UINT64_MAX -> up_count n = (n + 1) / 2.
Proof. intros Hn. unfold up_count. by rewrite u64_small by zlia. Qed.

Lemma land_1_odd i : (Z.land i 1 =? 1) = Z.odd i.
Proof.
  change 1 with (Z.ones 1) at 1. rewrite land_low by lia. change (2 ^ 1) with 2.
  rewrite Zmod_odd. by destruct (Z.odd i).
Qed.

(** The side a level of the loop takes, as the code tests it. *)
Lemma turn_at_tests {A} (l r p : A) i n :
  0 <= i < n -> n <= UINT64_MAX ->
  (if Z.land i 1 =? 1 then l else if u64 (i + 1) <? n then r else p) =
    match turn_at i n with LeftSibling => l | RightSibling => r | Promoted => p end.
Proof.
  intros Hi Hn. rewrite land_1_odd, u64_small by zlia. unfold turn_at.
  destruct (Z.odd i); [done|]. by destruct (i + 1 <? n).
Qed.

Lemma half_bound n k : n <= 2 ^ Z.of_nat (Datatypes.S k) -> (n + 1) / 2 <= 2 ^ Z.of_nat k.
Proof. rewrite Nat2Z.inj_succ, Z.pow_succ_r by lia. intros H. divlia. Qed.

Lemma path_len_loop_eq fuel : forall i n len,
  0 <= i < n -> n < UINT64_MAX -> n <= 2 ^ Z.of_nat fuel ->
  0 <= len -> len + proof_size i n <= SIZE_MAX ->
  path_len_loop fuel i n len = Some (len + proof_size i n).
Proof.
  induction fuel as [|f IH]; intros i n len Hi Hn Hf Hlen Hmax; cbn [path_len_loop].
  all: destruct (Z.ltb_spec 1 n); [|by rewrite proof_size_done, Z.add_0_r].
  { change (2 ^ Z.of_nat 0) with 1 in Hf. lia. }
  rewrite up_count_eq by lia. rewrite proof_size_step in Hmax by done.
  pose proof (proof_size_bound (i / 2) ((n + 1) / 2)) as [Hps _].
  rewrite (turn_at_tests (size_add len 1) (size_add len 1) len) by zlia.
  rewrite IH; [|divlia|divlia|by apply half_bound|..].
  - rewrite (proof_size_step i n) by done. f_equal.
    destruct (turn_at i n); cbn [has_sibling] in *; rewrite ?size_add_small by zlia; lia.
  - destruct (turn_at i n); cbn [has_sibling] in *; rewrite ?size_add_small by zlia; lia.
  - destruct (turn_at i n); cbn [has_sibling] in *; rewrite ?size_add_small by zlia; lia.
Qed.

Lemma cp_path_len_eq i n u :
  0 <= i < n -> n < UINT64_MAX -> cp_path_len i n u = Ok u (proof_size i n).
Proof.
  intros Hi Hn. unfold cp_path_len. pose proof (proof_size_bound i n).
  assert (Z.log2_up n <= 64) by (apply Z.log2_up_le_pow2; zlia).
  rewrite path_len_loop_eq; [done|done|done|zlia..].
Qed.

(** A path is a list of hashes laid end to end. *)
Lemma path_hashes k : forall path,
  zlen path = Z.of_nat k * 32 ->
  exists sibs, path = concat sibs /\ hashes sibs /\ zlen sibs = Z.of_nat k.
Proof.
  induction k as [|k IH]; intros path Hp.
  - exists []. destruct path; [by split_and!; [|constructor|]|short_list].
  - destruct (IH (drop 32 path)) as (sibs & Hd & Hs & Hn).
    { unfold zlen in *. rewrite length_drop. lia. }
    exists (take 32 path :: sibs). cbn [concat]. rewrite <- Hd, take_drop. split; [done|]. split.
    + constructor; [|done]. unfold zlen in *. rewrite length_take.
      change ANTS_BLAKE3_HASH_SIZE with 32. lia.
    + rewrite zlen_cons. lia.
Qed.

Lemma zlen_concat_hashes l : hashes l -> zlen (concat l) = zlen l * 32.
Proof.
  induction 1 as [|h l Hh _ IH]; [done|]. cbn [concat]. rewrite zlen_app, zlen_cons, IH.
  change ANTS_BLAKE3_HASH_SIZE with 32 in Hh. lia.
Qed.

Lemma slice_sibling {S A} pre s post (k : bytes -> action S A) u :
  hashes pre -> zlen s = 32 ->
  (let* sib := deref (slice (concat (pre ++ s :: post)) (zlen pre * 32) 32) in k sib) u = k s u.
Proof.
  intros Hp Hs. rewrite concat_app. cbn [concat]. rewrite <- (zlen_concat_hashes pre), <- Hs by done.
  by rewrite slice_mid.
Qed.

Section fold.
Context `{B : Blake3} {Laws : Blake3Laws B}.

Lemma fold_loop_climb fuel : forall i n pre sibs cur u,
  0 <= i < n -> n < UINT64_MAX -> n <= 2 ^ Z.of_nat fuel ->
  hashes (pre ++ sibs) -> zlen sibs = proof_size i n -> zlen cur = 32 ->
  exists r, climb (turns i n) sibs cur = Some r /\ zlen r = 32 /\
    fold_loop fuel i n (zlen pre) (concat (pre ++ sibs)) cur u = Ok u (r, zlen (pre ++ sibs)).
Proof.
  induction fuel as [|f IH]; intros i n pre sibs cur u Hi Hn Hf Hh Hs Hc; cbn [fold_loop].
  all: destruct (Z.ltb_spec 1 n); [|rewrite proof_size_done in Hs by done; rewrite turns_done by done;
    destruct sibs; [exists cur; by rewrite app_nil_r|short_list]].
  { change (2 ^ Z.of_nat 0) with 1 in Hf. lia. }
  rewrite up_count_eq by lia. rewrite proof_size_step in Hs by done. rewrite turns_step by done.
  pose proof (proof_size_bound (i / 2) ((n + 1) / 2)) as [Hps _].
  assert (Hnext : forall pre' sibs' cur', pre ++ sibs = pre' ++ sibs' ->
    zlen sibs' = proof_size (i / 2) ((n + 1) / 2) -> zlen cur' = 32 ->
    exists r, climb (turns (i / 2) ((n + 1) / 2)) sibs' cur' = Some r /\ zlen r = 32 /\
      fold_loop f (i / 2) ((n + 1) / 2) (zlen pre') (concat (pre ++ sibs)) cur' u = Ok u (r, zlen (pre ++ sibs))).
  { intros pre' sibs' cur' He Hs' Hc'. rewrite He in Hh |- *.
    apply IH; [divlia|divlia|by apply half_bound|done..]. }
  rewrite turn_at_tests by zlia. destruct (turn_at i n); cbn [has_sibling climb] in *.
  1, 2: destruct sibs as [|s sibs]; [short_list|]; rewrite zlen_cons in Hs;
    pose proof Hh as [Hpre [Hs0 _]%Forall_cons]%Forall_app; change ANTS_BLAKE3_HASH_SIZE with 32 in Hs0;
    rewrite bind_assoc, slice_sibling by done;
    rewrite bind_assoc; erewrite bind_Ok by (by apply cp_node_hash_eq); rewrite bind_ret_l;
    replace (zlen pre + 1) with (zlen (pre ++ [s])) by (rewrite zlen_app; done);
    apply Hnext; [by rewrite <- app_assoc|lia|apply digest_size].
  rewrite bind_ret_l. by apply Hnext.
Qed.

Lemma concat_hashes_inj l : forall k, hashes l -> hashes k -> concat l = concat k -> l = k.
Proof.
  induction l as [|h l IH]; intros k Hl Hk He.
  - destruct k as [|g k]; [done|]. apply Forall_cons in Hk as [Hg _]. cbn in He.
    destruct g; [done|discriminate].
  - destruct k as [|g k]; apply Forall_cons in Hl as [Hh Hl].
    { cbn in He. destruct h; [done|discriminate]. }
    apply Forall_cons in Hk as [Hg Hk]. cbn [concat] in He.
    apply app_inj_1 in He as [-> He]; [|unfold zlen in *; lia]. by rewrite (IH k).
Qed.

(** Folding a path of the right length gives the one root it proves. *)
Lemma cp_fold_to_root_proves id i n path u :
  zlen id = 32 -> 0 <= i < n -> n < UINT64_MAX -> zlen path = proof_size i n * 32 ->
  exists r, zlen r = 32 /\ cp_fold_to_root id i n path u = Ok u r /\
    forall root, proves id i n path root <-> root = r.
Proof.
  intros Hid Hi Hn Hp. pose proof (proof_size_bound i n) as [Hps _].
  destruct (path_hashes (Z.to_nat (proof_size i n)) path) as (sibs & -> & Hs & Hl); [lia|].
  rewrite Z2Nat.id in Hl by done.
  destruct (fold_loop_climb 65 i n [] sibs (leaf id) u) as (r & Hc & Hr & Hf);
    [done|done|zlia|done|done|apply digest_size|].
  exists r. split; [done|]. split.
  - unfold cp_fold_to_root. rewrite (bind_Ok _ _ _ _ _ (cp_leaf_hash_eq id u Hid)).
    change 0 with (zlen (@nil bytes)) at 1. by rewrite (bind_Ok _ _ _ _ _ Hf).
  - intros root. split.
    + intros (sibs' & He & Hs' & Hc'). apply concat_hashes_inj in He as <-; [|done..]. congruence.
    + intros ->. by exists sibs.
Qed.

Lemma proves_size id i n path root : proves id i n path root -> zlen path = proof_size i n * 32.
Proof.
  intros (sibs & -> & Hs & Hc). rewrite zlen_concat_hashes by done.
  unfold proof_size. by rewrite (climb_size _ _ _ _ Hc).
Qed.
End fold.

(** * Opened positions of a Merkle tree

    The verifiers of a membership path are told the number of leaves and
    believe it.  They may: a path that leads to the root
    of a tree, for whatever number of leaves it was checked against, ends in
    one of the leaves of that tree, and paths for different positions end in
    different leaves, unless two of the hashed byte strings collide. *)

(** A tree of hashes as it is opened; a leaf is the data below it. *)
Inductive htree : Type := HLeaf (data : bytes) | HNode (l r : htree).

(** The way down to a leaf: the side taken at each node, from the root. *)
Inductive side : Type := GoLeft | GoRight.

#[export] Instance side_eq_dec : EqDecision side.
Proof. solve_decision. Defined.

Fixpoint subtree (t : htree) (way : list side) {struct way} : option htree :=
  match way with
  | [] => Some t
  | s :: way' =>
    match t with
    | HLeaf _ => None
    | HNode l r => match s with GoLeft => subtree l way' | GoRight => subtree r way' end
    end
  end.

Fixpoint leaf_data (t : htree) : list bytes :=
  match t with HLeaf d => [d] | HNode l r => leaf_data l ++ leaf_data r end.

(** The place of a leaf in the order of the leaves. *)
Fixpoint rank (t : htree) (way : list side) {struct way} : nat :=
  match way, t with
  | GoLeft :: way', HNode l _ => rank l way'
  | GoRight :: way', HNode l r => (length (leaf_data l) + rank r way')%nat
  | _, _ => O
  end.

Lemma rank_lookup way : forall t d, subtree t way = Some (HLeaf d) -> leaf_data t !! rank t way = Some d.
Proof.
  induction way as [|s way IH]; intros t d Hs.
  - by injection Hs as ->.
  - destruct t as [|l r]; [by destruct s|]. destruct s; cbn [subtree rank leaf_data] in *.
    + apply lookup_app_l_Some, IH, Hs.
    + rewrite lookup_app_r by lia. rewrite Nat.add_comm, Nat.add_sub. by apply IH.
Qed.

(** Two ways that part at some node. *)
Definition parts (w1 w2 : list side) : Prop :=
  exists p s1 s2 w1' w2', s1 <> s2 /\ w1 = p ++ s1 :: w1' /\ w2 = p ++ s2 :: w2'.

Lemma parts_app w1 w2 v1 v2 : parts w1 w2 -> parts (w1 ++ v1) (w2 ++ v2).
Proof.
  intros (p & s1 & s2 & w1' & w2' & Hs & -> & ->). exists p, s1, s2, (w1' ++ v1), (w2' ++ v2).
  by rewrite <- !app_assoc.
Qed.

Lemma parts_rank p : forall t s1 s2 w1 w2 d1 d2,
  s1 <> s2 -> subtree t (p ++ s1 :: w1) = Some (HLeaf d1) -> subtree t (p ++ s2 :: w2) = Some (HLeaf d2) ->
  rank t (p ++ s1 :: w1) <> rank t (p ++ s2 :: w2).
Proof.
  induction p as [|s p IH]; intros t s1 s2 w1 w2 d1 d2 Hs H1 H2; cbn [app] in *.
  - destruct t as [|l r]; [by destruct s1|].
    assert (Hlt : forall w d, subtree l w = Some (HLeaf d) -> (rank l w < length (leaf_data l))%nat).
    { intros w d Hw%rank_lookup. by apply lookup_lt_Some in Hw. }
    destruct s1, s2; try done; cbn [subtree rank] in *; [apply Hlt in H1|apply Hlt in H2]; lia.
  - destruct t as [|l r]; [by destruct s|]. destruct s; cbn [subtree rank] in *.
    + by apply (IH l s1 s2 w1 w2 d1 d2).
    + intros ?. by apply (IH r s1 s2 w1 w2 d1 d2); [..|lia].
Qed.

Lemma rank_ne t w1 w2 d1 d2 :
  parts w1 w2 -> subtree t w1 = Some (HLeaf d1) -> subtree t w2 = Some (HLeaf d2) -> rank t w1 <> rank t w2.
Proof. intros (p & s1 & s2 & w1' & w2' & Hs & -> & ->). by apply parts_rank. Qed.

(** ** The way to a position *)

Definition side_of (t : turn) : list side :=
  match t with LeftSibling => [GoRight] | RightSibling => [GoLeft] | Promoted => [] end.

(** From the root down. *)
Fixpoint way_of (ts : list turn) : list side :=
  match ts with [] => [] | t :: ts' => way_of ts' ++ side_of t end.

Lemma turns_part fuel : forall i j n,
  0 <= i < n -> 0 <= j < n -> i <> j -> n <= 2 ^ Z.of_nat fuel ->
  parts (way_of (turns i n)) (way_of (turns j n)).
Proof.
  induction fuel as [|f IH]; intros i j n Hi Hj Hne Hn.
  { change (2 ^ Z.of_nat 0) with 1 in Hn. lia. }
  rewrite !(turns_step _ n) by lia. cbn [way_of]. destruct (decide (i / 2 = j / 2)) as [He|He].
  - rewrite He. exists (way_of (turns (j / 2) ((n + 1) / 2))).
    assert (Z.odd i <> Z.odd j) as Ho.
    { intros Ho. apply Hne. rewrite (Z.div_mod i 2), (Z.div_mod j 2), He, !Zmod_odd by lia. by rewrite Ho. }
    assert (Hs : forall k m, 0 <= k < n -> 0 <= m < n -> k / 2 = m / 2 -> Z.odd k = true -> Z.odd m = false ->
      turn_at k n = LeftSibling /\ turn_at m n = RightSibling).
    { intros k m Hk Hm Hkm Hok Hom. unfold turn_at. rewrite Hok, Hom. split; [done|].
      assert (k = m + 1).
      { rewrite (Z.div_mod k 2), (Z.div_mod m 2), Hkm, !Zmod_odd, Hok, Hom by lia. lia. }
      by rewrite (proj2 (Z.ltb_lt _ _)) by lia. }
    destruct (Z.odd i) eqn:Ei, (Z.odd j) eqn:Ej; try done.
    + destruct (Hs i j) as [-> ->]; try done. by exists GoRight, GoLeft, [], [].
    + destruct (Hs j i) as [-> ->]; try done. by exists GoLeft, GoRight, [], [].
  - apply parts_app. apply IH; [divlia|divlia|done|by apply half_bound].
Qed.

Section trees.
Context `{B : Blake3} {Laws : Blake3Laws B}.

(** ** The tree a root commits to *)

Fixpoint hroot (t : htree) : bytes :=
  match t with HLeaf d => leaf d | HNode l r => node (hroot l) (hroot r) end.

(** Everything hashed in it. *)
Fixpoint hinputs (t : htree) : list bytes :=
  match t with
  | HLeaf d => [leaf_input d]
  | HNode l r => node_input (hroot l) (hroot r) :: hinputs l ++ hinputs r
  end.

Lemma hroot_size t : zlen (hroot t) = 32.
Proof. destruct t; apply digest_size. Qed.

Fixpoint hlevel_up (ts : list htree) : list htree :=
  match ts with
  | x :: y :: r => HNode x y :: hlevel_up r
  | _ => ts
  end.

Lemma hlevel_up_root ts : map hroot (hlevel_up ts) = level_up (map hroot ts).
Proof. induction ts as [| |x y ts IH] using list_ind2; [done..|]. cbn [hlevel_up map level_up hroot]. by rewrite IH. Qed.

Lemma hlevel_up_data ts : concat (map leaf_data (hlevel_up ts)) = concat (map leaf_data ts).
Proof.
  induction ts as [| |x y ts IH] using list_ind2; [done..|]. cbn [hlevel_up map concat leaf_data].
  by rewrite IH, <- app_assoc.
Qed.

Lemma hlevel_up_inputs ts :
  concat (map hinputs (hlevel_up ts)) ≡ₚ level_inputs (map hroot ts) ++ concat (map hinputs ts).
Proof.
  induction ts as [| |x y ts IH] using list_ind2; [done..|]. cbn [hlevel_up map concat hinputs level_inputs app].
  rewrite IH. apply Permutation_skip. rewrite <- !app_assoc. solve_Permutation.
Qed.

Lemma hlevel_up_length ts : length (hlevel_up ts) = ((length ts + 1) / 2)%nat.
Proof. rewrite <- (length_map hroot), hlevel_up_root, length_level_up. by rewrite length_map. Qed.

Lemma build_tree f : forall ts, ts <> [] -> (length ts <= S f)%nat ->
  exists t, hroot t = merkle_root (map hroot ts) /\ leaf_data t = concat (map leaf_data ts) /\
    hinputs t ⊆ tree_inputs f (map hroot ts) ++ concat (map hinputs ts).
Proof.
  induction f as [|f IH]; intros ts Hne Hf.
  all: destruct ts as [|x [|y ts]]; [done| |cbn [length] in Hf]; try lia.
  1, 2: exists x; cbn [map concat]; rewrite !app_nil_r; split; [done|]; split; [done|]; set_solver.
  set (l := x :: y :: ts) in *. destruct (IH (hlevel_up l)) as (t & Hr & Hd & Hin).
  { done. }
  { rewrite hlevel_up_length. cbn [l length]. divlia. }
  exists t. rewrite Hr, Hd, hlevel_up_root, hlevel_up_data. split.
  - apply merkle_root_step.
  - split; [done|]. etrans; [exact Hin|]. rewrite hlevel_up_inputs, hlevel_up_root. cbn [tree_inputs].
    set_solver.
Qed.

(** The tree over leaf data. *)
Lemma tree_over ds : ds <> [] ->
  exists t, hroot t = merkle_root (map leaf ds) /\ leaf_data t = ds /\
    hinputs t ⊆ map leaf_input ds ++ tree_inputs (length ds) (map leaf ds).
Proof.
  intros Hne. destruct (build_tree (length ds) (map HLeaf ds)) as (t & Hr & Hd & Hin).
  { by destruct ds. }
  { rewrite length_map. lia. }
  assert (E1 : map hroot (map HLeaf ds) = map leaf ds) by (by rewrite map_map).
  assert (E2 : concat (map leaf_data (map HLeaf ds)) = ds).
  { clear. induction ds as [|d ds IH]; [done|]. cbn in *. by rewrite IH. }
  assert (E3 : concat (map hinputs (map HLeaf ds)) = map leaf_input ds).
  { clear. induction ds as [|d ds IH]; [done|]. cbn in *. by rewrite IH. }
  rewrite E1 in Hr, Hin. rewrite E2 in Hd. rewrite E3 in Hin. exists t. split; [done|]. split; [done|]. set_solver.
Qed.

(** ** Opening *)

Lemma subtree_app w1 : forall w2 t, subtree t (w1 ++ w2) = match subtree t w1 with Some t' => subtree t' w2 | None => None end.
Proof. induction w1 as [|[] w1 IH]; intros w2 t; [done|destruct t; cbn; auto..]. Qed.

Lemma subtree_inputs w : forall t t', subtree t w = Some t' -> hinputs t' ⊆ hinputs t.
Proof.
  induction w as [|s w IH]; intros t t' Hs; [by injection Hs as ->|].
  destruct t as [|l r]; [by destruct s|]. destruct s; cbn [subtree hinputs] in *; apply IH in Hs; set_solver.
Qed.

(** A climb to the root of [t] goes through the nodes of [t]. *)
Lemma climb_opens t ts : forall sibs cur,
  hashes sibs -> zlen cur = 32 ->
  collision_free (hinputs t) (climb_inputs ts sibs cur) -> climb ts sibs cur = Some (hroot t) ->
  exists t', subtree t (way_of ts) = Some t' /\ hroot t' = cur.
Proof.
  induction ts as [|tn ts IH]; intros sibs cur Hs Hc Hcf Hcl.
  { destruct sibs; [|done]. injection Hcl as ->. by exists t. }
  cbn [way_of]. rewrite subtree_app.
  destruct tn; cbn [climb climb_inputs side_of] in *.
  3: { destruct (IH sibs cur Hs Hc Hcf Hcl) as (t' & -> & Hr). by exists t'. }
  all: destruct sibs as [|s sibs]; [done|]; apply Forall_cons in Hs as [Hs0 Hs];
    change ANTS_BLAKE3_HASH_SIZE with 32 in Hs0;
    match type of Hcl with climb _ _ (node ?a ?b) = _ =>
      assert (exists t1, subtree t (way_of ts) = Some t1 /\ hroot t1 = node a b) as (t1 & Hsub & Hr)
        by (apply (IH sibs); [done|apply digest_size|intros x y Hx Hy; apply Hcf; [done|by right]|done]);
      rewrite Hsub; pose proof (subtree_inputs _ _ _ Hsub) as Hin;
      destruct t1 as [d|l r]; cbn [hroot hinputs] in Hr, Hin;
        [apply (Hcf (leaf_input d) (node_input a b)) in Hr; [done|set_solver|by left]|];
      apply (Hcf (node_input (hroot l) (hroot r)) (node_input a b)) in Hr; [|set_solver|by left];
      apply node_input_inj in Hr as [? ?]; [|rewrite hroot_size; lia]
    end.
  - by exists r.
  - by exists l.
Qed.

(** The path of leaf [d] at any position of any number of leaves. *)
Lemma proves_opens t d i n path :
  collision_free (hinputs t) (leaf_input d :: climb_inputs (turns i n) path (leaf d)) -> hashes path ->
  climb (turns i n) path (leaf d) = Some (hroot t) ->
  subtree t (way_of (turns i n)) = Some (HLeaf d).
Proof.
  intros Hcf Hp Hc. destruct (climb_opens t (turns i n) path (leaf d)) as (t' & Hs & Hr); try done.
  { apply digest_size. }
  { intros a b Ha Hb. apply Hcf; [done|by right]. }
  rewrite Hs. f_equal. pose proof (subtree_inputs _ _ _ Hs) as Hin. destruct t' as [d'|l r]; cbn [hroot hinputs] in *.
  - apply Hcf in Hr; [by injection Hr as ->|set_solver|by left].
  - apply (Hcf (node_input (hroot l) (hroot r)) (leaf_input d)) in Hr; [done|set_solver|by left].
Qed.
End trees.
