(* ===== verification/CrdtParse.v ===== *)
(** * The documents of a fault proof

    The decoding programs of crdt.c as parsers, and the documents each one
    recognises.  [decides m P] is the contract of the checkers built from
    them: [m] succeeds exactly when [P] has a solution, and returns it. *)

From S2P Require Import Prelude Cbor CborSpec CborTrack CborEnc CborDec CborCanon CborContract CborKv CborRecord CborCodec CborParse Crypto Crdt.
Import Crdt.

#[local] Arguments zlen {A} l : simpl never.

(** ** The helpers as parsers *)

Definition p_key (k : Z) : parser unit :=
  fun cs => match cs with CUint k' :: cs' => if k' =? k then Some (tt, cs') else None | _ => None end.
Definition p_map_of (n : Z) : parser unit :=
  fun cs => match cs with
            | CMap l :: cs' => if zlen l =? n then Some (tt, flat l ++ cs') else None
            | _ => None end.
Definition p_array_of (n : Z) : parser unit :=
  fun cs => match cs with
            | CArray l :: cs' => if zlen l =? n then Some (tt, l ++ cs') else None
            | _ => None end.
Definition p_bytes_of (n : Z) : parser bytes :=
  fun cs => match cs with
            | CBytes b :: cs' => if zlen b =? n then Some (b, cs') else None
            | _ => None end.

Lemma parses_malformed {A} (m : action ants_cbor_dec_t A) p :
  parses any_code m p -> parses only_malformed (malformed m) p.
Proof. apply parses_map_err. done. Qed.

#[export] Hint Resolve parses_malformed : ants.

(** A test after a call. *)
Lemma parses_guard {A B} (m : action ants_cbor_dec_t A) (t : A -> bool)
  (k : A -> action ants_cbor_dec_t B) p q :
  parses only_malformed m p -> (forall a, t a = false -> parses only_malformed (k a) (q a)) ->
  parses only_malformed (let* a := m in if t a then fail ANTS_ERROR_MALFORMED else k a)
    (p_bind p (fun a => if t a then p_fail else q a)).
Proof.
  intros Hm Hk. apply parses_bind; [done|]. intros a. destruct (t a) eqn:E; [by apply parses_fail|auto].
Qed.

Lemma parses_expect_key k : parses only_malformed (dec_expect_key k) (p_key k).
Proof.
  eapply parses_ext; [|apply parses_guard; [apply parses_malformed, parses_peek|intros ty _;
    apply parses_guard; [apply parses_malformed, parses_uint|intros a _; apply parses_ret]]].
  intros [|[v|v|b|b|l|l|t c|b|] cs]; unfold p_bind, p_peek, p_uint, p_fail, p_ret; cbn; try done.
  rewrite bool_decide_true by done. cbn. by destruct (v =? k).
Qed.

Lemma parses_uint_val : parses only_malformed dec_uint_val p_uint.
Proof.
  eapply parses_ext; [|apply parses_guard; [apply parses_malformed, parses_peek|intros ty _;
    apply parses_malformed, parses_uint]].
  by intros [|[v|v|b|b|l|l|t c|b|] cs].
Qed.

Lemma parses_bytes_val : parses only_malformed dec_bytes_val p_bytes.
Proof.
  eapply parses_ext; [|apply parses_guard; [apply parses_malformed, parses_peek|intros ty _;
    apply parses_malformed, parses_bytes]].
  by intros [|[v|v|b|b|l|l|t c|b|] cs].
Qed.

Lemma parses_map_of n : parses only_malformed (dec_map_of n) (p_map_of n).
Proof.
  eapply parses_ext; [|apply parses_guard; [apply parses_malformed, parses_map|intros a _;
    apply parses_ret]].
  intros [|[v|v|b|b|l|l|t c|b|] cs]; unfold p_bind, p_map, p_fail, p_ret; cbn; try done.
  by destruct (zlen l =? n).
Qed.

Lemma parses_array_of n : parses only_malformed (dec_array_of n) (p_array_of n).
Proof.
  eapply parses_ext; [|apply parses_guard; [apply parses_malformed, parses_array|intros a _;
    apply parses_ret]].
  intros [|[v|v|b|b|l|l|t c|b|] cs]; unfold p_bind, p_array, p_fail, p_ret; cbn; try done.
  by destruct (zlen l =? n).
Qed.

Lemma parses_bytes_of n : parses only_malformed (dec_bytes_of n) (p_bytes_of n).
Proof.
  eapply parses_ext; [|apply parses_guard; [apply parses_bytes_val|intros a _; apply parses_ret]].
  intros [|[v|v|b|b|l|l|t c|b|] cs]; unfold p_bind, p_bytes, p_fail, p_ret; cbn; try done.
  by destruct (zlen b =? n).
Qed.

Lemma parses_end : parses only_malformed (malformed ants_cbor_dec_finalise) p_end.
Proof. apply parses_malformed, parses_finalise. Qed.

#[export] Hint Resolve parses_expect_key parses_uint_val parses_bytes_val parses_map_of
  parses_array_of parses_bytes_of parses_end : ants.

(** Build the parser of a sequence of calls. *)
Ltac parse_seq :=
  lazymatch goal with
  | |- parses _ (bind _ _) _ => eapply parses_bind; [parse_seq | intros ?; parse_seq]
  | |- parses _ (ret _) _ => apply parses_ret
  | |- _ => solve [eauto with ants]
  end.

(** ** Checkers and what they decide *)

Definition decides {A} (E : ants_error_t -> Prop) (m : action unit A) (P : A -> Prop) : Prop :=
  forall u, match m u with
            | Ok _ a => P a /\ forall a', P a' -> a' = a
            | Err _ e => E e /\ forall a, ~ P a
            | UB | NoFuel => False
            end.

Lemma decides_bind {A C} E (m : action unit A) (k : A -> action unit C) P Q :
  decides E m P -> (forall a, P a -> decides E (k a) (Q a)) ->
  decides E (bind m k) (fun c => exists a, P a /\ Q a c).
Proof.
  intros Hm Hk u. specialize (Hm u). unfold bind. destruct (m u) as [u' a|u' e| |]; try done.
  - destruct Hm as [Ha Hu]. specialize (Hk a Ha u'). destruct (k a u') as [? c|? e| |]; try done.
    + destruct Hk as [Hc Hcu]. split; [by exists a|].
      intros c' (a' & Ha' & Hc'). rewrite (Hu a' Ha') in Hc'. by apply Hcu.
    + destruct Hk as [He Hn]. split; [done|]. intros c' (a' & Ha' & Hc').
      rewrite (Hu a' Ha') in Hc'. by apply (Hn c').
  - destruct Hm as [He Hn]. split; [done|]. intros c (a & Ha & _). by apply (Hn a).
Qed.

Lemma decides_iff {A} E (m : action unit A) P Q :
  (forall a, P a <-> Q a) -> decides E m P -> decides E m Q.
Proof.
  intros Hpq Hm u. specialize (Hm u). destruct (m u); try done.
  - destruct Hm as [Ha Hu]. split; [by apply Hpq|]. intros a' Ha'. by apply Hu, Hpq.
  - destruct Hm as [He Hn]. split; [done|]. intros a Ha. by apply (Hn a), Hpq.
Qed.

Lemma decides_codes {A} (E E' : ants_error_t -> Prop) (m : action unit A) P :
  (forall e, E e -> E' e) -> decides E m P -> decides E' m P.
Proof. intros He Hm u. specialize (Hm u). destruct (m u); try done. destruct Hm; auto. Qed.

(** [if (bad) return MALFORMED; ...] *)
Lemma decides_guard {A} (E : ants_error_t -> Prop) (b : bool) (m : action unit A) (C : Prop) P :
  E ANTS_ERROR_MALFORMED -> (b = false <-> C) -> (C -> decides E m P) ->
  decides E (if b then fail ANTS_ERROR_MALFORMED else m) (fun a => C /\ P a).
Proof.
  intros He Hb Hm u. destruct b.
  - split; [done|]. intros a [Hc _]. apply Hb in Hc. done.
  - assert (Hc : C) by (by apply Hb). specialize (Hm Hc u). destruct (m u) as [? a|? e| |]; try done.
    + destruct Hm as [Ha Hu]. split; [done|]. intros a' [_ Ha']. by apply Hu.
    + destruct Hm as [? Hn]. split; [done|]. intros a [_ Ha]. by apply (Hn a).
Qed.

Lemma decides_ret {A} E (a : A) : decides E (ret a) (fun a' => a' = a).
Proof. intros u. by split. Qed.

(** A total computation. *)
Lemma decides_value {A} E (m : action unit A) a :
  (forall u, m u = Ok u a) -> decides E m (fun a' => a' = a).
Proof. intros Hm u. rewrite Hm. by split. Qed.

Lemma decides_true {A} E (m : action unit A) (P : A -> Prop) a :
  decides E m P -> P a -> m tt = Ok tt a.
Proof.
  intros Hm Ha. specialize (Hm tt). destruct (m tt) as [[] a'|u e| |]; try done.
  - destruct Hm as [_ Hu]. by rewrite (Hu a Ha).
  - by destruct (proj2 Hm a).
Qed.

Lemma decides_run {A C} E (m : action unit A) a (k : A -> action unit C) P :
  (forall u, m u = Ok u a) -> decides E (k a) P -> decides E (bind m k) P.
Proof. intros Hm Hk u. unfold bind. rewrite Hm. apply Hk. Qed.

Lemma decides_seq {C} E (m : action unit unit) (k : action unit C) (P : Prop) Q :
  decides E m (fun _ => P) -> (P -> decides E k Q) -> decides E (m ;* k) (fun c => P /\ Q c).
Proof.
  intros Hm Hk. eapply decides_iff; [|apply decides_bind with (Q := fun _ => Q); [exact Hm|]].
  - intros c. cbv beta. split; [by intros [_ ?]|]. by exists tt.
  - intros a. exact Hk.
Qed.

(** The canonical gate. *)
Definition document (buf : bytes) (c : cbor) : Prop :=
  wf c /\ (height c <= 16)%nat /\ encode c = buf.

Lemma document_unique buf c c' : document buf c -> document buf c' -> c' = c.
Proof.
  intros (Hw & _ & He) (Hw' & _ & He').
  destruct (encode_prefix_free c c' [] []) as [-> _]; rewrite ?app_nil_r; congruence || done.
Qed.

Lemma canonical_gate buf :
  bytes_ok buf -> zlen buf <= INT64_MAX ->
  match ants_cbor_is_canonical (Some buf) (zlen buf) with
  | Ok _ _ => exists c, document buf c
  | Err _ e => forall c, ~ document buf c
  | UB | NoFuel => False
  end.
Proof.
  intros Hok Hb. destruct (ants_cbor_is_canonical (Some buf) (zlen buf)) as [[] []|[] e| |] eqn:E.
  - by apply is_canonical_sound.
  - intros c (Hw & Hh & <-). rewrite is_canonical_complete in E; done.
  - destruct (canonical_total buf Hok Hb) as [H|[e H]]; congruence.
  - destruct (canonical_total buf Hok Hb) as [H|[e H]]; congruence.
Qed.

(** A decoder of the caller's frame over a canonical document. *)
Lemma local_dec_decides {A} E (m : action ants_cbor_dec_t A) p c :
  wf c -> (height c <= 16)%nat -> zlen (encode c) <= INT64_MAX ->
  parses E m p ->
  decides E (local_dec (encode c) m) (fun a => exists cs, p [c] = Some (a, cs)).
Proof.
  intros Hw Hh Hb Hm u. unfold local_dec.
  destruct (at_init (encode c) [c]) as (d & -> & Hat); [by apply encode_ok|done| | |].
  { unfold encodes. cbn [map concat]. by rewrite app_nil_r. }
  { constructor; [done|constructor]. }
  specialize (Hm d [c] Hat). destruct (p [c]) as [[a cs]|].
  - destruct Hm as (d' & -> & _). split; [by exists cs|]. intros a' (cs' & H). congruence.
  - destruct Hm as (d' & e & -> & He). split; [done|]. intros a (cs & H). done.
Qed.

(** A whole canonical document, read by one walk. *)
Lemma document_decides {A} (m : action ants_cbor_dec_t A) p buf :
  bytes_ok buf -> zlen buf <= INT64_MAX -> parses only_malformed m p ->
  decides only_malformed
    (malformed (fun _ => ants_cbor_is_canonical (Some buf) (zlen buf)) ;* local_dec buf m)
    (fun a => exists c cs, document buf c /\ p [c] = Some (a, cs)).
Proof.
  intros Hok Hb Hm u. pose proof (canonical_gate buf Hok Hb) as Hg. unfold bind, malformed, map_err.
  destruct (ants_cbor_is_canonical _ _) as [[] []|[] e| |]; try done.
  - destruct Hg as (c & Hd). pose proof Hd as (Hw & Hh & <-).
    pose proof (local_dec_decides only_malformed m p c Hw Hh Hb Hm tt) as Hl.
    destruct (local_dec (encode c) m tt) as [? a|? e| |]; try done.
    + destruct Hl as [(cs & Hp) Hu]. split; [by exists c, cs|].
      intros a' (c' & cs' & Hd' & Hp'). rewrite (document_unique _ _ _ Hd Hd') in Hp'.
      apply Hu. by exists cs'.
    + destruct Hl as [He Hn]. split; [done|]. intros a (c' & cs' & Hd' & Hp').
      rewrite (document_unique _ _ _ Hd Hd') in Hp'. apply (Hn a). by exists cs'.
  - split; [done|]. intros a (c & cs & Hd & _). by apply (Hg c).
Qed.

(** The same, with the documents the walk recognises. *)
Lemma document_reads {A} (m : action ants_cbor_dec_t A) p Q buf :
  bytes_ok buf -> zlen buf <= INT64_MAX -> parses only_malformed m p ->
  (forall c a, (exists cs, p [c] = Some (a, cs)) <-> Q c a) ->
  decides only_malformed
    (malformed (fun _ => ants_cbor_is_canonical (Some buf) (zlen buf)) ;* local_dec buf m)
    (fun a => exists c, document buf c /\ Q c a).
Proof.
  intros Hok Hb Hm HQ. eapply decides_iff; [|by apply document_decides]. intros a. cbv beta. split.
  - intros (c & cs & Hd & Hp). exists c. split; [done|]. apply HQ. by exists cs.
  - intros (c & Hd & [cs Hp]%HQ). by exists c, cs.
Qed.

(** ** The documents *)

Definition stmt_cbor (st : stmt_t) : cbor :=
  CMap [(CUint 0, CUint (st_domain st)); (CUint 1, CUint (st_epoch st));
        (CUint 2, CUint (st_slot st)); (CUint 3, CBytes (st_payload st))].

Definition envelope_cbor (subject : bytes) (ft epoch : Z) (ev : cbor) : cbor :=
  CMap [(CUint 0, CBytes subject); (CUint 1, CUint ft); (CUint 2, CUint epoch); (CUint 3, ev)].

Definition element_cbor (e : bytes * bytes) : cbor := CArray [CBytes e.1; CBytes e.2].

Definition finding_cbor (f : bytes * Z * Z * Z * Z) : cbor :=
  let '(subject, rule, window, count, severity) := f in
  CMap [(CUint 1, CBytes subject); (CUint 2, CUint rule); (CUint 3, CUint window);
        (CUint 4, CUint count); (CUint 5, CUint severity)].

Definition block_cbor (height : Z) (prev : bytes) (degraded : bool) (summary : bytes) : cbor :=
  CMap [(CUint 1, CUint height); (CUint 2, CBytes prev); (CUint 3, CBool degraded);
        (CUint 4, CBytes summary)].

Definition summary_cbor (epoch cutoff : Z) (root : bytes) (fs : list (bytes * Z * Z * Z * Z)) : cbor :=
  CMap [(CUint 1, CUint epoch); (CUint 2, CUint cutoff); (CUint 3, CBytes root);
        (CUint 4, CArray (map finding_cbor fs))].

Definition transition_cbor (block sig cited : bytes) (i n : Z) (path : bytes) : cbor :=
  CArray [CBytes block; CBytes sig; CBytes cited; CUint i; CUint n; CBytes path].

(** Take apart the next item a parser matched. *)
Ltac p_step H :=
  match type of H with
  | context [match ?cs with [] => _ | _ :: _ => _ end] => destruct cs as [|? ?]; [discriminate H|]
  | context [match ?c with CUint _ => _ | _ => _ end] => destruct c; try discriminate H
  | context [if ?a =? ?b then _ else _] => destruct (Z.eqb_spec a b); [|discriminate H]; subst
  end; cbn [flat map concat app fst snd] in H.

(** Run a parser on an explicit document. *)
Ltac run_parser :=
  unfold p_bind, p_map_of, p_array_of, p_key, p_uint, p_bytes, p_bytes_of, p_bool, p_end, p_ret;
  repeat first
    [ progress cbn [flat map concat app fst snd]
    | match goal with |- context [?a =? ?b] =>
        first [ change (a =? b) with true
              | replace (a =? b) with true by (symmetry; apply Z.eqb_eq; assumption) ] end ].

Definition p_statement : parser stmt_t :=
  p_bind (p_map_of STMT_PAIRS) (fun _ =>
  p_bind (p_key STMT_KEY_DOMAIN) (fun _ => p_bind p_uint (fun domain =>
  p_bind (p_key STMT_KEY_EPOCH) (fun _ => p_bind p_uint (fun epoch =>
  p_bind (p_key STMT_KEY_SLOT) (fun _ => p_bind p_uint (fun slot =>
  p_bind (p_key STMT_KEY_PAYLOAD) (fun _ => p_bind p_bytes (fun payload =>
  p_bind p_end (fun _ => p_ret (mk_stmt domain epoch slot payload))))))))))).

Lemma parses_statement : parses only_malformed statement_walk p_statement.
Proof. unfold statement_walk, p_statement. parse_seq. Qed.

Lemma p_statement_iff c st :
  (exists cs, p_statement [c] = Some (st, cs)) <-> c = stmt_cbor st.
Proof.
  split.
  - intros (cs & H). unfold p_statement, p_bind, p_map_of in H.
    destruct c as [| | | | |l| | |]; try discriminate H. p_step H.
    match goal with E : zlen l = _ |- _ => change STMT_PAIRS with 4 in E end.
    assert (exists kv0 kv1 kv2 kv3, l = [kv0; kv1; kv2; kv3])
      as ([k0 v0] & [k1 v1] & [k2 v2] & [k3 v3] & ->) by (by apply zlen_4).
    cbn [flat map concat app fst snd] in H. unfold p_key, p_uint, p_bytes, p_end, p_ret in H.
    repeat p_step H. injection H as <- <-. done.
  - intros ->. exists []. by destruct st.
Qed.

Definition p_element : parser (bytes * bytes) :=
  p_bind (p_array_of EQUIV_ELEMS) (fun _ => p_bind p_bytes (fun body =>
  p_bind (p_bytes_of ANTS_CRDT_SIG_SIZE) (fun sig => p_ret (body, sig)))).

Definition p_equivocation : parser ((bytes * bytes) * (bytes * bytes)) :=
  p_bind (p_map_of ENV_PAIRS) (fun _ =>
  p_bind (p_key ENV_KEY_SUBJECT) (fun _ => p_bind p_bytes (fun _ =>
  p_bind (p_key ENV_KEY_FAULT_TYPE) (fun _ => p_bind p_uint (fun _ =>
  p_bind (p_key ENV_KEY_EPOCH) (fun _ => p_bind p_uint (fun _ =>
  p_bind (p_key ENV_KEY_EVIDENCE) (fun _ =>
  p_bind (p_array_of EQUIV_STMTS) (fun _ =>
  p_bind p_element (fun e0 => p_bind p_element (fun e1 =>
  p_bind p_end (fun _ => p_ret (e0, e1))))))))))))).

Lemma parses_element : parses only_malformed stmt_element_walk p_element.
Proof. unfold stmt_element_walk, p_element. parse_seq. Qed.

#[export] Hint Resolve parses_element : ants.

Lemma parses_equivocation : parses only_malformed equivocation_walk p_equivocation.
Proof. unfold equivocation_walk, p_equivocation. parse_seq. Qed.

Lemma p_element_some cs e cs' :
  p_element cs = Some (e, cs') -> cs = element_cbor e :: cs' /\ zlen e.2 = 64.
Proof.
  unfold p_element, p_bind, p_array_of. intros H. destruct cs as [|[] cs]; try discriminate H.
  destruct (Z.eqb_spec (zlen l) EQUIV_ELEMS) as [E|]; [|done].
  apply zlen_2 in E as (x & y & ->). cbn [app] in H. unfold p_bytes, p_bytes_of, p_ret in H.
  repeat p_step H. injection H as <- <-. done.
Qed.

Lemma p_element_ok e cs : zlen e.2 = 64 -> p_element (element_cbor e :: cs) = Some (e, cs).
Proof.
  intros Hs. destruct e as [b s]. unfold p_element, p_bind, p_array_of, element_cbor.
  cbn [fst snd] in *. by run_parser.
Qed.

Lemma p_equivocation_iff c e0 e1 :
  (exists cs, p_equivocation [c] = Some ((e0, e1), cs)) <->
  exists subject ft epoch,
    c = envelope_cbor subject ft epoch (CArray [element_cbor e0; element_cbor e1]) /\
    zlen e0.2 = 64 /\ zlen e1.2 = 64.
Proof.
  split.
  - intros (cs & H). unfold p_equivocation, p_bind, p_map_of in H.
    destruct c as [| | | | |l| | |]; try discriminate H.
    destruct (Z.eqb_spec (zlen l) ENV_PAIRS) as [E|]; [|done].
    apply zlen_4 in E as ([k0 v0] & [k1 v1] & [k2 v2] & [k3 v3] & ->).
    cbn [flat map concat app fst snd] in H. unfold p_key, p_uint, p_bytes, p_array_of in H.
    repeat p_step H. match goal with E : zlen _ = EQUIV_STMTS |- _ =>
      apply zlen_2 in E as (x & y & ->) end. cbn [app] in H.
    destruct (p_element [x; y]) as [[a cs1]|] eqn:E1; [|done].
    apply p_element_some in E1 as [[= -> <-] Hs0].
    destruct (p_element [y]) as [[a' cs2]|] eqn:E2; [|done].
    apply p_element_some in E2 as [[= -> <-] Hs1]. injection H as -> -> <-. by do 3 eexists.
  - intros (subject & ft & epoch & -> & H0 & H1). exists [].
    unfold p_equivocation, envelope_cbor. run_parser. by rewrite !p_element_ok.
Qed.

Definition p_transition : parser (bytes * bytes * bytes * Z * Z * bytes) :=
  p_bind (p_array_of IT_EVID_ELEMS) (fun _ =>
  p_bind p_bytes (fun block => p_bind p_bytes (fun sig => p_bind p_bytes (fun cited =>
  p_bind p_uint (fun i => p_bind p_uint (fun n => p_bind p_bytes (fun path =>
  p_bind p_end (fun _ => p_ret (block, sig, cited, i, n, path))))))))).

Lemma parses_transition : parses only_malformed transition_walk p_transition.
Proof. unfold transition_walk, p_transition. parse_seq. Qed.

Lemma p_transition_iff c block sig cited i n path :
  (exists cs, p_transition [c] = Some ((block, sig, cited, i, n, path), cs)) <->
  c = transition_cbor block sig cited i n path.
Proof.
  split.
  - intros (cs & H). unfold p_transition, p_bind, p_array_of in H.
    destruct c as [| | | |l| | | |]; try discriminate H.
    destruct (Z.eqb_spec (zlen l) IT_EVID_ELEMS) as [E|]; [|done].
    apply zlen_6 in E as (x0 & x1 & x2 & x3 & x4 & x5 & ->).
    cbn [app] in H. unfold p_uint, p_bytes, p_end, p_ret in H.
    repeat p_step H. injection H as <- <- <- <- <- <- <-. done.
  - intros ->. by exists [].
Qed.

Definition p_block : parser bytes :=
  p_bind (p_map_of L2_BLOCK_PAIRS) (fun _ =>
  p_bind (p_key L2_BLOCK_KEY_HEIGHT) (fun _ => p_bind p_uint (fun _ =>
  p_bind (p_key L2_BLOCK_KEY_PREV) (fun _ =>
  p_bind (p_bytes_of ANTS_CRDT_CONTENT_ID_SIZE) (fun _ =>
  p_bind (p_key L2_BLOCK_KEY_DEGRADED) (fun _ => p_bind p_bool (fun _ =>
  p_bind (p_key L2_BLOCK_KEY_SUMMARY) (fun _ => p_bind p_bytes (fun sp =>
  p_bind p_end (fun _ => p_ret sp)))))))))).

Lemma parses_block : parses only_malformed block_walk p_block.
Proof. unfold block_walk, p_block. parse_seq. Qed.

Definition is_block (c : cbor) (sp : bytes) : Prop :=
  exists h prev degraded, c = block_cbor h prev degraded sp /\ zlen prev = 32.

Lemma p_block_iff c sp :
  (exists cs, p_block [c] = Some (sp, cs)) <-> is_block c sp.
Proof.
  split.
  - intros (cs & H). unfold p_block, p_bind, p_map_of in H.
    destruct c as [| | | | |l| | |]; try discriminate H.
    destruct (Z.eqb_spec (zlen l) L2_BLOCK_PAIRS) as [E|]; [|done].
    apply zlen_4 in E as ([k0 v0] & [k1 v1] & [k2 v2] & [k3 v3] & ->).
    cbn [flat map concat app fst snd] in H.
    unfold p_key, p_uint, p_bytes, p_bytes_of, p_bool, p_end, p_ret in H.
    repeat p_step H. injection H as <- <-. by do 3 eexists.
  - intros (h & prev & dg & -> & Hp). exists [].
    unfold p_block, block_cbor. by run_parser.
Qed.

Definition p_finding : parser unit :=
  p_bind (p_map_of L2_FIND_PAIRS) (fun _ =>
  p_bind (p_key L2_FIND_KEY_SUBJECT) (fun _ => p_bind (p_bytes_of ANTS_CRDT_PEER_ID_SIZE) (fun _ =>
  p_bind (p_key L2_FIND_KEY_RULE) (fun _ => p_bind p_uint (fun _ =>
  p_bind (p_key L2_FIND_KEY_WINDOW) (fun _ => p_bind p_uint (fun _ =>
  p_bind (p_key L2_FIND_KEY_COUNT) (fun _ => p_bind p_uint (fun _ =>
  p_bind (p_key L2_FIND_KEY_SEVERITY) (fun _ => p_bind p_uint (fun _ => p_ret tt))))))))))).

Definition p_summary : parser (Z * bytes) :=
  p_bind (p_map_of L2_SUM_PAIRS) (fun _ =>
  p_bind (p_key L2_SUM_KEY_EPOCH) (fun _ => p_bind p_uint (fun epoch =>
  p_bind (p_key L2_SUM_KEY_CUTOFF) (fun _ => p_bind p_uint (fun _ =>
  p_bind (p_key L2_SUM_KEY_CONFIRMED) (fun _ =>
  p_bind (p_bytes_of ANTS_CRDT_CONTENT_ID_SIZE) (fun root =>
  p_bind (p_key L2_SUM_KEY_FINDINGS) (fun _ => p_bind p_array (fun nf =>
  p_bind (p_times (Z.to_nat (nf - 0)) p_finding) (fun _ =>
  p_bind p_end (fun _ => p_ret (epoch, root)))))))))))).

Lemma parses_finding : parses only_malformed finding_walk p_finding.
Proof. unfold finding_walk, p_finding. parse_seq. Qed.

Lemma parses_findings nf :
  parses only_malformed (for_loop (Z.to_nat nf) 0 nf (fun _ => finding_walk))
    (p_times (Z.to_nat (nf - 0)) p_finding).
Proof. apply parses_for; [apply parses_finding|lia|lia]. Qed.

Lemma parses_array_val : parses only_malformed (malformed ants_cbor_dec_array) p_array.
Proof. apply parses_malformed, parses_array. Qed.

#[export] Hint Resolve parses_findings parses_array_val : ants.

Lemma parses_summary : parses only_malformed summary_walk p_summary.
Proof. unfold summary_walk, p_summary. parse_seq. Qed.

Definition finding_subject (f : bytes * Z * Z * Z * Z) : bytes := f.1.1.1.1.

Lemma p_finding_some cs cs' :
  p_finding cs = Some (tt, cs') ->
  exists f, cs = finding_cbor f :: cs' /\ zlen (finding_subject f) = 32.
Proof.
  unfold p_finding, p_bind, p_map_of. intros H. destruct cs as [|[] cs]; try discriminate H.
  destruct (Z.eqb_spec (zlen l) L2_FIND_PAIRS) as [E|]; [|done].
  apply zlen_5 in E as ([k0 v0] & [k1 v1] & [k2 v2] & [k3 v3] & [k4 v4] & ->).
  cbn [flat map concat app fst snd] in H. unfold p_key, p_uint, p_bytes_of, p_ret in H.
  repeat p_step H. injection H as <-.
  match goal with |- context [CMap [(_, CBytes ?s); (_, CUint ?r); (_, CUint ?w); (_, CUint ?n); (_, CUint ?v)]] =>
    by exists (s, r, w, n, v) end.
Qed.

Lemma p_finding_ok f cs :
  zlen (finding_subject f) = 32 -> p_finding (finding_cbor f :: cs) = Some (tt, cs).
Proof.
  destruct f as [[[[s r] w] n] v]. unfold finding_subject. cbn [fst]. intros Hs.
  unfold p_finding, finding_cbor. by run_parser.
Qed.

Lemma p_findings_some n : forall cs cs',
  p_times n p_finding cs = Some (tt, cs') ->
  exists fs, cs = map finding_cbor fs ++ cs' /\ length fs = n /\
    Forall (fun f => zlen (finding_subject f) = 32) fs.
Proof.
  induction n as [|n IH]; intros cs cs' H; cbn [p_times] in H.
  - injection H as <-. by exists [].
  - unfold p_bind in H. destruct (p_finding cs) as [[[] cs1]|] eqn:E; [|done].
    apply p_finding_some in E as (f & -> & Hf).
    destruct (IH cs1 cs' H) as (fs & -> & Hl & Hfs). exists (f :: fs). cbn. rewrite Hl.
    split; [done|]. split; [done|]. by constructor.
Qed.

Lemma p_findings_ok fs cs :
  Forall (fun f => zlen (finding_subject f) = 32) fs ->
  p_times (length fs) p_finding (map finding_cbor fs ++ cs) = Some (tt, cs).
Proof.
  induction 1 as [|f fs Hf _ IH]; [done|]. cbn [length p_times map app]. unfold p_bind.
  by rewrite p_finding_ok.
Qed.

Definition is_summary (c : cbor) (er : Z * bytes) : Prop :=
  exists cutoff fs, c = summary_cbor er.1 cutoff er.2 fs /\ zlen er.2 = 32 /\
    Forall (fun f => zlen (finding_subject f) = 32) fs.

Lemma p_summary_iff c er : (exists cs, p_summary [c] = Some (er, cs)) <-> is_summary c er.
Proof.
  destruct er as [epoch root]. unfold is_summary. cbn [fst snd]. split.
  - intros (cs & H). unfold p_summary, p_bind, p_map_of in H.
    destruct c as [| | | | |l| | |]; try discriminate H.
    destruct (Z.eqb_spec (zlen l) L2_SUM_PAIRS) as [E|]; [|done].
    apply zlen_4 in E as ([k0 v0] & [k1 v1] & [k2 v2] & [k3 v3] & ->).
    cbn [flat map concat app fst snd] in H. unfold p_key, p_uint, p_bytes_of, p_array, p_ret in H.
    repeat p_step H.
    match type of H with context [p_times ?n p_finding ?l] =>
      destruct (p_times n p_finding l) as [[[] cs1]|] eqn:Ef; [|done] end.
    destruct cs1; [|done]. cbn in H. injection H as <- <- <-.
    apply p_findings_some in Ef as (fs & Hfs & Hl & Hall).
    rewrite Z.sub_0_r, zlen_to_nat in Hl. rewrite !app_nil_r in Hfs. subst. by do 2 eexists.
  - intros (cutoff & fs & -> & Hr & Hall). exists []. unfold p_summary, summary_cbor, p_array.
    run_parser. rewrite Z.sub_0_r, zlen_to_nat, length_map, p_findings_ok by done. done.
Qed.
