(* ===== verification/CrdtVerify.v ===== *)
(** * What VERIFY accepts (src/reputation/crdt/src/crdt.c)

    The exact set of byte strings [ants_crdt_verify] accepts: a canonical
    envelope whose evidence is a valid equivocation, or a signed chain block
    whose epoch summary commits a citation that is not a valid proof. *)

From S2P Require Import Prelude Cbor CborSpec CborTrack CborEnc CborDec CborCanon CborContract CborKv.
From S2P Require Import CborRecord CborCodec CborParse Crypto Merkle Crdt CrdtMerkle CrdtParse.
Import Crdt.

#[local] Arguments zlen {A} l : simpl never.

(** ** Statements *)

Lemma decode_statement_decides body :
  bytes_ok body -> zlen body <= INT64_MAX ->
  decides only_malformed (decode_statement body) (fun st => document body (stmt_cbor st)).
Proof.
  intros Hok Hb. eapply decides_iff;
    [|eapply document_reads; [done|done|apply parses_statement|apply p_statement_iff]].
  intros st. cbv beta. split; [by intros (c & Hd & ->)|]. by exists (stmt_cbor st).
Qed.

(** ** The envelope *)

(** The reads of the envelope up to the evidence, without the stores into the
    view. *)
Definition fields_walk : action ants_cbor_dec_t (bytes * Z * Z) :=
  dec_map_of ENV_PAIRS ;*
  dec_expect_key ENV_KEY_SUBJECT ;* let* subj := dec_bytes_of ANTS_CRDT_PEER_ID_SIZE in
  dec_expect_key ENV_KEY_FAULT_TYPE ;* let* ft := dec_uint_val in
  dec_expect_key ENV_KEY_EPOCH ;* let* ep := dec_uint_val in
  dec_expect_key ENV_KEY_EVIDENCE ;* ret (subj, ft, ep).

Definition p_fields : parser (bytes * Z * Z) :=
  p_bind (p_map_of ENV_PAIRS) (fun _ =>
  p_bind (p_key ENV_KEY_SUBJECT) (fun _ => p_bind (p_bytes_of ANTS_CRDT_PEER_ID_SIZE) (fun subj =>
  p_bind (p_key ENV_KEY_FAULT_TYPE) (fun _ => p_bind p_uint (fun ft =>
  p_bind (p_key ENV_KEY_EPOCH) (fun _ => p_bind p_uint (fun ep =>
  p_bind (p_key ENV_KEY_EVIDENCE) (fun _ => p_ret (subj, ft, ep))))))))).

Lemma parses_fields : parses only_malformed fields_walk p_fields.
Proof. unfold fields_walk, p_fields. parse_seq. Qed.

#[export] Instance malformed_read_only {A} (m : action ants_cbor_dec_t A) :
  ReadOnly m -> ReadOnly (malformed m).
Proof. apply map_err_read_only. Qed.

#[export] Instance fields_read_only : ReadOnly fields_walk.
Proof.
  unfold fields_walk, dec_map_of, dec_expect_key, dec_bytes_of, dec_bytes_val, dec_uint_val. read_only.
Qed.

Lemma p_fields_iff c subj ft ep cs :
  p_fields [c] = Some ((subj, ft, ep), cs) <->
  exists ev, c = envelope_cbor subj ft ep ev /\ zlen subj = 32 /\ cs = [ev].
Proof.
  split.
  - intros H. unfold p_fields, p_bind, p_map_of in H.
    destruct c as [| | | | |l| | |]; try discriminate H.
    destruct (Z.eqb_spec (zlen l) ENV_PAIRS) as [E|]; [|done].
    apply zlen_4 in E as ([k0 v0] & [k1 v1] & [k2 v2] & [k3 v3] & ->).
    cbn [flat map concat app fst snd] in H. unfold p_key, p_uint, p_bytes_of, p_ret in H.
    repeat p_step H. injection H as <- <- <- <-. by eexists.
  - intros (ev & -> & Hs & ->). unfold p_fields, envelope_cbor. by run_parser.
Qed.

Lemma envelope_walk_fields b d out :
  match fields_walk d with
  | Ok d' (subj, ft, ep) =>
    envelope_walk b (d, out) =
      if zlen b <=? dec_pos d'
      then Err (d', mk_view (v_subject out) ft ep (v_evidence out)) ANTS_ERROR_MALFORMED
      else match slice b (dec_pos d') (size_sub (zlen b) (dec_pos d')) with
           | Some ev => Ok (d', mk_view subj ft ep ev) tt
           | None => UB
           end
  | Err _ e => exists st, envelope_walk b (d, out) = Err st e
  | UB => envelope_walk b (d, out) = UB
  | NoFuel => envelope_walk b (d, out) = NoFuel
  end.
Proof.
  unfold fields_walk, envelope_walk, bind, on_fst, modify_snd, get, ret. cbn [fst snd].
  repeat (match goal with
  | |- context [match ?m ?d with Ok _ _ => _ | Err _ _ => _ | UB => _ | NoFuel => _ end] =>
    destruct (m d) as [? ?|? ?| |] end; [|by eauto|done|done]; cbn [fst snd]).
  unfold ants_cbor_dec_pos. destruct (_ <=? _); [done|]. unfold deref. by destruct (slice _ _ _).
Qed.

(** The view of an envelope: the evidence is the rest of the document. *)
Definition is_envelope (buf : bytes) (v : ants_fault_proof_view_t) : Prop :=
  exists ev, document buf (envelope_cbor (v_subject v) (v_fault_type v) (v_epoch v) ev) /\
    zlen (v_subject v) = 32 /\ v_evidence v = encode ev.

Lemma is_envelope_unique buf v v' : is_envelope buf v -> is_envelope buf v' -> v' = v.
Proof.
  intros (ev & Hd & _ & He) (ev' & Hd' & _ & He').
  pose proof (document_unique _ _ _ Hd Hd') as H. destruct v, v'; cbn in *.
  injection H as -> -> -> ->. by subst.
Qed.

(** The walk over a canonical document. *)
Lemma envelope_walk_document buf c d out :
  document buf c -> ants_cbor_dec_init (Some buf) (zlen buf) = Ok tt d -> at_ d [c] ->
  match envelope_walk buf (d, out) with
  | Ok st _ => is_envelope buf st.2
  | Err _ e => e = ANTS_ERROR_MALFORMED /\ forall v, ~ is_envelope buf v
  | UB | NoFuel => False
  end.
Proof.
  intros Hd Hi Hat. pose proof (parses_fields d [c] Hat) as Hp.
  pose proof (envelope_walk_fields buf d out) as Hw.
  assert (Hno : p_fields [c] = None -> forall v, ~ is_envelope buf v).
  { intros Hn v (ev & Hd' & Hs & _). rewrite (document_unique _ _ _ Hd' Hd) in Hn.
    assert (Hsome : p_fields [envelope_cbor (v_subject v) (v_fault_type v) (v_epoch v) ev] =
      Some ((v_subject v, v_fault_type v, v_epoch v), [ev])) by (apply p_fields_iff; eauto).
    congruence. }
  destruct (p_fields [c]) as [[[[subj ft] ep] cs]|] eqn:E.
  - destruct Hp as (d' & Hf & Hat'). rewrite Hf in Hw. rewrite Hw. clear Hw Hno.
    apply p_fields_iff in E as (ev & -> & Hs & ->).
    apply (read_only_ok fields_walk) in Hf as [Hbuf _]; [|apply _].
    destruct Hat' as (pre & fs & [Hraw _] & _). pose proof (dec_raw_bounds _ _ _ Hraw) as Hbd.
    destruct Hraw as (Hb & _ & _ & Hpos & _).
    injection Hi as Hi. rewrite <- Hi in Hbuf. cbn [dec_buf default] in Hbuf. rewrite Hb in Hbuf.
    unfold encodes in Hbuf, Hbd. cbn [map concat] in Hbuf, Hbd. rewrite app_nil_r in Hbuf, Hbd.
    pose proof (encode_length_pos ev). pose proof (zlen_nonneg pre).
    assert (Hlen : zlen buf = zlen pre + zlen (encode ev)) by (by rewrite <- Hbuf, zlen_app).
    rewrite Hpos, Hlen, size_sub_small by zlia. bdecide.
    replace (zlen pre + zlen (encode ev) - zlen pre) with (zlen (encode ev)) by lia.
    pose proof (slice_mid pre (encode ev) []) as Hm. rewrite app_nil_r, Hbuf in Hm. rewrite Hm.
    by exists ev.
  - destruct Hp as (d' & e & Hf & ->). rewrite Hf in Hw. destruct Hw as [st ->]. auto.
Qed.

Lemma document_ne buf c : document buf c -> 0 < zlen buf.
Proof. intros (_ & _ & <-). pose proof (encode_length_pos c). zlia. Qed.

Lemma nonempty_zlen {A} (l : list A) : zlen l <> 0 <-> l <> [].
Proof. destruct l; [done|]. rewrite zlen_cons. pose proof (zlen_nonneg l). split; [done|lia]. Qed.

(** Why the decoder refuses. *)
Definition refusal (buf : bytes) (e : ants_error_t) : Prop :=
  ants_cbor_is_canonical (Some buf) (zlen buf) = Err tt e \/
  ants_cbor_is_canonical (Some buf) (zlen buf) = Ok tt tt /\ e = ANTS_ERROR_MALFORMED.

Lemma fault_proof_decode_spec buf out :
  bytes_ok buf -> zlen buf <= INT64_MAX ->
  match ants_crdt_fault_proof_decode (Some buf) out with
  | Ok v _ => is_envelope buf v
  | Err _ e => (forall v, ~ is_envelope buf v) /\ (buf <> [] -> refusal buf e)
  | UB | NoFuel => False
  end.
Proof.
  intros Hok Hb. unfold ants_crdt_fault_proof_decode, refusal.
  destruct (Z.eqb_spec (zlen buf) 0) as [E|E].
  { split; [|by intros Hne%nonempty_zlen]. intros v (ev & Hd & _). apply document_ne in Hd. lia. }
  pose proof (canonical_gate buf Hok Hb) as Hg.
  destruct (ants_cbor_is_canonical _ _) as [[] []|[] e| |]; try done.
  - destruct Hg as (c & Hd). pose proof Hd as (Hw & Hh & He).
    destruct (at_init buf [c]) as (d & Hi & Hat); [done|done| |by constructor|].
    { unfold encodes. cbn [map concat]. by rewrite app_nil_r. }
    rewrite Hi. pose proof (envelope_walk_document buf c d out Hd Hi Hat) as Hs.
    destruct (envelope_walk buf (d, out)) as [[d' v] []|[d' v] e| |]; try done.
    destruct Hs as [-> Hn]. split; [done|]. by right.
  - split; [|by left]. intros v (ev & Hd & _). by apply (Hg _ Hd).
Qed.

Lemma decode_view_decides buf :
  bytes_ok buf -> zlen buf <= INT64_MAX ->
  decides any_code (decode_view (Some buf)) (is_envelope buf).
Proof.
  intros Hok Hb u. unfold decode_view. pose proof (fault_proof_decode_spec buf view_0 Hok Hb) as Hs.
  destruct (ants_crdt_fault_proof_decode _ _) as [v []|v e| |]; try done.
  - split; [done|]. intros v'. by apply is_envelope_unique.
  - split; [done|apply Hs].
Qed.

Lemma document_readable buf c : document buf c -> zlen buf <= INT64_MAX -> readable c.
Proof. intros (Hw & Hh & <-) Hb. by split. Qed.

Lemma envelope_evidence subj ft ep ev :
  readable (envelope_cbor subj ft ep ev) -> readable (CBytes subj) /\ readable ev.
Proof.
  intros Hr. split; [apply (readable_map _ (CUint 0) _ Hr)|apply (readable_map _ (CUint 3) _ Hr)].
  - by left.
  - do 3 right. by left.
Qed.

(** ** Equivocation *)

Section verify.
Context `{B : Blake3} {Laws : Blake3Laws B} `{Ed : Ed25519}.

(** Two signed statements that bind one slot to two payloads. *)
Definition conflicting (subject : bytes) (epoch : Z) (e0 e1 : bytes * bytes) : Prop :=
  exists st0 st1,
    document e0.1 (stmt_cbor st0) /\ document e1.1 (stmt_cbor st1) /\
    (st_epoch st0 = epoch /\ st_epoch st1 = epoch) /\
    (st_domain st0 = st_domain st1 /\ st_slot st0 = st_slot st1) /\
    st_payload st0 <> st_payload st1 /\
    crypto_sign_ed25519_verify_detached e0.2 e0.1 subject = true /\
    crypto_sign_ed25519_verify_detached e1.2 e1.1 subject = true.

Definition equivocation_evidence (subject : bytes) (epoch : Z) (ev : cbor) : Prop :=
  exists e0 e1, ev = CArray [element_cbor e0; element_cbor e1] /\
    zlen e0.2 = ANTS_CRDT_SIG_SIZE /\ zlen e1.2 = ANTS_CRDT_SIG_SIZE /\
    conflicting subject epoch e0 e1.

Lemma signature_decides subject b sig :
  decides only_malformed (malformed (fun _ => ants_ed25519_verify subject (Some b) (zlen b) sig))
    (fun _ => crypto_sign_ed25519_verify_detached sig b subject = true).
Proof.
  intros u. unfold malformed, map_err. rewrite ed25519_verify_all.
  destruct (crypto_sign_ed25519_verify_detached sig b subject).
  - split; [done|]. by intros [].
  - by split.
Qed.

Lemma hash_signature_decides subject b sig :
  decides only_malformed
    (malformed (fun _ => ants_ed25519_verify subject (Some (digest b)) ANTS_CRDT_CONTENT_ID_SIZE sig))
    (fun _ => crypto_sign_ed25519_verify_detached sig (digest b) subject = true).
Proof. change ANTS_CRDT_CONTENT_ID_SIZE with ANTS_BLAKE3_HASH_SIZE. rewrite <- (digest_size b). apply signature_decides. Qed.

Lemma payload_test p q :
  (zlen p =? zlen q) && (memcmp p q =? 0) = false <-> p <> q.
Proof.
  destruct (Z.eqb_spec (zlen p) (zlen q)) as [E|E]; cbn [andb].
  - rewrite memcmp_eq by done. by rewrite bool_decide_eq_false.
  - split; [|done]. intros _ ->. done.
Qed.

Lemma two_tests a b c d : negb (a =? b) || negb (c =? d) = false <-> a = b /\ c = d.
Proof. rewrite orb_false_iff, !negb_false_iff, !Z.eqb_eq. done. Qed.

Lemma equivocation_elements e0 e1 :
  readable (CArray [element_cbor e0; element_cbor e1]) ->
  bytes_ok e0.1 /\ zlen e0.1 <= INT64_MAX /\ bytes_ok e1.1 /\ zlen e1.1 <= INT64_MAX.
Proof.
  intros Hr.
  assert (Hel : forall e, e ∈ [e0; e1] -> bytes_ok e.1 /\ zlen e.1 <= INT64_MAX).
  { intros e He. apply readable_bytes, (readable_array [CBytes e.1; CBytes e.2]); [|by left].
    apply (readable_array _ _ Hr). apply (list_elem_of_fmap_2 element_cbor [e0; e1]), He. }
  destruct (Hel e0); [by left|]. destruct (Hel e1); [by right; left|]. done.
Qed.

Lemma equivocation_walk_decides buf subj ft ep ev :
  document buf (envelope_cbor subj ft ep ev) -> zlen buf <= INT64_MAX ->
  decides only_malformed (local_dec buf equivocation_walk)
    (fun es => ev = CArray [element_cbor es.1; element_cbor es.2] /\
       zlen es.1.2 = ANTS_CRDT_SIG_SIZE /\ zlen es.2.2 = ANTS_CRDT_SIG_SIZE).
Proof.
  intros (Hw & Hh & <-) Hb. eapply decides_iff; [|by apply local_dec_decides, parses_equivocation].
  intros [e0 e1]. cbv beta. rewrite p_equivocation_iff. split.
  - intros (subj' & ft' & ep' & [= _ _ _ ->] & Hs0 & Hs1). done.
  - intros (-> & Hs0 & Hs1). by exists subj, ft, ep.
Qed.

Lemma verify_equivocation_decides buf subj ft ep ev :
  document buf (envelope_cbor subj ft ep ev) -> zlen buf <= INT64_MAX ->
  decides only_malformed (verify_equivocation buf subj ep)
    (fun _ => equivocation_evidence subj ep ev).
Proof.
  intros Hd Hb. pose proof (document_readable _ _ Hd Hb) as [_ Hev]%envelope_evidence.
  eapply decides_iff; [|apply decides_bind with (Q := fun es _ => conflicting subj ep es.1 es.2);
    [by eapply equivocation_walk_decides|]].
  { intros []. split.
    - intros ([e0 e1] & (He & ? & ?) & ?). by exists e0, e1.
    - intros (e0 & e1 & ? & ? & ? & ?). by exists (e0, e1). }
  intros [e0 e1] (-> & _ & _). apply equivocation_elements in Hev as (? & ? & ? & ?).
  cbn [fst snd] in *. eapply decides_iff; cycle 1.
  { apply decides_bind; [by apply decode_statement_decides|]. intros st0 _.
    apply decides_bind; [by apply decode_statement_decides|]. intros st1 _.
    apply decides_guard; [done|apply two_tests|intros _].
    apply decides_guard; [done|apply two_tests|intros _].
    apply decides_guard; [done|apply payload_test|intros _].
    apply decides_seq; [apply signature_decides|intros _; apply signature_decides]. }
  cbv beta. intros []. unfold conflicting. split.
  - intros (st0 & ? & st1 & ? & ? & ? & ? & ? & ?). by exists st0, st1.
  - intros (st0 & st1 & ? & ? & ? & ? & ? & ? & ?). exists st0. split; [done|]. exists st1.
    done.
Qed.

(** ** Fabricated confirmations *)

(** A canonical chain block whose summary has this epoch and root. *)
Definition chain_block (block : bytes) (epoch : Z) (root : bytes) : Prop :=
  exists height prev degraded summary cutoff findings,
    document block (block_cbor height prev degraded summary) /\ zlen prev = 32 /\
    document summary (summary_cbor epoch cutoff root findings) /\ zlen root = 32 /\
    Forall (fun f => zlen (finding_subject f) = 32) findings.

Lemma block_summary_readable block c sp :
  document block c -> is_block c sp -> zlen block <= INT64_MAX ->
  bytes_ok sp /\ zlen sp <= INT64_MAX.
Proof.
  intros Hd (h & prev & dg & -> & _) Hb. pose proof (document_readable _ _ Hd Hb) as Hr.
  apply (readable_map _ (CUint 4) (CBytes sp)) in Hr as [_ Hr]; [by apply readable_bytes|].
  by do 3 right; left.
Qed.

Lemma parse_block_summary_decides block :
  bytes_ok block -> zlen block <= INT64_MAX ->
  decides only_malformed (parse_block_summary block) (fun er => chain_block block er.1 er.2).
Proof.
  intros Hok Hb. unfold parse_block_summary. eapply decides_iff; cycle 1.
  { intros u. rewrite <- bind_assoc. revert u.
    apply decides_bind; [eapply document_reads; [done|done|apply parses_block|apply p_block_iff]|].
    intros sp (c & Hd & Hsp). destruct (block_summary_readable _ _ _ Hd Hsp Hb) as [Hoks Hbs].
    eapply document_reads; [done|done|apply parses_summary|apply p_summary_iff]. }
  intros [ep root]. cbv beta. unfold chain_block, is_block, is_summary. cbn [fst snd]. split.
  - intros (sp & (c & Hd & h & prev & dg & -> & ?) & c' & Hds & cutoff & fs & -> & ? & ?).
    by exists h, prev, dg, sp, cutoff, fs.
  - intros (h & prev & dg & sp & cutoff & fs & ? & ? & ? & ? & ?). exists sp.
    split; [exists (block_cbor h prev dg sp)|exists (summary_cbor ep cutoff root fs)].
    + split; [done|]. by exists h, prev, dg.
    + split; [done|]. by exists cutoff, fs.
Qed.

Definition valid_equivocation (buf : bytes) : Prop :=
  exists subject epoch ev,
    document buf (envelope_cbor subject ANTS_FAULT_EQUIVOCATION epoch ev) /\
    zlen subject = ANTS_CRDT_PEER_ID_SIZE /\ equivocation_evidence subject epoch ev.

(** A citation no build can accept: not an envelope at all, or an envelope of
    the equivocation class that is not valid. *)
Definition refuted (cited : bytes) : Prop :=
  (forall v, ~ is_envelope cited v) \/
  (exists v, is_envelope cited v /\ v_fault_type v = ANTS_FAULT_EQUIVOCATION) /\
  ~ valid_equivocation cited.

(** The subject signed a block that confirms a refuted citation. *)
Definition fabrication (subject : bytes) (epoch : Z) (block sig cited : bytes) (i n : Z)
  (path : bytes) : Prop :=
  (block <> [] /\ zlen sig = ANTS_CRDT_SIG_SIZE /\ cited <> []) /\
  (n <> 0 /\ n <= 2 ^ CP_MERKLE_MAX_DEPTH) /\ i < n /\
  exists root, chain_block block epoch root /\
    crypto_sign_ed25519_verify_detached sig (digest block) subject = true /\
    proves (digest cited) i n path root /\ refuted cited.

Definition transition_evidence (subject : bytes) (epoch : Z) (ev : cbor) : Prop :=
  exists block sig cited i n path,
    ev = transition_cbor block sig cited i n path /\
    fabrication subject epoch block sig cited i n path.

Definition valid_transition (buf : bytes) : Prop :=
  exists subject epoch ev,
    document buf (envelope_cbor subject ANTS_FAULT_INVALID_TRANSITION epoch ev) /\
    zlen subject = ANTS_CRDT_PEER_ID_SIZE /\ transition_evidence subject epoch ev.

Lemma hash_digest b : b <> [] -> ants_blake3_hash (Some b) (zlen b) = Ok tt (digest b).
Proof.
  intros Hb. apply nonempty_zlen in Hb. pose proof (zlen_nonneg b).
  unfold ants_blake3_hash. cbn [is_null andb]. bdecide. by rewrite slice_all.
Qed.

Lemma content_id_digest b u : b <> [] -> ants_crdt_content_id (Some b) u = Ok tt (digest b).
Proof.
  intros Hb. unfold ants_crdt_content_id. rewrite hash_digest by done.
  apply nonempty_zlen, Z.eqb_neq in Hb. by rewrite Hb.
Qed.

Lemma verify_nested_envelope f buf v :
  bytes_ok buf -> zlen buf <= INT64_MAX -> is_envelope buf v ->
  forall u, verify_nested (S f) buf u =
    (if v_fault_type v =? ANTS_FAULT_EQUIVOCATION
     then verify_equivocation buf (v_subject v) (v_epoch v)
     else if v_fault_type v =? ANTS_FAULT_INVALID_TRANSITION
     then verify_invalid_transition (verify_nested f) (v_evidence v) (v_subject v) (v_epoch v)
     else fail ANTS_ERROR_UNSUPPORTED_TYPE) tt.
Proof.
  intros Hok Hb Hv u. cbn [verify_nested]. unfold bind.
  pose proof (decode_view_decides buf Hok Hb u) as Hd.
  destruct (decode_view (Some buf) u) as [[] v'|[] e| |]; try done.
  - destruct Hd as [_ Hu]. by rewrite (Hu v Hv).
  - destruct Hd as [_ Hn]. by destruct (Hn v).
Qed.

(** An envelope of the equivocation class is accepted exactly when valid. *)
Lemma equivocation_class_decides f buf v :
  bytes_ok buf -> zlen buf <= INT64_MAX -> is_envelope buf v ->
  v_fault_type v = ANTS_FAULT_EQUIVOCATION ->
  decides only_malformed (verify_nested (S f) buf) (fun _ => valid_equivocation buf).
Proof.
  intros Hok Hb Hv Hft u. rewrite (verify_nested_envelope f buf v) by done.
  rewrite Hft. change (ANTS_FAULT_EQUIVOCATION =? ANTS_FAULT_EQUIVOCATION) with true. cbv iota.
  pose proof Hv as (ev & Hd & Hs & _). rewrite Hft in Hd. revert u.
  cut (decides only_malformed (verify_equivocation buf (v_subject v) (v_epoch v))
         (fun _ => valid_equivocation buf)); [intros H u; exact (H tt)|].
  eapply decides_iff; [|by eapply verify_equivocation_decides].
  intros []. split; [by exists (v_subject v), (v_epoch v), ev|].
  intros (subj & ep & ev' & Hd' & _ & He). by injection (document_unique _ _ _ Hd Hd') as -> -> ->.
Qed.

Lemma envelope_fault_type buf v : is_envelope buf v -> is_u64 (v_fault_type v).
Proof.
  intros (ev & (Hw & _) & _). apply wf_map in Hw as (_ & _ & Hw).
  apply Forall_cons in Hw as [_ Hw]. apply Forall_cons in Hw as [[_ Hw] _]. exact Hw.
Qed.

Lemma judge_citation_decides f cited :
  bytes_ok cited -> zlen cited <= INT64_MAX ->
  decides any_code (judge_citation (verify_nested (S f)) cited) (fun _ => refuted cited).
Proof.
  intros Hok Hb u. unfold judge_citation.
  pose proof (decode_view_decides cited Hok Hb u) as Hd.
  destruct (decode_view (Some cited) u) as [[] v|[] e| |] eqn:Edec; try done.
  - destruct Hd as [Hv Hu].
    assert (Hft : refuted cited -> v_fault_type v = ANTS_FAULT_EQUIVOCATION).
    { intros [Hn|[(v' & Hv' & Hft) _]]; [by destruct (Hn v)|]. by rewrite <- (Hu v' Hv'). }
    destruct (Z.eqb_spec (v_fault_type v) ANTS_FAULT_INVALID_TRANSITION) as [E|].
    { split; [done|]. intros _ Hr. by rewrite Hft in E. }
    destruct (Z.leb_spec ANTS_FAULT__RESERVED_MIN (v_fault_type v)) as [E|].
    { split; [done|]. intros _ Hr. by rewrite Hft in E. }
    assert (Hz : v_fault_type v = ANTS_FAULT_EQUIVOCATION).
    { pose proof (envelope_fault_type _ _ Hv) as Hu64. unfold ANTS_FAULT__RESERVED_MIN,
        ANTS_FAULT_INVALID_TRANSITION, ANTS_FAULT_EQUIVOCATION in *. zlia. }
    pose proof (equivocation_class_decides f cited v Hok Hb Hv Hz u) as He.
    destruct (verify_nested (S f) cited u) as [[] []|[] e| |]; try done.
    + split; [done|]. intros _ [Hn|[_ Hn]]; [by destruct (Hn v)|]. by apply Hn, He.
    + destruct He as [-> Hn]. split; [right; split; [by exists v|by apply (Hn tt)]|]. by intros [].
  - destruct Hd as [_ Hn]. split; [by left|]. by intros [].
Qed.

(** ** The invalid-transition class *)

Lemma sizes_test (block sig cited : bytes) :
  (zlen block =? 0) || negb (zlen sig =? ANTS_CRDT_SIG_SIZE) || (zlen cited =? 0) = false <->
  block <> [] /\ zlen sig = ANTS_CRDT_SIG_SIZE /\ cited <> [].
Proof.
  rewrite !orb_false_iff, negb_false_iff, !Z.eqb_neq, Z.eqb_eq, !nonempty_zlen. tauto.
Qed.

Lemma leaves_test n :
  (n =? 0) || (Z.shiftl 1 CP_MERKLE_MAX_DEPTH <? n) = false <-> n <> 0 /\ n <= 2 ^ CP_MERKLE_MAX_DEPTH.
Proof. rewrite orb_false_iff, Z.eqb_neq, Z.ltb_ge. done. Qed.

Lemma path_test i n (path : bytes) :
  n <= 2 ^ CP_MERKLE_MAX_DEPTH ->
  negb (zlen path =? u64 (proof_size i n * ANTS_CRDT_CONTENT_ID_SIZE)) = false <->
  zlen path = proof_size i n * 32.
Proof.
  intros Hn. rewrite negb_false_iff, Z.eqb_eq, u64_small; [done|].
  pose proof (proof_size_bound i n). change CP_MERKLE_MAX_DEPTH with 32 in Hn.
  pose proof (Z.log2_up_le_mono n (2 ^ 32) Hn) as Hlog. change (Z.log2_up (2 ^ 32)) with 32 in Hlog.
  change ANTS_CRDT_CONTENT_ID_SIZE with 32. zlia.
Qed.

(** The checks on the block and the path, and the verdict on the citation. *)
Lemma fabrication_decides f subject epoch block sig cited i n path :
  bytes_ok block -> zlen block <= INT64_MAX -> bytes_ok cited -> zlen cited <= INT64_MAX ->
  block <> [] -> cited <> [] -> 0 <= i < n -> n <= 2 ^ CP_MERKLE_MAX_DEPTH ->
  zlen path = proof_size i n * 32 ->
  decides any_code
    (let* (sum_epoch, root) := parse_block_summary block in
     if negb (sum_epoch =? epoch) then fail ANTS_ERROR_MALFORMED
     else
       let* block_hash := malformed (fun _ => ants_blake3_hash (Some block) (zlen block)) in
       malformed (fun _ => ants_ed25519_verify subject (Some block_hash) ANTS_CRDT_CONTENT_ID_SIZE sig) ;*
       let* leaf_id := malformed (ants_crdt_content_id (Some cited)) in
       let* folded := cp_fold_to_root leaf_id i n path in
       if negb (memcmp folded root =? 0) then fail ANTS_ERROR_MALFORMED
       else judge_citation (verify_nested (S f)) cited)
    (fun _ => exists root, chain_block block epoch root /\
       crypto_sign_ed25519_verify_detached sig (digest block) subject = true /\
       proves (digest cited) i n path root /\ refuted cited).
Proof.
  intros Hokb Hbb Hokc Hbc Hnb Hnc Hi Hn Hp. change CP_MERKLE_MAX_DEPTH with 32 in Hn.
  destruct (cp_fold_to_root_proves (digest cited) i n path tt) as (r & Hr & Hfold & Hroot);
    [apply digest_size|done|zlia|done|].
  eapply decides_iff; [|apply decides_bind with (Q := fun er _ => er.1 = epoch /\
    crypto_sign_ed25519_verify_detached sig (digest block) subject = true /\
    er.2 = r /\ refuted cited);
    [by eapply decides_codes, parse_block_summary_decides|]].
  { intros []. split.
    - intros ([ep root] & Hc & He & Hsig & Hrt & Href). cbn [fst snd] in *. subst. exists r. cbn [fst snd] in *.
      split; [done|]. split; [done|]. split; [by apply Hroot|done].
    - intros (root & Hc & Hsig & ->%Hroot & Href). by exists (epoch, r). }
  intros [ep root] (h & pv & dg & sm & ct & fs & _ & _ & _ & Hroot32 & _). cbn [fst snd] in *.
  apply decides_guard; [done|by rewrite negb_false_iff, Z.eqb_eq|]. intros ->.
  apply decides_run with (a := digest block).
  { intros []. unfold malformed, map_err. by rewrite hash_digest. }
  apply decides_seq; [eapply decides_codes, hash_signature_decides; done|intros _].
  apply decides_run with (a := digest cited).
  { intros []. unfold malformed, map_err. by rewrite content_id_digest. }
  apply decides_run with (a := r); [by intros []|].
  apply decides_guard; [done| |intros _; by apply judge_citation_decides].
  rewrite negb_false_iff, memcmp_eq by congruence. rewrite bool_decide_eq_true. done.
Qed.

Lemma transition_items block sig cited i n path :
  readable (transition_cbor block sig cited i n path) ->
  (bytes_ok block /\ zlen block <= INT64_MAX) /\ (bytes_ok cited /\ zlen cited <= INT64_MAX) /\
  0 <= i /\ 0 <= n.
Proof.
  intros Hr. split; [|split].
  - apply readable_bytes, (readable_array _ _ Hr). by left.
  - apply readable_bytes, (readable_array _ _ Hr). by do 2 right; left.
  - destruct (readable_array _ (CUint i) Hr) as [[Hi _] _]; [by do 3 right; left|].
    by destruct (readable_array _ (CUint n) Hr) as [[Hn _] _]; [do 4 right; left|].
Qed.

Lemma transition_walk_decides ev :
  readable ev ->
  decides only_malformed (local_dec (encode ev) transition_walk)
    (fun '(block, sig, cited, i, n, path) => ev = transition_cbor block sig cited i n path).
Proof.
  intros (Hw & Hh & Hb). eapply decides_iff; [|by apply local_dec_decides, parses_transition].
  intros [[[[[block sig] cited] i] n] path]. apply p_transition_iff.
Qed.

Lemma verify_invalid_transition_decides f subject epoch ev :
  readable ev ->
  decides any_code (verify_invalid_transition (verify_nested (S f)) (encode ev) subject epoch)
    (fun _ => transition_evidence subject epoch ev).
Proof.
  intros Hev. unfold verify_invalid_transition.
  eapply decides_iff; [|apply decides_bind with (Q := fun t _ =>
    let '(block, sig, cited, i, n, path) := t in fabrication subject epoch block sig cited i n path);
    [by eapply decides_codes, transition_walk_decides|]].
  { intros []. split.
    - intros ([[[[[block sig] cited] i] n] path] & -> & H). by exists block, sig, cited, i, n, path.
    - intros (block & sig & cited & i & n & path & -> & H).
      by exists (block, sig, cited, i, n, path). }
  intros [[[[[block sig] cited] i] n] path] ->.
  apply transition_items in Hev as ([Hokb Hbb] & [Hokc Hbc] & Hi0 & Hn0).
  apply decides_guard; [done|apply sizes_test|intros (Hnb & _ & Hnc)].
  apply decides_guard; [done|apply leaves_test|intros [_ Hn]].
  apply decides_guard; [done|apply Z.leb_gt|intros Hi].
  apply decides_run with (a := proof_size i n).
  { intros []. apply cp_path_len_eq; [lia|]. change CP_MERKLE_MAX_DEPTH with 32 in Hn. zlia. }
  eapply decides_iff; [|apply decides_guard; [done|by apply path_test|intros Hp;
    apply fabrication_decides; done || lia]].
  intros []. split; [by intros [_ ?]|]. intros (root & ? & ? & Hpr & ?).
  split; [by apply proves_size in Hpr|]. by exists root.
Qed.

(** ** VERIFY *)

Definition valid_proof (buf : bytes) : Prop := valid_equivocation buf \/ valid_transition buf.

Lemma valid_class buf v :
  is_envelope buf v -> valid_proof buf ->
  (v_fault_type v = ANTS_FAULT_EQUIVOCATION /\ valid_equivocation buf) \/
  (v_fault_type v = ANTS_FAULT_INVALID_TRANSITION /\ valid_transition buf).
Proof.
  intros (ev & Hd & _) [Hv|Hv]; [left|right]; (split; [|done]);
    destruct Hv as (subj & ep & ev' & Hd' & _); by injection (document_unique _ _ _ Hd Hd').
Qed.

Lemma transition_class_decides f buf v :
  bytes_ok buf -> zlen buf <= INT64_MAX -> is_envelope buf v ->
  v_fault_type v = ANTS_FAULT_INVALID_TRANSITION ->
  decides any_code
    (verify_invalid_transition (verify_nested (S f)) (v_evidence v) (v_subject v) (v_epoch v))
    (fun _ => valid_transition buf).
Proof.
  intros Hok Hb (ev & Hd & Hs & ->) Hft. rewrite Hft in Hd.
  pose proof (document_readable _ _ Hd Hb) as [_ Hev]%envelope_evidence.
  eapply decides_iff; [|by apply verify_invalid_transition_decides].
  intros []. split; [by exists (v_subject v), (v_epoch v), ev|].
  intros (subj & ep & ev' & Hd' & _ & He). by injection (document_unique _ _ _ Hd Hd') as -> -> ->.
Qed.

Lemma verify_decides buf :
  bytes_ok buf -> zlen buf <= INT64_MAX ->
  decides any_code (ants_crdt_verify (Some buf)) (fun _ => valid_proof buf).
Proof.
  intros Hok Hb u. unfold ants_crdt_verify.
  assert (Henv : valid_proof buf -> exists v, is_envelope buf v).
  { intros [(s & ep & ev & Hd & Hs & _)|(s & ep & ev & Hd & Hs & _)];
      eexists (mk_view s _ ep (encode ev)), ev; by split. }
  destruct (Z.eqb_spec (zlen buf) 0) as [E|E].
  { split; [done|]. intros _ [v (ev & Hd & _)]%Henv. apply document_ne in Hd. lia. }
  pose proof (decode_view_decides buf Hok Hb u) as Hd.
  destruct (decode_view (Some buf) u) as [[] v|[] e| |] eqn:Edec; try done; cycle 1.
  { cbn [verify_nested]. unfold bind. rewrite Edec. split; [done|].
    intros _ [v Hv]%Henv. by apply (proj2 Hd v). }
  destruct Hd as [Hv _].
  destruct (Z.eq_dec (v_fault_type v) ANTS_FAULT_EQUIVOCATION) as [Hft|Hft].
  { eapply decides_codes; [|eapply decides_iff; [|by eapply (equivocation_class_decides 1)]].
    - done.
    - intros []. split; [by left|]. intros [[_ ?]|[Hft' _]]%(valid_class buf v Hv); [done|by rewrite Hft in Hft']. }
  rewrite (verify_nested_envelope 1 buf v) by done. apply Z.eqb_neq in Hft as Hne. rewrite Hne.
  destruct (Z.eqb_spec (v_fault_type v) ANTS_FAULT_INVALID_TRANSITION) as [Hft1|Hft1].
  - eapply decides_iff; [|by apply (transition_class_decides 0)].
    intros []. split; [by right|]. intros [[Hft' _]|[_ ?]]%(valid_class buf v Hv); [by rewrite Hft1 in Hft'|done].
  - split; [done|]. intros _ [[? _]|[? _]]%(valid_class buf v Hv); congruence.
Qed.

(** ** From the encoders to VERIFY *)

Lemma statement_emit st e :
  statement_body (st_domain st) (st_epoch st) (st_slot st) (Some (st_payload st))
    (zlen (st_payload st)) e = emit (stmt_cbor st) e.
Proof.
  unfold statement_body. cbn [stmt_cbor emit map seq_actions foldr]. act_eq.
Qed.

Lemma equivocation_emit subject epoch e0 e1 e :
  zlen subject = 32 -> zlen e0.2 = 64 -> zlen e1.2 = 64 ->
  equivocation_body subject epoch e0.1 e0.2 e1.1 e1.2 e =
    emit (envelope_cbor subject ANTS_FAULT_EQUIVOCATION epoch
            (CArray [element_cbor e0; element_cbor e1])) e.
Proof.
  intros Hs H0 H1. unfold equivocation_body, enc_stmt_element.
  cbn [envelope_cbor element_cbor emit map seq_actions foldr]. rewrite Hs, H0, H1.
  act_eq.
Qed.

Definition stmt_ok (st : stmt_t) : Prop :=
  is_u64 (st_domain st) /\ is_u64 (st_epoch st) /\ is_u64 (st_slot st) /\ bytes_ok (st_payload st).

Lemma stmt_wf st :
  stmt_ok st -> zlen (encode (stmt_cbor st)) <= INT64_MAX -> readable (stmt_cbor st).
Proof.
  intros (Hd & He & Hs & Hp) Hb. split; [|by split; [cbn; lia|]]. apply wf_map.
  split; [done|]. split; [by repeat constructor|].
  assert (Hl : zlen (st_payload st) <= SIZE_MAX).
  { pose proof (bytes_item_size (st_payload st)).
    pose proof (zlen_nonneg (encode (CUint 3))).
    assert (zlen (encode (CUint 3)) + zlen (encode (CBytes (st_payload st))) <=
      zlen (encode (stmt_cbor st))) by (apply map_item_size; by do 3 right; left). zlia. }
  repeat (constructor; [by split|]). constructor.
Qed.

Definition element_ok (e : bytes * bytes) : Prop := bytes_ok e.2 /\ zlen e.2 = ANTS_CRDT_SIG_SIZE.

Lemma equivocation_wf subject epoch e0 e1 :
  bytes_ok subject -> zlen subject = 32 -> is_u64 epoch ->
  bytes_ok e0.1 -> bytes_ok e1.1 -> element_ok e0 -> element_ok e1 ->
  zlen e0.1 <= INT64_MAX -> zlen e1.1 <= INT64_MAX ->
  zlen (encode (envelope_cbor subject ANTS_FAULT_EQUIVOCATION epoch
          (CArray [element_cbor e0; element_cbor e1]))) <= INT64_MAX ->
  readable (envelope_cbor subject ANTS_FAULT_EQUIVOCATION epoch
          (CArray [element_cbor e0; element_cbor e1])).
Proof.
  intros Hs Hs32 Hep Hb0 Hb1 [Hg0 Hl0] [Hg1 Hl1] Hz0 Hz1 Hb. split; [|by split; [cbn; lia|]].
  unfold ANTS_CRDT_SIG_SIZE in *.
  assert (Hel : forall e, bytes_ok e.1 -> bytes_ok e.2 -> zlen e.1 <= INT64_MAX -> zlen e.2 = 64 ->
    wf (element_cbor e)).
  { intros e ? ? ? ?. apply wf_array. split; [done|]. repeat constructor; try done; zlia. }
  apply wf_map. split; [done|]. split; [by repeat constructor|].
  constructor; [split; [done|split; [done|zlia]]|].
  do 2 (constructor; [by split|]).
  constructor; [split; [done|]|constructor]. apply wf_array. split; [done|].
  repeat constructor; apply Hel; try done.
Qed.

(** Sizes: the heads of a statement take at most 41 bytes, those of a proof
    at most 210. *)
Lemma stmt_size st : zlen (encode (stmt_cbor st)) <= zlen (st_payload st) + 41.
Proof.
  cbn [stmt_cbor encode map concat]. rewrite !zlen_app.
  pose proof (head_size 0 (st_domain st)). pose proof (head_size 0 (st_epoch st)).
  pose proof (head_size 0 (st_slot st)). pose proof (head_size 2 (zlen (st_payload st))).
  rewrite (head_size_tiny 0 0), (head_size_tiny 0 1), (head_size_tiny 0 2), (head_size_tiny 0 3) by lia.
  change (zlen (@nil Z)) with 0.
  match goal with |- context [encode_head 5 ?n] => change (zlen (encode_head 5 n)) with 1 end. lia.
Qed.

Lemma element_size e : zlen e.2 = 64 -> zlen (encode (element_cbor e)) <= zlen e.1 + 76.
Proof.
  intros He. cbn [element_cbor encode map concat]. rewrite !zlen_app, He.
  pose proof (head_size 2 (zlen e.1)). change (zlen (@nil Z)) with 0.
  match goal with |- context [encode_head 4 ?n] => change (zlen (encode_head 4 n)) with 1 end.
  change (zlen (encode_head 2 64)) with 2. lia.
Qed.

Lemma equivocation_size subject epoch e0 e1 :
  zlen subject = 32 -> zlen e0.2 = 64 -> zlen e1.2 = 64 ->
  zlen (encode (envelope_cbor subject ANTS_FAULT_EQUIVOCATION epoch
          (CArray [element_cbor e0; element_cbor e1]))) <= zlen e0.1 + zlen e1.1 + 210.
Proof.
  intros Hs H0 H1. apply element_size in H0, H1. cbn [envelope_cbor encode map concat].
  rewrite !zlen_app, Hs. pose proof (head_size 0 epoch).
  rewrite (head_size_tiny 0 0), (head_size_tiny 0 1), (head_size_tiny 0 2), (head_size_tiny 0 3) by lia.
  change (zlen (@nil Z)) with 0. change (zlen (encode_head 2 32)) with 2.
  change (zlen (encode_head 0 ANTS_FAULT_EQUIVOCATION)) with 1.
  match goal with |- context [encode_head 5 ?n] => change (zlen (encode_head 5 n)) with 1 end.
  match goal with |- context [encode_head 4 ?n] => change (zlen (encode_head 4 n)) with 1 end. lia.
Qed.

Lemma statement_encodes st buf :
  stmt_ok st -> zlen (st_payload st) + 64 <= zlen buf <= INT64_MAX ->
  exists w n,
    ants_crdt_statement_encode (st_domain st) (st_epoch st) (st_slot st) (Some (st_payload st))
      (zlen (st_payload st)) (zlen buf) buf = Ok w n /\
    readable (stmt_cbor st) /\ encode (stmt_cbor st) = take (Z.to_nat n) w /\
    n <= zlen (st_payload st) + 41.
Proof.
  intros Hok Hb. pose proof (stmt_size st) as Hsz.
  assert (Hr : readable (stmt_cbor st)) by (apply stmt_wf; [done|lia]).
  destruct (emits_document _ _ buf (zlen buf) Hr (statement_emit st)) as (w & Hw & Ht); [lia|lia|].
  exists w, (zlen (encode (stmt_cbor st))). by rewrite zlen_to_nat.
Qed.

(** Two conflicting signed statements, packed by the encoder. *)
Lemma equivocation_encodes subject epoch e0 e1 buf :
  bytes_ok subject -> zlen subject = ANTS_CRDT_PEER_ID_SIZE -> is_u64 epoch ->
  element_ok e0 -> element_ok e1 -> conflicting subject epoch e0 e1 ->
  zlen e0.1 + zlen e1.1 + 210 <= zlen buf <= INT64_MAX ->
  exists w n,
    ants_crdt_equivocation_encode subject epoch e0.1 e0.2 e1.1 e1.2 (zlen buf) buf = Ok w n /\
    ants_crdt_verify (Some (take (Z.to_nat n) w)) tt = Ok tt tt.
Proof.
  intros Hs Hs32 Hep Hg0 Hg1 Hc Hb. pose proof (proj2 Hg0) as Hl0. pose proof (proj2 Hg1) as Hl1.
  pose proof (equivocation_size subject epoch e0 e1 Hs32 Hl0 Hl1) as Hsz.
  pose proof Hc as (st0 & st1 & Hd0 & Hd1 & _).
  pose proof (document_ne _ _ Hd0). pose proof (document_ne _ _ Hd1).
  destruct Hd0 as (Hw0 & _ & Hd0), Hd1 as (Hw1 & _ & Hd1).
  assert (Hr : readable (envelope_cbor subject ANTS_FAULT_EQUIVOCATION epoch
    (CArray [element_cbor e0; element_cbor e1]))).
  { apply equivocation_wf; try done; try lia; [rewrite <- Hd0|rewrite <- Hd1]; by apply encode_ok. }
  destruct (emits_document _ _ buf (zlen buf) Hr (fun e => equivocation_emit subject epoch e0 e1 e Hs32 Hl0 Hl1))
    as (w & Hw & Ht); [lia|lia|].
  eexists w, _. split; [unfold ants_crdt_equivocation_encode; repeat bdecide; exact Hw|].
  rewrite zlen_to_nat, Ht. eapply decides_true; [apply verify_decides|].
  - apply encode_ok, Hr.
  - apply Hr.
  - left. exists subject, epoch, (CArray [element_cbor e0; element_cbor e1]).
    split; [by split; [apply Hr|split; [apply Hr|]]|]. split; [done|]. exists e0, e1. by split_and!; [|apply Hg0|apply Hg1|].
Qed.

End verify.

(** ** Concrete proofs

    What the encoders write for two conflicting statements of one subject,
    and for a block that confirms a citation. *)

Definition written_bytes (r : outcome bytes Z) : bytes :=
  match r with Ok w n => take (Z.to_nat n) w | _ => [] end.

Definition demo_subject : bytes := replicate 32 7.
Definition demo_stmt (p : bytes) : stmt_t := mk_stmt 1 5 9 p.
Definition demo_body (p : bytes) : bytes :=
  written_bytes (ants_crdt_statement_encode 1 5 9 (Some p) (zlen p) 100 (replicate 100 0)).
Definition demo_sig (msg : bytes) : bytes := demo_subject ++ take 32 (msg ++ replicate 32 0).
Definition demo_equivocation (p q : bytes) : bytes :=
  written_bytes (ants_crdt_equivocation_encode demo_subject 5 (demo_body p) (demo_sig (demo_body p))
    (demo_body q) (demo_sig (demo_body q)) 500 (replicate 500 0)).

(** A block of epoch 5 that confirms [cited] alone, signed by the subject. *)
Definition demo_block (cited : bytes) : bytes :=
  let root := @leaf toy_blake3 (@digest toy_blake3 cited) in
  encode (block_cbor 3 (replicate 32 0) false (encode (summary_cbor 5 77 root []))).
Definition demo_fabrication (cited : bytes) : bytes :=
  let block := demo_block cited in
  written_bytes (ants_crdt_invalid_transition_encode demo_subject 5 block
    (demo_sig (@digest toy_blake3 block)) cited 0 1 (Some []) 0 2000 (replicate 2000 0)).

Definition demo_verify (buf : bytes) : outcome unit unit :=
  @ants_crdt_verify toy_blake3 toy_ed25519 (Some buf) tt.

(** An equivocation is accepted, and refused when the payloads agree. *)
Example demo_equivocation_accepted : demo_verify (demo_equivocation [1] [2; 3]) = Ok tt tt.
Proof. vm_compute. reflexivity. Qed.

Example demo_agreement_refused :
  demo_verify (demo_equivocation [1] [1]) = Err tt ANTS_ERROR_MALFORMED.
Proof. vm_compute. reflexivity. Qed.

(** A block that confirms an invalid proof convicts its signer; one that
    confirms a valid proof does not. *)
Example demo_fabrication_accepted :
  demo_verify (demo_fabrication (demo_equivocation [1] [1])) = Ok tt tt.
Proof. vm_compute. reflexivity. Qed.

Example demo_honest_block_refused :
  demo_verify (demo_fabrication (demo_equivocation [1] [2; 3])) = Err tt ANTS_ERROR_MALFORMED.
Proof. vm_compute. reflexivity. Qed.

(** The envelope decoder.  On any buffer it stays inside its input and
    succeeds exactly on the canonical encodings of an envelope (a map of
    subject, class, epoch and one evidence item, the subject 32 bytes long),
    with the one view that envelope has; the evidence it returns is the rest
    of the document.  On a canonical document that is no envelope the code is
    MALFORMED, and on any other document it is the validator's. *)
Theorem fault_proof_decode_exact buf out :
  bytes_ok buf -> zlen buf <= INT64_MAX -> buf <> [] ->
  match ants_crdt_fault_proof_decode (Some buf) out with
  | Ok v _ => is_envelope buf v /\ forall v', is_envelope buf v' -> v' = v
  | Err _ e => (forall v, ~ is_envelope buf v) /\ refusal buf e
  | UB | NoFuel => False
  end.
Proof.
  intros Hok Hb Hne. pose proof (fault_proof_decode_spec buf out Hok Hb) as Hs.
  destruct (ants_crdt_fault_proof_decode _ _) as [v []|v e| |]; try done.
  - split; [done|]. intros v'. by apply is_envelope_unique.
  - destruct Hs as [Hn Hr]. auto.
Qed.

Lemma fault_proof_decode_exact_witness :
  exists v, ants_crdt_fault_proof_decode (Some (demo_equivocation [1] [2; 3])) view_0 = Ok v tt /\
    is_envelope (demo_equivocation [1] [2; 3]) v /\ v_subject v = demo_subject /\ v_epoch v = 5.
Proof.
  assert (Hok : bytes_ok (demo_equivocation [1] [2; 3])) by by_decision.
  assert (Hlen : zlen (demo_equivocation [1] [2; 3]) <= INT64_MAX) by (by vm_compute).
  assert (Hne : demo_equivocation [1] [2; 3] <> []) by (by vm_compute).
  pose proof (fault_proof_decode_exact (demo_equivocation [1] [2; 3]) view_0 Hok Hlen Hne) as H.
  destruct (ants_crdt_fault_proof_decode _ view_0) as [v []| | |] eqn:E; [|by vm_compute in E..].
  exists v. split; [done|]. split; [apply H|]. vm_compute in E. injection E as <-. done.
Defined.

(** C2: VERIFY is exact.  On any buffer it returns without leaving its input
    and accepts exactly the valid fault proofs: a canonical envelope with two
    signed statements that bind one (domain, epoch, slot) of the envelope's
    epoch to two payloads, or with a signed chain block of the envelope's
    epoch whose confirmed-proofs root provably contains bytes that are not
    themselves a valid proof.  In particular a block that confirms a valid
    proof, or one of an unassigned class, slashes nobody. *)
Theorem verify_exact `{B : Blake3} {Laws : Blake3Laws B} `{Ed : Ed25519} buf :
  bytes_ok buf -> zlen buf <= INT64_MAX ->
  match ants_crdt_verify (Some buf) tt with
  | Ok _ _ => valid_proof buf
  | Err _ _ => ~ valid_proof buf
  | UB | NoFuel => False
  end.
Proof.
  intros Hok Hb. pose proof (verify_decides buf Hok Hb tt) as Hv.
  destruct (ants_crdt_verify (Some buf) tt) as [? []|? e| |]; try done.
  - apply Hv.
  - by apply (proj2 Hv tt).
Qed.

Lemma verify_exact_witness :
  demo_verify (demo_fabrication (demo_equivocation [1] [1])) = Ok tt tt /\
  @valid_proof toy_blake3 toy_ed25519 (demo_fabrication (demo_equivocation [1] [1])).
Proof.
  assert (Hv : demo_verify (demo_fabrication (demo_equivocation [1] [1])) = Ok tt tt)
    by (by vm_compute).
  split; [done|].
  pose proof (@verify_exact toy_blake3 toy_blake3_laws toy_ed25519
    (demo_fabrication (demo_equivocation [1] [1]))) as H.
  unfold demo_verify in Hv. rewrite Hv in H. apply H; [by_decision|by vm_compute].
Defined.

(** A caught equivocation is provable.  Two statements for one (domain,
    epoch, slot) with different payloads are encoded by the statement encoder
    into buffers with 64 bytes to spare; whatever 64-byte signatures the
    subject's key verifies over those bytes, the proof encoder packs them into
    a document that VERIFY accepts. *)
Theorem equivocation_proof_accepted `{B : Blake3} {Laws : Blake3Laws B} `{Ed : Ed25519}
  subject st0 st1 buf0 buf1 buf :
  bytes_ok subject -> zlen subject = ANTS_CRDT_PEER_ID_SIZE ->
  stmt_ok st0 -> stmt_ok st1 ->
  st_domain st0 = st_domain st1 -> st_epoch st0 = st_epoch st1 -> st_slot st0 = st_slot st1 ->
  st_payload st0 <> st_payload st1 ->
  zlen (st_payload st0) + 64 <= zlen buf0 <= INT64_MAX ->
  zlen (st_payload st1) + 64 <= zlen buf1 <= INT64_MAX ->
  zlen (st_payload st0) + zlen (st_payload st1) + 300 <= zlen buf <= INT64_MAX ->
  exists w0 n0 w1 n1,
    ants_crdt_statement_encode (st_domain st0) (st_epoch st0) (st_slot st0) (Some (st_payload st0))
      (zlen (st_payload st0)) (zlen buf0) buf0 = Ok w0 n0 /\
    ants_crdt_statement_encode (st_domain st1) (st_epoch st1) (st_slot st1) (Some (st_payload st1))
      (zlen (st_payload st1)) (zlen buf1) buf1 = Ok w1 n1 /\
    forall sig0 sig1,
      let e0 := (take (Z.to_nat n0) w0, sig0) in
      let e1 := (take (Z.to_nat n1) w1, sig1) in
      element_ok e0 -> element_ok e1 ->
      crypto_sign_ed25519_verify_detached e0.2 e0.1 subject = true ->
      crypto_sign_ed25519_verify_detached e1.2 e1.1 subject = true ->
      exists w n,
        ants_crdt_equivocation_encode subject (st_epoch st0) e0.1 e0.2 e1.1 e1.2 (zlen buf) buf =
          Ok w n /\
        ants_crdt_verify (Some (take (Z.to_nat n) w)) tt = Ok tt tt.
Proof.
  intros Hs Hs32 Hok0 Hok1 Hd He Hsl Hp Hb0 Hb1 Hb.
  destruct (statement_encodes st0 buf0 Hok0 Hb0) as (w0 & n0 & Hw0 & Hr0 & Ht0 & Hz0).
  destruct (statement_encodes st1 buf1 Hok1 Hb1) as (w1 & n1 & Hw1 & Hr1 & Ht1 & Hz1).
  exists w0, n0, w1, n1. split; [done|]. split; [done|]. intros sig0 sig1.
  rewrite <- Ht0, <- Ht1. intros e0 e1 Hg0 Hg1 Hv0 Hv1.
  apply equivocation_encodes; try done.
  - apply Hok0.
  - destruct Hr0 as (? & ? & _), Hr1 as (? & ? & _). exists st0, st1. subst e0 e1. cbn [fst snd] in *. by split_and!.
  - subst e0 e1. cbn [fst]. pose proof (stmt_size st0). pose proof (stmt_size st1). lia.
Qed.

Lemma equivocation_proof_accepted_witness :
  exists w0 n0 w1 n1,
    ants_crdt_statement_encode 1 5 9 (Some [1]) 1 100 (replicate 100 0) = Ok w0 n0 /\
    ants_crdt_statement_encode 1 5 9 (Some [2; 3]) 2 100 (replicate 100 0) = Ok w1 n1 /\
    exists w n,
      ants_crdt_equivocation_encode demo_subject 5
        (take (Z.to_nat n0) w0) (demo_sig (take (Z.to_nat n0) w0))
        (take (Z.to_nat n1) w1) (demo_sig (take (Z.to_nat n1) w1)) 500 (replicate 500 0) = Ok w n /\
      demo_verify (take (Z.to_nat n) w) = Ok tt tt.
Proof.
  destruct (@equivocation_proof_accepted toy_blake3 toy_blake3_laws toy_ed25519 demo_subject
    (demo_stmt [1]) (demo_stmt [2; 3]) (replicate 100 0) (replicate 100 0) (replicate 500 0))
    as (w0 & n0 & w1 & n1 & H0 & H1 & H).
  - by_decision.
  - reflexivity.
  - by repeat (split; [by_decision|]); by_decision.
  - by repeat (split; [by_decision|]); by_decision.
  - reflexivity.
  - reflexivity.
  - reflexivity.
  - discriminate.
  - by_decision.
  - by_decision.
  - by_decision.
  - exists w0, n0, w1, n1. split; [exact H0|]. split; [exact H1|].
    pose proof H0 as E0. vm_compute in E0. injection E0 as <- <-.
    pose proof H1 as E1. vm_compute in E1. injection E1 as <- <-.
    apply (H (demo_sig _) (demo_sig _)); first [split; by_decision | vm_compute; reflexivity].
Defined.
