(* ===== verification/CrdtSet.v ===== *)
(** * The set of verified fault proofs (src/reputation/crdt/src/crdt.c)

    The grow-only set: an open-addressed table of proofs, a prune floor and
    an open-addressed index of retired subjects.  The heap is the sequence of
    answers the allocator gives: every call of [malloc] or [calloc] consumes
    one, an exhausted sequence stands for an allocator that never refuses,
    and no object larger than [PTRDIFF_MAX] is ever granted.  A freed block is
    not modelled; the proof bytes a slot owns are its [proof] field. *)

From S2P Require Import Prelude Cbor CborKv Crypto OpenTable Crdt.
Import Crdt.

Module CrdtSet.

(** ** Data *)

Definition CRDT_INITIAL_CAP : Z := 16.

Record crdt_elem : Type := mk_elem {
  content_id : bytes;
  subject : bytes;
  epoch : Z;
  proof : option bytes   (** [NULL] marks an empty slot; [proof_len] is its length *)
}.

Record ants_crdt : Type := mk_set {
  slots : list crdt_elem;   (** [cap] buckets *)
  cap : Z;
  count : Z;
  floor : Z;
  retired : list bytes;     (** [cap_retired] buckets; [NULL] before the first *)
  n_retired : Z;
  cap_retired : Z;
  retired_zero : bool
}.

Definition set_slots sl c st := mk_set sl c (count st) (floor st) (retired st) (n_retired st)
                                   (cap_retired st) (retired_zero st).
Definition set_count n st := mk_set (slots st) (cap st) n (floor st) (retired st) (n_retired st)
                               (cap_retired st) (retired_zero st).
Definition set_floor f st := mk_set (slots st) (cap st) (count st) f (retired st) (n_retired st)
                               (cap_retired st) (retired_zero st).
Definition set_retired r n c st := mk_set (slots st) (cap st) (count st) (floor st) r n c
                                     (retired_zero st).
Definition set_retired_zero z st := mk_set (slots st) (cap st) (count st) (floor st) (retired st)
                                      (n_retired st) (cap_retired st) z.

(** What [calloc] leaves in a bucket. *)
Definition zero_id : bytes := replicate 32 0.
Definition empty_elem : crdt_elem := mk_elem zero_id zero_id 0 None.

Definition sizeof_elem : Z := 88.
Definition sizeof_set : Z := 64.

(** ** The heap *)

Abbreviation heap := (list bool).

(** An allocation of [size] bytes: whether it is granted. *)
Definition alloc {S} (size : Z) : action (heap * S) bool := fun st =>
  let fits := size <=? INT64_MAX in
  match st.1 with
  | [] => Ok ([], st.2) fits
  | b :: h => Ok (h, st.2) (b && fits)
  end.

Definition on_set {A} (f : ants_crdt -> ants_crdt) (a : A) : action (heap * ants_crdt) A :=
  fun st => Ok (st.1, f st.2) a.

(** ** The index of retired subjects *)

Definition subject_is_zero (s : bytes) : bool := forallb (fun b => b =? 0) s.

#[export] Instance subject_slot : Slot bytes :=
  fun s => if subject_is_zero s then None else Some s.

Definition retired_probe {S} (tab : list bytes) (cap : Z) (subj : bytes) : action S (Z * bool) :=
  probe tab cap subj.

Definition retired_has {S} (st : ants_crdt) (subj : bytes) : action S bool :=
  if subject_is_zero subj then ret (retired_zero st)
  else if cap_retired st =? 0 then ret false
  else let* (_, found) := retired_probe (retired st) (cap_retired st) subj in ret found.

(** [while (need * 2u > cap) cap *= 2u;] *)
Fixpoint double_until (fuel : nat) (need cap : Z) : option Z :=
  if cap <? u64 (need * 2) then
    match fuel with O => None | S f => double_until f need (u64 (cap * 2)) end
  else Some cap.

Definition retired_reserve (extra : Z) : action (heap * ants_crdt) unit :=
  let* st := get in
  let need := size_add (n_retired st.2) extra in
  if u64 (need * 2) <=? cap_retired st.2 then ret tt
  else
    match double_until 64 need (if cap_retired st.2 =? 0 then 16 else cap_retired st.2) with
    | None => fun _ => NoFuel
    | Some new_cap =>
      let* ok := alloc (new_cap * 32) in
      if negb ok then fail ANTS_ERROR_MALFORMED
      else
        let* nt := move_all (retired st.2) (replicate (Z.to_nat new_cap) zero_id) new_cap in
        on_set (set_retired nt (n_retired st.2) new_cap) tt
    end.

Definition retired_add (subj : bytes) : action (heap * ants_crdt) bool :=
  let* st := get in
  if subject_is_zero subj then on_set (set_retired_zero true) (negb (retired_zero st.2))
  else
    let* (i, found) := retired_probe (retired st.2) (cap_retired st.2) subj in
    if found then ret false
    else
      let* r := deref (set_at (retired st.2) i subj) in
      on_set (set_retired r (size_add (n_retired st.2) 1) (cap_retired st.2)) true.

(** ** The table of proofs *)

#[export] Instance elem_slot : Slot crdt_elem :=
  fun e => match proof e with Some _ => Some (content_id e) | None => None end.

Definition crdt_probe {S} (sl : list crdt_elem) (cap : Z) (id : bytes) : action S (Z * bool) :=
  probe sl cap id.

Definition crdt_grow : action (heap * ants_crdt) unit :=
  let* st := get in
  let new_cap := u64 (cap st.2 * 2) in
  let* ok := alloc (new_cap * sizeof_elem) in
  if negb ok then fail ANTS_ERROR_MALFORMED
  else
    let* ns := move_all (slots st.2) (replicate (Z.to_nat new_cap) empty_elem) new_cap in
    on_set (set_slots ns new_cap) tt.

(** The result is what the code stores in [*out_inserted]. *)
Definition crdt_insert_elem (id subj : bytes) (ep : Z) (pf : bytes)
  : action (heap * ants_crdt) bool :=
  let* st := get in
  if ep <? floor st.2 then
    let* has := retired_has st.2 subj in
    if has : bool then ret false
    else
      retired_reserve 1 ;*
      let* _ := retired_add subj in
      ret true
  else
    (if u64 (cap st.2 * 7) <=? u64 (size_add (count st.2) 1 * 10) then crdt_grow else ret tt) ;*
    let* st := get in
    let* (i, found) := crdt_probe (slots st.2) (cap st.2) id in
    if found : bool then ret false
    else
      let* ok := alloc (zlen pf) in
      if negb ok then fail ANTS_ERROR_MALFORMED
      else
        let* sl := deref (set_at (slots st.2) i (mk_elem id subj ep (Some pf))) in
        on_set (fun s => set_count (size_add (count s) 1) (set_slots sl (cap s) s)) true.

(** The handle is the set the call allocates. *)
Definition ants_crdt_init : action (heap * unit) ants_crdt :=
  let* ok := alloc sizeof_set in
  if negb ok then fail ANTS_ERROR_MALFORMED
  else
    let* ok := alloc (CRDT_INITIAL_CAP * sizeof_elem) in
    if negb ok then fail ANTS_ERROR_MALFORMED
    else ret (mk_set (replicate (Z.to_nat CRDT_INITIAL_CAP) empty_elem) CRDT_INITIAL_CAP 0 0 [] 0 0 false).

(** The proof copies the call releases. *)
Definition ants_crdt_destroy (st : option ants_crdt) : list bytes :=
  match st with None => [] | Some s => omap proof (slots s) end.

Section set.
Context `{B : Blake3} `{Ed : Ed25519}.

Definition ants_crdt_insert (pf : option bytes) : action (heap * ants_crdt) bool :=
  match pf with
  | None => fail ANTS_ERROR_INVALID_ARG
  | Some b =>
    if zlen b =? 0 then fail ANTS_ERROR_INVALID_ARG
    else
      pure_call (ants_crdt_verify (Some b)) ;*
      let* view := pure_call (decode_view (Some b)) in
      let* id := pure_call (ants_crdt_content_id (Some b)) in
      crdt_insert_elem id (v_subject view) (v_epoch view) b
  end.

(** The loop of [ants_crdt_snapshot_merge]; the counters are the frame's. *)
Fixpoint snapshot_loop (fuel : nat) (i n added rejected : Z)
  : action (ants_cbor_dec_t * (heap * ants_crdt)) (Z * Z) :=
  if n <=? i then ret (added, rejected)
  else match fuel with
  | O => fun _ => NoFuel
  | S f =>
    let* ty := on_fst (malformed ants_cbor_dec_peek_type) in
    if negb (bool_decide (ty = ANTS_CBOR_TYPE_BYTES)) then fail ANTS_ERROR_MALFORMED
    else
      let* p := on_fst (malformed ants_cbor_dec_bytes) in
      match ants_crdt_verify (Some p) tt with
      | Ok _ _ =>
        let* ins := on_snd (ants_crdt_insert (Some p)) in
        snapshot_loop f (i + 1) n (if ins : bool then size_add added 1 else added) rejected
      | Err _ _ => snapshot_loop f (i + 1) n added (size_add rejected 1)
      | UB => fun _ => UB
      | NoFuel => fun _ => NoFuel
      end
  end.

(** The result is the pair of counters the code stores through its
    out-parameters. *)
Definition ants_crdt_snapshot_merge (buf : option bytes) : action (heap * ants_crdt) (Z * Z) :=
  match buf with
  | None => fail ANTS_ERROR_INVALID_ARG
  | Some b =>
    if zlen b =? 0 then fail ANTS_ERROR_INVALID_ARG
    else fun st =>
      match ants_cbor_is_canonical (Some b) (zlen b) with
      | Err _ e => Err st e
      | UB => UB
      | NoFuel => NoFuel
      | Ok _ _ =>
        match ants_cbor_dec_init (Some b) (zlen b) with
        | Err _ _ => Err st ANTS_ERROR_MALFORMED
        | UB => UB
        | NoFuel => NoFuel
        | Ok _ d =>
          match (let* n := on_fst (malformed ants_cbor_dec_array) in
                 let* r := snapshot_loop (Z.to_nat n) 0 n 0 0 in
                 on_fst (malformed ants_cbor_dec_finalise) ;*
                 ret r) (d, st) with
          | Ok s r => Ok s.2 r
          | Err s e => Err s.2 e
          | UB => UB
          | NoFuel => NoFuel
          end
        end
      end
  end.
End set.

(** ** Queries *)

Definition ants_crdt_contains {S} (st : option ants_crdt) (id : bytes) : action S bool :=
  match st with
  | None => ret false
  | Some s => let* (_, found) := crdt_probe (slots s) (cap s) id in ret found
  end.

(** [e->proof != NULL && memcmp(e->subject, subject, 32) == 0]. *)
Definition is_about (subj : bytes) (e : crdt_elem) : bool :=
  match proof e with Some _ => memcmp (subject e) subj =? 0 | None => false end.

Definition ants_crdt_is_slashed {S} (st : option ants_crdt) (subj : bytes) : action S bool :=
  match st with
  | None => ret false
  | Some s => if existsb (is_about subj) (slots s) then ret true else retired_has s subj
  end.

Definition ants_crdt_prune_floor (st : option ants_crdt) : Z :=
  match st with None => 0 | Some s => floor s end.

Definition ants_crdt_size (st : option ants_crdt) : Z :=
  match st with None => 0 | Some s => count s end.

(** ** Merge and enumeration *)

Fixpoint merge_loop (es : list crdt_elem) : action (heap * ants_crdt) unit :=
  match es with
  | [] => ret tt
  | e :: es' =>
    match proof e with
    | Some pf =>
      let* _ := crdt_insert_elem (content_id e) (subject e) (epoch e) pf in merge_loop es'
    | None => merge_loop es'
    end
  end.

(** [src] is another object than the set merged into. *)
Definition ants_crdt_merge (src : option ants_crdt) : action (heap * ants_crdt) unit :=
  match src with
  | None => fail ANTS_ERROR_INVALID_ARG
  | Some s => merge_loop (slots s)
  end.

(** [fn] receives the id and the proof and returns the caller's context and
    whether to go on. *)
Fixpoint enumerate_loop {C} (fn : bytes -> bytes -> C -> C * bool) (es : list crdt_elem) (ctx : C) : C :=
  match es with
  | [] => ctx
  | e :: es' =>
    match proof e with
    | Some pf =>
      let '(ctx', continue) := fn (content_id e) pf ctx in
      if continue then enumerate_loop fn es' ctx' else ctx'
    | None => enumerate_loop fn es' ctx
    end
  end.

Definition ants_crdt_enumerate {C} (st : option ants_crdt) (fn : bytes -> bytes -> C -> C * bool)
  (ctx : C) : C :=
  match st with None => ctx | Some s => enumerate_loop fn (slots s) ctx end.

(** ** Pruning *)

Fixpoint cap_for_loop (fuel : nat) (n cap : Z) : option Z :=
  if u64 (cap * 7) <=? u64 (n * 10) then
    match fuel with O => None | S f => cap_for_loop f n (u64 (cap * 2)) end
  else Some cap.

Definition crdt_cap_for {S} (n : Z) : action S Z := fun s =>
  match cap_for_loop 64 n CRDT_INITIAL_CAP with Some c => Ok s c | None => NoFuel end.

Definition survives (min_epoch_keep : Z) (e : crdt_elem) : bool :=
  match proof e with Some _ => min_epoch_keep <=? epoch e | None => false end.

Fixpoint prune_loop (min_epoch_keep new_cap : Z) (es ns : list crdt_elem) (pruned : Z)
  : action (heap * ants_crdt) (list crdt_elem * Z) :=
  match es with
  | [] => ret (ns, pruned)
  | e :: es' =>
    match proof e with
    | None => prune_loop min_epoch_keep new_cap es' ns pruned
    | Some _ =>
      if min_epoch_keep <=? epoch e then
        let* ns' := table_put ns new_cap (content_id e) e in
        prune_loop min_epoch_keep new_cap es' ns' pruned
      else
        let* _ := retired_add (subject e) in
        prune_loop min_epoch_keep new_cap es' ns (size_add pruned 1)
    end
  end.

(** The result is [*out_pruned]. *)
Definition ants_crdt_prune (min_epoch_keep : Z) : action (heap * ants_crdt) Z :=
  let* st := get in
  let survivors := zlen (List.filter (survives min_epoch_keep) (slots st.2)) in
  let* new_cap := crdt_cap_for survivors in
  let* ok := alloc (new_cap * sizeof_elem) in
  if negb ok then fail ANTS_ERROR_MALFORMED
  else
    map_err (fun _ => ANTS_ERROR_MALFORMED) (retired_reserve (size_sub (count st.2) survivors)) ;*
    let* (ns, pruned) := prune_loop min_epoch_keep new_cap (slots st.2)
                           (replicate (Z.to_nat new_cap) empty_elem) 0 in
    on_set (fun s =>
      let s' := set_count survivors (set_slots ns new_cap s) in
      if floor s' <? min_epoch_keep then set_floor min_epoch_keep s' else s') pruned.

(** ** Snapshots *)

Fixpoint snapshot_total (es : list crdt_elem) (total : Z) : Z :=
  match es with
  | [] => total
  | e :: es' =>
    match proof e with
    | Some pf => snapshot_total es' (size_add total (size_add 9 (zlen pf)))
    | None => snapshot_total es' total
    end
  end.

Definition ants_crdt_snapshot_bound (st : option ants_crdt) : Z :=
  match st with None => 0 | Some s => snapshot_total (slots s) 9 end.

Fixpoint snapshot_items (es : list crdt_elem) : action ants_cbor_enc_t unit :=
  match es with
  | [] => ret tt
  | e :: es' =>
    match proof e with
    | Some pf => ants_cbor_enc_bytes (Some pf) (zlen pf) ;* snapshot_items es'
    | None => snapshot_items es'
    end
  end.

Definition snapshot_body (s : ants_crdt) : action ants_cbor_enc_t unit :=
  ants_cbor_enc_array (count s) ;* snapshot_items (slots s).

Definition ants_crdt_snapshot_encode (st : option ants_crdt) (cap : Z) : action bytes Z :=
  match st with
  | None => fail ANTS_ERROR_INVALID_ARG
  | Some s => with_encoder cap (snapshot_body s)
  end.

End CrdtSet.
