(* ===== verification/CrdtSetThms.v ===== *)
(** * The set of fault proofs: representation and operations

    [set_ok] is the invariant of the two tables; [denote] reads a set as a
    finite map of members, a finite set of retired subjects and the prune
    floor.  Every operation is shown to act on that reading as its
    specification says, and to leave it alone when the allocator refuses. *)

From stdpp Require Import gmap.
From S2P Require Import Prelude Cbor CborKv Crypto OpenTable Crdt CrdtSet.
Import Crdt CrdtSet.

#[local] Arguments zlen {A} l : simpl never.

(** ** The invariant *)

(** An open-addressed table whose load stays below [num]/[den] and whose
    buckets are [size] bytes. *)
Record store_ok {T} `{Slot T} (tab : list T) (cap used size : Z) : Prop := {
  store_table : table_ok tab;
  store_cap : cap = zlen tab;
  store_used : used = zlen (entries tab);
  store_fits : cap * size <= INT64_MAX
}.

Definition retired_ok (r : list bytes) (n c : Z) : Prop :=
  (r = [] /\ n = 0 /\ c = 0) \/ (store_ok r c n 32 /\ n * 2 <= c).

Record set_ok (st : ants_crdt) : Prop := {
  ok_slots : store_ok (slots st) (cap st) (count st) sizeof_elem;
  ok_load : count st * 10 < cap st * 7;
  ok_retired : retired_ok (retired st) (n_retired st) (cap_retired st);
  ok_subjects : forall id e, (id, e) ∈ entries (slots st) -> zlen (subject e) = 32;
  ok_floor : forall id e, (id, e) ∈ entries (slots st) -> floor st <= epoch e
}.

(** ** The reading *)

Record set_view : Type := mk_set_view {
  members : gmap bytes crdt_elem;
  gone : gset bytes;
  cut : Z
}.

Definition retired_subjects (st : ants_crdt) : gset bytes :=
  list_to_set (entries (retired st)).*1 ∪ (if retired_zero st then {[zero_id]} else ∅).

Definition denote (st : ants_crdt) : set_view :=
  mk_set_view (table_map (slots st)) (retired_subjects st) (floor st).

(** ** Subjects *)

Lemma subject_zero s : zlen s = 32 -> subject_is_zero s = bool_decide (s = zero_id).
Proof.
  intros Hs. unfold subject_is_zero.
  assert (Hl : length s = 32%nat) by (unfold zlen in Hs; lia). clear Hs.
  unfold zero_id. rewrite <- Hl. clear Hl. induction s as [|x s IH]; [done|].
  cbn [forallb length replicate]. rewrite IH. destruct (Z.eqb_spec x 0) as [->|Hn]; cbn [andb].
  - apply bool_decide_ext. split; [by intros <-|intros H; by injection H].
  - symmetry. apply bool_decide_false. congruence.
Qed.

Lemma subject_entry tab k x : (k, x) ∈ entries (T := bytes) tab -> x = k /\ subject_is_zero k = false.
Proof.
  intros (i & _ & Hk)%elem_of_entries. unfold slot_key, subject_slot in Hk.
  destruct (subject_is_zero x) eqn:E; [done|]. injection Hk as ->. done.
Qed.

Lemma retired_subjects_elem st s :
  zlen s = 32 ->
  s ∈ retired_subjects st <->
    (if subject_is_zero s then retired_zero st = true else s ∈ (entries (retired st)).*1).
Proof.
  intros Hs. unfold retired_subjects. rewrite elem_of_union, elem_of_list_to_set.
  rewrite subject_zero by done. case_bool_decide as E.
  - subst. split; [|intros ->; right; by apply elem_of_singleton].
    intros [Hin|Hin]; [|by destruct (retired_zero st); [|set_solver]].
    apply list_elem_of_fmap in Hin as ([k x] & Heq & Hin). apply subject_entry in Hin as [_ Hz].
    cbn [fst] in Heq. by rewrite <- Heq in Hz.
  - split; [|by left]. intros [Hin|Hin]; [done|]. destruct (retired_zero st); set_solver.
Qed.

(** ** The allocator *)

Lemma alloc_cases {S} size (h : heap) (s : S) :
  exists h', alloc size (h, s) = Ok (h', s) true /\ size <= INT64_MAX \/
             alloc size (h, s) = Ok (h', s) false.
Proof.
  unfold alloc. cbn [fst snd]. destruct h as [|b h].
  - exists []. destruct (Z.leb_spec size INT64_MAX); auto.
  - exists h. destruct b, (Z.leb_spec size INT64_MAX); auto.
Qed.

(** ** The index of retired subjects *)

Lemma store_room {T} `{Slot T} (tab : list T) c n size :
  store_ok tab c n size -> n < c -> (length (entries tab) < length tab)%nat.
Proof. intros Hs Hn. rewrite (store_cap _ _ _ _ Hs), (store_used _ _ _ _ Hs) in Hn. unfold zlen in Hn. lia. Qed.

(** Whether a retired subject is one the set reports slashed. *)
Lemma retired_has_spec {S} st subj (s : S) :
  retired_ok (retired st) (n_retired st) (cap_retired st) -> zlen subj = 32 ->
  retired_has st subj s = Ok s (bool_decide (subj ∈ retired_subjects st)).
Proof.
  intros Hr Hs.
  enough (exists b, retired_has st subj s = Ok s b /\ (b = true <-> subj ∈ retired_subjects st))
    as (b & -> & Hb).
  { f_equal. case_bool_decide as E; [by apply Hb|]. destruct b; [|done]. by destruct E; apply Hb. }
  setoid_rewrite (retired_subjects_elem st subj Hs). unfold retired_has.
  destruct (subject_is_zero subj) eqn:Ez; [by exists (retired_zero st)|].
  destruct Hr as [(-> & Hn & ->)|[Hst Hload]].
  { exists false. split; [done|]. split; [done|]. intros Hin. by apply elem_of_nil in Hin. }
  pose proof (store_used _ _ _ _ Hst) as Hu. pose proof (zlen_nonneg (entries (retired st))).
  assert (Hcap : 0 < cap_retired st).
  { rewrite (store_cap _ _ _ _ Hst). destruct (table_cap _ (store_table _ _ _ _ Hst)) as (k & Hk & ->). lia. }
  destruct (Z.eqb_spec (cap_retired st) 0); [lia|].
  destruct (table_probe (retired st) subj s (store_table _ _ _ _ Hst) Hs) as (i & x & Hl & Hp & Hx);
    [eapply store_room; [done|lia]|].
  exists (occupied x). unfold retired_probe. rewrite (store_cap _ _ _ _ Hst).
  rewrite (bind_Ok _ _ _ _ _ Hp). split; [done|].
  destruct (table_map (retired st) !! subj) as [y|] eqn:E; destruct Hx as [_ ->].
  - split; [|done]. intros _. apply elem_of_list_to_map_2 in E.
    apply list_elem_of_fmap. by exists (subj, y).
  - split; [done|]. intros Hin. by apply not_elem_of_list_to_map_2 in E.
Qed.

Lemma double_until_spec need fuel : forall k,
  0 <= k <= 60 -> 60 - k <= Z.of_nat fuel -> 0 <= need -> need * 2 <= 2 ^ 60 ->
  exists k', k <= k' <= 60 /\ double_until fuel need (2 ^ k) = Some (2 ^ k') /\ need * 2 <= 2 ^ k'.
Proof.
  induction fuel as [|f IH]; intros k Hk Hf Hn Hn2; cbn [double_until].
  all: rewrite (u64_small (need * 2)) by zlia.
  all: destruct (Z.ltb_spec (2 ^ k) (need * 2)) as [Hlt|Hge]; [|exists k; auto with lia].
  { replace k with 60 in Hlt by lia. lia. }
  assert (k <> 60) by (intros ->; lia).
  assert (Hp : 2 ^ k * 2 = 2 ^ (k + 1)) by (rewrite Z.pow_add_r; lia).
  assert (2 ^ (k + 1) <= 2 ^ 60) by (apply Z.pow_le_mono_r; lia).
  rewrite Hp, u64_small by (pose proof (Z.pow_nonneg 2 (k + 1)); zlia).
  destruct (IH (k + 1)) as (k' & Hk' & Hd & Hle); [lia..|]. exists k'. split; [lia|done].
Qed.

Lemma set_retired_id st : set_retired (retired st) (n_retired st) (cap_retired st) st = st.
Proof. by destruct st. Qed.

Lemma retired_ok_bounds r n c : retired_ok r n c -> 0 <= n <= 2 ^ 57 /\ n * 2 <= c /\ c * 32 <= INT64_MAX.
Proof.
  intros [(-> & -> & ->)|[Hs Hl]]; [zlia|]. pose proof (store_used _ _ _ _ Hs) as Hu.
  pose proof (zlen_nonneg (entries r)). pose proof (store_fits _ _ _ _ Hs). zlia.
Qed.

Lemma retired_ok_keys r n c :
  retired_ok r n c -> keys_sized r /\ NoDup (entries r).*1 /\ n = zlen (entries r).
Proof.
  intros [(-> & -> & ->)|[Hs _]].
  - split; [|split; [constructor|done]]. intros i x key Hi. by rewrite lookup_nil in Hi.
  - split; [apply table_sized, Hs|]. split; [apply table_nodup, Hs|apply Hs].
Qed.

(** Growing the index keeps its contents; a refused allocation changes
    nothing. *)
Definition reserve_post (st : ants_crdt) (extra : Z) (o : outcome (heap * ants_crdt) unit) : Prop :=
  match o with
  | Ok (_, st') _ => exists r c, st' = set_retired r (n_retired st) c st /\
      retired_ok r (n_retired st) c /\ entries r ≡ₚ entries (retired st) /\
      (n_retired st + extra) * 2 <= c
  | Err (_, st') e => st' = st /\ e = ANTS_ERROR_MALFORMED
  | UB | NoFuel => False
  end.

Lemma retired_reserve_spec h st extra :
  retired_ok (retired st) (n_retired st) (cap_retired st) -> 0 <= extra <= 2 ^ 57 ->
  reserve_post st extra (retired_reserve extra (h, st)).
Proof.
  intros Hr He. pose proof (retired_ok_bounds _ _ _ Hr) as (Hn & Hl & Hc).
  unfold retired_reserve, bind at 1, get. cbn [snd]. rewrite size_add_small by zlia.
  rewrite (u64_small (_ * 2)) by zlia.
  destruct (Z.leb_spec ((n_retired st + extra) * 2) (cap_retired st)) as [Hle|Hgt].
  { exists (retired st), (cap_retired st). by rewrite set_retired_id. }
  set (c0 := if cap_retired st =? 0 then 16 else cap_retired st).
  assert (Hc0 : exists k, 0 <= k <= 60 /\ c0 = 2 ^ k).
  { subst c0. destruct Hr as [(_ & _ & ->)|[Hs _]]; [by exists 4|].
    destruct (table_cap _ (store_table _ _ _ _ Hs)) as (k & Hk & Hz).
    pose proof (store_cap _ _ _ _ Hs) as Hcap. rewrite Hz in Hcap.
    destruct (Z.eqb_spec (cap_retired st) 0); [by exists 4|]. exists k. split; [|done].
    split; [lia|]. destruct (Z.le_gt_cases k 60); [done|].
    assert (2 ^ 61 <= 2 ^ k) by (apply Z.pow_le_mono_r; lia). zlia. }
  destruct Hc0 as (k & Hk & ->).
  destruct (double_until_spec (n_retired st + extra) 64 k) as (k' & Hk' & -> & Hle); [lia|lia|lia|zlia|].
  destruct (alloc_cases (2 ^ k' * 32) h st) as (h' & [[Ha Hfit]|Ha]);
    rewrite (bind_Ok _ _ _ _ _ Ha); cbn [negb]; [|done].
  destruct (retired_ok_keys _ _ _ Hr) as (Hks & Hnd & Hu).
  destruct (rebuild_ok (retired st) zero_id k' (h', st)) as (nt & Hm & Hok & Hperm & Hlen);
    [done|done|done|lia|zlia|].
  rewrite (bind_Ok _ _ _ _ _ Hm). exists nt, (2 ^ k'). split; [done|].
  split; [right|by split].
  split; [|zlia]. split; [done|by rewrite Hlen| |done]. by rewrite (Permutation_zlen _ _ Hperm).
Qed.

(** Recording a subject, once there is room for it. *)
Definition add_post (st : ants_crdt) (h : heap) (subj : bytes) (o : outcome (heap * ants_crdt) bool)
  : Prop :=
  exists r n z,
    let st' := set_retired_zero z (set_retired r n (cap_retired st) st) in
    o = Ok (h, st') (negb (bool_decide (subj ∈ retired_subjects st))) /\
    retired_ok r n (cap_retired st) /\ n <= n_retired st + 1 /\
    retired_subjects st' = {[subj]} ∪ retired_subjects st.

Lemma retired_subjects_zero st :
  retired_subjects (set_retired_zero true st) = {[zero_id]} ∪ retired_subjects st.
Proof.
  unfold retired_subjects. cbn. generalize zero_id. intros z.
  destruct (retired_zero st); set_solver.
Qed.

Lemma retired_add_spec h st subj :
  retired_ok (retired st) (n_retired st) (cap_retired st) -> zlen subj = 32 ->
  (n_retired st + 1) * 2 <= cap_retired st ->
  add_post st h subj (retired_add subj (h, st)).
Proof.
  intros Hr Hs Hroom. unfold retired_add, bind at 1, get. cbn [snd].
  pose proof (retired_subjects_elem st subj Hs) as Hel.
  destruct (subject_is_zero subj) eqn:Ez.
  { exists (retired st), (n_retired st), true. rewrite set_retired_id.
    rewrite subject_zero in Ez by done. apply bool_decide_eq_true in Ez as ->.
    split; [|split; [done|split; [lia|apply retired_subjects_zero]]].
    unfold on_set. cbn [fst snd]. f_equal. f_equal.
    case_bool_decide as E; [by apply Hel|]. destruct (retired_zero st); [|done]. by destruct E; apply Hel. }
  destruct Hr as [(_ & Hn & Hc)|[Hst Hload]]; [lia|].
  destruct (table_probe (retired st) subj (h, st) (store_table _ _ _ _ Hst) Hs) as (i & x & Hl & Hp & Hx);
    [eapply store_room; [done|]|].
  { pose proof (store_used _ _ _ _ Hst). pose proof (zlen_nonneg (entries (retired st))). lia. }
  unfold retired_probe. rewrite (store_cap _ _ _ _ Hst) at 1. rewrite (bind_Ok _ _ _ _ _ Hp).
  destruct (table_map (retired st) !! subj) as [y|] eqn:E.
  - destruct Hx as [_ ->]. exists (retired st), (n_retired st), (retired_zero st).
    assert (Hin : subj ∈ retired_subjects st).
    { apply Hel. apply list_elem_of_fmap. exists (subj, y). split; [done|]. by apply elem_of_list_to_map_2. }
    rewrite bool_decide_true by done. rewrite set_retired_id.
    replace (set_retired_zero (retired_zero st) st) with st by (by destruct st).
    split; [done|]. split; [by right|]. split; [lia|]. set_solver.
  - destruct Hx as [Hxn ->]. pose proof (position_lt (retired st) subj i ltac:(pose proof (proj1 Hl); lia)) as Hlt.
    rewrite set_at_nat by done. unfold bind, deref, on_set. cbn [fst snd].
    set (r' := <[position (retired st) subj i := subj]> (retired st)).
    assert (Hkey : slot_key subj = Some subj) by (unfold slot_key, subject_slot; by rewrite Ez).
    assert (Hp' : entries r' ≡ₚ (subj, subj) :: entries (retired st))
      by (eapply entries_insert; [apply Hl|done..]).
    assert (Hnot : subj ∉ retired_subjects st).
    { intros Hin%Hel. by apply not_elem_of_list_to_map_2 in E. }
    pose proof (store_used _ _ _ _ Hst) as Hu. pose proof (store_fits _ _ _ _ Hst).
    pose proof (zlen_nonneg (entries (retired st))).
    exists r', (n_retired st + 1), (retired_zero st). rewrite size_add_small by zlia.
    rewrite bool_decide_false by done. split; [by destruct st|]. split; [|split; [lia|]].
    + right. split; [|lia]. split.
      * eapply table_insert; [apply Hst|done|exact Hl|done|done].
      * rewrite (store_cap _ _ _ _ Hst). unfold zlen, r'. by rewrite length_insert.
      * rewrite (Permutation_zlen _ _ Hp'), zlen_cons. lia.
      * done.
    + unfold retired_subjects. cbn. rewrite Hp'. cbn [fmap list_fmap fst list_to_set]. set_solver.
Qed.

(** ** Inserting an element *)

(** An operation that, unless the allocator refuses, acts on the reading of
    the set as [r] says. *)
Definition op_post {A} (st : ants_crdt) (r : set_view * A) (o : outcome (heap * ants_crdt) A) : Prop :=
  match o with
  | Ok (_, st') a => set_ok st' /\ denote st' = r.1 /\ a = r.2
  | Err (_, st') e => set_ok st' /\ denote st' = denote st /\ e = ANTS_ERROR_MALFORMED
  | UB | NoFuel => False
  end.

Definition spec_add (id subj : bytes) (ep : Z) (pf : bytes) (v : set_view) : set_view * bool :=
  if ep <? cut v then
    (mk_set_view (members v) ({[subj]} ∪ gone v) (cut v), negb (bool_decide (subj ∈ gone v)))
  else
    match members v !! id with
    | Some _ => (v, false)
    | None => (mk_set_view (<[id := mk_elem id subj ep (Some pf)]> (members v)) (gone v) (cut v), true)
    end.

Lemma set_ok_retired st r n c z :
  set_ok st -> retired_ok r n c -> set_ok (set_retired_zero z (set_retired r n c st)).
Proof. intros [? ? ? ? ?] Hr. by split. Qed.

Lemma slots_bounds st : set_ok st ->
  exists k, 0 <= k <= 56 /\ cap st = 2 ^ k /\ zlen (slots st) = 2 ^ k /\
    count st = zlen (entries (slots st)) /\ 0 <= count st < 2 ^ 57.
Proof.
  intros [Hs Hl _ _ _]. pose proof (store_cap _ _ _ _ Hs) as Hc. pose proof (store_used _ _ _ _ Hs) as Hu.
  pose proof (store_fits _ _ _ _ Hs) as Hf. unfold sizeof_elem in Hf.
  destruct (table_cap _ (store_table _ _ _ _ Hs)) as (k & Hk & Hz). rewrite Hz in Hc.
  pose proof (zlen_nonneg (entries (slots st))). exists k. rewrite Hc in *.
  assert (k <= 56).
  { destruct (Z.le_gt_cases k 56); [done|].
    assert (2 ^ 57 <= 2 ^ k) by (apply Z.pow_le_mono_r; lia). zlia. }
  split; [lia|]. split; [done|]. split; [done|]. split; [done|]. zlia.
Qed.

Definition grow_post (st : ants_crdt) (o : outcome (heap * ants_crdt) unit) : Prop :=
  match o with
  | Ok (_, st') _ => set_ok st' /\ denote st' = denote st /\ (count st' + 1) * 10 < cap st' * 7
  | Err (_, st') e => st' = st /\ e = ANTS_ERROR_MALFORMED
  | UB | NoFuel => False
  end.

Lemma crdt_grow_spec h st : set_ok st -> grow_post st (crdt_grow (h, st)).
Proof.
  intros Hok. destruct (slots_bounds st Hok) as (k & Hk & Hc & Hz & Hu & Hcount).
  pose proof (ok_load _ Hok) as Hload. pose proof (ok_slots _ Hok) as Hst.
  assert (Hpow : 2 ^ k * 2 = 2 ^ (k + 1)) by (rewrite Z.pow_add_r; lia).
  assert (Hle : 1 <= 2 ^ k <= 2 ^ 56).
  { split; [apply (Z.pow_le_mono_r 2 0); lia|apply Z.pow_le_mono_r; lia]. }
  unfold crdt_grow, bind at 1, get. cbn [snd].
  assert (u64 (cap st * 2) = 2 ^ (k + 1)) as ->.
  { rewrite Hc, Hpow. apply u64_small. unfold is_u64. lia. }
  destruct (alloc_cases (2 ^ (k + 1) * sizeof_elem) h st) as (h' & [[Ha Hfit]|Ha]);
    rewrite (bind_Ok _ _ _ _ _ Ha); cbn [negb]; [|done].
  destruct (rebuild_ok (slots st) empty_elem (k + 1) (h', st)) as (ns & Hm & Hns & Hperm & Hlen);
    [done|apply Hst|apply table_nodup, Hst|lia|lia|].
  rewrite (bind_Ok _ _ _ _ _ Hm). unfold on_set, grow_post. cbn [fst snd].
  assert (Hent : forall id e, (id, e) ∈ entries ns -> (id, e) ∈ entries (slots st)) by (intros; by rewrite <- Hperm).
  split; [|split].
  - split; cbn; [|lia|apply Hok|intros; eapply ok_subjects; eauto|intros; eapply ok_floor; eauto].
    split; [done|by rewrite Hlen| |done]. rewrite (Permutation_zlen _ _ Hperm). apply Hst.
  - unfold denote. cbn. f_equal. apply table_map_perm; [apply Hst|done].
  - cbn. lia.
Qed.

(** Making room before an insertion. *)
Lemma room_spec h st :
  set_ok st ->
  grow_post st ((if u64 (cap st * 7) <=? u64 (size_add (count st) 1 * 10) then crdt_grow else ret tt) (h, st)).
Proof.
  intros Hok. destruct (slots_bounds st Hok) as (k & Hk & Hc & _ & _ & Hcount).
  assert (Hle : 2 ^ k <= 2 ^ 56) by (apply Z.pow_le_mono_r; lia).
  pose proof (Z.pow_nonneg 2 k).
  rewrite size_add_small, (u64_small (_ * 7)), (u64_small (_ * 10)) by (rewrite ?Hc; zlia).
  destruct (Z.leb_spec (cap st * 7) ((count st + 1) * 10)) as [|Hlt]; [by apply crdt_grow_spec|].
  cbn. split; [done|]. split; [done|]. lia.
Qed.

(** The bucket an insertion settles on. *)
Lemma set_probe {S} st id (s : S) :
  set_ok st -> zlen id = 32 ->
  exists i x, lands (slots st) id i x /\
    crdt_probe (slots st) (cap st) id s = Ok s (Z.of_nat (position (slots st) id i), occupied x) /\
    match members (denote st) !! id with
    | Some y => x = y /\ occupied x = true
    | None => slot_key x = None /\ occupied x = false
    end.
Proof.
  intros Hok Hid. pose proof (ok_slots _ Hok) as Hs. pose proof (ok_load _ Hok).
  unfold crdt_probe. rewrite (store_cap _ _ _ _ Hs). apply table_probe; [apply Hs|done|].
  eapply store_room; [done|]. destruct (slots_bounds st Hok) as (k & _ & _ & _ & _ & Hc). lia.
Qed.

Lemma set_ok_store st id subj ep pf i x :
  set_ok st -> zlen id = 32 -> zlen subj = 32 -> floor st <= ep -> (count st + 1) * 10 < cap st * 7 ->
  lands (slots st) id i x -> slot_key x = None ->
  let e := mk_elem id subj ep (Some pf) in
  let st' := set_count (count st + 1) (set_slots (<[position (slots st) id i := e]> (slots st)) (cap st) st) in
  set_ok st' /\ denote st' = mk_set_view (<[id := e]> (members (denote st))) (gone (denote st)) (cut (denote st)).
Proof.
  intros Hok Hid Hsubj Hep Hload Hl Hx e st'. pose proof (ok_slots _ Hok) as Hs.
  set (tab' := <[position (slots st) id i := e]> (slots st)) in *.
  assert (Hkey : slot_key e = Some id) by done.
  assert (Hp : entries tab' ≡ₚ (id, e) :: entries (slots st)) by (eapply entries_insert; [apply Hl|done..]).
  assert (Ht : table_ok tab') by (eapply table_insert; [apply Hs|done|exact Hl|done|done]).
  split.
  - split; cbn; [|lia|apply Hok| |]; fold tab'.
    + split; [done| | |apply Hs].
      * rewrite (store_cap _ _ _ _ Hs). unfold zlen, tab'. by rewrite length_insert.
      * rewrite (Permutation_zlen _ _ Hp), zlen_cons, (store_used _ _ _ _ Hs). lia.
    + intros k y Hin. rewrite Hp in Hin. apply elem_of_cons in Hin as [[= -> ->]|Hin]; [done|].
      by eapply ok_subjects.
    + intros k y Hin. rewrite Hp in Hin. apply elem_of_cons in Hin as [[= -> ->]|Hin]; [done|].
      by eapply ok_floor.
  - unfold denote. cbn. f_equal. by apply table_map_cons.
Qed.

Lemma retired_view_eq st r n c z :
  denote (set_retired_zero z (set_retired r n c st)) =
    mk_set_view (members (denote st)) (retired_subjects (set_retired_zero z (set_retired r n c st))) (cut (denote st)).
Proof. done. Qed.

(** A proof that arrives below the floor only retires its subject. *)
Lemma insert_history_spec h st subj :
  set_ok st -> zlen subj = 32 ->
  op_post st (mk_set_view (members (denote st)) ({[subj]} ∪ gone (denote st)) (cut (denote st)),
              negb (bool_decide (subj ∈ gone (denote st))))
    ((let* has := retired_has st subj in
      if has : bool then ret false
      else retired_reserve 1 ;* let* _ := retired_add subj in ret true) (h, st)).
Proof.
  intros Hok Hs. rewrite (bind_Ok _ _ _ _ _ (retired_has_spec st subj (h, st) (ok_retired _ Hok) Hs)).
  change (gone (denote st)) with (retired_subjects st). case_bool_decide as Hin.
  { split; [done|]. split; [|done]. unfold denote. cbn. f_equal. set_solver. }
  pose proof (retired_reserve_spec h st 1 (ok_retired _ Hok) ltac:(lia)) as Hr.
  unfold bind at 1. destruct (retired_reserve 1 (h, st)) as [[h' st'] [] | [h' st'] e | |]; try done.
  2: { destruct Hr as [-> ->]. by split. }
  destruct Hr as (r & c & -> & Hrok & Hperm & Hroom).
  set (st1 := set_retired r (n_retired st) c st).
  assert (Hsub : retired_subjects st1 = retired_subjects st).
  { unfold retired_subjects. cbn. by rewrite Hperm. }
  destruct (retired_add_spec h' st1 subj Hrok Hs Hroom) as (r' & n' & z & Hadd & Hok' & _ & Hin').
  rewrite (bind_Ok _ _ _ _ _ Hadd). split; [|split; [|done]].
  - by apply set_ok_retired; [destruct Hok; split|].
  - rewrite retired_view_eq, Hin', Hsub. done.
Qed.

Lemma crdt_insert_elem_spec h st id subj ep pf :
  set_ok st -> zlen id = 32 -> zlen subj = 32 ->
  op_post st (spec_add id subj ep pf (denote st)) (crdt_insert_elem id subj ep pf (h, st)).
Proof.
  intros Hok Hid Hs. unfold crdt_insert_elem, spec_add, bind at 1, get. cbn [snd].
  change (cut (denote st)) with (floor st).
  destruct (Z.ltb_spec ep (floor st)) as [|Hep]; [by apply insert_history_spec|].
  pose proof (room_spec h st Hok) as Hg. unfold bind at 1.
  destruct ((if _ <=? _ then crdt_grow else ret tt) (h, st)) as [[h1 st1] [] | [h1 st1] e | |]; try done.
  2: { destruct Hg as [-> ->]. by split. }
  destruct Hg as (Hok1 & Hd & Hload). unfold bind at 1, get. cbn [snd].
  destruct (set_probe st1 id (h1, st1) Hok1 Hid) as (i & x & Hl & Hp & Hx).
  rewrite (bind_Ok _ _ _ _ _ Hp). rewrite Hd in Hx.
  destruct (members (denote st) !! id) as [y|].
  { destruct Hx as [_ ->]. by split. }
  destruct Hx as [Hx ->].
  destruct (alloc_cases (zlen pf) h1 st1) as (h2 & [[Ha _]|Ha]); rewrite (bind_Ok _ _ _ _ _ Ha); cbn [negb].
  2: { by split. }
  rewrite set_at_nat by (apply position_lt; pose proof (proj1 Hl); lia).
  assert (Hfl : floor st1 <= ep) by (change (floor st1) with (cut (denote st1)); by rewrite Hd).
  destruct (set_ok_store st1 id subj ep pf i x Hok1 Hid Hs Hfl Hload Hl Hx) as [Hok2 Hd2].
  unfold bind, deref, on_set, op_post. cbn [fst snd].
  destruct (slots_bounds st1 Hok1) as (k & _ & _ & _ & _ & Hc).
  rewrite size_add_small by zlia. split; [done|]. by rewrite Hd2, Hd.
Qed.

(** ** The specification of the remaining operations *)

Definition subjects_of (m : gmap bytes crdt_elem) : gset bytes := map_to_set (fun _ e => subject e) m.
Definition recent (k : Z) (m : gmap bytes crdt_elem) : gmap bytes crdt_elem :=
  filter (fun p => k <= epoch p.2) m.
Definition older (k : Z) (m : gmap bytes crdt_elem) : gmap bytes crdt_elem :=
  filter (fun p => epoch p.2 < k) m.

(** Members older than [k] become retired subjects and the floor rises. *)
Definition spec_prune (k : Z) (v : set_view) : set_view * Z :=
  (mk_set_view (recent k (members v)) (subjects_of (older k (members v)) ∪ gone v) (Z.max (cut v) k),
   Z.of_nat (size (older k (members v)))).

(** The members of another set join; those below the floor only retire their
    subject. *)
Definition spec_merge (m : gmap bytes crdt_elem) (v : set_view) : set_view :=
  mk_set_view (members v ∪ recent (cut v) m) (subjects_of (older (cut v) m) ∪ gone v) (cut v).

(** A subject is slashed when a member or the index names it. *)
Definition slashed (v : set_view) (s : bytes) : Prop :=
  (exists id e, members v !! id = Some e /\ subject e = s) \/ s ∈ gone v.

Lemma elem_of_subjects m s : s ∈ subjects_of m <-> exists id e, m !! id = Some e /\ subject e = s.
Proof. unfold subjects_of. rewrite elem_of_map_to_set. done. Qed.

Lemma recent_Some k m id e : recent k m !! id = Some e <-> m !! id = Some e /\ k <= epoch e.
Proof. apply map_lookup_filter_Some. Qed.
Lemma older_Some k m id e : older k m !! id = Some e <-> m !! id = Some e /\ epoch e < k.
Proof. apply map_lookup_filter_Some. Qed.

Lemma subjects_insert m id e :
  m !! id = None -> subjects_of (<[id := e]> m) = {[subject e]} ∪ subjects_of m.
Proof.
  intros Hn. apply set_eq. intros s. rewrite elem_of_union, elem_of_singleton, !elem_of_subjects. split.
  - intros (k & x & Hk & <-). apply lookup_insert_Some in Hk as [[_ ->]|[_ Hk]]; [by left|right; eauto].
  - intros [->|(k & x & Hk & <-)]; [exists id, e; by rewrite lookup_insert_eq|].
    exists k, x. rewrite lookup_insert_ne; [done|]. congruence.
Qed.

(** ** Elements of tables *)

Lemma elem_entry (tab : list crdt_elem) id e :
  (id, e) ∈ entries tab <-> e ∈ tab /\ slot_key e = Some id.
Proof.
  rewrite elem_of_entries, list_elem_of_lookup. split.
  - intros (i & Hi & Hk). split; [by exists i|done].
  - intros [[i Hi] Hk]. by exists i.
Qed.

Lemma slot_key_some e id : slot_key e = Some id -> id = content_id e /\ exists pf, proof e = Some pf.
Proof. unfold slot_key, elem_slot. destruct (proof e) as [pf|]; [|done]. intros [= <-]. eauto. Qed.

Lemma elem_eta e pf : proof e = Some pf -> mk_elem (content_id e) (subject e) (epoch e) (Some pf) = e.
Proof. destruct e. cbn. by intros ->. Qed.

Lemma member_entry st id e :
  set_ok st -> members (denote st) !! id = Some e <-> (id, e) ∈ entries (slots st).
Proof.
  intros Hok. cbn [members denote]. rewrite table_map_lookup by apply Hok. by rewrite elem_of_entries.
Qed.

Lemma member_elem st id e :
  set_ok st -> members (denote st) !! id = Some e <-> e ∈ slots st /\ slot_key e = Some id.
Proof. intros Hok. by rewrite member_entry, elem_entry. Qed.

(** ** A new set *)

Lemma ants_crdt_init_spec h :
  match ants_crdt_init (h, tt) with
  | Ok _ st => set_ok st /\ denote st = mk_set_view ∅ ∅ 0
  | Err _ e => e = ANTS_ERROR_MALFORMED
  | UB | NoFuel => False
  end.
Proof.
  unfold ants_crdt_init.
  destruct (alloc_cases sizeof_set h tt) as (h1 & [[Ha _]|Ha]); rewrite (bind_Ok _ _ _ _ _ Ha); cbn [negb]; [|done].
  destruct (alloc_cases (CRDT_INITIAL_CAP * sizeof_elem) h1 tt) as (h2 & [[Hb _]|Hb]);
    rewrite (bind_Ok _ _ _ _ _ Hb); cbn [negb]; [|done].
  unfold ret. clear. change (Z.to_nat CRDT_INITIAL_CAP) with (Z.to_nat (2 ^ 4)).
  assert (Hn : entries (replicate (Z.to_nat (2 ^ 4)) empty_elem) = []) by by apply entries_empty.
  split.
  - split; cbn [slots cap count retired n_retired cap_retired].
    + split; [by apply table_empty|done|by rewrite Hn|done].
    + done.
    + by left.
    + rewrite Hn. intros ? ? Hin. by apply elem_of_nil in Hin.
    + rewrite Hn. intros ? ? Hin. by apply elem_of_nil in Hin.
  - unfold denote, table_map. cbn [slots]. by rewrite Hn.
Qed.

(** ** Queries *)

Lemma ants_crdt_contains_spec {S} st id (s : S) :
  set_ok st -> zlen id = 32 ->
  ants_crdt_contains (Some st) id s = Ok s (bool_decide (is_Some (members (denote st) !! id))).
Proof.
  intros Hok Hid. destruct (set_probe st id s Hok Hid) as (i & x & _ & Hp & Hx).
  unfold ants_crdt_contains. rewrite (bind_Ok _ _ _ _ _ Hp). unfold ret. f_equal.
  destruct (members (denote st) !! id); destruct Hx as [_ ->]; symmetry.
  - by apply bool_decide_true.
  - apply bool_decide_false. by intros [? ?].
Qed.

Lemma is_about_spec st subj :
  set_ok st -> zlen subj = 32 ->
  existsb (is_about subj) (slots st) = true <-> exists id e, members (denote st) !! id = Some e /\ subject e = subj.
Proof.
  intros Hok Hs. rewrite existsb_exists. unfold is_about. split.
  - intros (e & Hin & He). apply list_elem_of_In in Hin. destruct (proof e) as [pf|] eqn:E; [|done].
    assert (Hm : members (denote st) !! content_id e = Some e).
    { apply member_elem; [done|]. split; [done|]. unfold slot_key, elem_slot. by rewrite E. }
    exists (content_id e), e. split; [done|]. apply member_entry in Hm; [|done].
    rewrite memcmp_eq in He by (rewrite Hs; by eapply ok_subjects).
    by apply bool_decide_eq_true in He.
  - intros (id & e & Hm & <-). apply member_elem in Hm as [Hin Hk]; [|done].
    exists e. split; [by apply list_elem_of_In|].
    apply slot_key_some in Hk as (_ & pf & ->). by rewrite memcmp_refl.
Qed.

Lemma ants_crdt_is_slashed_spec {S} st subj (s : S) :
  set_ok st -> zlen subj = 32 ->
  exists b, ants_crdt_is_slashed (Some st) subj s = Ok s b /\ (b = true <-> slashed (denote st) subj).
Proof.
  intros Hok Hs. pose proof (is_about_spec st subj Hok Hs) as Ha.
  unfold ants_crdt_is_slashed, slashed. destruct (existsb (is_about subj) (slots st)).
  - exists true. split; [done|]. split; [|done]. intros _. left. by apply Ha.
  - eexists. split; [by apply retired_has_spec; [apply Hok|]|]. rewrite bool_decide_eq_true.
    split; [by right|]. intros [Hm|]; [|done]. by apply Ha in Hm.
Qed.

Lemma ants_crdt_size_spec st :
  set_ok st -> ants_crdt_size (Some st) = Z.of_nat (size (members (denote st))).
Proof.
  intros Hok. cbn [ants_crdt_size members denote]. unfold table_map.
  rewrite (store_used _ _ _ _ (ok_slots _ Hok)), map_size_list_to_map; [done|].
  apply table_nodup, Hok.
Qed.
