(* ===== verification/CrdtSetOps.v ===== *)
(** * The set of fault proofs: merging and pruning

    Merging inserts the members of another set one by one; pruning moves the
    members below a new floor to the index of retired subjects and rebuilds
    the table.  Both are shown to act on the reading of a set as
    [spec_merge] and [spec_prune] say. *)

From stdpp Require Import gmap.
From S2P Require Import Prelude Cbor CborKv Crypto OpenTable Crdt CrdtSet CrdtSetThms.
Import Crdt CrdtSet.

#[local] Arguments zlen {A} l : simpl never.

(** ** Merging *)

Definition map_of (es : list crdt_elem) : gmap bytes crdt_elem := list_to_map (entries es).

Definition elems_ok (es : list crdt_elem) : Prop :=
  keys_sized es /\ NoDup (entries es).*1 /\ forall id e, (id, e) ∈ entries es -> zlen (subject e) = 32.

Lemma elems_ok_slots st : set_ok st -> elems_ok (slots st).
Proof.
  intros Hok. split; [apply Hok|]. split; [apply table_nodup, Hok|]. intros id e. by apply ok_subjects.
Qed.

Lemma elems_ok_tail e es : elems_ok (e :: es) -> elems_ok es.
Proof.
  intros (Hk & Hn & Hs). split; [intros i x k; apply (Hk (Datatypes.S i))|].
  destruct (slot_key e) as [k|] eqn:E.
  - rewrite (entries_cons_some e k) in * by done. cbn in Hn. apply NoDup_cons in Hn as [_ Hn].
    split; [done|]. intros id x Hin. apply (Hs id). by right.
  - rewrite entries_cons_none in * by done. done.
Qed.

Lemma elems_ok_head e es k pf :
  elems_ok (e :: es) -> slot_key e = Some k -> proof e = Some pf ->
  k = content_id e /\ zlen (content_id e) = 32 /\ zlen (subject e) = 32 /\ map_of es !! content_id e = None.
Proof.
  intros (Hk & Hn & Hs) E Hp. pose proof (slot_key_some _ _ E) as [-> _].
  split; [done|]. split; [by apply (Hk 0%nat e)|].
  rewrite (entries_cons_some e (content_id e)) in * by done. split; [by eapply Hs; left|].
  cbn in Hn. apply NoDup_cons in Hn as [Hn _]. by apply not_elem_of_list_to_map_1.
Qed.

Lemma map_of_none e es : slot_key e = None -> map_of (e :: es) = map_of es.
Proof. intros E. unfold map_of. by rewrite entries_cons_none. Qed.
Lemma map_of_some e es k : slot_key e = Some k -> map_of (e :: es) = <[k := e]> (map_of es).
Proof. intros E. unfold map_of. by rewrite (entries_cons_some e k). Qed.

(** The members that join: those the set does not have. *)
Lemma union_insert (m n : gmap bytes crdt_elem) id (e : crdt_elem) :
  m ∪ <[id := e]> n = (match m !! id with Some _ => m | None => <[id := e]> m end) ∪ n.
Proof.
  apply map_eq. intros k. destruct (decide (k = id)) as [->|Hne].
  - destruct (m !! id) as [x|] eqn:E.
    + by rewrite !(lookup_union_Some_l _ _ _ _ E).
    + rewrite lookup_union_r, lookup_insert_eq by done.
      by rewrite (lookup_union_Some_l _ _ id e) by apply lookup_insert_eq.
  - destruct (m !! id); rewrite !lookup_union, !lookup_insert_ne by done; done.
Qed.

Lemma recent_insert (k : Z) (m : gmap bytes crdt_elem) id (e : crdt_elem) :
  k <= epoch e -> recent k (<[id := e]> m) = <[id := e]> (recent k m).
Proof. intros He. unfold recent. by rewrite map_filter_insert_True. Qed.

Lemma recent_insert_old (k : Z) (m : gmap bytes crdt_elem) id (e : crdt_elem) :
  m !! id = None -> epoch e < k -> recent k (<[id := e]> m) = recent k m.
Proof.
  intros Hn He. unfold recent. apply map_filter_insert_not'; [cbn; lia|]. intros. congruence.
Qed.

Lemma older_insert (k : Z) (m : gmap bytes crdt_elem) id (e : crdt_elem) :
  epoch e < k -> older k (<[id := e]> m) = <[id := e]> (older k m).
Proof. intros He. unfold older. by rewrite map_filter_insert_True. Qed.

Lemma older_insert_recent (k : Z) (m : gmap bytes crdt_elem) id (e : crdt_elem) :
  m !! id = None -> k <= epoch e -> older k (<[id := e]> m) = older k m.
Proof.
  intros Hn He. unfold older. apply map_filter_insert_not'; [cbn; lia|]. intros. congruence.
Qed.

Lemma older_none (k : Z) (m : gmap bytes crdt_elem) id : m !! id = None -> older k m !! id = None.
Proof. intros Hn. apply map_lookup_filter_None. by left. Qed.

(** Inserting a member and then merging the rest is merging both. *)
Lemma spec_merge_step m v e pf :
  proof e = Some pf -> m !! content_id e = None ->
  spec_merge m (spec_add (content_id e) (subject e) (epoch e) pf v).1 = spec_merge (<[content_id e := e]> m) v.
Proof.
  intros Hp Hn. unfold spec_add, spec_merge. rewrite (elem_eta e pf Hp).
  destruct (Z.ltb_spec (epoch e) (cut v)) as [Hlt|Hge]; cbn [fst members gone cut].
  - rewrite recent_insert_old, older_insert, subjects_insert by (done || by apply older_none).
    f_equal. set_solver.
  - rewrite recent_insert, older_insert_recent, union_insert by done.
    destruct (members v !! content_id e); done.
Qed.

(** A merge the allocator interrupts has merged a prefix. *)
Definition merge_post (st : ants_crdt) (es : list crdt_elem) (o : outcome (heap * ants_crdt) unit) : Prop :=
  match o with
  | Ok (_, st') _ => set_ok st' /\ denote st' = spec_merge (map_of es) (denote st)
  | Err (_, st') e => set_ok st' /\ e = ANTS_ERROR_MALFORMED /\
      exists es1 es2, es = es1 ++ es2 /\ denote st' = spec_merge (map_of es1) (denote st)
  | UB | NoFuel => False
  end.

Lemma spec_merge_empty v : spec_merge ∅ v = v.
Proof.
  destruct v as [m g c]. unfold spec_merge, recent, older, subjects_of. cbn.
  rewrite !map_filter_empty, map_union_empty, map_to_set_empty. f_equal. set_solver.
Qed.

Lemma merge_loop_spec es : forall h st,
  set_ok st -> elems_ok es -> merge_post st es (merge_loop es (h, st)).
Proof.
  induction es as [|e es IH]; intros h st Hok Hes; cbn [merge_loop].
  { split; [done|]. by rewrite spec_merge_empty. }
  pose proof (elems_ok_tail _ _ Hes) as Htl.
  destruct (proof e) as [pf|] eqn:Hp.
  2: { assert (Hk : slot_key e = None) by (unfold slot_key, elem_slot; by rewrite Hp).
    specialize (IH h st Hok Htl). unfold merge_post in *. rewrite (map_of_none e es Hk).
    destruct (merge_loop es (h, st)) as [[h' st'] []|[h' st'] er| |]; try done.
    destruct IH as (? & ? & es1 & es2 & -> & Hd). split; [done|]. split; [done|].
    exists (e :: es1), es2. by rewrite map_of_none. }
  assert (Hk : slot_key e = Some (content_id e)) by (unfold slot_key, elem_slot; by rewrite Hp).
  destruct (elems_ok_head _ _ _ _ Hes Hk Hp) as (_ & Hid & Hs & Hn).
  pose proof (crdt_insert_elem_spec h st (content_id e) (subject e) (epoch e) pf Hok Hid Hs) as Hi.
  unfold bind. destruct (crdt_insert_elem _ _ _ _ (h, st)) as [[h1 st1] b|[h1 st1] er| |]; try done.
  2: { destruct Hi as (Hok1 & Hd & ->). split; [done|]. split; [done|].
    exists [], (e :: es). split; [done|]. change (map_of []) with (∅ : gmap bytes crdt_elem).
    by rewrite spec_merge_empty. }
  destruct Hi as (Hok1 & Hd & _). specialize (IH h1 st1 Hok1 Htl). unfold merge_post in *.
  rewrite (map_of_some e es _ Hk).
  destruct (merge_loop es (h1, st1)) as [[h' st'] []|[h' st'] er| |]; try done.
  - destruct IH as [Hok' ->]. split; [done|]. rewrite Hd. by apply spec_merge_step.
  - destruct IH as (Hok' & -> & es1 & es2 & -> & ->). split; [done|]. split; [done|].
    exists (e :: es1), es2. split; [done|]. rewrite Hd, (map_of_some e es1 _ Hk).
    apply spec_merge_step; [done|].
    unfold map_of in *. rewrite entries_app in Hn. apply not_elem_of_list_to_map_2 in Hn.
    apply not_elem_of_list_to_map_1. rewrite fmap_app in Hn. set_solver.
Qed.

(** ** Pruning *)

(** The members a prune to epoch [k] keeps and drops, in table order. *)
Definition kept (k : Z) (es : list crdt_elem) : list crdt_elem := List.filter (survives k) es.
Definition expired (k : Z) (e : crdt_elem) : bool :=
  match proof e with Some _ => epoch e <? k | None => false end.
Definition dropped (k : Z) (es : list crdt_elem) : list crdt_elem := List.filter (expired k) es.

Lemma cap_for_loop_spec n fuel : forall k,
  4 <= k <= 60 -> 60 - k <= Z.of_nat fuel -> 0 <= n < 2 ^ 57 ->
  exists k', k <= k' <= 60 /\ cap_for_loop fuel n (2 ^ k) = Some (2 ^ k') /\ n * 10 < 2 ^ k' * 7.
Proof.
  induction fuel as [|f IH]; intros k Hk Hf Hn; cbn [cap_for_loop].
  all: assert (Hp : 2 ^ 4 <= 2 ^ k <= 2 ^ 60) by (split; apply Z.pow_le_mono_r; lia).
  all: rewrite (u64_small (_ * 7)), (u64_small (n * 10)) by (unfold is_u64; lia).
  all: destruct (Z.leb_spec (2 ^ k * 7) (n * 10)) as [Hle|]; [|by exists k; split; [lia|]].
  { replace k with 60 in Hle by lia. lia. }
  assert (k <> 60) by (intros ->; lia).
  assert (H2 : 2 ^ k * 2 = 2 ^ (k + 1)) by (rewrite Z.pow_add_r; lia).
  rewrite H2, u64_small by (rewrite <- H2; unfold is_u64; lia).
  destruct (IH (k + 1)) as (k' & Hk' & Hc & Hl); [lia..|]. exists k'. split; [lia|done].
Qed.

(** The capacity chosen is a power of two with room for the survivors. *)
Lemma crdt_cap_for_spec {S} n (s : S) :
  0 <= n < 2 ^ 57 -> exists k, 4 <= k <= 60 /\ crdt_cap_for n s = Ok s (2 ^ k) /\ n * 10 < 2 ^ k * 7.
Proof.
  intros Hn. destruct (cap_for_loop_spec n 64 4) as (k & Hk & Hc & Hl); [lia..|].
  exists k. unfold crdt_cap_for. change CRDT_INITIAL_CAP with (2 ^ 4). by rewrite Hc.
Qed.

Lemma elem_filter (f : crdt_elem -> bool) es id e :
  (id, e) ∈ entries (List.filter f es) <-> (id, e) ∈ entries es /\ f e = true.
Proof.
  rewrite !elem_entry, !list_elem_of_In, filter_In. tauto.
Qed.

Lemma elems_ok_filter f es : elems_ok es -> elems_ok (List.filter f es).
Proof.
  intros (Hk & Hn & Hs). split; [|split].
  - intros i x key Hi Hx. apply list_elem_of_lookup_2, list_elem_of_In, filter_In in Hi as [Hi _].
    apply list_elem_of_In, list_elem_of_lookup in Hi as [j Hj]. by eapply Hk.
  - clear Hk Hs. induction es as [|e es IH]; [constructor|]. cbn [List.filter].
    destruct (slot_key e) as [k|] eqn:E.
    + rewrite (entries_cons_some e k) in Hn by done. cbn in Hn. apply NoDup_cons in Hn as [Hni Hn].
      destruct (f e); [|by apply IH]. rewrite (entries_cons_some e k) by done. cbn. constructor; [|by apply IH].
      intros Hin. apply Hni. apply list_elem_of_fmap in Hin as ([k' x] & -> & Hin).
      apply elem_filter in Hin as [Hin _]. apply list_elem_of_fmap. by exists (k', x).
    + rewrite entries_cons_none in Hn by done. destruct (f e); [rewrite entries_cons_none by done|]; by apply IH.
  - intros id e Hin. apply elem_filter in Hin as [Hin _]. by eapply Hs.
Qed.

Lemma map_of_lookup es id e : elems_ok es -> map_of es !! id = Some e <-> (id, e) ∈ entries es.
Proof. intros (_ & Hn & _). symmetry. by apply elem_of_list_to_map. Qed.

Lemma map_of_size es : elems_ok es -> Z.of_nat (size (map_of es)) = zlen (entries es).
Proof. intros (_ & Hn & _). unfold map_of. by rewrite map_size_list_to_map. Qed.

Lemma map_of_kept k es : elems_ok es -> map_of (kept k es) = recent k (map_of es).
Proof.
  intros Hok. apply map_eq. intros id. apply option_eq. intros e.
  rewrite recent_Some, !map_of_lookup by (done || by apply elems_ok_filter).
  unfold kept. rewrite elem_filter. split; intros [Hin Hf]; (split; [done|]);
    apply elem_entry in Hin as [_ (_ & pf & Hp)%slot_key_some]; unfold survives in *; rewrite Hp in *; lia.
Qed.

Lemma map_of_dropped k es : elems_ok es -> map_of (dropped k es) = older k (map_of es).
Proof.
  intros Hok. apply map_eq. intros id. apply option_eq. intros e.
  rewrite older_Some, !map_of_lookup by (done || by apply elems_ok_filter).
  unfold dropped. rewrite elem_filter. split; intros [Hin Hf]; (split; [done|]);
    apply elem_entry in Hin as [_ (_ & pf & Hp)%slot_key_some]; unfold expired in *; rewrite Hp in *; lia.
Qed.

Lemma kept_dropped_length k es : zlen (entries es) = zlen (kept k es) + zlen (dropped k es).
Proof.
  induction es as [|e es IH]; [done|]. unfold kept, dropped in *. cbn [List.filter].
  unfold survives at 1, expired at 1. destruct (proof e) as [pf|] eqn:Hp.
  - rewrite (entries_cons_some e (content_id e)), zlen_cons by (unfold slot_key, elem_slot; by rewrite Hp).
    destruct (Z.leb_spec k (epoch e)), (Z.ltb_spec (epoch e) k); try lia; rewrite zlen_cons; lia.
  - by rewrite entries_cons_none by (unfold slot_key, elem_slot; by rewrite Hp).
Qed.

Lemma entries_filter f es :
  (forall e, f e = true -> slot_key e <> None) -> zlen (entries (List.filter f es)) = zlen (List.filter f es).
Proof.
  intros Hf. induction es as [|e es IH]; [done|]. cbn [List.filter]. destruct (f e) eqn:E; [|done].
  apply Hf in E. destruct (slot_key e) as [id|] eqn:Hk; [|done].
  rewrite (entries_cons_some e id), !zlen_cons by done. lia.
Qed.

Lemma survives_key k e : survives k e = true -> slot_key e <> None.
Proof. unfold survives, slot_key, elem_slot. by destruct (proof e). Qed.
Lemma expired_key k e : expired k e = true -> slot_key e <> None.
Proof. unfold expired, slot_key, elem_slot. by destruct (proof e). Qed.

Lemma dropped_cases k e es :
  dropped k (e :: es) =
    match proof e with Some _ => if k <=? epoch e then dropped k es else e :: dropped k es | None => dropped k es end.
Proof.
  unfold dropped. cbn [List.filter]. unfold expired at 1. destruct (proof e); [|done].
  rewrite Z.ltb_antisym. by destruct (k <=? epoch e).
Qed.

Lemma kept_cases k e es :
  kept k (e :: es) =
    match proof e with Some _ => if k <=? epoch e then e :: kept k es else kept k es | None => kept k es end.
Proof.
  unfold kept. cbn [List.filter]. unfold survives at 1. destruct (proof e); [|done]. by destruct (k <=? epoch e).
Qed.

(** The rebuilding loop, given room for the survivors and for the subjects it
    retires. *)
Definition retiring (st st' : ants_crdt) : Prop :=
  exists r n c z, st' = set_retired_zero z (set_retired r n c st) /\ retired_ok r n c.

Definition prune_post (h : heap) (st : ants_crdt) (k : Z) (es ns : list crdt_elem) (p : Z)
  (o : outcome (heap * ants_crdt) (list crdt_elem * Z)) : Prop :=
  match o with
  | Ok (h', st') (ns', p') => h' = h /\ retiring st st' /\
      retired_subjects st' = subjects_of (map_of (dropped k es)) ∪ retired_subjects st /\
      table_ok ns' /\ entries ns' ≡ₚ entries (kept k es) ++ entries ns /\ length ns' = length ns /\
      p' = p + zlen (dropped k es)
  | _ => False
  end.

Lemma retiring_trans st st1 st2 : retiring st st1 -> retiring st1 st2 -> retiring st st2.
Proof. intros (r & n & c & z & -> & _) (r' & n' & c' & z' & -> & Hr). by exists r', n', c', z'. Qed.

Lemma retiring_refl st :
  retired_ok (retired st) (n_retired st) (cap_retired st) -> retiring st st.
Proof. intros Hr. exists (retired st), (n_retired st), (cap_retired st), (retired_zero st). by destruct st. Qed.

Lemma prune_loop_spec k es : forall h st ns p,
  retired_ok (retired st) (n_retired st) (cap_retired st) -> elems_ok es ->
  (n_retired st + zlen (dropped k es)) * 2 <= cap_retired st ->
  table_ok ns -> NoDup ((entries (kept k es)).*1 ++ (entries ns).*1) ->
  (length (kept k es) + length (entries ns) < length ns)%nat ->
  0 <= p -> p + zlen (dropped k es) <= SIZE_MAX ->
  prune_post h st k es ns p (prune_loop k (zlen ns) es ns p (h, st)).
Proof.
  induction es as [|e es IH]; intros h st ns p Hr Hes Hroom Hns Hnd Hlen Hp0 Hp; cbn [prune_loop].
  { split; [done|]. split; [by apply retiring_refl|]. change (subjects_of (map_of (dropped k []))) with (∅ : gset bytes).
    split; [set_solver|]. split; [done|]. split; [done|]. split; [done|].
    change (zlen (dropped k [])) with 0. lia. }
  pose proof (elems_ok_tail _ _ Hes) as Htl.
  assert (Hdr := dropped_cases k e es). assert (Hkp := kept_cases k e es).
  destruct (proof e) as [pf|] eqn:Hpf; [|rewrite Hdr, Hkp in *; unfold prune_post; rewrite Hdr, Hkp; by apply IH].
  assert (Hk : slot_key e = Some (content_id e)) by (unfold slot_key, elem_slot; by rewrite Hpf).
  destruct (elems_ok_head _ _ _ _ Hes Hk Hpf) as (_ & Hid & Hs & Hn).
  destruct (Z.leb_spec k (epoch e)) as [Hge|Hlt].
  - rewrite Hdr in *. rewrite Hkp in *. rewrite (entries_cons_some e (content_id e)) in Hnd by done.
    cbn [fmap list_fmap app fst length] in *. apply NoDup_cons in Hnd as [Hni Hnd].
    destruct (table_put_ok ns (content_id e) e (h, st) Hns Hid Hk) as (ns1 & Hput & Hok1 & Hperm & Hlen1).
    { apply not_elem_of_list_to_map_1. intros Hin. apply Hni, elem_of_app. by right. }
    { lia. }
    rewrite (bind_Ok _ _ _ _ _ Hput). replace (zlen ns) with (zlen ns1) by (unfold zlen; by rewrite Hlen1).
    specialize (IH h st ns1 p Hr Htl Hroom Hok1). unfold prune_post in *. rewrite Hdr, Hkp.
    destruct (prune_loop _ _ _ _ _ _) as [[h' st'] [ns' p']|[h' st'] er| |].
    2-4: apply IH; [|rewrite Hperm; cbn [length]; lia|lia|lia]; rewrite Hperm; cbn [fmap list_fmap fst];
      rewrite <- Permutation_middle; by constructor.
    destruct IH as (-> & Hret & Hsub & Hok' & Hp' & Hl' & ->).
    + rewrite Hperm. cbn [fmap list_fmap fst]. rewrite <- Permutation_middle. by constructor.
    + rewrite Hperm. cbn [length]. lia.
    + lia.
    + lia.
    + split; [done|]. split; [done|]. split; [done|]. split; [done|]. split; [|split; [lia|done]].
      rewrite Hp', Hperm, (entries_cons_some e (content_id e)) by done. cbn [app].
      by rewrite Permutation_middle.
  - rewrite Hdr in *. rewrite Hkp in *. rewrite zlen_cons in *. pose proof (zlen_nonneg (dropped k es)).
    destruct (retired_add_spec h st (subject e) Hr Hs) as (r & n & z & Hadd & Hr1 & Hn1 & Hin1); [lia|].
    rewrite (bind_Ok _ _ _ _ _ Hadd). rewrite size_add_small by zlia.
    set (st1 := set_retired_zero z (set_retired r n (cap_retired st) st)) in *.
    assert (H01 : retiring st st1) by (by exists r, n, (cap_retired st), z).
    specialize (IH h st1 ns (p + 1) Hr1 Htl). change (cap_retired st1) with (cap_retired st) in IH.
    change (n_retired st1) with n in IH. unfold prune_post in *. rewrite Hdr, Hkp.
    destruct (prune_loop _ _ _ _ _ _) as [[h' st'] [ns' p']|[h' st'] er| |].
    2-4: apply IH; (done || lia).
    destruct IH as (-> & Hret & Hsub & Hok' & Hp' & Hl' & ->); [lia|done|done|done|lia|lia|].
    split; [done|]. split; [exact (retiring_trans _ _ _ H01 Hret)|]. split; [|split; [done|split; [done|split; [done|rewrite zlen_cons; lia]]]].
    rewrite Hsub, Hin1, (map_of_some e _ _ Hk), subjects_insert; [set_solver|].
    rewrite map_of_dropped by done. by apply older_none.
Qed.

Lemma prune_loop_fresh k es h st j :
  retired_ok (retired st) (n_retired st) (cap_retired st) -> elems_ok es ->
  (n_retired st + zlen (dropped k es)) * 2 <= cap_retired st -> zlen (dropped k es) <= SIZE_MAX ->
  4 <= j <= 60 -> zlen (kept k es) * 10 < 2 ^ j * 7 ->
  let ns := replicate (Z.to_nat (2 ^ j)) empty_elem in
  prune_post h st k es ns 0 (prune_loop k (2 ^ j) es ns 0 (h, st)) /\ zlen ns = 2 ^ j /\ entries ns = [].
Proof.
  intros Hr Hes Hroom Hsz Hj Hload ns.
  assert (Hz : zlen ns = 2 ^ j) by (apply zlen_fresh; lia).
  assert (Hnil : entries ns = []) by by apply entries_empty.
  split; [|done]. rewrite <- Hz. apply prune_loop_spec; try done; try lia.
  - apply table_empty; [lia|done].
  - rewrite Hnil, app_nil_r. by apply elems_ok_filter.
  - rewrite Hnil. cbn [length]. unfold zlen in *. lia.
Qed.

Lemma count_split k st :
  set_ok st -> count st = zlen (kept k (slots st)) + zlen (dropped k (slots st)).
Proof.
  intros Hok. rewrite (store_used _ _ _ _ (ok_slots _ Hok)). apply kept_dropped_length.
Qed.

Lemma floor_update s k :
  (if floor s <? k then set_floor k s else s) = set_floor (Z.max (floor s) k) s.
Proof.
  destruct s as [sl c n f r nr cr z]. cbn [floor]. destruct (Z.ltb_spec f k) as [Hlt|Hge].
  - by rewrite Z.max_r by lia.
  - by rewrite Z.max_l by lia.
Qed.

(** The set a prune leaves. *)
Lemma pruned_ok k st st' ns j :
  set_ok st -> retiring st st' -> 4 <= j <= 60 -> 2 ^ j * sizeof_elem <= INT64_MAX ->
  zlen (kept k (slots st)) * 10 < 2 ^ j * 7 ->
  retired_subjects st' = subjects_of (map_of (dropped k (slots st))) ∪ retired_subjects st ->
  table_ok ns -> entries ns ≡ₚ entries (kept k (slots st)) -> zlen ns = 2 ^ j ->
  let st2 := set_floor (Z.max (floor st') k) (set_count (zlen (kept k (slots st))) (set_slots ns (2 ^ j) st')) in
  set_ok st2 /\ denote st2 = (spec_prune k (denote st)).1.
Proof.
  intros Hok (r & n & c & z & -> & Hr) Hj Hfit Hload Hsub Hns Hperm Hz st2.
  assert (Hes := elems_ok_slots st Hok).
  assert (Hent : forall id e, (id, e) ∈ entries ns -> (id, e) ∈ entries (slots st) /\ k <= epoch e).
  { intros id e Hin. rewrite Hperm in Hin. apply elem_filter in Hin as [Hin Hf]. split; [done|].
    unfold survives in Hf. destruct (proof e); [lia|done]. }
  split.
  - split; cbn; [|lia|done| |].
    + split; [done|done| |done]. rewrite (Permutation_zlen _ _ Hperm). unfold kept. by rewrite (entries_filter _ _ (survives_key k)).
    + intros id e [Hin _]%Hent. by eapply ok_subjects.
    + intros id e [Hin Hk]%Hent. pose proof (ok_floor _ Hok _ _ Hin). lia.
  - unfold denote, spec_prune. cbn [fst]. f_equal.
    + transitivity (map_of (kept k (slots st))); [|by apply map_of_kept].
      apply list_to_map_proper; [by apply table_nodup|done].
    + rewrite map_of_dropped in Hsub by done. exact Hsub.
Qed.

Lemma ants_crdt_prune_spec h st k :
  set_ok st -> op_post st (spec_prune k (denote st)) (ants_crdt_prune k (h, st)).
Proof.
  intros Hok. destruct (slots_bounds st Hok) as (_ & _ & _ & _ & _ & Hcount).
  pose proof (count_split k st Hok) as Hsplit. pose proof (elems_ok_slots st Hok) as Hes.
  pose proof (zlen_nonneg (kept k (slots st))). pose proof (zlen_nonneg (dropped k (slots st))).
  unfold ants_crdt_prune, bind at 1, get. cbn [snd]. fold (kept k (slots st)).
  destruct (crdt_cap_for_spec (zlen (kept k (slots st))) (h, st)) as (j & Hj & Hc & Hload); [lia|].
  rewrite (bind_Ok _ _ _ _ _ Hc).
  destruct (alloc_cases (2 ^ j * sizeof_elem) h st) as (h1 & [[Ha Hfit]|Ha]); rewrite (bind_Ok _ _ _ _ _ Ha);
    cbn [negb]; [|done].
  rewrite size_sub_small by zlia. rewrite Hsplit.
  replace (_ + zlen (dropped k (slots st)) - _) with (zlen (dropped k (slots st))) by lia.
  pose proof (retired_reserve_spec h1 st (zlen (dropped k (slots st))) (ok_retired _ Hok) ltac:(lia)) as Hr.
  unfold bind at 1, map_err. destruct (retired_reserve _ (h1, st)) as [[h2 st2] []|[h2 st2] e| |]; try done.
  2: { by destruct Hr as [-> _]. }
  destruct Hr as (r & c & -> & Hrok & Hperm & Hroom).
  set (st2 := set_retired r (n_retired st) c st).
  assert (Hsub : retired_subjects st2 = retired_subjects st).
  { unfold retired_subjects. cbn. by rewrite Hperm. }
  destruct (prune_loop_fresh k (slots st) h2 st2 j Hrok Hes Hroom ltac:(zlia) Hj Hload) as (Hp & Hz & Hnil).
  set (ns := replicate (Z.to_nat (2 ^ j)) empty_elem) in *. unfold bind.
  destruct (prune_loop _ _ _ _ _ _) as [[h3 st3] [ns' p']|[h3 st3] e| |]; try done.
  destruct Hp as (-> & Hret & Hsub' & Hok' & Hp' & Hl' & ->).
  rewrite Hnil, app_nil_r in Hp'. rewrite Hsub in Hsub'. unfold on_set. cbn [fst snd]. rewrite floor_update.
  cbn [floor]. destruct (pruned_ok k st st3 ns' j) as [Hfin Hden]; try done.
  { unfold zlen in *. by rewrite Hl'. }
  replace (floor st3) with (floor (set_count (zlen (kept k (slots st))) (set_slots ns' (2 ^ j) st3))) in Hfin, Hden by done.
  split; [done|]. split; [done|]. cbn [spec_prune snd].
  change (older k (members (denote st))) with (older k (map_of (slots st))).
  rewrite <- map_of_dropped, map_of_size by (done || by apply elems_ok_filter).
  unfold dropped. by rewrite (entries_filter _ _ (expired_key k)).
Qed.
