(* ===== verification/CrdtReach.v ===== *)
(** * The set of fault proofs: what a life of the set guarantees

    Insertion, snapshots and every sequence of operations: only proofs that
    verify enter a set, nobody is slashed without one, and a slashed subject
    stays slashed through merges, prunes and refused allocations.

    Then: any number of sets that exchange proofs. *)

From stdpp Require Import gmap.
From S2P Require Import Prelude Cbor CborSpec CborTrack CborEnc CborDec CborCanon CborContract CborKv.
From S2P Require Import CborRecord CborParse Crypto OpenTable Merkle Crdt CrdtParse CrdtVerify CrdtSet.
From S2P Require Import CrdtSetThms CrdtSetOps.
Import Crdt CrdtSet.

#[local] Arguments zlen {A} l : simpl never.

(** A byte string an argument can hold. *)
Definition octets (b : bytes) : Prop := bytes_ok b /\ zlen b <= INT64_MAX.

Lemma pure_call_decides {S A} E (m : action unit A) P (s : S) :
  decides E m P ->
  match pure_call m s with
  | Ok s' a => s' = s /\ P a
  | Err s' e => s' = s /\ E e /\ forall a, ~ P a
  | UB | NoFuel => False
  end.
Proof. intros Hm. specialize (Hm tt). unfold pure_call. destruct (m tt); try done. by split; [|apply Hm]. Qed.

Section sets.
Context `{B : Blake3} {Laws : Blake3Laws B} `{Ed : Ed25519}.

(** ** Insertion *)

(** [b] is a proof that verifies, of the view [v]. *)
Definition accepted (b : bytes) (v : ants_fault_proof_view_t) : Prop :=
  octets b /\ valid_proof b /\ is_envelope b v.

Definition spec_insert (b : bytes) (w : ants_fault_proof_view_t) (v : set_view) : set_view * bool :=
  spec_add (digest b) (v_subject w) (v_epoch w) b v.

Definition insert_post (st : ants_crdt) (b : bytes) (o : outcome (heap * ants_crdt) bool) : Prop :=
  match o with
  | Ok (_, st') ins => exists w, accepted b w /\ set_ok st' /\
      (denote st', ins) = spec_insert b w (denote st)
  | Err (_, st') e => set_ok st' /\ denote st' = denote st /\ (valid_proof b -> e = ANTS_ERROR_MALFORMED)
  | UB | NoFuel => False
  end.

Lemma valid_envelope buf : valid_proof buf -> exists v, is_envelope buf v.
Proof.
  intros [(s & ep & ev & Hd & Hs & _)|(s & ep & ev & Hd & Hs & _)];
    eexists (mk_view s _ ep (encode ev)), ev; by split.
Qed.

Lemma envelope_subject b v : is_envelope b v -> zlen (v_subject v) = 32.
Proof. by intros (ev & _ & Hs & _). Qed.

Lemma ants_crdt_insert_spec h st b :
  set_ok st -> octets b -> insert_post st b (ants_crdt_insert (Some b) (h, st)).
Proof.
  intros Hok [Hb Hz]. unfold ants_crdt_insert. destruct (Z.eqb_spec (zlen b) 0) as [E|E].
  { split; [done|]. split; [done|]. intros [w (ev & Hd & _)]%valid_envelope. apply document_ne in Hd. lia. }
  pose proof (pure_call_decides _ _ _ (h, st) (verify_decides b Hb Hz)) as Hv. unfold bind at 1.
  destruct (pure_call (ants_crdt_verify (Some b)) (h, st)) as [[h' st'] []|[h' st'] e| |]; try done.
  2: { destruct Hv as ([= -> ->] & _ & Hn). split; [done|]. split; [done|]. intros Hvp. by destruct (Hn tt). }
  destruct Hv as [[= -> ->] Hvp].
  pose proof (pure_call_decides _ _ _ (h, st) (decode_view_decides b Hb Hz)) as Hd. unfold bind at 1.
  destruct (pure_call (decode_view (Some b)) (h, st)) as [[h' st'] w|[h' st'] e| |]; try done.
  2: { destruct (valid_envelope b Hvp) as [w Hw]. destruct Hd as (_ & _ & Hn). by destruct (Hn w). }
  destruct Hd as [[= -> ->] Hw]. apply nonempty_zlen in E.
  unfold bind, pure_call. rewrite content_id_digest by done.
  pose proof (crdt_insert_elem_spec h st (digest b) (v_subject w) (v_epoch w) b Hok (digest_size b) (envelope_subject b w Hw)) as Hi.
  unfold op_post, insert_post in *. destruct (crdt_insert_elem _ _ _ _ _) as [[h' st'] ins|[h' st'] e| |]; try done.
  - destruct Hi as (Hok' & Hden & ->). exists w. split; [done|]. split; [done|]. unfold spec_insert.
    rewrite Hden. symmetry. apply surjective_pairing.
  - destruct Hi as (? & ? & ?). by split_and!.
Qed.

(** ** Snapshots *)

(** A sequence of candidate proofs is taken in order: those that verify are
    inserted ([a] of them are news), the others are counted ([r]). *)
Inductive absorbs : list bytes -> set_view -> set_view -> Z -> Z -> Prop :=
| absorb_nil v : absorbs [] v v 0 0
| absorb_valid b w ps v v' a r :
    accepted b w -> absorbs ps (spec_insert b w v).1 v' a r ->
    absorbs (b :: ps) v v' (a + (if (spec_insert b w v).2 then 1 else 0)) r
| absorb_invalid b ps v v' a r :
    ~ valid_proof b -> absorbs ps v v' a r -> absorbs (b :: ps) v v' a (r + 1).

(** A merge that stops early has absorbed the candidates before it. *)
Definition snapshot_post {D} (st : ants_crdt) (o : outcome (D * (heap * ants_crdt)) (Z * Z)) (a0 r0 : Z)
  (Q : D -> list bytes -> Prop) : Prop :=
  match o with
  | Ok (d, (_, st')) (a, r) => exists ps, Q d ps /\ set_ok st' /\
      absorbs ps (denote st) (denote st') (a - a0) (r - r0)
  | Err (_, (_, st')) e => set_ok st' /\ e = ANTS_ERROR_MALFORMED /\
      exists ps a r, absorbs ps (denote st) (denote st') a r
  | UB | NoFuel => False
  end.

Lemma absorbs_counts ps v v' a r : absorbs ps v v' a r -> 0 <= a /\ 0 <= r /\ a + r <= zlen ps.
Proof.
  induction 1; rewrite ?zlen_cons; [done|destruct (spec_insert b w v).2|]; lia.
Qed.

(** One candidate of a snapshot. *)
Lemma candidate_read {C} (k : bytes -> action (ants_cbor_dec_t * (heap * ants_crdt)) C) st :
  (let* ty := on_fst (malformed ants_cbor_dec_peek_type) in
   if negb (bool_decide (ty = ANTS_CBOR_TYPE_BYTES)) then fail ANTS_ERROR_MALFORMED
   else let* p := on_fst (malformed ants_cbor_dec_bytes) in k p) st =
  (let* p := on_fst dec_bytes_val in k p) st.
Proof.
  unfold dec_bytes_val, on_fst, bind. destruct (malformed ants_cbor_dec_peek_type st.1) as [d ty|d e| |]; try done.
  by destruct (negb (bool_decide (ty = ANTS_CBOR_TYPE_BYTES))).
Qed.

Lemma snapshot_post_step {D} p st st1 x y a0 r0 (o : outcome (D * (heap * ants_crdt)) (Z * Z))
  (Q Q' : D -> list bytes -> Prop) :
  (forall ps v' a r, absorbs ps (denote st1) v' a r -> absorbs (p :: ps) (denote st) v' (a + x) (r + y)) ->
  (forall d ps, Q' d ps -> Q d (p :: ps)) ->
  snapshot_post st1 o (a0 + x) (r0 + y) Q' -> snapshot_post st o a0 r0 Q.
Proof.
  intros Habs HQ Ho. unfold snapshot_post in *. destruct o as [[d [h' st']] [a r]|[d [h' st']] e| |]; try done.
  - destruct Ho as (ps & Hq & Hok & Hab). exists (p :: ps). split; [auto|]. split; [done|].
    apply Habs in Hab. by replace (a - a0) with (a - (a0 + x) + x) by lia; replace (r - r0) with (r - (r0 + y) + y) by lia.
  - destruct Ho as (Hok & -> & ps & a & r & Hab). split; [done|]. split; [done|].
    exists (p :: ps), (a + x), (r + y). auto.
Qed.

Lemma snapshot_loop_spec n fuel : forall i d items h st added rejected,
  at_ d items -> Forall readable items -> set_ok st -> 0 <= i <= n -> n - i <= Z.of_nat fuel ->
  0 <= added -> 0 <= rejected -> added + rejected + (n - i) <= SIZE_MAX ->
  snapshot_post st (snapshot_loop fuel i n added rejected (d, (h, st))) added rejected
    (fun d' ps => exists rest, items = map CBytes ps ++ rest /\ zlen ps = n - i /\ at_ d' rest).
Proof.
  induction fuel as [|fuel IH]; intros i d items h st added rejected Hat Hrd Hok Hi Hf Ha Hr Hmax;
    cbn [snapshot_loop].
  all: destruct (Z.leb_spec n i) as [Hle|Hgt].
  1,3: exists []; split; [by exists items; split; [|split; [unfold zlen; cbn; lia|]]|split; [done|rewrite !Z.sub_diag; constructor]].
  { lia. }
  rewrite candidate_read. unfold bind at 1, on_fst at 1. cbn [fst snd].
  pose proof (parses_bytes_val d items Hat) as Hp.
  destruct (p_bytes items) as [[p items']|] eqn:Epb.
  2: { destruct Hp as (d' & e & -> & ->). split; [done|]. split; [done|]. exists [], 0, 0. constructor. }
  destruct Hp as (d' & -> & Hat'). destruct items as [|c items]; [done|]. destruct c as [| |p1| | | | | |]; try done.
  injection Epb as -> ->. apply Forall_cons in Hrd as [Hrp Hrd]. apply readable_bytes in Hrp as Hoct.
  pose proof (verify_decides p (proj1 Hoct) (proj2 Hoct) tt) as Hv.
  assert (Hq : forall d ps,
    (exists rest, items' = map CBytes ps ++ rest /\ zlen ps = n - (i + 1) /\ at_ d rest) ->
    exists rest, CBytes p :: items' = map CBytes (p :: ps) ++ rest /\ zlen (p :: ps) = n - i /\ at_ d rest).
  { intros d1 ps (rest & -> & Hl & Hr1). exists rest. rewrite zlen_cons. split; [done|]. split; [lia|done]. }
  destruct (ants_crdt_verify (Some p) tt) as [? []|? e| |]; try done.
  - pose proof (ants_crdt_insert_spec h st p Hok Hoct) as Hins. unfold bind, on_snd. cbn [fst snd].
    destruct (ants_crdt_insert (Some p) (h, st)) as [[h1 st1] ins|[h1 st1] e| |]; try done.
    + destruct Hins as (w & Hw & Hok1 & Heq).
      eapply (snapshot_post_step p st st1 (if ins then 1 else 0) 0); [| |rewrite Z.add_0_r].
      * intros ps v' a r Hab. rewrite Z.add_0_r. pose proof (absorb_valid p w ps (denote st) v' a r Hw) as Hv1.
        rewrite <- Heq in Hv1. by apply Hv1.
      * apply Hq.
      * replace (added + _) with (if ins then size_add added 1 else added)
          by (destruct ins; [rewrite size_add_small by zlia|]; lia).
        apply IH; try done; try lia; (destruct ins; [rewrite size_add_small by zlia|]; lia).
    + destruct Hins as (Hok1 & Hden & He). split; [done|]. split; [apply He, Hv|].
      exists [], 0, 0. rewrite Hden. constructor.
  - eapply (snapshot_post_step p st st 0 1); [| |rewrite Z.add_0_r].
    + intros ps v' a r Hab. rewrite Z.add_0_r. apply absorb_invalid; [|done]. by apply Hv.
    + apply Hq.
    + rewrite <- (size_add_small rejected 1) by zlia. apply IH; try done; try lia; rewrite size_add_small by zlia; lia.
Qed.

Lemma document_array_readable buf l : document buf (CArray l) -> zlen buf <= INT64_MAX -> Forall readable l.
Proof.
  intros Hd Hz. apply document_readable in Hd; [|done]. apply Forall_forall. intros x Hx.
  by eapply readable_array.
Qed.

Definition is_snapshot (buf : bytes) (ps : list bytes) : Prop := document buf (CArray (map CBytes ps)).

Definition snapshot_merge_post (st : ants_crdt) (buf : bytes) (o : outcome (heap * ants_crdt) (Z * Z)) : Prop :=
  match o with
  | Ok (_, st') (a, r) => exists ps, is_snapshot buf ps /\ set_ok st' /\
      absorbs ps (denote st) (denote st') a r
  | Err (_, st') _ => set_ok st' /\ exists ps a r, absorbs ps (denote st) (denote st') a r
  | UB | NoFuel => False
  end.

Lemma absorbs_none st : set_ok st -> set_ok st /\ exists ps a r, absorbs ps (denote st) (denote st) a r.
Proof. intros Hok. split; [done|]. exists [], 0, 0. constructor. Qed.

Lemma ants_crdt_snapshot_merge_spec h st buf :
  set_ok st -> octets buf -> snapshot_merge_post st buf (ants_crdt_snapshot_merge (Some buf) (h, st)).
Proof.
  intros Hok [Hb Hz]. unfold ants_crdt_snapshot_merge.
  destruct (Z.eqb_spec (zlen buf) 0) as [E|E]; [by apply absorbs_none|].
  pose proof (canonical_gate buf Hb Hz) as Hg.
  destruct (ants_cbor_is_canonical _ _) as [[] []|[] e| |]; try done; [|by apply absorbs_none].
  destruct Hg as (c & Hd). pose proof Hd as (Hw & Hh & He).
  destruct (at_init buf [c]) as (d & Hi & Hat); [done|done| |by constructor|].
  { unfold encodes. cbn [map concat]. by rewrite app_nil_r. }
  rewrite Hi. unfold bind at 1, on_fst at 1, malformed at 1, map_err. cbn [fst snd].
  pose proof (parses_array d [c] Hat) as Ha.
  destruct c; cbn [p_array] in Ha; destruct Ha as (d1 & Ha); try (destruct Ha as (er & -> & _); by apply absorbs_none).
  destruct Ha as [-> Hat1]. rewrite app_nil_r in Hat1.
  pose proof (document_array_readable _ _ Hd Hz) as Hrd.
  apply wf_array in Hw as [Hl _]. pose proof (zlen_nonneg l).
  assert (Hs := snapshot_loop_spec (zlen l) (Z.to_nat (zlen l)) 0 d1 l h st 0 0 Hat1 Hrd Hok
    ltac:(lia) ltac:(lia) ltac:(lia) ltac:(lia) ltac:(lia)).
  unfold bind. destruct (snapshot_loop _ _ _ _ _ _) as [[d2 [h2 st2]] [a r]|[d2 [h2 st2]] e| |]; try done.
  2: { by destruct Hs as (? & _ & ?). }
  destruct Hs as (ps & (rest & Hps & _ & Hat2) & Hok2 & Hab). rewrite !Z.sub_0_r in Hab.
  unfold on_fst, malformed, map_err. cbn [fst snd]. pose proof (parses_finalise d2 rest Hat2) as Hf.
  destruct rest as [|x rest]; cbn [p_end] in Hf; destruct Hf as (d3 & Hf).
  - destruct Hf as [-> _]. exists ps. rewrite app_nil_r in Hps. unfold is_snapshot. by rewrite <- Hps.
  - destruct Hf as (er & -> & _). split; [done|]. by exists ps, a, r.
Qed.
End sets.

(** * The set of fault proofs: sets that exchange proofs

    Any number of sets that insert, prune, merge one another and read
    snapshots, while allocators refuse as they like.  Every set reached this
    way holds verified proofs only; a slashed subject has a valid proof
    against it and stays slashed. *)

Section network.
Context `{B : Blake3} {Laws : Blake3Laws B} `{Ed : Ed25519}.

(** ** Sound readings *)

Definition certified (id : bytes) (e : crdt_elem) : Prop :=
  exists pf w, proof e = Some pf /\ content_id e = id /\ id = digest pf /\ accepted pf w /\
    subject e = v_subject w /\ epoch e = v_epoch w.

Definition certified_map (m : gmap bytes crdt_elem) : Prop := map_Forall certified m.

(** Somebody presented a valid proof against [s]. *)
Definition convicted (s : bytes) : Prop := exists pf w, accepted pf w /\ v_subject w = s.

Record view_sound (v : set_view) : Prop := {
  sound_members : certified_map (members v);
  sound_gone : forall s, s ∈ gone v -> convicted s
}.

(** What no operation takes back. *)
Definition grows (v v' : set_view) : Prop := (forall s, slashed v s -> slashed v' s) /\ cut v <= cut v'.

#[global] Instance grows_preorder : PreOrder grows.
Proof.
  split; [by split|]. intros v1 v2 v3 [H1 H2] [H3 H4]. split; [auto|lia].
Qed.

Lemma certified_convicted id e : certified id e -> convicted (subject e).
Proof. intros (pf & w & _ & _ & _ & Ha & -> & _). by exists pf, w. Qed.

Lemma slashed_convicted v s : view_sound v -> slashed v s -> convicted s.
Proof.
  intros [Hm Hg] [(id & e & He & <-)|Hin]; [|by apply Hg]. by eapply certified_convicted, Hm.
Qed.

(** ** What each specification keeps *)

Lemma insert_sound b w v :
  accepted b w -> view_sound v ->
  view_sound (spec_insert b w v).1 /\ grows v (spec_insert b w v).1 /\
  slashed (spec_insert b w v).1 (v_subject w) \/
  exists e, members v !! digest b = Some e /\ spec_insert b w v = (v, false).
Proof.
  intros Ha [Hm Hg]. unfold spec_insert, spec_add.
  destruct (v_epoch w <? cut v); cbn [fst].
  - left. split; [split|split; [split|]]; cbn [members gone cut]; [done| | |lia|].
    + intros s [->%elem_of_singleton|Hin]%elem_of_union; [by exists b, w|by apply Hg].
    + intros s [Hs|Hs]; [by left|right; set_solver].
    + right. set_solver.
  - destruct (members v !! digest b) as [e|] eqn:E; [right; by exists e|left].
    cbn [fst]. split; [split|split; [split|]]; cbn [members gone cut]; [|done| |lia|].
    + apply map_Forall_insert_2; [|done]. by exists b, w.
    + intros s [(id & e & He & <-)|Hs]; [left|by right]. exists id, e. cbn.
      rewrite lookup_insert_ne; [done|]. congruence.
    + left. exists (digest b). eexists. cbn. by rewrite lookup_insert_eq.
Qed.

Definition kept_sound (v v' : set_view) : Prop := view_sound v -> view_sound v' /\ grows v v'.

Lemma kept_sound_refl v : kept_sound v v.
Proof. by intros Hv. Qed.

Lemma kept_sound_trans v1 v2 v3 : kept_sound v1 v2 -> kept_sound v2 v3 -> kept_sound v1 v3.
Proof. intros H12 H23 [H2 G2]%H12. destruct (H23 H2) as [? ?]. split; [done|]. by etrans. Qed.

Lemma spec_insert_kept b w v : accepted b w -> kept_sound v (spec_insert b w v).1.
Proof.
  intros Ha Hv. destruct (insert_sound b w v Ha Hv) as [(? & ? & _)|(e & _ & ->)]; [done|].
  by apply kept_sound_refl.
Qed.

Lemma absorbs_kept ps v v' a r : absorbs ps v v' a r -> kept_sound v v'.
Proof.
  intros Hab. induction Hab; [apply kept_sound_refl| |].
  - eapply kept_sound_trans; [by apply spec_insert_kept|auto].
  - auto.
Qed.

Lemma spec_merge_kept m v : certified_map m -> kept_sound v (spec_merge m v).
Proof.
  intros Hm [Hv Hg]. split; split; cbn [members gone cut spec_merge]; [| | |lia].
  - apply map_Forall_union_2; [done|]. intros id e [He _]%recent_Some. by apply Hm.
  - intros s [(id & e & [He _]%older_Some & <-)%elem_of_subjects|Hin]%elem_of_union; [|by apply Hg].
    by eapply certified_convicted, Hm.
  - intros s [(id & e & He & <-)|Hs]; [left|right; cbn; set_solver].
    exists id, e. split; [|done]. cbn. by apply lookup_union_Some_l.
Qed.

Lemma prune_slashed k v s : slashed (spec_prune k v).1 s <-> slashed v s.
Proof.
  unfold slashed. cbn [spec_prune fst members gone]. rewrite elem_of_union, elem_of_subjects.
  setoid_rewrite recent_Some. setoid_rewrite older_Some. split.
  - intros [(id & e & [He _] & Hs)|[(id & e & [He _] & Hs)|Hin]]; eauto.
  - intros [(id & e & He & Hs)|Hin]; [|auto].
    destruct (Z.le_gt_cases k (epoch e)); [left|right; left]; exists id, e; auto.
Qed.

Lemma spec_prune_kept k v : kept_sound v (spec_prune k v).1.
Proof.
  intros [Hm Hg]. split; split; cbn [members gone cut spec_prune fst]; [| | |lia].
  - intros id e [He _]%recent_Some. by apply Hm.
  - intros s [(id & e & [He _]%older_Some & <-)%elem_of_subjects|Hin]%elem_of_union; [|by apply Hg].
    by eapply certified_convicted, Hm.
  - intros s Hs. by apply prune_slashed.
Qed.

Lemma map_of_prefix es1 es2 : map_of es1 ⊆ map_of (es1 ++ es2).
Proof.
  unfold map_of. rewrite entries_app, list_to_map_app. apply map_union_subseteq_l.
Qed.

(** ** A network of sets *)

(** A call leaves a set behind whether it succeeds or not. *)
Definition leaves {A} (o : outcome (heap * ants_crdt) A) (st' : ants_crdt) : Prop :=
  match o with Ok (_, s) _ | Err (_, s) _ => s = st' | UB | NoFuel => False end.

Abbreviation network := (list ants_crdt).

Inductive net_step (net : network) : network -> Prop :=
| net_init h h' st : ants_crdt_init (h, tt) = Ok (h', tt) st -> net_step net (net ++ [st])
| net_insert i st h b st' :
    net !! i = Some st -> octets b -> leaves (ants_crdt_insert (Some b) (h, st)) st' ->
    net_step net (<[i := st']> net)
| net_merge i j st src h st' :
    net !! i = Some st -> net !! j = Some src -> i <> j ->
    leaves (ants_crdt_merge (Some src) (h, st)) st' -> net_step net (<[i := st']> net)
| net_snapshot i st h buf st' :
    net !! i = Some st -> octets buf -> leaves (ants_crdt_snapshot_merge (Some buf) (h, st)) st' ->
    net_step net (<[i := st']> net)
| net_prune i st h k st' :
    net !! i = Some st -> leaves (ants_crdt_prune k (h, st)) st' -> net_step net (<[i := st']> net).

(** One operation on one set. *)
Definition sound_set (st : ants_crdt) : Prop := set_ok st /\ view_sound (denote st).
Definition next_set (st st' : ants_crdt) : Prop := set_ok st' /\ kept_sound (denote st) (denote st').

Lemma insert_next st h b st' :
  set_ok st -> octets b -> leaves (ants_crdt_insert (Some b) (h, st)) st' -> next_set st st'.
Proof.
  intros Hok Hb Hl. pose proof (ants_crdt_insert_spec h st b Hok Hb) as Hp.
  destruct (ants_crdt_insert _ _) as [[h' s'] ins|[h' s'] e| |]; try done; cbn in Hl; subst s'.
  - destruct Hp as (w & Hw & Hok' & Heq). split; [done|].
    replace (denote st') with (spec_insert b w (denote st)).1 by by rewrite <- Heq.
    by apply spec_insert_kept.
  - destruct Hp as (Hok' & Hd & _). split; [done|]. rewrite Hd. apply kept_sound_refl.
Qed.

Lemma prune_next st h k st' : set_ok st -> leaves (ants_crdt_prune k (h, st)) st' -> next_set st st'.
Proof.
  intros Hok Hl. pose proof (ants_crdt_prune_spec h st k Hok) as Hp.
  destruct (ants_crdt_prune _ _) as [[h' s'] n|[h' s'] e| |]; try done; cbn in Hl; subst s'.
  - destruct Hp as (Hok' & Hd & _). split; [done|]. rewrite Hd. apply spec_prune_kept.
  - destruct Hp as (Hok' & Hd & _). split; [done|]. rewrite Hd. apply kept_sound_refl.
Qed.

Lemma merge_next st src h st' :
  set_ok st -> sound_set src -> leaves (ants_crdt_merge (Some src) (h, st)) st' -> next_set st st'.
Proof.
  intros Hok [Hsrc [Hm _]] Hl. change (members (denote src)) with (map_of (slots src)) in Hm.
  pose proof (merge_loop_spec (slots src) h st Hok (elems_ok_slots src Hsrc)) as Hp.
  cbn [ants_crdt_merge] in Hl. destruct (merge_loop _ _) as [[h' s'] n|[h' s'] e| |]; try done; cbn in Hl; subst s'.
  - destruct Hp as (Hok' & Hd). split; [done|]. rewrite Hd. by apply spec_merge_kept.
  - destruct Hp as (Hok' & _ & es1 & es2 & Heq & Hd). split; [done|]. rewrite Hd. apply spec_merge_kept.
    intros id x He. apply Hm. rewrite Heq. by apply (lookup_weaken _ _ _ _ He), map_of_prefix.
Qed.

Lemma snapshot_next st h buf st' :
  set_ok st -> octets buf -> leaves (ants_crdt_snapshot_merge (Some buf) (h, st)) st' -> next_set st st'.
Proof.
  intros Hok Hb Hl. pose proof (ants_crdt_snapshot_merge_spec h st buf Hok Hb) as Hp.
  destruct (ants_crdt_snapshot_merge _ _) as [[h' s'] [a r]|[h' s'] e| |]; try done; cbn in Hl; subst s'.
  - destruct Hp as (ps & _ & Hok' & Hab). split; [done|]. by eapply absorbs_kept.
  - destruct Hp as (Hok' & ps & a & r & Hab). split; [done|]. by eapply absorbs_kept.
Qed.

Lemma init_sound h h' st : ants_crdt_init (h, tt) = Ok (h', tt) st -> sound_set st.
Proof.
  intros Hi. pose proof (ants_crdt_init_spec h) as Hp. rewrite Hi in Hp. destruct Hp as [Hok Hd].
  split; [done|]. rewrite Hd. split; cbn; [apply map_Forall_empty|set_solver].
Qed.

(** Every step keeps every set, or replaces one by a successor of itself. *)
Lemma net_step_cases net net' :
  Forall sound_set net -> net_step net net' ->
  (exists st, sound_set st /\ net' = net ++ [st]) \/
  (exists i st st', net !! i = Some st /\ next_set st st' /\ net' = <[i := st']> net).
Proof.
  intros Hn Hs. destruct Hs as [h h' st Hi|i st h b st' Hi Hb Hl|i j st src h st' Hi Hj _ Hl|
    i st h buf st' Hi Hb Hl|i st h k st' Hi Hl]; [left; exists st; split; [by eapply init_sound|done]|right..].
  all: exists i, st, st'; split; [done|]; split; [|done]; pose proof (Forall_lookup_1 _ _ _ _ Hn Hi) as [Hok _].
  - by eapply insert_next.
  - eapply merge_next; [done|by eapply Forall_lookup_1|done].
  - by eapply snapshot_next.
  - by eapply prune_next.
Qed.

Lemma net_step_sound net net' : Forall sound_set net -> net_step net net' -> Forall sound_set net'.
Proof.
  intros Hn Hs. destruct (net_step_cases _ _ Hn Hs) as [(st & Hst & ->)|(i & st & st' & Hi & [Hok Hk] & ->)].
  - by apply Forall_app_2; [|constructor].
  - apply Forall_insert; [done|]. split; [done|]. apply Hk, (Forall_lookup_1 _ _ _ _ Hn Hi).
Qed.

Lemma network_sound net net' : rtc net_step net net' -> Forall sound_set net -> Forall sound_set net'.
Proof. induction 1; intros Hn; [done|]. eauto using net_step_sound. Qed.

Lemma network_set net i st : rtc net_step [] net -> net !! i = Some st -> sound_set st.
Proof. intros Hr Hi. eapply Forall_lookup_1; [|done]. eapply network_sound; [exact Hr|by apply Forall_nil]. Qed.

Lemma net_step_grows net net' i st :
  Forall sound_set net -> net_step net net' -> net !! i = Some st ->
  exists st', net' !! i = Some st' /\ grows (denote st) (denote st').
Proof.
  intros Hn Hs Hi. destruct (net_step_cases _ _ Hn Hs) as [(x & _ & ->)|(j & x & x' & Hj & [_ Hk] & ->)].
  - exists st. split; [by apply lookup_app_l_Some|done].
  - destruct (decide (i = j)) as [->|Hne].
    + exists x'. assert (x = st) as -> by congruence. split.
      * apply list_lookup_insert_eq. by eapply lookup_lt_Some.
      * apply Hk, (Forall_lookup_1 _ _ _ _ Hn Hi).
    + exists st. split; [|done]. by rewrite list_lookup_insert_ne.
Qed.

Lemma network_grows net net' : rtc net_step net net' -> Forall sound_set net -> forall i st,
  net !! i = Some st -> exists st', net' !! i = Some st' /\ grows (denote st) (denote st').
Proof.
  induction 1 as [|net1 net2 net3 Hs Hr IH]; intros Hn i st Hi; [by exists st|].
  destruct (net_step_grows _ _ _ _ Hn Hs Hi) as (st2 & Hi2 & Hg).
  destruct (IH (net_step_sound _ _ Hn Hs) i st2 Hi2) as (st3 & Hi3 & Hg'). exists st3. split; [done|]. by etrans.
Qed.

End network.
