(* ===== verification/CrdtGSet.v ===== *)
(** * The set of fault proofs: carrying a set in a snapshot

    A snapshot is a canonical array of proofs.  Encoding a set whose members
    verify and merging the bytes elsewhere has the effect of merging the set
    itself, with no candidate rejected.

    Then: the contract of the set, through the answers of its own queries. *)

From stdpp Require Import gmap.
From S2P Require Import Prelude Cbor CborSpec CborTrack CborEnc CborDec CborCanon CborContract CborKv.
From S2P Require Import CborRecord CborCodec CborParse Crypto OpenTable Merkle Crdt CrdtParse CrdtVerify.
From S2P Require Import CrdtSet CrdtSetThms CrdtSetOps CrdtReach.
Import Crdt CrdtSet.

#[local] Arguments zlen {A} l : simpl never.

(** ** The bytes written *)

Definition proofs_of (es : list crdt_elem) : list bytes := omap proof es.

Definition snapshot_cbor (es : list crdt_elem) : cbor := CArray (map CBytes (proofs_of es)).

Lemma proofs_cons_some e es pf : proof e = Some pf -> proofs_of (e :: es) = pf :: proofs_of es.
Proof. intros H. unfold proofs_of. cbn [omap list_omap]. by rewrite H. Qed.
Lemma proofs_cons_none e es : proof e = None -> proofs_of (e :: es) = proofs_of es.
Proof. intros H. unfold proofs_of. cbn [omap list_omap]. by rewrite H. Qed.

Lemma zlen_proofs es : zlen (proofs_of es) = zlen (entries es).
Proof.
  induction es as [|e es IH]; [done|]. destruct (proof e) as [pf|] eqn:Hp.
  - rewrite (proofs_cons_some e es pf), (entries_cons_some e (content_id e)), !zlen_cons
      by (done || unfold slot_key, elem_slot; by rewrite Hp). lia.
  - by rewrite proofs_cons_none, entries_cons_none by (done || unfold slot_key, elem_slot; by rewrite Hp).
Qed.

Lemma snapshot_items_emit es : forall e,
  snapshot_items es e = seq_actions (map emit (map CBytes (proofs_of es))) e.
Proof.
  induction es as [|x es IH]; intros e; [done|]. cbn [snapshot_items].
  destruct (proof x) as [pf|] eqn:Hp.
  - rewrite (proofs_cons_some x es pf Hp). cbn [map seq_actions foldr emit]. apply bind_ext. intros [] e'. apply IH.
  - by rewrite proofs_cons_none.
Qed.

Lemma snapshot_emit st e :
  set_ok st -> snapshot_body st e = emit (snapshot_cbor (slots st)) e.
Proof.
  intros Hok. unfold snapshot_body. cbn [snapshot_cbor emit].
  rewrite (store_used _ _ _ _ (ok_slots _ Hok)). unfold zlen at 2. rewrite length_map. fold (zlen (proofs_of (slots st))).
  rewrite zlen_proofs. apply bind_ext. intros [] e'. apply snapshot_items_emit.
Qed.

(** ** Sizes *)

Fixpoint proofs_total (ps : list bytes) : Z :=
  match ps with [] => 0 | p :: ps' => 9 + zlen p + proofs_total ps' end.

Lemma proofs_total_nonneg ps : 0 <= proofs_total ps.
Proof. induction ps as [|p ps IH]; cbn; [done|]. pose proof (zlen_nonneg p). lia. Qed.

Lemma snapshot_total_eq es : forall total,
  0 <= total -> total + proofs_total (proofs_of es) <= SIZE_MAX ->
  snapshot_total es total = total + proofs_total (proofs_of es).
Proof.
  induction es as [|e es IH]; intros total H0 Hm; cbn [snapshot_total]; [cbn; lia|].
  destruct (proof e) as [pf|] eqn:Hp.
  - rewrite (proofs_cons_some e es pf Hp) in *. cbn [proofs_total] in *.
    pose proof (zlen_nonneg pf). pose proof (proofs_total_nonneg (proofs_of es)).
    rewrite (size_add_small 9), (size_add_small total) by zlia. rewrite IH by lia. lia.
  - rewrite (proofs_cons_none e es Hp) in *. by apply IH.
Qed.

Lemma snapshot_size es : zlen (encode (snapshot_cbor es)) <= 9 + proofs_total (proofs_of es).
Proof.
  cbn [snapshot_cbor encode]. rewrite zlen_app.
  pose proof (head_size 4 (zlen (map CBytes (proofs_of es)))).
  enough (zlen (concat (map encode (map CBytes (proofs_of es)))) <= proofs_total (proofs_of es)) by lia.
  clear. induction (proofs_of es) as [|p ps IH]; [done|]. cbn [map concat proofs_total encode].
  rewrite !zlen_app. pose proof (head_size 2 (zlen p)). lia.
Qed.

Section snapshot.
Context `{B : Blake3} {Laws : Blake3Laws B} `{Ed : Ed25519}.

Lemma snapshot_readable st :
  sound_set st -> zlen (encode (snapshot_cbor (slots st))) <= INT64_MAX -> readable (snapshot_cbor (slots st)).
Proof.
  intros [Hok [Hm _]] Hsz. split; [|split; [|done]].
  - apply wf_array. split.
    + unfold zlen. rewrite length_map. fold (zlen (proofs_of (slots st))). rewrite zlen_proofs.
      rewrite <- (store_used _ _ _ _ (ok_slots _ Hok)).
      destruct (slots_bounds st Hok) as (_ & _ & _ & _ & _ & Hc). zlia.
    + apply Forall_map, Forall_forall. intros p Hp. unfold proofs_of in Hp.
      apply list_elem_of_omap in Hp as (e & He & Hp).
      assert (Hme : members (denote st) !! content_id e = Some e).
      { apply member_elem; [done|]. split; [done|]. unfold slot_key, elem_slot. by rewrite Hp. }
      destruct (Hm _ _ Hme) as (pf & w & Hpf & _ & _ & [[Hb Hz] _] & _).
      assert (pf = p) as -> by congruence. split; [done|]. zlia.
  - assert (height (snapshot_cbor (slots st)) <= 1)%nat; [|lia].
    apply height_array_le, Forall_map, Forall_forall. intros p _. cbn. lia.
Qed.

(** ** Absorbing the members of a set *)

Lemma absorbs_fun ps v v1 a1 r1 : absorbs ps v v1 a1 r1 ->
  forall v2 a2 r2, absorbs ps v v2 a2 r2 -> v1 = v2 /\ a1 = a2 /\ r1 = r2.
Proof.
  induction 1 as [v|b w ps v v1 a1 r1 Ha _ IH|b ps v v1 a1 r1 Hn _ IH]; intros v2 a2 r2 H2; inversion H2; subst.
  - done.
  - match goal with H : accepted b ?w' |- _ => destruct Ha as (_ & _ & Hw), H as (_ & _ & Hw');
      rewrite (is_envelope_unique _ _ _ Hw Hw') in * end.
    match goal with H : absorbs ps _ v2 _ _ |- _ => destruct (IH _ _ _ H) as (-> & -> & ->) end. done.
  - by destruct Ha as (_ & Ha & _).
  - by match goal with H : accepted b _ |- _ => destruct H as (_ & ? & _) end.
  - match goal with H : absorbs ps _ v2 _ _ |- _ => destruct (IH _ _ _ H) as (-> & -> & ->) end. done.
Qed.

Lemma absorbs_members es : elems_ok es -> certified_map (map_of es) ->
  forall v, exists a, absorbs (proofs_of es) v (spec_merge (map_of es) v) a 0.
Proof.
  induction es as [|e es IH]; intros Hes Hc v.
  { exists 0. change (map_of []) with (∅ : gmap bytes crdt_elem). rewrite spec_merge_empty. constructor. }
  pose proof (elems_ok_tail _ _ Hes) as Htl. destruct (proof e) as [pf|] eqn:Hp.
  2: { assert (Hk : slot_key e = None) by (unfold slot_key, elem_slot; by rewrite Hp).
    rewrite (map_of_none e es Hk) in *. rewrite (proofs_cons_none e es Hp). by apply IH. }
  assert (Hk : slot_key e = Some (content_id e)) by (unfold slot_key, elem_slot; by rewrite Hp).
  destruct (elems_ok_head _ _ _ _ Hes Hk Hp) as (_ & _ & _ & Hn).
  rewrite (map_of_some e es _ Hk) in *. rewrite (proofs_cons_some e es pf Hp).
  apply map_Forall_insert in Hc as [(pf' & w & Hpf & _ & Hid & Ha & Hs & Hep) Hc]; [|done].
  assert (pf' = pf) as -> by congruence.
  assert (Hsp : spec_insert pf w v = spec_add (content_id e) (subject e) (epoch e) pf v).
  { unfold spec_insert. by rewrite Hid, Hs, Hep. }
  destruct (IH Htl Hc (spec_insert pf w v).1) as [a Hab].
  exists (a + (if (spec_insert pf w v).2 then 1 else 0)). apply absorb_valid; [done|].
  rewrite <- (spec_merge_step (map_of es) v e pf Hp Hn). by rewrite Hsp in *.
Qed.

Lemma is_snapshot_fun buf ps qs : is_snapshot buf ps -> is_snapshot buf qs -> ps = qs.
Proof.
  intros Hp Hq. pose proof (document_unique _ _ _ Hp Hq) as Heq. injection Heq as Heq. clear Hp Hq.
  revert qs Heq. induction ps as [|p ps IH]; intros [|q qs] Heq; try done.
  injection Heq as -> Heq. by rewrite (IH qs Heq).
Qed.

(** Merging the encoding of a set is merging the set. *)
Lemma snapshot_merge_members h st t w :
  sound_set st -> set_ok t -> octets w -> document w (snapshot_cbor (slots st)) ->
  match ants_crdt_snapshot_merge (Some w) (h, t) with
  | Ok (_, t') (added, rejected) => rejected = 0 /\ set_ok t' /\
      denote t' = spec_merge (members (denote st)) (denote t)
  | Err (_, t') _ => set_ok t' /\ kept_sound (denote t) (denote t')
  | UB | NoFuel => False
  end.
Proof.
  intros [Hok [Hm _]] Ht Hw Hd. pose proof (ants_crdt_snapshot_merge_spec h t w Ht Hw) as Hs.
  destruct (ants_crdt_snapshot_merge _ _) as [[h' t'] [a r]|[h' t'] e| |]; try done.
  - destruct Hs as (ps & Hps & Hok' & Hab). rewrite (is_snapshot_fun _ _ _ Hps Hd) in Hab.
    destruct (absorbs_members (slots st) (elems_ok_slots st Hok) Hm (denote t)) as [a' Hab'].
    destruct (absorbs_fun _ _ _ _ _ Hab _ _ _ Hab') as (-> & _ & ->). done.
  - destruct Hs as (Hok' & ps & a & r & Hab). split; [done|]. by eapply absorbs_kept.
Qed.
End snapshot.

(** * The set of fault proofs: its contract

    The properties of the set as its callers see them, through the answers of
    its own queries, with concrete sets as witnesses. *)

(** ** Answers *)

(** Two sets that give the same verdict on every subject. *)
Definition same_verdicts (st st' : ants_crdt) : Prop :=
  forall subj, zlen subj = 32 ->
    ants_crdt_is_slashed (Some st') subj tt = ants_crdt_is_slashed (Some st) subj tt.

Lemma slashed_answer st subj :
  set_ok st -> zlen subj = 32 ->
  (ants_crdt_is_slashed (Some st) subj tt = Ok tt true <-> slashed (denote st) subj).
Proof.
  intros Hok Hs. destruct (ants_crdt_is_slashed_spec st subj tt Hok Hs) as (b & -> & <-).
  split; [by intros [= ->]|by intros ->].
Qed.

Lemma same_verdicts_iff st st' :
  set_ok st -> set_ok st' -> (forall s, slashed (denote st') s <-> slashed (denote st) s) -> same_verdicts st st'.
Proof.
  intros Hok Hok' Heq subj Hs.
  destruct (ants_crdt_is_slashed_spec st subj tt Hok Hs) as (b & -> & Hb).
  destruct (ants_crdt_is_slashed_spec st' subj tt Hok' Hs) as (b' & -> & Hb'). f_equal.
  apply eq_true_iff_eq. by rewrite Hb, Hb', Heq.
Qed.

Lemma contains_answer st id :
  set_ok st -> zlen id = 32 ->
  (ants_crdt_contains (Some st) id tt = Ok tt true <-> is_Some (members (denote st) !! id)).
Proof.
  intros Hok Hid. rewrite ants_crdt_contains_spec by done.
  split; [intros [= H]; by apply bool_decide_eq_true in H|intros H; by rewrite bool_decide_true].
Qed.

Lemma size_split (k : Z) (m : gmap bytes crdt_elem) : (size m = size (recent k m) + size (older k m))%nat.
Proof.
  rewrite <- (map_filter_union_complement (fun p => k <= epoch p.2) m) at 1.
  rewrite map_size_disj_union by apply map_disjoint_filter_complement. f_equal. f_equal.
  apply map_filter_ext. intros i x _. cbn. lia.
Qed.

Section verdicts.
Context `{B : Blake3} {Laws : Blake3Laws B} `{Ed : Ed25519}.

(** Members of two sets under one id are the same proof, so they name the same
    subject. *)
Lemma certified_agree st src id e e' :
  set_ok st -> set_ok src -> certified_map (members (denote st)) -> certified_map (members (denote src)) ->
  collision_free (proofs_of (slots st)) (proofs_of (slots src)) ->
  members (denote st) !! id = Some e -> members (denote src) !! id = Some e' -> subject e = subject e'.
Proof.
  intros Hok Hok' Hm Hm' Hc He He'.
  destruct (Hm _ _ He) as (pf & w & Hp & _ & Hid & (_ & _ & Hw) & -> & _).
  destruct (Hm' _ _ He') as (pf' & w' & Hp' & _ & Hid' & (_ & _ & Hw') & -> & _).
  apply member_elem in He as [He _], He' as [He' _]; [|done..].
  assert (pf = pf') as <-.
  { apply Hc; [| |congruence]; apply list_elem_of_omap; eauto. }
  by rewrite (is_envelope_unique _ _ _ Hw Hw').
Qed.

Lemma merge_slashed st src s :
  set_ok st -> set_ok src -> certified_map (members (denote st)) -> certified_map (members (denote src)) ->
  collision_free (proofs_of (slots st)) (proofs_of (slots src)) ->
  slashed (spec_merge (members (denote src)) (denote st)) s <->
    slashed (denote st) s \/ exists id e, members (denote src) !! id = Some e /\ subject e = s.
Proof.
  intros Hok Hok' Hm Hm' Hc. unfold slashed at 1. cbn [spec_merge members gone].
  rewrite elem_of_union, elem_of_subjects. split.
  - intros [(id & e & He & <-)|[(id & e & [He _]%older_Some & Hs)|Hin]]; [|right; eauto|left; by right].
    apply lookup_union_Some_raw in He as [He|[_ [He _]%recent_Some]]; [left; left|right]; eauto.
  - intros [[(id & e & He & <-)|Hin]|(id & e & He & <-)]; [left|by right; right|].
    { exists id, e. split; [by apply lookup_union_Some_l|done]. }
    destruct (Z.lt_ge_cases (epoch e) (cut (denote st))) as [Hlt|Hge].
    { right. left. exists id, e. split; [by apply older_Some|done]. }
    left. destruct (members (denote st) !! id) as [e'|] eqn:E.
    + exists id, e'. split; [by apply lookup_union_Some_l|]. exact (certified_agree st src id e' e Hok Hok' Hm Hm' Hc E He).
    + exists id, e. split; [|done]. rewrite lookup_union_r by done. by apply recent_Some.
Qed.

Lemma merge_member m v id :
  is_Some (members (spec_merge m v) !! id) <->
    is_Some (members v !! id) \/ exists e, m !! id = Some e /\ cut v <= epoch e.
Proof.
  cbn [spec_merge members]. split.
  - intros [e He]. apply lookup_union_Some_raw in He as [He|[_ He%recent_Some]]; eauto.
  - intros [[e He]|(e & He & Hc)].
    + exists e. by apply lookup_union_Some_l.
    + destruct (members v !! id) as [x|] eqn:E; [exists x; by apply lookup_union_Some_l|].
      exists e. rewrite lookup_union_r by done. by apply recent_Some.
Qed.
End verdicts.

(** ** Concrete sets *)

#[local] Existing Instance toy_blake3.
#[local] Existing Instance toy_blake3_laws.
#[local] Existing Instance toy_ed25519.

(** The set an operation leaves behind. *)
Definition left_set {A} (o : outcome (heap * ants_crdt) A) : ants_crdt :=
  match o with
  | Ok (_, s) _ | Err (_, s) _ => s
  | _ => mk_set [] 0 0 0 [] 0 0 false
  end.

Definition fresh_set : ants_crdt :=
  match ants_crdt_init ([], tt) with Ok _ s => s | _ => mk_set [] 0 0 0 [] 0 0 false end.

Definition demo_proof : bytes := demo_equivocation [1] [2; 3].
Definition demo_set : ants_crdt := left_set (ants_crdt_insert (Some demo_proof) ([], fresh_set)).
Definition demo_elem : crdt_elem := mk_elem (digest demo_proof) demo_subject 5 (Some demo_proof).
Definition demo_pruned : ants_crdt := left_set (ants_crdt_prune 6 ([], demo_set)).

Lemma leaves_left {A} (o : outcome (heap * ants_crdt) A) :
  match o with UB | NoFuel => False | _ => True end -> leaves o (left_set o).
Proof. by destruct o as [[]|[]| |]. Qed.

Lemma demo_octets : octets demo_proof.
Proof. split; [by_decision|]. vm_compute. discriminate. Qed.

Lemma demo_epoch w : accepted demo_proof w -> v_epoch w = 5.
Proof.
  intros (_ & _ & Hw). pose proof (decode_view_decides demo_proof (proj1 demo_octets) (proj2 demo_octets) tt) as Hd.
  destruct (decode_view (Some demo_proof) tt) as [u v|u e| |] eqn:E; vm_compute in E; try discriminate E.
  destruct Hd as [_ Hu]. rewrite (Hu w Hw). injection E as _ <-. reflexivity.
Qed.

Lemma fresh_step net : net_step net (net ++ [fresh_set]).
Proof. by eapply (net_init net [] []). Qed.

(** One empty set, then with the proof, then pruned. *)
Lemma demo_network : rtc net_step [] [fresh_set].
Proof. apply rtc_once, (fresh_step []). Qed.

Lemma demo_network_insert : rtc net_step [fresh_set] [demo_set].
Proof.
  apply rtc_once. apply (net_insert [fresh_set] 0 fresh_set [] demo_proof); [done|apply demo_octets|].
  apply leaves_left. vm_compute. exact I.
Qed.

Lemma demo_network_prune : rtc net_step [demo_set] [demo_pruned].
Proof.
  apply rtc_once. apply (net_prune [demo_set] 0 demo_set [] 6); [done|]. apply leaves_left. vm_compute. exact I.
Qed.

(** ** Properties *)

(** Insertion refines the map specification.  On a well-formed set and
    any byte string, [ants_crdt_insert] either stores exactly a proof that
    verifies, under its content id and with the subject and epoch it names
    (or, when its epoch is below the floor, retires the subject), reporting
    whether that was news; or leaves the contents of the set as they were,
    which for a valid proof happens only when the allocator refuses. *)
Theorem insert_refines `{B : Blake3} {Laws : Blake3Laws B} `{Ed : Ed25519} h st b :
  set_ok st -> octets b ->
  match ants_crdt_insert (Some b) (h, st) with
  | Ok (_, st') ins => exists w, accepted b w /\ set_ok st' /\
      (denote st', ins) = spec_insert b w (denote st) /\
      (ants_crdt_prune_floor (Some st) <= v_epoch w ->
        ants_crdt_contains (Some st') (digest b) tt = Ok tt true)
  | Err (_, st') e => set_ok st' /\ denote st' = denote st /\ (valid_proof b -> e = ANTS_ERROR_MALFORMED)
  | UB | NoFuel => False
  end.
Proof.
  intros Hok Hb. pose proof (ants_crdt_insert_spec h st b Hok Hb) as Hp.
  destruct (ants_crdt_insert _ _) as [[h' st'] ins|[h' st'] e| |]; try done.
  destruct Hp as (w & Hw & Hok' & Heq). exists w. split; [done|]. split; [done|]. split; [done|].
  intros Hfl. apply contains_answer; [done|apply digest_size|].
  replace (denote st') with (spec_insert b w (denote st)).1 by by rewrite <- Heq.
  unfold spec_insert, spec_add. change (cut (denote st)) with (ants_crdt_prune_floor (Some st)).
  rewrite (proj2 (Z.ltb_ge _ _) Hfl). destruct (members (denote st) !! digest b) eqn:E; [by exists c|].
  cbn. rewrite lookup_insert_eq. by eexists.
Qed.

Lemma insert_refines_witness :
  exists st', ants_crdt_insert (Some demo_proof) ([], fresh_set) = Ok ([], st') true /\
    exists w, accepted demo_proof w /\ members (denote st') !! digest demo_proof <> None.
Proof.
  assert (Hok : set_ok fresh_set) by apply (ants_crdt_init_spec []).
  pose proof (insert_refines [] fresh_set demo_proof Hok demo_octets) as Hp.
  assert (Hr : ants_crdt_insert (Some demo_proof) ([], fresh_set) = Ok ([], demo_set) true) by (vm_compute; reflexivity).
  rewrite Hr in Hp. destruct Hp as (w & Hw & Hok' & _ & Hc). exists demo_set. split; [done|]. exists w. split; [done|].
  assert (He : ants_crdt_prune_floor (Some fresh_set) <= v_epoch w) by (by rewrite (demo_epoch w Hw)).
  apply Hc, contains_answer in He as [e He]; [congruence|done|apply digest_size].
Defined.

(** Pruning forgets proofs but never a verdict.  After
    [ants_crdt_prune k] exactly the members of epoch at least [k] are still
    contained, the count of pruned members is right, the floor is the higher
    of the old one and [k], and every subject is slashed exactly when it was;
    a refused allocation changes no answer. *)
Theorem prune_keeps_verdicts h st k :
  set_ok st ->
  match ants_crdt_prune k (h, st) with
  | Ok (_, st') pruned => set_ok st' /\ same_verdicts st st' /\
      ants_crdt_prune_floor (Some st') = Z.max (ants_crdt_prune_floor (Some st)) k /\
      ants_crdt_size (Some st') + pruned = ants_crdt_size (Some st) /\
      forall id, zlen id = 32 ->
        ants_crdt_contains (Some st') id tt = Ok tt true <->
          exists e, members (denote st) !! id = Some e /\ k <= epoch e
  | Err (_, st') e => e = ANTS_ERROR_MALFORMED /\ set_ok st' /\ same_verdicts st st' /\ denote st' = denote st
  | UB | NoFuel => False
  end.
Proof.
  intros Hok. pose proof (ants_crdt_prune_spec h st k Hok) as Hp.
  destruct (ants_crdt_prune _ _) as [[h' st'] n|[h' st'] e| |]; try done.
  - destruct Hp as (Hok' & Hd & ->). split; [done|].
    split; [apply same_verdicts_iff; [done..|]; intros s; rewrite Hd; apply prune_slashed|].
    split; [change (ants_crdt_prune_floor (Some st')) with (cut (denote st')); by rewrite Hd|]. split.
    + rewrite !ants_crdt_size_spec, Hd, (size_split k (members (denote st))) by done. cbn. lia.
    + intros id Hid. rewrite contains_answer, Hd by done. cbn [spec_prune fst members].
      split; [intros [e He%recent_Some]; eauto|]. intros (e & He). exists e. by apply recent_Some.
  - destruct Hp as (Hok' & Hd & ->). split; [done|]. split; [done|]. split; [|done].
    apply same_verdicts_iff; [done..|]. intros s. by rewrite Hd.
Qed.

Lemma prune_keeps_verdicts_witness :
  same_verdicts demo_set demo_pruned /\ ants_crdt_size (Some demo_set) = 1 /\
  ants_crdt_size (Some demo_pruned) = 0 /\
  ants_crdt_is_slashed (Some demo_pruned) demo_subject tt = Ok tt true.
Proof.
  assert (Hok : set_ok demo_set).
  { apply (network_set [demo_set] 0); [|done]. etrans; [apply demo_network|apply demo_network_insert]. }
  pose proof (prune_keeps_verdicts [] demo_set 6 Hok) as Hp.
  assert (Hr : ants_crdt_prune 6 ([], demo_set) = Ok ([], demo_pruned) 1) by (vm_compute; reflexivity).
  rewrite Hr in Hp. destruct Hp as (_ & Hv & _). split; [exact Hv|]. vm_compute. auto.
Defined.

(** Merging is the union of two sets.  When the two sets hold no two
    different proofs of one digest, a merge that completes slashes exactly the
    subjects that were slashed or that a member of the source names, and
    contains exactly the members of both except those of the source below the
    floor; a merge that the allocator interrupts takes no verdict back. *)
Theorem merge_unions `{B : Blake3} {Laws : Blake3Laws B} `{Ed : Ed25519} h st src :
  sound_set st -> sound_set src -> collision_free (proofs_of (slots st)) (proofs_of (slots src)) ->
  match ants_crdt_merge (Some src) (h, st) with
  | Ok (_, st') _ =>
      (forall s, zlen s = 32 ->
        ants_crdt_is_slashed (Some st') s tt = Ok tt true <->
          ants_crdt_is_slashed (Some st) s tt = Ok tt true \/ existsb (is_about s) (slots src) = true) /\
      forall id, zlen id = 32 ->
        ants_crdt_contains (Some st') id tt = Ok tt true <->
          ants_crdt_contains (Some st) id tt = Ok tt true \/
          exists e, members (denote src) !! id = Some e /\ ants_crdt_prune_floor (Some st) <= epoch e
  | Err (_, st') e => e = ANTS_ERROR_MALFORMED /\ forall s, zlen s = 32 ->
      ants_crdt_is_slashed (Some st) s tt = Ok tt true -> ants_crdt_is_slashed (Some st') s tt = Ok tt true
  | UB | NoFuel => False
  end.
Proof.
  intros [Hok Hv] [Hok2 Hv2] Hc. cbn [ants_crdt_merge].
  pose proof (merge_loop_spec (slots src) h st Hok (elems_ok_slots src Hok2)) as Hp.
  pose proof (merge_next st src h (left_set (merge_loop (slots src) (h, st))) Hok (conj Hok2 Hv2)) as Hn.
  cbn [ants_crdt_merge] in Hn. destruct (merge_loop _ _) as [[h' st'] []|[h' st'] e| |]; try done.
  - destruct Hp as (Hok' & Hd). change (map_of (slots src)) with (members (denote src)) in Hd. split.
    + intros s Hs. rewrite !slashed_answer, is_about_spec, Hd by done.
      apply merge_slashed; try done; [apply Hv|apply Hv2].
    + intros id Hid. rewrite !contains_answer, Hd by done. apply merge_member.
  - destruct Hp as (Hok' & -> & _). split; [done|]. intros s Hs. rewrite !slashed_answer by done.
    destruct (Hn eq_refl) as [_ [_ [Hg _]]]; [done|]. apply Hg.
Qed.

Lemma merge_unions_witness :
  ants_crdt_is_slashed (Some (left_set (ants_crdt_merge (Some demo_set) ([], fresh_set)))) demo_subject tt =
    Ok tt true.
Proof.
  assert (Hf : sound_set fresh_set) by (apply (network_set [fresh_set] 0); [apply demo_network|done]).
  assert (Hd : sound_set demo_set).
  { apply (network_set [demo_set] 0); [|done]. etrans; [apply demo_network|apply demo_network_insert]. }
  assert (Hc : collision_free (proofs_of (slots fresh_set)) (proofs_of (slots demo_set))).
  { intros a b Ha. vm_compute in Ha. by apply elem_of_nil in Ha. }
  pose proof (merge_unions [] fresh_set demo_set Hf Hd Hc) as Hp.
  destruct (ants_crdt_merge (Some demo_set) ([], fresh_set)) as [[h st'] []|[h st'] e| |] eqn:E;
    [| |destruct Hp..].
  - apply (proj1 Hp); [reflexivity|]. right. vm_compute. reflexivity.
  - vm_compute in E. discriminate E.
Defined.

(** C23: whatever the sets of a network do, each of them holds verified proofs
    only: the proof in an occupied slot passes [ants_crdt_verify] again, its
    content id is the slot's key, and its epoch is not below the floor. *)
Theorem members_verify `{B : Blake3} {Laws : Blake3Laws B} `{Ed : Ed25519} net i st e pf :
  rtc net_step [] net -> net !! i = Some st -> e ∈ slots st -> proof e = Some pf ->
  ants_crdt_verify (Some pf) tt = Ok tt tt /\
  ants_crdt_content_id (Some pf) tt = Ok tt (content_id e) /\
  ants_crdt_contains (Some st) (content_id e) tt = Ok tt true /\
  ants_crdt_prune_floor (Some st) <= epoch e.
Proof.
  intros Hr Hi He Hp. destruct (network_set net i st Hr Hi) as [Hok [Hm _]].
  assert (Hme : members (denote st) !! content_id e = Some e).
  { apply member_elem; [done|]. split; [done|]. unfold slot_key, elem_slot. by rewrite Hp. }
  destruct (Hm _ _ Hme) as (pf' & w & Hpf & _ & Hid & (([Hb Hz] & Hv & Hw) & _)).
  assert (pf' = pf) as -> by congruence. split; [|split; [|split]].
  - by apply (decides_true _ _ _ _ (verify_decides pf Hb Hz)).
  - rewrite Hid. apply content_id_digest. destruct Hw as (ev & Hd & _).
    apply nonempty_zlen. apply document_ne in Hd. lia.
  - apply contains_answer; [done|rewrite Hid; apply digest_size|by exists e].
  - apply member_entry in Hme; [|done]. by eapply ok_floor.
Qed.

Lemma members_verify_witness :
  @ants_crdt_verify toy_blake3 toy_ed25519 (Some demo_proof) tt = Ok tt tt /\
  ants_crdt_prune_floor (Some demo_set) <= 5.
Proof.
  assert (He : slots demo_set !! 4%nat = Some demo_elem) by (vm_compute; reflexivity).
  destruct (members_verify [demo_set] 0 demo_set demo_elem demo_proof) as (Hv & _ & _ & Hf).
  - etrans; [apply demo_network|apply demo_network_insert].
  - reflexivity.
  - exact (list_elem_of_lookup_2 _ _ _ He).
  - vm_compute. reflexivity.
  - split; [exact Hv|exact Hf].
Defined.

(** A verdict outlives whatever the network does next. *)
Lemma slashed_stays `{B : Blake3} {Laws : Blake3Laws B} `{Ed : Ed25519} net net' i st subj :
  rtc net_step [] net -> net !! i = Some st -> zlen subj = 32 ->
  ants_crdt_is_slashed (Some st) subj tt = Ok tt true -> rtc net_step net net' ->
  exists st', net' !! i = Some st' /\ ants_crdt_is_slashed (Some st') subj tt = Ok tt true.
Proof.
  intros Hr Hi Hs Ha Hr'. destruct (network_set net i st Hr Hi) as [Hok Hv].
  apply slashed_answer in Ha; [|done..].
  assert (Hn : Forall sound_set net) by by eapply network_sound, Forall_nil.
  destruct (network_grows net net' Hr' Hn i st Hi) as (st' & Hi' & Hg & _). exists st'. split; [done|].
  apply slashed_answer; [|done|by apply Hg].
  apply (network_set net' i st'); [by etrans|done].
Qed.

(** C3: slashing is founded and permanent.  In any network of sets, a subject
    that a set reports slashed is named by a proof that verifies, and the set
    in that place reports it slashed after every further sequence of
    insertions, merges, snapshots and prunes, completed or interrupted by the
    allocator. *)
Theorem slashing_founded_permanent `{B : Blake3} {Laws : Blake3Laws B} `{Ed : Ed25519}
  net net' i st subj :
  rtc net_step [] net -> net !! i = Some st -> zlen subj = 32 ->
  ants_crdt_is_slashed (Some st) subj tt = Ok tt true -> rtc net_step net net' ->
  (exists pf w, ants_crdt_verify (Some pf) tt = Ok tt tt /\ is_envelope pf w /\ v_subject w = subj) /\
  exists st', net' !! i = Some st' /\ ants_crdt_is_slashed (Some st') subj tt = Ok tt true.
Proof.
  intros Hr Hi Hs Ha Hr'. split; [|by eapply slashed_stays].
  destruct (network_set net i st Hr Hi) as [Hok Hv]. apply slashed_answer in Ha; [|done..].
  destruct (slashed_convicted _ _ Hv Ha) as (pf & w & ([Hb Hz] & Hvp & Hw) & <-).
  exists pf, w. split; [|done]. by apply (decides_true _ _ _ _ (verify_decides pf Hb Hz)).
Qed.

Lemma slashing_founded_permanent_witness :
  ants_crdt_is_slashed (Some demo_set) demo_subject tt = Ok tt true /\
  ants_crdt_is_slashed (Some demo_pruned) demo_subject tt = Ok tt true /\
  exists pf, @ants_crdt_verify toy_blake3 toy_ed25519 (Some pf) tt = Ok tt tt.
Proof.
  assert (Ha : ants_crdt_is_slashed (Some demo_set) demo_subject tt = Ok tt true) by (vm_compute; reflexivity).
  split; [exact Ha|].
  destruct (slashing_founded_permanent [demo_set] [demo_pruned] 0 demo_set demo_subject)
    as [(pf & w & Hpf & _) (st' & Hst & Hs)].
  - etrans; [apply demo_network|apply demo_network_insert].
  - reflexivity.
  - reflexivity.
  - exact Ha.
  - apply demo_network_prune.
  - change (Some demo_pruned = Some st') in Hst. apply (inj Some) in Hst.
    split; [rewrite Hst; exact Hs|exists pf; exact Hpf].
Defined.

(** A snapshot carries a set.  For a set of a network, the snapshot
    encoder succeeds on every buffer of at least [ants_crdt_snapshot_bound]
    bytes, and merging what it wrote into another set of the network either
    has the effect of merging the set itself with no proof rejected, or is
    interrupted by the allocator and takes nothing back. *)
Theorem snapshot_transfers_set `{B : Blake3} {Laws : Blake3Laws B} `{Ed : Ed25519} net i j st t buf h :
  rtc net_step [] net -> net !! i = Some st -> net !! j = Some t ->
  9 + proofs_total (proofs_of (slots st)) <= SIZE_MAX -> bytes_ok buf ->
  ants_crdt_snapshot_bound (Some st) <= zlen buf <= INT64_MAX ->
  exists w n, ants_crdt_snapshot_encode (Some st) (zlen buf) buf = Ok w n /\
    n <= ants_crdt_snapshot_bound (Some st) /\
    match ants_crdt_snapshot_merge (Some (take (Z.to_nat n) w)) (h, t) with
    | Ok (_, t') (added, rejected) => rejected = 0 /\
        denote t' = spec_merge (members (denote st)) (denote t)
    | Err (_, t') _ => grows (denote t) (denote t')
    | UB | NoFuel => False
    end.
Proof.
  intros Hr Hi Hj Hmax Hb Hbuf. destruct (network_set net i st Hr Hi) as [Hok Hv].
  destruct (network_set net j t Hr Hj) as [Hok' Hv'].
  pose proof (snapshot_size (slots st)) as Hsz.
  cbn [ants_crdt_snapshot_bound] in *. rewrite snapshot_total_eq in * by lia.
  assert (Hrd : readable (snapshot_cbor (slots st))) by (apply snapshot_readable; [done|lia]).
  destruct (emits_document _ (snapshot_body st) buf (zlen buf) Hrd) as (w & Hw & Ht);
    [intros e; by apply snapshot_emit|lia|lia|].
  exists w, (zlen (encode (snapshot_cbor (slots st)))). rewrite zlen_to_nat, Ht.
  split; [exact Hw|]. split; [exact Hsz|].
  pose proof (snapshot_merge_members h st t (encode (snapshot_cbor (slots st))) (conj Hok Hv) Hok') as Hm.
  assert (Hoct : octets (encode (snapshot_cbor (slots st)))) by (split; [apply encode_ok, Hrd|lia]).
  assert (Hdoc : document (encode (snapshot_cbor (slots st))) (snapshot_cbor (slots st)))
    by (split; [apply Hrd|split; [apply Hrd|done]]).
  specialize (Hm Hoct Hdoc).
  destruct (ants_crdt_snapshot_merge _ _) as [[h' t'] [a r]|[h' t'] e| |]; try done.
  - by destruct Hm as (-> & _ & Hd).
  - by apply Hm.
Qed.

Lemma snapshot_transfers_set_witness :
  exists w n, ants_crdt_snapshot_encode (Some demo_set) 600 (replicate 600 0) = Ok w n /\
    ants_crdt_contains (Some (left_set (ants_crdt_snapshot_merge (Some (take (Z.to_nat n) w)) ([], fresh_set))))
      (digest demo_proof) tt = Ok tt true.
Proof.
  destruct (snapshot_transfers_set [demo_set; fresh_set] 0 1 demo_set fresh_set (replicate 600 0) [])
    as (w & n & Hw & _ & Hm).
  - etrans; [etrans; [apply demo_network|apply demo_network_insert]|]. apply rtc_once, (fresh_step [demo_set]).
  - reflexivity.
  - reflexivity.
  - vm_compute. discriminate.
  - by_decision.
  - vm_compute. split; discriminate.
  - change (zlen (replicate 600 0)) with 600 in Hw. exists w, n. split; [exact Hw|]. clear Hm.
    vm_compute in Hw. injection Hw as <- <-. vm_compute. reflexivity.
Defined.
