(* ===== verification/InsertionSort.v ===== *)
(** * The in-place insertion sort of the client

    chain.c sorts the findings of a scan and the members of a committee with
    the same loop; it is modelled once, over a test [gt], on the array the
    code updates by index.  [None] is an access outside the array. *)

From S2P Require Import Prelude.

#[local] Arguments zlen {A} l : simpl never.

Section sort.
Context {A : Type} (gt : A -> A -> bool).

(** [while (j > 0 && buf[j - 1] > key) { buf[j] = buf[j - 1]; j--; } buf[j] = key] *)
Fixpoint shift_down (key : A) (j : nat) (buf : list A) : option (list A) :=
  match j with
  | O => splice buf 0 [key]
  | S j' =>
    x ← buf !! j';
    if gt x key then buf' ← splice buf (Z.of_nat j) [x]; shift_down key j' buf'
    else splice buf (Z.of_nat j) [key]
  end.

(** [for (i = i0; i < i0 + n; i++)] *)
Fixpoint insertion_loop (n i : nat) (buf : list A) : option (list A) :=
  match n with
  | O => Some buf
  | S n' => key ← buf !! i; buf' ← shift_down key i buf; insertion_loop n' (S i) buf'
  end.

(** The first [total] entries are sorted. *)
Definition insertion_sort (total : Z) (buf : list A) : option (list A) :=
  insertion_loop (Z.to_nat (total - 1)) 1 buf.

(** ** What it does *)

Definition le (x y : A) : Prop := gt x y = false.

Context (asym : forall x y, gt x y = true -> gt y x = false).

Lemma splice_at (a : list A) y b x :
  splice (a ++ y :: b) (Z.of_nat (length a)) [x] = Some (a ++ x :: b).
Proof.
  unfold splice. rewrite zlen_app, !zlen_cons. pose proof (zlen_nonneg b).
  replace (zlen (@nil A)) with 0 by done. repeat bdecide. cbn [andb length].
  rewrite Nat2Z.id, take_app_length, drop_app_ge by lia.
  by replace (length a + 1 - length a)%nat with 1%nat by lia.
Qed.

Lemma shift_down_ok key a : forall y b,
  exists a1 a2, a = a1 ++ a2 /\ Forall (fun x => gt x key = true) a2 /\
    (forall x, last a1 = Some x -> le x key) /\
    shift_down key (length a) (a ++ y :: b) = Some (a1 ++ key :: a2 ++ b).
Proof.
  induction a as [|x a IH] using rev_ind; intros y b.
  - exists [], []. split_and!; [done|constructor|done|]. exact (splice_at [] y b key).
  - rewrite length_app. cbn [length]. rewrite Nat.add_1_r. cbn [shift_down].
    rewrite <- app_assoc. cbn [app]. rewrite list_lookup_middle by done. cbn [mbind option_bind].
    pose proof (splice_at (a ++ [x]) y b) as Hs. rewrite length_app, <- !app_assoc in Hs.
    cbn [length app] in Hs. rewrite Nat.add_1_r in Hs. destruct (gt x key) eqn:E.
    + rewrite Hs. cbn [mbind option_bind]. destruct (IH x (x :: b)) as (a1 & a2 & -> & Ha2 & Hl & He).
      exists a1, (a2 ++ [x]). split_and!; [by rewrite <- app_assoc|by apply Forall_app; split; [|constructor]|done|].
      rewrite <- !app_assoc in *. cbn [app]. exact He.
    + exists (a ++ [x]), []. rewrite Hs. split_and!; [by rewrite app_nil_r|constructor| |].
      * intros z. rewrite last_snoc. by intros [= <-].
      * cbn [app]. by rewrite <- app_assoc.
Qed.

Lemma Sorted_insert key a1 a2 :
  Sorted le (a1 ++ a2) -> Forall (fun x => gt x key = true) a2 ->
  (forall x, last a1 = Some x -> le x key) -> Sorted le (a1 ++ key :: a2).
Proof.
  intros Hs H2 Hl. induction a1 as [|x a1 IH]; cbn [app] in *.
  - constructor; [done|]. destruct H2 as [|z a2 Hz]; constructor. by apply asym.
  - apply Sorted_inv in Hs as [Hs Hh]. constructor.
    + apply IH; [done|]. intros z Hz. apply Hl. by destruct a1.
    + destruct a1 as [|w a1]; cbn [app] in *; constructor; [by apply Hl|by inversion Hh].
Qed.

Lemma insertion_loop_ok n : forall a b,
  Sorted le a -> (n <= length b)%nat ->
  exists c, insertion_loop n (length a) (a ++ b) = Some (c ++ drop n b) /\
    Sorted le c /\ c ≡ₚ a ++ take n b.
Proof.
  induction n as [|n IH]; intros a b Ha Hn; cbn [insertion_loop].
  - exists a. by rewrite drop_0, take_0, app_nil_r.
  - destruct b as [|key b]; cbn [length] in Hn; [lia|].
    rewrite list_lookup_middle by done. cbn [mbind option_bind].
    destruct (shift_down_ok key a key b) as (a1 & a2 & -> & H2 & Hl & ->). cbn [mbind option_bind].
    pose proof (Sorted_insert key a1 a2 Ha H2 Hl) as Hs.
    destruct (IH (a1 ++ key :: a2) b Hs ltac:(lia)) as (c & He & Hc & Hp).
    exists c. split; [|split; [done|]].
    + rewrite length_app in *. cbn [length drop] in *. rewrite <- app_assoc in He.
      cbn [app] in He. by rewrite Nat.add_succ_r in He.
    + rewrite Hp. cbn [take]. rewrite <- !app_assoc. cbn [app]. solve_Permutation.
Qed.

Lemma insertion_sort_ok total buf :
  0 <= total <= zlen buf ->
  exists c, insertion_sort total buf = Some (c ++ drop (Z.to_nat total) buf) /\
    Sorted le c /\ c ≡ₚ take (Z.to_nat total) buf.
Proof.
  intros Ht. unfold insertion_sort. destruct (Z.leb_spec total 0).
  { exists []. replace total with 0 by lia. split; [done|]. split; [constructor|done]. }
  destruct buf as [|x b]; [short_list|].
  destruct (insertion_loop_ok (Z.to_nat (total - 1)) [x] b) as (c & He & Hc & Hp).
  { repeat constructor. }
  { unfold zlen in Ht. cbn [length] in Ht. lia. }
  replace (Z.to_nat total) with (S (Z.to_nat (total - 1))) by lia. cbn [drop take]. by exists c.
Qed.
End sort.

(** A sorted list is pairwise sorted where the order is transitive. *)
Lemma Sorted_strong_on {A} (R : A -> A -> Prop) (P : A -> Prop) l :
  (forall x y z, P x -> P y -> P z -> R x y -> R y z -> R x z) ->
  Forall P l -> Sorted R l -> StronglySorted R l.
Proof.
  intros Ht HP. induction l as [|x l IH]; intros Hs; [constructor|].
  apply Forall_cons in HP as [Hx HP]. apply Sorted_inv in Hs as [Hs Hh]. specialize (IH HP Hs).
  constructor; [done|]. destruct l as [|y l]; constructor; [by inversion Hh|].
  apply StronglySorted_inv in IH as [_ Hy]. apply Forall_cons in HP as [Py Pl].
  inversion_clear Hh. rewrite Forall_forall in Hy, Pl |- *. intros z Hz. apply (Ht x y z); auto.
Qed.
