(* ===== verification/Reputation.v ===== *)
(** * Reputation (src/reputation/identity/src/reputation.c)

    The fixed-point arithmetic of decay, the saturating transform for fork
    choice, receipts and their verification, and the computation of (A, T)
    from a bag of receipts.  A [uint64_t] is a [Z] below 2^64, arithmetic
    wraps where C's does. *)

From S2P Require Import Prelude Cbor CborKv Crypto.

Module Reputation.

(** ** Data *)

Definition ANTS_REP_PEER_ID_SIZE : Z := 32.
Definition ANTS_REP_NONCE_SIZE : Z := 16.
Definition ANTS_REP_SIG_SIZE : Z := 64.
Definition ANTS_REP_FP_BITS : Z := 32.
Definition ANTS_REP_FP_ONE : Z := Z.shiftl 1 ANTS_REP_FP_BITS.
Definition ANTS_REP_BIN_WIDTH_S : Z := 3600.
Definition ANTS_REP_DECAY_RATIO_A_Q32 : Z := Z.shiftl 1 (ANTS_REP_FP_BITS - 1).
Definition ANTS_REP_DECAY_RATIO_T_Q32 : Z := 4252017623.
Definition ANTS_REP_KAPPA_UNCS_PER_BIN : Z := 1000000.
Definition ANTS_REP_T_FORK_CHOICE_CAP : Z := 2000000000.
Definition ANTS_REP_EXP_NEG1_Q32 : Z := 1580030169.
Definition ANTS_REP_TAYLOR_TERMS : nat := 16.
Definition ANTS_REP_RECEIPT_BODY_ENCODED_MAX : Z := 128.
Definition ANTS_REP_MAX_RECEIPTS : Z := 4096.

Record ants_reputation_receipt_t : Type := mk_receipt {
  server : bytes; client : bytes; ncs_value : Z; timestamp_unix_s : Z; nonce : bytes;
  server_sig : bytes; client_sig : bytes
}.

Record ants_reputation_params_t : Type := mk_params {
  decay_ratio_a_q32 : Z; decay_ratio_t_q32 : Z; kappa_uncs_per_bin : Z; bin_width_s : Z
}.

(** ** Fixed-point arithmetic *)

Definition sat_add_u64 (a b : Z) : Z := if UINT64_MAX - b <? a then UINT64_MAX else u64 (a + b).

Definition ants_reputation_fp_mul (a_q32 b_q32 : Z) : Z :=
  if ANTS_REP_FP_ONE <=? a_q32 then b_q32
  else if ANTS_REP_FP_ONE <=? b_q32 then a_q32
  else Z.shiftr (u64 (a_q32 * b_q32)) ANTS_REP_FP_BITS.

(** [for (k = 0; k < n; k++) { s = step(s); if (stop(s)) break; }], for a
    start that is not a stop.  The count is binary, so the loop is as fast as
    the code's whatever [n]. *)
Fixpoint loop_until {St} (n : positive) (step : St -> St) (stop : St -> bool) (s : St) : St :=
  if stop s then s
  else match n with
  | xH => step s
  | xO m => loop_until m step stop (loop_until m step stop s)
  | xI m => loop_until m step stop (loop_until m step stop (step s))
  end.

Definition ants_reputation_decay_factor (ratio_q32 age_bins : Z) : Z :=
  if (ANTS_REP_FP_ONE <=? ratio_q32) || (age_bins =? 0) then ANTS_REP_FP_ONE
  else match age_bins with
  | Zpos n => loop_until n (fun acc => ants_reputation_fp_mul acc ratio_q32) (fun acc => acc =? 0) ANTS_REP_FP_ONE
  | _ => ANTS_REP_FP_ONE
  end.

Definition apply_decay (value factor_q32 : Z) : Z :=
  if ANTS_REP_FP_ONE <=? factor_q32 then value
  else
    let hi := Z.shiftr value 32 in
    let lo := Z.land value 0xFFFFFFFF in
    let lo_term := Z.shiftr (u64 (lo * factor_q32)) ANTS_REP_FP_BITS in
    if negb (hi =? 0) && (UINT64_MAX / hi <? factor_q32) then UINT64_MAX
    else
      let hi_term := u64 (hi * factor_q32) in
      let r := u64 (hi_term + lo_term) in
      if r <? hi_term then UINT64_MAX else r.

Definition receipt_a_contribution (r : ants_reputation_receipt_t) (now_unix_s : Z)
  (params : ants_reputation_params_t) : Z :=
  let age_bins := u64 (now_unix_s - timestamp_unix_s r) / bin_width_s params in
  let factor := ants_reputation_decay_factor (decay_ratio_a_q32 params) age_bins in
  apply_decay (ncs_value r) factor.

(** ** The saturating transform *)

Fixpoint muldiv_loop (n : nat) (d rem q : Z) : Z :=
  match n with
  | O => q
  | S n' =>
    if u64 (d - rem) <=? rem
    then muldiv_loop n' d (u64 (rem - u64 (d - rem))) (Z.lor (u64 (Z.shiftl q 1)) 1)
    else muldiv_loop n' d (u64 (rem + rem)) (u64 (Z.shiftl q 1))
  end.

Definition muldiv_q32 (a d : Z) : Z := muldiv_loop 32 d a 0.

(** [for (k = TERMS; k >= 1; k--)] *)
Fixpoint taylor_loop (k : nat) (f_q32 s : Z) : Z :=
  match k with
  | O => s
  | S k' =>
    let term := ants_reputation_fp_mul f_q32 s / Z.of_nat k in
    taylor_loop k' f_q32 (u64 (ANTS_REP_FP_ONE - term))
  end.

Definition taylor_expneg_q32 (f_q32 : Z) : Z := taylor_loop ANTS_REP_TAYLOR_TERMS f_q32 ANTS_REP_FP_ONE.

Definition expneg_ratio_q32 (t t_cap : Z) : Z :=
  let n := t / t_cap in
  let rem := t mod t_cap in
  let f_q32 := muldiv_q32 rem t_cap in
  let int_part := ants_reputation_decay_factor ANTS_REP_EXP_NEG1_Q32 n in
  let frac_part := taylor_expneg_q32 f_q32 in
  ants_reputation_fp_mul int_part frac_part.

Definition ants_reputation_t_eff (t t_cap : Z) : action unit Z :=
  if t_cap =? 0 then fail ANTS_ERROR_INVALID_ARG
  else
    let expx := expneg_ratio_q32 t t_cap in
    let one_minus := u64 (ANTS_REP_FP_ONE - expx) in
    ret (apply_decay t_cap one_minus).

(** ** Receipts *)

Definition REP_BODY_PAIRS : Z := 5.
Definition REP_KEY_SERVER : Z := 1.
Definition REP_KEY_CLIENT : Z := 2.
Definition REP_KEY_NCS : Z := 3.
Definition REP_KEY_TIMESTAMP : Z := 4.
Definition REP_KEY_NONCE : Z := 5.

Definition receipt_body (r : ants_reputation_receipt_t) : action ants_cbor_enc_t unit :=
  ants_cbor_enc_map REP_BODY_PAIRS ;*
  enc_kv_bytes REP_KEY_SERVER (server r) ;*
  enc_kv_bytes REP_KEY_CLIENT (client r) ;*
  enc_kv_uint REP_KEY_NCS (ncs_value r) ;*
  enc_kv_uint REP_KEY_TIMESTAMP (timestamp_unix_s r) ;*
  enc_kv_bytes REP_KEY_NONCE (nonce r).

Definition ants_reputation_receipt_body_encode (r : ants_reputation_receipt_t) (cap : Z) : action bytes Z :=
  with_encoder cap (receipt_body r).

(** The local array [body] and its length; its first contents are arbitrary
    and never read. *)
Definition receipt_body_local (r : ants_reputation_receipt_t) : action unit (bytes * Z) := fun u =>
  match ants_reputation_receipt_body_encode r ANTS_REP_RECEIPT_BODY_ENCODED_MAX
          (replicate (Z.to_nat ANTS_REP_RECEIPT_BODY_ENCODED_MAX) 0) with
  | Ok body body_len => Ok u (body, body_len)
  | Err _ e => Err u e
  | UB => UB
  | NoFuel => NoFuel
  end.

Section receipts.
Context `{Ed : Ed25519}.

(** One of the two signature checks: an argument error is passed on, any
    other refusal is a false verdict. *)
Definition signature_verdict (pub body : bytes) (body_len : Z) (sig : bytes) : action unit bool := fun u =>
  match ants_ed25519_verify pub (Some body) body_len sig with
  | Ok _ _ => Ok u true
  | Err _ ANTS_ERROR_INVALID_ARG => Err u ANTS_ERROR_INVALID_ARG
  | Err _ _ => Ok u false
  | UB => UB
  | NoFuel => NoFuel
  end.

Definition ants_reputation_receipt_verify (r : ants_reputation_receipt_t) : action unit bool :=
  let* (body, body_len) := receipt_body_local r in
  let* ok := signature_verdict (server r) body body_len (server_sig r) in
  if negb ok then ret false
  else signature_verdict (client r) body body_len (client_sig r).

(** ** The (A, T) computation *)

Definition ants_reputation_params_default : ants_reputation_params_t :=
  mk_params ANTS_REP_DECAY_RATIO_A_Q32 ANTS_REP_DECAY_RATIO_T_Q32 ANTS_REP_KAPPA_UNCS_PER_BIN ANTS_REP_BIN_WIDTH_S.

(** The entries of [valid] and the running [a_total], over the receipts from
    [i] on. *)
Fixpoint validity_pass (server_id : bytes) (now_unix_s : Z) (params : ants_reputation_params_t)
  (receipts : list ants_reputation_receipt_t) (a_total : Z) : action unit (list bool * Z) :=
  match receipts with
  | [] => ret ([], a_total)
  | r :: rest =>
    let* ok := ants_reputation_receipt_verify r in
    let valid := ok && (memcmp (server r) server_id =? 0) && negb (now_unix_s <? timestamp_unix_s r) in
    let a_total := if valid then sat_add_u64 a_total (receipt_a_contribution r now_unix_s params) else a_total in
    let* (valids, a) := validity_pass server_id now_unix_s params rest a_total in
    ret (valid :: valids, a)
  end.

Definition bin_of (params : ants_reputation_params_t) (r : ants_reputation_receipt_t) : Z :=
  timestamp_unix_s r / bin_width_s params.

(** [for (j = 0; j < i; j++)] *)
Fixpoint bin_seen (params : ants_reputation_params_t) (bin_i : Z)
  (before : list (ants_reputation_receipt_t * bool)) : bool :=
  match before with
  | [] => false
  | (r, valid) :: rest => if valid && (bin_of params r =? bin_i) then true else bin_seen params bin_i rest
  end.

(** [for (j = i; j < n_receipts; j++)] *)
Fixpoint bin_sum (params : ants_reputation_params_t) (bin_i : Z)
  (after : list (ants_reputation_receipt_t * bool)) (bin_total : Z) : Z :=
  match after with
  | [] => bin_total
  | (r, valid) :: rest =>
    bin_sum params bin_i rest
      (if valid && (bin_of params r =? bin_i) then sat_add_u64 bin_total (ncs_value r) else bin_total)
  end.

(** [for (i = 0; i < n_receipts; i++)]: the receipts before [i], and from [i]
    on, with their validity. *)
Fixpoint tenure_pass (params : ants_reputation_params_t) (now_bin : Z)
  (before after : list (ants_reputation_receipt_t * bool)) (t_total : Z) : Z :=
  match after with
  | [] => t_total
  | (r, valid) :: rest =>
    let next := tenure_pass params now_bin (before ++ [(r, valid)]) rest in
    if negb valid then next t_total
    else
      let bin_i := bin_of params r in
      if bin_seen params bin_i before then next t_total
      else
        let bin_total := bin_sum params bin_i after 0 in
        let clipped := if bin_total <? kappa_uncs_per_bin params then bin_total else kappa_uncs_per_bin params in
        let bin_age := u64 (now_bin - bin_i) in
        let factor_t := ants_reputation_decay_factor (decay_ratio_t_q32 params) bin_age in
        next (sat_add_u64 t_total (apply_decay clipped factor_t))
  end.

(** The results are [*out_a] and [*out_t]. *)
Definition ants_reputation_compute (server_id : bytes) (receipts : option (list ants_reputation_receipt_t))
  (n_receipts now_unix_s : Z) (params : option ants_reputation_params_t) : action unit (Z * Z) :=
  match params with
  | None => fail ANTS_ERROR_INVALID_ARG
  | Some params =>
    if (0 <? n_receipts) && is_null receipts then fail ANTS_ERROR_INVALID_ARG
    else if ANTS_REP_MAX_RECEIPTS <? n_receipts then fail ANTS_ERROR_INVALID_ARG
    else if (bin_width_s params =? 0) || (decay_ratio_a_q32 params =? 0) || (decay_ratio_t_q32 params =? 0)
    then fail ANTS_ERROR_INVALID_ARG
    else
      let* rs := deref (first_n (default [] receipts) n_receipts) in
      let now_bin := now_unix_s / bin_width_s params in
      let* (valid, a_total) := validity_pass server_id now_unix_s params rs 0 in
      ret (a_total, tenure_pass params now_bin [] (zip rs valid) 0)
  end.

(** The callback with its context is a function of the peer-id. *)
Definition ants_reputation_compute_checked (server_id : bytes) (receipts : option (list ants_reputation_receipt_t))
  (n_receipts now_unix_s : Z) (params : option ants_reputation_params_t) (is_slashed : option (bytes -> bool))
  : action unit (Z * Z) :=
  if match is_slashed with Some f => f server_id | None => false end then ret (0, 0)
  else ants_reputation_compute server_id receipts n_receipts now_unix_s params.
End receipts.

End Reputation.
