(* ===== verification/RepFixed.v ===== *)
(** * The fixed-point arithmetic is exact (reputation.c)

    The q32 product, the decay factor, the scaling of a value and the binary
    long division compute their mathematical definitions; no intermediate
    wraps and the saturation branches are never taken.

    Then: what decay and the saturating transform T_eff guarantee. *)

From S2P Require Import Prelude Cbor CborKv Crypto Reputation.
Import Reputation.

(** A q32 number between 0 and 1. *)
Definition is_q32 (x : Z) : Prop := 0 <= x <= 2 ^ 32.

Lemma fp_one : ANTS_REP_FP_ONE = 2 ^ 32.
Proof. reflexivity. Qed.

Lemma fp_mul_eq a b : is_q32 a -> is_q32 b -> ants_reputation_fp_mul a b = a * b / 2 ^ 32.
Proof.
  unfold is_q32, ants_reputation_fp_mul. rewrite fp_one. intros Ha Hb.
  destruct (Z.leb_spec (2 ^ 32) a).
  - replace a with (2 ^ 32) by lia. by rewrite Z.mul_comm, Z.div_mul.
  - destruct (Z.leb_spec (2 ^ 32) b).
    + replace b with (2 ^ 32) by lia. by rewrite Z.div_mul.
    + rewrite u64_small by (red; nia). by rewrite Z.shiftr_div_pow2.
Qed.

Lemma fp_mul_q32 a b : is_q32 a -> is_q32 b -> is_q32 (a * b / 2 ^ 32).
Proof.
  unfold is_q32. intros Ha Hb. split; [apply Z.div_pos; nia|]. apply Z.div_le_upper_bound; nia.
Qed.

Lemma fp_mul_le a b : is_q32 a -> is_q32 b -> a * b / 2 ^ 32 <= a.
Proof. unfold is_q32. intros Ha Hb. apply Z.div_le_upper_bound; nia. Qed.

Lemma q32_min ratio : 0 <= ratio -> is_q32 (Z.min ratio (2 ^ 32)).
Proof. unfold is_q32. lia. Qed.

(** ** The decay factor *)

Lemma loop_until_iter {St} (step : St -> St) stop n : forall s,
  (forall s, stop s = true -> step s = s) ->
  loop_until n step stop s = Nat.iter (Pos.to_nat n) step s.
Proof.
  intros s Hs. assert (Hfix : forall k s, stop s = true -> Nat.iter k step s = s).
  { induction k as [|k IH]; intros s' H; [done|]. rewrite Nat.iter_succ, IH, Hs; done. }
  revert s. induction n as [m IH|m IH|]; intros s; cbn [loop_until];
    destruct (stop s) eqn:E; try (by rewrite Hfix); try done.
  - rewrite !IH, <- Nat.iter_add, <- Nat.iter_succ_r. f_equal. lia.
  - rewrite !IH, <- Nat.iter_add. f_equal. lia.
Qed.

(** The factor after [age] bins: the truncated product, once per bin. *)
Definition decay (ratio age : Z) : Z :=
  Nat.iter (Z.to_nat age) (fun acc => acc * Z.min ratio (2 ^ 32) / 2 ^ 32) (2 ^ 32).

Lemma decay_range ratio age : 0 <= ratio -> is_q32 (decay ratio age).
Proof.
  intros Hr. unfold decay. induction (Z.to_nat age) as [|k IH]; [done|]. rewrite Nat.iter_succ.
  by apply fp_mul_q32, q32_min.
Qed.

Lemma decay_succ ratio k :
  0 <= k -> decay ratio (k + 1) = decay ratio k * Z.min ratio (2 ^ 32) / 2 ^ 32.
Proof. intros Hk. unfold decay. by replace (Z.to_nat (k + 1)) with (S (Z.to_nat k)) by lia. Qed.

Lemma decay_mono ratio k m : 0 <= ratio -> 0 <= k <= m -> decay ratio m <= decay ratio k.
Proof.
  intros Hr [Hk Hm]. replace m with (k + Z.of_nat (Z.to_nat (m - k))) by lia.
  induction (Z.to_nat (m - k)) as [|j IH]; [by rewrite Z.add_0_r|].
  etransitivity; [|exact IH]. rewrite Nat2Z.inj_succ, <- Z.add_1_r, Z.add_assoc, decay_succ by lia.
  apply fp_mul_le; [by apply decay_range|by apply q32_min].
Qed.

(** A ratio below one dies out. *)
Lemma decay_dies ratio k : 0 <= ratio < 2 ^ 32 -> 0 <= k -> decay ratio k <= Z.max 0 (2 ^ 32 - k).
Proof.
  intros Hr Hk. rewrite <- (Z2Nat.id k) by done. induction (Z.to_nat k) as [|j IH]; [done|].
  rewrite Nat2Z.inj_succ, <- Z.add_1_r, decay_succ, Z.min_l by lia.
  pose proof (decay_range ratio (Z.of_nat j) ltac:(lia)) as [H0 _]. set (d := decay ratio (Z.of_nat j)) in *.
  destruct (decide (d = 0)) as [->|]; [cbn; lia|]. enough (d * ratio / 2 ^ 32 < d) by lia.
  apply Z.div_lt_upper_bound; nia.
Qed.

Lemma iter_ext {A} (f g : A -> A) (P : A -> Prop) k x :
  (forall y, P y -> f y = g y /\ P (g y)) -> P x -> Nat.iter k f x = Nat.iter k g x.
Proof.
  intros H Hx. enough (Nat.iter k f x = Nat.iter k g x /\ P (Nat.iter k g x)) by tauto.
  induction k as [|k [IH Hp]]; [done|]. rewrite !Nat.iter_succ, IH. by apply H.
Qed.

Lemma decay_factor_eq ratio age :
  0 <= ratio -> 0 <= age -> ants_reputation_decay_factor ratio age = decay ratio age.
Proof.
  intros Hr Ha. unfold ants_reputation_decay_factor. rewrite fp_one.
  destruct (Z.leb_spec (2 ^ 32) ratio) as [Hge|Hlt]; cbn [orb].
  - unfold decay. rewrite Z.min_r by done. induction (Z.to_nat age) as [|k IH]; [done|].
    by rewrite Nat.iter_succ, <- IH, Z.div_mul.
  - destruct age as [|n|]; [done| |lia]. cbn [Z.eqb].
    rewrite loop_until_iter.
    + unfold decay. rewrite Z.min_l by lia. change (Z.to_nat (Zpos n)) with (Pos.to_nat n).
      apply (iter_ext _ _ is_q32); [|unfold is_q32; lia]. intros y Hy.
      assert (is_q32 ratio) by (unfold is_q32; lia). split; [by apply fp_mul_eq|by apply fp_mul_q32].
    + intros s ->%Z.eqb_eq. by rewrite fp_mul_eq by (unfold is_q32; lia).
Qed.

(** ** Scaling a value *)

Lemma apply_decay_eq v f : is_u64 v -> is_q32 f -> apply_decay v f = v * f / 2 ^ 32.
Proof.
  unfold is_u64, is_q32, apply_decay. rewrite fp_one. intros Hv Hf.
  destruct (Z.leb_spec (2 ^ 32) f) as [|Hlt].
  { replace f with (2 ^ 32) by lia. by rewrite Z.div_mul. }
  rewrite Z.shiftr_div_pow2 by lia. change 0xFFFFFFFF with (Z.ones 32). rewrite land_low by lia.
  set (hi := v / 2 ^ 32). set (lo := v mod 2 ^ 32).
  assert (Hsplit : v = hi * 2 ^ 32 + lo) by (subst hi lo; rewrite Z.mul_comm; apply Z.div_mod; lia).
  assert (0 <= lo < 2 ^ 32) by (apply Z.mod_pos_bound; lia).
  assert (0 <= hi < 2 ^ 32) by (subst hi; split; [apply Z.div_pos; lia|apply Z.div_lt_upper_bound; lia]).
  clearbody hi lo. subst v. cbv zeta.
  replace (negb (hi =? 0) && (UINT64_MAX / hi <? f)) with false.
  - change ANTS_REP_FP_BITS with 32. rewrite (u64_small (lo * f)) by (red; nia). rewrite Z.shiftr_div_pow2 by lia.
    assert (0 <= lo * f / 2 ^ 32 < 2 ^ 32) by (split; [apply Z.div_pos; nia|apply Z.div_lt_upper_bound; nia]).
    rewrite (u64_small (hi * f)) by (red; nia). rewrite u64_small by (red; nia). bdecide.
    replace ((hi * 2 ^ 32 + lo) * f) with (hi * f * 2 ^ 32 + lo * f) by lia. by rewrite Z.div_add_l by lia.
  - symmetry. destruct (Z.eqb_spec hi 0) as [|Hhi]; [done|]. cbn [negb andb]. apply Z.ltb_ge.
    apply Z.div_le_lower_bound; [lia|]. unfold UINT64_MAX. nia.
Qed.

(** ** Long division *)

Lemma muldiv_loop_eq n d : forall rem q k,
  0 <= rem < d -> d < 2 ^ 64 -> 0 <= q < 2 ^ Z.of_nat k -> (k + n <= 32)%nat ->
  muldiv_loop n d rem q = q * 2 ^ Z.of_nat n + rem * 2 ^ Z.of_nat n / d.
Proof.
  induction n as [|n IH]; intros rem q k Hr Hd Hq Hk; cbn [muldiv_loop].
  { change (2 ^ Z.of_nat 0) with 1. rewrite !Z.mul_1_r, Z.div_small; lia. }
  assert (H2k : 2 ^ Z.of_nat k <= 2 ^ 32) by (apply Z.pow_le_mono_r; lia).
  assert (Hk1 : 2 ^ Z.of_nat (S k) = 2 * 2 ^ Z.of_nat k) by (rewrite Nat2Z.inj_succ, Z.pow_succ_r; lia).
  assert (Hp : 2 ^ Z.of_nat (S n) = 2 * 2 ^ Z.of_nat n) by (rewrite Nat2Z.inj_succ, Z.pow_succ_r; lia).
  rewrite (u64_small (d - rem)) by (red; lia). rewrite Z.shiftl_mul_pow2 by lia. change (2 ^ 1) with 2.
  rewrite (u64_small (q * 2)) by (red; lia). destruct (Z.leb_spec (d - rem) rem).
  - rewrite (u64_small (rem - (d - rem))) by (red; lia).
    replace (Z.lor (q * 2) 1) with (2 * q + 1) by (change (q * 2) with (q * 2 ^ 1); rewrite <- Z.shiftl_mul_pow2, lor_disjoint by lia; lia).
    rewrite (IH _ _ (S k)) by lia. rewrite Hp.
    replace (rem * (2 * 2 ^ Z.of_nat n)) with (2 ^ Z.of_nat n * d + (rem - (d - rem)) * 2 ^ Z.of_nat n) by lia.
    rewrite Z.div_add_l by lia. lia.
  - rewrite (u64_small (rem + rem)) by (red; lia). rewrite (IH _ _ (S k)) by lia. rewrite Hp.
    f_equal; [lia|]. f_equal. lia.
Qed.

Lemma muldiv_eq a d : 0 <= a < d -> d < 2 ^ 64 -> muldiv_q32 a d = a * 2 ^ 32 / d.
Proof.
  intros Ha Hd. unfold muldiv_q32. rewrite (muldiv_loop_eq 32 d a 0 0) by (done || lia).
  by change (Z.of_nat 32) with 32.
Qed.

(** * Decay and the saturating transform (reputation.c)

    What the decay of a value and T_eff guarantee, and the place where T_eff
    is not the monotone function its header announces. *)

Lemma taylor_loop_range k f : is_q32 f -> forall s, is_q32 s -> is_q32 (taylor_loop k f s).
Proof.
  intros Hf. induction k as [|k IH]; intros s Hs; [done|]. cbn [taylor_loop]. apply IH.
  rewrite fp_mul_eq by done. pose proof (fp_mul_q32 f s Hf Hs) as Hp. set (p := f * s / 2 ^ 32) in *.
  assert (0 <= p / Z.of_nat (S k) <= p) by (split; [apply Z.div_pos|apply Z.div_le_upper_bound]; unfold is_q32 in Hp; nia).
  rewrite fp_one. unfold is_q32 in *. rewrite u64_small by (red; lia). lia.
Qed.

Lemma taylor_range f : is_q32 f -> is_q32 (taylor_expneg_q32 f).
Proof. intros Hf. apply taylor_loop_range; [done|]. by vm_compute. Qed.

(** exp(-t/t_cap) as the code approximates it. *)
Definition exp_neg (t t_cap : Z) : Z :=
  decay ANTS_REP_EXP_NEG1_Q32 (t / t_cap) * taylor_expneg_q32 (t mod t_cap * 2 ^ 32 / t_cap) / 2 ^ 32.

Lemma fraction_q32 t t_cap : 0 < t_cap -> is_q32 (t mod t_cap * 2 ^ 32 / t_cap).
Proof.
  intros Hc. pose proof (Z.mod_pos_bound t t_cap Hc). unfold is_q32.
  split; [apply Z.div_pos; nia|]. apply Z.div_le_upper_bound; nia.
Qed.

Lemma exp_neg_range t t_cap : 0 < t_cap -> is_q32 (exp_neg t t_cap).
Proof.
  intros Hc. apply fp_mul_q32; [by apply decay_range|]. by apply taylor_range, fraction_q32.
Qed.

Lemma expneg_ratio_eq t t_cap :
  0 <= t -> 0 < t_cap < 2 ^ 64 -> expneg_ratio_q32 t t_cap = exp_neg t t_cap.
Proof.
  intros Ht Hc. unfold expneg_ratio_q32, exp_neg.
  rewrite muldiv_eq by (apply Z.mod_pos_bound || lia; lia).
  rewrite decay_factor_eq by (done || (apply Z.div_pos; lia)).
  apply fp_mul_eq; [by apply decay_range|apply taylor_range, fraction_q32; lia].
Qed.

Lemma t_eff_eq t t_cap u :
  0 <= t -> 0 < t_cap < 2 ^ 64 ->
  ants_reputation_t_eff t t_cap u = Ok u (t_cap * (2 ^ 32 - exp_neg t t_cap) / 2 ^ 32).
Proof.
  intros Ht Hc. unfold ants_reputation_t_eff. bdecide. rewrite expneg_ratio_eq, fp_one by done.
  pose proof (exp_neg_range t t_cap ltac:(lia)) as He. unfold is_q32 in He.
  rewrite u64_small by (red; lia). rewrite apply_decay_eq; [done|red; lia|unfold is_q32; lia].
Qed.

(** The saturating transform never exceeds the cap, is zero for no tenure
    and reaches the cap once the tenure is 22 caps; it is the cap scaled by
    one minus the q32 exponential, without any overflow.  A zero cap is
    refused. *)
Theorem t_eff_saturates t t_cap u :
  0 <= t < 2 ^ 64 -> 0 <= t_cap < 2 ^ 64 ->
  match ants_reputation_t_eff t t_cap u with
  | Ok _ v => 0 < t_cap /\ v = t_cap * (2 ^ 32 - exp_neg t t_cap) / 2 ^ 32 /\ 0 <= v <= t_cap /\
      (t = 0 -> v = 0) /\ (22 * t_cap <= t -> v = t_cap)
  | Err _ e => t_cap = 0 /\ e = ANTS_ERROR_INVALID_ARG
  | UB | NoFuel => False
  end.
Proof.
  intros Ht Hc. destruct (decide (t_cap = 0)) as [->|Hne]; [done|].
  rewrite t_eff_eq by lia. pose proof (exp_neg_range t t_cap ltac:(lia)) as He.
  split; [lia|]. split; [done|]. unfold is_q32 in He. split_and!.
  - apply Z.div_pos; nia.
  - apply Z.div_le_upper_bound; nia.
  - intros ->. unfold exp_neg. rewrite Z.div_0_l, Z.mod_0_l, Z.div_0_l by lia.
    replace (decay ANTS_REP_EXP_NEG1_Q32 0 * taylor_expneg_q32 0 / 2 ^ 32) with (2 ^ 32) by (by vm_compute).
    by rewrite Z.sub_diag, Z.mul_0_r.
  - intros Hbig. assert (Hd : decay ANTS_REP_EXP_NEG1_Q32 (t / t_cap) = 0).
    { assert (22 <= t / t_cap) by (apply Z.div_le_lower_bound; lia).
      pose proof (decay_mono ANTS_REP_EXP_NEG1_Q32 22 (t / t_cap) ltac:(done) ltac:(lia)) as Hm.
      replace (decay ANTS_REP_EXP_NEG1_Q32 22) with 0 in Hm by (by vm_compute).
      pose proof (decay_range ANTS_REP_EXP_NEG1_Q32 (t / t_cap) ltac:(done)) as Hr. unfold is_q32 in Hr. lia. }
    unfold exp_neg. rewrite Hd. cbn [Z.mul]. rewrite Z.div_0_l, Z.sub_0_r by lia. by rewrite Z.div_mul.
Qed.

Lemma t_eff_saturates_witness : exists v, ants_reputation_t_eff 5000000000 2000000000 tt = Ok tt v /\ 0 <= v <= 2000000000.
Proof.
  pose proof (t_eff_saturates 5000000000 2000000000 tt ltac:(lia) ltac:(lia)) as H.
  destruct (ants_reputation_t_eff 5000000000 2000000000 tt) as [[] v|? e| |]; [|lia|destruct H..].
  exists v. split; [done|]. apply H.
Defined.

(** With the default cap, one more unit of tenure can weigh less: the header
    calls T_eff monotone non-decreasing. *)
Lemma t_eff_not_monotone :
  ants_reputation_t_eff 1926468621 ANTS_REP_T_FORK_CHOICE_CAP tt = Ok tt 1236687016 /\
  ants_reputation_t_eff 1926468622 ANTS_REP_T_FORK_CHOICE_CAP tt = Ok tt 1236687015.
Proof. split; vm_compute; reflexivity. Qed.

(** Decay is exact: the factor is one, multiplied by the ratio and
    truncated once per bin of age, whatever the age; it stays between zero and
    one, never grows with age, and for a ratio below one is gone after at most
    2^32 bins, which bounds the loop.  A value is scaled by it with a single
    truncation: the saturation branches are never taken. *)
Theorem decay_exact value ratio age :
  is_u64 value -> is_u64 ratio -> is_u64 age ->
  let f := ants_reputation_decay_factor ratio age in
  f = Nat.iter (Z.to_nat age) (fun acc => acc * Z.min ratio (2 ^ 32) / 2 ^ 32) (2 ^ 32) /\
  is_q32 f /\
  (forall younger, 0 <= younger <= age -> f <= ants_reputation_decay_factor ratio younger) /\
  (ratio < 2 ^ 32 -> 2 ^ 32 <= age -> f = 0) /\
  apply_decay value f = value * f / 2 ^ 32.
Proof.
  intros Hv Hr Ha f. unfold is_u64 in *. assert (Hf : f = decay ratio age) by (apply decay_factor_eq; lia).
  pose proof (decay_range ratio age ltac:(lia)) as Hq. rewrite <- Hf in Hq.
  split; [done|]. split; [done|]. split_and!.
  - intros y Hy. rewrite Hf, decay_factor_eq by lia. apply decay_mono; lia.
  - intros Hlt Hge. pose proof (decay_dies ratio age ltac:(lia) ltac:(lia)). rewrite Hf in *. unfold is_q32 in Hq. lia.
  - by apply apply_decay_eq.
Qed.

Lemma decay_exact_witness :
  apply_decay 1000000 (ants_reputation_decay_factor ANTS_REP_DECAY_RATIO_A_Q32 3) = 125000.
Proof.
  pose proof (decay_exact 1000000 ANTS_REP_DECAY_RATIO_A_Q32 3 ltac:(done) ltac:(done) ltac:(done)) as H.
  cbv zeta in H. destruct H as (Hf & _ & _ & _ & ->). rewrite Hf. vm_compute. reflexivity.
Defined.
