(* ===== verification/RepCompute.v ===== *)
(** * Receipts (reputation.c)

    The signed body of a receipt is the canonical encoding of the documented
    map, and a receipt verifies exactly if both parties signed that body.

    The receipts come first, then the computation. *)

From S2P Require Import Prelude Cbor CborSpec CborTrack CborEnc CborContract CborKv CborRecord CborCodec.
From S2P Require Import CborParse Crypto BondThms BondCodec Reputation RepFixed.
Import Reputation.

#[local] Arguments zlen {A} l : simpl never.

Definition receipt_cbor (r : ants_reputation_receipt_t) : cbor :=
  CMap [(CUint 1, CBytes (server r)); (CUint 2, CBytes (client r)); (CUint 3, CUint (ncs_value r));
        (CUint 4, CUint (timestamp_unix_s r)); (CUint 5, CBytes (nonce r))].

(** The field types of the C struct. *)
Definition receipt_ok (r : ants_reputation_receipt_t) : Prop :=
  hash_ok (server r) /\ hash_ok (client r) /\ is_u64 (ncs_value r) /\ is_u64 (timestamp_unix_s r) /\
  (bytes_ok (nonce r) /\ zlen (nonce r) = 16).

Lemma receipt_wf r : receipt_ok r -> wf (receipt_cbor r).
Proof.
  intros (Hs & Hc & Hv & Ht & Hn & Hnl). apply wf_map.
  split; [done|]. split; [by repeat constructor|].
  repeat (constructor; [split; [done|]; first [done | by apply hash_wf | by split; [|zlia]]|]). constructor.
Qed.

Lemma receipt_size r :
  receipt_ok r -> zlen (encode (receipt_cbor r)) <= ANTS_REP_RECEIPT_BODY_ENCODED_MAX.
Proof.
  intros ((_ & Hs) & (_ & Hc) & _ & _ & (_ & Hn)).
  cbn [receipt_cbor encode map concat]. rewrite !zlen_app, Hs, Hc, Hn.
  pose proof (head_size 0 (ncs_value r)). pose proof (head_size 0 (timestamp_unix_s r)).
  rewrite (head_size_tiny 0 1), (head_size_tiny 0 2), (head_size_tiny 0 3), (head_size_tiny 0 4),
    (head_size_tiny 0 5) by lia.
  change (zlen (encode_head 2 32)) with 2. change (zlen (encode_head 2 16)) with 1.
  change (zlen (@nil Z)) with 0.
  match goal with |- context [encode_head 5 ?n] => change (zlen (encode_head 5 n)) with 1 end.
  unfold ANTS_REP_RECEIPT_BODY_ENCODED_MAX. lia.
Qed.

Lemma receipt_emit r e : receipt_body r e = emit (receipt_cbor r) e.
Proof.
  unfold receipt_body, enc_kv_bytes, enc_kv_uint.
  cbn [receipt_cbor emit map seq_actions foldr]. act_eq.
Qed.

Lemma receipt_readable r : receipt_ok r -> readable (receipt_cbor r).
Proof.
  intros Hr. split; [by apply receipt_wf|]. split; [cbn; lia|].
  pose proof (receipt_size r Hr). unfold ANTS_REP_RECEIPT_BODY_ENCODED_MAX in *. zlia.
Qed.

Lemma receipt_body_encode_eq r cap buf :
  receipt_ok r -> ANTS_REP_RECEIPT_BODY_ENCODED_MAX <= cap <= zlen buf -> zlen buf <= INT64_MAX ->
  exists buf', ants_reputation_receipt_body_encode r cap buf = Ok buf' (zlen (encode (receipt_cbor r))) /\
    take (length (encode (receipt_cbor r))) buf' = encode (receipt_cbor r).
Proof.
  intros Hr Hc Hb. pose proof (receipt_size r Hr).
  apply emits_document; [by apply receipt_readable|apply receipt_emit|lia|done].
Qed.

(** The local copy of the body. *)
Lemma body_local r u : receipt_ok r ->
  exists body, receipt_body_local r u = Ok u (body, zlen (encode (receipt_cbor r))) /\
    take (length (encode (receipt_cbor r))) body = encode (receipt_cbor r).
Proof.
  intros Hr. unfold receipt_body_local.
  set (buf0 := replicate (Z.to_nat ANTS_REP_RECEIPT_BODY_ENCODED_MAX) 0).
  assert (Hb0 : zlen buf0 = 128) by done. clearbody buf0.
  destruct (receipt_body_encode_eq r ANTS_REP_RECEIPT_BODY_ENCODED_MAX buf0 Hr) as (buf & He & Ht);
    [unfold ANTS_REP_RECEIPT_BODY_ENCODED_MAX; lia|rewrite Hb0; unfold INT64_MAX; lia|].
  exists buf. by rewrite He.
Qed.

Section verify.
Context `{Ed : Ed25519}.

(** Both signatures are over the canonical body. *)
Definition signed (r : ants_reputation_receipt_t) : bool :=
  let body := encode (receipt_cbor r) in
  crypto_sign_ed25519_verify_detached (server_sig r) body (server r) &&
  crypto_sign_ed25519_verify_detached (client_sig r) body (client r).

(** The verifier looks at the [len] first bytes only. *)
Lemma ed25519_verify_take pub b len sig :
  0 < len <= zlen b ->
  ants_ed25519_verify pub (Some b) len sig =
    if crypto_sign_ed25519_verify_detached sig (take (Z.to_nat len) b) pub then Ok tt tt
    else Err tt ANTS_ERROR_MALFORMED.
Proof.
  intros Hl. unfold ants_ed25519_verify. cbn [is_null andb]. bdecide.
  assert (Hs : slice b 0 len = Some (take (Z.to_nat len) b)).
  { rewrite <- (take_drop (Z.to_nat len) b) at 1. pose proof (slice_mid [] (take (Z.to_nat len) b) (drop (Z.to_nat len) b)) as H.
    cbn [app] in H. replace (zlen (take (Z.to_nat len) b)) with len in H; [exact H|].
    unfold zlen in *. rewrite length_take. lia. }
  rewrite Hs. by destruct (crypto_sign_ed25519_verify_detached _ _ _).
Qed.

Lemma signature_verdict_eq pub body len sig u :
  0 < len <= zlen body ->
  signature_verdict pub body len sig u =
    Ok u (crypto_sign_ed25519_verify_detached sig (take (Z.to_nat len) body) pub).
Proof.
  intros Hl. unfold signature_verdict. rewrite ed25519_verify_take by done.
  by destruct (crypto_sign_ed25519_verify_detached _ _ _).
Qed.

Lemma receipt_verify_eq r u : receipt_ok r -> ants_reputation_receipt_verify r u = Ok u (signed r).
Proof.
  intros Hr. unfold ants_reputation_receipt_verify.
  destruct (body_local r u Hr) as (buf & He & Ht). rewrite (bind_Ok _ _ _ _ _ He).
  pose proof (receipt_size r Hr) as Hs. pose proof (encode_zlen_ne (receipt_cbor r)).
  pose proof (zlen_nonneg (encode (receipt_cbor r))). unfold ANTS_REP_RECEIPT_BODY_ENCODED_MAX in Hs.
  set (doc := encode (receipt_cbor r)) in *. change (encode (receipt_cbor r)) with doc.
  assert (Hlen : zlen doc <= zlen buf).
  { apply (f_equal length) in Ht. rewrite length_take in Ht. unfold zlen. lia. }
  rewrite bind_Ok with (s' := u) (a := crypto_sign_ed25519_verify_detached (server_sig r) doc (server r)).
  - unfold signed. fold doc. destruct (crypto_sign_ed25519_verify_detached (server_sig r) doc (server r)); [|done].
    cbn [negb andb]. rewrite signature_verdict_eq, zlen_to_nat, Ht by lia. done.
  - rewrite signature_verdict_eq, zlen_to_nat, Ht by lia. done.
Qed.
End verify.

(** * (A, T) from a bag of receipts (reputation.c)

    The quadratic in-place computation equals the sums of its definition: A
    over the receipts that count, T over the time bins, each clipped and then
    decayed; both saturate, and neither depends on the order of the bag. *)

(** ** Saturating sums *)

Definition zsum (l : list Z) : Z := foldr Z.add 0 l.
Definition capped (x : Z) : Z := Z.min UINT64_MAX x.

Lemma zsum_cons x l : zsum (x :: l) = x + zsum l.
Proof. reflexivity. Qed.

#[export] Instance zsum_perm : Proper ((≡ₚ) ==> eq) zsum.
Proof.
  intros l k H. induction H as [|x l k _ IH|x y l|l k m _ IH1 _ IH2]; [done| | |by rewrite IH1].
  - by rewrite !zsum_cons, IH.
  - rewrite !zsum_cons. lia.
Qed.

Lemma zsum_nonneg l : Forall (Z.le 0) l -> 0 <= zsum l.
Proof. induction 1 as [|x l Hx _ IH]; [done|]. rewrite zsum_cons. lia. Qed.

Lemma sat_add_eq a b : is_u64 a -> is_u64 b -> sat_add_u64 a b = capped (a + b).
Proof.
  unfold is_u64, sat_add_u64, capped, UINT64_MAX. intros Ha Hb. bcase; [lia|].
  rewrite u64_small by (red; lia). lia.
Qed.

Lemma capped_u64 x : 0 <= x -> is_u64 (capped x).
Proof. unfold capped, is_u64, UINT64_MAX. lia. Qed.

Lemma capped_add x y : 0 <= y -> capped (capped x + y) = capped (x + y).
Proof. unfold capped. lia. Qed.

Section compute.
Context `{Ed : Ed25519} (server_id : bytes) (now : Z) (params : ants_reputation_params_t).
Context (Hid : zlen server_id = 32) (Hnow : is_u64 now).

(** The field types of the parameters, and the values the code insists on. *)
Definition params_ok (p : ants_reputation_params_t) : Prop :=
  0 < decay_ratio_a_q32 p < 2 ^ 64 /\ 0 < decay_ratio_t_q32 p < 2 ^ 64 /\
  is_u64 (kappa_uncs_per_bin p) /\ 0 < bin_width_s p < 2 ^ 64.

Context (Hp : params_ok params).

(** ** The definition *)

(** The receipts that count: countersigned, for this server, not from the future. *)
Definition counts (r : ants_reputation_receipt_t) : Prop :=
  signed r = true /\ server r = server_id /\ timestamp_unix_s r <= now.

#[export] Instance counts_dec r : Decision (counts r).
Proof. unfold counts. apply _. Defined.

Definition bag (rs : list ants_reputation_receipt_t) : list ants_reputation_receipt_t := filter counts rs.

(** [decayed value ratio age]: scaled by the decay factor. *)
Definition decayed (value ratio age : Z) : Z := value * decay ratio age / 2 ^ 32.

Definition accumulated (rs : list ants_reputation_receipt_t) : Z :=
  capped (zsum (map (fun r => decayed (ncs_value r) (decay_ratio_a_q32 params)
                                ((now - timestamp_unix_s r) / bin_width_s params)) (bag rs))).

Definition bins (rs : list ants_reputation_receipt_t) : list Z := remove_dups (map (bin_of params) (bag rs)).

(** The work done in one bin. *)
Definition bin_work (rs : list ants_reputation_receipt_t) (b : Z) : Z :=
  zsum (map ncs_value (filter (fun r => bin_of params r = b) (bag rs))).

Definition bin_tenure (rs : list ants_reputation_receipt_t) (b : Z) : Z :=
  decayed (Z.min (kappa_uncs_per_bin params) (bin_work rs b)) (decay_ratio_t_q32 params)
    (now / bin_width_s params - b).

Definition tenure (rs : list ants_reputation_receipt_t) : Z :=
  capped (zsum (map (bin_tenure rs) (bins rs))).

(** ** Order does not matter *)

Lemma bag_perm rs rs' : rs ≡ₚ rs' -> bag rs ≡ₚ bag rs'.
Proof. intros H. unfold bag. by rewrite H. Qed.

Lemma bin_work_perm rs rs' b : rs ≡ₚ rs' -> bin_work rs b = bin_work rs' b.
Proof. intros H%bag_perm. unfold bin_work. by rewrite H. Qed.

Lemma accumulated_perm rs rs' : rs ≡ₚ rs' -> accumulated rs = accumulated rs'.
Proof. intros H%bag_perm. unfold accumulated. by rewrite H. Qed.

Lemma remove_dups_perm (l k : list Z) : l ≡ₚ k -> remove_dups l ≡ₚ remove_dups k.
Proof.
  intros H. apply NoDup_Permutation; [apply NoDup_remove_dups..|]. intros x.
  rewrite !elem_of_remove_dups. by rewrite H.
Qed.

Lemma tenure_perm rs rs' : rs ≡ₚ rs' -> tenure rs = tenure rs'.
Proof.
  intros H. unfold tenure, bins. rewrite (remove_dups_perm _ (map (bin_of params) (bag rs'))) by by rewrite bag_perm.
  do 2 f_equal. apply map_ext. intros b. unfold bin_tenure. by rewrite (bin_work_perm rs rs').
Qed.

(** ** The first pass *)

Lemma decayed_eq v ratio age :
  is_u64 v -> 0 <= ratio -> 0 <= age ->
  apply_decay v (ants_reputation_decay_factor ratio age) = decayed v ratio age.
Proof.
  intros Hv Hr Ha. rewrite decay_factor_eq by done. apply apply_decay_eq; [done|by apply decay_range].
Qed.

Lemma decayed_u64 v ratio age : is_u64 v -> 0 <= ratio -> 0 <= decayed v ratio age <= v.
Proof.
  intros Hv Hr. unfold decayed. pose proof (decay_range ratio age Hr) as Hd. unfold is_q32, is_u64 in *.
  split; [apply Z.div_pos; nia|apply Z.div_le_upper_bound; nia].
Qed.

Lemma contribution_eq r :
  receipt_ok r -> timestamp_unix_s r <= now ->
  receipt_a_contribution r now params =
    decayed (ncs_value r) (decay_ratio_a_q32 params) ((now - timestamp_unix_s r) / bin_width_s params).
Proof.
  intros (_ & _ & Hv & Ht & _) Hn. destruct Hp as (Ha & _ & _ & Hw). unfold is_u64 in *.
  unfold receipt_a_contribution. rewrite u64_small by (red; lia).
  apply decayed_eq; [done|lia|apply Z.div_pos; lia].
Qed.

Lemma valid_eq r : receipt_ok r ->
  signed r && (memcmp (server r) server_id =? 0) && negb (now <? timestamp_unix_s r) = bool_decide (counts r).
Proof.
  intros ((_ & Hs) & _). rewrite memcmp_eq by lia. apply Bool.eq_iff_eq_true.
  rewrite bool_decide_eq_true, !andb_true_iff, bool_decide_eq_true, negb_true_iff, Z.ltb_ge.
  unfold counts. tauto.
Qed.

Definition a_terms (rs : list ants_reputation_receipt_t) : list Z :=
  map (fun r => decayed (ncs_value r) (decay_ratio_a_q32 params)
                  ((now - timestamp_unix_s r) / bin_width_s params)) (bag rs).

Lemma a_terms_nonneg rs : Forall receipt_ok rs -> Forall (Z.le 0) (a_terms rs).
Proof.
  intros Hrs. apply Forall_fmap, Forall_forall. intros r [_ Hr]%list_elem_of_filter.
  rewrite Forall_forall in Hrs. destruct (Hrs r Hr) as (_ & _ & Hv & _). destruct Hp as (? & _). cbn.
  by apply decayed_u64; [|lia].
Qed.

Lemma validity_pass_eq rs u : Forall receipt_ok rs -> forall a, is_u64 a ->
  validity_pass server_id now params rs a u =
    Ok u (map (fun r => bool_decide (counts r)) rs, capped (a + zsum (a_terms rs))).
Proof.
  induction 1 as [|r rs Hr Hrs IH]; intros a Ha; cbn [validity_pass map].
  - unfold a_terms. cbn. rewrite Z.add_0_r. unfold capped, ret. unfold is_u64, UINT64_MAX in *.
    repeat f_equal. lia.
  - rewrite (bind_Ok _ _ _ _ _ (receipt_verify_eq r u Hr)), valid_eq by done.
    pose proof (zsum_nonneg _ (a_terms_nonneg rs Hrs)). unfold a_terms, bag in *. rewrite filter_cons.
    destruct (decide (counts r)) as [Hc|Hc].
    + rewrite bool_decide_true, contribution_eq by (done || apply Hc). cbn [map zsum foldr].
      set (c := decayed _ _ _). assert (Hcu : is_u64 c).
      { destruct Hp as (? & _). destruct Hr as (_ & _ & Hv & _). unfold is_u64 in *.
        pose proof (decayed_u64 (ncs_value r) (decay_ratio_a_q32 params) ((now - timestamp_unix_s r) / bin_width_s params) Hv ltac:(lia)).
        fold c in H1. lia. }
      assert (Hac : is_u64 (capped (a + c))) by (apply capped_u64; unfold is_u64 in *; lia).
      rewrite sat_add_eq by done. rewrite (bind_Ok _ _ _ _ _ (IH _ Hac)). unfold ret. rewrite capped_add by done.
      by rewrite Z.add_assoc.
    + rewrite bool_decide_false by done. by rewrite (bind_Ok _ _ _ _ _ (IH a Ha)).
Qed.

(** ** The second pass *)

(** The receipts with their entries of [valid]. *)
Definition mark (rs : list ants_reputation_receipt_t) : list (ants_reputation_receipt_t * bool) :=
  map (fun r => (r, bool_decide (counts r))) rs.

Lemma mark_zip rs : zip rs (map (fun r => bool_decide (counts r)) rs) = mark rs.
Proof. induction rs as [|r rs IH]; [done|]. cbn [map zip zip_with mark]. by rewrite IH. Qed.

Definition bag_bins (rs : list ants_reputation_receipt_t) : list Z := map (bin_of params) (bag rs).

Lemma bin_seen_eq b rs : bin_seen params b (mark rs) = bool_decide (b ∈ bag_bins rs).
Proof.
  unfold bag_bins, bag. induction rs as [|r rs IH]; cbn [mark map bin_seen]; [done|]. fold (mark rs).
  rewrite IH, filter_cons. destruct (decide (counts r)) as [Hc|Hc].
  - rewrite bool_decide_true by done. cbn [map andb]. destruct (Z.eqb_spec (bin_of params r) b) as [<-|Hne].
    + symmetry. apply bool_decide_true. by left.
    + apply bool_decide_ext. rewrite elem_of_cons. naive_solver.
  - by rewrite bool_decide_false.
Qed.

Lemma bin_work_nonneg rs b : Forall receipt_ok rs -> 0 <= bin_work rs b.
Proof.
  intros Hrs. apply zsum_nonneg, Forall_fmap, Forall_forall. intros r [_ [_ Hr]%list_elem_of_filter]%list_elem_of_filter.
  rewrite Forall_forall in Hrs. destruct (Hrs r Hr) as (_ & _ & Hv & _). cbn. unfold is_u64 in Hv. lia.
Qed.

Lemma bin_work_cons r rs b :
  bin_work (r :: rs) b =
    (if decide (counts r /\ bin_of params r = b) then ncs_value r else 0) + bin_work rs b.
Proof.
  unfold bin_work, bag. rewrite filter_cons. destruct (decide (counts r)) as [Hc|Hc].
  - rewrite filter_cons. destruct (decide (bin_of params r = b)).
    + rewrite decide_True by done. done.
    + rewrite decide_False by naive_solver. done.
  - rewrite decide_False by naive_solver. done.
Qed.

Lemma bin_work_app rs rs' b : bin_work (rs ++ rs') b = bin_work rs b + bin_work rs' b.
Proof. induction rs as [|r rs IH]; [done|]. cbn [app]. rewrite !bin_work_cons, IH. lia. Qed.

Lemma bin_work_unseen rs b : b ∉ bag_bins rs -> bin_work rs b = 0.
Proof.
  unfold bag_bins. induction rs as [|r rs IH]; intros Hb; [done|]. rewrite bin_work_cons.
  unfold bag in Hb. rewrite filter_cons in Hb. destruct (decide (counts r)) as [Hc|Hc].
  - cbn [map] in Hb. apply not_elem_of_cons in Hb as [Hne Hb].
    rewrite decide_False by naive_solver. by rewrite IH.
  - rewrite decide_False by naive_solver. by rewrite IH.
Qed.

Lemma bin_sum_eq b rs : Forall receipt_ok rs -> forall s, is_u64 s ->
  bin_sum params b (mark rs) s = capped (s + bin_work rs b).
Proof.
  induction 1 as [|r rs Hr Hrs IH]; intros s Hs; cbn [mark map bin_sum]; [|fold (mark rs)].
  - change (bin_work [] b) with 0. unfold capped, is_u64, UINT64_MAX in *. lia.
  - rewrite bin_work_cons. pose proof (bin_work_nonneg rs b Hrs). destruct Hr as (_ & _ & Hv & _).
    destruct (decide (counts r /\ bin_of params r = b)) as [[Hc Hb]|Hn].
    + rewrite bool_decide_true, (proj2 (Z.eqb_eq _ _) Hb) by done. cbn [andb].
      assert (Hac : is_u64 (capped (s + ncs_value r))) by (apply capped_u64; unfold is_u64 in *; lia).
      rewrite sat_add_eq, IH, capped_add by done. f_equal. lia.
    + replace (bool_decide (counts r) && (bin_of params r =? b)) with false; [by rewrite IH|].
      symmetry. apply not_true_is_false. intros [Hc%bool_decide_eq_true Hb%Z.eqb_eq]%andb_true_iff. tauto.
Qed.

(** The bins in the order the loop meets them. *)
Fixpoint new_bins (before after : list ants_reputation_receipt_t) : list Z :=
  match after with
  | [] => []
  | r :: rest =>
    (if decide (counts r /\ (bin_of params r ∉ bag_bins before)) then [bin_of params r] else []) ++
    new_bins (before ++ [r]) rest
  end.

Lemma bag_bins_app rs rs' : bag_bins (rs ++ rs') = bag_bins rs ++ bag_bins rs'.
Proof. unfold bag_bins, bag. by rewrite filter_app, map_app. Qed.

Lemma bag_bins_one r : bag_bins [r] = if decide (counts r) then [bin_of params r] else [].
Proof. unfold bag_bins, bag. rewrite filter_cons, filter_nil. by case_decide. Qed.

Lemma new_bins_in b after : forall before,
  b ∈ new_bins before after <-> b ∈ bag_bins after /\ b ∉ bag_bins before.
Proof.
  induction after as [|r rest IH]; intros before; cbn [new_bins].
  - split; [by intros ?%elem_of_nil|by intros [?%elem_of_nil _]].
  - rewrite elem_of_app, IH, bag_bins_app, elem_of_app, bag_bins_one.
    change (r :: rest) with ([r] ++ rest). rewrite bag_bins_app, elem_of_app, bag_bins_one.
    destruct (decide (counts r)) as [Hc|Hc].
    + destruct (decide (counts r /\ _)) as [[_ Hn]|Hn]; rewrite ?list_elem_of_singleton, ?elem_of_nil.
      * split; [intros [->|]; tauto|]. intros [[->|] ?]; [by left|].
        destruct (decide (b = bin_of params r)); [by left|right; tauto].
      * assert (bin_of params r ∈ bag_bins before) by (destruct (decide (bin_of params r ∈ bag_bins before)); tauto).
        split; [tauto|]. intros [[->|] ?]; [done|]. right. split; [done|].
        intros [ | -> ]; done.
    + rewrite decide_False by tauto. rewrite elem_of_nil. tauto.
Qed.

Lemma new_bins_nodup after : forall before, NoDup (new_bins before after).
Proof.
  induction after as [|r rest IH]; intros before; cbn [new_bins]; [constructor|].
  case_decide as Hd; [|apply IH]. cbn [app]. constructor; [|apply IH].
  intros [_ Hb]%new_bins_in. apply Hb. rewrite bag_bins_app, elem_of_app, bag_bins_one. right.
  rewrite decide_True by tauto. by left.
Qed.

Lemma new_bins_all rs : new_bins [] rs ≡ₚ bins rs.
Proof.
  apply NoDup_Permutation; [apply new_bins_nodup|apply NoDup_remove_dups|]. intros b.
  unfold bins. rewrite new_bins_in, elem_of_remove_dups. fold (bag_bins rs).
  split; [by intros []|]. intros H. split; [done|apply not_elem_of_nil].
Qed.

Lemma bin_tenure_nonneg rs b : Forall receipt_ok rs -> 0 <= bin_tenure rs b <= UINT64_MAX.
Proof.
  intros Hrs. pose proof (bin_work_nonneg rs b Hrs). destruct Hp as (_ & ? & Hk & _). unfold is_u64 in Hk.
  pose proof (decayed_u64 (Z.min (kappa_uncs_per_bin params) (bin_work rs b)) (decay_ratio_t_q32 params)
    (now / bin_width_s params - b) ltac:(unfold is_u64; lia) ltac:(lia)) as Hd.
  fold (bin_tenure rs b) in Hd. unfold UINT64_MAX. lia.
Qed.

(** What the loop adds for the first receipt of a bin. *)
Lemma bin_step before r rest :
  Forall receipt_ok (before ++ r :: rest) -> counts r -> bin_of params r ∉ bag_bins before ->
  let total := bin_sum params (bin_of params r) (mark (r :: rest)) 0 in
  apply_decay (if total <? kappa_uncs_per_bin params then total else kappa_uncs_per_bin params)
    (ants_reputation_decay_factor (decay_ratio_t_q32 params) (u64 (now / bin_width_s params - bin_of params r))) =
  bin_tenure (before ++ r :: rest) (bin_of params r).
Proof.
  intros Hrs (_ & _ & Hle) Hn. apply Forall_app in Hrs as [_ Hrs].
  destruct (Forall_inv Hrs) as (_ & _ & _ & Ht & _). destruct Hp as (_ & Hr & Hk & Hw). unfold is_u64 in *.
  assert (Hb : 0 <= bin_of params r <= now / bin_width_s params).
  { unfold bin_of. split; [apply Z.div_pos; lia|apply Z.div_le_mono; lia]. }
  assert (now / bin_width_s params <= now) by (apply Z.div_le_upper_bound; nia).
  rewrite bin_sum_eq, Z.add_0_l, u64_small by (done || red; lia).
  unfold bin_tenure. rewrite bin_work_app, (bin_work_unseen before), Z.add_0_l by done.
  pose proof (bin_work_nonneg (r :: rest) (bin_of params r) Hrs). cbv zeta.
  replace (if _ <? _ then _ else _) with (Z.min (kappa_uncs_per_bin params) (bin_work (r :: rest) (bin_of params r))).
  - apply decayed_eq; [unfold is_u64; lia|lia|lia].
  - unfold capped, UINT64_MAX. destruct (Z.ltb_spec (Z.min (2 ^ 64 - 1) (bin_work (r :: rest) (bin_of params r))) (kappa_uncs_per_bin params)); lia.
Qed.

Lemma tenure_pass_eq after : forall before t,
  Forall receipt_ok (before ++ after) -> is_u64 t ->
  tenure_pass params (now / bin_width_s params) (mark before) (mark after) t =
    capped (t + zsum (map (bin_tenure (before ++ after)) (new_bins before after))).
Proof.
  induction after as [|r rest IH]; intros before t Hrs Ht; cbn [new_bins].
  - cbn. unfold capped, is_u64, UINT64_MAX in *. lia.
  - assert (He : before ++ r :: rest = (before ++ [r]) ++ rest) by by rewrite <- app_assoc.
    assert (Hnext : forall t', is_u64 t' ->
      tenure_pass params (now / bin_width_s params) (mark before ++ [(r, bool_decide (counts r))]) (mark rest) t' =
      capped (t' + zsum (map (bin_tenure (before ++ r :: rest)) (new_bins (before ++ [r]) rest)))).
    { intros t' Ht'. rewrite He in Hrs |- *. rewrite <- IH by done. f_equal. unfold mark. by rewrite map_app. }
    change (mark (r :: rest)) with ((r, bool_decide (counts r)) :: mark rest). cbn [tenure_pass].
    rewrite bin_seen_eq. destruct (decide (counts r)) as [Hc|Hc].
    + rewrite (bool_decide_true (counts r)) in Hnext |- * by done. cbn [negb].
      destruct (decide (bin_of params r ∈ bag_bins before)) as [Hb|Hb].
      * rewrite bool_decide_true, decide_False by tauto. by apply Hnext.
      * rewrite bool_decide_false, decide_True by tauto. cbn [app map]. rewrite zsum_cons.
        pose proof (bin_step before r rest Hrs Hc Hb) as Hs. cbv zeta in Hs.
        change (mark (r :: rest)) with ((r, bool_decide (counts r)) :: mark rest) in Hs.
        rewrite (bool_decide_true (counts r)) in Hs by done. rewrite Hs.
        pose proof (bin_tenure_nonneg _ (bin_of params r) Hrs) as Hu.
        assert (Hz : 0 <= zsum (map (bin_tenure (before ++ r :: rest)) (new_bins (before ++ [r]) rest))).
        { apply zsum_nonneg, Forall_fmap, Forall_forall. intros b _. by apply bin_tenure_nonneg. }
        assert (Hac : is_u64 (capped (t + bin_tenure (before ++ r :: rest) (bin_of params r))))
          by (apply capped_u64; unfold is_u64 in *; lia).
        rewrite sat_add_eq by (done || unfold is_u64, UINT64_MAX in *; lia).
        rewrite (Hnext _ Hac), capped_add by done. f_equal. lia.
    + rewrite bool_decide_false in Hnext |- * by done. cbn [negb]. rewrite decide_False by tauto. by apply Hnext.
Qed.

Lemma compute_eq rs u :
  Forall receipt_ok rs -> zlen rs <= ANTS_REP_MAX_RECEIPTS ->
  ants_reputation_compute server_id (Some rs) (zlen rs) now (Some params) u = Ok u (accumulated rs, tenure rs).
Proof.
  intros Hrs Hlen. unfold ants_reputation_compute. rewrite andb_false_r. bdecide.
  destruct Hp as (Ha & Ht & _ & Hw). repeat bdecide. cbn [orb default].
  rewrite first_n_all. unfold deref, bind at 1.
  rewrite (bind_Ok _ _ _ _ _ (validity_pass_eq rs u Hrs 0 ltac:(done))). unfold ret. rewrite mark_zip.
  change (@nil (ants_reputation_receipt_t * bool)) with (mark []).
  rewrite tenure_pass_eq by done. rewrite !Z.add_0_l. unfold tenure. cbn [app].
  by rewrite new_bins_all.
Qed.
End compute.
