(* ===== verification/RepStanding.v ===== *)
(** * What a peer's reputation is (reputation.c with crdt.c)

    The (A, T) computation against its definition, and the slash gate bound to
    the set of fault proofs. *)

From S2P Require Import Prelude Cbor CborSpec CborKv Crypto BondCodec Merkle Crdt CrdtVerify CrdtSet.
From S2P Require Import CrdtSetThms CrdtReach CrdtGSet Reputation RepFixed RepCompute.
Import Reputation.

#[local] Arguments zlen {A} l : simpl never.

(** C21: Reputation is the sum of its definition.  For a bag of at most 4096
    receipts in any order, A is the saturating sum of the decayed values of
    the receipts that count (countersigned by both parties over the canonical
    body, issued by this server, not in the future), and T is the saturating
    sum over the time bins of the work in the bin, clipped at kappa and then
    decayed.  Reordering the bag changes neither. *)
Theorem compute_exact `{Ed : Ed25519} server_id rs rs' now params u :
  zlen server_id = 32 -> is_u64 now -> params_ok params -> Forall receipt_ok rs ->
  zlen rs <= ANTS_REP_MAX_RECEIPTS -> rs' ≡ₚ rs ->
  ants_reputation_compute server_id (Some rs') (zlen rs') now (Some params) u =
    Ok u (accumulated server_id now params rs, tenure server_id now params rs).
Proof.
  intros Hid Hnow Hp Hrs Hlen Hperm.
  rewrite <- (accumulated_perm server_id now params rs' rs), <- (tenure_perm server_id now params rs' rs) by done.
  apply compute_eq; try done; [by rewrite Hperm|]. unfold zlen in *. by rewrite Hperm.
Qed.

(** The canonical binding of the slash predicate: the local set of proofs. *)
Definition slash_source (st : CrdtSet.ants_crdt) (peer : bytes) : bool :=
  match CrdtSet.ants_crdt_is_slashed (Some st) peer tt with Ok _ b => b | _ => false end.

(** A slashed identity has no standing.  Once a set of a network reports a
    peer slashed, the checked computation over that set gives the peer zero A
    and zero T, for every bag, time and parameters, after every further
    operation on the network; for every peer the set does not report slashed
    it is the unchecked computation. *)
Theorem slashed_no_standing `{B : Blake3} {Laws : Blake3Laws B} `{Ed : Ed25519} net net' i st peer :
  rtc net_step [] net -> net !! i = Some st -> zlen peer = 32 ->
  CrdtSet.ants_crdt_is_slashed (Some st) peer tt = Ok tt true -> rtc net_step net net' ->
  exists st', net' !! i = Some st' /\
    (forall receipts n now params u,
       ants_reputation_compute_checked peer receipts n now params (Some (slash_source st')) u = Ok u (0, 0)) /\
    forall other receipts n now params u,
      CrdtSet.ants_crdt_is_slashed (Some st') other tt <> Ok tt true ->
      ants_reputation_compute_checked other receipts n now params (Some (slash_source st')) u =
        ants_reputation_compute other receipts n now params u.
Proof.
  intros Hr Hi Hs Ha Hr'. destruct (slashed_stays net net' i st peer Hr Hi Hs Ha Hr') as (st' & Hi' & Hs').
  exists st'. split; [done|]. split.
  - intros. unfold ants_reputation_compute_checked, slash_source. by rewrite Hs'.
  - intros other receipts n now params u Ho. unfold ants_reputation_compute_checked, slash_source.
    destruct (CrdtSet.ants_crdt_is_slashed (Some st') other tt) as [[] []|? ?| |]; done.
Qed.

(** ** Concrete bags *)

#[local] Existing Instance toy_blake3.
#[local] Existing Instance toy_blake3_laws.
#[local] Existing Instance toy_ed25519.

Definition toy_sign (pub m : bytes) : bytes := pub ++ take 32 (m ++ replicate 32 0).

(** A receipt both parties signed. *)
Definition demo_receipt (ncs t k : Z) : ants_reputation_receipt_t :=
  let body := encode (receipt_cbor (mk_receipt demo_subject (replicate 32 8) ncs t (replicate 16 k) [] [])) in
  mk_receipt demo_subject (replicate 32 8) ncs t (replicate 16 k)
    (toy_sign demo_subject body) (toy_sign (replicate 32 8) body).

(** Two receipts of one bin over kappa together, one of an older bin, one forged. *)
Definition demo_bag : list ants_reputation_receipt_t :=
  [demo_receipt 700000 7300 1; demo_receipt 400000 100 2; demo_receipt 600000 7400 3;
   mk_receipt demo_subject (replicate 32 8) 900000 7300 (replicate 16 4) [] []].

Lemma demo_bag_ok : Forall receipt_ok demo_bag.
Proof. repeat constructor; vm_compute; (discriminate || reflexivity). Qed.

Lemma compute_exact_witness :
  ants_reputation_compute demo_subject (Some (reverse demo_bag)) 4 7500 (Some ants_reputation_params_default) tt =
    Ok tt (1400000, 1392039).
Proof.
  replace 4 with (zlen (reverse demo_bag)) by done.
  rewrite (compute_exact demo_subject demo_bag (reverse demo_bag) 7500 ants_reputation_params_default tt).
  - vm_compute. reflexivity.
  - done.
  - by vm_compute.
  - by vm_compute.
  - exact demo_bag_ok.
  - by vm_compute.
  - apply reverse_Permutation.
Defined.

Lemma slashed_no_standing_witness :
  ants_reputation_compute_checked demo_subject (Some demo_bag) 4 7500 (Some ants_reputation_params_default)
    (Some (slash_source demo_pruned)) tt = Ok tt (0, 0).
Proof.
  destruct (slashed_no_standing [demo_set] [demo_pruned] 0 demo_set demo_subject) as (st' & Hst & H & _).
  - etrans; [apply demo_network|apply demo_network_insert].
  - reflexivity.
  - reflexivity.
  - vm_compute. reflexivity.
  - apply demo_network_prune.
  - change (Some demo_pruned = Some st') in Hst. apply (inj Some) in Hst. rewrite Hst. apply H.
Defined.
