(* ===== verification/Chain.v ===== *)
(** * The PoUH chain (src/reputation/chain/src/chain.c)

    Layer 2: the Merkle commitment to confirmed proofs, the epoch-summary and
    block codecs, the pattern rules, committee selection, finality, fork
    choice, seeds and proposals.  Pure functions over bytes.  An array of
    digests is a list of byte strings; [findings] with [n_findings] is a list;
    the digest an operation writes through its out-parameter is its result. *)

From stdpp Require Import strings.
From S2P Require Import Prelude Cbor CborKv Crypto Bond Crdt InsertionSort Reputation.
Import Crdt.

Module Chain.

(** ** Data *)

Definition ANTS_CHAIN_PEER_ID_SIZE : Z := 32.
Definition ANTS_CHAIN_SIG_SIZE : Z := 64.
Definition ANTS_CHAIN_HASH_SIZE : Z := 32.
Definition ANTS_CHAIN_COMMITTEE_K_MAX : Z := 64.
Definition ANTS_CHAIN_FINALITY_NUM : Z := 2.
Definition ANTS_CHAIN_FINALITY_DEN : Z := 3.
Definition ANTS_CHAIN_MERKLE_MAX_DEPTH : Z := 32.
Definition ANTS_CHAIN_MAX_PATTERN_FINDINGS : Z := 256.
Definition ANTS_CHAIN_EPOCH_SUMMARY_ENCODED_MAX : Z := 80 + ANTS_CHAIN_MAX_PATTERN_FINDINGS * 96.
Definition ANTS_CHAIN_BLOCK_ENCODED_MAX : Z := 64 + ANTS_CHAIN_EPOCH_SUMMARY_ENCODED_MAX.

Definition ANTS_CHAIN_SEVERITY_SOFT : Z := 1.
Definition ANTS_CHAIN_SEVERITY_MEDIUM : Z := 2.
Definition ANTS_CHAIN_SEVERITY_HARD : Z := 3.
Definition ANTS_CHAIN_SEVERITY__RESERVED_MIN : Z := 5.
Definition ANTS_CHAIN_PATTERN_WINDOW_S : Z := 2592000.
Definition ANTS_CHAIN_PATTERN_SOFT_MIN_EVENTS : Z := 1.
Definition ANTS_CHAIN_PATTERN_MEDIUM_MIN_EVENTS : Z := 3.
Definition ANTS_CHAIN_PATTERN_HARD_MIN_EVENTS : Z := 6.
Definition ANTS_CHAIN_RULE_FAULT_COUNT_30D : Z := 1.

Definition ANTS_CHAIN_FORK_A : Z := 0.
Definition ANTS_CHAIN_FORK_B : Z := 1.
Definition ANTS_CHAIN_FORK_SOCIAL_SCHELLING : Z := 2.

Record ants_chain_pattern_finding_t : Type := mk_finding {
  f_subject : bytes; f_rule_id : Z; f_window_s : Z; f_count : Z; f_severity : Z
}.

Record ants_chain_epoch_summary_t : Type := mk_summary {
  s_epoch : Z; s_cutoff_time : Z; s_confirmed_proofs : bytes;
  s_findings : list ants_chain_pattern_finding_t
}.

Record ants_chain_event_t : Type := mk_event {
  e_subject : bytes; e_timestamp : Z; e_fault_type : Z
}.

Record ants_chain_block_t : Type := mk_block {
  b_height : Z; b_prev_block_hash : bytes; b_degraded_seed : bool;
  b_summary : ants_chain_epoch_summary_t
}.

(** ** The Merkle commitment *)

Definition CHAIN_MERKLE_LEAF_PREFIX : Z := 0x00.
Definition CHAIN_MERKLE_NODE_PREFIX : Z := 0x01.
Definition CHAIN_MERKLE_EMPTY_PREFIX : Z := 0x02.

Section merkle.
Context `{B : Blake3}.

Definition leaf_hash (content_id : bytes) : action unit bytes :=
  local_hash (
    ants_blake3_init ;*
    ants_blake3_update (Some [CHAIN_MERKLE_LEAF_PREFIX]) 1 ;*
    ants_blake3_update (Some content_id) ANTS_CHAIN_HASH_SIZE ;*
    ants_blake3_final).

Definition node_hash (left right : bytes) : action unit bytes :=
  local_hash (
    ants_blake3_init ;*
    ants_blake3_update (Some [CHAIN_MERKLE_NODE_PREFIX]) 1 ;*
    ants_blake3_update (Some left) ANTS_CHAIN_HASH_SIZE ;*
    ants_blake3_update (Some right) ANTS_CHAIN_HASH_SIZE ;*
    ants_blake3_final).

Definition empty_root : action unit bytes :=
  fun _ => ants_blake3_hash (Some [CHAIN_MERKLE_EMPTY_PREFIX]) 1.

(** The two arrays [stack] and [height] with [top]: the peaks, topmost first,
    each with its height. *)
Definition peaks : Type := list (Z * bytes).

(** [while (top >= 2 && height[top - 1] == height[top - 2])] *)
Fixpoint merge_peaks (height : Z) (hash : bytes) (below : peaks) : action unit peaks :=
  match below with
  | (height0, hash0) :: below' =>
    if height =? height0 then
      let* n := node_hash hash0 hash in merge_peaks (height0 + 1) n below'
    else ret ((height, hash) :: below)
  | [] => ret [(height, hash)]
  end.

(** [for (k = top - 2; k >= 0; k--)] *)
Fixpoint bag (acc : bytes) (below : peaks) : action unit bytes :=
  match below with
  | [] => ret acc
  | (_, hash) :: below' => let* n := node_hash hash acc in bag n below'
  end.

(** reputation.c builds its tree over receipts with the same code; the hash of
    a leaf is the argument [leaf_of] of these definitions. *)
Section leaves.
Context {A : Type} (leaf_of : A -> action unit bytes).

(** A push beyond the [MAX_DEPTH + 2] places is an access outside the array. *)
Definition push_leaf (id : A) (stack : peaks) : action unit peaks :=
  if zlen stack <? ANTS_CHAIN_MERKLE_MAX_DEPTH + 2 then
    let* h := leaf_of id in merge_peaks 0 h stack
  else fun _ => UB.

(** [for (i = lo; i < hi; i++)] *)
Fixpoint push_range (fuel : nat) (ids : list A) (i hi : Z) (stack : peaks) : action unit peaks :=
  if hi <=? i then ret stack
  else match fuel with
  | O => fun _ => NoFuel
  | S f =>
    let* id := deref (get_at ids i) in
    let* stack' := push_leaf id stack in
    push_range f ids (i + 1) hi stack'
  end.

Definition subtree_root_range (ids : list A) (lo hi : Z) : action unit bytes :=
  let* stack := push_range (Z.to_nat (hi - lo)) ids lo hi [] in
  match stack with
  | [] => fun _ => UB
  | (_, hash) :: below => bag hash below
  end.

(** The path buffer and [*out_path_len]. *)
Definition prove_out : Type := bytes * Z.

Fixpoint prove_loop (fuel : nat) (ids : list A) (idx count level written : Z)
  : action prove_out Z :=
  if 1 <? count then
    match fuel with
    | O => fun _ => NoFuel
    | S f =>
      let sib := if Z.land idx 1 =? 1 then Some (idx - 1)
                 else if u64 (idx + 1) <? count then Some (u64 (idx + 1)) else None in
      let* written' :=
        match sib with
        | None => ret written
        | Some sib =>
          let lo64 := u64 (Z.shiftl sib level) in
          let hi64 := u64 (Z.shiftl (u64 (sib + 1)) level) in
          let hi64 := if zlen ids <? hi64 then zlen ids else hi64 in
          let* h := pure_call (subtree_root_range ids lo64 hi64) in
          let* st := get in
          let* path := deref (splice st.1 (written * ANTS_CHAIN_HASH_SIZE) h) in
          modify (fun st => (path, st.2)) ;*
          ret (size_add written 1)
        end in
      prove_loop f ids (idx / 2) (up_count count) (level + 1) written'
    end
  else ret written.

End leaves.

(** The loop is the one of [cp_path_len] in crdt.c, line for line. *)
Definition merkle_path_len (index n_leaves : Z) : action unit Z := cp_path_len index n_leaves.

(** The comparison of neighbours, over the [n] ids. *)
Fixpoint ids_strictly_ascending (ids : list bytes) : bool :=
  match ids with
  | a :: (b :: _) as ids' => if 0 <=? memcmp a b then false else ids_strictly_ascending ids'
  | _ => true
  end.

Definition n_leaves_in_range (n : Z) : bool := n <=? Z.shiftl 1 ANTS_CHAIN_MERKLE_MAX_DEPTH.

Definition ants_chain_confirmed_root (content_ids : option (list bytes)) (n : Z) : action unit bytes :=
  if is_null content_ids && negb (n =? 0) then fail ANTS_ERROR_INVALID_ARG
  else if n =? 0 then empty_root
  else if negb (n_leaves_in_range n) then fail ANTS_ERROR_INVALID_ARG
  else
    let* ids := deref (first_n (default [] content_ids) n) in
    if negb (ids_strictly_ascending ids) then fail ANTS_ERROR_NON_CANONICAL
    else subtree_root_range leaf_hash ids 0 n.

Definition ants_chain_confirmed_prove (content_ids : option (list bytes)) (n index path_cap : Z)
  : action prove_out unit :=
  match content_ids with
  | None => fail ANTS_ERROR_INVALID_ARG
  | Some ids =>
    if (n =? 0) || (n <=? index) then fail ANTS_ERROR_INVALID_ARG
    else if negb (n_leaves_in_range n) then fail ANTS_ERROR_INVALID_ARG
    else
      let* ids := deref (first_n ids n) in
      if negb (ids_strictly_ascending ids) then fail ANTS_ERROR_NON_CANONICAL
      else
        let* len := pure_call (merkle_path_len index n) in
        let need_bytes := u64 (len * ANTS_CHAIN_HASH_SIZE) in
        if path_cap <? need_bytes then
          modify (fun st => (st.1, need_bytes)) ;* fail ANTS_ERROR_BUFFER_TOO_SMALL
        else
          let* written := prove_loop leaf_hash 65 ids index n 0 0 in
          modify (fun st => (st.1, u64 (written * ANTS_CHAIN_HASH_SIZE)))
  end.

(** The climbing loop is the one of [cp_fold_to_root]; the result is
    [*out_ok]. *)
Definition ants_chain_confirmed_verify (leaf_content_id : bytes) (index n : Z) (path : bytes)
  (root : bytes) : action unit bool :=
  if (n =? 0) || (n <=? index) then fail ANTS_ERROR_INVALID_ARG
  else if negb (n_leaves_in_range n) then fail ANTS_ERROR_INVALID_ARG
  else
    let* len := merkle_path_len index n in
    if negb (zlen path =? u64 (len * ANTS_CHAIN_HASH_SIZE)) then fail ANTS_ERROR_INVALID_ARG
    else
      let* cur := leaf_hash leaf_content_id in
      let* (cur, consumed) := fold_loop 65 index n 0 path cur in
      ret ((u64 (consumed * ANTS_CHAIN_HASH_SIZE) =? zlen path) && (memcmp cur root =? 0)).
End merkle.

(** ** The epoch-summary codec *)

Definition CHAIN_SUMMARY_PAIRS : Z := 4.
Definition CHAIN_FINDING_PAIRS : Z := 5.
Definition SUMMARY_KEY_EPOCH : Z := 1.
Definition SUMMARY_KEY_CUTOFF : Z := 2.
Definition SUMMARY_KEY_CONFIRMED : Z := 3.
Definition SUMMARY_KEY_FINDINGS : Z := 4.
Definition FINDING_KEY_SUBJECT : Z := 1.
Definition FINDING_KEY_RULE : Z := 2.
Definition FINDING_KEY_WINDOW : Z := 3.
Definition FINDING_KEY_COUNT : Z := 4.
Definition FINDING_KEY_SEVERITY : Z := 5.

Definition severity_valid (s : Z) : bool :=
  (ANTS_CHAIN_SEVERITY_SOFT <=? s) && (s <? ANTS_CHAIN_SEVERITY__RESERVED_MIN).

Definition ants_chain_epoch_summary_bound (s : ants_chain_epoch_summary_t) : Z :=
  size_add 80 (u64 (zlen (s_findings s) * 96)).

Definition enc_finding (f : ants_chain_pattern_finding_t) : action ants_cbor_enc_t unit :=
  ants_cbor_enc_map CHAIN_FINDING_PAIRS ;*
  enc_kv_bytes FINDING_KEY_SUBJECT (f_subject f) ;*
  enc_kv_uint FINDING_KEY_RULE (f_rule_id f) ;*
  enc_kv_uint FINDING_KEY_WINDOW (f_window_s f) ;*
  enc_kv_uint FINDING_KEY_COUNT (f_count f) ;*
  enc_kv_uint FINDING_KEY_SEVERITY (f_severity f).

(** [for (i = 0; i < s->n_findings; i++)] *)
Fixpoint enc_findings (fs : list ants_chain_pattern_finding_t) : action ants_cbor_enc_t unit :=
  match fs with
  | [] => ret tt
  | f :: r => enc_finding f ;* enc_findings r
  end.

Definition summary_body (s : ants_chain_epoch_summary_t) : action ants_cbor_enc_t unit :=
  ants_cbor_enc_map CHAIN_SUMMARY_PAIRS ;*
  enc_kv_uint SUMMARY_KEY_EPOCH (s_epoch s) ;*
  enc_kv_uint SUMMARY_KEY_CUTOFF (s_cutoff_time s) ;*
  enc_kv_bytes SUMMARY_KEY_CONFIRMED (s_confirmed_proofs s) ;*
  ants_cbor_enc_uint SUMMARY_KEY_FINDINGS ;*
  ants_cbor_enc_array (zlen (s_findings s)) ;*
  enc_findings (s_findings s).

Definition ants_chain_epoch_summary_encode (s : ants_chain_epoch_summary_t) (cap : Z) : action bytes Z :=
  if ANTS_CHAIN_MAX_PATTERN_FINDINGS <? zlen (s_findings s) then fail ANTS_ERROR_INVALID_ARG
  else if negb (forallb (fun f => severity_valid (f_severity f)) (s_findings s)) then fail ANTS_ERROR_INVALID_ARG
  else with_encoder cap (summary_body s).

(** What the decoder writes: [*out_summary], [findings_buf], [*out_n_findings]. *)
Record summary_out : Type := mk_out {
  o_summary : ants_chain_epoch_summary_t; o_findings : list ants_chain_pattern_finding_t; o_n : Z
}.

Definition set_epoch v o := let s := o_summary o in
  mk_out (mk_summary v (s_cutoff_time s) (s_confirmed_proofs s) (s_findings s)) (o_findings o) (o_n o).
Definition set_cutoff v o := let s := o_summary o in
  mk_out (mk_summary (s_epoch s) v (s_confirmed_proofs s) (s_findings s)) (o_findings o) (o_n o).
Definition set_confirmed v o := let s := o_summary o in
  mk_out (mk_summary (s_epoch s) (s_cutoff_time s) v (s_findings s)) (o_findings o) (o_n o).
Definition set_n v o := mk_out (o_summary o) (o_findings o) v.
Definition set_buf v o := mk_out (o_summary o) v (o_n o).
Definition set_aliased v o := let s := o_summary o in
  mk_out (mk_summary (s_epoch s) (s_cutoff_time s) (s_confirmed_proofs s) v) (o_findings o) (o_n o).

Definition dec_finding : action (ants_cbor_dec_t * ants_chain_pattern_finding_t) unit :=
  let* n_pairs := on_fst (map_err norm_decode_err ants_cbor_dec_map) in
  if negb (n_pairs =? CHAIN_FINDING_PAIRS) then fail ANTS_ERROR_MALFORMED
  else
    let* p := on_fst (decode_bytes_field FINDING_KEY_SUBJECT ANTS_CHAIN_PEER_ID_SIZE) in
    modify_snd (fun f => mk_finding p (f_rule_id f) (f_window_s f) (f_count f) (f_severity f)) ;*
    let* v := on_fst (decode_uint_field FINDING_KEY_RULE) in
    modify_snd (fun f => mk_finding (f_subject f) v (f_window_s f) (f_count f) (f_severity f)) ;*
    let* v := on_fst (decode_uint_field FINDING_KEY_WINDOW) in
    modify_snd (fun f => mk_finding (f_subject f) (f_rule_id f) v (f_count f) (f_severity f)) ;*
    let* v := on_fst (decode_uint_field FINDING_KEY_COUNT) in
    modify_snd (fun f => mk_finding (f_subject f) (f_rule_id f) (f_window_s f) v (f_severity f)) ;*
    let* u := on_fst (decode_uint_field FINDING_KEY_SEVERITY) in
    if negb (severity_valid u) then fail ANTS_ERROR_UNSUPPORTED_TYPE
    else modify_snd (fun f => mk_finding (f_subject f) (f_rule_id f) (f_window_s f) (f_count f) (u32 u)).

(** Run on [&findings_buf[i]]. *)
Definition at_finding (i : Z) (m : action (ants_cbor_dec_t * ants_chain_pattern_finding_t) unit)
  : action (ants_cbor_dec_t * summary_out) unit :=
  fun st =>
  match get_at (o_findings st.2) i with
  | None => UB
  | Some f =>
    let put f' := set_buf (<[Z.to_nat i := f']> (o_findings st.2)) st.2 in
    match m (st.1, f) with
    | Ok (d, f') a => Ok (d, put f') a
    | Err (d, f') e => Err (d, put f') e
    | UB => UB
    | NoFuel => NoFuel
    end
  end.

Definition summary_decode_body (findings_cap : Z) : action (ants_cbor_dec_t * summary_out) unit :=
  let* n_pairs := on_fst (map_err norm_decode_err ants_cbor_dec_map) in
  if negb (n_pairs =? CHAIN_SUMMARY_PAIRS) then fail ANTS_ERROR_MALFORMED
  else
    let* v := on_fst (decode_uint_field SUMMARY_KEY_EPOCH) in
    modify_snd (set_epoch v) ;*
    let* v := on_fst (decode_uint_field SUMMARY_KEY_CUTOFF) in
    modify_snd (set_cutoff v) ;*
    let* p := on_fst (decode_bytes_field SUMMARY_KEY_CONFIRMED ANTS_CHAIN_HASH_SIZE) in
    modify_snd (set_confirmed p) ;*
    on_fst (expect_key SUMMARY_KEY_FINDINGS) ;*
    let* n_findings := on_fst (map_err norm_decode_err ants_cbor_dec_array) in
    modify_snd (set_n n_findings) ;*
    if findings_cap <? n_findings then fail ANTS_ERROR_BUFFER_TOO_SMALL
    else for_loop (Z.to_nat n_findings) 0 n_findings (fun i => at_finding i dec_finding).

(** The summary's pointer to the findings is set last, to the array. *)
Definition ants_chain_epoch_summary_decode (buf : option bytes) (len findings_cap : Z)
  : action summary_out unit :=
  if is_null buf || (len =? 0) then fail ANTS_ERROR_INVALID_ARG
  else
    with_decoder (fun e => e) norm_decode_err buf len (summary_decode_body findings_cap) ;*
    let* st := get in
    modify (set_aliased (take (Z.to_nat (o_n st)) (o_findings st))).

(** ** The block codec *)

Definition CHAIN_BLOCK_PAIRS : Z := 4.
Definition BLOCK_KEY_HEIGHT : Z := 1.
Definition BLOCK_KEY_PREV : Z := 2.
Definition BLOCK_KEY_DEGRADED : Z := 3.
Definition BLOCK_KEY_SUMMARY : Z := 4.

Definition ants_chain_block_bound (b : ants_chain_block_t) : Z :=
  size_add 64 (ants_chain_epoch_summary_bound (b_summary b)).

(** [slen] bytes of the local array [sbuf]. *)
Definition block_body (b : ants_chain_block_t) (sbuf : bytes) (slen : Z) : action ants_cbor_enc_t unit :=
  ants_cbor_enc_map CHAIN_BLOCK_PAIRS ;*
  enc_kv_uint BLOCK_KEY_HEIGHT (b_height b) ;*
  enc_kv_bytes BLOCK_KEY_PREV (b_prev_block_hash b) ;*
  ants_cbor_enc_uint BLOCK_KEY_DEGRADED ;*
  ants_cbor_enc_bool (b_degraded_seed b) ;*
  ants_cbor_enc_uint BLOCK_KEY_SUMMARY ;*
  ants_cbor_enc_bytes (Some sbuf) slen.

Definition local_buffer (n : Z) : bytes := replicate (Z.to_nat n) 0.

Definition ants_chain_block_encode (b : ants_chain_block_t) (cap : Z) : action bytes Z :=
  fun buf =>
  match ants_chain_epoch_summary_encode (b_summary b) ANTS_CHAIN_EPOCH_SUMMARY_ENCODED_MAX
          (local_buffer ANTS_CHAIN_EPOCH_SUMMARY_ENCODED_MAX) with
  | Ok sbuf slen => with_encoder cap (block_body b sbuf slen) buf
  | Err _ e => Err buf e
  | UB => UB
  | NoFuel => NoFuel
  end.

Section block_hash.
Context `{B : Blake3}.

Definition ants_chain_block_hash (b : ants_chain_block_t) : outcome unit bytes :=
  match ants_chain_block_encode b ANTS_CHAIN_BLOCK_ENCODED_MAX (local_buffer ANTS_CHAIN_BLOCK_ENCODED_MAX) with
  | Ok buf len => ants_blake3_hash (Some buf) len
  | Err _ e => Err tt e
  | UB => UB
  | NoFuel => NoFuel
  end.
End block_hash.

(** What the decoder writes: the header fields of [*out_block], and what the
    summary decoder writes. *)
Record block_out : Type := mk_block_out {
  h_height : Z; h_prev : bytes; h_degraded : bool; h_out : summary_out
}.

(** The summary decoder on the embedded document. *)
Definition embedded_decode (sp : bytes) (findings_cap : Z) : action (ants_cbor_dec_t * block_out) unit :=
  fun st =>
  let put o := mk_block_out (h_height st.2) (h_prev st.2) (h_degraded st.2) o in
  match ants_chain_epoch_summary_decode (Some sp) (zlen sp) findings_cap (h_out st.2) with
  | Ok o _ => Ok (st.1, put o) tt
  | Err o e => Err (st.1, put o) e
  | UB => UB
  | NoFuel => NoFuel
  end.

Definition block_decode_body (findings_cap : Z) : action (ants_cbor_dec_t * block_out) unit :=
  let* n_pairs := on_fst (map_err norm_decode_err ants_cbor_dec_map) in
  if negb (n_pairs =? CHAIN_BLOCK_PAIRS) then fail ANTS_ERROR_MALFORMED
  else
    let* v := on_fst (decode_uint_field BLOCK_KEY_HEIGHT) in
    modify_snd (fun o => mk_block_out v (h_prev o) (h_degraded o) (h_out o)) ;*
    let* p := on_fst (decode_bytes_field BLOCK_KEY_PREV ANTS_CHAIN_HASH_SIZE) in
    modify_snd (fun o => mk_block_out (h_height o) p (h_degraded o) (h_out o)) ;*
    on_fst (expect_key BLOCK_KEY_DEGRADED) ;*
    let* d := on_fst (map_err norm_decode_err ants_cbor_dec_bool) in
    modify_snd (fun o => mk_block_out (h_height o) (h_prev o) d (h_out o)) ;*
    on_fst (expect_key BLOCK_KEY_SUMMARY) ;*
    let* sp := on_fst (map_err norm_decode_err ants_cbor_dec_bytes) in
    embedded_decode sp findings_cap.

Definition ants_chain_block_decode (buf : option bytes) (len findings_cap : Z) : action block_out unit :=
  if is_null buf || (len =? 0) then fail ANTS_ERROR_INVALID_ARG
  else with_decoder (fun e => e) norm_decode_err buf len (block_decode_body findings_cap).

(** ** The pattern-rule engine *)

Definition severity_for_count (count : Z) : Z :=
  if ANTS_CHAIN_PATTERN_HARD_MIN_EVENTS <=? count then ANTS_CHAIN_SEVERITY_HARD
  else if ANTS_CHAIN_PATTERN_MEDIUM_MIN_EVENTS <=? count then ANTS_CHAIN_SEVERITY_MEDIUM
  else ANTS_CHAIN_SEVERITY_SOFT.

Definition event_in_window (e : ants_chain_event_t) (now : Z) : bool :=
  (e_timestamp e <=? now) && (u64 (now - e_timestamp e) <? ANTS_CHAIN_PATTERN_WINDOW_S).

(** [for (j = 0; j < i; j++)], over the [i] events before. *)
Fixpoint seen_before (subject : bytes) (before : list ants_chain_event_t) : bool :=
  match before with
  | [] => false
  | e :: r => if memcmp (e_subject e) subject =? 0 then true else seen_before subject r
  end.

(** [for (j = 0; j < n_events; j++)] *)
Fixpoint count_events (subject : bytes) (now : Z) (events : list ants_chain_event_t) (count : Z) : Z :=
  match events with
  | [] => count
  | e :: r =>
    count_events subject now r
      (if (memcmp (e_subject e) subject =? 0) && event_in_window e now then u64 (count + 1) else count)
  end.

(** The array [out_findings] and [*out_n].  A null array, which the code takes
    with [cap = 0], is the empty one. *)
Definition scan_out : Type := list ants_chain_pattern_finding_t * Z.

Definition put_finding (total : Z) (f : ants_chain_pattern_finding_t) : action scan_out unit :=
  let* st := get in
  let* buf := deref (splice st.1 total [f]) in
  modify (fun st => (buf, st.2)).

(** [for (i = 0; i < n_events; i++)]: the events before [i], and from [i] on. *)
Fixpoint scan_loop (before after : list ants_chain_event_t) (now cap total : Z) : action scan_out Z :=
  match after with
  | [] => ret total
  | e :: r =>
    if seen_before (e_subject e) before then scan_loop (before ++ [e]) r now cap total
    else
      let count := count_events (e_subject e) now (before ++ after) 0 in
      if count <? ANTS_CHAIN_PATTERN_SOFT_MIN_EVENTS then scan_loop (before ++ [e]) r now cap total
      else
        (if total <? cap then
           put_finding total (mk_finding (e_subject e) ANTS_CHAIN_RULE_FAULT_COUNT_30D
                                ANTS_CHAIN_PATTERN_WINDOW_S count (severity_for_count count))
         else ret tt) ;*
        scan_loop (before ++ [e]) r now cap (size_add total 1)
  end.

Definition subject_after (f g : ants_chain_pattern_finding_t) : bool :=
  0 <? memcmp (f_subject f) (f_subject g).

Definition sort_findings (total : Z) (buf : list ants_chain_pattern_finding_t)
  : option (list ants_chain_pattern_finding_t) := insertion_sort subject_after total buf.

Definition ants_chain_pattern_scan (events : option (list ants_chain_event_t)) (n_events now cap : Z)
  : action scan_out unit :=
  if is_null events && negb (n_events =? 0) then fail ANTS_ERROR_INVALID_ARG
  else
    let* evs := deref (first_n (default [] events) n_events) in
    let* total := scan_loop [] evs now cap 0 in
    modify (fun st => (st.1, total)) ;*
    if cap <? total then fail ANTS_ERROR_BUFFER_TOO_SMALL
    else
      let* st := get in
      let* buf := deref (sort_findings total st.1) in
      modify (fun st => (buf, st.2)).

(** ** Committee selection *)

Definition read_be64 (b : bytes) : option Z :=
  match b with
  | [b0; b1; b2; b3; b4; b5; b6; b7] =>
    Some (Z.lor (Z.shiftl b0 56) (Z.lor (Z.shiftl b1 48) (Z.lor (Z.shiftl b2 40) (Z.lor (Z.shiftl b3 32)
           (Z.lor (Z.shiftl b4 24) (Z.lor (Z.shiftl b5 16) (Z.lor (Z.shiftl b6 8) b7)))))))
  | _ => None
  end.

(** ['c', 'm', 't', 'e'] *)
Definition committee_tag : bytes := [99; 109; 116; 101].

Section committee.
Context `{B : Blake3}.

(** The caller's counter is incremented by the callers below. *)
Definition committee_draw_word (prev beacon : bytes) (ctr : Z) : action unit Z :=
  let* digest := local_hash (
    ants_blake3_init ;*
    ants_blake3_update (Some prev) ANTS_CHAIN_HASH_SIZE ;*
    ants_blake3_update (Some beacon) ANTS_CHAIN_HASH_SIZE ;*
    ants_blake3_update (Some committee_tag) 4 ;*
    ants_blake3_update (Some (Bond.write_le64 ctr)) 8 ;*
    ants_blake3_final) in
  deref (slice digest 0 8 ≫= read_be64).

(** [for (;;)]: the value drawn and the counter after it.  The number of words
    examined has no bound in the code; [draws] bounds it here. *)
Fixpoint committee_uniform (draws : nat) (prev beacon : bytes) (ctr bound : Z) : action unit (Z * Z) :=
  match draws with
  | O => fun _ => NoFuel
  | S n =>
    let min := u64 (0 - bound) mod bound in
    let* w := committee_draw_word prev beacon ctr in
    let ctr := u64 (ctr + 1) in
    if min <=? w then ret (w mod bound, ctr) else committee_uniform n prev beacon ctr bound
  end.

(** [for (m = 0; m < s; m++)] over the members chosen so far. *)
Fixpoint index_taken (t : Z) (chosen : list Z) : bool :=
  match chosen with
  | [] => false
  | x :: r => if x =? t then true else index_taken t r
  end.

(** The array [out_indices] and [*out_n]. *)
Definition select_out : Type := list Z * Z.

(** [for (s = 0; s < k; s++)], [n] iterations from [s] on. *)
Fixpoint floyd_loop (draws : nat) (prev beacon : bytes) (population_size k : Z) (n : nat) (s ctr : Z)
  : action select_out unit :=
  match n with
  | O => ret tt
  | S n' =>
    let j := size_add (size_sub population_size k) s in
    let* (t, ctr) := pure_call (committee_uniform draws prev beacon ctr (u64 (j + 1))) in
    let* st := get in
    let* chosen := deref (first_n st.1 s) in
    let* buf := deref (splice st.1 s [if index_taken t chosen then j else t]) in
    modify (fun st => (buf, st.2)) ;*
    floyd_loop draws prev beacon population_size k n' (s + 1) ctr
  end.

Definition index_after (a b : Z) : bool := b <? a.

Definition sort_indices (k : Z) (buf : list Z) : option (list Z) := insertion_sort index_after k buf.

Definition ants_chain_committee_select (draws : nat) (prev_block_hash beacon : bytes)
  (population_size k cap : Z) : action select_out unit :=
  if (k =? 0) || (population_size <? k) then fail ANTS_ERROR_INVALID_ARG
  else if cap <? k then modify (fun st => (st.1, k)) ;* fail ANTS_ERROR_BUFFER_TOO_SMALL
  else
    floyd_loop draws prev_block_hash beacon population_size k (Z.to_nat k) 0 0 ;*
    let* st := get in
    let* buf := deref (sort_indices k st.1) in
    modify (fun _ => (buf, k)).
End committee.

(** ** Finality *)

Section finality.
Context `{Ed : Ed25519}.

Fixpoint count_signers (mask : list bool) (n_signers : Z) : Z :=
  match mask with
  | [] => n_signers
  | b :: r => count_signers r (if b then size_add n_signers 1 else n_signers)
  end.

Definition finality_threshold (k : Z) : Z :=
  u64 (u64 (ANTS_CHAIN_FINALITY_NUM * k) + (ANTS_CHAIN_FINALITY_DEN - 1)) / ANTS_CHAIN_FINALITY_DEN.

(** [for (i = 0; i < k; i++)] over the members and their mask. *)
Fixpoint finality_loop (block_hash : bytes) (members : list (bytes * bool)) (attestations : option bytes)
  (sig_idx valid : Z) : action unit Z :=
  match members with
  | [] => ret valid
  | (pubkey, false) :: r => finality_loop block_hash r attestations sig_idx valid
  | (pubkey, true) :: r =>
    let* sig := deref (b ← attestations; slice b (sig_idx * ANTS_CHAIN_SIG_SIZE) ANTS_CHAIN_SIG_SIZE) in
    let* valid' := fun u =>
      match ants_ed25519_verify pubkey (Some block_hash) ANTS_CHAIN_HASH_SIZE sig with
      | Ok _ _ => Ok u (size_add valid 1)
      | Err _ _ => Ok u valid
      | UB => UB
      | NoFuel => NoFuel
      end in
    finality_loop block_hash r attestations (size_add sig_idx 1) valid'
  end.

(** The result is [*out_final]. *)
Definition ants_chain_finality_verify (block_hash : bytes) (committee_pubkeys : list bytes) (k : Z)
  (attestations : option bytes) (attestations_len : Z) (signed_mask : list bool) : action unit bool :=
  if (k =? 0) || (ANTS_CHAIN_COMMITTEE_K_MAX <? k) then fail ANTS_ERROR_INVALID_ARG
  else
    let* mask := deref (first_n signed_mask k) in
    let* pubkeys := deref (first_n committee_pubkeys k) in
    let n_signers := count_signers mask 0 in
    if negb (attestations_len =? u64 (n_signers * ANTS_CHAIN_SIG_SIZE)) then fail ANTS_ERROR_INVALID_ARG
    else if (0 <? n_signers) && is_null attestations then fail ANTS_ERROR_INVALID_ARG
    else
      let* valid := finality_loop block_hash (zip pubkeys mask) attestations 0 0 in
      ret (finality_threshold k <=? valid).
End finality.

(** ** Partition recovery *)

Fixpoint weight_loop (tenures : list Z) (t_cap sum : Z) : action unit Z :=
  match tenures with
  | [] => ret sum
  | t :: r =>
    let* te := Reputation.ants_reputation_t_eff t t_cap in
    if UINT64_MAX - te <? sum then fail ANTS_ERROR_OVERFLOW
    else weight_loop r t_cap (u64 (sum + te))
  end.

(** The result is [*out_sum_t_eff]. *)
Definition ants_chain_fork_weight (validator_tenures : option (list Z)) (n t_cap : Z) : action unit Z :=
  if (t_cap =? 0) || (is_null validator_tenures && negb (n =? 0)) then fail ANTS_ERROR_INVALID_ARG
  else
    let* tenures := deref (first_n (default [] validator_tenures) n) in
    weight_loop tenures t_cap 0.

Definition ants_chain_fork_choice (weight_a weight_b total_t_eff theta_num theta_den : Z)
  : action unit Z :=
  if theta_den =? 0 then fail ANTS_ERROR_INVALID_ARG
  else if (total_t_eff <? weight_a) || (total_t_eff <? weight_b) then fail ANTS_ERROR_INVALID_ARG
  else
    let q := total_t_eff / theta_den in
    let r := total_t_eff mod theta_den in
    let thresh := u64 (u64 (q * theta_num) + u64 (r * theta_num) / theta_den) in
    let a_clears := thresh <? weight_a in
    let b_clears := thresh <? weight_b in
    ret (if a_clears && b_clears then ANTS_CHAIN_FORK_SOCIAL_SCHELLING
         else if weight_b <=? weight_a then ANTS_CHAIN_FORK_A else ANTS_CHAIN_FORK_B).

(** ** VRF seeds *)

Definition write_be64 (v : Z) : bytes :=
  [u8 (Z.shiftr v 56); u8 (Z.shiftr v 48); u8 (Z.shiftr v 40); u8 (Z.shiftr v 32);
   u8 (Z.shiftr v 24); u8 (Z.shiftr v 16); u8 (Z.shiftr v 8); u8 v].

Section seeds.
Context `{B : Blake3}.

Definition vrf_seed_derive (context : string) (prev_block_hash : bytes) (height : Z)
  (randomness : option bytes) : outcome unit bytes :=
  let km := prev_block_hash ++ write_be64 height ++ default [] randomness in
  ants_blake3_derive_key context (Some km) (zlen km).

Definition ants_chain_vrf_seed (prev_block_hash : bytes) (height : Z) (randomness : bytes)
  : outcome unit bytes :=
  vrf_seed_derive "ants-v1-vrf-seed" prev_block_hash height (Some randomness).

Definition ants_chain_vrf_seed_degraded (prev_block_hash : bytes) (height : Z) : outcome unit bytes :=
  vrf_seed_derive "ants-v1-vrf-seed-degraded" prev_block_hash height None.
End seeds.

(** ** Proposer election *)

Definition ants_chain_proposer (height k : Z) : action unit Z :=
  if (k =? 0) || (ANTS_CHAIN_COMMITTEE_K_MAX <? k) then fail ANTS_ERROR_INVALID_ARG
  else ret (height mod k).

(** ** Block proposal *)

Section propose.
Context `{B : Blake3}.

(** The findings array and [*out_n_findings]; the result is [*out_block]. *)
Definition ants_chain_block_propose (height : Z) (prev_block_hash : bytes) (epoch cutoff_time : Z)
  (degraded_seed : bool) (content_ids : option (list bytes)) (n_ids : Z)
  (events : option (list ants_chain_event_t)) (n_events findings_cap : Z)
  : action scan_out ants_chain_block_t :=
  let* root := pure_call (ants_chain_confirmed_root content_ids n_ids) in
  (fun st =>
     match ants_chain_pattern_scan events n_events cutoff_time findings_cap (st.1, 0) with
     | Ok st' _ => Ok st' tt
     | Err st' e => Err st' e
     | UB => UB
     | NoFuel => NoFuel
     end) ;*
  let* st := get in
  if ANTS_CHAIN_MAX_PATTERN_FINDINGS <? st.2 then fail ANTS_ERROR_INVALID_ARG
  else
    ret (mk_block height prev_block_hash degraded_seed
           (mk_summary epoch cutoff_time root (take (Z.to_nat st.2) st.1))).
End propose.

End Chain.
