(* ===== verification/ChainPattern.v ===== *)
(** * The pattern-rule engine reports exactly the tallies (chain.c)

    [ants_chain_pattern_scan] emits one finding per subject with an event in
    the window, in ascending order of subjects; the report depends on the
    multiset of events only. *)

From stdpp Require Import sorting.
From S2P Require Import Prelude Cbor CborContract CborKv LedgerUnchoke Crdt InsertionSort Chain.
Import Chain.

#[local] Arguments zlen {A} l : simpl never.

(** ** The specification *)

Definition in_window (now : Z) (e : ants_chain_event_t) : Prop :=
  e_timestamp e <= now < e_timestamp e + 2592000.

#[export] Instance in_window_dec now e : Decision (in_window now e).
Proof. unfold in_window. apply _. Defined.

(** The events of a subject in the thirty days up to [now]. *)
Definition tally (events : list ants_chain_event_t) (now : Z) (s : bytes) : Z :=
  zlen (filter (fun e => e_subject e = s /\ in_window now e) events).

(** 1-2 events are soft, 3-5 medium, 6 and more hard. *)
Definition severity_of (count : Z) : Z :=
  if decide (6 <= count) then 3 else if decide (3 <= count) then 2 else 1.

Definition finding_of (events : list ants_chain_event_t) (now : Z) (s : bytes) : ants_chain_pattern_finding_t :=
  let count := tally events now s in mk_finding s 1 2592000 count (severity_of count).

Definition subject_lt (f g : ants_chain_pattern_finding_t) : Prop := memcmp (f_subject f) (f_subject g) < 0.

(** The report on [events]: it is determined by this description. *)
Definition is_report (events : list ants_chain_event_t) (now : Z)
  (fs : list ants_chain_pattern_finding_t) : Prop :=
  StronglySorted subject_lt fs /\
  forall f, f ∈ fs <-> exists s, 0 < tally events now s /\ f = finding_of events now s.

Definition events_ok (events : list ants_chain_event_t) : Prop :=
  Forall (fun e => zlen (e_subject e) = 32 /\ is_u64 (e_timestamp e)) events /\ zlen events <= INT64_MAX.

#[export] Instance tally_perm : Proper ((≡ₚ) ==> eq ==> eq ==> eq) tally.
Proof. intros l k H ? now -> ? s ->. unfold tally, zlen. by rewrite H. Qed.

Lemma tally_app l k now s : tally (l ++ k) now s = tally l now s + tally k now s.
Proof. unfold tally. by rewrite filter_app, zlen_app. Qed.

Lemma tally_nonneg l now s : 0 <= tally l now s.
Proof. apply zlen_nonneg. Qed.

Lemma tally_bound l now s : tally l now s <= zlen l.
Proof. unfold tally, zlen. pose proof (length_filter (fun e => e_subject e = s /\ in_window now e) l). lia. Qed.

Lemma tally_pos l now s : 0 < tally l now s -> exists e, e ∈ l /\ e_subject e = s.
Proof.
  intros Ht. unfold tally in Ht. destruct (filter _ l) as [|e k] eqn:E; [short_list|].
  assert (He : e ∈ filter (fun e => e_subject e = s /\ in_window now e) l) by (rewrite E; by left).
  apply list_elem_of_filter in He as [[Hs _] He]. by exists e.
Qed.

#[export] Instance is_report_perm : Proper ((≡ₚ) ==> eq ==> eq ==> iff) is_report.
Proof.
  intros l k H ? now -> ? fs ->. unfold is_report, finding_of. apply and_iff_compat_l.
  split; intros Hf f; rewrite Hf; apply exist_proper; intros s; by rewrite H.
Qed.

(** ** Orders on subjects *)

Section order.
Context (a b c : bytes) (Ha : zlen a = 32) (Hb : zlen b = 32) (Hc : zlen c = 32).

Lemma memcmp_antisym : memcmp a b < 0 <-> 0 < memcmp b a.
Proof. rewrite !memcmp_compare by lia. apply compare_keys_trichotomy. Qed.

Lemma memcmp_trans : memcmp a b < 0 -> memcmp b c < 0 -> memcmp a c < 0.
Proof. rewrite !memcmp_compare by lia. apply compare_keys_trans. Qed.

Lemma memcmp_zero : memcmp a b = 0 <-> a = b.
Proof. rewrite memcmp_compare by lia. apply compare_keys_trichotomy. Qed.
End order.

Lemma memcmp_irrefl a : ~ memcmp a a < 0.
Proof. rewrite memcmp_refl. lia. Qed.

(** Findings about subjects of the right size. *)
Definition sized (f : ants_chain_pattern_finding_t) : Prop := zlen (f_subject f) = 32.

(** A report is unique. *)
Lemma report_unique events now fs gs :
  events_ok events -> is_report events now fs -> is_report events now gs -> fs = gs.
Proof.
  intros [Hev _] [Hsf Hf] [Hsg Hg].
  assert (Hsz : forall f, (exists s, 0 < tally events now s /\ f = finding_of events now s) -> sized f).
  { intros f (s & Ht & ->). apply tally_pos in Ht as (e & He & <-). rewrite Forall_forall in Hev. by apply Hev. }
  assert (Hnd : forall l, StronglySorted subject_lt l -> NoDup l).
  { intros l. induction 1 as [|f l Hl IH Hall]; constructor; [|done]. intros Hin.
    rewrite Forall_forall in Hall. by apply (memcmp_irrefl (f_subject f)), Hall. }
  apply (StronglySorted_unique_strong subject_lt); try done.
  - intros x y Hx Hy H1 H2. exfalso. unfold subject_lt in *.
    assert (sized x /\ sized y) as [Sx Sy] by (split; apply Hsz; [by apply Hf|by apply Hg]).
    apply (memcmp_irrefl (f_subject x)). by apply (memcmp_trans _ (f_subject y)).
  - apply NoDup_Permutation; [by apply Hnd..|]. intros f. by rewrite Hf, Hg.
Qed.

(** ** The tests of the code *)

Lemma seen_before_spec s l :
  zlen s = 32 -> Forall (fun e => zlen (e_subject e) = 32) l ->
  seen_before s l = bool_decide (s ∈ map e_subject l).
Proof.
  intros Hs. induction 1 as [|e l He _ IH]; cbn [seen_before map]; [done|].
  rewrite memcmp_eq, IH by lia. destruct (decide (e_subject e = s)) as [->|Hne].
  - rewrite !bool_decide_true by (done || by left). done.
  - rewrite (bool_decide_false (e_subject e = s)) by done. apply bool_decide_ext.
    rewrite elem_of_cons. naive_solver.
Qed.

Lemma event_in_window_spec e now :
  is_u64 (e_timestamp e) -> is_u64 now -> event_in_window e now = bool_decide (in_window now e).
Proof.
  intros He Hn. unfold event_in_window, in_window, ANTS_CHAIN_PATTERN_WINDOW_S, is_u64 in *.
  destruct (Z.leb_spec (e_timestamp e) now); cbn [andb].
  - rewrite u64_small by (red; lia). destruct (Z.ltb_spec (now - e_timestamp e) 2592000).
    + symmetry. apply bool_decide_true. lia.
    + symmetry. apply bool_decide_false. lia.
  - symmetry. apply bool_decide_false. lia.
Qed.

Lemma count_events_eq s now l :
  zlen s = 32 -> is_u64 now -> Forall (fun e => zlen (e_subject e) = 32 /\ is_u64 (e_timestamp e)) l ->
  forall count, 0 <= count -> count + zlen l <= SIZE_MAX ->
  count_events s now l count = count + tally l now s.
Proof.
  intros Hs Hn. induction 1 as [|e l [He Ht] _ IH]; intros count Hc Hm; cbn [count_events].
  - unfold tally. cbn. change (zlen (@nil ants_chain_event_t)) with 0. lia.
  - rewrite zlen_cons in Hm. pose proof (zlen_nonneg l). change (e :: l) with ([e] ++ l). rewrite tally_app.
    rewrite memcmp_eq, event_in_window_spec, <- bool_decide_and by (done || lia).
    unfold tally at 1. rewrite filter_cons, filter_nil. destruct (decide (e_subject e = s /\ in_window now e)) as [H1|H1].
    + rewrite bool_decide_true, u64_small, IH by (done || zlia). change (zlen [e]) with 1. lia.
    + rewrite bool_decide_false, IH by (done || lia). change (zlen (@nil ants_chain_event_t)) with 0. lia.
Qed.

Lemma severity_for_count_eq count : severity_for_count count = severity_of count.
Proof.
  unfold severity_for_count, severity_of. change ANTS_CHAIN_PATTERN_HARD_MIN_EVENTS with 6.
  change ANTS_CHAIN_PATTERN_MEDIUM_MIN_EVENTS with 3.
  destruct (Z.leb_spec 6 count), (decide (6 <= count)); try lia; [done|].
  destruct (Z.leb_spec 3 count), (decide (3 <= count)); (lia || done).
Qed.

(** ** What the loop emits *)

Section scan.
Context (events : list ants_chain_event_t) (now : Z) (Hok : events_ok events) (Hnow : is_u64 now).

Fixpoint emit (before after : list ants_chain_event_t) : list ants_chain_pattern_finding_t :=
  match after with
  | [] => []
  | e :: r =>
    (if decide ((e_subject e ∉ map e_subject before) /\ 0 < tally events now (e_subject e))
     then [finding_of events now (e_subject e)] else []) ++ emit (before ++ [e]) r
  end.

Lemma emit_in f after : forall before,
  f ∈ emit before after <-> exists s, s ∈ map e_subject after /\ (s ∉ map e_subject before) /\
    0 < tally events now s /\ f = finding_of events now s.
Proof.
  induction after as [|e r IH]; intros before; cbn [emit map].
  - split; [by intros ?%elem_of_nil|]. by intros (s & ?%elem_of_nil & _).
  - rewrite elem_of_app, IH, map_app. cbn [map]. split.
    + intros [H1|(s & H1 & H2 & H3)].
      * case_decide as Hd; [|by apply elem_of_nil in H1]. apply list_elem_of_singleton in H1 as ->.
        exists (e_subject e). split; [by left|]. naive_solver.
      * exists s. split; [by right|]. rewrite elem_of_app in H2. naive_solver.
    + intros (s & H1 & H2 & H3 & ->). destruct (decide (s = e_subject e)) as [->|Hne].
      * left. rewrite decide_True by done. by left.
      * right. exists s. rewrite elem_of_app, list_elem_of_singleton.
        apply elem_of_cons in H1. naive_solver.
Qed.

Lemma emit_nodup after : forall before, NoDup (map f_subject (emit before after)).
Proof.
  induction after as [|e r IH]; intros before; cbn [emit map]; [constructor|].
  rewrite map_app. case_decide as Hd; [|apply IH]. cbn [map app]. constructor; [|apply IH].
  intros (f & Hf & Hin)%list_elem_of_fmap. apply emit_in in Hin as (s & _ & Hs & _ & ->).
  cbn [finding_of f_subject] in Hf. apply Hs. rewrite map_app, elem_of_app. right. cbn [map]. rewrite <- Hf. by left.
Qed.

Lemma emit_all f : f ∈ emit [] events <-> exists s, 0 < tally events now s /\ f = finding_of events now s.
Proof.
  rewrite emit_in. split.
  - naive_solver.
  - intros (s & Ht & ->). exists s. split; [|split; [apply not_elem_of_nil|done]].
    apply tally_pos in Ht as (e & He & <-). by apply list_elem_of_fmap_2.
Qed.

Lemma emit_length after : forall before, zlen (emit before after) <= zlen after.
Proof.
  induction after as [|e r IH]; intros before; cbn [emit]; [done|].
  rewrite zlen_app, zlen_cons. specialize (IH (before ++ [e])). case_decide.
  - change (zlen [_]) with 1. lia.
  - change (zlen (@nil ants_chain_pattern_finding_t)) with 0. lia.
Qed.

(** ** The loop *)

Lemma put_finding_ok total f (buf : list ants_chain_pattern_finding_t) k :
  0 <= total < zlen buf ->
  put_finding total f (buf, k) =
    Ok (take (Z.to_nat total) buf ++ f :: drop (S (Z.to_nat total)) buf, k) tt.
Proof.
  intros Ht. unfold put_finding, get, deref, modify, bind. cbn [fst snd]. unfold splice.
  change (zlen [f]) with 1. repeat bdecide. cbn [andb length app]. by rewrite Nat.add_1_r.
Qed.

Lemma put_length total f (buf : list ants_chain_pattern_finding_t) :
  0 <= total < zlen buf -> zlen (take (Z.to_nat total) buf ++ f :: drop (S (Z.to_nat total)) buf) = zlen buf.
Proof. intros Ht. unfold zlen in *. rewrite length_app, length_take. cbn [length]. rewrite length_drop. lia. Qed.

Lemma emitted_next total f fs (buf : list ants_chain_pattern_finding_t) :
  0 <= total < zlen buf ->
  let buf1 := take (Z.to_nat total) buf ++ f :: drop (S (Z.to_nat total)) buf in
  take (Z.to_nat (total + 1)) buf1 ++ fs ++ drop (Z.to_nat (total + 1 + zlen fs)) buf1 =
  take (Z.to_nat total) buf ++ ([f] ++ fs) ++ drop (Z.to_nat (total + (1 + zlen fs))) buf.
Proof.
  intros Ht buf1. pose proof (zlen_nonneg fs).
  assert (Hl : length (take (Z.to_nat total) buf) = Z.to_nat total) by (rewrite length_take; zlia).
  replace (Z.to_nat (total + 1)) with (length (take (Z.to_nat total) buf) + 1)%nat by lia.
  replace (Z.to_nat (total + 1 + zlen fs)) with (length (take (Z.to_nat total) buf) + S (length fs))%nat by zlia.
  subst buf1. rewrite take_app_add, drop_app_add. cbn [take drop]. rewrite take_0, drop_drop, <- !app_assoc.
  cbn [app]. do 4 f_equal. zlia.
Qed.

Lemma scan_step e before r : events = before ++ e :: r ->
  seen_before (e_subject e) before = bool_decide (e_subject e ∈ map e_subject before) /\
  count_events (e_subject e) now events 0 = tally events now (e_subject e).
Proof.
  intros He. destruct Hok as [Hall Hlen]. split.
  - apply seen_before_spec.
    + rewrite He in Hall. apply Forall_app in Hall as [_ [[H _] _]%Forall_cons]. done.
    + rewrite He in Hall. apply Forall_app in Hall as [H _]. eapply Forall_impl; [exact H|]. by intros ? [].
  - rewrite count_events_eq; [lia| |done|done|lia|zlia].
    rewrite He in Hall. by apply Forall_app in Hall as [_ [[H _] _]%Forall_cons].
Qed.

Lemma scan_loop_ok cap after : forall before buf k total,
  events = before ++ after -> 0 <= total -> total + zlen after <= INT64_MAX -> cap <= zlen buf ->
  let fs := emit before after in
  exists buf', scan_loop before after now cap total (buf, k) = Ok (buf', k) (total + zlen fs) /\
    zlen buf' = zlen buf /\
    (total + zlen fs <= cap ->
     buf' = take (Z.to_nat total) buf ++ fs ++ drop (Z.to_nat (total + zlen fs)) buf).
Proof.
  induction after as [|e r IH]; intros before buf k total He Ht Hm Hc fs; subst fs; cbn [scan_loop emit].
  - change (zlen (@nil ants_chain_pattern_finding_t)) with 0. rewrite Z.add_0_r. exists buf.
    split_and!; [done|done|]. intros _. cbn [app]. by rewrite take_drop.
  - destruct (scan_step e before r He) as [Hs Hcount]. rewrite Hs, <- He, Hcount.
    assert (He' : events = (before ++ [e]) ++ r) by (rewrite He, <- app_assoc; done).
    rewrite zlen_cons in Hm. pose proof (zlen_nonneg r).
    assert (Hskip : exists buf',
      scan_loop (before ++ [e]) r now cap total (buf, k) = Ok (buf', k) (total + zlen (emit (before ++ [e]) r)) /\
      zlen buf' = zlen buf /\ (total + zlen (emit (before ++ [e]) r) <= cap ->
      buf' = take (Z.to_nat total) buf ++ emit (before ++ [e]) r ++
             drop (Z.to_nat (total + zlen (emit (before ++ [e]) r))) buf)) by (apply IH; (done || lia)).
    destruct (decide (e_subject e ∈ map e_subject before)) as [Hin|Hin].
    { rewrite bool_decide_true, decide_False by naive_solver. exact Hskip. }
    rewrite bool_decide_false by done. change ANTS_CHAIN_PATTERN_SOFT_MIN_EVENTS with 1.
    destruct (Z.ltb_spec (tally events now (e_subject e)) 1) as [H0|H0].
    { rewrite decide_False by (intros [_ ?]; lia). exact Hskip. }
    clear Hskip. rewrite decide_True by (split; [done|lia]). rewrite severity_for_count_eq.
    change (mk_finding _ _ _ _ _) with (finding_of events now (e_subject e)).
    set (f := finding_of events now (e_subject e)). rewrite zlen_app. change (zlen [f]) with 1.
    rewrite size_add_small by zlia. pose proof (zlen_nonneg (emit (before ++ [e]) r)).
    destruct (Z.ltb_spec total cap) as [Hlt|Hge].
    + rewrite (bind_Ok _ _ _ _ _ (put_finding_ok total f buf k ltac:(lia))).
      destruct (IH (before ++ [e]) _ k (total + 1) He' ltac:(lia) ltac:(lia)
        ltac:(rewrite (put_length total f buf) by lia; lia)) as (buf' & Hb & Hl & Hw).
      exists buf'. rewrite Hb, Hl, put_length by lia. split_and!; [f_equal; lia|done|].
      intros Hle. rewrite Hw by lia. apply emitted_next. lia.
    + rewrite bind_ret_l. destruct (IH (before ++ [e]) buf k (total + 1) He' ltac:(lia) ltac:(lia) Hc) as (buf' & Hb & Hl & _).
      exists buf'. rewrite Hb. split_and!; [f_equal; lia|done|lia].
Qed.
End scan.

(** ** The report *)

Lemma memcmp_opp a : forall b, memcmp b a = - memcmp a b.
Proof.
  induction a as [|x a IH]; intros [|y b]; cbn [memcmp]; try done.
  rewrite Z.eqb_sym. destruct (Z.eqb_spec x y); [apply IH|lia].
Qed.

Lemma subject_after_asym f g : subject_after f g = true -> subject_after g f = false.
Proof. unfold subject_after. rewrite (memcmp_opp (f_subject f)). lia. Qed.

Lemma subject_eq f g : sized f -> sized g -> memcmp (f_subject f) (f_subject g) = 0 -> f_subject f = f_subject g.
Proof. intros Hf Hg. by apply memcmp_zero. Qed.

Lemma emit_sized events now f : events_ok events -> f ∈ emit events now [] events -> sized f.
Proof.
  intros [Hok _] (s & Ht & ->)%emit_all. apply tally_pos in Ht as (e & He & <-).
  rewrite Forall_forall in Hok. by apply Hok.
Qed.

Lemma sorted_report events now fs :
  events_ok events -> Sorted (le subject_after) fs -> fs ≡ₚ emit events now [] events ->
  is_report events now fs.
Proof.
  intros Hok Hs Hp.
  assert (Hsz : Forall sized fs).
  { apply Forall_forall. intros f Hf. apply (emit_sized events now); [done|]. by rewrite <- Hp. }
  split; [|intros f; rewrite Hp; apply emit_all].
  assert (Hnd : NoDup (map f_subject fs)) by (rewrite Hp; apply emit_nodup).
  assert (Hlt : Sorted subject_lt fs).
  { clear Hp. induction Hs as [|f l Hs IH Hh]; [constructor|]. cbn [map] in Hnd.
    apply NoDup_cons in Hnd as [Hf Hnd]. apply Forall_cons in Hsz as [Sf Hsz]. constructor; [by apply IH|].
    destruct Hh as [|g l Hle]; constructor. apply Forall_cons in Hsz as [Sg _].
    unfold le, subject_after, subject_lt in *. apply Z.ltb_ge in Hle.
    assert (memcmp (f_subject f) (f_subject g) <> 0); [|lia].
    intros E%subject_eq; [|done..]. apply Hf. rewrite E. by left. }
  apply (Sorted_strong_on subject_lt sized); try done.
  intros x y z Hx Hy Hz. by apply memcmp_trans.
Qed.

Lemma scan_outcome events now cap buf k :
  events_ok events -> is_u64 now -> 0 <= cap <= zlen buf ->
  exists fs, is_report events now fs /\
  match ants_chain_pattern_scan (Some events) (zlen events) now cap (buf, k) with
  | Ok (buf', n) _ => zlen fs <= cap /\ n = zlen fs /\ buf' = fs ++ drop (length fs) buf
  | Err (buf', n) e => cap < zlen fs /\ e = ANTS_ERROR_BUFFER_TOO_SMALL /\ n = zlen fs /\ zlen buf' = zlen buf
  | UB | NoFuel => False
  end.
Proof.
  intros Hok Hnow Hc. pose proof (proj2 Hok) as Hlen. set (fs0 := emit events now [] events).
  pose proof (zlen_nonneg fs0).
  destruct (scan_loop_ok events now Hok Hnow cap events [] buf k 0) as (buf1 & Hb & Hl & Hw); [done|lia|lia|lia|].
  fold fs0 in Hb, Hw. rewrite Z.add_0_l in Hb, Hw.
  unfold ants_chain_pattern_scan. cbn [is_null andb default]. rewrite first_n_all.
  unfold deref at 1, bind at 1. rewrite (bind_Ok _ _ _ _ _ Hb). unfold modify at 1, bind at 1. cbn [fst snd].
  destruct (Z.ltb_spec cap (zlen fs0)) as [Hlt|Hge].
  - destruct (insertion_sort_ok subject_after subject_after_asym (zlen fs0) fs0) as (c & _ & Hs & Hp); [lia|].
    rewrite take_ge in Hp by zlia. exists c. split; [by apply sorted_report|].
    apply Permutation_length in Hp. unfold fail, zlen in *. rewrite Hp. by split_and!.
  - specialize (Hw Hge). change (Z.to_nat 0) with 0%nat in Hw. rewrite take_0 in Hw. cbn [app] in Hw. subst buf1.
    destruct (insertion_sort_ok subject_after subject_after_asym (zlen fs0)
      (fs0 ++ drop (Z.to_nat (zlen fs0)) buf)) as (c & Hsort & Hs & Hp); [rewrite Hl; lia|].
    rewrite zlen_to_nat in *. rewrite take_app_length in Hp. rewrite drop_app_length in Hsort.
    exists c. split; [by apply sorted_report|]. unfold get, modify, bind, deref, sort_findings. cbn [fst snd].
    rewrite Hsort. apply Permutation_length in Hp. unfold zlen in *. rewrite Hp. by split_and!.
Qed.

(** C25: Scanning a set of fault events, in whatever order they are listed,
    yields the one report on them: a finding for each subject with an event in
    the thirty days up to [now], with the exact tally and its severity, in
    strictly ascending order of subjects.  If the array is too short the exact
    number of findings is reported with BUFFER_TOO_SMALL. *)
Theorem pattern_scan_exact events now cap buf k :
  events_ok events -> is_u64 now -> 0 <= cap <= zlen buf ->
  exists fs, is_report events now fs /\ (forall gs, is_report events now gs -> gs = fs) /\
    forall events', events' ≡ₚ events ->
    match ants_chain_pattern_scan (Some events') (zlen events') now cap (buf, k) with
    | Ok (buf', n) _ => zlen fs <= cap /\ n = zlen fs /\ buf' = fs ++ drop (length fs) buf
    | Err (buf', n) e => cap < zlen fs /\ e = ANTS_ERROR_BUFFER_TOO_SMALL /\ n = zlen fs /\ zlen buf' = zlen buf
    | UB | NoFuel => False
    end.
Proof.
  intros Hok Hnow Hc. destruct (scan_outcome events now cap buf k Hok Hnow Hc) as (fs & Hr & _).
  exists fs. split; [done|]. split; [intros gs Hg; by apply (report_unique events now)|].
  intros events' Hp. assert (Hok' : events_ok events').
  { destruct Hok as [Ha Hl]. split; [by rewrite Hp|]. unfold zlen in *. by rewrite Hp. }
  destruct (scan_outcome events' now cap buf k Hok' Hnow Hc) as (fs' & Hr' & Ho).
  rewrite Hp in Hr'. by rewrite <- (report_unique events now fs' fs Hok Hr' Hr).
Qed.

Definition demo_event (s t : Z) : ants_chain_event_t := mk_event (replicate 32 s) t 1.
Definition demo_events : list ants_chain_event_t :=
  [demo_event 9 3000000; demo_event 4 3000000; demo_event 9 2999999; demo_event 9 2999000; demo_event 5 1].
Definition no_finding : ants_chain_pattern_finding_t := mk_finding [] 0 0 0 0.

Lemma pattern_scan_exact_witness :
  is_report demo_events 3000000
    [mk_finding (replicate 32 4) 1 2592000 1 1; mk_finding (replicate 32 9) 1 2592000 3 2].
Proof.
  destruct (pattern_scan_exact demo_events 3000000 3 (replicate 3 no_finding) 0) as (fs & Hr & _ & H).
  - split; [by_decision|by vm_compute].
  - by_decision.
  - by_decision.
  - specialize (H demo_events ltac:(reflexivity)).
    destruct (ants_chain_pattern_scan (Some demo_events) (zlen demo_events) 3000000 3 (replicate 3 no_finding, 0))
      as [[buf' n] []|[buf' n] e| |] eqn:E; vm_compute in E; [|discriminate E..].
    injection E as <- <-.
    destruct H as (_ & Hn & Hb). destruct fs as [|f [|g [|]]]; try (unfold zlen in Hn; cbn in Hn; lia).
    injection Hb as <- <-. exact Hr.
Defined.
