(* ===== verification/ChainFinality.v ===== *)
(** * Finality is a two-thirds quorum, and conflicting quorums are accountable (chain.c)

    [ants_chain_finality_verify] counts exactly the committee members whose
    signature over the block hash verifies and compares with two thirds; two
    final hashes of one committee share a third of its members as signers. *)

From S2P Require Import Prelude Cbor CborKv Crypto Crdt Chain.
Import Chain.

#[local] Arguments zlen {A} l : simpl never.

Section finality.
Context `{Ed : Ed25519}.

(** The positions, from [i] on, of the members marked as signers whose packed
    signature is valid. *)
Fixpoint votes (h : bytes) (members : list (bytes * bool)) (atts : bytes) (i : nat) : list nat :=
  match members with
  | [] => []
  | (p, false) :: r => votes h r atts (S i)
  | (p, true) :: r =>
    (if crypto_sign_ed25519_verify_detached (take 64 atts) h p then [i] else []) ++
    votes h r (drop 64 atts) (S i)
  end.

Definition signers (mask : list bool) : Z := zlen (filter (fun b => b = true) mask).

Lemma signers_cons b mask : signers (b :: mask) = (if b then 1 else 0) + signers mask.
Proof.
  unfold signers. rewrite filter_cons. destruct b; case_decide; rewrite ?zlen_cons; done.
Qed.

Lemma signers_bound mask : 0 <= signers mask <= zlen mask.
Proof. unfold signers, zlen. pose proof (length_filter (fun b => b = true) mask). lia. Qed.

Lemma count_signers_eq mask : forall n, 0 <= n -> n + zlen mask <= SIZE_MAX ->
  count_signers mask n = n + signers mask.
Proof.
  induction mask as [|b mask IH]; intros n Hn Hm; cbn [count_signers].
  - change (signers []) with 0. lia.
  - rewrite zlen_cons in Hm. pose proof (zlen_nonneg mask). rewrite signers_cons.
    destruct b; rewrite ?size_add_small, IH by zlia; lia.
Qed.

Lemma votes_length h members : forall atts i, zlen (votes h members atts i) <= zlen members.
Proof.
  induction members as [|[p []] r IH]; intros atts i; cbn [votes]; rewrite ?zlen_app, ?zlen_cons; [done| |].
  - specialize (IH (drop 64 atts) (S i)). destruct (crypto_sign_ed25519_verify_detached _ _ _);
      [change (zlen [i]) with 1|change (zlen (@nil nat)) with 0]; lia.
  - specialize (IH atts (S i)). lia.
Qed.

Lemma finality_loop_eq h : zlen h = 32 -> forall members i pre post sig_idx valid u,
  zlen pre = sig_idx * 64 -> zlen post = signers (map snd members) * 64 ->
  0 <= valid -> valid + zlen members <= SIZE_MAX -> sig_idx + zlen members <= SIZE_MAX -> 0 <= sig_idx ->
  finality_loop h members (Some (pre ++ post)) sig_idx valid u = Ok u (valid + zlen (votes h members post i)).
Proof.
  intros Hh members. induction members as [|[p []] r IH]; intros i pre post sig_idx valid u Hpre Hpost Hv Hvm Hs Hs0;
    cbn [finality_loop votes map snd] in *; rewrite ?signers_cons, ?zlen_cons in *.
  - change (zlen (@nil nat)) with 0. by rewrite Z.add_0_r.
  - pose proof (zlen_nonneg r). pose proof (signers_bound (map snd r)).
    assert (Hsl : slice (pre ++ post) (sig_idx * 64) 64 = Some (take 64 post)).
    { pose proof (slice_mid pre (take 64 post) (drop 64 post)) as Hm. rewrite take_drop, Hpre in Hm.
      replace (zlen (take 64 post)) with 64 in Hm; [exact Hm|]. unfold zlen in *. rewrite length_take. lia. }
    cbn [mbind option_bind]. change ANTS_CHAIN_SIG_SIZE with 64. rewrite Hsl.
    unfold deref, bind at 1 2. change ANTS_CHAIN_HASH_SIZE with 32. rewrite <- Hh, ed25519_verify_all.
    assert (Hp1 : zlen (pre ++ take 64 post) = (sig_idx + 1) * 64).
    { rewrite zlen_app, Hpre. unfold zlen in *. rewrite length_take. lia. }
    assert (Hp2 : zlen (drop 64 post) = signers (map snd r) * 64) by (unfold zlen in *; rewrite length_drop; lia).
    assert (Hpp : pre ++ post = (pre ++ take 64 post) ++ drop 64 post) by by rewrite <- app_assoc, take_drop.
    rewrite (size_add_small sig_idx), Hpp, zlen_app by zlia.
    destruct (crypto_sign_ed25519_verify_detached _ _ _).
    + rewrite size_add_small by zlia. change (zlen [i]) with 1.
      rewrite (IH (S i)) by (done || lia). f_equal. lia.
    + change (zlen (@nil nat)) with 0. by rewrite (IH (S i)) by (done || lia).
  - pose proof (zlen_nonneg r). by rewrite (IH (S i)) by (done || lia).
Qed.

Lemma votes_sound h j members : forall atts i, j ∈ votes h members atts i ->
  (i <= j)%nat /\ exists p sig, members !! (j - i)%nat = Some (p, true) /\
    crypto_sign_ed25519_verify_detached sig h p = true.
Proof.
  induction members as [|[p []] r IH]; intros atts i Hj; cbn [votes] in Hj.
  - by apply elem_of_nil in Hj.
  - apply elem_of_app in Hj as [Hj|Hj].
    + destruct (crypto_sign_ed25519_verify_detached _ _ _) eqn:E; [|by apply elem_of_nil in Hj].
      apply list_elem_of_singleton in Hj as ->. split; [done|]. exists p, (take 64 atts).
      by rewrite Nat.sub_diag.
    + apply IH in Hj as (Hi & q & sig & Hq & Hs). split; [lia|]. exists q, sig.
      by replace (j - i)%nat with (S (j - S i)) by lia.
  - apply IH in Hj as (Hi & q & sig & Hq & Hs). split; [lia|]. exists q, sig.
    by replace (j - i)%nat with (S (j - S i)) by lia.
Qed.

Lemma votes_nodup h members : forall atts i, NoDup (votes h members atts i).
Proof.
  induction members as [|[p []] r IH]; intros atts i; cbn [votes]; [constructor| |apply IH].
  destruct (crypto_sign_ed25519_verify_detached _ _ _); [|apply IH].
  cbn [app]. constructor; [|apply IH]. intros [? _]%votes_sound. lia.
Qed.

Lemma zip_masks (pubkeys : list bytes) (mask : list bool) :
  zlen pubkeys = zlen mask -> map snd (zip pubkeys mask) = mask /\ zlen (zip pubkeys mask) = zlen mask.
Proof.
  intros Hl. assert (length pubkeys = length mask) by zlia. split.
  - change (map snd (zip pubkeys mask)) with ((zip pubkeys mask).*2). apply snd_zip. lia.
  - unfold zlen. rewrite length_zip_with. lia.
Qed.

Lemma threshold_spec k v : 0 < k <= 64 -> (finality_threshold k <=? v) = bool_decide (2 * k <= 3 * v).
Proof.
  intros Hk. unfold finality_threshold. change ANTS_CHAIN_FINALITY_NUM with 2. change ANTS_CHAIN_FINALITY_DEN with 3.
  rewrite (u64_small (2 * k)), u64_small by (red; lia). apply Bool.eq_iff_eq_true.
  rewrite bool_decide_eq_true, Z.leb_le. split; intros H; divlia.
Qed.

Lemma finality_verify_eq h pubkeys mask k atts u :
  zlen h = 32 -> 0 < k <= ANTS_CHAIN_COMMITTEE_K_MAX -> zlen pubkeys = k -> zlen mask = k ->
  ants_chain_finality_verify h pubkeys k (Some atts) (zlen atts) mask u =
    if decide (zlen atts = signers mask * 64)
    then Ok u (bool_decide (2 * k <= 3 * zlen (votes h (zip pubkeys mask) atts 0)))
    else Err u ANTS_ERROR_INVALID_ARG.
Proof.
  intros Hh Hk Hp Hm. change ANTS_CHAIN_COMMITTEE_K_MAX with 64 in *. unfold ants_chain_finality_verify.
  change ANTS_CHAIN_COMMITTEE_K_MAX with 64. repeat bdecide. cbn [orb].
  assert (first_n mask k = Some mask) as -> by (rewrite <- Hm; apply first_n_all).
  assert (first_n pubkeys k = Some pubkeys) as -> by (rewrite <- Hp; apply first_n_all).
  unfold deref, bind at 1 2.
  pose proof (signers_bound mask). rewrite count_signers_eq, Z.add_0_l by zlia.
  change ANTS_CHAIN_SIG_SIZE with 64. rewrite (u64_small (signers mask * 64)) by (red; lia).
  case_decide as Hl.
  - rewrite (proj2 (Z.eqb_eq _ _) Hl). cbn [negb]. rewrite andb_false_r.
    destruct (zip_masks pubkeys mask) as [Hz1 Hz2]; [lia|].
    rewrite (bind_Ok _ _ _ _ _ (finality_loop_eq h Hh (zip pubkeys mask) 0 [] atts 0 0 u
      ltac:(done) ltac:(by rewrite Hz1) ltac:(lia) ltac:(rewrite Hz2; zlia) ltac:(rewrite Hz2; zlia) ltac:(lia))).
    rewrite Z.add_0_l. unfold ret. by rewrite threshold_spec.
  - by rewrite (proj2 (Z.eqb_neq _ _) Hl).
Qed.

(** Two sets of positions below [n] that are large enough overlap. *)
Lemma overlap (l k : list nat) n :
  NoDup l -> NoDup k -> (forall i, i ∈ l \/ i ∈ k -> (i < n)%nat) ->
  (length l + length k <= length (filter (fun i => i ∈ k) l) + n)%nat.
Proof.
  intros Hl Hk Hn.
  assert (Hs : (length (filter (fun i => i ∉ k) l ++ k) <= length (seq 0 n))%nat).
  { apply submseteq_length, NoDup_submseteq.
    - apply NoDup_app. split_and!; [by apply NoDup_filter| |done]. by intros i [? _]%list_elem_of_filter.
    - intros i [[_ Hi]%list_elem_of_filter|Hi]%elem_of_app; apply elem_of_seq; specialize (Hn i); lia || (split; [lia|]; apply Hn; tauto). }
  rewrite length_app, length_seq in Hs.
  assert (length l = (length (filter (fun i => i ∈ k) l) + length (filter (fun i => i ∉ k) l))%nat); [|lia].
  clear. induction l as [|x l IH]; [done|]. rewrite !filter_cons. destruct (decide (x ∈ k)).
  - rewrite decide_False by tauto. cbn [length]. lia.
  - rewrite decide_True by tauto. cbn [length]. lia.
Qed.
End finality.

(** C30: A block hash is final exactly when at least two thirds of the
    committee have signed it: the attestation buffer has to hold one signature
    per member of the mask, a signature counts if it verifies under its
    member's key, and the verdict is 2k <= 3 valid. *)
Theorem finality_exact `{Ed : Ed25519} h pubkeys mask k atts u :
  zlen h = 32 -> 0 < k <= ANTS_CHAIN_COMMITTEE_K_MAX -> zlen pubkeys = k -> zlen mask = k ->
  match ants_chain_finality_verify h pubkeys k (Some atts) (zlen atts) mask u with
  | Ok _ final => zlen atts = signers mask * ANTS_CHAIN_SIG_SIZE /\
      (final = true <-> 2 * k <= 3 * zlen (votes h (zip pubkeys mask) atts 0))
  | Err _ e => zlen atts <> signers mask * ANTS_CHAIN_SIG_SIZE /\ e = ANTS_ERROR_INVALID_ARG
  | UB | NoFuel => False
  end.
Proof.
  intros Hh Hk Hp Hm. rewrite finality_verify_eq by done. case_decide; [|done].
  split; [done|]. apply bool_decide_eq_true.
Qed.

(** Where a final hash comes from. *)
Lemma final_votes `{Ed : Ed25519} h pubkeys mask k atts u :
  zlen h = 32 -> 0 < k <= ANTS_CHAIN_COMMITTEE_K_MAX -> zlen pubkeys = k -> zlen mask = k ->
  ants_chain_finality_verify h pubkeys k (Some atts) (zlen atts) mask u = Ok u true ->
  let v := votes h (zip pubkeys mask) atts 0 in
  NoDup v /\ 2 * k <= 3 * zlen v /\ forall i, i ∈ v -> exists p sig, pubkeys !! i = Some p /\
    crypto_sign_ed25519_verify_detached sig h p = true.
Proof.
  intros Hh Hk Hp Hm Hf. rewrite finality_verify_eq in Hf by done. case_decide; [|discriminate].
  apply (f_equal (fun o => match o with Ok _ b => b | _ => false end)), bool_decide_eq_true in Hf.
  split; [apply votes_nodup|]. split; [done|]. intros i (_ & p & sig & Hi & Hs)%votes_sound.
  exists p, sig. split; [|done]. rewrite Nat.sub_0_r in Hi. apply lookup_zip_with_Some in Hi as (q & b & Hpq & Hq & _).
  injection Hpq as -> _. done.
Qed.

(** C7: Conflicting finality is accountable.  If two block hashes are both
    final for one committee of at most 64 members, at least a third of the
    committee have signed both. *)
Theorem conflicting_finality_accountable `{Ed : Ed25519} h1 h2 pubkeys k mask1 mask2 atts1 atts2 u :
  zlen h1 = 32 -> zlen h2 = 32 -> 0 < k <= ANTS_CHAIN_COMMITTEE_K_MAX ->
  zlen pubkeys = k -> zlen mask1 = k -> zlen mask2 = k ->
  ants_chain_finality_verify h1 pubkeys k (Some atts1) (zlen atts1) mask1 u = Ok u true ->
  ants_chain_finality_verify h2 pubkeys k (Some atts2) (zlen atts2) mask2 u = Ok u true ->
  exists members, NoDup members /\ k <= 3 * zlen members /\
    forall i, i ∈ members -> exists p sig1 sig2, pubkeys !! i = Some p /\
      crypto_sign_ed25519_verify_detached sig1 h1 p = true /\
      crypto_sign_ed25519_verify_detached sig2 h2 p = true.
Proof.
  intros Hh1 Hh2 Hk Hp Hm1 Hm2 Hf1 Hf2.
  destruct (final_votes _ _ _ _ _ _ Hh1 Hk Hp Hm1 Hf1) as (Hn1 & Hs1 & Hv1).
  destruct (final_votes _ _ _ _ _ _ Hh2 Hk Hp Hm2 Hf2) as (Hn2 & Hs2 & Hv2).
  set (v1 := votes h1 _ _ _) in *. set (v2 := votes h2 _ _ _) in *.
  exists (filter (fun i => i ∈ v2) v1). split; [by apply NoDup_filter|]. split.
  - assert (Hb : forall i, i ∈ v1 \/ i ∈ v2 -> (i < Z.to_nat k)%nat).
    { intros i [Hi|Hi]; [apply Hv1 in Hi as (p & ? & Hi & _)|apply Hv2 in Hi as (p & ? & Hi & _)];
        apply lookup_lt_Some in Hi; zlia. }
    pose proof (overlap v1 v2 (Z.to_nat k) Hn1 Hn2 Hb). unfold zlen in *. lia.
  - intros i [Hi2 Hi1]%list_elem_of_filter. destruct (Hv1 i Hi1) as (p & sig1 & Hip & Hsig1).
    destruct (Hv2 i Hi2) as (q & sig2 & Hiq & Hsig2). assert (p = q) as <- by congruence. eauto 10.
Qed.

(** A committee of four; the third member equivocates. *)
Definition demo_committee : list bytes := map (fun i => replicate 32 i) [1; 2; 3; 4].
Definition demo_vote (p h : bytes) : bytes := p ++ take 32 h.
Definition demo_attest (h : bytes) (members : list Z) : bytes :=
  concat (map (fun i => demo_vote (replicate 32 i) h) members).

Lemma finality_exact_witness :
  @ants_chain_finality_verify toy_ed25519 (replicate 32 7) demo_committee 4
    (Some (demo_attest (replicate 32 7) [1; 2; 3])) 192 [true; true; true; false] tt = Ok tt true.
Proof.
  pose proof (@finality_exact toy_ed25519 (replicate 32 7) demo_committee [true; true; true; false] 4
    (demo_attest (replicate 32 7) [1; 2; 3]) tt ltac:(done) ltac:(by vm_compute) ltac:(done) ltac:(done)) as H.
  change (zlen (demo_attest (replicate 32 7) [1; 2; 3])) with 192 in H.
  destruct (ants_chain_finality_verify _ _ _ _ _ _ _) as [[] final|? e| |].
  - destruct H as [_ H]. f_equal. apply H. vm_compute. discriminate.
  - exfalso. apply (proj1 H). reflexivity.
  - destruct H.
  - destruct H.
Defined.

Lemma conflicting_finality_accountable_witness :
  exists members : list nat, NoDup members /\ 4 <= 3 * zlen members.
Proof.
  destruct (@conflicting_finality_accountable toy_ed25519 (replicate 32 7) (replicate 32 8) demo_committee 4
    [true; true; true; false] [false; true; true; true]
    (demo_attest (replicate 32 7) [1; 2; 3]) (demo_attest (replicate 32 8) [2; 3; 4]) tt)
    as (members & Hn & Hk & _); try done; try (by vm_compute); try (vm_compute; reflexivity).
  by exists members.
Defined.
