(* ===== verification/ChainFork.v ===== *)
(** * Fork choice by effective tenure (chain.c with reputation.c)

    A fork weighs the exact sum of the saturated tenures of its validators,
    and the choice compares these sums with the exact fraction theta of the
    agreed total, as long as theta's terms are small enough not to wrap. *)

From S2P Require Import Prelude Cbor CborKv Crypto Reputation RepFixed RepCompute Chain.
Import Chain.

#[local] Arguments zlen {A} l : simpl never.

(** T_eff as a number. *)
Definition effective (t_cap t : Z) : Z := t_cap * (2 ^ 32 - exp_neg t t_cap) / 2 ^ 32.

Lemma effective_range t_cap t : 0 < t_cap -> 0 <= effective t_cap t <= t_cap.
Proof.
  intros Hc. pose proof (exp_neg_range t t_cap Hc) as He. unfold is_q32 in He. unfold effective.
  split; [apply Z.div_pos; nia|apply Z.div_le_upper_bound; nia].
Qed.

Lemma weight_loop_eq t_cap tenures u : 0 < t_cap < 2 ^ 64 -> Forall is_u64 tenures -> forall sum, is_u64 sum ->
  let total := sum + zsum (map (effective t_cap) tenures) in
  weight_loop tenures t_cap sum u = if total <=? UINT64_MAX then Ok u total else Err u ANTS_ERROR_OVERFLOW.
Proof.
  intros Hc. induction 1 as [|t r Ht Hr IH]; intros sum Hs total; cbn [weight_loop]; subst total.
  - cbn [map]. change (zsum []) with 0. rewrite Z.add_0_r. unfold is_u64, UINT64_MAX in *. by bdecide.
  - cbn [map]. rewrite zsum_cons. unfold is_u64 in Ht. rewrite (bind_Ok _ _ _ _ _ (t_eff_eq t t_cap u ltac:(lia) Hc)).
    fold (effective t_cap t). pose proof (effective_range t_cap t ltac:(lia)) as He.
    assert (Hz : 0 <= zsum (map (effective t_cap) r)).
    { apply zsum_nonneg, Forall_fmap, Forall_forall. intros x _. apply effective_range. lia. }
    unfold is_u64, UINT64_MAX in *. destruct (Z.ltb_spec (2 ^ 64 - 1 - effective t_cap t) sum).
    + by bdecide.
    + rewrite u64_small by (red; lia). cbv zeta in IH. rewrite IH by lia. by rewrite Z.add_assoc.
Qed.

(** A fork's weight is the exact sum of the effective tenures of its
    validators; OVERFLOW is answered exactly if that sum is not a 64-bit
    number, INVALID_ARG exactly for a zero cap. *)
Theorem fork_weight_exact tenures t_cap u :
  Forall is_u64 tenures -> 0 <= t_cap < 2 ^ 64 ->
  match ants_chain_fork_weight (Some tenures) (zlen tenures) t_cap u with
  | Ok _ w => 0 < t_cap /\ w = zsum (map (effective t_cap) tenures) /\ is_u64 w /\ w <= zlen tenures * t_cap
  | Err _ ANTS_ERROR_OVERFLOW => 0 < t_cap /\ UINT64_MAX < zsum (map (effective t_cap) tenures)
  | Err _ e => t_cap = 0 /\ e = ANTS_ERROR_INVALID_ARG
  | UB | NoFuel => False
  end.
Proof.
  intros Ht Hc. unfold ants_chain_fork_weight. destruct (Z.eqb_spec t_cap 0) as [|Hne]; [done|].
  cbn [orb is_null andb default]. rewrite first_n_all. unfold deref, bind.
  rewrite weight_loop_eq by (done || lia). rewrite Z.add_0_l.
  assert (Hz : 0 <= zsum (map (effective t_cap) tenures) <= zlen tenures * t_cap).
  { clear Ht. induction tenures as [|t r IH]; [done|]. cbn [map]. rewrite zsum_cons, zlen_cons.
    pose proof (effective_range t_cap t ltac:(lia)). lia. }
  destruct (Z.leb_spec (zsum (map (effective t_cap) tenures)) UINT64_MAX); unfold is_u64, UINT64_MAX in *.
  - split_and!; (done || lia).
  - split; [lia|done].
Qed.

Lemma fork_weight_exact_witness :
  ants_chain_fork_weight (Some [1000; 10 ^ 12; 0]) 3 2000000000 tt = Ok tt 2000000999.
Proof.
  pose proof (fork_weight_exact [1000; 10 ^ 12; 0] 2000000000 tt ltac:(repeat constructor; by vm_compute) ltac:(lia)) as H.
  change (zlen [1000; 10 ^ 12; 0]) with 3 in H.
  destruct (ants_chain_fork_weight (Some [1000; 10 ^ 12; 0]) 3 2000000000 tt) as [[] w|? e| |] eqn:E.
  - destruct H as (_ & -> & _). vm_compute. reflexivity.
  - vm_compute in E. discriminate E.
  - destruct H.
  - destruct H.
Defined.

(** ** The choice *)

(** theta = num/den of the total is exceeded. *)
Definition clears (weight total num den : Z) : Prop := total * num < weight * den.

Lemma threshold_exact total num den :
  0 <= total < 2 ^ 64 -> 0 <= num <= den -> 0 < den < 2 ^ 64 -> (den - 1) * num < 2 ^ 64 ->
  u64 (u64 (total / den * num) + u64 (total mod den * num) / den) = total * num / den.
Proof.
  intros Ht Hn Hd Ho. pose proof (Z.mod_pos_bound total den ltac:(lia)) as Hr.
  pose proof (Z.div_mod total den ltac:(lia)) as Hdm. set (q := total / den) in *. set (r := total mod den) in *.
  assert (0 <= q) by (apply Z.div_pos; lia). assert (q * den <= total) by nia.
  assert (q * num <= total) by nia. assert (0 <= q * num) by nia.
  rewrite (u64_small (q * num)) by (red; lia). rewrite (u64_small (r * num)) by (red; nia).
  replace (total * num) with (q * num * den + r * num) by nia. rewrite Z.div_add_l by lia.
  apply u64_small. red. assert (0 <= r * num / den) by (apply Z.div_pos; nia).
  assert (r * num / den <= r) by (apply Z.div_le_upper_bound; nia). nia.
Qed.

(** The partition verdict is exact: both forks clear theta of the total
    in the rationals exactly if the verdict is the social layer, and otherwise
    the heavier fork wins, a tie going to A; only a zero denominator or a
    weight beyond the total is refused.  The threshold's products do not wrap
    for a fraction with (den - 1) * num below 2^64. *)
Theorem fork_choice_exact a b total num den u :
  0 <= a -> 0 <= b -> 0 <= total < 2 ^ 64 -> 0 <= num <= den -> den < 2 ^ 64 -> (den - 1) * num < 2 ^ 64 ->
  match ants_chain_fork_choice a b total num den u with
  | Ok _ w =>
      let balanced := clears a total num den /\ clears b total num den in
      (w = ANTS_CHAIN_FORK_SOCIAL_SCHELLING <-> balanced) /\
      (w = ANTS_CHAIN_FORK_A <-> ~ balanced /\ b <= a) /\
      (w = ANTS_CHAIN_FORK_B <-> ~ balanced /\ a < b)
  | Err _ e => e = ANTS_ERROR_INVALID_ARG /\ (den = 0 \/ total < a \/ total < b)
  | UB | NoFuel => False
  end.
Proof.
  intros Ha Hb Ht Hn Hd Ho. unfold ants_chain_fork_choice. destruct (Z.eqb_spec den 0) as [|Hne]; [by split; [|left]|].
  destruct (Z.ltb_spec total a), (Z.ltb_spec total b); cbn [orb]; try (split; [done|lia]).
  cbv zeta. rewrite threshold_exact by lia. unfold ret, clears.
  assert (Hc : forall w, (total * num / den <? w) = true <-> total * num < w * den).
  { intros w. rewrite Z.ltb_lt. split; intros Hw.
    - pose proof (Z.mul_succ_div_gt (total * num) den ltac:(lia)). nia.
    - apply Z.div_lt_upper_bound; lia. }
  pose proof (Hc a) as Hca. pose proof (Hc b) as Hcb.
  unfold ANTS_CHAIN_FORK_SOCIAL_SCHELLING, ANTS_CHAIN_FORK_A, ANTS_CHAIN_FORK_B.
  assert (Ht' : true = true) by done. assert (Hf : false <> true) by done.
  destruct (total * num / den <? a), (total * num / den <? b); cbn [andb]; destruct (Z.leb_spec b a) as [Hab|Hab].
  all: assert (Hab' : b <= a <-> ~ a < b) by lia.
  all: split_and!; split; intros Hw; first [discriminate Hw | tauto | reflexivity].
Qed.

Lemma fork_choice_exact_witness :
  ants_chain_fork_choice 40 50 100 1 3 tt = Ok tt ANTS_CHAIN_FORK_SOCIAL_SCHELLING.
Proof.
  pose proof (fork_choice_exact 40 50 100 1 3 tt ltac:(lia) ltac:(lia) ltac:(lia) ltac:(lia) ltac:(lia) ltac:(lia)) as H.
  destruct (ants_chain_fork_choice 40 50 100 1 3 tt) as [[] w|? e| |] eqn:E.
  - f_equal. apply (proj1 H). unfold clears. lia.
  - vm_compute in E. discriminate E.
  - destruct H.
  - destruct H.
Defined.

(** For a proper fraction with large terms the product [r * theta_num] does
    wrap: here a fork holding half of the total is sent to the social layer
    although it is far below theta. *)
Example fork_threshold_wraps :
  ants_chain_fork_choice (2 ^ 62) (2 ^ 62) (2 ^ 63) (2 ^ 63) (2 ^ 63 + 1) tt = Ok tt ANTS_CHAIN_FORK_SOCIAL_SCHELLING /\
  ~ clears (2 ^ 62) (2 ^ 63) (2 ^ 63) (2 ^ 63 + 1).
Proof. split; [vm_compute; reflexivity|]. unfold clears. vm_compute. discriminate. Qed.
