(* ===== verification/ChainCommittee.v ===== *)
(** * Committee selection draws distinct members (chain.c)

    Floyd's sampling over a keystream of hashes: whatever the hash, the
    committee has exactly [k] members of the population, each once and in
    ascending order, and each draw is an unbiased residue. *)

From S2P Require Import Prelude Cbor CborKv Crypto Bond Merkle Crdt InsertionSort Chain.
Import Crdt Chain.

#[local] Arguments zlen {A} l : simpl never.

(** ** Words of the keystream *)

Lemma lor_step a rest k : is_u8 a -> 0 <= k -> 0 <= rest < 2 ^ k ->
  0 <= Z.lor (Z.shiftl a k) rest < 2 ^ (k + 8).
Proof.
  unfold is_u8. intros Ha Hk Hr. rewrite lor_disjoint, Z.pow_add_r by lia. change (2 ^ 8) with 256 in *. nia.
Qed.

Lemma read_be64_some b : zlen b = 8 -> bytes_ok b -> exists w, read_be64 b = Some w /\ is_u64 w.
Proof.
  intros Hl Hb. do 8 (destruct b as [|? b]; [short_list|]). destruct b; [|unfold zlen in Hl; cbn in Hl; lia].
  eexists. split; [reflexivity|]. do 8 (apply Forall_cons in Hb as [? Hb]).
  apply (lor_step _ _ 56); [done|lia|]. apply (lor_step _ _ 48); [done|lia|]. apply (lor_step _ _ 40); [done|lia|].
  apply (lor_step _ _ 32); [done|lia|]. apply (lor_step _ _ 24); [done|lia|]. apply (lor_step _ _ 16); [done|lia|].
  apply (lor_step _ _ 8); [done|lia|]. done.
Qed.

Section committee.
Context `{B : Blake3} {Laws : Blake3Laws B}.
Context (prev beacon : bytes) (Hprev : zlen prev = 32) (Hbeacon : zlen beacon = 32).

(** The word number [ctr]. *)
Definition word (ctr : Z) : Z :=
  default 0 (read_be64 (take 8 (digest (prev ++ beacon ++ committee_tag ++ Bond.write_le64 ctr)))).

Lemma slice_take (b : bytes) n : 0 <= n <= zlen b -> slice b 0 n = Some (take (Z.to_nat n) b).
Proof.
  intros Hn. pose proof (slice_mid [] (take (Z.to_nat n) b) (drop (Z.to_nat n) b)) as H.
  cbn [app] in H. rewrite take_drop in H. replace (zlen (take (Z.to_nat n) b)) with n in H; [exact H|].
  unfold zlen in *. rewrite length_take. lia.
Qed.

Lemma draw_word_eq ctr u : committee_draw_word prev beacon ctr u = Ok u (word ctr) /\ is_u64 (word ctr).
Proof.
  unfold committee_draw_word, word, local_hash, bind, ants_blake3_init.
  set (m := prev ++ beacon ++ committee_tag ++ Bond.write_le64 ctr).
  pose proof (digest_size m) as Hd. pose proof (finalize_bytes (blake3_hasher_update blake3_hasher_init m)) as Hb.
  fold (digest m) in Hb. change ANTS_BLAKE3_HASH_SIZE with 32 in Hd.
  destruct (read_be64_some (take 8 (digest m))) as (w & Hw & Hu).
  { unfold zlen in *. rewrite length_take. lia. }
  { by apply Forall_take. }
  rewrite Hw. split; [|done].
  rewrite (update_sized _ prev) by done. rewrite (update_sized _ beacon) by done.
  rewrite (update_sized _ committee_tag), (update_sized _ (Bond.write_le64 ctr)) by done.
  unfold ants_blake3_final. rewrite !update_app, <- ?app_assoc. fold m. fold (digest m).
  rewrite slice_take by lia. change (Z.to_nat 8) with 8%nat. cbn [mbind option_bind]. by rewrite Hw.
Qed.

(** ** One draw *)

Definition rejected (bound w : Z) : Prop := w < 2 ^ 64 mod bound.

Lemma min_eq bound : 0 < bound < 2 ^ 64 -> u64 (0 - bound) mod bound = 2 ^ 64 mod bound.
Proof.
  intros Hb. unfold u64. replace ((0 - bound) mod 2 ^ 64) with (2 ^ 64 + (-1) * bound).
  - by rewrite Z.mod_add by lia.
  - rewrite <- (Z.mod_add (0 - bound) 1) by lia. rewrite Z.mod_small by lia. lia.
Qed.

(** The draw is the residue of the first word that is not rejected. *)
Lemma uniform_ok draws : forall ctr bound u, 0 < bound < 2 ^ 64 ->
  (exists d : nat, (d < draws)%nat /\ ~ rejected bound (word (u64 (ctr + Z.of_nat d))) /\
     (forall e : nat, (e < d)%nat -> rejected bound (word (u64 (ctr + Z.of_nat e)))) /\
     committee_uniform draws prev beacon (u64 ctr) bound u =
       Ok u (word (u64 (ctr + Z.of_nat d)) mod bound, u64 (ctr + Z.of_nat d + 1))) \/
  ((forall d : nat, (d < draws)%nat -> rejected bound (word (u64 (ctr + Z.of_nat d)))) /\
   committee_uniform draws prev beacon (u64 ctr) bound u = NoFuel).
Proof.
  assert (Hadd : forall x y, u64 (u64 x + y) = u64 (x + y)) by (intros; unfold u64; by rewrite Zplus_mod_idemp_l).
  induction draws as [|n IH]; intros ctr bound u Hb; cbn [committee_uniform].
  { right. split; [lia|done]. }
  destruct (draw_word_eq (u64 ctr) u) as [Hw _]. rewrite (bind_Ok _ _ _ _ _ Hw), min_eq, Hadd by done.
  destruct (Z.leb_spec (2 ^ 64 mod bound) (word (u64 ctr))) as [Hle|Hlt].
  - left. exists 0%nat. rewrite Z.add_0_r. split; [lia|]. split; [unfold rejected; lia|]. split; [lia|done].
  - assert (Hshift : forall d, u64 (ctr + 1 + Z.of_nat d) = u64 (ctr + Z.of_nat (Datatypes.S d))) by (intros; f_equal; lia).
    destruct (IH (ctr + 1) bound u Hb) as [(d & Hd & Hacc & Hrej & He)|[Hrej He]]; rewrite He.
    + left. exists (Datatypes.S d). rewrite <- Hshift. split; [lia|]. split; [done|]. split.
      * intros [|e] He'; [by rewrite Z.add_0_r|]. rewrite <- Hshift. apply Hrej. lia.
      * by replace (ctr + Z.of_nat (Datatypes.S d) + 1) with (ctr + 1 + Z.of_nat d + 1) by lia.
    + right. split; [|done]. intros [|d] Hd; [by rewrite Z.add_0_r|]. rewrite <- Hshift. apply Hrej. lia.
Qed.

(** ** Floyd's sampling *)

Lemma index_taken_spec t l : index_taken t l = bool_decide (t ∈ l).
Proof.
  induction l as [|x l IH]; cbn [index_taken]; [done|]. rewrite IH. destruct (Z.eqb_spec x t) as [->|Hne].
  - symmetry. apply bool_decide_true. by left.
  - apply bool_decide_ext. rewrite elem_of_cons. naive_solver.
Qed.

(** A run of [draws] rejected words for a bound the sampling uses. *)
Definition rejected_run (draws : nat) (low high : Z) : Prop :=
  exists ctr bound, low < bound <= high /\
    forall d : nat, (d < draws)%nat -> rejected bound (word (u64 (ctr + Z.of_nat d))).

(** [s] distinct members below [limit]. *)
Definition distinct_below (limit : Z) (l : list Z) : Prop := NoDup l /\ Forall (fun x => 0 <= x < limit) l.

Lemma put_member s x (buf : list Z) : 0 <= s < zlen buf ->
  splice buf s [x] = Some (take (Z.to_nat s) buf ++ x :: drop (Datatypes.S (Z.to_nat s)) buf).
Proof.
  intros Hs. unfold splice. change (zlen [x]) with 1. repeat bdecide. cbn [andb length app]. by rewrite Nat.add_1_r.
Qed.

Lemma distinct_next j chosen t :
  distinct_below j chosen -> 0 <= t <= j ->
  distinct_below (j + 1) (chosen ++ [if index_taken t chosen then j else t]).
Proof.
  intros [Hn Hf] Ht. rewrite index_taken_spec. rewrite Forall_forall in Hf.
  assert (Hnew : (if bool_decide (t ∈ chosen) then j else t) ∉ chosen).
  { case_bool_decide; [|done]. intros Hj%Hf. lia. }
  split.
  - apply NoDup_app. split_and!; [done| |apply NoDup_singleton]. intros x Hx ->%list_elem_of_singleton. done.
  - apply Forall_app. split; [apply Forall_forall; intros x Hx%Hf; lia|].
    constructor; [|constructor]. case_bool_decide; lia.
Qed.

(** One draw adds one member. *)
Definition add_member (j s t : Z) (buf : list Z) : list Z :=
  let chosen := take (Z.to_nat s) buf in
  chosen ++ (if index_taken t chosen then j else t) :: drop (Datatypes.S (Z.to_nat s)) buf.

Lemma floyd_step draws N k n s ctr ctr' t buf old :
  0 < k <= N -> N < 2 ^ 64 -> 0 <= s < k -> s < zlen buf ->
  committee_uniform draws prev beacon ctr (N - k + s + 1) tt = Ok tt (t, ctr') ->
  floyd_loop draws prev beacon N k (Datatypes.S n) s ctr (buf, old) =
    floyd_loop draws prev beacon N k n (s + 1) ctr' (add_member (N - k + s) s t buf, old).
Proof.
  intros Hk HN Hs Hb Hu. cbn [floyd_loop].
  rewrite size_sub_small, size_add_small by zlia. rewrite (u64_small (N - k + s + 1)) by (red; lia).
  unfold pure_call, bind at 1. rewrite Hu. unfold get at 1, bind at 1. cbn [fst snd].
  assert (first_n buf s = Some (take (Z.to_nat s) buf)) as ->.
  { unfold first_n. repeat bdecide. done. }
  unfold deref at 1, bind at 1. rewrite put_member by lia. done.
Qed.

Lemma add_member_length j s t buf : 0 <= s < zlen buf -> zlen (add_member j s t buf) = zlen buf.
Proof.
  intros Hs. unfold add_member, zlen in *. rewrite length_app, length_take. cbn [length]. rewrite length_drop. lia.
Qed.

Lemma add_member_take j s t buf : 0 <= s < zlen buf ->
  take (Z.to_nat (s + 1)) (add_member j s t buf) =
    take (Z.to_nat s) buf ++ [if index_taken t (take (Z.to_nat s) buf) then j else t].
Proof.
  intros Hs. unfold add_member. cbv zeta. set (chosen := take (Z.to_nat s) buf).
  assert (length chosen = Z.to_nat s) by (unfold chosen, zlen in *; rewrite length_take; lia).
  replace (Z.to_nat (s + 1)) with (length chosen + 1)%nat by lia. by rewrite take_app_add.
Qed.

Lemma add_member_drop j s t buf k : 0 <= s < zlen buf -> s < k -> 
  drop (Z.to_nat k) (add_member j s t buf) = drop (Z.to_nat k) buf.
Proof.
  intros Hs Hk. unfold add_member. cbv zeta. set (chosen := take (Z.to_nat s) buf).
  assert (length chosen = Z.to_nat s) by (unfold chosen, zlen in *; rewrite length_take; lia).
  replace (Z.to_nat k) with (length chosen + Datatypes.S (Z.to_nat (k - s - 1)))%nat at 1 by lia.
  rewrite drop_app_add. cbn [drop]. rewrite drop_drop. f_equal. lia.
Qed.

Lemma floyd_loop_ok draws N k : 0 < k <= N -> N < 2 ^ 64 -> forall n s c buf old,
  0 <= s -> s + Z.of_nat n = k -> k <= zlen buf -> distinct_below (N - k + s) (take (Z.to_nat s) buf) ->
  (exists buf', floyd_loop draws prev beacon N k n s (u64 c) (buf, old) = Ok (buf', old) tt /\
     zlen buf' = zlen buf /\ drop (Z.to_nat k) buf' = drop (Z.to_nat k) buf /\
     distinct_below N (take (Z.to_nat k) buf')) \/
  (floyd_loop draws prev beacon N k n s (u64 c) (buf, old) = NoFuel /\ rejected_run draws (N - k) N).
Proof.
  intros Hk HN. induction n as [|n IH]; intros s c buf old Hs Hn Hb Hd.
  { left. exists buf. replace s with k in Hd by lia. replace (N - k + k) with N in Hd by lia. done. }
  destruct (uniform_ok draws c (N - k + s + 1) tt ltac:(lia)) as [(d & _ & _ & _ & Hu)|[Hrej Hu]].
  - rewrite (floyd_step draws N k n s _ _ _ buf old Hk HN ltac:(lia) ltac:(lia) Hu). set (t := word _ mod _) in *.
    assert (Ht : 0 <= t < N - k + s + 1) by (apply Z.mod_pos_bound; lia). clearbody t.
    destruct (IH (s + 1) (c + Z.of_nat d + 1) (add_member (N - k + s) s t buf) old)
      as [(buf' & He & Hl & Hdr & Hdist)|[He Hr]]; try lia.
    + rewrite add_member_length; lia.
    + rewrite add_member_take by lia. replace (N - k + (s + 1)) with (N - k + s + 1) by lia.
      apply distinct_next; [done|lia].
    + left. exists buf'. rewrite add_member_length in Hl by lia. rewrite add_member_drop in Hdr by lia. done.
    + by right.
  - right. split; [|by exists c, (N - k + s + 1); split; [lia|]]. cbn [floyd_loop].
    rewrite size_sub_small, size_add_small by zlia. rewrite (u64_small (N - k + s + 1)) by (red; lia).
    unfold pure_call, bind at 1. by rewrite Hu.
Qed.

Lemma index_after_asym a b : index_after a b = true -> index_after b a = false.
Proof. unfold index_after. lia. Qed.

Lemma sorted_members N l : distinct_below N l -> forall c, Sorted (le index_after) c -> c ≡ₚ l ->
  StronglySorted Z.lt c /\ Forall (fun x => 0 <= x < N) c.
Proof.
  intros [Hn Hf] c Hs Hp. split; [|by rewrite Hp].
  assert (Hnd : NoDup c) by (by rewrite Hp). clear Hp.
  apply Sorted_StronglySorted; [intros x y z; lia|].
  induction Hs as [|x c Hs IH Hh]; [constructor|]. apply NoDup_cons in Hnd as [Hx Hnd].
  constructor; [by apply IH|]. destruct Hh as [|y c Hle]; constructor.
  unfold le, index_after in Hle. apply Z.ltb_ge in Hle. assert (x <> y) by (intros ->; apply Hx; by left). lia.
Qed.
End committee.

(** What a selection leaves. *)
Lemma committee_select_spec `{B : Blake3} {Laws : Blake3Laws B} draws prev beacon N k cap buf old :
  zlen prev = 32 -> zlen beacon = 32 -> 0 < k <= N -> N < 2 ^ 64 -> 0 <= cap <= zlen buf ->
  match ants_chain_committee_select draws prev beacon N k cap (buf, old) with
  | Ok (buf', n) _ => k <= cap /\ n = k /\
      exists members, buf' = members ++ drop (Z.to_nat k) buf /\ zlen members = k /\
        StronglySorted Z.lt members /\ Forall (fun m => 0 <= m < N) members
  | Err (buf', n) e => cap < k /\ e = ANTS_ERROR_BUFFER_TOO_SMALL /\ n = k /\ buf' = buf
  | NoFuel => rejected_run prev beacon draws (N - k) N
  | UB => False
  end.
Proof.
  intros Hp Hb Hk HN Hc. unfold ants_chain_committee_select. repeat bdecide. cbn [orb].
  destruct (Z.ltb_spec cap k) as [Hs|Hs]; [done|].
  destruct (floyd_loop_ok prev beacon Hp Hb draws N k Hk HN (Z.to_nat k) 0 0 buf old)
    as [(buf' & He & Hl & Hd & Hdist)|[He Hr]]; try lia.
  { split; [constructor|constructor]. }
  - change (u64 0) with 0 in He. rewrite (bind_Ok _ _ _ _ _ He). unfold get, bind at 1. cbn [fst snd].
    destruct (insertion_sort_ok index_after index_after_asym k buf') as (c & Hsort & Hsrt & Hperm); [lia|].
    unfold sort_indices. rewrite Hsort. unfold deref, bind, modify. split; [done|]. split; [done|].
    exists c. rewrite Hd. split; [done|]. split.
    + apply Permutation_length in Hperm. rewrite length_take in Hperm. unfold zlen in *. lia.
    + by apply (sorted_members N (take (Z.to_nat k) buf')).
  - change (u64 0) with 0 in He. unfold bind at 1. by rewrite He.
Qed.

(** A committee is a set of [k] members.  Whatever the hash, the selection
    from a population of [N] answers a short buffer with BUFFER_TOO_SMALL and
    [k], and otherwise leaves exactly [k] distinct indices below [N] in
    ascending order and nothing else changed; it can only fail to end within
    [draws] words per draw if that many consecutive keystream words fall into
    the rejected band below 2^64 mod bound. *)
Theorem committee_select_distinct `{B : Blake3} {Laws : Blake3Laws B} draws prev beacon N k cap buf old :
  zlen prev = 32 -> zlen beacon = 32 -> 0 < k <= N -> N < 2 ^ 64 -> 0 <= cap <= zlen buf ->
  match ants_chain_committee_select draws prev beacon N k cap (buf, old) with
  | Ok (buf', n) _ => k <= cap /\ n = k /\
      exists members, buf' = members ++ drop (Z.to_nat k) buf /\ zlen members = k /\
        StronglySorted Z.lt members /\ Forall (fun m => 0 <= m < N) members
  | Err (buf', n) e => cap < k /\ e = ANTS_ERROR_BUFFER_TOO_SMALL /\ n = k /\ buf' = buf
  | NoFuel => rejected_run prev beacon draws (N - k) N
  | UB => False
  end.
Proof. apply committee_select_spec. Qed.

(** The toy hash repeats its input, so every word is the same. *)
Lemma committee_select_distinct_witness :
  exists members, zlen members = 3 /\ StronglySorted Z.lt members /\ Forall (fun m => 0 <= m < 5) members.
Proof.
  pose proof (@committee_select_distinct toy_blake3 toy_blake3_laws 1 (replicate 32 200) (replicate 32 1) 5 3 4
    (replicate 4 0) 0 ltac:(done) ltac:(done) ltac:(lia) ltac:(lia) ltac:(done)) as H.
  destruct (ants_chain_committee_select 1 (replicate 32 200) (replicate 32 1) 5 3 4 (replicate 4 0, 0))
    as [[buf n] []|[buf n] e| |] eqn:E; vm_compute in E; try discriminate E.
  destruct H as (_ & _ & members & _ & H). by exists members.
Defined.
