(* ===== verification/ChainCommit.v ===== *)
(** * The confirmed-proofs commitment is the reference Merkle tree

    chain.c builds the root online with a bounded stack of peaks, collects
    membership paths by rebuilding the sibling subtrees, and checks a path by
    folding it.  All three are shown equal to the level-by-level definitions
    of Merkle.v.

    Then: the paths written and verified, and what the commitment guarantees
    its verifiers. *)

From S2P Require Import Prelude Cbor CborKv Crypto Merkle Crdt CrdtMerkle Chain ChainPattern.
Import Crdt Chain.

#[local] Arguments zlen {A} l : simpl never.

Section merkle.
Context `{B : Blake3} {Laws : Blake3Laws B}.

Lemma leaf_hash_eq id u : zlen id = 32 -> leaf_hash id u = Ok u (leaf id).
Proof. exact (cp_leaf_hash_eq id u). Qed.

Lemma node_hash_eq l r u : zlen l = 32 -> zlen r = 32 -> node_hash l r u = Ok u (node l r).
Proof. exact (cp_node_hash_eq l r u). Qed.

Lemma root_sized l : hashes l -> l <> [] -> zlen (merkle_root l) = 32.
Proof.
  induction l as [l IH] using (well_founded_induction (well_founded_ltof _ (@length bytes))).
  intros Hl Hn. destruct (decide (1 < length l)%nat) as [Hl1|Hl1].
  - rewrite <- merkle_root_step. apply IH; [by apply length_level_up_lt|by apply hashes_level_up|].
    intros E. pose proof (length_level_up l) as H. rewrite E, length_nil in H. divlia.
  - destruct l as [|x [|]]; cbn [length] in *; [done| |lia]. by apply Forall_cons in Hl as [Hx _].
Qed.

(** ** The stack of peaks *)

(** [stack] holds the roots of perfect subtrees, heights rising strictly from
    [b] downwards, over the leaves [l]. *)
Inductive peaks_ok : Z -> peaks -> list bytes -> Prop :=
| peaks_nil b : peaks_ok b [] []
| peaks_cons b h hash below l seg :
    b <= h -> peaks_ok (h + 1) below l -> zlen seg = 2 ^ h -> hash = merkle_root seg -> hashes seg ->
    peaks_ok b ((h, hash) :: below) (l ++ seg).

Lemma peaks_mono b b' stack l : peaks_ok b stack l -> b' <= b -> peaks_ok b' stack l.
Proof. intros [|? ? ? ? ? ? ?] Hb; constructor; (done || lia). Qed.

Lemma pow_length (seg : list bytes) h : 0 <= h -> zlen seg = 2 ^ h -> (length seg = 2 ^ Z.to_nat h)%nat.
Proof.
  intros Hh Hs. unfold zlen in Hs. apply Nat2Z.inj. rewrite Hs, Nat2Z.inj_pow. cbn [Z.of_nat].
  by rewrite Z2Nat.id.
Qed.

Lemma root_join seg0 seg h :
  0 <= h -> zlen seg0 = 2 ^ h -> 0 < zlen seg <= 2 ^ h ->
  node (merkle_root seg0) (merkle_root seg) = merkle_root (seg0 ++ seg).
Proof.
  intros Hh H0 Hs. symmetry. apply (merkle_root_app (Z.to_nat h)); [by apply pow_length|].
  pose proof (pow_length seg0 h Hh H0). unfold zlen in *. lia.
Qed.

Lemma pow_pos h : 0 <= h -> 0 < 2 ^ h.
Proof. intros. apply Z.pow_pos_nonneg; lia. Qed.

Lemma pow_succ h : 0 <= h -> 2 ^ (h + 1) = 2 * 2 ^ h.
Proof. intros. rewrite Z.pow_add_r by lia. lia. Qed.

Lemma seg_ne (seg : list bytes) h : 0 <= h -> zlen seg = 2 ^ h -> seg <> [].
Proof. intros Hh Hs ->. pose proof (pow_pos h Hh). rewrite zlen_nil in Hs. lia. Qed.

Lemma merge_peaks_ok below : forall h seg l u,
  0 <= h -> peaks_ok h below l -> zlen seg = 2 ^ h -> hashes seg ->
  exists stack, merge_peaks h (merkle_root seg) below u = Ok u stack /\ peaks_ok h stack (l ++ seg).
Proof.
  induction below as [|[h0 hash0] below IH]; intros h seg l u Hh Hp Hs Hx; inversion Hp; subst; cbn [merge_peaks].
  - eexists. split; [done|]. apply (peaks_cons h h _ [] []); try done. constructor.
  - match goal with H : zlen ?s = 2 ^ h0 |- _ => rename s into seg0, H into H0 end.
    match goal with H : hashes seg0 |- _ => rename H into Hx0 end.
    match goal with H : peaks_ok (h0 + 1) below ?l |- _ => rename l into l0, H into Hp0 end.
    destruct (Z.eqb_spec h h0) as [<-|Hne].
    + pose proof (pow_pos h Hh).
      erewrite bind_Ok by (apply node_hash_eq; apply root_sized; (done || by eapply seg_ne)).
      rewrite (root_join seg0 seg h) by lia. rewrite <- app_assoc.
      destruct (IH (h + 1) (seg0 ++ seg) l0 u) as (stack & Hm & Hok); [lia|done| |by apply Forall_app|].
      { rewrite zlen_app, pow_succ by done. lia. }
      exists stack. split; [exact Hm|]. eapply peaks_mono; [done|lia].
    + eexists. split; [done|]. apply (peaks_cons h h); try done.
      apply (peaks_cons _ h0); (done || lia).
Qed.

(** The stack stays small. *)
Lemma peaks_size b stack l : 0 <= b -> peaks_ok b stack l -> 2 ^ b * (2 ^ zlen stack - 1) <= zlen l.
Proof.
  intros Hb Hp. induction Hp as [b|b h hash below l seg Hbh Hp IH Hs _ _].
  - unfold zlen. cbn [length]. change (2 ^ Z.of_nat 0) with 1. lia.
  - specialize (IH ltac:(lia)). pose proof (zlen_nonneg below). rewrite zlen_cons, zlen_app, Hs.
    replace (1 + zlen below) with (zlen below + 1) by lia. rewrite (pow_succ h) in IH by lia.
    rewrite (pow_succ (zlen below)) by lia. pose proof (pow_pos (zlen below) ltac:(lia)).
    assert (2 ^ b <= 2 ^ h) by (apply Z.pow_le_mono_r; lia). pose proof (pow_pos b Hb). nia.
Qed.

(** Bagging the peaks from the top. *)
Lemma bag_ok below : forall b seg l u,
  0 <= b -> peaks_ok b below l -> 0 < zlen seg <= 2 ^ b -> hashes seg ->
  bag (merkle_root seg) below u = Ok u (merkle_root (l ++ seg)).
Proof.
  induction below as [|[h hash] below IH]; intros b seg l u Hb Hp Hs Hx; inversion Hp; subst; [done|].
  cbn [bag]. match goal with H : zlen ?s = 2 ^ h |- _ => rename s into seg0, H into H0 end.
  assert (2 ^ b <= 2 ^ h) by (apply Z.pow_le_mono_r; lia).
  pose proof (pow_pos h ltac:(lia)).
  assert (forall s : list bytes, 0 < zlen s -> s <> []) as Hne by (intros [] ?; [|done]; short_list).
  assert (seg0 <> []) by (apply Hne; lia). assert (seg <> []) by (apply Hne; lia).
  erewrite bind_Ok by (apply node_hash_eq; by apply root_sized).
  rewrite (root_join seg0 seg h), <- app_assoc by lia. apply (IH (h + 1)); try done; [lia| |by apply Forall_app].
  rewrite zlen_app, pow_succ by lia. lia.
Qed.

(** ** A tree over leaves of any kind *)

Section leaves.
Context {A : Type} (leaf_of : A -> action unit bytes) (lf : A -> bytes) (P : A -> Prop).
Context (leaf_of_eq : forall a u, P a -> leaf_of a u = Ok u (lf a)) (lf_size : forall a, zlen (lf a) = 32).

Lemma push_leaf_ok id stack l u :
  P id -> peaks_ok 0 stack l -> zlen l < 2 ^ ANTS_CHAIN_MERKLE_MAX_DEPTH ->
  exists stack', push_leaf leaf_of id stack u = Ok u stack' /\ peaks_ok 0 stack' (l ++ [lf id]).
Proof.
  intros Hid Hp Hl. unfold push_leaf, ANTS_CHAIN_MERKLE_MAX_DEPTH in *.
  pose proof (peaks_size 0 stack l ltac:(lia) Hp) as Hsz. change (2 ^ 0) with 1 in Hsz.
  destruct (Z.ltb_spec (zlen stack) (32 + 2)) as [|Hge].
  - rewrite (bind_Ok _ _ _ _ _ (leaf_of_eq id u Hid)).
    apply (merge_peaks_ok stack 0 [lf id] l u); [done|done|done|]. constructor; [apply lf_size|constructor].
  - assert (2 ^ 33 <= 2 ^ zlen stack) by (apply Z.pow_le_mono_r; lia). lia.
Qed.

Lemma push_range_ok ids fuel : forall i hi stack l u,
  0 <= i <= hi -> hi <= zlen ids -> hi - i <= Z.of_nat fuel -> Forall P ids ->
  peaks_ok 0 stack l -> zlen l + (hi - i) <= 2 ^ ANTS_CHAIN_MERKLE_MAX_DEPTH ->
  exists stack', push_range leaf_of fuel ids i hi stack u = Ok u stack' /\
    peaks_ok 0 stack' (l ++ map lf (take (Z.to_nat (hi - i)) (drop (Z.to_nat i) ids))).
Proof.
  induction fuel as [|f IH]; intros i hi stack l u Hi Hhi Hf Hx Hp Hl; cbn [push_range].
  all: destruct (Z.leb_spec hi i) as [Hle|Hlt];
    [exists stack; replace (hi - i) with 0 by lia; cbn [Z.to_nat take map]; by rewrite app_nil_r|].
  { lia. }
  destruct (lookup_lt_is_Some_2 ids (Z.to_nat i)) as [id Hid]; [unfold zlen in *; lia|].
  assert (Hg : get_at ids i = Some id) by (unfold get_at; by bdecide).
  rewrite Hg. unfold bind at 1, deref. pose proof (Forall_lookup_1 _ _ _ _ Hx Hid) as H32.
  destruct (push_leaf_ok id stack l u H32 Hp) as (stack1 & Hs1 & Hp1); [lia|].
  rewrite (bind_Ok _ _ _ _ _ Hs1).
  destruct (IH (i + 1) hi stack1 (l ++ [lf id]) u) as (stack2 & Hs2 & Hp2); try done; try lia.
  { rewrite zlen_app, zlen_cons, zlen_nil. lia. }
  exists stack2. split; [done|]. rewrite <- app_assoc in Hp2. cbn [app] in Hp2.
  rewrite (drop_S _ _ _ Hid). replace (Z.to_nat (hi - i)) with (S (Z.to_nat (hi - (i + 1)))) by lia.
  cbn [take map]. by replace (S (Z.to_nat i)) with (Z.to_nat (i + 1)) by lia.
Qed.

(** ** The root of a range of ids *)

Lemma subtree_root_range_ok ids lo hi u :
  0 <= lo < hi -> hi <= zlen ids -> hi - lo <= 2 ^ ANTS_CHAIN_MERKLE_MAX_DEPTH -> Forall P ids ->
  subtree_root_range leaf_of ids lo hi u =
    Ok u (merkle_root (map lf (take (Z.to_nat (hi - lo)) (drop (Z.to_nat lo) ids)))).
Proof.
  intros Hlo Hhi Hn Hx. unfold subtree_root_range.
  destruct (push_range_ok ids (Z.to_nat (hi - lo)) lo hi [] [] u) as (stack & Hs & Hp); try done; try lia.
  { constructor. }
  rewrite (bind_Ok _ _ _ _ _ Hs). cbn [app] in Hp.
  set (l := map lf (take (Z.to_nat (hi - lo)) (drop (Z.to_nat lo) ids))) in *.
  assert (Hl : zlen l = hi - lo).
  { unfold l, zlen in *. rewrite length_map, length_take, length_drop. lia. }
  inversion Hp as [|b h hash below l0 seg Hbh Hp0 H0 -> Hx0]; subst.
  { match goal with H : [] = l |- _ => rewrite <- H in Hl end. rewrite zlen_nil in Hl. lia. }
  apply (bag_ok below (h + 1)); [lia|done| |done]. pose proof (pow_pos h Hbh). rewrite H0, pow_succ by lia. lia.
Qed.
End leaves.
End merkle.

(** * Membership paths of the confirmed-proofs commitment (chain.c)

    [ants_chain_confirmed_prove] writes the siblings of the reference tree of
    Merkle.v, end to end; [ants_chain_confirmed_verify] decides whether a path
    proves a leaf under a root. *)

Section prove.
Context `{B : Blake3} {Laws : Blake3Laws B}.

Lemma leaf_size id : zlen (leaf id) = 32.
Proof. apply digest_size. Qed.

(** ** The root *)

Lemma in_range_spec n : n_leaves_in_range n = true <-> n <= 2 ^ ANTS_CHAIN_MERKLE_MAX_DEPTH.
Proof. unfold n_leaves_in_range. rewrite Z.leb_le. done. Qed.

Lemma confirmed_root_eq ids u :
  0 < zlen ids <= 2 ^ ANTS_CHAIN_MERKLE_MAX_DEPTH -> hashes ids -> ids_strictly_ascending ids = true ->
  ants_chain_confirmed_root (Some ids) (zlen ids) u = Ok u (merkle_root (map leaf ids)).
Proof.
  intros Hn Hx Ha. unfold ants_chain_confirmed_root. cbn [is_null andb]. bdecide.
  rewrite (proj2 (in_range_spec _)) by lia. cbn [negb default].
  rewrite first_n_all. unfold deref, bind at 1. rewrite Ha. cbn [negb].
  rewrite (subtree_root_range_ok leaf_hash leaf _ leaf_hash_eq leaf_size) by (done || lia). rewrite Z.sub_0_r. unfold zlen.
  cbn [Z.to_nat]. by rewrite Nat2Z.id, drop_0, take_ge by lia.
Qed.

(** ** A subtree is a block of leaves *)

Lemma level_block k i l x :
  level k l !! i = Some x -> x = merkle_root (block k i l) /\ (i * 2 ^ k < length l)%nat.
Proof.
  rewrite level_lookup. case_decide as Hb; [done|]. intros Hx.
  split; [by apply (inj Some)|]. pose proof (length_block k i l).
  assert (length (block k i l) <> 0%nat) by (by intros ?%nil_length_inv). lia.
Qed.

(** ** Paths over leaves of any kind *)

Section leaves.
Context {A : Type} (leaf_of : A -> action unit bytes) (lf : A -> bytes) (P : A -> Prop).
Context (leaf_of_eq : forall a u, P a -> leaf_of a u = Ok u (lf a)) (lf_size : forall a, zlen (lf a) = 32).

Lemma range_block k i (ids : list A) :
  map lf (take (Z.to_nat (Z.min (zlen ids) ((Z.of_nat i + 1) * 2 ^ Z.of_nat k) - Z.of_nat i * 2 ^ Z.of_nat k))
                 (drop (Z.to_nat (Z.of_nat i * 2 ^ Z.of_nat k)) ids)) =
  block k i (map lf ids).
Proof.
  unfold block. change 2 with (Z.of_nat 2). rewrite <- Nat2Z.inj_pow, <- Nat2Z.inj_mul, Nat2Z.id.
  rewrite fmap_take, fmap_drop. set (p := (2 ^ k)%nat). rewrite Z.mul_add_distr_r, Z.mul_1_l.
  destruct (decide (length ids <= i * p + p)%nat) as [Hc|Hc].
  - replace (Z.to_nat _) with (length ids - i * p)%nat by zlia.
    rewrite !take_ge; [done|rewrite length_drop, length_fmap; lia..].
  - f_equal. zlia.
Qed.

(** The range of ids below position [sib] of level [k]. *)
Lemma sibling_root k sib ids x u :
  Forall P ids -> zlen ids <= 2 ^ ANTS_CHAIN_MERKLE_MAX_DEPTH -> (1 < length (level k (map lf ids)))%nat ->
  level k (map lf ids) !! sib = Some x ->
  let lo64 := u64 (Z.shiftl (Z.of_nat sib) (Z.of_nat k)) in
  let hi64 := u64 (Z.shiftl (u64 (Z.of_nat sib + 1)) (Z.of_nat k)) in
  subtree_root_range leaf_of ids lo64 (if zlen ids <? hi64 then zlen ids else hi64) u = Ok u x /\ zlen x = 32.
Proof.
  intros Hx Hn Hl Hs. change ANTS_CHAIN_MERKLE_MAX_DEPTH with 32 in *.
  destruct (lookup_lt_is_Some_2 _ 1%nat Hl) as [y [_ Hy]%level_block].
  pose proof (level_block _ _ _ _ Hs) as [-> Hlo]. rewrite length_map in *.
  pose proof (Nat2Z.inj_pow 2 k) as Hp. change (Z.of_nat 2) with 2 in Hp.
  assert (Hk : 0 < 2 ^ Z.of_nat k) by (apply Z.pow_pos_nonneg; lia).
  assert (Hb : Z.of_nat sib * 2 ^ Z.of_nat k < zlen ids) by (rewrite <- Hp; zlia).
  assert (2 ^ Z.of_nat k < zlen ids) by (rewrite <- Hp; zlia).
  rewrite !Z.shiftl_mul_pow2 by lia. rewrite (u64_small (Z.of_nat sib + 1)) by (red; nia).
  rewrite !u64_small by (red; nia). cbn zeta.
  replace (if zlen ids <? _ then _ else _) with (Z.min (zlen ids) ((Z.of_nat sib + 1) * 2 ^ Z.of_nat k))
    by (destruct (Z.ltb_spec (zlen ids) ((Z.of_nat sib + 1) * 2 ^ Z.of_nat k)); lia).
  rewrite (subtree_root_range_ok leaf_of lf P leaf_of_eq lf_size) by (done || change ANTS_CHAIN_MERKLE_MAX_DEPTH with 32; nia).
  rewrite range_block. split; [done|]. apply root_sized.
  - unfold block. apply Forall_take, Forall_drop, Forall_fmap, Forall_true. intros. apply lf_size.
  - intros E%(f_equal length). rewrite length_block, length_map in E. cbn [length] in E.
    pose proof (Nat.pow_nonzero 2 k ltac:(lia)). lia.
Qed.

(** ** The path *)

Lemma splice_hash pre h rest :
  hashes pre -> zlen h = 32 -> 32 <= zlen rest ->
  splice (concat pre ++ rest) (zlen pre * ANTS_CHAIN_HASH_SIZE) h = Some (concat (pre ++ [h]) ++ drop 32 rest).
Proof.
  intros Hp Hh Hr. change ANTS_CHAIN_HASH_SIZE with 32. rewrite <- (zlen_concat_hashes pre) by done.
  unfold splice. rewrite zlen_app, Hh. pose proof (zlen_nonneg (concat pre)). repeat bdecide. cbn [andb].
  unfold zlen. rewrite Nat2Z.id, take_app_length. replace (length h) with 32%nat by zlia.
  rewrite <- drop_drop, drop_app_length, concat_app. cbn [concat]. by rewrite app_nil_r, <- !app_assoc.
Qed.

(** Where the sibling of position [i] is. *)
Definition sibling_index (t : turn) (i : nat) : option nat :=
  match t with LeftSibling => Some (i - 1)%nat | RightSibling => Some (i + 1)%nat | Promoted => None end.

Lemma siblings_cons t ts i l :
  siblings (t :: ts) i l =
    match sibling_index t i with Some j => option_list (l !! j) | None => [] end ++
    siblings ts (i / 2)%nat (level_up l).
Proof. by destruct t. Qed.

Lemma sibling_index_ok (l : list bytes) (i : nat) (x : bytes) :
  l !! i = Some x ->
  match sibling_index (turn_at (Z.of_nat i) (zlen l)) i with
  | Some j => exists y, l !! j = Some y
  | None => True
  end.
Proof.
  intros Hi. pose proof (step_up_ok l i x Hi) as H.
  destruct (turn_at _ _); cbn [sibling_index step_up] in *; [| |done]; destruct H as (y & Hy & _); by exists y.
Qed.

Lemma sibling_choice i n :
  0 <= Z.of_nat i < n -> n <= UINT64_MAX ->
  (if Z.land (Z.of_nat i) 1 =? 1 then Some (Z.of_nat i - 1)
   else if u64 (Z.of_nat i + 1) <? n then Some (u64 (Z.of_nat i + 1)) else None) =
  match sibling_index (turn_at (Z.of_nat i) n) i with Some j => Some (Z.of_nat j) | None => None end.
Proof.
  intros Hi Hn. rewrite turn_at_tests by done. unfold turn_at, sibling_index.
  destruct (Z.odd (Z.of_nat i)) eqn:Ho.
  - f_equal. destruct i; [done|lia].
  - destruct (Z.ltb_spec (Z.of_nat i + 1) n); [|done]. f_equal. rewrite u64_small by zlia. lia.
Qed.

Lemma level_hashes k l : hashes l -> hashes (level k l).
Proof. intros Hl. induction k; [done|]. by apply hashes_level_up. Qed.

Lemma leaves_hashes ids : hashes (map lf ids).
Proof. apply Forall_fmap, Forall_true. intros. apply lf_size. Qed.

(** One step writes one sibling. *)
Lemma write_sibling k j ids y pre (rest : bytes) (st2 : Z) :
  Forall P ids -> zlen ids <= 2 ^ ANTS_CHAIN_MERKLE_MAX_DEPTH -> (1 < length (level k (map lf ids)))%nat ->
  level k (map lf ids) !! j = Some y -> hashes pre -> zlen pre < 64 -> 32 <= zlen rest ->
  (let* h := pure_call (subtree_root_range leaf_of ids (u64 (Z.shiftl (Z.of_nat j) (Z.of_nat k)))
     (if zlen ids <? u64 (Z.shiftl (u64 (Z.of_nat j + 1)) (Z.of_nat k)) then zlen ids
      else u64 (Z.shiftl (u64 (Z.of_nat j + 1)) (Z.of_nat k)))) in
   let* st := get in
   let* path := deref (splice st.1 (zlen pre * ANTS_CHAIN_HASH_SIZE) h) in
   modify (fun st : prove_out => (path, st.2)) ;* ret (size_add (zlen pre) 1)) (concat pre ++ rest, st2) =
  Ok (concat (pre ++ [y]) ++ drop 32 rest, st2) (zlen (pre ++ [y])).
Proof.
  intros Hx Hn Hl Hj Hp Hpl Hr. destruct (sibling_root k j ids y tt Hx Hn Hl Hj) as [Hs H32].
  unfold pure_call, bind at 1. rewrite Hs. unfold get, bind at 1. cbn [fst snd].
  rewrite splice_hash by done. unfold deref, modify, bind, ret. cbn [fst snd].
  rewrite zlen_app, size_add_small by zlia. done.
Qed.

Lemma prove_loop_ok ids : Forall P ids -> zlen ids <= 2 ^ ANTS_CHAIN_MERKLE_MAX_DEPTH ->
  forall fuel k i pre rest st2 x,
  let L := level k (map lf ids) in
  let sibs := siblings (turns (Z.of_nat i) (zlen L)) i L in
  L !! i = Some x -> zlen L <= 2 ^ Z.of_nat fuel -> zlen L <= zlen ids ->
  hashes pre -> zlen (pre ++ sibs) <= 64 -> zlen sibs * 32 <= zlen rest ->
  exists rest', zlen rest' = zlen rest - zlen sibs * 32 /\
  prove_loop leaf_of fuel ids (Z.of_nat i) (zlen L) (Z.of_nat k) (zlen pre) (concat pre ++ rest, st2) =
    Ok (concat (pre ++ sibs) ++ rest', st2) (zlen (pre ++ sibs)).
Proof.
  intros Hx Hn. change (2 ^ ANTS_CHAIN_MERKLE_MAX_DEPTH) with (2 ^ 32) in Hn.
  induction fuel as [|f IH]; intros k i pre rest st2 x L sibs Hi Hf HL Hp Hps Hr; subst L sibs; cbn [prove_loop].
  all: set (L := level k (map lf ids)) in *; pose proof (lookup_lt_Some _ _ _ Hi) as Hlt.
  all: destruct (Z.ltb_spec 1 (zlen L)) as [H1|]; [|exists rest; rewrite turns_done by done; cbn [siblings];
    rewrite app_nil_r; split; [short_list || (unfold zlen; cbn [length]; lia)|done]].
  { change (2 ^ Z.of_nat 0) with 1 in Hf. lia. }
  rewrite (turns_nat_step i L), siblings_cons in * by zlia.
  rewrite sibling_choice by zlia. pose proof (sibling_index_ok L i x Hi) as Hsib.
  rewrite up_count_eq, <- zlen_level_up by zlia. change 2 with (Z.of_nat 2) at 1. rewrite <- Nat2Z.inj_div.
  replace (Z.of_nat k + 1) with (Z.of_nat (Datatypes.S k)) by lia.
  assert (exists x', level (Datatypes.S k) (map lf ids) !! (i / 2)%nat = Some x') as [x' Hx'].
  { apply lookup_lt_is_Some_2. rewrite level_S, length_level_up. fold L. divlia. }
  assert (Hf' : zlen (level_up L) <= 2 ^ Z.of_nat f) by (rewrite zlen_level_up; by apply half_bound).
  assert (HL' : zlen (level_up L) <= zlen ids) by (pose proof (length_level_up_lt L); zlia).
  change (level_up L) with (level (Datatypes.S k) (map lf ids)) in *.
  destruct (sibling_index (turn_at (Z.of_nat i) (zlen L)) i) as [j|].
  - destruct Hsib as [y Hj]. rewrite Hj in *. cbn [option_list app] in *.
    match type of Hps with context [option_list (Some y) ++ ?l] => set (sibs := l) in * end.
    change (option_list (Some y) ++ sibs) with (y :: sibs) in *. pose proof (zlen_nonneg sibs).
    pose proof Hps as Hps0. rewrite zlen_app, zlen_cons in Hps0. rewrite zlen_cons in *.
    erewrite bind_Ok by (apply (write_sibling k j ids y); fold L; (done || zlia)).
    assert (Hh : hashes (pre ++ [y])).
    { apply Forall_app. split; [done|]. constructor; [|constructor].
      by apply (hashes_lookup L j); [apply level_hashes, leaves_hashes|]. }
    replace (pre ++ y :: sibs) with ((pre ++ [y]) ++ sibs) in * by by rewrite <- app_assoc.
    destruct (IH (Datatypes.S k) (i / 2)%nat (pre ++ [y]) (drop 32 rest) st2 x') as (rest' & Hl & He); try done.
    { unfold zlen in *. rewrite length_drop. fold sibs. lia. }
    exists rest'. split; [|exact He]. fold sibs in Hl. unfold zlen in *. rewrite length_drop in Hl. lia.
  - rewrite bind_ret_l. cbn [app] in *. by apply (IH (Datatypes.S k) (i / 2)%nat pre rest st2 x').
Qed.

Lemma zlen_leaves ids : zlen (map lf ids) = zlen ids.
Proof. unfold zlen. by rewrite length_map. Qed.

Lemma leaf_lookup ids i id : ids !! i = Some id -> map lf ids !! i = Some (lf id).
Proof. intros Hi. change (map lf ids) with (lf <$> ids). by rewrite list_lookup_fmap, Hi. Qed.

(** The path of leaf [i]. *)
Definition leaf_path (leaves : list bytes) (i : nat) : bytes :=
  concat (siblings (turns (Z.of_nat i) (zlen leaves)) i leaves).

Lemma sibs_ok leaves i x :
  hashes leaves -> leaves !! i = Some x ->
  let sibs := siblings (turns (Z.of_nat i) (zlen leaves)) i leaves in
  hashes sibs /\ zlen sibs = proof_size (Z.of_nat i) (zlen leaves).
Proof. intros Hl Hi. split; [by apply siblings_hashes|by apply (siblings_size _ _ _ Hi)]. Qed.

Lemma zlen_leaf_path leaves i x :
  hashes leaves -> leaves !! i = Some x ->
  zlen (leaf_path leaves i) = proof_size (Z.of_nat i) (zlen leaves) * 32.
Proof. intros Hl Hi. destruct (sibs_ok leaves i x Hl Hi) as [Hh Hs]. unfold leaf_path. by rewrite zlen_concat_hashes, Hs. Qed.

Lemma proof_size_depth i n : n <= 2 ^ ANTS_CHAIN_MERKLE_MAX_DEPTH -> 0 <= proof_size i n <= ANTS_CHAIN_MERKLE_MAX_DEPTH.
Proof.
  intros Hn. pose proof (proof_size_bound i n). change ANTS_CHAIN_MERKLE_MAX_DEPTH with 32 in *.
  enough (Z.log2_up n <= Z.log2_up (2 ^ 32)) by (change (Z.log2_up (2 ^ 32)) with 32 in *; lia).
  by apply Z.log2_up_le_mono.
Qed.

(** The collecting loop writes it at the start of the buffer. *)
Lemma prove_path ids i a buf st2 :
  Forall P ids -> zlen ids <= 2 ^ ANTS_CHAIN_MERKLE_MAX_DEPTH -> ids !! i = Some a ->
  zlen (leaf_path (map lf ids) i) <= zlen buf ->
  exists rest, zlen (leaf_path (map lf ids) i ++ rest) = zlen buf /\
  prove_loop leaf_of 65 ids (Z.of_nat i) (zlen ids) 0 0 (buf, st2) =
    Ok (leaf_path (map lf ids) i ++ rest, st2) (proof_size (Z.of_nat i) (zlen ids)).
Proof.
  intros Hx Hn Hi%leaf_lookup Hc. pose proof (leaves_hashes ids) as Hh.
  pose proof (zlen_leaf_path _ _ _ Hh Hi) as Hz. destruct (sibs_ok _ _ _ Hh Hi) as [_ Hs]. cbv zeta in Hs.
  unfold leaf_path in *. rewrite (zlen_leaves ids) in *.
  set (sibs := siblings (turns (Z.of_nat i) (zlen ids)) i (map lf ids)) in *.
  pose proof (proof_size_depth (Z.of_nat i) (zlen ids) Hn) as Hp. rewrite <- Hs in Hp.
  change ANTS_CHAIN_MERKLE_MAX_DEPTH with 32 in Hp.
  pose proof (prove_loop_ok ids Hx Hn 65 0 i [] buf st2 _ Hi) as Hloop. cbv zeta in Hloop.
  change (level 0 (map lf ids)) with (map lf ids) in Hloop. rewrite (zlen_leaves ids) in Hloop.
  fold sibs in Hloop. cbn [concat app] in Hloop. destruct Hloop as (rest & Hr & He).
  - change ANTS_CHAIN_MERKLE_MAX_DEPTH with 32 in Hn. zlia.
  - done.
  - constructor.
  - lia.
  - lia.
  - exists rest. rewrite zlen_app. split; [lia|]. rewrite <- Hs. exact He.
Qed.
End leaves.

(** The path of content id [i]. *)
Definition honest_path (ids : list bytes) (i : nat) : bytes := leaf_path (map leaf ids) i.

Lemma ids_hashes ids : hashes (map leaf ids).
Proof. apply leaves_hashes, leaf_size. Qed.

Lemma zlen_honest_path ids i id :
  ids !! i = Some id -> zlen (honest_path ids i) = proof_size (Z.of_nat i) (zlen ids) * 32.
Proof.
  intros Hi%(leaf_lookup leaf). rewrite <- (zlen_leaves leaf ids). by apply (zlen_leaf_path _ _ _ (ids_hashes ids) Hi).
Qed.

Lemma honest_proves ids i id :
  ids !! i = Some id -> proves id (Z.of_nat i) (zlen ids) (honest_path ids i) (merkle_root (map leaf ids)).
Proof.
  intros Hi%(leaf_lookup leaf). destruct (sibs_ok _ _ _ (ids_hashes ids) Hi) as [Hh _]. rewrite <- (zlen_leaves leaf ids).
  eexists. split; [done|]. split; [done|]. by apply climb_honest.
Qed.

(** ** The prover *)

Lemma confirmed_prove_guards ids i cap u :
  (i < length ids)%nat -> zlen ids <= 2 ^ ANTS_CHAIN_MERKLE_MAX_DEPTH -> ids_strictly_ascending ids = true ->
  ants_chain_confirmed_prove (Some ids) (zlen ids) (Z.of_nat i) cap u =
    (let need := proof_size (Z.of_nat i) (zlen ids) * 32 in
     if cap <? need then Err (u.1, need) ANTS_ERROR_BUFFER_TOO_SMALL
     else (let* written := prove_loop leaf_hash 65 ids (Z.of_nat i) (zlen ids) 0 0 in
           modify (fun st => (st.1, u64 (written * ANTS_CHAIN_HASH_SIZE)))) u).
Proof.
  intros Hi Hn Ha. unfold ants_chain_confirmed_prove. repeat bdecide. cbn [orb].
  rewrite (proj2 (in_range_spec _)) by done. cbn [negb]. rewrite first_n_all. unfold deref, bind at 1.
  rewrite Ha. cbn [negb]. pose proof (proof_size_depth (Z.of_nat i) (zlen ids) Hn) as Hp.
  change ANTS_CHAIN_MERKLE_MAX_DEPTH with 32 in *.
  unfold merkle_path_len, pure_call, bind at 1. rewrite cp_path_len_eq by zlia.
  change ANTS_CHAIN_HASH_SIZE with 32. rewrite (u64_small (_ * 32)) by (red; lia). cbv zeta. by bcase.
Qed.

Lemma confirmed_prove_eq ids i id cap buf old :
  ids !! i = Some id -> zlen ids <= 2 ^ ANTS_CHAIN_MERKLE_MAX_DEPTH -> hashes ids ->
  ids_strictly_ascending ids = true -> zlen (honest_path ids i) <= cap <= zlen buf ->
  exists rest, zlen (honest_path ids i ++ rest) = zlen buf /\
  ants_chain_confirmed_prove (Some ids) (zlen ids) (Z.of_nat i) cap (buf, old) =
    Ok (honest_path ids i ++ rest, zlen (honest_path ids i)) tt.
Proof.
  intros Hi Hn Hx Ha Hc. rewrite confirmed_prove_guards by (done || by eapply lookup_lt_Some).
  pose proof (zlen_honest_path ids i id Hi) as Hz. rewrite <- Hz. cbv zeta. bdecide. unfold honest_path in *.
  destruct (prove_path leaf_hash leaf _ leaf_hash_eq leaf_size ids i id buf old) as (rest & Hr & He); try done; [lia|].
  exists rest. split; [done|]. erewrite bind_Ok by exact He. unfold modify. cbn [fst snd].
  pose proof (proof_size_depth (Z.of_nat i) (zlen ids) Hn). change ANTS_CHAIN_MERKLE_MAX_DEPTH with 32 in *.
  change ANTS_CHAIN_HASH_SIZE with 32. rewrite u64_small by (red; lia). by rewrite Hz.
Qed.

(** ** The verifier *)

Lemma confirmed_verify_eq id i n path root u :
  zlen id = 32 -> 0 <= i < n -> n <= 2 ^ ANTS_CHAIN_MERKLE_MAX_DEPTH -> zlen root = 32 ->
  zlen path = proof_size i n * 32 ->
  exists ok, ants_chain_confirmed_verify id i n path root u = Ok u ok /\ (ok = true <-> proves id i n path root).
Proof.
  intros Hid Hi Hn Hroot Hp. unfold ants_chain_confirmed_verify. repeat bdecide. cbn [orb].
  rewrite (proj2 (in_range_spec _)) by done. cbn [negb]. pose proof (proof_size_depth i n Hn) as Hd.
  change ANTS_CHAIN_MERKLE_MAX_DEPTH with 32 in *. change ANTS_CHAIN_HASH_SIZE with 32.
  unfold merkle_path_len. rewrite (bind_Ok _ _ _ _ _ (cp_path_len_eq i n u Hi ltac:(zlia))).
  rewrite u64_small by (red; lia). rewrite Hp, Z.eqb_refl. cbn [negb].
  destruct (path_hashes (Z.to_nat (proof_size i n)) path) as (sibs & -> & Hs & Hl); [lia|].
  rewrite Z2Nat.id in Hl by lia. rewrite (bind_Ok _ _ _ _ _ (leaf_hash_eq id u Hid)).
  destruct (fold_loop_climb 65 i n [] sibs (leaf id) u) as (r & Hc & Hr & Hf);
    [done|zlia|zlia|done|done|apply digest_size|].
  change 0 with (zlen (@nil bytes)) at 1. rewrite (bind_Ok _ _ _ _ _ Hf). cbn [app].
  eexists. split; [done|]. rewrite u64_small, Hl, Z.eqb_refl by (red; lia). cbn [andb].
  rewrite memcmp_eq by lia. rewrite bool_decide_eq_true. split.
  - intros ->. by exists sibs.
  - intros (sibs' & He & Hs' & Hc'). apply concat_hashes_inj in He as <-; [|done..]. congruence.
Qed.
End prove.

(** * What the confirmed-proofs commitment guarantees (chain.c)

    A committee member's path convinces every verifier, and no path convinces
    a verifier of a proof that is not committed. *)

Section commit.
Context `{B : Blake3} {Laws : Blake3Laws B}.

(** A path cut into hashes. *)
Fixpoint chunks (k : nat) (b : bytes) : list bytes :=
  match k with
  | O => []
  | Datatypes.S k' => take 32 b :: chunks k' (drop 32 b)
  end.

Lemma chunks_concat sibs : hashes sibs -> chunks (length sibs) (concat sibs) = sibs.
Proof.
  induction 1 as [|h l Hh _ IH]; [done|]. change ANTS_BLAKE3_HASH_SIZE with 32 in Hh.
  assert (length h = 32%nat) by zlia. cbn [length chunks concat].
  by rewrite take_app_length', drop_app_length', IH.
Qed.

(** Everything hashed when the root over [ids] is computed, and when [path] is
    checked for [id]. *)
Definition commit_inputs (ids : list bytes) : list bytes :=
  map leaf_input ids ++ tree_inputs (length ids) (map leaf ids).

Definition check_inputs (id : bytes) (i n : Z) (path : bytes) : list bytes :=
  leaf_input id :: climb_inputs (turns i n) (chunks (Z.to_nat (proof_size i n)) path) (leaf id).

Lemma proves_member ids i id path :
  (i < length ids)%nat -> zlen id = 32 -> hashes ids ->
  collision_free (commit_inputs ids) (check_inputs id (Z.of_nat i) (zlen ids) path) ->
  proves id (Z.of_nat i) (zlen ids) path (merkle_root (map leaf ids)) -> ids !! i = Some id.
Proof.
  intros Hi Hid Hx Hcf (sibs & -> & Hs & Hc).
  assert (Hk : chunks (Z.to_nat (proof_size (Z.of_nat i) (zlen ids))) (concat sibs) = sibs).
  { unfold proof_size. rewrite <- (climb_size _ _ _ _ Hc). unfold zlen at 1. rewrite Nat2Z.id.
    by apply chunks_concat. }
  unfold check_inputs in Hcf. rewrite Hk in Hcf. rewrite <- (zlen_leaves leaf ids) in Hcf, Hc.
  assert (Hl : map leaf ids !! i = Some (leaf id)).
  { apply (climb_binding (length ids) (map leaf ids) i sibs (leaf id)); try done.
    1, 2: rewrite length_map; lia.
    - apply ids_hashes.
    - apply digest_size.
    - intros a b Ha Hb. apply Hcf; [apply elem_of_app; by right|by right]. }
  destruct (lookup_lt_is_Some_2 ids i Hi) as [id' Hid']. rewrite (leaf_lookup leaf _ _ _ Hid') in Hl.
  rewrite Hid'. f_equal. apply (inj Some) in Hl. apply Hcf in Hl; [by injection Hl| |by left].
  apply elem_of_app. left. apply list_elem_of_fmap. exists id'. split; [done|]. by apply list_elem_of_lookup_2 with i.
Qed.

(** The verifier says yes only for a path of the right length that proves the
    leaf. *)
Lemma confirmed_verify_range id i n path root u :
  (n =? 0) || (n <=? i) = true ->
  ants_chain_confirmed_verify id i n path root u = Err u ANTS_ERROR_INVALID_ARG.
Proof. intros H. unfold ants_chain_confirmed_verify. by rewrite H. Qed.

Lemma confirmed_verify_length id i n path root u :
  0 <= i < n -> n <= 2 ^ ANTS_CHAIN_MERKLE_MAX_DEPTH -> zlen path <> proof_size i n * 32 ->
  ants_chain_confirmed_verify id i n path root u = Err u ANTS_ERROR_INVALID_ARG.
Proof.
  intros Hi Hn Hp. pose proof (proof_size_depth i n Hn) as Hd. unfold ants_chain_confirmed_verify.
  repeat bdecide. cbn [orb]. rewrite (proj2 (in_range_spec _)) by done. cbn [negb].
  change ANTS_CHAIN_MERKLE_MAX_DEPTH with 32 in *. unfold merkle_path_len.
  rewrite (bind_Ok _ _ _ _ _ (cp_path_len_eq i n u Hi ltac:(zlia))).
  change ANTS_CHAIN_HASH_SIZE with 32. rewrite u64_small by (red; lia).
  by rewrite (proj2 (Z.eqb_neq _ _) Hp).
Qed.

Lemma confirmed_verify_yes id i n path root u :
  zlen id = 32 -> zlen root = 32 -> n <= 2 ^ ANTS_CHAIN_MERKLE_MAX_DEPTH -> 0 <= i ->
  ants_chain_confirmed_verify id i n path root u = Ok u true -> i < n /\ proves id i n path root.
Proof.
  intros Hid Hroot Hn Hi Hv.
  assert (Hin : i < n).
  { destruct (decide (i < n)); [done|]. rewrite confirmed_verify_range in Hv; [discriminate|].
    apply orb_true_iff. right. lia. }
  split; [done|].
  destruct (decide (zlen path = proof_size i n * 32)) as [Hp|Hp].
  - destruct (confirmed_verify_eq id i n path root u) as (ok & He & Hok); try done.
    rewrite He in Hv. apply Hok. congruence.
  - rewrite confirmed_verify_length in Hv by done. discriminate.
Qed.

Lemma committed_root_size ids : ids <> [] -> zlen (merkle_root (map leaf ids)) = 32.
Proof. intros Hn. apply root_sized; [apply ids_hashes|]. by destruct ids. Qed.

Lemma confirmed_root_unordered ids u :
  0 < zlen ids <= 2 ^ ANTS_CHAIN_MERKLE_MAX_DEPTH -> ids_strictly_ascending ids = false ->
  ants_chain_confirmed_root (Some ids) (zlen ids) u = Err u ANTS_ERROR_NON_CANONICAL.
Proof.
  intros Hn Ha. unfold ants_chain_confirmed_root. cbn [is_null andb]. bdecide.
  rewrite (proj2 (in_range_spec _)) by lia. cbn [negb default].
  rewrite first_n_all. unfold deref, bind at 1. by rewrite Ha.
Qed.
End commit.

(** ** The guarantees *)

(** C8: Over strictly ascending content ids, at most 2^32 of them, the root
    built online is the level-by-level Merkle root; a path buffer that is too
    short is answered with BUFFER_TOO_SMALL and the exact number of bytes
    needed, and otherwise the path written for any of the leaves has exactly
    that length and is accepted by the verifier under this root. *)
Theorem commitment_serves_members `{B : Blake3} {Laws : Blake3Laws B} ids i id cap buf old u :
  zlen ids <= 2 ^ ANTS_CHAIN_MERKLE_MAX_DEPTH -> hashes ids -> ids_strictly_ascending ids = true ->
  ids !! i = Some id -> cap <= zlen buf ->
  let n := zlen ids in
  let need := proof_size (Z.of_nat i) n * ANTS_CHAIN_HASH_SIZE in
  ants_chain_confirmed_root (Some ids) n u = Ok u (merkle_root (map leaf ids)) /\
  if cap <? need then
    ants_chain_confirmed_prove (Some ids) n (Z.of_nat i) cap (buf, old) =
      Err (buf, need) ANTS_ERROR_BUFFER_TOO_SMALL
  else exists path rest, zlen path = need /\ zlen (path ++ rest) = zlen buf /\
    ants_chain_confirmed_prove (Some ids) n (Z.of_nat i) cap (buf, old) = Ok (path ++ rest, need) tt /\
    ants_chain_confirmed_verify id (Z.of_nat i) n path (merkle_root (map leaf ids)) u = Ok u true.
Proof.
  intros Hn Hx Ha Hi Hc n need. pose proof (lookup_lt_Some _ _ _ Hi) as Hlt.
  pose proof (zlen_honest_path ids i id Hi) as Hz. change ANTS_CHAIN_HASH_SIZE with 32 in need.
  split; [apply confirmed_root_eq; try done; zlia|]. destruct (Z.ltb_spec cap need) as [Hs|Hs].
  - unfold n. rewrite confirmed_prove_guards by done. cbv zeta. fold n need. by bdecide.
  - destruct (confirmed_prove_eq ids i id cap buf old) as (rest & Hr & Hp); try done; [fold n need in Hz; lia|].
    exists (honest_path ids i), rest. split; [done|]. split; [done|]. split; [by rewrite Hz in Hp|].
    assert (Hroot : zlen (merkle_root (map leaf ids)) = 32) by (apply committed_root_size; by destruct ids).
    destruct (confirmed_verify_eq id (Z.of_nat i) n (honest_path ids i) (merkle_root (map leaf ids)) u)
      as (ok & -> & Hok); try done; [by apply (hashes_lookup ids i)|unfold n; zlia|].
    f_equal. apply Hok, honest_proves, Hi.
Qed.

(** A path binds: if the verifier accepts a content id at a position under
    the root of [ids], the id is the one at that position, unless two of the
    byte strings hashed on the two sides collide. *)
Theorem commitment_binds `{B : Blake3} {Laws : Blake3Laws B} ids id index path root u :
  0 < zlen ids <= 2 ^ ANTS_CHAIN_MERKLE_MAX_DEPTH -> hashes ids -> zlen id = 32 -> 0 <= index ->
  ants_chain_confirmed_root (Some ids) (zlen ids) u = Ok u root ->
  ants_chain_confirmed_verify id index (zlen ids) path root u = Ok u true ->
  collision_free (commit_inputs ids) (check_inputs id index (zlen ids) path) ->
  ids !! Z.to_nat index = Some id.
Proof.
  intros Hn Hx Hid Hi Hr Hv Hcf.
  assert (Ha : ids_strictly_ascending ids = true).
  { destruct (ids_strictly_ascending ids) eqn:E; [done|]. by rewrite confirmed_root_unordered in Hr. }
  rewrite confirmed_root_eq in Hr by done. injection Hr as <-.
  assert (Hroot : zlen (merkle_root (map leaf ids)) = 32).
  { apply committed_root_size. intros ->. short_list. }
  destruct (confirmed_verify_yes _ _ _ _ _ _ Hid Hroot (proj2 Hn) Hi Hv) as [Hlt Hp].
  rewrite <- (Z2Nat.id index) in Hp, Hcf by done. apply (proves_member ids _ id path); try done. zlia.
Qed.

(** The ids are strictly ascending, so a position is determined by its id. *)
Definition demo_ids : list bytes := [replicate 32 1; replicate 32 2; replicate 32 3].

Lemma commitment_serves_members_witness :
  exists path rest, zlen path = 32 /\
    @ants_chain_confirmed_verify toy_blake3 (replicate 32 3) 2 3 path
      (@merkle_root toy_blake3 (map (@leaf toy_blake3) demo_ids)) tt = Ok tt true /\
    @ants_chain_confirmed_prove toy_blake3 (Some demo_ids) 3 2 64 (replicate 70 9, 0) = Ok (path ++ rest, 32) tt.
Proof.
  assert (Hx : hashes demo_ids) by by_decision.
  pose proof (@commitment_serves_members toy_blake3 toy_blake3_laws demo_ids 2 (replicate 32 3) 64
    (replicate 70 9) 0 tt ltac:(by vm_compute) Hx eq_refl eq_refl ltac:(by vm_compute)) as H.
  cbv zeta in H. destruct H as [_ H]. destruct H as (path & rest & Hz & _ & Hp & Hv).
  exists path, rest. split; [exact Hz|]. split; [exact Hv|exact Hp].
Defined.

Lemma collision_free_forall `{B : Blake3} xs ys :
  Forall (fun a => Forall (fun b => digest a = digest b -> a = b) ys) xs -> collision_free xs ys.
Proof. intros H a b Ha Hb. rewrite Forall_forall in H. specialize (H a Ha). by rewrite Forall_forall in H; apply H. Qed.

Lemma commitment_binds_witness : demo_ids !! 2%nat = Some (replicate 32 3).
Proof.
  apply (@commitment_binds toy_blake3 toy_blake3_laws demo_ids (replicate 32 3) 2
    (take 32 (@node toy_blake3 (@leaf toy_blake3 (replicate 32 1)) (@leaf toy_blake3 (replicate 32 2))))
    (@merkle_root toy_blake3 (map (@leaf toy_blake3) demo_ids)) tt); try by_decision; try by vm_compute.
  apply collision_free_forall. by_decision.
Defined.
