(* ===== verification/ChainCodec.v ===== *)
(** * Epoch summaries and blocks on the wire (src/reputation/chain/src/chain.c)

    A summary and a block have one encoding each; decoding it gives the
    object back, and a decoder accepts nothing else. *)

From S2P Require Import Prelude Cbor CborSpec CborEnc CborCanon CborContract CborKv CborRecord CborCodec CborParse Crypto BondCodec PaymentCodec Crdt CrdtParse Chain.
Import Chain.

#[local] Arguments zlen {A} l : simpl never.

(** ** The documents *)

Definition fields_of (f : ants_chain_pattern_finding_t) : bytes * Z * Z * Z * Z :=
  (f_subject f, f_rule_id f, f_window_s f, f_count f, f_severity f).

Definition finding_doc (f : ants_chain_pattern_finding_t) : cbor := finding_cbor (fields_of f).

Definition summary_doc (s : ants_chain_epoch_summary_t) : cbor :=
  summary_cbor (s_epoch s) (s_cutoff_time s) (s_confirmed_proofs s) (map fields_of (s_findings s)).

(** The field types of the C structs, with the severities the code admits. *)
Definition finding_ok (f : ants_chain_pattern_finding_t) : Prop :=
  hash_ok (f_subject f) /\ is_u64 (f_rule_id f) /\ is_u64 (f_window_s f) /\ is_u64 (f_count f) /\
  severity_valid (f_severity f) = true.

Definition summary_typed (s : ants_chain_epoch_summary_t) : Prop :=
  is_u64 (s_epoch s) /\ is_u64 (s_cutoff_time s) /\ hash_ok (s_confirmed_proofs s) /\
  Forall finding_ok (s_findings s).

(** What the encoder accepts. *)
Definition summary_ok (s : ants_chain_epoch_summary_t) : Prop :=
  summary_typed s /\ zlen (s_findings s) <= ANTS_CHAIN_MAX_PATTERN_FINDINGS.

Lemma summary_doc_items s :
  summary_doc s = CMap [(CUint 1, CUint (s_epoch s)); (CUint 2, CUint (s_cutoff_time s));
    (CUint 3, CBytes (s_confirmed_proofs s)); (CUint 4, CArray (map finding_doc (s_findings s)))].
Proof. unfold summary_doc, summary_cbor. by rewrite map_map. Qed.

Lemma severity_range v : severity_valid v = true <-> 1 <= v < 5.
Proof.
  unfold severity_valid, ANTS_CHAIN_SEVERITY_SOFT, ANTS_CHAIN_SEVERITY__RESERVED_MIN.
  rewrite andb_true_iff, Z.leb_le, Z.ltb_lt. done.
Qed.

Lemma finding_wf f : finding_ok f -> wf (finding_doc f).
Proof.
  intros (Hs & Hr & Hw & Hc & Hv%severity_range). apply wf_map.
  split; [done|]. split; [by repeat constructor|].
  constructor; [split; [done|by apply hash_wf]|].
  repeat (constructor; [split; [done|first [done | cbn; zlia]]|]). constructor.
Qed.

Lemma finding_size f : finding_ok f -> zlen (encode (finding_doc f)) <= 68.
Proof.
  intros ((_ & Hs) & _ & _ & _ & Hv%severity_range).
  unfold finding_doc, finding_cbor, fields_of. cbn [encode map concat]. rewrite !zlen_app, Hs.
  pose proof (head_size 0 (f_rule_id f)). pose proof (head_size 0 (f_window_s f)).
  pose proof (head_size 0 (f_count f)).
  rewrite (head_size_tiny 0 1), (head_size_tiny 0 2), (head_size_tiny 0 3), (head_size_tiny 0 4),
    (head_size_tiny 0 5), (head_size_tiny 0 (f_severity f)) by lia.
  change (zlen (encode_head 2 32)) with 2. change (zlen (@nil Z)) with 0.
  match goal with |- context [encode_head 5 ?n] => change (zlen (encode_head 5 n)) with 1 end. lia.
Qed.

Lemma findings_size fs : Forall finding_ok fs ->
  zlen (concat (map encode (map finding_doc fs))) <= zlen fs * 68.
Proof.
  induction 1 as [|f fs Hf _ IH]; [done|]. cbn [map concat]. rewrite zlen_app, zlen_cons.
  pose proof (finding_size f Hf). lia.
Qed.

Lemma findings_height fs : (height (CArray (map finding_doc fs)) <= 2)%nat.
Proof.
  enough (H : (foldr (fun x h => Nat.max (height x) h) 0 (map finding_doc fs) <= 1)%nat)
    by (destruct fs; [cbn; lia|cbn [height map] in *; lia]).
  induction fs as [|f fs IH]; [cbn; lia|]. cbn [map foldr].
  change (height (finding_doc f)) with 1%nat. lia.
Qed.

Lemma summary_wf s :
  summary_typed s -> zlen (s_findings s) <= UINT64_MAX -> wf (summary_doc s).
Proof.
  intros (He & Hc & Hr & Hf) Hn. rewrite summary_doc_items. apply wf_map.
  split; [done|]. split; [by repeat constructor|].
  repeat (constructor; [split; [done|first [done | by apply hash_wf]]|]).
  constructor; [|constructor]. split; [done|]. apply wf_array.
  split; [by rewrite zlen_map|]. apply Forall_map. eapply Forall_impl; [exact Hf|]. apply finding_wf.
Qed.

Lemma summary_height s : (height (summary_doc s) <= 3)%nat.
Proof.
  rewrite summary_doc_items. pose proof (findings_height (s_findings s)).
  cbn [height foldr] in *. lia.
Qed.

Lemma summary_size s :
  summary_typed s -> zlen (encode (summary_doc s)) <= 66 + zlen (s_findings s) * 68.
Proof.
  intros (_ & _ & (_ & Hr) & Hf). pose proof (findings_size _ Hf).
  rewrite summary_doc_items. cbn [encode map concat]. rewrite !zlen_app, Hr, zlen_map.
  pose proof (head_size 0 (s_epoch s)). pose proof (head_size 0 (s_cutoff_time s)).
  pose proof (head_size 4 (zlen (s_findings s))).
  rewrite (head_size_tiny 0 1), (head_size_tiny 0 2), (head_size_tiny 0 3), (head_size_tiny 0 4) by lia.
  change (zlen (encode_head 2 32)) with 2. change (zlen (@nil Z)) with 0.
  match goal with |- context [encode_head 5 ?n] => change (zlen (encode_head 5 n)) with 1 end. lia.
Qed.

(** The bound function bounds every summary the encoder accepts. *)
Lemma summary_bounded s :
  summary_ok s -> zlen (encode (summary_doc s)) <= ants_chain_epoch_summary_bound s <=
    ANTS_CHAIN_EPOCH_SUMMARY_ENCODED_MAX.
Proof.
  intros [Ht Hn]. pose proof (summary_size s Ht). pose proof (zlen_nonneg (s_findings s)).
  unfold ants_chain_epoch_summary_bound, ANTS_CHAIN_EPOCH_SUMMARY_ENCODED_MAX.
  change ANTS_CHAIN_MAX_PATTERN_FINDINGS with 256 in *.
  rewrite u64_small by (unfold is_u64; zlia). rewrite size_add_small by zlia. lia.
Qed.

Lemma summary_readable s : summary_ok s -> readable (summary_doc s).
Proof.
  intros Hs. pose proof (summary_bounded s Hs) as Hb. pose proof (summary_height s).
  destruct Hs as [Ht Hn]. change ANTS_CHAIN_EPOCH_SUMMARY_ENCODED_MAX with 24656 in Hb.
  change ANTS_CHAIN_MAX_PATTERN_FINDINGS with 256 in *.
  split; [apply summary_wf; [done|zlia]|]. split; [lia|zlia].
Qed.

(** ** Writing *)

Lemma enc_finding_emit f e : zlen (f_subject f) = 32 -> enc_finding f e = emit (finding_doc f) e.
Proof.
  intros Hs. unfold enc_finding, enc_kv_bytes, enc_kv_uint, finding_doc, finding_cbor, fields_of.
  cbn [emit map seq_actions foldr]. act_eq.
Qed.

Lemma enc_findings_emit fs : Forall finding_ok fs -> forall e,
  enc_findings fs e = seq_actions (map emit (map finding_doc fs)) e.
Proof.
  induction 1 as [|f fs ((_ & Hs) & _) _ IH]; intros e; [done|].
  cbn [map enc_findings]. rewrite seq_cons. unfold bind. rewrite enc_finding_emit by done.
  destruct (emit (finding_doc f) e); [apply IH|done..].
Qed.

Lemma summary_emit s e : summary_typed s -> summary_body s e = emit (summary_doc s) e.
Proof.
  intros (_ & _ & (_ & Hr) & Hf). rewrite summary_doc_items.
  unfold summary_body, enc_kv_bytes, enc_kv_uint. cbn [emit map seq_actions foldr]. rewrite zlen_map.
  act_eq. by apply enc_findings_emit.
Qed.

(** The guards of the encoder decide [summary_ok]. *)
Lemma severities_valid fs : Forall finding_ok fs ->
  forallb (fun f => severity_valid (f_severity f)) fs = true.
Proof. induction 1 as [|f fs (_ & _ & _ & _ & Hv) _ IH]; [done|]. cbn. by rewrite Hv. Qed.

Lemma summary_encodes s cap buf :
  summary_ok s -> ants_chain_epoch_summary_bound s <= cap <= zlen buf -> zlen buf <= INT64_MAX ->
  exists buf', ants_chain_epoch_summary_encode s cap buf = Ok buf' (zlen (encode (summary_doc s))) /\
    take (length (encode (summary_doc s))) buf' = encode (summary_doc s).
Proof.
  intros Hs Hc Hb. pose proof (summary_bounded s Hs). unfold ants_chain_epoch_summary_encode.
  pose proof Hs as [Ht Hn]. bdecide. rewrite severities_valid by (by destruct Ht as (_ & _ & _ & ?)).
  cbn [negb]. apply emits_document; [by apply summary_readable|by intros; apply summary_emit|lia|done].
Qed.

(** ** Reading a finding *)

Lemma keeps_dec_finding : keeps (fun _ => True) dec_finding.
Proof.
  unfold dec_finding. repeat first
    [ apply keeps_bind; [solve [auto with ants | by apply keeps_modify]|intros ?]
    | apply keeps_if; intros ?; [solve [auto with ants]|]
    | by apply keeps_modify ].
Qed.

Lemma dec_finding_ok d old f cs :
  finding_ok f -> at_ d (finding_doc f :: cs) ->
  exists d', dec_finding (d, old) = Ok (d', f) tt /\ at_ d' cs.
Proof.
  intros ((_ & Hs) & _ & _ & _ & Hv) Hat. unfold dec_finding, finding_doc, finding_cbor, fields_of in *.
  destruct (at_map _ _ _ Hat) as (d1 & Hd1 & Hat1). cbn [flat map concat app fst snd] in Hat1.
  rewrite (bind_Ok _ _ _ _ _ (on_fst_ok _ _ _ _ _ (map_err_ok _ _ _ _ _ Hd1))). clear Hd1 Hat.
  match goal with |- context [negb (?a =? CHAIN_FINDING_PAIRS)] =>
    replace (negb (a =? CHAIN_FINDING_PAIRS)) with false by done end.
  read_bytes_field Hat1 Hs. unfold bind at 1, modify_snd; cbn [fst snd].
  do 3 (read_field at_uint_field Hat1; unfold bind at 1, modify_snd; cbn [fst snd]).
  read_field at_uint_field Hat1. rewrite Hv. cbn [negb]. unfold modify_snd. cbn [fst snd].
  eexists. split; [|done]. cbn. apply severity_range in Hv.
  replace (u32 (f_severity f)) with (f_severity f) by (symmetry; apply Z.mod_small; lia).
  by destruct f.
Qed.

Lemma dec_finding_inv d old st cs :
  at_ d cs -> dec_finding (d, old) = Ok st tt ->
  exists cs', cs = finding_doc st.2 :: cs' /\ finding_ok st.2 /\ at_ st.1 cs'.
Proof.
  intros Hat H. assert (Hwf : Forall wf cs) by (by destruct Hat as (? & ? & _ & _ & ?)).
  unfold dec_finding in H. peel_call H n. apply map_err_inv in H1.
  destruct (at_map_inv _ _ _ _ Hat H1) as (l & cs' & -> & -> & Hat1). clear H1 Hat.
  destruct (Z.eqb_spec (zlen l) CHAIN_FINDING_PAIRS) as [Hlen|]; [|done]. cbn [negb] in H.
  apply (zlen_5 l) in Hlen as ([k1 v1] & [k2 v2] & [k3 v3] & [k4 v4] & [k5 v5] & ->).
  cbn [flat map concat app fst snd] in Hat1.
  peel_bytes_field H Hat1 x1. peel_store H.
  peel_field at_uint_field_inv H Hat1 x2. peel_store H.
  peel_field at_uint_field_inv H Hat1 x3. peel_store H.
  peel_field at_uint_field_inv H Hat1 x4. peel_store H.
  peel_field at_uint_field_inv H Hat1 x5.
  destruct (severity_valid x5) eqn:Hv; [|done]. cbn [negb] in H.
  unfold modify_snd in H. cbn [fst snd] in H. injection H as <-. cbn [fst snd].
  pose proof (proj1 (severity_range x5) Hv).
  replace (u32 x5) with x5 by (symmetry; apply Z.mod_small; lia).
  exists cs'. split; [done|]. split; [|done].
  apply Forall_cons in Hwf as [(_ & _ & Hw)%wf_map _].
  do 5 (apply Forall_cons in Hw as [[_ ?] Hw]). cbn [snd wf] in *.
  unfold finding_ok, hash_ok. cbn. tauto.
Qed.

(** ** Reading a summary *)

Definition put_at (i : nat) (f : ants_chain_pattern_finding_t) (o : summary_out) : summary_out :=
  set_buf (<[i := f]> (o_findings o)) o.

Definition roomy (cap : Z) (o : summary_out) : Prop := cap <= zlen (o_findings o).

Lemma roomy_put cap i f o : roomy cap o -> roomy cap (put_at i f o).
Proof. unfold roomy, put_at, zlen. cbn. by rewrite length_insert. Qed.

Lemma puts_findings l : forall i o, (i + length l <= length (o_findings o))%nat ->
  puts put_at i l o =
    set_buf (take i (o_findings o) ++ l ++ drop (i + length l) (o_findings o)) o.
Proof.
  induction l as [|f l IH]; intros i o Hi; cbn [puts length app] in *.
  { rewrite Nat.add_0_r, take_drop. by destruct o. }
  rewrite IH by (cbn; rewrite length_insert; lia). unfold put_at, set_buf. cbn [o_summary o_findings o_n].
  f_equal. rewrite drop_insert_lt by lia.
  rewrite (take_S_r _ _ f) by (apply list_lookup_insert_eq; lia).
  rewrite take_insert_ge by lia. rewrite <- app_assoc. cbn [app]. by rewrite <- Nat.add_succ_comm.
Qed.

Lemma store_step {T A} (g : T -> T) (k : unit -> action (ants_cbor_dec_t * T) A) d t :
  bind (modify_snd g) k (d, t) = k tt (d, g t).
Proof. reflexivity. Qed.

Section read.
Context (cap : Z) (cap_pos : 0 <= cap).

Lemma roomy_lookup k o : roomy cap o -> (k < Z.to_nat cap)%nat -> exists f, o_findings o !! k = Some f.
Proof. intros Ho Hk. apply lookup_lt_is_Some_2. unfold roomy, zlen in Ho. lia. Qed.

Lemma at_finding_ok d o k f cs :
  roomy cap o -> (k < Z.to_nat cap)%nat -> finding_ok f -> at_ d (finding_doc f :: cs) ->
  exists d', at_finding (Z.of_nat k) dec_finding (d, o) = Ok (d', put_at k f o) tt /\ at_ d' cs.
Proof using Type.
  intros Ho Hk Hf Hat. destruct (roomy_lookup k o Ho Hk) as [old Hx].
  destruct (dec_finding_ok d old f cs Hf Hat) as (d' & Hd & Hat'). exists d'. split; [|done].
  unfold at_finding, get_at. cbn [fst snd]. bdecide. by rewrite Nat2Z.id, Hx, Hd.
Qed.

Lemma at_finding_inv d o k st cs :
  roomy cap o -> (k < Z.to_nat cap)%nat -> at_ d cs ->
  at_finding (Z.of_nat k) dec_finding (d, o) = Ok st tt ->
  exists f cs', cs = finding_doc f :: cs' /\ finding_ok f /\ at_ st.1 cs' /\ st.2 = put_at k f o.
Proof using Type.
  intros Ho Hk Hat H. destruct (roomy_lookup k o Ho Hk) as [old Hx].
  unfold at_finding, get_at in H. cbn [fst snd] in H. rewrite (proj2 (Z.leb_le 0 _)) in H by lia.
  rewrite Nat2Z.id, Hx in H. destruct (dec_finding (d, old)) as [[d' f] []|[? ?] ?| |] eqn:E; try done.
  injection H as <-. destruct (dec_finding_inv d old (d', f) cs Hat E) as (cs' & -> & Hf & Hat').
  by exists f, cs'.
Qed.

Lemma keeps_at_finding i m :
  0 <= i < cap -> keeps (fun _ => True) m -> keeps (roomy cap) (at_finding i m).
Proof using Type.
  intros Hi Hm buf [d o] Hd Ho. cbn [fst snd] in *.
  destruct (roomy_lookup (Z.to_nat i) o Ho ltac:(lia)) as [f Hx].
  unfold at_finding, get_at. cbn [fst snd]. bdecide. rewrite Hx.
  specialize (Hm buf (d, f) Hd I).
  destruct (m (d, f)) as [[d' f'] ?|[d' f'] ?| |]; cbn [fst snd] in *; try done.
  - destruct Hm as [? _]. split; [done|]. by apply (roomy_put _ _ f').
  - by apply (roomy_put _ _ f').
Qed.

Lemma keeps_summary_body : keeps (roomy cap) (summary_decode_body cap).
Proof using cap_pos.
  unfold summary_decode_body. repeat first
    [ apply keeps_bind; [solve [auto with ants | by apply keeps_modify]|intros ?]
    | apply keeps_if; intros ?; [solve [auto with ants]|] ].
  apply keeps_for; [lia|breflect; lia|]. intros j Hj. breflect.
  apply keeps_at_finding; [lia|apply keeps_dec_finding].
Qed.

(** What a summary leaves in the caller's objects before the pointer to the
    findings is set. *)
Definition header_out (s : ants_chain_epoch_summary_t) (old : summary_out) : summary_out :=
  mk_out (mk_summary (s_epoch s) (s_cutoff_time s) (s_confirmed_proofs s) (s_findings (o_summary old)))
    (o_findings old) (zlen (s_findings s)).

Definition read_out (s : ants_chain_epoch_summary_t) (old : summary_out) : summary_out :=
  set_buf (s_findings s ++ drop (length (s_findings s)) (o_findings old)) (header_out s old).

Lemma summary_read_ok d old s :
  roomy cap old -> summary_typed s -> at_ d [summary_doc s] ->
  if zlen (s_findings s) <=? cap
  then exists d', summary_decode_body cap (d, old) = Ok (d', read_out s old) tt /\ at_ d' []
  else exists d', summary_decode_body cap (d, old) = Err (d', header_out s old) ANTS_ERROR_BUFFER_TOO_SMALL.
Proof using Type.
  intros Ho (_ & _ & (_ & Hr) & Hf) Hat. rewrite summary_doc_items in Hat. unfold summary_decode_body.
  destruct (at_map _ _ _ Hat) as (d1 & Hd1 & Hat1). cbn [flat map concat app fst snd] in Hat1.
  rewrite (bind_Ok _ _ _ _ _ (on_fst_ok _ _ _ _ _ (map_err_ok _ _ _ _ _ Hd1))). clear Hd1 Hat.
  match goal with |- context [negb (?a =? CHAIN_SUMMARY_PAIRS)] =>
    replace (negb (a =? CHAIN_SUMMARY_PAIRS)) with false by done end.
  do 2 (read_field at_uint_field Hat1; rewrite store_step).
  read_bytes_field Hat1 Hr. rewrite store_step.
  destruct (at_expect_key _ _ _ Hat1) as (e2 & Hd2 & Hat2).
  rewrite (bind_Ok _ _ _ _ _ (on_fst_ok _ _ _ _ _ Hd2)). clear Hd2 Hat1.
  destruct (at_array _ _ _ Hat2) as (e3 & Hd3 & Hat3). rewrite zlen_map in Hd3.
  rewrite (bind_Ok _ _ _ _ _ (on_fst_ok _ _ _ _ _ (map_err_ok _ _ _ _ _ Hd3))). clear Hd3 Hat2.
  rewrite store_step. cbn [set_epoch set_cutoff set_confirmed set_n o_summary o_findings o_n
    s_epoch s_cutoff_time s_confirmed_proofs s_findings].
  change (mk_out _ _ _) with (header_out s old).
  rewrite Z.ltb_antisym. destruct (Z.leb_spec (zlen (s_findings s)) cap) as [Hn|Hn]; cbn [negb].
  2: { by exists e3. }
  assert (Hh : roomy cap (header_out s old)) by done.
  destruct (loop_ok finding_doc finding_ok (roomy cap) put_at (fun i => at_finding i dec_finding)
    (Z.to_nat cap)) with (l := s_findings s) (f := Z.to_nat (zlen (s_findings s))) (i := 0%nat) (d := e3)
    (t := header_out s old) (cs := @nil cbor) as (e4 & Hd4 & Hat4); try done.
  { intros. by apply roomy_put. }
  { intros. by apply at_finding_ok. }
  { unfold zlen in Hn. lia. }
  { by rewrite zlen_to_nat. }
  exists e4. split; [|done]. change (Z.of_nat 0) with 0 in Hd4. rewrite Z.add_0_l in Hd4.
  etrans; [exact Hd4|].
  rewrite puts_findings by (cbn; unfold roomy, zlen in *; lia). by rewrite take_0.
Qed.

Lemma summary_read_inv d old st items :
  roomy cap old -> at_ d items -> summary_decode_body cap (d, old) = Ok st tt ->
  exists s cs, items = summary_doc s :: cs /\ summary_typed s /\ zlen (s_findings s) <= cap /\
    at_ st.1 cs /\ st.2 = read_out s old.
Proof using cap_pos.
  intros Ho Hat H. assert (Hwf : Forall wf items) by (by destruct Hat as (? & ? & _ & _ & ?)).
  unfold summary_decode_body in H. peel_call H n. apply map_err_inv in H1.
  destruct (at_map_inv _ _ _ _ Hat H1) as (l & cs & -> & -> & Hat1). clear H1 Hat.
  destruct (Z.eqb_spec (zlen l) CHAIN_SUMMARY_PAIRS) as [Hlen|]; [|done]. cbn [negb] in H.
  apply (zlen_4 l) in Hlen as ([k1 v1] & [k2 v2] & [k3 v3] & [k4 v4] & ->).
  cbn [flat map concat app fst snd] in Hat1.
  peel_field at_uint_field_inv H Hat1 x1. peel_store H.
  peel_field at_uint_field_inv H Hat1 x2. peel_store H.
  peel_bytes_field H Hat1 x3. peel_store H.
  peel_call H u. destruct u. destruct (at_expect_key_inv _ _ _ _ Hat1 H1) as (c1 & E1 & Hat2). injection E1 as -> <-.
  clear H1 Hat1. peel_call H n. apply map_err_inv in H1.
  destruct (at_array_inv _ _ _ _ Hat2 H1) as (fs & c2 & E2 & -> & Hat3). injection E2 as -> <-.
  clear H1 Hat2. peel_store H.
  destruct (Z.ltb_spec cap (zlen fs)) as [|Hn]; [done|].
  cbn [set_epoch set_cutoff set_confirmed set_n o_summary o_findings o_n
    s_epoch s_cutoff_time s_confirmed_proofs s_findings] in H.
  match type of H with for_loop _ _ _ _ (_, ?o) = _ => set (h := o) in H end.
  assert (Hh : roomy cap h) by done.
  change 0 with (Z.of_nat 0) in H at 1. pose proof (zlen_nonneg fs).
  destruct (loop_inv finding_doc finding_ok (roomy cap) put_at (fun i => at_finding i dec_finding)
    (Z.to_nat cap) ltac:(intros; by apply roomy_put) at_finding_inv _ 0 (zlen fs) _ h st (fs ++ cs) Hh
    ltac:(lia) Hat3 H) as (docs & c3 & E3 & Hz & Hdocs & Hat4 & Et).
  change (Z.of_nat 0) with 0 in Hz. rewrite Z.sub_0_r in Hz.
  apply app_inj_1 in E3 as [-> ->]; [|unfold zlen in Hz; rewrite length_map; lia].
  apply Forall_cons in Hwf as [(_ & _ & Hw)%wf_map _].
  do 4 (apply Forall_cons in Hw as [[_ ?] Hw]). cbn [snd wf] in *.
  exists (mk_summary x1 x2 x3 docs), c3. rewrite summary_doc_items. cbn [s_epoch s_cutoff_time
    s_confirmed_proofs s_findings]. split; [done|]. split; [by unfold summary_typed, hash_ok; cbn; tauto|].
  split; [lia|]. split; [done|]. rewrite Et.
  rewrite puts_findings by (cbn; unfold roomy, zlen in *; lia). rewrite take_0.
  unfold read_out, header_out, set_buf, h. cbn. by rewrite zlen_map.
Qed.
End read.

(** ** The summary as a document *)

(** What decoding leaves in the caller's objects. *)
Definition filled (s : ants_chain_epoch_summary_t) (old : summary_out) : summary_out :=
  mk_out s (s_findings s ++ drop (length (s_findings s)) (o_findings old)) (zlen (s_findings s)).

(** The codes of the chain decoders. *)
Definition chain_error (e : ants_error_t) : Prop :=
  e = ANTS_ERROR_NON_CANONICAL \/ e = ANTS_ERROR_MALFORMED \/ e = ANTS_ERROR_UNSUPPORTED_TYPE \/
  e = ANTS_ERROR_BUFFER_TOO_SMALL.

Lemma decode_chain_error e : decode_error e -> chain_error e.
Proof. unfold decode_error, chain_error. tauto. Qed.

Lemma chain_codes {S A} (m : action S A) : codes decode_error m -> codes chain_error m.
Proof. apply codes_weaken, decode_chain_error. Qed.

Lemma unsupported_chain_error : chain_error ANTS_ERROR_UNSUPPORTED_TYPE.
Proof. unfold chain_error. auto. Qed.
Lemma too_small_chain_error : chain_error ANTS_ERROR_BUFFER_TOO_SMALL.
Proof. unfold chain_error. auto. Qed.
Lemma malformed_chain_error : chain_error ANTS_ERROR_MALFORMED.
Proof. unfold chain_error. auto. Qed.

#[local] Hint Resolve unsupported_chain_error too_small_chain_error malformed_chain_error : ants.

Ltac chain_codes_tac :=
  repeat first
    [ apply codes_bind; [solve [apply chain_codes; auto with ants | auto with ants]|intros ?]
    | apply codes_if; [solve [auto with ants]|]
    | solve [auto with ants] ].

Lemma codes_dec_finding : codes chain_error dec_finding.
Proof. unfold dec_finding. chain_codes_tac. Qed.

Lemma codes_at_finding i m : codes chain_error m -> codes chain_error (at_finding i m).
Proof.
  intros Hm [d o]. unfold at_finding. destruct (get_at _ _) as [f|]; [|done]. cbn [fst snd].
  specialize (Hm (d, f)). by destruct (m (d, f)) as [[? ?] ?|[? ?] ?| |].
Qed.

Lemma codes_summary_body cap : codes chain_error (summary_decode_body cap).
Proof.
  unfold summary_decode_body. chain_codes_tac.
  apply codes_for. intros j. apply codes_at_finding, codes_dec_finding.
Qed.

Lemma items_count (l : list cbor) : zlen l <= zlen (concat (map encode l)).
Proof.
  induction l as [|c l IH]; [done|]. cbn [map concat]. rewrite zlen_cons, zlen_app.
  pose proof (encode_length_pos c). zlia.
Qed.

Lemma summary_findings_count s : zlen (s_findings s) <= zlen (encode (summary_doc s)).
Proof.
  pose proof (items_count (map finding_doc (s_findings s))). rewrite zlen_map in H.
  rewrite summary_doc_items. cbn [encode]. rewrite zlen_app. cbn [map concat encode]. rewrite !zlen_app.
  pose proof (zlen_nonneg (s_confirmed_proofs s)).
  repeat match goal with |- context [zlen (encode_head ?a ?b)] =>
    let H := fresh in pose proof (zlen_nonneg (encode_head a b)) as H;
    generalize dependent (zlen (encode_head a b)); intros end. zlia.
Qed.

Lemma typed_readable s :
  summary_typed s -> zlen (encode (summary_doc s)) <= INT64_MAX -> readable (summary_doc s).
Proof.
  intros Ht Hb. pose proof (summary_findings_count s). pose proof (summary_height s).
  split; [apply summary_wf; [done|zlia]|]. split; [lia|done].
Qed.

Lemma summary_decode_reads s old cap :
  0 <= cap -> roomy cap old -> summary_typed s -> zlen (encode (summary_doc s)) <= INT64_MAX ->
  ants_chain_epoch_summary_decode (Some (encode (summary_doc s))) (zlen (encode (summary_doc s))) cap old =
    if zlen (s_findings s) <=? cap then Ok (filled s old) tt
    else Err (header_out s old) ANTS_ERROR_BUFFER_TOO_SMALL.
Proof.
  intros Hc Ho Ht Hb. destruct (typed_readable s Ht Hb) as (Hw & Hh & _).
  unfold ants_chain_epoch_summary_decode. cbn [is_null orb].
  rewrite (proj2 (Z.eqb_neq _ 0) (encode_zlen_ne _)).
  destruct (at_init (encode (summary_doc s)) [summary_doc s]) as (d & Hd & Hat).
  { by apply encode_ok. }
  { done. }
  { unfold encodes. cbn [map concat]. by rewrite app_nil_r. }
  { constructor; [done|constructor]. }
  pose proof (summary_read_ok cap d old s Ho Ht Hat) as Hr. unfold with_decoder. unfold bind at 1. rewrite Hd.
  destruct (zlen (s_findings s) <=? cap); destruct Hr as (d' & Hr).
  - destruct Hr as [Hr Hat']. rewrite (bind_Ok _ _ _ _ _ Hr). unfold on_fst, map_err. cbn [fst snd].
    rewrite (at_finalise d' Hat'). unfold bind, get, modify. f_equal.
    unfold filled, read_out, header_out, set_aliased. cbn.
    rewrite zlen_to_nat, take_app_length. by destruct s.
  - unfold bind. by rewrite Hr.
Qed.

Lemma summary_decode_spec buf old cap :
  0 <= cap -> roomy cap old -> bytes_ok buf -> zlen buf <= INT64_MAX ->
  match ants_chain_epoch_summary_decode (Some buf) (zlen buf) cap old with
  | Ok o _ => exists s, summary_typed s /\ zlen (s_findings s) <= cap /\ buf = encode (summary_doc s) /\
      o = filled s old
  | Err _ e => (buf = [] /\ e = ANTS_ERROR_INVALID_ARG) \/ (buf <> [] /\ chain_error e)
  | UB | NoFuel => False
  end.
Proof.
  intros Hc Ho Hok Hb. unfold ants_chain_epoch_summary_decode. cbn [is_null orb].
  destruct (Z.eqb_spec (zlen buf) 0) as [Hz|Hz]; [left; split; [by apply zlen_O|done]|].
  pose proof (with_decoder_safe (roomy cap) (fun e => e) norm_decode_err buf (summary_decode_body cap) old
    Hok Hb Ho (keeps_summary_body cap Hc)) as Hsafe. unfold bind at 1.
  destruct (with_decoder _ _ _ _ _ _) as [o []|o e| |] eqn:E; try done.
  - destruct (with_decoder_inv (roomy cap) _ _ buf (summary_decode_body cap) old o Hok Hb Ho
      (keeps_summary_body cap Hc) E) as (items & d & d' & -> & Hat & Hrun & Hfin).
    destruct (summary_read_inv cap Hc d old (d', o) items Ho Hat Hrun) as (s & cs & -> & Ht & Hn & Hat' & Eo).
    cbn [fst snd] in *. rewrite (at_finalise_inv d' d' cs Hat' Hfin). unfold bind, get, modify. exists s.
    split; [done|]. split; [done|]. split; [unfold encodes; cbn [map concat]; by rewrite app_nil_r|].
    subst o. unfold filled, read_out, header_out, set_aliased. cbn.
    rewrite zlen_to_nat, take_app_length. by destruct s.
  - right. split; [by intros ->|]. eapply with_decoder_codes in E; [exact E|apply codes_summary_body|].
    intros e'. apply decode_chain_error, norm_decode_error.
Qed.

(** ** Blocks *)

Definition block_doc (b : ants_chain_block_t) : cbor :=
  block_cbor (b_height b) (b_prev_block_hash b) (b_degraded_seed b) (encode (summary_doc (b_summary b))).

Definition block_typed (b : ants_chain_block_t) : Prop :=
  is_u64 (b_height b) /\ hash_ok (b_prev_block_hash b) /\ summary_typed (b_summary b).

Definition block_ok (b : ants_chain_block_t) : Prop :=
  is_u64 (b_height b) /\ hash_ok (b_prev_block_hash b) /\ summary_ok (b_summary b).

Lemma block_wf b : block_typed b -> zlen (encode (summary_doc (b_summary b))) <= INT64_MAX -> wf (block_doc b).
Proof.
  intros (Hh & Hp & Hs) Hb. destruct (typed_readable _ Hs Hb) as (Hw & _). apply wf_map.
  split; [done|]. split; [by repeat constructor|].
  repeat (constructor; [split; [done|first [done | by apply hash_wf]]|]).
  constructor; [|constructor]. split; [done|]. split; [by apply encode_ok|zlia].
Qed.

Lemma block_size b :
  zlen (b_prev_block_hash b) = 32 ->
  zlen (encode (block_doc b)) <= 60 + zlen (encode (summary_doc (b_summary b))).
Proof.
  intros Hp. unfold block_doc, block_cbor. generalize (encode (summary_doc (b_summary b))). intros sb.
  cbn [encode map concat]. rewrite !zlen_app, Hp.
  pose proof (head_size 0 (b_height b)). pose proof (head_size 2 (zlen sb)).
  rewrite (head_size_tiny 0 1), (head_size_tiny 0 2), (head_size_tiny 0 3), (head_size_tiny 0 4) by lia.
  change (zlen (encode_head 2 32)) with 2. change (zlen (@nil Z)) with 0.
  match goal with |- context [zlen [?x]] => change (zlen [x]) with 1 end.
  match goal with |- context [encode_head 5 ?n] => change (zlen (encode_head 5 n)) with 1 end. lia.
Qed.

Lemma block_bounded b :
  block_ok b -> zlen (encode (block_doc b)) <= ants_chain_block_bound b <= ANTS_CHAIN_BLOCK_ENCODED_MAX.
Proof.
  intros (_ & (_ & Hp) & Hs). pose proof (block_size b Hp). pose proof (summary_bounded _ Hs).
  pose proof (zlen_nonneg (encode (summary_doc (b_summary b)))).
  unfold ants_chain_block_bound, ANTS_CHAIN_BLOCK_ENCODED_MAX.
  change ANTS_CHAIN_EPOCH_SUMMARY_ENCODED_MAX with 24656 in *. rewrite size_add_small by zlia. lia.
Qed.

Lemma block_typed_ok b : block_ok b -> block_typed b.
Proof. by intros (? & ? & ? & _). Qed.

Lemma block_readable b : block_ok b -> readable (block_doc b).
Proof.
  intros Hb. pose proof (block_bounded b Hb) as Hs. pose proof (proj2 (proj2 Hb)) as Hsum.
  pose proof (summary_bounded _ Hsum) as Hz. change ANTS_CHAIN_EPOCH_SUMMARY_ENCODED_MAX with 24656 in Hz.
  change ANTS_CHAIN_BLOCK_ENCODED_MAX with 24720 in Hs.
  split; [apply block_wf; [by apply block_typed_ok|zlia]|]. split; [cbn; lia|zlia].
Qed.

(** The encoder copies the first [n] bytes of its source. *)
Lemma enc_bytes_prefix src sb e :
  take (length sb) src = sb -> ants_cbor_enc_bytes (Some src) (zlen sb) e = ants_cbor_enc_bytes (Some sb) (zlen sb) e.
Proof.
  intros Hs. assert (Hl : (length sb <= length src)%nat) by (rewrite <- Hs, length_take; lia).
  unfold ants_cbor_enc_bytes, enc_item, bind, enc_copy. cbn [is_null].
  assert (Hslice : slice src 0 (zlen sb) = slice sb 0 (zlen sb)).
  { rewrite slice_all. unfold slice. cbn [drop]. rewrite drop_0, zlen_to_nat, Hs.
    pose proof (zlen_nonneg sb). unfold zlen in *. by repeat bdecide. }
  by rewrite Hslice.
Qed.

Lemma block_emit b sbuf e :
  zlen (b_prev_block_hash b) = 32 ->
  take (length (encode (summary_doc (b_summary b)))) sbuf = encode (summary_doc (b_summary b)) ->
  block_body b sbuf (zlen (encode (summary_doc (b_summary b)))) e = emit (block_doc b) e.
Proof.
  intros Hp Hs. transitivity (block_body b (encode (summary_doc (b_summary b)))
    (zlen (encode (summary_doc (b_summary b)))) e).
  - unfold block_body. do 6 (apply bind_ext; intros [] ?). by apply enc_bytes_prefix.
  - unfold block_body, block_doc, block_cbor, enc_kv_bytes, enc_kv_uint.
    cbn [emit map seq_actions foldr]. act_eq.
Qed.

Lemma block_encodes b cap buf :
  block_ok b -> ants_chain_block_bound b <= cap <= zlen buf -> zlen buf <= INT64_MAX ->
  exists buf', ants_chain_block_encode b cap buf = Ok buf' (zlen (encode (block_doc b))) /\
    take (length (encode (block_doc b))) buf' = encode (block_doc b).
Proof.
  intros Hok Hc Hb. pose proof (block_bounded b Hok). pose proof Hok as (_ & (_ & Hp) & Hs).
  pose proof (summary_bounded _ Hs) as Hz. unfold ants_chain_block_encode.
  destruct (summary_encodes (b_summary b) ANTS_CHAIN_EPOCH_SUMMARY_ENCODED_MAX
    (local_buffer ANTS_CHAIN_EPOCH_SUMMARY_ENCODED_MAX) Hs) as (sbuf & -> & Ht).
  { split; [lia|]. unfold local_buffer, zlen. rewrite length_replicate. by vm_compute. }
  { unfold local_buffer, zlen. rewrite length_replicate. by vm_compute. }
  apply emits_document; [by apply block_readable|intros e; by apply block_emit|lia|done].
Qed.

(** A program that goes on with a string of the document. *)
Lemma keeps_bytes_then {T} (I : T -> Prop) g (k : bytes -> action (ants_cbor_dec_t * T) unit) :
  (forall sp, bytes_ok sp -> zlen sp <= INT64_MAX -> keeps I (k sp)) ->
  keeps I (let* sp := on_fst (map_err g ants_cbor_dec_bytes) in k sp).
Proof.
  intros Hk buf [d t] Hd Ht. pose proof Hd as (pre & rest & fs & Hrep & _). cbn [fst snd] in *.
  pose proof (reader_sound _ _ reader_bytes d pre rest fs Hrep) as Hs.
  pose proof (keeps1_bytes buf d Hd) as Hkeep. unfold bind, on_fst, map_err. cbn [fst snd].
  destruct (ants_cbor_dec_bytes d) as [d' sp|d' e| |]; try done.
  destruct Hs as (rest' & fs' & -> & [Hok _] & _). apply (Hk sp); try done.
  destruct Hrep as ((_ & Hl & Hbound & _) & _). rewrite !zlen_app in Hl. pose proof (bytes_item_size sp).
  pose proof (zlen_nonneg pre). pose proof (zlen_nonneg rest'). zlia.
Qed.

(** ** Reading a block *)

Definition roomy_block (cap : Z) (o : block_out) : Prop := roomy cap (h_out o).

Lemma filled_roomy cap s o : roomy cap o -> zlen (s_findings s) <= cap -> roomy cap (filled s o).
Proof. unfold roomy, filled, zlen. cbn. rewrite length_app, length_drop. lia. Qed.

Section read_block.
Context (cap : Z) (cap_pos : 0 <= cap).

Lemma summary_decode_roomy sp o : roomy cap o -> bytes_ok sp -> zlen sp <= INT64_MAX ->
  match ants_chain_epoch_summary_decode (Some sp) (zlen sp) cap o with
  | Ok o' _ | Err o' _ => roomy cap o'
  | UB | NoFuel => False
  end.
Proof using cap_pos.
  intros Ho Hok Hb. pose proof (summary_decode_spec sp o cap cap_pos Ho Hok Hb) as H.
  unfold ants_chain_epoch_summary_decode in *. cbn [is_null orb] in *.
  destruct (Z.eqb_spec (zlen sp) 0); [done|].
  pose proof (with_decoder_safe (roomy cap) (fun e => e) norm_decode_err sp (summary_decode_body cap) o
    Hok Hb Ho (keeps_summary_body cap cap_pos)) as Hsafe. unfold bind in *.
  destruct (with_decoder _ _ _ _ _ _); done.
Qed.

Lemma keeps_block_body : keeps (roomy_block cap) (block_decode_body cap).
Proof using cap_pos.
  unfold block_decode_body. repeat first
    [ apply keeps_bytes_then
    | apply keeps_bind; [solve [auto with ants | by apply keeps_modify]|intros ?]
    | apply keeps_if; intros ?; [solve [auto with ants]|] ].
  intros sp Hok Hb buf [d o] Hd Ho. unfold embedded_decode. cbn [fst snd] in *.
  pose proof (summary_decode_roomy sp (h_out o) Ho Hok Hb) as Hr.
  by destruct (ants_chain_epoch_summary_decode _ _ _ _).
Qed.

(** What a block leaves in the caller's objects, with [o] from its summary. *)
Definition block_read (b : ants_chain_block_t) (o : summary_out) : block_out :=
  mk_block_out (b_height b) (b_prev_block_hash b) (b_degraded_seed b) o.

Lemma block_read_ok d old b :
  roomy_block cap old -> block_typed b -> zlen (encode (summary_doc (b_summary b))) <= INT64_MAX ->
  at_ d [block_doc b] ->
  if zlen (s_findings (b_summary b)) <=? cap
  then exists d', block_decode_body cap (d, old) = Ok (d', block_read b (filled (b_summary b) (h_out old))) tt /\
    at_ d' []
  else exists d', block_decode_body cap (d, old) =
    Err (d', block_read b (header_out (b_summary b) (h_out old))) ANTS_ERROR_BUFFER_TOO_SMALL.
Proof using cap_pos.
  intros Ho (_ & (_ & Hp) & Hs) Hb Hat. unfold block_decode_body.
  destruct (at_map _ _ _ Hat) as (e1 & Hd1 & Hat1). cbn [flat map concat app fst snd] in Hat1.
  rewrite (bind_Ok _ _ _ _ _ (on_fst_ok _ _ _ _ _ (map_err_ok _ _ _ _ _ Hd1))). clear Hd1 Hat.
  match goal with |- context [negb (?a =? CHAIN_BLOCK_PAIRS)] =>
    replace (negb (a =? CHAIN_BLOCK_PAIRS)) with false by done end.
  read_field at_uint_field Hat1. rewrite store_step. read_bytes_field Hat1 Hp. rewrite store_step.
  destruct (at_expect_key _ _ _ Hat1) as (e2 & Hd2 & Hat2).
  rewrite (bind_Ok _ _ _ _ _ (on_fst_ok _ _ _ _ _ Hd2)). clear Hd2 Hat1.
  destruct (at_read _ CBool _ _ _ reader_bool Hat2) as (e3 & Hd3 & Hat3).
  rewrite (bind_Ok _ _ _ _ _ (on_fst_ok _ _ _ _ _ (map_err_ok _ _ _ _ _ Hd3))). clear Hd3 Hat2.
  rewrite store_step. destruct (at_expect_key _ _ _ Hat3) as (e4 & Hd4 & Hat4).
  rewrite (bind_Ok _ _ _ _ _ (on_fst_ok _ _ _ _ _ Hd4)). clear Hd4 Hat3.
  destruct (at_read _ CBytes _ _ _ reader_bytes Hat4) as (e5 & Hd5 & Hat5).
  rewrite (bind_Ok _ _ _ _ _ (on_fst_ok _ _ _ _ _ (map_err_ok _ _ _ _ _ Hd5))). clear Hd5 Hat4.
  cbn [h_height h_prev h_degraded h_out]. unfold embedded_decode. cbn [fst snd h_height h_prev h_degraded h_out].
  rewrite summary_decode_reads by done.
  destruct (zlen (s_findings (b_summary b)) <=? cap); by exists e5.
Qed.

Lemma block_read_inv d old st items :
  roomy_block cap old -> at_ d items -> zlen (encodes items) <= INT64_MAX ->
  block_decode_body cap (d, old) = Ok st tt ->
  exists b cs, items = block_doc b :: cs /\ block_typed b /\ zlen (s_findings (b_summary b)) <= cap /\
    at_ st.1 cs /\ st.2 = block_read b (filled (b_summary b) (h_out old)).
Proof using cap_pos.
  intros Ho Hat Hsize H. assert (Hwf : Forall wf items) by (by destruct Hat as (? & ? & _ & _ & ?)).
  unfold block_decode_body in H. peel_call H n. apply map_err_inv in H1.
  destruct (at_map_inv _ _ _ _ Hat H1) as (l & cs & -> & -> & Hat1). clear H1 Hat.
  destruct (Z.eqb_spec (zlen l) CHAIN_BLOCK_PAIRS) as [Hlen|]; [|done]. cbn [negb] in H.
  apply (zlen_4 l) in Hlen as ([k1 v1] & [k2 v2] & [k3 v3] & [k4 v4] & ->).
  cbn [flat map concat app fst snd] in Hat1.
  peel_field at_uint_field_inv H Hat1 x1. peel_store H. peel_bytes_field H Hat1 x2. peel_store H.
  peel_call H u. destruct u. destruct (at_expect_key_inv _ _ _ _ Hat1 H1) as (c1 & E1 & Hat2). injection E1 as -> <-.
  clear H1 Hat1. peel_call H dg. apply map_err_inv in H1.
  destruct (at_read_inv _ CBool _ _ _ _ reader_bool Hat2 H1) as (c2 & E2 & Hat3). injection E2 as -> <-.
  clear H1 Hat2. peel_store H.
  peel_call H u. destruct u. destruct (at_expect_key_inv _ _ _ _ Hat3 H1) as (c3 & E3 & Hat4). injection E3 as -> <-.
  clear H1 Hat3. peel_call H sp. apply map_err_inv in H1.
  destruct (at_read_inv _ CBytes _ _ _ _ reader_bytes Hat4 H1) as (c4 & E4 & Hat5). injection E4 as -> <-.
  clear H1 Hat4. cbn [h_height h_prev h_degraded h_out] in H.
  apply Forall_cons in Hwf as [Hw0 _]. pose proof Hw0 as (_ & _ & Hw)%wf_map.
  do 4 (apply Forall_cons in Hw as [[_ ?] Hw]). cbn [snd wf] in *.
  assert (Hsp : zlen sp <= INT64_MAX).
  { rewrite encodes_cons, zlen_app in Hsize. pose proof (zlen_nonneg (encodes cs)).
    pose proof (bytes_item_size sp).
    pose proof (map_item_size [(CUint BLOCK_KEY_HEIGHT, CUint x1); (CUint BLOCK_KEY_PREV, CBytes x2);
      (CUint BLOCK_KEY_DEGRADED, CBool dg); (CUint BLOCK_KEY_SUMMARY, CBytes sp)]
      (CUint BLOCK_KEY_SUMMARY) (CBytes sp) ltac:(by do 3 right; left)).
    pose proof (zlen_nonneg (encode (CUint BLOCK_KEY_SUMMARY))). zlia. }
  unfold embedded_decode in H. cbn [fst snd h_height h_prev h_degraded h_out] in H.
  match goal with Hx : bytes_ok sp /\ _ |- _ => destruct Hx as [Hok _] end.
  pose proof (summary_decode_spec sp (h_out old) cap cap_pos Ho Hok Hsp) as Hd.
  destruct (ants_chain_epoch_summary_decode _ _ _ _) as [o []|? ?| |]; try done.
  destruct Hd as (s & Hs & Hn & -> & ->). injection H as <-. cbn [fst snd].
  exists (mk_block x1 x2 dg s), cs. split; [done|]. split; [|done].
  unfold block_typed, hash_ok. cbn. tauto.
Qed.
End read_block.
