(* ===== verification/ChainBlock.v ===== *)
(** * Blocks: round trip, strictness and hashing (chain.c)

    A block has one encoding, which chain.c and crdt.c read alike; a decoder
    accepts nothing else, so the block hash identifies the block. *)

From S2P Require Import Prelude Cbor CborSpec CborEnc CborCanon CborContract CborKv CborRecord CborCodec CborParse Crypto Merkle BondCodec Crdt CrdtParse CrdtVerify Chain ChainCodec.
Import Crdt Chain.

#[local] Arguments zlen {A} l : simpl never.

Lemma encodes_one c : encodes [c] = encode c.
Proof. unfold encodes. cbn [map concat]. by rewrite app_nil_r. Qed.

Lemma block_summary_size b : zlen (encode (summary_doc (b_summary b))) <= zlen (encode (block_doc b)).
Proof.
  pose proof (map_item_size [(CUint 1, CUint (b_height b)); (CUint 2, CBytes (b_prev_block_hash b));
    (CUint 3, CBool (b_degraded_seed b)); (CUint 4, CBytes (encode (summary_doc (b_summary b))))]
    (CUint 4) (CBytes (encode (summary_doc (b_summary b)))) ltac:(by do 3 right; left)) as Hm.
  pose proof (bytes_item_size (encode (summary_doc (b_summary b)))).
  pose proof (zlen_nonneg (encode (CUint 4))). unfold block_doc, block_cbor. lia.
Qed.

Lemma block_decode_reads b old cap :
  0 <= cap -> roomy_block cap old -> block_typed b -> zlen (encode (block_doc b)) <= INT64_MAX ->
  ants_chain_block_decode (Some (encode (block_doc b))) (zlen (encode (block_doc b))) cap old =
    if zlen (s_findings (b_summary b)) <=? cap
    then Ok (block_read b (filled (b_summary b) (h_out old))) tt
    else Err (block_read b (header_out (b_summary b) (h_out old))) ANTS_ERROR_BUFFER_TOO_SMALL.
Proof.
  intros Hc Ho Ht Hb. pose proof (block_summary_size b). assert (Hw : wf (block_doc b)) by (apply block_wf; [done|lia]).
  unfold ants_chain_block_decode. cbn [is_null orb]. rewrite (proj2 (Z.eqb_neq _ 0) (encode_zlen_ne _)).
  destruct (at_init (encode (block_doc b)) [block_doc b]) as (d & Hd & Hat).
  { by apply encode_ok. }
  { done. }
  { by rewrite encodes_one. }
  { constructor; [|constructor]. split; [done|]. cbn. lia. }
  pose proof (block_read_ok cap Hc d old b Ho Ht ltac:(lia) Hat) as Hr. unfold with_decoder. rewrite Hd.
  destruct (zlen (s_findings (b_summary b)) <=? cap); destruct Hr as (d' & Hr).
  - destruct Hr as [Hr Hat']. rewrite (bind_Ok _ _ _ _ _ Hr). unfold on_fst, map_err. cbn [fst snd].
    by rewrite (at_finalise d' Hat').
  - unfold bind. by rewrite Hr.
Qed.

Definition block_error (e : ants_error_t) : Prop := e = ANTS_ERROR_INVALID_ARG \/ chain_error e.

Lemma codes_embedded sp cap : codes block_error (embedded_decode sp cap).
Proof.
  intros [d o]. unfold embedded_decode, ants_chain_epoch_summary_decode. cbn [is_null orb fst snd].
  destruct (zlen sp =? 0); [by left|]. unfold bind at 1.
  destruct (with_decoder _ _ _ _ _ _) as [? ?|? e| |] eqn:E; try done. right.
  eapply with_decoder_codes in E; [exact E|apply codes_summary_body|].
  intros e'. apply decode_chain_error, norm_decode_error.
Qed.

Lemma block_codes {S A} (m : action S A) : codes decode_error m -> codes block_error m.
Proof. apply codes_weaken. intros e He. right. by apply decode_chain_error. Qed.

Lemma codes_block_body cap : codes block_error (block_decode_body cap).
Proof.
  assert (Hm : block_error ANTS_ERROR_MALFORMED) by (right; apply malformed_chain_error).
  unfold block_decode_body. repeat first
    [ apply codes_bind; [solve [apply block_codes; auto with ants | auto with ants]|intros ?]
    | apply codes_if; [solve [auto with ants]|]
    | apply codes_embedded ].
Qed.

Lemma block_decode_spec buf old cap :
  0 <= cap -> roomy_block cap old -> bytes_ok buf -> zlen buf <= INT64_MAX ->
  match ants_chain_block_decode (Some buf) (zlen buf) cap old with
  | Ok o _ => exists b, block_typed b /\ zlen (s_findings (b_summary b)) <= cap /\
      buf = encode (block_doc b) /\ o = block_read b (filled (b_summary b) (h_out old))
  | Err _ e => block_error e
  | UB | NoFuel => False
  end.
Proof.
  intros Hc Ho Hok Hb. unfold ants_chain_block_decode. cbn [is_null orb].
  destruct (Z.eqb_spec (zlen buf) 0) as [Hz|Hz]; [by left|].
  pose proof (with_decoder_safe (roomy_block cap) (fun e => e) norm_decode_err buf (block_decode_body cap) old
    Hok Hb Ho (keeps_block_body cap Hc)) as Hsafe.
  destruct (with_decoder _ _ _ _ _ _) as [o []|o e| |] eqn:E; try done.
  - destruct (with_decoder_inv (roomy_block cap) _ _ buf (block_decode_body cap) old o Hok Hb Ho
      (keeps_block_body cap Hc) E) as (items & d & d' & -> & Hat & Hrun & Hfin).
    destruct (block_read_inv cap Hc d old (d', o) items Ho Hat Hb Hrun) as (b & cs & -> & Ht & Hn & Hat' & Eo).
    cbn [fst snd] in *. rewrite (at_finalise_inv d' d' cs Hat' Hfin) in *. exists b.
    split; [done|]. split; [done|]. split; [apply encodes_one|done].
  - eapply with_decoder_codes in E; [exact E|apply codes_block_body|].
    intros e'. right. apply decode_chain_error, norm_decode_error.
Qed.

(** ** What crdt.c reads in a block *)

Lemma findings_subjects fs : Forall finding_ok fs ->
  Forall (fun f => zlen (finding_subject f) = 32) (map fields_of fs).
Proof. intros H. apply Forall_map. eapply Forall_impl; [exact H|]. by intros f ((_ & ?) & _). Qed.

Lemma block_chain_block b :
  block_typed b -> zlen (encode (block_doc b)) <= INT64_MAX ->
  chain_block (encode (block_doc b)) (s_epoch (b_summary b)) (s_confirmed_proofs (b_summary b)).
Proof.
  intros Ht Hb. pose proof (block_summary_size b). pose proof Ht as (_ & (_ & Hp) & Hs).
  destruct (typed_readable (b_summary b) Hs ltac:(lia)) as (Hw & Hh & _).
  pose proof Hs as (_ & _ & (_ & Hr) & Hf).
  exists (b_height b), (b_prev_block_hash b), (b_degraded_seed b), (encode (summary_doc (b_summary b))),
    (s_cutoff_time (b_summary b)), (map fields_of (s_findings (b_summary b))).
  split; [split; [apply block_wf; [done|lia]|split; [cbn; lia|done]]|].
  split; [done|]. split; [done|]. split; [done|]. by apply findings_subjects.
Qed.

Lemma block_parsed b :
  block_typed b -> zlen (encode (block_doc b)) <= INT64_MAX ->
  parse_block_summary (encode (block_doc b)) tt = Ok tt (s_epoch (b_summary b), s_confirmed_proofs (b_summary b)).
Proof.
  intros Ht Hb. pose proof (block_summary_size b).
  assert (Hok : bytes_ok (encode (block_doc b))) by (apply encode_ok, block_wf; [done|lia]).
  eapply (decides_true _ _ _ _ (parse_block_summary_decides _ Hok Hb)). by apply block_chain_block.
Qed.

(** ** The hash *)

Lemma block_doc_inj b b' :
  block_typed b -> block_typed b' ->
  zlen (encode (block_doc b)) <= INT64_MAX -> zlen (encode (block_doc b')) <= INT64_MAX ->
  encode (block_doc b) = encode (block_doc b') -> b = b'.
Proof.
  intros Ht Ht' Hb Hb' He.
  set (o := mk_block_out 0 [] false (mk_out (mk_summary 0 0 [] [])
    (replicate (length (s_findings (b_summary b)) + length (s_findings (b_summary b'))) (mk_finding [] 0 0 0 0)) 0)).
  set (cap := zlen (s_findings (b_summary b)) + zlen (s_findings (b_summary b'))).
  assert (Ho : roomy_block cap o).
  { unfold roomy_block, roomy, o, cap, zlen. cbn. rewrite length_replicate. lia. }
  assert (Hc : 0 <= cap) by (unfold cap, zlen; lia).
  pose proof (block_decode_reads b o cap Hc Ho Ht Hb) as H1.
  pose proof (block_decode_reads b' o cap Hc Ho Ht' Hb') as H2.
  rewrite (proj2 (Z.leb_le _ _)) in H1 by (unfold cap, zlen; lia).
  rewrite (proj2 (Z.leb_le _ _)) in H2 by (unfold cap, zlen; lia).
  rewrite He, H2 in H1. unfold block_read, filled in H1. injection H1. intros.
  destruct b, b'. cbn in *. congruence.
Qed.

Lemma block_hash_eq `{B : Blake3} {Laws : Blake3Laws B} b :
  block_ok b -> ants_chain_block_hash b = Ok tt (digest (encode (block_doc b))).
Proof.
  intros Hok. pose proof (block_bounded b Hok) as Hb. unfold ants_chain_block_hash.
  destruct (block_encodes b ANTS_CHAIN_BLOCK_ENCODED_MAX (local_buffer ANTS_CHAIN_BLOCK_ENCODED_MAX) Hok)
    as (buf & -> & Ht).
  { split; [lia|]. unfold local_buffer, zlen. rewrite length_replicate. by vm_compute. }
  { unfold local_buffer, zlen. rewrite length_replicate. by vm_compute. }
  pose proof (encode_length_pos (block_doc b)).
  assert (Hl : (length (encode (block_doc b)) <= length buf)%nat) by (rewrite <- Ht, length_take; lia).
  unfold ants_blake3_hash. cbn [is_null andb]. rewrite (proj2 (Z.ltb_lt _ _)) by zlia.
  unfold slice. rewrite drop_0, zlen_to_nat, Ht. pose proof (zlen_nonneg (encode (block_doc b))).
  rewrite !(proj2 (Z.leb_le _ _)) by (unfold zlen in *; lia). done.
Qed.

(** ** The guarantees *)

Definition sample_summary : ants_chain_epoch_summary_t :=
  mk_summary 7 1000000 (replicate 32 4) [mk_finding (replicate 32 9) 1 2592000 6 3].
Definition sample_block : ants_chain_block_t := mk_block 12 (replicate 32 5) true sample_summary.
Definition sample_out : block_out :=
  mk_block_out 0 [] false (mk_out (mk_summary 0 0 [] []) (replicate 2 (mk_finding [] 0 0 0 0)) 0).

Lemma sample_block_ok : block_ok sample_block.
Proof.
  assert (Hh : forall x, 0 <= x < 256 -> hash_ok (replicate 32 x)).
  { intros x Hx. split; [by apply Forall_replicate|done]. }
  split; [done|]. split; [by apply Hh|]. split; [|done].
  split; [done|]. split; [done|]. split; [by apply Hh|]. constructor; [|constructor].
  split; [by apply Hh|]. by repeat split.
Qed.

(** C31: Round trip of a block.  Encoding into any buffer of at least
    [ants_chain_block_bound] bytes succeeds within that bound; crdt.c reads
    from those bytes exactly the epoch and the confirmed-proofs root that went
    in; and decoding them into objects with room for [fcap] findings restores
    every field and finding, or, when the findings do not fit, reports
    BUFFER_TOO_SMALL with their exact number. *)
Theorem block_roundtrip b cap buf fcap old :
  block_ok b -> ants_chain_block_bound b <= cap <= zlen buf -> zlen buf <= INT64_MAX ->
  0 <= fcap -> roomy_block fcap old ->
  exists buf' n, ants_chain_block_encode b cap buf = Ok buf' n /\ n <= ants_chain_block_bound b /\
    let doc := take (Z.to_nat n) buf' in
    parse_block_summary doc tt = Ok tt (s_epoch (b_summary b), s_confirmed_proofs (b_summary b)) /\
    match ants_chain_block_decode (Some doc) n fcap old with
    | Ok o _ => zlen (s_findings (b_summary b)) <= fcap /\
        mk_block (h_height o) (h_prev o) (h_degraded o) (o_summary (h_out o)) = b
    | Err o e => fcap < zlen (s_findings (b_summary b)) /\ e = ANTS_ERROR_BUFFER_TOO_SMALL /\
        o_n (h_out o) = zlen (s_findings (b_summary b))
    | UB | NoFuel => False
    end.
Proof.
  intros Hok Hc Hb Hf Ho. pose proof (block_bounded b Hok) as Hs. pose proof (block_readable b Hok) as (_ & _ & Hz).
  destruct (block_encodes b cap buf Hok Hc Hb) as (buf' & He & Ht).
  exists buf', (zlen (encode (block_doc b))). split; [done|]. split; [lia|]. cbv zeta.
  rewrite zlen_to_nat, Ht. split; [by apply block_parsed; [apply block_typed_ok|]|].
  rewrite block_decode_reads by (done || by apply block_typed_ok).
  destruct (Z.leb_spec (zlen (s_findings (b_summary b))) fcap); [split; [done|by destruct b]|done].
Qed.

Lemma block_roundtrip_witness :
  exists buf' n, ants_chain_block_encode sample_block 300 (replicate 300 0) = Ok buf' n /\
    n <= ants_chain_block_bound sample_block /\
    let doc := take (Z.to_nat n) buf' in
    parse_block_summary doc tt = Ok tt (7, replicate 32 4) /\
    match ants_chain_block_decode (Some doc) n 2 sample_out with
    | Ok o _ => zlen (s_findings sample_summary) <= 2 /\
        mk_block (h_height o) (h_prev o) (h_degraded o) (o_summary (h_out o)) = sample_block
    | Err o e => 2 < zlen (s_findings sample_summary) /\ e = ANTS_ERROR_BUFFER_TOO_SMALL /\
        o_n (h_out o) = zlen (s_findings sample_summary)
    | UB | NoFuel => False
    end.
Proof.
  apply (block_roundtrip sample_block 300 (replicate 300 0) 2 sample_out sample_block_ok);
    try (by vm_compute); split; by vm_compute.
Defined.

(** C32: Strict decoding of blocks.  On any byte string the block decoder
    terminates without leaving its input or the findings array; what it
    accepts is the one encoding of the block it returns, embedded summary
    included; and a refusal carries a documented code and is justified: if the
    bytes do encode a block, it is because its findings do not fit. *)
Theorem block_decode_strict buf fcap old :
  bytes_ok buf -> zlen buf <= INT64_MAX -> 0 <= fcap -> roomy_block fcap old ->
  match ants_chain_block_decode (Some buf) (zlen buf) fcap old with
  | Ok o _ => exists b, block_typed b /\ buf = encode (block_doc b) /\
      mk_block (h_height o) (h_prev o) (h_degraded o) (o_summary (h_out o)) = b /\
      o_n (h_out o) = zlen (s_findings (b_summary b)) /\
      take (length (s_findings (b_summary b))) (o_findings (h_out o)) = s_findings (b_summary b)
  | Err _ e => block_error e /\
      forall b, block_typed b -> buf = encode (block_doc b) ->
        e = ANTS_ERROR_BUFFER_TOO_SMALL /\ fcap < zlen (s_findings (b_summary b))
  | UB | NoFuel => False
  end.
Proof.
  intros Hok Hb Hf Ho. pose proof (block_decode_spec buf old fcap Hf Ho Hok Hb) as Hd.
  destruct (ants_chain_block_decode _ _ _ _) as [o []|o e| |] eqn:E; try done.
  - destruct Hd as (b & Ht & Hn & -> & ->). exists b. split; [done|]. split; [done|].
    unfold block_read, filled. cbn. rewrite take_app_length. by destruct b.
  - split; [done|]. intros b Ht ->. rewrite block_decode_reads in E by done.
    destruct (Z.leb_spec (zlen (s_findings (b_summary b))) fcap); [done|]. by injection E as _ <-.
Qed.

Lemma block_decode_strict_witness :
  exists b, block_typed b /\ encode (block_doc sample_block) = encode (block_doc b) /\ b = sample_block.
Proof.
  pose proof (block_decode_strict (encode (block_doc sample_block)) 2 sample_out ltac:(by_decision)
    ltac:(by vm_compute) ltac:(by vm_compute) ltac:(by vm_compute)) as H.
  vm_compute (ants_chain_block_decode _ _ _ _) in H.
  destruct H as (b & Ht & He & Hb & _). exists b. split; [exact Ht|]. split; [exact He|]. by rewrite <- Hb.
Defined.

(** The block hash identifies the block: it is the digest of the one
    encoding, always computed, and two blocks with the same hash are equal in
    every field and finding, unless their two encodings collide. *)
Theorem block_hash_binds `{B : Blake3} {Laws : Blake3Laws B} b b' h :
  block_ok b -> block_ok b' ->
  ants_chain_block_hash b = Ok tt h -> ants_chain_block_hash b' = Ok tt h ->
  collision_free [encode (block_doc b)] [encode (block_doc b')] -> b = b'.
Proof.
  intros Hb Hb' H H' Hcf. rewrite block_hash_eq in H, H' by done.
  apply block_doc_inj; try by apply block_typed_ok.
  - by apply block_readable.
  - by apply block_readable.
  - apply Hcf; [by left|by left|]. congruence.
Qed.

Lemma block_hash_binds_witness :
  exists h, @ants_chain_block_hash toy_blake3 sample_block = Ok tt h /\ sample_block = sample_block.
Proof.
  exists (@digest toy_blake3 (encode (block_doc sample_block))).
  pose proof (@block_hash_eq toy_blake3 toy_blake3_laws sample_block sample_block_ok) as H. split; [exact H|].
  apply (@block_hash_binds toy_blake3 toy_blake3_laws sample_block sample_block _ sample_block_ok sample_block_ok H H).
  intros a b Ha Hb' _. apply list_elem_of_singleton in Ha, Hb'. congruence.
Defined.
