(* ===== verification/ChainHonest.v ===== *)
(** * What a proposer is answerable for (chain.c against crdt.c)

    A proposed block is the one block of its view, and a proposer whose view
    holds verified proofs only cannot be convicted of fabrication, whatever
    positions and paths the accuser presents. *)

From S2P Require Import Prelude Cbor CborSpec CborEnc CborCanon CborContract CborKv CborRecord CborCodec.
From S2P Require Import CborParse Crypto Merkle BondCodec Crdt CrdtMerkle CrdtParse CrdtVerify Chain.
From S2P Require Import ChainPattern ChainCommit ChainCodec ChainBlock.
Import Crdt Chain.

#[local] Arguments zlen {A} l : simpl never.

(** ** Membership does not depend on the shape of the path *)

Section member.
Context `{B : Blake3} {Laws : Blake3Laws B}.

(** The nodes of the tree over [l]. *)
Inductive tree_node (l : list bytes) : bytes -> Prop :=
| tree_leaf x : x ∈ l -> tree_node l x
| tree_inner x y : tree_node l x -> tree_node l y -> node_input x y ∈ tree_inputs (length l) l ->
    tree_node l (node x y).

Lemma tree_node_size l h : hashes l -> tree_node l h -> zlen h = 32.
Proof using Laws.
  intros Hl. destruct 1 as [x Hx|x y _ _ _]; [|apply digest_size].
  unfold hashes in Hl. rewrite Forall_forall in Hl. by apply Hl.
Qed.

Lemma level_up_node l0 l :
  Forall (tree_node l0) l -> (forall i, i ∈ level_inputs l -> i ∈ tree_inputs (length l0) l0) ->
  Forall (tree_node l0) (level_up l).
Proof using Type.
  induction l as [|x|x y l IH] using list_ind2; intros Hl Hi; [done..|].
  apply Forall_cons in Hl as [Hx Hl]. apply Forall_cons in Hl as [Hy Hl]. cbn [level_up level_inputs] in *.
  constructor; [apply tree_inner; [done..|]; apply Hi; by left|]. apply IH; [done|]. intros i Hin. apply Hi. by right.
Qed.

Lemma root_levels_node l0 f : forall l,
  l <> [] -> Forall (tree_node l0) l -> (length l <= f)%nat ->
  (forall i, i ∈ tree_inputs f l -> i ∈ tree_inputs (length l0) l0) -> tree_node l0 (root_levels f l).
Proof using Type.
  induction f as [|f IH]; intros l Hne Hl Hf Hi; [destruct l; cbn in Hf; [done|lia]|].
  destruct l as [|x [|y l]]; [done|by apply Forall_cons in Hl as [? _]|].
  change (root_levels (S f) (x :: y :: l)) with (root_levels f (level_up (x :: y :: l))).
  cbn [tree_inputs] in Hi. apply IH.
  - done.
  - apply level_up_node; [done|]. intros i Hin. apply Hi, elem_of_app. by left.
  - rewrite length_level_up. cbn [length] in *. divlia.
  - intros i Hin. apply Hi, elem_of_app. by right.
Qed.

Lemma merkle_root_node l : l <> [] -> tree_node l (merkle_root l).
Proof using Type.
  intros Hne. apply root_levels_node; [done| |lia|done]. apply Forall_forall. intros x Hx. by apply tree_leaf.
Qed.

Lemma inputs_apart id x y : leaf_input id <> node_input x y.
Proof using Type. discriminate. Qed.

(** One step down from a node of the tree. *)
Lemma node_below ids s t :
  zlen s = 32 -> zlen t = 32 ->
  tree_node (map leaf ids) (node s t) ->
  collision_free (commit_inputs ids) [node_input s t] ->
  tree_node (map leaf ids) s /\ tree_node (map leaf ids) t.
Proof using Laws.
  intros Hs Ht Hn Hcf. remember (node s t) as h eqn:E. destruct Hn as [x Hx|x y Hx Hy Hin].
  - exfalso. apply list_elem_of_fmap in Hx as (id & -> & Hid).
    apply Hcf in E; [by apply inputs_apart in E| |by left]. apply elem_of_app. left.
    apply list_elem_of_fmap. by exists id.
  - apply Hcf in E; [|apply elem_of_app; right; by rewrite length_map in Hin|by left].
    pose proof (tree_node_size _ _ (ids_hashes ids) Hx).
    apply node_input_inj in E as [-> ->]; [done|congruence].
Qed.

Lemma climb_node ids ts : forall sibs cur root,
  hashes sibs -> zlen cur = 32 -> climb ts sibs cur = Some root ->
  tree_node (map leaf ids) root ->
  collision_free (commit_inputs ids) (climb_inputs ts sibs cur) ->
  tree_node (map leaf ids) cur.
Proof using Laws.
  induction ts as [|t ts IH]; intros sibs cur root Hs Hc Hcl Hr Hcf.
  { destruct sibs; [|done]. by injection Hcl as ->. }
  destruct t; cbn [climb climb_inputs] in *; [| |by eapply IH].
  all: destruct sibs as [|s sibs]; [done|]; apply Forall_cons in Hs as [Hsz Hs].
  all: match type of Hcl with climb _ _ ?n = _ => assert (Hn : tree_node (map leaf ids) n) end.
  1, 3: eapply IH; [exact Hs|apply digest_size|exact Hcl|exact Hr|];
    intros a b Ha Hb; apply Hcf; [done|by right].
  all: apply node_below in Hn as [? ?]; [done..|]; intros a b Ha Hb; apply Hcf; [done|];
    apply list_elem_of_singleton in Hb as ->; by left.
Qed.

(** The content ids a root stands for, empty list included. *)
Definition confirmed (ids : list bytes) : bytes :=
  match ids with [] => digest [CHAIN_MERKLE_EMPTY_PREFIX] | _ => merkle_root (map leaf ids) end.

Definition confirmed_inputs (ids : list bytes) : list bytes :=
  match ids with [] => [[CHAIN_MERKLE_EMPTY_PREFIX]] | _ => commit_inputs ids end.

Lemma climb_last ts : forall sibs cur root,
  climb ts sibs cur = Some root ->
  (root = cur) \/ exists a b, root = node a b /\ node_input a b ∈ climb_inputs ts sibs cur.
Proof using Type.
  induction ts as [|t ts IH]; intros sibs cur root H; cbn [climb climb_inputs] in *.
  { destruct sibs; [|done]. injection H as ->. by left. }
  destruct t; [| |by apply IH].
  all: destruct sibs as [|s sibs]; [done|]; right; destruct (IH _ _ _ H) as [->|(a & b & -> & Hin)];
    [by eexists _, _; split; [done|left]|exists a, b; split; [done|by right]].
Qed.

(** A path of any claimed shape under the root of [ids] proves a member. *)
Lemma proves_somewhere ids id i n path :
  proves id i n path (confirmed ids) ->
  collision_free (confirmed_inputs ids) (check_inputs id i n path) -> id ∈ ids.
Proof using Laws.
  intros (sibs & -> & Hs & Hc) Hcf. unfold check_inputs in Hcf.
  assert (Hk : chunks (Z.to_nat (proof_size i n)) (concat sibs) = sibs).
  { unfold proof_size. rewrite <- (climb_size _ _ _ _ Hc). unfold zlen at 1. rewrite Nat2Z.id. by apply chunks_concat. }
  rewrite Hk in Hcf. destruct ids as [|id0 ids].
  - exfalso. cbn [confirmed confirmed_inputs] in *. destruct (climb_last _ _ _ _ Hc) as [E|(a & b & E & Hin)].
    + apply Hcf in E; [discriminate|by left|by left].
    + apply Hcf in E; [discriminate|by left|by right].
  - cbn [confirmed confirmed_inputs] in *. set (l := id0 :: ids) in *.
    assert (Hn : tree_node (map leaf l) (leaf id)).
    { eapply climb_node; [exact Hs|apply digest_size|exact Hc|by apply merkle_root_node|].
      intros a b Ha Hb. apply Hcf; [done|by right]. }
    remember (leaf id) as h eqn:E. destruct Hn as [x Hx|x y _ _ Hin].
    + apply list_elem_of_fmap in Hx as (id' & -> & Hid). apply Hcf in E; [by injection E as -> | |by left].
      apply elem_of_app. left. apply list_elem_of_fmap. by exists id'.
    + exfalso. apply Hcf in E; [by symmetry in E; apply inputs_apart in E| |by left].
      apply elem_of_app. right. by rewrite length_map in Hin.
Qed.
End member.

(** ** Proposing *)

Section propose.
Context `{B : Blake3} {Laws : Blake3Laws B}.

Lemma confirmed_root_total ids u :
  zlen ids <= 2 ^ ANTS_CHAIN_MERKLE_MAX_DEPTH -> hashes ids -> ids_strictly_ascending ids = true ->
  ants_chain_confirmed_root (Some ids) (zlen ids) u = Ok u (confirmed ids).
Proof using Laws.
  intros Hn Hx Ha. destruct ids as [|id ids].
  { destruct u. reflexivity. }
  by apply confirmed_root_eq.
Qed.

Lemma confirmed_size ids : zlen (confirmed ids) = 32.
Proof using Laws. destruct ids; [apply digest_size|]. by apply committed_root_size. Qed.

Lemma confirmed_bytes ids : bytes_ok (confirmed ids).
Proof using Laws.
  assert (Hd : forall b, bytes_ok (digest b)) by (intros; apply finalize_bytes).
  destruct ids as [|id ids]; [apply Hd|].
  assert (Hn : tree_node (map leaf (id :: ids)) (merkle_root (map leaf (id :: ids)))) by (by apply merkle_root_node).
  cbn [confirmed]. destruct Hn as [x Hx|x y _ _ _]; [|apply Hd].
  apply list_elem_of_fmap in Hx as (id' & -> & _). apply Hd.
Qed.

(** The view of a proposer: the proofs it sees, by content id, and the events
    they stand for. *)
Definition view_ok (ids : list bytes) (events : list ants_chain_event_t) : Prop :=
  zlen ids <= 2 ^ ANTS_CHAIN_MERKLE_MAX_DEPTH /\ hashes ids /\ ids_strictly_ascending ids = true /\
  events_ok events /\ Forall (fun e => bytes_ok (e_subject e)) events.

Lemma report_findings_ok events now fs :
  events_ok events -> Forall (fun e => bytes_ok (e_subject e)) events -> is_report events now fs ->
  Forall finding_ok fs.
Proof using Type.
  intros [Hev Hlen] Hb [_ Hfs]. apply Forall_forall. intros f (s & Ht & ->)%Hfs.
  assert (Hs : hash_ok s).
  { apply tally_pos in Ht as (e & He & <-). rewrite Forall_forall in Hev, Hb. split; [by apply Hb|by apply Hev]. }
  assert (Hmax : tally events now s <= zlen events).
  { unfold tally, zlen. pose proof (length_filter (fun e => e_subject e = s /\ in_window now e) events). lia. }
  unfold finding_ok, finding_of. cbn. split; [done|]. split; [done|]. split; [done|]. split; [zlia|].
  unfold severity_of. by repeat case_decide.
Qed.

(** What a proposer is to publish. *)
Definition proposal (height : Z) (prev : bytes) (epoch cutoff : Z) (degraded : bool) (ids : list bytes)
  (fs : list ants_chain_pattern_finding_t) : ants_chain_block_t :=
  mk_block height prev degraded (mk_summary epoch cutoff (confirmed ids) fs).

Lemma block_propose_spec height prev epoch cutoff degraded ids events fcap buf k :
  view_ok ids events -> is_u64 cutoff -> 0 <= fcap <= zlen buf ->
  exists fs, is_report events cutoff fs /\
  match ants_chain_block_propose height prev epoch cutoff degraded (Some ids) (zlen ids) (Some events)
          (zlen events) fcap (buf, k) with
  | Ok (_, n) b => n = zlen fs /\ n <= fcap /\ n <= ANTS_CHAIN_MAX_PATTERN_FINDINGS /\
      b = proposal height prev epoch cutoff degraded ids fs
  | Err (_, n) e => n = zlen fs /\
      (fcap < n /\ e = ANTS_ERROR_BUFFER_TOO_SMALL \/
       n <= fcap /\ ANTS_CHAIN_MAX_PATTERN_FINDINGS < n /\ e = ANTS_ERROR_INVALID_ARG)
  | UB | NoFuel => False
  end.
Proof using Laws.
  intros (Hn & Hx & Ha & He & _) Hc Hf. destruct (scan_outcome events cutoff fcap buf 0 He Hc Hf) as (fs & Hr & Ho).
  exists fs. split; [done|]. unfold ants_chain_block_propose. unfold bind at 1, pure_call.
  rewrite (confirmed_root_total ids tt Hn Hx Ha). unfold bind at 1. cbn [fst].
  destruct (ants_chain_pattern_scan _ _ _ _ _) as [[buf' n] []|[buf' n] e| |]; try done.
  - destruct Ho as (Hle & -> & ->). unfold bind, get. cbn [snd fst].
    destruct (Z.ltb_spec ANTS_CHAIN_MAX_PATTERN_FINDINGS (zlen fs)).
    + split; [done|]. right. done.
    + unfold ret. split; [done|]. split; [done|]. split; [done|]. by rewrite zlen_to_nat, take_app_length.
  - destruct Ho as (Hlt & -> & -> & _). split; [done|]. by left.
Qed.

Lemma proposal_ok height prev epoch cutoff degraded ids events fs :
  is_u64 height -> hash_ok prev -> is_u64 epoch -> is_u64 cutoff -> view_ok ids events ->
  is_report events cutoff fs -> zlen fs <= ANTS_CHAIN_MAX_PATTERN_FINDINGS ->
  block_ok (proposal height prev epoch cutoff degraded ids fs).
Proof using Laws.
  intros Hh Hp He Hc (_ & _ & _ & Hev & Hb) Hr Hn. split; [done|]. split; [done|]. split; [|done].
  split; [done|]. split; [done|]. split; [split; [by apply confirmed_bytes|apply confirmed_size]|].
  by eapply report_findings_ok.
Qed.
End propose.

(** ** The guarantees *)

(** A proposal is determined by the view.  Every member that proposes for
    the same height, parent, epoch and cutoff from the same visible proofs and
    the same set of events, listed in whatever order and into whatever array,
    publishes the identical block: the commitment to the proofs and the one
    report on the events.  The block encodes, and hashes to one value.  The
    only refusals are a report that does not fit the array, answered with its
    exact size, and one beyond the 256 findings a summary holds. *)
Theorem block_propose_deterministic `{B : Blake3} {Laws : Blake3Laws B}
  height prev epoch cutoff degraded ids events :
  is_u64 height -> hash_ok prev -> is_u64 epoch -> is_u64 cutoff -> view_ok ids events ->
  exists fs, is_report events cutoff fs /\
  let b := proposal height prev epoch cutoff degraded ids fs in
  forall events' fcap buf k, events' ≡ₚ events -> 0 <= fcap <= zlen buf ->
  match ants_chain_block_propose height prev epoch cutoff degraded (Some ids) (zlen ids) (Some events')
          (zlen events') fcap (buf, k) with
  | Ok (_, n) b' => b' = b /\ n = zlen fs /\ block_ok b /\
      ants_chain_block_hash b = Ok tt (digest (encode (block_doc b)))
  | Err (_, n) e => n = zlen fs /\
      (fcap < n /\ e = ANTS_ERROR_BUFFER_TOO_SMALL \/
       n <= fcap /\ ANTS_CHAIN_MAX_PATTERN_FINDINGS < n /\ e = ANTS_ERROR_INVALID_ARG)
  | UB | NoFuel => False
  end.
Proof.
  intros Hh Hp He Hc Hv. pose proof Hv as (_ & _ & _ & Hev & _).
  destruct (scan_outcome events cutoff 0 [] 0 Hev Hc ltac:(done)) as (fs & Hr & _).
  exists fs. split; [done|]. cbv zeta. intros events' fcap buf k Hperm Hf.
  assert (Hv' : view_ok ids events').
  { destruct Hv as (? & ? & ? & [Ha Hl] & Hb). split_and!; try done; [|by rewrite Hperm].
    split; [by rewrite Hperm|]. unfold zlen in *. by rewrite Hperm. }
  destruct (block_propose_spec height prev epoch cutoff degraded ids events' fcap buf k Hv' Hc Hf)
    as (fs' & Hr' & Hres).
  assert (fs' = fs) as ->. { apply (report_unique events cutoff); try done. by rewrite Hperm in Hr'. }
  destruct (ants_chain_block_propose _ _ _ _ _ _ _ _ _ _ _) as [[? n] b'|[? n] e| |]; try done.
  destruct Hres as (-> & _ & Hmax & ->). split; [done|]. split; [done|].
  assert (Hok : block_ok (proposal height prev epoch cutoff degraded ids fs)) by (by eapply proposal_ok).
  split; [done|]. by apply block_hash_eq.
Qed.

(** What is hashed when the accuser's path is checked against the block. *)
Definition dispute_free `{B : Blake3} (ids proofs : list bytes) (cited : bytes) (i n : Z) (path : bytes) : Prop :=
  collision_free (confirmed_inputs ids) (check_inputs (digest cited) i n path) /\
  collision_free proofs [cited].

Lemma verified_not_refuted `{B : Blake3} {Laws : Blake3Laws B} `{Ed : Ed25519} p :
  bytes_ok p -> zlen p <= INT64_MAX -> ants_crdt_verify (Some p) tt = Ok tt tt -> ~ refuted p.
Proof.
  intros Hok Hb Hv. pose proof (verify_decides p Hok Hb tt) as Hd. rewrite Hv in Hd. destruct Hd as [Hval _].
  assert (Henv : exists v, is_envelope p v).
  { destruct Hval as [(s & ep & ev & Hd & Hs & _)|(s & ep & ev & Hd & Hs & _)];
      eexists (mk_view s _ ep (encode ev)), ev; by split. }
  destruct Henv as [v Hev]. intros [Hno|[(v' & Hv' & Hft) Hneq]]; [by apply (Hno v)|].
  destruct (valid_class p v' Hv' Hval) as [[_ ?]|[Hft' _]]; [done|]. by rewrite Hft in Hft'.
Qed.

(** C9: An honest proposer cannot be convicted.  If every proof of the
    proposer's view passes VERIFY, then VERIFY accepts no accusation of an
    invalid transition against the block the proposer publishes, whoever is
    accused, whatever bytes are cited at whatever position of however many
    leaves, with whatever path and signature, short of a hash collision among
    the strings hashed in the dispute. *)
Theorem honest_proposer_safe `{B : Blake3} {Laws : Blake3Laws B} `{Ed : Ed25519}
  height prev epoch cutoff degraded proofs events fcap buf k st b cap out out' len
  subject ep sig cited i n path accusation u :
  is_u64 height -> hash_ok prev -> is_u64 epoch -> is_u64 cutoff ->
  view_ok (map digest proofs) events -> 0 <= fcap <= zlen buf ->
  Forall (fun p => bytes_ok p /\ zlen p <= INT64_MAX /\ ants_crdt_verify (Some p) tt = Ok tt tt) proofs ->
  ants_chain_block_propose height prev epoch cutoff degraded (Some (map digest proofs))
    (zlen (map digest proofs)) (Some events) (zlen events) fcap (buf, k) = Ok st b ->
  ants_chain_block_bound b <= cap <= zlen out -> zlen out <= INT64_MAX ->
  ants_chain_block_encode b cap out = Ok out' len ->
  zlen accusation <= INT64_MAX ->
  document accusation (envelope_cbor subject ANTS_FAULT_INVALID_TRANSITION ep
    (transition_cbor (take (Z.to_nat len) out') sig cited i n path)) ->
  dispute_free (map digest proofs) proofs cited i n path ->
  ants_crdt_verify (Some accusation) tt <> Ok u tt.
Proof.
  intros Hh Hp He Hc Hv Hf Hproofs Hprop Hcap Hout Henc Hbnd Hacc [Hcf1 Hcf2] Hver.
  destruct (block_propose_spec height prev epoch cutoff degraded (map digest proofs) events fcap buf k Hv Hc Hf)
    as (fs & Hr & Hspec). rewrite Hprop in Hspec. destruct st as [buf' m]. destruct Hspec as (-> & _ & Hmax & Eb).
  assert (Hb : block_ok b) by (subst b; by eapply proposal_ok).
  destruct (block_encodes b cap out Hb Hcap Hout) as (out'' & He' & Ht). rewrite Henc in He'.
  assert (out' = out'' /\ len = zlen (encode (block_doc b))) as [-> ->] by (by injection He').
  rewrite zlen_to_nat, Ht in Hacc.
  assert (Hok : bytes_ok accusation) by (destruct Hacc as (Hw & _ & <-); by apply encode_ok).
  pose proof (verify_decides accusation Hok Hbnd tt) as Hd. rewrite Hver in Hd. destruct Hd as [Hval _].
  destruct Hval as [(s' & ep' & ev & Hd & _)|(s' & ep' & ev & Hd & _ & Htr)];
    [by injection (document_unique _ _ _ Hacc Hd)|].
  pose proof (document_unique _ _ _ Hacc Hd) as E. unfold envelope_cbor in E. injection E as -> -> ->.
  destruct Htr as (bl & sg & ct & i' & n' & pa & E' & (_ & _ & _ & root & Hcb & _ & Hpr & Href)).
  unfold transition_cbor in E'. injection E' as <- <- <- <- <- <-.
  assert (Hroot : root = confirmed (map digest proofs)).
  { pose proof (block_readable b Hb) as (Hw & _ & Hz). pose proof (encode_ok _ Hw) as Hbo.
    pose proof (parse_block_summary_decides _ Hbo Hz tt) as Hpd.
    rewrite (block_parsed b (block_typed_ok b Hb) Hz) in Hpd. destruct Hpd as [_ Hu].
    specialize (Hu (ep, root) Hcb). injection Hu as _ ->. by subst b. }
  subst root. apply proves_somewhere in Hpr; [|done].
  apply list_elem_of_fmap in Hpr as (p & E & Hin). symmetry in E.
  apply Hcf2 in E; [|done|by left]. subst p.
  rewrite Forall_forall in Hproofs. destruct (Hproofs cited Hin) as (Hpb & Hpl & Hpv).
  by apply (verified_not_refuted cited).
Qed.

(** ** Concrete views *)

Definition demo_view_proofs : list bytes := [demo_equivocation [1] [2; 3]].
Definition demo_view_ids : list bytes := map (@digest toy_blake3) demo_view_proofs.
Definition demo_proposal : outcome scan_out ants_chain_block_t :=
  @ants_chain_block_propose toy_blake3 4 (replicate 32 5) 5 3000000 false (Some demo_view_ids) 1
    (Some demo_events) (zlen demo_events) 4 (replicate 4 no_finding, 0).

#[export] Instance events_ok_dec events : Decision (events_ok events).
Proof. unfold events_ok. apply _. Defined.

Lemma demo_view_ok : @view_ok demo_view_ids demo_events.
Proof.
  split; [by vm_compute|]. split; [by_decision|]. split; [by vm_compute|]. split; [by_decision|]. by_decision.
Qed.

Lemma sample_hash : hash_ok (replicate 32 5).
Proof. split; [by apply Forall_replicate|done]. Qed.

Definition demo_honest_block : ants_chain_block_t :=
  match demo_proposal with Ok _ b => b | _ => mk_block 0 [] false (mk_summary 0 0 [] []) end.
Definition demo_honest_out : scan_out :=
  match demo_proposal with Ok st _ => st | _ => ([], 0) end.

Lemma demo_proposal_made :
  @ants_chain_block_propose toy_blake3 4 (replicate 32 5) 5 3000000 false (Some demo_view_ids)
    (zlen demo_view_ids) (Some demo_events) (zlen demo_events) 4 (replicate 4 no_finding, 0) =
  Ok (demo_honest_out.1, 2) demo_honest_block.
Proof. vm_compute. reflexivity. Qed.

Lemma block_propose_deterministic_witness :
  exists fs, is_report demo_events 3000000 fs /\
    demo_honest_block = @proposal toy_blake3 4 (replicate 32 5) 5 3000000 false demo_view_ids fs /\ 2 = zlen fs.
Proof.
  assert (Hz : 0 <= 4 <= zlen (replicate 4 no_finding)) by done.
  destruct (@block_propose_deterministic toy_blake3 toy_blake3_laws 4 (replicate 32 5) 5 3000000 false
    demo_view_ids demo_events ltac:(done) sample_hash ltac:(done) ltac:(done) demo_view_ok) as (fs & Hr & H).
  exists fs. split; [exact Hr|]. cbv zeta in H.
  pose proof (H demo_events 4 (replicate 4 no_finding) 0 (Permutation_refl _) Hz) as H2. clear H.
  rewrite demo_proposal_made in H2.
  destruct H2 as (Hb & Hn & _). split; [exact Hb|exact Hn].
Defined.

Definition demo_honest_bytes : bytes * Z :=
  match ants_chain_block_encode demo_honest_block 400 (replicate 400 0) with Ok w n => (w, n) | _ => ([], 0) end.
Definition demo_accusation : cbor :=
  envelope_cbor demo_subject ANTS_FAULT_INVALID_TRANSITION 5
    (transition_cbor (take (Z.to_nat demo_honest_bytes.2) demo_honest_bytes.1) (replicate 64 0)
       (demo_equivocation [1] [2; 3]) 0 1 []).

Lemma demo_honest_written :
  ants_chain_block_encode demo_honest_block 400 (replicate 400 0) = Ok demo_honest_bytes.1 demo_honest_bytes.2.
Proof. vm_compute. reflexivity. Qed.

Lemma demo_accusation_document : document (encode demo_accusation) demo_accusation.
Proof.
  assert (Hb : forall b, bool_decide (Forall is_u8 b) && (zlen b <=? SIZE_MAX) = true -> wf (CBytes b)).
  { intros b [H1%bool_decide_eq_true H2%Z.leb_le]%andb_true_iff. by split. }
  split; [|split; [by apply Nat.leb_le|done]]. apply wf_map. split; [done|]. split; [by repeat constructor|].
  constructor; [split; [done|apply Hb; by vm_compute]|]. do 2 (constructor; [by split|]).
  constructor; [split; [done|]|constructor]. apply wf_array. split; [done|].
  repeat (constructor; [first [by apply Hb; vm_compute | done]|]). constructor.
Qed.

Lemma honest_proposer_safe_witness :
  @ants_crdt_verify toy_blake3 toy_ed25519 (Some (encode demo_accusation)) tt <> Ok tt tt.
Proof.
  apply (@honest_proposer_safe toy_blake3 toy_blake3_laws toy_ed25519 4 (replicate 32 5) 5 3000000 false
    demo_view_proofs demo_events 4 (replicate 4 no_finding) 0 (demo_honest_out.1, 2) demo_honest_block 400
    (replicate 400 0) demo_honest_bytes.1 demo_honest_bytes.2 demo_subject 5 (replicate 64 0)
    (demo_equivocation [1] [2; 3]) 0 1 []).
  - done.
  - exact sample_hash.
  - done.
  - done.
  - exact demo_view_ok.
  - by vm_compute.
  - constructor; [|constructor]. split; [by_decision|]. split; [by vm_compute|exact demo_equivocation_accepted].
  - exact demo_proposal_made.
  - by vm_compute.
  - by vm_compute.
  - exact demo_honest_written.
  - by vm_compute.
  - exact demo_accusation_document.
  - split; apply collision_free_forall; by_decision.
Defined.
