(* ===== verification/RepBag.v ===== *)
(** * Selective disclosure and compact summaries (src/reputation/identity/src/reputation.c)

    The receipt-bag Merkle tree, the proof of A >= b over a revealed subset,
    and the signed summary with its audit.  The tree code is a copy of
    chain.c's with other names and another leaf hash; the definitions of
    Chain.v are used where the two are the same line for line.  A pointer to
    a path with its length is a byte string. *)

From stdpp Require Import strings.
From S2P Require Import Prelude Cbor CborKv Crypto Crdt Chain Reputation.
Import Crdt Chain Reputation.

Module RepBag.

(** ** Data *)

Definition ANTS_REP_HASH_SIZE : Z := 32.
Definition ANTS_REP_BAG_ROOT_CONTEXT : string := "ants-v1-receipt-bag-root".
Definition ANTS_REP_SUMMARY_MAX_BUCKETS : Z := 256.
Definition ANTS_REP_SUMMARY_BODY_ENCODED_MAX : Z := 5120.
Definition ANTS_REP_SUMMARY_ENCODED_MAX : Z := 5248.

Definition REP_MERKLE_LEAF_PREFIX : Z := 0x00.
Definition REP_MERKLE_EMPTY_PREFIX : Z := 0x02.

Record ants_reputation_bag_opening_t : Type := mk_opening {
  op_receipt : ants_reputation_receipt_t; op_index : Z; op_path : option bytes
}.

Record ants_reputation_summary_bucket_t : Type := mk_bucket { bucket_index : Z; total_decayed_uncs : Z }.

(** [n_buckets] is the length of the list [buckets] points at. *)
Record ants_reputation_summary_t : Type := mk_rep_summary {
  sm_peer_id : bytes; sm_bag_root : bytes; sm_eval_time : Z; sm_bucket_width : Z;
  sm_buckets : list ants_reputation_summary_bucket_t; sm_sig : bytes
}.

Section bag.
Context `{B : Blake3}.

(** ** The tree *)

Definition receipt_leaf_hash (r : ants_reputation_receipt_t) : action unit bytes :=
  let* (body, body_len) := receipt_body_local r in
  local_hash (
    ants_blake3_init ;*
    ants_blake3_update (Some [REP_MERKLE_LEAF_PREFIX]) 1 ;*
    ants_blake3_update (Some body) body_len ;*
    ants_blake3_update (Some (server_sig r)) ANTS_REP_SIG_SIZE ;*
    ants_blake3_update (Some (client_sig r)) ANTS_REP_SIG_SIZE ;*
    ants_blake3_final).

Definition rep_node_hash (left right : bytes) : action unit bytes := node_hash left right.

Definition rep_empty_root : action unit bytes :=
  fun _ => ants_blake3_hash (Some [REP_MERKLE_EMPTY_PREFIX]) 1.

Definition rep_subtree_root_range (receipts : list ants_reputation_receipt_t) (lo hi : Z) : action unit bytes :=
  subtree_root_range receipt_leaf_hash receipts lo hi.

Definition rep_merkle_path_len (index n_leaves : Z) : action unit Z := merkle_path_len index n_leaves.

(** [for (i = 1; i < n; i++)]: the receipt before and its leaf hash. *)
Fixpoint ordered_from (prev : ants_reputation_receipt_t) (prev_leaf : bytes)
  (receipts : list ants_reputation_receipt_t) : action unit bool :=
  match receipts with
  | [] => ret true
  | r :: rest =>
    let* cur_leaf := receipt_leaf_hash r in
    if timestamp_unix_s r <? timestamp_unix_s prev then ret false
    else if (timestamp_unix_s r =? timestamp_unix_s prev) && (memcmp cur_leaf prev_leaf <=? 0) then ret false
    else ordered_from r cur_leaf rest
  end.

(** [receipts[0]] is read without a test. *)
Definition receipts_canonical_ordered (receipts : list ants_reputation_receipt_t) : action unit bool :=
  match receipts with
  | [] => fun _ => UB
  | r :: rest => let* leaf := receipt_leaf_hash r in ordered_from r leaf rest
  end.

Definition derive_bag_root (peer_id merkle_root : bytes) : action unit bytes :=
  local_hash (
    ants_blake3_init_derive ANTS_REP_BAG_ROOT_CONTEXT ;*
    ants_blake3_update (Some peer_id) ANTS_REP_PEER_ID_SIZE ;*
    ants_blake3_update (Some merkle_root) ANTS_REP_HASH_SIZE ;*
    ants_blake3_final).

Definition ants_reputation_bag_root (receipts : option (list ants_reputation_receipt_t)) (n : Z) (peer_id : bytes)
  : action unit bytes :=
  if is_null receipts && negb (n =? 0) then fail ANTS_ERROR_INVALID_ARG
  else if ANTS_REP_MAX_RECEIPTS <? n then fail ANTS_ERROR_INVALID_ARG
  else
    let* merkle_root :=
      if n =? 0 then rep_empty_root
      else
        let* rs := deref (first_n (default [] receipts) n) in
        let* ordered := receipts_canonical_ordered rs in
        if negb ordered then fail ANTS_ERROR_NON_CANONICAL
        else rep_subtree_root_range rs 0 n in
    derive_bag_root peer_id merkle_root.

(** The state is the path buffer and [*out_path_len]; the collecting loop is
    chain.c's. *)
Definition ants_reputation_bag_prove (receipts : option (list ants_reputation_receipt_t)) (n index path_cap : Z)
  : action prove_out unit :=
  match receipts with
  | None => fail ANTS_ERROR_INVALID_ARG
  | Some rs =>
    if (n =? 0) || (n <=? index) then fail ANTS_ERROR_INVALID_ARG
    else if ANTS_REP_MAX_RECEIPTS <? n then fail ANTS_ERROR_INVALID_ARG
    else
      let* rs := deref (first_n rs n) in
      let* ordered := pure_call (receipts_canonical_ordered rs) in
      if negb ordered then fail ANTS_ERROR_NON_CANONICAL
      else
        let* len := pure_call (rep_merkle_path_len index n) in
        let need_bytes := u64 (len * ANTS_REP_HASH_SIZE) in
        if path_cap <? need_bytes then
          modify (fun st => (st.1, need_bytes)) ;* fail ANTS_ERROR_BUFFER_TOO_SMALL
        else
          let* written := prove_loop receipt_leaf_hash 65 rs index n 0 0 in
          modify (fun st => (st.1, u64 (written * ANTS_REP_HASH_SIZE)))
  end.

(** The climbing loop is the one of [cp_fold_to_root]. *)
Definition ants_reputation_bag_verify_inclusion (receipt : ants_reputation_receipt_t) (index n : Z)
  (path : option bytes) (peer_id bag_root : bytes) : action unit bool :=
  match path with
  | None => fail ANTS_ERROR_INVALID_ARG
  | Some path =>
    if (n =? 0) || (n <=? index) then fail ANTS_ERROR_INVALID_ARG
    else if ANTS_REP_MAX_RECEIPTS <? n then fail ANTS_ERROR_INVALID_ARG
    else
      let* len := rep_merkle_path_len index n in
      if negb (zlen path =? u64 (len * ANTS_REP_HASH_SIZE)) then fail ANTS_ERROR_INVALID_ARG
      else
        let* cur := receipt_leaf_hash receipt in
        let* (cur, consumed) := fold_loop 65 index n 0 path cur in
        let* derived := derive_bag_root peer_id cur in
        ret ((u64 (consumed * ANTS_REP_HASH_SIZE) =? zlen path) && (memcmp derived bag_root =? 0))
  end.

(** ** Proving A >= b *)

Context `{Ed : Ed25519}.

(** What select_for_bound writes: [out_indices], [*out_count] and
    [*out_reached]. *)
Record select_out : Type := mk_select { so_indices : list Z; so_count : Z; so_reached : bool }.

(** [for (i = n; i-- > 0;)] over the receipts below [i], last first; [count]
    and [acc] are locals. *)
Fixpoint select_loop (peer_id : bytes) (now_unix_s : Z) (params : ants_reputation_params_t) (b indices_cap : Z)
  (below : list ants_reputation_receipt_t) (count acc : Z) : action select_out unit :=
  match below with
  | [] => modify (fun st => mk_select (so_indices st) count false)
  | r :: rest =>
    let next := select_loop peer_id now_unix_s params b indices_cap rest in
    let* ok := pure_call (ants_reputation_receipt_verify r) in
    if negb ok then next count acc
    else if negb (memcmp (server r) peer_id =? 0) then next count acc
    else if now_unix_s <? timestamp_unix_s r then next count acc
    else if count =? indices_cap then
      modify (fun st => mk_select (so_indices st) count (so_reached st)) ;* fail ANTS_ERROR_BUFFER_TOO_SMALL
    else
      let* st := get in
      let* indices := deref (set_at (so_indices st) count (zlen rest)) in
      modify (fun st => mk_select indices (so_count st) (so_reached st)) ;*
      let count := size_add count 1 in
      let acc := sat_add_u64 acc (receipt_a_contribution r now_unix_s params) in
      if b <=? acc then modify (fun st => mk_select (so_indices st) count true)
      else next count acc
  end.

Definition degenerate (params : ants_reputation_params_t) : bool :=
  (bin_width_s params =? 0) || (decay_ratio_a_q32 params =? 0).

Definition ants_reputation_bag_select_for_bound (receipts : option (list ants_reputation_receipt_t)) (n : Z)
  (peer_id : bytes) (now_unix_s : Z) (params : option ants_reputation_params_t) (b indices_cap : Z)
  : action select_out unit :=
  match receipts, params with
  | Some rs, Some params =>
    if (n =? 0) || (ANTS_REP_MAX_RECEIPTS <? n) then fail ANTS_ERROR_INVALID_ARG
    else if degenerate params then fail ANTS_ERROR_INVALID_ARG
    else
      let* rs := deref (first_n rs n) in
      let* ordered := pure_call (receipts_canonical_ordered rs) in
      if negb ordered then fail ANTS_ERROR_NON_CANONICAL
      else
        modify (fun st => mk_select (so_indices st) 0 (b =? 0)) ;*
        if b =? 0 then ret tt
        else select_loop peer_id now_unix_s params b indices_cap (rev rs) 0 0
  | _, _ => fail ANTS_ERROR_INVALID_ARG
  end.

(** [for (j = 0; j < i; j++)] *)
Fixpoint index_seen (index : Z) (before : list ants_reputation_bag_opening_t) : bool :=
  match before with
  | [] => false
  | op :: rest => if op_index op =? index then true else index_seen index rest
  end.

(** The loop over the openings that [verify_bound] and [audit_bucket] share;
    [extra] is the test the audit adds.  The openings before [i], and from [i]
    on; [None] is the early return with a false verdict. *)
Fixpoint openings_loop (n : Z) (peer_id bag_root : bytes) (now_unix_s : Z) (params : ants_reputation_params_t)
  (extra : ants_reputation_receipt_t -> bool)
  (before after : list ants_reputation_bag_opening_t) (acc : Z) : action unit (option Z) :=
  match after with
  | [] => ret (Some acc)
  | op :: rest =>
    if n <=? op_index op then ret None
    else if index_seen (op_index op) before then ret None
    else
      let* sig_ok := ants_reputation_receipt_verify (op_receipt op) in
      if negb sig_ok then ret None
      else if negb (memcmp (server (op_receipt op)) peer_id =? 0) then ret None
      else if now_unix_s <? timestamp_unix_s (op_receipt op) then ret None
      else if negb (extra (op_receipt op)) then ret None
      else
        match op_path op with
        | None => ret None
        | Some path =>
          let* len := rep_merkle_path_len (op_index op) n in
          if negb (zlen path =? u64 (len * ANTS_REP_HASH_SIZE)) then ret None
          else
            let* inc_ok :=
              ants_reputation_bag_verify_inclusion (op_receipt op) (op_index op) n (op_path op) peer_id bag_root in
            if negb inc_ok then ret None
            else
              openings_loop n peer_id bag_root now_unix_s params extra (before ++ [op]) rest
                (sat_add_u64 acc (receipt_a_contribution (op_receipt op) now_unix_s params))
        end
  end.

Definition reaches (bound : Z) (acc : option Z) : bool :=
  match acc with None => false | Some acc => bound <=? acc end.

Definition ants_reputation_bag_verify_bound (openings : option (list ants_reputation_bag_opening_t)) (k n : Z)
  (peer_id bag_root : bytes) (now_unix_s : Z) (params : option ants_reputation_params_t) (b : Z)
  : action unit bool :=
  match params with
  | None => fail ANTS_ERROR_INVALID_ARG
  | Some params =>
    if is_null openings && negb (k =? 0) then fail ANTS_ERROR_INVALID_ARG
    else if (ANTS_REP_MAX_RECEIPTS <? k) || (ANTS_REP_MAX_RECEIPTS <? n) then fail ANTS_ERROR_INVALID_ARG
    else if degenerate params then fail ANTS_ERROR_INVALID_ARG
    else
      let* ops := deref (first_n (default [] openings) k) in
      let* acc := openings_loop n peer_id bag_root now_unix_s params (fun _ => true) [] ops 0 in
      ret (reaches b acc)
  end.
End bag.
End RepBag.
