(* ===== verification/RepBagTree.v ===== *)
(** * The receipt-bag commitment (reputation.c)

    The root, the inclusion paths and their verification are those of the
    reference tree of Merkle.v over the bytes of the receipts, bound to the
    peer. *)

From stdpp Require Import strings.
From S2P Require Import Prelude Cbor CborSpec CborTrack CborEnc CborContract CborKv CborRecord CborCodec.
From S2P Require Import CborParse Crypto Merkle Crdt CrdtMerkle BondCodec Chain ChainPattern ChainCommit.
From S2P Require Import Reputation RepFixed RepCompute RepBag.
Import Crdt Chain Reputation RepBag.

#[local] Arguments zlen {A} l : simpl never.

(** The field types of the C struct, signatures included. *)
Definition receipt_typed (r : ants_reputation_receipt_t) : Prop :=
  receipt_ok r /\ zlen (server_sig r) = ANTS_REP_SIG_SIZE /\ zlen (client_sig r) = ANTS_REP_SIG_SIZE.

Lemma typed_ok rs : Forall receipt_typed rs -> Forall receipt_ok rs.
Proof. intros H. eapply Forall_impl; [exact H|]. by intros r []. Qed.

(** The bytes below a leaf. *)
Definition receipt_data (r : ants_reputation_receipt_t) : bytes :=
  encode (receipt_cbor r) ++ server_sig r ++ client_sig r.

Lemma receipt_data_inj r r' : receipt_typed r -> receipt_typed r' -> receipt_data r = receipt_data r' -> r = r'.
Proof.
  intros (Hr & Hs & Hc) (Hr' & Hs' & Hc') He. unfold receipt_data in He.
  destruct (encode_prefix_free _ _ _ _ (receipt_wf r Hr) (receipt_wf r' Hr') He) as [Hd Hsig].
  apply app_inj_1 in Hsig as [Hss Hcc]; [|zlia].
  destruct r, r'. cbn in *. by injection Hd as -> -> -> -> ->; subst.
Qed.

Section tree.
Context `{B : Blake3} {Laws : Blake3Laws B}.

Definition receipt_leaf (r : ants_reputation_receipt_t) : bytes := leaf (receipt_data r).

Lemma receipt_leaf_size r : zlen (receipt_leaf r) = 32.
Proof. apply digest_size. Qed.

Lemma update_prefix ctx b n :
  0 < n <= zlen b -> ants_blake3_update (Some b) n ctx = Ok (blake3_hasher_update ctx (take (Z.to_nat n) b)) tt.
Proof.
  intros Hn. unfold ants_blake3_update. cbn [is_null andb]. bdecide.
  pose proof (slice_mid [] (take (Z.to_nat n) b) (drop (Z.to_nat n) b)) as H. cbn [app] in H.
  replace (zlen (take (Z.to_nat n) b)) with n in H by (unfold zlen in *; rewrite length_take; lia).
  change (zlen (@nil Z)) with 0 in H. rewrite take_drop in H. by rewrite H.
Qed.

Lemma receipt_leaf_hash_eq r u : receipt_typed r -> receipt_leaf_hash r u = Ok u (receipt_leaf r).
Proof.
  intros (Hr & Hs & Hc). unfold receipt_leaf_hash.
  destruct (body_local r u Hr) as (body & He & Ht). rewrite (bind_Ok _ _ _ _ _ He). clear He.
  unfold receipt_leaf, leaf, leaf_input, receipt_data.
  pose proof (encode_zlen_ne (receipt_cbor r)). pose proof (zlen_nonneg (encode (receipt_cbor r))).
  set (doc := encode (receipt_cbor r)) in *. clearbody doc.
  assert (Hlen : zlen doc <= zlen body).
  { apply (f_equal length) in Ht. rewrite length_take in Ht. unfold zlen. lia. }
  unfold local_hash, bind, ants_blake3_init.
  rewrite (update_sized _ [REP_MERKLE_LEAF_PREFIX] 1) by done.
  rewrite update_prefix by lia. rewrite zlen_to_nat, Ht.
  rewrite !update_sized by done. unfold ants_blake3_final. rewrite !update_app, <- ?app_assoc. done.
Qed.

(** ** Canonical order *)

Definition bag_lt (r r' : ants_reputation_receipt_t) : Prop :=
  timestamp_unix_s r < timestamp_unix_s r' \/
  timestamp_unix_s r = timestamp_unix_s r' /\ memcmp (receipt_leaf r) (receipt_leaf r') < 0.

#[export] Instance bag_lt_dec r r' : Decision (bag_lt r r').
Proof. unfold bag_lt. apply _. Defined.

#[export] Instance bag_lt_trans : Transitive bag_lt.
Proof.
  intros a b c [|[Hab Hm]] [|[Hbc Hm']]; unfold bag_lt; [left; lia..|]. right. split; [lia|].
  apply (memcmp_trans _ (receipt_leaf b)); rewrite ?receipt_leaf_size; done.
Qed.

Lemma bag_lt_irrefl r : ~ bag_lt r r.
Proof. intros [|[_ H]]; [lia|]. by apply memcmp_irrefl in H. Qed.

(** Strictly ascending by time, then by leaf hash. *)
Fixpoint canonical_bag (rs : list ants_reputation_receipt_t) : bool :=
  match rs with
  | r :: (r' :: _) as rs' => bool_decide (bag_lt r r') && canonical_bag rs'
  | _ => true
  end.

Lemma canonical_cons r r' rs :
  canonical_bag (r :: r' :: rs) = bool_decide (bag_lt r r') && canonical_bag (r' :: rs).
Proof. reflexivity. Qed.

Lemma canonical_sorted rs : canonical_bag rs = true <-> StronglySorted bag_lt rs.
Proof.
  split.
  - intros H. apply Sorted_StronglySorted; [exact bag_lt_trans|]. induction rs as [|r rs IH]; [constructor|].
    destruct rs as [|r' rs]; [by repeat constructor|]. rewrite canonical_cons in H.
    apply andb_true_iff in H as [Hlt%bool_decide_eq_true H]. constructor; [by apply IH|by constructor].
  - induction 1 as [|r rs Hs IH Hr]; [done|]. destruct rs as [|r' rs]; [done|]. rewrite canonical_cons.
    rewrite IH, andb_true_r. apply bool_decide_eq_true. by apply Forall_inv in Hr.
Qed.

Lemma canonical_nodup rs : canonical_bag rs = true -> NoDup rs.
Proof.
  rewrite canonical_sorted. induction 1 as [|r rs Hs IH Hr]; constructor; [|done].
  intros Hin. rewrite Forall_forall in Hr. by apply (bag_lt_irrefl r), Hr.
Qed.

Lemma ordered_from_eq rs u : forall r, receipt_typed r -> Forall receipt_typed rs ->
  ordered_from r (receipt_leaf r) rs u = Ok u (canonical_bag (r :: rs)).
Proof.
  induction rs as [|r' rs IH]; intros r Hr Hrs; [done|]. apply Forall_cons in Hrs as [Hr' Hrs].
  cbn [ordered_from]. rewrite (bind_Ok _ _ _ _ _ (receipt_leaf_hash_eq r' u Hr')).
  rewrite canonical_cons.
  assert (Hm : (memcmp (receipt_leaf r') (receipt_leaf r) <=? 0) = negb (bool_decide (memcmp (receipt_leaf r) (receipt_leaf r') < 0))).
  { rewrite memcmp_opp. destruct (Z.leb_spec (- memcmp (receipt_leaf r) (receipt_leaf r')) 0) as [|]; symmetry.
    - rewrite bool_decide_false; [done|lia].
    - rewrite bool_decide_true; [done|lia]. }
  destruct (Z.ltb_spec (timestamp_unix_s r') (timestamp_unix_s r)) as [|Hge].
  { rewrite bool_decide_false; [done|]. unfold bag_lt. lia. }
  destruct (Z.eqb_spec (timestamp_unix_s r') (timestamp_unix_s r)) as [He|Hne]; cbn [andb].
  - rewrite Hm. destruct (decide (memcmp (receipt_leaf r) (receipt_leaf r') < 0)) as [Hl|Hl].
    + rewrite (bool_decide_true (memcmp _ _ < 0)), (bool_decide_true (bag_lt r r')) by (done || right; lia).
      cbn [negb andb]. by apply IH.
    + rewrite (bool_decide_false (memcmp _ _ < 0)), (bool_decide_false (bag_lt r r')); [done| |done].
      intros [|[]]; lia.
  - rewrite (bool_decide_true (bag_lt r r')) by (left; lia). cbn [andb]. by apply IH.
Qed.

Lemma canonical_ordered_eq rs u : rs <> [] -> Forall receipt_typed rs ->
  receipts_canonical_ordered rs u = Ok u (canonical_bag rs).
Proof.
  intros Hne Hrs. destruct rs as [|r rs]; [done|]. apply Forall_cons in Hrs as [Hr Hrs].
  cbn [receipts_canonical_ordered]. rewrite (bind_Ok _ _ _ _ _ (receipt_leaf_hash_eq r u Hr)).
  by apply ordered_from_eq.
Qed.

(** ** The root *)

(** BLAKE3.derive_key over the peer and the root of the tree. *)
Definition bag_commitment (peer m : bytes) : bytes :=
  blake3_hasher_finalize
    (blake3_hasher_update (blake3_hasher_init_derive_key ANTS_REP_BAG_ROOT_CONTEXT) (peer ++ m)).

Definition bag_tree (rs : list ants_reputation_receipt_t) : bytes :=
  match rs with [] => digest [REP_MERKLE_EMPTY_PREFIX] | _ => merkle_root (map receipt_leaf rs) end.

Lemma bag_tree_size rs : zlen (bag_tree rs) = 32.
Proof.
  destruct rs as [|r rs]; [apply digest_size|]. cbn [bag_tree]. apply root_sized; [|done].
  apply leaves_hashes, receipt_leaf_size.
Qed.

Lemma derive_bag_root_eq peer m u :
  zlen peer = 32 -> zlen m = 32 -> derive_bag_root peer m u = Ok u (bag_commitment peer m).
Proof.
  intros Hp Hm. unfold derive_bag_root, local_hash, bind, ants_blake3_init_derive.
  rewrite !update_sized by done. unfold ants_blake3_final. by rewrite update_app.
Qed.

Lemma bag_cap n : n <= ANTS_REP_MAX_RECEIPTS -> n <= 2 ^ ANTS_CHAIN_MERKLE_MAX_DEPTH.
Proof. unfold ANTS_REP_MAX_RECEIPTS, ANTS_CHAIN_MERKLE_MAX_DEPTH. lia. Qed.

Lemma bag_root_eq rs peer u :
  Forall receipt_typed rs -> zlen rs <= ANTS_REP_MAX_RECEIPTS -> zlen peer = 32 ->
  ants_reputation_bag_root (Some rs) (zlen rs) peer u =
    if canonical_bag rs then Ok u (bag_commitment peer (bag_tree rs)) else Err u ANTS_ERROR_NON_CANONICAL.
Proof.
  intros Hrs Hn Hp. destruct u. unfold ants_reputation_bag_root. cbn [is_null andb default]. bdecide.
  destruct rs as [|r rs].
  { cbn [zlen length]. change (zlen (@nil ants_reputation_receipt_t)) with 0. cbn [Z.eqb canonical_bag].
    erewrite bind_Ok by reflexivity. apply derive_bag_root_eq; [done|apply (bag_tree_size [])]. }
  pose proof (zlen_nonneg rs). rewrite (proj2 (Z.eqb_neq (zlen (r :: rs)) 0)) by (rewrite zlen_cons; lia).
  rewrite bind_assoc, first_n_all. unfold deref, bind at 1. rewrite bind_assoc.
  rewrite (bind_Ok _ _ _ _ _ (canonical_ordered_eq (r :: rs) tt ltac:(done) Hrs)).
  destruct (canonical_bag (r :: rs)); [|done]. cbn [negb].
  assert (Hroot : rep_subtree_root_range (r :: rs) 0 (zlen (r :: rs)) tt = Ok tt (bag_tree (r :: rs))).
  { unfold rep_subtree_root_range.
    rewrite (subtree_root_range_ok receipt_leaf_hash receipt_leaf _ receipt_leaf_hash_eq receipt_leaf_size);
      [|rewrite zlen_cons; lia|done|rewrite Z.sub_0_r; by apply bag_cap|done].
    rewrite Z.sub_0_r, zlen_to_nat, drop_0, take_ge by lia. done. }
  rewrite (bind_Ok _ _ _ _ _ Hroot). apply derive_bag_root_eq; [done|apply bag_tree_size].
Qed.

(** ** Paths *)

Definition bag_path (rs : list ants_reputation_receipt_t) (i : nat) : bytes := leaf_path (map receipt_leaf rs) i.

Lemma bag_leaves_hashes rs : hashes (map receipt_leaf rs).
Proof. apply leaves_hashes, receipt_leaf_size. Qed.

Lemma zlen_bag_path rs i r :
  rs !! i = Some r -> zlen (bag_path rs i) = proof_size (Z.of_nat i) (zlen rs) * 32.
Proof.
  intros Hi%(leaf_lookup receipt_leaf). rewrite <- (zlen_leaves receipt_leaf rs).
  by apply (zlen_leaf_path _ _ _ (bag_leaves_hashes rs) Hi).
Qed.

Lemma bag_prove_guards rs i cap u :
  (i < length rs)%nat -> Forall receipt_typed rs -> zlen rs <= ANTS_REP_MAX_RECEIPTS ->
  ants_reputation_bag_prove (Some rs) (zlen rs) (Z.of_nat i) cap u =
    (let need := proof_size (Z.of_nat i) (zlen rs) * 32 in
     if negb (canonical_bag rs) then Err u ANTS_ERROR_NON_CANONICAL
     else if cap <? need then Err (u.1, need) ANTS_ERROR_BUFFER_TOO_SMALL
     else (let* written := prove_loop receipt_leaf_hash 65 rs (Z.of_nat i) (zlen rs) 0 0 in
           modify (fun st => (st.1, u64 (written * ANTS_REP_HASH_SIZE)))) u).
Proof.
  intros Hlt Hrs Hn. unfold ants_reputation_bag_prove.
  rewrite (proj2 (Z.eqb_neq _ _)) by zlia. repeat bdecide. cbn [orb].
  rewrite first_n_all. unfold deref, bind at 1. unfold bind at 1, pure_call at 1.
  rewrite canonical_ordered_eq by (done || (intros E; rewrite E in Hlt; cbn in Hlt; lia)).
  destruct (canonical_bag rs); [|done]. cbn [negb].
  pose proof (proof_size_depth (Z.of_nat i) (zlen rs) (bag_cap _ Hn)) as Hd.
  change ANTS_CHAIN_MERKLE_MAX_DEPTH with 32 in Hd. unfold ANTS_REP_MAX_RECEIPTS in Hn.
  unfold rep_merkle_path_len, merkle_path_len, pure_call, bind at 1. rewrite cp_path_len_eq by zlia.
  change ANTS_REP_HASH_SIZE with 32. rewrite (u64_small (_ * 32)) by (red; lia). cbv zeta. by bcase.
Qed.

Lemma bag_prove_eq rs i r cap buf old :
  rs !! i = Some r -> Forall receipt_typed rs -> zlen rs <= ANTS_REP_MAX_RECEIPTS ->
  canonical_bag rs = true -> zlen (bag_path rs i) <= cap <= zlen buf ->
  exists rest, zlen (bag_path rs i ++ rest) = zlen buf /\
    ants_reputation_bag_prove (Some rs) (zlen rs) (Z.of_nat i) cap (buf, old) =
      Ok (bag_path rs i ++ rest, zlen (bag_path rs i)) tt.
Proof.
  intros Hi Hrs Hn Hcan Hc. pose proof (lookup_lt_Some _ _ _ Hi) as Hlt. pose proof (bag_cap _ Hn) as Hn'.
  rewrite bag_prove_guards, Hcan by done. cbv zeta. cbn [negb]. pose proof (zlen_bag_path rs i r Hi) as Hz. bdecide.
  pose proof (proof_size_depth (Z.of_nat i) (zlen rs) Hn') as Hd. change ANTS_CHAIN_MERKLE_MAX_DEPTH with 32 in Hd.
  destruct (prove_path receipt_leaf_hash receipt_leaf _ receipt_leaf_hash_eq receipt_leaf_size rs i r buf old)
    as (rest & Hr & He); try done; [unfold bag_path in Hz, Hc; lia|].
  exists rest. split; [done|]. erewrite bind_Ok by exact He. unfold modify. cbn [fst snd].
  change ANTS_REP_HASH_SIZE with 32. rewrite u64_small by (red; lia). by rewrite Hz.
Qed.

(** ** Inclusion *)

(** The root a path leads to from a receipt at a position. *)
Definition inclusion_root (r : ants_reputation_receipt_t) (i n : Z) (path : bytes) : option bytes :=
  climb (turns i n) (chunks (Z.to_nat (proof_size i n)) path) (receipt_leaf r).

Definition included (peer root : bytes) (r : ants_reputation_receipt_t) (i n : Z) (path : bytes) : Prop :=
  zlen path = proof_size i n * 32 /\ exists m, inclusion_root r i n path = Some m /\ bag_commitment peer m = root.

#[export] Instance included_dec peer root r i n path : Decision (included peer root r i n path).
Proof.
  unfold included. apply and_dec; [apply _|].
  destruct (inclusion_root r i n path) as [m|]; [|right; by intros (? & ? & ?)].
  destruct (decide (bag_commitment peer m = root)) as [He|He]; [left; by exists m|].
  right. by intros (? & [= <-] & ?).
Defined.

Lemma verify_inclusion_eq r i n path peer root u :
  receipt_typed r -> 0 <= i < n -> n <= ANTS_REP_MAX_RECEIPTS -> zlen peer = 32 -> zlen root = 32 ->
  ants_reputation_bag_verify_inclusion r i n (Some path) peer root u =
    if zlen path =? proof_size i n * 32 then Ok u (bool_decide (included peer root r i n path))
    else Err u ANTS_ERROR_INVALID_ARG.
Proof.
  intros Hr Hi Hn Hpeer Hroot. unfold ants_reputation_bag_verify_inclusion.
  rewrite (proj2 (Z.eqb_neq n 0)) by lia. repeat bdecide. cbn [orb].
  pose proof (proof_size_depth i n (bag_cap n Hn)) as Hd. change ANTS_CHAIN_MERKLE_MAX_DEPTH with 32 in Hd.
  unfold ANTS_REP_MAX_RECEIPTS in Hn. change ANTS_REP_HASH_SIZE with 32. unfold rep_merkle_path_len, merkle_path_len.
  rewrite (bind_Ok _ _ _ _ _ (cp_path_len_eq i n u Hi ltac:(zlia))). rewrite (u64_small (_ * 32)) by (red; lia).
  destruct (Z.eqb_spec (zlen path) (proof_size i n * 32)) as [Hp|]; [|done]. cbn [negb].
  destruct (path_hashes (Z.to_nat (proof_size i n)) path) as (sibs & -> & Hs & Hl); [lia|].
  rewrite Z2Nat.id in Hl by lia. rewrite (bind_Ok _ _ _ _ _ (receipt_leaf_hash_eq r u Hr)).
  destruct (fold_loop_climb 65 i n [] sibs (receipt_leaf r) u) as (m & Hc & Hm & Hf);
    [done|zlia|zlia|done|done|apply receipt_leaf_size|].
  change 0 with (zlen (@nil bytes)) at 1. rewrite (bind_Ok _ _ _ _ _ Hf). cbn [app].
  rewrite (bind_Ok _ _ _ _ _ (derive_bag_root_eq peer m u Hpeer Hm)). unfold ret. f_equal.
  rewrite u64_small, Hl, Hp, Z.eqb_refl by (red; lia). cbn [andb].
  assert (Hck : chunks (Z.to_nat (proof_size i n)) (concat sibs) = sibs).
  { rewrite <- Hl. unfold zlen. rewrite Nat2Z.id. by apply chunks_concat. }
  rewrite memcmp_eq by (rewrite Hroot; apply finalize_size). apply bool_decide_ext.
  unfold included, inclusion_root. rewrite Hck, Hc. split.
  - intros He. split; [done|]. by exists m.
  - by intros (_ & ? & [= <-] & ?).
Qed.

(** The paths of the prover lead to the root. *)
Lemma bag_path_root rs i r :
  rs !! i = Some r -> inclusion_root r (Z.of_nat i) (zlen rs) (bag_path rs i) = Some (bag_tree rs).
Proof.
  intros Hi%(leaf_lookup receipt_leaf). pose proof (climb_honest _ _ _ Hi) as Hc.
  destruct (sibs_ok _ _ _ (bag_leaves_hashes rs) Hi) as [Hh Hs]. cbv zeta in Hs.
  unfold inclusion_root, bag_path, leaf_path. rewrite (zlen_leaves receipt_leaf rs) in *.
  rewrite <- Hs, zlen_to_nat, chunks_concat, Hc by done. by destruct rs.
Qed.

Lemma bag_path_included rs i r peer :
  rs !! i = Some r -> included peer (bag_commitment peer (bag_tree rs)) r (Z.of_nat i) (zlen rs) (bag_path rs i).
Proof. intros Hi. split; [by apply (zlen_bag_path rs i r)|]. exists (bag_tree rs). split; [by apply bag_path_root|done]. Qed.
End tree.
