(* ===== verification/RepDisclose.v ===== *)
(** * Selective disclosure (reputation.c)

    What the verifier of A >= b accepts, that it accepts nothing a committed
    bag does not back, and that the prover's selection is accepted.

    Then: the prover's selection. *)

From stdpp Require Import strings.
From S2P Require Import Prelude Cbor CborKv Crypto BondCodec Merkle Crdt CrdtMerkle Reputation RepFixed.
From S2P Require Import RepCompute Chain ChainCommit RepBag RepBagTree.
Import Crdt Reputation RepBag.

#[local] Arguments zlen {A} l : simpl never.

(** ** Filters and sub-multisets *)

Lemma filter_all {A} (P : A -> Prop) `{!forall x, Decision (P x)} l : Forall P l -> filter P l = l.
Proof. induction 1 as [|x l Hx _ IH]; [done|]. by rewrite filter_cons_True, IH. Qed.

Lemma filter_none {A} (P : A -> Prop) `{!forall x, Decision (P x)} l : Forall (fun x => ~ P x) l -> filter P l = [].
Proof. induction 1 as [|x l Hx _ IH]; [done|]. by rewrite filter_cons_False, IH. Qed.

Lemma Forall_filter {A} (P Q : A -> Prop) `{!forall x, Decision (P x)} l : Forall Q l -> Forall Q (filter P l).
Proof. rewrite !Forall_forall. intros HQ x [_ Hx]%list_elem_of_filter. by apply HQ. Qed.

Lemma filter_submseteq {A} (P : A -> Prop) `{!forall x, Decision (P x)} l k : l ⊆+ k -> filter P l ⊆+ filter P k.
Proof. intros [m Hm]%submseteq_Permutation. rewrite Hm, filter_app. apply submseteq_inserts_r. done. Qed.

Section disclose.
Context `{B : Blake3} {Laws : Blake3Laws B} `{Ed : Ed25519}.
Context (peer : bytes) (now : Z) (params : ants_reputation_params_t).
Context (peer_size : zlen peer = 32) (now_u64 : is_u64 now) (params_good : params_ok params).

(** ** The verifier *)

(** What one receipt adds to A. *)
Definition contribution (r : ants_reputation_receipt_t) : Z :=
  decayed (ncs_value r) (decay_ratio_a_q32 params) ((now - timestamp_unix_s r) / bin_width_s params).

Lemma contribution_u64 r : receipt_ok r -> is_u64 (contribution r).
Proof using params_good now_u64.
  intros (_ & _ & Hv & _). destruct params_good as (Ha & _). unfold is_u64 in *. unfold contribution.
  pose proof (decayed_u64 now now_u64 (ncs_value r) (decay_ratio_a_q32 params)
    ((now - timestamp_unix_s r) / bin_width_s params) Hv ltac:(lia)). lia.
Qed.

Lemma a_terms_eq rs : a_terms peer now params rs = map contribution (bag peer now rs).
Proof. reflexivity. Qed.

(** An opening that passes; [ok] is the test an audit adds. *)
Definition accepted (n : Z) (root : bytes) (ok : ants_reputation_receipt_t -> bool)
  (op : ants_reputation_bag_opening_t) : Prop :=
  op_index op < n /\ counts peer now (op_receipt op) /\ ok (op_receipt op) = true /\
  match op_path op with
  | None => False
  | Some path => included peer root (op_receipt op) (op_index op) n path
  end.

#[export] Instance accepted_dec n root ok op : Decision (accepted n root ok op).
Proof. unfold accepted. destruct (op_path op); apply _. Defined.

(** The field types of an opening. *)
Definition opening_typed (op : ants_reputation_bag_opening_t) : Prop :=
  receipt_typed (op_receipt op) /\ 0 <= op_index op.

Lemma index_seen_eq i ops : index_seen i ops = bool_decide (i ∈ map op_index ops).
Proof.
  induction ops as [|op ops IH]; [done|]. cbn [index_seen map].
  destruct (Z.eqb_spec (op_index op) i) as [<-|Hne].
  - symmetry. apply bool_decide_true. by left.
  - rewrite IH. apply bool_decide_ext. rewrite elem_of_cons. naive_solver.
Qed.

(** One turn of the loop. *)
Lemma openings_step n root ok before op rest acc u :
  opening_typed op -> zlen root = 32 -> n <= ANTS_REP_MAX_RECEIPTS ->
  openings_loop n peer root now params ok before (op :: rest) acc u =
    if bool_decide ((op_index op ∉ map op_index before) /\ accepted n root ok op)
    then openings_loop n peer root now params ok (before ++ [op]) rest
           (sat_add_u64 acc (contribution (op_receipt op))) u
    else Ok u None.
Proof using Laws peer_size now_u64 params_good.
  intros [Hr Hi] Hroot Hn. pose proof (proj1 Hr) as Hrok. cbn [openings_loop]. rewrite index_seen_eq.
  destruct (Z.leb_spec n (op_index op)) as [Hge|Hlt].
  { rewrite bool_decide_false; [done|]. unfold accepted. lia. }
  destruct (decide (op_index op ∈ map op_index before)) as [Hin|Hin].
  { rewrite bool_decide_true, bool_decide_false by tauto. done. }
  rewrite (bool_decide_false (_ ∈ _)) by done. rewrite (bind_Ok _ _ _ _ _ (receipt_verify_eq _ u Hrok)).
  pose proof (valid_eq peer now peer_size (op_receipt op) Hrok) as Hv.
  destruct (decide (counts peer now (op_receipt op))) as [Hc|Hc].
  2: { rewrite (bool_decide_false (_ /\ _)) by (unfold accepted; tauto). rewrite bool_decide_false in Hv by done.
    destruct (signed (op_receipt op)); cbn [negb andb] in *; [|done].
    destruct (memcmp _ _ =? 0); cbn [negb andb] in *; [|done]. by destruct (now <? _). }
  rewrite bool_decide_true in Hv by done. apply andb_true_iff in Hv as [[-> ->]%andb_true_iff Ht%negb_true_iff].
  rewrite Ht. cbn [negb]. destruct (ok (op_receipt op)) eqn:Hok; cbn [negb].
  2: { rewrite bool_decide_false; [done|]. unfold accepted. rewrite Hok. naive_solver. }
  destruct (op_path op) as [path|] eqn:Hpath.
  2: { rewrite bool_decide_false; [done|]. unfold accepted. rewrite Hpath. tauto. }
  pose proof (proof_size_depth (op_index op) n (bag_cap n Hn)) as Hd.
  change Chain.ANTS_CHAIN_MERKLE_MAX_DEPTH with 32 in Hd. pose proof Hn as Hn'. unfold ANTS_REP_MAX_RECEIPTS in Hn'.
  unfold rep_merkle_path_len, Chain.merkle_path_len. change ANTS_REP_HASH_SIZE with 32.
  rewrite (bind_Ok _ _ _ _ _ (cp_path_len_eq (op_index op) n u ltac:(lia) ltac:(zlia))).
  rewrite (u64_small (_ * 32)) by (red; lia).
  pose proof (verify_inclusion_eq (op_receipt op) (op_index op) n path peer root u Hr ltac:(lia) Hn peer_size Hroot) as Hinc.
  destruct (Z.eqb_spec (zlen path) (proof_size (op_index op) n * 32)) as [Hz|Hz]; cbn [negb].
  2: { rewrite bool_decide_false; [done|]. unfold accepted. rewrite Hpath. unfold included. tauto. }
  rewrite (bind_Ok _ _ _ _ _ Hinc).
  destruct (decide (included peer root (op_receipt op) (op_index op) n path)) as [Hy|Hy].
  - rewrite bool_decide_true by done. rewrite bool_decide_true by (unfold accepted; rewrite Hpath; tauto).
    cbn [negb]. rewrite (contribution_eq now params now_u64 params_good) by (done || apply Hc). done.
  - rewrite bool_decide_false by done. rewrite bool_decide_false; [done|]. unfold accepted. rewrite Hpath. tauto.
Qed.

Definition revealed (ops : list ants_reputation_bag_opening_t) : list ants_reputation_receipt_t := map op_receipt ops.

(** Distinct positions, every opening in order. *)
Definition all_accepted (n : Z) (root : bytes) (ok : ants_reputation_receipt_t -> bool)
  (before ops : list ants_reputation_bag_opening_t) : Prop :=
  NoDup (map op_index (before ++ ops)) /\ Forall (accepted n root ok) ops.

#[export] Instance all_accepted_dec n root ok before ops : Decision (all_accepted n root ok before ops).
Proof. unfold all_accepted. apply _. Defined.

Lemma nodup_snoc (l : list Z) x : NoDup l -> (x ∉ l) -> NoDup (l ++ [x]).
Proof. intros Hl Hx. apply NoDup_app. split; [done|]. split; [|apply NoDup_singleton]. set_solver. Qed.

Lemma all_accepted_cons n root ok before op ops :
  NoDup (map op_index before) ->
  all_accepted n root ok before (op :: ops) <->
  ((op_index op ∉ map op_index before) /\ accepted n root ok op) /\ all_accepted n root ok (before ++ [op]) ops.
Proof.
  intros Hb. unfold all_accepted. rewrite <- app_assoc, Forall_cons. cbn [app]. split; [|tauto].
  intros (Hd & Ha & Hr). split_and!; try done.
  rewrite map_app in Hd. apply NoDup_app in Hd as (_ & Hd & _). intros Hin. apply (Hd _ Hin). by left.
Qed.

Lemma openings_loop_eq n root ok ops u :
  Forall opening_typed ops -> zlen root = 32 -> n <= ANTS_REP_MAX_RECEIPTS -> forall before acc,
  NoDup (map op_index before) -> is_u64 acc ->
  openings_loop n peer root now params ok before ops acc u =
    Ok u (if bool_decide (all_accepted n root ok before ops)
          then Some (capped (acc + zsum (map contribution (revealed ops)))) else None).
Proof using Laws peer_size now_u64 params_good.
  intros Hops Hroot Hn. induction Hops as [|op ops Hop Hops IH]; intros before acc Hb Hacc.
  - cbn [openings_loop]. rewrite bool_decide_true; [|by split; [rewrite app_nil_r|]].
    cbn. rewrite Z.add_0_r. unfold ret, capped, is_u64, UINT64_MAX in *. repeat f_equal. lia.
  - rewrite openings_step by done.
    destruct (decide ((op_index op ∉ map op_index before) /\ accepted n root ok op)) as [Ha|Ha].
    + rewrite (bool_decide_true (_ /\ _)) by done. pose proof (contribution_u64 _ (proj1 (proj1 Hop))) as Hc.
      rewrite sat_add_eq by done.
      rewrite IH; [| |apply capped_u64; unfold is_u64 in *; lia].
      * rewrite (bool_decide_ext _ _ (all_accepted_cons n root ok before op ops Hb)). f_equal.
        destruct (decide (all_accepted n root ok (before ++ [op]) ops)) as [Hall|Hall].
        -- rewrite !bool_decide_true by tauto. f_equal. unfold revealed. cbn [map]. rewrite zsum_cons, capped_add, Z.add_assoc; [done|].
           apply zsum_nonneg, Forall_fmap, Forall_fmap, Forall_forall. intros op' Hin. cbn.
           rewrite Forall_forall in Hops. destruct (Hops op' Hin) as [[Hr _] _].
           pose proof (contribution_u64 _ Hr) as Hu. unfold is_u64 in Hu. lia.
        -- rewrite !bool_decide_false by tauto. done.
      * rewrite map_app. cbn [map]. apply nodup_snoc; tauto.
    + rewrite (bool_decide_false (_ /\ _)) by done.
      rewrite bool_decide_false; [done|]. rewrite all_accepted_cons by done. tauto.
Qed.

Lemma not_degenerate : degenerate params = false.
Proof using params_good.
  destruct params_good as (Ha & _ & _ & Hw). unfold degenerate. by rewrite !(proj2 (Z.eqb_neq _ _)) by lia.
Qed.

Definition no_test (r : ants_reputation_receipt_t) : bool := true.

(** What the openings prove. *)
Definition proven (ops : list ants_reputation_bag_opening_t) : Z := capped (zsum (map contribution (revealed ops))).

Lemma verify_bound_eq ops n root b u :
  Forall opening_typed ops -> zlen ops <= ANTS_REP_MAX_RECEIPTS -> n <= ANTS_REP_MAX_RECEIPTS -> zlen root = 32 ->
  ants_reputation_bag_verify_bound (Some ops) (zlen ops) n peer root now (Some params) b u =
    Ok u (bool_decide (all_accepted n root no_test [] ops /\ b <= proven ops)).
Proof using Laws peer_size now_u64 params_good.
  intros Hops Hk Hn Hroot. unfold ants_reputation_bag_verify_bound. cbn [is_null andb default]. repeat bdecide.
  cbn [orb]. rewrite not_degenerate, first_n_all. unfold deref, bind at 1.
  change (fun _ : ants_reputation_receipt_t => true) with no_test.
  rewrite (bind_Ok _ _ _ _ _ (openings_loop_eq n root no_test ops u Hops Hroot Hn [] 0 (NoDup_nil_2) ltac:(done))).
  unfold ret, reaches, proven. rewrite Z.add_0_l. f_equal.
  destruct (decide (all_accepted n root no_test [] ops)).
  - rewrite bool_decide_true by done. apply Bool.eq_iff_eq_true. rewrite Z.leb_le, bool_decide_eq_true. tauto.
  - rewrite bool_decide_false by done. symmetry. apply bool_decide_false. tauto.
Qed.

(** ** Nothing is counted twice *)

(** The byte strings hashed when the bag is committed and when openings are
    checked. *)
Definition bag_inputs (rs : list ants_reputation_receipt_t) : list bytes :=
  [REP_MERKLE_EMPTY_PREFIX] :: map (fun r => leaf_input (receipt_data r)) rs ++
  tree_inputs (length rs) (map receipt_leaf rs).

Definition opening_inputs (n : Z) (op : ants_reputation_bag_opening_t) : list bytes :=
  leaf_input (receipt_data (op_receipt op)) ::
  climb_inputs (turns (op_index op) n) (chunks (Z.to_nat (proof_size (op_index op) n)) (default [] (op_path op)))
    (receipt_leaf (op_receipt op)).

(** No two of them collide, and neither do the roots under the key of the
    peer's commitment. *)
Definition no_collision (rs : list ants_reputation_receipt_t) (n : Z) (ops : list ants_reputation_bag_opening_t) : Prop :=
  collision_free (bag_inputs rs) (concat (map (opening_inputs n) ops)) /\
  Forall (fun op => forall m,
    inclusion_root (op_receipt op) (op_index op) n (default [] (op_path op)) = Some m ->
    bag_commitment peer m = bag_commitment peer (bag_tree rs) -> m = bag_tree rs) ops.

Lemma chunks_hashes k : forall b, Z.of_nat k * 32 <= zlen b -> hashes (chunks k b).
Proof.
  induction k as [|k IH]; intros b Hb; [constructor|]. cbn [chunks]. constructor.
  - unfold zlen in *. rewrite length_take. change ANTS_BLAKE3_HASH_SIZE with 32. lia.
  - apply IH. unfold zlen in *. rewrite length_drop. lia.
Qed.

(** A climb ends in a hash of one of its inputs. *)
Lemma climb_ends_in_digest ts : forall sibs cur d m,
  cur = digest d -> climb ts sibs cur = Some m -> exists x, x ∈ d :: climb_inputs ts sibs cur /\ m = digest x.
Proof.
  induction ts as [|t ts IH]; intros sibs cur d m Hc Hm.
  { destruct sibs; [|done]. injection Hm as <-. exists d. split; [by left|done]. }
  destruct t; cbn [climb climb_inputs] in *.
  3: { by apply (IH sibs cur d m). }
  all: destruct sibs as [|s sibs]; [done|];
    match type of Hm with climb _ _ (node ?a ?b) = _ => destruct (IH sibs (node a b) (node_input a b) m eq_refl Hm) as (x & Hx & ->) end;
    exists x; split; [by right|done].
Qed.

Lemma submseteq_lookups {A} (l xs : list A) (ks : list nat) :
  NoDup ks -> Forall2 (fun k x => l !! k = Some x) ks xs -> xs ⊆+ l.
Proof.
  intros Hnd HF. destruct l as [|d l']; [|set (l := d :: l') in *].
  { destruct HF; [done|discriminate]. }
  set (f := fun k => default d (l !! k)).
  assert (Hxs : xs = f <$> ks).
  { clear Hnd. induction HF as [|k x ks xs Hk _ IH]; [done|]. cbn. unfold f at 1. rewrite Hk. cbn. by f_equal. }
  assert (Hl : l = f <$> seq 0 (length l)).
  { apply list_eq. intros i. rewrite list_lookup_fmap. destruct (decide (i < length l)%nat) as [Hi|Hi].
    - rewrite lookup_seq_lt by done. cbn. unfold f. by destruct (lookup_lt_is_Some_2 l i Hi) as [x ->].
    - rewrite lookup_seq_ge by lia. apply lookup_ge_None_2. lia. }
  rewrite Hxs, Hl at 1. apply fmap_submseteq, NoDup_submseteq; [done|]. intros k Hk.
  apply elem_of_seq. split; [lia|]. apply list_elem_of_lookup in Hk as [j Hj].
  destruct (Forall2_lookup_l _ _ _ _ _ HF Hj) as (x & _ & Hx). apply lookup_lt_Some in Hx. lia.
Qed.

Section committed.
Context (rs : list ants_reputation_receipt_t) (n : Z) (ops : list ants_reputation_bag_opening_t)
  (ok : ants_reputation_receipt_t -> bool).
Context (rs_typed : Forall receipt_typed rs) (ops_typed : Forall opening_typed ops) (n_cap : n <= ANTS_REP_MAX_RECEIPTS).
Context (no_coll : no_collision rs n ops).
Context (all_ok : Forall (accepted n (bag_commitment peer (bag_tree rs)) ok) ops).

Lemma opening_climbs op : op ∈ ops ->
  exists sibs, hashes sibs /\ climb (turns (op_index op) n) sibs (receipt_leaf (op_receipt op)) = Some (bag_tree rs) /\
    opening_inputs n op = leaf_input (receipt_data (op_receipt op)) ::
      climb_inputs (turns (op_index op) n) sibs (receipt_leaf (op_receipt op)) /\
    (forall a b, a ∈ bag_inputs rs -> b ∈ opening_inputs n op -> digest a = digest b -> a = b).
Proof using all_ok no_coll n_cap ops_typed.
  intros Hin. pose proof (proj1 (Forall_forall _ _) all_ok op Hin) as (Hlt & _ & _ & Hp).
  pose proof (proj1 (Forall_forall _ _) ops_typed op Hin) as [_ Hi].
  destruct no_coll as [Hcf Hder]. pose proof (proj1 (Forall_forall _ _) Hder op Hin) as Hd.
  destruct (op_path op) as [path|] eqn:Hop; [|done]. cbn beta in Hd; rewrite Hop in Hd. cbn [default] in Hd.
  destruct Hp as (Hz & m & Hm & He). rewrite (Hd m Hm He) in Hm.
  pose proof (proof_size_depth (op_index op) n (bag_cap n n_cap)).
  exists (chunks (Z.to_nat (proof_size (op_index op) n)) path). split_and!; try done.
  - apply chunks_hashes. lia.
  - unfold opening_inputs. by rewrite Hop.
  - intros a b Ha Hb. apply Hcf; [done|]. apply list_elem_of_In, in_concat. exists (opening_inputs n op).
    split; [apply in_map|]; by apply list_elem_of_In.
Qed.

(** The position of the opened leaf in the committed tree. *)
Lemma opened_subtree t op : rs <> [] ->
  hroot t = merkle_root (map leaf (map receipt_data rs)) ->
  hinputs t ⊆ map leaf_input (map receipt_data rs) ++ tree_inputs (length (map receipt_data rs)) (map leaf (map receipt_data rs)) ->
  op ∈ ops -> subtree t (way_of (turns (op_index op) n)) = Some (HLeaf (receipt_data (op_receipt op))).
Proof using all_ok no_coll n_cap ops_typed rs_typed Laws.
  intros Hne Hr Hin Hop. destruct (opening_climbs op Hop) as (sibs & Hs & Hc & Hi & Hcf). rewrite Hi in Hcf.
  rewrite map_map in Hr, Hin. change (map (fun x => leaf (receipt_data x)) rs) with (map receipt_leaf rs) in Hr, Hin.
  rewrite map_map, length_map in Hin.
  apply (proves_opens t _ _ _ sibs); [|done|].
  - intros a b Ha Hb. apply Hcf; [|done]. unfold bag_inputs. right. by apply Hin.
  - rewrite Hr. fold (receipt_leaf (op_receipt op)). rewrite Hc. by destruct rs.
Qed.

Lemma opened_nonempty op : op ∈ ops -> rs <> [].
Proof using all_ok no_coll n_cap ops_typed.
  intros Hop He. destruct (opening_climbs op Hop) as (sibs & Hs & Hc & Hi & Hcf). rewrite Hi in Hcf.
  destruct (climb_ends_in_digest _ _ _ _ _ eq_refl Hc) as (x & Hx & Hd). rewrite He in Hd. cbn [bag_tree] in Hd.
  apply Hcf in Hd; [|by left|done]. subst x.
  assert (Hno : forall ts sibs cur, [REP_MERKLE_EMPTY_PREFIX] ∉ climb_inputs ts sibs cur).
  { clear. induction ts as [|[] ts IH]; intros sibs cur; cbn [climb_inputs]; try apply not_elem_of_nil; [| |apply IH].
    1, 2: destruct sibs; [apply not_elem_of_nil|]; apply not_elem_of_cons; split; [done|apply IH]. }
  apply elem_of_cons in Hx as [Hx|Hx]; [done|]. by apply Hno in Hx.
Qed.

Lemma revealed_in_bag : NoDup (map op_index ops) -> revealed ops ⊆+ rs.
Proof using all_ok no_coll n_cap ops_typed rs_typed Laws.
  intros Hnd. destruct (decide (ops = [])) as [He|Hops]; [rewrite He; apply submseteq_nil_l|].
  assert (Hne : rs <> []).
  { assert (exists op, op ∈ ops) as [op Hop]; [|by apply (opened_nonempty op)].
    clear -Hops. destruct ops as [|op ?]; [done|]. exists op. by left. }
  destruct (tree_over (map receipt_data rs)) as (t & Hr & Hd & Hin); [by destruct rs|].
  pose proof (fun op => opened_subtree t op Hne Hr Hin) as Hsub.
  set (place := fun i => rank t (way_of (turns i n))).
  apply (submseteq_lookups rs (revealed ops) (place <$> (op_index <$> ops))).
  - apply NoDup_fmap_2_strong; [|exact Hnd].
    intros i j (a & -> & Ha)%list_elem_of_fmap (b & -> & Hb)%list_elem_of_fmap He.
    destruct (decide (op_index a = op_index b)) as [|Hij]; [done|]. exfalso.
    pose proof (proj1 (Forall_forall _ _) all_ok a Ha) as (Hla & _). pose proof (proj1 (Forall_forall _ _) all_ok b Hb) as (Hlb & _).
    pose proof (proj1 (Forall_forall _ _) ops_typed a Ha) as [_ Ha0]. pose proof (proj1 (Forall_forall _ _) ops_typed b Hb) as [_ Hb0].
    revert He. eapply rank_ne; [|by apply Hsub..].
    apply (turns_part 12); [lia|lia|done|]. unfold ANTS_REP_MAX_RECEIPTS in *. lia.
  - unfold revealed. rewrite <- list_fmap_compose. apply Forall2_fmap, Forall_Forall2_diag, Forall_forall.
    intros op Hop. cbn. pose proof (rank_lookup _ _ _ (Hsub op Hop)) as Hl. rewrite Hd in Hl.
    apply list_lookup_fmap_Some in Hl as (r & He & Hl). unfold place. rewrite Hl. f_equal.
    apply receipt_data_inj; [by apply (Forall_lookup_1 _ _ _ _ rs_typed Hl)| |done].
    by apply (Forall_forall _ _) with op in ops_typed as [? _].
Qed.

(** The receipts of the bag that count and pass the test. *)
Lemma revealed_counted :
  NoDup (map op_index ops) -> revealed ops ⊆+ filter (fun r => ok r = true) (bag peer now rs).
Proof using all_ok no_coll n_cap ops_typed rs_typed Laws.
  intros Hnd. assert (Hall : Forall (fun r => counts peer now r /\ ok r = true) (revealed ops)).
  { apply Forall_fmap. eapply Forall_impl; [exact all_ok|]. intros op (_ & Hc & Hk & _). by split. }
  assert (He : filter (fun r => ok r = true) (filter (counts peer now) (revealed ops)) = revealed ops).
  { rewrite (filter_all (counts peer now)), filter_all; [done|..]; eapply Forall_impl; [exact Hall| |exact Hall|]; by intros r []. }
  rewrite <- He. apply filter_submseteq, filter_submseteq, revealed_in_bag, Hnd.
Qed.
End committed.

Lemma zsum_submseteq l k : l ⊆+ k -> Forall (Z.le 0) k -> zsum l <= zsum k.
Proof.
  intros [m Hm]%submseteq_Permutation Hk. rewrite Hm in Hk |- *. apply Forall_app in Hk as [_ Hk].
  pose proof (zsum_nonneg m Hk). clear -H. induction l as [|x l IH]; cbn [app]; rewrite ?zsum_cons; [|lia].
  change (zsum []) with 0. lia.
Qed.

Lemma contributions_nonneg rs : Forall receipt_ok rs -> Forall (Z.le 0) (map contribution rs).
Proof using now_u64 params_good.
  intros Hrs. apply Forall_fmap. eapply Forall_impl; [exact Hrs|]. intros r Hr. cbn.
  pose proof (contribution_u64 r Hr) as Hu. unfold is_u64 in Hu. lia.
Qed.

Lemma bag_ok_receipts rs : Forall receipt_ok rs -> Forall receipt_ok (bag peer now rs).
Proof. apply Forall_filter. Qed.

Lemma proven_bounded rs n ops :
  Forall receipt_typed rs -> Forall opening_typed ops -> n <= ANTS_REP_MAX_RECEIPTS -> no_collision rs n ops ->
  all_accepted n (bag_commitment peer (bag_tree rs)) no_test [] ops -> proven ops <= accumulated peer now params rs.
Proof using Laws now_u64 params_good.
  intros Hrs Hops Hn Hcf [Hnd Hall]. unfold proven, accumulated. fold (a_terms peer now params rs).
  rewrite a_terms_eq. enough (zsum (map contribution (revealed ops)) <= zsum (map contribution (bag peer now rs)))
    by (unfold capped; lia).
  apply zsum_submseteq; [|by apply contributions_nonneg, bag_ok_receipts, typed_ok].
  apply fmap_submseteq. etrans; [apply (revealed_counted rs n ops no_test); done|].
  rewrite filter_all; [done|]. by apply Forall_forall.
Qed.
End disclose.

(** * The prover's selection (reputation.c)

    The receipts chosen to show A >= b: the most recent ones that count, as
    few of them as reach the bound. *)

Section select.
Context `{B : Blake3} {Laws : Blake3Laws B} `{Ed : Ed25519}.
Context (peer : bytes) (now : Z) (params : ants_reputation_params_t).
Context (peer_size : zlen peer = 32) (now_u64 : is_u64 now) (params_good : params_ok params).

Abbreviation contribution := (contribution now params).
Abbreviation total := (fun rs => zsum (map contribution rs)).

(** The chosen receipts with their positions, and whether the bound is
    reached; [below] holds the receipts last first. *)
Fixpoint picks (b acc : Z) (below : list ants_reputation_receipt_t) : list (Z * ants_reputation_receipt_t) * bool :=
  match below with
  | [] => ([], false)
  | r :: rest =>
    if decide (counts peer now r) then
      let acc' := capped (acc + contribution r) in
      if b <=? acc' then ([(zlen rest, r)], true)
      else ((zlen rest, r) :: (picks b acc' rest).1, (picks b acc' rest).2)
    else picks b acc rest
  end.

(** The indices written from [count] on. *)
Definition chosen (st : select_out) (count : Z) (l : list Z) (reached : bool) : select_out :=
  mk_select (take (Z.to_nat count) (so_indices st) ++ l ++ drop (Z.to_nat count + length l) (so_indices st))
    (count + zlen l) reached.

(** The three tests of the loops of the bag. *)
Lemma eligible_tests {T} r (skip take : T) : receipt_ok r ->
  (if negb (signed r) then skip else if negb (memcmp (server r) peer =? 0) then skip
   else if now <? timestamp_unix_s r then skip else take) =
  if decide (counts peer now r) then take else skip.
Proof using peer_size.
  intros Hr. pose proof (valid_eq peer now peer_size r Hr) as Hv.
  destruct (signed r), (memcmp _ _ =? 0), (now <? _); cbn [negb andb] in *.
  all: case_decide; first [done | by rewrite bool_decide_true in Hv | by rewrite bool_decide_false in Hv].
Qed.

Lemma set_index (st : select_out) count x : 0 <= count < zlen (so_indices st) ->
  set_at (so_indices st) count x =
    Some (take (Z.to_nat count) (so_indices st) ++ x :: drop (Z.to_nat count + 1) (so_indices st)).
Proof.
  intros Hc. unfold set_at. repeat bdecide. cbn [andb]. f_equal.
  rewrite insert_take_drop by zlia. by rewrite Nat.add_1_r.
Qed.

Lemma written_step st count x l reached :
  0 <= count < zlen (so_indices st) ->
  chosen (mk_select (take (Z.to_nat count) (so_indices st) ++ x :: drop (Z.to_nat count + 1) (so_indices st))
            (so_count st) (so_reached st)) (count + 1) l reached =
  chosen st count (x :: l) reached.
Proof.
  intros Hc. unfold chosen. cbn [so_indices length].
  assert (Hlt : length (take (Z.to_nat count) (so_indices st)) = Z.to_nat count) by (rewrite length_take; zlia).
  rewrite !Z2Nat.inj_add by lia. change (Z.to_nat 1) with 1%nat. f_equal.
  - rewrite take_app_ge, drop_app_ge by lia. rewrite Hlt.
    replace (Z.to_nat count + 1 - Z.to_nat count)%nat with 1%nat by lia.
    replace (Z.to_nat count + 1 + length l - Z.to_nat count)%nat with (S (length l)) by lia.
    cbn [take drop]. rewrite take_0, drop_drop, <- app_assoc. cbn [app]. do 4 f_equal. lia.
  - rewrite zlen_cons. lia.
Qed.

Lemma select_loop_eq b cap below : Forall receipt_ok below -> cap <= SIZE_MAX -> forall count acc st,
  0 <= count -> count + zlen below <= cap <= zlen (so_indices st) -> is_u64 acc ->
  select_loop peer now params b cap below count acc st =
    Ok (chosen st count (map fst (picks b acc below).1) (picks b acc below).2) tt.
Proof using peer_size now_u64 params_good.
  intros Hb Hcap. induction Hb as [|r rest Hr Hrest IH]; intros count acc st Hc Hlen Hacc.
  { cbn [select_loop picks fst snd map]. unfold modify, chosen. cbn [length app].
    by rewrite Nat.add_0_r, take_drop, zlen_nil, Z.add_0_r. }
  pose proof (zlen_nonneg rest). rewrite zlen_cons in Hlen. cbn [select_loop picks].
  unfold bind at 1, pure_call. rewrite receipt_verify_eq by done.
  etrans; [apply (f_equal (fun m => m st)), eligible_tests, Hr|]. destruct (decide (counts peer now r)) as [Hcnt|Hcnt].
  - cbn beta.
    rewrite (proj2 (Z.eqb_neq count cap)) by lia. unfold get, bind at 1. rewrite set_index by lia.
    unfold deref, bind at 1. unfold modify at 1, bind at 1.
    rewrite size_add_small by zlia. rewrite (contribution_eq now params now_u64 params_good) by (done || apply Hcnt).
    change (decayed _ _ _) with (contribution r). rewrite sat_add_eq by (done || by apply contribution_u64).
    set (st' := mk_select _ _ _). destruct (b <=? capped (acc + contribution r)); cbn [fst snd map].
    + unfold modify. rewrite <- written_step by lia. unfold chosen at 1. cbn [length app].
      rewrite Nat.add_0_r, take_drop, zlen_nil, Z.add_0_r. done.
    + rewrite <- written_step by lia. fold st'. apply IH; [lia| |].
      * subst st'. cbn [so_indices]. unfold zlen in *. rewrite length_app, length_take. cbn [length]. rewrite length_drop. lia.
      * apply capped_u64. pose proof (contribution_u64 now params now_u64 params_good r Hr). unfold is_u64 in *. lia.
  - apply IH; (done || lia).
Qed.

(** ** What is chosen *)

Lemma picks_places b below : forall acc,
  Forall (fun p => 0 <= p.1 < zlen below /\ rev below !! Z.to_nat p.1 = Some p.2 /\ counts peer now p.2) (picks b acc below).1 /\
  NoDup (map fst (picks b acc below).1).
Proof.
  induction below as [|r rest IH]; intros acc; cbn [picks]; [by split; constructor|].
  pose proof (zlen_nonneg rest).
  assert (Hweak : forall l : list (Z * ants_reputation_receipt_t),
    Forall (fun p => 0 <= p.1 < zlen rest /\ rev rest !! Z.to_nat p.1 = Some p.2 /\ counts peer now p.2) l ->
    Forall (fun p => 0 <= p.1 < zlen (r :: rest) /\ rev (r :: rest) !! Z.to_nat p.1 = Some p.2 /\ counts peer now p.2) l).
  { intros l Hl. eapply Forall_impl; [exact Hl|]. intros [i x] (Hi & Hx & Hc). cbn [fst snd] in *.
    rewrite zlen_cons. split; [lia|]. split; [|done]. cbn [rev]. by apply lookup_app_l_Some. }
  assert (Hhere : counts peer now r ->
    0 <= zlen rest < zlen (r :: rest) /\ rev (r :: rest) !! Z.to_nat (zlen rest) = Some r /\ counts peer now r).
  { intros Hc. rewrite zlen_cons, zlen_to_nat. split; [lia|]. split; [|done]. cbn [rev].
    rewrite lookup_app_r by (rewrite length_rev; lia). by rewrite length_rev, Nat.sub_diag. }
  destruct (decide (counts peer now r)) as [Hc|Hc].
  - destruct (b <=? _); cbn [fst snd map].
    + split; [constructor; [by apply Hhere|constructor]|apply NoDup_singleton].
    + destruct (IH (capped (acc + contribution r))) as [Hf Hn]. split; [constructor; [by apply Hhere|by apply Hweak]|].
      constructor; [|done]. intros (p & He & Hp)%list_elem_of_fmap.
      rewrite Forall_forall in Hf. specialize (Hf p Hp). lia.
  - destruct (IH acc) as [Hf Hn]. split; [by apply Hweak|done].
Qed.

(** The most recent that count, and all of them if the bound is not reached. *)
Lemma picks_prefix b below : forall acc,
  map snd (picks b acc below).1 `prefix_of` filter (counts peer now) below /\
  ((picks b acc below).2 = false -> map snd (picks b acc below).1 = filter (counts peer now) below).
Proof.
  induction below as [|r rest IH]; intros acc; cbn [picks]; [done|]. rewrite filter_cons.
  destruct (decide (counts peer now r)) as [Hc|Hc]; [|apply IH].
  destruct (b <=? _); cbn [fst snd map].
  - split; [|done]. by exists (filter (counts peer now) rest).
  - destruct (IH (capped (acc + contribution r))) as [Hp He]. split; [by apply prefix_cons|]. intros H. by rewrite He.
Qed.

Lemma contributions_total_nonneg rs : Forall receipt_ok rs -> 0 <= total rs.
Proof using now_u64 params_good. intros H. by apply zsum_nonneg, contributions_nonneg. Qed.

(** They reach the bound if all that count do, and the last is needed. *)
Lemma picks_reach b below : Forall receipt_ok below -> forall acc, is_u64 acc -> acc < b ->
  let sum := capped (acc + total (map snd (picks b acc below).1)) in
  (picks b acc below).2 = bool_decide (b <= capped (acc + total (filter (counts peer now) below))) /\
  ((picks b acc below).2 = true ->
    b <= sum /\ capped (acc + total (removelast (map snd (picks b acc below).1))) < b).
Proof using now_u64 params_good.
  intros Hok. induction Hok as [|r rest Hr Hrest IH]; intros acc Hacc Hlt; cbn [picks].
  - cbn. split; [|done]. symmetry. apply bool_decide_false. unfold capped, is_u64, UINT64_MAX in *. lia.
  - rewrite filter_cons. destruct (decide (counts peer now r)) as [Hc|Hc]; [|by apply IH].
    pose proof (contribution_u64 now params now_u64 params_good r Hr) as Hu.
    pose proof (contributions_total_nonneg _ (Forall_filter (counts peer now) _ _ Hrest)) as Hnn. cbn beta in Hnn.
    destruct (Z.leb_spec b (capped (acc + contribution r))) as [Hle|Hgt]; cbn [fst snd map].
    + change (removelast [r]) with (@nil ants_reputation_receipt_t). cbn [map]. rewrite !zsum_cons. change (zsum []) with 0. unfold capped, is_u64, UINT64_MAX in *.
      split; [symmetry; apply bool_decide_true; lia|]. intros _. lia.
    + assert (Hacc' : is_u64 (capped (acc + contribution r))) by (apply capped_u64; unfold is_u64 in *; lia).
      destruct (IH _ Hacc' Hgt) as [H1 H2]. cbv zeta in *.
      set (l := picks b (capped (acc + contribution r)) rest) in *.
      destruct (picks_prefix b rest (capped (acc + contribution r))) as [[k Hk] _]. fold l in Hk.
      assert (Hl : Forall receipt_ok (map snd l.1)).
      { pose proof (Forall_filter (counts peer now) _ _ Hrest) as Hf. rewrite Hk in Hf. by apply Forall_app in Hf as [? _]. }
      rewrite !zsum_cons, !Z.add_assoc. pose proof (contributions_total_nonneg _ Hl) as Hlnn. cbn beta in Hlnn.
      rewrite (capped_add _ (zsum (map contribution (filter _ rest)))) in H1 by done. split; [done|].
      intros Hreach. destruct (H2 Hreach) as [Hge Hlast]. rewrite capped_add in Hge by done. split; [done|].
      assert (Hne : map snd l.1 <> []).
      { intros E. rewrite E in Hge. cbn in Hge. rewrite Z.add_0_r in Hge. lia. }
      assert (Hrl : 0 <= zsum (map contribution (removelast (map snd l.1)))).
      { apply zsum_nonneg, contributions_nonneg; try done. rewrite (app_removelast_last r Hne) in Hl.
        by apply Forall_app in Hl as [? _]. }
      rewrite capped_add in Hlast by done.
      replace (removelast (r :: map snd l.1)) with (r :: removelast (map snd l.1)) by (by destruct (map snd l.1)).
      cbn [map]. by rewrite zsum_cons, Z.add_assoc.
Qed.
End select.
