(* ===== verification/RepDiscloseThms.v ===== *)
(** * Selective disclosure is sound and complete (reputation.c) *)

From stdpp Require Import strings.
From S2P Require Import Prelude Cbor CborSpec CborKv Crypto Merkle Crdt BondCodec Chain ChainCommit Reputation.
From S2P Require Import RepFixed RepCompute RepBag RepBagTree RepDisclose.
Import Crdt Reputation RepBag.

#[local] Arguments zlen {A} l : simpl never.

(** An opening as a prover makes it: the receipt at a position of its bag with
    the path [bag_prove] writes for it. *)
Definition opened `{B : Blake3} (rs : list ants_reputation_receipt_t) (i : Z) (op : ants_reputation_bag_opening_t) : Prop :=
  exists r path cap buf old rest,
    rs !! Z.to_nat i = Some r /\ op = mk_opening r i (Some path) /\
    ants_reputation_bag_prove (Some rs) (zlen rs) i cap (buf, old) = Ok (path ++ rest, zlen path) tt.

Section thms.
Context `{B : Blake3} {Laws : Blake3Laws B} `{Ed : Ed25519}.
Context (peer : bytes) (now : Z) (params : ants_reputation_params_t).
Context (peer_size : zlen peer = 32) (now_u64 : is_u64 now) (params_good : params_ok params).

Lemma select_eq rs b cap st :
  rs <> [] -> Forall receipt_typed rs -> zlen rs <= ANTS_REP_MAX_RECEIPTS -> canonical_bag rs = true ->
  zlen rs <= cap <= zlen (so_indices st) -> cap <= SIZE_MAX ->
  ants_reputation_bag_select_for_bound (Some rs) (zlen rs) peer now (Some params) b cap st =
    Ok (if b =? 0 then mk_select (so_indices st) 0 true
        else let p := picks peer now params b 0 (rev rs) in chosen st 0 (map fst p.1) p.2) tt.
Proof using Laws peer_size now_u64 params_good.
  intros Hne Hrs Hn Hcan Hcap Hsz. unfold ants_reputation_bag_select_for_bound.
  assert (0 < zlen rs) by (destruct rs; [done|rewrite zlen_cons; pose proof (zlen_nonneg rs); lia]).
  repeat bdecide. cbn [orb]. rewrite (not_degenerate params params_good), first_n_all. unfold deref, bind at 1.
  unfold bind at 1, pure_call. rewrite canonical_ordered_eq, Hcan by done. cbn [negb].
  unfold modify at 1, bind at 1. destruct (Z.eqb_spec b 0) as [->|Hb]; [done|].
  rewrite (select_loop_eq peer now params peer_size now_u64 params_good) by
    (done || apply Forall_rev; by apply typed_ok) || (unfold zlen in *; rewrite ?length_rev; cbn; lia).
  done.
Qed.

(** The openings of chosen receipts. *)
Definition open_chosen (rs : list ants_reputation_receipt_t) (l : list (Z * ants_reputation_receipt_t))
  : list ants_reputation_bag_opening_t :=
  map (fun p => mk_opening p.2 p.1 (Some (bag_path rs (Z.to_nat p.1)))) l.

Definition in_bag (rs : list ants_reputation_receipt_t) (p : Z * ants_reputation_receipt_t) : Prop :=
  0 <= p.1 < zlen rs /\ rs !! Z.to_nat p.1 = Some p.2 /\ counts peer now p.2.

Lemma open_chosen_typed rs l : Forall receipt_typed rs -> Forall (in_bag rs) l -> Forall opening_typed (open_chosen rs l).
Proof.
  intros Hrs Hl. apply Forall_fmap. eapply Forall_impl; [exact Hl|]. intros [i r] (Hi & Hr & _).
  split; [by apply (Forall_lookup_1 _ _ _ _ Hrs Hr)|]. cbn in *. lia.
Qed.

Lemma open_chosen_accepted rs l ok :
  Forall (in_bag rs) l -> Forall (fun p => ok p.2 = true) l -> NoDup (map fst l) ->
  all_accepted peer now (zlen rs) (bag_commitment peer (bag_tree rs)) ok [] (open_chosen rs l).
Proof using Laws.
  intros Hl Hok Hnd. split.
  - cbn [app]. unfold open_chosen. rewrite map_map. exact Hnd.
  - apply Forall_fmap. apply Forall_forall. intros [i r] Hin.
    destruct (proj1 (Forall_forall _ _) Hl _ Hin) as (Hi & Hr & Hc). cbn [fst snd] in *.
    split; [cbn; lia|]. split; [done|]. split; [by apply (proj1 (Forall_forall _ _) Hok _ Hin)|]. cbn.
    pose proof (bag_path_included rs _ r peer Hr) as H. by rewrite Z2Nat.id in H by lia.
Qed.

Lemma open_chosen_opened rs l :
  Forall receipt_typed rs -> zlen rs <= ANTS_REP_MAX_RECEIPTS -> canonical_bag rs = true ->
  Forall (in_bag rs) l -> Forall2 (opened rs) (map fst l) (open_chosen rs l).
Proof using Laws.
  intros Hrs Hn Hcan Hl. apply Forall2_fmap, Forall_Forall2_diag, Forall_forall. intros [i r] Hin.
  destruct (proj1 (Forall_forall _ _) Hl _ Hin) as (Hi & Hr & Hc). cbn [fst snd] in *.
  pose proof (zlen_nonneg (bag_path rs (Z.to_nat i))).
  destruct (bag_prove_eq rs (Z.to_nat i) r (zlen (bag_path rs (Z.to_nat i)))
    (replicate (length (bag_path rs (Z.to_nat i))) 0) 0) as (rest & _ & He); try done.
  { unfold zlen. rewrite length_replicate. lia. }
  rewrite Z2Nat.id in He by lia. by repeat eexists.
Qed.

Lemma open_chosen_revealed rs l : revealed (open_chosen rs l) = map snd l.
Proof. unfold revealed, open_chosen. by rewrite map_map. Qed.

Lemma removelast_map {X Y} (f : X -> Y) l : removelast (map f l) = map f (removelast l).
Proof. induction l as [|x [|y l] IH]; [done..|]. cbn [map removelast] in *. by rewrite IH. Qed.

Lemma verify_chosen rs l b u :
  Forall receipt_typed rs -> zlen rs <= ANTS_REP_MAX_RECEIPTS -> Forall (in_bag rs) l -> NoDup (map fst l) ->
  let ops := open_chosen rs l in
  ants_reputation_bag_verify_bound (Some ops) (zlen ops) (zlen rs) peer (bag_commitment peer (bag_tree rs)) now (Some params) b u =
    Ok u (bool_decide (b <= capped (zsum (map (contribution now params) (map snd l))))).
Proof using Laws peer_size now_u64 params_good.
  intros Hrs Hn Hl Hnd ops.
  assert (Hk : zlen ops <= zlen rs).
  { assert (Hsub : map snd l ⊆+ rs).
    { apply (submseteq_lookups rs (map snd l) (map Z.to_nat (map fst l))).
      - apply NoDup_fmap_2_strong; [|done].
        intros i j (p & -> & Hp)%list_elem_of_fmap (q & -> & Hq)%list_elem_of_fmap He.
        destruct (proj1 (Forall_forall _ _) Hl p Hp) as (? & _). destruct (proj1 (Forall_forall _ _) Hl q Hq) as (? & _). lia.
      - rewrite map_map. apply Forall2_fmap, Forall_Forall2_diag. eapply Forall_impl; [exact Hl|].
        by intros p (_ & Hp & _). }
    apply submseteq_length in Hsub. unfold ops, open_chosen, zlen. rewrite length_map in *. lia. }
  rewrite verify_bound_eq; [|done..|by apply open_chosen_typed|lia|done|apply finalize_size].
  f_equal. apply bool_decide_ext. unfold proven. fold ops. replace (revealed ops) with (map snd l) by (symmetry; apply open_chosen_revealed).
  split; [tauto|]. intros Hb. split; [|done]. apply open_chosen_accepted; try done. by apply Forall_forall.
Qed.
End thms.

(** ** The guarantees *)

(** C10: An accepted disclosure is true: if the verifier accepts A >= b from
    openings against the root a peer committed for its bag, then the peer's A,
    computed over the whole bag at the same time, is at least b.  The verifier
    believes any number of leaves it is told; the openings still stand for
    different receipts of the bag, unless two of the hashed byte strings
    collide. *)
Theorem disclosure_sound `{B : Blake3} {Laws : Blake3Laws B} `{Ed : Ed25519} peer now params rs ops n b root u :
  zlen peer = 32 -> is_u64 now -> params_ok params -> Forall receipt_typed rs ->
  zlen rs <= ANTS_REP_MAX_RECEIPTS -> Forall opening_typed ops ->
  ants_reputation_bag_root (Some rs) (zlen rs) peer u = Ok u root ->
  ants_reputation_bag_verify_bound (Some ops) (zlen ops) n peer root now (Some params) b u = Ok u true ->
  no_collision peer rs n ops ->
  exists a t, ants_reputation_compute peer (Some rs) (zlen rs) now (Some params) u = Ok u (a, t) /\ b <= a.
Proof.
  intros Hpeer Hnow Hp Hrs Hn Hops Hroot Hv Hcf. rewrite bag_root_eq in Hroot by done.
  destruct (canonical_bag rs); [|done]. injection Hroot as <-.
  exists (accumulated peer now params rs), (tenure peer now params rs).
  split; [apply compute_eq; try done; by apply typed_ok|].
  destruct (decide (zlen ops <= ANTS_REP_MAX_RECEIPTS /\ n <= ANTS_REP_MAX_RECEIPTS)) as [[Hk Hcap]|Hbad].
  - rewrite verify_bound_eq in Hv by (done || apply finalize_size). injection Hv as Hv.
    apply bool_decide_eq_true in Hv as [Hall Hb]. etrans; [exact Hb|]. by apply (proven_bounded peer now params Hnow Hp rs n).
  - unfold ants_reputation_bag_verify_bound in Hv. cbn [is_null andb] in Hv.
    replace ((ANTS_REP_MAX_RECEIPTS <? zlen ops) || (ANTS_REP_MAX_RECEIPTS <? n)) with true in Hv; [done|].
    symmetry. apply orb_true_iff. rewrite !Z.ltb_lt. lia.
Qed.

(** C20: A true bound can be disclosed: with room for every index, the
    selection never fails, says that the bound is reached exactly if A is at
    least b, and then the openings of the receipts it names, with the paths
    the prover writes for them, convince the verifier; without the oldest of
    them they would not. *)
Theorem disclosure_complete `{B : Blake3} {Laws : Blake3Laws B} `{Ed : Ed25519} peer now params rs b cap st root u :
  zlen peer = 32 -> is_u64 now -> params_ok params -> Forall receipt_typed rs -> rs <> [] ->
  zlen rs <= ANTS_REP_MAX_RECEIPTS -> 0 <= b -> zlen rs <= cap <= zlen (so_indices st) -> cap <= SIZE_MAX ->
  ants_reputation_bag_root (Some rs) (zlen rs) peer u = Ok u root ->
  match ants_reputation_bag_select_for_bound (Some rs) (zlen rs) peer now (Some params) b cap st with
  | Ok st' _ =>
    (so_reached st' = true <->
      exists a t, ants_reputation_compute peer (Some rs) (zlen rs) now (Some params) u = Ok u (a, t) /\ b <= a) /\
    exists ops, Forall2 (opened rs) (take (Z.to_nat (so_count st')) (so_indices st')) ops /\
      let verdict ops := ants_reputation_bag_verify_bound (Some ops) (zlen ops) (zlen rs) peer root now (Some params) b u in
      verdict ops = Ok u (so_reached st') /\ (so_reached st' = true -> b <> 0 -> verdict (removelast ops) = Ok u false)
  | Err _ _ | UB | NoFuel => False
  end.
Proof.
  intros Hpeer Hnow Hp Hrs Hne Hn Hb0 Hcap Hsz Hroot. rewrite bag_root_eq in Hroot by done.
  destruct (canonical_bag rs) eqn:Hcan; [|done]. injection Hroot as <-.
  rewrite select_eq by done. rewrite compute_eq by (done || by apply typed_ok).
  assert (Hreach : forall a, (exists a' t, Ok u (accumulated peer now params rs, tenure peer now params rs) = Ok u (a', t) /\ a <= a') <->
    a <= accumulated peer now params rs).
  { intros a. split; [by intros (? & ? & [= <- <-] & ?)|]. intros. eexists _, _. by split. }
  rewrite Hreach. unfold accumulated. fold (a_terms peer now params rs). rewrite a_terms_eq.
  assert (Hrok : Forall receipt_ok (rev rs)) by (apply Forall_rev; by apply typed_ok).
  pose proof (contributions_total_nonneg now params Hnow Hp _ (Forall_filter (counts peer now) _ _ (typed_ok _ Hrs))) as Hnn. cbn beta in Hnn.
  destruct (Z.eqb_spec b 0) as [->|Hb].
  { cbn [so_reached so_count so_indices]. split.
    - split; [|done]. intros _. by apply capped_u64.
    - exists []. split; [constructor|]. cbv zeta. split; [|done].
      rewrite verify_bound_eq by (done || apply finalize_size). done. }
  cbv zeta. set (p := picks peer now params b 0 (rev rs)).
  destruct (picks_places peer now params b (rev rs) 0) as [Hpl Hnd]. fold p in Hpl, Hnd.
  rewrite rev_involutive in Hpl. assert (Hin : Forall (in_bag peer now rs) p.1).
  { eapply Forall_impl; [exact Hpl|]. intros q (Hi & Hq). split; [|done]. unfold zlen in *. rewrite length_rev in Hi. lia. }
  destruct (picks_reach peer now params Hnow Hp b (rev rs) Hrok 0 ltac:(done) ltac:(lia)) as [Hr Hsum]. fold p in Hr, Hsum.
  cbv zeta in Hsum. rewrite !Z.add_0_l in Hr, Hsum.
  assert (Hperm : filter (counts peer now) (rev rs) ≡ₚ bag peer now rs) by (unfold bag; by rewrite <- Permutation_rev).
  assert (Htot : zsum (map (contribution now params) (filter (counts peer now) (rev rs))) =
    zsum (map (contribution now params) (bag peer now rs))) by (by rewrite Hperm).
  rewrite Htot in Hr. split.
  - cbn [chosen so_reached]. rewrite Hr. by rewrite bool_decide_eq_true.
  - exists (open_chosen rs p.1). cbn [chosen so_count so_indices so_reached]. split.
    + rewrite Z.add_0_l, zlen_to_nat. change (Z.to_nat 0) with 0%nat. rewrite take_0. cbn [app].
      rewrite take_app_length. by apply open_chosen_opened with peer now.
    + cbv zeta. split.
      * rewrite verify_chosen by done. f_equal. destruct p.2 eqn:E.
        -- apply bool_decide_true. by apply Hsum.
        -- apply bool_decide_false. destruct (picks_prefix peer now params b (rev rs) 0) as [_ Hall]. fold p in Hall.
           rewrite (Hall E), Htot. symmetry in Hr. by apply bool_decide_eq_false in Hr.
      * intros E _. destruct (Hsum E) as [_ Hlast]. unfold open_chosen at 1 2. rewrite !removelast_map.
        fold (open_chosen rs (removelast p.1)). rewrite verify_chosen; try done.
        -- f_equal. apply bool_decide_false. rewrite <- removelast_map. rewrite ?Z.add_0_l in Hlast. lia.
        -- rewrite removelast_firstn_len. by apply Forall_take.
        -- rewrite removelast_firstn_len. unfold fmap in *. rewrite <- firstn_map. apply (sublist_NoDup _ _ Hnd), sublist_take.
Qed.

(** ** Examples *)

(** A stand-in hasher that mixes all of its input, so that the trees of the
    examples have different hashes. *)
Definition mix (h : bytes) : Z := fold_left (fun acc x => Z.land (acc * 37 + x + 1) (Z.ones 16)) h 7.

Definition mix_blake3 : Blake3 := {|
  blake3_hasher := bytes;
  blake3_hasher_init := [];
  blake3_hasher_init_derive_key := fun _ => [99];
  blake3_hasher_update := fun h b => h ++ b;
  blake3_hasher_finalize := fun h => map (fun i => u8 (Z.shiftr (mix h) (8 * Z.of_nat i))) (seq 0 32)
|}.

Lemma mix_blake3_laws : Blake3Laws mix_blake3.
Proof.
  split.
  - intros h. unfold zlen. cbn [mix_blake3 blake3_hasher_finalize]. by rewrite length_map, length_seq.
  - intros h. apply Forall_map, Forall_forall. intros. apply u8_range.
  - intros. cbn. by rewrite app_assoc.
  - intros. cbn. by rewrite app_nil_r.
Qed.

Definition demo_server : bytes := replicate 32 7.
Definition demo_client : bytes := replicate 32 9.

(** Countersigned under the stand-in signatures. *)
Definition demo_receipt (value time : Z) : ants_reputation_receipt_t :=
  let body := encode (receipt_cbor (mk_receipt demo_server demo_client value time (replicate 16 1) [] [])) in
  mk_receipt demo_server demo_client value time (replicate 16 1)
    (demo_server ++ take 32 body) (demo_client ++ take 32 body).

Definition demo_bag : list ants_reputation_receipt_t :=
  [demo_receipt 8000 7200; demo_receipt 400 10800; demo_receipt 30 14400].

Definition demo_now : Z := 14400.
Definition demo_root : bytes := @bag_commitment mix_blake3 demo_server (@bag_tree mix_blake3 demo_bag).

Lemma demo_params_ok : params_ok ants_reputation_params_default.
Proof. unfold params_ok, is_u64. vm_compute. split_and!; done. Qed.

Lemma demo_typed v t : is_u64 v -> is_u64 t -> receipt_typed (demo_receipt v t).
Proof.
  intros Hv Ht. assert (Hh : forall x, 0 <= x < 256 -> bytes_ok (replicate 32 x)) by (intros; by apply Forall_replicate).
  assert (Hs : forall (p : bytes) body, zlen p = 32 -> zlen body >= 32 -> zlen (p ++ take 32 body) = 64).
  { intros p body Hp Hb. rewrite zlen_app. unfold zlen in *. rewrite length_take. lia. }
  set (blank := mk_receipt demo_server demo_client v t (replicate 16 1) [] []).
  assert (Hok : receipt_ok blank).
  { split; [split; [by apply Hh|done]|]. split; [split; [by apply Hh|done]|]. split_and!; try done. by apply Forall_replicate. }
  split; [exact Hok|]. assert (Hl : zlen (encode (receipt_cbor blank)) >= 32).
  { cbn [receipt_cbor encode map concat blank server client]. rewrite !zlen_app.
    repeat match goal with |- context [zlen (encode_head ?a ?b)] =>
      let H := fresh in pose proof (zlen_nonneg (encode_head a b)) as H; generalize dependent (zlen (encode_head a b)); intros end.
    change (zlen demo_server) with 32. change (zlen demo_client) with 32. zlia. }
  split; by apply Hs.
Qed.

Lemma demo_bag_typed : Forall receipt_typed demo_bag.
Proof. apply Forall_forall. intros r Hr. repeat (apply elem_of_cons in Hr as [->|Hr]; [by apply demo_typed|]). by apply elem_of_nil in Hr. Qed.

Lemma earlier_first v v' t t' : t < t' -> @bag_lt mix_blake3 (demo_receipt v t) (demo_receipt v' t').
Proof. by left. Qed.

Lemma demo_canonical : @canonical_bag mix_blake3 demo_bag = true.
Proof. unfold demo_bag. by rewrite !canonical_cons, !bool_decide_true by by apply earlier_first. Qed.

Lemma demo_root_eq : @ants_reputation_bag_root mix_blake3 (Some demo_bag) (zlen demo_bag) demo_server tt = Ok tt demo_root.
Proof. rewrite (@bag_root_eq mix_blake3 mix_blake3_laws) by (apply demo_bag_typed || done). by rewrite demo_canonical. Qed.

(** The last and the first receipt are revealed. *)
Definition demo_shown : list (Z * ants_reputation_receipt_t) := [(2, demo_receipt 30 14400); (0, demo_receipt 8000 7200)].
Definition demo_openings : list ants_reputation_bag_opening_t := @open_chosen mix_blake3 demo_bag demo_shown.

Lemma demo_counts v t : t <= demo_now -> is_u64 v -> is_u64 t -> @counts toy_ed25519 demo_server demo_now (demo_receipt v t).
Proof.
  intros Ht Hv Hu. split; [|done]. unfold signed. cbn [crypto_sign_ed25519_verify_detached toy_ed25519].
  change (receipt_cbor (demo_receipt v t)) with (receipt_cbor (mk_receipt demo_server demo_client v t (replicate 16 1) [] [])).
  unfold demo_receipt. cbn [server client server_sig client_sig]. set (body := encode _).
  assert (Hb : take 32 (body ++ replicate 32 0) = take 32 body).
  { rewrite take_app_le; [done|]. destruct (demo_typed v t Hv Hu) as (_ & Hs & _). revert Hs.
    unfold demo_receipt. cbn [server_sig]. fold body. rewrite zlen_app. change (zlen demo_server) with 32.
    unfold ANTS_REP_SIG_SIZE, zlen. rewrite length_take. lia. }
  by rewrite Hb, !bool_decide_true.
Qed.

Lemma demo_in_bag : Forall (@in_bag toy_ed25519 demo_server demo_now demo_bag) demo_shown.
Proof. repeat constructor; try done; by apply demo_counts. Qed.

Lemma demo_openings_typed : Forall opening_typed demo_openings.
Proof. apply (@open_chosen_typed mix_blake3 toy_ed25519 demo_server demo_now); [apply demo_bag_typed|apply demo_in_bag]. Qed.

Lemma demo_accepted :
  @ants_reputation_bag_verify_bound mix_blake3 toy_ed25519 (Some demo_openings) (zlen demo_openings) (zlen demo_bag)
    demo_server demo_root demo_now (Some ants_reputation_params_default) 2030 tt = Ok tt true.
Proof.
  unfold demo_openings, demo_root.
  rewrite (@verify_chosen mix_blake3 mix_blake3_laws toy_ed25519 demo_server demo_now ants_reputation_params_default
    eq_refl ltac:(done) demo_params_ok demo_bag demo_shown 2030 tt demo_bag_typed ltac:(done) demo_in_bag ltac:(by_decision)).
  by vm_compute.
Qed.

(** The digests of the two sides, computed once. *)
Definition distinct_digests `{B : Blake3} (xs ys : list bytes) : bool :=
  let hashed l := map (fun x => (x, digest x)) l in
  let hs := hashed ys in
  forallb (fun p => forallb (fun q => implb (bool_decide (p.2 = q.2)) (bool_decide (p.1 = q.1))) hs) (hashed xs).

Lemma distinct_digests_ok `{B : Blake3} xs ys : distinct_digests xs ys = true -> collision_free xs ys.
Proof.
  unfold distinct_digests. intros H a b Ha Hb Hd. rewrite forallb_forall in H.
  specialize (H (a, digest a)). rewrite forallb_forall in H. cbn [fst snd] in H.
  assert (Hi : implb (bool_decide (digest a = digest b)) (bool_decide (a = b)) = true).
  { apply (H ltac:(apply in_map_iff; exists a; split; [done|by apply list_elem_of_In]) (b, digest b)).
    apply in_map_iff. exists b. split; [done|by apply list_elem_of_In]. }
  rewrite (bool_decide_true _ Hd) in Hi. by apply bool_decide_eq_true in Hi.
Qed.

Lemma demo_distinct :
  @distinct_digests mix_blake3 (@bag_inputs mix_blake3 demo_bag)
    (concat (map (@opening_inputs mix_blake3 (zlen demo_bag)) demo_openings)) = true.
Proof. vm_compute. reflexivity. Qed.

Lemma demo_no_collision : @no_collision mix_blake3 demo_server demo_bag (zlen demo_bag) demo_openings.
Proof.
  split; [apply distinct_digests_ok, demo_distinct|].
  apply Forall_fmap. eapply Forall_impl; [exact demo_in_bag|]. intros [i r] (Hi & Hr & _) m Hm _. cbn [fst snd] in *.
  pose proof (@bag_path_root mix_blake3 mix_blake3_laws demo_bag _ r Hr) as Hroot.
  rewrite Z2Nat.id in Hroot by lia. cbn in Hm. congruence.
Qed.

Lemma disclosure_sound_witness :
  exists a t, @ants_reputation_compute toy_ed25519 demo_server (Some demo_bag) (zlen demo_bag) demo_now
    (Some ants_reputation_params_default) tt = Ok tt (a, t) /\ 2030 <= a.
Proof.
  exact (@disclosure_sound mix_blake3 mix_blake3_laws toy_ed25519 demo_server demo_now ants_reputation_params_default
    demo_bag demo_openings (zlen demo_bag) 2030 demo_root tt eq_refl ltac:(done) demo_params_ok demo_bag_typed ltac:(done)
    demo_openings_typed demo_root_eq demo_accepted demo_no_collision).
Defined.

Lemma disclosure_complete_witness :
  exists st ops,
    @ants_reputation_bag_select_for_bound mix_blake3 toy_ed25519 (Some demo_bag) 3 demo_server demo_now
      (Some ants_reputation_params_default) 200 3 (mk_select [0; 0; 0] 0 false) = Ok st tt /\
    Forall2 (@opened mix_blake3 demo_bag) (take (Z.to_nat (so_count st)) (so_indices st)) ops /\
    @ants_reputation_bag_verify_bound mix_blake3 toy_ed25519 (Some ops) (zlen ops) 3 demo_server demo_root demo_now
      (Some ants_reputation_params_default) 200 tt = Ok tt (so_reached st).
Proof.
  pose proof (@disclosure_complete mix_blake3 mix_blake3_laws toy_ed25519 demo_server demo_now ants_reputation_params_default
    demo_bag 200 3 (mk_select [0; 0; 0] 0 false) demo_root tt eq_refl ltac:(done) demo_params_ok demo_bag_typed ltac:(done)
    ltac:(done) ltac:(done) ltac:(done) ltac:(done) demo_root_eq) as H.
  change (zlen demo_bag) with 3 in H.
  destruct (ants_reputation_bag_select_for_bound _ _ _ _ _ _ _ _) as [st []|? ?| |]; [|destruct H..].
  destruct H as (_ & ops & Ho & Hv & _). exists st, ops. split; [reflexivity|]. split; [exact Ho|exact Hv].
Defined.

(** ** Where the header promises more *)

(** The indices are positions in whatever tree the peer committed: a root
    over a bag that lists one receipt twice, which [bag_root] itself refuses
    to compute, lets that receipt count twice. *)
Lemma repeated_receipt_counts_twice :
  let r := demo_receipt 8000 7200 in
  let bag := [r; r] in
  let root := @bag_commitment mix_blake3 demo_server (@bag_tree mix_blake3 bag) in
  let ops := [mk_opening r 0 (Some (@bag_path mix_blake3 bag 0)); mk_opening r 1 (Some (@bag_path mix_blake3 bag 1))] in
  @ants_reputation_bag_root mix_blake3 (Some bag) 2 demo_server tt = Err tt ANTS_ERROR_NON_CANONICAL /\
  (exists t, @ants_reputation_compute toy_ed25519 demo_server (Some [r]) 1 demo_now
    (Some ants_reputation_params_default) tt = Ok tt (2000, t)) /\
  @ants_reputation_bag_verify_bound mix_blake3 toy_ed25519 (Some ops) 2 2 demo_server root demo_now
    (Some ants_reputation_params_default) 4000 tt = Ok tt true.
Proof.
  intros r bag root ops. assert (Hr : receipt_typed r) by (by apply demo_typed).
  assert (Hbag : Forall receipt_typed bag) by (by repeat constructor; apply Hr).
  assert (Hc : @counts toy_ed25519 demo_server demo_now r) by (by apply demo_counts).
  split; [|split].
  - change 2 with (zlen bag) at 1. rewrite (@bag_root_eq mix_blake3 mix_blake3_laws) by done.
    unfold bag. rewrite canonical_cons, bool_decide_false; [done|]. apply bag_lt_irrefl.
  - eexists. change 1 with (zlen [r]). rewrite (compute_eq demo_server demo_now ants_reputation_params_default);
      [|done|done|apply demo_params_ok|by repeat constructor; apply Hr|done].
    unfold accumulated, RepCompute.bag. rewrite filter_all by (repeat constructor; apply Hc). by vm_compute.
  - assert (Hin : Forall (@in_bag toy_ed25519 demo_server demo_now bag) [(0, r); (1, r)]) by (repeat constructor; done || apply Hc).
    etrans; [exact (@verify_chosen mix_blake3 mix_blake3_laws toy_ed25519 demo_server demo_now ants_reputation_params_default
      eq_refl ltac:(done) demo_params_ok bag [(0, r); (1, r)] 4000 tt Hbag ltac:(done) Hin ltac:(by_decision))|].
    by vm_compute.
Qed.

(** The selection takes the most recent receipts whatever they are worth, so
    it may reveal more than necessary: here three where one is enough. *)
Lemma selection_not_smallest :
  let ops := [mk_opening (demo_receipt 8000 7200) 0 (Some (@bag_path mix_blake3 demo_bag 0))] in
  (exists st, @ants_reputation_bag_select_for_bound mix_blake3 toy_ed25519 (Some demo_bag) 3 demo_server demo_now
    (Some ants_reputation_params_default) 1000 3 (mk_select [0; 0; 0] 0 false) = Ok st tt /\
    so_count st = 3 /\ so_reached st = true) /\
  @ants_reputation_bag_verify_bound mix_blake3 toy_ed25519 (Some ops) 1 3 demo_server demo_root demo_now
    (Some ants_reputation_params_default) 1000 tt = Ok tt true.
Proof.
  intros ops. split.
  - eexists. split; [|split].
    + change 3 with (zlen demo_bag) at 1. rewrite (@select_eq mix_blake3 mix_blake3_laws toy_ed25519 demo_server demo_now
        ants_reputation_params_default eq_refl ltac:(done) demo_params_ok demo_bag 1000 3 (mk_select [0; 0; 0] 0 false)
        ltac:(done) demo_bag_typed ltac:(done) demo_canonical ltac:(done) ltac:(done)). reflexivity.
    + by vm_compute.
    + by vm_compute.
  - assert (Hin : Forall (@in_bag toy_ed25519 demo_server demo_now demo_bag) [(0, demo_receipt 8000 7200)])
      by (repeat constructor; done || by apply demo_counts).
    etrans; [exact (@verify_chosen mix_blake3 mix_blake3_laws toy_ed25519 demo_server demo_now ants_reputation_params_default
      eq_refl ltac:(done) demo_params_ok demo_bag [(0, demo_receipt 8000 7200)] 1000 tt demo_bag_typed ltac:(done) Hin ltac:(by_decision))|].
    by vm_compute.
Qed.
