(* ===== verification/RepSummary.v ===== *)
(** * Compact summaries (src/reputation/identity/src/reputation.c)

    Bucketing a bag, the summary codec, its signature and the audit of a
    bucket. *)

From S2P Require Import Prelude Cbor CborKv Crypto Crdt Chain Reputation RepBag.
Import Reputation RepBag.

Module RepSummary.

Definition SUMMARY_BODY_PAIRS : Z := 5.
Definition SUMMARY_FULL_PAIRS : Z := 6.
Definition SUMMARY_KEY_PEER : Z := 1.
Definition SUMMARY_KEY_BAG_ROOT : Z := 2.
Definition SUMMARY_KEY_EVAL_TIME : Z := 3.
Definition SUMMARY_KEY_BUCKET_WIDTH : Z := 4.
Definition SUMMARY_KEY_BUCKETS : Z := 5.
Definition SUMMARY_KEY_SIG : Z := 6.

(** ** The canonical form *)

(** [for (i = 0; i < s->n_buckets; i++)]; [prev] is the index before, if any. *)
Fixpoint buckets_canonical (prev : option Z) (buckets : list ants_reputation_summary_bucket_t) : bool :=
  match buckets with
  | [] => true
  | bk :: rest =>
    if total_decayed_uncs bk =? 0 then false
    else if match prev with Some p => bucket_index bk <=? p | None => false end then false
    else buckets_canonical (Some (bucket_index bk)) rest
  end.

Definition summary_struct_canonical (s : ants_reputation_summary_t) : bool :=
  if (sm_bucket_width s =? 0) || (ANTS_REP_SUMMARY_MAX_BUCKETS <? zlen (sm_buckets s)) then false
  else buckets_canonical None (sm_buckets s).

(** ** Bucketing *)

Section build.
Context `{B : Blake3} `{Ed : Ed25519}.

(** What build writes: [out_buckets] and [*out_n_buckets]. *)
Definition build_out : Type := list ants_reputation_summary_bucket_t * Z.

(** [out_buckets[count] = { cur_index, cur_total }; count++]; the result is
    the new [count]. *)
Definition flush (buckets_cap cur_index cur_total count : Z) : action build_out Z :=
  if (count =? buckets_cap) || (count =? ANTS_REP_SUMMARY_MAX_BUCKETS) then fail ANTS_ERROR_BUFFER_TOO_SMALL
  else
    let* st := get in
    let* buckets := deref (set_at st.1 count (mk_bucket cur_index cur_total)) in
    modify (fun st => (buckets, st.2)) ;*
    ret (size_add count 1).

(** [for (i = 0; i < n; i++)], then the last bucket.  [cur] is [cur_index]
    with [cur_total] once [have_cur]. *)
Fixpoint build_loop (peer_id : bytes) (eval_time bucket_width : Z) (params : ants_reputation_params_t)
  (buckets_cap : Z) (receipts : list ants_reputation_receipt_t) (cur : option (Z * Z)) (count : Z)
  : action build_out Z :=
  match receipts with
  | [] =>
    match cur with
    | Some (cur_index, cur_total) =>
      if 0 <? cur_total then flush buckets_cap cur_index cur_total count else ret count
    | None => ret count
    end
  | r :: rest =>
    let next := build_loop peer_id eval_time bucket_width params buckets_cap rest in
    let* ok := pure_call (ants_reputation_receipt_verify r) in
    if negb ok then next cur count
    else if negb (memcmp (server r) peer_id =? 0) then next cur count
    else if eval_time <? timestamp_unix_s r then next cur count
    else
      let index := timestamp_unix_s r / bucket_width in
      let* count' :=
        match cur with
        | Some (cur_index, cur_total) =>
          if negb (index =? cur_index) && (0 <? cur_total) then flush buckets_cap cur_index cur_total count
          else ret count
        | None => ret count
        end in
      let cur_total :=
        match cur with
        | Some (cur_index, cur_total) => if negb (index =? cur_index) then 0 else cur_total
        | None => 0
        end in
      next (Some (index, sat_add_u64 cur_total (receipt_a_contribution r eval_time params))) count'
  end.

Definition ants_reputation_summary_build (receipts : option (list ants_reputation_receipt_t)) (n : Z)
  (peer_id : bytes) (eval_time bucket_width : Z) (params : option ants_reputation_params_t) (buckets_cap : Z)
  : action build_out unit :=
  match params with
  | None => fail ANTS_ERROR_INVALID_ARG
  | Some params =>
    if is_null receipts && negb (n =? 0) then fail ANTS_ERROR_INVALID_ARG
    else if (ANTS_REP_MAX_RECEIPTS <? n) || (bucket_width =? 0) then fail ANTS_ERROR_INVALID_ARG
    else if degenerate params then fail ANTS_ERROR_INVALID_ARG
    else
      modify (fun st => (st.1, 0)) ;*
      if n =? 0 then ret tt
      else
        let* rs := deref (first_n (default [] receipts) n) in
        let* ordered := pure_call (receipts_canonical_ordered rs) in
        if negb ordered then fail ANTS_ERROR_NON_CANONICAL
        else
          let* count := build_loop peer_id eval_time bucket_width params buckets_cap rs None 0 in
          modify (fun st => (st.1, count))
  end.
End build.

(** ** Encoding *)

(** [for (i = 0; i < s->n_buckets; i++)] *)
Fixpoint encode_buckets (buckets : list ants_reputation_summary_bucket_t) : action ants_cbor_enc_t unit :=
  match buckets with
  | [] => ret tt
  | bk :: rest =>
    ants_cbor_enc_array 2 ;*
    ants_cbor_enc_uint (bucket_index bk) ;*
    ants_cbor_enc_uint (total_decayed_uncs bk) ;*
    encode_buckets rest
  end.

Definition summary_encode_body_pairs (s : ants_reputation_summary_t) : action ants_cbor_enc_t unit :=
  enc_kv_bytes SUMMARY_KEY_PEER (sm_peer_id s) ;*
  enc_kv_bytes SUMMARY_KEY_BAG_ROOT (sm_bag_root s) ;*
  enc_kv_uint SUMMARY_KEY_EVAL_TIME (sm_eval_time s) ;*
  enc_kv_uint SUMMARY_KEY_BUCKET_WIDTH (sm_bucket_width s) ;*
  ants_cbor_enc_uint SUMMARY_KEY_BUCKETS ;*
  ants_cbor_enc_array (zlen (sm_buckets s)) ;*
  encode_buckets (sm_buckets s).

Definition ants_reputation_summary_body_encode (s : ants_reputation_summary_t) (cap : Z) : action bytes Z :=
  if negb (summary_struct_canonical s) then fail ANTS_ERROR_NON_CANONICAL
  else with_encoder cap (
    ants_cbor_enc_map SUMMARY_BODY_PAIRS ;*
    summary_encode_body_pairs s).

Definition ants_reputation_summary_encode (s : ants_reputation_summary_t) (cap : Z) : action bytes Z :=
  if negb (summary_struct_canonical s) then fail ANTS_ERROR_NON_CANONICAL
  else with_encoder cap (
    ants_cbor_enc_map SUMMARY_FULL_PAIRS ;*
    summary_encode_body_pairs s ;*
    enc_kv_bytes SUMMARY_KEY_SIG (sm_sig s)).

(** ** Decoding *)

(** The caller's objects, [*out] and [out_buckets], with the local
    [n_buckets]. *)
Record summary_dec : Type := mk_sdec {
  sd_out : ants_reputation_summary_t; sd_buckets : list ants_reputation_summary_bucket_t; sd_n : Z
}.

Definition sd_peer v o := let s := sd_out o in
  mk_sdec (mk_rep_summary v (sm_bag_root s) (sm_eval_time s) (sm_bucket_width s) (sm_buckets s) (sm_sig s))
    (sd_buckets o) (sd_n o).
Definition sd_root v o := let s := sd_out o in
  mk_sdec (mk_rep_summary (sm_peer_id s) v (sm_eval_time s) (sm_bucket_width s) (sm_buckets s) (sm_sig s))
    (sd_buckets o) (sd_n o).
Definition sd_eval v o := let s := sd_out o in
  mk_sdec (mk_rep_summary (sm_peer_id s) (sm_bag_root s) v (sm_bucket_width s) (sm_buckets s) (sm_sig s))
    (sd_buckets o) (sd_n o).
Definition sd_width v o := let s := sd_out o in
  mk_sdec (mk_rep_summary (sm_peer_id s) (sm_bag_root s) (sm_eval_time s) v (sm_buckets s) (sm_sig s))
    (sd_buckets o) (sd_n o).
Definition sd_sig v o := let s := sd_out o in
  mk_sdec (mk_rep_summary (sm_peer_id s) (sm_bag_root s) (sm_eval_time s) (sm_bucket_width s) (sm_buckets s) v)
    (sd_buckets o) (sd_n o).
Definition sd_aliased v o := let s := sd_out o in
  mk_sdec (mk_rep_summary (sm_peer_id s) (sm_bag_root s) (sm_eval_time s) (sm_bucket_width s) v (sm_sig s))
    (sd_buckets o) (sd_n o).
Definition sd_set_n v o := mk_sdec (sd_out o) (sd_buckets o) v.
Definition sd_set_buckets v o := mk_sdec (sd_out o) v (sd_n o).

(** [out_buckets[i]] *)
Definition read_bucket (i : Z) : action (ants_cbor_dec_t * summary_dec) ants_reputation_summary_bucket_t :=
  let* st := get in deref (get_at (sd_buckets st.2) i).

Definition write_bucket (i : Z) (f : ants_reputation_summary_bucket_t -> ants_reputation_summary_bucket_t)
  : action (ants_cbor_dec_t * summary_dec) unit :=
  let* bk := read_bucket i in
  modify_snd (fun o => sd_set_buckets (<[Z.to_nat i := f bk]> (sd_buckets o)) o).

Definition dec_bucket (i : Z) : action (ants_cbor_dec_t * summary_dec) unit :=
  let* pair_n := on_fst (map_err norm_decode_err ants_cbor_dec_array) in
  if negb (pair_n =? 2) then fail ANTS_ERROR_MALFORMED
  else
    let* v := on_fst (map_err norm_decode_err ants_cbor_dec_uint) in
    write_bucket i (fun bk => mk_bucket v (total_decayed_uncs bk)) ;*
    let* v := on_fst (map_err norm_decode_err ants_cbor_dec_uint) in
    write_bucket i (fun bk => mk_bucket (bucket_index bk) v) ;*
    let* bk := read_bucket i in
    if total_decayed_uncs bk =? 0 then fail ANTS_ERROR_NON_CANONICAL
    else if 0 <? i then
      let* prev := read_bucket (i - 1) in
      if bucket_index bk <=? bucket_index prev then fail ANTS_ERROR_NON_CANONICAL else ret tt
    else ret tt.

Definition rep_summary_decode_body (buckets_cap : Z) : action (ants_cbor_dec_t * summary_dec) unit :=
  let* n_pairs := on_fst (map_err norm_decode_err ants_cbor_dec_map) in
  if negb (n_pairs =? SUMMARY_FULL_PAIRS) then fail ANTS_ERROR_MALFORMED
  else
    let* p := on_fst (decode_bytes_field SUMMARY_KEY_PEER ANTS_REP_PEER_ID_SIZE) in
    modify_snd (sd_peer p) ;*
    let* p := on_fst (decode_bytes_field SUMMARY_KEY_BAG_ROOT ANTS_REP_HASH_SIZE) in
    modify_snd (sd_root p) ;*
    let* v := on_fst (decode_uint_field SUMMARY_KEY_EVAL_TIME) in
    modify_snd (sd_eval v) ;*
    let* v := on_fst (decode_uint_field SUMMARY_KEY_BUCKET_WIDTH) in
    modify_snd (sd_width v) ;*
    if v =? 0 then fail ANTS_ERROR_MALFORMED
    else
      on_fst (expect_key SUMMARY_KEY_BUCKETS) ;*
      let* n_buckets := on_fst (map_err norm_decode_err ants_cbor_dec_array) in
      modify_snd (sd_set_n n_buckets) ;*
      if ANTS_REP_SUMMARY_MAX_BUCKETS <? n_buckets then fail ANTS_ERROR_MALFORMED
      else if buckets_cap <? n_buckets then fail ANTS_ERROR_BUFFER_TOO_SMALL
      else
        for_loop (Z.to_nat n_buckets) 0 n_buckets dec_bucket ;*
        let* p := on_fst (decode_bytes_field SUMMARY_KEY_SIG ANTS_REP_SIG_SIZE) in
        modify_snd (sd_sig p).

(** The pointer to the buckets is set last, to the array. *)
Definition ants_reputation_summary_decode (buf : option bytes) (len buckets_cap : Z) : action summary_dec unit :=
  if is_null buf || (len =? 0) then fail ANTS_ERROR_INVALID_ARG
  else
    with_decoder (fun e => e) norm_decode_err buf len (rep_summary_decode_body buckets_cap) ;*
    let* st := get in
    modify (sd_aliased (take (Z.to_nat (sd_n st)) (sd_buckets st))).

(** ** Signature and audit *)

Section audit.
Context `{B : Blake3} `{Ed : Ed25519}.

(** The local array [body] and its length. *)
Definition summary_body_local (s : ants_reputation_summary_t) : action unit (bytes * Z) := fun u =>
  match ants_reputation_summary_body_encode s ANTS_REP_SUMMARY_BODY_ENCODED_MAX
          (replicate (Z.to_nat ANTS_REP_SUMMARY_BODY_ENCODED_MAX) 0) with
  | Ok body body_len => Ok u (body, body_len)
  | Err _ e => Err u e
  | UB => UB
  | NoFuel => NoFuel
  end.

Definition ants_reputation_summary_verify (s : ants_reputation_summary_t) : action unit bool :=
  if negb (summary_struct_canonical s) then ret false
  else
    let* (body, body_len) := summary_body_local s in
    signature_verdict (sm_peer_id s) body body_len (sm_sig s).

(** [for (i = 0; i < s->n_buckets; i++)] with its [break]. *)
Fixpoint stated_total (index : Z) (buckets : list ants_reputation_summary_bucket_t) : option Z :=
  match buckets with
  | [] => None
  | bk :: rest => if bucket_index bk =? index then Some (total_decayed_uncs bk) else stated_total index rest
  end.

Definition ants_reputation_summary_audit_bucket (s : ants_reputation_summary_t) (index : Z)
  (openings : option (list ants_reputation_bag_opening_t)) (k n_bag : Z)
  (params : option ants_reputation_params_t) : action unit bool :=
  match params with
  | None => fail ANTS_ERROR_INVALID_ARG
  | Some params =>
    if is_null openings && negb (k =? 0) then fail ANTS_ERROR_INVALID_ARG
    else if (ANTS_REP_MAX_RECEIPTS <? k) || (ANTS_REP_MAX_RECEIPTS <? n_bag) ||
            (ANTS_REP_SUMMARY_MAX_BUCKETS <? zlen (sm_buckets s)) || (sm_bucket_width s =? 0)
    then fail ANTS_ERROR_INVALID_ARG
    else if degenerate params then fail ANTS_ERROR_INVALID_ARG
    else
      match stated_total index (sm_buckets s) with
      | None => fail ANTS_ERROR_INVALID_ARG
      | Some stated =>
        let* ops := deref (first_n (default [] openings) k) in
        let* acc := openings_loop n_bag (sm_peer_id s) (sm_bag_root s) (sm_eval_time s) params
                      (fun r => timestamp_unix_s r / sm_bucket_width s =? index) [] ops 0 in
        ret (reaches stated acc)
      end
  end.
End audit.
End RepSummary.
