(* ===== verification/RepBuckets.v ===== *)
(** * Bucketing a bag (reputation.c)

    One pass over a bag in canonical order finds the total of every bucket;
    the buckets come out in the canonical form of a summary. *)

From S2P Require Import Prelude Cbor CborKv Crypto Merkle Crdt BondCodec Chain ChainPattern Reputation.
From S2P Require Import RepFixed RepCompute RepBag RepBagTree RepDisclose RepSummary.
Import Crdt Reputation RepBag RepSummary.

#[local] Arguments zlen {A} l : simpl never.

Section buckets.
Context `{B : Blake3} {Laws : Blake3Laws B} `{Ed : Ed25519}.
Context (peer : bytes) (now width : Z) (params : ants_reputation_params_t).
Context (peer_size : zlen peer = 32) (now_u64 : is_u64 now) (params_good : params_ok params) (width_pos : 0 < width).

Abbreviation contribution := (contribution now params).

Definition bucket_of (r : ants_reputation_receipt_t) : Z := timestamp_unix_s r / width.

(** The work of one bucket. *)
Definition bucket_sum (i : Z) (rs : list ants_reputation_receipt_t) : Z :=
  zsum (map contribution (filter (fun r => bucket_of r = i) rs)).

(** ** The pass without its array *)

Definition flushed (index total : Z) : list ants_reputation_summary_bucket_t :=
  if 0 <? total then [mk_bucket index total] else [].

(** [rs] holds receipts that count. *)
Fixpoint groups (cur : option (Z * Z)) (rs : list ants_reputation_receipt_t) : list ants_reputation_summary_bucket_t :=
  match rs with
  | [] => match cur with Some (i, t) => flushed i t | None => [] end
  | r :: rest =>
    match cur with
    | Some (i, t) =>
      if bucket_of r =? i then groups (Some (i, capped (t + contribution r))) rest
      else flushed i t ++ groups (Some (bucket_of r, capped (contribution r))) rest
    | None => groups (Some (bucket_of r, capped (contribution r))) rest
    end
  end.

(** What is written: the buckets from [count] on, if there is room. *)
Definition put_buckets (cap count : Z) (l : list ants_reputation_summary_bucket_t) (st : build_out)
  (res : outcome build_out Z) : Prop :=
  if count + zlen l <=? Z.min cap ANTS_REP_SUMMARY_MAX_BUCKETS then
    res = Ok (take (Z.to_nat count) st.1 ++ l ++ drop (Z.to_nat count + length l) st.1, st.2) (count + zlen l)
  else exists st', res = Err (st', st.2) ANTS_ERROR_BUFFER_TOO_SMALL.

Section array.
Context (cap : Z).

Lemma put_nil count (st : build_out) :
  0 <= count <= Z.min cap ANTS_REP_SUMMARY_MAX_BUCKETS -> put_buckets cap count [] st (Ok st count).
Proof.
  intros Hc. unfold put_buckets. rewrite zlen_nil, Z.add_0_r. rewrite (proj2 (Z.leb_le _ _)) by lia.
  cbn [length app]. rewrite Nat.add_0_r, take_drop. by destruct st.
Qed.

Lemma put_cons count x l (st : build_out) res :
  0 <= count < zlen st.1 -> count < Z.min cap ANTS_REP_SUMMARY_MAX_BUCKETS ->
  put_buckets cap (count + 1) l (take (Z.to_nat count) st.1 ++ x :: drop (Z.to_nat count + 1) st.1, st.2) res ->
  put_buckets cap count (x :: l) st res.
Proof.
  intros Hc Hlt. unfold put_buckets. rewrite zlen_cons, Z.add_assoc. cbn [fst snd].
  destruct (_ <=? _); [|done]. intros ->. match goal with |- Ok (?a, _) _ = Ok (?b, _) _ => enough (a = b) as -> by done end.
  assert (Hl : length (take (Z.to_nat count) st.1) = Z.to_nat count) by (rewrite length_take; zlia).
  rewrite Z2Nat.inj_add by lia. change (Z.to_nat 1) with 1%nat. rewrite take_app_ge, drop_app_ge by lia. rewrite Hl.
  replace (Z.to_nat count + 1 - Z.to_nat count)%nat with 1%nat by lia.
  replace (Z.to_nat count + 1 + length l - Z.to_nat count)%nat with (S (length l)) by lia.
  cbn [take drop length]. rewrite take_0, drop_drop, <- app_assoc. cbn [app]. do 4 f_equal. lia.
Qed.

Lemma flush_eq i t count (st : build_out) :
  0 <= count <= Z.min cap ANTS_REP_SUMMARY_MAX_BUCKETS -> cap <= zlen st.1 ->
  if count <? Z.min cap ANTS_REP_SUMMARY_MAX_BUCKETS then
    flush cap i t count st =
      Ok (take (Z.to_nat count) st.1 ++ mk_bucket i t :: drop (Z.to_nat count + 1) st.1, st.2) (count + 1)
  else flush cap i t count st = Err st ANTS_ERROR_BUFFER_TOO_SMALL.
Proof.
  intros Hc Hcap. unfold flush. destruct (Z.ltb_spec count (Z.min cap ANTS_REP_SUMMARY_MAX_BUCKETS)) as [Hlt|Hge].
  - rewrite !(proj2 (Z.eqb_neq _ _)) by lia. cbn [orb]. unfold get, bind at 1. unfold set_at.
    repeat bdecide. cbn [andb deref]. unfold bind, modify, ret. cbn [fst snd].
    change ANTS_REP_SUMMARY_MAX_BUCKETS with 256 in *. rewrite size_add_small by zlia.
    rewrite insert_take_drop by zlia. by rewrite Nat.add_1_r.
  - replace ((count =? cap) || (count =? ANTS_REP_SUMMARY_MAX_BUCKETS)) with true; [done|].
    symmetry. apply orb_true_iff. rewrite !Z.eqb_eq. lia.
Qed.

Lemma build_loop_eq rs : Forall receipt_ok rs -> forall cur count (st : build_out),
  match cur with Some (i, t) => is_u64 t | None => True end ->
  0 <= count <= Z.min cap ANTS_REP_SUMMARY_MAX_BUCKETS -> cap <= zlen st.1 ->
  put_buckets cap count (groups cur (bag peer now rs)) st (build_loop peer now width params cap rs cur count st).
Proof using peer_size now_u64 params_good.
  intros Hrs. induction Hrs as [|r rest Hr Hrest IH]; intros cur count st Hcur Hc Hcap.
  - change (bag peer now []) with (@nil ants_reputation_receipt_t). cbn [groups build_loop].
    destruct cur as [[i t]|]; [|by apply put_nil]. unfold flushed. destruct (0 <? t); [|by apply put_nil].
    pose proof (flush_eq i t count st Hc Hcap) as Hf.
    destruct (Z.ltb_spec count (Z.min cap ANTS_REP_SUMMARY_MAX_BUCKETS)) as [Hlt|Hge]; rewrite Hf.
    + apply put_cons; [lia|done|]. apply put_nil. lia.
    + unfold put_buckets. rewrite (proj2 (Z.leb_gt _ _)) by (unfold zlen; cbn [length]; lia). exists st.1. by destruct st.
  - cbn [build_loop]. unfold bind at 1, pure_call. rewrite receipt_verify_eq by done.
    unfold bag. rewrite filter_cons. fold (bag peer now rest).
    rewrite (eligible_tests peer now peer_size r) by done.
    destruct (decide (counts peer now r)) as [Hcnt|Hcnt]; [|by apply IH].
    rewrite (contribution_eq now params now_u64 params_good) by (done || apply Hcnt).
    change (decayed _ _ _) with (contribution r). fold (bucket_of r).
    pose proof (contribution_u64 now params now_u64 params_good r Hr) as Hu. unfold groups; fold groups.
    destruct cur as [[i t]|].
    2: { rewrite bind_ret_l, sat_add_eq, Z.add_0_l by done. apply IH; try done. apply capped_u64. unfold is_u64 in Hu. lia. }
    destruct (Z.eqb_spec (bucket_of r) i) as [He|Hne]; cbn [negb andb].
    { rewrite bind_ret_l, sat_add_eq, He by done. apply IH; try done. apply capped_u64. unfold is_u64 in *. lia. }
    rewrite (sat_add_eq 0), Z.add_0_l by done. assert (Hnu : is_u64 (capped (contribution r))) by (apply capped_u64; unfold is_u64 in Hu; lia).
    unfold flushed. destruct (0 <? t); [|rewrite bind_ret_l; by apply IH].
    pose proof (flush_eq i t count st Hc Hcap) as Hf. cbn [app].
    destruct (Z.ltb_spec count (Z.min cap ANTS_REP_SUMMARY_MAX_BUCKETS)) as [Hlt|Hge].
    + rewrite (bind_Ok _ _ _ _ _ Hf). apply put_cons; [lia|done|]. apply IH; [done|lia|]. cbn [fst].
      unfold zlen in *. rewrite length_app, length_take. cbn [length]. rewrite length_drop. lia.
    + unfold bind. rewrite Hf. unfold put_buckets.
      pose proof (zlen_nonneg (groups (Some (bucket_of r, capped (contribution r))) (bag peer now rest))).
      rewrite (proj2 (Z.leb_gt _ _)) by (rewrite zlen_cons; lia). exists st.1. by destruct st.
Qed.
End array.

(** ** The buckets *)

Definition nonzero (t : Z) : option Z := if t =? 0 then None else Some t.

Definition by_time : list ants_reputation_receipt_t -> Prop :=
  StronglySorted (fun r r' => timestamp_unix_s r <= timestamp_unix_s r').

Lemma bucket_sum_cons i r rs :
  bucket_sum i (r :: rs) = (if decide (bucket_of r = i) then contribution r else 0) + bucket_sum i rs.
Proof. unfold bucket_sum. rewrite filter_cons. by destruct (decide (bucket_of r = i)). Qed.

Lemma bucket_sum_nonneg i rs : Forall receipt_ok rs -> 0 <= bucket_sum i rs.
Proof using now_u64 params_good. intros H. apply zsum_nonneg, contributions_nonneg; try done. by apply Forall_filter. Qed.

Lemma canonical_flushed p i t l :
  p < i -> 0 <= t -> buckets_canonical (Some i) l = true -> buckets_canonical (Some p) (flushed i t ++ l) = true.
Proof.
  intros Hp Ht Hl. unfold flushed. destruct (Z.ltb_spec 0 t); cbn [app buckets_canonical bucket_index total_decayed_uncs].
  - rewrite (proj2 (Z.eqb_neq t 0)), (proj2 (Z.leb_gt i p)) by lia. done.
  - revert Hl. destruct l as [|b l]; [done|]. cbn [buckets_canonical]. destruct (_ =? 0); [done|].
    destruct (Z.leb_spec (bucket_index b) i); [done|]. rewrite (proj2 (Z.leb_gt _ p)) by lia. done.
Qed.

Lemma canonical_weaken p l : buckets_canonical (Some p) l = true -> buckets_canonical None l = true.
Proof.
  destruct l as [|b l]; [done|]. cbn [buckets_canonical]. destruct (_ =? 0); [done|]. by destruct (_ <=? _).
Qed.

Lemma stated_flushed j i t l : 0 <= t ->
  stated_total j (flushed i t ++ l) = if decide (i = j) then match nonzero t with Some v => Some v | None => stated_total j l end else stated_total j l.
Proof.
  intros Ht. unfold flushed, nonzero. destruct (Z.ltb_spec 0 t); cbn [app stated_total bucket_index total_decayed_uncs].
  - rewrite (proj2 (Z.eqb_neq t 0)) by lia. destruct (Z.eqb_spec i j); by case_decide.
  - rewrite (proj2 (Z.eqb_eq t 0)) by lia. by case_decide.
Qed.

Lemma stated_above p l : buckets_canonical (Some p) l = true -> forall j, j <= p -> stated_total j l = None.
Proof.
  revert p. induction l as [|b l IH]; intros p Hl j Hj; [done|]. cbn [buckets_canonical] in Hl.
  destruct (_ =? 0); [done|]. destruct (Z.leb_spec (bucket_index b) p); [done|]. cbn [stated_total].
  rewrite (proj2 (Z.eqb_neq _ _)) by lia. apply (IH (bucket_index b)); [done|lia].
Qed.

Lemma groups_spec rs : Forall receipt_ok rs -> by_time rs -> forall i t,
  0 <= t <= UINT64_MAX -> Forall (fun r => i <= bucket_of r) rs ->
  (forall p, p < i -> buckets_canonical (Some p) (groups (Some (i, t)) rs) = true) /\
  forall j, stated_total j (groups (Some (i, t)) rs) =
    nonzero (capped ((if decide (i = j) then t else 0) + bucket_sum j rs)).
Proof using now_u64 params_good width_pos.
  intros Hok. induction Hok as [|r rs Hr Hrs IH]; intros Hs i t Ht Hi.
  - cbn [groups]. split.
    + intros p Hp. rewrite <- (app_nil_r (flushed i t)). by apply canonical_flushed; [|lia|].
    + intros j. rewrite <- (app_nil_r (flushed i t)), stated_flushed by lia. cbn [stated_total].
      change (bucket_sum j []) with 0. rewrite Z.add_0_r. case_decide; [|done].
      unfold capped. rewrite Z.min_r by lia. by destruct (nonzero t).
  - apply StronglySorted_inv in Hs as [Hs Hall]. apply Forall_cons in Hi as [Hir Hi].
    pose proof (contribution_u64 now params now_u64 params_good r Hr) as Hu. unfold is_u64 in Hu.
    assert (Hnext : Forall (fun r' => bucket_of r <= bucket_of r') rs).
    { eapply Forall_impl; [exact Hall|]. intros r' Hle. by apply Z.div_le_mono. }
    assert (Hcap : forall x, 0 <= x -> 0 <= capped x <= UINT64_MAX) by (intros; unfold capped, UINT64_MAX; lia).
    cbn [groups]. destruct (Z.eqb_spec (bucket_of r) i) as [He|Hne].
    + subst i. destruct (IH Hs (bucket_of r) (capped (t + contribution r)) ltac:(apply Hcap; lia) Hnext) as [Hc Ht'].
      split; [done|]. intros j. rewrite Ht', bucket_sum_cons. pose proof (bucket_sum_nonneg j rs Hrs).
      destruct (decide (bucket_of r = j)); [|done]. by rewrite capped_add, <- Z.add_assoc.
    + destruct (IH Hs (bucket_of r) (capped (contribution r)) ltac:(apply Hcap; lia) Hnext) as [Hc Ht'].
      assert (i < bucket_of r) by lia. split.
      * intros p Hp. apply canonical_flushed; [done|lia|]. by apply Hc.
      * intros j. rewrite stated_flushed, Ht', bucket_sum_cons by lia. pose proof (bucket_sum_nonneg j rs Hrs).
        destruct (decide (i = j)) as [<-|Hij].
        -- rewrite !(decide_False (P := bucket_of r = i)) by lia.
           assert (Hz : bucket_sum i rs = 0).
           { unfold bucket_sum. rewrite filter_none; [done|]. eapply Forall_impl; [exact Hnext|]. intros r' Hr'. cbn in *. lia. }
           rewrite Hz, !Z.add_0_r. unfold nonzero, capped. rewrite !Z.min_r by (unfold UINT64_MAX in *; lia).
           by destruct (Z.eqb_spec t 0).
        -- destruct (decide (bucket_of r = j)); [|done]. by rewrite capped_add.
Qed.

Lemma groups_all rs : Forall receipt_ok rs -> by_time rs ->
  buckets_canonical None (groups None rs) = true /\
  forall j, stated_total j (groups None rs) = nonzero (capped (bucket_sum j rs)).
Proof using now_u64 params_good width_pos.
  intros Hok Hs. destruct rs as [|r rs]; [by split; [|intros]|]. cbn [groups].
  apply Forall_cons in Hok as [Hr Hrs]. apply StronglySorted_inv in Hs as [Hs Hall].
  pose proof (contribution_u64 now params now_u64 params_good r Hr) as Hu. unfold is_u64 in Hu.
  destruct (groups_spec rs Hrs Hs (bucket_of r) (capped (contribution r))) as [Hc Ht].
  { unfold capped, UINT64_MAX. lia. }
  { eapply Forall_impl; [exact Hall|]. intros r' Hle. by apply Z.div_le_mono. }
  split; [by apply (canonical_weaken (bucket_of r - 1)), Hc; lia|]. intros j. rewrite Ht, bucket_sum_cons.
  pose proof (bucket_sum_nonneg j rs Hrs). destruct (decide (bucket_of r = j)); [|done]. by rewrite capped_add.
Qed.

(** A bag in canonical order is in the order of time, and so are the receipts
    that count. *)
Lemma by_time_filter (P : ants_reputation_receipt_t -> Prop) `{!forall r, Decision (P r)} rs :
  by_time rs -> by_time (filter P rs).
Proof.
  induction 1 as [|r rs Hs IH Hr]; [constructor|]. rewrite filter_cons. destruct (decide (P r)); [|done].
  constructor; [done|]. by apply Forall_filter.
Qed.

Lemma canonical_by_time rs : canonical_bag rs = true -> by_time rs.
Proof using Laws.
  intros H%canonical_sorted. induction H as [|r rs Hs IH Hr]; constructor; [done|].
  eapply Forall_impl; [exact Hr|]. intros r' [|[]]; lia.
Qed.
End buckets.
