(* ===== verification/RepSummaryThms.v ===== *)
(** * Summaries can be built, audited and trusted (reputation.c) *)

From stdpp Require Import strings.
From S2P Require Import Prelude Cbor CborSpec CborKv CborRecord Crypto Merkle Crdt BondCodec Chain Reputation.
From S2P Require Import RepFixed RepCompute RepBag RepBagTree RepDisclose RepDiscloseThms RepSummary.
From S2P Require Import RepBuckets.
Import Crdt Reputation RepBag RepSummary.

#[local] Arguments zlen {A} l : simpl never.

(** The total of a bucket of a bag: what its receipts that count add to A at
    [now], saturating. *)
Definition bucket_total `{Ed : Ed25519} (peer : bytes) (now width : Z) (params : ants_reputation_params_t)
  (rs : list ants_reputation_receipt_t) (i : Z) : Z := capped (bucket_sum now width params i (bag peer now rs)).

Lemma stated_in l : forall i t, stated_total i l = Some t -> mk_bucket i t ∈ l.
Proof.
  induction l as [|[j v] l IH]; intros i t H; [done|]. cbn [stated_total bucket_index total_decayed_uncs] in H.
  destruct (Z.eqb_spec j i) as [->|]; [injection H as ->; by left|right; by apply IH].
Qed.

Lemma canonical_indices l : forall p, buckets_canonical (Some p) l = true ->
  NoDup (map bucket_index l) /\ Forall (fun b => p < bucket_index b /\ stated_total (bucket_index b) l = Some (total_decayed_uncs b)) l.
Proof.
  induction l as [|b l IH]; intros p Hl; [by split; constructor|]. pose proof Hl as Hl'. cbn [buckets_canonical] in Hl.
  destruct (_ =? 0) eqn:E; [done|]. destruct (Z.leb_spec (bucket_index b) p) as [|Hp]; [done|].
  destruct (IH _ Hl) as [Hn Hf]. split.
  - constructor; [|done]. intros (c & He & Hc)%list_elem_of_fmap. rewrite Forall_forall in Hf. specialize (Hf c Hc). lia.
  - constructor; [split; [done|]; cbn [stated_total]; by rewrite Z.eqb_refl|].
    eapply Forall_impl; [exact Hf|]. intros c [Hc Hs]. split; [lia|]. cbn [stated_total].
    by rewrite (proj2 (Z.eqb_neq _ _)) by lia.
Qed.

Lemma canonical_stated l : buckets_canonical None l = true ->
  NoDup (map bucket_index l) /\ Forall (fun b => stated_total (bucket_index b) l = Some (total_decayed_uncs b)) l.
Proof.
  intros Hl. destruct l as [|b l]; [by split; constructor|].
  destruct (canonical_indices (b :: l) (bucket_index b - 1)) as [Hn Hf].
  { revert Hl. cbn [buckets_canonical]. destruct (_ =? 0); [done|]. by rewrite (proj2 (Z.leb_gt _ _)) by lia. }
  split; [done|]. eapply Forall_impl; [exact Hf|]. by intros c [].
Qed.

Section summary.
Context `{B : Blake3} {Laws : Blake3Laws B} `{Ed : Ed25519}.
Context (peer : bytes) (now width : Z) (params : ants_reputation_params_t).
Context (peer_size : zlen peer = 32) (now_u64 : is_u64 now) (params_good : params_ok params) (width_pos : 0 < width).

Lemma build_guards rs cap arr old :
  Forall receipt_typed rs -> zlen rs <= ANTS_REP_MAX_RECEIPTS ->
  ants_reputation_summary_build (Some rs) (zlen rs) peer now width (Some params) cap (arr, old) =
    if canonical_bag rs then
      if zlen rs =? 0 then Ok (arr, 0) tt
      else (let* count := build_loop peer now width params cap rs None 0 in modify (fun st => (st.1, count))) (arr, 0)
    else Err (arr, 0) ANTS_ERROR_NON_CANONICAL.
Proof using Laws params_good width_pos.
  intros Hrs Hn. unfold ants_reputation_summary_build. cbn [is_null andb default].
  rewrite (proj2 (Z.ltb_ge ANTS_REP_MAX_RECEIPTS (zlen rs))), (proj2 (Z.eqb_neq width 0)) by lia. cbn [orb].
  rewrite (not_degenerate params params_good). unfold modify at 1, bind at 1. cbn [fst snd].
  destruct (Z.eqb_spec (zlen rs) 0) as [Hz|Hz]; [assert (rs = []) as -> by (by apply zlen_O); done|].
  rewrite first_n_all. unfold deref, bind at 1. unfold bind at 1, pure_call.
  rewrite canonical_ordered_eq by (done || by intros ->). by destruct (canonical_bag rs).
Qed.

Lemma build_eq rs cap arr old :
  Forall receipt_typed rs -> zlen rs <= ANTS_REP_MAX_RECEIPTS -> 0 <= cap <= zlen arr -> canonical_bag rs = true ->
  let g := groups now width params None (bag peer now rs) in
  let res := ants_reputation_summary_build (Some rs) (zlen rs) peer now width (Some params) cap (arr, old) in
  if zlen g <=? Z.min cap ANTS_REP_SUMMARY_MAX_BUCKETS
  then res = Ok (g ++ drop (length g) arr, zlen g) tt
  else exists arr', res = Err (arr', 0) ANTS_ERROR_BUFFER_TOO_SMALL.
Proof using Laws peer_size now_u64 params_good width_pos.
  intros Hrs Hn Hcap Hcan g res. unfold res. rewrite build_guards, Hcan by done. clear res.
  destruct (Z.eqb_spec (zlen rs) 0) as [Hz|Hz].
  { assert (rs = []) as -> by (by apply zlen_O). subst g. cbn. change (zlen (@nil ants_reputation_summary_bucket_t)) with 0.
    rewrite (proj2 (Z.leb_le _ _)) by (unfold ANTS_REP_SUMMARY_MAX_BUCKETS; lia). by rewrite drop_0. }
  pose proof (build_loop_eq peer now width params peer_size now_u64 params_good cap rs (typed_ok _ Hrs) None 0 (arr, 0)
    I ltac:(unfold ANTS_REP_SUMMARY_MAX_BUCKETS; lia) ltac:(cbn; lia)) as H.
  unfold put_buckets in H. fold g in H. rewrite Z.add_0_l in H. destruct (zlen g <=? _).
  - by rewrite (bind_Ok _ _ _ _ _ H).
  - destruct H as [st' H]. exists st'. unfold bind. by rewrite H.
Qed.

Lemma groups_totals rs : Forall receipt_typed rs -> canonical_bag rs = true ->
  let g := groups now width params None (bag peer now rs) in
  buckets_canonical None g = true /\ forall i, stated_total i g = nonzero (bucket_total peer now width params rs i).
Proof using Laws now_u64 params_good width_pos.
  intros Hrs Hcan. apply groups_all; try done; [by apply bag_ok_receipts, typed_ok|].
  by apply by_time_filter, canonical_by_time.
Qed.

(** ** The audit *)

Definition in_bucket (i : Z) (r : ants_reputation_receipt_t) : bool := timestamp_unix_s r / width =? i.

Lemma audit_eq s i stated ops n u :
  sm_peer_id s = peer -> sm_eval_time s = now -> sm_bucket_width s = width -> zlen (sm_bag_root s) = 32 ->
  zlen (sm_buckets s) <= ANTS_REP_SUMMARY_MAX_BUCKETS -> stated_total i (sm_buckets s) = Some stated ->
  Forall opening_typed ops -> zlen ops <= ANTS_REP_MAX_RECEIPTS -> n <= ANTS_REP_MAX_RECEIPTS ->
  ants_reputation_summary_audit_bucket s i (Some ops) (zlen ops) n (Some params) u =
    Ok u (bool_decide (all_accepted peer now n (sm_bag_root s) (in_bucket i) [] ops /\ stated <= proven now params ops)).
Proof using Laws peer_size now_u64 params_good width_pos.
  intros Hid Ht Hw Hroot Hb Hs Hops Hk Hn. unfold ants_reputation_summary_audit_bucket. cbn [is_null andb default].
  rewrite Hid, Ht, Hw. rewrite (proj2 (Z.eqb_neq width 0)) by lia. repeat bdecide. cbn [orb].
  rewrite (not_degenerate params params_good), Hs, first_n_all. unfold deref, bind at 1.
  change (fun r => timestamp_unix_s r / width =? i) with (in_bucket i).
  rewrite (bind_Ok _ _ _ _ _ (openings_loop_eq peer now params peer_size now_u64 params_good n (sm_bag_root s) (in_bucket i)
    ops u Hops Hroot Hn [] 0 (NoDup_nil_2) ltac:(done))).
  unfold ret, reaches, proven. rewrite Z.add_0_l. f_equal.
  destruct (decide (all_accepted peer now n (sm_bag_root s) (in_bucket i) [] ops)).
  - rewrite bool_decide_true by done. apply Bool.eq_iff_eq_true. rewrite Z.leb_le, bool_decide_eq_true. tauto.
  - rewrite bool_decide_false by done. symmetry. apply bool_decide_false. tauto.
Qed.

Lemma in_bucket_filter i (rs : list ants_reputation_receipt_t) :
  filter (fun r => in_bucket i r = true) rs = filter (fun r => bucket_of width r = i) rs.
Proof. apply list_filter_iff. intros r. unfold in_bucket, bucket_of. by rewrite Z.eqb_eq. Qed.

Lemma audited_bounded rs n ops i :
  Forall receipt_typed rs -> Forall opening_typed ops -> n <= ANTS_REP_MAX_RECEIPTS -> no_collision peer rs n ops ->
  all_accepted peer now n (bag_commitment peer (bag_tree rs)) (in_bucket i) [] ops ->
  proven now params ops <= bucket_total peer now width params rs i.
Proof using Laws now_u64 params_good.
  intros Hrs Hops Hn Hcf [Hnd Hall]. unfold proven, bucket_total, bucket_sum. rewrite <- in_bucket_filter.
  match goal with |- capped ?a <= capped ?b => enough (a <= b) by (unfold capped; lia) end.
  apply zsum_submseteq; [|by apply contributions_nonneg, Forall_filter, bag_ok_receipts, typed_ok].
  apply fmap_submseteq. by apply (revealed_counted peer now rs n ops (in_bucket i)).
Qed.

(** The receipts of a bucket with their positions. *)
Definition bucket_places (rs : list ants_reputation_receipt_t) (i : Z) : list (Z * ants_reputation_receipt_t) :=
  filter (fun p => counts peer now p.2 /\ in_bucket i p.2 = true) (zip (map Z.of_nat (seq 0 (length rs))) rs).

Lemma bucket_places_ok rs i :
  Forall (in_bag peer now rs) (bucket_places rs i) /\ Forall (fun p => in_bucket i p.2 = true) (bucket_places rs i) /\
  NoDup (map fst (bucket_places rs i)) /\ map snd (bucket_places rs i) = filter (fun r => bucket_of width r = i) (bag peer now rs).
Proof.
  unfold bucket_places. set (ps := zip _ rs).
  assert (Hin : forall p, p ∈ ps -> 0 <= p.1 < zlen rs /\ rs !! Z.to_nat p.1 = Some p.2).
  { intros [k r] Hp. apply list_elem_of_lookup in Hp as [j Hj]. apply lookup_zip_with_Some in Hj as (k' & r' & [= -> ->] & Hk & Hr).
    apply list_lookup_fmap_Some in Hk as (m & -> & Hm). apply lookup_seq in Hm as [-> Hm]. cbn [fst snd]. rewrite Nat2Z.id.
    cbn. split; [unfold zlen; lia|done]. }
  assert (Hfst : map fst ps = map Z.of_nat (seq 0 (length rs))).
  { unfold ps. apply fst_zip. by rewrite length_fmap, length_seq. }
  assert (Hsnd : map snd ps = rs) by (unfold ps; apply snd_zip; by rewrite length_fmap, length_seq).
  split_and!.
  - apply Forall_forall. intros p [[Hc _] Hp]%list_elem_of_filter. destruct (Hin p Hp). by split.
  - apply Forall_forall. by intros p [[_ Hb] _]%list_elem_of_filter.
  - apply (sublist_NoDup _ (map fst ps)); [rewrite Hfst; apply NoDup_fmap_2, NoDup_seq; apply _|].
    apply fmap_sublist. clear. induction ps as [|p ps IH]; [constructor|]. rewrite filter_cons.
    case_decide; [by apply sublist_skip|by apply sublist_cons].
  - unfold bag. rewrite <- in_bucket_filter, <- Hsnd at 1. clear. rewrite list_filter_filter.
    induction ps as [|p ps IH]; [done|]. cbn [map]. rewrite !filter_cons.
    destruct (decide (counts peer now p.2 /\ in_bucket i p.2 = true)) as [[]|];
      destruct (decide (in_bucket i p.2 = true /\ counts peer now p.2)) as [[]|]; try tauto; cbn [map]; by rewrite IH.
Qed.
End summary.

(** ** The guarantees *)

(** C33: A summary says what the bag holds: bucketing a bag gives, in canonical
    form, exactly the buckets whose receipts add something to A at the
    evaluation time, each with the sum of what they add.  It fails only for a
    bag out of order, or when there are more such buckets than the array or
    the protocol has room for. *)
Theorem summary_build_exact `{B : Blake3} {Laws : Blake3Laws B} `{Ed : Ed25519} peer now width params rs cap arr old :
  zlen peer = 32 -> is_u64 now -> 0 < width -> params_ok params -> Forall receipt_typed rs ->
  zlen rs <= ANTS_REP_MAX_RECEIPTS -> 0 <= cap <= zlen arr ->
  let room := Z.min cap ANTS_REP_SUMMARY_MAX_BUCKETS in
  let total := bucket_total peer now width params rs in
  match ants_reputation_summary_build (Some rs) (zlen rs) peer now width (Some params) cap (arr, old) with
  | Ok (arr', n) _ =>
    0 <= n <= room /\ buckets_canonical None (take (Z.to_nat n) arr') = true /\
    forall i, stated_total i (take (Z.to_nat n) arr') = nonzero (total i)
  | Err (_, n) e =>
    n = 0 /\ ((e = ANTS_ERROR_NON_CANONICAL /\ canonical_bag rs = false) \/
      (e = ANTS_ERROR_BUFFER_TOO_SMALL /\
       exists busy, NoDup busy /\ Forall (fun i => total i <> 0) busy /\ room < zlen busy))
  | UB | NoFuel => False
  end.
Proof.
  intros Hpeer Hnow Hw Hp Hrs Hn Hcap room total. destruct (canonical_bag rs) eqn:Hcan.
  - destruct (groups_totals peer now width params Hnow Hp Hw rs Hrs Hcan) as [Hc Ht].
    pose proof (build_eq peer now width params Hpeer Hnow Hp Hw rs cap arr old Hrs Hn Hcap Hcan) as H. cbv zeta in *.
    set (g := groups now width params None (bag peer now rs)) in *. fold room in H. destruct (Z.leb_spec (zlen g) room) as [Hle|Hgt].
    + rewrite H. rewrite zlen_to_nat, take_app_length. pose proof (zlen_nonneg g). split; [lia|]. by split.
    + destruct H as [arr' ->]. split; [done|]. right. split; [done|]. exists (map bucket_index g).
      destruct (canonical_stated g Hc) as [Hnd Hall]. split; [done|]. split; [|by unfold zlen in *; rewrite length_map].
      apply Forall_fmap. eapply Forall_impl; [exact Hall|]. intros b Hb. cbn beta in *. rewrite Ht in Hb. unfold nonzero in Hb.
      fold total in Hb. by destruct (Z.eqb_spec (total (bucket_index b)) 0).
  - rewrite (build_guards peer now width params Hp Hw), Hcan by done. split; [done|]. by left.
Qed.

(** C34: An audit is fair: an honest summary survives the audit of every bucket
    it states, with the openings of all receipts of the bucket; and whatever
    openings convince an auditor, the stated total is no more than the
    receipts of the committed bag add up to in that bucket, unless two of the
    hashed byte strings collide. *)
Theorem summary_audit_fair `{B : Blake3} {Laws : Blake3Laws B} `{Ed : Ed25519} params rs s i stated u :
  params_ok params -> Forall receipt_typed rs -> zlen rs <= ANTS_REP_MAX_RECEIPTS ->
  zlen (sm_peer_id s) = 32 -> is_u64 (sm_eval_time s) -> summary_struct_canonical s = true -> 0 <= sm_bucket_width s ->
  ants_reputation_bag_root (Some rs) (zlen rs) (sm_peer_id s) u = Ok u (sm_bag_root s) ->
  stated_total i (sm_buckets s) = Some stated ->
  let total := bucket_total (sm_peer_id s) (sm_eval_time s) (sm_bucket_width s) params rs i in
  let audit ops n := ants_reputation_summary_audit_bucket s i (Some ops) (zlen ops) n (Some params) u in
  (stated <= total -> exists places ops, Forall2 (opened rs) places ops /\ audit ops (zlen rs) = Ok u true) /\
  (forall ops n, Forall opening_typed ops -> zlen ops <= ANTS_REP_MAX_RECEIPTS -> n <= ANTS_REP_MAX_RECEIPTS ->
    no_collision (sm_peer_id s) rs n ops -> audit ops n = Ok u true -> stated <= total).
Proof.
  intros Hp Hrs Hn Hpeer Hnow Hs Hw0 Hroot Hst total audit. rewrite bag_root_eq in Hroot by done.
  destruct (canonical_bag rs) eqn:Hcan; [|done]. injection Hroot as Hroot. unfold summary_struct_canonical in Hs.
  destruct (Z.eqb_spec (sm_bucket_width s) 0) as [|Hw1]; [done|].
  destruct (Z.ltb_spec ANTS_REP_SUMMARY_MAX_BUCKETS (zlen (sm_buckets s))) as [|Hb]; [done|].
  assert (Hw : 0 < sm_bucket_width s) by lia. assert (Hsz : zlen (sm_bag_root s) = 32) by (rewrite <- Hroot; apply finalize_size).
  pose proof (fun ops n => audit_eq (sm_peer_id s) (sm_eval_time s) (sm_bucket_width s) params Hpeer Hnow Hp Hw s i stated ops n u
    eq_refl eq_refl eq_refl Hsz Hb Hst) as Ha. split.
  - intros Hle. destruct (bucket_places_ok (sm_peer_id s) (sm_eval_time s) (sm_bucket_width s) rs i) as (Hin & Hbk & Hnd & Hsnd).
    set (l := bucket_places _ _ _ rs i) in *. exists (map fst l), (open_chosen rs l).
    split; [by apply open_chosen_opened with (sm_peer_id s) (sm_eval_time s)|]. unfold audit.
    rewrite Ha; [|by apply (open_chosen_typed (sm_peer_id s) (sm_eval_time s))| |done].
    + f_equal. apply bool_decide_true. rewrite <- Hroot. split; [by apply open_chosen_accepted|].
      unfold proven. rewrite open_chosen_revealed, Hsnd. exact Hle.
    + apply (f_equal length) in Hsnd. rewrite length_map in Hsnd. unfold open_chosen, zlen. rewrite length_map, Hsnd.
      unfold bag. rewrite list_filter_filter. etrans; [apply inj_le, length_filter|]. exact Hn.
  - intros ops n Hops Hk Hcap Hcf Hv. unfold audit in Hv. rewrite Ha in Hv by done. injection Hv as Hv.
    apply bool_decide_eq_true in Hv as [Hall Hle]. etrans; [exact Hle|]. rewrite <- Hroot in Hall.
    by apply (audited_bounded (sm_peer_id s) (sm_eval_time s) (sm_bucket_width s) params Hnow Hp rs n).
Qed.

Definition demo_summary : ants_reputation_summary_t :=
  mk_rep_summary demo_server demo_root demo_now 3600 [mk_bucket 2 2000; mk_bucket 3 200; mk_bucket 4 30] (replicate 64 0).

Lemma summary_build_exact_witness :
  match @ants_reputation_summary_build mix_blake3 toy_ed25519 (Some demo_bag) (zlen demo_bag) demo_server demo_now 3600
          (Some ants_reputation_params_default) 4 (replicate 4 (mk_bucket 0 0), 9) with
  | Ok (arr, n) _ => n <= 4 /\ stated_total 3 (take (Z.to_nat n) arr) = Some 200
  | Err (_, n) e => n = 0
  | UB | NoFuel => False
  end.
Proof.
  pose proof (@summary_build_exact mix_blake3 mix_blake3_laws toy_ed25519 demo_server demo_now 3600
    ants_reputation_params_default demo_bag 4 (replicate 4 (mk_bucket 0 0)) 9 eq_refl ltac:(done) ltac:(done)
    demo_params_ok demo_bag_typed ltac:(done) ltac:(done)) as H. cbv zeta in H.
  destruct (ants_reputation_summary_build _ _ _ _ _ _ _ _) as [[arr n] []|[arr n] e| |]; [|apply H|destruct H..].
  destruct H as (Hn & _ & Ht). change ANTS_REP_SUMMARY_MAX_BUCKETS with 256 in Hn. split; [lia|]. rewrite Ht. by vm_compute.
Defined.

Lemma summary_audit_fair_witness :
  exists places ops, Forall2 (@opened mix_blake3 demo_bag) places ops /\
    @ants_reputation_summary_audit_bucket mix_blake3 toy_ed25519 demo_summary 3 (Some ops) (zlen ops) (zlen demo_bag)
      (Some ants_reputation_params_default) tt = Ok tt true.
Proof.
  apply (@summary_audit_fair mix_blake3 mix_blake3_laws toy_ed25519 ants_reputation_params_default demo_bag demo_summary 3 200 tt
    demo_params_ok demo_bag_typed ltac:(done) ltac:(done) ltac:(done) ltac:(done) ltac:(done) demo_root_eq eq_refl).
  by vm_compute.
Defined.
