(* ===== verification/RepSummaryCodec.v ===== *)
(** * Summaries on the wire (reputation.c)

    A summary in canonical form has one encoding; the decoder gives it back
    and accepts nothing else, and the signature covers the same pairs. *)

From S2P Require Import Prelude Cbor CborSpec CborEnc CborCanon CborContract CborKv CborRecord CborCodec.
From S2P Require Import CborParse Crypto BondCodec PaymentCodec Crdt CrdtParse Chain ChainCodec Reputation.
From S2P Require Import RepCompute RepBag RepSummary.
Import Reputation RepBag RepSummary.

#[local] Arguments zlen {A} l : simpl never.

(** ** The documents *)

Definition bucket_doc (b : ants_reputation_summary_bucket_t) : cbor :=
  CArray [CUint (bucket_index b); CUint (total_decayed_uncs b)].

Definition rsum_pairs (s : ants_reputation_summary_t) : list (cbor * cbor) :=
  [(CUint 1, CBytes (sm_peer_id s)); (CUint 2, CBytes (sm_bag_root s)); (CUint 3, CUint (sm_eval_time s));
   (CUint 4, CUint (sm_bucket_width s)); (CUint 5, CArray (map bucket_doc (sm_buckets s)))].

(** What is signed, and what travels. *)
Definition rsum_body (s : ants_reputation_summary_t) : cbor := CMap (rsum_pairs s).
Definition rsum_doc (s : ants_reputation_summary_t) : cbor := CMap (rsum_pairs s ++ [(CUint 6, CBytes (sm_sig s))]).

(** The field types of the C structs. *)
Definition bucket_typed (b : ants_reputation_summary_bucket_t) : Prop :=
  is_u64 (bucket_index b) /\ is_u64 (total_decayed_uncs b).

Definition rsum_typed (s : ants_reputation_summary_t) : Prop :=
  hash_ok (sm_peer_id s) /\ hash_ok (sm_bag_root s) /\ is_u64 (sm_eval_time s) /\ is_u64 (sm_bucket_width s) /\
  Forall bucket_typed (sm_buckets s) /\ bytes_ok (sm_sig s) /\ zlen (sm_sig s) = ANTS_REP_SIG_SIZE.

(** What the encoders accept. *)
Definition rsum_ok (s : ants_reputation_summary_t) : Prop := rsum_typed s /\ summary_struct_canonical s = true.

Lemma struct_canonical_iff s : summary_struct_canonical s = true <->
  sm_bucket_width s <> 0 /\ zlen (sm_buckets s) <= ANTS_REP_SUMMARY_MAX_BUCKETS /\ buckets_canonical None (sm_buckets s) = true.
Proof.
  unfold summary_struct_canonical. destruct (Z.eqb_spec (sm_bucket_width s) 0); cbn [orb]; [naive_solver|].
  destruct (Z.ltb_spec ANTS_REP_SUMMARY_MAX_BUCKETS (zlen (sm_buckets s))); [split; [done|lia]|]. naive_solver lia.
Qed.

Lemma bucket_wf b : bucket_typed b -> wf (bucket_doc b).
Proof. intros [Hi Ht]. apply wf_array. split; [done|].
  constructor; [done|]. constructor; [done|]. constructor. Qed.

Lemma bucket_size b : zlen (encode (bucket_doc b)) <= 19.
Proof.
  unfold bucket_doc. cbn [encode map concat]. rewrite !zlen_app.
  pose proof (head_size 0 (bucket_index b)). pose proof (head_size 0 (total_decayed_uncs b)).
  change (zlen (@nil Z)) with 0. match goal with |- context [encode_head 4 ?n] => change (zlen (encode_head 4 n)) with 1 end. lia.
Qed.

Lemma buckets_size bs : zlen (concat (map encode (map bucket_doc bs))) <= zlen bs * 19.
Proof.
  induction bs as [|b bs IH]; [done|]. cbn [map concat]. rewrite zlen_app, zlen_cons. pose proof (bucket_size b). lia.
Qed.

Lemma buckets_height bs : (height (CArray (map bucket_doc bs)) <= 2)%nat.
Proof.
  enough (H : (foldr (fun x h => Nat.max (height x) h) 0 (map bucket_doc bs) <= 1)%nat)
    by (destruct bs; [cbn; lia|cbn [height map] in *; lia]).
  induction bs as [|b bs IH]; [cbn; lia|]. cbn [map foldr]. change (height (bucket_doc b)) with 1%nat. lia.
Qed.

Lemma rsum_fields_wf s : rsum_typed s -> zlen (sm_buckets s) <= UINT64_MAX -> Forall (fun p => wf p.1 /\ wf p.2) (rsum_pairs s).
Proof.
  intros (Hp & Hr & He & Hw & Hb & _) Hn. unfold rsum_pairs.
  repeat (constructor; [split; [done|first [done | by apply hash_wf]]|]). constructor; [|constructor].
  split; [done|]. apply wf_array. split; [by rewrite zlen_map|]. apply Forall_map.
  eapply Forall_impl; [exact Hb|]. apply bucket_wf.
Qed.

Lemma rsum_wf s : rsum_typed s -> zlen (sm_buckets s) <= UINT64_MAX -> wf (rsum_doc s).
Proof.
  intros Hs Hn. apply wf_map. split; [done|]. split; [by repeat constructor|]. apply Forall_app.
  split; [by apply rsum_fields_wf|]. destruct Hs as (_ & _ & _ & _ & _ & Hb & Hz). constructor; [|constructor].
  split; [done|]. split; [done|]. unfold ANTS_REP_SIG_SIZE in Hz. zlia.
Qed.

Lemma rsum_body_wf s : rsum_typed s -> zlen (sm_buckets s) <= UINT64_MAX -> wf (rsum_body s).
Proof. intros Hs Hn. apply wf_map. split; [done|]. split; [by repeat constructor|]. by apply rsum_fields_wf. Qed.

Lemma rsum_sizes s : rsum_typed s ->
  zlen (encode (rsum_body s)) <= 101 + zlen (sm_buckets s) * 19 /\
  zlen (encode (rsum_doc s)) <= 170 + zlen (sm_buckets s) * 19.
Proof.
  intros ((_ & Hp) & (_ & Hr) & _ & _ & _ & _ & Hs). pose proof (buckets_size (sm_buckets s)) as Hb.
  unfold ANTS_REP_SIG_SIZE in Hs. pose proof (head_size 0 (sm_eval_time s)). pose proof (head_size 0 (sm_bucket_width s)).
  pose proof (head_size 4 (zlen (sm_buckets s))).
  assert (Ht : forall k, 0 <= k < 24 -> zlen (encode_head 0 k) = 1) by (intros k Hk; apply head_size_tiny; lia).
  unfold rsum_doc, rsum_body, rsum_pairs. cbn [app encode map concat].
  rewrite !zlen_app, !zlen_map, Hp, Hr, Hs, !(Ht 1), !(Ht 2), !(Ht 3), !(Ht 4), !(Ht 5), (Ht 6) by lia.
  repeat match goal with |- context [encode_head 5 ?n] => change (zlen (encode_head 5 n)) with 1 end.
  change (zlen (@nil Z)) with 0. change (zlen (encode_head 2 32)) with 2. change (zlen (encode_head 2 64)) with 2. lia.
Qed.

Lemma rsum_heights s : (height (rsum_body s) <= 3)%nat /\ (height (rsum_doc s) <= 3)%nat.
Proof.
  pose proof (buckets_height (sm_buckets s)). unfold rsum_doc, rsum_body, rsum_pairs.
  cbn [app height foldr] in *. lia.
Qed.

(** The buffer sizes of the header are enough. *)
Lemma rsum_bounded s : rsum_ok s ->
  zlen (encode (rsum_body s)) <= ANTS_REP_SUMMARY_BODY_ENCODED_MAX /\
  zlen (encode (rsum_doc s)) <= ANTS_REP_SUMMARY_ENCODED_MAX.
Proof.
  intros [Ht (_ & Hn & _)%struct_canonical_iff]. pose proof (rsum_sizes s Ht).
  unfold ANTS_REP_SUMMARY_BODY_ENCODED_MAX, ANTS_REP_SUMMARY_ENCODED_MAX, ANTS_REP_SUMMARY_MAX_BUCKETS in *. lia.
Qed.

Lemma rsum_readable s : rsum_ok s -> readable (rsum_body s) /\ readable (rsum_doc s).
Proof.
  intros Hs. pose proof (rsum_bounded s Hs) as [Hb1 Hb2]. pose proof (rsum_heights s) as [Hh1 Hh2].
  destruct Hs as [Ht (_ & Hn & _)%struct_canonical_iff].
  unfold ANTS_REP_SUMMARY_BODY_ENCODED_MAX, ANTS_REP_SUMMARY_ENCODED_MAX, ANTS_REP_SUMMARY_MAX_BUCKETS in *.
  split; (split; [first [apply rsum_body_wf | apply rsum_wf]; [done|zlia]|split; [lia|zlia]]).
Qed.

(** ** Writing *)

Lemma encode_buckets_emit bs : forall e, encode_buckets bs e = seq_actions (map emit (map bucket_doc bs)) e.
Proof.
  induction bs as [|b bs IH]; intros e; [done|]. cbn [map encode_buckets]. rewrite seq_cons.
  unfold bucket_doc at 1. cbn [emit map seq_actions foldr]. act_eq. apply IH.
Qed.

Lemma rsum_body_emit s e :
  (ants_cbor_enc_map SUMMARY_BODY_PAIRS ;* summary_encode_body_pairs s) e = emit (rsum_body s) e.
Proof.
  unfold summary_encode_body_pairs, rsum_body, rsum_pairs, enc_kv_bytes, enc_kv_uint.
  cbn [emit map seq_actions foldr]. rewrite zlen_map. act_eq. apply encode_buckets_emit.
Qed.

Lemma rsum_emit s e :
  (ants_cbor_enc_map SUMMARY_FULL_PAIRS ;* summary_encode_body_pairs s ;* enc_kv_bytes SUMMARY_KEY_SIG (sm_sig s)) e =
  emit (rsum_doc s) e.
Proof.
  unfold summary_encode_body_pairs, rsum_doc, rsum_pairs, enc_kv_bytes, enc_kv_uint.
  cbn [app emit map seq_actions foldr]. rewrite zlen_map. act_eq.
  unfold bind at 1 3. rewrite encode_buckets_emit. destruct (seq_actions _ _); try done. act_eq.
Qed.

Lemma rsum_encodes s cap buf :
  rsum_ok s -> ANTS_REP_SUMMARY_ENCODED_MAX <= cap <= zlen buf -> zlen buf <= INT64_MAX ->
  exists buf', ants_reputation_summary_encode s cap buf = Ok buf' (zlen (encode (rsum_doc s))) /\
    take (length (encode (rsum_doc s))) buf' = encode (rsum_doc s).
Proof.
  intros Hs Hc Hb. pose proof (rsum_bounded s Hs) as [_ Hz]. unfold ants_reputation_summary_encode.
  rewrite (proj2 Hs). cbn [negb]. apply emits_document; [by apply rsum_readable|intros; apply rsum_emit|lia|done].
Qed.

Lemma rsum_body_encodes s cap buf :
  rsum_ok s -> ANTS_REP_SUMMARY_BODY_ENCODED_MAX <= cap <= zlen buf -> zlen buf <= INT64_MAX ->
  exists buf', ants_reputation_summary_body_encode s cap buf = Ok buf' (zlen (encode (rsum_body s))) /\
    take (length (encode (rsum_body s))) buf' = encode (rsum_body s).
Proof.
  intros Hs Hc Hb. pose proof (rsum_bounded s Hs) as [Hz _]. unfold ants_reputation_summary_body_encode.
  rewrite (proj2 Hs). cbn [negb]. apply emits_document; [by apply rsum_readable|intros; apply rsum_body_emit|lia|done].
Qed.

(** ** Reading the buckets *)

Definition put_bucket (i : nat) (b : ants_reputation_summary_bucket_t) (o : summary_dec) : summary_dec :=
  sd_set_buckets (<[i := b]> (sd_buckets o)) o.

Definition spacious (cap : Z) (o : summary_dec) : Prop := cap <= zlen (sd_buckets o).

Lemma spacious_put cap i b o : spacious cap o -> spacious cap (put_bucket i b o).
Proof. unfold spacious, put_bucket, zlen. cbn. by rewrite length_insert. Qed.

Lemma puts_buckets l : forall i o, (i + length l <= length (sd_buckets o))%nat ->
  puts put_bucket i l o = sd_set_buckets (take i (sd_buckets o) ++ l ++ drop (i + length l) (sd_buckets o)) o.
Proof.
  induction l as [|b l IH]; intros i o Hi; cbn [puts length app] in *.
  { rewrite Nat.add_0_r, take_drop. by destruct o. }
  rewrite IH by (cbn; rewrite length_insert; lia). unfold put_bucket, sd_set_buckets. cbn [sd_out sd_buckets sd_n].
  f_equal. rewrite drop_insert_lt by lia. rewrite (take_S_r _ _ b) by (apply list_lookup_insert_eq; lia).
  rewrite take_insert_ge by lia. rewrite <- app_assoc. cbn [app]. by rewrite <- Nat.add_succ_comm.
Qed.

(** The index before position [i]. *)
Definition index_before (i : nat) (o : summary_dec) : option Z :=
  match i with O => None | S j => match sd_buckets o !! j with Some b => Some (bucket_index b) | None => None end end.

Lemma index_before_put i b o : (i < length (sd_buckets o))%nat -> index_before (S i) (put_bucket i b o) = Some (bucket_index b).
Proof. intros Hi. unfold index_before, put_bucket. cbn [sd_set_buckets sd_buckets]. by rewrite list_lookup_insert_eq. Qed.

(** One bucket, after its two numbers are read. *)
Definition bucket_good (prev : option Z) (b : ants_reputation_summary_bucket_t) : bool :=
  negb (total_decayed_uncs b =? 0) && match prev with Some p => p <? bucket_index b | None => true end.

Lemma buckets_canonical_cons prev b l :
  buckets_canonical prev (b :: l) = bucket_good prev b && buckets_canonical (Some (bucket_index b)) l.
Proof.
  unfold bucket_good. cbn [buckets_canonical]. destruct (_ =? 0); [done|]. destruct prev as [p|]; [|done].
  rewrite Z.leb_antisym. by destruct (p <? bucket_index b).
Qed.

Lemma write_bucket_step {A} i f (k : unit -> action (ants_cbor_dec_t * summary_dec) A) d o b :
  sd_buckets o !! i = Some b ->
  bind (write_bucket (Z.of_nat i) f) k (d, o) = k tt (d, put_bucket i (f b) o).
Proof.
  intros Hb. unfold write_bucket, read_bucket, get, bind, deref, get_at. cbn [snd].
  rewrite (proj2 (Z.leb_le 0 _)), Nat2Z.id, Hb by lia. unfold modify_snd. cbn [fst snd]. done.
Qed.

Lemma read_bucket_step {A} i (k : ants_reputation_summary_bucket_t -> action (ants_cbor_dec_t * summary_dec) A) d o b :
  sd_buckets o !! i = Some b -> bind (read_bucket (Z.of_nat i)) k (d, o) = k b (d, o).
Proof.
  intros Hb. unfold read_bucket, get, bind, deref, get_at. cbn [snd].
  by rewrite (proj2 (Z.leb_le 0 _)), Nat2Z.id, Hb by lia.
Qed.

(** The checks of position [i], on what was just written there. *)
Lemma bucket_checks i b d o : (i < length (sd_buckets o))%nat ->
  (let* bk := read_bucket (Z.of_nat i) in
   if total_decayed_uncs bk =? 0 then fail ANTS_ERROR_NON_CANONICAL
   else if 0 <? Z.of_nat i then
     let* prev := read_bucket (Z.of_nat i - 1) in
     if bucket_index bk <=? bucket_index prev then fail ANTS_ERROR_NON_CANONICAL else ret tt
   else ret tt) (d, put_bucket i b o) =
  if bucket_good (index_before i o) b then Ok (d, put_bucket i b o) tt else Err (d, put_bucket i b o) ANTS_ERROR_NON_CANONICAL.
Proof.
  intros Hi. unfold bucket_good.
  rewrite (read_bucket_step i _ d (put_bucket i b o) b) by (cbn; by apply list_lookup_insert_eq).
  destruct (total_decayed_uncs b =? 0); [done|]. cbn [negb andb]. destruct i as [|i]; [done|].
  rewrite (proj2 (Z.ltb_lt 0 _)) by lia. destruct (lookup_lt_is_Some_2 (sd_buckets o) i) as [p Hp]; [lia|].
  replace (Z.of_nat (S i) - 1) with (Z.of_nat i) by lia.
  rewrite (read_bucket_step i _ d (put_bucket (S i) b o) p) by (cbn; rewrite list_lookup_insert_ne; [done|lia]).
  cbn [index_before]. rewrite Hp, Z.leb_antisym. by destruct (bucket_index p <? bucket_index b).
Qed.

Lemma dec_bucket_ok d o i b cs :
  (i < length (sd_buckets o))%nat -> at_ d (bucket_doc b :: cs) ->
  exists d', at_ d' cs /\ dec_bucket (Z.of_nat i) (d, o) =
    if bucket_good (index_before i o) b then Ok (d', put_bucket i b o) tt else Err (d', put_bucket i b o) ANTS_ERROR_NON_CANONICAL.
Proof.
  intros Hi Hat. destruct (lookup_lt_is_Some_2 (sd_buckets o) i Hi) as [old Hold]. unfold dec_bucket, bucket_doc in *.
  destruct (at_array _ _ _ Hat) as (d1 & Hd1 & Hat1). cbn [app] in Hat1.
  rewrite (bind_Ok _ _ _ _ _ (on_fst_ok _ _ _ _ _ (map_err_ok _ _ _ _ _ Hd1))). clear Hd1 Hat.
  match goal with |- context [negb (?a =? 2)] => replace (negb (a =? 2)) with false by done end.
  destruct (at_read _ CUint _ _ _ reader_uint Hat1) as (d2 & Hd2 & Hat2).
  rewrite (bind_Ok _ _ _ _ _ (on_fst_ok _ _ _ _ _ (map_err_ok _ _ _ _ _ Hd2))). clear Hd2 Hat1.
  rewrite (write_bucket_step i _ _ d2 o old Hold).
  destruct (at_read _ CUint _ _ _ reader_uint Hat2) as (d3 & Hd3 & Hat3).
  rewrite (bind_Ok _ _ _ _ _ (on_fst_ok _ _ _ _ _ (map_err_ok _ _ _ _ _ Hd3))). clear Hd3 Hat2.
  rewrite (write_bucket_step i _ _ d3 (put_bucket i _ o) (mk_bucket (bucket_index b) (total_decayed_uncs old)))
    by (cbn; by apply list_lookup_insert_eq).
  exists d3. split; [done|]. replace (put_bucket i _ (put_bucket i _ o)) with (put_bucket i b o).
  - by apply bucket_checks.
  - unfold put_bucket, sd_set_buckets. cbn. rewrite list_insert_insert_eq. by destruct b.
Qed.

Lemma dec_bucket_inv d o i st cs :
  (i < length (sd_buckets o))%nat -> at_ d cs -> dec_bucket (Z.of_nat i) (d, o) = Ok st tt ->
  exists b cs', cs = bucket_doc b :: cs' /\ bucket_good (index_before i o) b = true /\ at_ st.1 cs' /\ st.2 = put_bucket i b o.
Proof.
  intros Hi Hat H. pose proof H as H0. unfold dec_bucket in H. peel_call H n. apply map_err_inv in H1.
  destruct (at_array_inv _ _ _ _ Hat H1) as (l & cs' & -> & -> & Hat1).
  destruct (Z.eqb_spec (zlen l) 2) as [Hl|]; [|done]. cbn [negb] in H. apply (zlen_2 l) in Hl as (x & y & ->). cbn [app] in Hat1.
  peel_call H v. apply map_err_inv in H2.
  destruct (at_read_inv _ CUint _ _ _ _ reader_uint Hat1 H2) as (c1 & E1 & Hat2). injection E1 as -> <-.
  destruct (lookup_lt_is_Some_2 (sd_buckets o) i Hi) as [old Hold].
  rewrite (write_bucket_step i _ _ _ o old Hold) in H. peel_call H t. apply map_err_inv in H3.
  destruct (at_read_inv _ CUint _ _ _ _ reader_uint Hat2 H3) as (c2 & E2 & Hat3). injection E2 as -> <-.
  destruct (dec_bucket_ok d o i (mk_bucket v t) cs' Hi Hat) as (d' & Hat' & He). rewrite He in H0.
  destruct (bucket_good _ _) eqn:Hg; [|done]. injection H0 as <-. by exists (mk_bucket v t), cs'.
Qed.

Section read.
Context (cap : Z) (cap_pos : 0 <= cap).

Lemma buckets_loop_ok l : forall f i d o cs,
  spacious cap o -> Z.of_nat i + zlen l <= cap -> (length l <= f)%nat -> buckets_canonical (index_before i o) l = true ->
  at_ d (map bucket_doc l ++ cs) ->
  exists d', for_loop f (Z.of_nat i) (Z.of_nat i + zlen l) dec_bucket (d, o) = Ok (d', puts put_bucket i l o) tt /\ at_ d' cs.
Proof using Type.
  induction l as [|b l IH]; intros f i d o cs Ho Hc Hf Hcan Hat.
  { exists d. split; [|done]. rewrite (@zlen_nil ants_reputation_summary_bucket_t), Z.add_0_r. destruct f; cbn [for_loop]; by bdecide. }
  cbn [length map app puts] in *. destruct f as [|f]; [lia|]. rewrite zlen_cons in *. pose proof (zlen_nonneg l).
  cbn [for_loop]. bdecide. rewrite buckets_canonical_cons in Hcan. apply andb_true_iff in Hcan as [Hg Hcan].
  assert (Hi : (i < length (sd_buckets o))%nat) by (unfold spacious, zlen in *; lia).
  destruct (dec_bucket_ok d o i b _ Hi Hat) as (d1 & Hat1 & Hd1). rewrite Hg in Hd1. rewrite (bind_Ok _ _ _ _ _ Hd1).
  destruct (IH f (S i) d1 (put_bucket i b o) cs) as (d2 & Hd2 & Hat2); try lia; try done.
  { by apply spacious_put. }
  { by rewrite index_before_put. }
  exists d2. split; [|done]. rewrite <- Hd2. f_equal; lia.
Qed.

Lemma buckets_loop_inv f : forall i n d o st cs,
  spacious cap o -> Z.of_nat i <= n <= cap -> at_ d cs -> for_loop f (Z.of_nat i) n dec_bucket (d, o) = Ok st tt ->
  exists l cs', cs = map bucket_doc l ++ cs' /\ zlen l = n - Z.of_nat i /\ buckets_canonical (index_before i o) l = true /\
    at_ st.1 cs' /\ st.2 = puts put_bucket i l o.
Proof using Type.
  induction f as [|f IH]; intros i n d o st cs Ho Hn Hat H; cbn [for_loop] in H.
  all: destruct (Z.leb_spec n (Z.of_nat i));
    [injection H as <-; exists [], cs; split_and!; try done; rewrite (@zlen_nil ants_reputation_summary_bucket_t); lia|].
  { done. }
  apply bind_Ok_inv in H as ([d1 o1] & [] & H1 & H).
  assert (Hi : (i < length (sd_buckets o))%nat) by (unfold spacious, zlen in *; lia).
  destruct (dec_bucket_inv d o i _ cs Hi Hat H1) as (b & cs1 & -> & Hg & Hat1 & Eo).
  cbn [fst snd] in *. subst o1. replace (Z.of_nat i + 1) with (Z.of_nat (S i)) in H by lia.
  destruct (IH (S i) n d1 (put_bucket i b o) st cs1) as (l & cs2 & -> & Hl & Hc & Hat2 & Hst); try done.
  { by apply spacious_put. }
  { lia. }
  rewrite index_before_put in Hc by done. exists (b :: l), cs2. rewrite zlen_cons, buckets_canonical_cons, Hg, Hc.
  split; [done|]. split; [lia|]. done.
Qed.

(** ** Safety and codes *)

Lemma keeps_read_bucket i : 0 <= i < cap -> keeps (spacious cap) (read_bucket i).
Proof using Type.
  intros Hi buf [d o] Hd Ho. unfold read_bucket, get, bind, deref, get_at. cbn [fst snd] in *. bdecide.
  destruct (lookup_lt_is_Some_2 (sd_buckets o) (Z.to_nat i)) as [b ->]; [unfold spacious, zlen in Ho; lia|done].
Qed.

Lemma keeps_write_bucket i f : 0 <= i < cap -> keeps (spacious cap) (write_bucket i f).
Proof using Type.
  intros Hi. unfold write_bucket. apply keeps_bind; [by apply keeps_read_bucket|]. intros b. apply keeps_modify.
  intros o Ho. by apply (spacious_put cap (Z.to_nat i) (f b)).
Qed.

Lemma keeps_dec_bucket i : 0 <= i < cap -> keeps (spacious cap) (dec_bucket i).
Proof using Type.
  intros Hi. unfold dec_bucket. repeat first
    [ apply keeps_bind; [solve [auto with ants | by apply keeps_write_bucket | by apply keeps_read_bucket]|intros ?]
    | apply keeps_if; intros ?; [solve [auto with ants]|] ].
  apply keeps_if; intros ?; [|apply keeps_ret]. breflect.
  apply keeps_bind; [apply keeps_read_bucket; lia|]. intros ?. apply keeps_if; intros ?; [apply keeps_fail|apply keeps_ret].
Qed.

Lemma keeps_rsum_body : keeps (spacious cap) (rep_summary_decode_body cap).
Proof using cap_pos.
  unfold rep_summary_decode_body. repeat first
    [ apply keeps_bind; [solve [auto with ants | by apply keeps_modify]|intros ?]
    | apply keeps_if; intros ?; [solve [auto with ants]|] ].
  apply keeps_bind.
  - apply keeps_for; [lia|breflect; lia|]. intros j Hj. breflect. apply keeps_dec_bucket. lia.
  - intros ?. apply keeps_bind; [solve [auto with ants]|]. intros ?. by apply keeps_modify.
Qed.
End read.

(** The codes of the decoder. *)
Definition rsum_error (e : ants_error_t) : Prop :=
  e = ANTS_ERROR_NON_CANONICAL \/ e = ANTS_ERROR_MALFORMED \/ e = ANTS_ERROR_BUFFER_TOO_SMALL.

Lemma decode_rsum_error e : decode_error e -> rsum_error e.
Proof. unfold decode_error, rsum_error. tauto. Qed.

Lemma codes_read_bucket P i : codes P (read_bucket i).
Proof. intros [d o]. unfold read_bucket, get, bind, deref. cbn. by destruct (get_at _ _). Qed.

Lemma codes_write_bucket P i f : codes P (write_bucket i f).
Proof. unfold write_bucket. apply codes_bind; [apply codes_read_bucket|]. intros b. apply codes_snd. Qed.

Lemma rsum_codes {S A} (m : action S A) : codes decode_error m -> codes rsum_error m.
Proof. apply codes_weaken, decode_rsum_error. Qed.

Lemma codes_dec_bucket i : codes decode_error (dec_bucket i).
Proof.
  assert (Hn : codes (S := ants_cbor_dec_t * summary_dec) (A := unit) decode_error (fail ANTS_ERROR_NON_CANONICAL))
    by (apply codes_fail; unfold decode_error; auto).
  unfold dec_bucket. repeat first
    [ apply codes_bind; [solve [auto with ants | apply codes_write_bucket | apply codes_read_bucket]|intros ?]
    | apply codes_if; [solve [exact Hn | auto with ants]|] ].
  apply codes_if; [|auto with ants]. apply codes_bind; [apply codes_read_bucket|]. intros ?. apply codes_if; auto with ants.
Qed.

Lemma codes_rsum_body cap : codes rsum_error (rep_summary_decode_body cap).
Proof.
  assert (Hb : codes (S := ants_cbor_dec_t * summary_dec) (A := unit) rsum_error (fail ANTS_ERROR_BUFFER_TOO_SMALL))
    by (apply codes_fail; unfold rsum_error; auto).
  unfold rep_summary_decode_body. repeat first
    [ apply codes_bind; [solve [apply rsum_codes; auto with ants | apply rsum_codes, codes_for, codes_dec_bucket | auto with ants]|intros ?]
    | apply codes_if; [solve [exact Hb | apply rsum_codes; auto with ants]|]
    | solve [auto with ants] ].
Qed.

(** ** The summary as a document *)

(** What decoding leaves in the caller's objects. *)
Definition rsum_filled (s : ants_reputation_summary_t) (old : summary_dec) : summary_dec :=
  mk_sdec s (sm_buckets s ++ drop (length (sm_buckets s)) (sd_buckets old)) (zlen (sm_buckets s)).

(** The state before the pointer to the buckets is set. *)
Definition rsum_read (s : ants_reputation_summary_t) (old : summary_dec) : summary_dec :=
  mk_sdec (mk_rep_summary (sm_peer_id s) (sm_bag_root s) (sm_eval_time s) (sm_bucket_width s)
             (sm_buckets (sd_out old)) (sm_sig s))
    (sm_buckets s ++ drop (length (sm_buckets s)) (sd_buckets old)) (zlen (sm_buckets s)).

Lemma rsum_read_filled s old :
  sd_aliased (take (Z.to_nat (sd_n (rsum_read s old))) (sd_buckets (rsum_read s old))) (rsum_read s old) = rsum_filled s old.
Proof.
  unfold rsum_filled, rsum_read, sd_aliased. cbn. rewrite zlen_to_nat, take_app_length. by destruct s.
Qed.

Ltac sd_simpl := cbn [sd_peer sd_root sd_eval sd_width sd_sig sd_set_n sd_set_buckets sd_out sd_buckets sd_n
  sm_peer_id sm_bag_root sm_eval_time sm_bucket_width sm_buckets sm_sig].
Ltac sd_simpl_in H := cbn [sd_peer sd_root sd_eval sd_width sd_sig sd_set_n sd_set_buckets sd_out sd_buckets sd_n
  sm_peer_id sm_bag_root sm_eval_time sm_bucket_width sm_buckets sm_sig] in H.

Lemma rsum_read_ok cap d old s :
  spacious cap old -> rsum_ok s -> zlen (sm_buckets s) <= cap -> at_ d [rsum_doc s] ->
  exists d', rep_summary_decode_body cap (d, old) = Ok (d', rsum_read s old) tt /\ at_ d' [].
Proof.
  intros Ho [((_ & Hp) & (_ & Hr) & _ & _ & _ & _ & Hs) (Hw & Hn & Hc)%struct_canonical_iff] Hcap Hat.
  unfold rep_summary_decode_body, rsum_doc, rsum_pairs in *.
  destruct (at_map _ _ _ Hat) as (d1 & Hd1 & Hat1). cbn [flat map concat app fst snd] in Hat1.
  rewrite (bind_Ok _ _ _ _ _ (on_fst_ok _ _ _ _ _ (map_err_ok _ _ _ _ _ Hd1))). clear Hd1 Hat.
  match goal with |- context [negb (?a =? SUMMARY_FULL_PAIRS)] => replace (negb (a =? SUMMARY_FULL_PAIRS)) with false by done end.
  read_bytes_field Hat1 Hp. rewrite store_step. read_bytes_field Hat1 Hr. rewrite store_step.
  do 2 (read_field at_uint_field Hat1; rewrite store_step). rewrite (proj2 (Z.eqb_neq _ _) Hw).
  destruct (at_expect_key _ _ _ Hat1) as (e2 & Hd2 & Hat2).
  rewrite (bind_Ok _ _ _ _ _ (on_fst_ok _ _ _ _ _ Hd2)). clear Hd2 Hat1.
  destruct (at_array _ _ _ Hat2) as (e3 & Hd3 & Hat3). rewrite zlen_map in Hd3.
  rewrite (bind_Ok _ _ _ _ _ (on_fst_ok _ _ _ _ _ (map_err_ok _ _ _ _ _ Hd3))). clear Hd3 Hat2.
  rewrite store_step. repeat bdecide. sd_simpl.
  match goal with |- exists _, _ (_, ?o) = _ /\ _ => set (h := o) end.
  assert (Hh : spacious cap h) by done.
  destruct (buckets_loop_ok cap (sm_buckets s) (Z.to_nat (zlen (sm_buckets s))) 0 e3 h [CUint 6; CBytes (sm_sig s)])
    as (e4 & Hd4 & Hat4); try done.
  { by rewrite zlen_to_nat. }
  change (Z.of_nat 0) with 0 in Hd4. rewrite Z.add_0_l in Hd4. rewrite (bind_Ok _ _ _ _ _ Hd4). clear Hd4.
  read_bytes_field Hat4 Hs. unfold modify_snd. cbn [fst snd].
  eexists. split; [|exact Hat4]. rewrite puts_buckets by (unfold spacious, zlen in *; subst h; cbn; lia).
  unfold rsum_read, h, sd_sig, sd_set_buckets. cbn. by rewrite take_0.
Qed.

Lemma rsum_read_inv cap d old st items :
  0 <= cap -> spacious cap old -> at_ d items -> rep_summary_decode_body cap (d, old) = Ok st tt ->
  exists s cs, items = rsum_doc s :: cs /\ rsum_ok s /\ zlen (sm_buckets s) <= cap /\ at_ st.1 cs /\ st.2 = rsum_read s old.
Proof.
  intros Hcap Ho Hat H. assert (Hwf : Forall wf items) by (by destruct Hat as (? & ? & _ & _ & ?)).
  unfold rep_summary_decode_body in H. peel_call H n. apply map_err_inv in H1.
  destruct (at_map_inv _ _ _ _ Hat H1) as (l & cs & -> & -> & Hat1). clear H1 Hat.
  destruct (Z.eqb_spec (zlen l) SUMMARY_FULL_PAIRS) as [Hlen|]; [|done]. cbn [negb] in H.
  apply (zlen_6 l) in Hlen as ([k1 v1] & [k2 v2] & [k3 v3] & [k4 v4] & [k5 v5] & [k6 v6] & ->).
  cbn [flat map concat app fst snd] in Hat1.
  peel_bytes_field H Hat1 x1. peel_store H. peel_bytes_field H Hat1 x2. peel_store H.
  peel_field at_uint_field_inv H Hat1 x3. peel_store H. peel_field at_uint_field_inv H Hat1 x4. peel_store H.
  destruct (Z.eqb_spec x4 0) as [|Hw]; [done|].
  peel_call H u. destruct u. destruct (at_expect_key_inv _ _ _ _ Hat1 H1) as (c1 & E1 & Hat2). injection E1 as -> <-.
  clear H1 Hat1. peel_call H n. apply map_err_inv in H1.
  destruct (at_array_inv _ _ _ _ Hat2 H1) as (bs & c2 & E2 & -> & Hat3). injection E2 as -> <-.
  clear H1 Hat2. peel_store H.
  destruct (Z.ltb_spec ANTS_REP_SUMMARY_MAX_BUCKETS (zlen bs)) as [|Hn]; [done|].
  destruct (Z.ltb_spec cap (zlen bs)) as [|Hn']; [done|]. sd_simpl_in H.
  apply bind_Ok_inv in H as ([dl o4] & [] & Hloop & H).
  match type of Hloop with for_loop _ _ _ _ (_, ?o) = _ => set (h := o) in Hloop end.
  assert (Hh : spacious cap h) by done. change 0 with (Z.of_nat 0) in Hloop at 1. pose proof (zlen_nonneg bs).
  destruct (buckets_loop_inv cap _ 0 (zlen bs) _ h _ _ Hh ltac:(lia) Hat3 Hloop) as (docs & c3 & E3 & Hz & Hcan & Hat4 & Eo).
  change (Z.of_nat 0) with 0 in Hz. rewrite Z.sub_0_r in Hz. cbn [fst snd] in Hat4, Eo. subst o4.
  apply app_inj_1 in E3 as [-> <-]; [|unfold zlen in Hz; rewrite length_map; lia].
  peel_bytes_field H Hat4 x6. unfold modify_snd in H. cbn [fst snd] in H. injection H as <-. cbn [fst snd].
  apply Forall_cons in Hwf as [(_ & _ & Hwf)%wf_map _]. pose proof Hwf as Hwf5. do 4 (apply Forall_cons in Hwf5 as [_ Hwf5]).
  apply Forall_cons in Hwf5 as [[_ Hdocs] _]. cbn [snd] in Hdocs. apply wf_array in Hdocs as [_ Hdocs]. do 6 (apply Forall_cons in Hwf as [[_ ?] Hwf]). cbn [snd wf] in *.
  rewrite zlen_map in *.
  exists (mk_rep_summary x1 x2 x3 x4 docs x6), cs. split; [done|]. split; [|split; [done|split; [done|]]].
  - split; [|by apply struct_canonical_iff].
    assert (Hb : Forall bucket_typed docs).
    { change (Forall wf (bucket_doc <$> docs)) in Hdocs. rewrite Forall_fmap in Hdocs. eapply Forall_impl; [exact Hdocs|]. intros b Hb. cbn in Hb. unfold bucket_typed. tauto. }
    unfold rsum_typed, hash_ok. cbn. unfold ANTS_REP_SIG_SIZE in *. tauto.
  - rewrite puts_buckets by (unfold spacious, zlen in *; subst h; cbn; lia).
    unfold rsum_read, h, sd_sig, sd_set_buckets. cbn. by rewrite take_0, zlen_map.
Qed.

Lemma rsum_decode_reads s old cap :
  spacious cap old -> rsum_ok s -> zlen (sm_buckets s) <= cap ->
  ants_reputation_summary_decode (Some (encode (rsum_doc s))) (zlen (encode (rsum_doc s))) cap old = Ok (rsum_filled s old) tt.
Proof.
  intros Ho Hs Hn. destruct (rsum_readable s Hs) as [_ (Hw & Hh & Hz)].
  unfold ants_reputation_summary_decode. cbn [is_null orb]. rewrite (proj2 (Z.eqb_neq _ 0) (encode_zlen_ne _)).
  destruct (at_init (encode (rsum_doc s)) [rsum_doc s]) as (d & Hd & Hat).
  { by apply encode_ok. }
  { done. }
  { unfold encodes. cbn [map concat]. by rewrite app_nil_r. }
  { constructor; [done|constructor]. }
  destruct (rsum_read_ok cap d old s Ho Hs Hn Hat) as (d' & Hr & Hat').
  unfold with_decoder. unfold bind at 1. rewrite Hd, (bind_Ok _ _ _ _ _ Hr). unfold on_fst, map_err. cbn [fst snd].
  rewrite (at_finalise d' Hat'). unfold bind, get, modify. by rewrite rsum_read_filled.
Qed.

(** ** The guarantees *)

(** The summary decoder is strict: it accepts exactly the canonical encodings
    of summaries in canonical form (a positive width, at most 256 buckets in
    strictly ascending order, none of them empty) that fit the caller's array,
    hands back that summary with its buckets in the array, and refuses
    everything else with one of its documented codes. *)
Theorem rep_summary_decode_strict buf old cap :
  0 <= cap -> spacious cap old -> bytes_ok buf -> zlen buf <= INT64_MAX ->
  match ants_reputation_summary_decode (Some buf) (zlen buf) cap old with
  | Ok o _ => exists s, rsum_ok s /\ zlen (sm_buckets s) <= cap /\ buf = encode (rsum_doc s) /\ o = rsum_filled s old
  | Err _ e => ((buf = [] /\ e = ANTS_ERROR_INVALID_ARG) \/ (buf <> [] /\ rsum_error e)) /\
      forall s, rsum_ok s -> zlen (sm_buckets s) <= cap -> buf <> encode (rsum_doc s)
  | UB | NoFuel => False
  end.
Proof.
  intros Hc Ho Hok Hb.
  assert (Honly : forall st e, ants_reputation_summary_decode (Some buf) (zlen buf) cap old = Err st e ->
    forall s, rsum_ok s -> zlen (sm_buckets s) <= cap -> buf <> encode (rsum_doc s)).
  { intros st e He s Hs Hn ->. by rewrite (rsum_decode_reads s old cap Ho Hs Hn) in He. }
  destruct (ants_reputation_summary_decode _ _ _ _) as [o []|o e| |] eqn:E; [|split; [|by apply (Honly o e)]|..].
  all: unfold ants_reputation_summary_decode in E; cbn [is_null orb] in E.
  all: destruct (Z.eqb_spec (zlen buf) 0) as [Hz|Hz]; try done;
    try (injection E as <- <-; left; split; [by apply zlen_O|done]).
  all: pose proof (with_decoder_safe (spacious cap) (fun e => e) norm_decode_err buf (rep_summary_decode_body cap) old
    Hok Hb Ho (keeps_rsum_body cap Hc)) as Hsafe; unfold bind at 1 in E;
    destruct (with_decoder _ _ _ _ _ _) as [o1 []|o1 e1| |] eqn:Ed; try done.
  - destruct (with_decoder_inv (spacious cap) _ _ buf (rep_summary_decode_body cap) old o1 Hok Hb Ho
      (keeps_rsum_body cap Hc) Ed) as (items & d & d' & -> & Hat & Hrun & Hfin).
    destruct (rsum_read_inv cap d old (d', o1) items Hc Ho Hat Hrun) as (s & cs & -> & Hs & Hn & Hat' & Eo).
    cbn [fst snd] in *. rewrite (at_finalise_inv d' d' cs Hat' Hfin). exists s.
    split; [done|]. split; [done|]. split; [unfold encodes; cbn [map concat]; by rewrite app_nil_r|].
    unfold bind, get, modify in E. injection E as <-. subst o1. apply rsum_read_filled.
  - right. split; [by intros ->|]. injection E as <- <-. eapply with_decoder_codes in Ed; [exact Ed|apply codes_rsum_body|].
    intros e'. apply decode_rsum_error, norm_decode_error.
Qed.

(** What a peer encodes, every peer reads back: a summary in canonical form
    fits the documented buffer, and decoding what was written there into an
    array with room for its buckets gives the same summary. *)
Theorem rep_summary_roundtrip s cap buf dcap old :
  rsum_ok s -> ANTS_REP_SUMMARY_ENCODED_MAX <= cap <= zlen buf -> zlen buf <= INT64_MAX ->
  zlen (sm_buckets s) <= dcap <= zlen (sd_buckets old) ->
  exists buf' len, ants_reputation_summary_encode s cap buf = Ok buf' len /\ len <= ANTS_REP_SUMMARY_ENCODED_MAX /\
    match ants_reputation_summary_decode (Some (take (Z.to_nat len) buf')) len dcap old with
    | Ok o _ => sd_out o = s
    | _ => False
    end.
Proof.
  intros Hs Hc Hb Hd. destruct (rsum_encodes s cap buf Hs Hc Hb) as (buf' & He & Ht).
  exists buf', (zlen (encode (rsum_doc s))). split; [done|]. split; [by apply rsum_bounded|].
  rewrite zlen_to_nat, Ht. by rewrite rsum_decode_reads by (done || unfold spacious; lia).
Qed.

Section verify.
Context `{Ed : Ed25519}.

(** A summary verifies exactly if it is in canonical form and the peer
    signed the canonical encoding of its first five pairs; nothing else is an
    error. *)
Theorem summary_verify_exact s u :
  rsum_typed s ->
  ants_reputation_summary_verify s u =
    Ok u (summary_struct_canonical s &&
          crypto_sign_ed25519_verify_detached (sm_sig s) (encode (rsum_body s)) (sm_peer_id s)).
Proof.
  intros Ht. unfold ants_reputation_summary_verify. destruct (summary_struct_canonical s) eqn:Hc; [|done]. cbn [negb andb].
  unfold summary_body_local. set (buf0 := replicate (Z.to_nat ANTS_REP_SUMMARY_BODY_ENCODED_MAX) 0).
  assert (Hb0 : zlen buf0 = 5120) by (subst buf0; unfold zlen; rewrite length_replicate; by vm_compute). clearbody buf0.
  destruct (rsum_body_encodes s ANTS_REP_SUMMARY_BODY_ENCODED_MAX buf0) as (buf & He & Htk); [done| |rewrite Hb0; by vm_compute|].
  { rewrite Hb0. unfold ANTS_REP_SUMMARY_BODY_ENCODED_MAX. lia. }
  unfold bind at 1. rewrite He. pose proof (encode_zlen_ne (rsum_body s)). pose proof (zlen_nonneg (encode (rsum_body s))).
  set (doc := encode (rsum_body s)) in *.
  assert (zlen doc <= zlen buf).
  { apply (f_equal length) in Htk. rewrite length_take in Htk. unfold zlen. lia. }
  by rewrite signature_verdict_eq, zlen_to_nat, Htk by lia.
Qed.
End verify.

(** ** Examples *)

Definition sample_summary : ants_reputation_summary_t :=
  mk_rep_summary (replicate 32 7) (replicate 32 3) 14400 3600 [mk_bucket 2 2000; mk_bucket 4 30] (replicate 64 5).

Definition sample_dec : summary_dec := mk_sdec sample_summary (replicate 3 (mk_bucket 0 0)) 0.

Lemma sample_summary_ok : rsum_ok sample_summary.
Proof.
  split; [|done]. unfold rsum_typed, hash_ok. split_and!; try done; try (apply Forall_replicate; done).
  repeat constructor; done.
Qed.

Lemma sample_summary_decodes :
  ants_reputation_summary_decode (Some (encode (rsum_doc sample_summary))) (zlen (encode (rsum_doc sample_summary))) 3 sample_dec =
    Ok (rsum_filled sample_summary sample_dec) tt.
Proof. apply rsum_decode_reads; [done|apply sample_summary_ok|done]. Qed.

Lemma rep_summary_decode_strict_witness : exists s, rsum_ok s /\ rsum_filled sample_summary sample_dec = rsum_filled s sample_dec.
Proof.
  pose proof (rep_summary_decode_strict (encode (rsum_doc sample_summary)) sample_dec 3 ltac:(done) ltac:(done)
    ltac:(by_decision) ltac:(by vm_compute)) as H.
  rewrite sample_summary_decodes in H. destruct H as (s & Hs & _ & _ & Ho). exists s. split; [exact Hs|exact Ho].
Defined.

Lemma rep_summary_roundtrip_witness :
  exists buf len, ants_reputation_summary_encode sample_summary 5248 (replicate (Z.to_nat 5248) 0) = Ok buf len /\ len <= 5248.
Proof.
  destruct (rep_summary_roundtrip sample_summary 5248 (replicate (Z.to_nat 5248) 0) 3 sample_dec sample_summary_ok
    ltac:(by vm_compute) ltac:(by vm_compute) ltac:(by vm_compute)) as (buf & len & He & Hl & _).
  exists buf, len. split; [exact He|exact Hl].
Defined.

(** Signed under the stand-in signatures. *)
Definition signed_summary : ants_reputation_summary_t :=
  mk_rep_summary (replicate 32 7) (replicate 32 3) 14400 3600 [mk_bucket 2 2000; mk_bucket 4 30]
    (replicate 32 7 ++ take 32 (encode (rsum_body sample_summary))).

Lemma signed_summary_typed : rsum_typed signed_summary.
Proof.
  unfold rsum_typed, hash_ok. split_and!; try done; try (apply Forall_replicate; done); [repeat constructor; done|by_decision].
Qed.

Lemma summary_verify_exact_witness : @ants_reputation_summary_verify toy_ed25519 signed_summary tt = Ok tt true.
Proof.
  etrans; [exact (@summary_verify_exact toy_ed25519 signed_summary tt signed_summary_typed)|]. vm_compute. reflexivity.
Defined.
