(* ===== verification/Infer.v ===== *)
(** * Commit-at-send and challenges (src/inference/orchestration/src/orchestration.c)

    The producer's signed commitment to the distributions of an answer, the
    challenge derived from a later beacon, and the requester's check of an
    answer.  The static tree functions are chain.c's line for line, with the
    leaves hashed beforehand; the field helpers are those of CborKv.  A 32-byte
    argument is a byte string. *)

From stdpp Require Import strings.
From S2P Require Import Prelude Cbor CborKv Crypto Bond Crdt Chain.
Import Crdt Chain.

Module Infer.

(** ** Constants and data *)

Definition UINT8_MAX : Z := 2 ^ 8 - 1.
Definition UINT32_MAX : Z := 2 ^ 32 - 1.

Definition ANTS_INFERENCE_HASH_SIZE : Z := 32.
Definition ANTS_INFERENCE_MERKLE_ROOT_SIZE : Z := 32.
Definition ANTS_INFERENCE_BEACON_SIZE : Z := 32.
Definition ANTS_INFERENCE_MERKLE_MAX_DEPTH : Z := 32.
Definition ANTS_INFERENCE_MERKLE_LEAF_PREFIX : Z := 0x00.
Definition ANTS_INFERENCE_TIER_1 : Z := 1.
Definition ANTS_INFERENCE_COMMIT_ENCODED_MAX : Z := 256.
Definition ANTS_INFERENCE_REF_VOCAB_MAX : Z := 256.
Definition ANTS_INFERENCE_REF_SEQLEN_MAX : Z := 64.
Definition ANTS_INFERENCE_TIER1_AUDIT_THRESHOLD : Z := Z.shiftl 1 59.

Record ants_inference_commit_t : Type := mk_commit {
  c_root : bytes; c_model_hash : bytes; c_input_hash : bytes; c_req_nonce : bytes; c_agent_meas : bytes;
  c_round : Z; c_audit_threshold : Z; c_m : Z; c_length : Z; c_tier : Z
}.

(** ** The tree *)

Section tree.
Context `{B : Blake3}.

Definition ants_inference_leaf_hash (dist_bytes : option bytes) (dist_len position : Z) : action unit bytes :=
  if is_null dist_bytes || (dist_len =? 0) then fail ANTS_ERROR_INVALID_ARG
  else
    local_hash (
      ants_blake3_init ;*
      ants_blake3_update (Some [ANTS_INFERENCE_MERKLE_LEAF_PREFIX]) 1 ;*
      ants_blake3_update dist_bytes dist_len ;*
      ants_blake3_update (Some (Bond.write_le64 position)) 8 ;*
      ants_blake3_final).

(** [memcpy(stack[top], leaves[i], ...)]: the leaves are hashes already. *)
Definition stored_leaf (leaf : bytes) : action unit bytes := ret leaf.

Definition too_many_leaves (n_leaves : Z) : bool := Z.shiftl 1 ANTS_INFERENCE_MERKLE_MAX_DEPTH <? n_leaves.

Definition ants_inference_merkle_root (leaves : option (list bytes)) (n_leaves : Z) : action unit bytes :=
  match leaves with
  | None => fail ANTS_ERROR_INVALID_ARG
  | Some leaves =>
    if n_leaves =? 0 then fail ANTS_ERROR_INVALID_ARG
    else if too_many_leaves n_leaves then fail ANTS_ERROR_INVALID_ARG
    else
      let* leaves := deref (first_n leaves n_leaves) in
      subtree_root_range stored_leaf leaves 0 n_leaves
  end.

(** The state is the path buffer and [*out_path_len], which counts hashes. *)
Definition ants_inference_merkle_prove (leaves : option (list bytes)) (n_leaves index out_path_cap : Z)
  : action prove_out unit :=
  match leaves with
  | None => fail ANTS_ERROR_INVALID_ARG
  | Some leaves =>
    if (n_leaves =? 0) || (n_leaves <=? index) then fail ANTS_ERROR_INVALID_ARG
    else if too_many_leaves n_leaves then fail ANTS_ERROR_INVALID_ARG
    else
      let* need := pure_call (merkle_path_len index n_leaves) in
      if out_path_cap <? need then fail ANTS_ERROR_BUFFER_TOO_SMALL
      else
        let* leaves := deref (first_n leaves n_leaves) in
        let* written := prove_loop stored_leaf 65 leaves index n_leaves 0 0 in
        modify (fun st => (st.1, written))
  end.

(** The climbing loop is the one of [cp_fold_to_root]; [path_len] counts
    hashes. *)
Definition ants_inference_merkle_verify (leaf : bytes) (index n_leaves : Z) (path : option bytes) (path_len : Z)
  (root : bytes) : action unit bool :=
  match path with
  | None => fail ANTS_ERROR_INVALID_ARG
  | Some path =>
    if (n_leaves =? 0) || (n_leaves <=? index) then fail ANTS_ERROR_INVALID_ARG
    else if too_many_leaves n_leaves then fail ANTS_ERROR_INVALID_ARG
    else
      let* len := merkle_path_len index n_leaves in
      if negb (path_len =? len) then fail ANTS_ERROR_INVALID_ARG
      else
        let* (cur, consumed) := fold_loop 65 index n_leaves 0 path leaf in
        ret ((consumed =? path_len) && (memcmp cur root =? 0))
  end.
End tree.

(** ** The commit on the wire *)

Definition COMMIT_CBOR_PAIRS : Z := 10.
Definition COMMIT_KEY_ROOT : Z := 1.
Definition COMMIT_KEY_MODEL : Z := 2.
Definition COMMIT_KEY_INPUT : Z := 3.
Definition COMMIT_KEY_NONCE : Z := 4.
Definition COMMIT_KEY_AGENT : Z := 5.
Definition COMMIT_KEY_ROUND : Z := 6.
Definition COMMIT_KEY_AUDIT : Z := 7.
Definition COMMIT_KEY_M : Z := 8.
Definition COMMIT_KEY_LENGTH : Z := 9.
Definition COMMIT_KEY_TIER : Z := 10.

Definition commit_body (c : ants_inference_commit_t) : action ants_cbor_enc_t unit :=
  ants_cbor_enc_map COMMIT_CBOR_PAIRS ;*
  enc_kv_bytes COMMIT_KEY_ROOT (c_root c) ;*
  enc_kv_bytes COMMIT_KEY_MODEL (c_model_hash c) ;*
  enc_kv_bytes COMMIT_KEY_INPUT (c_input_hash c) ;*
  enc_kv_bytes COMMIT_KEY_NONCE (c_req_nonce c) ;*
  enc_kv_bytes COMMIT_KEY_AGENT (c_agent_meas c) ;*
  enc_kv_uint COMMIT_KEY_ROUND (c_round c) ;*
  enc_kv_uint COMMIT_KEY_AUDIT (c_audit_threshold c) ;*
  enc_kv_uint COMMIT_KEY_M (c_m c) ;*
  enc_kv_uint COMMIT_KEY_LENGTH (c_length c) ;*
  enc_kv_uint COMMIT_KEY_TIER (c_tier c).

Definition ants_inference_commit_encode (c : ants_inference_commit_t) (out_cap : Z) : action bytes Z :=
  with_encoder out_cap (commit_body c).

Definition set_root v c := mk_commit v (c_model_hash c) (c_input_hash c) (c_req_nonce c) (c_agent_meas c)
  (c_round c) (c_audit_threshold c) (c_m c) (c_length c) (c_tier c).
Definition set_model v c := mk_commit (c_root c) v (c_input_hash c) (c_req_nonce c) (c_agent_meas c)
  (c_round c) (c_audit_threshold c) (c_m c) (c_length c) (c_tier c).
Definition set_input v c := mk_commit (c_root c) (c_model_hash c) v (c_req_nonce c) (c_agent_meas c)
  (c_round c) (c_audit_threshold c) (c_m c) (c_length c) (c_tier c).
Definition set_nonce v c := mk_commit (c_root c) (c_model_hash c) (c_input_hash c) v (c_agent_meas c)
  (c_round c) (c_audit_threshold c) (c_m c) (c_length c) (c_tier c).
Definition set_agent v c := mk_commit (c_root c) (c_model_hash c) (c_input_hash c) (c_req_nonce c) v
  (c_round c) (c_audit_threshold c) (c_m c) (c_length c) (c_tier c).
Definition set_round v c := mk_commit (c_root c) (c_model_hash c) (c_input_hash c) (c_req_nonce c) (c_agent_meas c)
  v (c_audit_threshold c) (c_m c) (c_length c) (c_tier c).
Definition set_audit v c := mk_commit (c_root c) (c_model_hash c) (c_input_hash c) (c_req_nonce c) (c_agent_meas c)
  (c_round c) v (c_m c) (c_length c) (c_tier c).
Definition set_m v c := mk_commit (c_root c) (c_model_hash c) (c_input_hash c) (c_req_nonce c) (c_agent_meas c)
  (c_round c) (c_audit_threshold c) v (c_length c) (c_tier c).
Definition set_length v c := mk_commit (c_root c) (c_model_hash c) (c_input_hash c) (c_req_nonce c) (c_agent_meas c)
  (c_round c) (c_audit_threshold c) (c_m c) v (c_tier c).
Definition set_tier v c := mk_commit (c_root c) (c_model_hash c) (c_input_hash c) (c_req_nonce c) (c_agent_meas c)
  (c_round c) (c_audit_threshold c) (c_m c) (c_length c) v.

Definition commit_decode_body : action (ants_cbor_dec_t * ants_inference_commit_t) unit :=
  let* n_pairs := on_fst (map_err norm_decode_err ants_cbor_dec_map) in
  if negb (n_pairs =? COMMIT_CBOR_PAIRS) then fail ANTS_ERROR_MALFORMED
  else
    let* p := on_fst (decode_bytes_field COMMIT_KEY_ROOT ANTS_INFERENCE_MERKLE_ROOT_SIZE) in
    modify_snd (set_root p) ;*
    let* p := on_fst (decode_bytes_field COMMIT_KEY_MODEL ANTS_INFERENCE_HASH_SIZE) in
    modify_snd (set_model p) ;*
    let* p := on_fst (decode_bytes_field COMMIT_KEY_INPUT ANTS_INFERENCE_HASH_SIZE) in
    modify_snd (set_input p) ;*
    let* p := on_fst (decode_bytes_field COMMIT_KEY_NONCE ANTS_INFERENCE_HASH_SIZE) in
    modify_snd (set_nonce p) ;*
    let* p := on_fst (decode_bytes_field COMMIT_KEY_AGENT ANTS_INFERENCE_HASH_SIZE) in
    modify_snd (set_agent p) ;*
    let* v := on_fst (decode_uint_field COMMIT_KEY_ROUND) in
    modify_snd (set_round v) ;*
    let* v := on_fst (decode_uint_field COMMIT_KEY_AUDIT) in
    modify_snd (set_audit v) ;*
    let* u := on_fst (decode_uint_field COMMIT_KEY_M) in
    if UINT32_MAX <? u then fail ANTS_ERROR_MALFORMED
    else
      modify_snd (set_m (u32 u)) ;*
      let* u := on_fst (decode_uint_field COMMIT_KEY_LENGTH) in
      if UINT32_MAX <? u then fail ANTS_ERROR_MALFORMED
      else
        modify_snd (set_length (u32 u)) ;*
        let* u := on_fst (decode_uint_field COMMIT_KEY_TIER) in
        if UINT8_MAX <? u then fail ANTS_ERROR_MALFORMED
        else modify_snd (set_tier (u8 u)).

Definition ants_inference_commit_decode (buf : option bytes) (len : Z) : action ants_inference_commit_t unit :=
  if is_null buf || (len =? 0) then fail ANTS_ERROR_INVALID_ARG
  else with_decoder (fun e => e) (fun _ => ANTS_ERROR_MALFORMED) buf len commit_decode_body.

(** ** Signatures *)

(** The local array [buf] and its length. *)
Definition commit_local (c : ants_inference_commit_t) : action unit (bytes * Z) := fun u =>
  match ants_inference_commit_encode c ANTS_INFERENCE_COMMIT_ENCODED_MAX
          (local_buffer ANTS_INFERENCE_COMMIT_ENCODED_MAX) with
  | Ok buf len => Ok u (buf, len)
  | Err _ e => Err u e
  | UB => UB
  | NoFuel => NoFuel
  end.

Section signature.
Context `{Ed : Ed25519}.

(** The result is [*out_ok]. *)
Definition ants_inference_commit_verify_sig (c : ants_inference_commit_t) (pub sig : bytes) : action unit bool :=
  let* (buf, len) := commit_local c in
  fun u =>
  match ants_ed25519_verify pub (Some buf) len sig with
  | Ok _ _ => Ok u true
  | Err _ e => if decide (e = ANTS_ERROR_MALFORMED) then Ok u false else Err u e
  | UB => UB
  | NoFuel => NoFuel
  end.
End signature.

Section signing.
Context `{Sg : Ed25519Signing}.

Definition ants_inference_commit_sign (c : ants_inference_commit_t) (priv : bytes) : action unit bytes :=
  let* (buf, len) := commit_local c in
  fun _ => ants_ed25519_sign priv (Some buf) len.
End signing.

(** ** The challenge *)

(** ["sel"], ["pos"] and ["aud"], without the terminator. *)
Definition ANTS_INFERENCE_PRF_CONTEXT_SEL : bytes := [115; 101; 108].
Definition ANTS_INFERENCE_PRF_CONTEXT_POS : bytes := [112; 111; 115].
Definition ANTS_INFERENCE_PRF_CONTEXT_AUD : bytes := [97; 117; 100].

Record prf_keystream_t : Type := mk_ks {
  ks_beacon : bytes; ks_root : bytes; ks_tag : bytes;
  ks_block : bytes; ks_next_block : Z; ks_words_left : Z
}.

(** [block] is not initialised: any read of it is out of bounds. *)
Definition prf_keystream_init (beacon root tag : bytes) : prf_keystream_t := mk_ks beacon root tag [] 0 0.

Section challenge.
Context `{B : Blake3}.

Definition prf_compute_block (counter : Z) : action prf_keystream_t unit :=
  let* ks := get in
  let* block := pure_call (local_hash (
    ants_blake3_init ;*
    ants_blake3_update (Some (ks_beacon ks)) ANTS_INFERENCE_BEACON_SIZE ;*
    ants_blake3_update (Some (ks_root ks)) ANTS_INFERENCE_MERKLE_ROOT_SIZE ;*
    ants_blake3_update (Some (ks_tag ks)) (zlen (ks_tag ks)) ;*
    ants_blake3_update (Some (Bond.write_le64 counter)) 8 ;*
    ants_blake3_final)) in
  modify (fun ks => mk_ks (ks_beacon ks) (ks_root ks) (ks_tag ks) block (ks_next_block ks) (ks_words_left ks)).

Definition prf_next_word : action prf_keystream_t Z :=
  let* ks := get in
  (if ks_words_left ks =? 0 then
     prf_compute_block (ks_next_block ks) ;*
     modify (fun ks => mk_ks (ks_beacon ks) (ks_root ks) (ks_tag ks) (ks_block ks) (u64 (ks_next_block ks + 1)) 4)
   else ret tt) ;*
  let* ks := get in
  let word_idx := 4 - ks_words_left ks in
  let* w := deref (slice (ks_block ks) (word_idx * 8) 8 ≫= read_be64) in
  modify (fun ks => mk_ks (ks_beacon ks) (ks_root ks) (ks_tag ks) (ks_block ks) (ks_next_block ks) (ks_words_left ks - 1)) ;*
  ret w.

(** A keystream of the caller's frame. *)
Definition local_keystream {S A} (ks : prf_keystream_t) (m : action (prf_keystream_t * S) A) : action S A := fun s =>
  match m (ks, s) with
  | Ok (_, s') a => Ok s' a
  | Err (_, s') e => Err s' e
  | UB => UB
  | NoFuel => NoFuel
  end.

Definition ants_inference_challenge_is_audited (beacon root : bytes) (audit_threshold : Z) : action unit bool :=
  local_keystream (prf_keystream_init beacon root ANTS_INFERENCE_PRF_CONTEXT_SEL) (
    let* w0 := on_fst prf_next_word in
    ret (w0 <? audit_threshold)).

(** What challenge_positions writes: [out_positions] and [*out_count]. *)
Definition positions_out : Type := list Z * Z.

(** [out_positions[j] = v] *)
Definition put_position (j v : Z) : action positions_out unit :=
  let* st := get in
  let* out := deref (set_at st.1 j v) in
  modify (fun st => (out, st.2)).

(** The body of the sampling loop. *)
Definition draw_position (m length j : Z) : action (prf_keystream_t * positions_out) unit :=
  let lo := u64 (j * length) / m in
  let hi := u64 (u64 (j + 1) * length) / m in
  let width := u64 (hi - lo) in
  let* w := on_fst prf_next_word in
  if width =? 0 then fun _ => UB
  else on_snd (put_position j (u64 (lo + w mod width))).

Definition ants_inference_challenge_positions (beacon root : bytes) (m length cap : Z) : action positions_out unit :=
  if (m =? 0) || (length =? 0) then fail ANTS_ERROR_INVALID_ARG
  else
    let count := if m <? length then m else length in
    if cap <? count then fail ANTS_ERROR_BUFFER_TOO_SMALL
    else if length <=? m then
      for_loop (Z.to_nat length) 0 length (fun j => put_position j j) ;*
      modify (fun st => (st.1, length))
    else
      local_keystream (prf_keystream_init beacon root ANTS_INFERENCE_PRF_CONTEXT_POS)
        (for_loop (Z.to_nat m) 0 m (draw_position m length)) ;*
      modify (fun st => (st.1, m)).

(** [for (;;)]; [draws] bounds the words examined, which the code does not. *)
Fixpoint auditor_loop (draws : nat) (reject_below n_verifiers : Z) : action prf_keystream_t Z :=
  match draws with
  | O => fun _ => NoFuel
  | S n =>
    let* w := prf_next_word in
    if reject_below <=? w then ret (w mod n_verifiers) else auditor_loop n reject_below n_verifiers
  end.

Definition ants_inference_challenge_auditor (draws : nat) (beacon root : bytes) (n_verifiers : Z) : action unit Z :=
  if n_verifiers =? 0 then fail ANTS_ERROR_INVALID_ARG
  else
    let reject_below := u64 (0 - n_verifiers) mod n_verifiers in
    local_keystream (prf_keystream_init beacon root ANTS_INFERENCE_PRF_CONTEXT_AUD)
      (on_fst (auditor_loop draws reject_below n_verifiers)).
End challenge.

(** ** The answer envelope *)

Definition ANTS_INFERENCE_ENV_PAIRS : Z := 3.
Definition ANTS_INFERENCE_ENV_KEY_INPUT : Z := 0.
Definition ANTS_INFERENCE_ENV_KEY_TOKS : Z := 1.
Definition ANTS_INFERENCE_ENV_KEY_DISTS : Z := 2.

(** A pointer into the buffer with its length is the bytes it points at; [n]
    is the length of the tokens. *)
Record answer_env : Type := mk_env { ae_input : bytes; ae_tokens : bytes; ae_dists : list bytes }.

(** [for (j = 0; j < out->n; j++)], [k] iterations left; [first] is
    [dist_len[0]] once it is read. *)
Fixpoint dists_loop (k : nat) (first : option Z) : action ants_cbor_dec_t (list bytes) :=
  match k with
  | O => ret []
  | S k' =>
    let* d := map_err norm_decode_err ants_cbor_dec_bytes in
    let first := default (zlen d) first in
    if (zlen d =? 0) || negb (zlen d mod 4 =? 0) || negb (zlen d =? first) then fail ANTS_ERROR_MALFORMED
    else let* ds := dists_loop k' (Some first) in ret (d :: ds)
  end.

Definition envelope_fields : action ants_cbor_dec_t answer_env :=
  let* npairs := map_err norm_decode_err ants_cbor_dec_map in
  if negb (npairs =? ANTS_INFERENCE_ENV_PAIRS) then fail ANTS_ERROR_MALFORMED
  else
    expect_key ANTS_INFERENCE_ENV_KEY_INPUT ;*
    let* input := map_err norm_decode_err ants_cbor_dec_bytes in
    expect_key ANTS_INFERENCE_ENV_KEY_TOKS ;*
    let* tokens := map_err norm_decode_err ants_cbor_dec_bytes in
    if ANTS_INFERENCE_REF_SEQLEN_MAX <? zlen tokens then fail ANTS_ERROR_MALFORMED
    else
      expect_key ANTS_INFERENCE_ENV_KEY_DISTS ;*
      let* darr := map_err norm_decode_err ants_cbor_dec_array in
      if negb (darr =? zlen tokens) then fail ANTS_ERROR_MALFORMED
      else
        let* dists := dists_loop (length tokens) None in
        ret (mk_env input tokens dists).

(** [ants_cbor_dec_init] fails with INVALID_ARG only, which is folded to
    MALFORMED. *)
Definition answer_envelope_decode (buf : bytes) : action unit answer_env :=
  local_dec buf (
    let* env := envelope_fields in
    map_err norm_decode_err ants_cbor_dec_finalise ;*
    ret env).

(** ** The requester's check *)

Section check.
Context `{B : Blake3} `{Ed : Ed25519}.

(** [for (j = 0; j < env.n; j++)]: the array [leaves]. *)
Fixpoint env_leaves (j : Z) (dists : list bytes) : action unit (list bytes) :=
  match dists with
  | [] => ret []
  | d :: rest =>
    let* l := ants_inference_leaf_hash (Some d) (zlen d) j in
    let* ls := env_leaves (j + 1) rest in
    ret (l :: ls)
  end.

(** [if (call != ANTS_OK) return ANTS_OK;]: an error is a false verdict. *)
Definition or_false {S A} (m : action unit A) (k : A -> action S bool) : action S bool := fun s =>
  match m tt with
  | Ok _ a => k a s
  | Err _ _ => Ok s false
  | UB => UB
  | NoFuel => NoFuel
  end.

(** The decoder on the local object [commit]. *)
Definition commit_decoded (buf : bytes) : action unit ants_inference_commit_t := fun u =>
  match ants_inference_commit_decode (Some buf) (zlen buf) (mk_commit [] [] [] [] [] 0 0 0 0 0) with
  | Ok c _ => Ok u c
  | Err _ e => Err u e
  | UB => UB
  | NoFuel => NoFuel
  end.

(** The input is truncated as [ants_inference_serve] truncates it. *)
Definition prompt_eff (input_len : Z) : Z :=
  if ANTS_INFERENCE_REF_SEQLEN_MAX - 1 <? input_len then ANTS_INFERENCE_REF_SEQLEN_MAX - 1 else input_len.

Definition audit_policy_broken (tier audit_threshold : Z) : bool :=
  ((tier =? ANTS_INFERENCE_TIER_1) && (audit_threshold <? ANTS_INFERENCE_TIER1_AUDIT_THRESHOLD)) ||
  (negb (tier =? ANTS_INFERENCE_TIER_1) && negb (audit_threshold =? UINT64_MAX)).

(** The state is the object [out_commit] points at, if any; the result is
    [*out_ok]. *)
Definition ants_inference_answer_check (commit_bytes : option bytes) (sig producer_pub : bytes)
  (envelope input : option bytes) (tier : Z) (req_nonce : bytes) : action (option ants_inference_commit_t) bool :=
  match commit_bytes, envelope, input with
  | Some commit_bytes, Some envelope, Some input =>
    if (zlen commit_bytes =? 0) || (zlen envelope =? 0) || (zlen input =? 0) then fail ANTS_ERROR_INVALID_ARG
    else
      or_false (commit_decoded commit_bytes) (fun commit =>
      or_false (ants_inference_commit_verify_sig commit producer_pub sig) (fun sig_ok =>
      if negb sig_ok then ret false
      else
      or_false (fun _ => ants_blake3_hash (Some input) (zlen input)) (fun input_hash =>
      if negb (memcmp input_hash (c_input_hash commit) =? 0) || negb (memcmp req_nonce (c_req_nonce commit) =? 0)
         || negb (c_tier commit =? tier) then ret false
      else
      or_false (answer_envelope_decode envelope) (fun env =>
      let n := zlen (ae_tokens env) in
      if negb (zlen (ae_input env) =? zlen input) || negb (memcmp (ae_input env) input =? 0) then ret false
      else if (c_length commit =? 0) || (ANTS_INFERENCE_REF_SEQLEN_MAX <? c_length commit)
              || negb (n =? c_length commit) || (c_m commit =? 0) || (c_length commit <? c_m commit) then ret false
      else if audit_policy_broken tier (c_audit_threshold commit) then ret false
      else
      let* d0 := deref (get_at (ae_dists env) 0) in
      if ANTS_INFERENCE_REF_VOCAB_MAX <? zlen d0 / 4 then ret false
      else if ANTS_INFERENCE_REF_SEQLEN_MAX <? size_add (prompt_eff (zlen input)) (c_length commit) then ret false
      else
      or_false (env_leaves 0 (ae_dists env)) (fun leaves =>
      or_false (ants_inference_merkle_root (Some leaves) n) (fun root =>
      if negb (memcmp root (c_root commit) =? 0) then ret false
      else
        modify (fun out_commit => if is_null out_commit then None else Some commit) ;*
        ret true))))))
  | _, _, _ => fail ANTS_ERROR_INVALID_ARG
  end.
End check.
End Infer.
