(* ===== verification/InferCommit.v ===== *)
(** * The commit on the wire and its signature (orchestration.c)

    Encoding, strict decoding and signing of the commit-at-send object, as an
    instance of [RecordCodec]. *)

From S2P Require Import Prelude Cbor CborSpec CborTrack CborEnc CborDec CborCanon CborContract CborKv CborRecord CborCodec.
From S2P Require Import Crypto Bond BondCodec Crdt Chain ChainCodec Infer.
Import Crdt Chain Infer.

#[local] Arguments zlen {A} l : simpl never.

(** ** The documented form *)

Definition commit_cbor (c : ants_inference_commit_t) : cbor :=
  CMap [(CUint 1, CBytes (c_root c)); (CUint 2, CBytes (c_model_hash c)); (CUint 3, CBytes (c_input_hash c));
        (CUint 4, CBytes (c_req_nonce c)); (CUint 5, CBytes (c_agent_meas c)); (CUint 6, CUint (c_round c));
        (CUint 7, CUint (c_audit_threshold c)); (CUint 8, CUint (c_m c)); (CUint 9, CUint (c_length c));
        (CUint 10, CUint (c_tier c))].

(** The field types of the C struct. *)
Definition commit_ok (c : ants_inference_commit_t) : Prop :=
  hash_ok (c_root c) /\ hash_ok (c_model_hash c) /\ hash_ok (c_input_hash c) /\ hash_ok (c_req_nonce c) /\
  hash_ok (c_agent_meas c) /\ is_u64 (c_round c) /\ is_u64 (c_audit_threshold c) /\ is_u32 (c_m c) /\
  is_u32 (c_length c) /\ is_u8 (c_tier c).

Lemma commit_wf c : commit_ok c -> wf (commit_cbor c).
Proof.
  intros (? & ? & ? & ? & ? & ? & ? & ? & ? & ?). apply wf_map. split; [done|]. split; [by repeat constructor|].
  repeat (constructor; [split; [done|]; first [by apply hash_wf | cbn; zlia]|]). constructor.
Qed.

Lemma commit_size c : commit_ok c -> zlen (encode (commit_cbor c)) <= ANTS_INFERENCE_COMMIT_ENCODED_MAX.
Proof.
  intros ((_ & H1) & (_ & H2) & (_ & H3) & (_ & H4) & (_ & H5) & _).
  cbn [commit_cbor encode map concat]. rewrite !zlen_app, H1, H2, H3, H4, H5.
  pose proof (head_size 0 (c_round c)). pose proof (head_size 0 (c_audit_threshold c)). pose proof (head_size 0 (c_m c)).
  pose proof (head_size 0 (c_length c)). pose proof (head_size 0 (c_tier c)).
  change (zlen (encode_head 2 32)) with 2. change (zlen (@nil Z)) with 0.
  rewrite (head_size_tiny 0 1), (head_size_tiny 0 2), (head_size_tiny 0 3), (head_size_tiny 0 4), (head_size_tiny 0 5),
    (head_size_tiny 0 6), (head_size_tiny 0 7), (head_size_tiny 0 8), (head_size_tiny 0 9), (head_size_tiny 0 10) by lia.
  match goal with |- context [encode_head 5 ?n] => change (zlen (encode_head 5 n)) with 1 end.
  unfold ANTS_INFERENCE_COMMIT_ENCODED_MAX. lia.
Qed.

Lemma commit_emit c e : commit_body c e = emit (commit_cbor c) e.
Proof. unfold commit_body, enc_kv_bytes, enc_kv_uint. cbn [commit_cbor emit map seq_actions foldr]. act_eq. Qed.

(** ** Reading it back *)

Lemma codes_commit : codes decode_error commit_decode_body.
Proof.
  unfold commit_decode_body. repeat first
    [ apply codes_bind; [solve [auto with ants]|intros ?]
    | apply codes_if; [solve [auto with ants]|]
    | solve [auto with ants] ].
Qed.

Lemma keeps_commit : keeps (fun _ => True) commit_decode_body.
Proof.
  unfold commit_decode_body. repeat first
    [ apply keeps_bind; [solve [auto with ants | by apply keeps_modify]|intros ?]
    | apply keeps_if; intros ?; [solve [auto with ants]|]
    | by apply keeps_modify ].
Qed.

Lemma u32_small z : is_u32 z -> u32 z = z.
Proof. intros H. apply Z.mod_small. exact H. Qed.

Ltac commit_simpl := cbn [set_root set_model set_input set_nonce set_agent set_round set_audit set_m set_length set_tier
  c_root c_model_hash c_input_hash c_req_nonce c_agent_meas c_round c_audit_threshold c_m c_length c_tier].

Lemma commit_read_ok d old c :
  commit_ok c -> at_ d [commit_cbor c] -> exists d', commit_decode_body (d, old) = Ok (d', c) tt /\ at_ d' [].
Proof.
  intros ((_ & H1) & (_ & H2) & (_ & H3) & (_ & H4) & (_ & H5) & _ & _ & Hm & Hl & Ht) Hat. unfold commit_decode_body.
  destruct (at_map _ _ _ Hat) as (d1 & Hd1 & Hat1). cbn [flat map concat app fst snd] in Hat1.
  rewrite (bind_Ok _ _ _ _ _ (on_fst_ok _ _ _ _ _ (map_err_ok _ _ _ _ _ Hd1))). clear Hd1 Hat.
  match goal with |- context [negb (?a =? COMMIT_CBOR_PAIRS)] => replace (negb (a =? COMMIT_CBOR_PAIRS)) with false by done end.
  read_bytes_field Hat1 H1. rewrite store_step. read_bytes_field Hat1 H2. rewrite store_step.
  read_bytes_field Hat1 H3. rewrite store_step. read_bytes_field Hat1 H4. rewrite store_step.
  read_bytes_field Hat1 H5. rewrite store_step. do 2 (read_field at_uint_field Hat1; rewrite store_step).
  unfold UINT32_MAX, UINT8_MAX. do 2 (read_field at_uint_field Hat1; bdecide; rewrite store_step).
  read_field at_uint_field Hat1. bdecide. unfold modify_snd. cbn [fst snd]. eexists. split; [|exact Hat1].
  commit_simpl. rewrite !u32_small, u8_small by done. by destruct c.
Qed.

Lemma zlen_10 {A} (l : list A) : zlen l = 10 -> exists a1 a2 a3 a4 a5 a6 a7 a8 a9 a10, l = [a1; a2; a3; a4; a5; a6; a7; a8; a9; a10].
Proof.
  intros H. apply (zlen_S _ 9) in H as (x1 & l1 & -> & H). apply (zlen_S _ 8) in H as (x2 & l2 & -> & H).
  apply (zlen_S _ 7) in H as (x3 & l3 & -> & H). apply (zlen_S _ 6) in H as (x4 & l4 & -> & H). explicit_list H.
  by do 10 eexists.
Qed.

Lemma commit_read_inv d old st items :
  at_ d items -> commit_decode_body (d, old) = Ok st tt ->
  exists cs, items = commit_cbor st.2 :: cs /\ commit_ok st.2 /\ at_ st.1 cs.
Proof.
  intros Hat H. assert (Hwf : Forall wf items) by (by destruct Hat as (? & ? & _ & _ & ?)).
  unfold commit_decode_body in H. peel_call H n. apply map_err_inv in H1.
  destruct (at_map_inv _ _ _ _ Hat H1) as (l & cs & -> & -> & Hat1). clear H1 Hat.
  destruct (Z.eqb_spec (zlen l) COMMIT_CBOR_PAIRS) as [Hlen|]; [|done]. cbn [negb] in H.
  apply (zlen_10 l) in Hlen as ([k1 v1] & [k2 v2] & [k3 v3] & [k4 v4] & [k5 v5] & [k6 v6] & [k7 v7] & [k8 v8] & [k9 v9] & [k10 v10] & ->).
  cbn [flat map concat app fst snd] in Hat1.
  peel_bytes_field H Hat1 x1. peel_store H. peel_bytes_field H Hat1 x2. peel_store H. peel_bytes_field H Hat1 x3. peel_store H.
  peel_bytes_field H Hat1 x4. peel_store H. peel_bytes_field H Hat1 x5. peel_store H.
  peel_field at_uint_field_inv H Hat1 x6. peel_store H. peel_field at_uint_field_inv H Hat1 x7. peel_store H.
  peel_field at_uint_field_inv H Hat1 x8. destruct (Z.ltb_spec UINT32_MAX x8) as [|Bm]; [done|]. peel_store H.
  peel_field at_uint_field_inv H Hat1 x9. destruct (Z.ltb_spec UINT32_MAX x9) as [|Bl]; [done|]. peel_store H.
  peel_field at_uint_field_inv H Hat1 x10. destruct (Z.ltb_spec UINT8_MAX x10) as [|Bt]; [done|].
  unfold modify_snd in H. cbn [fst snd] in H. injection H as <-. cbn [fst snd]. unfold UINT32_MAX, UINT8_MAX in *.
  apply Forall_cons in Hwf as [(_ & _ & Hw)%wf_map _]. do 10 (apply Forall_cons in Hw as [[_ ?] Hw]). cbn [snd wf] in *.
  unfold is_u64 in *. commit_simpl. unfold commit_cbor. commit_simpl.
  rewrite !u32_small, u8_small by zlia. exists cs. split; [done|]. split; [|done].
  unfold commit_ok, hash_ok, is_u32, is_u8, is_u64. commit_simpl.
  split_and!; try tauto; lia.
Qed.

#[export] Instance commit_codec : RecordCodec ants_inference_commit_t := {
  codec_doc := commit_cbor;
  codec_max := ANTS_INFERENCE_COMMIT_ENCODED_MAX;
  codec_body := commit_body;
  codec_read := commit_decode_body;
  codec_ok := commit_ok;
  codec_obj _ := True;
  codec_same := eq;
  codec_from r c := commit_ok r /\ c = commit_cbor r
}.

#[export] Instance commit_codec_laws : RecordCodecLaws ants_inference_commit_t.
Proof.
  split; cbn [codec_doc codec_max codec_body codec_read codec_ok codec_obj codec_same codec_from commit_codec].
  - exact commit_wf.
  - intros r _. cbn. lia.
  - exact commit_size.
  - done.
  - intros r e _. apply commit_emit.
  - exists (fun _ => True). split; [done|apply keeps_commit].
  - apply codes_commit.
  - intros d old r _ Hok Hat. destruct (commit_read_ok d old r Hok Hat) as (d' & ? & ?). by exists d', r.
  - intros d old st items _ Hat Hrun. destruct (commit_read_inv d old st items Hat Hrun) as (cs & -> & ? & ?). eauto 10.
Qed.

(** ** The codec's guarantees *)

Lemma commit_decodes c old :
  commit_ok c ->
  ants_inference_commit_decode (Some (encode (commit_cbor c))) (zlen (encode (commit_cbor c))) old = Ok c tt.
Proof.
  intros Hok. unfold ants_inference_commit_decode. cbn [is_null orb]. rewrite (proj2 (Z.eqb_neq _ 0) (encode_zlen_ne _)).
  by destruct (codec_decodes (CL := commit_codec_laws) (fun e => e) (fun _ => ANTS_ERROR_MALFORMED) c old Hok I) as (? & Hd & <- & _).
Qed.

(** A byte string is the encoding of one commit, or the decoder refuses it. *)
Lemma commit_decode_cases buf old :
  bytes_ok buf -> zlen buf <= INT64_MAX ->
  match ants_inference_commit_decode (Some buf) (zlen buf) old with
  | Ok c _ => commit_ok c /\ buf = encode (commit_cbor c)
  | Err _ e => ((buf = [] /\ e = ANTS_ERROR_INVALID_ARG) \/ (buf <> [] /\ decode_error e)) /\
      forall c, commit_ok c -> buf <> encode (commit_cbor c)
  | UB | NoFuel => False
  end.
Proof.
  intros Hok Hb.
  assert (Honly : forall st e, ants_inference_commit_decode (Some buf) (zlen buf) old = Err st e ->
    forall c, commit_ok c -> buf <> encode (commit_cbor c)).
  { intros st e He c Hc ->. by rewrite commit_decodes in He. }
  destruct (ants_inference_commit_decode _ _ _) as [c []|st e| |] eqn:E; [|split; [|by apply (Honly st e)]|..].
  all: unfold ants_inference_commit_decode in E; cbn [is_null orb] in E.
  all: destruct (Z.eqb_spec (zlen buf) 0) as [Hz|Hz]; try done; try (injection E as <- <-; left; split; [by apply zlen_O|done]).
  all: pose proof (codec_strict (CL := commit_codec_laws) (fun e => e) (fun _ => ANTS_ERROR_MALFORMED) buf old
         ltac:(intros; by right) Hok Hb I) as H; cbn [codec_read commit_codec] in H; rewrite E in H; try done.
  - by destruct H as (? & [? ->] & ->).
  - right. split; [by intros ->|done].
Qed.

Lemma commit_local_eq c u :
  commit_ok c -> exists buf, commit_local c u = Ok u (buf, zlen (encode (commit_cbor c))) /\
    take (length (encode (commit_cbor c))) buf = encode (commit_cbor c).
Proof.
  intros Hok. destruct (codec_encodes (CL := commit_codec_laws) c (local_buffer ANTS_INFERENCE_COMMIT_ENCODED_MAX)
    ANTS_INFERENCE_COMMIT_ENCODED_MAX Hok ltac:(done) ltac:(done)) as (buf & He & Ht).
  exists buf. split; [|exact Ht]. unfold commit_local, ants_inference_commit_encode.
  change (codec_body c) with (commit_body c) in He. by rewrite He.
Qed.

(** The bytes signed are the commit's encoding. *)
Lemma commit_slice buf (doc : bytes) :
  take (length doc) buf = doc -> 0 < zlen doc -> slice buf 0 (zlen doc) = Some doc.
Proof.
  intros Ht Hp. assert (length doc <= length buf)%nat.
  { apply (f_equal length) in Ht. rewrite length_take in Ht. lia. }
  unfold slice. repeat bdecide. cbn [andb]. by rewrite zlen_to_nat, Z2Nat.inj_0, drop_0, Ht.
Qed.

Lemma commit_doc_pos c : 0 < zlen (encode (commit_cbor c)).
Proof. pose proof (encode_zlen_ne (commit_cbor c)). pose proof (zlen_nonneg (encode (commit_cbor c))). lia. Qed.

Lemma verify_sig_eq `{Ed : Ed25519} c pub sig u :
  commit_ok c ->
  ants_inference_commit_verify_sig c pub sig u =
    Ok u (crypto_sign_ed25519_verify_detached sig (encode (commit_cbor c)) pub).
Proof.
  intros Hok. unfold ants_inference_commit_verify_sig. destruct (commit_local_eq c u Hok) as (buf & He & Ht).
  rewrite (bind_Ok _ _ _ _ _ He). pose proof (commit_doc_pos c). unfold ants_ed25519_verify. cbn [is_null andb]. bdecide.
  rewrite commit_slice by done. destruct (crypto_sign_ed25519_verify_detached _ _ _); cbn [negb]; [done|]. by rewrite decide_True.
Qed.

Lemma commit_sign_eq `{Sg : Ed25519Signing} c seed pk sk :
  commit_ok c -> crypto_sign_ed25519_seed_keypair seed = Some (pk, sk) ->
  ants_inference_commit_sign c seed tt =
    match crypto_sign_ed25519_detached (encode (commit_cbor c)) sk with
    | Some sig => Ok tt sig
    | None => Err tt ANTS_ERROR_MALFORMED
    end.
Proof.
  intros Hok Hk. unfold ants_inference_commit_sign. destruct (commit_local_eq c tt Hok) as (buf & He & Ht).
  rewrite (bind_Ok _ _ _ _ _ He). pose proof (commit_doc_pos c). unfold ants_ed25519_sign. cbn [is_null andb]. bdecide.
  by rewrite commit_slice, Hk by done.
Qed.

(** A commit survives the wire and proves its origin: any commit is encoded
    within the documented 256 bytes, decoding those bytes gives it back, and
    the signature made with the producer's seed verifies for the decoded
    commit under the producer's public key. *)
Theorem commit_roundtrip `{Ed : Ed25519} `{Sg : Ed25519Signing} {Laws : SigningLaws Ed Sg} c old buf cap seed pk sig :
  commit_ok c -> ANTS_INFERENCE_COMMIT_ENCODED_MAX <= cap <= zlen buf -> zlen buf <= INT64_MAX ->
  ants_ed25519_pubkey_from_priv seed = Ok tt pk -> ants_inference_commit_sign c seed tt = Ok tt sig ->
  exists buf' n, ants_inference_commit_encode c cap buf = Ok buf' n /\ n <= ANTS_INFERENCE_COMMIT_ENCODED_MAX /\
    ants_inference_commit_decode (Some (take (Z.to_nat n) buf')) n old = Ok c tt /\
    ants_inference_commit_verify_sig c pk sig tt = Ok tt true.
Proof.
  intros Hok Hc Hb Hpub Hsig.
  destruct (codec_encodes (CL := commit_codec_laws) c buf cap Hok Hc Hb) as (buf' & He & Ht).
  exists buf', (zlen (encode (commit_cbor c))). split; [exact He|]. split; [by apply commit_size|]. split.
  - rewrite zlen_to_nat. change (codec_doc c) with (commit_cbor c) in Ht. rewrite Ht. by apply commit_decodes.
  - unfold ants_ed25519_pubkey_from_priv in Hpub.
    destruct (crypto_sign_ed25519_seed_keypair seed) as [[pk' sk]|] eqn:Hk; [|done]. injection Hpub as ->.
    rewrite (commit_sign_eq c seed pk sk Hok Hk) in Hsig. rewrite verify_sig_eq by done.
    destruct (crypto_sign_ed25519_detached _ _) as [sig'|] eqn:Hd; [|done]. injection Hsig as ->.
    by rewrite (signed_verifies seed pk sk _ sig Hk Hd).
Qed.

Definition demo_commit : ants_inference_commit_t :=
  mk_commit (replicate 32 1) (replicate 32 2) (replicate 32 3) (replicate 32 4) (replicate 32 0) 77 UINT64_MAX 16 16 2.

Lemma demo_commit_ok : commit_ok demo_commit.
Proof. unfold commit_ok, hash_ok. split_and!; try done; apply Forall_replicate; done. Qed.

Lemma commit_roundtrip_witness :
  exists sig, @ants_inference_commit_verify_sig toy_ed25519 demo_commit (replicate 32 9) sig tt = Ok tt true.
Proof.
  set (sig := replicate 32 9 ++ take 32 (encode (commit_cbor demo_commit))). exists sig.
  destruct (@commit_roundtrip toy_ed25519 toy_signing toy_signing_laws demo_commit demo_commit (replicate 256 0) 256
    (replicate 32 9) (replicate 32 9) sig demo_commit_ok ltac:(done) ltac:(done) ltac:(done) ltac:(by vm_compute))
    as (buf & n & _ & _ & _ & H). exact H.
Defined.
