(* ===== verification/InferChallenge.v ===== *)
(** * The audit challenge (orchestration.c)

    What the beacon and the commit's root decide: whether an answer is
    audited, which positions are opened, and who audits it.  The block-wise
    keystream is an indexed sequence of words; the sample is one position per
    stratum; the auditor is an unbiased residue. *)

From S2P Require Import Prelude Cbor CborKv CborRecord Crypto Bond Merkle Crdt Chain ChainCommittee Infer.
Import Crdt Chain Infer.

#[local] Arguments zlen {A} l : simpl never.

(** ** The keystream *)

Section keystream.
Context `{B : Blake3} {Laws : Blake3Laws B}.
Context (beacon root tag : bytes) (Hbeacon : zlen beacon = 32) (Hroot : zlen root = 32).

(** The block with a given counter, and the word number [k] of the stream:
    four words to a block, big-endian. *)
Definition ks_digest (i : Z) : bytes := digest (beacon ++ root ++ tag ++ Bond.write_le64 i).
Definition ks_word (k : Z) : Z := default 0 (read_be64 (take 8 (drop (Z.to_nat (k mod 4 * 8)) (ks_digest (u64 (k / 4)))))).

(** The keystream after [k] words: the current block holds the word [k] unless
    it is used up. *)
Definition ks_at (k : Z) (ks : prf_keystream_t) : Prop :=
  0 <= k /\ ks_beacon ks = beacon /\ ks_root ks = root /\ ks_tag ks = tag /\
  ks_words_left ks = (4 - k mod 4) mod 4 /\ ks_next_block ks = u64 ((k + 3) / 4) /\
  (k mod 4 <> 0 -> ks_block ks = ks_digest (u64 (k / 4))).

Lemma ks_init : ks_at 0 (prf_keystream_init beacon root tag).
Proof. by split_and!. Qed.

Lemma compute_block_eq ks i : ks_beacon ks = beacon -> ks_root ks = root -> ks_tag ks = tag ->
  prf_compute_block i ks = Ok (mk_ks beacon root tag (ks_digest i) (ks_next_block ks) (ks_words_left ks)) tt.
Proof using Laws Hbeacon Hroot.
  intros Hb Hr Ht. unfold prf_compute_block, bind at 1, get. unfold pure_call, local_hash, bind, ants_blake3_init.
  rewrite Hb, Hr, Ht. rewrite (update_sized _ beacon), (update_sized _ root) by done. rewrite update_chunk.
  rewrite (update_sized _ (Bond.write_le64 i)) by done. unfold ants_blake3_final, modify. rewrite !update_app, <- ?app_assoc.
  by rewrite Hb, Hr, Ht.
Qed.

Lemma word_read i j : 0 <= j < 4 ->
  exists w, slice (ks_digest i) (j * 8) 8 ≫= read_be64 = Some w /\
    read_be64 (take 8 (drop (Z.to_nat (j * 8)) (ks_digest i))) = Some w /\ is_u64 w.
Proof using Laws.
  intros Hj. pose proof (digest_size (beacon ++ root ++ tag ++ Bond.write_le64 i)) as Hd. change ANTS_BLAKE3_HASH_SIZE with 32 in Hd.
  fold (ks_digest i) in Hd.
  destruct (read_be64_some (take 8 (drop (Z.to_nat (j * 8)) (ks_digest i)))) as (w & Hw & Hu).
  { unfold zlen in *. rewrite length_take, length_drop. lia. }
  { apply Forall_take, Forall_drop. apply finalize_bytes. }
  exists w. split; [|done]. unfold slice. repeat bdecide. cbn [andb mbind option_bind]. exact Hw.
Qed.

Lemma next_word_eq k ks : ks_at k ks ->
  exists ks', prf_next_word ks = Ok ks' (ks_word k) /\ ks_at (k + 1) ks' /\ is_u64 (ks_word k).
Proof using Laws Hbeacon Hroot.
  intros (Hk & Hb & Hr & Ht & Hl & Hn & Hblock). pose proof (Z.mod_pos_bound k 4 ltac:(lia)) as Hm.
  assert (Hadd : forall x, u64 (u64 x + 1) = u64 (x + 1)) by (intros; unfold u64; by rewrite Zplus_mod_idemp_l).
  destruct (word_read (u64 (k / 4)) (k mod 4) Hm) as (w & Hs & Hw & Hu).
  assert (Hwk : ks_word k = w) by (unfold ks_word; by rewrite Hw). rewrite Hwk.
  unfold prf_next_word, bind at 1, get. rewrite Hl. destruct (decide (k mod 4 = 0)) as [Hz|Hz].
  - rewrite Hz in *. change ((4 - 0) mod 4) with 0 in *. rewrite Z.eqb_refl.
    replace ((k + 3) / 4) with (k / 4) in Hn by divlia.
    unfold bind at 1 2. rewrite compute_block_eq by done. unfold modify at 1. cbn [ks_beacon ks_root ks_tag ks_block ks_next_block].
    unfold bind at 1, get. cbn [ks_block ks_words_left]. change (4 - 4) with 0. rewrite Hn, Hs.
    unfold bind, deref, modify, ret. eexists. split; [reflexivity|]. split; [|done]. unfold ks_at.
    cbn [ks_beacon ks_root ks_tag ks_block ks_next_block ks_words_left]. rewrite Hadd.
    replace ((k + 1) mod 4) with 1 by divlia. replace ((k + 1) / 4) with (k / 4) by divlia.
    replace ((k + 1 + 3) / 4) with (k / 4 + 1) by divlia. split_and!; try done. lia.
  - rewrite (Z.mod_small (4 - k mod 4) 4) in * by lia. rewrite (proj2 (Z.eqb_neq (4 - k mod 4) 0)) by lia.
    unfold bind at 1, ret at 1. unfold bind at 1, get. rewrite Hl, (Hblock Hz).
    replace (4 - (4 - k mod 4)) with (k mod 4) by lia. rewrite Hs. unfold bind, deref, modify, ret. eexists.
    split; [reflexivity|]. split; [|done]. unfold ks_at. cbn [ks_beacon ks_root ks_tag ks_block ks_next_block ks_words_left].
    rewrite Hl, Hn, Hblock by done. split_and!; try done; try lia.
    + f_equal. clear -Hm Hz. divlia.
    + intros Hne. do 2 f_equal. clear -Hm Hz Hne. divlia.
Qed.
End keystream.

(** ** Filling an array *)

Lemma for_loop_inv {S} (P : Z -> S -> Prop) n body :
  (forall i s, 0 <= i < n -> P i s -> exists s', body i s = Ok s' tt /\ P (i + 1) s') ->
  forall fuel i s, 0 <= i <= n -> n - i <= Z.of_nat fuel -> P i s ->
  exists s', for_loop fuel i n body s = Ok s' tt /\ P n s'.
Proof.
  intros Hb. induction fuel as [|f IH]; intros i s Hi Hf Hp; cbn [for_loop].
  - replace i with n in * by lia. rewrite Z.leb_refl. by exists s.
  - destruct (Z.leb_spec n i) as [|Hlt]; [replace i with n in * by lia; by exists s|].
    destruct (Hb i s ltac:(lia) Hp) as (s1 & H1 & Hp1). rewrite (bind_Ok _ _ _ _ _ H1). apply IH; [lia..|done].
Qed.

(** The first [k] entries are [f 0], [f 1], ... *)
Definition filled (f : Z -> Z) (k : Z) (out : list Z) : list Z :=
  map (fun j => f (Z.of_nat j)) (seq 0 (Z.to_nat k)) ++ drop (Z.to_nat k) out.

Lemma filled_size f k out : 0 <= k <= zlen out -> zlen (filled f k out) = zlen out.
Proof. unfold filled, zlen. rewrite length_app, length_map, length_seq, length_drop. lia. Qed.

Lemma put_filled f k out old : 0 <= k < zlen out ->
  put_position k (f k) (filled f k out, old) = Ok (filled f (k + 1) out, old) tt.
Proof.
  intros Hk. unfold put_position, bind, get, deref. cbn [fst]. unfold set_at. rewrite filled_size by lia.
  repeat bdecide. cbn [andb]. unfold modify. do 3 f_equal. unfold filled.
  assert (Hlen : Z.to_nat k = (length (map (fun j => f (Z.of_nat j)) (seq 0 (Z.to_nat k))) + 0)%nat)
    by (rewrite length_map, length_seq; lia).
  rewrite Hlen at 1. rewrite insert_app_r. replace (Z.to_nat (k + 1)) with (S (Z.to_nat k)) by lia.
  rewrite seq_S, map_app, <- app_assoc. f_equal. cbn [map app]. rewrite Nat.add_0_l, Z2Nat.id by lia.
  destruct (drop (Z.to_nat k) out) as [|x l] eqn:Ed.
  { apply (f_equal length) in Ed. rewrite length_drop in Ed. unfold zlen in Hk. cbn in Ed. lia. }
  cbn. f_equal. by rewrite <- Nat.add_1_r, <- drop_drop, Ed.
Qed.

(** ** One position per stratum *)

Section strata.
Context (M len : Z) (HM : 0 < M <= len).

(** Where the stratum [j] begins; the last one ends at [len]. *)
Definition stratum (j : Z) : Z := j * len / M.

(** The widest stratum. *)
Definition span : Z := (len + M - 1) / M.

Lemma stratum_step j : stratum j + 1 <= stratum (j + 1) <= stratum j + span.
Proof using HM.
  unfold stratum, span. split.
  - rewrite <- (Z.div_add (j * len) 1 M) by lia. apply Z.div_le_mono; lia.
  - assert (H : (j + 1) * len <= (j * len / M + (len + M - 1) / M) * M + (M - 1)).
    { pose proof (Z.mul_div_le (j * len) M ltac:(lia)). pose proof (Z.mul_succ_div_gt (j * len) M ltac:(lia)).
      pose proof (Z.mul_succ_div_gt (len + M - 1) M ltac:(lia)). pose proof (Z.mul_div_le (len + M - 1) M ltac:(lia)).
      pose proof (Z.mod_pos_bound (j * len) M ltac:(lia)). pose proof (Z.div_mod (j * len) M ltac:(lia)).
      assert (len <= M * ((len + M - 1) / M)) by nia. nia. }
    apply Z.lt_succ_r. apply Z.div_lt_upper_bound; [lia|]. nia.
Qed.

Lemma stratum_0 : stratum 0 = 0.
Proof. done. Qed.

Lemma stratum_M : stratum M = len.
Proof using HM. unfold stratum. rewrite Z.mul_comm. apply Z.div_mul. lia. Qed.

Lemma stratum_le i j : i <= j -> stratum i <= stratum j.
Proof using HM. intros H. apply Z.div_le_mono; nia. Qed.

(** The first stratum that begins at or after [a]. *)
Lemma stratum_after a : 0 <= a <= len -> exists j, 0 <= j <= M /\ a <= stratum j /\ stratum (j - 1) < a.
Proof using HM.
  intros Ha. exists ((a * M + len - 1) / len).
  assert (H1 : a * M <= (a * M + len - 1) / len * len).
  { pose proof (Z.mul_succ_div_gt (a * M + len - 1) len ltac:(lia)). nia. }
  split_and!.
  - apply Z.div_pos; nia.
  - apply Z.lt_succ_r. apply Z.div_lt_upper_bound; nia.
  - apply Z.div_le_lower_bound; lia.
  - apply Z.div_lt_upper_bound; [lia|]. pose proof (Z.mul_div_le (a * M + len - 1) len ltac:(lia)). nia.
Qed.
End strata.

Section challenge.
Context `{B : Blake3} {Laws : Blake3Laws B}.
Context (beacon root : bytes) (Hbeacon : zlen beacon = 32) (Hroot : zlen root = 32).

(** The position drawn from the stratum [j]. *)
Definition drawn (M len j : Z) : Z :=
  stratum M len j +
  ks_word beacon root ANTS_INFERENCE_PRF_CONTEXT_POS j mod (stratum M len (j + 1) - stratum M len j).

Definition sample (M len : Z) : list Z := map (fun j => drawn M len (Z.of_nat j)) (seq 0 (Z.to_nat M)).

Lemma drawn_in M len j : 0 < M <= len -> stratum M len j <= drawn M len j < stratum M len (j + 1).
Proof.
  intros HM. pose proof (stratum_step M len HM j). unfold drawn.
  pose proof (Z.mod_pos_bound (ks_word beacon root ANTS_INFERENCE_PRF_CONTEXT_POS j) (stratum M len (j + 1) - stratum M len j)). lia.
Qed.

(** When every position is opened there is nothing to draw. *)
Lemma drawn_all len j : 0 < len -> drawn len len j = j.
Proof.
  intros Hl. unfold drawn, stratum. rewrite !Z.div_mul by lia. replace (j + 1 - j) with 1 by lia. rewrite Z.mod_1_r. lia.
Qed.

Lemma draw_position_eq m len out old j ks :
  0 < m < len -> is_u32 len -> m <= zlen out -> 0 <= j < m ->
  ks_at beacon root ANTS_INFERENCE_PRF_CONTEXT_POS j ks ->
  exists ks', draw_position m len j (ks, (filled (drawn m len) j out, old)) = Ok (ks', (filled (drawn m len) (j + 1) out, old)) tt /\
    ks_at beacon root ANTS_INFERENCE_PRF_CONTEXT_POS (j + 1) ks'.
Proof using Laws Hbeacon Hroot.
  intros Hm Hlen Hout Hj Hks. destruct (next_word_eq beacon root _ Hbeacon Hroot j ks Hks) as (ks' & Hw & Hks' & Hu).
  exists ks'. split; [|done]. unfold is_u32 in *. unfold draw_position.
  pose proof (stratum_step m len ltac:(lia) j) as Hs. pose proof (drawn_in m len j ltac:(lia)) as Hd.
  pose proof (stratum_le m len ltac:(lia) 0 j ltac:(lia)) as H0. rewrite stratum_0 in H0.
  pose proof (stratum_le m len ltac:(lia) (j + 1) m ltac:(lia)) as H1. rewrite stratum_M in H1 by lia.
  rewrite (u64_small (j * len)) by (unfold is_u64; nia). rewrite (u64_small (j + 1)) by zlia.
  rewrite (u64_small ((j + 1) * len)) by (unfold is_u64; nia).
  fold (stratum m len j) (stratum m len (j + 1)). rewrite (u64_small (stratum m len (j + 1) - stratum m len j)) by zlia.
  rewrite (bind_Ok _ _ _ _ _ (on_fst_ok _ _ _ _ _ Hw)). bdecide.
  fold (drawn m len j). rewrite u64_small by zlia. unfold on_snd. cbn [fst snd].
  by rewrite put_filled by lia.
Qed.

Lemma positions_eq m len cap out old :
  is_u32 m -> is_u32 len -> 0 < m -> 0 < len -> Z.min m len <= cap <= zlen out ->
  ants_inference_challenge_positions beacon root m len cap (out, old) =
    Ok (filled (drawn (Z.min m len) len) (Z.min m len) out, Z.min m len) tt.
Proof using Laws Hbeacon Hroot.
  intros Hm Hlen Hm0 Hl0 Hcap. unfold ants_inference_challenge_positions, is_u32 in *. repeat bdecide. cbn [orb].
  destruct (Z.ltb_spec m len) as [Hlt|Hge].
  - rewrite Z.min_l in * by lia. repeat bdecide.
    destruct (for_loop_inv (fun j (s : prf_keystream_t * positions_out) =>
        ks_at beacon root ANTS_INFERENCE_PRF_CONTEXT_POS j s.1 /\ s.2 = (filled (drawn m len) j out, old)) m (draw_position m len))
      with (fuel := Z.to_nat m) (i := 0) (s := (prf_keystream_init beacon root ANTS_INFERENCE_PRF_CONTEXT_POS, (out, old)))
      as ([ks st] & Hrun & _ & Hst); try lia.
    + intros i [ks st] Hi [Hks Hst]. cbn [fst snd] in *. subst st.
      destruct (draw_position_eq m len out old i ks) as (ks' & Hd & Hks'); try done; try lia. by exists (ks', (filled (drawn m len) (i + 1) out, old)).
    + split; [apply ks_init|]. cbn [snd]. unfold filled. by rewrite Z2Nat.inj_0, drop_0.
    + cbn [snd] in Hst. subst st. unfold bind, local_keystream, positions_out in *. by rewrite Hrun.
  - rewrite Z.min_r in * by lia. repeat bdecide.
    destruct (for_loop_inv (fun j (s : positions_out) => s = (filled (drawn len len) j out, old)) len (fun j => put_position j j))
      with (fuel := Z.to_nat len) (i := 0) (s := (out, old)) as (st & Hrun & ->); try lia.
    + intros i s Hi ->. eexists. split; [|reflexivity]. rewrite <- (put_filled (drawn len len)) by lia. by rewrite drawn_all by lia.
    + unfold filled. by rewrite Z2Nat.inj_0, drop_0.
    + unfold bind, positions_out in *. by rewrite Hrun.
Qed.

(** ** What the sample covers *)

Lemma drawn_lt M len i j : 0 < M <= len -> i < j -> drawn M len i < drawn M len j.
Proof.
  intros HM Hij. pose proof (drawn_in M len i HM). pose proof (drawn_in M len j HM).
  pose proof (stratum_le M len HM (i + 1) j ltac:(lia)). lia.
Qed.

Lemma sample_sorted M len : 0 < M <= len -> StronglySorted Z.lt (sample M len).
Proof.
  intros HM. unfold sample. generalize 0%nat. induction (Z.to_nat M) as [|n IH]; intros k; cbn [seq map]; constructor; [apply IH|].
  apply Forall_forall. intros p (j & -> & Hj)%list_elem_of_fmap. apply elem_of_seq in Hj. apply drawn_lt; [done|lia].
Qed.

Lemma sample_elem M len p : p ∈ sample M len <-> exists j, 0 <= j < M /\ p = drawn M len j.
Proof.
  unfold sample. split.
  - intros (j & -> & Hj)%list_elem_of_fmap. apply elem_of_seq in Hj. exists (Z.of_nat j). split; [lia|done].
  - intros (j & Hj & ->). apply list_elem_of_fmap. exists (Z.to_nat j). rewrite Z2Nat.id by lia. split; [done|]. apply elem_of_seq. lia.
Qed.

Lemma sample_below M len : 0 < M <= len -> Forall (fun p => 0 <= p < len) (sample M len).
Proof.
  intros HM. apply Forall_forall. intros p (j & Hj & ->)%sample_elem. pose proof (drawn_in M len j HM).
  pose proof (stratum_le M len HM 0 j ltac:(lia)) as H0. rewrite stratum_0 in H0.
  pose proof (stratum_le M len HM (j + 1) M ltac:(lia)) as H1. rewrite stratum_M in H1 by lia. lia.
Qed.

(** No gap: a run of positions as long as two strata holds a sampled one. *)
Lemma sample_covers M len a :
  0 < M <= len -> 0 <= a -> a + (2 * span M len - 1) <= len ->
  exists p, p ∈ sample M len /\ a <= p < a + (2 * span M len - 1).
Proof.
  intros HM Ha Hl. assert (Hspan : 1 <= span M len).
  { unfold span. apply Z.div_le_lower_bound; lia. }
  destruct (stratum_after M len HM a ltac:(lia)) as (j & Hj & Hge & Hlt).
  assert (Hstart : stratum M len j <= a + span M len - 1).
  { pose proof (stratum_step M len HM (j - 1)) as Hs. replace (j - 1 + 1) with j in Hs by lia. lia. }
  assert (Hjm : j < M).
  { destruct (decide (j = M)) as [->|]; [|lia]. rewrite stratum_M in Hstart by lia. lia. }
  exists (drawn M len j). split; [apply sample_elem; exists j; split; [lia|done]|].
  pose proof (drawn_in M len j HM). pose proof (stratum_step M len HM j). lia.
Qed.
End challenge.

(** ** The auditor *)

(** The words that are not rejected and have residue [i] are the members of
    one arithmetic progression, as long as every other residue's. *)
Lemma residue_class n i w : 0 < n < 2 ^ 64 -> 0 <= i < n ->
  (is_u64 w /\ ~ rejected n w /\ w mod n = i) <->
  exists q, 0 <= q < 2 ^ 64 / n /\ w = 2 ^ 64 mod n + (i - 2 ^ 64 mod n) mod n + q * n.
Proof.
  intros Hn Hi. unfold is_u64, rejected. pose proof (Z.div_mod (2 ^ 64) n ltac:(lia)) as Hdm.
  pose proof (Z.mod_pos_bound (2 ^ 64) n ltac:(lia)) as Hr. set (r := 2 ^ 64 mod n) in *. set (Q := 2 ^ 64 / n) in *.
  pose proof (Z.mod_pos_bound (i - r) n ltac:(lia)) as Hb. split.
  - intros (Hw & Hrej & Hm). exists ((w - r) / n). split.
    + split; [apply Z.div_pos; lia|]. apply Z.div_lt_upper_bound; lia.
    + assert (Hx : (w - r) mod n = (i - r) mod n) by (rewrite <- Hm; by rewrite Zminus_mod_idemp_l).
      pose proof (Z.div_mod (w - r) n ltac:(lia)). rewrite <- Hx. lia.
  - intros (q & Hq & ->). split; [nia|]. split; [nia|]. rewrite Z.mod_add by lia. rewrite Zplus_mod_idemp_r.
    replace (r + (i - r)) with i by lia. apply Z.mod_small. lia.
Qed.

Section auditor.
Context `{B : Blake3} {Laws : Blake3Laws B}.
Context (beacon root : bytes) (Hbeacon : zlen beacon = 32) (Hroot : zlen root = 32).

Lemma auditor_loop_eq draws : forall k ks n, 0 < n < 2 ^ 64 ->
  ks_at beacon root ANTS_INFERENCE_PRF_CONTEXT_AUD k ks ->
  let word d := ks_word beacon root ANTS_INFERENCE_PRF_CONTEXT_AUD (k + Z.of_nat d) in
  (exists d, (d < draws)%nat /\ (forall e, (e < d)%nat -> rejected n (word e)) /\ ~ rejected n (word d) /\ is_u64 (word d) /\
     exists ks', auditor_loop draws (2 ^ 64 mod n) n ks = Ok ks' (word d mod n)) \/
  ((forall d, (d < draws)%nat -> rejected n (word d)) /\ auditor_loop draws (2 ^ 64 mod n) n ks = NoFuel).
Proof using Laws Hbeacon Hroot.
  induction draws as [|f IH]; intros k ks n Hn Hks word; cbn [auditor_loop]; [right; split; [lia|done]|].
  destruct (next_word_eq beacon root _ Hbeacon Hroot k ks Hks) as (ks' & Hw & Hks' & Hu).
  rewrite (bind_Ok _ _ _ _ _ Hw). assert (H0 : word 0%nat = ks_word beacon root ANTS_INFERENCE_PRF_CONTEXT_AUD k)
    by (unfold word; by rewrite Z.add_0_r). rewrite <- H0 in *.
  assert (Hsh : forall d, ks_word beacon root ANTS_INFERENCE_PRF_CONTEXT_AUD (k + 1 + Z.of_nat d) = word (S d))
    by (intros; unfold word; f_equal; lia).
  destruct (Z.leb_spec (2 ^ 64 mod n) (word 0%nat)) as [Hle|Hlt].
  - left. exists 0%nat. split_and!; [lia|lia|unfold rejected; lia|done|by exists ks'].
  - assert (Hr0 : rejected n (word 0%nat)) by done.
    destruct (IH (k + 1) ks' n Hn Hks') as [(d & Hd & Hrej & Hacc & Hud & ks2 & He)|[Hrej He]].
    + left. exists (S d). rewrite Hsh in *. split_and!; [lia| |done|done|by exists ks2].
      intros [|e] Hlt'; [done|]. rewrite <- Hsh. apply Hrej. lia.
    + right. split; [|done]. intros [|d] Hd; [done|]. rewrite <- Hsh. apply Hrej. lia.
Qed.
End auditor.

(** ** The guarantees *)

(** C35: The opened positions are a stratified sample: the call fails only for an
    empty sample or an array without room for it, and leaves the array alone
    then; otherwise it writes min(m, length) positions, the one of each stratum
    that the word of that number selects, strictly ascending and all below
    the length, and no run of positions as long as two strata is left without
    an opened one. *)
Theorem challenge_positions_exact `{B : Blake3} {Laws : Blake3Laws B} beacon root m len cap out old :
  zlen beacon = 32 -> zlen root = 32 -> is_u32 m -> is_u32 len -> 0 <= cap <= zlen out ->
  let M := Z.min m len in
  match ants_inference_challenge_positions beacon root m len cap (out, old) with
  | Ok (out', n) _ =>
    0 < M <= cap /\ n = M /\ out' = sample beacon root M len ++ drop (Z.to_nat M) out /\
    StronglySorted Z.lt (sample beacon root M len) /\ Forall (fun p => 0 <= p < len) (sample beacon root M len) /\
    (forall j, 0 <= j < M -> exists p, p ∈ sample beacon root M len /\ stratum M len j <= p < stratum M len (j + 1)) /\
    (forall a, 0 <= a -> a + (2 * span M len - 1) <= len ->
       exists p, p ∈ sample beacon root M len /\ a <= p < a + (2 * span M len - 1))
  | Err st e => st = (out, old) /\
      ((e = ANTS_ERROR_INVALID_ARG /\ M = 0) \/ (e = ANTS_ERROR_BUFFER_TOO_SMALL /\ cap < M))
  | UB | NoFuel => False
  end.
Proof.
  intros Hbeacon Hroot Hm Hlen Hcap M. unfold is_u32 in *.
  destruct (decide (0 < M <= cap)) as [HM|HM].
  - assert (HMl : 0 < M <= len) by lia.
    rewrite positions_eq by (done || (unfold is_u32; lia) || lia). fold M. split; [done|]. split; [done|]. split; [done|].
    split; [by apply sample_sorted|]. split; [by apply sample_below|]. split; [|intros; by apply sample_covers].
    intros j Hj. exists (drawn beacon root M len j). split; [apply sample_elem; by exists j|by apply drawn_in].
  - unfold ants_inference_challenge_positions.
    destruct (Z.eqb_spec m 0), (Z.eqb_spec len 0); cbn [orb]; try (split; [done|left; split; [done|lia]]).
    destruct (Z.ltb_spec m len); bdecide; (split; [done|right; split; [done|lia]]).
Qed.

(** The selection of an auditor is unbiased: it returns the residue of the
    first word that is not rejected, which exists unless all words examined
    are rejected, and every index belongs to as many of the words that are
    not rejected as every other one. *)
Theorem challenge_auditor_unbiased `{B : Blake3} {Laws : Blake3Laws B} draws beacon root n u :
  zlen beacon = 32 -> zlen root = 32 -> is_u64 n ->
  let word d := ks_word beacon root ANTS_INFERENCE_PRF_CONTEXT_AUD (Z.of_nat d) in
  match ants_inference_challenge_auditor draws beacon root n u with
  | Ok _ i => 0 <= i < n /\
      (exists d, (d < draws)%nat /\ (forall e, (e < d)%nat -> rejected n (word e)) /\ ~ rejected n (word d) /\ i = word d mod n) /\
      (forall w, (is_u64 w /\ ~ rejected n w /\ w mod n = i) <->
         exists q, 0 <= q < 2 ^ 64 / n /\ w = 2 ^ 64 mod n + (i - 2 ^ 64 mod n) mod n + q * n)
  | Err _ e => n = 0 /\ e = ANTS_ERROR_INVALID_ARG
  | NoFuel => 0 < n /\ forall d, (d < draws)%nat -> rejected n (word d)
  | UB => False
  end.
Proof.
  intros Hbeacon Hroot Hn word. unfold ants_inference_challenge_auditor. destruct (Z.eqb_spec n 0) as [Hz|Hz]; [done|].
  assert (Hn' : 0 < n < 2 ^ 64) by (unfold is_u64 in Hn; lia). rewrite min_eq by done.
  unfold local_keystream, on_fst. cbn [fst snd].
  destruct (auditor_loop_eq beacon root Hbeacon Hroot draws 0 _ n Hn' (ks_init beacon root ANTS_INFERENCE_PRF_CONTEXT_AUD))
    as [(d & Hd & Hrej & Hacc & Hu & ks' & He)|[Hrej He]]; rewrite He.
  - pose proof (Z.mod_pos_bound (word d) n ltac:(lia)). change (0 + Z.of_nat d) with (Z.of_nat d) in *. fold (word d) in *.
    split; [done|]. split; [by exists d|]. intros w. by apply residue_class.
  - split; [lia|exact Hrej].
Qed.

(** ** Examples *)

Definition demo_beacon : bytes := replicate 32 200.
Definition demo_root : bytes := replicate 32 17.

Lemma challenge_positions_exact_witness :
  exists out n, @ants_inference_challenge_positions toy_blake3 demo_beacon demo_root 3 10 4 (replicate 4 0, 0) = Ok (out, n) tt /\
    StronglySorted Z.lt (@sample toy_blake3 demo_beacon demo_root 3 10).
Proof.
  pose proof (@challenge_positions_exact toy_blake3 toy_blake3_laws demo_beacon demo_root 3 10 4 (replicate 4 0) 0
    ltac:(done) ltac:(done) ltac:(done) ltac:(done) ltac:(done)) as H.
  destruct (@ants_inference_challenge_positions toy_blake3 demo_beacon demo_root 3 10 4 (replicate 4 0, 0)) as [[out n] []|st e| |] eqn:E.
  - destruct H as (_ & _ & _ & Hs & _). by exists out, n.
  - exfalso. vm_compute in E. discriminate E.
  - destruct H.
  - destruct H.
Defined.

Lemma challenge_auditor_unbiased_witness :
  exists i, @ants_inference_challenge_auditor toy_blake3 3 demo_beacon demo_root 7 tt = Ok tt i /\ 0 <= i < 7.
Proof.
  pose proof (@challenge_auditor_unbiased toy_blake3 toy_blake3_laws 3 demo_beacon demo_root 7 tt ltac:(done) ltac:(done) ltac:(done)) as H.
  destruct (@ants_inference_challenge_auditor toy_blake3 3 demo_beacon demo_root 7 tt) as [[] i|st e| |] eqn:E.
  - exists i. destruct H as [Hi _]. by split.
  - exfalso. vm_compute in E. discriminate E.
  - destruct H.
  - exfalso. vm_compute in E. discriminate E.
Defined.
