(* ===== verification/InferEnvelope.v ===== *)
(** * The answer envelope (orchestration.c)

    The envelope decoder accepts exactly the canonical encodings of
    well-shaped envelopes.  Its reading program stores nothing in the caller's
    objects, so the principle [local_dec_exact] is stated for such programs.

    Then: the tree over an answer's distributions. *)

From S2P Require Import Prelude Cbor CborSpec CborTrack CborEnc CborDec CborCanon CborContract CborKv.
From S2P Require Import CborRecord CborCodec Crypto Bond Merkle Crdt CrdtMerkle CrdtVerify Chain ChainCommit.
From S2P Require Import ChainCodec Infer.
Import Crdt Infer.

#[local] Arguments zlen {A} l : simpl never.

(** ** Decoding into a local object *)

(** A reading program that undoes [doc] on the values [ok], and succeeds on
    nothing else, makes an exact decoder. *)
Lemma local_dec_exact {A} (m : action ants_cbor_dec_t A) (doc : A -> cbor) (ok : A -> Prop) norm buf u :
  keeps1 m -> (forall a, ok a -> wf (doc a) /\ (height (doc a) <= 16)%nat) ->
  (forall d a, ok a -> at_ d [doc a] -> exists d', m d = Ok d' a /\ at_ d' []) ->
  (forall d d' a items, at_ d items -> m d = Ok d' a -> exists cs, items = doc a :: cs /\ ok a /\ at_ d' cs) ->
  bytes_ok buf -> zlen buf <= INT64_MAX ->
  match local_dec buf (let* a := m in map_err norm ants_cbor_dec_finalise ;* ret a) u with
  | Ok u' a => u' = u /\ ok a /\ buf = encode (doc a)
  | Err u' _ => u' = u /\ forall a, ok a -> buf <> encode (doc a)
  | UB | NoFuel => False
  end.
Proof.
  intros Hk Hdoc Hread Hinv Hok Hb. destruct (dec_init_rep buf Hok Hb) as (d & Hd & Hrep). unfold local_dec. rewrite Hd.
  assert (Hi : dec_inv buf d) by (exists [], buf, []; split; [done|]; split; [by exists []|done]).
  assert (Honly : forall a, ok a -> buf = encode (doc a) -> exists d', m d = Ok d' a /\ ants_cbor_dec_finalise d' = Ok d' tt).
  { intros a Ha He. destruct (at_init buf [doc a]) as (d0 & Hd0 & Hat); try done.
    - unfold encodes. cbn [map concat]. by rewrite app_nil_r.
    - constructor; [by apply Hdoc|constructor].
    - assert (d0 = d) as -> by congruence. destruct (Hread d a Ha Hat) as (d' & Hm & Hat').
      exists d'. split; [done|by apply at_finalise]. }
  specialize (Hk buf d Hi). unfold bind, map_err. destruct (m d) as [d' a|d' e| |] eqn:E; try done.
  - destruct (ants_cbor_dec_finalise d') as [d'' []|d'' e| |] eqn:Ef.
    + assert (d'' = d') as -> by (unfold ants_cbor_dec_finalise in Ef; repeat case_match; congruence).
      destruct (inv_finalise buf d' d' Hk Ef) as (items & Hit & ->). fold (encodes items) in *.
      destruct (at_init (encodes items) items) as (d0 & Hd0 & Hat); try done. assert (d0 = d) as -> by congruence.
      destruct (Hinv d d' a items Hat E) as (cs & -> & Ha & Hat'). rewrite (at_finalise_inv d' d' cs Hat' Ef).
      split; [done|]. split; [done|]. unfold encodes. cbn [map concat]. by rewrite app_nil_r.
    + split; [done|]. intros a' Ha' He. destruct (Honly a' Ha' He) as (d1 & Hm & Hf). assert (d1 = d') as -> by congruence. congruence.
    + unfold ants_cbor_dec_finalise in Ef. by repeat case_match.
    + unfold ants_cbor_dec_finalise in Ef. by repeat case_match.
  - split; [done|]. intros a Ha He. destruct (Honly a Ha He) as (d1 & Hm & _). congruence.
Qed.

(** ** The documented form *)

Definition blob_ok (b : bytes) : Prop := bytes_ok b /\ zlen b <= SIZE_MAX.

Definition env_cbor (e : answer_env) : cbor :=
  CMap [(CUint 0, CBytes (ae_input e)); (CUint 1, CBytes (ae_tokens e)); (CUint 2, CArray (map CBytes (ae_dists e)))].

(** Distributions of one size, whole 32-bit numbers. *)
Definition of_size (size : Z) (d : bytes) : Prop := zlen d <> 0 /\ zlen d mod 4 = 0 /\ zlen d = size.

Definition uniform (ds : list bytes) : Prop := exists size, Forall (of_size size) ds.

Definition env_ok (e : answer_env) : Prop :=
  blob_ok (ae_input e) /\ blob_ok (ae_tokens e) /\ zlen (ae_tokens e) <= ANTS_INFERENCE_REF_SEQLEN_MAX /\
  Forall blob_ok (ae_dists e) /\ zlen (ae_dists e) = zlen (ae_tokens e) /\ uniform (ae_dists e).

Lemma env_wf e : env_ok e -> wf (env_cbor e) /\ (height (env_cbor e) <= 16)%nat.
Proof.
  intros (Hi & Ht & Hn & Hd & Hl & _). unfold ANTS_INFERENCE_REF_SEQLEN_MAX in *. split.
  - apply wf_map. split; [done|]. split; [by repeat constructor|].
    repeat (constructor; [split; [done|]; try done|]); [|constructor]. apply wf_array. split; [rewrite zlen_map; zlia|].
    change (Forall wf (CBytes <$> ae_dists e)). rewrite Forall_fmap. exact Hd.
  - change (height (env_cbor e)) with (S (Nat.max 0 (Nat.max 0 (Nat.max 0 (Nat.max 0 (Nat.max 0 (Nat.max (height (CArray (map CBytes (ae_dists e)))) 0))))))).
    assert (height (CArray (map CBytes (ae_dists e))) <= 1)%nat; [|lia].
    apply height_array_le, Forall_forall. intros c (d & -> & _)%list_elem_of_fmap. cbn. lia.
Qed.

(** ** Reading it *)

Lemma keeps1_dists k : forall first, keeps1 (dists_loop k first).
Proof.
  induction k as [|k IH]; intros first; cbn [dists_loop]; [auto with ants|].
  apply keeps1_bind; [auto with ants|]. intros d. apply keeps1_if; [auto with ants|].
  apply keeps1_bind; [apply IH|auto with ants].
Qed.

Lemma keeps1_env : keeps1 envelope_fields.
Proof.
  unfold envelope_fields. repeat first
    [ apply keeps1_bind; [solve [auto with ants | apply keeps1_dists]|intros ?]
    | apply keeps1_if; [solve [auto with ants]|]
    | solve [auto with ants] ].
Qed.

Lemma dists_read size ds : forall d first cs,
  Forall (of_size size) ds -> (first = None \/ first = Some size) -> at_ d (map CBytes ds ++ cs) ->
  exists d', dists_loop (length ds) first d = Ok d' ds /\ at_ d' cs.
Proof.
  induction ds as [|b ds IH]; intros d first cs Hs Hf Hat; cbn [length dists_loop map app] in *; [by exists d|].
  apply Forall_cons in Hs as [(Hz & Hm & Hsz) Hs].
  destruct (at_read _ CBytes d b _ reader_bytes Hat) as (d1 & Hd1 & Hat1).
  rewrite (bind_Ok _ _ _ _ _ (map_err_ok _ _ _ _ _ Hd1)). cbv zeta.
  replace (default (zlen b) first) with size by (by destruct Hf as [->| ->]).
  rewrite (proj2 (Z.eqb_neq _ _) Hz), (proj2 (Z.eqb_eq _ _) Hm), (proj2 (Z.eqb_eq _ _) Hsz). cbn [negb orb].
  destruct (IH d1 (Some size) cs Hs ltac:(by right) Hat1) as (d2 & Hd2 & Hat2). exists d2. split; [|done].
  by rewrite (bind_Ok _ _ _ _ _ Hd2).
Qed.

Lemma dists_inv k : forall first d d' ds items,
  at_ d items -> dists_loop k first d = Ok d' ds ->
  exists cs, items = map CBytes ds ++ cs /\ length ds = k /\ at_ d' cs /\
    forall size, (first = Some size \/ (first = None /\ match ds with [] => True | b :: _ => zlen b = size end)) ->
      Forall (of_size size) ds.
Proof.
  induction k as [|k IH]; intros first d d' ds items Hat H; cbn [dists_loop] in H.
  { injection H as <- <-. exists items. by split_and!. }
  apply bind_Ok_inv in H as (d1 & b & Hb & H). apply map_err_inv in Hb.
  destruct (at_read_inv _ CBytes d d1 b items reader_bytes Hat Hb) as (items1 & -> & Hat1). cbv zeta in H.
  destruct (Z.eqb_spec (zlen b) 0) as [|Hz]; [done|]. destruct (Z.eqb_spec (zlen b mod 4) 0) as [Hm|]; [|done].
  destruct (Z.eqb_spec (zlen b) (default (zlen b) first)) as [Hsz|]; [|done]. cbn [negb orb] in H.
  apply bind_Ok_inv in H as (d2 & ds' & Hds & H). injection H as <- <-.
  destruct (IH _ _ _ _ _ Hat1 Hds) as (cs & -> & Hl & Hat2 & Hall). exists cs. cbn [length map app].
  split; [done|]. split; [by f_equal|]. split; [done|]. intros size Hsize.
  assert (Hs : zlen b = size) by (destruct Hsize as [->|[-> Hb']]; [exact Hsz|exact Hb']).
  constructor; [by split_and!|]. apply Hall. left. destruct first; cbn [default] in *; congruence.
Qed.

Lemma env_read d e : env_ok e -> at_ d [env_cbor e] -> exists d', envelope_fields d = Ok d' e /\ at_ d' [].
Proof.
  intros (_ & _ & Hn & _ & Hl & size & Hs) Hat. unfold envelope_fields.
  destruct (at_map _ _ _ Hat) as (d1 & Hd1 & Hat1). cbn [flat map concat app fst snd] in Hat1.
  rewrite (bind_Ok _ _ _ _ _ (map_err_ok _ _ _ _ _ Hd1)). clear Hd1 Hat.
  match goal with |- context [negb (?a =? ANTS_INFERENCE_ENV_PAIRS)] => replace (negb (a =? ANTS_INFERENCE_ENV_PAIRS)) with false by done end.
  destruct (at_expect_key _ _ _ Hat1) as (d2 & Hd2 & Hat2). rewrite (bind_Ok _ _ _ _ _ Hd2).
  destruct (at_read _ CBytes _ _ _ reader_bytes Hat2) as (d3 & Hd3 & Hat3). rewrite (bind_Ok _ _ _ _ _ (map_err_ok _ _ _ _ _ Hd3)).
  destruct (at_expect_key _ _ _ Hat3) as (d4 & Hd4 & Hat4). rewrite (bind_Ok _ _ _ _ _ Hd4).
  destruct (at_read _ CBytes _ _ _ reader_bytes Hat4) as (d5 & Hd5 & Hat5). rewrite (bind_Ok _ _ _ _ _ (map_err_ok _ _ _ _ _ Hd5)).
  unfold ANTS_INFERENCE_REF_SEQLEN_MAX in *. bdecide.
  destruct (at_expect_key _ _ _ Hat5) as (d6 & Hd6 & Hat6). rewrite (bind_Ok _ _ _ _ _ Hd6).
  destruct (at_array _ _ _ Hat6) as (d7 & Hd7 & Hat7). rewrite (bind_Ok _ _ _ _ _ (map_err_ok _ _ _ _ _ Hd7)).
  rewrite zlen_map, (proj2 (Z.eqb_eq _ _) Hl). cbn [negb].
  destruct (dists_read size (ae_dists e) d7 None [] Hs ltac:(by left)) as (d8 & Hd8 & Hat8); [exact Hat7|].
  replace (length (ae_tokens e)) with (length (ae_dists e)) by (unfold zlen in Hl; lia).
  rewrite (bind_Ok _ _ _ _ _ Hd8). exists d8. split; [by destruct e|done].
Qed.

Lemma env_read_inv d d' e items :
  at_ d items -> envelope_fields d = Ok d' e -> exists cs, items = env_cbor e :: cs /\ env_ok e /\ at_ d' cs.
Proof.
  intros Hat H. assert (Hwf : Forall wf items) by (by destruct Hat as (? & ? & _ & _ & ?)). unfold envelope_fields in H.
  apply bind_Ok_inv in H as (d1 & n & Hn & H). apply map_err_inv in Hn.
  destruct (at_map_inv _ _ _ _ Hat Hn) as (l & cs & -> & -> & Hat1). clear Hn Hat.
  destruct (Z.eqb_spec (zlen l) ANTS_INFERENCE_ENV_PAIRS) as [Hlen|]; [|done]. cbn [negb] in H.
  apply (zlen_S _ 2) in Hlen as ([k1 v1] & l1 & -> & Hlen). apply zlen_2 in Hlen as ([k2 v2] & [k3 v3] & ->).
  cbn [flat map concat app fst snd] in Hat1.
  apply bind_Ok_inv in H as (d2 & [] & H2 & H). destruct (at_expect_key_inv _ _ _ _ Hat1 H2) as (c2 & [= -> <-] & Hat2).
  apply bind_Ok_inv in H as (d3 & input & H3 & H). apply map_err_inv in H3.
  destruct (at_read_inv _ CBytes _ _ _ _ reader_bytes Hat2 H3) as (c3 & [= -> <-] & Hat3).
  apply bind_Ok_inv in H as (d4 & [] & H4 & H). destruct (at_expect_key_inv _ _ _ _ Hat3 H4) as (c4 & [= -> <-] & Hat4).
  apply bind_Ok_inv in H as (d5 & tokens & H5 & H). apply map_err_inv in H5.
  destruct (at_read_inv _ CBytes _ _ _ _ reader_bytes Hat4 H5) as (c5 & [= -> <-] & Hat5).
  destruct (Z.ltb_spec ANTS_INFERENCE_REF_SEQLEN_MAX (zlen tokens)) as [|Hmax]; [done|].
  apply bind_Ok_inv in H as (d6 & [] & H6 & H). destruct (at_expect_key_inv _ _ _ _ Hat5 H6) as (c6 & [= -> <-] & Hat6).
  apply bind_Ok_inv in H as (d7 & darr & H7 & H). apply map_err_inv in H7.
  destruct (at_array_inv _ _ _ _ Hat6 H7) as (arr & c7 & [= -> <-] & -> & Hat7).
  destruct (Z.eqb_spec (zlen arr) (zlen tokens)) as [Hz|]; [|done]. cbn [negb] in H.
  apply bind_Ok_inv in H as (d8 & ds & H8 & H). injection H as <- <-.
  destruct (dists_inv _ _ _ _ _ _ Hat7 H8) as (c8 & E8 & Hl & Hat8 & Hsize).
  apply app_inj_1 in E8 as [-> <-]; [|rewrite length_map; unfold zlen in Hz; lia].
  apply Forall_cons in Hwf as [(_ & _ & Hw)%wf_map _]. do 3 (apply Forall_cons in Hw as [[_ ?] Hw]). cbn [snd] in *.
  match goal with Ha : wf (CArray _) |- _ => apply wf_array in Ha as [_ Hds] end.
  change (Forall wf (CBytes <$> ds)) in Hds. rewrite Forall_fmap in Hds.
  exists cs. split; [done|]. split; [|done]. unfold env_ok. cbn [ae_input ae_tokens ae_dists]. rewrite zlen_map in Hz.
  split_and!; try done. exists (match ds with [] => 4 | b :: _ => zlen b end). apply Hsize. right. split; [done|]. by destruct ds.
Qed.

(** A byte string is the encoding of one envelope, or the decoder refuses it. *)
Lemma envelope_decode_exact buf u :
  bytes_ok buf -> zlen buf <= INT64_MAX ->
  match answer_envelope_decode buf u with
  | Ok u' e => u' = u /\ env_ok e /\ buf = encode (env_cbor e)
  | Err u' _ => u' = u /\ forall e, env_ok e -> buf <> encode (env_cbor e)
  | UB | NoFuel => False
  end.
Proof.
  intros Hok Hb. apply (local_dec_exact envelope_fields env_cbor env_ok norm_decode_err); try done.
  - apply keeps1_env.
  - apply env_wf.
  - intros. by apply env_read.
  - intros. by eapply env_read_inv.
Qed.

(** * The tree over an answer's distributions (orchestration.c)

    Root, openings and verification over leaves that are hashed beforehand,
    and what a root binds. *)

Import Chain.


Section tree.
Context `{B : Blake3} {Laws : Blake3Laws B}.

(** ** Leaves *)

(** The bytes below the leaf at a position. *)
Definition position_data (j : Z) (d : bytes) : bytes := d ++ Bond.write_le64 j.

Lemma position_data_inj j d d' : position_data j d = position_data j d' -> d = d'.
Proof. apply app_inv_tail. Qed.

Lemma infer_leaf_hash_eq d j u : zlen d <> 0 -> ants_inference_leaf_hash (Some d) (zlen d) j u = Ok u (leaf (position_data j d)).
Proof using Laws.
  intros Hd. unfold ants_inference_leaf_hash. cbn [is_null orb]. rewrite (proj2 (Z.eqb_neq _ _) Hd).
  unfold local_hash, bind, ants_blake3_init. rewrite (update_sized _ [ANTS_INFERENCE_MERKLE_LEAF_PREFIX]) by done.
  rewrite update_chunk, (update_sized _ (Bond.write_le64 j)) by done. unfold ants_blake3_final. by rewrite !update_app.
Qed.

(** The data below the leaves of an answer, from position [j] on. *)
Fixpoint answer_data (j : Z) (ds : list bytes) : list bytes :=
  match ds with
  | [] => []
  | d :: rest => position_data j d :: answer_data (j + 1) rest
  end.

Lemma answer_data_inj ds : forall j ds', answer_data j ds = answer_data j ds' -> ds = ds'.
Proof.
  induction ds as [|d ds IH]; intros j [|d' ds'] H; [done..|]. cbn [answer_data] in H. injection H as Hd%position_data_inj Hr.
  f_equal; [done|]. by apply (IH (j + 1)).
Qed.

Lemma answer_data_lookup ds i d : forall j, ds !! i = Some d -> answer_data j ds !! i = Some (position_data (j + Z.of_nat i) d).
Proof.
  revert i. induction ds as [|d0 ds IH]; intros i j Hi; [done|]. destruct i as [|i]; cbn [answer_data] in *.
  - injection Hi as ->. by rewrite Z.add_0_r.
  - rewrite lookup_cons, (IH i (j + 1) Hi). do 2 f_equal. lia.
Qed.

Lemma zlen_answer_data ds : forall j, zlen (answer_data j ds) = zlen ds.
Proof. induction ds as [|d ds IH]; intros j; [done|]. cbn [answer_data]. by rewrite !zlen_cons, IH. Qed.

Lemma env_leaves_eq ds u : forall j, Forall (fun d => zlen d <> 0) ds -> env_leaves j ds u = Ok u (map leaf (answer_data j ds)).
Proof using Laws.
  induction ds as [|d ds IH]; intros j Hd; [done|]. apply Forall_cons in Hd as [Hz Hd]. cbn [env_leaves answer_data map].
  rewrite (bind_Ok _ _ _ _ _ (infer_leaf_hash_eq d j u Hz)). by rewrite (bind_Ok _ _ _ _ _ (IH (j + 1) Hd)).
Qed.

(** ** The root *)

(** A stored leaf is itself; the other branch makes it a hash for strings that
    are no leaves. *)
Definition stored (h : bytes) : bytes := if decide (zlen h = 32) then h else digest h.

Lemma stored_size h : zlen (stored h) = 32.
Proof using Laws. unfold stored. case_decide; [done|apply digest_size]. Qed.

Lemma stored_leaf_eq h u : zlen h = 32 -> stored_leaf h u = Ok u (stored h).
Proof. intros Hh. unfold stored_leaf, stored. by rewrite decide_True. Qed.

Lemma stored_all ls : hashes ls -> map stored ls = ls.
Proof. induction 1 as [|h ls Hh _ IH]; [done|]. cbn [map]. rewrite IH. unfold stored. by rewrite decide_True. Qed.

Lemma leaf_count_ok n : n <= 2 ^ ANTS_CHAIN_MERKLE_MAX_DEPTH -> too_many_leaves n = false.
Proof.
  intros Hn. unfold too_many_leaves. apply Z.ltb_ge. by change (Z.shiftl 1 ANTS_INFERENCE_MERKLE_MAX_DEPTH) with (2 ^ ANTS_CHAIN_MERKLE_MAX_DEPTH).
Qed.

Lemma infer_root_eq ls u :
  0 < zlen ls <= 2 ^ ANTS_CHAIN_MERKLE_MAX_DEPTH -> hashes ls ->
  ants_inference_merkle_root (Some ls) (zlen ls) u = Ok u (merkle_root ls).
Proof using Laws.
  intros Hn Hls. unfold ants_inference_merkle_root. bdecide. rewrite leaf_count_ok by lia.
  rewrite first_n_all. unfold deref, bind at 1.
  rewrite (subtree_root_range_ok stored_leaf stored (fun h => zlen h = 32) stored_leaf_eq stored_size) by (done || lia).
  rewrite Z.sub_0_r, zlen_to_nat, drop_0, take_ge by lia. by rewrite stored_all.
Qed.

(** ** Openings *)

Lemma infer_prove_eq ls i x cap buf old :
  ls !! i = Some x -> hashes ls -> zlen ls <= 2 ^ ANTS_CHAIN_MERKLE_MAX_DEPTH ->
  let need := proof_size (Z.of_nat i) (zlen ls) in
  if cap <? need then
    ants_inference_merkle_prove (Some ls) (zlen ls) (Z.of_nat i) cap (buf, old) = Err (buf, old) ANTS_ERROR_BUFFER_TOO_SMALL
  else cap * 32 <= zlen buf ->
    exists rest, zlen (leaf_path ls i ++ rest) = zlen buf /\
      ants_inference_merkle_prove (Some ls) (zlen ls) (Z.of_nat i) cap (buf, old) = Ok (leaf_path ls i ++ rest, need) tt.
Proof using Laws.
  intros Hi Hls Hn need. pose proof (lookup_lt_Some _ _ _ Hi) as Hlt. unfold ants_inference_merkle_prove.
  pose proof (zlen_leaf_path ls i x Hls Hi) as Hz.
  replace ((zlen ls =? 0) || (zlen ls <=? Z.of_nat i)) with false
    by (symmetry; apply orb_false_iff; split; [apply Z.eqb_neq|apply Z.leb_gt]; zlia).
  rewrite leaf_count_ok by done.
  assert (Hlen : pure_call (merkle_path_len (Z.of_nat i) (zlen ls)) (buf, old) = Ok (buf, old) need).
  { unfold pure_call, merkle_path_len, ANTS_CHAIN_MERKLE_MAX_DEPTH in *. by rewrite cp_path_len_eq by zlia. }
  rewrite (bind_Ok _ _ _ _ _ Hlen). destruct (Z.ltb_spec cap need) as [Hs|Hs]; [done|]. intros Hc.
  rewrite first_n_all. unfold deref, bind at 1.
  destruct (prove_path stored_leaf stored (fun h => zlen h = 32) stored_leaf_eq stored_size ls i x buf old)
    as (rest & Hr & He); try done; rewrite ?stored_all by done; [fold need in Hz; lia|].
  rewrite stored_all in Hr, He by done. exists rest. split; [done|]. by erewrite bind_Ok by exact He.
Qed.

(** The verdict on an opening: the path leads from the leaf to the root. *)
Lemma infer_verify_eq h i n path root u :
  zlen h = 32 -> 0 <= i < n -> n <= 2 ^ ANTS_CHAIN_MERKLE_MAX_DEPTH -> zlen root = 32 -> zlen path = proof_size i n * 32 ->
  exists ok, ants_inference_merkle_verify h i n (Some path) (proof_size i n) root u = Ok u ok /\
    (ok = true <-> climb (turns i n) (chunks (Z.to_nat (proof_size i n)) path) h = Some root).
Proof using Laws.
  intros Hh Hi Hn Hroot Hp. unfold ants_inference_merkle_verify.
  replace ((n =? 0) || (n <=? i)) with false by (symmetry; apply orb_false_iff; split; [apply Z.eqb_neq|apply Z.leb_gt]; lia).
  rewrite leaf_count_ok by done. pose proof (proof_size_depth i n Hn) as Hd. unfold ANTS_CHAIN_MERKLE_MAX_DEPTH, merkle_path_len in *.
  rewrite (bind_Ok _ _ _ _ _ (cp_path_len_eq i n u Hi ltac:(zlia))). rewrite Z.eqb_refl. cbn [negb].
  destruct (path_hashes (Z.to_nat (proof_size i n)) path) as (sibs & -> & Hs & Hl); [lia|].
  rewrite Z2Nat.id in Hl by lia.
  destruct (fold_loop_climb 65 i n [] sibs h u) as (m & Hc & Hm & Hf); [done|zlia|zlia|done|done|done|].
  change 0 with (zlen (@nil bytes)) at 1. rewrite (bind_Ok _ _ _ _ _ Hf). cbn [app]. eexists. split; [reflexivity|].
  rewrite Hl, Z.eqb_refl, memcmp_eq by congruence. cbn [andb]. rewrite bool_decide_eq_true.
  rewrite <- Hl, zlen_to_nat, chunks_concat, Hc by done. split; [by intros ->|by intros [= ->]].
Qed.

(** ** What a root binds *)

(** Trees with the same root are the same, up to collisions. *)
Lemma hroot_inj t : forall t', collision_free (hinputs t) (hinputs t') -> hroot t = hroot t' -> t = t'.
Proof using Laws.
  induction t as [d|l IHl r IHr]; intros [d'|l' r'] Hcf H; cbn [hroot hinputs] in *.
  - apply (Hcf (leaf_input d) (leaf_input d')) in H; [by injection H as ->|by left|by left].
  - apply (Hcf (leaf_input d) (node_input (hroot l') (hroot r'))) in H; [done|by left|by left].
  - apply (Hcf (node_input (hroot l) (hroot r)) (leaf_input d')) in H; [done|by left|by left].
  - apply (Hcf (node_input (hroot l) (hroot r)) (node_input (hroot l') (hroot r'))) in H; [|by left|by left].
    apply node_input_inj in H as [Hl Hr]; [|by rewrite !hroot_size].
    f_equal; [apply IHl|apply IHr]; try done; intros a b Ha Hb; apply Hcf; set_solver.
Qed.

(** Everything hashed when the root over leaf data is computed. *)
Definition root_inputs (data : list bytes) : list bytes :=
  map leaf_input data ++ tree_inputs (length data) (map leaf data).

Lemma merkle_root_binds ds ds' :
  ds <> [] -> ds' <> [] -> collision_free (root_inputs ds) (root_inputs ds') ->
  merkle_root (map leaf ds) = merkle_root (map leaf ds') -> ds = ds'.
Proof using Laws.
  intros Hne Hne' Hcf H. destruct (tree_over ds Hne) as (t & Hr & Hd & Hin). destruct (tree_over ds' Hne') as (t' & Hr' & Hd' & Hin').
  assert (t = t') as <-; [|congruence]. apply hroot_inj; [|congruence]. intros a b Ha Hb. apply Hcf; [by apply Hin|by apply Hin'].
Qed.

(** Everything hashed when an opening of [d] at position [i] is checked. *)
Definition opening_check (i n : Z) (d path : bytes) : list bytes :=
  leaf_input (position_data i d) ::
  climb_inputs (turns i n) (chunks (Z.to_nat (proof_size i n)) path) (leaf (position_data i d)).

Lemma opening_binds ds i d d' path :
  ds !! i = Some d -> zlen path = proof_size (Z.of_nat i) (zlen ds) * 32 ->
  collision_free (root_inputs (answer_data 0 ds)) (opening_check (Z.of_nat i) (zlen ds) d' path) ->
  climb (turns (Z.of_nat i) (zlen ds)) (chunks (Z.to_nat (proof_size (Z.of_nat i) (zlen ds))) path)
    (leaf (position_data (Z.of_nat i) d')) = Some (merkle_root (map leaf (answer_data 0 ds))) -> d' = d.
Proof using Laws.
  intros Hi Hp Hcf Hc. pose proof (answer_data_lookup ds i d 0 Hi) as Hd. rewrite Z.add_0_l in Hd.
  pose proof (zlen_answer_data ds 0) as Hz. pose proof (lookup_lt_Some _ _ _ Hd) as Hlt. set (data := answer_data 0 ds) in *.
  assert (Hl : map leaf data !! i = Some (leaf (position_data (Z.of_nat i) d'))).
  { apply (climb_binding (length data) (map leaf data) i (chunks (Z.to_nat (proof_size (Z.of_nat i) (zlen ds))) path)).
    1, 2: rewrite length_map; lia.
    - apply ids_hashes.
    - destruct (path_hashes (Z.to_nat (proof_size (Z.of_nat i) (zlen ds))) path) as (sibs & -> & Hs & Hl).
      { pose proof (zlen_nonneg path). lia. }
      apply (f_equal Z.to_nat) in Hl. rewrite zlen_to_nat, Nat2Z.id in Hl. by rewrite <- Hl, chunks_concat.
    - apply digest_size.
    - intros a b Ha Hb. rewrite (zlen_leaves leaf), Hz in Hb. apply Hcf; [apply elem_of_app; by right|by right].
    - by rewrite (zlen_leaves leaf), Hz. }
  rewrite (leaf_lookup leaf _ _ _ Hd) in Hl. apply (inj Some) in Hl. symmetry. apply (position_data_inj (Z.of_nat i)).
  apply Hcf in Hl; [by injection Hl| |by left]. apply elem_of_app. left. apply list_elem_of_fmap.
  exists (position_data (Z.of_nat i) d). split; [done|]. by apply list_elem_of_lookup_2 with i.
Qed.
End tree.
