(* ===== verification/InferAnswer.v ===== *)
(** * What an accepted answer guarantees (orchestration.c)

    The requester's check is exact, a signed commit has one list of
    distributions, and openings of single positions are complete and binding.
    The tokens of an answer are not bound. *)

From S2P Require Import Prelude Cbor CborSpec CborTrack CborEnc CborDec CborCanon CborContract CborKv.
From S2P Require Import CborRecord CborCodec Crypto Bond BondCodec Merkle CrdtMerkle Crdt CrdtVerify Chain.
From S2P Require Import ChainCommit Infer InferCommit InferEnvelope.
Import Crdt Chain Infer.

#[local] Arguments zlen {A} l : simpl never.

Section check.
Context `{B : Blake3} {Laws : Blake3Laws B} `{Ed : Ed25519}.

(** The audit policy a tier promises. *)
Definition audit_promised (tier threshold : Z) : Prop :=
  if decide (tier = 1) then 2 ^ 59 <= threshold else threshold = UINT64_MAX.

(** The root over the distributions of an answer. *)
Definition answer_root (ds : list bytes) : bytes := merkle_root (map leaf (answer_data 0 ds)).

(** A commit of this producer to an answer of this request. *)
Record answers (pub sig input : bytes) (tier : Z) (nonce : bytes) (c : ants_inference_commit_t) (e : answer_env) : Prop := {
  ans_signed : crypto_sign_ed25519_verify_detached sig (encode (commit_cbor c)) pub = true;
  ans_input_hash : c_input_hash c = digest input;
  ans_nonce : c_req_nonce c = nonce;
  ans_tier : c_tier c = tier;
  ans_input : ae_input e = input;
  ans_length : zlen (ae_tokens e) = c_length c;
  ans_opened : 1 <= c_m c <= c_length c;
  ans_policy : audit_promised tier (c_audit_threshold c);
  ans_vocab : Forall (fun d => zlen d <= 4 * ANTS_INFERENCE_REF_VOCAB_MAX) (ae_dists e);
  ans_context : Z.min (zlen input) 63 + c_length c <= 64;
  ans_root : c_root c = answer_root (ae_dists e)
}.

(** ** Verdicts *)

(** The object behind [out_commit] after an accepted answer. *)
Definition delivered (c : ants_inference_commit_t) (st : option ants_inference_commit_t) : option ants_inference_commit_t :=
  if is_null st then None else Some c.

(** The rest of the check says whether [P] holds, and stores the commit if so. *)
Definition says (P : Prop) (c : ants_inference_commit_t) (st : option ants_inference_commit_t)
  (r : outcome (option ants_inference_commit_t) bool) : Prop :=
  exists ok : bool, r = Ok (if ok then delivered c st else st) ok /\ (ok = true <-> P).

Lemma says_no P c st : ~ P -> says P c st (Ok st false).
Proof. intros H. exists false. split; [done|]. split; [done|]. by intros ?%H. Qed.

Lemma says_yes P c st : P -> says P c st (Ok (delivered c st) true).
Proof. intros H. by exists true. Qed.

Lemma policy_broken tier threshold : audit_policy_broken tier threshold = false <-> audit_promised tier threshold.
Proof.
  unfold audit_policy_broken, audit_promised, ANTS_INFERENCE_TIER_1.
  change ANTS_INFERENCE_TIER1_AUDIT_THRESHOLD with (2 ^ 59).
  destruct (Z.eqb_spec tier 1) as [->|Ht]; cbn [negb andb orb].
  - rewrite decide_True, orb_false_r by done. apply Z.ltb_ge.
  - rewrite decide_False by done. rewrite negb_false_iff. apply Z.eqb_eq.
Qed.

(** A test that refuses, and what follows it. *)
Lemma says_test (b : bool) (P1 P2 : Prop) c st k :
  (b = false <-> P1) -> (P1 -> says P2 c st (k st)) -> says (P1 /\ P2) c st ((if b then ret false else k) st).
Proof.
  intros Hb Hk. destruct b; [apply says_no; by intros [?%Hb _]|]. assert (H1 : P1) by (by apply Hb).
  destruct (Hk H1) as (ok & -> & Hok). exists ok. split; [done|]. tauto.
Qed.

Lemma says_iff (P Q : Prop) c st r : (P <-> Q) -> says P c st r -> says Q c st r.
Proof. intros Hpq (ok & Hr & Hok). exists ok. split; [done|]. by rewrite Hok. Qed.

(** The last part of the check, once both documents are decoded. *)
Lemma gate_says c e st n :
  hash_ok (c_root c) -> uniform (ae_dists e) -> zlen (ae_dists e) = n -> 0 < n <= ANTS_INFERENCE_REF_SEQLEN_MAX ->
  says (c_root c = answer_root (ae_dists e)) c st
    (or_false (env_leaves 0 (ae_dists e)) (fun leaves =>
     or_false (ants_inference_merkle_root (Some leaves) n) (fun root =>
     if negb (memcmp root (c_root c) =? 0) then ret false
     else modify (fun out => if is_null out then None else Some c) ;* ret true)) st).
Proof using Laws.
  intros [_ Hr] [size Hu] Hn Hlen. unfold or_false. rewrite env_leaves_eq.
  2: { eapply Forall_impl; [exact Hu|]. by intros d [? _]. }
  assert (Hz : zlen (map leaf (answer_data 0 (ae_dists e))) = n) by (unfold zlen; rewrite length_map; fold (zlen (answer_data 0 (ae_dists e))); by rewrite zlen_answer_data).
  unfold ANTS_INFERENCE_REF_SEQLEN_MAX in Hlen.
  rewrite <- Hz at 1. rewrite infer_root_eq; [|rewrite Hz; unfold ANTS_CHAIN_MERKLE_MAX_DEPTH; lia|apply ids_hashes].
  fold (answer_root (ae_dists e)).
  assert (Hs : zlen (answer_root (ae_dists e)) = 32).
  { apply committed_root_size. destruct (ae_dists e); [|done]. change (zlen (@nil bytes)) with 0 in Hn. lia. }
  rewrite memcmp_eq by congruence. case_bool_decide as Hroot; cbn [negb].
  - by apply says_yes.
  - apply says_no. congruence.
Qed.

(** The envelope against the request and the commit. *)
Lemma envelope_says input tier c e st :
  commit_ok c -> env_ok e -> zlen input <= SIZE_MAX ->
  says (ae_input e = input /\ (zlen (ae_tokens e) = c_length c /\ 1 <= c_m c <= c_length c) /\
        audit_promised tier (c_audit_threshold c) /\
        Forall (fun d => zlen d <= 4 * ANTS_INFERENCE_REF_VOCAB_MAX) (ae_dists e) /\
        Z.min (zlen input) 63 + c_length c <= 64 /\ c_root c = answer_root (ae_dists e)) c st
    ((let n := zlen (ae_tokens e) in
      if negb (zlen (ae_input e) =? zlen input) || negb (memcmp (ae_input e) input =? 0) then ret false
      else if (c_length c =? 0) || (ANTS_INFERENCE_REF_SEQLEN_MAX <? c_length c)
              || negb (n =? c_length c) || (c_m c =? 0) || (c_length c <? c_m c) then ret false
      else if audit_policy_broken tier (c_audit_threshold c) then ret false
      else
      let* d0 := deref (get_at (ae_dists e) 0) in
      if ANTS_INFERENCE_REF_VOCAB_MAX <? zlen d0 / 4 then ret false
      else if ANTS_INFERENCE_REF_SEQLEN_MAX <? size_add (prompt_eff (zlen input)) (c_length c) then ret false
      else
      or_false (env_leaves 0 (ae_dists e)) (fun leaves =>
      or_false (ants_inference_merkle_root (Some leaves) n) (fun root =>
      if negb (memcmp root (c_root c) =? 0) then ret false
      else modify (fun out => if is_null out then None else Some c) ;* ret true))) st).
Proof using Laws.
  intros (Hroot & _ & _ & _ & _ & _ & _ & Hm & Hl & _) (_ & _ & Htok & _ & Hn & Hu) Hin. cbv zeta.
  unfold is_u32, ANTS_INFERENCE_REF_SEQLEN_MAX in *. pose proof (zlen_nonneg input) as Hi0.
  apply says_test.
  { destruct (Z.eqb_spec (zlen (ae_input e)) (zlen input)) as [Hz|Hz]; cbn [negb orb].
    - rewrite memcmp_eq by done. rewrite negb_false_iff. apply bool_decide_eq_true.
    - split; [done|]. intros He. by rewrite He in Hz. }
  intros _. apply says_test.
  { rewrite !orb_false_iff, negb_false_iff, !Z.ltb_ge, !Z.eqb_neq, Z.eqb_eq. lia. }
  intros [Htl Hml]. apply says_test; [apply policy_broken|]. intros _.
  destruct (ae_dists e) as [|d0 ds] eqn:Eds; [change (zlen (@nil bytes)) with 0 in Hn; lia|].
  rewrite (bind_Ok _ _ _ st d0) by done. destruct Hu as [size Hu]. pose proof Hu as [(Hz0 & Hd4 & Hsz) _]%Forall_cons.
  apply says_test.
  { unfold ANTS_INFERENCE_REF_VOCAB_MAX. rewrite Z.ltb_ge. split.
    - intros Hd. eapply Forall_impl; [exact Hu|]. intros d (_ & _ & Hd'). cbv beta. divlia.
    - intros [Hd _]%Forall_cons. divlia. }
  intros _. apply says_test.
  { unfold prompt_eff, ANTS_INFERENCE_REF_SEQLEN_MAX. rewrite Z.ltb_ge. destruct (Z.ltb_spec (64 - 1) (zlen input)) as [Hp|Hp].
    - rewrite size_add_small by zlia. lia.
    - rewrite size_add_small by zlia. lia. }
  intros _. rewrite <- Eds. apply gate_says; [done| | |unfold ANTS_INFERENCE_REF_SEQLEN_MAX; lia].
  - rewrite Eds. by exists size.
  - by rewrite Eds.
Qed.

(** ** The documents of an answer *)

Definition documents (cbytes ebytes : bytes) (c : ants_inference_commit_t) (e : answer_env) : Prop :=
  (commit_ok c /\ cbytes = encode (commit_cbor c)) /\ (env_ok e /\ ebytes = encode (env_cbor e)).

Lemma encode_inj x y : wf x -> wf y -> encode x = encode y -> x = y.
Proof. intros Hx Hy H. apply (encode_prefix_free x y [] []); [done|done|]. by rewrite !app_nil_r. Qed.

Lemma commit_doc_inj c c' : commit_ok c -> commit_ok c' -> encode (commit_cbor c) = encode (commit_cbor c') -> c = c'.
Proof.
  intros Hc Hc' H. apply encode_inj in H; [|by apply commit_wf..]. destruct c, c'. cbn in H. injection H. intros. by subst.
Qed.

Lemma env_doc_inj e e' : env_ok e -> env_ok e' -> encode (env_cbor e) = encode (env_cbor e') -> e = e'.
Proof.
  intros He He' H. apply encode_inj in H; [|by apply env_wf..]. destruct e as [i t ds], e' as [i' t' ds']. cbn in H.
  injection H as -> -> Hd. f_equal. clear He He'. revert ds' Hd. induction ds as [|d ds IH]; intros [|d' ds'] H; try done.
  injection H as -> H. f_equal. by apply IH.
Qed.

Lemma documents_unique cbytes ebytes c e c' e' :
  documents cbytes ebytes c e -> documents cbytes ebytes c' e' -> c = c' /\ e = e'.
Proof.
  intros [[Hc Ec] [He Ee]] [[Hc' Ec'] [He' Ee']]. split; [apply commit_doc_inj|apply env_doc_inj]; congruence.
Qed.

(** The whole check, on decoded documents. *)
Lemma check_says pub sig input tier nonce c e cbytes ebytes st :
  zlen nonce = 32 -> input <> [] -> zlen input <= SIZE_MAX -> bytes_ok ebytes -> zlen ebytes <= INT64_MAX ->
  documents cbytes ebytes c e ->
  says (answers pub sig input tier nonce c e) c st
    (ants_inference_answer_check (Some cbytes) sig pub (Some ebytes) (Some input) tier nonce st).
Proof using Laws.
  intros Hnonce Hne Hin Heok Hesz [[Hc ->] [He Eb]].
  pose proof Hc as (_ & _ & Hih & Hno & _). destruct Hih as [_ Hih], Hno as [_ Hno].
  unfold ants_inference_answer_check.
  replace ((zlen (encode (commit_cbor c)) =? 0) || (zlen ebytes =? 0) || (zlen input =? 0)) with false.
  2: { symmetry. rewrite !orb_false_iff, !Z.eqb_neq. split_and!; [apply encode_zlen_ne|rewrite Eb; apply encode_zlen_ne|].
       by intros ?%zlen_O. }
  unfold or_false at 1, commit_decoded. rewrite commit_decodes by done.
  unfold or_false at 1. rewrite verify_sig_eq by done.
  eapply says_iff; [|apply says_test with (P1 := crypto_sign_ed25519_verify_detached sig (encode (commit_cbor c)) pub = true);
    [apply negb_false_iff|]]; cycle 1.
  { intros _. unfold or_false at 1. rewrite hash_digest by done.
    apply says_test with (P1 := c_input_hash c = digest input /\ c_req_nonce c = nonce /\ c_tier c = tier).
    - rewrite !orb_false_iff, !negb_false_iff. pose proof (digest_size input) as Hd. change ANTS_BLAKE3_HASH_SIZE with 32 in Hd.
      rewrite !memcmp_eq, !bool_decide_eq_true, Z.eqb_eq by congruence. split; [intros [[? ?] ?]|intros (? & ? & ?)]; split_and!; congruence.
    - intros _. unfold or_false at 1. pose proof (envelope_decode_exact ebytes tt Heok Hesz) as Hx.
      destruct (answer_envelope_decode ebytes tt) as [[] e'|? ?| |]; try done; [|by destruct Hx as [_ Hx]; destruct (Hx e He)].
      destruct Hx as (_ & He' & Eb'). assert (e' = e) as -> by (apply env_doc_inj; congruence).
      by apply envelope_says. }
  split.
  - intros (? & (? & ? & ?) & ? & (? & ?) & ? & ? & ? & ?). by split.
  - intros [? ? ? ? ? ? ? ? ? ? ?]. tauto.
Qed.

(** ** Undecodable answers *)

Lemma decode_answer cbytes ebytes :
  bytes_ok cbytes -> zlen cbytes <= INT64_MAX -> bytes_ok ebytes -> zlen ebytes <= INT64_MAX ->
  (exists c e, documents cbytes ebytes c e) \/ (forall c e, ~ documents cbytes ebytes c e).
Proof.
  intros Hcok Hcsz Heok Hesz. pose proof (commit_decode_cases cbytes (mk_commit [] [] [] [] [] 0 0 0 0 0) Hcok Hcsz) as Hc.
  pose proof (envelope_decode_exact ebytes tt Heok Hesz) as He.
  destruct (ants_inference_commit_decode _ _ _) as [c ?|? ?| |]; try done.
  - destruct (answer_envelope_decode ebytes tt) as [[] e|? ?| |]; try done.
    + left. exists c, e. destruct He as (_ & ? & ?). by split.
    + right. intros c' e' [_ [? ?]]. destruct He as [_ He]. by destruct (He e').
  - right. intros c' e' [[? ?] _]. destruct Hc as [_ Hc]. by destruct (Hc c').
Qed.

Lemma refusal_says pub sig input tier nonce cbytes ebytes st :
  bytes_ok cbytes -> zlen cbytes <= INT64_MAX -> bytes_ok ebytes -> zlen ebytes <= INT64_MAX ->
  ~ (cbytes = [] \/ ebytes = [] \/ input = []) -> (forall c e, ~ documents cbytes ebytes c e) ->
  ants_inference_answer_check (Some cbytes) sig pub (Some ebytes) (Some input) tier nonce st = Ok st false.
Proof using Laws.
  intros Hcok Hcsz Heok Hesz Hne Hnone. unfold ants_inference_answer_check.
  replace ((zlen cbytes =? 0) || (zlen ebytes =? 0) || (zlen input =? 0)) with false.
  2: { symmetry. rewrite !orb_false_iff, !Z.eqb_neq. split_and!; intros ?%zlen_O; tauto. }
  pose proof (commit_decode_cases cbytes (mk_commit [] [] [] [] [] 0 0 0 0 0) Hcok Hcsz) as Hc.
  unfold or_false at 1, commit_decoded. destruct (ants_inference_commit_decode _ _ _) as [c []|? ?| |]; try done.
  unfold or_false at 1. rewrite verify_sig_eq by apply Hc. destruct (crypto_sign_ed25519_verify_detached _ _ _); [|done]. cbn [negb].
  unfold or_false at 1. rewrite hash_digest by (intros ->; tauto). destruct (_ || _ || _); [done|].
  pose proof (envelope_decode_exact ebytes tt Heok Hesz) as He. unfold or_false at 1.
  destruct (answer_envelope_decode ebytes tt) as [[] e|? ?| |]; try done. destruct (Hnone c e). destruct He as (_ & ? & ?). by split.
Qed.

(** ** Accepted answers *)

Lemma accepted_input cbytes sig pub ebytes input tier nonce :
  ants_inference_answer_check (Some cbytes) sig pub (Some ebytes) (Some input) tier nonce None = Ok None true -> input <> [].
Proof.
  intros H ->. unfold ants_inference_answer_check in H. change (zlen (@nil Z)) with 0 in H. by rewrite orb_true_r in H.
Qed.

Lemma accepted_answers c e cbytes pub sig input tier nonce ebytes :
  documents cbytes ebytes c e -> zlen ebytes <= INT64_MAX -> zlen nonce = 32 -> zlen input <= SIZE_MAX ->
  ants_inference_answer_check (Some cbytes) sig pub (Some ebytes) (Some input) tier nonce None = Ok None true ->
  answers pub sig input tier nonce c e.
Proof using Laws.
  intros Hd Hz Hn Hin Hc. pose proof (accepted_input _ _ _ _ _ _ _ Hc) as Hne.
  destruct (check_says pub sig input tier nonce c e cbytes ebytes None) as (ok & Hr & Hok); try done.
  - destruct Hd as [_ [He ->]]. by apply encode_ok, env_wf.
  - apply Hok. congruence.
Qed.

Lemma answered_data_ne c e cbytes : documents cbytes (encode (env_cbor e)) c e ->
  1 <= c_m c <= c_length c -> zlen (ae_tokens e) = c_length c -> answer_data 0 (ae_dists e) <> [].
Proof.
  intros [_ [(_ & _ & _ & _ & Hn & _) _]] Hm Hl E. pose proof (zlen_answer_data (ae_dists e) 0) as Hz. rewrite E in Hz.
  change (zlen (@nil bytes)) with 0 in Hz. lia.
Qed.
End check.

(** ** The guarantees *)

(** C11: The requester's check is exact: on arbitrary bytes it returns a verdict
    without leaving them (an error only for empty arguments), and says yes
    exactly if the two byte strings are the canonical encodings of a commit
    and an envelope such that the producer signed the commit, the commit
    names this input, nonce and tier, keeps the tier's audit policy and opens
    between one and all positions, the envelope repeats the input, has as many
    tokens and distributions as the commit says, over a byte vocabulary and
    within the model's context, and the root over its distributions is the
    committed one.  Only then it hands out the commit. *)
Theorem answer_check_exact `{B : Blake3} {Laws : Blake3Laws B} `{Ed : Ed25519} pub sig input tier nonce cbytes ebytes st :
  zlen nonce = 32 -> zlen input <= SIZE_MAX -> bytes_ok cbytes -> zlen cbytes <= INT64_MAX ->
  bytes_ok ebytes -> zlen ebytes <= INT64_MAX ->
  match ants_inference_answer_check (Some cbytes) sig pub (Some ebytes) (Some input) tier nonce st with
  | Ok st' true => exists c e, documents cbytes ebytes c e /\ answers pub sig input tier nonce c e /\ st' = delivered c st
  | Ok st' false => st' = st /\ forall c e, documents cbytes ebytes c e -> ~ answers pub sig input tier nonce c e
  | Err st' e => st' = st /\ e = ANTS_ERROR_INVALID_ARG /\ (cbytes = [] \/ ebytes = [] \/ input = [])
  | UB | NoFuel => False
  end.
Proof.
  intros Hnonce Hin Hcok Hcsz Heok Hesz.
  destruct (decide (cbytes = [] \/ ebytes = [] \/ input = [])) as [He|Hne].
  { unfold ants_inference_answer_check. replace (_ || _ || _) with true; [split; [done|]; split; [done|exact He]|].
    symmetry. rewrite !orb_true_iff, !Z.eqb_eq. destruct He as [->|[->| ->]]; auto. }
  assert (Hi : input <> []) by (intros ->; tauto).
  assert (Hdoc : forall c e, documents cbytes ebytes c e ->
    exists ok, ants_inference_answer_check (Some cbytes) sig pub (Some ebytes) (Some input) tier nonce st =
      Ok (if ok : bool then delivered c st else st) ok /\ (ok = true <-> answers pub sig input tier nonce c e)).
  { intros c e Hd. by apply check_says with (c := c) (e := e). }
  pose proof (refusal_says pub sig input tier nonce cbytes ebytes st Hcok Hcsz Heok Hesz Hne) as Hno.
  destruct (decode_answer cbytes ebytes Hcok Hcsz Heok Hesz) as [(c & e & Hd)|Hnone].
  - destruct (Hdoc c e Hd) as (ok & -> & Hok). destruct ok.
    + exists c, e. split; [done|]. split; [by apply Hok|done].
    + split; [done|]. intros c' e' Hd'. destruct (documents_unique _ _ _ _ _ _ Hd Hd') as [<- <-]. by intros ?%Hok.
  - rewrite (Hno Hnone). split; [done|]. intros c e Hd. by destruct (Hnone c e).
Qed.

(** C12: A signed commit has one computation: if two envelopes are accepted
    with the same commit bytes, by whatever requesters, then they answer the
    same input, nonce and tier and carry the same list of distributions,
    unless two of the hashed byte strings collide. *)
Theorem answer_binds `{B : Blake3} {Laws : Blake3Laws B} `{Ed : Ed25519}
    cbytes c e1 e2 pub1 sig1 input1 tier1 nonce1 pub2 sig2 input2 tier2 nonce2 :
  documents cbytes (encode (env_cbor e1)) c e1 -> documents cbytes (encode (env_cbor e2)) c e2 ->
  zlen (encode (env_cbor e1)) <= INT64_MAX -> zlen (encode (env_cbor e2)) <= INT64_MAX ->
  zlen nonce1 = 32 -> zlen nonce2 = 32 -> zlen input1 <= SIZE_MAX -> zlen input2 <= SIZE_MAX ->
  ants_inference_answer_check (Some cbytes) sig1 pub1 (Some (encode (env_cbor e1))) (Some input1) tier1 nonce1 None = Ok None true ->
  ants_inference_answer_check (Some cbytes) sig2 pub2 (Some (encode (env_cbor e2))) (Some input2) tier2 nonce2 None = Ok None true ->
  collision_free (input1 :: root_inputs (answer_data 0 (ae_dists e1))) (input2 :: root_inputs (answer_data 0 (ae_dists e2))) ->
  input1 = input2 /\ nonce1 = nonce2 /\ tier1 = tier2 /\ ae_dists e1 = ae_dists e2.
Proof.
  intros Hd1 Hd2 Hz1 Hz2 Hn1 Hn2 Hi1 Hi2 Hc1 Hc2 Hcf.
  destruct (accepted_answers _ _ _ _ _ _ _ _ _ Hd1 Hz1 Hn1 Hi1 Hc1) as [_ Hh1 <- <- _ Hl1 Ho1 _ _ _ Hr1].
  destruct (accepted_answers _ _ _ _ _ _ _ _ _ Hd2 Hz2 Hn2 Hi2 Hc2) as [_ Hh2 <- <- _ Hl2 Ho2 _ _ _ Hr2].
  split; [apply Hcf; [by left|by left|congruence]|]. split; [done|]. split; [done|].
  apply (answer_data_inj _ 0). apply merkle_root_binds.
  - by apply (answered_data_ne c e1 cbytes Hd1).
  - by apply (answered_data_ne c e2 cbytes Hd2).
  - intros a b Ha Hb. apply Hcf; by right.
  - unfold answer_root in *. congruence.
Qed.

(** What the commit does not bind: an envelope with any other tokens, as many
    of them, is accepted with the same commit and signature. *)
Theorem tokens_unbound `{B : Blake3} {Laws : Blake3Laws B} `{Ed : Ed25519} c e tokens cbytes pub sig input tier nonce :
  documents cbytes (encode (env_cbor e)) c e -> zlen (encode (env_cbor e)) <= INT64_MAX -> zlen nonce = 32 -> zlen input <= SIZE_MAX ->
  blob_ok tokens -> zlen tokens = zlen (ae_tokens e) ->
  ants_inference_answer_check (Some cbytes) sig pub (Some (encode (env_cbor e))) (Some input) tier nonce None = Ok None true ->
  ants_inference_answer_check (Some cbytes) sig pub
    (Some (encode (env_cbor (mk_env (ae_input e) tokens (ae_dists e))))) (Some input) tier nonce None = Ok None true.
Proof.
  intros Hd Hz Hn Hin Ht Hl Hc. pose proof (accepted_answers _ _ _ _ _ _ _ _ _ Hd Hz Hn Hin Hc) as Ha.
  destruct Hd as [Hdc [(Hi & Hk & Hm & Hds & Hn' & Hu) _]]. set (e' := mk_env (ae_input e) tokens (ae_dists e)).
  assert (He' : env_ok e') by (unfold e', env_ok; cbn [ae_input ae_tokens ae_dists]; rewrite Hl; by split_and!).
  assert (Hsz : zlen (encode (env_cbor e')) = zlen (encode (env_cbor e))).
  { unfold e', env_cbor. cbn [ae_input ae_tokens ae_dists encode map concat]. rewrite !zlen_app, Hl. done. }
  destruct (check_says pub sig input tier nonce c e' cbytes (encode (env_cbor e')) None) as (ok & Hr & Hok); try done.
  - by apply (accepted_input _ _ _ _ _ _ _ Hc).
  - by apply encode_ok, env_wf.
  - lia.
  - rewrite Hr. assert (ok = true) as ->; [|done]. apply Hok. destruct Ha. split; try done. cbn [ae_tokens e']. congruence.
Qed.

(** Openings of single positions are complete and binding: the prover writes
    the path of any position, or says that the buffer is too short and leaves
    it alone; the path is accepted for the distribution at that position, and
    no path of the right length is accepted for another one, unless two of the
    hashed byte strings collide. *)
Theorem opening_exact `{B : Blake3} {Laws : Blake3Laws B} ds i d cap buf old u :
  ds !! i = Some d -> zlen ds <= 2 ^ ANTS_INFERENCE_MERKLE_MAX_DEPTH -> cap * 32 <= zlen buf ->
  let n := zlen ds in
  let need := proof_size (Z.of_nat i) n in
  let accepts d path := ants_inference_merkle_verify (leaf (position_data (Z.of_nat i) d)) (Z.of_nat i) n (Some path) need
                          (answer_root ds) u = Ok u true in
  let run := ants_inference_merkle_prove (Some (map leaf (answer_data 0 ds))) n (Z.of_nat i) cap (buf, old) in
  (if cap <? need then run = Err (buf, old) ANTS_ERROR_BUFFER_TOO_SMALL
   else exists path rest, zlen path = need * 32 /\ run = Ok (path ++ rest, need) tt /\ accepts d path) /\
  (forall d' path, zlen path = need * 32 -> accepts d' path ->
     collision_free (root_inputs (answer_data 0 ds)) (opening_check (Z.of_nat i) n d' path) -> d' = d).
Proof.
  intros Hi Hn Hc n need accepts run. change ANTS_INFERENCE_MERKLE_MAX_DEPTH with ANTS_CHAIN_MERKLE_MAX_DEPTH in Hn.
  pose proof (lookup_lt_Some _ _ _ Hi) as Hlt. set (ls := map leaf (answer_data 0 ds)) in *.
  assert (Hz : zlen ls = n) by (unfold ls; rewrite (zlen_leaves leaf); apply zlen_answer_data).
  assert (Hl : ls !! i = Some (leaf (position_data (Z.of_nat i) d))).
  { apply leaf_lookup. by rewrite (answer_data_lookup ds i d 0 Hi). }
  assert (Hls : hashes ls) by apply ids_hashes.
  assert (Hroot : zlen (answer_root ds) = 32).
  { apply committed_root_size. intros E. pose proof (zlen_answer_data ds 0) as H. rewrite E in H. unfold zlen in H. cbn in H. lia. }
  assert (Hsz : forall x, zlen (leaf x) = 32) by (intros; apply digest_size).
  split.
  - pose proof (infer_prove_eq ls i _ cap buf old Hl Hls ltac:(by rewrite Hz)) as Hp. cbv zeta in Hp. rewrite Hz in Hp. fold need run in Hp.
    destruct (cap <? need); [done|]. destruct (Hp Hc) as (rest & _ & Hrun). exists (leaf_path ls i), rest.
    assert (Hlen : zlen (leaf_path ls i) = need * 32) by (rewrite (zlen_leaf_path ls i _ Hls Hl), Hz; done).
    split; [done|]. split; [done|]. unfold accepts.
    destruct (infer_verify_eq (leaf (position_data (Z.of_nat i) d)) (Z.of_nat i) n (leaf_path ls i) (answer_root ds) u)
      as (ok & Hv & Hok); try done; [unfold n; zlia|]. fold need in Hv. rewrite Hv. f_equal. apply Hok.
    destruct (sibs_ok _ _ _ Hls Hl) as [Hh Hs]. cbv zeta in Hs. rewrite Hz in *. unfold leaf_path. rewrite Hz.
    rewrite <- Hs, zlen_to_nat, chunks_concat by done. rewrite <- Hz. by apply climb_honest.
  - intros d' path Hp Ha Hcf. unfold accepts in Ha.
    destruct (infer_verify_eq (leaf (position_data (Z.of_nat i) d')) (Z.of_nat i) n path (answer_root ds) u)
      as (ok & Hv & Hok); try done; [unfold n; zlia|]. fold need in Hv. rewrite Hv in Ha. injection Ha as ->.
    apply (opening_binds ds i d d' path Hi Hp Hcf). by apply Hok.
Qed.

(** ** Examples *)

(** Two positions over a vocabulary of one entry. *)
Definition demo_input : bytes := [104; 105].
Definition demo_nonce : bytes := replicate 32 4.
Definition demo_pub : bytes := replicate 32 9.
Definition demo_env : answer_env := mk_env demo_input [1; 2] [[1; 0; 0; 0]; [2; 0; 0; 0]].

(** The same answer with other tokens. *)
Definition other_env : answer_env := mk_env demo_input [7; 7] [[1; 0; 0; 0]; [2; 0; 0; 0]].

Definition answered_commit : ants_inference_commit_t :=
  mk_commit (@answer_root toy_blake3 (ae_dists demo_env)) (replicate 32 2) (@digest toy_blake3 demo_input) demo_nonce
    (replicate 32 0) 77 UINT64_MAX 2 2 2.

Definition answered_bytes : bytes := encode (commit_cbor answered_commit).
Definition answered_sig : bytes := demo_pub ++ take 32 answered_bytes.

Lemma answered_commit_ok : commit_ok answered_commit.
Proof. unfold commit_ok, hash_ok. split_and!; try done; by_decision. Qed.

Lemma demo_env_documents e : e = demo_env \/ e = other_env -> documents answered_bytes (encode (env_cbor e)) answered_commit e.
Proof.
  intros He. split; [split; [apply answered_commit_ok|done]|]. split; [|done].
  destruct He as [->| ->]; (unfold env_ok, blob_ok; split_and!; try done; try by_decision; exists 4; repeat constructor; done).
Qed.

Definition demo_check (e : answer_env) : outcome (option ants_inference_commit_t) bool :=
  @ants_inference_answer_check toy_blake3 toy_ed25519 (Some answered_bytes) answered_sig demo_pub
    (Some (encode (env_cbor e))) (Some demo_input) 2 demo_nonce None.

Lemma demo_check_ok : demo_check demo_env = Ok None true.
Proof. vm_compute. reflexivity. Qed.

Lemma answer_check_exact_witness :
  exists c e, @answers toy_blake3 toy_ed25519 demo_pub answered_sig demo_input 2 demo_nonce c e.
Proof.
  pose proof (@answer_check_exact toy_blake3 toy_blake3_laws toy_ed25519 demo_pub answered_sig demo_input 2 demo_nonce answered_bytes
    (encode (env_cbor demo_env)) None ltac:(done) ltac:(done) ltac:(by_decision) ltac:(by vm_compute) ltac:(by_decision) ltac:(by vm_compute)) as H.
  fold (demo_check demo_env) in H. rewrite demo_check_ok in H. destruct H as (c & e & _ & Ha & _). exists c, e. exact Ha.
Defined.

Lemma tokens_unbound_witness : demo_check other_env = Ok None true.
Proof.
  exact (@tokens_unbound toy_blake3 toy_blake3_laws toy_ed25519 answered_commit demo_env [7; 7] answered_bytes demo_pub answered_sig
    demo_input 2 demo_nonce (demo_env_documents demo_env (or_introl eq_refl)) ltac:(by vm_compute) ltac:(done) ltac:(done)
    ltac:(split; [by_decision|done]) ltac:(done) demo_check_ok).
Defined.

Lemma demo_other_ok : demo_check other_env = Ok None true.
Proof. vm_compute. reflexivity. Qed.

Lemma answer_binds_witness : ae_dists demo_env = ae_dists other_env.
Proof.
  refine (proj2 (proj2 (proj2 (@answer_binds toy_blake3 toy_blake3_laws toy_ed25519 answered_bytes answered_commit demo_env other_env
    demo_pub answered_sig demo_input 2 demo_nonce demo_pub answered_sig demo_input 2 demo_nonce
    (demo_env_documents demo_env (or_introl eq_refl)) (demo_env_documents other_env (or_intror eq_refl))
    ltac:(by vm_compute) ltac:(by vm_compute) ltac:(done) ltac:(done) ltac:(done) ltac:(done) demo_check_ok demo_other_ok _)))).
  apply collision_free_forall. by_decision.
Defined.

Lemma opening_exact_witness :
  exists path rest, @ants_inference_merkle_prove toy_blake3 (Some (map (@leaf toy_blake3) (answer_data 0 (ae_dists demo_env)))) 2 1 1
    (replicate 32 0, 0) = Ok (path ++ rest, 1) tt /\ zlen path = 32.
Proof.
  destruct (@opening_exact toy_blake3 toy_blake3_laws (ae_dists demo_env) 1 [2; 0; 0; 0] 1 (replicate 32 0) 0 tt
    ltac:(done) ltac:(done) ltac:(done)) as [H _].
  destruct H as (path & rest & Hp & Hr & _). exists path, rest. split; [exact Hr|exact Hp].
Defined.
