(* ===== verification/Beacon.v ===== *)
(** * The drand beacon check (src/reputation/chain/src/chain.c)

    [ants_chain_beacon_verify] with the SHA-256 and BLS wrappers of
    src/foundation/crypto/src/crypto.c it calls; the vendored blst library is
    the class [Blst]. *)

From S2P Require Import Prelude Cbor Crypto Chain.

#[local] Arguments zlen {A} l : simpl never.

(** deps/blst: the hash, point decompression, and the pairing check of a
    signature over a message under the pinned domain separation tag. *)
Class Blst : Type := {
  blst_p1_affine : Type;
  blst_p2_affine : Type;
  blst_sha256 : bytes -> bytes;
  blst_p1_uncompress : bytes -> option blst_p1_affine;
  blst_p2_uncompress : bytes -> option blst_p2_affine;
  blst_core_verify_pk_in_g1 : blst_p1_affine -> blst_p2_affine -> bytes -> bool
}.

Class BlstLaws (B : Blst) : Prop := {
  sha256_size : forall b, zlen (blst_sha256 b) = 32
}.

Module Beacon.

Definition ANTS_SHA256_HASH_SIZE : Z := 32.
Definition ANTS_CHAIN_DRAND_SIG_SIZE : Z := 96.
Definition ANTS_CHAIN_BEACON_RANDOMNESS_SIZE : Z := 32.

Record ants_chain_beacon_t : Type := mk_beacon {
  round : Z; randomness : bytes; signature : bytes; previous_signature : bytes
}.

Section beacon.
Context `{Bl : Blst}.

Definition ants_sha256 (data : option bytes) (len : Z) : outcome unit bytes :=
  if is_null data && (0 <? len) then Err tt ANTS_ERROR_INVALID_ARG
  else match slice (default [] data) 0 len with
  | Some s => Ok tt (blst_sha256 s)
  | None => UB
  end.

Definition ants_bls_verify (pub : bytes) (msg : option bytes) (len : Z) (sig : bytes) : outcome unit unit :=
  if is_null msg && (0 <? len) then Err tt ANTS_ERROR_INVALID_ARG
  else
    match blst_p1_uncompress pub with
    | None => Err tt ANTS_ERROR_MALFORMED
    | Some pk_aff =>
      match blst_p2_uncompress sig with
      | None => Err tt ANTS_ERROR_MALFORMED
      | Some sig_aff =>
        match slice (default [] msg) 0 len with
        | None => UB
        | Some m =>
          if blst_core_verify_pk_in_g1 pk_aff sig_aff m then Ok tt tt else Err tt ANTS_ERROR_MALFORMED
        end
      end
    end.

(** The result is [*out_ok]. *)
Definition ants_chain_beacon_verify (beacon : ants_chain_beacon_t) (drand_pubkey : bytes) : action unit bool :=
  if round beacon <? 2 then fail ANTS_ERROR_INVALID_ARG
  else
    let payload := previous_signature beacon ++ Chain.write_be64 (round beacon) in
    let* digest := fun _ => ants_sha256 (Some payload) (zlen payload) in
    fun u =>
    match ants_bls_verify drand_pubkey (Some digest) ANTS_SHA256_HASH_SIZE (signature beacon) with
    | Err _ ANTS_ERROR_MALFORMED => Ok u false
    | Err _ e => Err u e
    | UB => UB
    | NoFuel => NoFuel
    | Ok _ _ =>
      (let* digest := fun _ => ants_sha256 (Some (signature beacon)) ANTS_CHAIN_DRAND_SIG_SIZE in
       ret (memcmp digest (randomness beacon) =? 0)) u
    end.
End beacon.
End Beacon.

Import Beacon.

Section spec.
Context `{Bl : Blst} {Laws : BlstLaws Bl}.

(** The round the group signed, with the randomness it stands for. *)
Definition genuine (beacon : ants_chain_beacon_t) (pub : bytes) : Prop :=
  exists pk sg, blst_p1_uncompress pub = Some pk /\ blst_p2_uncompress (signature beacon) = Some sg /\
    blst_core_verify_pk_in_g1 pk sg
      (blst_sha256 (previous_signature beacon ++ Chain.write_be64 (round beacon))) = true /\
    randomness beacon = blst_sha256 (signature beacon).

Lemma sha256_all b : ants_sha256 (Some b) (zlen b) = Ok tt (blst_sha256 b).
Proof. unfold ants_sha256. cbn [is_null andb from_option id]. by rewrite slice_all. Qed.

Lemma bls_verify_digest pub b sig :
  ants_bls_verify pub (Some (blst_sha256 b)) ANTS_SHA256_HASH_SIZE sig =
    match blst_p1_uncompress pub, blst_p2_uncompress sig with
    | Some pk, Some sg => if blst_core_verify_pk_in_g1 pk sg (blst_sha256 b) then Ok tt tt
                          else Err tt ANTS_ERROR_MALFORMED
    | _, _ => Err tt ANTS_ERROR_MALFORMED
    end.
Proof using Laws.
  unfold ants_bls_verify. cbn [is_null andb from_option id].
  assert (Hs : slice (blst_sha256 b) 0 ANTS_SHA256_HASH_SIZE = Some (blst_sha256 b)).
  { change ANTS_SHA256_HASH_SIZE with 32. rewrite <- (sha256_size b). apply slice_all. }
  rewrite Hs. by destruct (blst_p1_uncompress pub), (blst_p2_uncompress sig).
Qed.

(** The check gives a verdict on every beacon of a round from 2 on, and the
    verdict is whether the beacon is genuine. *)
Lemma beacon_verify_decides beacon pub u :
  zlen (signature beacon) = ANTS_CHAIN_DRAND_SIG_SIZE ->
  zlen (randomness beacon) = ANTS_CHAIN_BEACON_RANDOMNESS_SIZE -> 2 <= round beacon ->
  exists ok, ants_chain_beacon_verify beacon pub u = Ok u ok /\ (ok = true <-> genuine beacon pub).
Proof using Laws.
  intros Hs Hr Hround. unfold ants_chain_beacon_verify. bdecide. unfold bind at 1.
  rewrite sha256_all, bls_verify_digest. unfold genuine. destruct u.
  destruct (blst_p1_uncompress pub) as [pk|]; [|exists false; split; [done|split; [done|by intros (?&?&?&_)]]].
  destruct (blst_p2_uncompress (signature beacon)) as [sg|];
    [|exists false; split; [done|split; [done|by intros (?&?&_&?&_)]]].
  destruct (blst_core_verify_pk_in_g1 pk sg _) eqn:E.
  2: { exists false. split; [done|]. split; [done|]. intros (pk' & sg' & [= <-] & [= <-] & E' & _). congruence. }
  rewrite <- Hs. unfold bind. rewrite sha256_all. eexists. split; [done|].
  rewrite memcmp_eq by (by rewrite sha256_size, Hr). rewrite bool_decide_eq_true. split.
  - intros Hd. by exists pk, sg.
  - by intros (_ & _ & _ & _ & _ & ->).
Qed.
End spec.
