(* ===== verification/ChainRuntime.v ===== *)
(** * The block-production runtime (src/reputation/chain/src/chain_runtime.c)

    The per-node state machine that composes the functions of chain.c: when to
    propose, what to sign, when a block is final and when an attempt is
    skipped.  The caller's clock is the argument [now]; the callbacks that
    answer (signing, the Layer-1 view) are a [rt_env] given with each call, the
    ones that only receive (broadcasts, new heads) append to a log. *)

From stdpp Require Import strings.
From S2P Require Import Prelude Cbor Crypto Crdt Chain.
Import Chain.

Module Runtime.

(** ** Data *)

Definition ANTS_CHAIN_BLOCK_TIME_S : Z := 30.
Definition ANTS_CHAIN_FINALITY_TIMEOUT_S : Z := 120.
Definition ANTS_CHAIN_RT_DRAND_FLOOR_S : Z := 30.
Definition ANTS_CHAIN_RT_EPOCH_DURATION_S : Z := 86400.
Definition ANTS_CHAIN_RT_VIEW_WINDOW_EPOCHS : Z := 30.
Definition ANTS_CHAIN_RT_CLOCK_SKEW_S : Z := 10.
Definition ANTS_CHAIN_RT_REBROADCAST_S : Z := 10.
Definition RT_MAX_PROPOSALS : nat := 4.
Definition RT_MAX_ATTESTATIONS : nat := 128.

Record ants_chain_attestation_t : Type := mk_att {
  a_height : Z; a_block_hash : bytes; a_signer : bytes; a_sig : bytes
}.

Record ants_chain_head_t : Type := mk_head {
  hd_height : Z; hd_hash : bytes; hd_cutoff_time : Z; hd_epoch : Z; hd_degraded_seed : bool
}.

Record rt_proposal : Type := mk_prop {
  p_used : bool; p_degraded : bool; p_height : Z; p_cutoff : Z; p_epoch : Z;
  p_prev : bytes; p_hash : bytes; p_len : Z; p_bytes : bytes
}.

(** [att_used[i]], [att_seq[i]] and [atts[i]]. *)
Record att_slot : Type := mk_slot {
  sl_used : bool; sl_seq : Z; sl_att : ants_chain_attestation_t
}.

(** The configuration; a callback is the answer to whether it is set. *)
Record ants_chain_rt_config_t : Type := mk_config {
  c_trustees : option (list bytes); c_n_trustees : Z; c_genesis_time : Z; c_genesis_hash : bytes;
  c_k_phase : Z; c_self : bytes;
  c_sign_fn : bool; c_view_fn : bool; c_proposal_fn : bool; c_attestation_fn : bool; c_final_fn : bool
}.

(** The fields of [struct rt_state] that only [ants_chain_rt_init] writes;
    [trustees] holds the [n_trustees] entries. *)
Record rt_static : Type := mk_static {
  trustees : list bytes; genesis_time : Z; k_phase : Z; self : bytes; is_trustee : bool;
  sign_fn : bool; view_fn : bool; proposal_fn : bool; attestation_fn : bool; final_fn : bool
}.

(** The attempt in progress. *)
Record rt_attempt : Type := mk_attempt {
  at_h : Z; attempt_start : Z; at_k : Z; committee : list Z; member : bool; my_pos : Z;
  proposer_pos : Z; cur : Z; last_emit : Z
}.

Record rt_state : Type := mk_rt {
  static : rt_static; head : ants_chain_head_t; attempt : rt_attempt; last_signed_height : Z;
  props : list rt_proposal; atts : list att_slot; next_att_seq : Z;
  findings : list ants_chain_pattern_finding_t; recompute : rt_proposal
}.

(** The calls made through the callbacks: a signature obtained on the hash of
    the proposal with the bytes [block], and the three outputs. *)
Inductive rt_event : Type :=
| Signed (block hash sig : bytes)
| OutAttestation (a : ants_chain_attestation_t)
| OutProposal (block : bytes)
| OutFinal (hd : ants_chain_head_t).

Definition rt_world : Type := rt_state * list rt_event.

Record rt_env : Type := mk_env {
  env_sign : bytes -> ants_error_t + bytes;
  env_view : Z -> ants_error_t + (list bytes * list ants_chain_event_t)
}.

(** [memset(p, 0, sizeof *p)] *)
Definition zero_hash : bytes := replicate 32 0.
Definition zero_proposal : rt_proposal :=
  mk_prop false false 0 0 0 zero_hash zero_hash 0 (local_buffer ANTS_CHAIN_BLOCK_ENCODED_MAX).
Definition zero_slot : att_slot := mk_slot false 0 (mk_att 0 zero_hash zero_hash (replicate 64 0)).
Definition zero_finding : ants_chain_pattern_finding_t := mk_finding zero_hash 0 0 0 0.

(** Field updates. *)
Definition with_head (hd : ants_chain_head_t) (s : rt_state) : rt_state :=
  mk_rt (static s) hd (attempt s) (last_signed_height s) (props s) (atts s) (next_att_seq s) (findings s) (recompute s).
Definition with_attempt (a : rt_attempt) (s : rt_state) : rt_state :=
  mk_rt (static s) (head s) a (last_signed_height s) (props s) (atts s) (next_att_seq s) (findings s) (recompute s).
Definition with_last_signed (h : Z) (s : rt_state) : rt_state :=
  mk_rt (static s) (head s) (attempt s) h (props s) (atts s) (next_att_seq s) (findings s) (recompute s).
Definition with_props (ps : list rt_proposal) (s : rt_state) : rt_state :=
  mk_rt (static s) (head s) (attempt s) (last_signed_height s) ps (atts s) (next_att_seq s) (findings s) (recompute s).
Definition with_atts (sl : list att_slot) (n : Z) (s : rt_state) : rt_state :=
  mk_rt (static s) (head s) (attempt s) (last_signed_height s) (props s) sl n (findings s) (recompute s).
Definition with_findings (fs : list ants_chain_pattern_finding_t) (s : rt_state) : rt_state :=
  mk_rt (static s) (head s) (attempt s) (last_signed_height s) (props s) (atts s) (next_att_seq s) fs (recompute s).
Definition with_recompute (p : rt_proposal) (s : rt_state) : rt_state :=
  mk_rt (static s) (head s) (attempt s) (last_signed_height s) (props s) (atts s) (next_att_seq s) (findings s) p.
Definition with_cur (i t : Z) (a : rt_attempt) : rt_attempt :=
  mk_attempt (at_h a) (attempt_start a) (at_k a) (committee a) (member a) (my_pos a) (proposer_pos a) i t.

(** State access and output in [action rt_world]. *)
Definition get_rt : action rt_world rt_state := fun w => Ok w w.1.
Definition update (f : rt_state -> rt_state) : action rt_world unit := fun w => Ok (f w.1, w.2) tt.
Definition emit (ev : rt_event) : action rt_world unit := fun w => Ok (w.1, w.2 ++ [ev]) tt.
Definition emit_if (set : bool) (ev : rt_event) : action rt_world unit := if set then emit ev else ret tt.

(** ** Helpers *)

Fixpoint index_from (i : Z) (ts : list bytes) (id : bytes) : option Z :=
  match ts with
  | [] => None
  | t :: r => if memcmp t id =? 0 then Some i else index_from (i + 1) r id
  end.

Definition trustee_index (c : rt_static) (id : bytes) : option Z := index_from 0 (trustees c) id.

Definition epoch_of (c : rt_static) (cutoff : Z) : Z :=
  u64 (cutoff - genesis_time c) / ANTS_CHAIN_RT_EPOCH_DURATION_S.

Fixpoint find_from (i : nat) (ps : list rt_proposal) (hash : bytes) : option nat :=
  match ps with
  | [] => None
  | p :: r => if p_used p && (memcmp (p_hash p) hash =? 0) then Some i else find_from (S i) r hash
  end.

(** A pointer into [s->props] is the index of the slot. *)
Definition prop_find (s : rt_state) (hash : bytes) : option nat := find_from 0 (props s) hash.

(** The loop of [prop_alloc]: a free slot, or the victim with its height. *)
Fixpoint alloc_scan (i : nat) (ps : list rt_proposal) (cur : Z) (victim : option (nat * Z))
  : nat + option (nat * Z) :=
  match ps with
  | [] => inr victim
  | p :: r =>
    if negb (p_used p) then inl i
    else if Z.of_nat i =? cur then alloc_scan (S i) r cur victim
    else match victim with
         | Some (_, vh) => alloc_scan (S i) r cur (if p_height p <? vh then Some (i, p_height p) else victim)
         | None => alloc_scan (S i) r cur (Some (i, p_height p))
         end
  end.

Definition prop_alloc : action rt_world (option nat) :=
  let* s := get_rt in
  match alloc_scan 0 (props s) (cur (attempt s)) None with
  | inl i => ret (Some i)
  | inr None => ret None
  | inr (Some (v, _)) =>
    let* ps := deref (set_at (props s) (Z.of_nat v) zero_proposal) in
    update (with_props ps) ;* ret (Some v)
  end.

Fixpoint att_find_from (i : nat) (sl : list att_slot) (hash signer : bytes) : option nat :=
  match sl with
  | [] => None
  | x :: r =>
    if sl_used x && (memcmp (a_block_hash (sl_att x)) hash =? 0) && (memcmp (a_signer (sl_att x)) signer =? 0)
    then Some i else att_find_from (S i) r hash signer
  end.

(** A pointer into [s->atts] is the index of the slot. *)
Definition att_find (s : rt_state) (hash signer : bytes) : option nat := att_find_from 0 (atts s) hash signer.

(** The loop of [att_file]: the first free slot, or the one filed first. *)
Fixpoint file_scan (i : nat) (sl : list att_slot) (at_ : option (nat * Z)) : option nat :=
  match sl with
  | [] => fst <$> at_
  | x :: r =>
    if negb (sl_used x) then Some i
    else match at_ with
         | Some (_, seq) => file_scan (S i) r (if sl_seq x <? seq then Some (i, sl_seq x) else at_)
         | None => file_scan (S i) r (Some (i, sl_seq x))
         end
  end.

Definition att_file (a : ants_chain_attestation_t) : action rt_world bool :=
  let* s := get_rt in
  match att_find s (a_block_hash a) (a_signer a) with
  | Some _ => ret false
  | None =>
    let* i := deref (file_scan 0 (atts s) None) in
    let seq := u64 (next_att_seq s + 1) in
    let* sl := deref (set_at (atts s) (Z.of_nat i) (mk_slot true seq a)) in
    update (with_atts sl seq) ;* ret true
  end.

Fixpoint att_any_for (sl : list att_slot) (hash : bytes) : bool :=
  match sl with
  | [] => false
  | x :: r => if sl_used x && (memcmp (a_block_hash (sl_att x)) hash =? 0) then true else att_any_for r hash
  end.

Definition purge_prop (height : Z) (p : rt_proposal) : rt_proposal :=
  if p_used p && (p_height p <=? height) then zero_proposal else p.
Definition purge_att (height : Z) (x : att_slot) : att_slot :=
  if sl_used x && (a_height (sl_att x) <=? height) then mk_slot false (sl_seq x) (sl_att x) else x.

Definition purge_below_head : action rt_world unit :=
  update (fun s => with_props (map (purge_prop (hd_height (head s))) (props s))
                     (with_atts (map (purge_att (hd_height (head s))) (atts s)) (next_att_seq s) s)).

Section runtime.
Context `{B : Blake3} `{Ed : Ed25519}.
(** The bound on the words examined per draw of a committee member. *)
Context (draws : nat).

(** The state is the array [out] with [*out_k]. *)
Definition committee_for (c : rt_static) (prev : bytes) (height : Z) : action select_out unit :=
  let n := zlen (trustees c) in
  let k := if n <? k_phase c then n else k_phase c in
  let* seed := fun st => match ants_chain_vrf_seed_degraded prev height with
                         | Ok _ seed => Ok st seed
                         | Err _ e => Err st e
                         | UB => UB
                         | NoFuel => NoFuel
                         end in
  ants_chain_committee_select draws prev seed n k ANTS_CHAIN_COMMITTEE_K_MAX.

(** Compose the block for (height, prev, cutoff) into the proposal [*p]; the
    other object written is the scratch array [s->findings]. *)
Definition compose (e : rt_env) (c : rt_static) (height : Z) (prev : bytes) (cutoff : Z)
  : action (list ants_chain_pattern_finding_t * rt_proposal) unit :=
  if negb (view_fn c) then fun _ => UB
  else match env_view e cutoff with
  | inl err => fail err
  | inr (ids, events) => fun st =>
    match ants_chain_block_propose height prev (epoch_of c cutoff) cutoff true (Some ids) (zlen ids)
            (Some events) (zlen events) ANTS_CHAIN_MAX_PATTERN_FINDINGS (st.1, 0) with
    | UB => UB
    | NoFuel => NoFuel
    | Err so err => Err (so.1, st.2) err
    | Ok so b =>
      let p := st.2 in
      let put bytes len hash :=
        (so.1, mk_prop (p_used p) (p_degraded p) (p_height p) (p_cutoff p) (p_epoch p) (p_prev p) hash len bytes) in
      match ants_chain_block_encode b ANTS_CHAIN_BLOCK_ENCODED_MAX (p_bytes p) with
      | UB => UB
      | NoFuel => NoFuel
      | Err bytes err => Err (put bytes (p_len p) (p_hash p)) err
      | Ok bytes len =>
        match ants_chain_block_hash b with
        | UB => UB
        | NoFuel => NoFuel
        | Err _ err => Err (put bytes len (p_hash p)) err
        | Ok _ hash =>
          Ok (so.1, mk_prop (p_used p) true height cutoff (s_epoch (b_summary b)) prev hash len bytes) tt
        end
      end
    end
  end.

(** The last position of the committee that holds index [mine]. *)
Fixpoint member_pos (mine i : Z) (com : list Z) (found : option Z) : option Z :=
  match com with
  | [] => found
  | x :: r => member_pos mine (i + 1) r (if x =? mine then Some i else found)
  end.

(** Lines up to the call of [ants_chain_proposer]. *)
Definition enroll (height : Z) : action rt_world unit :=
  let* s := get_rt in
  let a := attempt s in
  let* com := deref (first_n (committee a) (at_k a)) in
  let pos := if is_trustee (static s)
             then mine ← trustee_index (static s) (self (static s)); member_pos mine 0 com None
             else None in
  let proposer := match ants_chain_proposer height (at_k a) tt with Ok _ p => p | _ => proposer_pos a end in
  update (with_attempt (mk_attempt (at_h a) (attempt_start a) (at_k a) (committee a) (bool_decide (is_Some pos))
                          (default (my_pos a) pos) proposer (cur a) (last_emit a))).

Definition start_attempt (height now : Z) : action rt_world unit :=
  update (fun s => let a := attempt s in
    with_attempt (mk_attempt height now 0 (committee a) false (my_pos a) (proposer_pos a) (-1) 0) s) ;*
  let* s := get_rt in
  let a := attempt s in
  let put o := with_attempt (mk_attempt (at_h a) (attempt_start a) o.2 o.1 (member a) (my_pos a) (proposer_pos a)
                               (cur a) (last_emit a)) in
  match committee_for (static s) (hd_hash (head s)) height (committee a, at_k a) with
  | UB => fun _ => UB
  | NoFuel => fun _ => NoFuel
  | Err o _ => update (put o)
  | Ok o _ => update (put o) ;* if o.2 =? 0 then ret tt else enroll height ;* purge_below_head
  end.

(** [p] is slot [i] of [s->props]. *)
Definition sign_and_emit (e : rt_env) (i : nat) (emit_proposal : bool) (now : Z) : action rt_world unit :=
  let* s := get_rt in
  let* p := deref (props s !! i) in
  if negb (sign_fn (static s)) then fun _ => UB
  else match env_sign e (p_hash p) with
  | inl _ => ret tt
  | inr sig =>
    let a := mk_att (p_height p) (p_hash p) (self (static s)) sig in
    emit (Signed (take (Z.to_nat (p_len p)) (p_bytes p)) (p_hash p) sig) ;*
    update (fun s => with_attempt (with_cur (Z.of_nat i) (last_emit (attempt s)) (attempt s))
                       (with_last_signed (p_height p) s)) ;*
    (let* _ := att_file a in ret tt) ;*
    emit_if (attestation_fn (static s)) (OutAttestation a) ;*
    (if emit_proposal
     then let* b := deref (slice (p_bytes p) 0 (p_len p)) in emit_if (proposal_fn (static s)) (OutProposal b)
     else ret tt) ;*
    update (fun s => with_attempt (with_cur (cur (attempt s)) now (attempt s)) s)
  end.

(** The arrays [pubkeys], [mask] and [sigs] as far as they are written. *)
Record votes_out : Type := mk_votes { v_pubkeys : list bytes; v_mask : list bool; v_sigs : bytes }.

(** [for (pos = 0; pos < k; pos++)] over the committee. *)
Fixpoint gather (s : rt_state) (hash : bytes) (com : list Z) (v : votes_out) : action unit votes_out :=
  match com with
  | [] => ret v
  | idx :: r =>
    if ANTS_CHAIN_COMMITTEE_K_MAX <=? zlen (v_mask v) then fun _ => UB
    else
      let* pub := deref (get_at (trustees (static s)) idx) in
      match att_find s hash pub with
      | None => gather s hash r (mk_votes (v_pubkeys v ++ [pub]) (v_mask v ++ [false]) (v_sigs v))
      | Some i =>
        let* x := deref (atts s !! i) in
        if ANTS_CHAIN_COMMITTEE_K_MAX * ANTS_CHAIN_SIG_SIZE <? zlen (v_sigs v) + ANTS_CHAIN_SIG_SIZE then fun _ => UB
        else gather s hash r
               (mk_votes (v_pubkeys v ++ [pub]) (v_mask v ++ [true]) (v_sigs v ++ a_sig (sl_att x)))
      end
  end.

Definition is_final (s : rt_state) (p : rt_proposal) : action unit bool :=
  if negb (p_degraded p) then ret false
  else fun u =>
  match committee_for (static s) (p_prev p) (p_height p) (replicate 64 0, 0) with
  | UB => UB
  | NoFuel => NoFuel
  | Err _ _ => Ok u false
  | Ok o _ =>
    (let* com := deref (first_n o.1 o.2) in
     let* v := gather s (p_hash p) com (mk_votes [] [] []) in
     fun u => match ants_chain_finality_verify (p_hash p) (v_pubkeys v) o.2 (Some (v_sigs v)) (zlen (v_sigs v))
                      (v_mask v) u with
              | Err u _ => Ok u false
              | r => r
              end) u
  end.

(** The scan of [try_finalize]: the best slot with its proposal. *)
Fixpoint best_final (s : rt_state) (ps : list rt_proposal) (best : option rt_proposal)
  : action unit (option rt_proposal) :=
  match ps with
  | [] => ret best
  | p :: r =>
    if negb (p_used p) || (p_height p <=? hd_height (head s)) then best_final s r best
    else if match best with None => true | Some b => p_height b <? p_height p end
    then let* fin := is_final s p in best_final s r (if fin then Some p else best)
    else best_final s r best
  end.

Definition try_finalize (now : Z) : action rt_world unit :=
  let* s := get_rt in
  let* best := pure_call (best_final s (props s) None) in
  match best with
  | None => ret tt
  | Some p =>
    let hd := mk_head (p_height p) (p_hash p) (p_cutoff p) (p_epoch p) (p_degraded p) in
    update (with_head hd) ;*
    start_attempt (u64 (hd_height hd + 1)) now ;*
    emit_if (final_fn (static s)) (OutFinal hd)
  end.

(** ** Public API *)

Definition zero_attempt : rt_attempt := mk_attempt 0 0 0 (replicate 64 0) false 0 0 0 0.
Definition zero_state : rt_state :=
  mk_rt (mk_static [] 0 0 zero_hash false false false false false false) (mk_head 0 zero_hash 0 0 false) zero_attempt 0
    (replicate RT_MAX_PROPOSALS zero_proposal) (replicate RT_MAX_ATTESTATIONS zero_slot) 0
    (replicate (Z.to_nat ANTS_CHAIN_MAX_PATTERN_FINDINGS) zero_finding) zero_proposal.

(** The neighbours are compared as in [ids_strictly_ascending]. *)
Definition ants_chain_rt_init (cfg : ants_chain_rt_config_t) (now : Z) : action rt_world unit :=
  if is_null (c_trustees cfg) || (c_n_trustees cfg =? 0) || (ANTS_CHAIN_COMMITTEE_K_MAX <? c_n_trustees cfg) ||
     (c_k_phase cfg =? 0) || (now <? c_genesis_time cfg)
  then fail ANTS_ERROR_INVALID_ARG
  else
    let* ts := deref (first_n (default [] (c_trustees cfg)) (c_n_trustees cfg)) in
    if negb (ids_strictly_ascending ts) then fail ANTS_ERROR_INVALID_ARG
    else
      let among := bool_decide (is_Some (index_from 0 ts (c_self cfg))) in
      if among && (negb (c_sign_fn cfg) || negb (c_view_fn cfg))
      then update (fun _ => zero_state) ;* fail ANTS_ERROR_INVALID_ARG
      else
        update (fun _ =>
          mk_rt (mk_static ts (c_genesis_time cfg) (c_k_phase cfg) (c_self cfg) among (c_sign_fn cfg) (c_view_fn cfg)
                   (c_proposal_fn cfg) (c_attestation_fn cfg) (c_final_fn cfg))
            (mk_head 0 (c_genesis_hash cfg) (c_genesis_time cfg) 0 false) zero_attempt 0 (props zero_state)
            (atts zero_state) 0 (findings zero_state) zero_proposal) ;*
        start_attempt 1 now.

(** [compose] into slot [i], with the branch the caller takes on failure. *)
Definition compose_slot (e : rt_env) (i : nat) (height : Z) (prev : bytes) (cutoff : Z) : action rt_world bool :=
  let* s := get_rt in
  let* p := deref (props s !! i) in
  let put (o : list ants_chain_pattern_finding_t * rt_proposal) :=
    update (with_findings o.1) ;*
    let* ps := deref (set_at (props s) (Z.of_nat i) o.2) in update (with_props ps) in
  match compose e (static s) height prev cutoff (findings s, p) with
  | UB => fun _ => UB
  | NoFuel => fun _ => NoFuel
  | Ok o _ => put o ;* ret true
  | Err o _ => put o ;* ret false
  end.

Definition set_slot (i : nat) (f : rt_proposal -> rt_proposal) : action rt_world unit :=
  let* s := get_rt in
  let* p := deref (props s !! i) in
  let* ps := deref (set_at (props s) (Z.of_nat i) (f p)) in
  update (with_props ps).

Definition mark_used (p : rt_proposal) : rt_proposal :=
  mk_prop true (p_degraded p) (p_height p) (p_cutoff p) (p_epoch p) (p_prev p) (p_hash p) (p_len p) (p_bytes p).

(** The propose branch of the tick. *)
Definition propose (e : rt_env) (now : Z) : action rt_world unit :=
  let* p := prop_alloc in
  match p with
  | None => ret tt
  | Some i =>
    let* s := get_rt in
    let* ok := compose_slot e i (at_h (attempt s)) (hd_hash (head s)) now in
    if ok then set_slot i mark_used ;* sign_and_emit e i true now ;* try_finalize now
    else set_slot i (fun _ => zero_proposal)
  end.

(** The re-broadcast branch of the tick. *)
Definition rebroadcast (now : Z) : action rt_world unit :=
  let* s := get_rt in
  let* p := deref (get_at (props s) (cur (attempt s))) in
  match att_find s (p_hash p) (self (static s)) with
  | Some i => let* x := deref (atts s !! i) in emit_if (attestation_fn (static s)) (OutAttestation (sl_att x))
  | None => ret tt
  end ;*
  (let* b := deref (slice (p_bytes p) 0 (p_len p)) in emit_if (proposal_fn (static s)) (OutProposal b)) ;*
  update (fun s => with_attempt (with_cur (cur (attempt s)) now (attempt s)) s).

Definition may_propose (s : rt_state) (now : Z) : bool :=
  let a := attempt s in
  member a && (my_pos a =? proposer_pos a) && (cur a <? 0) && (last_signed_height s <? at_h a) &&
  (u64 (attempt_start a + ANTS_CHAIN_RT_DRAND_FLOOR_S) <=? now) &&
  (u64 (hd_cutoff_time (head s) + ANTS_CHAIN_BLOCK_TIME_S) <=? now).

Definition ants_chain_rt_tick (e : rt_env) (now : Z) : action rt_world unit :=
  let* s := get_rt in
  (if u64 (attempt_start (attempt s) + ANTS_CHAIN_FINALITY_TIMEOUT_S) <=? now
   then start_attempt (u64 (at_h (attempt s) + 1)) now else ret tt) ;*
  let* s := get_rt in
  if may_propose s now then propose e now
  else if (0 <=? cur (attempt s)) && (u64 (last_emit (attempt s) + ANTS_CHAIN_RT_REBROADCAST_S) <=? now)
  then rebroadcast now
  else ret tt.

(** [ants_chain_block_decode] into a local block and the scratch array. *)
Definition decode_scratch (block : option bytes) (len : Z) : action rt_world ants_chain_block_t :=
  let* s := get_rt in
  match ants_chain_block_decode block len ANTS_CHAIN_MAX_PATTERN_FINDINGS
          (mk_block_out 0 [] false (mk_out (mk_summary 0 0 [] []) (findings s) 0)) with
  | UB => fun _ => UB
  | NoFuel => fun _ => NoFuel
  | Err o err => update (with_findings (o_findings (h_out o))) ;* fail err
  | Ok o _ => update (with_findings (o_findings (h_out o))) ;*
              ret (mk_block (h_height o) (h_prev o) (h_degraded o) (o_summary (h_out o)))
  end.

(** The fields a received block is filed with; [memcpy] writes the first [len]
    bytes of the array. *)
Definition file_block (b : ants_chain_block_t) (hash block : bytes) (i : nat) : action rt_world unit :=
  let* s := get_rt in
  let* p := deref (props s !! i) in
  let* bs := deref (splice (p_bytes p) 0 block) in
  set_slot i (fun _ => mk_prop true true (b_height b) (s_cutoff_time (b_summary b)) (s_epoch (b_summary b))
                         (b_prev_block_hash b) hash (zlen block) bs).

(** The conditions under which this node considers signing [b], filed as [p]. *)
Definition may_sign (s : rt_state) (b : ants_chain_block_t) (p : rt_proposal) (now : Z) : bool :=
  member (attempt s) && (b_height b =? at_h (attempt s)) && (last_signed_height s <? at_h (attempt s)) &&
  (memcmp (b_prev_block_hash b) (hd_hash (head s)) =? 0) &&
  (u64 (hd_cutoff_time (head s) + ANTS_CHAIN_BLOCK_TIME_S) <=? p_cutoff p) &&
  (p_cutoff p <=? u64 (now + ANTS_CHAIN_RT_CLOCK_SKEW_S)).

(** [compose] into [s->recompute]. *)
Definition compose_recompute (e : rt_env) (height : Z) (prev : bytes) (cutoff : Z) : action rt_world bool :=
  let* s := get_rt in
  let put (o : list ants_chain_pattern_finding_t * rt_proposal) :=
    update (fun s => with_recompute o.2 (with_findings o.1 s)) in
  match compose e (static s) height prev cutoff (findings s, zero_proposal) with
  | UB => fun _ => UB
  | NoFuel => fun _ => NoFuel
  | Ok o _ => put o ;* ret true
  | Err o _ => put o ;* ret false
  end.

(** Recompute, compare, sign. *)
Definition validate (e : rt_env) (b : ants_chain_block_t) (i : nat) (now : Z) : action rt_world unit :=
  let* s := get_rt in
  let* p := deref (props s !! i) in
  if may_sign s b p now then
    let* ok := compose_recompute e (at_h (attempt s)) (hd_hash (head s)) (p_cutoff p) in
    let* s' := get_rt in
    if ok && (memcmp (p_hash (recompute s')) (p_hash p) =? 0) then sign_and_emit e i false now else ret tt
  else ret tt.

(** From the slot of the filed block on. *)
Definition consider (e : rt_env) (b : ants_chain_block_t) (i : nat) (now : Z) : action rt_world unit :=
  validate e b i now ;* try_finalize now.

Definition ants_chain_rt_on_proposal (e : rt_env) (block : option bytes) (len now : Z) : action rt_world unit :=
  if is_null block || (ANTS_CHAIN_BLOCK_ENCODED_MAX <? len) then fail ANTS_ERROR_INVALID_ARG
  else
    let* b := decode_scratch block len in
    let* s := get_rt in
    if negb (b_degraded_seed b) then fail ANTS_ERROR_UNSUPPORTED_TYPE
    else if (b_height b <=? hd_height (head s)) || (s_cutoff_time (b_summary b) <? genesis_time (static s)) then ret tt
    else
      let* hash := pure_call (fun _ => ants_chain_block_hash b) in
      match prop_find s hash with
      | Some i => consider e b i now
      | None =>
        if negb (att_any_for (atts s) hash) then fail ANTS_ERROR_UNSUPPORTED_TYPE
        else
          let* p := prop_alloc in
          match p with
          | None => ret tt
          | Some i =>
            let* bytes := deref (slice (default [] block) 0 len) in
            file_block b hash bytes i ;* consider e b i now
          end
      end.

Definition ants_chain_rt_on_attestation (att : ants_chain_attestation_t) (now : Z) : action rt_world unit :=
  let* s := get_rt in
  match trustee_index (static s) (a_signer att) with
  | None => fail ANTS_ERROR_MALFORMED
  | Some _ =>
    match ants_ed25519_verify (a_signer att) (Some (a_block_hash att)) ANTS_CHAIN_HASH_SIZE (a_sig att) with
    | UB => fun _ => UB
    | NoFuel => fun _ => NoFuel
    | Err _ _ => fail ANTS_ERROR_MALFORMED
    | Ok _ _ =>
      match att_find s (a_block_hash att) (a_signer att) with
      | Some i =>
        let* known := deref (atts s !! i) in
        if a_height (sl_att known) =? a_height att then ret tt else fail ANTS_ERROR_UNSUPPORTED_TYPE
      | None =>
        if a_height att <=? hd_height (head s) then fail ANTS_ERROR_UNSUPPORTED_TYPE
        else (let* _ := att_file att in ret tt) ;* try_finalize now
      end
    end
  end.

Definition ants_chain_rt_head (s : rt_state) : ants_chain_head_t := head s.
Definition ants_chain_rt_attempt_height (s : rt_state) : Z := at_h (attempt s).

(** [false] is [None]. *)
Definition ants_chain_rt_view_epochs (genesis cutoff : Z) : option (Z * Z) :=
  if cutoff <? genesis then None
  else
    let e := u64 (cutoff - genesis) / ANTS_CHAIN_RT_EPOCH_DURATION_S in
    Some (if ANTS_CHAIN_RT_VIEW_WINDOW_EPOCHS - 1 <=? e then e - (ANTS_CHAIN_RT_VIEW_WINDOW_EPOCHS - 1) else 0, e).
End runtime.
End Runtime.
