(* ===== verification/RuntimeFinal.v ===== *)
(** * Committees and finality in the runtime (chain_runtime.c)

    The committee of a block is a function of its predecessor, its height and
    the genesis trustees, and [is_final] answers whether two thirds of it have
    a valid attestation on file. *)

From stdpp Require Import strings.
From S2P Require Import Prelude Cbor CborKv CborSpec CborContract Crypto Crdt BondCodec Chain ChainCodec ChainBlock ChainCommittee ChainFinality ChainRuntime.
Import Chain Runtime.

#[local] Arguments zlen {A} l : simpl never.

(** ** What the state holds *)

(** The configuration part, as [ants_chain_rt_init] leaves it. *)
Record static_ok (c : rt_static) : Prop := {
  so_trustees : Forall hash_ok (trustees c);
  so_sorted : ids_strictly_ascending (trustees c) = true;
  so_count : 0 < zlen (trustees c) <= ANTS_CHAIN_COMMITTEE_K_MAX;
  so_phase : 0 < k_phase c;
  so_self : zlen (self c) = 32;
  so_genesis : is_u64 (genesis_time c);
  so_callbacks : is_trustee c = true -> self c ∈ trustees c /\ sign_fn c = true /\ view_fn c = true
}.

Definition committee_size (c : rt_static) : Z := Z.min (zlen (trustees c)) (k_phase c).

(** An attestation slot: arrays of their sizes, and a known signer when used. *)
Definition att_ok (c : rt_static) (x : att_slot) : Prop :=
  zlen (a_block_hash (sl_att x)) = 32 /\ zlen (a_signer (sl_att x)) = 32 /\ zlen (a_sig (sl_att x)) = 64 /\
  (sl_used x = true -> a_signer (sl_att x) ∈ trustees c).

Definition atts_ok (c : rt_static) (sl : list att_slot) : Prop :=
  length sl = RT_MAX_ATTESTATIONS /\ Forall (att_ok c) sl.

Lemma committee_size_range c : static_ok c -> 0 < committee_size c <= ANTS_CHAIN_COMMITTEE_K_MAX.
Proof. intros []. unfold committee_size. lia. Qed.

Section committee.
Context `{B : Blake3} {Laws : Blake3Laws B}.
Context (draws : nat).

(** [draws] consecutive words were rejected while the committee of
    (prev, height) was drawn. *)
Definition starved (c : rt_static) (prev : bytes) (height : Z) : Prop :=
  exists seed, ants_chain_vrf_seed_degraded prev height = Ok tt seed /\
    rejected_run prev seed draws (zlen (trustees c) - committee_size c) (zlen (trustees c)).

(** The committee of (prev, height), as trustee indices. *)
Definition committee_of (c : rt_static) (prev : bytes) (height : Z) : option (list Z) :=
  match committee_for draws c prev height (replicate 64 0, 0) with
  | Ok o _ => first_n o.1 o.2
  | _ => None
  end.

Lemma degraded_seed prev height : exists seed, ants_chain_vrf_seed_degraded prev height = Ok tt seed /\ zlen seed = 32.
Proof using Laws.
  unfold ants_chain_vrf_seed_degraded, vrf_seed_derive. rewrite derive_key_all. eexists. split; [done|].
  apply finalize_size.
Qed.

Lemma committee_for_spec c prev height buf old :
  static_ok c -> zlen prev = 32 -> zlen buf = 64 ->
  match committee_for draws c prev height (buf, old) with
  | Ok o _ => o.2 = committee_size c /\ zlen o.1 = 64 /\ exists com, first_n o.1 o.2 = Some com /\
      zlen com = committee_size c /\ StronglySorted Z.lt com /\ Forall (fun i => 0 <= i < zlen (trustees c)) com
  | NoFuel => starved c prev height
  | _ => False
  end.
Proof using Laws.
  intros Hc Hp Hb. pose proof (committee_size_range c Hc) as Hk. pose proof (so_count c Hc) as Hn.
  change ANTS_CHAIN_COMMITTEE_K_MAX with 64 in *. destruct (degraded_seed prev height) as (seed & Hs & Hz).
  unfold committee_for, bind at 1. rewrite Hs.
  replace (if zlen (trustees c) <? k_phase c then zlen (trustees c) else k_phase c) with (committee_size c)
    by (unfold committee_size; destruct (Z.ltb_spec (zlen (trustees c)) (k_phase c)); lia).
  pose proof (committee_select_spec draws prev seed (zlen (trustees c)) (committee_size c)
    ANTS_CHAIN_COMMITTEE_K_MAX buf old Hp Hz ltac:(unfold committee_size in *; lia) ltac:(lia)
    ltac:(change ANTS_CHAIN_COMMITTEE_K_MAX with 64; lia)) as H.
  destruct (ants_chain_committee_select _ _ _ _ _ _ _) as [[buf' n] []|[buf' n] e| |]; [| |done|by exists seed].
  - destruct H as (_ & -> & com & -> & Hl & Hsort & Hrange). cbn [fst snd]. split; [done|]. split.
    + rewrite zlen_app, Hl. unfold zlen in *. rewrite length_drop. lia.
    + exists com. split; [|done]. rewrite <- Hl. unfold first_n. rewrite zlen_app, zlen_to_nat, take_app_length.
      pose proof (zlen_nonneg (drop (length com) buf)). pose proof (zlen_nonneg com). rewrite Hl in *. by repeat bdecide.
  - destruct H as (? & _). change ANTS_CHAIN_COMMITTEE_K_MAX with 64 in *. lia.
Qed.

Lemma committee_of_spec c prev height com :
  static_ok c -> zlen prev = 32 -> committee_of c prev height = Some com ->
  zlen com = committee_size c /\ StronglySorted Z.lt com /\ Forall (fun i => 0 <= i < zlen (trustees c)) com.
Proof using Laws.
  intros Hc Hp. unfold committee_of.
  pose proof (committee_for_spec c prev height (replicate 64 0) 0 Hc Hp ltac:(done)) as H.
  destruct (committee_for _ _ _ _ _) as [[buf k] []|[] ?| |]; try done.
  destruct H as (_ & _ & com' & -> & ?). by intros [= <-].
Qed.
End committee.

(** The keys of a committee. *)
Definition keys (c : rt_static) (com : list Z) : list bytes :=
  map (fun i => default [] (trustees c !! Z.to_nat i)) com.

Lemma trustee_lookup c i : static_ok c -> 0 <= i < zlen (trustees c) ->
  exists t, get_at (trustees c) i = Some t /\ trustees c !! Z.to_nat i = Some t /\ hash_ok t.
Proof.
  intros Hc Hi. destruct (lookup_lt_is_Some_2 (trustees c) (Z.to_nat i)) as [t Ht]; [zlia|].
  exists t. unfold get_at. bdecide. split; [done|]. split; [done|].
  pose proof (so_trustees c Hc) as H. rewrite Forall_lookup in H. eauto.
Qed.

Lemma keys_size c com : zlen (keys c com) = zlen com.
Proof. apply zlen_map. Qed.

(** ** Attestations on file *)

Lemma att_find_spec c sl hash signer : Forall (att_ok c) sl -> zlen hash = 32 -> zlen signer = 32 -> forall i,
  match att_find_from i sl hash signer with
  | Some j => (i <= j)%nat /\ exists x, sl !! (j - i)%nat = Some x /\ sl_used x = true /\
      a_block_hash (sl_att x) = hash /\ a_signer (sl_att x) = signer
  | None => forall x, x ∈ sl -> sl_used x = true -> a_block_hash (sl_att x) = hash ->
      a_signer (sl_att x) <> signer
  end.
Proof.
  intros Hsl Hh Hs. induction Hsl as [|x sl (Hx1 & Hx2 & _) _ IH]; intros i; cbn [att_find_from].
  { intros x Hx. by apply elem_of_nil in Hx. }
  rewrite !memcmp_eq by lia. destruct (sl_used x && _ && _) eqn:E.
  - apply andb_true_iff in E as [[Hu Eh%bool_decide_eq_true]%andb_true_iff Es%bool_decide_eq_true].
    split; [done|]. exists x. by rewrite Nat.sub_diag.
  - specialize (IH (S i)). destruct (att_find_from (S i) sl hash signer) as [j|].
    + destruct IH as (Hj & y & Hy & ?). split; [lia|]. exists y. by replace (j - i)%nat with (S (j - S i)) by lia.
    + intros y [->|Hy]%elem_of_cons Hu Eh Es; [|by eapply IH]. rewrite Hu, Eh, Es, !bool_decide_eq_true_2 in E; done.
Qed.

Section finality.
Context `{B : Blake3} {Laws : Blake3Laws B} `{Ed : Ed25519}.
Context (draws : nat).

(** The signature on file of [pub] over [hash]. *)
Definition ballot (s : rt_state) (hash pub : bytes) : option bytes :=
  i ← att_find s hash pub; x ← atts s !! i; Some (a_sig (sl_att x)).

Definition approves (s : rt_state) (hash pub : bytes) : Prop :=
  exists sig, ballot s hash pub = Some sig /\ crypto_sign_ed25519_verify_detached sig hash pub = true.

#[export] Instance approves_dec s hash pub : Decision (approves s hash pub).
Proof.
  refine (match ballot s hash pub as o return ballot s hash pub = o -> _ with
          | Some sig => fun E => cast_if (decide (crypto_sign_ed25519_verify_detached sig hash pub = true))
          | None => fun E => right _ end eq_refl).
  - by exists sig.
  - intros (sig' & E' & H). congruence.
  - intros (sig' & E' & H). congruence.
Defined.

(** Two thirds of the keys have a valid signature over [hash] on file. *)
Definition quorum (s : rt_state) (hash : bytes) (pubs : list bytes) : Prop :=
  2 * zlen pubs <= 3 * zlen (filter (approves s hash) pubs).

#[export] Instance quorum_dec s hash pubs : Decision (quorum s hash pubs).
Proof. unfold quorum. apply _. Defined.

Lemma ballot_size s hash pub sig : atts_ok (static s) (atts s) -> zlen hash = 32 -> zlen pub = 32 ->
  ballot s hash pub = Some sig -> zlen sig = 64.
Proof using Type.
  intros [_ Ha] _ _. unfold ballot. destruct (att_find s hash pub) as [i|]; [|done]. cbn [mbind option_bind].
  destruct (atts s !! i) as [x|] eqn:Ex; [|done]. rewrite Forall_lookup in Ha. intros [= <-]. by eapply Ha.
Qed.

(** The arrays a committee with the keys [pubs] is judged by. *)
Definition ballots (s : rt_state) (hash : bytes) (pubs : list bytes) : list bytes := omap (ballot s hash) pubs.
Definition voted (s : rt_state) (hash : bytes) (pubs : list bytes) : list bool :=
  map (fun p => bool_decide (is_Some (ballot s hash p))) pubs.

Lemma ballots_length s hash pubs : (length (ballots s hash pubs) <= length pubs)%nat.
Proof using Type.
  induction pubs as [|p pubs IH]; cbn; [done|]. fold (ballots s hash pubs). destruct (ballot s hash p); cbn; lia.
Qed.

Lemma ballots_concat s hash pubs :
  atts_ok (static s) (atts s) -> zlen hash = 32 -> Forall (fun p => zlen p = 32) pubs ->
  zlen (concat (ballots s hash pubs)) = signers (voted s hash pubs) * 64 /\
  signers (voted s hash pubs) = zlen (ballots s hash pubs).
Proof using Type.
  intros Ha Hh Hp. induction Hp as [|p pubs Hp _ IH]; [done|]. unfold ballots, voted in *. cbn [omap list_omap map].
  rewrite signers_cons. destruct (ballot s hash p) as [sig|] eqn:E.
  - rewrite bool_decide_eq_true_2 by eauto. cbn [concat]. rewrite zlen_app, zlen_cons.
    rewrite (ballot_size s hash p sig Ha Hh Hp E). lia.
  - rewrite bool_decide_eq_false_2 by (by intros [? ?]). lia.
Qed.

Lemma gather_spec s hash com : forall v,
  static_ok (static s) -> atts_ok (static s) (atts s) -> zlen hash = 32 ->
  Forall (fun i => 0 <= i < zlen (trustees (static s))) com -> zlen (v_mask v) + zlen com <= 64 ->
  zlen (v_sigs v) <= zlen (v_mask v) * 64 ->
  gather s hash com v tt = Ok tt (mk_votes (v_pubkeys v ++ keys (static s) com)
    (v_mask v ++ voted s hash (keys (static s) com)) (v_sigs v ++ concat (ballots s hash (keys (static s) com)))).
Proof using Type.
  induction com as [|i com IH]; intros v Hc Ha Hh Hi Hm Hs; cbn [gather].
  { unfold keys, ballots, voted. cbn. rewrite !app_nil_r. by destruct v. }
  apply Forall_cons in Hi as [Hi Hcom]. rewrite zlen_cons in Hm. pose proof (zlen_nonneg com).
  change ANTS_CHAIN_COMMITTEE_K_MAX with 64. change ANTS_CHAIN_SIG_SIZE with 64.
  rewrite (proj2 (Z.leb_gt _ _)) by lia. destruct (trustee_lookup (static s) i Hc Hi) as (t & Hg & Hl & _ & Ht).
  rewrite Hg. unfold deref at 1, bind at 1. unfold keys, ballots, voted. cbn [map omap list_omap]. rewrite Hl.
  cbn [from_option id]. fold (keys (static s) com).
  destruct (att_find s hash t) as [j|] eqn:Ef.
  - pose proof (att_find_spec (static s) (atts s) hash t (proj2 Ha) Hh Ht 0) as Hf. unfold att_find in Ef. rewrite Ef in Hf.
    destruct Hf as (_ & x & Hx & _). rewrite Nat.sub_0_r in Hx.
    assert (Eb : ballot s hash t = Some (a_sig (sl_att x))) by (unfold ballot, att_find; rewrite Ef; cbn; by rewrite Hx).
    rewrite Hx, Eb. unfold deref, bind.
    assert (Hxs : zlen (a_sig (sl_att x)) = 64) by (destruct Ha as [_ Ha]; rewrite Forall_lookup in Ha; by eapply Ha).
    rewrite (proj2 (Z.ltb_ge _ _)) by lia. rewrite IH; cbn [v_pubkeys v_mask v_sigs]; try done.
    + rewrite bool_decide_eq_true_2 by eauto. cbn [concat]. by rewrite <- !app_assoc.
    + rewrite zlen_app. change (zlen [true]) with 1. lia.
    + rewrite !zlen_app. change (zlen [true]) with 1. lia.
  - assert (Eb : ballot s hash t = None) by (unfold ballot; by rewrite Ef).
    rewrite Eb, IH; cbn [v_pubkeys v_mask v_sigs]; try done.
    + rewrite bool_decide_eq_false_2 by (by intros [? ?]). by rewrite <- !app_assoc.
    + rewrite zlen_app. change (zlen [false]) with 1. lia.
    + rewrite zlen_app. change (zlen [false]) with 1. lia.
Qed.

Lemma votes_approvals s hash pubs : forall i,
  atts_ok (static s) (atts s) -> zlen hash = 32 -> Forall (fun p => zlen p = 32) pubs ->
  zlen (votes hash (zip pubs (voted s hash pubs)) (concat (ballots s hash pubs)) i) =
    zlen (filter (approves s hash) pubs).
Proof using Type.
  intros i Ha Hh Hp. revert i. induction Hp as [|p pubs Hp _ IH]; intros i; [done|].
  unfold ballots, voted in *. cbn [map omap list_omap zip zip_with]. rewrite filter_cons.
  destruct (ballot s hash p) as [sig|] eqn:E.
  - rewrite bool_decide_eq_true_2 by eauto. cbn [votes concat].
    pose proof (ballot_size s hash p sig Ha Hh Hp E) as Hz.
    rewrite take_app_length', drop_app_length' by (unfold zlen in Hz; lia). rewrite zlen_app, IH.
    destruct (crypto_sign_ed25519_verify_detached sig hash p) eqn:V.
    + rewrite decide_True by (by exists sig). rewrite !zlen_cons, zlen_nil. lia.
    + rewrite decide_False by (intros (? & ? & ?); congruence). done.
  - rewrite bool_decide_eq_false_2 by (by intros [? ?]). cbn [votes].
    rewrite decide_False by (intros (? & ? & ?); congruence). apply IH.
Qed.

Lemma keys_sized c com : static_ok c -> Forall (fun i => 0 <= i < zlen (trustees c)) com ->
  Forall (fun p => zlen p = 32) (keys c com).
Proof using Type.
  intros Hc Hcom. apply Forall_map. eapply Forall_impl; [exact Hcom|]. intros i Hi.
  destruct (trustee_lookup c i Hc Hi) as (t & _ & -> & _ & Ht). done.
Qed.

(** What a proposal needs to be judged. *)
Definition judged (p : rt_proposal) : Prop := p_degraded p = true /\ zlen (p_prev p) = 32 /\ zlen (p_hash p) = 32.

Lemma is_final_spec s p :
  static_ok (static s) -> atts_ok (static s) (atts s) -> judged p ->
  match is_final draws s p tt with
  | Ok _ fin => exists com, committee_of draws (static s) (p_prev p) (p_height p) = Some com /\
      fin = bool_decide (quorum s (p_hash p) (keys (static s) com)) /\
      (fin = true -> exists sigs mask, zlen mask = committee_size (static s) /\
        ants_chain_finality_verify (p_hash p) (keys (static s) com) (committee_size (static s)) (Some sigs)
          (zlen sigs) mask tt = Ok tt true)
  | NoFuel => starved draws (static s) (p_prev p) (p_height p)
  | _ => False
  end.
Proof using Laws.
  intros Hc Ha (Hd & Hp & Hh). unfold is_final, committee_of. rewrite Hd. cbn [negb].
  pose proof (committee_for_spec draws (static s) (p_prev p) (p_height p) (replicate 64 0) 0 Hc Hp ltac:(done)) as H.
  destruct (committee_for _ _ _ _ _) as [[buf k] []|[] ?| |]; try done.
  cbn [fst snd] in *. destruct H as (-> & _ & com & Hcom & Hlen & _ & Hrange). rewrite Hcom.
  pose proof (committee_size_range (static s) Hc) as Hk. pose proof (keys_sized (static s) com Hc Hrange) as Hks.
  change ANTS_CHAIN_COMMITTEE_K_MAX with 64 in *. unfold deref, bind at 1 2.
  rewrite gather_spec; try done; [|cbn; change (zlen []) with 0; lia].
  cbn [v_pubkeys v_mask v_sigs app]. set (pubs := keys (static s) com) in *.
  destruct (ballots_concat s (p_hash p) pubs Ha Hh Hks) as [Hsz _].
  assert (Hf : ants_chain_finality_verify (p_hash p) pubs (committee_size (static s))
    (Some (concat (ballots s (p_hash p) pubs))) (zlen (concat (ballots s (p_hash p) pubs)))
    (voted s (p_hash p) pubs) tt = Ok tt (bool_decide (quorum s (p_hash p) pubs))).
  { rewrite finality_verify_eq; try done.
    - rewrite decide_True by done. f_equal. apply bool_decide_ext. unfold quorum.
      rewrite votes_approvals by done. unfold pubs. by rewrite keys_size, Hlen.
    - unfold pubs. by rewrite keys_size.
    - unfold voted, pubs. rewrite zlen_map, keys_size. done. }
  rewrite Hf. exists com. split; [done|]. split; [done|]. intros Hq. rewrite Hq in Hf.
  eexists _, _. split; [|exact Hf]. unfold voted, pubs. by rewrite zlen_map, keys_size.
Qed.
End finality.
