(* ===== verification/RuntimeInv.v ===== *)
(** * The runtime's state invariant (chain_runtime.c)

    What the slots of [struct rt_state] hold between calls, and what each
    helper does to them. *)

From stdpp Require Import strings.
From S2P Require Import Prelude Cbor CborKv CborSpec CborEnc CborContract Crypto Crdt Merkle BondCodec Chain.
From S2P Require Import ChainCodec ChainBlock ChainPattern ChainHonest ChainRuntime RuntimeFinal.
Import Chain Runtime.

#[local] Arguments zlen {A} l : simpl never.

(** ** Small facts *)

Lemma first_n_prefix {A} (l : list A) n : 0 <= n <= zlen l -> first_n l n = Some (take (Z.to_nat n) l).
Proof. intros H. unfold first_n. by repeat bdecide. Qed.

Lemma set_at_slot {A} (l : list A) (i : nat) x : (i < length l)%nat -> set_at l (Z.of_nat i) x = Some (<[i := x]> l).
Proof. intros H. unfold set_at. repeat bdecide. by rewrite Nat2Z.id. Qed.

Lemma slice_prefix (b : bytes) n : 0 <= n <= zlen b -> slice b 0 n = Some (take (Z.to_nat n) b).
Proof. intros H. unfold slice. rewrite drop_0. repeat bdecide. done. Qed.

(** ** The invariant *)

Section invariant.
Context `{B : Blake3} {Laws : Blake3Laws B}.

(** The proposal [p] is the block [b], with its encoding and its hash. *)
Record holds_block (p : rt_proposal) (b : ants_chain_block_t) : Prop := {
  hb_ok : block_ok b;
  hb_seed : b_degraded_seed b = true;
  hb_degraded : p_degraded p = true;
  hb_height : p_height p = b_height b;
  hb_cutoff : p_cutoff p = s_cutoff_time (b_summary b);
  hb_epoch : p_epoch p = s_epoch (b_summary b);
  hb_prev : p_prev p = b_prev_block_hash b;
  hb_hash : p_hash p = digest (encode (block_doc b));
  hb_bytes : take (Z.to_nat (p_len p)) (p_bytes p) = encode (block_doc b)
}.

(** A slot of [s->props]. *)
Definition slot_ok (p : rt_proposal) : Prop :=
  zlen (p_bytes p) = ANTS_CHAIN_BLOCK_ENCODED_MAX /\ 0 <= p_len p <= ANTS_CHAIN_BLOCK_ENCODED_MAX /\
  zlen (p_hash p) = 32 /\ (p_used p = true -> exists b, holds_block p b).

Definition head_ok (hd : ants_chain_head_t) : Prop :=
  is_u64 (hd_height hd) /\ hash_ok (hd_hash hd) /\ is_u64 (hd_cutoff_time hd).

Definition attempt_ok (c : rt_static) (a : rt_attempt) : Prop :=
  is_u64 (at_h a) /\ zlen (committee a) = 64 /\ (member a = true -> is_trustee c = true) /\
  -1 <= cur a < Z.of_nat RT_MAX_PROPOSALS.

(** No two used slots hold an attestation of the same signer for the same hash. *)
Definition distinct_atts (sl : list att_slot) : Prop :=
  forall i j x y, sl !! i = Some x -> sl !! j = Some y -> sl_used x = true -> sl_used y = true ->
    a_block_hash (sl_att x) = a_block_hash (sl_att y) -> a_signer (sl_att x) = a_signer (sl_att y) -> i = j.

Record rt_ok (s : rt_state) : Prop := {
  ok_static : static_ok (static s);
  ok_head : head_ok (head s);
  ok_attempt : attempt_ok (static s) (attempt s);
  ok_slots : length (props s) = RT_MAX_PROPOSALS;
  ok_props : Forall slot_ok (props s);
  ok_atts : atts_ok (static s) (atts s);
  ok_distinct : distinct_atts (atts s);
  ok_findings : ANTS_CHAIN_MAX_PATTERN_FINDINGS <= zlen (findings s)
}.

(** What the code expects of the callbacks: a view as documented (content ids
    strictly ascending), and signatures of 64 bytes. *)
Record env_ok (e : rt_env) : Prop := {
  eo_view : forall cutoff ids events, env_view e cutoff = inr (ids, events) -> view_ok ids events;
  eo_sign : forall h sig, env_sign e h = inr sig -> zlen sig = 64
}.

Lemma local_buffer_size n : 0 <= n -> zlen (local_buffer n) = n.
Proof using Type. intros H. unfold local_buffer. rewrite zlen_replicate. lia. Qed.

Lemma zero_slot_ok : slot_ok zero_proposal.
Proof using Type. split; [by apply local_buffer_size|]. by split_and!. Qed.

Lemma digest_hash_ok b : hash_ok (digest b).
Proof using Laws. split; [apply finalize_bytes|apply digest_size]. Qed.

Lemma holds_judged p b : holds_block p b -> judged p.
Proof using Laws.
  intros []. split; [done|]. rewrite hb_prev0, hb_hash0. split; [apply hb_ok0|]. apply digest_size.
Qed.

(** ** Composing a block *)

(** [b] is the block of the view the node is given for [cutoff]. *)
Definition composed (e : rt_env) (c : rt_static) (height : Z) (prev : bytes) (cutoff : Z)
  (b : ants_chain_block_t) : Prop :=
  exists ids events fs, env_view e cutoff = inr (ids, events) /\ is_report events cutoff fs /\
    b = proposal height prev (epoch_of c cutoff) cutoff true ids fs.

Lemma propose_keeps_room height prev epoch cutoff degraded ids events fcap buf k :
  view_ok ids events -> is_u64 cutoff -> 0 <= fcap <= zlen buf ->
  match ants_chain_block_propose height prev epoch cutoff degraded (Some ids) (zlen ids) (Some events)
          (zlen events) fcap (buf, k) with
  | Ok o _ | Err o _ => zlen o.1 = zlen buf
  | UB | NoFuel => False
  end.
Proof using Laws.
  intros (Hn & Hx & Ha & He & _) Hc Hf. destruct (scan_outcome events cutoff fcap buf 0 He Hc Hf) as (fs & Hr & Ho).
  unfold ants_chain_block_propose. unfold bind at 1, pure_call.
  rewrite (confirmed_root_total ids tt Hn Hx Ha). unfold bind at 1. cbn [fst].
  destruct (ants_chain_pattern_scan _ _ _ _ _) as [[buf' n] []|[buf' n] e| |]; try done.
  - destruct Ho as (Hle & -> & ->). unfold bind, get. cbn [snd fst].
    assert (zlen (fs ++ drop (length fs) buf) = zlen buf)
      by (rewrite zlen_app; unfold zlen in *; rewrite length_drop; lia).
    by destruct (ANTS_CHAIN_MAX_PATTERN_FINDINGS <? zlen fs).
  - by destruct Ho as (_ & _ & _ & ?).
Qed.

Lemma epoch_range c cutoff : is_u64 (epoch_of c cutoff).
Proof using Type.
  unfold epoch_of. pose proof (u64_range (cutoff - genesis_time c)) as [H1 H2]. split; [by apply Z.div_pos|].
  change ANTS_CHAIN_RT_EPOCH_DURATION_S with 86400. divlia.
Qed.

Lemma block_encode_size b cap buf :
  match ants_chain_block_encode b cap buf with
  | Ok buf' _ | Err buf' _ => zlen buf' = zlen buf
  | UB | NoFuel => True
  end.
Proof using Type.
  unfold ants_chain_block_encode. destruct (ants_chain_epoch_summary_encode _ _ _) as [sbuf slen|? ?| |]; try done.
  apply sized_with_encoder. unfold block_body, enc_kv_uint, enc_kv_bytes. sized.
Qed.

Lemma compose_spec e c height prev cutoff fs p :
  view_fn c = true -> env_ok e -> is_u64 height -> hash_ok prev -> is_u64 cutoff ->
  ANTS_CHAIN_MAX_PATTERN_FINDINGS <= zlen fs -> zlen (p_bytes p) = ANTS_CHAIN_BLOCK_ENCODED_MAX ->
  match compose e c height prev cutoff (fs, p) with
  | Ok o _ => zlen o.1 = zlen fs /\ exists b, holds_block o.2 b /\ composed e c height prev cutoff b /\
      p_height o.2 = height /\ p_prev o.2 = prev /\ p_cutoff o.2 = cutoff /\
      slot_ok (mark_used o.2)
  | Err o _ => zlen o.1 = zlen fs
  | UB | NoFuel => False
  end.
Proof using Laws.
  intros Hv He Hh Hp Hc Hfs Hb. unfold compose. rewrite Hv. cbn [negb].
  destruct (env_view e cutoff) as [err|[ids events]] eqn:Ev; [done|]. pose proof (eo_view e He _ _ _ Ev) as Hview.
  assert (Hcap : 0 <= ANTS_CHAIN_MAX_PATTERN_FINDINGS <= zlen fs) by (split; [by vm_compute|done]).
  destruct (block_propose_spec height prev (epoch_of c cutoff) cutoff true ids events ANTS_CHAIN_MAX_PATTERN_FINDINGS
    fs 0 Hview Hc Hcap) as (fds & Hr & Hb2).
  pose proof (propose_keeps_room height prev (epoch_of c cutoff) cutoff true ids events ANTS_CHAIN_MAX_PATTERN_FINDINGS
    fs 0 Hview Hc Hcap) as Hroom. cbn [fst snd].
  destruct (ants_chain_block_propose _ _ _ _ _ _ _ _ _ _ _) as [[buf n] b|[buf n] err| |]; try done.
  cbn [fst] in Hroom. destruct Hb2 as (-> & _ & Hn & ->). set (b := proposal _ _ _ _ _ _ _).
  assert (Hok : block_ok b) by (eapply proposal_ok; try done; apply epoch_range).
  pose proof (block_bounded b Hok) as Hbd.
  destruct (block_encodes b ANTS_CHAIN_BLOCK_ENCODED_MAX (p_bytes p) Hok) as (bs & Henc & Htake);
    [rewrite Hb; lia|rewrite Hb; by vm_compute|].
  pose proof (block_encode_size b ANTS_CHAIN_BLOCK_ENCODED_MAX (p_bytes p)) as Hlen. rewrite Henc in Hlen.
  rewrite Henc, (block_hash_eq b Hok). cbn [fst snd]. split; [done|]. exists b.
  assert (Hhb : forall u, holds_block (mk_prop u true height cutoff (s_epoch (b_summary b)) prev
    (digest (encode (block_doc b))) (zlen (encode (block_doc b))) bs) b).
  { intros u. constructor; try done. cbn. by rewrite zlen_to_nat. }
  split; [apply Hhb|]. split; [by exists ids, events, fds|]. split; [done|]. split; [done|]. split; [done|].
  pose proof (zlen_nonneg (encode (block_doc b))).
  unfold slot_ok, mark_used. cbn [p_bytes p_len p_hash p_used p_degraded p_height p_cutoff p_epoch p_prev].
  split; [congruence|]. split; [lia|]. split; [apply digest_size|]. intros _. exists b. apply Hhb.
Qed.

(** ** Slots *)

Lemma with_props_id s : with_props (props s) s = s.
Proof using Type. by destruct s. Qed.

Lemma prop_find_spec s hash : rt_ok s -> zlen hash = 32 ->
  match prop_find s hash with
  | Some i => exists p, props s !! i = Some p /\ p_used p = true /\ p_hash p = hash
  | None => True
  end.
Proof using Type.
  intros [] Hh. unfold prop_find.
  enough (H : forall i, match find_from i (props s) hash with
    | Some j => (i <= j)%nat /\ exists p, props s !! (j - i)%nat = Some p /\ p_used p = true /\ p_hash p = hash
    | None => True end).
  { specialize (H 0%nat). destruct (find_from 0 (props s) hash); [|done]. rewrite Nat.sub_0_r in H. apply H. }
  clear ok_slots0. induction ok_props0 as [|p ps (_ & _ & Hp & _) _ IH]; intros i; cbn [find_from]; [done|].
  rewrite memcmp_eq by lia. destruct (p_used p && _) eqn:E.
  - apply andb_true_iff in E as [Hu Eh%bool_decide_eq_true]. split; [done|]. exists p. by rewrite Nat.sub_diag.
  - specialize (IH (S i)). destruct (find_from (S i) ps hash) as [j|]; [|done]. destruct IH as (Hj & q & Hq & ?).
    split; [lia|]. exists q. by replace (j - i)%nat with (S (j - S i)) by lia.
Qed.

Lemma alloc_scan_spec cur ps : forall i victim,
  (forall v h, victim = Some (v, h) -> (v < i)%nat) ->
  match alloc_scan i ps cur victim with
  | inl j => (i <= j)%nat /\ exists p, ps !! (j - i)%nat = Some p /\ p_used p = false
  | inr (Some (v, _)) => (v < i + length ps)%nat
  | inr None => True
  end.
Proof using Type.
  induction ps as [|p ps IH]; intros i victim Hv; cbn [alloc_scan].
  { destruct victim as [[v h]|]; [|done]. specialize (Hv v h eq_refl). lia. }
  destruct (p_used p) eqn:Eu; cbn [negb].
  2: { split; [done|]. exists p. by rewrite Nat.sub_diag. }
  assert (Hrec : forall victim', (forall v h, victim' = Some (v, h) -> (v < S i)%nat) ->
    match alloc_scan (S i) ps cur victim' with
    | inl j => (i <= j)%nat /\ exists q, (p :: ps) !! (j - i)%nat = Some q /\ p_used q = false
    | inr (Some (v, _)) => (v < i + length (p :: ps))%nat
    | inr None => True
    end).
  { intros victim' Hv'. specialize (IH (S i) victim' Hv'). destruct (alloc_scan (S i) ps cur victim') as [j|[[v ?]|]].
    - destruct IH as (Hj & q & Hq & Hu). split; [lia|]. exists q. by replace (j - i)%nat with (S (j - S i)) by lia.
    - cbn [length]. lia.
    - done. }
  destruct (Z.of_nat i =? cur); [apply Hrec; intros v h E; specialize (Hv v h E); lia|].
  destruct victim as [[v vh]|]; apply Hrec; intros w h E.
  - specialize (Hv v vh eq_refl). destruct (p_height p <? vh); simplify_eq; lia.
  - simplify_eq. lia.
Qed.

(** A slot for a proposal: the others keep their contents. *)
Definition allotted (ps ps' : list rt_proposal) (r : option nat) : Prop :=
  length ps' = length ps /\ Forall slot_ok ps' /\
  (forall p, p ∈ ps' -> p_used p = true -> p ∈ ps) /\
  forall i, r = Some i -> exists p, ps' !! i = Some p /\ p_used p = false.

Lemma prop_alloc_spec s log : rt_ok s ->
  exists r ps, prop_alloc (s, log) = Ok (with_props ps s, log) r /\ allotted (props s) ps r.
Proof using Type.
  intros []. unfold prop_alloc, get_rt, bind. cbn [fst].
  pose proof (alloc_scan_spec (cur (attempt s)) (props s) 0 None ltac:(done)) as H.
  destruct (alloc_scan 0 (props s) _ None) as [j|[[v h]|]].
  - exists (Some j), (props s). rewrite with_props_id. split; [done|]. split; [done|]. split; [done|]. split; [done|].
    intros i [= <-]. destruct H as (_ & p & Hp & Hu). exists p. by rewrite Nat.sub_0_r in Hp.
  - rewrite set_at_slot by lia. eexists (Some v), _. split; [done|]. split; [by rewrite length_insert|].
    split; [by apply Forall_insert, zero_slot_ok|]. split.
    + intros p [i Hi]%list_elem_of_lookup_1 Hu. apply list_lookup_insert_Some in Hi as [(<- & <- & _)|(_ & Hi)]; [done|].
      by eapply list_elem_of_lookup_2.
    + intros i [= <-]. exists zero_proposal. split; [|done]. apply list_lookup_insert_eq. lia.
  - exists None, (props s). rewrite with_props_id. split; [done|]. by split_and!.
Qed.

(** ** Filing an attestation *)

Lemma file_scan_spec sl : forall i at_,
  (forall j n, at_ = Some (j, n) -> (j < i)%nat) -> (sl <> [] \/ is_Some at_) ->
  exists j, file_scan i sl at_ = Some j /\ (j < i + length sl)%nat.
Proof using Type.
  induction sl as [|x sl IH]; intros i at_ Ha Hne; cbn [file_scan length].
  { destruct Hne as [?|[[j n] ->]]; [done|]. exists j. specialize (Ha j n eq_refl). split; [done|lia]. }
  destruct (sl_used x); cbn [negb]; [|exists i; split; [done|lia]].
  assert (Hrec : forall at', (forall j n, at' = Some (j, n) -> (j < S i)%nat) -> is_Some at' ->
    exists j, file_scan (S i) sl at' = Some j /\ (j < i + S (length sl))%nat).
  { intros at' H1 H2. destruct (IH (S i) at' H1 (or_intror H2)) as (j & ? & ?). exists j. split; [done|lia]. }
  destruct at_ as [[j n]|]; apply Hrec; try (by eauto).
  - intros k m E. specialize (Ha j n eq_refl). destruct (sl_seq x <? n); simplify_eq; lia.
  - destruct (sl_seq x <? n); eauto.
  - intros k m [= <- <-]. lia.
Qed.

Definition new_att_ok (c : rt_static) (a : ants_chain_attestation_t) : Prop :=
  zlen (a_block_hash a) = 32 /\ zlen (a_signer a) = 32 /\ zlen (a_sig a) = 64 /\ a_signer a ∈ trustees c.

Lemma distinct_insert sl j x :
  distinct_atts sl -> (forall y, y ∈ sl -> sl_used y = true -> a_block_hash (sl_att y) = a_block_hash (sl_att x) ->
    a_signer (sl_att y) <> a_signer (sl_att x)) -> distinct_atts (<[j := x]> sl).
Proof using Type.
  intros Hd Hx i k y z Hy Hz Uy Uz Eh Es.
  apply list_lookup_insert_Some in Hy as [(<- & <- & _)|(Hy1 & Hy)];
    apply list_lookup_insert_Some in Hz as [(<- & <- & _)|(Hz1 & Hz)]; try done.
  - exfalso. eapply (Hx z); try done. by eapply list_elem_of_lookup_2.
  - exfalso. eapply (Hx y); try done. by eapply list_elem_of_lookup_2.
  - by eapply Hd.
Qed.

Lemma att_file_spec s log a : rt_ok s -> new_att_ok (static s) a ->
  exists sl n new, att_file a (s, log) = Ok (with_atts sl n s, log) new /\ atts_ok (static s) sl /\ distinct_atts sl.
Proof using Type.
  intros [] (H1 & H2 & H3 & H4). unfold att_file, get_rt, bind. cbn [fst].
  pose proof (att_find_spec (static s) (atts s) (a_block_hash a) (a_signer a) (proj2 ok_atts0) H1 H2 0) as Hf.
  unfold att_find. destruct (att_find_from 0 (atts s) _ _) as [i|].
  { exists (atts s), (next_att_seq s), false. split; [by destruct s|done]. }
  destruct (file_scan_spec (atts s) 0 None) as (j & -> & Hj); [done| |].
  { left. destruct ok_atts0 as [Hl _]. by destruct (atts s). }
  unfold deref. rewrite set_at_slot by lia. eexists _, _, true. split; [done|]. split; [split|].
  - rewrite length_insert. apply ok_atts0.
  - apply Forall_insert; [apply ok_atts0|]. by split_and!.
  - by apply distinct_insert.
Qed.

(** ** Starting an attempt *)

Definition purged (height : Z) (s : rt_state) : rt_state :=
  with_props (map (purge_prop height) (props s)) (with_atts (map (purge_att height) (atts s)) (next_att_seq s) s).

Lemma purge_used height ps p : p ∈ map (purge_prop height) ps -> p_used p = true -> p ∈ ps /\ height < p_height p.
Proof using Type.
  intros (q & -> & Hq)%list_elem_of_fmap. unfold purge_prop. destruct (p_used q && _) eqn:E; [done|].
  intros Hu. rewrite Hu in E. apply Z.leb_gt in E. done.
Qed.

Lemma purge_distinct height sl : distinct_atts sl -> distinct_atts (map (purge_att height) sl).
Proof using Type.
  intros Hd i j x y Hx Hy. apply list_lookup_fmap_Some in Hx as (x' & -> & Hx), Hy as (y' & -> & Hy).
  unfold purge_att. destruct (sl_used x' && _), (sl_used y' && _); try done. by apply (Hd i j x' y').
Qed.

Lemma purged_ok height s : rt_ok s -> rt_ok (purged height s).
Proof using Type.
  intros []. constructor; try done; cbn.
  - by rewrite length_map.
  - apply Forall_map. eapply Forall_impl; [exact ok_props0|]. intros p Hp. unfold purge_prop.
    destruct (p_used p && _); [apply zero_slot_ok|done].
  - destruct ok_atts0 as [Hl Ha]. split; [by rewrite length_map|]. apply Forall_map.
    eapply Forall_impl; [exact Ha|]. intros x (?&?&?&?). unfold purge_att. destruct (sl_used x && _); by split_and!.
  - by apply purge_distinct.
Qed.
End invariant.
