(* ===== verification/RuntimeSteps.v ===== *)
(** * Attempts, signing and adoption (chain_runtime.c)

    What [start_attempt], [sign_and_emit] and [try_finalize] do to a state
    that satisfies the invariant. *)

From stdpp Require Import strings.
From S2P Require Import Prelude Cbor CborKv CborSpec CborEnc CborContract Crypto Crdt Merkle BondCodec Chain ChainCodec ChainBlock ChainHonest ChainRuntime RuntimeFinal RuntimeInv.
Import Chain Runtime.

#[local] Arguments zlen {A} l : simpl never.

Lemma index_from_member ts id : Forall (fun t => zlen t = 32) ts -> zlen id = 32 -> forall i,
  is_Some (index_from i ts id) <-> id ∈ ts.
Proof.
  intros Hts Hid. induction Hts as [|t ts Ht _ IH]; intros i; cbn [index_from].
  { split; [by intros [? ?]|by intros ?%elem_of_nil]. }
  rewrite memcmp_eq, elem_of_cons by lia. destruct (bool_decide_reflect (t = id)) as [->|Hne].
  - split; [by left|eauto].
  - rewrite IH. naive_solver.
Qed.

Lemma proposer_of height k : 0 < k <= ANTS_CHAIN_COMMITTEE_K_MAX -> ants_chain_proposer height k tt = Ok tt (height mod k).
Proof. intros Hk. unfold ants_chain_proposer. change ANTS_CHAIN_COMMITTEE_K_MAX with 64 in *. by repeat bdecide. Qed.

Section steps.
Context `{B : Blake3} {Laws : Blake3Laws B} `{Ed : Ed25519}.
Context (draws : nat).

(** ** A new attempt *)

Lemma enroll_spec height s log :
  rt_ok s -> 0 < at_k (attempt s) <= ANTS_CHAIN_COMMITTEE_K_MAX -> member (attempt s) = false ->
  exists a, enroll height (s, log) = Ok (with_attempt a s, log) tt /\ attempt_ok (static s) a /\
    at_h a = at_h (attempt s) /\ attempt_start a = attempt_start (attempt s) /\ cur a = cur (attempt s) /\
    at_k a = at_k (attempt s) /\ proposer_pos a = height mod at_k (attempt s).
Proof using Type.
  intros [ok_static0 ok_head0 ok_attempt0 ok_slots0 ok_props0 ok_atts0 ok_distinct0 ok_findings0] Hk Hm. destruct ok_attempt0 as (Hh & Hc & _ & Hcur). unfold enroll, get_rt, bind at 1. cbn [fst].
  change ANTS_CHAIN_COMMITTEE_K_MAX with 64 in Hk. rewrite first_n_prefix by lia. unfold deref, bind, update. cbn [fst snd].
  rewrite proposer_of by done. eexists. split; [done|]. split; [|done]. split; [done|]. split; [done|]. split; [|done]. cbn [member].
  destruct (is_trustee (static s)); [done|]. intros H%bool_decide_eq_true. by destruct H.
Qed.

Lemma start_attempt_spec height now s log :
  rt_ok s -> is_u64 height ->
  match start_attempt draws height now (s, log) with
  | Ok w _ => exists a, w = (purged (hd_height (head s)) (with_attempt a s), log) /\ attempt_ok (static s) a /\
      at_h a = height /\ attempt_start a = now /\ cur a = -1 /\
      at_k a = committee_size (static s) /\ proposer_pos a = height mod committee_size (static s)
  | NoFuel => starved draws (static s) (hd_hash (head s)) height
  | _ => False
  end.
Proof using Laws.
  intros Hok Hh. pose proof Hok as [ok_static0 ok_head0 ok_attempt0 ok_slots0 ok_props0 ok_atts0 ok_distinct0 ok_findings0]. destruct ok_attempt0 as (_ & Hc & _ & Hcur).
  unfold start_attempt. unfold update at 1, bind at 1. unfold get_rt, bind at 1. cbn [fst snd].
  cbn [static head attempt with_attempt committee at_k at_h attempt_start member my_pos proposer_pos cur last_emit].
  pose proof (committee_for_spec draws (static s) (hd_hash (head s)) height (committee (attempt s)) 0 ok_static0
    ltac:(apply ok_head0) Hc) as H.
  destruct (committee_for draws _ _ _ _) as [[buf k] []|[buf k] err| |]; try done.
  cbn [fst snd] in *. destruct H as (-> & Hb & _). pose proof (committee_size_range _ ok_static0) as Hk.
  unfold update at 1, bind at 1. cbn [fst snd]. rewrite (proj2 (Z.eqb_neq _ _)) by lia.
  set (a0 := mk_attempt height now (committee_size (static s)) buf false (my_pos (attempt s)) (proposer_pos (attempt s)) (-1) 0).
  assert (H0 : rt_ok (with_attempt a0 s)) by (constructor; try done; repeat split; try done; apply Hh).
  destruct (enroll_spec height (with_attempt a0 s) log H0 Hk eq_refl) as (a & He & Ha & E1 & E2 & E3 & E4 & E5).
  change (with_attempt _ _) with (with_attempt a0 s) at 1. rewrite (bind_Ok _ _ _ _ _ He).
  unfold purge_below_head, update. cbn [fst snd]. exists a. split; [|done]. by destruct s.
Qed.

(** ** Signing *)

Definition is_signed (ev : rt_event) : Prop := match ev with Signed _ _ _ => True | _ => False end.

(** What signing leaves: the guard raised, the own attestation filed, and the
    outputs after the signature. *)
Definition signed_state (i : nat) (now height : Z) (sl : list att_slot) (n : Z) (s : rt_state) : rt_state :=
  with_attempt (with_cur (Z.of_nat i) now (attempt s)) (with_last_signed height (with_atts sl n s)).

Lemma emit_if_spec set ev s log :
  exists outs, emit_if set ev (s, log) = Ok (s, log ++ outs) tt /\ Forall (fun o => o = ev) outs.
Proof using Type.
  destruct set; [by exists [ev]; repeat constructor|]. exists []. split; [|constructor]. cbn. by rewrite app_nil_r.
Qed.

Lemma sign_and_emit_spec e i emit_proposal now s log p b :
  rt_ok s -> env_ok e -> is_trustee (static s) = true ->
  props s !! i = Some p -> p_used p = true -> holds_block p b ->
  exists w, sign_and_emit e i emit_proposal now (s, log) = Ok w tt /\
    (w = (s, log) \/
     exists sig sl n outs, w = (signed_state i now (b_height b) sl n s,
                                 log ++ Signed (encode (block_doc b)) (digest (encode (block_doc b))) sig :: outs) /\
       atts_ok (static s) sl /\ distinct_atts sl /\ Forall (fun o => ~ is_signed o) outs).
Proof using Laws.
  intros Hok He Ht Hp Hu Hb. pose proof Hok as [ok_static0 ok_head0 ok_attempt0 ok_slots0 ok_props0 ok_atts0 ok_distinct0 ok_findings0]. destruct (so_callbacks _ ok_static0 Ht) as (Hself & Hsf & _).
  assert (Hslot : slot_ok p) by (by eapply Forall_lookup_1).
  unfold sign_and_emit, get_rt. unfold bind at 1. cbn [fst]. rewrite Hp. unfold deref at 1, bind at 1.
  rewrite Hsf. cbn [negb]. pose proof Hb as [hb_ok0 hb_seed0 hb_degraded0 hb_height0 hb_cutoff0 hb_epoch0 hb_prev0 hb_hash0 hb_bytes0]. rewrite hb_hash0, hb_bytes0, hb_height0.
  destruct (env_sign e _) as [err|sig] eqn:Es; [exists (s, log); split; [done|by left]|].
  set (h := digest _) in *. set (a := mk_att _ _ _ _).
  unfold emit at 1, bind at 1. unfold update at 1, bind at 1. cbn [fst snd].
  set (s1 := with_attempt _ _).
  assert (Hok1 : rt_ok s1).
  { constructor; try done. destruct ok_attempt0 as (? & ? & ? & ?). split; [done|]. split; [done|]. split; [done|].
    apply lookup_lt_Some in Hp. cbn. lia. }
  assert (Hnew : new_att_ok (static s1) a).
  { split_and!; cbn; [apply digest_size|apply ok_static0|by eapply eo_sign|done]. }
  destruct (att_file_spec s1 (log ++ [Signed (encode (block_doc b)) h sig]) a Hok1 Hnew) as (sl & n & new & Hf & Hsl & Hd).
  unfold bind at 1. unfold bind at 1. rewrite Hf. cbn [ret].
  destruct (emit_if_spec (attestation_fn (static s)) (OutAttestation a) (with_atts sl n s1)
    (log ++ [Signed (encode (block_doc b)) h sig])) as (o1 & E1 & F1).
  unfold ret. rewrite (bind_Ok _ _ _ _ _ E1).
  assert (E2 : exists o2, (if emit_proposal
     then let* bs := deref (slice (p_bytes p) 0 (p_len p)) in emit_if (proposal_fn (static s)) (OutProposal bs)
     else ret tt) (with_atts sl n s1, (log ++ [Signed (encode (block_doc b)) h sig]) ++ o1) =
     Ok (with_atts sl n s1, ((log ++ [Signed (encode (block_doc b)) h sig]) ++ o1) ++ o2) tt /\
     Forall (fun o => ~ is_signed o) o2).
  { destruct emit_proposal; [|exists []; split; [rewrite app_nil_r; reflexivity|constructor]].
    destruct Hslot as (Hl & Hlen & _). rewrite slice_prefix by lia. unfold deref, bind.
    destruct (emit_if_spec (proposal_fn (static s)) (OutProposal (take (Z.to_nat (p_len p)) (p_bytes p)))
      (with_atts sl n s1) ((log ++ [Signed (encode (block_doc b)) h sig]) ++ o1)) as (o2 & E2 & F2).
    exists o2. split; [done|]. eapply Forall_impl; [exact F2|]. by intros ? -> []. }
  destruct E2 as (o2 & E2 & F2). rewrite (bind_Ok _ _ _ _ _ E2). unfold update. cbn [fst snd].
  eexists. split; [done|]. right. exists sig, sl, n, (o1 ++ o2). split; [|split; [done|split; [done|]]].
  - f_equal. by rewrite <- !app_assoc.
  - apply Forall_app. split; [|done]. eapply Forall_impl; [exact F1|]. by intros ? -> [].
Qed.

(** ** Adoption *)

Definition final (s : rt_state) (p : rt_proposal) : Prop :=
  exists com, committee_of draws (static s) (p_prev p) (p_height p) = Some com /\
    quorum s (p_hash p) (keys (static s) com).

(** The certificate of a head: a block whose hash two thirds of its own
    committee have signed. *)
Record certified (c : rt_static) (hd : ants_chain_head_t) (b : ants_chain_block_t) : Prop := {
  ce_ok : block_ok b;
  ce_head : hd = mk_head (b_height b) (digest (encode (block_doc b))) (s_cutoff_time (b_summary b))
                   (s_epoch (b_summary b)) true;
  ce_quorum : exists com sigs mask, committee_of draws c (b_prev_block_hash b) (b_height b) = Some com /\
    zlen mask = committee_size c /\
    ants_chain_finality_verify (hd_hash hd) (keys c com) (committee_size c) (Some sigs) (zlen sigs) mask tt = Ok tt true
}.

Definition head_of (p : rt_proposal) : ants_chain_head_t :=
  mk_head (p_height p) (p_hash p) (p_cutoff p) (p_epoch p) (p_degraded p).

(** A proposal above the head, provably final. *)
Definition adoptable (s : rt_state) (p : rt_proposal) : Prop :=
  p ∈ props s /\ p_used p = true /\ hd_height (head s) < p_height p /\
  exists b, certified (static s) (head_of p) b.

(** Some committee the runtime needs was not drawn within [draws] words. *)
Definition starving (c : rt_static) : Prop := exists prev height, zlen prev = 32 /\ starved draws c prev height.

(** [best] is at least as high as every final proposal of [ps] above the head. *)
Definition tops (s : rt_state) (ps : list rt_proposal) (best : option rt_proposal) : Prop :=
  forall q, q ∈ ps -> p_used q = true -> hd_height (head s) < p_height q -> final s q ->
    exists p, best = Some p /\ p_height q <= p_height p.

Lemma best_final_spec s : rt_ok s -> forall ps best,
  (forall p, p ∈ ps -> p ∈ props s) -> (forall p, best = Some p -> adoptable s p) ->
  match best_final draws s ps best tt with
  | Ok _ r => (forall p, r = Some p -> adoptable s p) /\ tops s ps r /\
      (forall p, best = Some p -> exists q, r = Some q /\ p_height p <= p_height q)
  | NoFuel => starving (static s)
  | _ => False
  end.
Proof using Laws.
  intros Hok. induction ps as [|p ps IH]; intros best Hps Hbest; cbn [best_final].
  { unfold ret. split; [done|]. split; [intros q Hq; by apply elem_of_nil in Hq|]. intros p ->. by exists p. }
  assert (Hps' : forall q, q ∈ ps -> q ∈ props s) by (intros q Hq; apply Hps; by right).
  assert (Hin : p ∈ props s) by (apply Hps; by left).
  assert (Hskip : (p_used p = true -> hd_height (head s) < p_height p -> final s p ->
      exists b, best = Some b /\ p_height p <= p_height b) ->
    match best_final draws s ps best tt with
    | Ok _ r => (forall p, r = Some p -> adoptable s p) /\ tops s (p :: ps) r /\
        (forall p, best = Some p -> exists q, r = Some q /\ p_height p <= p_height q)
    | NoFuel => starving (static s)
    | _ => False
    end).
  { intros Hp. specialize (IH best Hps' Hbest). destruct (best_final draws s ps best tt) as [[] r|? ?| |]; try done.
    destruct IH as (Ha & Ht & Hm). split; [done|]. split; [|done]. intros q [->|Hq]%elem_of_cons Hu Hh Hf; [|by apply Ht].
    destruct (Hp Hu Hh Hf) as (b & Eb & Hle). destruct (Hm b Eb) as (r' & -> & ?). exists r'. split; [done|lia]. }
  destruct (negb (p_used p) || _) eqn:E1.
  { apply Hskip. intros Hu Hh _. exfalso. rewrite Hu in E1. cbn [negb orb] in E1. apply Z.leb_le in E1. lia. }
  apply orb_false_iff in E1 as [Hu%negb_false_iff Hh%Z.leb_gt].
  destruct (match best with None => true | Some b => p_height b <? p_height p end) eqn:E2.
  2: { apply Hskip. intros _ _ _. destruct best as [b|]; [|done]. apply Z.ltb_ge in E2. by exists b. }
  pose proof Hok as [ok_static0 ok_head0 ok_attempt0 ok_slots0 ok_props0 ok_atts0 ok_distinct0 ok_findings0]. assert (Hslot : slot_ok p) by (rewrite Forall_forall in ok_props0; by apply ok_props0).
  destruct Hslot as (_ & _ & _ & Hb). destruct (Hb Hu) as (b & Hblk).
  pose proof (is_final_spec draws s p ok_static0 ok_atts0 (holds_judged p b Hblk)) as Hf.
  unfold bind at 1. destruct (is_final draws s p tt) as [[] fin|? ?| |]; try done.
  2: { eexists _, _. split; [|exact Hf]. by destruct (holds_judged p b Hblk) as (_ & ? & _). }
  destruct Hf as (com & Hcom & Hfin & Hcert). destruct fin.
  - assert (Hadopt : adoptable s p).
    { split; [done|]. split; [done|]. split; [done|]. exists b. destruct (Hcert eq_refl) as (sigs & mask & Hm & Hv).
      destruct Hblk as [hb_ok0 hb_seed0 hb_degraded0 hb_height0 hb_cutoff0 hb_epoch0 hb_prev0 hb_hash0 hb_bytes0]. unfold head_of. rewrite hb_height0, hb_hash0, hb_cutoff0, hb_epoch0, hb_degraded0 in *.
      constructor; [done|done|]. exists com, sigs, mask. by rewrite <- hb_prev0. }
    specialize (IH (Some p) Hps' ltac:(by intros ? [= <-])).
    destruct (best_final draws s ps (Some p) tt) as [[] r|? ?| |]; try done.
    destruct IH as (Ha & Ht & Hm). destruct (Hm p eq_refl) as (r' & -> & Hle). split; [done|]. split.
    + intros q [->|Hq]%elem_of_cons Hqu Hqh Hqf; [by exists r'|by apply Ht].
    + intros b' ->. exists r'. split; [done|]. apply Z.ltb_lt in E2. lia.
  - apply Hskip. intros _ _ (com' & Hcom' & Hq). rewrite Hcom in Hcom'. injection Hcom' as <-.
    symmetry in Hfin. by apply bool_decide_eq_false in Hfin.
Qed.

(** The head a round of [try_finalize] adopts, if any. *)
Lemma try_finalize_spec now s log :
  rt_ok s ->
  match try_finalize draws now (s, log) with
  | Ok w _ => (w = (s, log) /\ tops s (props s) None) \/
      exists p a outs, adoptable s p /\ tops s (props s) (Some p) /\ attempt_ok (static s) a /\
        w = (purged (p_height p) (with_attempt a (with_head (head_of p) s)), log ++ outs) /\
        Forall (fun o => ~ is_signed o) outs
  | NoFuel => starving (static s)
  | _ => False
  end.
Proof using Laws.
  intros Hok. unfold try_finalize, get_rt. unfold bind at 1, bind at 1, pure_call. cbn [fst].
  pose proof (best_final_spec s Hok (props s) None ltac:(done) ltac:(done)) as H.
  destruct (best_final draws s (props s) None tt) as [[] [p|]|? ?| |]; try done.
  2: { left. split; [done|]. apply H. }
  destruct H as (Ha & Ht & _). specialize (Ha p eq_refl). unfold update at 1, bind at 1. cbn [fst snd].
  change (mk_head _ _ _ _ _) with (head_of p). pose proof Ha as (_ & _ & Hh & b & [Hb Ehd _]).
  assert (Hhd : head_ok (head_of p)).
  { rewrite Ehd. destruct Hb as (? & _ & (_ & ? & _) & _). split_and!; try done. apply digest_hash_ok. }
  assert (Hok' : rt_ok (with_head (head_of p) s)) by (destruct Hok; by constructor).
  pose proof (start_attempt_spec (u64 (hd_height (head_of p) + 1)) now _ log Hok' (u64_range _)) as Hs.
  unfold bind at 1. destruct (start_attempt draws _ now _) as [w []|? ?| |]; try done.
  2: { eexists _, _. split; [|exact Hs]. apply Hhd. }
  destruct Hs as (a & -> & Hatt & _).
  destruct (emit_if_spec (final_fn (static s)) (OutFinal (head_of p))
    (purged (hd_height (head (with_head (head_of p) s))) (with_attempt a (with_head (head_of p) s))) log) as (outs & -> & Ho).
  right. exists p, a, outs. split; [done|]. split; [done|]. split; [done|]. split; [done|].
  eapply Forall_impl; [exact Ho|]. by intros ? -> [].
Qed.
End steps.
