(* ===== verification/RuntimeReach.v ===== *)
(** * Reachable states of the runtime (chain_runtime.c)

    The handlers as a step relation over arbitrary clocks, messages and
    callback answers, and the invariant of every reachable state: the slots
    are well formed, the head is genesis or carries a certificate, signed
    heights increase, and no block on file that could be final is left
    above the head. *)

From stdpp Require Import strings sorting.
From S2P Require Import Prelude Cbor CborKv CborSpec CborEnc CborContract Crypto Crdt Merkle BondCodec Chain.
From S2P Require Import ChainCodec ChainBlock ChainHonest ChainRuntime RuntimeFinal RuntimeInv RuntimeSteps.
Import Chain Runtime.

#[local] Arguments zlen {A} l : simpl never.

Lemma filter_mono {A} (P Q : A -> Prop) `{!forall x, Decision (P x), !forall x, Decision (Q x)} l :
  (forall x, x ∈ l -> P x -> Q x) -> zlen (filter P l) <= zlen (filter Q l).
Proof.
  induction l as [|x l IH]; intros Hi; [done|]. rewrite !filter_cons.
  assert (IH' : zlen (filter P l) <= zlen (filter Q l)) by (apply IH; intros y Hy; apply Hi; by right).
  destruct (decide (P x)) as [HP|]; [rewrite decide_True by (apply Hi; [by left|done])|destruct (decide (Q x))];
    rewrite ?zlen_cons; lia.
Qed.

Section reach.
Context `{B : Blake3} {Laws : Blake3Laws B} `{Ed : Ed25519}.
Context (draws : nat).

(** ** Finality only depends on what is on file *)

Lemma ballot_spec s hash pub sig : rt_ok s -> zlen hash = 32 -> zlen pub = 32 ->
  ballot s hash pub = Some sig <->
  exists x, x ∈ atts s /\ sl_used x = true /\ a_block_hash (sl_att x) = hash /\ a_signer (sl_att x) = pub /\
    a_sig (sl_att x) = sig.
Proof using Type.
  intros Hok Hh Hp. pose proof (ok_atts s Hok) as [_ Ha]. pose proof (ok_distinct s Hok) as Hd.
  pose proof (att_find_spec (static s) (atts s) hash pub Ha Hh Hp 0) as Hf. unfold ballot, att_find.
  destruct (att_find_from 0 (atts s) hash pub) as [i|]; cbn [mbind option_bind].
  - destruct Hf as (_ & x & Hx & Hu & Eh & Es). rewrite Nat.sub_0_r in Hx. rewrite Hx. cbn. split.
    + intros [= <-]. exists x. split; [by eapply list_elem_of_lookup_2|done].
    + intros (y & [j Hj]%list_elem_of_lookup_1 & Uy & Ehy & Esy & <-).
      assert (i = j) as <- by (eapply (Hd i j x y); congruence). by simplify_eq.
  - split; [done|]. intros (x & Hx & Hu & Eh & Es & _). exfalso. by eapply (Hf x).
Qed.

Lemma final_mono s s' p : rt_ok s -> rt_ok s' -> judged p -> static s' = static s ->
  (forall x, x ∈ atts s' -> sl_used x = true -> x ∈ atts s) -> final draws s' p -> final draws s p.
Proof using Laws.
  intros Hok Hok' (_ & Hp & Hh) Hst Hatts (com & Hcom & Hq). rewrite Hst in Hcom, Hq. exists com. split; [done|].
  unfold quorum in *.
  pose proof (committee_of_spec draws (static s) _ _ com (ok_static s Hok) Hp Hcom) as (_ & _ & Hr).
  pose proof (keys_sized (static s) com (ok_static s Hok) Hr) as Hk. rewrite Forall_forall in Hk.
  pose proof (filter_mono (approves s' (p_hash p)) (approves s (p_hash p)) (keys (static s) com)) as Hm.
  enough (zlen (filter (approves s' (p_hash p)) (keys (static s) com)) <=
    zlen (filter (approves s (p_hash p)) (keys (static s) com))) by lia. apply Hm.
  intros k Hin (sig & Hb & Hv). exists sig. split; [|done].
  apply ballot_spec in Hb as (x & Hx & Hu & ?); [|done|done|by apply Hk].
  apply ballot_spec; [done|done|by apply Hk|]. exists x. split; [by apply Hatts|done].
Qed.

(** Every final proposal on file is at or below the head. *)
Definition settled (s : rt_state) : Prop :=
  forall p, p ∈ props s -> p_used p = true -> final draws s p -> p_height p <= hd_height (head s).

Lemma used_judged s p : rt_ok s -> p ∈ props s -> p_used p = true -> judged p.
Proof using Laws.
  intros Hok Hp Hu. pose proof (ok_props s Hok) as H. rewrite Forall_forall in H.
  destruct (H p Hp) as (_ & _ & _ & Hb). destruct (Hb Hu) as [b ?]. by eapply holds_judged.
Qed.

Lemma settled_mono s s' : rt_ok s -> rt_ok s' -> settled s -> static s' = static s ->
  hd_height (head s) <= hd_height (head s') ->
  (forall p, p ∈ props s' -> p_used p = true -> p ∈ props s) ->
  (forall x, x ∈ atts s' -> sl_used x = true -> x ∈ atts s) -> settled s'.
Proof using Laws.
  intros Hok Hok' Hs Hst Hh Hp Ha p Hin Hu Hf. pose proof (used_judged s' p Hok' Hin Hu) as Hj.
  specialize (Hs p (Hp p Hin Hu) Hu (final_mono s s' p Hok Hok' Hj Hst Ha Hf)). lia.
Qed.

Lemma purge_att_used h sl x : x ∈ map (purge_att h) sl -> sl_used x = true -> x ∈ sl.
Proof using Type.
  intros (y & -> & Hy)%list_elem_of_fmap. unfold purge_att. by destruct (sl_used y && _).
Qed.

(** ** The invariant of a run *)

Context (g : ants_chain_head_t) (c : rt_static) (E : rt_env -> Prop).

(** The signatures given, oldest first. *)
Definition signed_part (log : list rt_event) : list (bytes * bytes) :=
  omap (fun ev => match ev with Signed x h _ => Some (x, h) | _ => None end) log.

(** The hash of a block that this node composes from its own view. *)
Definition own (h : bytes) : Prop :=
  exists e height prev cutoff b, E e /\ composed e c height prev cutoff b /\ h = digest (encode (block_doc b)).

Definition signs (x : bytes * bytes) (b : ants_chain_block_t) : Prop :=
  block_ok b /\ b_degraded_seed b = true /\ x = (encode (block_doc b), digest (encode (block_doc b))).

(** The signed blocks have strictly increasing heights, none above the guard. *)
Definition signed_inv (log : list rt_event) (guard : Z) : Prop :=
  Forall (fun x => own x.2) (signed_part log) /\
  exists bs, Forall2 signs (signed_part log) bs /\ StronglySorted Z.lt (map b_height bs) /\
    Forall (fun b => b_height b <= guard) bs.

Record inv (w : rt_world) : Prop := {
  iv_ok : rt_ok w.1;
  iv_static : static w.1 = c;
  iv_signed : signed_inv w.2 (last_signed_height w.1);
  iv_head : head w.1 = g \/ exists b, certified draws c (head w.1) b
}.

Definition progress (w w' : rt_world) : Prop :=
  w.2 `prefix_of` w'.2 /\ hd_height (head w.1) <= hd_height (head w'.1) /\
  (hd_height (head w.1) = hd_height (head w'.1) -> head w.1 = head w'.1).

#[export] Instance progress_preorder : PreOrder progress.
Proof using Type.
  split; [by intros w|]. intros w1 w2 w3 (H1 & H2 & H3) (H4 & H5 & H6). split; [by trans (w2.2)|]. split; [lia|].
  intros H. rewrite H3, H6 by lia. done.
Qed.

(** A state that differs in slots and attempt only. *)
Lemma inv_keep s s' log : inv (s, log) -> rt_ok s' -> static s' = static s -> head s' = head s ->
  last_signed_height s' = last_signed_height s -> inv (s', log).
Proof using Type.
  intros [? ? ? ?] Hok Hst Hhd Hl. constructor; cbn [fst snd] in *; rewrite ?Hst, ?Hhd, ?Hl; done.
Qed.

Lemma progress_keep (s s' : rt_state) log : head s' = head s -> progress (s, log) (s', log).
Proof using Type. intros H. split; [done|]. cbn. by rewrite H. Qed.

Lemma signed_part_app l1 l2 : signed_part (l1 ++ l2) = signed_part l1 ++ signed_part l2.
Proof using Type. unfold signed_part. apply omap_app. Qed.

Lemma signed_part_outs outs : Forall (fun o => ~ is_signed o) outs -> signed_part outs = [].
Proof using Type.
  induction 1 as [|o outs Ho _ IH]; [done|]. unfold signed_part in *. cbn [omap list_omap]. rewrite IH.
  by destruct o.
Qed.

Lemma signed_inv_outs log outs guard : Forall (fun o => ~ is_signed o) outs ->
  signed_inv log guard -> signed_inv (log ++ outs) guard.
Proof using Type. intros Ho. unfold signed_inv. by rewrite signed_part_app, (signed_part_outs outs Ho), app_nil_r. Qed.

Lemma signed_inv_sign log guard b sig :
  signed_inv log guard -> guard < b_height b -> block_ok b -> b_degraded_seed b = true ->
  own (digest (encode (block_doc b))) ->
  signed_inv (log ++ [Signed (encode (block_doc b)) (digest (encode (block_doc b))) sig]) (b_height b).
Proof using Type.
  intros (Ho & bs & Hbs & Hs & Hg) Hlt Hb Hd Hown. unfold signed_inv. rewrite signed_part_app. split.
  { apply Forall_app. split; [done|]. by repeat constructor. }
  exists (bs ++ [b]). split; [|split].
  - apply Forall2_app; [done|]. constructor; [done|constructor].
  - rewrite map_app. apply StronglySorted_app_2; [|done|by repeat constructor].
    intros x y (b' & -> & Hb')%list_elem_of_fmap ->%list_elem_of_singleton.
    rewrite Forall_forall in Hg. specialize (Hg b' Hb'). lia.
  - apply Forall_app. split; [|by repeat constructor]. eapply Forall_impl; [exact Hg|]. cbn. lia.
Qed.

(** ** The handlers *)

(** A handler's outcome: the invariant, nothing final left above the head, and
    progress; or a committee that was not drawn in time. *)
Definition lands (w : rt_world) (r : outcome rt_world unit) : Prop :=
  match r with
  | Ok w' _ | Err w' _ => inv w' /\ settled w'.1 /\ progress w w'
  | NoFuel => starving draws c
  | UB => False
  end.

Lemma lands_from w w1 r : progress w w1 -> lands w1 r -> lands w r.
Proof using Type.
  intros Hp. destruct r as [w' []|w' e| |]; try done; intros (? & ? & ?); split_and!; try done; by trans w1.
Qed.

Lemma purged_inv s log a hd :
  inv (s, log) -> attempt_ok (static s) a -> inv (purged hd (with_attempt a s), log).
Proof using Type.
  intros Hi Ha. eapply inv_keep; [exact Hi| |done..]. apply purged_ok. destruct (iv_ok _ Hi). by constructor.
Qed.

Lemma finalize_lands now s log : inv (s, log) -> lands (s, log) (try_finalize draws now (s, log)).
Proof using Laws.
  intros Hi. pose proof (iv_ok _ Hi) as Hok. cbn [fst] in Hok. pose proof (iv_static _ Hi) as Hst. cbn [fst] in Hst.
  pose proof (try_finalize_spec draws now s log Hok) as H. rewrite Hst in H.
  destruct (try_finalize draws now (s, log)) as [w []|? ?| |]; try done.
  destruct H as [[-> Ht]|(p & a & outs & (Hp & Hu & Hlt & b & Hb) & Ht & Ha & -> & Ho)].
  { split; [done|]. split; [|done]. intros p Hp Hu Hf. destruct (Z.le_gt_cases (p_height p) (hd_height (head s))); [done|].
    by destruct (Ht p Hp Hu) as (? & ? & _). }
  rewrite Hst in Hb. rewrite <- Hst in Ha.
  assert (Hok1 : rt_ok (with_head (head_of p) s)).
  { destruct Hok. constructor; try done. destruct Hb as [(? & _ & (_ & ? & _) & _) -> _].
    split_and!; try done. apply digest_hash_ok. }
  assert (Hok2 : rt_ok (purged (p_height p) (with_attempt a (with_head (head_of p) s)))).
  { apply purged_ok. destruct Hok1. by constructor. }
  split; [|split].
  - constructor; cbn [fst snd]; [done|done| |].
    + apply signed_inv_outs; [done|]. apply (iv_signed _ Hi).
    + right. by exists b.
  - intros q Hq Hqu Hf. destruct (purge_used _ _ _ Hq Hqu) as [Hin Hgt]. exfalso.
    assert (Hf' : final draws s q).
    { eapply (final_mono s); [exact Hok|exact Hok2|by eapply used_judged| done| |exact Hf].
      intros x Hx Hxu. exact (purge_att_used _ _ _ Hx Hxu). }
    destruct (Ht q Hin Hqu) as (p' & [= <-] & Hle); [cbn in Hgt; lia|done|]. cbn in Hgt. lia.
  - split; [by eexists|]. cbn. split; [lia|]. intros Heq. lia.
Qed.

(** The two ways to reach [sign_and_emit]. *)
Lemma sign_inv e i emit_proposal now s log p b :
  inv (s, log) -> env_ok e -> is_trustee (static s) = true ->
  props s !! i = Some p -> p_used p = true -> holds_block p b ->
  last_signed_height s < b_height b -> own (digest (encode (block_doc b))) ->
  exists s' log', sign_and_emit e i emit_proposal now (s, log) = Ok (s', log') tt /\ inv (s', log') /\
    head s' = head s /\ log `prefix_of` log'.
Proof using Laws.
  intros Hi He Ht Hp Hu Hb Hlt Hown. pose proof (iv_ok _ Hi) as Hok. cbn [fst] in Hok.
  destruct (sign_and_emit_spec e i emit_proposal now s log p b Hok He Ht Hp Hu Hb) as (w & Hw & Hcase).
  destruct Hcase as [->|(sig & sl & n & outs & -> & Ha & Hd & Ho)].
  { exists s, log. by rewrite Hw. }
  eexists _, _. split; [exact Hw|]. split; [|split; [done|by eexists]].
  destruct Hb. constructor; cbn [fst snd].
  - destruct Hok as [? ? (? & ? & ? & ?) ? ? ? ? ?]. constructor; try done. split; [done|]. split; [done|]. split; [done|].
    apply lookup_lt_Some in Hp. cbn. lia.
  - apply (iv_static _ Hi).
  - change (_ :: outs) with ([Signed (encode (block_doc b)) (digest (encode (block_doc b))) sig] ++ outs).
    rewrite app_assoc. apply signed_inv_outs; [done|]. eapply signed_inv_sign; try done. apply (iv_signed _ Hi).
  - apply (iv_head _ Hi).
Qed.

Lemma skip_lands height now s log : inv (s, log) -> settled s -> is_u64 height ->
  match start_attempt draws height now (s, log) with
  | Ok w _ => inv w /\ settled w.1 /\ head w.1 = head s /\ w.2 = log
  | NoFuel => starving draws c
  | _ => False
  end.
Proof using Laws.
  intros Hi Hs Hh. pose proof (iv_ok _ Hi) as Hok. cbn [fst] in Hok. pose proof (iv_static _ Hi) as Hst. cbn [fst] in Hst.
  pose proof (start_attempt_spec draws height now s log Hok Hh) as H. rewrite Hst in H.
  destruct (start_attempt draws height now (s, log)) as [w []|? ?| |]; try done.
  2: { eexists _, _. split; [|exact H]. apply Hok. }
  destruct H as (a & -> & Ha & _). rewrite <- Hst in Ha. pose proof (purged_inv s log a (hd_height (head s)) Hi Ha) as Hi'.
  split; [done|]. split; [|done].
  eapply (settled_mono s); [exact Hok|apply (iv_ok _ Hi')|done|done|done| |].
  - intros p Hp Hu. by apply purge_used in Hp as [? _].
  - intros x Hx Hxu. exact (purge_att_used _ _ _ Hx Hxu).
Qed.
End reach.
