(* ===== verification/RuntimeHandlers.v ===== *)
(** * The runtime's entry points keep the invariant (chain_runtime.c)

    [ants_chain_rt_tick], [ants_chain_rt_on_proposal],
    [ants_chain_rt_on_attestation] and [ants_chain_rt_init], each on every
    branch. *)

From stdpp Require Import strings.
From S2P Require Import Prelude Cbor CborKv CborSpec CborEnc CborContract CborRecord Crypto Crdt Merkle.
From S2P Require Import BondCodec Chain ChainCodec ChainBlock ChainHonest ChainRuntime RuntimeFinal RuntimeInv.
From S2P Require Import RuntimeSteps RuntimeReach.
Import Chain Runtime.

#[local] Arguments zlen {A} l : simpl never.

Section handlers.
Context `{B : Blake3} {Laws : Blake3Laws B} `{Ed : Ed25519}.
Context (draws : nat) (g : ants_chain_head_t) (c : rt_static) (E : rt_env -> Prop).
Abbreviation inv := (inv draws g c E).
Abbreviation lands := (lands draws g c E).
Abbreviation own := (own c E).
Abbreviation settled := (settled draws).

Lemma ok_with_findings s fs : rt_ok s -> ANTS_CHAIN_MAX_PATTERN_FINDINGS <= zlen fs -> rt_ok (with_findings fs s).
Proof using Type. intros [] H. by constructor. Qed.

Lemma ok_with_props s ps : rt_ok s -> length ps = length (props s) -> Forall slot_ok ps -> rt_ok (with_props ps s).
Proof using Type. intros [] Hl Hp. constructor; try done. cbn. congruence. Qed.

Lemma ok_cur s now : rt_ok s -> rt_ok (with_attempt (with_cur (cur (attempt s)) now (attempt s)) s).
Proof using Type. intros [? ? (? & ? & ? & ?) ? ? ? ? ?]. by constructor. Qed.

(** [set_slot] on a slot inside the array. *)
Lemma set_slot_eq i f s log p : props s !! i = Some p ->
  set_slot i f (s, log) = Ok (with_props (<[i := f p]> (props s)) s, log) tt.
Proof using Type.
  intros Hp. unfold set_slot, get_rt, bind. cbn [fst]. rewrite Hp. unfold deref.
  by rewrite set_at_slot by (by eapply lookup_lt_Some).
Qed.

Lemma lands_same s log : inv (s, log) -> settled s -> lands (s, log) (Ok (s, log) tt).
Proof using Type. intros Hi Hs. split; [done|]. by split. Qed.

(** Slots emptied, and nothing else that matters to finality changed. *)
Lemma lands_shrunk s s' log : inv (s, log) -> settled s -> rt_ok s' -> static s' = static s -> head s' = head s ->
  last_signed_height s' = last_signed_height s -> atts s' = atts s ->
  (forall p, p ∈ props s' -> p_used p = true -> p ∈ props s) ->
  inv (s', log) /\ settled s' /\ progress (s, log) (s', log).
Proof using Laws.
  intros Hi Hs Hok Hst Hhd Hl Ha Hp. split; [by eapply inv_keep|]. split; [|by apply progress_keep].
  eapply (settled_mono draws s); [apply (iv_ok _ _ _ _ _ Hi)|done|done|done|by rewrite Hhd|done|by rewrite Ha].
Qed.

(** ** The tick *)

Lemma compose_slot_spec e i height prev cutoff s log p :
  rt_ok s -> props s !! i = Some p -> view_fn (static s) = true -> env_ok e ->
  is_u64 height -> hash_ok prev -> is_u64 cutoff ->
  exists ok fs p', compose_slot e i height prev cutoff (s, log) =
      Ok (with_props (<[i := p']> (props s)) (with_findings fs s), log) ok /\
    ANTS_CHAIN_MAX_PATTERN_FINDINGS <= zlen fs /\
    (ok = true -> exists b, holds_block p' b /\ composed e (static s) height prev cutoff b /\
       p_height p' = height /\ slot_ok (mark_used p')).
Proof using Laws.
  clear E. intros Hok Hp Hview He Hh Hprev Hc. assert (Hslot : slot_ok p) by (eapply Forall_lookup_1; [apply Hok|done]).
  unfold compose_slot, get_rt. unfold bind at 1. cbn [fst]. rewrite Hp. unfold deref at 1, bind at 1.
  pose proof (compose_spec e (static s) height prev cutoff (findings s) p Hview He Hh Hprev Hc (ok_findings s Hok)
    (proj1 Hslot)) as H. pose proof (ok_findings s Hok) as Hfs.
  assert (Hlen : (i < length (props s))%nat) by (by eapply lookup_lt_Some).
  destruct (compose e (static s) height prev cutoff _) as [o []|o err| |]; try done;
    unfold update, deref, bind; rewrite set_at_slot by done; cbn [fst snd].
  - destruct H as (Hf & b & Hb & Hcomp & Eh & _ & _ & Hsl). eexists true, _, _. split; [done|].
    split; [lia|]. intros _. by exists b.
  - eexists false, _, _. split; [done|]. by split; [lia|].
Qed.

Lemma propose_lands e now s log :
  inv (s, log) -> settled s -> env_ok e -> E e -> is_u64 now -> may_propose s now = true ->
  lands (s, log) (propose draws e now (s, log)).
Proof using Laws.
  intros Hi Hs He HE Hnow Hmay. pose proof (iv_ok _ _ _ _ _ Hi) as Hok. cbn [fst] in Hok.
  pose proof (iv_static _ _ _ _ _ Hi) as Hst. cbn [fst] in Hst.
  unfold may_propose in Hmay. repeat (apply andb_true_iff in Hmay as [Hmay ?]). rename Hmay into Hmem.
  match goal with H : (last_signed_height s <? _) = true |- _ => apply Z.ltb_lt in H; rename H into Hguard end.
  destruct (ok_attempt s Hok) as (Hh & _ & Hmt & _). specialize (Hmt Hmem).
  destruct (so_callbacks _ (ok_static s Hok) Hmt) as (_ & _ & Hview).
  destruct (ok_head s Hok) as (_ & Hprev & _).
  unfold propose. destruct (prop_alloc_spec s log Hok) as (r & ps & Ha & Hl & Hps & Hsub & Hr).
  rewrite (bind_Ok _ _ _ _ _ Ha).
  assert (Hok1 : rt_ok (with_props ps s)) by (by apply ok_with_props).
  destruct r as [i|]; [|by apply lands_shrunk]. destruct (Hr i eq_refl) as (p & Hp & Hfree).
  assert (Hslot : slot_ok p) by (by eapply Forall_lookup_1).
  unfold get_rt, bind at 1. cbn [fst]. cbn [attempt head with_props].
  destruct (compose_slot_spec e i (at_h (attempt s)) (hd_hash (head s)) now (with_props ps s) log p Hok1 Hp Hview He Hh
    Hprev Hnow) as (ok & fs & p' & Hcs & Hfs & Hblk).
  rewrite (bind_Ok _ _ _ _ _ Hcs). cbn [props with_props] in *.
  set (s1 := with_props (<[i := p']> ps) (with_findings fs (with_props ps s))) in *.
  assert (Hlen : (i < length ps)%nat) by (by eapply lookup_lt_Some).
  assert (Hp1 : props s1 !! i = Some p') by (apply list_lookup_insert_eq; lia).
  assert (Hok2 : forall q, slot_ok q -> rt_ok (with_props (<[i := q]> (props s1)) s1)).
  { intros q Hq. apply (ok_with_props (with_findings fs (with_props ps s))); [by apply ok_with_findings| |].
    - cbn. by rewrite !length_insert.
    - cbn. rewrite list_insert_insert_eq. by apply Forall_insert. }
  destruct ok.
  - destruct (Hblk eq_refl) as (b & Hb & Hcomp & Eh & Hsl).
    rewrite (bind_Ok _ _ _ _ _ (set_slot_eq i mark_used s1 log p' Hp1)).
    set (s2 := with_props _ s1). specialize (Hok2 _ Hsl). fold s2 in Hok2.
    assert (Hi2 : inv (s2, log)) by (by eapply inv_keep).
    assert (Hp2 : props s2 !! i = Some (mark_used p')) by (apply list_lookup_insert_eq; cbn; rewrite length_insert; lia).
    assert (Hb2 : holds_block (mark_used p') b) by (destruct Hb; by constructor).
    destruct (sign_inv draws g c E e i true now s2 log (mark_used p') b Hi2 He Hmt Hp2 eq_refl Hb2)
      as (s3 & log3 & Hsg & Hi3 & Hh3 & Hpre).
    { cbn. destruct Hb. lia. }
    { exists e, (at_h (attempt s)), (hd_hash (head s)), now, b. by rewrite <- Hst. }
    rewrite (bind_Ok _ _ _ _ _ Hsg). eapply lands_from; [|apply (finalize_lands draws g c E now s3 log3 Hi3)].
    split; [done|]. cbn. by rewrite Hh3.
  - rewrite (set_slot_eq i (fun _ => zero_proposal) s1 log p' Hp1).
    apply (lands_shrunk s); try done; [apply Hok2, zero_slot_ok|].
    intros q Hq Hu. cbn in Hq. rewrite list_insert_insert_eq in Hq. apply list_elem_of_lookup_1 in Hq as [j Hj].
    apply list_lookup_insert_Some in Hj as [(_ & <- & _)|(_ & Hj)]; [done|]. apply Hsub; [|done].
    by eapply list_elem_of_lookup_2.
Qed.

Lemma rebroadcast_lands now s log : inv (s, log) -> settled s -> 0 <= cur (attempt s) ->
  lands (s, log) (rebroadcast now (s, log)).
Proof using Laws.
  intros Hi Hs Hcur. pose proof (iv_ok _ _ _ _ _ Hi) as Hok. cbn [fst] in Hok.
  destruct (ok_attempt s Hok) as (_ & _ & _ & Hc). pose proof (ok_slots s Hok) as Hl.
  destruct (lookup_lt_is_Some_2 (props s) (Z.to_nat (cur (attempt s)))) as [p Hp]; [lia|].
  assert (Hslot : slot_ok p) by (eapply Forall_lookup_1; [apply (ok_props s Hok)|done]).
  destruct Hslot as (Hb & Hlen & Hz & _).
  unfold rebroadcast, get_rt. unfold bind at 1. cbn [fst]. unfold get_at. rewrite (proj2 (Z.leb_le _ _) Hcur), Hp.
  unfold deref at 1, bind at 1.
  assert (H1 : exists o1, match att_find s (p_hash p) (self (static s)) with
    | Some i => let* x := deref (atts s !! i) in emit_if (attestation_fn (static s)) (OutAttestation (sl_att x))
    | None => ret tt end (s, log) = Ok (s, log ++ o1) tt /\ Forall (fun o => ~ is_signed o) o1).
  { pose proof (att_find_spec (static s) (atts s) (p_hash p) (self (static s)) (proj2 (ok_atts s Hok)) Hz
      (so_self _ (ok_static s Hok)) 0) as Hf. unfold att_find.
    destruct (att_find_from 0 (atts s) _ _) as [i|]; [|exists []; split; [by rewrite app_nil_r|constructor]].
    destruct Hf as (_ & x & Hx & _). rewrite Nat.sub_0_r in Hx. rewrite Hx. unfold deref, bind.
    destruct (emit_if_spec (attestation_fn (static s)) (OutAttestation (sl_att x)) s log) as (o & He & Ho).
    exists o. split; [done|]. eapply Forall_impl; [exact Ho|]. by intros ? -> []. }
  destruct H1 as (o1 & E1 & F1). rewrite (bind_Ok _ _ _ _ _ E1). rewrite slice_prefix by lia.
  unfold deref at 1, bind at 1 2.
  destruct (emit_if_spec (proposal_fn (static s)) (OutProposal (take (Z.to_nat (p_len p)) (p_bytes p))) s (log ++ o1))
    as (o2 & E2 & F2). rewrite E2. unfold update. cbn [fst snd].
  assert (F : Forall (fun o => ~ is_signed o) (o1 ++ o2)).
  { apply Forall_app. split; [done|]. eapply Forall_impl; [exact F2|]. by intros ? -> []. }
  rewrite <- app_assoc. split; [|split].
  - destruct Hi as [? ? ? ?]. constructor; try done; cbn [fst snd] in *; [by apply ok_cur|]. by apply signed_inv_outs.
  - eapply (settled_mono draws s); try done; [by apply ok_cur].
  - split; [by eexists|done].
Qed.

Lemma tick_lands e now s log :
  inv (s, log) -> settled s -> env_ok e -> E e -> is_u64 now ->
  lands (s, log) (ants_chain_rt_tick draws e now (s, log)).
Proof using Laws.
  intros Hi Hs He HE Hnow. unfold ants_chain_rt_tick. unfold get_rt at 1, bind at 1. cbn [fst].
  assert (Htail : forall s1, inv (s1, log) -> settled s1 -> lands (s1, log)
    ((let* s := get_rt in
      if may_propose s now then propose draws e now
      else if (0 <=? cur (attempt s)) && (u64 (last_emit (attempt s) + ANTS_CHAIN_RT_REBROADCAST_S) <=? now)
      then rebroadcast now else ret tt) (s1, log))).
  { intros s1 Hi1 Hs1. unfold get_rt, bind at 1. cbn [fst]. destruct (may_propose s1 now) eqn:Em.
    { by apply propose_lands. }
    destruct ((0 <=? cur (attempt s1)) && _) eqn:Ec; [|by apply lands_same].
    apply andb_true_iff in Ec as [Hc%Z.leb_le _]. by apply rebroadcast_lands. }
  destruct (_ <=? now).
  - unfold bind at 1. pose proof (skip_lands draws g c E (u64 (at_h (attempt s) + 1)) now s log Hi Hs (u64_range _)) as Hk.
    destruct (start_attempt draws _ now (s, log)) as [[s1 log1] []|? ?| |]; try done.
    destruct Hk as (Hi1 & Hs1 & Hh1 & Hlog). cbn [fst snd] in *. subst log1.
    eapply lands_from; [|by apply Htail]. by apply progress_keep.
  - unfold ret at 1, bind at 1. by apply Htail.
Qed.

(** ** A proposal arrives *)

Lemma decode_scratch_spec block s log :
  rt_ok s -> bytes_ok block -> zlen block <= ANTS_CHAIN_BLOCK_ENCODED_MAX ->
  match decode_scratch (Some block) (zlen block) (s, log) with
  | Ok w b => exists fs, w = (with_findings fs s, log) /\ ANTS_CHAIN_MAX_PATTERN_FINDINGS <= zlen fs /\
      block_ok b /\ block = encode (block_doc b)
  | Err w _ => exists fs, w = (with_findings fs s, log) /\ ANTS_CHAIN_MAX_PATTERN_FINDINGS <= zlen fs
  | UB | NoFuel => False
  end.
Proof using Type.
  intros Hok Hb Hlen. pose proof (ok_findings s Hok) as Hf.
  assert (Hl : zlen block <= INT64_MAX) by (change ANTS_CHAIN_BLOCK_ENCODED_MAX with 24720 in Hlen; zlia).
  unfold decode_scratch, get_rt. unfold bind at 1. cbn [fst]. set (o0 := mk_block_out _ _ _ _).
  assert (Hcap : 0 <= ANTS_CHAIN_MAX_PATTERN_FINDINGS) by (by vm_compute).
  assert (Hr : roomy_block ANTS_CHAIN_MAX_PATTERN_FINDINGS o0) by done.
  pose proof (block_decode_spec block o0 _ Hcap Hr Hb Hl) as Hspec.
  assert (Hsafe : match ants_chain_block_decode (Some block) (zlen block) ANTS_CHAIN_MAX_PATTERN_FINDINGS o0 with
    | Ok o _ | Err o _ => ANTS_CHAIN_MAX_PATTERN_FINDINGS <= zlen (o_findings (h_out o)) | _ => False end).
  { unfold ants_chain_block_decode. cbn [is_null orb]. destruct (zlen block =? 0); [done|].
    pose proof (with_decoder_safe (roomy_block ANTS_CHAIN_MAX_PATTERN_FINDINGS) (fun e => e) norm_decode_err block
      (block_decode_body ANTS_CHAIN_MAX_PATTERN_FINDINGS) o0 Hb Hl Hr (keeps_block_body _ Hcap)) as Hk.
    by destruct (with_decoder _ _ _ _ _ _). }
  destruct (ants_chain_block_decode _ _ _ o0) as [o []|o err| |]; try done; unfold update, bind; cbn [fst snd].
  - destruct Hspec as (b & Hbt & Hn & -> & ->). eexists. split; [done|]. split; [done|].
    unfold block_read, filled. cbn. assert (Eb : mk_block (b_height b) (b_prev_block_hash b) (b_degraded_seed b)
      (b_summary b) = b) by (by destruct b). rewrite Eb. destruct Hbt as (? & ? & ?). by split_and!.
  - eexists. by split.
Qed.

Lemma file_block_spec b block i s log p :
  rt_ok s -> props s !! i = Some p -> block_ok b -> b_degraded_seed b = true -> block = encode (block_doc b) ->
  exists p', file_block b (digest block) block i (s, log) = Ok (with_props (<[i := p']> (props s)) s, log) tt /\
    p_used p' = true /\ holds_block p' b /\ slot_ok p'.
Proof using Laws.
  intros Hok Hp Hb Hd ->. assert (Hslot : slot_ok p) by (eapply Forall_lookup_1; [apply Hok|done]).
  pose proof (block_bounded b Hb) as Hbd. destruct Hslot as (Hsz & _).
  unfold file_block, get_rt. unfold bind at 1. cbn [fst]. rewrite Hp. unfold deref at 1, bind at 1.
  assert (Hs : splice (p_bytes p) 0 (encode (block_doc b)) =
    Some (encode (block_doc b) ++ drop (length (encode (block_doc b))) (p_bytes p))).
  { unfold splice. rewrite (proj2 (Z.leb_le _ _)) by lia. cbn [andb]. rewrite (proj2 (Z.leb_le _ _)) by lia. done. }
  rewrite Hs. unfold deref at 1, bind at 1. rewrite (set_slot_eq i _ s log p Hp). eexists. split; [done|].
  split; [done|].
  assert (Hh : holds_block (mk_prop true true (b_height b) (s_cutoff_time (b_summary b)) (s_epoch (b_summary b))
    (b_prev_block_hash b) (digest (encode (block_doc b))) (zlen (encode (block_doc b)))
    (encode (block_doc b) ++ drop (length (encode (block_doc b))) (p_bytes p))) b).
  { constructor; try done. cbn [p_len p_bytes]. by rewrite zlen_to_nat, take_app_length. }
  split; [exact Hh|]. unfold slot_ok. cbn [p_bytes p_len p_hash p_used]. pose proof (zlen_nonneg (encode (block_doc b))).
  split; [|split; [lia|split; [apply digest_size|by exists b]]].
  rewrite zlen_app. unfold zlen in *. rewrite length_drop. lia.
Qed.

(** Recompute, compare, sign: at most a signature on the node's own block. *)
Lemma validate_spec e b i now s log p :
  inv (s, log) -> env_ok e -> E e -> is_u64 now -> props s !! i = Some p -> p_used p = true -> holds_block p b ->
  exists s' log', validate e b i now (s, log) = Ok (s', log') tt /\ inv (s', log') /\ head s' = head s /\
    log `prefix_of` log'.
Proof using Laws.
  intros Hi He HE Hnow Hp Hu Hb. pose proof (iv_ok _ _ _ _ _ Hi) as Hok. cbn [fst] in Hok.
  unfold validate, get_rt. unfold bind at 1. cbn [fst]. rewrite Hp. unfold deref, bind at 1.
  destruct (may_sign s b p now) eqn:Hmay; [|by exists s, log].
  unfold may_sign in Hmay. repeat (apply andb_true_iff in Hmay as [Hmay ?]). rename Hmay into Hmem.
  match goal with H : (last_signed_height s <? _) = true |- _ => apply Z.ltb_lt in H; rename H into Hguard end.
  match goal with H : (b_height b =? _) = true |- _ => apply Z.eqb_eq in H; rename H into Hbh end.
  destruct (ok_attempt s Hok) as (Hh & _ & Hmt & _). specialize (Hmt Hmem).
  destruct (so_callbacks _ (ok_static s Hok) Hmt) as (_ & _ & Hview).
  assert (Hcut : is_u64 (p_cutoff p)).
  { destruct Hb as [(_ & _ & (_ & ? & _) & _) _ _ _ -> _ _ _ _]. done. }
  pose proof (compose_spec e (static s) (at_h (attempt s)) (hd_hash (head s)) (p_cutoff p) (findings s) zero_proposal
    Hview He Hh (proj1 (proj2 (ok_head s Hok))) Hcut (ok_findings s Hok) ltac:(apply zero_slot_ok)) as Hc.
  unfold bind at 1, compose_recompute, get_rt, bind at 1. cbn [fst].
  pose proof (ok_findings s Hok) as Hfs.
  destruct (compose e (static s) _ _ _ _) as [o []|o err| |]; try done; unfold update, bind, ret; cbn [fst snd].
  2: { eexists _, log. split; [done|]. split; [|done]. eapply inv_keep; [exact Hi| |done..].
       destruct Hok. constructor; try done. cbn. lia. }
  destruct Hc as (Hf & b' & Hb' & Hcomp & _).
  set (s1 := with_recompute o.2 (with_findings o.1 s)).
  assert (Hi1 : inv (s1, log)).
  { eapply inv_keep; [exact Hi| |done..]. destruct Hok. constructor; try done. cbn. lia. }
  cbn [andb]. change (recompute s1) with o.2.
  assert (Hph : p_hash p = digest (encode (block_doc b))) by (by destruct Hb).
  assert (Hoh : p_hash o.2 = digest (encode (block_doc b'))) by (by destruct Hb').
  rewrite memcmp_eq by (rewrite Hph, Hoh, !digest_size; done).
  case_bool_decide as Heq; [|by exists s1, log].
  destruct (sign_inv draws g c E e i false now s1 log p b Hi1 He Hmt Hp Hu Hb) as (s' & log' & Hs1 & Hs2 & Hs3 & Hs4).
  { cbn. lia. }
  { exists e, (at_h (attempt s)), (hd_hash (head s)), (p_cutoff p), b'. split; [done|].
    rewrite <- (iv_static _ _ _ _ _ Hi). split; [done|]. congruence. }
  by exists s', log'.
Qed.

Lemma consider_lands e b i now s log p :
  inv (s, log) -> env_ok e -> E e -> is_u64 now -> props s !! i = Some p -> p_used p = true -> holds_block p b ->
  lands (s, log) (consider draws e b i now (s, log)).
Proof using Laws.
  intros Hi He HE Hnow Hp Hu Hb. unfold consider.
  destruct (validate_spec e b i now s log p Hi He HE Hnow Hp Hu Hb) as (s' & log' & H1 & H2 & H3 & H4).
  rewrite (bind_Ok _ _ _ _ _ H1). eapply lands_from; [|by apply finalize_lands]. split; [done|]. cbn. by rewrite H3.
Qed.

(** No block on file has the hash of [block] without being [block]. *)
Definition fresh_block (s : rt_state) (block : bytes) : Prop :=
  forall p, p ∈ props s -> p_used p = true -> p_hash p = digest block -> take (Z.to_nat (p_len p)) (p_bytes p) = block.

Lemma found_block s block b i p : rt_ok s -> fresh_block s block -> block_ok b -> block = encode (block_doc b) ->
  props s !! i = Some p -> p_used p = true -> p_hash p = digest block -> holds_block p b.
Proof using Type.
  intros Hok Hfresh Hb -> Hp Hu Hh. assert (Hslot : slot_ok p) by (eapply Forall_lookup_1; [apply Hok|done]).
  destruct Hslot as (_ & _ & _ & Hblk). destruct (Hblk Hu) as (b' & Hb').
  pose proof (Hfresh p ltac:(by eapply list_elem_of_lookup_2) Hu Hh) as He.
  assert (b' = b) as ->; [|done]. destruct Hb' as [Hok' _ _ _ _ _ _ _ Hbytes].
  apply block_doc_inj; try by apply block_typed_ok.
  - by apply block_readable.
  - by apply block_readable.
  - congruence.
Qed.

Lemma on_proposal_lands e block now s log :
  inv (s, log) -> settled s -> env_ok e -> E e -> is_u64 now -> bytes_ok block -> zlen block <= INT64_MAX ->
  fresh_block s block ->
  lands (s, log) (ants_chain_rt_on_proposal draws e (Some block) (zlen block) now (s, log)).
Proof using Laws.
  intros Hi Hs He HE Hnow Hb Hlen Hfresh. pose proof (iv_ok _ _ _ _ _ Hi) as Hok. cbn [fst] in Hok.
  unfold ants_chain_rt_on_proposal. cbn [is_null orb].
  destruct (Z.ltb_spec ANTS_CHAIN_BLOCK_ENCODED_MAX (zlen block)) as [|Hmax]; [by apply (lands_same s log)|].
  pose proof (decode_scratch_spec block s log Hok Hb Hmax) as Hd. unfold bind at 1.
  destruct (decode_scratch (Some block) (zlen block) (s, log)) as [w b|w err| |]; try done.
  2: { destruct Hd as (fs & -> & Hfs). apply (lands_shrunk s); try done. by apply ok_with_findings. }
  destruct Hd as (fs & -> & Hfs & Hbok & Hblk). set (s1 := with_findings fs s).
  assert (Hok1 : rt_ok s1) by (by apply ok_with_findings).
  assert (H1 : inv (s1, log) /\ settled s1 /\ progress (s, log) (s1, log)) by (by apply lands_shrunk).
  destruct H1 as (Hi1 & Hs1 & Hp1). apply (lands_from draws g c E _ _ _ Hp1).
  unfold get_rt, bind at 1. cbn [fst]. destruct (b_degraded_seed b) eqn:Hdeg; cbn [negb]; [|by apply (lands_same s1 log)].
  destruct ((b_height b <=? _) || _); [by apply lands_same|].
  unfold pure_call, bind at 1. rewrite (block_hash_eq b Hbok), <- Hblk.
  pose proof (prop_find_spec s1 (digest block) Hok1 (digest_size _)) as Hfind.
  destruct (prop_find s1 (digest block)) as [i|].
  - destruct Hfind as (p & Hp & Hu & Hh). eapply consider_lands; try done. by eapply (found_block s1 block b i p).
  - destruct (att_any_for (atts s1) (digest block)); cbn [negb]; [|by apply (lands_same s1 log)].
    destruct (prop_alloc_spec s1 log Hok1) as (r & ps & Ha & Hl & Hps & Hsub & Hr).
    rewrite (bind_Ok _ _ _ _ _ Ha). assert (Hok2 : rt_ok (with_props ps s1)) by (by apply ok_with_props).
    destruct r as [i|]; [|by apply lands_shrunk]. destruct (Hr i eq_refl) as (p & Hp & _).
    cbn [from_option id]. rewrite slice_all. unfold deref, bind at 1.
    destruct (file_block_spec b block i (with_props ps s1) log p Hok2 Hp Hbok Hdeg Hblk) as (p' & Hf & Hu' & Hh' & Hsl').
    rewrite (bind_Ok _ _ _ _ _ Hf). cbn [props with_props]. set (s2 := with_props _ _).
    assert (Hok3 : rt_ok s2).
    { apply (ok_with_props (with_props ps s1)); [done|cbn; by rewrite length_insert|]. cbn. by apply Forall_insert. }
    assert (Hp3 : props s2 !! i = Some p') by (apply list_lookup_insert_eq; by eapply lookup_lt_Some).
    eapply lands_from; [|eapply (consider_lands e b i now s2 log p'); try done; by eapply (inv_keep draws g c E s1)].
    by apply progress_keep.
Qed.

(** ** An attestation arrives *)

Lemma on_attestation_lands att now s log :
  inv (s, log) -> settled s ->
  zlen (a_block_hash att) = 32 -> zlen (a_signer att) = 32 -> zlen (a_sig att) = 64 ->
  lands (s, log) (ants_chain_rt_on_attestation draws att now (s, log)).
Proof using Laws.
  intros Hi Hs Hh Hsg Hsz. pose proof (iv_ok _ _ _ _ _ Hi) as Hok. cbn [fst] in Hok.
  unfold ants_chain_rt_on_attestation, get_rt. unfold bind at 1. cbn [fst].
  destruct (trustee_index (static s) (a_signer att)) as [k|] eqn:Ek; [|by apply (lands_same s log)].
  assert (Hin : a_signer att ∈ trustees (static s)).
  { apply (index_from_member _ _ ltac:(eapply Forall_impl; [apply (so_trustees _ (ok_static s Hok))|by intros ? []]) Hsg 0).
    by exists k. }
  change ANTS_CHAIN_HASH_SIZE with 32. rewrite <- Hh, ed25519_verify_all.
  destruct (crypto_sign_ed25519_verify_detached _ _ _); [|by apply (lands_same s log)].
  pose proof (att_find_spec (static s) (atts s) (a_block_hash att) (a_signer att) (proj2 (ok_atts s Hok)) Hh Hsg 0) as Hf.
  unfold att_find. destruct (att_find_from 0 (atts s) _ _) as [i|].
  - destruct Hf as (_ & x & Hx & _). rewrite Nat.sub_0_r in Hx. rewrite Hx. unfold deref, bind.
    destruct (a_height (sl_att x) =? a_height att); by apply (lands_same s log).
  - destruct (a_height att <=? hd_height (head s)); [by apply (lands_same s log)|].
    destruct (att_file_spec s log att Hok ltac:(by split_and!)) as (sl & n & new & Hfile & Hsl & Hd).
    unfold bind at 1, bind at 1. rewrite Hfile. cbn [ret].
    assert (Hi' : inv (with_atts sl n s, log)).
    { eapply inv_keep; [exact Hi| |done..]. destruct Hok. by constructor. }
    eapply lands_from; [|apply (finalize_lands draws g c E now _ _ Hi')]. by apply progress_keep.
Qed.
End handlers.
