(* ===== verification/RuntimeThms.v ===== *)
(** * What a node running the runtime can rely on (chain_runtime.c)

    Runs from [ants_chain_rt_init] over arbitrary clocks, messages and
    callback answers: the entry points never fail their contracts, a node
    never signs twice at a height, heads only advance and carry certificates,
    and two nodes agree on every head whose committee is honest enough. *)

From stdpp Require Import strings sorting.
From S2P Require Import Prelude Cbor CborKv CborSpec CborEnc CborContract Crypto Crdt Merkle BondCodec Chain ChainPattern ChainCodec ChainBlock ChainCommittee ChainFinality ChainHonest ChainRuntime RuntimeFinal RuntimeInv RuntimeSteps RuntimeReach RuntimeHandlers.
Import Chain Runtime.

#[local] Arguments zlen {A} l : simpl never.

(** ** Runs *)

Inductive rt_input : Type :=
| Tick (e : rt_env) (now : Z)
| Proposal (e : rt_env) (block : bytes) (now : Z)
| Attestation (att : ants_chain_attestation_t) (now : Z).

(** The static part and the head that a configuration starts from. *)
Definition trustee_list (cfg : ants_chain_rt_config_t) : list bytes :=
  take (Z.to_nat (c_n_trustees cfg)) (default [] (c_trustees cfg)).
Definition static_of (cfg : ants_chain_rt_config_t) : rt_static :=
  mk_static (trustee_list cfg) (c_genesis_time cfg) (c_k_phase cfg) (c_self cfg)
    (bool_decide (is_Some (index_from 0 (trustee_list cfg) (c_self cfg)))) (c_sign_fn cfg) (c_view_fn cfg)
    (c_proposal_fn cfg) (c_attestation_fn cfg) (c_final_fn cfg).
Definition genesis_head (cfg : ants_chain_rt_config_t) : ants_chain_head_t :=
  mk_head 0 (c_genesis_hash cfg) (c_genesis_time cfg) 0 false.

(** The types of the configuration's fields; the array holds [n_trustees] ids. *)
Record config_ok (cfg : ants_chain_rt_config_t) : Prop := {
  co_trustees : Forall hash_ok (default [] (c_trustees cfg));
  co_count : 0 <= c_n_trustees cfg;
  co_array : is_Some (c_trustees cfg) -> c_n_trustees cfg <= zlen (default [] (c_trustees cfg));
  co_genesis_hash : hash_ok (c_genesis_hash cfg);
  co_genesis_time : is_u64 (c_genesis_time cfg);
  co_phase : 0 <= c_k_phase cfg;
  co_self : zlen (c_self cfg) = 32
}.

Section runs.
Context `{B : Blake3} {Laws : Blake3Laws B} `{Ed : Ed25519}.
Context (draws : nat).

Definition handle (i : rt_input) : action rt_world unit :=
  match i with
  | Tick e now => ants_chain_rt_tick draws e now
  | Proposal e block now => ants_chain_rt_on_proposal draws e (Some block) (zlen block) now
  | Attestation att now => ants_chain_rt_on_attestation draws att now
  end.

(** The inputs of a run: callbacks of [E] that keep their contract, arguments
    of their types, and no received block that collides with one on file. *)
Definition input_ok (E : rt_env -> Prop) (s : rt_state) (i : rt_input) : Prop :=
  match i with
  | Tick e now => env_ok e /\ E e /\ is_u64 now
  | Proposal e block now => env_ok e /\ E e /\ is_u64 now /\ bytes_ok block /\ zlen block <= INT64_MAX /\ fresh_block s block
  | Attestation att now => zlen (a_block_hash att) = 32 /\ zlen (a_signer att) = 32 /\ zlen (a_sig att) = 64
  end.

Inductive reach (cfg : ants_chain_rt_config_t) (E : rt_env -> Prop) : rt_world -> Prop :=
| reach_init now s w : is_u64 now -> ants_chain_rt_init draws cfg now (s, []) = Ok w tt -> reach cfg E w
| reach_ok w i w' : reach cfg E w -> input_ok E w.1 i -> handle i w = Ok w' tt -> reach cfg E w'
| reach_err w i w' e : reach cfg E w -> input_ok E w.1 i -> handle i w = Err w' e -> reach cfg E w'.

Lemma static_of_ok cfg : config_ok cfg -> is_Some (c_trustees cfg) -> c_n_trustees cfg <> 0 ->
  c_n_trustees cfg <= ANTS_CHAIN_COMMITTEE_K_MAX -> c_k_phase cfg <> 0 ->
  ids_strictly_ascending (trustee_list cfg) = true ->
  (is_Some (index_from 0 (trustee_list cfg) (c_self cfg)) -> c_sign_fn cfg = true /\ c_view_fn cfg = true) ->
  static_ok (static_of cfg).
Proof using Type.
  intros [Ht Hc Ha Hg Hgt Hk Hs] Hsome Hn Hmax Hk0 Hsort Hcb. specialize (Ha Hsome).
  assert (Htl : Forall hash_ok (trustee_list cfg)) by (by apply Forall_take).
  assert (Hlen : zlen (trustee_list cfg) = c_n_trustees cfg).
  { unfold trustee_list, zlen in *. rewrite length_take. lia. }
  constructor; cbn [static_of trustees k_phase self genesis_time is_trustee sign_fn view_fn]; try done; try lia.
  intros H%bool_decide_eq_true. destruct (Hcb H) as [-> ->]. split; [|done].
  apply (index_from_member _ _ ltac:(eapply Forall_impl; [exact Htl|by intros ? []]) Hs 0). done.
Qed.

Lemma init_spec cfg E now s : config_ok cfg -> is_u64 now ->
  match ants_chain_rt_init draws cfg now (s, []) with
  | Ok w _ => inv draws (genesis_head cfg) (static_of cfg) E w /\ settled draws w.1 /\ head w.1 = genesis_head cfg /\
      at_h (attempt w.1) = 1 /\ attempt_start (attempt w.1) = now
  | Err _ e => e = ANTS_ERROR_INVALID_ARG
  | NoFuel => starved draws (static_of cfg) (c_genesis_hash cfg) 1
  | UB => False
  end.
Proof using Laws.
  intros Hcfg Hnow. unfold ants_chain_rt_init. destruct (_ || _) eqn:Eg; [done|].
  apply orb_false_iff in Eg as [Eg _]. apply orb_false_iff in Eg as [Eg Hk%Z.eqb_neq].
  apply orb_false_iff in Eg as [Eg Hmax%Z.ltb_ge]. apply orb_false_iff in Eg as [Hnull Hn%Z.eqb_neq].
  assert (Hsome : is_Some (c_trustees cfg)) by (destruct (c_trustees cfg); [by eexists|done]).
  pose proof (co_array cfg Hcfg Hsome) as Harr. pose proof (co_count cfg Hcfg).
  rewrite first_n_prefix by lia. fold (trustee_list cfg). unfold deref, bind at 1.
  destruct (ids_strictly_ascending (trustee_list cfg)) eqn:Hsort; cbn [negb]; [|done].
  destruct (bool_decide _ && _) eqn:Hcb; [done|].
  assert (Hst : static_ok (static_of cfg)).
  { apply static_of_ok; try done. intros Hin. rewrite bool_decide_eq_true_2 in Hcb by done. cbn [andb] in Hcb.
    apply orb_false_iff in Hcb as [?%negb_false_iff ?%negb_false_iff]. done. }
  unfold update at 1, bind at 1. cbn [fst snd]. fold (static_of cfg) (genesis_head cfg).
  set (s0 := mk_rt (static_of cfg) (genesis_head cfg) _ _ _ _ _ _ _).
  assert (H0 : rt_ok s0).
  { constructor; cbn [s0 static head attempt props atts findings]; try done.
    - split; [done|]. split; [apply Hcfg|apply Hcfg].
    - apply Forall_replicate, zero_slot_ok.
    - split; [done|]. by apply Forall_replicate.
    - intros i j x y Hx. apply lookup_replicate in Hx as [-> _]. done. }
  pose proof (start_attempt_spec draws 1 now s0 [] H0 ltac:(done)) as Hs.
  destruct (start_attempt draws 1 now (s0, [])) as [w []|? ?| |]; try done.
  destruct Hs as (a & -> & Ha & Hh & Hstart & _).
  assert (H1 : rt_ok (purged (hd_height (head s0)) (with_attempt a s0))).
  { apply purged_ok. destruct H0. by constructor. }
  split; [|split; [|done]].
  - constructor; [done|done| |by left]. split; [constructor|]. exists []. repeat constructor.
  - intros p Hp Hu. destruct (purge_used _ _ _ Hp Hu) as [Hin _]. cbn [props with_attempt s0] in Hin.
    apply elem_of_replicate in Hin as [-> _]. done.
Qed.

Lemma handle_lands cfg E i w :
  inv draws (genesis_head cfg) (static_of cfg) E w -> settled draws w.1 -> input_ok E w.1 i ->
  lands draws (genesis_head cfg) (static_of cfg) E w (handle i w).
Proof using Laws.
  destruct w as [s log]. cbn [fst]. intros Hi Hs Hin. destruct i as [e now|e block now|att now]; cbn [handle input_ok] in *.
  - destruct Hin as (? & ? & ?). by apply tick_lands.
  - destruct Hin as (? & ? & ? & ? & ? & ?). by apply on_proposal_lands.
  - destruct Hin as (? & ? & ?). by apply on_attestation_lands.
Qed.

(** The invariant of every reachable state. *)
Lemma reach_inv cfg E w : config_ok cfg -> reach cfg E w ->
  inv draws (genesis_head cfg) (static_of cfg) E w /\ settled draws w.1.
Proof using Laws.
  intros Hcfg. induction 1 as [now s w Hnow Hinit|w i w' _ [Hi Hs] Hin Hh|w i w' e _ [Hi Hs] Hin Hh].
  - pose proof (init_spec cfg E now s Hcfg Hnow) as H. rewrite Hinit in H. by destruct H as (? & ? & _).
  - pose proof (handle_lands cfg E i w Hi Hs Hin) as H. rewrite Hh in H. by destruct H as (? & ? & _).
  - pose proof (handle_lands cfg E i w Hi Hs Hin) as H. rewrite Hh in H. by destruct H as (? & ? & _).
Qed.
End runs.

(** ** The guarantees *)

(** C27: The entry points are safe and the state stays well formed.  From any
    state a run can reach, on any clock, message and callback answer, a call
    returns without undefined behaviour (or stops drawing a committee after
    [draws] rejected words), keeps the invariant of the slots, and only appends
    to what it has said; the head is unchanged or strictly higher. *)
Theorem runtime_invariant `{B : Blake3} {Laws : Blake3Laws B} `{Ed : Ed25519} draws cfg E w i :
  config_ok cfg -> reach draws cfg E w -> input_ok E w.1 i ->
  match handle draws i w with
  | Ok w' _ | Err w' _ => rt_ok w'.1 /\ static w'.1 = static_of cfg /\ w.2 `prefix_of` w'.2 /\
      (head w'.1 = head w.1 \/ hd_height (head w.1) < hd_height (head w'.1))
  | NoFuel => starving draws (static_of cfg)
  | UB => False
  end.
Proof.
  intros Hcfg Hr Hin. destruct (reach_inv draws cfg E w Hcfg Hr) as [Hi Hs].
  pose proof (handle_lands draws cfg E i w Hi Hs Hin) as H.
  destruct (handle draws i w) as [w' []|w' e| |]; try done; destruct H as ([] & _ & (? & ? & Heq));
    (split; [done|]); (split; [done|]); (split; [done|]);
    (destruct (decide (hd_height (head w.1) = hd_height (head w'.1))) as [Hh|]; [left; by rewrite Heq|right; lia]).
Qed.

(** C5: A node never signs twice at a height, and signs nothing but its own
    recomputation.  In every run the blocks behind the signatures a node gave,
    oldest first, are canonical degraded-seed blocks of strictly increasing
    heights, and each signed hash is that of a block the node composes itself
    from its own Layer-1 view. *)
Theorem no_double_signing `{B : Blake3} {Laws : Blake3Laws B} `{Ed : Ed25519} draws cfg E w :
  config_ok cfg -> reach draws cfg E w ->
  exists bs, Forall2 signs (signed_part w.2) bs /\ StronglySorted Z.lt (map b_height bs) /\
    Forall (fun x => own (static_of cfg) E x.2) (signed_part w.2).
Proof.
  intros Hcfg Hr. destruct (reach_inv draws cfg E w Hcfg Hr) as [Hi _].
  destruct (iv_signed _ _ _ _ _ Hi) as (Ho & bs & Hbs & Hs & _). by exists bs.
Qed.

(** C6: Heads are final, and finality is never overlooked.  In every reachable
    state the head is genesis or the hash, height, cutoff and epoch of a block
    that two thirds of its own committee have signed; and every block on file
    for which two thirds of the committee have a valid attestation on file is
    at or below the head. *)
Theorem head_final `{B : Blake3} {Laws : Blake3Laws B} `{Ed : Ed25519} draws cfg E w :
  config_ok cfg -> reach draws cfg E w ->
  (head w.1 = genesis_head cfg \/ exists b, certified draws (static_of cfg) (head w.1) b) /\
  forall p com, p ∈ props w.1 -> p_used p = true ->
    committee_of draws (static_of cfg) (p_prev p) (p_height p) = Some com ->
    quorum w.1 (p_hash p) (keys (static_of cfg) com) -> p_height p <= hd_height (head w.1).
Proof.
  intros Hcfg Hr. destruct (reach_inv draws cfg E w Hcfg Hr) as [[Hok Hst Hsg Hhd] Hs]. split; [done|].
  intros p com Hp Hu Hcom Hq. apply Hs; [done|done|]. exists com. by rewrite Hst.
Qed.

(** ** Agreement *)

Lemma split_positions (l : list nat) n : NoDup l ->
  (length l <= length (filter (fun i => i <> n) l) + (if decide (n ∈ l) then 1 else 0))%nat.
Proof.
  induction 1 as [|i l Hi _ IH]; [done|]. rewrite filter_cons. cbn [length].
  destruct (decide (i = n)) as [->|Hne].
  - rewrite decide_False by naive_solver. rewrite (decide_False (P := n ∈ l)) in IH by done.
    rewrite decide_True by (by left). lia.
  - rewrite decide_True by done. cbn [length].
    destruct (decide (n ∈ l)); [rewrite decide_True by (by right)|]; [lia|]. case_decide; lia.
Qed.

(** Distinct positions whose elements satisfy [P] are no more than these elements. *)
Lemma positions_count {A} (P : A -> Prop) `{!forall x, Decision (P x)} (pubs : list A) : forall l : list nat,
  NoDup l -> (forall i, i ∈ l -> exists p, pubs !! i = Some p /\ P p) -> (length l <= length (filter P pubs))%nat.
Proof.
  induction pubs as [|p pubs IH] using rev_ind; intros l Hl Hi.
  { destruct l as [|i l]; [done|]. by destruct (Hi i ltac:(by left)) as (? & ? & _). }
  pose proof (split_positions l (length pubs) Hl) as Hs. rewrite filter_app, length_app, filter_cons.
  specialize (IH (filter (fun i => i <> length pubs) l) (NoDup_filter _ _ Hl)).
  assert (Hrec : (length (filter (fun i => i <> length pubs) l) <= length (filter P pubs))%nat).
  { apply IH. intros i [Hne Hin]%list_elem_of_filter. destruct (Hi i Hin) as (q & Hq & HP). exists q. split; [|done].
    rewrite lookup_app_l in Hq; [done|]. apply lookup_lt_Some in Hq. rewrite length_app in Hq. cbn in Hq. lia. }
  destruct (decide (length pubs ∈ l)) as [Hin|]; [|lia].
  destruct (Hi _ Hin) as (q & Hq & HP). rewrite lookup_app_r, Nat.sub_diag in Hq by done. injection Hq as <-.
  rewrite decide_True by done. cbn [length]. lia.
Qed.

Lemma sorted_lookup (l : list Z) : forall i j x y, StronglySorted Z.lt l ->
  l !! i = Some x -> l !! j = Some y -> (i < j)%nat -> x < y.
Proof.
  induction l as [|z l IH]; intros i j x y Hs Hx Hy Hij; [done|]. apply StronglySorted_cons in Hs as [Hz Hs].
  destruct j as [|j]; [lia|]. destruct i as [|i].
  - injection Hx as <-. rewrite Forall_lookup in Hz. by eapply Hz.
  - apply (IH i j); done || lia.
Qed.

(** A node that follows the runtime: its configuration, the callbacks it uses
    and the state it is in. *)
Record honest_node : Type := mk_node { n_config : ants_chain_rt_config_t; n_envs : rt_env -> Prop; n_world : rt_world }.

Section agreement.
Context `{B : Blake3} {Laws : Blake3Laws B} `{Ed : Ed25519}.
Context (draws : nat).

(** The node is in a state it can reach, and its key has only signed what the
    runtime had it sign. *)
Definition follows (n : honest_node) : Prop :=
  config_ok (n_config n) /\ reach draws (n_config n) (n_envs n) (n_world n) /\
  forall sig h, crypto_sign_ed25519_verify_detached sig h (c_self (n_config n)) = true ->
    h ∈ (signed_part (n_world n).2).*2.

(** One node does not sign two blocks of one height. *)
Lemma one_block_per_height n b1 b2 sig1 sig2 :
  follows n -> block_ok b1 -> block_ok b2 -> b_height b1 = b_height b2 ->
  collision_free (signed_part (n_world n).2).*1 [encode (block_doc b1); encode (block_doc b2)] ->
  crypto_sign_ed25519_verify_detached sig1 (digest (encode (block_doc b1))) (c_self (n_config n)) = true ->
  crypto_sign_ed25519_verify_detached sig2 (digest (encode (block_doc b2))) (c_self (n_config n)) = true -> b1 = b2.
Proof using Laws.
  intros (Hcfg & Hr & Hkey) Hb1 Hb2 Hh Hcf Hs1 Hs2.
  destruct (reach_inv draws _ _ _ Hcfg Hr) as [Hi _]. destruct (iv_signed _ _ _ _ _ Hi) as (_ & bs & Hbs & Hsort & _).
  assert (Hget : forall b sig, block_ok b -> encode (block_doc b) ∈ [encode (block_doc b1); encode (block_doc b2)] ->
    crypto_sign_ed25519_verify_detached sig (digest (encode (block_doc b))) (c_self (n_config n)) = true ->
    exists i, bs !! i = Some b).
  { intros b sig Hb Hin Hs. apply Hkey in Hs. apply list_elem_of_fmap in Hs as ([x h] & Eh & Hx). cbn [snd] in Eh.
    pose proof Hx as Hx'. apply list_elem_of_lookup_1 in Hx as [i Hx].
    destruct (Forall2_lookup_l _ _ _ _ _ Hbs Hx) as (b' & Hb' & Hok' & _ & [= -> ->]). exists i.
    assert (b' = b) as ->; [|done]. apply block_doc_inj; try by apply block_typed_ok.
    - by apply block_readable.
    - by apply block_readable.
    - apply Hcf; [|done|done]. apply list_elem_of_fmap. by eexists; split; [|exact Hx']. }
  destruct (Hget b1 sig1 Hb1 ltac:(by left) Hs1) as [i Hi1]. destruct (Hget b2 sig2 Hb2 ltac:(right; by left) Hs2) as [j Hj2].
  assert (Hmap : forall k b, bs !! k = Some b -> map b_height bs !! k = Some (b_height b)).
  { intros k b Hk. rewrite list_lookup_fmap, Hk. done. }
  pose proof (Hmap i b1 Hi1) as Hm1. pose proof (Hmap j b2 Hj2) as Hm2.
  destruct (Nat.lt_trichotomy i j) as [Hlt|[->|Hlt]]; [| |].
  - pose proof (sorted_lookup (map b_height bs) i j _ _ Hsort Hm1 Hm2 Hlt). lia.
  - congruence.
  - pose proof (sorted_lookup (map b_height bs) j i _ _ Hsort Hm2 Hm1 Hlt). lia.
Qed.
End agreement.

(** Two quorums of one committee share a signer outside any set [P] of less
    than a third of its keys. *)
Lemma shared_signer `{Ed : Ed25519} (P : bytes -> Prop) `{!forall p, Decision (P p)} h1 h2 pubs k mask1 mask2 sigs1 sigs2 :
  zlen h1 = 32 -> zlen h2 = 32 -> 0 < k <= ANTS_CHAIN_COMMITTEE_K_MAX ->
  zlen pubs = k -> zlen mask1 = k -> zlen mask2 = k ->
  ants_chain_finality_verify h1 pubs k (Some sigs1) (zlen sigs1) mask1 tt = Ok tt true ->
  ants_chain_finality_verify h2 pubs k (Some sigs2) (zlen sigs2) mask2 tt = Ok tt true ->
  3 * zlen (filter P pubs) < k ->
  exists p sig1 sig2, ~ P p /\ crypto_sign_ed25519_verify_detached sig1 h1 p = true /\
    crypto_sign_ed25519_verify_detached sig2 h2 p = true.
Proof.
  intros Hh1 Hh2 Hkr Hpl Hm1 Hm2 Hf1 Hf2 Hcount.
  destruct (final_votes h1 pubs mask1 _ sigs1 tt Hh1 Hkr Hpl Hm1 Hf1) as (Hn1 & Hs1 & Hv1).
  destruct (final_votes h2 pubs mask2 _ sigs2 tt Hh2 Hkr Hpl Hm2 Hf2) as (Hn2 & Hs2 & Hv2).
  set (v1 := votes _ _ sigs1 0) in *. set (v2 := votes _ _ sigs2 0) in *.
  set (inter := filter (fun i => i ∈ v2) v1).
  assert (Hbig : (k <= 3 * zlen inter)).
  { assert (Hb : forall i, i ∈ v1 \/ i ∈ v2 -> (i < length pubs)%nat).
    { intros i [Hi|Hi]; [apply Hv1 in Hi as (p & ? & Hi & _)|apply Hv2 in Hi as (p & ? & Hi & _)];
        by apply lookup_lt_Some in Hi. }
    pose proof (overlap v1 v2 (length pubs) Hn1 Hn2 Hb) as Hov. fold inter in Hov. unfold zlen in *. lia. }
  assert (Hex : exists i p, i ∈ inter /\ pubs !! i = Some p /\ ~ P p).
  { assert (Hget : forall i, i ∈ inter -> exists p, pubs !! i = Some p).
    { intros i [_ Hi]%list_elem_of_filter. destruct (Hv1 i Hi) as (p & _ & Hpi & _). by exists p. }
    destruct (decide (Forall (fun i => P (default [] (pubs !! i))) inter)) as [Hall|Hne].
    - exfalso. rewrite Forall_forall in Hall.
      assert (Hle : (length inter <= length (filter P pubs))%nat).
      { apply positions_count; [by apply NoDup_filter|]. intros i Hi. destruct (Hget i Hi) as [p Hpi]. exists p.
        split; [done|]. specialize (Hall i Hi). by rewrite Hpi in Hall. }
      unfold zlen in *. lia.
    - apply not_Forall_Exists, Exists_exists in Hne as (i & Hi & Hx); [|apply _]. destruct (Hget i Hi) as [p Hpi].
      exists i, p. change (~ P (default [] (pubs !! i))) in Hx. rewrite Hpi in Hx. done. }
  destruct Hex as (i & p & Hi & Hpi & Hna). apply list_elem_of_filter in Hi as [Hi2 Hi1].
  destruct (Hv1 i Hi1) as (p1 & sig1 & Hp1 & Hsig1). destruct (Hv2 i Hi2) as (p2 & sig2 & Hp2 & Hsig2).
  rewrite Hpi in Hp1, Hp2. injection Hp1 as <-. injection Hp2 as <-. by exists p, sig1, sig2.
Qed.

(** The committee depends on the trustees and the phase only. *)
Lemma committee_shared `{B : Blake3} draws c1 c2 prev height :
  trustees c1 = trustees c2 -> k_phase c1 = k_phase c2 ->
  committee_of draws c1 prev height = committee_of draws c2 prev height /\ committee_size c1 = committee_size c2 /\
  forall com, keys c1 com = keys c2 com.
Proof. intros Ht Hk. unfold committee_of, committee_for, committee_size, keys. by rewrite Ht, Hk. Qed.

(** [p] is not the key of one of the nodes. *)
Definition outsider (nodes : list honest_node) (p : bytes) : Prop := p ∉ map (fun n => c_self (n_config n)) nodes.
#[export] Instance outsider_dec nodes p : Decision (outsider nodes p).
Proof. unfold outsider. apply _. Defined.

(** C4: Agreement.  Two nodes of one chain whose heads extend the same block at
    the same height have the same head, provided less than a third of that
    committee does not follow the runtime: the members that do follow it sign
    with their keys only what it has them sign, and none of their signed blocks
    collides with the two heads. *)
Theorem agreement `{B : Blake3} {Laws : Blake3Laws B} `{Ed : Ed25519}
  draws cfg1 cfg2 E1 E2 w1 w2 b1 b2 com nodes :
  config_ok cfg1 -> config_ok cfg2 -> reach draws cfg1 E1 w1 -> reach draws cfg2 E2 w2 ->
  trustee_list cfg1 = trustee_list cfg2 -> c_k_phase cfg1 = c_k_phase cfg2 ->
  certified draws (static_of cfg1) (head w1.1) b1 -> certified draws (static_of cfg2) (head w2.1) b2 ->
  b_prev_block_hash b1 = b_prev_block_hash b2 -> b_height b1 = b_height b2 ->
  committee_of draws (static_of cfg1) (b_prev_block_hash b1) (b_height b1) = Some com ->
  Forall (follows draws) nodes ->
  3 * zlen (filter (outsider nodes) (keys (static_of cfg1) com)) < committee_size (static_of cfg1) ->
  (forall n, n ∈ nodes ->
    collision_free (signed_part (n_world n).2).*1 [encode (block_doc b1); encode (block_doc b2)]) ->
  head w1.1 = head w2.1.
Proof.
  intros Hc1 Hc2 Hr1 Hr2 Ht Hk [Hb1 Eh1 Hq1] [Hb2 Eh2 Hq2] Hp Hh Hcom Hnodes Hcount Hcf.
  destruct (reach_inv draws cfg1 E1 w1 Hc1 Hr1) as [[Hok1 Hst1 _ _] _].
  assert (Hso : static_ok (static_of cfg1)) by (rewrite <- Hst1; apply Hok1).
  destruct (committee_shared draws (static_of cfg2) (static_of cfg1) (b_prev_block_hash b2) (b_height b2)
    (eq_sym Ht) (eq_sym Hk)) as (Hcc & Hcs & Hck).
  destruct Hq1 as (com1 & sigs1 & mask1 & Hcom1 & Hm1 & Hf1). destruct Hq2 as (com2 & sigs2 & mask2 & Hcom2 & Hm2 & Hf2).
  rewrite Hcom in Hcom1. injection Hcom1 as <-. rewrite Hcc, <- Hp, <- Hh, Hcom in Hcom2. injection Hcom2 as <-.
  rewrite Hcs in Hm2, Hf2. rewrite Hck in Hf2. set (c := static_of cfg1) in *.
  assert (Hh1 : hd_hash (head w1.1) = digest (encode (block_doc b1))) by (by rewrite Eh1).
  assert (Hh2 : hd_hash (head w2.1) = digest (encode (block_doc b2))) by (by rewrite Eh2).
  pose proof (committee_size_range c Hso) as Hkr.
  destruct (committee_of_spec draws c _ _ com Hso (proj2 (proj1 (proj2 Hb1))) Hcom) as (Hlen & _ & _).
  destruct (shared_signer (outsider nodes) (hd_hash (head w1.1)) (hd_hash (head w2.1)) (keys c com)
    (committee_size c) mask1 mask2 sigs1 sigs2) as (p & sig1 & sig2 & Hna & Hsig1 & Hsig2); try done.
  { rewrite Hh1. apply digest_size. }
  { rewrite Hh2. apply digest_size. }
  { by rewrite keys_size. }
  rewrite Hh1 in Hsig1. rewrite Hh2 in Hsig2.
  apply dec_stable, list_elem_of_fmap in Hna as (n & -> & Hn). rewrite Forall_forall in Hnodes.
  rewrite (one_block_per_height draws n b1 b2 sig1 sig2 (Hnodes n Hn) Hb1 Hb2 Hh (Hcf n Hn) Hsig1 Hsig2) in Eh1.
  congruence.
Qed.

(** ** A run of one trustee and one observer *)

Definition demo_trustee : bytes := replicate 32 1.
Definition demo_config (self : bytes) : ants_chain_rt_config_t :=
  mk_config (Some [demo_trustee]) 1 1000 (replicate 32 9) 5 self true true true true true.
Definition demo_env : rt_env := mk_env (fun _ => inr (replicate 64 7)) (fun _ => inr ([], [])).
Definition demo_block : ants_chain_block_t :=
  @proposal toy_blake3 1 (replicate 32 9) 0 1030 true [] [].
Definition demo_hash : bytes := @digest toy_blake3 (encode (block_doc demo_block)).

(** A signature scheme under which the trustee's key has signed one hash. *)
Definition demo_ed25519 : Ed25519 :=
  {| crypto_sign_ed25519_verify_detached := fun _ m pub => bool_decide (pub = demo_trustee /\ m = demo_hash) |}.

Definition demo_step (i : rt_input) (w : rt_world) : rt_world :=
  match @handle toy_blake3 demo_ed25519 4 i w with Ok w' _ => w' | _ => w end.
Definition demo_start (self : bytes) : rt_world :=
  match @ants_chain_rt_init toy_blake3 4 (demo_config self) 1000 (zero_state, []) with Ok w _ => w | _ => (zero_state, []) end.

Definition demo_proposer : rt_world := demo_step (Tick demo_env 1030) (demo_start demo_trustee).
Definition demo_att : ants_chain_attestation_t := mk_att 1 demo_hash demo_trustee (replicate 64 7).
Definition demo_heard : rt_world := demo_step (Attestation demo_att 1031) (demo_start (replicate 32 2)).
Definition demo_observer : rt_world := demo_step (Proposal demo_env (encode (block_doc demo_block)) 1032) demo_heard.

Lemma demo_config_ok self : zlen self = 32 -> config_ok (demo_config self).
Proof.
  intros Hs. constructor; cbn; try done; try by_decision.
Qed.

Lemma demo_env_ok : @env_ok demo_env.
Proof.
  constructor; [|by intros h sig [= <-]]. intros cutoff ids events [= <- <-].
  split; [by vm_compute|]. split; [constructor|]. split; [done|]. split; [by_decision|constructor].
Qed.

Lemma demo_ok {A} (o : outcome rt_world A) w :
  match o with Ok _ _ => true | _ => false end = true -> exists a, o = Ok (match o with Ok w' _ => w' | _ => w end) a.
Proof. destruct o; try done. by eexists. Qed.

Lemma demo_init_reach self E : zlen self = 32 ->
  match @ants_chain_rt_init toy_blake3 4 (demo_config self) 1000 (zero_state, []) with Ok _ _ => true | _ => false end = true ->
  @reach toy_blake3 demo_ed25519 4 (demo_config self) E (demo_start self).
Proof.
  intros _ H. apply (demo_ok _ (zero_state, [])) in H as [[] H]. by apply (reach_init 4 (demo_config self) E 1000 zero_state).
Qed.

Lemma demo_step_reach cfg E i w :
  @reach toy_blake3 demo_ed25519 4 cfg E w -> @input_ok toy_blake3 E w.1 i ->
  match @handle toy_blake3 demo_ed25519 4 i w with Ok _ _ => true | _ => false end = true ->
  @reach toy_blake3 demo_ed25519 4 cfg E (demo_step i w).
Proof. intros Hr Hi H. apply (demo_ok _ w) in H as [[] H]. by apply (reach_ok 4 cfg E w i). Qed.

Definition any_env : rt_env -> Prop := fun _ => True.

Lemma demo_start_reach : @reach toy_blake3 demo_ed25519 4 (demo_config demo_trustee) any_env (demo_start demo_trustee).
Proof. apply demo_init_reach; [done|by vm_compute]. Qed.

Lemma demo_tick_ok s : @input_ok toy_blake3 any_env s (Tick demo_env 1030).
Proof. split; [apply demo_env_ok|]. split; [done|by vm_compute]. Qed.

Lemma demo_proposer_reach : @reach toy_blake3 demo_ed25519 4 (demo_config demo_trustee) any_env demo_proposer.
Proof.
  apply demo_step_reach; [apply demo_start_reach|apply demo_tick_ok|by vm_compute].
Qed.

Lemma demo_observer_reach : @reach toy_blake3 demo_ed25519 4 (demo_config (replicate 32 2)) any_env demo_observer.
Proof.
  apply demo_step_reach; [apply demo_step_reach| |by vm_compute].
  - apply demo_init_reach; [done|by vm_compute].
  - by vm_compute.
  - by vm_compute.
  - split; [apply demo_env_ok|]. split; [done|]. split; [by vm_compute|]. split; [by_decision|]. split; [by vm_compute|].
    assert (Hu : forallb (fun p => negb (p_used p)) (props demo_heard.1) = true) by (by vm_compute).
    intros p Hp Hu' _. rewrite forallb_forall in Hu. apply list_elem_of_In, Hu in Hp. by rewrite Hu' in Hp.
Qed.

Lemma runtime_invariant_witness :
  match @handle toy_blake3 demo_ed25519 4 (Tick demo_env 1030) (demo_start demo_trustee) with
  | Ok w' _ | Err w' _ => @rt_ok toy_blake3 w'.1 /\ static w'.1 = static_of (demo_config demo_trustee) /\
      (demo_start demo_trustee).2 `prefix_of` w'.2 /\
      (head w'.1 = head (demo_start demo_trustee).1 \/
       hd_height (head (demo_start demo_trustee).1) < hd_height (head w'.1))
  | NoFuel => @starving toy_blake3 4 (static_of (demo_config demo_trustee))
  | UB => False
  end.
Proof.
  exact (@runtime_invariant toy_blake3 toy_blake3_laws demo_ed25519 4 (demo_config demo_trustee) any_env
    (demo_start demo_trustee) (Tick demo_env 1030) (demo_config_ok demo_trustee eq_refl)
    demo_start_reach (demo_tick_ok _)).
Defined.

Lemma no_double_signing_witness :
  exists bs, Forall2 (@signs toy_blake3) (signed_part demo_proposer.2) bs /\ length bs = 1%nat.
Proof.
  destruct (@no_double_signing toy_blake3 toy_blake3_laws demo_ed25519 4 (demo_config demo_trustee) any_env
    demo_proposer (demo_config_ok demo_trustee eq_refl) demo_proposer_reach) as (bs & Hbs & _).
  exists bs. split; [done|]. rewrite <- (Forall2_length _ _ _ Hbs). by vm_compute.
Defined.

Lemma head_final_witness :
  exists b, @certified toy_blake3 demo_ed25519 4 (static_of (demo_config (replicate 32 2))) (head demo_observer.1) b.
Proof.
  assert (Hh : hd_height (head demo_observer.1) = 1) by (by vm_compute).
  destruct (@head_final toy_blake3 toy_blake3_laws demo_ed25519 4 (demo_config (replicate 32 2)) any_env
    demo_observer (demo_config_ok (replicate 32 2) eq_refl) demo_observer_reach) as [[Hg|Hb] _]; [|done].
  rewrite Hg in Hh. discriminate Hh.
Defined.

Definition demo_node : honest_node := mk_node (demo_config demo_trustee) any_env demo_proposer.

Lemma demo_signed : signed_part (n_world demo_node).2 = [(encode (block_doc demo_block), demo_hash)].
Proof. vm_compute. reflexivity. Qed.

Lemma demo_follows : @follows toy_blake3 demo_ed25519 4 demo_node.
Proof.
  split; [by apply demo_config_ok|]. split; [apply demo_proposer_reach|].
  intros sig h H%bool_decide_eq_true. rewrite demo_signed. destruct H as [_ ->]. by left.
Qed.

Lemma demo_block_ok : block_ok demo_block.
Proof.
  assert (Hv : view_ok [] []) by (by apply (eo_view demo_env demo_env_ok 0)).
  assert (Hp : hash_ok (replicate 32 9)) by (split; by_decision).
  assert (Hr : is_report [] 1030 []).
  { split; [constructor|]. intros f. split; [by intros ?%elem_of_nil|]. intros (x & Hx & _). by vm_compute in Hx. }
  by apply (@proposal_ok toy_blake3 toy_blake3_laws 1 (replicate 32 9) 0 1030 true [] [] []).
Qed.

Lemma demo_certified self hd :
  hd = mk_head 1 demo_hash 1030 0 true ->
  @certified toy_blake3 demo_ed25519 4 (static_of (demo_config self)) hd demo_block.
Proof.
  intros ->. constructor; [apply demo_block_ok|done|]. exists [0], (replicate 64 7), [true].
  split; [by vm_compute|]. split; by vm_compute.
Qed.

Lemma demo_apart n : n ∈ [demo_node] ->
  @collision_free toy_blake3 (signed_part (n_world n).2).*1 [encode (block_doc demo_block); encode (block_doc demo_block)].
Proof.
  intros ->%list_elem_of_singleton. rewrite demo_signed. cbn [fmap list_fmap fst].
  generalize (encode (block_doc demo_block)). intros x a b Ha Hb _. apply list_elem_of_singleton in Ha as ->.
  apply elem_of_cons in Hb as [->|Hb]; [done|]. by apply list_elem_of_singleton in Hb as ->.
Qed.

Lemma demo_proposer_head : head demo_proposer.1 = mk_head 1 demo_hash 1030 0 true.
Proof. vm_compute. reflexivity. Qed.

Lemma demo_observer_head : head demo_observer.1 = mk_head 1 demo_hash 1030 0 true.
Proof. vm_compute. reflexivity. Qed.

Lemma demo_committee : @committee_of toy_blake3 4 (static_of (demo_config demo_trustee)) (replicate 32 9) 1 = Some [0].
Proof. vm_compute. reflexivity. Qed.

Lemma demo_honest :
  3 * zlen (filter (outsider [demo_node]) (keys (static_of (demo_config demo_trustee)) [0])) <
    committee_size (static_of (demo_config demo_trustee)).
Proof. vm_compute. reflexivity. Qed.

Lemma agreement_witness : head demo_proposer.1 = head demo_observer.1.
Proof.
  exact (@agreement toy_blake3 toy_blake3_laws demo_ed25519 4 (demo_config demo_trustee) (demo_config (replicate 32 2))
    any_env any_env demo_proposer demo_observer demo_block demo_block [0] [demo_node]
    (demo_config_ok demo_trustee eq_refl) (demo_config_ok (replicate 32 2) eq_refl)
    demo_proposer_reach demo_observer_reach eq_refl eq_refl
    (demo_certified demo_trustee _ demo_proposer_head) (demo_certified (replicate 32 2) _ demo_observer_head)
    eq_refl eq_refl demo_committee (proj2 (Forall_singleton _ _) demo_follows) demo_honest demo_apart).
Defined.
