(* ===== verification/Dht.v ===== *)
(** * The routing table of the DHT (src/network/dht/src/dht.c, dht_server.c)

    Kademlia's 256 buckets by XOR distance, the cache of replacements for full
    buckets, the liveness sweep, the K-closest selections and the
    bucket-diverse sample.  A singly linked list of entries is a list; a
    pointer into it is a position.  The clock is an argument.  What the
    outside answers, a call of [malloc] or the RPC layer taking a PING
    (dht_rpc.h: on an error the completion never fires), is a sequence of
    booleans, one per question, that never refuses once exhausted; [pings]
    holds the completion contexts handed to the RPC layer and not yet freed.
    The callback [event_fn] appends to a log and does not call back. *)

From S2P Require Import Prelude Crypto.

Module Dht.

(** ** Data *)

Definition ANTS_PEER_ID_SIZE : Z := 32.
Definition ANTS_DHT_K : nat := 20.
Definition ANTS_DHT_BUCKET_COUNT : nat := 256.
Definition ANTS_DHT_DEAD_STRIKE_THRESHOLD : Z := 3.
Definition ANTS_DHT_MAX_REPLACEMENTS : nat := 8.
Definition UINT32_MAX : Z := 2 ^ 32 - 1.

Record ants_dht_peer_t : Type := mk_peer { peer_id : bytes; multiaddr : bytes }.

(** A connection is named by its address, never dereferenced here. *)
Record ants_dht_bucket_entry : Type := mk_entry {
  e_peer : ants_dht_peer_t; e_conn : option Z; last_seen_us : Z; dead_strikes : Z; ping_in_flight : bool
}.

Record ants_dht_bucket : Type := mk_bucket { head : list ants_dht_bucket_entry; count : Z }.

Record ants_dht_replacement : Type := mk_replacement {
  r_in_use : bool; r_conn : option Z; r_peer : ants_dht_peer_t
}.

(** The fields of [struct ants_dht_state] the routing table works on. *)
Record ants_dht_state : Type := mk_dht {
  local_peer_id : bytes; event_fn : bool; refresh_interval_ms : Z;
  buckets : list ants_dht_bucket; replacements : list ants_dht_replacement
}.

Inductive dht_event : Type :=
| ANTS_DHT_EV_PEER_DISCOVERED (p : ants_dht_peer_t)
| ANTS_DHT_EV_PEER_EVICTED (p : ants_dht_peer_t)
| ANTS_DHT_EV_TABLE_REFRESHED.

Record dht_world : Type := mk_world {
  state : ants_dht_state; answers : list bool; pings : list bytes; events : list dht_event
}.

(** ** State access *)

Definition with_buckets (bs : list ants_dht_bucket) (s : ants_dht_state) : ants_dht_state :=
  mk_dht (local_peer_id s) (event_fn s) (refresh_interval_ms s) bs (replacements s).
Definition with_replacements (rs : list ants_dht_replacement) (s : ants_dht_state) : ants_dht_state :=
  mk_dht (local_peer_id s) (event_fn s) (refresh_interval_ms s) (buckets s) rs.

Definition get_state : action dht_world ants_dht_state := fun w => Ok w (state w).
Definition update (f : ants_dht_state -> ants_dht_state) : action dht_world unit := fun w =>
  Ok (mk_world (f (state w)) (answers w) (pings w) (events w)) tt.
Definition answer : action dht_world bool := fun w =>
  match answers w with
  | [] => Ok w true
  | b :: r => Ok (mk_world (state w) r (pings w) (events w)) b
  end.
Definition set_pings (f : list bytes -> list bytes) : action dht_world unit := fun w =>
  Ok (mk_world (state w) (answers w) (f (pings w)) (events w)) tt.

(** [if (state->event_fn != NULL) (void)state->event_fn(&ev, ...)] *)
Definition fire (ev : dht_event) : action dht_world unit := fun w =>
  Ok (if event_fn (state w) then mk_world (state w) (answers w) (pings w) (events w ++ [ev]) else w) tt.

(** The code a call returns, [None] for [ANTS_OK]. *)
Definition status {S} (m : action S unit) : action S (option ants_error_t) := fun s =>
  match m s with
  | Ok s' _ => Ok s' None
  | Err s' e => Ok s' (Some e)
  | UB => UB
  | NoFuel => NoFuel
  end.

(** [state->buckets[b]] and an assignment to it. *)
Definition bucket_at (b : Z) : action dht_world ants_dht_bucket :=
  let* s := get_state in deref (get_at (buckets s) b).
Definition put_bucket (b : Z) (k : ants_dht_bucket) : action dht_world unit :=
  let* s := get_state in
  let* bs := deref (set_at (buckets s) b k) in
  update (with_buckets bs).

(** ** XOR distance and bucket index *)

Definition xor_distance (a b : bytes) : bytes := zip_with Z.lxor a b.

(** [while ((b & (1u << hi)) == 0 && hi > 0) hi--] *)
Fixpoint hi_bit_in_byte (b : Z) (hi : nat) : Z :=
  match hi with
  | O => 0
  | S h => if Z.land b (Z.shiftl 1 (Z.of_nat hi)) =? 0 then hi_bit_in_byte b h else Z.of_nat hi
  end.

Fixpoint msb_scan (i : Z) (dist : bytes) : Z :=
  match dist with
  | [] => UINT32_MAX
  | b :: rest => if b =? 0 then msb_scan (i + 1) rest
                 else u32 (u32 ((ANTS_PEER_ID_SIZE - 1 - i) * 8) + hi_bit_in_byte b 7)
  end.

Definition bucket_index_for_peer (s : ants_dht_state) (id : bytes) : Z :=
  msb_scan 0 (xor_distance (local_peer_id s) id).

(** ** Buckets *)

Definition has_id (id : bytes) (e : ants_dht_bucket_entry) : bool := memcmp (peer_id (e_peer e)) id =? 0.

(** The entry of [id] and the list without it. *)
Fixpoint unlink (id : bytes) (l : list ants_dht_bucket_entry)
  : option (ants_dht_bucket_entry * list ants_dht_bucket_entry) :=
  match l with
  | [] => None
  | e :: r => if has_id id e then Some (e, r)
              else match unlink id r with Some (hit, r') => Some (hit, e :: r') | None => None end
  end.

(** What a refresh leaves in the entry. *)
Definition refreshed (hit : ants_dht_bucket_entry) (p : ants_dht_peer_t) (conn : option Z) (now : Z)
  : ants_dht_bucket_entry :=
  mk_entry (mk_peer (peer_id (e_peer hit)) (multiaddr p))
    (match conn with Some _ => conn | None => e_conn hit end) now (dead_strikes hit) (ping_in_flight hit).

Definition kbucket_insert (p : ants_dht_peer_t) (conn : option Z) (now : Z) : action dht_world unit :=
  let* s := get_state in
  let bidx := bucket_index_for_peer s (peer_id p) in
  if bidx =? UINT32_MAX then fail ANTS_ERROR_INVALID_ARG
  else
    let* k := bucket_at bidx in
    match unlink (peer_id p) (head k) with
    | Some (hit, rest) => put_bucket bidx (mk_bucket (refreshed hit p conn now :: rest) (count k))
    | None =>
      if Z.of_nat ANTS_DHT_K <=? count k then fail ANTS_ERROR_BUFFER_TOO_SMALL
      else
        let* granted := answer in
        if negb granted then fail ANTS_ERROR_MALFORMED
        else put_bucket bidx (mk_bucket (mk_entry p conn now 0 false :: head k) (size_add (count k) 1))
    end.

Definition kbucket_remove (id : bytes) : action dht_world unit :=
  let* s := get_state in
  let bidx := bucket_index_for_peer s id in
  if bidx =? UINT32_MAX then fail ANTS_ERROR_INVALID_ARG
  else
    let* k := bucket_at bidx in
    match unlink id (head k) with
    | Some (_, rest) => put_bucket bidx (mk_bucket rest (size_sub (count k) 1))
    | None => fail ANTS_ERROR_NOT_IMPLEMENTED
    end.

Definition kbucket_total_count (s : ants_dht_state) : Z :=
  foldl (fun total k => size_add total (count k)) 0 (buckets s).

(** The walk over every bucket and every list. *)
Definition all_entries (s : ants_dht_state) : list ants_dht_bucket_entry := flat_map head (buckets s).

(** [out_peers[written++] = e->peer] *)
Fixpoint write_peers (i : Z) (l : list ants_dht_bucket_entry) (out : list ants_dht_peer_t)
  : option (list ants_dht_peer_t) :=
  match l with
  | [] => Some out
  | e :: r => out' ← set_at out i (e_peer e); write_peers (i + 1) r out'
  end.

(** The state is [out_peers] with its [cap] places and [*out_count]. *)
Definition kbucket_enumerate (s : ants_dht_state) (cap : Z) : action (list ants_dht_peer_t * Z) unit := fun o =>
  let total := kbucket_total_count s in
  if cap <? total then Err (o.1, total) ANTS_ERROR_BUFFER_TOO_SMALL
  else match write_peers 0 (all_entries s) o.1 with Some out => Ok (out, total) tt | None => UB end.

Definition ants_dht_routing_table_size (s : ants_dht_state) : Z := kbucket_total_count s.

Definition ants_dht_routing_table_enumerate (s : ants_dht_state) (cap : Z)
  : action (list ants_dht_peer_t * Z) unit := kbucket_enumerate s cap.

(** Position of an entry in the list of its bucket. *)
Fixpoint position_of (id : bytes) (i : nat) (l : list ants_dht_bucket_entry) : option nat :=
  match l with
  | [] => None
  | e :: r => if has_id id e then Some i else position_of id (S i) r
  end.

(** A pointer to an entry: its bucket and its position there. *)
Definition find_entry_by_peer_id (id : bytes) : action dht_world (option (Z * nat)) :=
  let* s := get_state in
  let bidx := bucket_index_for_peer s id in
  if bidx =? UINT32_MAX then ret None
  else
    let* k := bucket_at bidx in
    match position_of id 0 (head k) with Some i => ret (Some (bidx, i)) | None => ret None end.

(** [*entry] and an assignment to it. *)
Definition entry_at (ptr : Z * nat) : action dht_world ants_dht_bucket_entry :=
  let* k := bucket_at ptr.1 in deref (head k !! ptr.2).
Definition put_entry (ptr : Z * nat) (e : ants_dht_bucket_entry) : action dht_world unit :=
  let* k := bucket_at ptr.1 in put_bucket ptr.1 (mk_bucket (<[ptr.2 := e]> (head k)) (count k)).

Definition set_in_flight (b : bool) (e : ants_dht_bucket_entry) : ants_dht_bucket_entry :=
  mk_entry (e_peer e) (e_conn e) (last_seen_us e) (dead_strikes e) b.
Definition set_strikes (n : Z) (e : ants_dht_bucket_entry) : ants_dht_bucket_entry :=
  mk_entry (e_peer e) (e_conn e) (last_seen_us e) n (ping_in_flight e).
Definition set_seen (t : Z) (e : ants_dht_bucket_entry) : ants_dht_bucket_entry :=
  mk_entry (e_peer e) (e_conn e) t (dead_strikes e) (ping_in_flight e).
Definition set_conn (c : option Z) (e : ants_dht_bucket_entry) : ants_dht_bucket_entry :=
  mk_entry (e_peer e) c (last_seen_us e) (dead_strikes e) (ping_in_flight e).

(** ** Liveness probes and the replacement cache *)

(** The result is [*entry] after the call. *)
Definition issue_refresh_ping (e : ants_dht_bucket_entry) : action dht_world ants_dht_bucket_entry :=
  let* granted := answer in
  if negb granted then ret e
  else
    let* sent := answer in
    if negb sent then ret (set_in_flight false e)
    else set_pings (fun ps => ps ++ [peer_id (e_peer e)]) ;* ret (set_in_flight true e).

Fixpoint lru_scan (i : nat) (l : list ants_dht_bucket_entry) (lru : option (nat * ants_dht_bucket_entry))
  : option (nat * ants_dht_bucket_entry) :=
  match l with
  | [] => lru
  | e :: r =>
    let lru' :=
      match e_conn e with
      | None => lru
      | Some _ => match lru with
                  | None => Some (i, e)
                  | Some (_, b) => if last_seen_us e <? last_seen_us b then Some (i, e) else lru
                  end
      end in
    lru_scan (S i) r lru'
  end.

Definition bucket_find_lru_conn_entry (k : ants_dht_bucket) : option (nat * ants_dht_bucket_entry) :=
  lru_scan 0 (head k) None.

(** The slot [dht_park_replacement] writes: the one that already serves the
    bucket, else the first free one. *)
Fixpoint park_slot (s : ants_dht_state) (bidx : Z) (i : nat) (rs : list ants_dht_replacement) (free_slot : option nat)
  : option nat :=
  match rs with
  | [] => free_slot
  | r :: rest =>
    if r_in_use r then
      if bucket_index_for_peer s (peer_id (r_peer r)) =? bidx then Some i
      else park_slot s bidx (S i) rest free_slot
    else park_slot s bidx (S i) rest (match free_slot with None => Some i | Some _ => free_slot end)
  end.

Definition dht_park_replacement (p : ants_dht_peer_t) (conn : option Z) (bidx : Z) : action dht_world unit :=
  let* s := get_state in
  match park_slot s bidx 0 (replacements s) None with
  | None => ret tt
  | Some i => update (with_replacements (<[i := mk_replacement true conn p]> (replacements s)))
  end.

Fixpoint promote_slot (s : ants_dht_state) (bidx : Z) (i : nat) (rs : list ants_dht_replacement)
  : option (nat * ants_dht_replacement) :=
  match rs with
  | [] => None
  | r :: rest =>
    if negb (r_in_use r) || negb (bucket_index_for_peer s (peer_id (r_peer r)) =? bidx)
    then promote_slot s bidx (S i) rest
    else Some (i, r)
  end.

Definition dht_promote_replacement (bidx : Z) (now : Z) : action dht_world unit :=
  let* s := get_state in
  match promote_slot s bidx 0 (replacements s) with
  | None => ret tt
  | Some (i, r) =>
    update (with_replacements (<[i := mk_replacement false (r_conn r) (r_peer r)]> (replacements s))) ;*
    let* err := status (kbucket_insert (r_peer r) (r_conn r) now) in
    match err with
    | None => fire (ANTS_DHT_EV_PEER_DISCOVERED (r_peer r))
    | Some _ => ret tt
    end
  end.

Definition dht_bucket_full_admit (p : ants_dht_peer_t) (conn : option Z) (bidx : Z) : action dht_world unit :=
  dht_park_replacement p conn bidx ;*
  let* k := bucket_at bidx in
  match bucket_find_lru_conn_entry k with
  | None => ret tt
  | Some (i, lru) =>
    if ping_in_flight lru then ret tt
    else let* lru' := issue_refresh_ping lru in put_entry (bidx, i) lru'
  end.

Definition dht_routing_upsert (p : ants_dht_peer_t) (conn : option Z) (now : Z) : action dht_world unit :=
  let* was_present := find_entry_by_peer_id (peer_id p) in
  let* err := status (kbucket_insert p conn now) in
  match err with
  | None => match was_present with
            | None => fire (ANTS_DHT_EV_PEER_DISCOVERED p)
            | Some _ => ret tt
            end
  | Some e =>
    (if bool_decide (e = ANTS_ERROR_BUFFER_TOO_SMALL) then
       let* s := get_state in
       let bidx := bucket_index_for_peer s (peer_id p) in
       if negb (bidx =? UINT32_MAX) then dht_bucket_full_admit p conn bidx else ret tt
     else ret tt) ;* fail e
  end.

(** [now] is what [dht_now_us()] reads during the call. *)
Definition dht_apply_ping_result (id : bytes) (ok : bool) (now : Z) : action dht_world unit :=
  let* entry := find_entry_by_peer_id id in
  match entry with
  | None => ret tt
  | Some ptr =>
    let* e := entry_at ptr in
    put_entry ptr (set_in_flight false e) ;*
    if ok then put_entry ptr (set_seen now (set_strikes 0 (set_in_flight false e)))
    else
      let strikes := u8 (dead_strikes e + 1) in
      put_entry ptr (set_strikes strikes (set_in_flight false e)) ;*
      if ANTS_DHT_DEAD_STRIKE_THRESHOLD <=? strikes then
        let* s := get_state in
        let bidx := bucket_index_for_peer s id in
        let* _ := status (kbucket_remove id) in
        fire (ANTS_DHT_EV_PEER_EVICTED (e_peer e)) ;*
        dht_promote_replacement bidx now
      else ret tt
  end.

(** The context is the [n]th of the outstanding ones; it is freed. *)
Definition refresh_ping_completion (n : nat) (ok : bool) (now : Z) : action dht_world unit := fun w =>
  match pings w !! n with
  | None => UB
  | Some id => (dht_apply_ping_result id ok now ;* set_pings (delete n)) w
  end.

(** [if (e->conn == NULL || e->ping_in_flight) continue; ...] *)
Definition due (stale_us now : Z) (e : ants_dht_bucket_entry) : bool :=
  match e_conn e with
  | None => false
  | Some _ =>
    negb (ping_in_flight e) &&
    (stale_us <=? if last_seen_us e =? 0 then stale_us else u64 (now - last_seen_us e))
  end.

Fixpoint sweep_entries (stale_us now : Z) (l : list ants_dht_bucket_entry)
  : action dht_world (list ants_dht_bucket_entry) :=
  match l with
  | [] => ret []
  | e :: r =>
    let* e' := if due stale_us now e then issue_refresh_ping e else ret e in
    let* r' := sweep_entries stale_us now r in
    ret (e' :: r')
  end.

(** [for (i = 0; i < ANTS_DHT_BUCKET_COUNT; i++)] *)
Fixpoint sweep_buckets (stale_us now : Z) (n : nat) (i : Z) : action dht_world unit :=
  match n with
  | O => ret tt
  | S n' =>
    let* k := bucket_at i in
    let* l := sweep_entries stale_us now (head k) in
    put_bucket i (mk_bucket l (count k)) ;*
    sweep_buckets stale_us now n' (i + 1)
  end.

Definition refresh_tick (now : Z) : action dht_world bool :=
  let* s := get_state in
  if refresh_interval_ms s =? 0 then ret false
  else
    let stale_us := u64 (refresh_interval_ms s * 1000) in
    sweep_buckets stale_us now ANTS_DHT_BUCKET_COUNT 0 ;*
    fire ANTS_DHT_EV_TABLE_REFRESHED ;* ret true.

(** On CONN_CLOSED every copy of the connection in the table and in the cache
    is dropped. *)
Definition drop_conn (c : Z) (e : ants_dht_bucket_entry) : ants_dht_bucket_entry :=
  if bool_decide (e_conn e = Some c) then set_conn None e else e.

Definition drop_parked (c : Z) (r : ants_dht_replacement) : ants_dht_replacement :=
  if r_in_use r && bool_decide (r_conn r = Some c) then mk_replacement false (r_conn r) (r_peer r) else r.

Definition routing_conn_closed (c : Z) : action dht_world unit :=
  update (fun s => with_buckets (map (fun k => mk_bucket (map (drop_conn c) (head k)) (count k)) (buckets s)) s) ;*
  update (fun s => with_replacements (map (drop_parked c) (replacements s)) s).

Definition kbucket_drop_all : action dht_world unit :=
  update (fun s => with_buckets (map (fun _ => mk_bucket [] 0) (buckets s)) s).

(** ** The K closest entries *)

(** [for (j = pos + n; j > pos; j--) top[j] = top[j - 1]] *)
Fixpoint shift_right {A} (pos n : nat) (top : list A) : option (list A) :=
  match n with
  | O => Some top
  | S n' =>
    x ← top !! (pos + n')%nat;
    if (pos + n <? length top)%nat then shift_right pos n' (<[(pos + n)%nat := x]> top) else None
  end.

(** The first of the [n] places with a larger distance, else [n]. *)
Fixpoint place {A} (dist : bytes) (j n : nat) (top : list (A * bytes)) : option nat :=
  match n with
  | O => Some j
  | S n' =>
    x ← top !! j;
    if memcmp dist x.2 <? 0 then Some j else place dist (S j) n' top
  end.

(** One candidate against the array [top] of [ANTS_DHT_K] places of which
    [top_count] are taken. *)
Definition closest_add {A} (target : bytes) (id : bytes) (x : A) (top : list (A * bytes)) (top_count : nat)
  : option (list (A * bytes) * nat) :=
  let dist := xor_distance target id in
  pos ← place dist 0 top_count top;
  if (pos =? ANTS_DHT_K)%nat then Some (top, top_count)
  else
    let last := if (top_count <? ANTS_DHT_K)%nat then top_count else (ANTS_DHT_K - 1)%nat in
    top' ← shift_right pos (last - pos) top;
    if (pos <? length top')%nat
    then Some (<[pos := (x, dist)]> top', if (top_count <? ANTS_DHT_K)%nat then S top_count else top_count)
    else None.
Fixpoint closest_peers (target : bytes) (l : list ants_dht_bucket_entry)
  (top : list (ants_dht_peer_t * bytes)) (top_count : nat) : option (list (ants_dht_peer_t * bytes) * nat) :=
  match l with
  | [] => Some (top, top_count)
  | e :: r =>
    '(top', n) ← closest_add target (peer_id (e_peer e)) (e_peer e) top top_count;
    closest_peers target r top' n
  end.

(** The first [top_count] places are what reaches [out_peers]. *)
Definition find_kclosest_peers (s : ants_dht_state) (target : bytes) : option (list ants_dht_peer_t) :=
  '(top, n) ← closest_peers target (all_entries s) (replicate ANTS_DHT_K (mk_peer [] [], [])) 0;
  Some (map fst (take n top)).

(** The same with entries as elements, and only those with a connection. *)
Fixpoint closest_entries (target : bytes) (l : list ants_dht_bucket_entry)
  (top : list (ants_dht_bucket_entry * bytes)) (count : nat) : option (list (ants_dht_bucket_entry * bytes) * nat) :=
  match l with
  | [] => Some (top, count)
  | e :: r =>
    match e_conn e with
    | None => closest_entries target r top count
    | Some _ =>
      '(top', n) ← closest_add target (peer_id (e_peer e)) e top count;
      closest_entries target r top' n
    end
  end.

Definition find_kclosest_conn_entries (s : ants_dht_state) (target : bytes) : option (list ants_dht_bucket_entry) :=
  '(top, n) ← closest_entries target (all_entries s)
                (replicate ANTS_DHT_K (mk_entry (mk_peer [] []) None 0 0 false, [])) 0;
  Some (map fst (take n top)).

(** ** The bucket-diverse sample *)

(** One pass over the buckets at one depth, from the [i]th in visiting order;
    [out] is what has been written. *)
Fixpoint sample_sweep (s : ants_dht_state) (rotation n_out : Z) (depth : Z) (n : nat) (i : Z)
  (out : list ants_dht_peer_t) (progress : bool) : option (list ants_dht_peer_t * bool) :=
  match n with
  | O => Some (out, progress)
  | S n' =>
    if negb (zlen out <? n_out) then Some (out, progress)
    else
      let b := u64 (rotation + i) mod Z.of_nat ANTS_DHT_BUCKET_COUNT in
      bucket ← get_at (buckets s) b;
      if count bucket <=? depth then sample_sweep s rotation n_out depth n' (i + 1) out progress
      else
        let idx := size_add depth (rotation mod count bucket) mod count bucket in
        match head bucket !! Z.to_nat idx with
        | Some e => sample_sweep s rotation n_out depth n' (i + 1) (out ++ [e_peer e]) true
        | None => sample_sweep s rotation n_out depth n' (i + 1) out progress
        end
  end.

(** [do { ... depth++; } while (progress && written < n_out)] *)
Fixpoint sample_loop (fuel : nat) (s : ants_dht_state) (rotation n_out depth : Z) (out : list ants_dht_peer_t)
  : outcome unit (list ants_dht_peer_t) :=
  match fuel with
  | O => NoFuel
  | S f =>
    match sample_sweep s rotation n_out depth ANTS_DHT_BUCKET_COUNT 0 out false with
    | None => UB
    | Some (out', progress) =>
      if progress && (zlen out' <? n_out) then sample_loop f s rotation n_out (size_add depth 1) out'
      else Ok tt out'
    end
  end.

(** A bucket holds at most [ANTS_DHT_K] entries, so a pass beyond that depth
    makes no progress. *)
Definition kbucket_sample (s : ants_dht_state) (rotation n_out : Z) : outcome unit (list ants_dht_peer_t) :=
  sample_loop (S ANTS_DHT_K) s rotation n_out 0 [].

Definition ants_dht_sample_peers_rotated (s : ants_dht_state) (rotation n_out : Z)
  : outcome unit (list ants_dht_peer_t) :=
  if n_out =? 0 then Ok tt [] else kbucket_sample s rotation n_out.

Definition ants_dht_sample_peers (s : ants_dht_state) (n_out : Z) : outcome unit (list ants_dht_peer_t) :=
  ants_dht_sample_peers_rotated s 0 n_out.

(** ** Start *)

(** [memset(dht->_opaque, 0, ...)] and the configuration. *)
Definition ants_dht_init (local : bytes) (refresh_interval : Z) : ants_dht_state :=
  mk_dht local true refresh_interval (replicate ANTS_DHT_BUCKET_COUNT (mk_bucket [] 0))
    (replicate ANTS_DHT_MAX_REPLACEMENTS (mk_replacement false None (mk_peer [] []))).
End Dht.
