(* ===== verification/DhtClosest.v ===== *)
(** * The XOR metric (dht.c, dht_server.c)

    Peer identities are 256-bit numbers in big-endian order; the distance of
    the code is the exclusive or of the numbers, [memcmp] compares distances as
    numbers, and the bucket of a peer is the logarithm of its distance.

    Then: the closest entries of the table. *)

From S2P Require Import Prelude CborSpec Dht.
Import Dht.

#[local] Arguments zlen {A} l : simpl never.

(** A peer identity: 32 bytes. *)
Definition id_ok (id : bytes) : Prop := zlen id = ANTS_PEER_ID_SIZE /\ bytes_ok id.

#[export] Instance id_ok_dec id : Decision (id_ok id).
Proof. unfold id_ok. apply _. Defined.

(** The number a peer identity or a distance stands for. *)
Definition number (id : bytes) : Z := be_value 0 id.

Definition xor_metric (a b : bytes) : Z := Z.lxor (number a) (number b).

(** ** Numbers digit by digit *)

Lemma number_cons x b : number (x :: b) = x * 2 ^ (8 * zlen b) + number b.
Proof.
  unfold number. cbn [be_value]. rewrite be_value_acc. replace (0 * 256 + x) with x by lia.
  pose proof (zlen_nonneg b). change 256 with (2 ^ 8). by rewrite <- Z.pow_mul_r by lia.
Qed.

Lemma number_bound b : bytes_ok b -> 0 <= number b < 2 ^ (8 * zlen b).
Proof.
  intros Hb. apply be_value_bound in Hb. pose proof (zlen_nonneg b). rewrite Z.pow_mul_r by lia. exact Hb.
Qed.

Lemma testbit_split x k a i : 0 <= k -> 0 <= a < 2 ^ k -> 0 <= i ->
  Z.testbit (x * 2 ^ k + a) i = if i <? k then Z.testbit a i else Z.testbit x (i - k).
Proof.
  intros Hk Ha Hi. rewrite <- lor_disjoint by done. rewrite Z.lor_spec.
  destruct (Z.ltb_spec i k).
  - by rewrite Z.shiftl_spec_low.
  - rewrite Z.shiftl_spec by lia. replace (Z.testbit a i) with false; [apply orb_false_r|].
    destruct (decide (a = 0)) as [->|]; [by rewrite Z.bits_0|]. symmetry. apply Z.bits_above_log2; [lia|].
    apply Z.log2_lt_pow2; [lia|]. apply Z.lt_le_trans with (2 ^ k); [lia|]. apply Z.pow_le_mono_r; lia.
Qed.

Lemma lxor_bound x y k : 0 <= k -> 0 <= x < 2 ^ k -> 0 <= y < 2 ^ k -> 0 <= Z.lxor x y < 2 ^ k.
Proof.
  intros Hk Hx Hy. assert (Hn : 0 <= Z.lxor x y) by (apply Z.lxor_nonneg; lia). split; [done|].
  destruct (decide (Z.lxor x y = 0)) as [->|]; [by apply Z.pow_pos_nonneg|].
  apply Z.log2_lt_pow2; [lia|]. apply Z.le_lt_trans with (1 := Z.log2_lxor x y ltac:(lia) ltac:(lia)).
  destruct (decide (x = 0)), (decide (y = 0)); subst; cbn [Z.log2].
  - rewrite Z.lxor_0_l in *. done.
  - rewrite Z.max_r by apply Z.log2_nonneg. apply Z.log2_lt_pow2; lia.
  - rewrite Z.max_l by apply Z.log2_nonneg. apply Z.log2_lt_pow2; lia.
  - apply Z.max_lub_lt; apply Z.log2_lt_pow2; lia.
Qed.

Lemma lxor_split x y k a b : 0 <= k -> 0 <= a < 2 ^ k -> 0 <= b < 2 ^ k ->
  Z.lxor (x * 2 ^ k + a) (y * 2 ^ k + b) = Z.lxor x y * 2 ^ k + Z.lxor a b.
Proof.
  intros Hk Ha Hb. apply Z.bits_inj'. intros i Hi.
  rewrite Z.lxor_spec, !testbit_split by first [done|by apply lxor_bound].
  destruct (i <? k); by rewrite Z.lxor_spec.
Qed.

Lemma xor_distance_zlen a b : zlen a = zlen b -> zlen (xor_distance a b) = zlen a.
Proof. unfold xor_distance, zlen. rewrite length_zip_with. lia. Qed.

Lemma xor_distance_ok a : forall b, bytes_ok a -> bytes_ok b -> bytes_ok (xor_distance a b).
Proof.
  induction a as [|x a IH]; intros [|y b] Ha Hb; [constructor..|]. inversion Ha; inversion Hb; subst.
  constructor; [by apply lxor_bound|by apply IH].
Qed.

Lemma number_xor a : forall b, zlen a = zlen b -> bytes_ok a -> bytes_ok b ->
  number (xor_distance a b) = xor_metric a b.
Proof.
  unfold xor_metric. induction a as [|x a IH]; intros [|y b] Hl Ha Hb; [done|short_list..|].
  rewrite !zlen_cons in Hl. inversion Ha; inversion Hb; subst. cbn [xor_distance zip_with].
  fold (xor_distance a b). rewrite !number_cons, IH by first [done|lia].
  rewrite xor_distance_zlen by lia. assert (Hz : zlen a = zlen b) by lia. rewrite Hz.
  rewrite lxor_split; [done| |rewrite <- Hz; by apply number_bound|by apply number_bound].
  pose proof (zlen_nonneg b). lia.
Qed.

(** ** Comparing distances *)

Lemma memcmp_swap a : forall b, memcmp b a = - memcmp a b.
Proof.
  induction a as [|x a IH]; intros [|y b]; [done..|]. cbn [memcmp].
  rewrite (Z.eqb_sym y x). destruct (x =? y); [apply IH|lia].
Qed.

Lemma memcmp_number a : forall b, zlen a = zlen b -> bytes_ok a -> bytes_ok b ->
  (memcmp a b < 0 <-> number a < number b).
Proof.
  induction a as [|x a IH]; intros [|y b] Hl Ha Hb; [done|short_list..|].
  rewrite !zlen_cons in Hl. inversion Ha; inversion Hb; subst.
  assert (Hz : zlen a = zlen b) by lia. rewrite !number_cons, Hz. cbn [memcmp].
  pose proof (number_bound a ltac:(done)) as Hna. rewrite Hz in Hna.
  pose proof (number_bound b ltac:(done)) as Hnb.
  destruct (Z.eqb_spec x y) as [->|Hne]; [rewrite IH by done; lia|].
  set (P := 2 ^ (8 * zlen b)) in *. split; intros Hlt; [|].
  - assert (x + 1 <= y) by lia. assert ((x + 1) * P <= y * P) by (apply Z.mul_le_mono_nonneg_r; lia). lia.
  - destruct (Z.lt_ge_cases x y); [lia|]. assert (y + 1 <= x) by lia.
    assert ((y + 1) * P <= x * P) by (apply Z.mul_le_mono_nonneg_r; lia). lia.
Qed.

Lemma number_inj a : forall b, zlen a = zlen b -> bytes_ok a -> bytes_ok b -> number a = number b -> a = b.
Proof.
  intros b Hl Ha Hb Hn. pose proof (memcmp_number a b Hl Ha Hb) as H1.
  pose proof (memcmp_number b a ltac:(done) Hb Ha) as H2. rewrite Hn in H1, H2.
  apply (bool_decide_unpack _). rewrite <- (memcmp_eq a b Hl).
  destruct (Z.eqb_spec (memcmp a b) 0) as [|Hne]; [exact I|]. exfalso. rewrite memcmp_swap in H2. lia.
Qed.

(** ** The bucket index *)

Lemma hi_bit_byte b : 0 < b < 256 -> hi_bit_in_byte b 7 = Z.log2 b.
Proof.
  intros Hb. assert (Hall : forallb (fun n => hi_bit_in_byte (Z.of_nat n) 7 =? Z.log2 (Z.of_nat n)) (seq 1 255) = true)
    by (vm_compute; reflexivity).
  rewrite forallb_forall in Hall. specialize (Hall (Z.to_nat b)).
  rewrite Z2Nat.id in Hall by lia. apply Z.eqb_eq, Hall, in_seq. lia.
Qed.

Lemma log2_leading x k a : 0 <= k -> 0 < x -> 0 <= a < 2 ^ k -> Z.log2 (x * 2 ^ k + a) = k + Z.log2 x.
Proof.
  intros Hk Hx Ha. apply Z.log2_unique; [pose proof (Z.log2_nonneg x); lia|].
  destruct (Z.log2_spec x Hx) as [Hlo Hhi]. pose proof (Z.log2_nonneg x).
  rewrite <- Z.add_succ_r, !Z.pow_add_r by lia.
  assert (2 ^ Z.log2 x * 2 ^ k <= x * 2 ^ k) by (apply Z.mul_le_mono_nonneg_r; lia).
  assert ((x + 1) * 2 ^ k <= 2 ^ Z.succ (Z.log2 x) * 2 ^ k) by (apply Z.mul_le_mono_nonneg_r; lia). lia.
Qed.

Lemma msb_scan_log2 d : forall i, 0 <= i -> i + zlen d = ANTS_PEER_ID_SIZE -> bytes_ok d ->
  msb_scan i d = if number d =? 0 then UINT32_MAX else Z.log2 (number d).
Proof.
  unfold ANTS_PEER_ID_SIZE. induction d as [|b d IH]; intros i Hi Hl Hd; [done|].
  inversion Hd; subst. rewrite zlen_cons in Hl. rewrite number_cons. cbn [msb_scan].
  pose proof (number_bound d ltac:(done)) as Hn. pose proof (zlen_nonneg d).
  assert (Hb : 0 <= b < 256) by done.
  destruct (Z.eqb_spec b 0) as [->|Hne]; [rewrite IH by first [done|lia]; by rewrite Z.mul_0_l, Z.add_0_l|].
  assert (Hp : 1 * 2 ^ (8 * zlen d) <= b * 2 ^ (8 * zlen d)) by (apply Z.mul_le_mono_nonneg_r; lia).
  bdecide. rewrite log2_leading by lia. rewrite hi_bit_byte by lia.
  assert (Z.log2 b < 8) by (apply Z.log2_lt_pow2; lia). pose proof (Z.log2_nonneg b).
  replace ((ANTS_PEER_ID_SIZE - 1 - i) * 8) with (8 * zlen d) by (unfold ANTS_PEER_ID_SIZE; lia).
  unfold u32. rewrite (Z.mod_small (8 * zlen d)) by lia. apply Z.mod_small. lia.
Qed.

(** The bucket of a peer is the position of the highest bit in which its
    identity differs from the local one, and the local identity has none. *)
Lemma bucket_index_log2 s id : id_ok (local_peer_id s) -> id_ok id ->
  bucket_index_for_peer s id =
    if bool_decide (id = local_peer_id s) then UINT32_MAX else Z.log2 (xor_metric (local_peer_id s) id).
Proof.
  intros [Hl Hlo] [Hi Hio]. unfold bucket_index_for_peer.
  rewrite msb_scan_log2; [|lia|rewrite xor_distance_zlen; lia|by apply xor_distance_ok].
  rewrite number_xor by first [done|lia]. unfold xor_metric. case_bool_decide as Hid.
  - subst. by rewrite Z.lxor_nilpotent.
  - destruct (Z.eqb_spec (Z.lxor (number (local_peer_id s)) (number id)) 0) as [Hz|]; [|done].
    exfalso. apply Hid. apply Z.lxor_eq in Hz. symmetry. apply number_inj; try done. lia.
Qed.

Lemma bucket_index_range s id : id_ok (local_peer_id s) -> id_ok id ->
  bucket_index_for_peer s id = UINT32_MAX /\ id = local_peer_id s \/
  0 <= bucket_index_for_peer s id < Z.of_nat ANTS_DHT_BUCKET_COUNT /\ id <> local_peer_id s.
Proof.
  intros Hl Hi. rewrite bucket_index_log2 by done. case_bool_decide as Hid; [by left|right]. split; [|done].
  destruct Hl as [Hl Hlo], Hi as [Hi Hio]. split; [apply Z.log2_nonneg|].
  pose proof (lxor_bound (number (local_peer_id s)) (number id) (8 * 32) ltac:(lia)) as Hb.
  unfold ANTS_PEER_ID_SIZE in *. pose proof (number_bound _ Hlo) as H1. pose proof (number_bound _ Hio) as H2.
  rewrite Hl in H1. rewrite Hi in H2. specialize (Hb H1 H2). fold (xor_metric (local_peer_id s) id) in Hb.
  destruct (Z.eqb_spec (xor_metric (local_peer_id s) id) 0) as [->|]; [done|].
  apply Z.log2_lt_pow2; [lia|]. change (Z.of_nat ANTS_DHT_BUCKET_COUNT) with (8 * 32). lia.
Qed.

(** * The K closest peers (dht_server.c, dht.c)

    The bounded insertion sort on the array of K places computes the first K
    elements of the stable sort by distance, whatever the number of entries. *)

(** ** The sort the array tracks *)

Section insertion.
Context {A : Type}.
Implicit Types (x : A * bytes) (l : list (A * bytes)).

Fixpoint insert_by x l : list (A * bytes) :=
  match l with
  | [] => [x]
  | y :: r => if memcmp x.2 y.2 <? 0 then x :: y :: r else y :: insert_by x r
  end.

(** Where the insertion happens. *)
Fixpoint rank_in (d : bytes) l : nat :=
  match l with
  | [] => O
  | y :: r => if memcmp d y.2 <? 0 then O else S (rank_in d r)
  end.

Lemma rank_in_le d l : (rank_in d l <= length l)%nat.
Proof. induction l as [|y r IH]; cbn [rank_in length]; [lia|]. destruct (_ <? _); lia. Qed.

Lemma insert_by_rank x l : insert_by x l = take (rank_in x.2 l) l ++ x :: drop (rank_in x.2 l) l.
Proof. induction l as [|y r IH]; cbn; [done|]. destruct (_ <? _); [done|]. cbn. by rewrite IH. Qed.

Lemma insert_by_perm x l : insert_by x l ≡ₚ x :: l.
Proof. rewrite insert_by_rank, <- Permutation_middle. by rewrite take_drop. Qed.

Lemma length_insert_by x l : length (insert_by x l) = S (length l).
Proof. by rewrite insert_by_perm. Qed.

(** What lies beyond the first [k] never comes back. *)
Lemma take_insert_by x l : forall k, take k (insert_by x (take k l)) = take k (insert_by x l).
Proof.
  induction l as [|y r IH]; intros [|k]; [done..|]. cbn. destruct (_ <? _); cbn; [|by rewrite IH].
  f_equal. destruct k as [|k]; [done|]. cbn. by rewrite take_take, Nat.min_l by lia.
Qed.

(** *** The array *)

Lemma place_rank d a b : forall j, j = length a -> forall junk,
  place d j (length b) (a ++ b ++ junk) = Some (j + rank_in d b)%nat.
Proof.
  revert a. induction b as [|y b IH]; intros a j Hj junk; cbn; [by rewrite Nat.add_0_r|].
  rewrite lookup_app_r, Hj, Nat.sub_diag by lia. cbn. destruct (_ <? _); [by rewrite Nat.add_0_r|].
  specialize (IH (a ++ [y]) (S j) ltac:(rewrite length_app; cbn; lia) junk).
  rewrite <- app_assoc in IH. cbn in IH. rewrite <- Hj, IH. f_equal. lia.
Qed.

Lemma shift_right_ok (a b : list (A * bytes)) : forall y c, exists z,
  shift_right (length a) (length b) (a ++ b ++ y :: c) = Some (a ++ z :: b ++ c).
Proof.
  induction b as [|w b IH] using rev_ind; intros y c; [by exists y|].
  rewrite length_app, Nat.add_1_r. cbn [shift_right].
  rewrite lookup_app_r by lia. replace (length a + length b - length a)%nat with (length b) by lia.
  rewrite <- !app_assoc, (lookup_app_r b), Nat.sub_diag by lia. cbn [app lookup list_lookup mbind option_bind].
  destruct (IH w (w :: c)) as (z & Hz). exists z.
  replace (length a + S (length b) <? length (a ++ b ++ w :: y :: c))%nat with true
    by (symmetry; apply Nat.ltb_lt; rewrite !length_app; cbn; lia).
  rewrite insert_app_r_alt by lia. replace (length a + S (length b) - length a)%nat with (S (length b)) by lia.
  rewrite insert_app_r_alt by lia. replace (S (length b) - length b)%nat with 1%nat by lia. exact Hz.
Qed.

Lemma insert_middle (a b : list (A * bytes)) x y : <[length a := x]> (a ++ y :: b) = a ++ x :: b.
Proof. by rewrite insert_app_r_alt, Nat.sub_diag by lia. Qed.

(** [cur] is the part of the array in use. *)
Lemma closest_add_ok target id (e : A) cur junk : length (cur ++ junk) = ANTS_DHT_K ->
  exists junk',
    closest_add target id e (cur ++ junk) (length cur) =
      Some (take ANTS_DHT_K (insert_by (e, xor_distance target id) cur) ++ junk',
            length (take ANTS_DHT_K (insert_by (e, xor_distance target id) cur))) /\
    length (take ANTS_DHT_K (insert_by (e, xor_distance target id) cur) ++ junk') = ANTS_DHT_K.
Proof.
  rewrite length_app. intros Hl. set (d := xor_distance target id). unfold closest_add. fold d.
  pose proof (place_rank d [] cur 0 eq_refl junk) as Hp. cbn [app] in Hp. rewrite Hp. clear Hp.
  pose proof (rank_in_le d cur) as Hr. rewrite (insert_by_rank (e, d)). cbn [snd mbind option_bind Nat.add].
  set (p := rank_in d cur) in *.
  assert (Hlp : length (take p cur) = p) by (rewrite length_take; lia).
  assert (Hlen : length (take p cur ++ (e, d) :: drop p cur) = S (length cur))
    by (rewrite length_app; cbn [length]; rewrite length_drop; lia).
  destruct (Nat.ltb_spec (length cur) ANTS_DHT_K) as [Hlt|Hge].
  - destruct junk as [|y junk]; cbn [length] in Hl; [lia|]. exists junk.
    destruct (Nat.eqb_spec p ANTS_DHT_K); [lia|].
    destruct (shift_right_ok (take p cur) (drop p cur) y junk) as (z & Hz).
    rewrite Hlp, length_drop, (app_assoc (take p cur)), take_drop in Hz. rewrite Hz. cbn [option_bind mbind].
    rewrite (take_ge (take p cur ++ _)), Hlen by lia.
    destruct (Nat.ltb_spec p (length (take p cur ++ z :: drop p cur ++ junk))) as [_|Hx];
      [|rewrite length_app in Hx; cbn [length] in Hx; lia].
    rewrite <- Hlp at 1. rewrite insert_middle, <- app_assoc. split; [done|].
    rewrite app_assoc, length_app, Hlen. lia.
  - assert (junk = []) as -> by (destruct junk; cbn [length] in *; [done|lia]). exists [].
    cbn [length] in Hl. assert (Hk : length cur = ANTS_DHT_K) by lia. rewrite !app_nil_r.
    assert (Hlen' : length (take ANTS_DHT_K (take p cur ++ (e, d) :: drop p cur)) = ANTS_DHT_K)
      by (rewrite length_take, Hlen; lia).
    rewrite Hlen', Hk. split; [|done].
    destruct (Nat.eqb_spec p ANTS_DHT_K) as [Hpk|Hpk].
    { rewrite (take_ge cur), drop_ge by lia. by rewrite take_app_length'. }
    destruct (drop (ANTS_DHT_K - 1 - p) (drop p cur)) as [|y [|]] eqn:Hy;
      apply (f_equal length) in Hy as Hy'; rewrite !length_drop in Hy'; cbn [length] in Hy'; [lia| |lia].
    assert (Hb : length (take (ANTS_DHT_K - 1 - p) (drop p cur)) = (ANTS_DHT_K - 1 - p)%nat)
      by (rewrite length_take, length_drop; lia).
    destruct (shift_right_ok (take p cur) (take (ANTS_DHT_K - 1 - p) (drop p cur)) y []) as (z & Hz).
    rewrite Hlp, Hb, <- Hy, take_drop, take_drop in Hz. rewrite Hz. cbn [option_bind mbind].
    rewrite app_nil_r. destruct (Nat.ltb_spec p (length (take p cur ++ z :: take (ANTS_DHT_K - 1 - p) (drop p cur)))) as [_|Hx];
      [|rewrite length_app in Hx; cbn [length] in Hx; lia].
    rewrite <- Hlp at 1. rewrite insert_middle. f_equal. f_equal.
    rewrite <- (take_drop (ANTS_DHT_K - 1 - p) (drop p cur)) at 2.
    rewrite app_comm_cons, app_assoc, take_app_length'; [done|].
    rewrite length_app. cbn [length]. lia.
Qed.

(** ** Sortedness *)

Definition nearer (x y : A * bytes) : Prop := number x.2 <= number y.2.

Definition dist_ok (x : A * bytes) : Prop := zlen x.2 = ANTS_PEER_ID_SIZE /\ bytes_ok x.2.

Lemma memcmp_nearer x y : dist_ok x -> dist_ok y ->
  (memcmp x.2 y.2 <? 0) = bool_decide (number x.2 < number y.2).
Proof.
  intros [Hx Hxo] [Hy Hyo]. apply eq_true_iff_eq. rewrite Z.ltb_lt, bool_decide_eq_true.
  apply memcmp_number; [lia|done..].
Qed.

Lemma insert_by_sorted x l : dist_ok x -> Forall dist_ok l ->
  StronglySorted nearer l -> StronglySorted nearer (insert_by x l).
Proof.
  intros Hx Hl Hs. induction Hs as [|y r Hr IH Hall]; cbn; [by repeat constructor|].
  inversion Hl as [|? ? Hy Hl']; subst. rewrite memcmp_nearer by done. case_bool_decide as Hlt.
  - constructor; [by constructor|]. constructor; [unfold nearer; lia|].
    eapply Forall_impl; [exact Hall|]. unfold nearer. intros ? ?. lia.
  - constructor; [by apply IH|]. rewrite insert_by_perm. constructor; [unfold nearer; lia|done].
Qed.
End insertion.

(** ** The whole selection *)

Section selection.
Context {A : Type} (id_of : A -> bytes) (target : bytes).

Definition measured (e : A) : A * bytes := (e, xor_distance target (id_of e)).

(** The stable sort by distance, in the order of the walk. *)
Definition by_distance (l : list A) : list (A * bytes) :=
  foldl (fun acc e => insert_by (measured e) acc) [] l.

Fixpoint select (l : list A) (top : list (A * bytes)) (n : nat) : option (list (A * bytes) * nat) :=
  match l with
  | [] => Some (top, n)
  | e :: r => '(top', n') ← closest_add target (id_of e) e top n; select r top' n'
  end.

Lemma select_run l : forall acc junk, length (take ANTS_DHT_K acc ++ junk) = ANTS_DHT_K ->
  exists junk',
    select l (take ANTS_DHT_K acc ++ junk) (length (take ANTS_DHT_K acc)) =
      (let out := take ANTS_DHT_K (foldl (fun acc e => insert_by (measured e) acc) acc l) in
       Some (out ++ junk', length out)).
Proof.
  induction l as [|e l IH]; intros acc junk Hl; [by exists junk|]. cbn [select foldl].
  destruct (closest_add_ok target (id_of e) e (take ANTS_DHT_K acc) junk Hl) as (junk1 & -> & Hl1).
  rewrite take_insert_by in *. cbn [mbind option_bind]. by apply IH.
Qed.

Lemma by_distance_acc l : forall acc,
  foldl (fun acc e => insert_by (measured e) acc) acc l ≡ₚ map measured l ++ acc.
Proof.
  induction l as [|e l IH]; intros acc; [done|]. cbn [foldl map app]. rewrite IH, insert_by_perm.
  by rewrite <- Permutation_middle.
Qed.

Lemma by_distance_perm l : by_distance l ≡ₚ map measured l.
Proof. unfold by_distance. by rewrite by_distance_acc, app_nil_r. Qed.

Lemma measured_ok e : id_ok target -> id_ok (id_of e) -> dist_ok (measured e).
Proof.
  intros [Ht Hto] [He Heo]. split; cbn; [rewrite xor_distance_zlen; lia|by apply xor_distance_ok].
Qed.

Lemma by_distance_sorted l : id_ok target -> Forall (fun e => id_ok (id_of e)) l ->
  StronglySorted nearer (by_distance l).
Proof.
  intros Ht Hl. unfold by_distance.
  assert (Hgen : forall acc, Forall dist_ok acc -> StronglySorted nearer acc ->
    StronglySorted nearer (foldl (fun acc e => insert_by (measured e) acc) acc l)).
  { induction Hl as [|e l He Hl IH]; intros acc Hok Hs; [done|]. cbn [foldl].
    pose proof (measured_ok e Ht He). apply IH; [rewrite insert_by_perm; by constructor|by apply insert_by_sorted]. }
  by apply Hgen; constructor.
Qed.

(** [out] are the [ANTS_DHT_K] elements of [all] nearest to the target, all of
    them when they are no more, nearest first. *)
Definition closest_of (all out : list A) : Prop :=
  length out = Nat.min ANTS_DHT_K (length all) /\
  StronglySorted (fun x y => xor_metric target (id_of x) <= xor_metric target (id_of y)) out /\
  exists rest, all ≡ₚ out ++ rest /\
    forall x y, x ∈ out -> y ∈ rest -> xor_metric target (id_of x) <= xor_metric target (id_of y).

Lemma StronglySorted_map {B C} (R : C -> C -> Prop) (f : B -> C) l :
  StronglySorted R (map f l) <-> StronglySorted (fun x y => R (f x) (f y)) l.
Proof.
  induction l as [|x l IH]; cbn; [split; constructor|]. split; inversion 1; subst; constructor;
    [by apply IH|by apply Forall_map|by apply IH|by apply Forall_map].
Qed.

Lemma StronglySorted_prefix {B} (R : B -> B -> Prop) l k :
  StronglySorted R (l ++ k) -> StronglySorted R l /\ forall x y, x ∈ l -> y ∈ k -> R x y.
Proof.
  induction l as [|z l IH]; cbn; [intros _; split; [constructor|]; intros x y H; by apply elem_of_nil in H|].
  inversion 1 as [|? ? Hs Hall]; subst. destruct (IH Hs) as [Hl Hb]. rewrite Forall_app in Hall.
  destruct Hall as [Hal Hak]. split; [by constructor|]. intros x y [->|Hx]%elem_of_cons Hy; [|by apply Hb].
  rewrite Forall_forall in Hak. by apply Hak.
Qed.

Lemma sorted_take l : id_ok target -> Forall (fun e => id_ok (id_of e)) l ->
  closest_of l (map fst (take ANTS_DHT_K (by_distance l))).
Proof.
  intros Ht Hl. pose proof (by_distance_perm l) as Hp. pose proof (by_distance_sorted l Ht Hl) as Hs.
  assert (Hfst : map fst (map measured l) = l) by (rewrite map_map; apply map_id).
  assert (Hof : forall x, x ∈ by_distance l -> id_ok (id_of x.1) /\ x = measured x.1).
  { intros x. rewrite Hp. intros (e & -> & He)%list_elem_of_fmap. rewrite Forall_forall in Hl. split; [by apply Hl|done]. }
  assert (Hnum : forall x, x ∈ by_distance l -> number x.2 = xor_metric target (id_of x.1)).
  { intros x Hx. destruct (Hof x Hx) as [[Hz Ho] ->]. cbn. destruct Ht. apply number_xor; [lia|done..]. }
  set (out := take ANTS_DHT_K (by_distance l)) in *. set (rest := drop ANTS_DHT_K (by_distance l)).
  assert (Hcut : by_distance l = out ++ rest) by (symmetry; apply take_drop). rewrite Hcut in Hs, Hnum.
  destruct (StronglySorted_prefix _ _ _ Hs) as [Hso Hcross]. split; [|split].
  - rewrite length_map. subst out. rewrite length_take, Hp, length_map. lia.
  - apply StronglySorted_map. clear -Hso Hnum. induction Hso as [|x k Hk IH Hall]; [constructor|].
    constructor.
    { apply IH. intros y Hy. apply Hnum. rewrite elem_of_app in Hy. apply elem_of_app. destruct Hy; [left; by right|by right]. }
    rewrite Forall_forall in Hall |- *. intros y Hy. specialize (Hall y Hy). unfold nearer in Hall.
    rewrite !Hnum in Hall; [done|apply elem_of_app; left; by right|apply elem_of_app; left; by left].
  - exists (map fst rest). split.
    + rewrite <- Hfst at 1. rewrite <- Hp, Hcut. by rewrite map_app.
    + intros x y (x' & -> & Hx)%list_elem_of_fmap (y' & -> & Hy)%list_elem_of_fmap.
      specialize (Hcross x' y' Hx Hy). unfold nearer in Hcross.
      rewrite !Hnum in Hcross; [done|apply elem_of_app; by right|apply elem_of_app; by left].
Qed.

(** The loop over the walk fills [out_entries] with the nearest ones. *)
Lemma select_closest l junk : id_ok target -> Forall (fun e => id_ok (id_of e)) l -> length junk = ANTS_DHT_K ->
  exists top n, select l junk 0 = Some (top, n) /\ closest_of l (map fst (take n top)).
Proof.
  intros Ht Hl Hj. destruct (select_run l [] junk Hj) as (junk' & Hs).
  rewrite take_nil in Hs. cbn [app length] in Hs. rewrite Hs.
  eexists _, _. split; [done|]. rewrite take_app_length. by apply sorted_take.
Qed.
End selection.

Lemma closest_peers_select target l top n :
  closest_peers target l top n = select peer_id target (map e_peer l) top n.
Proof.
  revert top n. induction l as [|e l IH]; intros top n; [done|]. cbn [closest_peers select map].
  destruct (closest_add _ _ _ _ _) as [[top' n']|]; [apply IH|done].
Qed.

(** Those with a live connection. *)
Definition has_conn (e : ants_dht_bucket_entry) : bool := match e_conn e with Some _ => true | None => false end.

Definition e_id (e : ants_dht_bucket_entry) : bytes := peer_id (e_peer e).

Lemma closest_entries_select target l top n :
  closest_entries target l top n = select e_id target (filter has_conn l) top n.
Proof.
  revert top n. induction l as [|e l IH]; intros top n; [done|]. cbn [closest_entries].
  rewrite filter_cons. destruct (decide (has_conn e)) as [Hc|Hc]; unfold has_conn in Hc; destruct (e_conn e).
  - cbn [select]. change (peer_id (e_peer e)) with (e_id e).
    destruct (closest_add _ _ _ _ _) as [[top' n']|]; [apply IH|done].
  - destruct Hc.
  - by destruct (Hc I).
  - apply IH.
Qed.
