(* ===== verification/DhtOps.v ===== *)
(** * The shape of the routing table (dht.c)

    The invariant of the buckets, and the view in which an operation on a
    bucket changes the multiset of all entries: the list of buckets seen from
    the bucket of one peer.

    Then: the primitive operations on buckets and replacements. *)

From S2P Require Import Prelude Dht DhtClosest.
Import Dht.

#[local] Arguments zlen {A} l : simpl never.

(** ** The invariant of the buckets *)

Definition entry_ok (s : ants_dht_state) (b : Z) (e : ants_dht_bucket_entry) : Prop :=
  id_ok (e_id e) /\ bucket_index_for_peer s (e_id e) = b.

Record bucket_ok (s : ants_dht_state) (b : Z) (k : ants_dht_bucket) : Prop := {
  bo_count : count k = zlen (head k);
  bo_room : (length (head k) <= ANTS_DHT_K)%nat;
  bo_nodup : NoDup (map e_id (head k));
  bo_entries : Forall (entry_ok s b) (head k)
}.

Record buckets_ok (s : ants_dht_state) : Prop := {
  ko_local : id_ok (local_peer_id s);
  ko_length : length (buckets s) = ANTS_DHT_BUCKET_COUNT;
  ko_bucket : forall i k, buckets s !! i = Some k -> bucket_ok s (Z.of_nat i) k
}.

(** The identities in the table. *)
Definition members (s : ants_dht_state) : list bytes := map e_id (all_entries s).

Definition bucket_full (s : ants_dht_state) (b : Z) : Prop :=
  exists k, get_at (buckets s) b = Some k /\ length (head k) = ANTS_DHT_K.

(** What is parked is a peer the table has no room for. *)
Definition parked (s : ants_dht_state) (r : ants_dht_replacement) : Prop :=
  r ∈ replacements s /\ r_in_use r = true.

Record parked_ok (s : ants_dht_state) (r : ants_dht_replacement) : Prop := {
  po_id : id_ok (peer_id (r_peer r));
  po_other : peer_id (r_peer r) <> local_peer_id s;
  po_full : bucket_full s (bucket_index_for_peer s (peer_id (r_peer r)));
  po_new : peer_id (r_peer r) ∉ members s
}.

Definition one_per_bucket (s : ants_dht_state) : Prop :=
  forall i j r r', replacements s !! i = Some r -> replacements s !! j = Some r' ->
    r_in_use r = true -> r_in_use r' = true ->
    bucket_index_for_peer s (peer_id (r_peer r)) = bucket_index_for_peer s (peer_id (r_peer r')) -> i = j.

(** An entry with its third strike is evicted at once. *)
Definition strikes_ok (e : ants_dht_bucket_entry) : Prop := 0 <= dead_strikes e < ANTS_DHT_DEAD_STRIKE_THRESHOLD.

Record table_ok (s : ants_dht_state) : Prop := {
  to_buckets : buckets_ok s;
  to_strikes : Forall strikes_ok (all_entries s);
  to_slots : length (replacements s) = ANTS_DHT_MAX_REPLACEMENTS;
  to_parked : forall r, parked s r -> parked_ok s r;
  to_one : one_per_bucket s
}.

(** ** Searching one list *)

Lemma has_id_decide id e : id_ok id -> id_ok (e_id e) -> has_id id e = bool_decide (e_id e = id).
Proof. intros [Hi _] [He _]. apply (memcmp_eq (e_id e)). by rewrite He, Hi. Qed.

Section search.
Context (id : bytes) (Hid : id_ok id).

Lemma unlink_spec l : Forall (fun e => id_ok (e_id e)) l ->
  match unlink id l with
  | Some (hit, rest) => e_id hit = id /\ exists l1 l2, l = l1 ++ hit :: l2 /\ rest = l1 ++ l2
  | None => id ∉ map e_id l
  end.
Proof.
  induction 1 as [|e l He Hl IH]; cbn [unlink map]; [apply not_elem_of_nil|].
  rewrite has_id_decide by done. case_bool_decide as Heq; [split; [done|]; by exists [], l|].
  destruct (unlink id l) as [[hit rest]|].
  - destruct IH as (Hh & l1 & l2 & -> & ->). split; [done|]. by exists (e :: l1), l2.
  - apply not_elem_of_cons. split; [congruence|done].
Qed.

Lemma position_spec l : forall i, Forall (fun e => id_ok (e_id e)) l ->
  match position_of id i l with
  | Some j => exists l1 e l2, l = l1 ++ e :: l2 /\ j = (i + length l1)%nat /\ e_id e = id
  | None => id ∉ map e_id l
  end.
Proof.
  intros i Hl. revert i. induction Hl as [|e l He Hl IH]; intros i; cbn [position_of map]; [apply not_elem_of_nil|].
  rewrite has_id_decide by done. case_bool_decide as Heq.
  - exists [], e, l. split; [done|]. split; [cbn; lia|done].
  - specialize (IH (S i)). destruct (position_of id (S i) l) as [j|].
    + destruct IH as (l1 & e' & l2 & -> & -> & He'). exists (e :: l1), e', l2. split; [done|]. split; [cbn; lia|done].
    + apply not_elem_of_cons. split; [congruence|done].
Qed.
End search.

(** ** The table around one bucket *)

Definition reseat (s : ants_dht_state) (l1 : list ants_dht_bucket) (k : ants_dht_bucket) (l2 : list ants_dht_bucket)
  : ants_dht_state := with_buckets (l1 ++ k :: l2) s.

Record focus (s : ants_dht_state) (b : Z) (l1 : list ants_dht_bucket) (k : ants_dht_bucket)
  (l2 : list ants_dht_bucket) : Prop := {
  fo_buckets : buckets s = l1 ++ k :: l2;
  fo_index : b = Z.of_nat (length l1);
  fo_ok : bucket_ok s b k
}.

Lemma focus_at s b : buckets_ok s -> 0 <= b < Z.of_nat ANTS_DHT_BUCKET_COUNT -> exists l1 k l2, focus s b l1 k l2.
Proof.
  intros [_ Hlen Hb] Hr. destruct (lookup_lt_is_Some_2 (buckets s) (Z.to_nat b)) as [k Hk]; [lia|].
  exists (take (Z.to_nat b) (buckets s)), k, (drop (S (Z.to_nat b)) (buckets s)). split.
  - by rewrite take_drop_middle.
  - rewrite length_take. lia.
  - specialize (Hb _ _ Hk). by rewrite Z2Nat.id in Hb by lia.
Qed.

Lemma focus_bound s b l1 k l2 : buckets_ok s -> focus s b l1 k l2 -> b <> UINT32_MAX.
Proof.
  intros [_ Hlen _] [Hb Hi _]. rewrite Hb, length_app in Hlen. cbn [length] in Hlen.
  unfold UINT32_MAX, ANTS_DHT_BUCKET_COUNT in *. lia.
Qed.

Lemma focus_peer s id : buckets_ok s -> id_ok id -> id <> local_peer_id s ->
  exists l1 k l2, focus s (bucket_index_for_peer s id) l1 k l2 /\ bucket_index_for_peer s id <> UINT32_MAX.
Proof.
  intros Hs Hid Hne. destruct (bucket_index_range s id (ko_local _ Hs) Hid) as [[_ ?]|[Hr _]]; [done|].
  destruct (focus_at s _ Hs Hr) as (l1 & k & l2 & Hf). exists l1, k, l2. split; [done|].
  intros He. rewrite He in Hr. by destruct Hr.
Qed.

Lemma index_local s : buckets_ok s -> bucket_index_for_peer s (local_peer_id s) = UINT32_MAX.
Proof.
  intros Hs. destruct (bucket_index_range s _ (ko_local _ Hs) (ko_local _ Hs)) as [[? _]|[_ ?]]; done.
Qed.

Lemma index_inside s id : buckets_ok s -> id_ok id ->
  bucket_index_for_peer s id <> UINT32_MAX -> id <> local_peer_id s.
Proof. intros Hs _ Hi ->. by apply Hi, index_local. Qed.

Section focused.
Context (s : ants_dht_state) (b : Z) (l1 : list ants_dht_bucket) (k : ants_dht_bucket) (l2 : list ants_dht_bucket).
Context (Hs : buckets_ok s) (Hf : focus s b l1 k l2).

Lemma focus_get : get_at (buckets s) b = Some k.
Proof.
  destruct Hf as [-> -> _]. unfold get_at. bdecide. by rewrite Nat2Z.id, lookup_app_r, Nat.sub_diag by lia.
Qed.

Lemma bucket_at_run w : state w = s -> bucket_at b w = Ok w k.
Proof. intros Hw. unfold bucket_at, bind, get_state, deref. by rewrite Hw, focus_get. Qed.

Lemma put_bucket_run k' w : state w = s ->
  put_bucket b k' w = Ok (mk_world (reseat s l1 k' l2) (answers w) (pings w) (events w)) tt.
Proof.
  intros Hw. destruct Hf as [Hb Hi _]. unfold put_bucket, bind, get_state, deref, set_at, update. rewrite Hw, Hb, Hi.
  pose proof (zlen_nonneg l1). rewrite zlen_app, zlen_cons. pose proof (zlen_nonneg l2).
  change (Z.of_nat (length l1)) with (zlen l1). repeat bdecide. cbn [andb].
  rewrite zlen_to_nat, insert_app_r_alt, Nat.sub_diag by lia. by rewrite Hw.
Qed.

Lemma all_entries_focus : all_entries s = flat_map head l1 ++ head k ++ flat_map head l2.
Proof. unfold all_entries. destruct Hf as [-> _ _]. by rewrite flat_map_app. Qed.

Lemma all_entries_reseat k' : all_entries (reseat s l1 k' l2) = flat_map head l1 ++ head k' ++ flat_map head l2.
Proof. unfold all_entries. cbn. by rewrite flat_map_app. Qed.

(** [old] gives way to [new] among the entries of the bucket. *)
Lemma reseat_swap k' old new rest : head k ≡ₚ old ++ rest -> head k' ≡ₚ new ++ rest ->
  exists others, all_entries s ≡ₚ old ++ others /\ all_entries (reseat s l1 k' l2) ≡ₚ new ++ others.
Proof.
  intros Ho Hn. exists (rest ++ flat_map head l1 ++ flat_map head l2).
  rewrite all_entries_focus, all_entries_reseat, Ho, Hn. split; solve_Permutation.
Qed.

Lemma entry_ok_reseat k' b' e : entry_ok (reseat s l1 k' l2) b' e <-> entry_ok s b' e.
Proof. done. Qed.

Lemma reseat_ok k' : bucket_ok s b k' -> buckets_ok (reseat s l1 k' l2).
Proof.
  intros Hk. destruct Hs as [Hl Hn Hb], Hf as [He Hi _]. split; [done| |].
  - cbn. rewrite He in Hn. rewrite length_app in *. cbn in *. done.
  - intros i k0 Hk0. assert (bucket_ok s (Z.of_nat i) k0) as []; [|by split].
    cbn in Hk0. destruct (decide (i = length l1)) as [->|Hne].
    + rewrite lookup_app_r, Nat.sub_diag in Hk0 by lia. injection Hk0 as <-. by rewrite <- Hi.
    + apply Hb. rewrite He. destruct (decide (i < length l1)%nat).
      * rewrite lookup_app_l in * by done. done.
      * rewrite lookup_app_r in * by lia. by destruct (i - length l1)%nat eqn:E; [lia|].
Qed.

Lemma focus_reseat k' : bucket_ok s b k' -> focus (reseat s l1 k' l2) b l1 k' l2.
Proof. intros Hk. destruct Hf. split; [done|done|]. by destruct Hk. Qed.

(** The other buckets stay full. *)
Lemma full_reseat k' b' : b' <> b -> bucket_full s b' -> bucket_full (reseat s l1 k' l2) b'.
Proof.
  intros Hne (k0 & Hk0 & Hl). exists k0. split; [|done]. destruct Hf as [He Hi _]. revert Hk0. unfold get_at. cbn.
  rewrite He. bcase; [|done]. destruct (decide (Z.to_nat b' < length l1)%nat).
  - by rewrite !lookup_app_l by done.
  - rewrite !lookup_app_r by lia. by destruct (Z.to_nat b' - length l1)%nat eqn:E0; [lia|].
Qed.

Lemma full_focus : bucket_full s b <-> length (head k) = ANTS_DHT_K.
Proof.
  unfold bucket_full. rewrite focus_get. split; [intros (k0 & [= <-] & H); done|]. intros H. by exists k.
Qed.

Lemma focus_ids : Forall (fun e => id_ok (e_id e)) (head k).
Proof. destruct Hf as [_ _ [_ _ _ H]]. eapply Forall_impl; [exact H|]. by intros e [He _]. Qed.
End focused.

(** Every entry is in the bucket of its identity. *)
Lemma stored_bucket s e : buckets_ok s -> e ∈ all_entries s ->
  exists b, entry_ok s b e /\ 0 <= b < Z.of_nat ANTS_DHT_BUCKET_COUNT.
Proof.
  intros [_ Hn Hb] He. unfold all_entries in He. rewrite list_elem_of_In, in_flat_map in He.
  destruct He as (k & Hk & He). apply list_elem_of_In in Hk, He. apply list_elem_of_lookup_1 in Hk as [i Hi].
  exists (Z.of_nat i). pose proof (lookup_lt_Some _ _ _ Hi). specialize (Hb _ _ Hi) as [_ _ _ Hf].
  rewrite Forall_forall in Hf. split; [by apply Hf|lia].
Qed.

Lemma stored_ids s : buckets_ok s -> Forall (fun e => id_ok (e_id e)) (all_entries s).
Proof.
  intros Hs. apply Forall_forall. intros e He. by destruct (stored_bucket s e Hs He) as (b & [? _] & _).
Qed.

Lemma member_in_bucket s b l1 k l2 id : buckets_ok s -> focus s b l1 k l2 -> bucket_index_for_peer s id = b ->
  (id ∈ members s <-> id ∈ map e_id (head k)).
Proof.
  intros Hs Hf Hi. unfold members. rewrite !list_elem_of_fmap. split.
  - intros (e & -> & He). exists e. split; [done|]. destruct Hs as [_ _ Hb].
    unfold all_entries in He. rewrite list_elem_of_In, in_flat_map in He. destruct He as (k0 & Hk0 & He).
    apply list_elem_of_In in Hk0, He. apply list_elem_of_lookup_1 in Hk0 as [i Hk0].
    specialize (Hb _ _ Hk0) as Hok. destruct Hok as [_ _ _ Hall]. rewrite Forall_forall in Hall.
    destruct (Hall e He) as (_ & Hi'). pose proof (focus_get _ _ _ _ _ Hf) as Hg. unfold get_at in Hg.
    rewrite <- Hi, Hi' in Hg. revert Hg. bdecide. rewrite Nat2Z.id, Hk0. by intros [= ->].
  - intros (e & -> & He). exists e. split; [done|]. rewrite (all_entries_focus _ _ _ _ _ Hf). set_solver.
Qed.

Lemma members_nodup s : buckets_ok s -> NoDup (members s).
Proof.
  intros [_ _ Hb]. unfold members, all_entries. revert Hb. generalize (buckets s). intros bs Hb.
  assert (Hgen : forall j, (forall i k, bs !! i = Some k -> bucket_ok s (Z.of_nat (j + i)) k) ->
    NoDup (map e_id (flat_map head bs)) /\
    forall e, e ∈ flat_map head bs -> Z.of_nat j <= bucket_index_for_peer s (e_id e)); [|by apply (Hgen 0%nat)].
  clear Hb. induction bs as [|k bs IH]; intros j Hb; cbn [flat_map map].
  { split; [constructor|]. intros e He. by apply elem_of_nil in He. }
  destruct (IH (S j)) as [IHn IHb].
  { intros i k' Hk'. specialize (Hb (S i) k' Hk'). by replace (S j + i)%nat with (j + S i)%nat by lia. }
  specialize (Hb 0%nat k eq_refl) as [_ _ Hnk Hek]. rewrite Nat.add_0_r in Hek. rewrite Forall_forall in Hek.
  rewrite map_app. split.
  - apply NoDup_app. split; [done|]. split; [|done].
    intros id (e & -> & He)%list_elem_of_fmap (e' & Heq & He')%list_elem_of_fmap.
    destruct (Hek e He) as (_ & Hi). specialize (IHb e' He'). rewrite <- Heq, Hi in IHb. lia.
  - intros e [He|He]%elem_of_app; [destruct (Hek e He) as (_ & ->); lia|]. specialize (IHb e He). lia.
Qed.

(** An identity has one entry. *)
Lemma stored_unique s e e' : buckets_ok s -> e ∈ all_entries s -> e' ∈ all_entries s -> e_id e = e_id e' -> e = e'.
Proof.
  intros Hs He He' Heq. pose proof (members_nodup s Hs) as Hn. unfold members in Hn.
  apply list_elem_of_lookup_1 in He as [i Hi], He' as [j Hj].
  assert (i = j) as ->; [|congruence].
  apply (NoDup_lookup _ i j (e_id e) Hn); rewrite list_lookup_fmap; [by rewrite Hi|by rewrite Hj; cbn; f_equal].
Qed.

(** * What the operations on one bucket do (dht.c)

    Each call as its outcome and its effect on the multiset of entries. *)

(** ** Effects *)

(** [old] gives way to [new] in the table. *)
Definition swap (s s' : ants_dht_state) (old new : list ants_dht_bucket_entry) : Prop :=
  exists rest, all_entries s ≡ₚ old ++ rest /\ all_entries s' ≡ₚ new ++ rest.

(** Nothing changed but the buckets (and the answers were read). *)
Record quiet (w w' : dht_world) : Prop := {
  qu_local : local_peer_id (state w') = local_peer_id (state w);
  qu_event : event_fn (state w') = event_fn (state w);
  qu_interval : refresh_interval_ms (state w') = refresh_interval_ms (state w);
  qu_replacements : replacements (state w') = replacements (state w);
  qu_pings : pings w' = pings w;
  qu_events : events w' = events w
}.

#[export] Instance quiet_refl : Reflexive quiet.
Proof. by intros w. Qed.

#[export] Instance quiet_trans : Transitive quiet.
Proof. intros w1 w2 w3 [] []. split; congruence. Qed.

Lemma index_of_local s s' id : local_peer_id s' = local_peer_id s ->
  bucket_index_for_peer s' id = bucket_index_for_peer s id.
Proof. unfold bucket_index_for_peer. by intros ->. Qed.

Lemma reseat_quiet w b l1 k l2 k' an : focus (state w) b l1 k l2 ->
  quiet w (mk_world (reseat (state w) l1 k' l2) an (pings w) (events w)).
Proof. done. Qed.

Lemma swap_members s s' old new : swap s s' old new ->
  exists ids, members s ≡ₚ map e_id old ++ ids /\ members s' ≡ₚ map e_id new ++ ids.
Proof.
  intros (rest & H1 & H2). exists (map e_id rest). unfold members. rewrite <- !map_app. split; by apply Permutation_map.
Qed.

Lemma answer_run w : exists w1 b, answer w = Ok w1 b /\ state w1 = state w /\ pings w1 = pings w /\ events w1 = events w.
Proof. unfold answer. destruct (answers w); eexists _, _; split; try done. Qed.

(** An assignment to a field that says nothing about the identity. *)
Lemma bucket_ok_swap s b k h1 e e' h2 : bucket_ok s b k -> head k = h1 ++ e :: h2 -> e_id e' = e_id e ->
  bucket_ok s b (mk_bucket (h1 ++ e' :: h2) (count k)).
Proof.
  intros [Hc Hr Hn He] Hk Hid. rewrite Hk in *. split; cbn.
  - rewrite Hc, !zlen_app, !zlen_cons. done.
  - rewrite length_app in *. cbn in *. done.
  - rewrite map_app in *. cbn in *. by rewrite Hid.
  - apply Forall_app in He as [H1 H2]. inversion H2 as [|? ? (Ho & Hi) H3]; subst.
    apply Forall_app. split; [done|]. constructor; [|done]. unfold entry_ok. by rewrite Hid.
Qed.

(** ** Insertion *)

Definition fresh_entry (p : ants_dht_peer_t) (conn : option Z) (now : Z) : ants_dht_bucket_entry :=
  mk_entry p conn now 0 false.

(** The ways [kbucket_insert] can end. *)
Inductive insertion (p : ants_dht_peer_t) (conn : option Z) (now : Z) (w : dht_world) : outcome dht_world unit -> Prop :=
| ins_self : peer_id p = local_peer_id (state w) -> insertion p conn now w (Err w ANTS_ERROR_INVALID_ARG)
| ins_refresh hit w' : peer_id p <> local_peer_id (state w) -> hit ∈ all_entries (state w) -> e_id hit = peer_id p ->
    quiet w w' -> buckets_ok (state w') -> swap (state w) (state w') [hit] [refreshed hit p conn now] ->
    (forall b, bucket_full (state w) b -> bucket_full (state w') b) -> insertion p conn now w (Ok w' tt)
| ins_full : peer_id p <> local_peer_id (state w) -> peer_id p ∉ members (state w) ->
    bucket_full (state w) (bucket_index_for_peer (state w) (peer_id p)) ->
    insertion p conn now w (Err w ANTS_ERROR_BUFFER_TOO_SMALL)
| ins_refused w' : peer_id p <> local_peer_id (state w) -> peer_id p ∉ members (state w) ->
    ~ bucket_full (state w) (bucket_index_for_peer (state w) (peer_id p)) ->
    quiet w w' -> state w' = state w -> answers w = false :: answers w' ->
    insertion p conn now w (Err w' ANTS_ERROR_MALFORMED)
| ins_new w' : peer_id p <> local_peer_id (state w) -> peer_id p ∉ members (state w) ->
    ~ bucket_full (state w) (bucket_index_for_peer (state w) (peer_id p)) ->
    quiet w w' -> buckets_ok (state w') -> swap (state w) (state w') [] [fresh_entry p conn now] ->
    (forall b, bucket_full (state w) b -> bucket_full (state w') b) -> insertion p conn now w (Ok w' tt).

Section insert.
Context (p : ants_dht_peer_t) (conn : option Z) (now : Z) (w : dht_world).
Context (Hs : buckets_ok (state w)) (Hp : id_ok (peer_id p)).
Context (b : Z) (l1 : list ants_dht_bucket) (k : ants_dht_bucket) (l2 : list ants_dht_bucket).
Context (Hb : bucket_index_for_peer (state w) (peer_id p) = b) (Hne : peer_id p <> local_peer_id (state w)).
Context (Hf : focus (state w) b l1 k l2).

Lemma insert_refresh h1 hit h2 : head k = h1 ++ hit :: h2 -> e_id hit = peer_id p ->
  insertion p conn now w (Ok (mk_world (reseat (state w) l1
    (mk_bucket (refreshed hit p conn now :: h1 ++ h2) (count k)) l2) (answers w) (pings w) (events w)) tt).
Proof.
  intros Hk Hid. pose proof (fo_ok _ _ _ _ _ Hf) as [Hc Hr Hn He].
  assert (Hperm : head k ≡ₚ hit :: h1 ++ h2) by (rewrite Hk; solve_Permutation).
  assert (Hstored : hit ∈ all_entries (state w)) by (rewrite (all_entries_focus _ _ _ _ _ Hf), Hk; set_solver).
  assert (Hok : bucket_ok (state w) b (mk_bucket (refreshed hit p conn now :: h1 ++ h2) (count k))).
  { split; cbn [head count].
    - rewrite Hc. unfold zlen. by rewrite Hperm.
    - rewrite Hperm in Hr. done.
    - change (map e_id (refreshed hit p conn now :: h1 ++ h2)) with (map e_id (hit :: h1 ++ h2)).
      by rewrite <- Hperm.
    - rewrite Hperm in He. inversion He; subst. by constructor. }
  apply ins_refresh with hit; try done.
  - by apply (reseat_ok _ b _ k).
  - by apply (reseat_swap _ b _ _ _ Hf _ [hit] [refreshed hit p conn now] (h1 ++ h2)).
  - intros b' Hfull. destruct (decide (b' = b)) as [->|Hb']; [|by apply (full_reseat _ b _ k)].
    apply (full_focus _ _ _ _ _ Hf) in Hfull. rewrite Hperm in Hfull.
    by apply (full_focus _ _ _ _ _ (focus_reseat _ _ _ _ _ Hf _ Hok)).
Qed.

Lemma insert_new : peer_id p ∉ map e_id (head k) -> (length (head k) < ANTS_DHT_K)%nat -> forall an,
  insertion p conn now w (Ok (mk_world (reseat (state w) l1
    (mk_bucket (fresh_entry p conn now :: head k) (size_add (count k) 1)) l2) an (pings w) (events w)) tt).
Proof.
  intros Hnew Hroom an. pose proof (fo_ok _ _ _ _ _ Hf) as [Hc Hr Hn He].
  assert (Hok : bucket_ok (state w) b (mk_bucket (fresh_entry p conn now :: head k) (size_add (count k) 1))).
  { split; cbn [head count].
    - rewrite Hc, zlen_cons, size_add_small; [lia|]. unfold zlen, ANTS_DHT_K in *. zlia.
    - cbn [length]. lia.
    - by constructor.
    - constructor; [|done]. by split. }
  apply ins_new; try done.
  - by rewrite (member_in_bucket _ b _ _ _ _ Hs Hf Hb).
  - rewrite Hb, (full_focus _ _ _ _ _ Hf). lia.
  - by apply (reseat_ok _ b _ k).
  - by apply (reseat_swap _ b _ _ _ Hf _ [] [fresh_entry p conn now] (head k)).
  - intros b' Hfull. destruct (decide (b' = b)) as [->|Hb']; [|by apply (full_reseat _ b _ k)].
    apply (full_focus _ _ _ _ _ Hf) in Hfull. lia.
Qed.
End insert.

Lemma kbucket_insert_run p conn now w : buckets_ok (state w) -> id_ok (peer_id p) ->
  insertion p conn now w (kbucket_insert p conn now w).
Proof.
  intros Hs Hp. unfold kbucket_insert at 1. rewrite (bind_Ok _ _ w w (state w)) by done. cbv beta zeta.
  destruct (decide (peer_id p = local_peer_id (state w))) as [Heq|Hne].
  { rewrite Heq, index_local, Z.eqb_refl by done. by apply ins_self. }
  destruct (focus_peer _ _ Hs Hp Hne) as (l1 & k & l2 & Hf & Hi).
  rewrite (proj2 (Z.eqb_neq _ _) Hi). rewrite (bind_Ok _ _ w w k) by by apply (bucket_at_run (state w) _ l1 _ l2).
  pose proof (unlink_spec _ Hp (head k) (focus_ids _ _ _ _ _ Hf)) as Hu.
  destruct (unlink (peer_id p) (head k)) as [[hit rest]|].
  - destruct Hu as (Hid & h1 & h2 & Hk & ->). rewrite (put_bucket_run _ _ _ _ _ Hf) by done.
    by eapply insert_refresh.
  - pose proof (fo_ok _ _ _ _ _ Hf) as [Hc Hr _ _]. rewrite Hc. unfold zlen.
    destruct (Z.leb_spec (Z.of_nat ANTS_DHT_K) (Z.of_nat (length (head k)))) as [Hfull|Hroom].
    { apply ins_full; [done|by rewrite (member_in_bucket _ _ _ _ _ _ Hs Hf eq_refl)|].
      apply (full_focus _ _ _ _ _ Hf). lia. }
    unfold answer, bind at 1. destruct (answers w) as [|[] an] eqn:Ha; cbn [negb].
    + rewrite (put_bucket_run _ _ _ _ _ Hf) by done. change (Z.of_nat (length (head k))) with (zlen (head k)).
      rewrite <- Hc. cbn [state answers pings events]. eapply insert_new; try done. lia.
    + rewrite (put_bucket_run _ _ _ _ _ Hf) by done. change (Z.of_nat (length (head k))) with (zlen (head k)).
      rewrite <- Hc. cbn [state answers pings events]. eapply insert_new; try done. lia.
    + apply ins_refused; try done; [by rewrite (member_in_bucket _ _ _ _ _ _ Hs Hf eq_refl)|].
      rewrite (full_focus _ _ _ _ _ Hf). lia.
Qed.

(** ** Finding and assigning an entry *)

(** The entry of [id] in the table, as a place in the bucket under [focus]. *)
Record located (w : dht_world) (id : bytes) (b : Z) (l1 : list ants_dht_bucket) (k : ants_dht_bucket)
  (l2 : list ants_dht_bucket) (h1 : list ants_dht_bucket_entry) (e : ants_dht_bucket_entry)
  (h2 : list ants_dht_bucket_entry) : Prop := {
  lo_focus : focus (state w) b l1 k l2;
  lo_index : bucket_index_for_peer (state w) id = b;
  lo_other : id <> local_peer_id (state w);
  lo_bound : b <> UINT32_MAX;
  lo_head : head k = h1 ++ e :: h2;
  lo_id : e_id e = id
}.

Lemma find_entry_run w id : buckets_ok (state w) -> id_ok id ->
  match find_entry_by_peer_id id w with
  | Ok w' (Some ptr) => w' = w /\ id ∈ members (state w) /\ exists b l1 k l2 h1 e h2,
      located w id b l1 k l2 h1 e h2 /\ ptr = (b, length h1)
  | Ok w' None => w' = w /\ id ∉ members (state w)
  | _ => False
  end.
Proof.
  intros Hs Hid. unfold find_entry_by_peer_id. rewrite (bind_Ok _ _ w w (state w)) by done. cbv beta zeta.
  destruct (decide (id = local_peer_id (state w))) as [->|Hne].
  { rewrite index_local, Z.eqb_refl by done. split; [done|]. intros (e & He & Hin)%list_elem_of_fmap.
    destruct (stored_bucket _ _ Hs Hin) as (b & (_ & Hb) & Hr). rewrite <- He, index_local in Hb by done.
    subst b. by destruct Hr. }
  destruct (focus_peer _ _ Hs Hid Hne) as (l1 & k & l2 & Hf & Hi).
  rewrite (proj2 (Z.eqb_neq _ _) Hi). rewrite (bind_Ok _ _ w w k) by by apply (bucket_at_run (state w) _ l1 _ l2).
  pose proof (position_spec _ Hid (head k) 0 (focus_ids _ _ _ _ _ Hf)) as Hp.
  pose proof (member_in_bucket _ _ _ _ _ id Hs Hf eq_refl) as Hm.
  destruct (position_of id 0 (head k)) as [j|].
  - destruct Hp as (h1 & e & h2 & Hk & -> & He). split; [done|]. split.
    + apply Hm. rewrite Hk, map_app. cbn. rewrite He. set_solver.
    + exists (bucket_index_for_peer (state w) id), l1, k, l2, h1, e, h2. split; [by split|done].
  - split; [done|]. by rewrite Hm.
Qed.

(** An assignment that keeps the identity. *)
Definition reseat_entry (w : dht_world) l1 (k : ants_dht_bucket) l2 h1 e h2 : dht_world :=
  mk_world (reseat (state w) l1 (mk_bucket (h1 ++ e :: h2) (count k)) l2) (answers w) (pings w) (events w).

Section located.
Context (w : dht_world) (id : bytes) (b : Z) (l1 : list ants_dht_bucket) (k : ants_dht_bucket) (l2 : list ants_dht_bucket).
Context (h1 : list ants_dht_bucket_entry) (e : ants_dht_bucket_entry) (h2 : list ants_dht_bucket_entry).
Context (Hs : buckets_ok (state w)) (Hl : located w id b l1 k l2 h1 e h2).

Lemma entry_at_run : entry_at (b, length h1) w = Ok w e.
Proof.
  destruct Hl as [Hf _ _ _ Hk _]. unfold entry_at. rewrite (bind_Ok _ _ w w k) by by apply (bucket_at_run (state w) _ l1 _ l2).
  cbn. rewrite Hk, lookup_app_r, Nat.sub_diag by lia. done.
Qed.

Lemma put_entry_run e' : put_entry (b, length h1) e' w = Ok (reseat_entry w l1 k l2 h1 e' h2) tt.
Proof.
  destruct Hl as [Hf _ _ _ Hk _]. unfold put_entry. rewrite (bind_Ok _ _ w w k) by by apply (bucket_at_run (state w) _ l1 _ l2).
  cbn [fst snd]. rewrite (put_bucket_run _ _ _ _ _ Hf) by done. rewrite Hk at 1.
  by rewrite insert_app_r_alt, Nat.sub_diag by lia.
Qed.

Context (e' : ants_dht_bucket_entry) (He' : e_id e' = id).

Lemma reseat_entry_located : located (reseat_entry w l1 k l2 h1 e' h2) id b l1 (mk_bucket (h1 ++ e' :: h2) (count k)) l2 h1 e' h2.
Proof.
  destruct Hl as [Hf Hi Ho Hb Hk Hid]. split; try done. apply (focus_reseat _ _ _ k _ Hf).
  apply (bucket_ok_swap _ _ _ _ e); try done; [by destruct Hf|congruence].
Qed.

Lemma reseat_entry_ok : buckets_ok (state (reseat_entry w l1 k l2 h1 e' h2)).
Proof.
  destruct Hl as [Hf Hi Ho Hb Hk Hid]. apply (reseat_ok _ b _ k); [done..|].
  apply (bucket_ok_swap _ _ _ _ e); try done; [by destruct Hf|congruence].
Qed.

Lemma reseat_entry_swap : swap (state w) (state (reseat_entry w l1 k l2 h1 e' h2)) [e] [e'].
Proof.
  destruct Hl as [Hf Hi Ho Hb Hk Hid]. apply (reseat_swap _ b _ _ _ Hf _ [e] [e'] (h1 ++ h2)); [rewrite Hk|];
    cbn [head]; solve_Permutation.
Qed.

Lemma reseat_entry_full b' : bucket_full (state w) b' -> bucket_full (state (reseat_entry w l1 k l2 h1 e' h2)) b'.
Proof.
  pose proof reseat_entry_located as [Hf' _ _ _ _ _]. destruct Hl as [Hf Hi Ho Hb Hk Hid].
  destruct (decide (b' = b)) as [->|Hne]; [|by apply (full_reseat _ b _ k)].
  intros Hfull%(full_focus _ _ _ _ _ Hf). apply (full_focus _ _ _ _ _ Hf'). cbn [head].
  rewrite Hk, length_app in Hfull. rewrite length_app. done.
Qed.
End located.

(** ** Removal *)

Lemma kbucket_remove_run w id b l1 k l2 h1 e h2 : buckets_ok (state w) -> id_ok id ->
  located w id b l1 k l2 h1 e h2 ->
  exists w', kbucket_remove id w = Ok w' tt /\ quiet w w' /\ buckets_ok (state w') /\
    answers w' = answers w /\ swap (state w) (state w') [e] [] /\ ~ bucket_full (state w') b /\
    (forall b', b' <> b -> bucket_full (state w) b' -> bucket_full (state w') b').
Proof.
  intros Hs Hid [Hf Hi Ho Hb Hk He]. unfold kbucket_remove. rewrite (bind_Ok _ _ w w (state w)) by done. cbv beta zeta.
  rewrite Hi, (proj2 (Z.eqb_neq _ _) Hb).
  rewrite (bind_Ok _ _ w w k) by by apply (bucket_at_run (state w) _ l1 _ l2).
  pose proof (unlink_spec _ Hid (head k) (focus_ids _ _ _ _ _ Hf)) as Hu.
  pose proof (fo_ok _ _ _ _ _ Hf) as Hok. destruct Hok as [Hc Hr Hn Hall].
  destruct (unlink id (head k)) as [[hit rest]|]; [|exfalso; apply Hu; rewrite Hk, map_app; cbn; rewrite He; set_solver].
  destruct Hu as (Hhid & g1 & g2 & Hg & ->).
  assert (hit = e) as ->.
  { apply (stored_unique (state w)); [done|..|congruence]; rewrite (all_entries_focus _ _ _ _ _ Hf);
      [rewrite Hg|rewrite Hk]; set_solver. }
  assert (Hperm : head k ≡ₚ e :: g1 ++ g2) by (rewrite Hg; solve_Permutation).
  assert (Hok : bucket_ok (state w) b (mk_bucket (g1 ++ g2) (size_sub (count k) 1))).
  { split; cbn [head count].
    - rewrite Hc. unfold zlen at 1. rewrite Hperm. cbn [length]. rewrite size_sub_small; [unfold zlen; lia|].
      rewrite Hperm in Hr. cbn [length] in Hr. unfold ANTS_DHT_K in Hr. zlia.
    - rewrite Hperm in Hr. cbn [length] in Hr. lia.
    - rewrite Hperm in Hn. cbn in Hn. by inversion Hn.
    - rewrite Hperm in Hall. by inversion Hall. }
  rewrite (put_bucket_run _ _ _ _ _ Hf) by done. eexists. split; [done|]. split; [done|].
  split; [by apply (reseat_ok _ b _ k)|]. split; [done|].
  split; [by apply (reseat_swap _ b _ _ _ Hf _ [e] [] (g1 ++ g2))|]. split.
  - rewrite (full_focus _ _ _ _ _ (focus_reseat _ _ _ _ _ Hf _ Hok)). cbn [head].
    rewrite Hperm in Hr. cbn [length] in Hr. lia.
  - intros b' Hne. by apply (full_reseat _ b _ k).
Qed.
