(* ===== verification/DhtSteps.v ===== *)
(** * Probing entries and the replacement cache (dht.c)

    The least-recently-seen reachable entry, the slots of the cache, and the
    operations that leave every identity and every strike in place: the
    admission at a full bucket, the liveness sweep, a closed connection.

    Then: the operations of the table as a whole. *)

From S2P Require Import Prelude Dht DhtClosest DhtOps.
Import Dht.

#[local] Arguments zlen {A} l : simpl never.

(** ** Changes that keep identities and strikes *)

Definition similar (e e' : ants_dht_bucket_entry) : Prop :=
  e_id e' = e_id e /\ dead_strikes e' = dead_strikes e.

#[export] Instance similar_refl : Reflexive similar.
Proof. done. Qed.

(** The identities with a probe in flight. *)
Definition in_flight (e : ants_dht_bucket_entry) : Prop := ping_in_flight e = true.
Definition flights (l : list ants_dht_bucket_entry) : list bytes := map e_id (filter in_flight l).

#[export] Instance flights_perm : Proper ((≡ₚ) ==> (≡ₚ)) flights.
Proof. intros l l' H. unfold flights. by rewrite H. Qed.

Lemma flights_app l l' : flights (l ++ l') = flights l ++ flights l'.
Proof. unfold flights. by rewrite filter_app, map_app. Qed.

Lemma flights_cons e l : flights (e :: l) = (if ping_in_flight e then [e_id e] else []) ++ flights l.
Proof.
  unfold flights. rewrite filter_cons. unfold in_flight.
  destruct (decide (ping_in_flight e = true)) as [->|H%not_true_is_false]; [done|]. by rewrite H.
Qed.

Record softly (w w' : dht_world) : Prop := {
  so_local : local_peer_id (state w') = local_peer_id (state w);
  so_event : event_fn (state w') = event_fn (state w);
  so_ok : buckets_ok (state w) -> buckets_ok (state w');
  so_members : members (state w') ≡ₚ members (state w);
  so_entries : forall e', e' ∈ all_entries (state w') -> exists e, e ∈ all_entries (state w) /\ similar e e';
  so_pings : pings w' ++ flights (all_entries (state w)) ≡ₚ pings w ++ flights (all_entries (state w'));
  so_full : forall b, bucket_full (state w) b -> bucket_full (state w') b
}.

#[export] Instance softly_refl : Reflexive softly.
Proof. intros w. split; try done. intros e He. by exists e. Qed.

#[export] Instance softly_trans : Transitive softly.
Proof.
  intros w1 w2 w3 [Hl1 He1 Ho1 Hm1 Hs1 Hp1 Hf1] [Hl2 He2 Ho2 Hm2 Hs2 Hp2 Hf2]. split; try congruence; auto.
  - by rewrite Hm2.
  - intros e3 H3. destruct (Hs2 e3 H3) as (e2 & H2 & [? ?]). destruct (Hs1 e2 H2) as (e1 & H1 & [? ?]).
    exists e1. split; [done|]. split; congruence.
  - apply (Permutation_app_inv_l (flights (all_entries (state w2)))). 
    transitivity ((pings w3 ++ flights (all_entries (state w2))) ++ flights (all_entries (state w1))); [solve_Permutation|].
    rewrite Hp2. transitivity ((pings w2 ++ flights (all_entries (state w1))) ++ flights (all_entries (state w3)));
      [solve_Permutation|]. rewrite Hp1. solve_Permutation.
Qed.

Lemma similar_ids l l' : Forall2 similar l l' -> map e_id l' = map e_id l.
Proof. induction 1 as [|e e' l l' [He _] _ IH]; cbn; [done|]. by rewrite He, IH. Qed.

Lemma softly_swap w w' old new :
  local_peer_id (state w') = local_peer_id (state w) -> event_fn (state w') = event_fn (state w) ->
  (buckets_ok (state w) -> buckets_ok (state w')) ->
  swap (state w) (state w') old new -> Forall2 similar old new ->
  pings w' ++ flights old ≡ₚ pings w ++ flights new ->
  (forall b, bucket_full (state w) b -> bucket_full (state w') b) -> softly w w'.
Proof.
  intros Hlo Hev Hok (rest & H1 & H2) Hsim Hp Hfull. split; try done.
  - unfold members. rewrite H1, H2, !map_app. by rewrite (similar_ids _ _ Hsim).
  - intros e'. setoid_rewrite H1. rewrite H2. intros [He'|He']%elem_of_app; [|exists e'; split; [set_solver|done]].
    apply list_elem_of_lookup_1 in He' as [i Hi]. destruct (Forall2_lookup_r _ _ _ _ _ Hsim Hi) as (e & He & Hee).
    exists e. split; [|done]. apply elem_of_app. left. by apply list_elem_of_lookup_2 with i.
  - rewrite H1, H2, !flights_app, !app_assoc, Hp. done.
Qed.

(** ** Probes *)

Lemma issue_run e w : ping_in_flight e = false -> exists w' e',
  issue_refresh_ping e w = Ok w' e' /\ state w' = state w /\ events w' = events w /\
  (e' = e /\ pings w' = pings w \/ e' = set_in_flight true e /\ pings w' = pings w ++ [e_id e]).
Proof.
  intros Hfl. unfold issue_refresh_ping.
  destruct (answer_run w) as (w1 & [] & Ha & Hs1 & Hp1 & He1); rewrite (bind_Ok _ _ _ _ _ Ha); cbn [negb].
  2:{ exists w1, e. split; [done|]. split; [done|]. split; [done|]. by left. }
  destruct (answer_run w1) as (w2 & [] & Ha2 & Hs2 & Hp2 & He2); rewrite (bind_Ok _ _ _ _ _ Ha2); cbn [negb].
  - eexists _, _. split; [done|]. cbn. split; [congruence|]. split; [congruence|]. right. split; [done|].
    by rewrite Hp2, Hp1.
  - exists w2, e. split; [|split; [congruence|split; [congruence|left; split; [done|congruence]]]].
    unfold ret. f_equal. destruct e; cbn in *. by subst.
Qed.

(** [e] is the least recently seen of the entries that can be probed. *)
Definition least_seen (l : list ants_dht_bucket_entry) (e : ants_dht_bucket_entry) : Prop :=
  e ∈ l /\ has_conn e = true /\ forall e', e' ∈ l -> has_conn e' = true -> last_seen_us e <= last_seen_us e'.

Lemma lru_scan_spec l : forall i done best,
  (forall j b, best = Some (j, b) -> done !! j = Some b /\ has_conn b = true /\
     forall e', e' ∈ done -> has_conn e' = true -> last_seen_us b <= last_seen_us e') ->
  (best = None -> forall e', e' ∈ done -> has_conn e' = false) -> i = length done ->
  match lru_scan i l best with
  | Some (j, b) => (done ++ l) !! j = Some b /\ least_seen (done ++ l) b
  | None => forall e', e' ∈ done ++ l -> has_conn e' = false
  end.
Proof.
  induction l as [|e l IH]; intros i dn best Hb Hn Hi; cbn [lru_scan].
  { rewrite app_nil_r. destruct best as [[j b]|]; [|by apply Hn]. destruct (Hb j b eq_refl) as (Hj & Hc & Hall).
    split; [done|]. split; [by apply list_elem_of_lookup_2 with j|]. by split. }
  set (best' := match e_conn e with None => best | Some _ => _ end).
  replace (dn ++ e :: l) with ((dn ++ [e]) ++ l) by by rewrite <- app_assoc.
  assert (Hlast : (dn ++ [e]) !! i = Some e) by by rewrite Hi, lookup_app_r, Nat.sub_diag by lia.
  apply IH; [| |rewrite length_app; cbn; lia].
  - intros j b. subst best'. unfold has_conn at 1.
    assert (Hkeep : best = Some (j, b) -> (has_conn e = true -> last_seen_us b <= last_seen_us e) ->
      (dn ++ [e]) !! j = Some b /\ has_conn b = true /\
      forall e', e' ∈ dn ++ [e] -> has_conn e' = true -> last_seen_us b <= last_seen_us e').
    { intros Heq Hle. destruct (Hb j b Heq) as (Hj & Hc & Hall). split; [by apply lookup_app_l_Some|]. split; [done|].
      intros e' [He'| ->%list_elem_of_singleton]%elem_of_app Hc'; [by apply Hall|by apply Hle]. }
    destruct (e_conn e) eqn:Ec; [|intros Heq; apply Hkeep; [done|unfold has_conn; by rewrite Ec]].
    destruct best as [[j0 b0]|].
    + destruct (Z.ltb_spec (last_seen_us e) (last_seen_us b0)) as [Hlt|Hge].
      * intros [= <- <-]. split; [done|]. split; [unfold has_conn; by rewrite Ec|].
        destruct (Hb j0 b0 eq_refl) as (_ & _ & Hall).
        intros e' [He'| ->%list_elem_of_singleton]%elem_of_app Hc'; [|lia]. specialize (Hall e' He' Hc'). lia.
      * intros [= <- <-]. by apply Hkeep.
    + intros [= <- <-]. split; [done|]. split; [unfold has_conn; by rewrite Ec|].
      intros e' [He'| ->%list_elem_of_singleton]%elem_of_app Hc'; [|lia].
      rewrite (Hn eq_refl e' He') in Hc'. done.
  - intros Hnone e' He'. subst best'. apply elem_of_app in He' as [He'| ->%list_elem_of_singleton].
    + destruct (e_conn e); [|by apply Hn]. destruct best as [[]|]; [|done]. by destruct (_ <? _).
    + unfold has_conn. destruct (e_conn e); [|done]. destruct best as [[]|]; [|done]. by destruct (_ <? _).
Qed.

Lemma find_lru_spec k :
  match bucket_find_lru_conn_entry k with
  | Some (j, e) => head k !! j = Some e /\ least_seen (head k) e
  | None => forall e, e ∈ head k -> has_conn e = false
  end.
Proof.
  apply (lru_scan_spec (head k) 0 [] None); [done| |done]. intros _ e' He'. by apply elem_of_nil in He'.
Qed.

(** Probing the entry at one place of a bucket. *)
Lemma probe_entry_run w b l1 k l2 h1 e h2 : buckets_ok (state w) -> focus (state w) b l1 k l2 ->
  head k = h1 ++ e :: h2 -> ping_in_flight e = false -> exists w' e',
  (let* e' := issue_refresh_ping e in put_entry (b, length h1) e') w = Ok w' tt /\
  softly w w' /\ replacements (state w') = replacements (state w) /\ events w' = events w /\
  (e' = e \/ e' = set_in_flight true e) /\ swap (state w) (state w') [e] [e'].
Proof.
  intros Hs Hf Hk Hfl. destruct (issue_run e w Hfl) as (w1 & e' & Hrun & Hs1 & He1 & Hcase).
  exists (reseat_entry w1 l1 k l2 h1 e' h2), e'. rewrite (bind_Ok _ _ _ _ _ Hrun).
  pose proof (fo_ok _ _ _ _ _ Hf) as Hok. pose proof (bo_entries _ _ _ Hok) as Hall.
  rewrite Hk in Hall. apply Forall_app in Hall as [_ Hall]. inversion Hall as [|? ? (Hid & Hi) _]; subst.
  pose proof (focus_bound _ _ _ _ _ Hs Hf) as Hmax.
  assert (Hne : e_id e <> local_peer_id (state w)) by (intros Heq; rewrite Heq, index_local in Hmax; done).
  assert (Hl : located w1 (e_id e) (bucket_index_for_peer (state w) (e_id e)) l1 k l2 h1 e h2)
    by (split; try done; by rewrite Hs1).
  assert (Hid' : e_id e' = e_id e) by (destruct Hcase as [[-> _]|[-> _]]; done).
  assert (Hst' : dead_strikes e' = dead_strikes e) by (destruct Hcase as [[-> _]|[-> _]]; done).
  rewrite (put_entry_run _ _ _ _ _ _ _ _ _ Hl). split; [done|].
  assert (Hs' : buckets_ok (state w1)) by by rewrite Hs1.
  assert (Hsw : swap (state w) (state (reseat_entry w1 l1 k l2 h1 e' h2)) [e] [e']).
  { rewrite <- Hs1. by eapply reseat_entry_swap. }
  split; [|split; [cbn; by rewrite Hs1|split; [done|split; [destruct Hcase as [[-> _]|[-> _]]; auto|done]]]].
  apply (softly_swap _ _ [e] [e']); [cbn; by rewrite Hs1|cbn; by rewrite Hs1| |done|by repeat constructor| |].
  - intros _. by eapply reseat_entry_ok.
  - cbn [pings reseat_entry]. rewrite !flights_cons, Hfl. cbn [app].
    destruct Hcase as [[-> ->]|[-> ->]]; cbn; [by rewrite Hfl|]. by rewrite <- app_assoc.
  - intros b' Hfull. rewrite <- Hs1 in Hfull. by eapply reseat_entry_full.
Qed.

(** ** The slots of the cache *)

Section slots.
Context (s : ants_dht_state) (b : Z).

Definition serves (r : ants_dht_replacement) : Prop :=
  r_in_use r = true /\ bucket_index_for_peer s (peer_id (r_peer r)) = b.

Lemma park_slot_spec rs : forall i free,
  match park_slot s b i rs free with
  | None => free = None /\ forall r, r ∈ rs -> r_in_use r = true
  | Some j => (exists r, (i <= j)%nat /\ rs !! (j - i)%nat = Some r /\ serves r) \/
      (forall r, r ∈ rs -> ~ serves r) /\
      (free = Some j \/ free = None /\ exists r, (i <= j)%nat /\ rs !! (j - i)%nat = Some r /\ r_in_use r = false)
  end.
Proof.
  induction rs as [|r rs IH]; intros i free; cbn [park_slot].
  { destruct free as [j|]; [right|]; split; try (intros r Hr; by apply elem_of_nil in Hr); auto. }
  destruct (r_in_use r) eqn:Hu.
  - destruct (Z.eqb_spec (bucket_index_for_peer s (peer_id (r_peer r))) b) as [Hb|Hb].
    { left. exists r. rewrite Nat.sub_diag. split; [done|]. by repeat split. }
    specialize (IH (S i) free). destruct (park_slot s b (S i) rs free) as [j|].
    + destruct IH as [(r' & Hj & Hr' & Hs)|[Hno Hfree]].
      * left. exists r'. split; [lia|]. split; [|done]. by replace (j - i)%nat with (S (j - S i)) by lia.
      * right. split; [intros r' [->|Hin]%elem_of_cons; [by intros [_ ?]|by apply Hno]|].
        destruct Hfree as [Hfr|(Hfr & r' & Hj & Hr' & Hs)]; [by left|right]. split; [done|]. exists r'.
        split; [lia|]. split; [|done]. by replace (j - i)%nat with (S (j - S i)) by lia.
    + destruct IH as [Hfr Hall]. split; [done|]. intros r' [->|Hin]%elem_of_cons; [done|by apply Hall].
  - set (free' := match free with None => Some i | Some _ => free end).
    specialize (IH (S i) free'). destruct (park_slot s b (S i) rs free') as [j|].
    + destruct IH as [(r' & Hj & Hr' & Hs)|[Hno Hfree]].
      * left. exists r'. split; [lia|]. split; [|done]. by replace (j - i)%nat with (S (j - S i)) by lia.
      * right. split; [intros r' [->|Hin]%elem_of_cons; [intros [? _]; congruence|by apply Hno]|].
        destruct free as [f|]; subst free'.
        -- destruct Hfree as [Hfr|[? _]]; [by left|done].
        -- destruct Hfree as [[= ->]|[? _]]; [|done]. right. split; [done|]. exists r. rewrite Nat.sub_diag. auto.
    + destruct IH as [Hfr _]. subst free'. by destruct free.
Qed.

Lemma promote_slot_spec rs : forall i,
  match promote_slot s b i rs with
  | None => forall r, r ∈ rs -> ~ serves r
  | Some (j, r) => (i <= j)%nat /\ rs !! (j - i)%nat = Some r /\ serves r
  end.
Proof.
  induction rs as [|r rs IH]; intros i; cbn [promote_slot]; [intros r Hr; by apply elem_of_nil in Hr|].
  destruct (r_in_use r) eqn:Hu; cbn [negb orb].
  - destruct (Z.eqb_spec (bucket_index_for_peer s (peer_id (r_peer r))) b) as [Hb|Hb]; cbn [negb].
    { rewrite Nat.sub_diag. split; [done|]. by repeat split. }
    specialize (IH (S i)). destruct (promote_slot s b (S i) rs) as [[j r']|].
    + destruct IH as (Hj & Hr' & Hs). split; [lia|]. split; [|done]. by replace (j - i)%nat with (S (j - S i)) by lia.
    + intros r' [->|Hin]%elem_of_cons; [by intros [_ ?]|by apply IH].
  - specialize (IH (S i)). destruct (promote_slot s b (S i) rs) as [[j r']|].
    + destruct IH as (Hj & Hr' & Hs). split; [lia|]. split; [|done]. by replace (j - i)%nat with (S (j - S i)) by lia.
    + intros r' [->|Hin]%elem_of_cons; [intros [? _]; congruence|by apply IH].
Qed.
End slots.

(** * The operations of the routing table as a whole (dht.c)

    Each returns, keeps the invariant of the table and has one of the listed
    effects. *)

(** ** The invariant through a change *)

Lemma parked_lookup s r : parked s r -> exists i, replacements s !! i = Some r /\ r_in_use r = true.
Proof. intros [Hr Hu]. apply list_elem_of_lookup_1 in Hr as [i Hi]. by exists i. Qed.

(** Replacements may go, and those that stay are still outside a full bucket. *)
Lemma table_ok_transfer s s' : table_ok s -> local_peer_id s' = local_peer_id s -> buckets_ok s' ->
  length (replacements s') = length (replacements s) ->
  (forall i r, replacements s' !! i = Some r -> r_in_use r = true -> replacements s !! i = Some r) ->
  Forall strikes_ok (all_entries s') ->
  (forall r, parked s' r -> bucket_full s' (bucket_index_for_peer s (peer_id (r_peer r))) /\ peer_id (r_peer r) ∉ members s') ->
  table_ok s'.
Proof.
  intros [Hb Hst Hn Hp Ho] Hl Hb' Hlen Hsub Hst' Hstay. split; [done|done|congruence| |].
  - intros r Hr. destruct (parked_lookup _ _ Hr) as (i & Hi & Hu).
    specialize (Hsub i r Hi Hu). destruct (Hstay r Hr) as [Hf Hm].
    destruct (Hp r) as [Hid Hne _ _]; [split; [by apply list_elem_of_lookup_2 with i|done]|].
    split; [done|congruence| |done]. by rewrite (index_of_local _ _ _ Hl).
  - intros i j r r' Hi Hj Hu Hu'. rewrite !(index_of_local _ _ _ Hl). by apply Ho; [apply Hsub|apply Hsub|..].
Qed.

Lemma strikes_swap s s' old new : Forall strikes_ok new -> Forall strikes_ok (all_entries s) -> swap s s' old new ->
  Forall strikes_ok (all_entries s').
Proof.
  intros Hn Hs (rest & H1 & H2). rewrite H1 in Hs. rewrite H2. apply Forall_app in Hs as [_ Hr]. by apply Forall_app.
Qed.

Lemma table_ok_softly w w' : table_ok (state w) -> softly w w' ->
  length (replacements (state w')) = length (replacements (state w)) ->
  (forall i r, replacements (state w') !! i = Some r -> r_in_use r = true -> replacements (state w) !! i = Some r) ->
  table_ok (state w').
Proof.
  intros Ht [Hlo _ Hok Hm Hsim _ Hf] Hlen Hsub. apply (table_ok_transfer _ _ Ht Hlo); try done; [by apply Hok, Ht| |].
  { apply Forall_forall. intros e' He'. destruct (Hsim e' He') as (e & He & [_ Hst]).
    pose proof (to_strikes _ Ht) as Hall. rewrite Forall_forall in Hall. unfold strikes_ok. rewrite Hst. by apply Hall. }
  intros r Hr. destruct (parked_lookup _ _ Hr) as (i & Hi & Hu). specialize (Hsub i r Hi Hu).
  destruct (to_parked _ Ht r) as [_ _ Hfull Hnew]; [split; [by apply list_elem_of_lookup_2 with i|done]|].
  split; [by apply Hf|]. by rewrite Hm.
Qed.

(** ** Parking *)

Definition park (s : ants_dht_state) (p : ants_dht_peer_t) (conn : option Z) (b : Z) : ants_dht_state :=
  match park_slot s b 0 (replacements s) None with
  | None => s
  | Some i => with_replacements (<[i := mk_replacement true conn p]> (replacements s)) s
  end.

Lemma park_run p conn b w :
  dht_park_replacement p conn b w = Ok (mk_world (park (state w) p conn b) (answers w) (pings w) (events w)) tt.
Proof.
  unfold dht_park_replacement, park. rewrite (bind_Ok _ _ w w (state w)) by done.
  destruct (park_slot _ _ _ _ _) as [i|]; [done|]. by destruct w.
Qed.

Lemma park_softly p conn b w : softly w (mk_world (park (state w) p conn b) (answers w) (pings w) (events w)).
Proof.
  unfold park. destruct (park_slot _ _ _ _ _) as [i|]; split; try done; cbn; try (intros e He; by exists e).
  intros [Hl Hn Hb]. split; [done|done|]. intros j k Hk. destruct (Hb j k Hk). by split.
Qed.

Lemma park_ok s p conn : table_ok s -> id_ok (peer_id p) -> peer_id p <> local_peer_id s -> peer_id p ∉ members s ->
  bucket_full s (bucket_index_for_peer s (peer_id p)) -> table_ok (park s p conn (bucket_index_for_peer s (peer_id p))).
Proof.
  intros [Hb Hst Hn Hp Ho] Hid Hne Hnew Hfull. unfold park. set (b := bucket_index_for_peer s (peer_id p)) in *.
  pose proof (park_slot_spec s b (replacements s) 0 None) as Hs.
  destruct (park_slot s b 0 (replacements s) None) as [i|]; [|by split].
  set (r0 := mk_replacement true conn p). set (s' := with_replacements _ s).
  assert (Hslot : (i < length (replacements s))%nat /\
    forall j r, j <> i -> replacements s !! j = Some r -> r_in_use r = true -> bucket_index_for_peer s (peer_id (r_peer r)) <> b).
  { destruct Hs as [(r & _ & Hi & [Hu Hib])|[Hno [?|(_ & r & _ & Hi & Hu)]]]; [|done|]; rewrite Nat.sub_0_r in Hi.
    - split; [by apply lookup_lt_Some in Hi|]. intros j r' Hj Hr' Hu' Hib'. apply Hj.
      apply (Ho j i r' r); try done. congruence.
    - split; [by apply lookup_lt_Some in Hi|]. intros j r' Hj Hr' Hu' Hib'. apply (Hno r'); [|done].
      by apply list_elem_of_lookup_2 with j. }
  destruct Hslot as [Hlt Hother]. split; [|done|..].
  - destruct Hb as [Hl Hk Hok]. split; [done|done|]. intros j k Hj. destruct (Hok j k Hj). by split.
  - cbn. by rewrite length_insert.
  - intros r Hr. destruct (parked_lookup _ _ Hr) as (j & Hj & Hu). cbn in Hj.
    apply list_lookup_insert_Some in Hj as [(<- & <- & _)|[Hij Hj]]; [by split|].
    destruct (Hp r) as []; [split; [by apply list_elem_of_lookup_2 with j|done]|]. by split.
  - intros j j' r r' Hj Hj' Hu Hu' Heq. cbn in Hj, Hj'.
    change (bucket_index_for_peer s (peer_id (r_peer r)) = bucket_index_for_peer s (peer_id (r_peer r'))) in Heq.
    apply list_lookup_insert_Some in Hj as [(<- & <- & _)|[Hij Hj]], Hj' as [(<- & <- & _)|[Hij' Hj']]; try done.
    + exfalso. apply (Hother j' r'); [by intros ->|done|done|by symmetry].
    + exfalso. apply (Hother j r); [by intros ->|done|done|done].
    + by apply (Ho j j' r r').
Qed.

(** ** Insertion from the network *)

Lemma admit_run p conn w : table_ok (state w) -> id_ok (peer_id p) -> peer_id p <> local_peer_id (state w) ->
  peer_id p ∉ members (state w) -> bucket_full (state w) (bucket_index_for_peer (state w) (peer_id p)) ->
  exists w', dht_bucket_full_admit p conn (bucket_index_for_peer (state w) (peer_id p)) w = Ok w' tt /\
    softly w w' /\ events w' = events w /\
    replacements (state w') = replacements (park (state w) p conn (bucket_index_for_peer (state w) (peer_id p))) /\
    table_ok (state w') /\
    exists old new, swap (state w) (state w') old new /\
      (old = new \/ exists e, old = [e] /\ new = [set_in_flight true e]) /\
      forall e, e ∈ old -> exists k, get_at (buckets (state w)) (bucket_index_for_peer (state w) (peer_id p)) = Some k /\
        least_seen (head k) e.
Proof.
  intros Ht Hid Hne Hnew Hfull. set (b := bucket_index_for_peer (state w) (peer_id p)) in *.
  unfold dht_bucket_full_admit. set (w1 := mk_world (park (state w) p conn b) (answers w) (pings w) (events w)).
  rewrite (bind_Ok _ _ _ _ _ (park_run p conn b w)). fold w1.
  pose proof (park_softly p conn b w) as Hsoft. fold w1 in Hsoft.
  pose proof (park_ok _ p conn Ht Hid Hne Hnew Hfull) as Ht1. fold b in Ht1. change (table_ok (state w1)) in Ht1.
  assert (Hbk : buckets (state w1) = buckets (state w)) by (subst w1; unfold park; cbn; by destruct (park_slot _ _ _ _ _)).
  destruct (focus_peer _ _ (to_buckets _ Ht) Hid Hne) as (l1 & k & l2 & Hf & _). fold b in Hf.
  assert (Hf1 : focus (state w1) b l1 k l2).
  { destruct Hf as [Hb Hi [? ? ? Hall]]. split; [congruence|done|split; try done].
    eapply Forall_impl; [exact Hall|]. intros e (? & ?). split; [done|].
    rewrite (index_of_local (state w) (state w1)); [done|apply Hsoft]. }
  rewrite (bind_Ok _ _ w1 w1 k) by by apply (bucket_at_run (state w1) _ l1 _ l2).
  assert (Hdone : softly w w1 /\ events w1 = events w /\ replacements (state w1) = replacements (park (state w) p conn b) /\
    table_ok (state w1) /\ exists old new, swap (state w) (state w1) old new /\
      (old = new \/ exists e, old = [e] /\ new = [set_in_flight true e]) /\
      forall e, e ∈ old -> exists k, get_at (buckets (state w)) b = Some k /\ least_seen (head k) e).
  { split; [done|]. split; [done|]. split; [done|]. split; [done|]. exists [], []. split; [|split; [by left|]].
    - exists (all_entries (state w)). unfold all_entries. by rewrite Hbk.
    - intros e He. by apply elem_of_nil in He. }
  pose proof (find_lru_spec k) as Hlru. destruct (bucket_find_lru_conn_entry k) as [[j e]|]; [|by exists w1].
  destruct Hlru as [Hj Hleast]. destruct (ping_in_flight e) eqn:Hfl; [by exists w1|].
  assert (Hk : head k = take j (head k) ++ e :: drop (S j) (head k)) by by rewrite take_drop_middle.
  destruct (probe_entry_run w1 b l1 k l2 _ e _ (to_buckets _ Ht1) Hf1 Hk Hfl) as (w' & e' & Hrun & Hs' & Hr' & He' & Hcase & Hsw).
  replace (length (take j (head k))) with j in Hrun by (apply lookup_lt_Some in Hj; rewrite length_take; lia).
  exists w'. split; [exact Hrun|]. split; [by transitivity w1|]. split; [by rewrite He'|]. split; [by rewrite Hr'|].
  split; [apply (table_ok_softly w1); [done|done|congruence|by rewrite Hr']|].
  exists [e], [e']. split.
  { destruct Hsw as (rest & H1 & H2). exists rest. split; [|done]. unfold all_entries in *. by rewrite <- Hbk. }
  split; [destruct Hcase as [->| ->]; [by left|right; by exists e]|].
  intros e0 ->%list_elem_of_singleton. exists k. split; [by apply (focus_get _ _ l1 _ l2)|done].
Qed.

(** The ways [dht_routing_upsert] can end. *)
Inductive upserted (p : ants_dht_peer_t) (conn : option Z) (now : Z) (w : dht_world) : outcome dht_world unit -> Prop :=
| ups_self : peer_id p = local_peer_id (state w) -> upserted p conn now w (Err w ANTS_ERROR_INVALID_ARG)
| ups_refresh hit w' : hit ∈ all_entries (state w) -> e_id hit = peer_id p -> softly w w' -> events w' = events w ->
    pings w' = pings w -> swap (state w) (state w') [hit] [refreshed hit p conn now] ->
    upserted p conn now w (Ok w' tt)
| ups_refused w' : peer_id p ∉ members (state w) -> quiet w w' -> state w' = state w -> answers w = false :: answers w' ->
    upserted p conn now w (Err w' ANTS_ERROR_MALFORMED)
| ups_full w' old new : peer_id p ∉ members (state w) ->
    bucket_full (state w) (bucket_index_for_peer (state w) (peer_id p)) -> softly w w' -> events w' = events w ->
    replacements (state w') = replacements (park (state w) p conn (bucket_index_for_peer (state w) (peer_id p))) ->
    swap (state w) (state w') old new -> (old = new \/ exists e, old = [e] /\ new = [set_in_flight true e]) ->
    (forall e, e ∈ old -> exists k, get_at (buckets (state w)) (bucket_index_for_peer (state w) (peer_id p)) = Some k /\
      least_seen (head k) e) ->
    upserted p conn now w (Err w' ANTS_ERROR_BUFFER_TOO_SMALL)
| ups_new w' : peer_id p ∉ members (state w) -> pings w' = pings w ->
    local_peer_id (state w') = local_peer_id (state w) -> event_fn (state w') = event_fn (state w) ->
    swap (state w) (state w') [] [fresh_entry p conn now] ->
    events w' = events w ++ (if event_fn (state w) then [ANTS_DHT_EV_PEER_DISCOVERED p] else []) ->
    upserted p conn now w (Ok w' tt).

Lemma bind_status_Ok {B} m (k : option ants_error_t -> action dht_world B) w w' u :
  m w = Ok w' u -> (let* err := status m in k err) w = k None w'.
Proof. unfold bind, status. by intros ->. Qed.

Lemma bind_status_Err {B} m (k : option ants_error_t -> action dht_world B) w w' e :
  m w = Err w' e -> (let* err := status m in k err) w = k (Some e) w'.
Proof. unfold bind, status. by intros ->. Qed.

Definition final {A} (r : outcome dht_world A) : option dht_world :=
  match r with Ok w _ | Err w _ => Some w | UB | NoFuel => None end.

Lemma fire_run ev w : exists w', fire ev w = Ok w' tt /\ state w' = state w /\ pings w' = pings w /\
  events w' = events w ++ (if event_fn (state w) then [ev] else []).
Proof.
  unfold fire. eexists. split; [done|]. destruct (event_fn (state w)); [done|]. by rewrite app_nil_r.
Qed.

Lemma table_ok_new w w' id fresh : table_ok (state w) -> strikes_ok fresh -> quiet w w' -> buckets_ok (state w') ->
  swap (state w) (state w') [] [fresh] -> e_id fresh = id -> ~ bucket_full (state w) (bucket_index_for_peer (state w) id) ->
  (forall b, bucket_full (state w) b -> bucket_full (state w') b) -> table_ok (state w').
Proof.
  intros Ht Hsf [Hl _ _ Hr _ _] Hb Hsw Hid Hnf Hf. apply (table_ok_transfer _ _ Ht Hl Hb); [congruence|by rewrite Hr|by apply (strikes_swap (state w) _ [] [fresh]); [apply Forall_singleton|apply Ht|]|].
  intros r Hp. unfold parked in Hp. rewrite Hr in Hp. destruct (to_parked _ Ht r Hp) as [_ _ Hfull Hnew].
  split; [by apply Hf|]. destruct (swap_members _ _ _ _ Hsw) as (ids & H1 & H2). cbn in H1, H2.
  rewrite H2, <- H1, Hid. intros [Heq|?]%elem_of_cons; [|done]. apply Hnf. by rewrite <- Heq.
Qed.

Lemma upsert_run p conn now w : table_ok (state w) -> id_ok (peer_id p) ->
  upserted p conn now w (dht_routing_upsert p conn now w) /\
  exists w', final (dht_routing_upsert p conn now w) = Some w' /\ table_ok (state w').
Proof.
  intros Ht Hid. pose proof (to_buckets _ Ht) as Hb. unfold dht_routing_upsert.
  pose proof (find_entry_run w _ Hb Hid) as Hfind.
  destruct (find_entry_by_peer_id (peer_id p) w) as [w0 found| | |] eqn:Ef; try done.
  assert (Hmem : match found with Some _ => peer_id p ∈ members (state w) | None => peer_id p ∉ members (state w) end /\ w0 = w)
    by (destruct found; tauto). destruct Hmem as [Hmem ->]. clear Hfind. rewrite (bind_Ok _ _ _ _ _ Ef).
  pose proof (kbucket_insert_run p conn now w Hb Hid) as Hins. remember (kbucket_insert p conn now w) as o eqn:Ho.
  symmetry in Ho. destruct Hins as [Hself|hit w' Hne Hhit Hhid Hq Hok Hsw Hf|Hne Hnew Hfull|w' Hne Hnew Hnf Hq Hst Hans|w' Hne Hnew Hnf Hq Hok Hsw Hf].
  - rewrite (bind_status_Err _ _ _ _ _ Ho), bool_decide_false by done. split; [by apply ups_self|]. by exists w.
  - assert (Hm : peer_id p ∈ members (state w)) by (rewrite <- Hhid; apply list_elem_of_fmap; by exists hit).
    rewrite (bind_status_Ok _ _ _ _ _ Ho). destruct found; [|done]. destruct Hq as [Hl He Hi Hr Hp Hev]. assert (Hsoft : softly w w').
    { apply (softly_swap _ _ [hit] [refreshed hit p conn now]); try done; [by apply Forall2_cons; split|].
      by rewrite Hp, !flights_cons. }
    split; [by apply ups_refresh with hit|]. exists w'. split; [done|].
    apply (table_ok_softly w); [done|done|congruence|by rewrite Hr].
  - rewrite (bind_status_Err _ _ _ _ _ Ho), bool_decide_true by done.
    destruct (focus_peer _ _ Hb Hid Hne) as (l1 & k & l2 & _ & Hmax).
    destruct (admit_run p conn w Ht Hid Hne Hnew Hfull) as (w' & Hrun & Hsoft & Hev & Hr & Ht' & old & new & Hsw & Hc & Hl).
    unfold bind, get_state. rewrite (proj2 (Z.eqb_neq _ _) Hmax). cbn [negb]. rewrite Hrun. split; [by apply ups_full with old new|]. by exists w'.
  - rewrite (bind_status_Err _ _ _ _ _ Ho), bool_decide_false by done. unfold bind, ret, fail. split; [by apply ups_refused|]. exists w'. split; [done|by rewrite Hst].
  - rewrite (bind_status_Ok _ _ _ _ _ Ho). destruct found; [done|]. destruct (fire_run (ANTS_DHT_EV_PEER_DISCOVERED p) w') as (w2 & -> & Hs2 & Hp2 & He2).
    pose proof Hq as [Hl He Hi Hr Hp Hev]. split.
    + apply ups_new; try done; rewrite ?Hs2; try done; [congruence|]. by rewrite He2, Hev, He.
    + exists w2. split; [done|]. rewrite Hs2. by apply (table_ok_new w w' (peer_id p) (fresh_entry p conn now)).
Qed.
