(* ===== verification/DhtReach.v ===== *)
(** * Ping results, the liveness sweep and closed connections (dht.c)

    Then: the periodic sweep, and the tables that runs of the operations reach. *)

From S2P Require Import Prelude Dht DhtClosest DhtOps DhtSteps.
Import Dht.

#[local] Arguments zlen {A} l : simpl never.

(** ** The outcome of a probe *)

(** The entry after an answer, and after a missing one. *)
Definition answered (now : Z) (e : ants_dht_bucket_entry) : ants_dht_bucket_entry :=
  set_seen now (set_strikes 0 (set_in_flight false e)).
Definition struck (e : ants_dht_bucket_entry) : ants_dht_bucket_entry :=
  set_strikes (dead_strikes e + 1) (set_in_flight false e).

(** The peer that takes the place of an evicted one: the one parked for the
    bucket, unless its allocation is refused. *)
Definition promoted (w w' : dht_world) (b : Z) (now : Z) (new : list ants_dht_bucket_entry) : Prop :=
  match new with
  | [] => (forall r, parked (state w) r -> ~ serves (state w) b r) \/ exists an, answers w = false :: an
  | [e] => exists r, parked (state w) r /\ serves (state w) b r /\ e = fresh_entry (r_peer r) (r_conn r) now
  | _ => False
  end.

Definition announce (w : dht_world) (evs : list dht_event) : list dht_event :=
  if event_fn (state w) then evs else [].

(** The ways [dht_apply_ping_result] can end, for a peer in the table. *)
Inductive ping_applied (id : bytes) (ok : bool) (now : Z) (w w' : dht_world) (e : ants_dht_bucket_entry) : Prop :=
| pin_answered : ok = true -> swap (state w) (state w') [e] [answered now e] -> events w' = events w ->
    replacements (state w') = replacements (state w) -> ping_applied id ok now w w' e
| pin_struck : ok = false -> dead_strikes e + 1 < ANTS_DHT_DEAD_STRIKE_THRESHOLD ->
    swap (state w) (state w') [e] [struck e] -> events w' = events w ->
    replacements (state w') = replacements (state w) -> ping_applied id ok now w w' e
| pin_evicted new : ok = false -> dead_strikes e + 1 = ANTS_DHT_DEAD_STRIKE_THRESHOLD ->
    swap (state w) (state w') [e] new -> promoted w w' (bucket_index_for_peer (state w) id) now new ->
    events w' = events w ++ announce w (ANTS_DHT_EV_PEER_EVICTED (e_peer e) ::
                                        map (fun n => ANTS_DHT_EV_PEER_DISCOVERED (e_peer n)) new) ->
    ping_applied id ok now w w' e.

(** The frame every case shares. *)
Record framed (w w' : dht_world) : Prop := {
  fr_local : local_peer_id (state w') = local_peer_id (state w);
  fr_event : event_fn (state w') = event_fn (state w);
  fr_pings : pings w' = pings w
}.

Lemma swap_trans s1 s2 s3 a b c : swap s1 s2 a b -> swap s2 s3 b c -> swap s1 s3 a c.
Proof.
  intros (r & H1 & H2) (r' & H3 & H4). exists r. split; [done|]. rewrite H4.
  rewrite H2 in H3. apply Permutation_app_inv_l in H3. by rewrite H3.
Qed.

(** Insertion of a parked peer into the place that has become free. *)
Lemma promote_run b now w s0 e : table_ok s0 -> buckets_ok (state w) -> local_peer_id (state w) = local_peer_id s0 ->
  event_fn (state w) = event_fn s0 -> replacements (state w) = replacements s0 ->
  swap s0 (state w) [e] [] -> bucket_index_for_peer s0 (e_id e) = b -> ~ bucket_full (state w) b ->
  (forall b', b' <> b -> bucket_full s0 b' -> bucket_full (state w) b') ->
  exists w' new, dht_promote_replacement b now w = Ok w' tt /\ framed w w' /\ table_ok (state w') /\
    swap (state w) (state w') [] new /\
    match new with
    | [] => (forall r, parked s0 r -> ~ serves s0 b r) \/ exists an, answers w = false :: an
    | [n] => exists r, parked s0 r /\ serves s0 b r /\ n = fresh_entry (r_peer r) (r_conn r) now
    | _ => False
    end /\
    events w' = events w ++ announce w (map (fun n => ANTS_DHT_EV_PEER_DISCOVERED (e_peer n)) new).
Proof.
  intros Ht Hb Hl Hev Hr Hsw Hi Hnf Hf. destruct (swap_members _ _ _ _ Hsw) as (ids & Hm0 & Hm). cbn in Hm0, Hm.
  assert (Hnew : forall r, parked s0 r -> peer_id (r_peer r) ∉ members (state w)).
  { intros r Hp Hin. apply (po_new _ _ (to_parked _ Ht r Hp)). rewrite Hm0. right. by rewrite <- Hm. }
  assert (Hidx : forall id, bucket_index_for_peer (state w) id = bucket_index_for_peer s0 id)
    by (intros id; by apply index_of_local).
  assert (Hkeep : forall s', local_peer_id s' = local_peer_id s0 -> buckets_ok s' ->
    length (replacements s') = length (replacements s0) -> Forall strikes_ok (all_entries s') ->
    (forall i r, replacements s' !! i = Some r -> r_in_use r = true -> replacements s0 !! i = Some r /\ ~ serves s0 b r) ->
    (forall b', bucket_full (state w) b' -> bucket_full s' b') ->
    (forall r, parked s0 r -> ~ serves s0 b r -> peer_id (r_peer r) ∉ members s') -> table_ok s').
  { intros s' Hl' Hb' Hlen Hst' Hsub Hfull Hmem. apply (table_ok_transfer s0); try done.
    - intros i r Hri Hu. by apply (Hsub i r).
    - intros r Hp. destruct (parked_lookup _ _ Hp) as (i & Hri & Hu). destruct (Hsub i r Hri Hu) as [Hr0 Hns].
      assert (Hp0 : parked s0 r) by (split; [by apply list_elem_of_lookup_2 with i|done]).
      split; [|by apply Hmem]. apply Hfull, Hf; [|by apply Ht]. intros Heq. by apply Hns. }
  assert (Hsts : Forall strikes_ok (all_entries (state w))) by (apply (strikes_swap s0 _ [e] []); [done|apply Ht|done]).
  unfold dht_promote_replacement. rewrite (bind_Ok _ _ w w (state w)) by done.
  pose proof (promote_slot_spec (state w) b (replacements (state w)) 0) as Hps.
  destruct (promote_slot _ _ _ _) as [[i r]|].
  2:{ assert (Hno : forall r, parked s0 r -> ~ serves s0 b r).
      { intros r [Hin Hu] [_ Hib]. apply (Hps r); [by rewrite Hr|]. split; [done|by rewrite Hidx]. }
      exists w, []. split; [done|]. split; [done|]. split.
      - apply Hkeep; try done; [by rewrite Hr| |].
        + intros i r. rewrite Hr. intros Hi' Hu. split; [done|]. apply Hno. split; [by apply list_elem_of_lookup_2 with i|done].
        + intros r Hp _. by apply Hnew.
      - split; [by exists (all_entries (state w))|]. split; [by left|]. cbn. unfold announce. destruct (event_fn _); by rewrite app_nil_r. }
  destruct Hps as (_ & Hri & Hu & Hib). rewrite Nat.sub_0_r in Hri. rewrite Hidx in Hib.
  assert (Hp : parked s0 r) by (split; [rewrite <- Hr; by apply list_elem_of_lookup_2 with i|done]).
  destruct (to_parked _ Ht r Hp) as [Hid Hne _ _].
  set (rs := <[i := mk_replacement false (r_conn r) (r_peer r)]> (replacements (state w))).
  set (w1 := mk_world (with_replacements rs (state w)) (answers w) (pings w) (events w)).
  rewrite (bind_Ok _ _ w w1 tt) by done.
  assert (Hb1 : buckets_ok (state w1)).
  { destruct Hb as [? ? Hall]. split; [done|done|]. intros j k Hk. destruct (Hall j k Hk). by split. }
  assert (Hrs : forall j r', rs !! j = Some r' -> r_in_use r' = true -> replacements s0 !! j = Some r' /\ ~ serves s0 b r').
  { intros j r' Hj Hu'. subst rs. apply list_lookup_insert_Some in Hj as [(<- & <- & _)|[Hij Hj]]; [done|].
    rewrite Hr in Hj, Hri. split; [done|]. intros [_ Hib']. apply Hij. apply (to_one _ Ht i j r r'); try done. congruence. }
  assert (Hlen : length rs = length (replacements s0)) by (subst rs; by rewrite length_insert, Hr).
  pose proof (kbucket_insert_run (r_peer r) (r_conn r) now w1 Hb1 Hid) as Hins.
  remember (kbucket_insert (r_peer r) (r_conn r) now w1) as o eqn:Ho. symmetry in Ho.
  assert (Hi1 : bucket_index_for_peer (state w1) (peer_id (r_peer r)) = b) by by rewrite (Hidx : forall id, bucket_index_for_peer (state w1) id = _).
  destruct Hins as [Hself|hit w' _ Hhit Hhid _ _ _ _|_ _ Hfull|w' _ _ _ Hq Hst Hans|w' _ _ _ Hq Hok Hsw' Hf'].
  - exfalso. apply Hne. rewrite <- Hl. exact Hself.
  - exfalso. apply (Hnew r Hp). apply list_elem_of_fmap. exists hit. by rewrite Hhid.
  - exfalso. apply Hnf. rewrite Hi1 in Hfull. exact Hfull.
  - rewrite (bind_status_Err _ _ _ _ _ Ho). exists w', []. split; [done|]. destruct Hq as [Hql Hqe _ Hqr Hqp Hqv]. split; [by split|].
    split; [|split; [rewrite Hst; by exists (all_entries (state w))|split; [right; by exists (answers w')|]]].
    + rewrite Hst. apply Hkeep; try done. intros r' Hp' _. by apply Hnew.
    + cbn. unfold announce. rewrite Hqv. destruct (event_fn _); by rewrite app_nil_r.
  - rewrite (bind_status_Ok _ _ _ _ _ Ho).
    destruct (fire_run (ANTS_DHT_EV_PEER_DISCOVERED (r_peer r)) w') as (w2 & Hfire & Hs2 & Hp2 & He2).
    exists w2, [fresh_entry (r_peer r) (r_conn r) now]. split; [done|]. destruct Hq as [Hql Hqe _ Hqr Hqp Hqv].
    split; [split; [by rewrite Hs2|by rewrite Hs2|by rewrite Hp2]|]. rewrite Hs2. split; [|split; [done|split; [by exists r|]]].
    + apply Hkeep; try done; [by rewrite Hql|by rewrite Hqr| |by rewrite Hqr|].
      { apply (strikes_swap (state w1) _ [] [fresh_entry (r_peer r) (r_conn r) now]); [by apply Forall_singleton|done|done]. }
      intros r' Hp' Hns Hin. destruct (swap_members _ _ _ _ Hsw') as (ids' & Hm1 & Hm2). cbn in Hm1, Hm2.
      rewrite Hm2 in Hin. apply elem_of_cons in Hin as [Heq|Hin].
      * apply Hns. split; [by destruct Hp'|]. rewrite Heq. exact Hib.
      * rewrite <- Hm1 in Hin. by apply (Hnew r').
    + rewrite He2, Hqv, Hqe. done.
Qed.

Lemma ping_run id ok now w e : table_ok (state w) -> id_ok id -> e ∈ all_entries (state w) -> e_id e = id ->
  exists w', dht_apply_ping_result id ok now w = Ok w' tt /\ framed w w' /\ table_ok (state w') /\ ping_applied id ok now w w' e.
Proof.
  intros Ht Hid He Heid. pose proof (to_buckets _ Ht) as Hb. unfold dht_apply_ping_result.
  pose proof (find_entry_run w _ Hb Hid) as Hfind.
  destruct (find_entry_by_peer_id id w) as [w0 found| | |] eqn:Ef; try done.
  destruct found as [ptr|]; [|destruct Hfind as [_ []]; apply list_elem_of_fmap; by exists e].
  destruct Hfind as (-> & _ & b & l1 & k & l2 & h1 & e0 & h2 & Hl & ->). rewrite (bind_Ok _ _ _ _ _ Ef).
  assert (e0 = e) as ->.
  { apply (stored_unique (state w)); [done| |done|by rewrite (lo_id _ _ _ _ _ _ _ _ _ Hl)].
    rewrite (all_entries_focus _ _ _ _ _ (lo_focus _ _ _ _ _ _ _ _ _ Hl)), (lo_head _ _ _ _ _ _ _ _ _ Hl). set_solver. }
  rewrite (bind_Ok _ _ _ _ _ (entry_at_run _ _ _ _ _ _ _ _ _ Hl)).
  rewrite (bind_Ok _ _ _ _ _ (put_entry_run _ _ _ _ _ _ _ _ _ Hl _)).
  assert (Hst : strikes_ok e) by (pose proof (to_strikes _ Ht) as Hall; rewrite Forall_forall in Hall; by apply Hall).
  set (w1 := reseat_entry w l1 k l2 h1 (set_in_flight false e) h2).
  pose proof (reseat_entry_located _ _ _ _ _ _ _ _ _ Hl (set_in_flight false e) Heid) as Hl1. fold w1 in Hl1.
  assert (Hb1 : buckets_ok (state w1)) by (eapply reseat_entry_ok; done).
  assert (Hsw1 : swap (state w) (state w1) [e] [set_in_flight false e]) by (eapply reseat_entry_swap; done).
  assert (Hf1 : forall b', bucket_full (state w) b' -> bucket_full (state w1) b')
    by (intros b'; eapply reseat_entry_full; done).
  assert (Hstay : forall e', e_id e' = id -> strikes_ok e' ->
    let w2 := reseat_entry w1 l1 (mk_bucket (h1 ++ set_in_flight false e :: h2) (count k)) l2 h1 e' h2 in
    swap (state w) (state w2) [e] [e'] /\ framed w w2 /\ table_ok (state w2)).
  { intros e' Hid' Hst' w2.
    assert (Hsw : swap (state w) (state w2) [e] [e'])
      by (eapply swap_trans; [exact Hsw1|eapply reseat_entry_swap; done]).
    split; [done|]. split; [done|]. apply (table_ok_transfer _ _ Ht); try done; [eapply reseat_entry_ok; done| |].
    { apply (strikes_swap (state w) _ [e] [e']); [by apply Forall_singleton|apply Ht|done]. }
    intros r Hp. destruct (to_parked _ Ht r Hp) as [_ _ Hfull Hnew]. split; [eapply reseat_entry_full; try done; by apply Hf1|].
    destruct (swap_members _ _ _ _ Hsw) as (ids & H1 & H2). cbn [map app] in H1, H2.
    by rewrite H2, Hid', <- Heid, <- H1. }
  destruct ok.
  { destruct (Hstay (answered now e) Heid ltac:(done)) as (Hsw & Hfr & Ht2).
    eexists. split; [by apply (put_entry_run _ _ _ _ _ _ _ _ _ Hl1)|]. split; [done|]. split; [done|]. by apply pin_answered. }
  assert (Hu8 : u8 (dead_strikes e + 1) = dead_strikes e + 1) by (apply u8_small; unfold strikes_ok, ANTS_DHT_DEAD_STRIKE_THRESHOLD in *; zlia).
  cbv zeta. rewrite Hu8. rewrite (bind_Ok _ _ _ _ _ (put_entry_run _ _ _ _ _ _ _ _ _ Hl1 _)).
  destruct (Z.leb_spec ANTS_DHT_DEAD_STRIKE_THRESHOLD (dead_strikes e + 1)) as [Hout|Hin].
  2:{ destruct (Hstay (struck e) Heid ltac:(unfold strikes_ok in *; cbn; lia)) as (Hsw & Hfr & Ht2).
      eexists. split; [done|]. split; [done|]. split; [done|]. by apply pin_struck. }
  set (w2 := reseat_entry w1 _ _ _ _ _ _).
  assert (Hl2 : located w2 id b l1 _ l2 h1 (set_strikes (dead_strikes e + 1) (set_in_flight false e)) h2)
    by (eapply reseat_entry_located; done).
  assert (Hb2 : buckets_ok (state w2)) by (eapply reseat_entry_ok; done).
  destruct (kbucket_remove_run _ _ _ _ _ _ _ _ _ Hb2 Hid Hl2) as (w3 & Hrm & Hq3 & Hb3 & Ha3 & Hsw3 & Hnf3 & Hf3).
  assert (Hsw : swap (state w) (state w3) [e] []).
  { eapply swap_trans; [exact Hsw1|]. eapply swap_trans; [|exact Hsw3]. eapply reseat_entry_swap; done. }
  rewrite (bind_Ok _ _ w2 w2 (state w2)) by done. rewrite (bind_status_Ok _ _ _ _ _ Hrm).
  destruct (fire_run (ANTS_DHT_EV_PEER_EVICTED (e_peer e)) w3) as (w4 & Hfire & Hs4 & Hp4 & He4).
  rewrite (bind_Ok _ _ _ _ _ Hfire). destruct Hq3 as [Hql Hqe _ Hqr Hqp Hqv].
  assert (Hi : bucket_index_for_peer (state w2) id = b) by apply (lo_index _ _ _ _ _ _ _ _ _ Hl2). rewrite Hi.
  rewrite <- Hs4 in *.
  destruct (promote_run b now w4 (state w) e Ht) as (w5 & new & Hrun & [Hl5 He5 Hp5] & Ht5 & Hsw5 & Hnew & Hev5); try done.
  { rewrite Heid. apply (lo_index _ _ _ _ _ _ _ _ _ Hl). }
  { intros b' Hne Hfull. apply Hf3; [done|]. eapply reseat_entry_full; try done. by apply Hf1. }
  exists w5. split; [done|].
  split; [split; [by rewrite Hl5, Hql|by rewrite He5, Hqe|by rewrite Hp5, Hp4, Hqp]|]. split; [done|].
  apply pin_evicted with new; [done|unfold strikes_ok in Hst; lia|by eapply swap_trans| |].
  - rewrite (lo_index _ _ _ _ _ _ _ _ _ Hl).
    destruct new as [|n []]; [|done..]. destruct Hnew as [Hno|[an Han]]; [by left|right; exists an].
    revert Han. unfold fire in Hfire. injection Hfire as <-. destruct (event_fn (state w3)); cbn; by rewrite Ha3.
  - rewrite Hev5, He4, Hqv. unfold announce. rewrite <- app_assoc. f_equal. rewrite Hs4 in *. rewrite Hqe.
    change (event_fn (state w2)) with (event_fn (state w)). by destruct (event_fn (state w)).
Qed.

(** * The liveness sweep and closed connections (dht.c) *)

(** ** One pass over the table *)

(** What the sweep may do to an entry. *)
Definition swept (stale_us now : Z) (e e' : ants_dht_bucket_entry) : Prop :=
  e' = e \/ due stale_us now e = true /\ e' = set_in_flight true e.

Lemma swept_similar st now l l' : Forall2 (swept st now) l l' -> Forall2 similar l l'.
Proof. intros H. eapply Forall2_impl; [exact H|]. by intros e e' [->|[_ ->]]. Qed.

Lemma sweep_entry_run st now e w : exists w' e',
  (if due st now e then issue_refresh_ping e else ret e) w = Ok w' e' /\
  state w' = state w /\ events w' = events w /\ swept st now e e' /\ pings w' ++ flights [e] ≡ₚ pings w ++ flights [e'].
Proof.
  destruct (due st now e) eqn:Hd; [|exists w, e; split; [done|]; split; [done|]; split; [done|]; split; [by left|done]].
  assert (Hfl : ping_in_flight e = false).
  { unfold due in Hd. destruct (e_conn e); [|done]. by destruct (ping_in_flight e). }
  destruct (issue_run e w Hfl) as (w1 & e' & -> & Hs & He & Hc). exists w1, e'. repeat split; try done.
  - destruct Hc as [[-> _]|[-> _]]; [by left|by right].
  - rewrite !flights_cons, Hfl. destruct Hc as [[-> ->]|[-> ->]]; cbn; [by rewrite Hfl|].
    by rewrite <- app_assoc.
Qed.

Lemma sweep_entries_run st now l : forall w, exists w' l',
  sweep_entries st now l w = Ok w' l' /\ state w' = state w /\ events w' = events w /\
  Forall2 (swept st now) l l' /\ pings w' ++ flights l ≡ₚ pings w ++ flights l'.
Proof.
  induction l as [|e l IH]; intros w; cbn [sweep_entries]; [by exists w, []|].
  destruct (sweep_entry_run st now e w) as (w1 & e' & H1 & Hs1 & He1 & Hsw & Hp1).
  rewrite (bind_Ok _ _ _ _ _ H1). destruct (IH w1) as (w2 & l' & H2 & Hs2 & He2 & Hsl & Hp2).
  rewrite (bind_Ok _ _ _ _ _ H2). exists w2, (e' :: l'). split; [done|]. split; [congruence|]. split; [congruence|].
  split; [by constructor|]. change (flights (e :: l)) with (flights ([e] ++ l)).
  change (flights (e' :: l')) with (flights ([e'] ++ l')). rewrite !flights_app.
  transitivity ((pings w2 ++ flights l) ++ flights [e]); [solve_Permutation|]. rewrite Hp2.
  transitivity ((pings w1 ++ flights [e]) ++ flights l'); [solve_Permutation|]. rewrite Hp1. solve_Permutation.
Qed.

(** Entries that only changed their flags leave a bucket in order. *)
Lemma bucket_ok_similar s b k l' : bucket_ok s b k -> Forall2 similar (head k) l' ->
  bucket_ok s b (mk_bucket l' (count k)).
Proof.
  intros [Hc Hr Hn He] Hs. pose proof (Forall2_length _ _ _ Hs) as Hlen. split; cbn.
  - rewrite Hc. unfold zlen. by rewrite Hlen.
  - by rewrite <- Hlen.
  - by rewrite (similar_ids _ _ Hs).
  - apply Forall_lookup. intros i e' Hi. destruct (Forall2_lookup_r _ _ _ _ _ Hs Hi) as (e & Hl & [Hid _]).
    rewrite Forall_lookup in He. unfold entry_ok. rewrite Hid. by apply (He i).
Qed.

(** Replacing the list of one bucket by a similar one. *)
Lemma reseat_softly w b l1 k l2 l' ps an ev : buckets_ok (state w) -> focus (state w) b l1 k l2 -> Forall2 similar (head k) l' ->
  ps ++ flights (head k) ≡ₚ pings w ++ flights l' ->
  softly w (mk_world (reseat (state w) l1 (mk_bucket l' (count k)) l2) an ps ev).
Proof.
  intros Hs Hf Hsim Hp. pose proof (bucket_ok_similar _ _ _ _ (fo_ok _ _ _ _ _ Hf) Hsim) as Hok.
  apply (softly_swap _ _ (head k) l'); try done.
  - intros _. by apply (reseat_ok _ b _ k).
  - apply (reseat_swap _ b _ k _ Hf _ _ _ []); by rewrite app_nil_r.
  - intros b' Hfull. destruct (decide (b' = b)) as [->|Hne]; [|by apply (full_reseat _ b _ k)].
    apply (full_focus _ _ _ _ _ Hf) in Hfull. apply (full_focus _ _ _ _ _ (focus_reseat _ _ _ _ _ Hf _ Hok)). cbn.
    by rewrite <- (Forall2_length _ _ _ Hsim).
Qed.

Lemma sweep_buckets_run st now n : forall i w, buckets_ok (state w) -> 0 <= i ->
  i + Z.of_nat n <= Z.of_nat ANTS_DHT_BUCKET_COUNT -> exists w',
  sweep_buckets st now n i w = Ok w' tt /\ softly w w' /\ events w' = events w /\
  replacements (state w') = replacements (state w) /\ refresh_interval_ms (state w') = refresh_interval_ms (state w) /\
  (forall e', e' ∈ all_entries (state w') -> exists e, e ∈ all_entries (state w) /\ swept st now e e').
Proof.
  induction n as [|n IH]; intros i w Hs Hi Hn; cbn [sweep_buckets].
  { exists w. split; [done|]. split; [done|]. split; [done|]. split; [done|]. split; [done|].
    intros e' He'. exists e'. split; [done|by left]. }
  destruct (focus_at _ i Hs) as (l1 & k & l2 & Hf); [lia|].
  rewrite (bind_Ok _ _ w w k) by by apply (bucket_at_run (state w) _ l1 _ l2).
  destruct (sweep_entries_run st now (head k) w) as (w1 & l' & H1 & Hs1 & He1 & Hsw & Hp1).
  rewrite (bind_Ok _ _ _ _ _ H1). rewrite (bind_Ok _ _ _ _ _ (put_bucket_run _ _ _ _ _ Hf _ w1 Hs1)).
  set (w2 := mk_world _ _ _ _).
  assert (Hsoft : softly w w2) by (apply (reseat_softly _ i); [done|done|by eapply swept_similar|done]).
  destruct (IH (i + 1) w2) as (w' & -> & Hsoft' & He' & Hr' & Hin' & Hall); [by apply Hsoft|lia|lia|].
  exists w'. split; [done|]. split; [by transitivity w2|]. split; [by rewrite He'|]. split; [done|]. split; [done|].
  intros e' Hin. destruct (Hall e' Hin) as (e1 & He1' & Hsw1).
  assert (Hstep : exists e, e ∈ all_entries (state w) /\ swept st now e e1).
  { revert He1'. cbn [state w2]. rewrite (all_entries_reseat (state w)), (all_entries_focus _ _ _ _ _ Hf). cbn [head].
    intros [?|[Hm|?]%elem_of_app]%elem_of_app.
    - exists e1. split; [set_solver|by left].
    - apply list_elem_of_lookup_1 in Hm as [j Hj]. destruct (Forall2_lookup_r _ _ _ _ _ Hsw Hj) as (e & Hl & Hse).
      exists e. split; [|done]. apply list_elem_of_lookup_2 in Hl. set_solver.
    - exists e1. split; [set_solver|by left]. }
  destruct Hstep as (e & He & Hse). exists e. split; [done|].
  destruct Hse as [->|[Hd ->]]; [done|]. destruct Hsw1 as [->|[Hd' _]]; [by right|].
  unfold due in Hd'. cbn in Hd'. by destruct (e_conn e).
Qed.

Lemma tick_run now w : table_ok (state w) -> exists w' ran, refresh_tick now w = Ok w' ran /\
  softly w w' /\ table_ok (state w') /\ ran = negb (refresh_interval_ms (state w) =? 0) /\
  events w' = events w ++ (if ran && event_fn (state w) then [ANTS_DHT_EV_TABLE_REFRESHED] else []) /\
  forall e', e' ∈ all_entries (state w') -> exists e, e ∈ all_entries (state w) /\
    swept (u64 (refresh_interval_ms (state w) * 1000)) now e e'.
Proof.
  intros Ht. unfold refresh_tick. rewrite (bind_Ok _ _ w w (state w)) by done.
  destruct (Z.eqb_spec (refresh_interval_ms (state w)) 0) as [Hz|Hz].
  { exists w, false. split; [done|]. split; [done|]. split; [done|]. split; [done|]. split; [by rewrite app_nil_r|].
    intros e' He'. exists e'. split; [done|by left]. }
  cbv zeta. destruct (sweep_buckets_run (u64 (refresh_interval_ms (state w) * 1000)) now ANTS_DHT_BUCKET_COUNT 0 w)
    as (w1 & H1 & Hsoft & He & Hr & _ & Hall); [apply Ht|lia|lia|]. rewrite (bind_Ok _ _ _ _ _ H1).
  destruct (fire_run ANTS_DHT_EV_TABLE_REFRESHED w1) as (w2 & H2 & Hs2 & Hp2 & He2). rewrite (bind_Ok _ _ _ _ _ H2).
  assert (Hsoft2 : softly w w2).
  { destruct Hsoft as [? ? ? ? ? Hpp ?]. split; rewrite ?Hs2; try done. by rewrite Hp2. }
  exists w2, true. split; [done|]. split; [done|]. split; [|split; [done|split]].
  - apply (table_ok_softly w); [done|done| |]; rewrite Hs2, Hr; done.
  - rewrite He2, He. cbn [andb]. by rewrite (so_event _ _ Hsoft).
  - rewrite Hs2. exact Hall.
Qed.

(** ** A closed connection *)

Lemma drop_conn_similar c e : similar e (drop_conn c e).
Proof. unfold drop_conn. by case_bool_decide. Qed.

Lemma drop_conn_flight c e : ping_in_flight (drop_conn c e) = ping_in_flight e.
Proof. unfold drop_conn. by case_bool_decide. Qed.

Definition closed_bucket (c : Z) (k : ants_dht_bucket) : ants_dht_bucket := mk_bucket (map (drop_conn c) (head k)) (count k).

Lemma all_entries_closed c bs : flat_map head (map (closed_bucket c) bs) = map (drop_conn c) (flat_map head bs).
Proof. induction bs as [|k bs IH]; cbn; [done|]. by rewrite map_app, IH. Qed.

Lemma flights_closed c l : flights (map (drop_conn c) l) = flights l.
Proof.
  induction l as [|e l IH]; cbn [map]; [done|]. rewrite !flights_cons, drop_conn_flight, IH.
  by rewrite (proj1 (drop_conn_similar c e)).
Qed.

Lemma similar_map c l : Forall2 similar l (map (drop_conn c) l).
Proof. induction l; constructor; [apply drop_conn_similar|done]. Qed.

Lemma closed_run c w : table_ok (state w) -> exists w', routing_conn_closed c w = Ok w' tt /\ softly w w' /\
  table_ok (state w') /\ events w' = events w /\ pings w' = pings w /\
  all_entries (state w') = map (drop_conn c) (all_entries (state w)) /\
  replacements (state w') = map (drop_parked c) (replacements (state w)).
Proof.
  intros Ht. unfold routing_conn_closed. eexists. split; [done|]. set (w' := mk_world _ _ _ _).
  assert (Hall : all_entries (state w') = map (drop_conn c) (all_entries (state w))) by apply all_entries_closed.
  assert (Hsoft : softly w w').
  { split; try done.
    - intros [Hl Hn Hb]. split; [done|cbn; by rewrite length_map|]. intros i k Hk. cbn in Hk.
      rewrite list_lookup_fmap in Hk. destruct (buckets (state w) !! i) as [k0|] eqn:Ek; [|done].
      injection Hk as <-. specialize (Hb i k0 Ek).
      destruct (bucket_ok_similar _ _ _ _ Hb (similar_map c (head k0))). by split.
    - unfold members. rewrite Hall. by rewrite (similar_ids _ _ (similar_map c _)).
    - rewrite Hall. intros e' (e & -> & He)%list_elem_of_fmap. exists e. split; [done|apply drop_conn_similar].
    - rewrite Hall, flights_closed. done.
    - intros b (k & Hk & Hl). exists (closed_bucket c k). split; [|cbn; by rewrite length_map].
      revert Hk. unfold get_at. bcase; [|done]. cbn. intros Hk. rewrite list_lookup_fmap. by rewrite Hk. }
  split; [done|]. split; [|done]. apply (table_ok_softly w); [done|done|cbn; by rewrite length_map|].
  intros i r Hr Hu. cbn in Hr. rewrite list_lookup_fmap in Hr.
  destruct (replacements (state w) !! i) as [r0|]; [|done]. injection Hr as <-. f_equal.
  revert Hu. unfold drop_parked. by destruct (_ && _).
Qed.

(** * Runs of the routing table (dht.c)

    The steps the outside can cause, in any order and with any answers: a peer
    heard of, the outcome of an outstanding probe, a tick, a closed
    connection; and what holds in every reachable table. *)

(** ** Steps *)

Inductive dht_label : Type :=
| Heard (p : ants_dht_peer_t)
| Probed (id : bytes) (ok : bool)
| Ticked
| Closed (c : Z).

(** The outside answers as it likes. *)
Definition with_answers (an : list bool) (w : dht_world) : dht_world := mk_world (state w) an (pings w) (events w).

Inductive dht_step (w : dht_world) : dht_label -> dht_world -> Prop :=
| step_heard an p conn now w' : id_ok (peer_id p) ->
    final (dht_routing_upsert p conn now (with_answers an w)) = Some w' -> dht_step w (Heard p) w'
| step_probed an n id ok now w' : pings w !! n = Some id ->
    refresh_ping_completion n ok now (with_answers an w) = Ok w' tt -> dht_step w (Probed id ok) w'
| step_ticked an now w' ran : refresh_tick now (with_answers an w) = Ok w' ran -> dht_step w Ticked w'
| step_closed c w' : routing_conn_closed c w = Ok w' tt -> dht_step w (Closed c) w'.

(** A run from [ants_dht_init], its labels newest first. *)
Inductive dht_run (local : bytes) (interval : Z) : list dht_label -> dht_world -> Prop :=
| run_init : id_ok local -> dht_run local interval [] (mk_world (ants_dht_init local interval) [] [] [])
| run_step tr w l w' : dht_run local interval tr w -> dht_step w l w' -> dht_run local interval (l :: tr) w'.

(** The outcomes of the probes of one peer, newest first. *)
Definition history (id : bytes) (tr : list dht_label) : list bool :=
  omap (fun l => match l with
                 | Probed id' ok => if bool_decide (id' = id) then Some ok else None
                 | _ => None
                 end) tr.

(** A listener that keeps a set from the events alone; it fails on an event
    that does not fit. *)
Definition replay_event (o : option (list bytes)) (ev : dht_event) : option (list bytes) :=
  l ← o;
  match ev with
  | ANTS_DHT_EV_PEER_DISCOVERED p => if bool_decide (peer_id p ∈ l) then None else Some (peer_id p :: l)
  | ANTS_DHT_EV_PEER_EVICTED p => if bool_decide (peer_id p ∈ l) then Some (filter (.≠ peer_id p) l) else None
  | ANTS_DHT_EV_TABLE_REFRESHED => Some l
  end.
Definition replay (evs : list dht_event) : option (list bytes) := foldl replay_event (Some []) evs.

(** ** The invariant *)

Definition strikes_earned (tr : list dht_label) (e : ants_dht_bucket_entry) : Prop :=
  take (Z.to_nat (dead_strikes e)) (history (e_id e) tr) = replicate (Z.to_nat (dead_strikes e)) false.

Record world_ok (tr : list dht_label) (w : dht_world) : Prop := {
  wo_table : table_ok (state w);
  wo_event : event_fn (state w) = true;
  wo_pings : pings w ≡ₚ flights (all_entries (state w));
  wo_strikes : Forall (strikes_earned tr) (all_entries (state w));
  wo_events : exists l, replay (events w) = Some l /\ l ≡ₚ members (state w)
}.

Lemma replay_app evs evs' : replay (evs ++ evs') = foldl replay_event (replay evs) evs'.
Proof. apply foldl_app. Qed.

Lemma replay_discovered l p ms : l ≡ₚ ms -> peer_id p ∉ ms ->
  replay_event (Some l) (ANTS_DHT_EV_PEER_DISCOVERED p) = Some (peer_id p :: l).
Proof. intros Hl Hp. cbn. rewrite bool_decide_false; [done|]. by rewrite Hl. Qed.

Lemma filter_out (id : bytes) (ids : list bytes) : id ∉ ids -> filter (.≠ id) ids = ids.
Proof.
  induction ids as [|x ids IH]; intros Hn; [done|]. apply not_elem_of_cons in Hn as [Hx Hn].
  rewrite filter_cons_True by congruence. by rewrite IH.
Qed.

Lemma replay_evicted l p ids : l ≡ₚ peer_id p :: ids -> peer_id p ∉ ids -> exists l',
  replay_event (Some l) (ANTS_DHT_EV_PEER_EVICTED p) = Some l' /\ l' ≡ₚ ids.
Proof.
  intros Hl Hn. cbn. rewrite bool_decide_true by (rewrite Hl; by left). eexists. split; [done|].
  rewrite Hl, filter_cons_False by (intros H; by apply H). by rewrite filter_out.
Qed.

Lemma world_ok_answers tr w an : world_ok tr w -> world_ok tr (with_answers an w).
Proof. by intros []. Qed.

(** Steps that only move flags, times and connections. *)
Lemma world_ok_softly tr l w w' : world_ok tr w -> (forall id, history id (l :: tr) = history id tr) ->
  softly w w' -> table_ok (state w') -> (exists evs, events w' = events w ++ evs /\ Forall (eq ANTS_DHT_EV_TABLE_REFRESHED) evs) ->
  world_ok (l :: tr) w'.
Proof.
  intros [Ht He Hp Hst (ms & Hr & Hm)] Hh Hsoft Ht' (evs & Hev & Hall). pose proof Hsoft as [Hl Hef _ Hms Hsim Hpp _].
  split; [done|congruence| | |].
  - rewrite Hp in Hpp. apply (Permutation_app_inv_r (flights (all_entries (state w)))). rewrite Hpp. solve_Permutation.
  - apply Forall_forall. intros e' Hin. destruct (Hsim e' Hin) as (e & He' & [Hid Hs]). rewrite Forall_forall in Hst.
    unfold strikes_earned. rewrite Hid, Hs, Hh. by apply Hst.
  - exists ms. rewrite Hms. split; [|done]. rewrite Hev, replay_app, Hr. clear -Hall.
    induction Hall as [|ev evs <- _ IH]; [done|]. exact IH.
Qed.

Lemma world_ok_heard tr p w w' conn now : world_ok tr w -> id_ok (peer_id p) ->
  final (dht_routing_upsert p conn now w) = Some w' -> world_ok (Heard p :: tr) w'.
Proof.
  intros Hw Hid Hf. destruct (upsert_run p conn now w (wo_table _ _ Hw) Hid) as (Hu & w0 & Hf0 & Ht').
  rewrite Hf in Hf0. injection Hf0 as <-.
  destruct Hu as [_|hit w1 _ _ Hsoft Hev _ _|w1 _ Hq Hst _|w1 old new _ _ Hsoft Hev _ _ _ _|w1 Hnew Hp Hl Hef Hsw Hev];
    injection Hf as ->.
  - by apply (world_ok_softly tr _ w'); [| | |apply Hw|exists []; rewrite app_nil_r].
  - apply (world_ok_softly tr _ w); try done. exists []. by rewrite app_nil_r.
  - destruct Hw as [Ht He Hpi Hs Hr]. destruct Hq. by split; rewrite ?Hst, ?qu_pings, ?qu_events.
  - apply (world_ok_softly tr _ w); try done. exists []. by rewrite app_nil_r.
  - destruct Hw as [Ht He Hpi Hs (ms & Hr & Hm)]. destruct Hsw as (rest & H1 & H2). cbn [app] in H1, H2.
    assert (Hms : members (state w') ≡ₚ peer_id p :: members (state w)) by (unfold members; by rewrite H2, H1).
    split; [done|congruence| | |].
    + rewrite Hp, Hpi, H2, H1. by rewrite flights_cons.
    + rewrite H2, <- H1. by constructor.
    + exists (peer_id p :: ms). rewrite Hev, He, replay_app, Hr. cbn [foldl].
      rewrite (replay_discovered _ _ _ Hm Hnew). split; [done|]. by rewrite Hms, Hm.
Qed.

Lemma history_probed id ok tr id' : history id' (Probed id ok :: tr) =
  if bool_decide (id = id') then ok :: history id' tr else history id' tr.
Proof. unfold history. cbn. by case_bool_decide. Qed.

(** The entry of an outstanding probe. *)
Lemma outstanding_entry tr w n id : world_ok tr w -> pings w !! n = Some id ->
  exists e, e ∈ all_entries (state w) /\ e_id e = id /\ ping_in_flight e = true /\ id_ok id.
Proof.
  intros Hw Hn. apply list_elem_of_lookup_2 in Hn. rewrite (wo_pings _ _ Hw) in Hn.
  apply list_elem_of_fmap in Hn as (e & -> & [Hfl He]%list_elem_of_filter). exists e. split; [done|]. split; [done|].
  split; [done|]. pose proof (stored_ids _ (to_buckets _ (wo_table _ _ Hw))) as Hall. rewrite Forall_forall in Hall. by apply Hall.
Qed.

(** The probed entry gives way to entries with no probe in flight. *)
Lemma world_ok_replaced tr w w' id ok e new : world_ok tr w -> e ∈ all_entries (state w) -> e_id e = id ->
  ping_in_flight e = true -> table_ok (state w') -> event_fn (state w') = event_fn (state w) ->
  id :: pings w' ≡ₚ pings w -> swap (state w) (state w') [e] new -> flights new = [] ->
  Forall (strikes_earned (Probed id ok :: tr)) new ->
  (exists l, replay (events w') = Some l /\ l ≡ₚ members (state w')) -> world_ok (Probed id ok :: tr) w'.
Proof.
  intros [Ht Hef Hpi Hst _] He Hid Hfl Ht' Hef' Hp (rest & H1 & H2) Hnf Hns Hev. split; [done|congruence| | |done].
  - apply (Permutation_cons_inv (a := id)). rewrite Hp, Hpi, H1, H2, !flights_app, Hnf, flights_cons, Hfl, Hid. done.
  - rewrite H2. apply Forall_app. split; [done|]. rewrite H1 in Hst. apply Forall_app in Hst as [_ Hst].
    apply Forall_forall. intros e' He'. rewrite Forall_forall in Hst. unfold strikes_earned.
    rewrite history_probed, bool_decide_false; [by apply Hst|].
    pose proof (members_nodup _ (to_buckets _ Ht)) as Hnd. unfold members in Hnd. rewrite H1 in Hnd. cbn in Hnd.
    apply NoDup_cons in Hnd as [Hn _]. intros Heq. apply Hn. rewrite Hid, Heq. apply list_elem_of_fmap. by exists e'.
Qed.

Lemma delete_perm {A} (l : list A) n x : l !! n = Some x -> x :: delete n l ≡ₚ l.
Proof. intros H. symmetry. by apply delete_Permutation. Qed.

Lemma completion_run tr w n id ok now : world_ok tr w -> pings w !! n = Some id -> exists w' e,
  refresh_ping_completion n ok now w = Ok w' tt /\ e ∈ all_entries (state w) /\ e_id e = id /\ id_ok id /\
  world_ok (Probed id ok :: tr) w' /\ pings w' = delete n (pings w) /\
  exists w1, ping_applied id ok now w w1 e /\ state w' = state w1 /\ events w' = events w1.
Proof.
  intros Hw Hn. destruct (outstanding_entry _ _ _ _ Hw Hn) as (e & He & Hid & Hfl & Hidok).
  destruct (ping_run id ok now w e (wo_table _ _ Hw) Hidok He Hid) as (w1 & Hrun & [Hfr1 Hfr2 Hfr3] & Ht1 & Happ).
  unfold refresh_ping_completion. rewrite Hn. rewrite (bind_Ok _ _ _ _ _ Hrun).
  set (w' := mk_world (state w1) (answers w1) (delete n (pings w1)) (events w1)). exists w', e. split; [done|]. split; [done|]. split; [done|]. split; [done|].
  split; [|split; [by rewrite <- Hfr3|by exists w1]].
  assert (Hperm : id :: pings w' ≡ₚ pings w) by (cbn; rewrite Hfr3; by apply delete_perm).
  pose proof (wo_strikes _ _ Hw) as Hst. rewrite Forall_forall in Hst. specialize (Hst e He).
  destruct (wo_events _ _ Hw) as (ms & Hr & Hm).
  assert (Hsame : forall e', e_id e' = id -> swap (state w) (state w1) [e] [e'] -> events w1 = events w ->
    exists l, replay (events w') = Some l /\ l ≡ₚ members (state w')).
  { intros e' Hid' Hsw Hev. exists ms. cbn [events state w']. rewrite Hev. split; [done|].
    destruct (swap_members _ _ _ _ Hsw) as (ids & H1 & H2). cbn [map app] in H1, H2.
    by rewrite H2, Hid', <- Hid, <- H1. }
  pose proof (wo_table _ _ Hw) as Htw. pose proof (to_strikes _ Htw) as Hsok. rewrite Forall_forall in Hsok.
  specialize (Hsok e He). unfold strikes_ok in Hsok.
  destruct Happ as [-> Hsw Hev _ | -> Hlt Hsw Hev _ | new -> Hthird Hsw Hpr Hev].
  - apply (world_ok_replaced tr w w' id true e [answered now e]); try done; [by apply Forall_singleton|by apply (Hsame (answered now e))].
  - apply (world_ok_replaced tr w w' id false e [struck e]); try done; [|by apply (Hsame (struck e))].
    apply Forall_singleton. unfold strikes_earned in *. cbn [dead_strikes struck set_strikes].
    change (e_id (struck e)) with (e_id e). rewrite history_probed, bool_decide_true by done.
    replace (Z.to_nat (dead_strikes e + 1)) with (S (Z.to_nat (dead_strikes e))) by lia. cbn. by rewrite Hst.
  - destruct (swap_members _ _ _ _ Hsw) as (ids & H1 & H2). cbn [map app] in H1.
    assert (Hnd : e_id e ∉ ids).
    { pose proof (members_nodup _ (to_buckets _ Htw)) as Hnd. rewrite H1 in Hnd. by apply NoDup_cons in Hnd as [? _]. }
    destruct (replay_evicted ms (e_peer e) ids) as (ms' & Hrep & Hms'); [by rewrite Hm, H1|done|].
    unfold announce in Hev. rewrite (wo_event _ _ Hw) in Hev.
    assert (Hshape : new = [] \/ exists r, parked (state w) r /\ new = [fresh_entry (r_peer r) (r_conn r) now]).
    { unfold promoted in Hpr. destruct new as [|x []]; [by left| |done]. destruct Hpr as (r & Hp & _ & ->). right. by exists r. }
    apply (world_ok_replaced tr w w' id false e new); try done.
    + destruct Hshape as [->|(r & _ & ->)]; [done|]. by rewrite flights_cons.
    + destruct Hshape as [->|(r & _ & ->)]; [constructor|]. by apply Forall_singleton.
    + cbn [events state w']. rewrite Hev, replay_app, Hr. cbn [foldl]. rewrite Hrep.
      destruct Hshape as [->|(r & Hp & ->)]; cbn [map foldl]; [exists ms'; split; [done|by rewrite H2, Hms']|].
      exists (peer_id (r_peer r) :: ms'). cbn [e_peer fresh_entry]. rewrite (replay_discovered _ _ _ Hms').
      * split; [done|]. rewrite H2, Hms'. done.
      * intros Hin. apply (po_new _ _ (to_parked _ Htw r Hp)). rewrite H1. by right.
Qed.

Lemma world_ok_step tr w l w' : world_ok tr w -> dht_step w l w' -> world_ok (l :: tr) w'.
Proof.
  intros Hw [an p conn now w1 Hid Hf|an n id ok now w1 Hn Hrun|an now w1 ran Hrun|c w1 Hrun].
  - by apply (world_ok_heard tr p (with_answers an w) _ conn now); [apply world_ok_answers| |].
  - destruct (completion_run tr (with_answers an w) n id ok now) as (w2 & e & Hrun' & _ & _ & _ & Hw2 & _);
      [by apply world_ok_answers|done|]. rewrite Hrun in Hrun'. by injection Hrun' as ->.
  - destruct (tick_run now (with_answers an w) (wo_table _ _ (world_ok_answers _ _ an Hw))) as (w2 & ran' & Hrun' & Hsoft & Ht' & _ & Hev & _).
    rewrite Hrun in Hrun'. injection Hrun' as -> _.
    apply (world_ok_softly tr _ (with_answers an w)); try done; [by apply world_ok_answers|].
    eexists. split; [exact Hev|]. destruct (_ && _); by repeat constructor.
  - destruct (closed_run c w (wo_table _ _ Hw)) as (w2 & Hrun' & Hsoft & Ht' & Hev & _).
    rewrite Hrun in Hrun'. injection Hrun' as ->. apply (world_ok_softly tr _ w); try done.
    exists []. by rewrite app_nil_r.
Qed.

Lemma dht_init_ok local interval : id_ok local -> world_ok [] (mk_world (ants_dht_init local interval) [] [] []).
Proof.
  intros Hl. assert (Hall : all_entries (ants_dht_init local interval) = []) by reflexivity.
  split; [split| | | |]; cbn [state].
  - split; [done|done|]. intros i k Hk. cbn -[replicate] in Hk. apply lookup_replicate in Hk as [-> _].
    split; [done|cbn; lia|constructor|constructor].
  - by rewrite Hall.
  - done.
  - intros r [Hr Hu]. cbn -[replicate] in Hr. apply elem_of_replicate in Hr as [-> _]. done.
  - intros i j r r' Hi _ Hu. cbn -[replicate] in Hi. apply lookup_replicate in Hi as [-> _]. done.
  - done.
  - cbn [pings]. by rewrite Hall.
  - by rewrite Hall.
  - exists []. split; [done|]. unfold members. by rewrite Hall.
Qed.

Lemma run_ok local interval tr w : dht_run local interval tr w -> world_ok tr w.
Proof. induction 1 as [Hl|tr w l w' _ IH Hs]; [by apply dht_init_ok|by apply (world_ok_step tr w)]. Qed.
