(* ===== verification/DhtSample.v ===== *)
(** * The bucket-diverse sample (dht.c)

    The round-robin over the buckets returns the first [n_out] peers of one
    fixed order in which every entry of the table occurs once. *)

From S2P Require Import Prelude Dht DhtClosest DhtOps.
Import Dht.

#[local] Arguments zlen {A} l : simpl never.

(** ** The order of the rounds *)

(** The entries of a bucket from the rotation's starting point on. *)
Definition turned (rotation : Z) (k : ants_dht_bucket) : list ants_dht_peer_t :=
  map e_peer (rotate (Z.to_nat (rotation mod Z.of_nat (length (head k)))) (head k)).

(** The buckets in the order of a sweep. *)
Definition visiting (rotation : Z) (s : ants_dht_state) : list ants_dht_bucket :=
  rotate (Z.to_nat (rotation mod Z.of_nat ANTS_DHT_BUCKET_COUNT)) (buckets s).

(** The sweep at one depth takes one peer of every bucket that has one. *)
Definition round (rotation : Z) (ks : list ants_dht_bucket) (depth : nat) : list ants_dht_peer_t :=
  omap (fun k => turned rotation k !! depth) ks.

Definition rounds (rotation : Z) (s : ants_dht_state) : list ants_dht_peer_t :=
  flat_map (round rotation (visiting rotation s)) (seq 0 ANTS_DHT_K).

(** ** Every entry occurs once *)

Lemma rotate_perm {A} n (l : list A) : rotate n l ≡ₚ l.
Proof. unfold rotate. rewrite Permutation_app_comm. by rewrite take_drop. Qed.

Lemma flat_map_perm {A B} (f : A -> list B) l l' : l ≡ₚ l' -> flat_map f l ≡ₚ flat_map f l'.
Proof. induction 1 as [|x l l' _ IH|x y l|l1 l2 l3 _ IH1 _ IH2]; cbn; [done|by rewrite IH|solve_Permutation|by rewrite IH1]. Qed.

Lemma flat_map_cons_perm {A B} (f g : A -> list B) l : flat_map (fun x => f x ++ g x) l ≡ₚ flat_map f l ++ flat_map g l.
Proof. induction l as [|x l IH]; cbn; [done|]. rewrite IH. solve_Permutation. Qed.

Lemma rounds_by_bucket rotation ks ds :
  flat_map (round rotation ks) ds ≡ₚ flat_map (fun k => omap (fun d => turned rotation k !! d) ds) ks.
Proof.
  induction ks as [|k ks IH]; [by induction ds|].
  cbn [flat_map]. rewrite <- IH.
  set (one := fun d => match turned rotation k !! d with Some p => [p] | None => [] end).
  assert (Hone : flat_map one ds = omap (fun d => turned rotation k !! d) ds).
  { clear IH. subst one. induction ds as [|d ds IHd]; [done|]. cbn. by destruct (turned rotation k !! d); cbn; rewrite IHd. }
  rewrite <- Hone, <- flat_map_cons_perm. apply reflexive_eq, flat_map_ext. intros d. unfold round, one. cbn.
  by destruct (turned rotation k !! d).
Qed.

Lemma omap_lookup_seq {A} (l : list A) : forall i n, (length l <= n)%nat ->
  omap (fun d => l !! (d - i)%nat) (seq i n) = l.
Proof.
  induction l as [|x l IH]; intros i n Hn.
  - induction (seq i n) as [|d ds IHd]; [done|]. cbn. by rewrite lookup_nil.
  - destruct n as [|n]; cbn in Hn; [lia|]. cbn [seq omap list_omap]. rewrite Nat.sub_diag. cbn. f_equal.
    etransitivity; [|apply (IH (S i) n); lia]. apply list_omap_ext, Forall2_same_length_lookup.
    split; [done|]. intros j d d' Hd Hd'. rewrite Hd in Hd'. injection Hd' as <-.
    apply lookup_seq in Hd as [-> _]. by replace (S i + j - i)%nat with (S (S i + j - S i)) by lia.
Qed.

Lemma turned_perm rotation k : turned rotation k ≡ₚ map e_peer (head k).
Proof. unfold turned. by rewrite rotate_perm. Qed.

(** The rounds go through the whole table. *)
Lemma rounds_perm rotation s : buckets_ok s -> rounds rotation s ≡ₚ map e_peer (all_entries s).
Proof.
  intros Hs. unfold rounds. rewrite rounds_by_bucket. unfold visiting.
  rewrite (flat_map_perm _ _ _ (rotate_perm _ (buckets s))). unfold all_entries.
  assert (Hroom : Forall (fun k => (length (head k) <= ANTS_DHT_K)%nat) (buckets s)).
  { apply Forall_lookup. intros i k Hk. by destruct (ko_bucket _ Hs i k Hk). }
  induction Hroom as [|k ks Hk _ IH]; [done|]. cbn [flat_map]. rewrite map_app, <- IH. f_equiv.
  rewrite <- (turned_perm rotation k). apply reflexive_eq.
  etransitivity; [|apply (omap_lookup_seq (turned rotation k) 0 ANTS_DHT_K)].
  - apply list_omap_ext, Forall2_same_length_lookup. split; [done|]. intros j d d' -> [= <-]. by rewrite Nat.sub_0_r.
  - by rewrite (turned_perm rotation k), length_map.
Qed.

(** ** The sweep writes a round *)

Section loops.
Context (s : ants_dht_state) (Hs : buckets_ok s) (rotation n_out : Z) (Hrot : is_u64 rotation) (Hout : 0 <= n_out).

Lemma visiting_at i : (i < ANTS_DHT_BUCKET_COUNT)%nat ->
  get_at (buckets s) (u64 (rotation + Z.of_nat i) mod Z.of_nat ANTS_DHT_BUCKET_COUNT) = visiting rotation s !! i.
Proof.
  intros Hi. unfold visiting. rewrite lookup_rotate_r by by rewrite (ko_length _ Hs). rewrite (ko_length _ Hs).
  unfold rotate_nat_add, get_at. change (Z.of_nat ANTS_DHT_BUCKET_COUNT) with 256.
  assert (Hmod : u64 (rotation + Z.of_nat i) mod 256 = (rotation mod 256 + Z.of_nat i) mod 256).
  { unfold u64. change (2 ^ 64) with (256 * 2 ^ 56). rewrite Z.rem_mul_r by lia.
    rewrite (Z.mul_comm 256), Z.mod_add by lia. rewrite Zmod_mod. by rewrite Zplus_mod_idemp_l. }
  rewrite Hmod. pose proof (Z.mod_pos_bound rotation 256 ltac:(lia)).
  pose proof (Z.mod_pos_bound (rotation mod 256 + Z.of_nat i) 256 ltac:(lia)).
  rewrite Z2Nat.id by lia. by bdecide.
Qed.

Lemma depth_at k d : count k = zlen (head k) -> (length (head k) <= ANTS_DHT_K)%nat -> (d < length (head k))%nat ->
  e_peer <$> head k !! Z.to_nat (size_add (Z.of_nat d) (rotation mod count k) mod count k) = turned rotation k !! d.
Proof.
  intros -> Hr Hd. unfold zlen, turned. set (n := length (head k)) in *. rewrite list_lookup_fmap. f_equal.
  pose proof (Z.mod_pos_bound rotation (Z.of_nat n) ltac:(lia)). unfold ANTS_DHT_K in Hr.
  rewrite lookup_rotate_r by done. fold n. unfold rotate_nat_add. rewrite Z2Nat.id by lia.
  rewrite size_add_small by zlia. by rewrite Z.add_comm.
Qed.

(** The sweep from the [i]th bucket on appends what fits of the round. *)
Lemma sample_sweep_run d n : forall i out progress,
  (i + n = ANTS_DHT_BUCKET_COUNT)%nat -> zlen out <= n_out ->
  sample_sweep s rotation n_out (Z.of_nat d) n (Z.of_nat i) out progress =
    (let new := take (Z.to_nat (n_out - zlen out)) (round rotation (drop i (visiting rotation s)) d) in
     Some (out ++ new, progress || negb (bool_decide (new = [])))).
Proof.
  induction n as [|n IH]; intros i out progress Hi Hle; cbn [sample_sweep].
  { rewrite drop_ge by (unfold visiting; rewrite length_rotate, (ko_length _ Hs); lia).
    cbn. rewrite take_nil, app_nil_r. cbn. by rewrite orb_false_r. }
  destruct (Z.ltb_spec (zlen out) n_out) as [Hlt|Hge]; cbn [negb].
  2:{ replace (Z.to_nat (n_out - zlen out)) with 0%nat by lia. cbn. by rewrite app_nil_r, orb_false_r. }
  rewrite visiting_at by lia. destruct (lookup_lt_is_Some_2 (visiting rotation s) i) as [k Hk].
  { unfold visiting. rewrite length_rotate, (ko_length _ Hs). lia. }
  rewrite Hk. cbn [mbind option_bind]. rewrite (drop_S _ _ _ Hk).
  assert (Hok : count k = zlen (head k) /\ (length (head k) <= ANTS_DHT_K)%nat).
  { apply list_elem_of_lookup_2 in Hk. unfold visiting in Hk. rewrite rotate_perm in Hk.
    apply list_elem_of_lookup_1 in Hk as [j Hj]. by destruct (ko_bucket _ Hs j k Hj). }
  destruct Hok as [Hc Hr]. replace (Z.of_nat i + 1) with (Z.of_nat (S i)) by lia.
  assert (Hlen : length (turned rotation k) = length (head k)) by by rewrite (turned_perm rotation k), length_map.
  rewrite Hc at 1. unfold zlen at 1. unfold round. cbn [omap list_omap].
  destruct (Z.leb_spec (Z.of_nat (length (head k))) (Z.of_nat d)) as [Hdeep|Hd].
  { rewrite (lookup_ge_None_2 (turned rotation k)) by lia. apply IH; lia. }
  pose proof (depth_at k d Hc Hr ltac:(lia)) as Hat.
  destruct (lookup_lt_is_Some_2 (turned rotation k) d) as [p Hp]; [lia|]. rewrite Hp in Hat |- *.
  destruct (head k !! _) as [e|]; [|done]. injection Hat as <-.
  rewrite IH by (rewrite ?zlen_app, ?zlen_cons, ?zlen_nil; lia). cbv zeta.
  rewrite zlen_app, zlen_cons, zlen_nil.
  replace (Z.to_nat (n_out - zlen out)) with (S (Z.to_nat (n_out - (zlen out + (1 + 0))))) by lia.
  cbn [firstn take]. rewrite <- app_assoc. cbn [app orb]. by rewrite orb_true_r.
Qed.

Lemma round_deep d : (ANTS_DHT_K <= d)%nat -> round rotation (visiting rotation s) d = [].
Proof.
  intros Hd. unfold round, visiting.
  assert (Hroom : Forall (fun k => (length (head k) <= ANTS_DHT_K)%nat) (buckets s)).
  { apply Forall_lookup. intros i k Hk. by destruct (ko_bucket _ Hs i k Hk). }
  rewrite <- (rotate_perm (Z.to_nat (rotation mod Z.of_nat ANTS_DHT_BUCKET_COUNT))) in Hroom.
  induction Hroom as [|k ks Hk _ IH]; [done|]. cbn [omap list_omap].
  rewrite lookup_ge_None_2; [exact IH|]. rewrite (turned_perm rotation k), length_map. lia.
Qed.

(** A round without a peer ends the table. *)
Lemma round_empty d d' : (d <= d')%nat -> round rotation (visiting rotation s) d = [] ->
  round rotation (visiting rotation s) d' = [].
Proof.
  intros Hle. unfold round. induction (visiting rotation s) as [|k ks IH]; [done|]. cbn [omap list_omap].
  destruct (turned rotation k !! d) eqn:E; [done|]. intros H. apply lookup_ge_None_1 in E.
  rewrite lookup_ge_None_2 by lia. by apply IH.
Qed.

Lemma rounds_empty d n : round rotation (visiting rotation s) d = [] ->
  flat_map (round rotation (visiting rotation s)) (seq d n) = [].
Proof.
  intros He. assert (Hall : forall m d', (d <= d')%nat -> flat_map (round rotation (visiting rotation s)) (seq d' m) = []).
  { intros m. induction m as [|m IH]; intros d' Hd; [done|]. cbn. rewrite (round_empty d d' Hd He). by apply IH; lia. }
  by apply Hall.
Qed.

Lemma sample_loop_S f depth out :
  sample_loop (S f) s rotation n_out depth out =
    match sample_sweep s rotation n_out depth ANTS_DHT_BUCKET_COUNT 0 out false with
    | None => UB
    | Some (out', progress) =>
      if progress && (zlen out' <? n_out) then sample_loop f s rotation n_out (size_add depth 1) out' else Ok tt out'
    end.
Proof. done. Qed.

Lemma sample_loop_run n : forall d out, (d + n = ANTS_DHT_K)%nat -> zlen out <= n_out ->
  sample_loop (S n) s rotation n_out (Z.of_nat d) out =
    Ok tt (out ++ take (Z.to_nat (n_out - zlen out)) (flat_map (round rotation (visiting rotation s)) (seq d n))).
Proof.
  induction n as [|n IH]; intros d out Hd Hle; rewrite sample_loop_S, (sample_sweep_run d _ 0) by lia;
    cbv zeta; rewrite drop_0.
  { rewrite round_deep by lia. rewrite !take_nil, app_nil_r, bool_decide_true by done. cbn. by rewrite take_nil, app_nil_r. }
  set (r := round rotation (visiting rotation s) d) in *. set (m := Z.to_nat (n_out - zlen out)).
  cbn [orb].
  destruct (decide (take m r = [])) as [He|Hne].
  - rewrite He, bool_decide_true by done. cbn [negb andb]. rewrite app_nil_r. f_equal.
    destruct (decide (m = 0%nat)) as [->|Hm]; [by rewrite app_nil_r|].
    assert (Hr : r = []) by (destruct r; [done|]; destruct m; done).
    by rewrite (rounds_empty d (S n) Hr), take_nil, app_nil_r.
  - rewrite bool_decide_false by done. cbn [negb andb].
    change (flat_map _ (seq d (S n))) with (r ++ flat_map (round rotation (visiting rotation s)) (seq (S d) n)).
    destruct (Z.ltb_spec (zlen (out ++ take m r)) n_out) as [Hlt|Hge].
    + assert (Hall : take m r = r).
      { apply take_ge. rewrite zlen_app in Hlt. unfold zlen in Hlt. rewrite length_take in Hlt. subst m. unfold zlen in *. lia. }
      rewrite Hall in *. replace (size_add (Z.of_nat d) 1) with (Z.of_nat (S d))
        by (rewrite size_add_small; unfold ANTS_DHT_K in *; zlia).
      rewrite IH by lia. rewrite <- app_assoc. do 2 f_equal. rewrite zlen_app in *.
      rewrite take_app. f_equal; [symmetry; apply take_ge; subst m; unfold zlen in *; lia|].
      f_equal. subst m. unfold zlen in *. lia.
    + f_equal. f_equal. rewrite take_app_le; [done|]. rewrite zlen_app in Hge. unfold zlen in Hge.
      rewrite length_take in Hge. subst m. unfold zlen in *. lia.
Qed.

Lemma sample_run : ants_dht_sample_peers_rotated s rotation n_out = Ok tt (take (Z.to_nat n_out) (rounds rotation s)).
Proof.
  unfold ants_dht_sample_peers_rotated, kbucket_sample. destruct (Z.eqb_spec n_out 0) as [->|Hn]; [done|].
  pose proof (sample_loop_run ANTS_DHT_K 0 [] eq_refl) as H. rewrite zlen_nil, Z.sub_0_r in H. by apply H.
Qed.
End loops.
