(* ===== verification/DhtThms.v ===== *)
(** * What the routing table guarantees (dht.c, dht_server.c)

    Last: the entries without a connection. *)

From S2P Require Import Prelude CborSpec Dht DhtClosest DhtOps DhtSteps DhtReach DhtSample.
Import Dht.

#[local] Arguments zlen {A} l : simpl never.

(** ** A run to evaluate: a peer is heard of and misses three probes *)

Definition demo_local : bytes := replicate 32 0.
Definition demo_peer : ants_dht_peer_t := mk_peer (1 :: replicate 31 0) [47].

Definition next {A} (m : action dht_world A) (w : dht_world) : dht_world := default w (final (m w)).

Definition demo_start : dht_world := mk_world (ants_dht_init demo_local 1000) [] [] [].
Definition demo_known : dht_world := next (dht_routing_upsert demo_peer (Some 7) 1) demo_start.
Definition demo_probe (w : dht_world) : dht_world := next (refresh_tick 9000000) w.
Definition demo_miss (w : dht_world) : dht_world := next (refresh_ping_completion 0 false 9000000) w.
Definition demo_last : dht_world := demo_probe (demo_miss (demo_probe (demo_miss (demo_probe demo_known)))).

Definition demo_trace : list dht_label :=
  [Ticked; Probed (peer_id demo_peer) false; Ticked; Probed (peer_id demo_peer) false; Ticked; Heard demo_peer].

Lemma demo_heard_step : dht_step demo_start (Heard demo_peer) demo_known.
Proof. apply (step_heard _ [] demo_peer (Some 7) 1); [by_decision|vm_compute; reflexivity]. Qed.

Lemma demo_probe_step w : refresh_tick 9000000 (with_answers [] w) = Ok (demo_probe w) true -> dht_step w Ticked (demo_probe w).
Proof. apply step_ticked. Qed.

Lemma demo_miss_step w : pings w !! 0%nat = Some (peer_id demo_peer) ->
  refresh_ping_completion 0 false 9000000 (with_answers [] w) = Ok (demo_miss w) tt ->
  dht_step w (Probed (peer_id demo_peer) false) (demo_miss w).
Proof. apply step_probed. Qed.

Lemma demo_run : dht_run demo_local 1000 demo_trace demo_last.
Proof.
  unfold demo_last, demo_trace.
  repeat (eapply run_step;
    [|first [apply demo_probe_step; vm_compute; reflexivity|apply demo_miss_step; vm_compute; reflexivity|exact demo_heard_step]]).
  apply run_init. by_decision.
Qed.

(** C19: In every table a run of the node can reach, whatever the peers, the
    allocator and the connections do: each bucket has its count, at most K
    entries, no identity twice and only peers of its distance; a parked peer
    is the only one of a full bucket and not in the table; a probe is
    outstanding for exactly the entries flagged so, once; the strikes of an
    entry are its last probes, all missed; and the next operation, any of
    them, returns. *)
Theorem routing_table_invariant local interval tr w : dht_run local interval tr w ->
  table_ok (state w) /\ pings w ≡ₚ flights (all_entries (state w)) /\ Forall (strikes_earned tr) (all_entries (state w)) /\
  (forall an p conn now, id_ok (peer_id p) -> exists w', final (dht_routing_upsert p conn now (with_answers an w)) = Some w') /\
  (forall an n ok now, (n < length (pings w))%nat -> exists w', refresh_ping_completion n ok now (with_answers an w) = Ok w' tt) /\
  (forall an now, exists w' ran, refresh_tick now (with_answers an w) = Ok w' ran) /\
  (forall c, exists w', routing_conn_closed c w = Ok w' tt).
Proof.
  intros Hrun. pose proof (run_ok _ _ _ _ Hrun) as Hw. pose proof (wo_table _ _ Hw) as Ht.
  split; [done|]. split; [apply Hw|]. split; [apply Hw|]. split; [|split; [|split]].
  - intros an p conn now Hid. destruct (upsert_run p conn now (with_answers an w) Ht Hid) as (_ & w' & Hf & _). by exists w'.
  - intros an n ok now Hn. destruct (lookup_lt_is_Some_2 _ _ Hn) as [id Hid].
    destruct (completion_run tr (with_answers an w) n id ok now (world_ok_answers _ _ an Hw) Hid) as (w' & e & Hc & _). by exists w'.
  - intros an now. destruct (tick_run now (with_answers an w) Ht) as (w' & ran & Hc & _). by exists w', ran.
  - intros c. destruct (closed_run c w Ht) as (w' & Hc & _). by exists w'.
Qed.

Lemma routing_table_invariant_witness : table_ok (state demo_last) /\ pings demo_last = [peer_id demo_peer].
Proof.
  split; [|vm_compute; reflexivity]. apply (routing_table_invariant demo_local 1000 demo_trace). exact demo_run.
Defined.

Lemma softly_stays w w' id : softly w w' -> id ∈ members (state w) -> id ∈ members (state w').
Proof. intros Hs. by rewrite (so_members _ _ Hs). Qed.

Lemma swap_stays s s' e e' id : swap s s' [e] [e'] -> e_id e' = e_id e -> id ∈ members s -> id ∈ members s'.
Proof.
  intros Hsw He. destruct (swap_members _ _ _ _ Hsw) as (ids & H1 & H2). cbn [map app] in H1, H2. by rewrite H1, H2, He.
Qed.

(** C13: A peer leaves the table only by missing three probes in a row: in any
    run, the step after which it is gone is the failure of a probe of this
    very peer, its two probes before that one failed too, and PEER_EVICTED is
    reported for it.  Newcomers, full buckets, ticks and closed connections
    never displace an entry. *)
Theorem eviction_earned local interval tr w l w' id : dht_run local interval tr w -> dht_step w l w' ->
  id ∈ members (state w) -> id ∉ members (state w') ->
  l = Probed id false /\ take 3 (history id (l :: tr)) = [false; false; false] /\
  exists p evs, events w' = events w ++ ANTS_DHT_EV_PEER_EVICTED p :: evs /\ peer_id p = id.
Proof.
  intros Hrun Hstep Hin Hout. pose proof (run_ok _ _ _ _ Hrun) as Hw. pose proof (wo_table _ _ Hw) as Ht.
  destruct Hstep as [an p conn now w1 Hid Hf|an n id' ok now w1 Hn Hc|an now w1 ran Hc|c w1 Hc].
  - destruct (upsert_run p conn now (with_answers an w) Ht Hid) as (Hu & _). exfalso. apply Hout.
    destruct Hu as [_|? w2 _ _ Hs _ _ _|w2 _ _ Hst _|w2 ? ? _ _ Hs _ _ _ _ _|w2 _ _ _ _ Hsw _]; injection Hf as <-;
      [done|by apply (softly_stays _ _ _ Hs)|by rewrite Hst|by apply (softly_stays _ _ _ Hs)|].
    destruct (swap_members _ _ _ _ Hsw) as (ids & H1 & H2). rewrite H2. right. by rewrite <- H1.
  - destruct (completion_run tr (with_answers an w) n id' ok now (world_ok_answers _ _ an Hw) Hn)
      as (w2 & e & Hc2 & He & Heid & _ & _ & _ & w3 & Happ & Hs3 & Hev3). rewrite Hc in Hc2. injection Hc2 as <-.
    pose proof (wo_strikes _ _ Hw) as Hst. rewrite Forall_forall in Hst. specialize (Hst e He). rewrite Hs3 in Hout.
    destruct Happ as [_ Hsw _ _|_ _ Hsw _ _|new -> Hthird Hsw _ Hev]; [by destruct Hout; apply (swap_stays _ _ _ _ id Hsw)..|].
    destruct (swap_members _ _ _ _ Hsw) as (ids & H1 & H2). cbn [map app] in H1. change (state (with_answers an w)) with (state w) in H1.
    rewrite H1 in Hin. apply elem_of_cons in Hin as [->|Hin]; [|destruct Hout; rewrite H2; apply elem_of_app; by right].
    rewrite Heid in *. split; [done|]. rewrite history_probed, bool_decide_true by done. split.
    + unfold strikes_earned in Hst. rewrite Heid in Hst. replace (dead_strikes e) with 2 in Hst by (unfold ANTS_DHT_DEAD_STRIKE_THRESHOLD in *; lia).
      cbn [take firstn]. f_equal. exact Hst.
    + unfold announce in Hev. cbn [with_answers state events] in Hev. rewrite (wo_event _ _ Hw) in Hev.
      eexists _, _. rewrite Hev3, Hev. split; [done|]. exact Heid.
  - destruct (tick_run now (with_answers an w) Ht) as (w2 & ran' & Hc2 & Hs & _). rewrite Hc in Hc2. injection Hc2 as <- _.
    exfalso. apply Hout. by apply (softly_stays _ _ _ Hs).
  - destruct (closed_run c w Ht) as (w2 & Hc2 & Hs & _). rewrite Hc in Hc2. injection Hc2 as <-.
    exfalso. apply Hout. by apply (softly_stays _ _ _ Hs).
Qed.

Lemma eviction_earned_witness :
  take 3 (history (peer_id demo_peer) (Probed (peer_id demo_peer) false :: demo_trace)) = [false; false; false].
Proof.
  apply (eviction_earned demo_local 1000 demo_trace demo_last (Probed (peer_id demo_peer) false) (demo_miss demo_last)).
  - exact demo_run.
  - apply demo_miss_step; vm_compute; reflexivity.
  - by_decision.
  - by_decision.
Defined.

(** C36: The events are a faithful account of the table: a listener that only
    sees PEER_DISCOVERED and PEER_EVICTED, and would stop at a discovery of a
    peer it knows or an eviction of one it does not, never stops and holds
    exactly the table's peers, in every run. *)
Theorem events_mirror_table local interval tr w : dht_run local interval tr w ->
  exists l, replay (events w) = Some l /\ l ≡ₚ members (state w).
Proof. intros Hrun. apply (wo_events _ _ (run_ok _ _ _ _ Hrun)). Qed.

Lemma events_mirror_table_witness : exists l, replay (events demo_last) = Some l /\ l ≡ₚ [peer_id demo_peer].
Proof.
  destruct (events_mirror_table demo_local 1000 demo_trace demo_last demo_run) as (l & Hl & Hm).
  exists l. split; [exact Hl|]. transitivity (members (state demo_last)); [exact Hm|]. vm_compute. reflexivity.
Defined.

(** C37: A lookup is answered with the K nearest peers: in every reachable
    table both selections, the one for responses and the one that only
    takes peers with a live connection, return min(K, available) peers,
    nearest first by XOR distance, and no peer left out is nearer to the
    target than one returned. *)
Theorem closest_exact local interval tr w target : dht_run local interval tr w -> id_ok target ->
  (exists out, find_kclosest_peers (state w) target = Some out /\
    closest_of peer_id target (map e_peer (all_entries (state w))) out) /\
  (exists out, find_kclosest_conn_entries (state w) target = Some out /\
    closest_of e_id target (filter has_conn (all_entries (state w))) out).
Proof.
  intros Hrun Ht. pose proof (stored_ids _ (to_buckets _ (wo_table _ _ (run_ok _ _ _ _ Hrun)))) as Hids. split.
  - unfold find_kclosest_peers. rewrite closest_peers_select.
    destruct (select_closest peer_id target (map e_peer (all_entries (state w))) (replicate ANTS_DHT_K (mk_peer [] [], [])))
      as (top & n & -> & Hc); [done|by apply Forall_map|done|]. by eexists.
  - unfold find_kclosest_conn_entries. rewrite closest_entries_select.
    destruct (select_closest e_id target (filter has_conn (all_entries (state w)))
      (replicate ANTS_DHT_K (mk_entry (mk_peer [] []) None 0 0 false, []))) as (top & n & -> & Hc);
      [done| |done|by eexists].
    apply Forall_forall. intros e [_ He]%list_elem_of_filter. rewrite Forall_forall in Hids. by apply Hids.
Qed.

Lemma closest_exact_witness : exists out, find_kclosest_peers (state demo_last) demo_local = Some out /\ out = [demo_peer].
Proof.
  destruct (closest_exact demo_local 1000 demo_trace demo_last demo_local demo_run) as [(out & Hout & _) _]; [by_decision|].
  exists out. split; [exact Hout|]. vm_compute in Hout. by injection Hout as <-.
Defined.

(** The bucket of a peer is the position of the highest bit in which its
    256-bit identity differs from the local one, between 0 and 255, and only
    the local identity has none. *)
Theorem bucket_index_exact s id : id_ok (local_peer_id s) -> id_ok id ->
  bucket_index_for_peer s id =
    (if bool_decide (id = local_peer_id s) then UINT32_MAX else Z.log2 (xor_metric (local_peer_id s) id)) /\
  (id <> local_peer_id s -> 0 <= bucket_index_for_peer s id < Z.of_nat ANTS_DHT_BUCKET_COUNT).
Proof.
  intros Hl Hid. split; [by apply bucket_index_log2|]. intros Hne.
  by destruct (bucket_index_range s id Hl Hid) as [[_ ?]|[? _]].
Qed.

Lemma bucket_index_exact_witness : bucket_index_for_peer (state demo_start) (peer_id demo_peer) = 248.
Proof.
  etransitivity; [apply (bucket_index_exact (state demo_start) (peer_id demo_peer)); by_decision|].
  vm_compute. reflexivity.
Defined.

(** C38: The sample is fair across the table: with any rotation it is the
    first [n_out] peers of the round-robin order, which takes one peer of
    every bucket that still has one before it takes a second of any, and
    goes through every peer of the table exactly once. *)
Theorem sample_exact local interval tr w rotation n_out : dht_run local interval tr w -> is_u64 rotation -> 0 <= n_out ->
  ants_dht_sample_peers_rotated (state w) rotation n_out = Ok tt (take (Z.to_nat n_out) (rounds rotation (state w))) /\
  rounds rotation (state w) ≡ₚ map e_peer (all_entries (state w)) /\ NoDup (map peer_id (rounds rotation (state w))).
Proof.
  intros Hrun Hr Hn. pose proof (to_buckets _ (wo_table _ _ (run_ok _ _ _ _ Hrun))) as Hb.
  split; [by apply sample_run|]. pose proof (rounds_perm rotation _ Hb) as Hp. split; [done|].
  rewrite Hp, map_map. exact (members_nodup _ Hb).
Qed.

Lemma sample_exact_witness : ants_dht_sample_peers_rotated (state demo_last) 5 3 = Ok tt [demo_peer].
Proof.
  etransitivity; [apply (sample_exact demo_local 1000 demo_trace demo_last 5 3); [exact demo_run|by_decision|lia]|].
  vm_compute. reflexivity.
Defined.

(** What hearing of a peer does, on every branch: the local identity is
    refused; a known peer is refreshed in place, keeping its strikes, and
    silently; a new one enters a bucket with room and is reported, unless the
    allocation is refused; at a full bucket it is parked, the table keeps its
    peers, and at most one entry, the least recently seen with a connection,
    is marked as being probed. *)
Theorem routing_upsert_exact local interval tr w p conn now : dht_run local interval tr w -> id_ok (peer_id p) ->
  upserted p conn now w (dht_routing_upsert p conn now w).
Proof. intros Hrun Hid. by apply upsert_run; [apply (wo_table _ _ (run_ok _ _ _ _ Hrun))|]. Qed.

Lemma routing_upsert_exact_witness :
  upserted demo_peer None 5 demo_last (dht_routing_upsert demo_peer None 5 demo_last) /\
  final (dht_routing_upsert demo_peer None 5 demo_last) <> None.
Proof.
  split; [|vm_compute; discriminate].
  apply (routing_upsert_exact demo_local 1000 demo_trace); [exact demo_run|by_decision].
Defined.

(** * Entries without a connection (dht.c)

    A probe needs a connection, and a closed connection leaves the entry
    without one: such an entry is outside the liveness machinery until the
    peer is heard of again. *)

(** No connection, and too few strikes for the probe that may still be
    outstanding to be the last. *)
Definition out_of_reach (e : ants_dht_bucket_entry) : Prop :=
  e_conn e = None /\ dead_strikes e + (if ping_in_flight e then 1 else 0) < ANTS_DHT_DEAD_STRIKE_THRESHOLD.

Definition silent (id : bytes) (l : dht_label) : Prop :=
  match l with Heard p => peer_id p <> id | _ => True end.

(** Several steps, the labels in order. *)
Inductive dht_steps : dht_world -> list dht_label -> dht_world -> Prop :=
| steps_nil w : dht_steps w [] w
| steps_cons w l w1 ls w2 : dht_step w l w1 -> dht_steps w1 ls w2 -> dht_steps w (l :: ls) w2.

Definition holds_out (s : ants_dht_state) (id : bytes) : Prop :=
  exists e, e ∈ all_entries s /\ e_id e = id /\ out_of_reach e.

Lemma swap_keeps s s' old new e : swap s s' old new -> e ∈ all_entries s -> e ∉ old -> e ∈ all_entries s'.
Proof.
  intros (rest & H1 & H2) He Hn. rewrite H1 in He. rewrite H2. apply elem_of_app in He as [He|He]; [done|].
  apply elem_of_app. by right.
Qed.

Lemma swap_same s s' l e : swap s s' l l -> e ∈ all_entries s -> e ∈ all_entries s'.
Proof. intros (rest & H1 & H2). by rewrite H1, H2. Qed.

(** An entry without a connection when a probe ends. *)
Lemma unconnected_probed tr w an n id' ok now w1 e : world_ok tr w -> pings w !! n = Some id' ->
  refresh_ping_completion n ok now (with_answers an w) = Ok w1 tt -> e ∈ all_entries (state w) -> e_conn e = None ->
  (e ∈ all_entries (state w1) /\ history (e_id e) [Probed id' ok] = []) \/ holds_out (state w1) (e_id e) \/
  (Probed id' ok = Probed (e_id e) false /\ dead_strikes e + 1 = ANTS_DHT_DEAD_STRIKE_THRESHOLD /\ ping_in_flight e = true).
Proof.
  intros Hw Hn Hc He Hconn. pose proof (wo_table _ _ Hw) as Ht.
  destruct (completion_run tr (with_answers an w) n id' ok now (world_ok_answers _ _ an Hw) Hn)
    as (w2 & e0 & Hc2 & He0 & Heid & _ & _ & _ & w3 & Happ & Hs3 & _). rewrite Hc in Hc2. injection Hc2 as <-. rewrite Hs3.
  destruct (outstanding_entry _ _ _ _ Hw Hn) as (e1 & He1 & Hid1 & Hfl & _).
  assert (e1 = e0) as -> by (apply (stored_unique (state w)); [apply Ht|done|done|congruence]).
  destruct (decide (e_id e = id')) as [Heq|Hne].
  - assert (e = e0) as <- by (apply (stored_unique (state w)); [apply Ht|done|done|congruence]). right.
    pose proof (to_strikes _ Ht) as Hst. rewrite Forall_forall in Hst. specialize (Hst e He). unfold strikes_ok in Hst.
    destruct Happ as [_ Hsw _ _|_ Hfew Hsw _ _|new Hok Hthird _ _ _]; [left..|right].
    + exists (answered now e). destruct Hsw as (rest & _ & H2). split; [rewrite H2; by left|]. split; [done|].
      split; [done|]. cbn. unfold ANTS_DHT_DEAD_STRIKE_THRESHOLD. lia.
    + exists (struck e). destruct Hsw as (rest & _ & H2). split; [rewrite H2; by left|]. split; [done|].
      split; [done|]. cbn. lia.
    + split; [by rewrite Hok, Heq|]. split; [lia|done].
  - left. split; [|cbn; by rewrite bool_decide_false by congruence].
    assert (Hnot : e ∉ [e0]) by (intros ->%list_elem_of_singleton; congruence).
    destruct Happ as [_ Hsw _ _|_ _ Hsw _ _|new _ _ Hsw _ _]; by apply (swap_keeps _ _ _ _ e Hsw).
Qed.

(** What one step does to an entry without a connection. *)
Lemma unconnected_step tr w l w' e : world_ok tr w -> dht_step w l w' -> silent (e_id e) l ->
  e ∈ all_entries (state w) -> e_conn e = None ->
  (e ∈ all_entries (state w') /\ history (e_id e) [l] = []) \/ holds_out (state w') (e_id e) \/
  (l = Probed (e_id e) false /\ dead_strikes e + 1 = ANTS_DHT_DEAD_STRIKE_THRESHOLD /\ ping_in_flight e = true).
Proof.
  intros Hw Hstep Hsil He Hconn. pose proof (wo_table _ _ Hw) as Ht.
  destruct Hstep as [an p conn now w1 Hpid Hf|an n id' ok now w1 Hn Hc|an now w1 ran Hc|c w1 Hc]; cbn in Hsil.
  - left. split; [|done]. destruct (upsert_run p conn now (with_answers an w) Ht Hpid) as (Hu & _).
    destruct Hu as [_|hit w2 Hhit Hhid _ _ _ Hsw|w2 _ _ Hst2 _|w2 old new _ _ _ _ _ Hsw Hcase Hlru|w2 _ _ _ _ Hsw _];
      injection Hf as <-.
    + done.
    + apply (swap_keeps _ _ _ _ e Hsw He). intros ->%list_elem_of_singleton. congruence.
    + by rewrite Hst2.
    + destruct Hcase as [->|(e0 & -> & ->)]; [by apply (swap_same _ _ _ e Hsw)|].
      apply (swap_keeps _ _ _ _ e Hsw He). intros ->%list_elem_of_singleton.
      destruct (Hlru e0 ltac:(by left)) as (k & _ & _ & Hc & _). unfold has_conn in Hc. by rewrite Hconn in Hc.
    + by apply (swap_keeps _ _ _ _ e Hsw He), not_elem_of_nil.
  - by apply (unconnected_probed tr w an n id' ok now).
  - left. split; [|done]. destruct (tick_run now (with_answers an w) Ht) as (w2 & ran' & Hc2 & Hsoft & _ & _ & _ & Hall).
    rewrite Hc in Hc2. injection Hc2 as <- _.
    assert (Hm : e_id e ∈ members (state w1)) by (rewrite (so_members _ _ Hsoft); apply list_elem_of_fmap; by exists e).
    apply list_elem_of_fmap in Hm as (e' & Hid' & He'). destruct (Hall e' He') as (e0 & He0 & Hsw).
    assert (e0 = e) as ->.
    { apply (stored_unique (state w)); [apply Ht|done|done|]. destruct Hsw as [->|[_ ->]]; by rewrite Hid'. }
    destruct Hsw as [->|[Hdue _]]; [done|]. unfold due in Hdue. by rewrite Hconn in Hdue.
  - left. split; [|done]. destruct (closed_run c w Ht) as (w2 & Hc2 & _ & _ & _ & _ & Hall & _). rewrite Hc in Hc2. injection Hc2 as <-.
    rewrite Hall. apply list_elem_of_fmap. exists e. split; [|done].
    unfold drop_conn. by rewrite Hconn, bool_decide_false by done.
Qed.

Lemma out_of_reach_step tr w l w' id : world_ok tr w -> dht_step w l w' -> silent id l ->
  holds_out (state w) id -> holds_out (state w') id.
Proof.
  intros Hw Hstep Hsil (e & He & <- & Hout). pose proof Hout as [Hconn Hst].
  destruct (unconnected_step tr w l w' e Hw Hstep Hsil He Hconn) as [[He' _]|[Hh|(_ & Hd & Hfl)]]; [by exists e|done|].
  rewrite Hfl in Hst. lia.
Qed.

Lemma out_of_reach_steps local interval tr w ls w' id : dht_run local interval tr w -> dht_steps w ls w' ->
  Forall (silent id) ls -> holds_out (state w) id -> id ∈ members (state w').
Proof.
  intros Hrun Hsteps. revert tr Hrun. induction Hsteps as [w|w l w1 ls w2 Hstep _ IH]; intros tr Hrun Hsil Hh.
  - destruct Hh as (e & He & <- & _). apply list_elem_of_fmap. by exists e.
  - inversion Hsil; subst. apply (IH (l :: tr)); [by eapply run_step|done|].
    by apply (out_of_reach_step tr w l w1); [apply (run_ok _ _ _ _ Hrun)|..].
Qed.

(** C18: The liveness machinery does not reach an entry whose connection is
    gone: from any reachable table, whatever the outside does short of the
    node hearing of the peer again, and for however long, the entry stays in
    the table, occupying its place in the bucket; the one exception is an
    entry with two strikes and a probe outstanding already, when that probe
    fails. *)
Theorem unreachable_never_evicted local interval tr w e ls w' : dht_run local interval tr w ->
  e ∈ all_entries (state w) -> e_conn e = None -> dht_steps w ls w' -> Forall (silent (e_id e)) ls ->
  e_id e ∈ members (state w') \/
  (dead_strikes e + 1 = ANTS_DHT_DEAD_STRIKE_THRESHOLD /\ ping_in_flight e = true /\
   exists before rest, ls = before ++ Probed (e_id e) false :: rest /\ history (e_id e) before = []).
Proof.
  intros Hrun He Hconn Hsteps. revert tr Hrun He. induction Hsteps as [w|w l w1 ls w2 Hstep Hsteps IH]; intros tr Hrun He Hsil.
  - left. apply list_elem_of_fmap. by exists e.
  - inversion Hsil as [|? ? Hl Hls]; subst.
    destruct (unconnected_step tr w l w1 e (run_ok _ _ _ _ Hrun) Hstep Hl He Hconn) as [[He' Hno]|[Hh|(-> & Hd & Hfl)]].
    + destruct (IH (l :: tr)) as [Hin|(Hd & Hfl & before & rest & -> & Hb)]; [by eapply run_step|done|done|by left|right].
      do 2 (split; [done|]). exists (l :: before), rest. split; [done|].
      change (l :: before) with ([l] ++ before). unfold history in *. by rewrite omap_app, Hno, Hb.
    + left. apply (out_of_reach_steps local interval (l :: tr) w1 ls w2); [by eapply run_step|done..].
    + right. do 2 (split; [done|]). by exists [], ls.
Qed.

(** The connection closes while the first probe is outstanding; the probe
    fails with it. *)
Definition demo_cut : dht_world := next (routing_conn_closed 7) (demo_probe demo_known).
Definition demo_cut_entry : ants_dht_bucket_entry := mk_entry demo_peer None 1 0 true.

Lemma unreachable_never_evicted_witness : peer_id demo_peer ∈ members (state (demo_probe (demo_miss demo_cut))).
Proof.
  destruct (unreachable_never_evicted demo_local 1000 [Closed 7; Ticked; Heard demo_peer] demo_cut demo_cut_entry
    [Probed (peer_id demo_peer) false; Ticked] (demo_probe (demo_miss demo_cut))) as [Hin|[Hd _]].
  - apply (run_step _ _ [Ticked; Heard demo_peer] (demo_probe demo_known)); [|apply step_closed; vm_compute; reflexivity].
    eapply run_step; [|apply demo_probe_step; vm_compute; reflexivity].
    eapply run_step; [|exact demo_heard_step]. apply run_init. by_decision.
  - vm_compute. left.
  - reflexivity.
  - eapply steps_cons; [apply demo_miss_step; vm_compute; reflexivity|].
    eapply steps_cons; [apply demo_probe_step; vm_compute; reflexivity|apply steps_nil].
  - repeat constructor.
  - exact Hin.
  - discriminate Hd.
Defined.
