(* ===== verification/DhtWire.v ===== *)
(** * The messages of the DHT (src/network/dht/src/dht_wire.c)

    One encoder and one decoder for each of the four requests and their
    responses.  A message travels as [{0: type, 1: txid}], followed by
    [2: body] when its type has a body.  The [char multiaddr[]] of a peer is
    the string it holds; an array of peers with its count is a list.  A
    decoder stores into the caller's struct as it goes and the callers drop
    the struct when it fails; here it returns the message. *)

From S2P Require Import Prelude Cbor Dht.
Import Dht.

Module DhtWire.

(** ** Data *)

Inductive ants_dht_msg_type_t : Type :=
| ANTS_DHT_MSG_PING
| ANTS_DHT_MSG_FIND_NODE
| ANTS_DHT_MSG_GET_PEERS
| ANTS_DHT_MSG_ANNOUNCE_PEER
| ANTS_DHT_MSG_PING_RESP
| ANTS_DHT_MSG_FIND_NODE_RESP
| ANTS_DHT_MSG_GET_PEERS_RESP
| ANTS_DHT_MSG_ANNOUNCE_PEER_RESP.

#[export] Instance msg_type_eq_dec : EqDecision ants_dht_msg_type_t.
Proof. solve_decision. Defined.

Definition msg_type_value (t : ants_dht_msg_type_t) : Z :=
  match t with
  | ANTS_DHT_MSG_PING => 1
  | ANTS_DHT_MSG_FIND_NODE => 2
  | ANTS_DHT_MSG_GET_PEERS => 3
  | ANTS_DHT_MSG_ANNOUNCE_PEER => 4
  | ANTS_DHT_MSG_PING_RESP => 5
  | ANTS_DHT_MSG_FIND_NODE_RESP => 6
  | ANTS_DHT_MSG_GET_PEERS_RESP => 7
  | ANTS_DHT_MSG_ANNOUNCE_PEER_RESP => 8
  end.

(** [(ants_dht_msg_type_t)v] for a value in range. *)
Definition msg_type_of (v : Z) : option ants_dht_msg_type_t :=
  if v =? 1 then Some ANTS_DHT_MSG_PING
  else if v =? 2 then Some ANTS_DHT_MSG_FIND_NODE
  else if v =? 3 then Some ANTS_DHT_MSG_GET_PEERS
  else if v =? 4 then Some ANTS_DHT_MSG_ANNOUNCE_PEER
  else if v =? 5 then Some ANTS_DHT_MSG_PING_RESP
  else if v =? 6 then Some ANTS_DHT_MSG_FIND_NODE_RESP
  else if v =? 7 then Some ANTS_DHT_MSG_GET_PEERS_RESP
  else if v =? 8 then Some ANTS_DHT_MSG_ANNOUNCE_PEER_RESP
  else None.

Definition ANTS_DHT_TOKEN_SIZE : Z := 16.
Definition ANTS_DHT_MAX_PEERS_PER_MSG : Z := Z.of_nat ANTS_DHT_K.
Definition ANTS_MULTIADDR_MAX_LEN : Z := 256.

(** The four types without a body hold their txid only. *)
Record ants_dht_ping_req_t : Type := mk_ping { ping_txid : Z }.
Record ants_dht_ping_resp_t : Type := mk_pong { pong_txid : Z }.
Record ants_dht_find_node_req_t : Type := mk_find { find_txid : Z; find_target : bytes }.
Record ants_dht_find_node_resp_t : Type := mk_found { found_txid : Z; found_peers : list ants_dht_peer_t }.
Record ants_dht_get_peers_req_t : Type := mk_getp { getp_txid : Z; getp_key : Z }.
Record ants_dht_get_peers_resp_t : Type := mk_gotp {
  gotp_txid : Z; gotp_peers : list ants_dht_peer_t; gotp_token : bytes
}.
Record ants_dht_announce_peer_req_t : Type := mk_ann { ann_txid : Z; ann_key : Z; ann_token : bytes }.
Record ants_dht_announce_peer_resp_t : Type := mk_acked { acked_txid : Z }.

(** The text keys. *)
Definition txt_id : bytes := [105; 100].
Definition txt_addr : bytes := [97; 100; 100; 114].
Definition txt_target : bytes := [116; 97; 114; 103; 101; 116].
Definition txt_peers : bytes := [112; 101; 101; 114; 115].
Definition txt_key : bytes := [107; 101; 121].
Definition txt_token : bytes := [116; 111; 107; 101; 110].

(** ** Encoding *)

Definition enc_txt (s : bytes) : action ants_cbor_enc_t unit := ants_cbor_enc_text (Some s) (zlen s).
Definition enc_blob (b : bytes) : action ants_cbor_enc_t unit := ants_cbor_enc_bytes (Some b) (zlen b).

Definition encode_envelope_head (type : ants_dht_msg_type_t) (txid : Z) (has_body : bool)
  : action ants_cbor_enc_t unit :=
  ants_cbor_enc_map (if has_body then 3 else 2) ;*
  ants_cbor_enc_uint 0 ;*
  ants_cbor_enc_uint (msg_type_value type) ;*
  ants_cbor_enc_uint 1 ;*
  ants_cbor_enc_uint txid ;*
  if has_body then ants_cbor_enc_uint 2 else ret tt.

Definition encode_peer (p : ants_dht_peer_t) : action ants_cbor_enc_t unit :=
  ants_cbor_enc_map 2 ;*
  enc_txt txt_id ;*
  enc_blob (peer_id p) ;*
  enc_txt txt_addr ;*
  enc_txt (multiaddr p).

Fixpoint encode_peers (ps : list ants_dht_peer_t) : action ants_cbor_enc_t unit :=
  match ps with
  | [] => ret tt
  | p :: r => encode_peer p ;* encode_peers r
  end.

Definition encode_peers_array (ps : list ants_dht_peer_t) : action ants_cbor_enc_t unit :=
  ants_cbor_enc_array (zlen ps) ;* encode_peers ps.

Definition ants_dht_wire_encode_ping_req (cap : Z) (m : ants_dht_ping_req_t) : action bytes Z :=
  with_encoder cap (encode_envelope_head ANTS_DHT_MSG_PING (ping_txid m) false).

Definition ants_dht_wire_encode_ping_resp (cap : Z) (m : ants_dht_ping_resp_t) : action bytes Z :=
  with_encoder cap (encode_envelope_head ANTS_DHT_MSG_PING_RESP (pong_txid m) false).

Definition find_node_req_body (m : ants_dht_find_node_req_t) : action ants_cbor_enc_t unit :=
  encode_envelope_head ANTS_DHT_MSG_FIND_NODE (find_txid m) true ;*
  ants_cbor_enc_map 1 ;*
  enc_txt txt_target ;*
  enc_blob (find_target m).
Definition ants_dht_wire_encode_find_node_req (cap : Z) (m : ants_dht_find_node_req_t) : action bytes Z :=
  with_encoder cap (find_node_req_body m).

Definition find_node_resp_body (m : ants_dht_find_node_resp_t) : action ants_cbor_enc_t unit :=
  encode_envelope_head ANTS_DHT_MSG_FIND_NODE_RESP (found_txid m) true ;*
  ants_cbor_enc_map 1 ;*
  enc_txt txt_peers ;*
  encode_peers_array (found_peers m).
Definition ants_dht_wire_encode_find_node_resp (cap : Z) (m : ants_dht_find_node_resp_t) : action bytes Z :=
  if ANTS_DHT_MAX_PEERS_PER_MSG <? zlen (found_peers m) then fail ANTS_ERROR_INVALID_ARG
  else with_encoder cap (find_node_resp_body m).

Definition get_peers_req_body (m : ants_dht_get_peers_req_t) : action ants_cbor_enc_t unit :=
  encode_envelope_head ANTS_DHT_MSG_GET_PEERS (getp_txid m) true ;*
  ants_cbor_enc_map 1 ;*
  enc_txt txt_key ;*
  ants_cbor_enc_uint (getp_key m).
Definition ants_dht_wire_encode_get_peers_req (cap : Z) (m : ants_dht_get_peers_req_t) : action bytes Z :=
  with_encoder cap (get_peers_req_body m).

Definition get_peers_resp_body (m : ants_dht_get_peers_resp_t) : action ants_cbor_enc_t unit :=
  encode_envelope_head ANTS_DHT_MSG_GET_PEERS_RESP (gotp_txid m) true ;*
  ants_cbor_enc_map 2 ;*
  enc_txt txt_peers ;*
  encode_peers_array (gotp_peers m) ;*
  enc_txt txt_token ;*
  enc_blob (gotp_token m).
Definition ants_dht_wire_encode_get_peers_resp (cap : Z) (m : ants_dht_get_peers_resp_t) : action bytes Z :=
  if ANTS_DHT_MAX_PEERS_PER_MSG <? zlen (gotp_peers m) then fail ANTS_ERROR_INVALID_ARG
  else with_encoder cap (get_peers_resp_body m).

Definition announce_peer_req_body (m : ants_dht_announce_peer_req_t) : action ants_cbor_enc_t unit :=
  encode_envelope_head ANTS_DHT_MSG_ANNOUNCE_PEER (ann_txid m) true ;*
  ants_cbor_enc_map 2 ;*
  enc_txt txt_key ;*
  ants_cbor_enc_uint (ann_key m) ;*
  enc_txt txt_token ;*
  enc_blob (ann_token m).
Definition ants_dht_wire_encode_announce_peer_req (cap : Z) (m : ants_dht_announce_peer_req_t) : action bytes Z :=
  with_encoder cap (announce_peer_req_body m).

Definition ants_dht_wire_encode_announce_peer_resp (cap : Z) (m : ants_dht_announce_peer_resp_t) : action bytes Z :=
  with_encoder cap (encode_envelope_head ANTS_DHT_MSG_ANNOUNCE_PEER_RESP (acked_txid m) false).

(** ** Decoding *)

Definition expect_uint (want : Z) : action ants_cbor_dec_t unit :=
  let* key := ants_cbor_dec_uint in
  if negb (key =? want) then fail ANTS_ERROR_NON_CANONICAL else ret tt.

Definition decode_envelope_head (expected_type : ants_dht_msg_type_t) : action ants_cbor_dec_t (Z * bool) :=
  let* map_n := ants_cbor_dec_map in
  if negb (map_n =? 2) && negb (map_n =? 3) then fail ANTS_ERROR_NON_CANONICAL
  else
    expect_uint 0 ;*
    expect_uint (msg_type_value expected_type) ;*
    expect_uint 1 ;*
    let* txid_val := ants_cbor_dec_uint in
    if UINT32_MAX <? txid_val then fail ANTS_ERROR_NON_CANONICAL
    else if map_n =? 3 then expect_uint 2 ;* ret (u32 txid_val, true)
    else ret (u32 txid_val, false).

Definition expect_text_key (expected : bytes) : action ants_cbor_dec_t unit :=
  let* key := ants_cbor_dec_text in
  if negb (zlen key =? zlen expected) || negb (memcmp key expected =? 0) then fail ANTS_ERROR_NON_CANONICAL
  else ret tt.

Definition expect_map (n : Z) : action ants_cbor_dec_t unit :=
  let* map_n := ants_cbor_dec_map in
  if negb (map_n =? n) then fail ANTS_ERROR_NON_CANONICAL else ret tt.

(** A byte string of a fixed size. *)
Definition dec_blob (size : Z) : action ants_cbor_dec_t bytes :=
  let* b := ants_cbor_dec_bytes in
  if negb (zlen b =? size) then fail ANTS_ERROR_NON_CANONICAL else ret b.

(** The string a [char] array holds: what precedes its first NUL. *)
Fixpoint c_string (s : bytes) : bytes :=
  match s with
  | [] => []
  | c :: r => if c =? 0 then [] else c :: c_string r
  end.

Definition decode_peer : action ants_cbor_dec_t ants_dht_peer_t :=
  expect_map 2 ;*
  expect_text_key txt_id ;*
  let* id := dec_blob ANTS_PEER_ID_SIZE in
  expect_text_key txt_addr ;*
  let* addr_text := ants_cbor_dec_text in
  if ANTS_MULTIADDR_MAX_LEN <=? zlen addr_text then fail ANTS_ERROR_BUFFER_TOO_SMALL
  else ret (mk_peer id (c_string (addr_text ++ [0]))).

Fixpoint decode_peers (n : nat) : action ants_cbor_dec_t (list ants_dht_peer_t) :=
  match n with
  | O => ret []
  | S n' => let* p := decode_peer in let* r := decode_peers n' in ret (p :: r)
  end.

Definition decode_peers_array (cap : Z) : action ants_cbor_dec_t (list ants_dht_peer_t) :=
  let* arr_n := ants_cbor_dec_array in
  if cap <? arr_n then fail ANTS_ERROR_BUFFER_TOO_SMALL else decode_peers (Z.to_nat arr_n).

(** [ants_cbor_dec_init], the calls [m] and [ants_cbor_dec_finalise]. *)
Definition wire_decode {A} (buf : bytes) (m : action ants_cbor_dec_t A) : outcome unit A :=
  match ants_cbor_dec_init (Some buf) (zlen buf) with
  | Ok _ d =>
    match (let* a := m in ants_cbor_dec_finalise ;* ret a) d with
    | Ok _ a => Ok tt a
    | Err _ e => Err tt e
    | UB => UB
    | NoFuel => NoFuel
    end
  | Err _ e => Err tt e
  | UB => UB
  | NoFuel => NoFuel
  end.

(** The envelope of a type with a body, and of one without. *)
Definition head_with_body (t : ants_dht_msg_type_t) : action ants_cbor_dec_t Z :=
  let* (txid, has_body) := decode_envelope_head t in
  if negb has_body then fail ANTS_ERROR_NON_CANONICAL else ret txid.
Definition head_only (t : ants_dht_msg_type_t) : action ants_cbor_dec_t Z :=
  let* (txid, has_body) := decode_envelope_head t in
  if has_body then fail ANTS_ERROR_NON_CANONICAL else ret txid.

Definition ants_dht_wire_decode_ping_req (buf : bytes) : outcome unit ants_dht_ping_req_t :=
  wire_decode buf (let* txid := head_only ANTS_DHT_MSG_PING in ret (mk_ping txid)).

Definition ants_dht_wire_decode_ping_resp (buf : bytes) : outcome unit ants_dht_ping_resp_t :=
  wire_decode buf (let* txid := head_only ANTS_DHT_MSG_PING_RESP in ret (mk_pong txid)).

Definition read_find_node_req : action ants_cbor_dec_t ants_dht_find_node_req_t :=
  let* txid := head_with_body ANTS_DHT_MSG_FIND_NODE in
  expect_map 1 ;*
  expect_text_key txt_target ;*
  let* target := dec_blob ANTS_PEER_ID_SIZE in
  ret (mk_find txid target).
Definition ants_dht_wire_decode_find_node_req (buf : bytes) : outcome unit ants_dht_find_node_req_t :=
  wire_decode buf read_find_node_req.

Definition read_find_node_resp : action ants_cbor_dec_t ants_dht_find_node_resp_t :=
  let* txid := head_with_body ANTS_DHT_MSG_FIND_NODE_RESP in
  expect_map 1 ;*
  expect_text_key txt_peers ;*
  let* peers := decode_peers_array ANTS_DHT_MAX_PEERS_PER_MSG in
  ret (mk_found txid peers).
Definition ants_dht_wire_decode_find_node_resp (buf : bytes) : outcome unit ants_dht_find_node_resp_t :=
  wire_decode buf read_find_node_resp.

Definition read_get_peers_req : action ants_cbor_dec_t ants_dht_get_peers_req_t :=
  let* txid := head_with_body ANTS_DHT_MSG_GET_PEERS in
  expect_map 1 ;*
  expect_text_key txt_key ;*
  let* key := ants_cbor_dec_uint in
  ret (mk_getp txid key).
Definition ants_dht_wire_decode_get_peers_req (buf : bytes) : outcome unit ants_dht_get_peers_req_t :=
  wire_decode buf read_get_peers_req.

Definition read_get_peers_resp : action ants_cbor_dec_t ants_dht_get_peers_resp_t :=
  let* txid := head_with_body ANTS_DHT_MSG_GET_PEERS_RESP in
  expect_map 2 ;*
  expect_text_key txt_peers ;*
  let* peers := decode_peers_array ANTS_DHT_MAX_PEERS_PER_MSG in
  expect_text_key txt_token ;*
  let* token := dec_blob ANTS_DHT_TOKEN_SIZE in
  ret (mk_gotp txid peers token).
Definition ants_dht_wire_decode_get_peers_resp (buf : bytes) : outcome unit ants_dht_get_peers_resp_t :=
  wire_decode buf read_get_peers_resp.

Definition read_announce_peer_req : action ants_cbor_dec_t ants_dht_announce_peer_req_t :=
  let* txid := head_with_body ANTS_DHT_MSG_ANNOUNCE_PEER in
  expect_map 2 ;*
  expect_text_key txt_key ;*
  let* key := ants_cbor_dec_uint in
  expect_text_key txt_token ;*
  let* token := dec_blob ANTS_DHT_TOKEN_SIZE in
  ret (mk_ann txid key token).
Definition ants_dht_wire_decode_announce_peer_req (buf : bytes) : outcome unit ants_dht_announce_peer_req_t :=
  wire_decode buf read_announce_peer_req.

Definition ants_dht_wire_decode_announce_peer_resp (buf : bytes) : outcome unit ants_dht_announce_peer_resp_t :=
  wire_decode buf (let* txid := head_only ANTS_DHT_MSG_ANNOUNCE_PEER_RESP in ret (mk_acked txid)).

(** The type of a message, from its first items. *)
Definition peek_walk : action ants_cbor_dec_t ants_dht_msg_type_t :=
  let* map_n := ants_cbor_dec_map in
  if negb (map_n =? 2) && negb (map_n =? 3) then fail ANTS_ERROR_NON_CANONICAL
  else
    expect_uint 0 ;*
    let* type_val := ants_cbor_dec_uint in
    match msg_type_of type_val with
    | Some t => ret t
    | None => fail ANTS_ERROR_NON_CANONICAL
    end.

Definition ants_dht_wire_peek_type (buf : bytes) : outcome unit ants_dht_msg_type_t :=
  match ants_cbor_dec_init (Some buf) (zlen buf) with
  | Ok _ d =>
    match peek_walk d with
    | Ok _ t => Ok tt t
    | Err _ e => Err tt e
    | UB => UB
    | NoFuel => NoFuel
    end
  | Err _ e => Err tt e
  | UB => UB
  | NoFuel => NoFuel
  end.
End DhtWire.
