(* ===== verification/DhtWireThms.v ===== *)
(** * The wire format of the DHT (dht_wire.c)

    The document of every message, what the decoders accept (exactly the
    canonical encodings of these documents, and nothing on arbitrary bytes
    makes them leave the buffer) and what the encoders write. *)

From S2P Require Import Prelude Cbor CborSpec CborTrack CborEnc CborDec CborCanon CborContract CborKv CborRecord.
From S2P Require Import CborCodec CborParse Dht DhtClosest DhtWire.
Import Dht DhtWire.

#[local] Arguments zlen {A} l : simpl never.

(** ** The messages and their documents *)

Inductive dht_message : Type :=
| Ping (m : ants_dht_ping_req_t)
| FindNode (m : ants_dht_find_node_req_t)
| GetPeers (m : ants_dht_get_peers_req_t)
| AnnouncePeer (m : ants_dht_announce_peer_req_t)
| PingResp (m : ants_dht_ping_resp_t)
| FindNodeResp (m : ants_dht_find_node_resp_t)
| GetPeersResp (m : ants_dht_get_peers_resp_t)
| AnnouncePeerResp (m : ants_dht_announce_peer_resp_t).

Definition type_of_message (m : dht_message) : ants_dht_msg_type_t :=
  match m with
  | Ping _ => ANTS_DHT_MSG_PING
  | FindNode _ => ANTS_DHT_MSG_FIND_NODE
  | GetPeers _ => ANTS_DHT_MSG_GET_PEERS
  | AnnouncePeer _ => ANTS_DHT_MSG_ANNOUNCE_PEER
  | PingResp _ => ANTS_DHT_MSG_PING_RESP
  | FindNodeResp _ => ANTS_DHT_MSG_FIND_NODE_RESP
  | GetPeersResp _ => ANTS_DHT_MSG_GET_PEERS_RESP
  | AnnouncePeerResp _ => ANTS_DHT_MSG_ANNOUNCE_PEER_RESP
  end.

Definition txid_of (m : dht_message) : Z :=
  match m with
  | Ping m => ping_txid m
  | FindNode m => find_txid m
  | GetPeers m => getp_txid m
  | AnnouncePeer m => ann_txid m
  | PingResp m => pong_txid m
  | FindNodeResp m => found_txid m
  | GetPeersResp m => gotp_txid m
  | AnnouncePeerResp m => acked_txid m
  end.

Definition peer_doc (p : ants_dht_peer_t) : cbor :=
  CMap [(CText txt_id, CBytes (peer_id p)); (CText txt_addr, CText (multiaddr p))].

Definition peers_doc (ps : list ants_dht_peer_t) : cbor := CArray (map peer_doc ps).

Definition body_of (m : dht_message) : option (list (cbor * cbor)) :=
  match m with
  | Ping _ | PingResp _ | AnnouncePeerResp _ => None
  | FindNode m => Some [(CText txt_target, CBytes (find_target m))]
  | GetPeers m => Some [(CText txt_key, CUint (getp_key m))]
  | AnnouncePeer m => Some [(CText txt_key, CUint (ann_key m)); (CText txt_token, CBytes (ann_token m))]
  | FindNodeResp m => Some [(CText txt_peers, peers_doc (found_peers m))]
  | GetPeersResp m => Some [(CText txt_peers, peers_doc (gotp_peers m)); (CText txt_token, CBytes (gotp_token m))]
  end.

Definition envelope_doc (t : ants_dht_msg_type_t) (txid : Z) (body : option (list (cbor * cbor))) : cbor :=
  CMap ([(CUint 0, CUint (msg_type_value t)); (CUint 1, CUint txid)] ++
        match body with Some l => [(CUint 2, CMap l)] | None => [] end).

Definition message_doc (m : dht_message) : cbor := envelope_doc (type_of_message m) (txid_of m) (body_of m).

(** ** Field types *)

Definition peer_fields (p : ants_dht_peer_t) : Prop :=
  id_ok (peer_id p) /\ bytes_ok (multiaddr p) /\ zlen (multiaddr p) < ANTS_MULTIADDR_MAX_LEN.

Definition peers_fields (ps : list ants_dht_peer_t) : Prop :=
  Forall peer_fields ps /\ zlen ps <= ANTS_DHT_MAX_PEERS_PER_MSG.

Definition token_ok (b : bytes) : Prop := zlen b = ANTS_DHT_TOKEN_SIZE /\ bytes_ok b.

Definition body_fields (m : dht_message) : Prop :=
  match m with
  | Ping _ | PingResp _ | AnnouncePeerResp _ => True
  | FindNode m => id_ok (find_target m)
  | GetPeers m => is_u64 (getp_key m)
  | AnnouncePeer m => is_u64 (ann_key m) /\ token_ok (ann_token m)
  | FindNodeResp m => peers_fields (found_peers m)
  | GetPeersResp m => peers_fields (gotp_peers m) /\ token_ok (gotp_token m)
  end.

Definition fields_ok (m : dht_message) : Prop := is_u32 (txid_of m) /\ body_fields m.

(** What the C strings of the receiver keep of the addresses. *)
Definition cut_peer (p : ants_dht_peer_t) : ants_dht_peer_t := mk_peer (peer_id p) (c_string (multiaddr p ++ [0])).

Definition cut (m : dht_message) : dht_message :=
  match m with
  | FindNodeResp m => FindNodeResp (mk_found (found_txid m) (map cut_peer (found_peers m)))
  | GetPeersResp m => GetPeersResp (mk_gotp (gotp_txid m) (map cut_peer (gotp_peers m)) (gotp_token m))
  | m => m
  end.

Definition peers_of (m : dht_message) : list ants_dht_peer_t :=
  match m with
  | FindNodeResp m => found_peers m
  | GetPeersResp m => gotp_peers m
  | _ => []
  end.

(** Addresses are strings. *)
Definition message_ok (m : dht_message) : Prop :=
  fields_ok m /\ Forall (fun p => 0 ∉ multiaddr p) (peers_of m).

Lemma c_string_keeps s : 0 ∉ s -> c_string (s ++ [0]) = s.
Proof.
  induction s as [|c s IH]; intros H; [done|]. apply not_elem_of_cons in H as [H0 H].
  cbn [c_string app]. bdecide. by rewrite IH.
Qed.

Lemma cut_ok m : message_ok m -> cut m = m.
Proof.
  intros [_ H]. assert (Hp : forall ps, Forall (fun p => 0 ∉ multiaddr p) ps -> map cut_peer ps = ps).
  { induction 1 as [|[id a] ps Ha _ IH]; [done|]. cbn [map]. rewrite IH. unfold cut_peer. cbn [peer_id multiaddr] in *.
    by rewrite c_string_keeps. }
  destruct m as [m|m|m|m|m|[t ps]|[t ps k]|m]; cbn in *; try done; by rewrite (Hp ps H).
Qed.

(** ** Documents are well formed *)

Lemma txt_wf s : bytes_ok s -> zlen s <= 100 -> wf (CText s).
Proof. intros H Hs. split; [done|zlia]. Qed.

Lemma peer_doc_wf p : peer_fields p -> wf (peer_doc p) /\ (height (peer_doc p) <= 1)%nat.
Proof.
  intros ([Hl Hi] & Ha & Hs). unfold ANTS_PEER_ID_SIZE, ANTS_MULTIADDR_MAX_LEN in *. split; [|cbn; lia].
  apply wf_map. split; [done|]. split; [by repeat constructor|].
  repeat constructor; cbn [fst snd]; try done; try (apply txt_wf; [by_decision|done]); zlia.
Qed.

Lemma peers_doc_wf ps : peers_fields ps -> wf (peers_doc ps) /\ (height (peers_doc ps) <= 2)%nat.
Proof.
  intros [Hp Hn]. unfold ANTS_DHT_MAX_PEERS_PER_MSG, ANTS_DHT_K in Hn. split.
  - apply wf_array. split; [rewrite zlen_map; zlia|]. apply Forall_map.
    eapply Forall_impl; [exact Hp|]. intros p Hf. by apply peer_doc_wf.
  - apply height_array_le, Forall_map. eapply Forall_impl; [exact Hp|]. intros p Hf.
    pose proof (proj2 (peer_doc_wf p Hf)). lia.
Qed.

Lemma body_wf m l : fields_ok m -> body_of m = Some l -> wf (CMap l) /\ (height (CMap l) <= 3)%nat.
Proof.
  intros [_ Hf] Hb.
  assert (Hall : forall l', Sorted key_lt (encoded_keys l') -> zlen l' <= SIZE_MAX ->
    Forall (fun p => (wf p.1 /\ wf p.2) /\ (height p.1 <= 2)%nat /\ (height p.2 <= 2)%nat) l' ->
    wf (CMap l') /\ (height (CMap l') <= 3)%nat).
  { intros l' Hs Hl' H. split; [apply wf_map; split; [done|]; split; [done|]|apply height_map_le];
      (eapply Forall_impl; [exact H|]); intros p [[? ?] [? ?]]; split; done || lia. }
  destruct m as [m|m|m|m|m|m|m|m]; cbn in Hb, Hf; try done; injection Hb as <-;
    apply Hall; try done; try (by repeat constructor);
    repeat (apply Forall_cons; split; [split; [split|split]; cbn [fst snd]|]); try apply Forall_nil; try done;
    try (apply txt_wf; [by_decision|done]); try (apply peers_doc_wf; tauto); try (cbn; lia).
  - destruct Hf. unfold ANTS_PEER_ID_SIZE in *. split; [done|zlia].
  - tauto.
  - destruct Hf as [_ [? ?]]. unfold ANTS_DHT_TOKEN_SIZE in *. split; [done|zlia].
  - destruct Hf as [_ [? ?]]. unfold ANTS_DHT_TOKEN_SIZE in *. split; [done|zlia].
Qed.

Lemma type_value_range t : 1 <= msg_type_value t <= 8.
Proof. destruct t; cbn; lia. Qed.

Lemma message_doc_wf m : fields_ok m -> wf (message_doc m) /\ (height (message_doc m) <= 16)%nat.
Proof.
  intros Hf. pose proof Hf as [Ht _]. pose proof (type_value_range (type_of_message m)) as Hv.
  unfold message_doc, envelope_doc. destruct (body_of m) as [l|] eqn:Hb; cbn [app].
  - destruct (body_wf m l Hf Hb) as [Hw Hh]. split.
    + apply wf_map. split; [done|]. split; [by repeat constructor|].
      repeat (apply Forall_cons; split; [split; cbn [fst snd]|]); try apply Forall_nil; try done; cbn; zlia.
    + apply height_map_le. repeat apply Forall_cons_2; [cbn; lia..|split; cbn [fst snd]; [cbn; lia|lia]|by apply Forall_nil].
  - split; [|cbn; lia]. apply wf_map. split; [done|]. split; [by repeat constructor|].
    repeat (apply Forall_cons; split; [split; cbn [fst snd]|]); try apply Forall_nil; try done; cbn; zlia.
Qed.

(** ** The encoders write the documents *)

(** The calls of the encoder of a message. *)
Definition message_body (m : dht_message) : action ants_cbor_enc_t unit :=
  match m with
  | Ping m => encode_envelope_head ANTS_DHT_MSG_PING (ping_txid m) false
  | FindNode m => find_node_req_body m
  | GetPeers m => get_peers_req_body m
  | AnnouncePeer m => announce_peer_req_body m
  | PingResp m => encode_envelope_head ANTS_DHT_MSG_PING_RESP (pong_txid m) false
  | FindNodeResp m => find_node_resp_body m
  | GetPeersResp m => get_peers_resp_body m
  | AnnouncePeerResp m => encode_envelope_head ANTS_DHT_MSG_ANNOUNCE_PEER_RESP (acked_txid m) false
  end.

Definition encode_message (cap : Z) (m : dht_message) : action bytes Z :=
  match m with
  | Ping m => ants_dht_wire_encode_ping_req cap m
  | FindNode m => ants_dht_wire_encode_find_node_req cap m
  | GetPeers m => ants_dht_wire_encode_get_peers_req cap m
  | AnnouncePeer m => ants_dht_wire_encode_announce_peer_req cap m
  | PingResp m => ants_dht_wire_encode_ping_resp cap m
  | FindNodeResp m => ants_dht_wire_encode_find_node_resp cap m
  | GetPeersResp m => ants_dht_wire_encode_get_peers_resp cap m
  | AnnouncePeerResp m => ants_dht_wire_encode_announce_peer_resp cap m
  end.

Lemma then_cong {S} (m m' k k' : action S unit) s :
  (forall t, m t = m' t) -> (forall t, k t = k' t) -> (m ;* k) s = (m' ;* k') s.
Proof. intros Hm Hk. unfold bind. rewrite Hm. destruct (m' s); [apply Hk|done..]. Qed.

Lemma encode_peers_emit ps e : encode_peers ps e = seq_actions (map emit (map peer_doc ps)) e.
Proof.
  revert e. induction ps as [|p ps IH]; intros e; [done|]. cbn [encode_peers map].
  change (seq_actions (?a :: ?l)) with (a ;* seq_actions l).
  apply then_cong; [|exact IH]. intros e1. unfold encode_peer, enc_txt, enc_blob.
  cbn [peer_doc emit map seq_actions foldr]. act_eq.
Qed.

Lemma encode_peers_array_emit ps e : encode_peers_array ps e = emit (peers_doc ps) e.
Proof.
  unfold encode_peers_array, peers_doc. cbn [emit]. rewrite zlen_map. apply bind_ext. intros [] t. apply encode_peers_emit.
Qed.

Lemma message_emit m e : message_body m e = emit (message_doc m) e.
Proof.
  assert (Hpeers : forall ps k k', (forall t, k t = k' t) ->
    forall t, (encode_peers_array ps ;* k) t = (emit (peers_doc ps) ;* k') t)
    by (intros; apply then_cong; [apply encode_peers_array_emit|done]).
  destruct m; cbn [message_body];
    unfold find_node_req_body, get_peers_req_body, announce_peer_req_body, find_node_resp_body, get_peers_resp_body,
      encode_envelope_head, enc_txt, enc_blob;
    cbn [message_doc envelope_doc type_of_message txid_of body_of app emit map seq_actions foldr].
  all: act_eq.
  - rewrite encode_peers_array_emit. symmetry. by apply bind_skip.
  - apply Hpeers. intros t'. act_eq.
Qed.

(** ** The decoders as parsers *)

Definition p_text : parser bytes := fun cs => match cs with CText b :: cs' => Some (b, cs') | _ => None end.
Definition p_unless {A} (bad : bool) (p : parser A) : parser A := if bad then p_fail else p.

Lemma parses_text : parses any_code ants_cbor_dec_text p_text.
Proof. apply (parses_reader _ _ _ reader_text). by intros [|[]]. Qed.

Lemma parses_unless {A} e (bad : bool) (m : action ants_cbor_dec_t A) p :
  parses any_code m p -> parses any_code (if bad then fail e else m) (p_unless bad p).
Proof. intros Hm. unfold p_unless. destruct bad; [by apply parses_fail|done]. Qed.

#[local] Hint Resolve parses_text parses_ret parses_fail : ants.

Definition p_expect_uint (want : Z) : parser unit :=
  p_bind p_uint (fun key => p_unless (negb (key =? want)) (p_ret tt)).
Definition p_expect_text (want : bytes) : parser unit :=
  p_bind p_text (fun key => p_unless (negb (zlen key =? zlen want) || negb (memcmp key want =? 0)) (p_ret tt)).
Definition p_expect_map (n : Z) : parser unit :=
  p_bind p_map (fun k => p_unless (negb (k =? n)) (p_ret tt)).
Definition p_blob (size : Z) : parser bytes :=
  p_bind p_bytes (fun b => p_unless (negb (zlen b =? size)) (p_ret b)).

Definition p_head (t : ants_dht_msg_type_t) : parser (Z * bool) :=
  p_bind p_map (fun map_n => p_unless (negb (map_n =? 2) && negb (map_n =? 3))
  (p_bind (p_expect_uint 0) (fun _ => p_bind (p_expect_uint (msg_type_value t)) (fun _ =>
  p_bind (p_expect_uint 1) (fun _ => p_bind p_uint (fun txid =>
  p_unless (UINT32_MAX <? txid)
    (if map_n =? 3 then p_bind (p_expect_uint 2) (fun _ => p_ret (u32 txid, true)) else p_ret (u32 txid, false)))))))).

Definition p_head_with_body (t : ants_dht_msg_type_t) : parser Z :=
  p_bind (p_head t) (fun tb => let '(txid, has_body) := tb in p_unless (negb has_body) (p_ret txid)).
Definition p_head_only (t : ants_dht_msg_type_t) : parser Z :=
  p_bind (p_head t) (fun tb => let '(txid, has_body) := tb in p_unless has_body (p_ret txid)).

Definition p_peer : parser ants_dht_peer_t :=
  p_bind (p_expect_map 2) (fun _ => p_bind (p_expect_text txt_id) (fun _ => p_bind (p_blob ANTS_PEER_ID_SIZE) (fun id =>
  p_bind (p_expect_text txt_addr) (fun _ => p_bind p_text (fun a =>
  p_unless (ANTS_MULTIADDR_MAX_LEN <=? zlen a) (p_ret (mk_peer id (c_string (a ++ [0]))))))))).

Fixpoint p_peers (n : nat) : parser (list ants_dht_peer_t) :=
  match n with
  | O => p_ret []
  | S n' => p_bind p_peer (fun p => p_bind (p_peers n') (fun r => p_ret (p :: r)))
  end.

Definition p_peers_array : parser (list ants_dht_peer_t) :=
  p_bind p_array (fun n => p_unless (ANTS_DHT_MAX_PEERS_PER_MSG <? n) (p_peers (Z.to_nat n))).

(** One call after the other; a test guards what follows it. *)
Ltac wire_parse :=
  lazymatch goal with
  | |- parses _ (bind _ _) _ => apply parses_bind; [wire_parse|intros ?; wire_parse]
  | |- parses _ _ (p_unless _ _) => apply parses_unless; wire_parse
  | |- parses _ (if ?b then _ else _) (if ?b then _ else _) => apply parses_if; wire_parse
  | |- parses _ ?m _ => first [solve [auto with ants] | progress unfold_call m; wire_parse]
  end
with unfold_call m := let h := head_of m in unfold h
with head_of m := match m with ?f _ => head_of f | ?f => constr:(f) end.

Lemma parses_expect_uint n : parses any_code (expect_uint n) (p_expect_uint n).
Proof. unfold expect_uint, p_expect_uint. wire_parse. Qed.
Lemma parses_expect_text s : parses any_code (expect_text_key s) (p_expect_text s).
Proof. unfold expect_text_key, p_expect_text. wire_parse. Qed.
Lemma parses_expect_map n : parses any_code (expect_map n) (p_expect_map n).
Proof. unfold expect_map, p_expect_map. wire_parse. Qed.
Lemma parses_blob n : parses any_code (dec_blob n) (p_blob n).
Proof. unfold dec_blob, p_blob. wire_parse. Qed.

#[local] Hint Resolve parses_expect_uint parses_expect_text parses_expect_map parses_blob : ants.

Lemma parses_head t : parses any_code (decode_envelope_head t) (p_head t).
Proof. unfold decode_envelope_head, p_head. wire_parse. Qed.

#[local] Hint Resolve parses_head : ants.

Lemma parses_head_with_body t : parses any_code (head_with_body t) (p_head_with_body t).
Proof. unfold head_with_body, p_head_with_body. apply parses_bind; [auto with ants|]. intros [txid b]. wire_parse. Qed.
Lemma parses_head_only t : parses any_code (head_only t) (p_head_only t).
Proof. unfold head_only, p_head_only. apply parses_bind; [auto with ants|]. intros [txid b]. wire_parse. Qed.

Lemma parses_peer : parses any_code decode_peer p_peer.
Proof. unfold decode_peer, p_peer. wire_parse. Qed.

#[local] Hint Resolve parses_head_with_body parses_head_only parses_peer : ants.

Lemma parses_peers n : parses any_code (decode_peers n) (p_peers n).
Proof. induction n as [|n IH]; cbn [decode_peers p_peers]; wire_parse. Qed.

Lemma parses_peers_array : parses any_code (decode_peers_array ANTS_DHT_MAX_PEERS_PER_MSG) p_peers_array.
Proof. unfold decode_peers_array, p_peers_array. apply parses_bind; [auto with ants|]. intros n. apply parses_unless, parses_peers. Qed.

#[local] Hint Resolve parses_peers_array : ants.

(** ** What the parsers recognise *)

Lemma p_bind_inv {A B} (p : parser A) (k : A -> parser B) cs b cs' :
  p_bind p k cs = Some (b, cs') -> exists a cs1, p cs = Some (a, cs1) /\ k a cs1 = Some (b, cs').
Proof. unfold p_bind. destruct (p cs) as [[a cs1]|]; [|done]. intros H. by exists a, cs1. Qed.

Lemma p_bind_some {A B} (p : parser A) (k : A -> parser B) cs a cs1 :
  p cs = Some (a, cs1) -> p_bind p k cs = k a cs1.
Proof. unfold p_bind. by intros ->. Qed.

Lemma p_unless_inv {A} bad (p : parser A) cs r : p_unless bad p cs = Some r -> bad = false /\ p cs = Some r.
Proof. by destruct bad. Qed.

Lemma p_expect_uint_iff n cs u cs' : p_expect_uint n cs = Some (u, cs') <-> cs = CUint n :: cs'.
Proof.
  unfold p_expect_uint, p_bind, p_uint, p_unless, p_ret, p_fail. destruct u. split.
  - destruct cs as [|[] cs]; try done. destruct (Z.eqb_spec v n) as [->|]; [|done]. by intros [= ->].
  - intros ->. by rewrite Z.eqb_refl.
Qed.

Lemma p_expect_text_iff s cs u cs' : p_expect_text s cs = Some (u, cs') <-> cs = CText s :: cs'.
Proof.
  unfold p_expect_text, p_bind, p_text, p_unless, p_ret, p_fail. destruct u. split.
  - destruct cs as [|[] cs]; try done. destruct (Z.eqb_spec (zlen b) (zlen s)) as [Hl|]; [|done].
    rewrite (memcmp_eq _ _ Hl). case_bool_decide as Hb; [|done]. cbn. intros [= ->]. by subst.
  - intros ->. rewrite Z.eqb_refl, memcmp_refl. done.
Qed.

Lemma p_expect_map_iff n cs u cs' :
  p_expect_map n cs = Some (u, cs') <-> exists l r, cs = CMap l :: r /\ zlen l = n /\ cs' = flat l ++ r.
Proof.
  unfold p_expect_map, p_bind, p_map, p_unless, p_ret, p_fail. destruct u. split.
  - destruct cs as [|[] cs]; try done. destruct (Z.eqb_spec (zlen l) n) as [Hl|]; [|done]. intros [= <-]. by exists l, cs.
  - intros (l & r & -> & <- & ->). by rewrite Z.eqb_refl.
Qed.

Lemma p_blob_iff n cs b cs' : p_blob n cs = Some (b, cs') <-> cs = CBytes b :: cs' /\ zlen b = n.
Proof.
  unfold p_blob, p_bind, p_bytes, p_unless, p_ret, p_fail. split.
  - destruct cs as [|[] cs]; try done. destruct (Z.eqb_spec (zlen b0) n) as [Hl|]; [|done]. by intros [= -> ->].
  - intros [-> <-]. by rewrite Z.eqb_refl.
Qed.

Lemma p_text_iff cs b cs' : p_text cs = Some (b, cs') <-> cs = CText b :: cs'.
Proof. unfold p_text. split; [|by intros ->]. destruct cs as [|[] cs]; try done. by intros [= -> ->]. Qed.
Lemma p_uint_iff cs v cs' : p_uint cs = Some (v, cs') <-> cs = CUint v :: cs'.
Proof. unfold p_uint. split; [|by intros ->]. destruct cs as [|[] cs]; try done. by intros [= -> ->]. Qed.

(** The items of an envelope, up to its body. *)
Definition head_items (t : ants_dht_msg_type_t) (txid : Z) : list cbor :=
  [CUint 0; CUint (msg_type_value t); CUint 1; CUint txid].

Lemma p_head_inv t cs txid b cs' : Forall wf cs -> p_head t cs = Some ((txid, b), cs') ->
  is_u32 txid /\ exists l r, cs = CMap l :: r /\ zlen l = (if b then 3 else 2) /\
    flat l ++ r = head_items t txid ++ (if b then CUint 2 :: cs' else cs').
Proof.
  intros Hwf H. apply p_bind_inv in H as (n & cs1 & Hm & H). unfold p_map in Hm.
  destruct cs as [|[| | | | |l| | |] r]; try done. injection Hm as <- <-.
  apply Forall_cons in Hwf as [(_ & _ & Hl)%wf_map Hr].
  assert (Hall : Forall wf (flat l ++ r)) by (apply Forall_app; split; [by apply Forall_flat|done]).
  apply p_unless_inv in H as [Hn H].
  apply p_bind_inv in H as ([] & cs1 & E1%p_expect_uint_iff & H).
  apply p_bind_inv in H as ([] & cs2 & E2%p_expect_uint_iff & H).
  apply p_bind_inv in H as ([] & cs3 & E3%p_expect_uint_iff & H).
  apply p_bind_inv in H as (v & cs4 & E4%p_uint_iff & H). subst cs1 cs2 cs3. rewrite E1 in Hall.
  assert (Hv : is_u64 v) by (repeat apply Forall_cons in Hall as [? Hall]; done).
  apply p_unless_inv in H as [Hmax%Z.ltb_ge H]. unfold UINT32_MAX in Hmax.
  assert (Hu : is_u32 v) by zlia. rewrite (Z.mod_small v (2 ^ 32) Hu : u32 v = v) in H.
  destruct (Z.eqb_spec (zlen l) 3) as [H3|H3].
  - apply p_bind_inv in H as ([] & cs5 & E5%p_expect_uint_iff & H). injection H as <- <- <-. subst cs4.
    split; [done|]. by exists l, r.
  - injection H as <- <- <-. split; [done|]. exists l, r. split; [done|]. split; [|done].
    destruct (Z.eqb_spec (zlen l) 2); [done|discriminate Hn].
Qed.

Lemma zlen_1 {A} (l : list A) : zlen l = 1 -> exists a, l = [a].
Proof. intros H. explicit_list H. by eexists. Qed.
Lemma zlen_3 {A} (l : list A) : zlen l = 3 -> exists a b c, l = [a; b; c].
Proof. intros H. explicit_list H. by do 3 eexists. Qed.

Lemma p_head_only_inv t cs txid : Forall wf cs -> p_head_only t cs = Some (txid, []) ->
  is_u32 txid /\ cs = [envelope_doc t txid None].
Proof.
  intros Hwf H. apply p_bind_inv in H as ([v b] & cs1 & Hh & H). apply p_unless_inv in H as [-> H]. injection H as -> ->.
  apply p_head_inv in Hh as (Hu & l & r & -> & Hl & E); [|done]. split; [done|].
  apply zlen_2 in Hl as ([k0 v0] & [k1 v1] & ->). cbn in E. by injection E as -> -> -> -> ->.
Qed.

(** An envelope with a map as its body, and what reads the body's items. *)
Lemma p_body_inv {A} t n (k : Z -> parser A) cs a cs' : Forall wf cs ->
  p_bind (p_head_with_body t) (fun v => p_bind (p_expect_map n) (fun _ => k v)) cs = Some (a, cs') ->
  exists txid l r, is_u32 txid /\ cs = envelope_doc t txid (Some l) :: r /\ zlen l = n /\
    k txid (flat l ++ r) = Some (a, cs').
Proof.
  intros Hwf H. apply p_bind_inv in H as (v & cs1 & Hh & H).
  apply p_bind_inv in Hh as ([w b] & cs2 & Hh & H2). apply p_unless_inv in H2 as [Hb H2]. destruct b; [|done].
  injection H2 as -> ->. apply p_head_inv in Hh as (Hu & l & r & -> & Hl & E); [|done].
  apply p_bind_inv in H as ([] & cs3 & (l' & r' & -> & Hl' & ->)%p_expect_map_iff & H).
  exists v, l', r'. split; [done|]. apply zlen_3 in Hl as ([k0 v0] & [k1 v1] & [k2 v2] & ->). cbn in E.
  by injection E as -> -> -> -> -> -> ->.
Qed.

Lemma p_head_some t txid (b : bool) l r cs' : is_u32 txid -> zlen l = (if b then 3 else 2) ->
  flat l ++ r = head_items t txid ++ (if b then CUint 2 :: cs' else cs') ->
  p_head t (CMap l :: r) = Some ((txid, b), cs').
Proof.
  intros Hu Hl E. unfold p_head. rewrite (p_bind_some _ _ _ (zlen l) (flat l ++ r)) by done. rewrite Hl, E.
  assert (Hmax : (UINT32_MAX <? txid) = false) by (apply Z.ltb_ge; unfold UINT32_MAX; zlia).
  pose proof (Z.mod_small txid (2 ^ 32) Hu : u32 txid = txid) as Hm.
  destruct b; cbn [Z.eqb Pos.eqb negb andb p_unless head_items app];
    do 3 (erewrite (p_bind_some _ _ _ tt) by (by apply p_expect_uint_iff)); rewrite (p_bind_some _ _ _ txid _) by done;
    rewrite Hmax; cbn [p_unless].
  - erewrite (p_bind_some _ _ _ tt) by (by apply p_expect_uint_iff). by rewrite Hm.
  - by rewrite Hm.
Qed.

Lemma p_body_some {A} t txid l n (k : Z -> parser A) : is_u32 txid -> zlen l = n ->
  p_bind (p_head_with_body t) (fun v => p_bind (p_expect_map n) (fun _ => k v)) [envelope_doc t txid (Some l)] =
  k txid (flat l).
Proof.
  intros Hu Hl. unfold p_head_with_body. rewrite (p_bind_some _ _ _ txid [CMap l]).
  - rewrite (p_bind_some _ _ _ tt (flat l)); [done|]. apply p_expect_map_iff. exists l, []. by rewrite app_nil_r.
  - rewrite (p_bind_some _ _ _ (txid, true) [CMap l]) by (by apply p_head_some). done.
Qed.

Lemma p_only_some t txid : is_u32 txid -> p_head_only t [envelope_doc t txid None] = Some (txid, []).
Proof. intros Hu. unfold p_head_only. rewrite (p_bind_some _ _ _ (txid, false) []) by (by apply p_head_some). done. Qed.

(** ** Peers *)

(** Sizes only: the bytes are those of a well-formed document. *)
Definition peer_shape (p : ants_dht_peer_t) : Prop :=
  zlen (peer_id p) = ANTS_PEER_ID_SIZE /\ zlen (multiaddr p) < ANTS_MULTIADDR_MAX_LEN.

Lemma p_peer_iff cs p cs' :
  p_peer cs = Some (p, cs') <-> exists raw, peer_shape raw /\ cs = peer_doc raw :: cs' /\ p = cut_peer raw.
Proof.
  split.
  - intros H. unfold p_peer in H.
    apply p_bind_inv in H as ([] & cs1 & (l & r & -> & Hl & ->)%p_expect_map_iff & H).
    apply p_bind_inv in H as ([] & cs2 & E1%p_expect_text_iff & H).
    apply p_bind_inv in H as (id & cs3 & [-> Hid]%p_blob_iff & H).
    apply p_bind_inv in H as ([] & cs4 & ->%p_expect_text_iff & H).
    apply p_bind_inv in H as (a & cs5 & ->%p_text_iff & H).
    apply p_unless_inv in H as [Ha%Z.leb_gt H]. injection H as <- <-. exists (mk_peer id a). split; [done|].
    apply zlen_2 in Hl as ([k0 v0] & [k1 v1] & ->). cbn in E1. by injection E1 as -> -> -> -> ->.
  - intros ([id a] & [Hid Ha] & -> & ->). cbn [peer_id multiaddr] in Hid, Ha. unfold p_peer, peer_doc. cbn [peer_id multiaddr].
    rewrite (p_bind_some _ _ _ tt (CText txt_id :: CBytes id :: CText txt_addr :: CText a :: cs'))
      by (apply p_expect_map_iff; by eexists _, _).
    erewrite (p_bind_some _ _ _ tt) by (by apply p_expect_text_iff).
    rewrite (p_bind_some _ _ _ id (CText txt_addr :: CText a :: cs')) by (by apply p_blob_iff).
    erewrite (p_bind_some _ _ _ tt) by (by apply p_expect_text_iff).
    rewrite (p_bind_some _ _ _ a cs') by done. apply Z.leb_gt in Ha. by rewrite Ha.
Qed.

Lemma p_peers_iff n : forall cs ps cs',
  p_peers n cs = Some (ps, cs') <->
  exists raws, length raws = n /\ Forall peer_shape raws /\ cs = map peer_doc raws ++ cs' /\ ps = map cut_peer raws.
Proof.
  induction n as [|n IH]; intros cs ps cs'; cbn [p_peers]; split.
  - intros [= <- <-]. by exists [].
  - intros (raws & Hl & _ & -> & ->). by destruct raws.
  - intros H. apply p_bind_inv in H as (p & cs1 & (raw & Hs & -> & ->)%p_peer_iff & H).
    apply p_bind_inv in H as (ps' & cs2 & (raws & <- & Hr & -> & ->)%IH & H). injection H as <- <-.
    exists (raw :: raws). split; [done|]. split; [by constructor|done].
  - intros (raws & Hl & Hs & -> & ->). destruct raws as [|raw raws]; [done|]. apply Forall_cons in Hs as [Hr Hs].
    cbn [map app]. rewrite (p_bind_some _ _ _ (cut_peer raw) (map peer_doc raws ++ cs')) by (apply p_peer_iff; by exists raw).
    rewrite (p_bind_some _ _ _ (map cut_peer raws) cs'); [done|]. apply IH. exists raws. split; [by injection Hl|done].
Qed.

Lemma p_peers_array_iff cs ps cs' :
  p_peers_array cs = Some (ps, cs') <->
  exists raws, zlen raws <= ANTS_DHT_MAX_PEERS_PER_MSG /\ Forall peer_shape raws /\ cs = peers_doc raws :: cs' /\
    ps = map cut_peer raws.
Proof.
  split.
  - intros H. apply p_bind_inv in H as (n & cs1 & Ha & H). unfold p_array in Ha.
    destruct cs as [|[| | | |l| | | |] cs]; try done. injection Ha as <- <-.
    apply p_unless_inv in H as [Hn%Z.ltb_ge H]. apply p_peers_iff in H as (raws & Hl & Hs & E & ->).
    replace (Z.to_nat (zlen l)) with (length l) in Hl by (unfold zlen; lia).
    apply app_inj_1 in E as [-> ->]; [|by rewrite length_map]. exists raws. rewrite zlen_map in Hn. done.
  - intros (raws & Hn & Hs & -> & ->). unfold p_peers_array, peers_doc, p_bind, p_array, p_unless. rewrite zlen_map.
    apply Z.ltb_ge in Hn. rewrite Hn. apply p_peers_iff. exists raws. split; [unfold zlen; lia|done].
Qed.

(** ** Messages *)

Definition decoded {A} (f : A -> dht_message) (o : outcome unit A) : outcome unit dht_message :=
  match o with
  | Ok u a => Ok u (f a)
  | Err u e => Err u e
  | UB => UB
  | NoFuel => NoFuel
  end.

(** The decoder of each type. *)
Definition decode_message (t : ants_dht_msg_type_t) (buf : bytes) : outcome unit dht_message :=
  match t with
  | ANTS_DHT_MSG_PING => decoded Ping (ants_dht_wire_decode_ping_req buf)
  | ANTS_DHT_MSG_FIND_NODE => decoded FindNode (ants_dht_wire_decode_find_node_req buf)
  | ANTS_DHT_MSG_GET_PEERS => decoded GetPeers (ants_dht_wire_decode_get_peers_req buf)
  | ANTS_DHT_MSG_ANNOUNCE_PEER => decoded AnnouncePeer (ants_dht_wire_decode_announce_peer_req buf)
  | ANTS_DHT_MSG_PING_RESP => decoded PingResp (ants_dht_wire_decode_ping_resp buf)
  | ANTS_DHT_MSG_FIND_NODE_RESP => decoded FindNodeResp (ants_dht_wire_decode_find_node_resp buf)
  | ANTS_DHT_MSG_GET_PEERS_RESP => decoded GetPeersResp (ants_dht_wire_decode_get_peers_resp buf)
  | ANTS_DHT_MSG_ANNOUNCE_PEER_RESP => decoded AnnouncePeerResp (ants_dht_wire_decode_announce_peer_resp buf)
  end.

(** The calls of each decoder, and the parser they compute. *)
Definition read_message (t : ants_dht_msg_type_t) : action ants_cbor_dec_t dht_message :=
  match t with
  | ANTS_DHT_MSG_PING => let* txid := head_only t in ret (Ping (mk_ping txid))
  | ANTS_DHT_MSG_FIND_NODE => let* m := read_find_node_req in ret (FindNode m)
  | ANTS_DHT_MSG_GET_PEERS => let* m := read_get_peers_req in ret (GetPeers m)
  | ANTS_DHT_MSG_ANNOUNCE_PEER => let* m := read_announce_peer_req in ret (AnnouncePeer m)
  | ANTS_DHT_MSG_PING_RESP => let* txid := head_only t in ret (PingResp (mk_pong txid))
  | ANTS_DHT_MSG_FIND_NODE_RESP => let* m := read_find_node_resp in ret (FindNodeResp m)
  | ANTS_DHT_MSG_GET_PEERS_RESP => let* m := read_get_peers_resp in ret (GetPeersResp m)
  | ANTS_DHT_MSG_ANNOUNCE_PEER_RESP => let* txid := head_only t in ret (AnnouncePeerResp (mk_acked txid))
  end.

Definition p_find_node_req : parser ants_dht_find_node_req_t :=
  p_bind (p_head_with_body ANTS_DHT_MSG_FIND_NODE) (fun txid => p_bind (p_expect_map 1) (fun _ =>
  p_bind (p_expect_text txt_target) (fun _ => p_bind (p_blob ANTS_PEER_ID_SIZE) (fun b => p_ret (mk_find txid b))))).
Definition p_find_node_resp : parser ants_dht_find_node_resp_t :=
  p_bind (p_head_with_body ANTS_DHT_MSG_FIND_NODE_RESP) (fun txid => p_bind (p_expect_map 1) (fun _ =>
  p_bind (p_expect_text txt_peers) (fun _ => p_bind p_peers_array (fun ps => p_ret (mk_found txid ps))))).
Definition p_get_peers_req : parser ants_dht_get_peers_req_t :=
  p_bind (p_head_with_body ANTS_DHT_MSG_GET_PEERS) (fun txid => p_bind (p_expect_map 1) (fun _ =>
  p_bind (p_expect_text txt_key) (fun _ => p_bind p_uint (fun key => p_ret (mk_getp txid key))))).
Definition p_get_peers_resp : parser ants_dht_get_peers_resp_t :=
  p_bind (p_head_with_body ANTS_DHT_MSG_GET_PEERS_RESP) (fun txid => p_bind (p_expect_map 2) (fun _ =>
  p_bind (p_expect_text txt_peers) (fun _ => p_bind p_peers_array (fun ps =>
  p_bind (p_expect_text txt_token) (fun _ => p_bind (p_blob ANTS_DHT_TOKEN_SIZE) (fun b => p_ret (mk_gotp txid ps b))))))).
Definition p_announce_peer_req : parser ants_dht_announce_peer_req_t :=
  p_bind (p_head_with_body ANTS_DHT_MSG_ANNOUNCE_PEER) (fun txid => p_bind (p_expect_map 2) (fun _ =>
  p_bind (p_expect_text txt_key) (fun _ => p_bind p_uint (fun key =>
  p_bind (p_expect_text txt_token) (fun _ => p_bind (p_blob ANTS_DHT_TOKEN_SIZE) (fun b => p_ret (mk_ann txid key b))))))).

Definition p_message (t : ants_dht_msg_type_t) : parser dht_message :=
  match t with
  | ANTS_DHT_MSG_PING => p_bind (p_head_only t) (fun txid => p_ret (Ping (mk_ping txid)))
  | ANTS_DHT_MSG_FIND_NODE => p_bind p_find_node_req (fun m => p_ret (FindNode m))
  | ANTS_DHT_MSG_GET_PEERS => p_bind p_get_peers_req (fun m => p_ret (GetPeers m))
  | ANTS_DHT_MSG_ANNOUNCE_PEER => p_bind p_announce_peer_req (fun m => p_ret (AnnouncePeer m))
  | ANTS_DHT_MSG_PING_RESP => p_bind (p_head_only t) (fun txid => p_ret (PingResp (mk_pong txid)))
  | ANTS_DHT_MSG_FIND_NODE_RESP => p_bind p_find_node_resp (fun m => p_ret (FindNodeResp m))
  | ANTS_DHT_MSG_GET_PEERS_RESP => p_bind p_get_peers_resp (fun m => p_ret (GetPeersResp m))
  | ANTS_DHT_MSG_ANNOUNCE_PEER_RESP => p_bind (p_head_only t) (fun txid => p_ret (AnnouncePeerResp (mk_acked txid)))
  end.

Lemma parses_message t : parses any_code (read_message t) (p_message t).
Proof.
  destruct t; cbn [read_message p_message]; try solve [wire_parse]; (apply parses_bind; [|intros m; apply parses_ret]);
    unfold read_find_node_req, p_find_node_req, read_get_peers_req, p_get_peers_req, read_announce_peer_req,
      p_announce_peer_req, read_find_node_resp, p_find_node_resp, read_get_peers_resp, p_get_peers_resp; wire_parse.
Qed.

(** Sizes only: the bytes are those of a well-formed document. *)
Definition peers_shape (ps : list ants_dht_peer_t) : Prop :=
  zlen ps <= ANTS_DHT_MAX_PEERS_PER_MSG /\ Forall peer_shape ps.
Definition body_shape (m : dht_message) : Prop :=
  match m with
  | FindNode m => zlen (find_target m) = ANTS_PEER_ID_SIZE
  | AnnouncePeer m => zlen (ann_token m) = ANTS_DHT_TOKEN_SIZE
  | FindNodeResp m => peers_shape (found_peers m)
  | GetPeersResp m => peers_shape (gotp_peers m) /\ zlen (gotp_token m) = ANTS_DHT_TOKEN_SIZE
  | _ => True
  end.

Lemma peers_shape_fields ps : peers_shape ps -> wf (peers_doc ps) -> peers_fields ps.
Proof.
  intros [Hn Hs] [_ Hw]%(proj1 (wf_array (map peer_doc ps))). split; [|done]. rewrite Forall_forall in Hs. rewrite Forall_forall in Hw.
  apply Forall_forall.  intros p Hp. destruct (Hs p Hp) as [Hi Ha]. specialize (Hw (peer_doc p) ltac:(apply list_elem_of_fmap; by exists p)).
  apply (proj1 (wf_map [(CText txt_id, CBytes (peer_id p)); (CText txt_addr, CText (multiaddr p))])) in Hw as (_ & _ & Hw').
  apply Forall_cons in Hw' as [[_ [Hb1 _]] Hw']. apply Forall_cons in Hw' as [[_ [Hb2 _]] _]. done.
Qed.

Lemma body_values m l : wf (message_doc m) -> body_of m = Some l -> Forall (fun p => wf p.1 /\ wf p.2) l.
Proof.
  intros Hw Hb. unfold message_doc, envelope_doc in Hw. rewrite Hb in Hw. apply wf_map in Hw as (_ & _ & Hw). cbn [app] in Hw.
  do 2 (apply Forall_cons in Hw as [_ Hw]). apply Forall_cons in Hw as [[_ Hw] _]. by apply (proj1 (wf_map l)) in Hw as (_ & _ & ?).
Qed.

Lemma shape_fields m : is_u32 (txid_of m) -> body_shape m -> wf (message_doc m) -> fields_ok m.
Proof.
  intros Hu Hs Hw. split; [done|]. pose proof (fun l => body_values m l Hw) as Hv. clear Hw.
  destruct m as [m|m|m|m|m|m|m|m]; cbn [body_of body_shape body_fields] in *; try done; specialize (Hv _ eq_refl);
    apply Forall_cons in Hv as [[_ Hv1] Hv]; cbn [snd] in Hv1; try (apply Forall_cons in Hv as [[_ Hv2] _]; cbn [snd] in Hv2).
  - split; [done|apply Hv1].
  - done.
  - split; [done|]. split; [done|apply Hv2].
  - by apply peers_shape_fields.
  - destruct Hs as [Hp Ht]. split; [by apply peers_shape_fields|]. split; [done|apply Hv2].
Qed.

(** The parser of a type takes the whole document of a message of this type,
    and gives the message with its addresses cut at their first NUL. *)
Lemma p_message_inv t items m : Forall wf items -> p_message t items = Some (m, []) ->
  exists raw, is_u32 (txid_of raw) /\ body_shape raw /\ type_of_message raw = t /\ items = [message_doc raw] /\ m = cut raw.
Proof.
  intros Hwf H. destruct t; cbn [p_message] in H; apply p_bind_inv in H as (x & cs1 & H & [= <- ->]).
  - apply p_head_only_inv in H as [Hu ->]; [|done]. by exists (Ping (mk_ping x)).
  - apply p_body_inv in H as (txid & l & r & Hu & -> & Hl & H); [|done].
    apply p_bind_inv in H as ([] & cs2 & E%p_expect_text_iff & H).
    apply p_bind_inv in H as (b & cs3 & [-> Hb]%p_blob_iff & [= <- ->]).
    apply zlen_1 in Hl as ([k v] & ->). cbn in E. injection E as -> -> ->. by exists (FindNode (mk_find txid b)).
  - apply p_body_inv in H as (txid & l & r & Hu & -> & Hl & H); [|done].
    apply p_bind_inv in H as ([] & cs2 & E%p_expect_text_iff & H).
    apply p_bind_inv in H as (b & cs3 & ->%p_uint_iff & [= <- ->]).
    apply zlen_1 in Hl as ([k v] & ->). cbn in E. injection E as -> -> ->. by exists (GetPeers (mk_getp txid b)).
  - apply p_body_inv in H as (txid & l & r & Hu & -> & Hl & H); [|done].
    apply p_bind_inv in H as ([] & cs2 & E%p_expect_text_iff & H).
    apply p_bind_inv in H as (b & cs3 & ->%p_uint_iff & H).
    apply p_bind_inv in H as ([] & cs4 & ->%p_expect_text_iff & H).
    apply p_bind_inv in H as (tok & cs5 & [-> Hb]%p_blob_iff & [= <- ->]).
    apply zlen_2 in Hl as ([k v] & [k2 v2] & ->). cbn in E. injection E as -> -> -> -> ->.
    by exists (AnnouncePeer (mk_ann txid b tok)).
  - apply p_head_only_inv in H as [Hu ->]; [|done]. by exists (PingResp (mk_pong x)).
  - apply p_body_inv in H as (txid & l & r & Hu & -> & Hl & H); [|done].
    apply p_bind_inv in H as ([] & cs2 & E%p_expect_text_iff & H).
    apply p_bind_inv in H as (ps & cs3 & (raws & Hn & Hs & -> & ->)%p_peers_array_iff & [= <- ->]).
    apply zlen_1 in Hl as ([k v] & ->). cbn in E. injection E as -> -> ->. by exists (FindNodeResp (mk_found txid raws)).
  - apply p_body_inv in H as (txid & l & r & Hu & -> & Hl & H); [|done].
    apply p_bind_inv in H as ([] & cs2 & E%p_expect_text_iff & H).
    apply p_bind_inv in H as (ps & cs3 & (raws & Hn & Hs & -> & ->)%p_peers_array_iff & H).
    apply p_bind_inv in H as ([] & cs4 & ->%p_expect_text_iff & H).
    apply p_bind_inv in H as (tok & cs5 & [-> Hb]%p_blob_iff & [= <- ->]).
    apply zlen_2 in Hl as ([k v] & [k2 v2] & ->). cbn in E. injection E as -> -> -> -> ->.
    by exists (GetPeersResp (mk_gotp txid raws tok)).
  - apply p_head_only_inv in H as [Hu ->]; [|done]. by exists (AnnouncePeerResp (mk_acked x)).
Qed.

Lemma peers_fields_shape ps : peers_fields ps -> peers_shape ps.
Proof. intros [Hp Hn]. split; [done|]. eapply Forall_impl; [exact Hp|]. intros p ([Hi _] & _ & Ha). done. Qed.

Ltac text_key := erewrite (p_bind_some _ _ _ tt) by (by apply p_expect_text_iff).

Lemma p_message_some m : fields_ok m -> p_message (type_of_message m) [message_doc m] = Some (cut m, []).
Proof.
  intros [Hu Hf].
  destruct m as [[x]|[x b]|[x k]|[x k b]|[x]|[x ps]|[x ps b]|[x]]; cbn [type_of_message p_message];
    try (rewrite (p_bind_some _ _ _ x []) by (by apply p_only_some); done);
    cbn [body_fields find_target getp_key ann_key ann_token found_peers gotp_peers gotp_token] in Hf.
  - rewrite (p_bind_some _ _ _ (mk_find x b) []); [done|]. etransitivity; [by apply p_body_some|]. text_key.
    rewrite (p_bind_some _ _ _ b []) by (by apply p_blob_iff; destruct Hf). done.
  - rewrite (p_bind_some _ _ _ (mk_getp x k) []); [done|]. etransitivity; [by apply p_body_some|]. text_key. done.
  - rewrite (p_bind_some _ _ _ (mk_ann x k b) []); [done|]. etransitivity; [by apply p_body_some|]. text_key.
    erewrite (p_bind_some _ _ _ k) by (by apply p_uint_iff). text_key.
    rewrite (p_bind_some _ _ _ b []) by (by apply p_blob_iff; destruct Hf as [_ [? _]]). done.
  - rewrite (p_bind_some _ _ _ (mk_found x (map cut_peer ps)) []); [done|]. etransitivity; [by apply p_body_some|]. text_key.
    destruct (peers_fields_shape ps Hf) as [Hn Hs].
    rewrite (p_bind_some _ _ _ (map cut_peer ps) []) by (by apply p_peers_array_iff; exists ps). done.
  - rewrite (p_bind_some _ _ _ (mk_gotp x (map cut_peer ps) b) []); [done|]. etransitivity; [by apply p_body_some|]. text_key.
    destruct Hf as [Hp [Hb _]]. destruct (peers_fields_shape ps Hp) as [Hn Hs].
    erewrite (p_bind_some _ _ _ (map cut_peer ps)) by (apply p_peers_array_iff; by exists ps). text_key.
    rewrite (p_bind_some _ _ _ b []) by (by apply p_blob_iff). done.
Qed.

(** ** Memory safety *)

Ltac keep_calls :=
  lazymatch goal with
  | |- keeps1 (bind _ _) => apply keeps1_bind; [keep_calls|intros ?; keep_calls]
  | |- keeps1 (if _ then _ else _) => apply keeps1_if; keep_calls
  | |- keeps1 (match ?o with _ => _ end) => destruct o; keep_calls
  | |- keeps1 ?m => first [solve [auto with ants] | unfold_call m; keep_calls]
  end.

Lemma keeps1_peer : keeps1 decode_peer.
Proof. keep_calls. Qed.

Lemma keeps1_peers n : keeps1 (decode_peers n).
Proof.
  induction n as [|n IH]; cbn [decode_peers]; [auto with ants|].
  apply keeps1_bind; [exact keeps1_peer|]. intros p. apply keeps1_bind; [done|auto with ants].
Qed.

#[local] Hint Resolve keeps1_peers : ants.

Lemma keeps1_message t : keeps1 (read_message t).
Proof. destruct t; cbn [read_message]; keep_calls. Qed.

Lemma keeps1_peek : keeps1 peek_walk.
Proof. keep_calls. Qed.

(** ** The decoders *)

Lemma decode_message_run t buf : decode_message t buf = wire_decode buf (read_message t).
Proof.
  assert (Hd : forall A (f : A -> dht_message) m, decoded f (wire_decode buf m) = wire_decode buf (let* a := m in ret (f a))).
  { intros A f m. unfold wire_decode, decoded, bind. destruct (ants_cbor_dec_init _ _) as [? d|? ?| |]; try done.
    destruct (m d) as [d' a|d' e| |]; try done. cbn. by destruct (ants_cbor_dec_finalise d'). }
  assert (Hs : forall A (m m' : action ants_cbor_dec_t A), (forall d, m d = m' d) -> wire_decode buf m = wire_decode buf m').
  { intros A m m' He. unfold wire_decode, bind. destruct (ants_cbor_dec_init _ _); try done. by rewrite He. }
  destruct t; cbn [decode_message read_message]; (etransitivity; [apply Hd|]); apply Hs; intros d; try done;
    by rewrite bind_assoc.
Qed.

(** Every decoder on arbitrary bytes. *)
Lemma decode_message_exact t buf : bytes_ok buf -> zlen buf <= INT64_MAX ->
  match decode_message t buf with
  | Ok _ m => exists raw, fields_ok raw /\ type_of_message raw = t /\ buf = encode (message_doc raw) /\ m = cut raw
  | Err _ _ => forall raw, fields_ok raw -> type_of_message raw = t -> buf <> encode (message_doc raw)
  | UB | NoFuel => False
  end.
Proof.
  intros Hok Hb. rewrite decode_message_run. unfold wire_decode. destruct (dec_init_rep buf Hok Hb) as (d & Hd & Hrep). rewrite Hd.
  assert (Hi : dec_inv buf d) by (exists [], buf, []; split; [done|]; split; [by exists []|done]).
  assert (Honly : forall raw, fields_ok raw -> type_of_message raw = t -> buf = encode (message_doc raw) ->
    exists d', read_message t d = Ok d' (cut raw) /\ ants_cbor_dec_finalise d' = Ok d' tt).
  { intros raw Hf <- He. destruct (at_init buf [message_doc raw]) as (d0 & Hd0 & Hat); try done.
    - unfold encodes. cbn [map concat]. by rewrite app_nil_r.
    - constructor; [by apply message_doc_wf|constructor].
    - assert (d0 = d) as -> by congruence. pose proof (parses_message (type_of_message raw) d _ Hat) as Hp.
      rewrite p_message_some in Hp by done. destruct Hp as (d' & Hm & Hat'). exists d'. split; [done|by apply at_finalise]. }
  pose proof (keeps1_message t buf d Hi) as Hk. unfold bind. destruct (read_message t d) as [d' m|d' e| |] eqn:E; try done.
  - destruct (ants_cbor_dec_finalise d') as [d'' []|d'' e| |] eqn:Ef; try (unfold ants_cbor_dec_finalise in Ef; by repeat case_match).
    + assert (d'' = d') as -> by (unfold ants_cbor_dec_finalise in Ef; repeat case_match; congruence).
      destruct (inv_finalise buf d' d' Hk Ef) as (items & Hit & ->). fold (encodes items) in *.
      destruct (at_init (encodes items) items) as (d0 & Hd0 & Hat); try done. assert (d0 = d) as -> by congruence.
      pose proof (parses_message t d items Hat) as Hp. destruct (p_message t items) as [[m' cs']|] eqn:Epm.
      2: { destruct Hp as (? & ? & ? & _). congruence. }
      destruct Hp as (d1 & Hm1 & Hat1). assert (d1 = d' /\ m' = m) as [-> ->] by (split; congruence).
      rewrite (at_finalise_inv d' d' cs' Hat1 Ef) in Epm.
      assert (Hwf : Forall wf items) by (eapply Forall_impl; [exact Hit|]; by intros ? [? _]).
      destruct (p_message_inv t items m Hwf Epm) as (raw & Hu & Hs & Hty & -> & ->). exists raw.
      split; [apply shape_fields; [done..|]; by apply Forall_cons in Hwf as [? _]|]. split; [done|]. split; [|done].
      unfold encodes. cbn [map concat]. by rewrite app_nil_r.
    + intros raw Hf Hty He. destruct (Honly raw Hf Hty He) as (d1 & Hm & Hfin). assert (d1 = d') as -> by congruence. congruence.
  - intros raw Hf Hty He. destruct (Honly raw Hf Hty He) as (d1 & Hm & _). congruence.
Qed.

(** ** Encoders with too little room *)

(** When [m] succeeds it has appended [item], whatever room there was. *)
Definition appends (m : action ants_cbor_enc_t unit) (item : bytes) : Prop :=
  forall e pre fs, enc_rep e pre fs ->
  match m e with
  | Ok e' _ => enc_cap e' = enc_cap e /\ exists fs', enc_rep e' (pre ++ item) fs'
  | Err _ _ => True
  | UB | NoFuel => False
  end.

Lemma appends_post m item :
  (forall e pre fs, enc_rep e pre fs -> enc_post item e pre fs (m e)) -> appends m item.
Proof.
  intros H e pre fs Hrep. specialize (H e pre fs Hrep). unfold enc_post in H.
  destruct (m e); try done. destruct H as (fs' & _ & ? & ?). split; [done|by exists fs'].
Qed.

Lemma appends_open m st n head :
  (forall e pre fs, enc_rep e pre fs -> enc_post_open st n head e pre fs (m e)) -> appends m head.
Proof.
  intros H e pre fs Hrep. specialize (H e pre fs Hrep). unfold enc_post_open in H.
  destruct (m e); try done. destruct H as (_ & ? & ?). split; [done|by eexists].
Qed.

Lemma appends_then m k item item' : appends m item -> appends k item' -> appends (m ;* k) (item ++ item').
Proof.
  intros Hm Hk e pre fs Hrep. specialize (Hm e pre fs Hrep). unfold bind. destruct (m e) as [e' ?|? ?| |]; try done.
  destruct Hm as (Hc & fs' & Hrep'). specialize (Hk e' _ _ Hrep'). destruct (k e') as [e'' ?|? ?| |]; try done.
  destruct Hk as (Hc' & fs'' & Hr). split; [congruence|]. exists fs''. by rewrite app_assoc.
Qed.

Lemma appends_seq {A} (f : A -> action ants_cbor_enc_t unit) g l :
  Forall (fun x => appends (f x) (g x)) l -> appends (seq_actions (map f l)) (concat (map g l)).
Proof.
  induction 1 as [|x l Hx _ IH]; cbn [map concat].
  - intros e pre fs Hrep. rewrite app_nil_r. cbn. split; [done|by exists fs].
  - by apply appends_then.
Qed.

Lemma appends_head (m : action ants_cbor_enc_t unit) st n head :
  (forall e pre fs, enc_rep e pre fs ->
    if n =? 0 then enc_post head e pre fs (m e) else enc_post_open st n head e pre fs (m e)) -> appends m head.
Proof. intros H. destruct (n =? 0); [by apply appends_post|by eapply appends_open]. Qed.

Lemma appends_emit c : wf c -> appends (emit c) (encode c).
Proof.
  induction c as [v|n|b|b|l IH|l IH|t c IH|b|] using cbor_rect'; intros Hw; cbn [emit].
  - apply appends_post. intros. by apply enc_uint_spec.
  - apply appends_post. intros e pre fs Hr. cbn in Hw. pose proof (enc_int_spec (-1 - n) e pre fs ltac:(zlia) Hr) as H.
    replace (0 <=? -1 - n) with false in H by (symmetry; apply Z.leb_gt; zlia).
    by replace (-1 - (-1 - n)) with n in H by lia.
  - apply appends_post. intros. apply enc_bytes_spec; [apply Hw|done].
  - apply appends_post. intros. apply enc_text_spec; [apply Hw|done].
  - apply wf_array in Hw as [Hn Hw]. cbn [encode]. apply appends_then.
    + apply (appends_head _ FArr (zlen l)). intros e pre fs Hr. pose proof (zlen_nonneg l).
      pose proof (enc_array_spec (zlen l) e pre fs ltac:(zlia) Hr) as H'. destruct (Z.eqb_spec (zlen l) 0) as [E|]; [|done].
      rewrite E. by rewrite E in H'.
    + apply appends_seq. rewrite Forall_forall in IH. rewrite Forall_forall in Hw. apply Forall_forall. auto.
  - apply wf_map in Hw as (Hn & _ & Hw). cbn [encode]. apply appends_then.
    + apply (appends_head _ (FKey None) (zlen l)). intros e pre fs Hr. pose proof (zlen_nonneg l).
      pose proof (enc_map_spec (zlen l) e pre fs ltac:(zlia) Hr) as H'. destruct (Z.eqb_spec (zlen l) 0) as [E|]; [|done].
      rewrite E. by rewrite E in H'.
    + apply appends_seq. rewrite Forall_forall in IH. rewrite Forall_forall in Hw. apply Forall_forall.
      intros [k v] Hin. destruct (IH _ Hin) as [Hk Hv]. destruct (Hw _ Hin) as [Hwk Hwv]. by apply appends_then; auto.
  - destruct Hw as [Ht Hw]. cbn [encode]. apply appends_then; [|by apply IH].
    eapply appends_open. intros. by apply enc_tag_spec.
  - apply appends_post. intros. by apply enc_bool_spec.
  - apply appends_post. intros. by apply enc_null_spec.
Qed.

(** An encoder that emits a document returns it if it fits and fails if not. *)
Lemma document_or_error c m buf cap :
  readable c -> (forall e, m e = emit c e) -> 0 < cap <= zlen buf -> zlen buf <= INT64_MAX ->
  if zlen (encode c) <=? cap
  then exists buf', with_encoder cap m buf = Ok buf' (zlen (encode c)) /\ take (length (encode c)) buf' = encode c
  else exists buf' e, with_encoder cap m buf = Err buf' e.
Proof.
  intros Hr Hm Hc Hb. destruct (Z.leb_spec (zlen (encode c)) cap) as [Hfit|Hno]; [apply emits_document; done || lia|].
  destruct (enc_init_rep buf cap Hc Hb) as (e0 & He0 & Hrep & Hcap & _). unfold with_encoder. rewrite He0.
  pose proof (appends_emit c (proj1 Hr) e0 [] [] Hrep) as Ha. unfold bind. rewrite Hm.
  destruct (emit c e0) as [e ?|e err| |]; try done; [|by do 2 eexists].
  destruct Ha as (Hc' & fs' & ((_ & _ & Hpos & _) & _)). cbn [app] in Hpos. lia.
Qed.

(** ** Sizes *)

Lemma concat_size {A} (f : A -> bytes) n l : Forall (fun x => zlen (f x) <= n) l -> zlen (concat (map f l)) <= zlen l * n.
Proof.
  induction 1 as [|x l Hx _ IH]; [done|]. cbn [map concat]. rewrite zlen_app, zlen_cons. lia.
Qed.

Definition short_addresses (n : Z) (ps : list ants_dht_peer_t) : Prop := Forall (fun p => zlen (multiaddr p) <= n) ps.

Lemma peer_doc_size p n : peer_fields p -> zlen (multiaddr p) <= n -> zlen (encode (peer_doc p)) <= 46 + n.
Proof.
  intros ([Hi _] & _ & Ha) Hn. unfold ANTS_PEER_ID_SIZE, ANTS_MULTIADDR_MAX_LEN in *. unfold peer_doc.
  change (encode (CMap [(CText txt_id, CBytes (peer_id p)); (CText txt_addr, CText (multiaddr p))])) with
    ([162] ++ ([98; 105; 100] ++ encode_head 2 (zlen (peer_id p)) ++ peer_id p) ++
     (([100] ++ txt_addr) ++ encode_head 3 (zlen (multiaddr p)) ++ multiaddr p) ++ []).
  rewrite Hi, !zlen_app. pose proof (head_size_u16 3 (zlen (multiaddr p)) ltac:(lia)).
  change (zlen (encode_head 2 32)) with 2. change (zlen [98; 105; 100]) with 3. change (zlen (A := Z) []) with 0.
  change (zlen [162]) with 1. change (zlen [100]) with 1. change (zlen txt_addr) with 4. lia.
Qed.

Lemma peers_doc_size ps n : peers_fields ps -> 0 <= n -> short_addresses n ps -> zlen (encode (peers_doc ps)) <= 1 + 20 * (46 + n).
Proof.
  intros [Hp Hk] H0 Hs. unfold ANTS_DHT_MAX_PEERS_PER_MSG, ANTS_DHT_K in Hk. unfold peers_doc. cbn [encode].
  rewrite zlen_app, zlen_map, head_size_tiny, map_map by lia.
  enough (zlen (concat (map (fun p => encode (peer_doc p)) ps)) <= zlen ps * (46 + n)) by (pose proof (zlen_nonneg ps); nia).
  apply concat_size. rewrite Forall_forall in Hp. unfold short_addresses in Hs. rewrite Forall_forall in Hs.
  apply Forall_forall. intros p Hin. apply peer_doc_size; auto.
Qed.

Lemma encode_map l : encode (CMap l) = encode_head 5 (zlen l) ++ encode_pairs l.
Proof. reflexivity. Qed.

Lemma scalar_size s : zlen s <= 32 -> zlen (encode (CBytes s)) <= 41.
Proof. intros H. cbn [encode]. rewrite zlen_app. pose proof (head_size 2 (zlen s)). lia. Qed.

Lemma uint_size v : zlen (encode (CUint v)) <= 9.
Proof. apply head_size. Qed.

Lemma encode_pairs_nil : zlen (encode_pairs []) = 0.
Proof. reflexivity. Qed.

Lemma body_size m l n : fields_ok m -> 0 <= n -> short_addresses n (peers_of m) -> body_of m = Some l ->
  zlen (encode (CMap l)) <= 56 + 20 * (46 + n).
Proof.
  intros [_ Hf] Hn Hs Hb.
  change (zlen (encode (CMap l))) with (zlen (encode_head 5 (zlen l) ++ encode_pairs l)).
  destruct m as [m|m|m|m|m|m|m|m]; cbn [body_of body_fields peers_of] in *; try done; injection Hb as <-;
    rewrite !encode_pairs_cons, !zlen_app, encode_pairs_nil, head_size_tiny by (unfold zlen; cbn; lia);
    change (zlen (encode (CText txt_target))) with 7; change (zlen (encode (CText txt_peers))) with 6;
    change (zlen (encode (CText txt_key))) with 4; change (zlen (encode (CText txt_token))) with 6.
  - destruct Hf as [Hf _]. unfold ANTS_PEER_ID_SIZE in Hf. pose proof (scalar_size (find_target m) ltac:(lia)). lia.
  - pose proof (uint_size (getp_key m)). lia.
  - destruct Hf as [_ [Hf _]]. unfold ANTS_DHT_TOKEN_SIZE in Hf. pose proof (scalar_size (ann_token m) ltac:(lia)).
    pose proof (uint_size (ann_key m)). lia.
  - pose proof (peers_doc_size _ n Hf Hn Hs). lia.
  - destruct Hf as [Hp [Hf _]]. unfold ANTS_DHT_TOKEN_SIZE in Hf. pose proof (scalar_size (gotp_token m) ltac:(lia)).
    pose proof (peers_doc_size _ n Hp Hn Hs). lia.
Qed.

(** Every message is small when its addresses are. *)
Lemma message_size m n : fields_ok m -> 0 <= n -> short_addresses n (peers_of m) ->
  zlen (encode (message_doc m)) <= 76 + 20 * (46 + n).
Proof.
  intros Hf Hn Hs. pose proof (body_size m) as Hbody. unfold message_doc, envelope_doc.
  pose proof (type_value_range (type_of_message m)). pose proof (uint_size (txid_of m)).
  assert (Ht : zlen (encode (CUint (msg_type_value (type_of_message m)))) = 1) by (apply head_size_tiny; lia).
  destruct (body_of m) as [l|]; cbn [app].
  - specialize (Hbody l n Hf Hn Hs eq_refl).
    match goal with |- zlen (encode (CMap ?k)) <= _ => change (encode (CMap k)) with (encode_head 5 (zlen k) ++ encode_pairs k) end.
    rewrite !encode_pairs_cons, !zlen_app, encode_pairs_nil, head_size_tiny by (unfold zlen; cbn; lia).
    change (zlen (encode (CUint 0))) with 1. change (zlen (encode (CUint 1))) with 1. change (zlen (encode (CUint 2))) with 1. lia.
  - match goal with |- zlen (encode (CMap ?k)) <= _ => change (encode (CMap k)) with (encode_head 5 (zlen k) ++ encode_pairs k) end.
    rewrite !encode_pairs_cons, !zlen_app, encode_pairs_nil, head_size_tiny by (unfold zlen; cbn; lia).
    change (zlen (encode (CUint 0))) with 1. change (zlen (encode (CUint 1))) with 1. lia.
Qed.

Lemma any_addresses m : fields_ok m -> short_addresses 255 (peers_of m).
Proof.
  intros [_ Hf]. assert (Hp : forall ps, peers_fields ps -> short_addresses 255 ps).
  { intros ps [H _]. eapply Forall_impl; [exact H|]. intros p (_ & _ & Ha). unfold ANTS_MULTIADDR_MAX_LEN in Ha. lia. }
  destruct m; cbn in *; try (by apply Forall_nil); apply Hp; tauto.
Qed.

Lemma message_readable m : fields_ok m -> readable (message_doc m).
Proof.
  intros Hf. destruct (message_doc_wf m Hf) as [Hw Hh]. split; [done|]. split; [done|].
  pose proof (message_size m 255 Hf ltac:(lia) (any_addresses m Hf)). zlia.
Qed.

(** ** The encoders *)

Lemma encode_message_run cap m buf : fields_ok m -> encode_message cap m buf = with_encoder cap (message_body m) buf.
Proof.
  intros [_ Hf]. assert (Hp : forall ps, peers_fields ps -> (ANTS_DHT_MAX_PEERS_PER_MSG <? zlen ps) = false)
    by (intros ps [_ H]; by apply Z.ltb_ge).
  destruct m as [m|m|m|m|m|m|m|m]; try done; cbn in Hf; cbn [encode_message message_body].
  - unfold ants_dht_wire_encode_find_node_resp. by rewrite Hp.
  - unfold ants_dht_wire_encode_get_peers_resp. by rewrite (Hp _ (proj1 Hf)).
Qed.

(** The encoder writes the document if it fits and fails if it does not. *)
Lemma encode_message_exact cap m buf : fields_ok m -> 0 < cap <= zlen buf -> zlen buf <= INT64_MAX ->
  if zlen (encode (message_doc m)) <=? cap
  then exists buf', encode_message cap m buf = Ok buf' (zlen (encode (message_doc m))) /\
    take (length (encode (message_doc m))) buf' = encode (message_doc m)
  else exists buf' e, encode_message cap m buf = Err buf' e.
Proof.
  intros Hf Hc Hb. rewrite encode_message_run by done. apply document_or_error; [|apply message_emit|done..].
  by apply message_readable.
Qed.

(** ** The type of a message *)

Lemma peek_message m : fields_ok m -> ants_dht_wire_peek_type (encode (message_doc m)) = Ok tt (type_of_message m).
Proof.
  intros Hf. pose proof (message_readable m Hf) as (Hw & Hh & Hs). unfold ants_dht_wire_peek_type.
  destruct (at_init (encode (message_doc m)) [message_doc m]) as (d & -> & Hat); try done.
  - by apply encode_ok.
  - unfold encodes. cbn [map concat]. by rewrite app_nil_r.
  - constructor; [done|constructor].
  - unfold message_doc, envelope_doc in Hat. destruct (at_map _ _ _ Hat) as (d1 & Hd1 & Hat1). unfold peek_walk.
    rewrite (bind_Ok _ _ _ _ _ Hd1). rewrite flat_app in Hat1. cbn [flat map concat app fst snd] in Hat1.
    destruct (at_read _ CUint _ _ _ reader_uint Hat1) as (d2 & Hd2 & Hat2).
    destruct (at_read _ CUint _ _ _ reader_uint Hat2) as (d3 & Hd3 & _).
    match goal with |- context [negb (?n =? 2) && negb (?n =? 3)] =>
      replace (negb (n =? 2) && negb (n =? 3)) with false by (by destruct (body_of m)) end.
    unfold expect_uint, bind. rewrite Hd2. cbn. rewrite Hd3. by destruct (type_of_message m).
Qed.

Lemma peek_total buf : bytes_ok buf -> zlen buf <= INT64_MAX ->
  (exists t, ants_dht_wire_peek_type buf = Ok tt t) \/ (exists e, ants_dht_wire_peek_type buf = Err tt e).
Proof.
  intros Hok Hb. destruct (dec_init_rep buf Hok Hb) as (d & Hd & Hrep). unfold ants_dht_wire_peek_type. rewrite Hd.
  assert (Hi : dec_inv buf d) by (exists [], buf, []; split; [done|]; split; [by exists []|done]).
  pose proof (keeps1_peek buf d Hi) as Hk. destruct (peek_walk d); try done; [left|right]; by eexists.
Qed.

Lemma message_unique m m' : fields_ok m -> fields_ok m' -> encode (message_doc m) = encode (message_doc m') ->
  type_of_message m = type_of_message m'.
Proof.
  intros Hm Hm' He. pose proof (peek_message m Hm) as H1. pose proof (peek_message m' Hm') as H2. congruence.
Qed.

Lemma same_bytes_cut m m' : fields_ok m -> fields_ok m' -> encode (message_doc m) = encode (message_doc m') -> cut m = cut m'.
Proof.
  intros Hm Hm' He. pose proof (message_unique m m' Hm Hm' He) as Ht.
  destruct (encode_prefix_free (message_doc m) (message_doc m') [] []) as [Hd _];
    [by apply message_doc_wf..|by rewrite !app_nil_r|].
  pose proof (p_message_some m Hm) as H1. pose proof (p_message_some m' Hm') as H2. rewrite Hd, Ht in H1. congruence.
Qed.

(** ** What the wire format guarantees *)

(** C17: The decoders of the eight messages accept, on arbitrary bytes,
    exactly the canonical encodings of the documented maps with fields of the
    documented types and sizes; they return the message, each address up to
    its first NUL; everything else is refused with an error, and no input
    makes them read outside the buffer. *)
Theorem dht_wire_strict t buf : bytes_ok buf -> zlen buf <= INT64_MAX ->
  match decode_message t buf with
  | Ok _ m => exists raw, fields_ok raw /\ type_of_message raw = t /\ buf = encode (message_doc raw) /\ m = cut raw
  | Err _ _ => forall raw, fields_ok raw -> type_of_message raw = t -> buf <> encode (message_doc raw)
  | UB | NoFuel => False
  end.
Proof. apply decode_message_exact. Qed.

Definition demo_peer_id : bytes := 1 :: replicate 31 0.
Definition demo_found : ants_dht_find_node_resp_t := mk_found 7 [mk_peer demo_peer_id [47; 105]].
(** The response on the wire, with a NUL inside the address. *)
Definition demo_bytes : bytes :=
  [163; 0; 6; 1; 7; 2; 161; 101] ++ txt_peers ++ [129; 162; 98; 105; 100; 88; 32] ++ demo_peer_id ++
  [100; 97; 100; 100; 114; 99; 47; 0; 105].

Lemma dht_wire_strict_witness :
  decode_message ANTS_DHT_MSG_FIND_NODE_RESP demo_bytes = Ok tt (FindNodeResp (mk_found 7 [mk_peer demo_peer_id [47]])) /\
  exists raw, fields_ok raw /\ type_of_message raw = ANTS_DHT_MSG_FIND_NODE_RESP /\ demo_bytes = encode (message_doc raw) /\
    FindNodeResp (mk_found 7 [mk_peer demo_peer_id [47]]) = cut raw.
Proof.
  assert (E : decode_message ANTS_DHT_MSG_FIND_NODE_RESP demo_bytes = Ok tt (FindNodeResp (mk_found 7 [mk_peer demo_peer_id [47]])))
    by (vm_compute; reflexivity).
  split; [exact E|]. pose proof (dht_wire_strict ANTS_DHT_MSG_FIND_NODE_RESP demo_bytes ltac:(by_decision) ltac:(by_decision)) as H.
  rewrite E in H. exact H.
Defined.

(** C40: Every message whose fields have their types survives the wire: when
    the buffer has room for the documented map the encoder writes its
    canonical bytes, the dispatcher's look at the first items finds the type,
    and the decoder of that type returns the message, and the decoders of
    the other types refuse it; when there is no room the encoder reports an
    error. *)
Theorem dht_wire_roundtrip m cap buf : message_ok m -> 0 < cap <= zlen buf -> zlen buf <= INT64_MAX ->
  if zlen (encode (message_doc m)) <=? cap
  then exists buf' n, encode_message cap m buf = Ok buf' n /\
    ants_dht_wire_peek_type (take (Z.to_nat n) buf') = Ok tt (type_of_message m) /\
    decode_message (type_of_message m) (take (Z.to_nat n) buf') = Ok tt m /\
    forall t, t <> type_of_message m -> exists e, decode_message t (take (Z.to_nat n) buf') = Err tt e
  else exists buf' e, encode_message cap m buf = Err buf' e.
Proof.
  intros Hm Hc Hb. pose proof Hm as [Hf _]. pose proof (encode_message_exact cap m buf Hf Hc Hb) as He.
  destruct (Z.leb_spec (zlen (encode (message_doc m))) cap) as [Hfit|]; [|done]. destruct He as (buf' & Hrun & Ht).
  exists buf', (zlen (encode (message_doc m))). split; [done|]. rewrite zlen_to_nat, Ht. split; [by apply peek_message|].
  pose proof (message_readable m Hf) as (Hw & _ & Hs).
  assert (Hex : forall t, match decode_message t (encode (message_doc m)) with
    | Ok _ m' => exists raw, fields_ok raw /\ type_of_message raw = t /\ encode (message_doc m) = encode (message_doc raw) /\ m' = cut raw
    | Err _ _ => t <> type_of_message m | UB | NoFuel => False end).
  { intros t. pose proof (decode_message_exact t (encode (message_doc m)) ltac:(by apply encode_ok) Hs) as H.
    destruct (decode_message t _); try done. intros ->. by apply (H m Hf). }
  split.
  - specialize (Hex (type_of_message m)). destruct (decode_message _ _) as [[] m'|[] e| |]; try done.
    destruct Hex as (raw & Hr & _ & E & ->). f_equal. rewrite <- (same_bytes_cut m raw Hf Hr E). by apply cut_ok.
  - intros t Hne. specialize (Hex t). destruct (decode_message _ _) as [[] m'|[] e| |]; try done; [|by exists e].
    destruct Hex as (raw & Hr & <- & E & _). destruct Hne. symmetry. by apply message_unique.
Qed.

Definition demo_announce : dht_message := AnnouncePeer (mk_ann 9 1000 (replicate 16 5)).

Lemma dht_wire_roundtrip_witness : exists buf' n, encode_message 64 demo_announce (replicate 64 0) = Ok buf' n /\
  decode_message ANTS_DHT_MSG_ANNOUNCE_PEER (take (Z.to_nat n) buf') = Ok tt demo_announce.
Proof.
  destruct (dht_wire_roundtrip demo_announce 64 (replicate 64 0)) as (buf' & n & He & _ & Hd & _).
  - split; [|by apply Forall_nil]. split; [by_decision|]. split; by_decision.
  - split; by_decision.
  - by_decision.
  - exists buf', n. split; [exact He|exact Hd].
Defined.
