(* ===== verification/DhtServer.v ===== *)
(** * The server side of the DHT (src/network/dht/src/dht_server.c)

    Peer-initiated streams are bound to one of 32 slots, their bytes collected
    until FIN, and the request answered on the same stream; announcements are
    kept in 32 records.  [ants_dht_announce] and [ants_dht_unannounce] (dht.c)
    keep the node's own announcements and write the same records.  Handles of
    connections and streams are numbers; the clock and the transport's answers
    (whether a stream is bidirectional, the listen address) are arguments,
    [malloc] is a sequence of booleans, and what is asked of the transport is
    appended to [calls]. *)

From S2P Require Import Prelude Cbor Crypto Dht DhtWire.
Import Dht DhtWire.

Module DhtServer.

Definition DHT_SERVER_RESP_BUF_SIZE : Z := 4096.
Definition ANTS_DHT_MAX_INBOUND_STREAMS : nat := 32.
Definition ANTS_DHT_INBOUND_RECV_CAP : Z := 4096.
Definition ANTS_DHT_MAX_ANNOUNCES : nat := 32.
Definition ANTS_DHT_MAX_LOCAL_ANNOUNCES : nat := 16.

(** ** Data *)

(** [recv_buf] holds the bytes received so far; its capacity [recv_cap] is
    [ANTS_DHT_INBOUND_RECV_CAP] when it is allocated. *)
Record ants_dht_inbound_stream : Type := mk_inbound {
  i_in_use : bool; i_conn : Z; i_stream : Z; i_peer_id : bytes; recv_buf : option bytes
}.

Record ants_dht_announce : Type := mk_announce {
  a_in_use : bool; shard_key : Z; announcer : ants_dht_peer_t; a_last_seen_us : Z
}.

Record ants_dht_local_announce : Type := mk_local {
  l_in_use : bool; confirmed_this_cycle : bool; l_shard_key : Z; last_republished_at_us : Z
}.

(** The fields of [struct ants_dht_state] the server works on. *)
Record dht_server : Type := mk_server {
  table : ants_dht_state; inbound_streams : list ants_dht_inbound_stream; announces : list ants_dht_announce;
  local_announces : list ants_dht_local_announce; server_secret : bytes
}.

Inductive transport_call : Type :=
| StreamSend (stream : Z) (data : bytes) (fin : bool)
| StreamReset (stream : Z) (code : Z).

Record server_world : Type := mk_sworld { server : dht_server; mallocs : list bool; calls : list transport_call }.

(** [NULL] handles of a zeroed slot are 0. *)
Definition free_slot : ants_dht_inbound_stream := mk_inbound false 0 0 (replicate 32 0) None.
Definition free_announce : ants_dht_announce := mk_announce false 0 (mk_peer (replicate 32 0) []) 0.
Definition free_local : ants_dht_local_announce := mk_local false false 0 0.

(** ** State access *)

Definition with_table (t : ants_dht_state) (s : dht_server) : dht_server :=
  mk_server t (inbound_streams s) (announces s) (local_announces s) (server_secret s).
Definition with_inbound (l : list ants_dht_inbound_stream) (s : dht_server) : dht_server :=
  mk_server (table s) l (announces s) (local_announces s) (server_secret s).
Definition with_announces (l : list ants_dht_announce) (s : dht_server) : dht_server :=
  mk_server (table s) (inbound_streams s) l (local_announces s) (server_secret s).
Definition with_locals (l : list ants_dht_local_announce) (s : dht_server) : dht_server :=
  mk_server (table s) (inbound_streams s) (announces s) l (server_secret s).

Definition get_server : action server_world dht_server := fun w => Ok w (server w).
Definition update_server (f : dht_server -> dht_server) : action server_world unit := fun w =>
  Ok (mk_sworld (f (server w)) (mallocs w) (calls w)) tt.
Definition malloc_ok : action server_world bool := fun w =>
  match mallocs w with
  | [] => Ok w true
  | b :: r => Ok (mk_sworld (server w) r (calls w)) b
  end.
Definition call_transport (c : transport_call) : action server_world unit := fun w =>
  Ok (mk_sworld (server w) (mallocs w) (calls w ++ [c])) tt.

(** [&state->inbound_streams[i]] and a store through it. *)
Definition slot_at (i : nat) : action server_world ants_dht_inbound_stream :=
  let* s := get_server in deref (inbound_streams s !! i).
Definition put_slot (i : nat) (x : ants_dht_inbound_stream) : action server_world unit :=
  update_server (fun s => with_inbound (<[i := x]> (inbound_streams s)) s).

(** A call whose state is the caller's own frame. *)
Definition in_frame {A} (o : outcome unit A) : action server_world A := fun w =>
  match o with
  | Ok _ a => Ok w a
  | Err _ e => Err w e
  | UB => UB
  | NoFuel => NoFuel
  end.

(** ** The registry of inbound streams *)

Fixpoint find_index {A} (f : A -> bool) (i : nat) (l : list A) : option nat :=
  match l with
  | [] => None
  | x :: r => if f x then Some i else find_index f (S i) r
  end.

Definition bound_to (stream : Z) (x : ants_dht_inbound_stream) : bool := i_in_use x && (i_stream x =? stream).

Definition inbound_find_by_stream (s : dht_server) (stream : Z) : option nat :=
  find_index (bound_to stream) 0 (inbound_streams s).

Definition inbound_alloc (conn stream : Z) (peer : bytes) : action server_world unit :=
  let* s := get_server in
  match find_index (fun x => negb (i_in_use x)) 0 (inbound_streams s) with
  | Some i => put_slot i (mk_inbound true conn stream peer None)
  | None => ret tt
  end.

Definition inbound_release (i : nat) : action server_world unit := put_slot i free_slot.

(** ** Tokens *)

Section handlers.
Context `{B : Blake3}.

Definition blake3_of (b : bytes) : action server_world bytes := in_frame (ants_blake3_hash (Some b) (zlen b)).

Definition ants_dht_server_compute_token (peer : bytes) : action server_world bytes :=
  let* s := get_server in
  let* hash := blake3_of (server_secret s ++ peer) in
  ret (take 16 hash).

(** [diff |= expected[i] ^ token[i]] *)
Fixpoint diff_loop (diff : Z) (expected token : bytes) : Z :=
  match expected, token with
  | x :: e, y :: t => diff_loop (Z.lor diff (u8 (Z.lxor x y))) e t
  | _, _ => diff
  end.

Definition token_is_valid (peer token : bytes) : action server_world bool :=
  let* expected := ants_dht_server_compute_token peer in
  ret (diff_loop 0 expected token =? 0).

(** ** The announce set *)

Definition same_announce (key : Z) (id : bytes) (a : ants_dht_announce) : bool :=
  a_in_use a && (shard_key a =? key) && (memcmp (peer_id (announcer a)) id =? 0).

(** The loop for the smallest [last_seen_us] from index [i] on. *)
Fixpoint oldest_scan (i oldest : nat) (seen : Z) (l : list ants_dht_announce) : nat :=
  match l with
  | [] => oldest
  | a :: r => if a_last_seen_us a <? seen then oldest_scan (S i) i (a_last_seen_us a) r else oldest_scan (S i) oldest seen r
  end.

Definition oldest_announce (l : list ants_dht_announce) : nat :=
  match l with
  | [] => 0%nat
  | a :: r => oldest_scan 1 0 (a_last_seen_us a) r
  end.

Definition upsert_slot (key : Z) (id : bytes) (l : list ants_dht_announce) : nat :=
  match find_index (same_announce key id) 0 l with
  | Some i => i
  | None =>
    match find_index (fun a => negb (a_in_use a)) 0 l with
    | Some i => i
    | None => oldest_announce l
    end
  end.

Definition ants_dht_server_upsert_announce (key : Z) (p : ants_dht_peer_t) (now : Z) : action server_world unit :=
  update_server (fun s => with_announces (<[upsert_slot key (peer_id p) (announces s) := mk_announce true key p now]> (announces s)) s).

Fixpoint lookup_loop (key : Z) (count : nat) (l : list ants_dht_announce) : list ants_dht_peer_t :=
  match l with
  | [] => []
  | a :: r =>
    if (count <? ANTS_DHT_K)%nat then
      if a_in_use a && (shard_key a =? key) then announcer a :: lookup_loop key (S count) r else lookup_loop key count r
    else []
  end.

Definition announce_lookup (s : dht_server) (key : Z) : list ants_dht_peer_t := lookup_loop key 0 (announces s).

(** ** The handlers of the four requests

    The result is what [resp_buf] holds up to [*out_resp_len]. *)

(** The array is uninitialised in C and only written to. *)
Definition resp_array : bytes := replicate (Z.to_nat DHT_SERVER_RESP_BUF_SIZE) 0.

Definition encoded (m : action bytes Z) : action server_world bytes := fun w =>
  match m resp_array with
  | Ok buf n => Ok w (take (Z.to_nat n) buf)
  | Err _ e => Err w e
  | UB => UB
  | NoFuel => NoFuel
  end.

Definition handle_ping (req : bytes) : action server_world bytes :=
  let* m := in_frame (ants_dht_wire_decode_ping_req req) in
  encoded (ants_dht_wire_encode_ping_resp DHT_SERVER_RESP_BUF_SIZE (mk_pong (ping_txid m))).

Definition handle_find_node (req : bytes) : action server_world bytes :=
  let* m := in_frame (ants_dht_wire_decode_find_node_req req) in
  let* s := get_server in
  let* peers := deref (find_kclosest_peers (table s) (find_target m)) in
  encoded (ants_dht_wire_encode_find_node_resp DHT_SERVER_RESP_BUF_SIZE (mk_found (find_txid m) peers)).

(** The eight bytes [(uint8_t)((req.key >> (i * 8)) & 0xFFu)]. *)
Definition key_le (key : Z) : bytes := map (fun i => u8 (Z.land (Z.shiftr key (Z.of_nat i * 8)) 255)) (seq 0 8).

Definition handle_get_peers (peer req : bytes) : action server_world bytes :=
  let* m := in_frame (ants_dht_wire_decode_get_peers_req req) in
  let* s := get_server in
  let announced := announce_lookup s (getp_key m) in
  let* peers :=
    (if zlen announced =? 0 then
       let* target := blake3_of (key_le (getp_key m)) in
       deref (find_kclosest_peers (table s) target)
     else ret announced) in
  let* token := ants_dht_server_compute_token peer in
  encoded (ants_dht_wire_encode_get_peers_resp DHT_SERVER_RESP_BUF_SIZE (mk_gotp (getp_txid m) peers token)).

Definition handle_announce_peer (peer req : bytes) (now : Z) : action server_world bytes :=
  let* m := in_frame (ants_dht_wire_decode_announce_peer_req req) in
  let* valid := token_is_valid peer (ann_token m) in
  (if valid then ants_dht_server_upsert_announce (ann_key m) (mk_peer peer []) now else ret tt) ;*
  encoded (ants_dht_wire_encode_announce_peer_resp DHT_SERVER_RESP_BUF_SIZE (mk_acked (ann_txid m))).

(** ** Dispatch *)

(** The code of a handler decides between response and reset. *)
Definition respond (stream : Z) (handler : action server_world bytes) : action server_world unit := fun w =>
  match handler w with
  | Ok w' data => call_transport (StreamSend stream data true) w'
  | Err w' _ => call_transport (StreamReset stream 2) w'
  | UB => UB
  | NoFuel => NoFuel
  end.

Definition process_fin (i : nat) (now : Z) : action server_world unit :=
  let* slot := slot_at i in
  match recv_buf slot with
  | None | Some [] => inbound_release i
  | Some req =>
    match ants_dht_wire_peek_type req with
    | Ok _ ANTS_DHT_MSG_PING => respond (i_stream slot) (handle_ping req) ;* inbound_release i
    | Ok _ ANTS_DHT_MSG_FIND_NODE => respond (i_stream slot) (handle_find_node req) ;* inbound_release i
    | Ok _ ANTS_DHT_MSG_GET_PEERS => respond (i_stream slot) (handle_get_peers (i_peer_id slot) req) ;* inbound_release i
    | Ok _ ANTS_DHT_MSG_ANNOUNCE_PEER =>
      respond (i_stream slot) (handle_announce_peer (i_peer_id slot) req now) ;* inbound_release i
    | Ok _ _ => call_transport (StreamReset (i_stream slot) 1) ;* inbound_release i
    | Err _ _ => inbound_release i
    | UB => fun _ => UB
    | NoFuel => fun _ => NoFuel
    end
  end.

(** ** Transport events *)

Inductive event_kind : Type :=
| ANTS_TRANSPORT_EV_CONN_READY
| ANTS_TRANSPORT_EV_CONN_CLOSED
| ANTS_TRANSPORT_EV_STREAM_OPENED
| ANTS_TRANSPORT_EV_STREAM_READABLE
| ANTS_TRANSPORT_EV_STREAM_FIN
| ANTS_TRANSPORT_EV_STREAM_RESET
| ANTS_TRANSPORT_EV_STREAM_WRITABLE.

(** [ev_bidi] is what [ants_transport_stream_is_bidi] says of the stream; an
    empty payload is [NULL] or has length 0. *)
Record ants_transport_event_t : Type := mk_event {
  ev_kind : event_kind; ev_conn : Z; ev_stream : option Z; ev_bidi : bool; ev_peer_id : bytes; ev_payload : bytes
}.

Definition release_of_conn (conn : Z) (x : ants_dht_inbound_stream) : ants_dht_inbound_stream :=
  if i_in_use x && (i_conn x =? conn) then free_slot else x.

Definition with_recv (b : option bytes) (x : ants_dht_inbound_stream) : ants_dht_inbound_stream :=
  mk_inbound (i_in_use x) (i_conn x) (i_stream x) (i_peer_id x) b.

(** Append to the bytes [held] of the slot. *)
Definition accumulate (i : nat) (slot : ants_dht_inbound_stream) (held payload : bytes) : action server_world unit :=
  if size_sub ANTS_DHT_INBOUND_RECV_CAP (zlen held) <? zlen payload then inbound_release i
  else put_slot i (with_recv (Some (held ++ payload)) slot).

Definition on_readable (i : nat) (payload : bytes) : action server_world unit :=
  if zlen payload =? 0 then ret tt
  else
    let* slot := slot_at i in
    match recv_buf slot with
    | Some held => accumulate i slot held payload
    | None =>
      let* ok := malloc_ok in
      if negb ok then inbound_release i else accumulate i slot [] payload
    end.

Definition ants_dht_server_handle_event (ev : ants_transport_event_t) (now : Z) : action server_world unit :=
  match ev_kind ev with
  | ANTS_TRANSPORT_EV_CONN_CLOSED =>
    update_server (fun s => with_inbound (map (release_of_conn (ev_conn ev)) (inbound_streams s)) s)
  | k =>
    match ev_stream ev with
    | None => ret tt
    | Some stream =>
      let* s := get_server in
      match k, inbound_find_by_stream s stream with
      | ANTS_TRANSPORT_EV_STREAM_OPENED, found =>
        if negb (ev_bidi ev) then ret tt
        else match found with Some _ => ret tt | None => inbound_alloc (ev_conn ev) stream (ev_peer_id ev) end
      | _, None => ret tt
      | ANTS_TRANSPORT_EV_STREAM_READABLE, Some i => on_readable i (ev_payload ev)
      | ANTS_TRANSPORT_EV_STREAM_FIN, Some i => process_fin i now
      | ANTS_TRANSPORT_EV_STREAM_RESET, Some i => inbound_release i
      | _, Some _ => ret tt
      end
    end
  end.

Definition ants_dht_server_drop_all : action server_world unit :=
  update_server (fun s => with_inbound (map (fun x => if i_in_use x then free_slot else x) (inbound_streams s)) s).

(** ** The node's own announcements (dht.c) *)

Definition announced_locally (key : Z) (l : ants_dht_local_announce) : bool := l_in_use l && (l_shard_key l =? key).

(** [listen_addr] is what [ants_transport_local_addr] writes. *)
Definition ants_dht_announce_shard (key : Z) (listen_addr : bytes) (now : Z) : action server_world unit :=
  let* s := get_server in
  if existsb (announced_locally key) (local_announces s) then ret tt
  else
    match find_index (fun l => negb (l_in_use l)) 0 (local_announces s) with
    | None => fail ANTS_ERROR_BUFFER_TOO_SMALL
    | Some i =>
      update_server (fun s => with_locals (<[i := mk_local true false key 0]> (local_announces s)) s) ;*
      ants_dht_server_upsert_announce key (mk_peer (local_peer_id (table s)) listen_addr) now
    end.

Definition drop_local (key : Z) (l : ants_dht_local_announce) : ants_dht_local_announce :=
  if announced_locally key l then mk_local false (confirmed_this_cycle l) (l_shard_key l) (last_republished_at_us l) else l.
Definition drop_own (key : Z) (id : bytes) (a : ants_dht_announce) : ants_dht_announce :=
  if same_announce key id a then mk_announce false (shard_key a) (announcer a) (a_last_seen_us a) else a.

Definition ants_dht_unannounce (key : Z) : action server_world unit :=
  update_server (fun s => with_locals (map (drop_local key) (local_announces s)) s) ;*
  update_server (fun s => with_announces (map (drop_own key (local_peer_id (table s))) (announces s)) s).

(** ** Start *)

(** The parts of [ants_dht_init] the server works on. *)
Definition server_init (t : ants_dht_state) : action server_world unit := fun w =>
  match ants_blake3_hash (Some (local_peer_id t)) (zlen (local_peer_id t)) with
  | Ok _ secret =>
    Ok (mk_sworld (mk_server t (replicate ANTS_DHT_MAX_INBOUND_STREAMS free_slot)
      (replicate ANTS_DHT_MAX_ANNOUNCES free_announce) (replicate ANTS_DHT_MAX_LOCAL_ANNOUNCES free_local) secret)
      (mallocs w) (calls w)) tt
  | Err _ _ => UB
  | UB => UB
  | NoFuel => NoFuel
  end.
End handlers.
End DhtServer.
