(* ===== verification/DhtServerThms.v ===== *)
(** * The server side of the DHT: invariant, answers, announcements

    Every event is handled, whatever bytes the peers send; requests are
    answered as documented; every announcement in the store was made with the
    token of its peer, on a stream the transport had opened for that peer. *)

From S2P Require Import Prelude Cbor CborSpec CborContract CborRecord CborParse Crypto Merkle Dht DhtClosest DhtOps.
From S2P Require Import DhtSteps DhtReach DhtWire DhtWireThms DhtServer.

Import Dht DhtWire DhtServer.

#[local] Arguments zlen {A} l : simpl never.

(** ** Searching *)

Lemma find_index_some {A} (f : A -> bool) l : forall i j, find_index f i l = Some j ->
  exists x, (i <= j)%nat /\ l !! (j - i)%nat = Some x /\ f x = true.
Proof.
  induction l as [|x l IH]; intros i j H; [done|]. cbn [find_index] in H. destruct (f x) eqn:E.
  - injection H as ->. exists x. by rewrite Nat.sub_diag.
  - destruct (IH _ _ H) as (y & Hij & Hy & Hf). exists y. split; [lia|]. split; [|done].
    by replace (j - i)%nat with (S (j - S i)) by lia.
Qed.

Lemma find_index_none {A} (f : A -> bool) l : forall i, find_index f i l = None -> Forall (fun x => f x = false) l.
Proof.
  induction l as [|x l IH]; intros i H; [constructor|]. cbn [find_index] in H. destruct (f x) eqn:E; [done|].
  constructor; [done|by apply (IH (S i))].
Qed.

Lemma find_index_0 {A} (f : A -> bool) l j : find_index f 0 l = Some j -> exists x, l !! j = Some x /\ f x = true.
Proof. intros H. apply find_index_some in H as (x & _ & Hx & Hf). rewrite Nat.sub_0_r in Hx. by exists x. Qed.

(** ** Well-formed records *)

Definition peer_ok (p : ants_dht_peer_t) : Prop := peer_fields p.

(** The routing table, with addresses that fit their arrays. *)
Definition table_good (t : ants_dht_state) : Prop :=
  table_ok t /\ Forall (fun e => peer_ok (e_peer e)) (all_entries t).

Definition slot_ok (x : ants_dht_inbound_stream) : Prop :=
  id_ok (i_peer_id x) /\
  match recv_buf x with Some b => bytes_ok b /\ zlen b <= ANTS_DHT_INBOUND_RECV_CAP | None => True end.

Definition announce_ok (a : ants_dht_announce) : Prop :=
  peer_ok (announcer a) /\ is_u64 (shard_key a) /\ is_u64 (a_last_seen_us a).

(** Who announced what. *)
Definition pair_of (a : ants_dht_announce) : Z * bytes := (shard_key a, peer_id (announcer a)).

(** In-use elements with the same key are the same element. *)
Definition distinct_by {A K} (used : A -> bool) (key : A -> K) (l : list A) : Prop :=
  forall i j x y, l !! i = Some x -> l !! j = Some y -> used x = true -> used y = true -> key x = key y -> i = j.

Record server_ok (s : dht_server) : Prop := {
  so_table : table_good (table s);
  so_slots : length (inbound_streams s) = ANTS_DHT_MAX_INBOUND_STREAMS;
  so_slot : Forall slot_ok (inbound_streams s);
  so_streams : distinct_by i_in_use i_stream (inbound_streams s);
  so_records : length (announces s) = ANTS_DHT_MAX_ANNOUNCES;
  so_record : Forall announce_ok (announces s);
  so_pairs : distinct_by a_in_use pair_of (announces s);
  so_locals : length (local_announces s) = ANTS_DHT_MAX_LOCAL_ANNOUNCES;
  so_secret : zlen (server_secret s) = 32 /\ bytes_ok (server_secret s)
}.

Lemma distinct_by_insert {A K} (used : A -> bool) (key : A -> K) l i x :
  distinct_by used key l ->
  (forall j y, l !! j = Some y -> used y = true -> used x = true -> key y = key x -> j = i) ->
  distinct_by used key (<[i := x]> l).
Proof.
  intros Hd Hx j k y z Hj Hk Hy Hz He.
  apply list_lookup_insert_Some in Hj as [(<- & <- & _)|[Hij Hj]], Hk as [(<- & <- & _)|[Hik Hk]].
  - done.
  - symmetry. by apply (Hx k z).
  - by apply (Hx j y).
  - by apply (Hd j k y z).
Qed.

Lemma distinct_by_map {A K} (used : A -> bool) (key : A -> K) f l :
  distinct_by used key l -> (forall x, used (f x) = true -> used x = true /\ key (f x) = key x) ->
  distinct_by used key (map f l).
Proof.
  intros Hd Hf i j x y Hi Hj Hx Hy He. change (map f l) with (f <$> l) in Hi, Hj. rewrite list_lookup_fmap in Hi, Hj.
  destruct (l !! i) as [x0|] eqn:Ei; [|done]. destruct (l !! j) as [y0|] eqn:Ej; [|done].
  injection Hi as <-. injection Hj as <-. destruct (Hf _ Hx) as [Hux Hkx]. destruct (Hf _ Hy) as [Huy Hky].
  apply (Hd i j x0 y0); try done. congruence.
Qed.

Lemma free_slot_ok : slot_ok free_slot.
Proof. split; [by_decision|done]. Qed.

Lemma free_announce_ok : announce_ok free_announce.
Proof. split; [split; [by_decision|split; by_decision]|split; by_decision]. Qed.

(** ** The announce set *)

Lemma same_announce_iff key id a : peer_ok (announcer a) -> id_ok id ->
  same_announce key id a = true <-> a_in_use a = true /\ pair_of a = (key, id).
Proof.
  intros ([Hl _] & _) [Hi _]. unfold same_announce, pair_of. rewrite (memcmp_eq (peer_id (announcer a)) id) by lia.
  rewrite !andb_true_iff, Z.eqb_eq, bool_decide_eq_true. split; [intros [[? ->] ->]; done|intros [? [= -> ->]]; done].
Qed.

Lemma oldest_scan_range l : forall i o seen, (o < i)%nat -> (oldest_scan i o seen l < i + length l)%nat.
Proof.
  induction l as [|a l IH]; intros i o seen Ho; cbn [oldest_scan length]; [lia|].
  destruct (_ <? _); [pose proof (IH (S i) i (a_last_seen_us a) ltac:(lia))|pose proof (IH (S i) o seen ltac:(lia))]; lia.
Qed.

(** The record the scan ends at is no younger than any other. *)
Lemma oldest_scan_least l : forall pre o a, pre !! o = Some a ->
  Forall (fun b => a_last_seen_us a <= a_last_seen_us b) pre ->
  exists a', (pre ++ l) !! oldest_scan (length pre) o (a_last_seen_us a) l = Some a' /\
    Forall (fun b => a_last_seen_us a' <= a_last_seen_us b) (pre ++ l).
Proof.
  induction l as [|b l IH]; intros pre o a Ho Hp; cbn [oldest_scan].
  { rewrite app_nil_r. by exists a. }
  assert (Hlen : length (pre ++ [b]) = S (length pre)) by (rewrite length_app; cbn; lia).
  destruct (Z.ltb_spec (a_last_seen_us b) (a_last_seen_us a)) as [Hlt|Hge].
  - destruct (IH (pre ++ [b]) (length pre) b) as (a' & Ha' & Hall).
    + by rewrite lookup_app_r, Nat.sub_diag by lia.
    + apply Forall_app. split; [|by constructor]. eapply Forall_impl; [exact Hp|]. cbn. intros. lia.
    + rewrite Hlen, <- app_assoc in *. by exists a'.
  - destruct (IH (pre ++ [b]) o a) as (a' & Ha' & Hall).
    + by apply lookup_app_l_Some.
    + apply Forall_app. split; [done|]. by constructor.
    + rewrite Hlen, <- app_assoc in *. by exists a'.
Qed.

Lemma oldest_announce_least l : l <> [] ->
  exists a, l !! oldest_announce l = Some a /\ Forall (fun b => a_last_seen_us a <= a_last_seen_us b) l.
Proof.
  destruct l as [|a l]; [done|]. intros _. apply (oldest_scan_least l [a] 0 a); [done|]. by repeat constructor.
Qed.

(** Where an announcement goes: its own record, else a free one, else the
    oldest. *)
Lemma upsert_slot_spec key id l : l <> [] -> Forall announce_ok l -> id_ok id ->
  exists a, l !! upsert_slot key id l = Some a /\
    ((a_in_use a = true /\ pair_of a = (key, id)) \/
     (forall b, b ∈ l -> a_in_use b = true -> pair_of b <> (key, id)) /\
     (a_in_use a = false \/
      Forall (fun b => a_in_use b = true) l /\ Forall (fun b => a_last_seen_us a <= a_last_seen_us b) l)).
Proof.
  intros Hne Hok Hid. unfold upsert_slot. destruct (find_index (same_announce key id) 0 l) as [i|] eqn:Ef.
  - apply find_index_0 in Ef as (a & Ha & Hs). exists a. split; [done|]. left. apply same_announce_iff in Hs; [done| |done].
    by apply (proj1 (Forall_lookup _ _) Hok i a Ha).
  - apply find_index_none in Ef.
    assert (Hno : forall b, b ∈ l -> a_in_use b = true -> pair_of b <> (key, id)).
    { intros b Hb Hu Hp. rewrite Forall_forall in Ef. specialize (Ef b Hb). rewrite Forall_forall in Hok.
      destruct (Hok b Hb) as [Hpo _]. assert (same_announce key id b = true) by (by apply same_announce_iff). congruence. }
    destruct (find_index _ 0 l) as [i|] eqn:Eg.
    + apply find_index_0 in Eg as (a & Ha & Hu%negb_true_iff). exists a. split; [done|]. right. split; [done|by left].
    + apply find_index_none in Eg. destruct (oldest_announce_least l Hne) as (a & Ha & Hl). exists a. split; [done|].
      right. split; [done|]. right. split; [|done]. eapply Forall_impl; [exact Eg|]. intros b Hb. by apply negb_false_iff in Hb.
Qed.

Definition upserted_announces (key : Z) (p : ants_dht_peer_t) (now : Z) (l : list ants_dht_announce) : list ants_dht_announce :=
  <[upsert_slot key (peer_id p) l := mk_announce true key p now]> l.

Lemma upsert_ok s key p now : server_ok s -> peer_ok p -> is_u64 key -> is_u64 now ->
  server_ok (with_announces (upserted_announces key p now (announces s)) s).
Proof.
  intros Hs Hp Hk Hn. destruct Hs as [Ht Hsl Hso Hst Hr Hro Hpa Hlo Hse].
  destruct (upsert_slot_spec key (peer_id p) (announces s)) as (a & Ha & Hcase); [by intros E; rewrite E in Hr|done|apply Hp|].
  split; cbn [table inbound_streams announces local_announces server_secret with_announces]; try done.
  - unfold upserted_announces. by rewrite length_insert.
  - by apply Forall_insert.
  - apply distinct_by_insert; [done|]. intros j b Hb Hu _ He. change (pair_of b = (key, peer_id p)) in He.
    destruct Hcase as [[Hua Hpa']|[Hno _]]; [by apply (Hpa j _ b a); congruence|].
    destruct (Hno b); [by apply list_elem_of_lookup_2 with j|done..].
Qed.

Lemma lookup_loop_found key l : forall n,
  lookup_loop key n l = take (ANTS_DHT_K - n) (map announcer (filter (fun a => a_in_use a && (shard_key a =? key) = true) l)).
Proof.
  induction l as [|a l IH]; intros n; [by destruct (ANTS_DHT_K - n)%nat|]. cbn [lookup_loop].
  destruct (Nat.ltb_spec n ANTS_DHT_K) as [Hn|Hn].
  - destruct (a_in_use a && (shard_key a =? key)) eqn:E.
    + rewrite filter_cons_True by done. cbn [map]. rewrite IH. by replace (ANTS_DHT_K - n)%nat with (S (ANTS_DHT_K - S n)) by lia.
    + rewrite filter_cons_False by congruence. apply IH.
  - by replace (ANTS_DHT_K - n)%nat with 0%nat by lia.
Qed.

(** The peers that announced a shard, in the order of their records. *)
Definition announcers (s : dht_server) (key : Z) : list ants_dht_peer_t :=
  map announcer (filter (fun a => a_in_use a && (shard_key a =? key) = true) (announces s)).

Lemma announce_lookup_eq s key : announce_lookup s key = take ANTS_DHT_K (announcers s key).
Proof. apply lookup_loop_found. Qed.

Lemma announcers_ok s key : server_ok s -> Forall peer_ok (announcers s key).
Proof.
  intros Hs. apply Forall_forall. intros p (a & -> & [_ Ha]%list_elem_of_filter)%list_elem_of_fmap.
  pose proof (so_record _ Hs) as Hr. rewrite Forall_forall in Hr. by destruct (Hr a Ha).
Qed.

(** ** The answers *)

Section answers.
Context `{B : Blake3} {Laws : Blake3Laws B}.

Definition token_of (secret peer : bytes) : bytes := take 16 (digest (secret ++ peer)).

Lemma blake3_run b w : b <> [] -> blake3_of b w = Ok w (digest b).
Proof.
  intros Hb. assert (zlen b <> 0) by (intros Hz; apply zlen_O in Hz; done). pose proof (zlen_nonneg b).
  unfold blake3_of, in_frame, ants_blake3_hash. cbn [is_null andb]. bdecide. by rewrite slice_all.
Qed.

Lemma token_size secret peer : zlen (token_of secret peer) = ANTS_DHT_TOKEN_SIZE.
Proof using Laws.
  unfold token_of. pose proof (digest_size (secret ++ peer)) as H. unfold ANTS_BLAKE3_HASH_SIZE in H.
  unfold zlen in *. rewrite length_take. unfold ANTS_DHT_TOKEN_SIZE. lia.
Qed.

Lemma digest_bytes b : bytes_ok (digest b).
Proof using Laws. apply finalize_bytes. Qed.

Lemma token_good secret peer : token_ok (token_of secret peer).
Proof using Laws. split; [apply token_size|]. apply Forall_take, digest_bytes. Qed.

Lemma token_run peer w : zlen (server_secret (server w)) = 32 ->
  ants_dht_server_compute_token peer w = Ok w (token_of (server_secret (server w)) peer).
Proof.
  intros Hs. unfold ants_dht_server_compute_token, get_server, bind. rewrite blake3_run; [done|].
  intros [E _]%app_eq_nil. by rewrite E in Hs.
Qed.

(** The accumulated difference is zero when there is none. *)
Lemma diff_loop_zero e : forall t d, bytes_ok e -> bytes_ok t -> length e = length t -> 0 <= d ->
  diff_loop d e t = 0 <-> d = 0 /\ e = t.
Proof.
  induction e as [|x e IH]; intros [|y t] d He Ht Hl Hd; try done; cbn [diff_loop]; [tauto|].
  apply Forall_cons in He as [Hx He]. apply Forall_cons in Ht as [Hy Ht].
  assert (Hxy : is_u8 (Z.lxor x y)) by (by apply (lxor_bound x y 8)). unfold u8. rewrite Z.mod_small by exact Hxy.
  rewrite IH; [|done|done|by injection Hl|apply Z.lor_nonneg; split; [done|apply Hxy]].
  rewrite Z.lor_eq_0_iff, Z.lxor_eq_0_iff. split; [by intros [[-> ->] ->]|by intros [-> [= -> ->]]].
Qed.

Lemma token_valid_run peer token w : token_ok token -> zlen (server_secret (server w)) = 32 ->
  token_is_valid peer token w = Ok w (bool_decide (token = token_of (server_secret (server w)) peer)).
Proof using Laws.
  intros [Hl Hb] Hs. unfold token_is_valid. rewrite (bind_Ok _ _ _ _ _ (token_run peer w Hs)). unfold ret. f_equal.
  set (t := token_of _ _). pose proof (token_good (server_secret (server w)) peer) as [Htl Htb]. fold t in Htl, Htb.
  assert (Hlen : length t = length token) by (unfold zlen in *; lia).
  pose proof (diff_loop_zero t token 0 Htb Hb Hlen ltac:(lia)) as Hd.
  destruct (Z.eqb_spec (diff_loop 0 t token) 0) as [E|E]; symmetry; [apply bool_decide_eq_true|apply bool_decide_eq_false].
  - by apply Hd in E as [_ ->].
  - intros ->. by apply E, Hd.
Qed.

(** ** Responses *)

Lemma encoded_run m w : fields_ok m ->
  if zlen (encode (message_doc m)) <=? DHT_SERVER_RESP_BUF_SIZE
  then encoded (encode_message DHT_SERVER_RESP_BUF_SIZE m) w = Ok w (encode (message_doc m))
  else exists e, encoded (encode_message DHT_SERVER_RESP_BUF_SIZE m) w = Err w e.
Proof.
  intros Hf. assert (Ha : zlen resp_array = DHT_SERVER_RESP_BUF_SIZE) by (unfold resp_array, zlen; rewrite length_replicate; done).
  pose proof (encode_message_exact DHT_SERVER_RESP_BUF_SIZE m resp_array Hf) as H. rewrite Ha in H.
  specialize (H ltac:(by unfold DHT_SERVER_RESP_BUF_SIZE) ltac:(by_decision)). unfold encoded.
  destruct (_ <=? _).
  - destruct H as (buf' & -> & Ht). by rewrite zlen_to_nat, Ht.
  - destruct H as (buf' & e & ->). by exists e.
Qed.

(** What the transport is asked to do with a response. *)
Definition response_call (stream : Z) (m : dht_message) : transport_call :=
  if zlen (encode (message_doc m)) <=? DHT_SERVER_RESP_BUF_SIZE
  then StreamSend stream (encode (message_doc m)) true else StreamReset stream 2.

Definition called (c : transport_call) (w : server_world) : server_world := mk_sworld (server w) (mallocs w) (calls w ++ [c]).

(** A handler that ends by encoding [m]. *)
Lemma respond_encoded stream (h : action server_world bytes) m w w' :
  fields_ok m -> h w = encoded (encode_message DHT_SERVER_RESP_BUF_SIZE m) w' ->
  respond stream h w = Ok (called (response_call stream m) w') tt.
Proof.
  intros Hf Hh. unfold respond, response_call. rewrite Hh. pose proof (encoded_run m w' Hf) as H.
  destruct (_ <=? _); [by rewrite H|]. destruct H as [e ->]. done.
Qed.

Lemma respond_error stream (h : action server_world bytes) w e :
  h w = Err w e -> respond stream h w = Ok (called (StreamReset stream 2) w) tt.
Proof. intros Hh. unfold respond. by rewrite Hh. Qed.

(** ** The requests *)

Definition closest_known (s : dht_server) (target : bytes) (ps : list ants_dht_peer_t) : Prop :=
  closest_of peer_id target (map e_peer (all_entries (table s))) ps.

Lemma kclosest_run t target : table_good t -> id_ok target ->
  exists ps, find_kclosest_peers t target = Some ps /\ closest_of peer_id target (map e_peer (all_entries t)) ps /\ peers_fields ps.
Proof.
  intros [Ht Hp] Htg. pose proof (stored_ids _ (to_buckets _ Ht)) as Hids. unfold find_kclosest_peers.
  rewrite closest_peers_select.
  destruct (select_closest peer_id target (map e_peer (all_entries t)) (replicate ANTS_DHT_K (mk_peer [] [], [])))
    as (top & n & -> & Hc); [done|by apply Forall_map|done|]. eexists. split; [done|]. split; [done|].
  destruct Hc as (Hl & _ & rest & Hperm & _). split.
  - apply (Forall_app _ _ rest). rewrite <- Hperm. by apply Forall_map.
  - unfold ANTS_DHT_MAX_PEERS_PER_MSG, zlen. lia.
Qed.

(** The documented answer to a request of [peer]. *)
Definition answers_with (s : dht_server) (peer : bytes) (req reply : dht_message) : Prop :=
  match req, reply with
  | Ping m, PingResp r => pong_txid r = ping_txid m
  | FindNode m, FindNodeResp r => found_txid r = find_txid m /\ closest_known s (find_target m) (found_peers r)
  | GetPeers m, GetPeersResp r =>
    gotp_txid r = getp_txid m /\ gotp_token r = token_of (server_secret s) peer /\
    (if decide (announcers s (getp_key m) = []) then closest_known s (digest (key_le (getp_key m))) (gotp_peers r)
     else gotp_peers r = take ANTS_DHT_K (announcers s (getp_key m)))
  | AnnouncePeer m, AnnouncePeerResp r => acked_txid r = ann_txid m
  | _, _ => False
  end.

(** What a request of [peer] does to the announcements. *)
Definition announces_after (s : dht_server) (peer : bytes) (req : dht_message) (now : Z) : list ants_dht_announce :=
  match req with
  | AnnouncePeer m =>
    if bool_decide (ann_token m = token_of (server_secret s) peer)
    then upserted_announces (ann_key m) (mk_peer peer []) now (announces s) else announces s
  | _ => announces s
  end.

Definition stored (l : list ants_dht_announce) (w : server_world) : server_world :=
  mk_sworld (with_announces l (server w)) (mallocs w) (calls w).

(** The handler of each request. *)
Definition handler_of (t : ants_dht_msg_type_t) (peer req : bytes) (now : Z) : option (action server_world bytes) :=
  match t with
  | ANTS_DHT_MSG_PING => Some (handle_ping req)
  | ANTS_DHT_MSG_FIND_NODE => Some (handle_find_node req)
  | ANTS_DHT_MSG_GET_PEERS => Some (handle_get_peers peer req)
  | ANTS_DHT_MSG_ANNOUNCE_PEER => Some (handle_announce_peer peer req now)
  | _ => None
  end.

Lemma decoded_inv {A} (f : A -> dht_message) o u m : decoded f o = Ok u m -> exists a, o = Ok u a /\ m = f a.
Proof. destruct o; try done. intros [= -> <-]. by eexists. Qed.
Lemma decoded_err {A} (f : A -> dht_message) o u e : decoded f o = Err u e -> o = Err u e.
Proof. destruct o; try done. by intros [= -> ->]. Qed.

Lemma handler_error t peer req now h w e : handler_of t peer req now = Some h -> decode_message t req = Err tt e -> h w = Err w e.
Proof.
  intros Hh Hd. destruct t; try done; injection Hh as <-; apply decoded_err in Hd;
    unfold handle_ping, handle_find_node, handle_get_peers, handle_announce_peer, bind, in_frame; by rewrite Hd.
Qed.

Lemma announced_peers s key : server_ok s -> peers_fields (take ANTS_DHT_K (announcers s key)).
Proof.
  intros Hs. split; [apply Forall_take; by apply announcers_ok|].
  unfold ANTS_DHT_MAX_PEERS_PER_MSG, zlen. rewrite length_take. lia.
Qed.

(** A handler that gets its request answers it. *)
Lemma handler_answers peer req now m h w : server_ok (server w) -> id_ok peer -> fields_ok m ->
  handler_of (type_of_message m) peer req now = Some h -> decode_message (type_of_message m) req = Ok tt m ->
  exists reply, fields_ok reply /\ answers_with (server w) peer m reply /\
    h w = encoded (encode_message DHT_SERVER_RESP_BUF_SIZE reply) (stored (announces_after (server w) peer m now) w).
Proof using Laws.
  intros Hs Hpeer Hf Hh Hd. pose proof (so_table _ Hs) as Ht. pose proof (proj1 (so_secret _ Hs)) as Hsec.
  assert (Hsame : stored (announces (server w)) w = w) by (by destruct w as [[] ? ?]).
  destruct m as [m|m|m|m|m|m|m|m]; try done; injection Hh as <-; cbn [type_of_message] in Hd;
    apply decoded_inv in Hd as (m' & Hd & [= <-]); cbn [announces_after]; rewrite ?Hsame.
  - exists (PingResp (mk_pong (ping_txid m))). split; [apply Hf|]. split; [done|].
    unfold handle_ping, bind, in_frame. by rewrite Hd.
  - destruct (kclosest_run (table (server w)) (find_target m) Ht) as (ps & Hps & Hc & Hfs); [apply Hf|].
    exists (FindNodeResp (mk_found (find_txid m) ps)). split; [split; [apply Hf|done]|]. split; [done|].
    unfold handle_find_node, bind, in_frame, get_server, deref. by rewrite Hd, Hps.
  - pose proof (announce_lookup_eq (server w) (getp_key m)) as Hl.
    unfold handle_get_peers. rewrite (bind_Ok _ _ w w m) by (unfold in_frame; by rewrite Hd).
    rewrite (bind_Ok _ _ w w (server w)) by done. cbv zeta. rewrite Hl.
    destruct (announcers (server w) (getp_key m)) as [|p ps] eqn:Ea.
    + destruct (kclosest_run (table (server w)) (digest (key_le (getp_key m))) Ht) as (ps & Hps & Hc & Hfs).
      { split; [apply digest_size|apply digest_bytes]. }
      exists (GetPeersResp (mk_gotp (getp_txid m) ps (token_of (server_secret (server w)) peer))).
      split; [split; [apply Hf|]; split; [done|apply token_good]|].
      split; [cbn; rewrite Ea; done|]. rewrite take_nil.
      replace (zlen (A := ants_dht_peer_t) [] =? 0) with true by done.
      rewrite (bind_Ok _ _ w w ps); [|rewrite (bind_Ok _ _ _ _ _ (blake3_run (key_le (getp_key m)) w ltac:(done))); unfold deref; by rewrite Hps].
      by rewrite (bind_Ok _ _ _ _ _ (token_run peer w Hsec)).
    + pose proof (announced_peers (server w) (getp_key m) Hs) as Hfs. rewrite Ea in Hfs.
      exists (GetPeersResp (mk_gotp (getp_txid m) (take ANTS_DHT_K (p :: ps)) (token_of (server_secret (server w)) peer))).
      split; [split; [apply Hf|]; split; [done|apply token_good]|]. split; [cbn; rewrite Ea; done|].
      replace (zlen (take ANTS_DHT_K (p :: ps)) =? 0) with false by done.
      rewrite (bind_Ok _ _ w w (take ANTS_DHT_K (p :: ps))) by done.
      by rewrite (bind_Ok _ _ _ _ _ (token_run peer w Hsec)).
  - exists (AnnouncePeerResp (mk_acked (ann_txid m))). split; [split; [apply Hf|done]|]. split; [done|].
    unfold handle_announce_peer. rewrite (bind_Ok _ _ w w m) by (unfold in_frame; by rewrite Hd).
    destruct Hf as [_ [_ Htok]]. rewrite (bind_Ok _ _ _ _ _ (token_valid_run peer (ann_token m) w Htok Hsec)).
    case_bool_decide; [done|by rewrite Hsame].
Qed.

Definition is_request (m : dht_message) : Prop :=
  match m with Ping _ | FindNode _ | GetPeers _ | AnnouncePeer _ => True | _ => False end.

Definition released (i : nat) (s : dht_server) : dht_server := with_inbound (<[i := free_slot]> (inbound_streams s)) s.

(** What the transport is asked to do about bytes that are no request: a
    stream that carries no envelope is left alone. *)
Definition refusal (slot : ants_dht_inbound_stream) : list transport_call :=
  match recv_buf slot with
  | None | Some [] => []
  | Some req =>
    match ants_dht_wire_peek_type req with
    | Ok _ (ANTS_DHT_MSG_PING | ANTS_DHT_MSG_FIND_NODE | ANTS_DHT_MSG_GET_PEERS | ANTS_DHT_MSG_ANNOUNCE_PEER) =>
      [StreamReset (i_stream slot) 2]
    | Ok _ _ => [StreamReset (i_stream slot) 1]
    | _ => []
    end
  end.

(** What the end of a request does. *)
Inductive fin_effect (s : dht_server) (slot : ants_dht_inbound_stream) (now : Z) : list ants_dht_announce -> list transport_call -> Prop :=
| fin_answered m reply : is_request m -> fields_ok m -> recv_buf slot = Some (encode (message_doc m)) ->
    fields_ok reply -> answers_with s (i_peer_id slot) m reply ->
    fin_effect s slot now (announces_after s (i_peer_id slot) m now) [response_call (i_stream slot) reply]
| fin_refused : (forall m, is_request m -> fields_ok m -> recv_buf slot <> Some (encode (message_doc m))) ->
    fin_effect s slot now (announces s) (refusal slot).

Lemma release_run i w : inbound_release i w = Ok (mk_sworld (released i (server w)) (mallocs w) (calls w)) tt.
Proof. reflexivity. Qed.

Lemma stored_same w : stored (announces (server w)) w = w.
Proof. by destruct w as [[] ? ?]. Qed.

Lemma cut_request m : is_request m -> cut m = m.
Proof. by destruct m. Qed.

Lemma request_handler m peer req now : is_request m -> exists h, handler_of (type_of_message m) peer req now = Some h.
Proof. destruct m; try done; intros _; by eexists. Qed.

Lemma handler_request t peer req now h m : handler_of t peer req now = Some h -> type_of_message m = t -> is_request m.
Proof. by destruct m; intros H <-. Qed.

Definition finished (i : nat) (l : list ants_dht_announce) (cs : list transport_call) (w : server_world) : server_world :=
  mk_sworld (released i (with_announces l (server w))) (mallocs w) (calls w ++ cs).

Lemma refusal_request slot t req peer now h : recv_buf slot = Some req -> req <> [] ->
  ants_dht_wire_peek_type req = Ok tt t -> handler_of t peer req now = Some h ->
  refusal slot = [StreamReset (i_stream slot) 2].
Proof. intros Hreq Hne Hpk Hh. unfold refusal. rewrite Hreq. destruct req; [done|]. cbv beta iota. rewrite Hpk. by destruct t. Qed.

(** A handler runs to its end, and the slot is free again. *)
Lemma handler_run i slot t req now h w : server_ok (server w) -> slot_ok slot -> recv_buf slot = Some req -> req <> [] ->
  ants_dht_wire_peek_type req = Ok tt t -> handler_of t (i_peer_id slot) req now = Some h ->
  exists l cs, (respond (i_stream slot) h ;* inbound_release i) w = Ok (finished i l cs w) tt /\ fin_effect (server w) slot now l cs.
Proof using Laws.
  intros Hs [Hid Hbuf] Hreq Hne Hpk Hh. rewrite Hreq in Hbuf. destruct Hbuf as [Hok Hlen].
  assert (Hsize : zlen req <= INT64_MAX) by (unfold ANTS_DHT_INBOUND_RECV_CAP in Hlen; zlia).
  pose proof (decode_message_exact t req Hok Hsize) as Hd.
  destruct (decode_message t req) as [[] m|[] e| |] eqn:Ed; try done.
  - destruct Hd as (raw & Hf & Hty & He & ->).
    pose proof (handler_request t _ _ _ _ raw Hh Hty) as Hr. rewrite (cut_request raw Hr) in Ed. subst t.
    destruct (handler_answers (i_peer_id slot) req now raw h w Hs Hid Hf Hh Ed) as (reply & Hrf & Ha & Hrun).
    eexists _, _. split; [|apply (fin_answered _ _ _ raw reply); try done; by rewrite Hreq, He].
    rewrite (bind_Ok _ _ _ _ _ (respond_encoded _ _ _ _ _ Hrf Hrun)). reflexivity.
  - exists (announces (server w)), [StreamReset (i_stream slot) 2]. split.
    + rewrite (bind_Ok _ _ _ _ _ (respond_error _ _ _ _ (handler_error t _ _ _ _ w e Hh Ed))). unfold finished.
      destruct w as [[] ? ?]. reflexivity.
    + rewrite <- (refusal_request slot t req (i_peer_id slot) now h) by done.
      apply fin_refused. intros m _ Hf Hm. rewrite Hreq in Hm. assert (req = encode (message_doc m)) as -> by congruence.
      pose proof (peek_message m Hf) as Hp. rewrite Hp in Hpk. injection Hpk as Hpk. by apply (Hd m Hf).
Qed.

Lemma finished_quiet i w : finished i (announces (server w)) [] w = mk_sworld (released i (server w)) (mallocs w) (calls w).
Proof. unfold finished. rewrite app_nil_r. by destruct w as [[] ? ?]. Qed.

Lemma process_fin_run i slot w now : server_ok (server w) -> inbound_streams (server w) !! i = Some slot ->
  exists l cs, process_fin i now w = Ok (finished i l cs w) tt /\ fin_effect (server w) slot now l cs.
Proof using Laws.
  intros Hs Hi. assert (Hslot : slot_ok slot) by (apply (proj1 (Forall_lookup _ _) (so_slot _ Hs) i slot Hi)).
  unfold process_fin. rewrite (bind_Ok _ _ w w slot) by (unfold slot_at, bind, get_server, deref; by rewrite Hi).
  assert (Hquiet : forall m, inbound_release i w = m -> refusal slot = [] ->
    (forall m', is_request m' -> fields_ok m' -> recv_buf slot <> Some (encode (message_doc m'))) ->
    exists l cs, m = Ok (finished i l cs w) tt /\ fin_effect (server w) slot now l cs).
  { intros m <- Hr Hno. exists (announces (server w)), []. rewrite finished_quiet. split; [done|]. rewrite <- Hr. by apply fin_refused. }
  unfold refusal in Hquiet. destruct (recv_buf slot) as [req|] eqn:Hreq; [|by apply (Hquiet _ eq_refl)].
  destruct req as [|b req].
  { apply (Hquiet _ eq_refl eq_refl). intros m _ _ Hm. destruct (encode_ne (message_doc m)). congruence. }
  assert (Hne : b :: req <> []) by done. set (r := b :: req) in *. clearbody r. pose proof (proj2 Hslot) as Hb. rewrite Hreq in Hb. destruct Hb as [Hok Hlen].
  assert (Hsize : zlen r <= INT64_MAX) by (unfold ANTS_DHT_INBOUND_RECV_CAP in Hlen; zlia).
  destruct (peek_total r Hok Hsize) as [[t Ht]|[e He]].
  - rewrite Ht. destruct (handler_of t (i_peer_id slot) r now) as [h|] eqn:Hh.
    + pose proof (handler_run i slot t r now h w Hs Hslot Hreq Hne Ht Hh) as Hrun.
      destruct t; try done; injection Hh as <-; exact Hrun.
    + exists (announces (server w)), [StreamReset (i_stream slot) 1].
      split; [unfold finished; destruct t; try done; by destruct w as [[] ? ?]|].
      replace [StreamReset (i_stream slot) 1] with (refusal slot)
        by (unfold refusal; rewrite Hreq; destruct r; [done|]; cbv beta iota; rewrite Ht; by destruct t).
      apply fin_refused. rewrite Hreq. intros m Hr Hf Hm. assert (r = encode (message_doc m)) as -> by congruence.
      pose proof (peek_message m Hf) as Hp. rewrite Hp in Ht.
      injection Ht as <-. destruct (request_handler m (i_peer_id slot) (encode (message_doc m)) now Hr). congruence.
  - rewrite He. apply (Hquiet _ eq_refl); [destruct r; [done|by rewrite He]|]. intros m _ Hf Hm. assert (r = encode (message_doc m)) as -> by congruence.
    pose proof (peek_message m Hf). congruence.
Qed.
End answers.

(** ** One event *)

Lemma with_inbound_ok s l : server_ok s -> length l = ANTS_DHT_MAX_INBOUND_STREAMS -> Forall slot_ok l ->
  distinct_by i_in_use i_stream l -> server_ok (with_inbound l s).
Proof. intros [] Hl Hok Hd. by split. Qed.

Lemma put_ok s i x : server_ok s -> slot_ok x ->
  (forall j y, inbound_streams s !! j = Some y -> i_in_use y = true -> i_in_use x = true -> i_stream y = i_stream x -> j = i) ->
  server_ok (with_inbound (<[i := x]> (inbound_streams s)) s).
Proof.
  intros Hs Hx Hd. apply with_inbound_ok; [done|by rewrite length_insert; apply so_slots| |].
  - apply Forall_insert; [by apply so_slot|done].
  - by apply distinct_by_insert; [apply so_streams|].
Qed.

Lemma released_ok s i : server_ok s -> server_ok (released i s).
Proof. intros Hs. apply put_ok; [done|exact free_slot_ok|done]. Qed.

(** Where the slots in use after an event come from. *)
Definition slots_from (ev : ants_transport_event_t) (s s' : dht_server) : Prop :=
  forall y, y ∈ inbound_streams s' -> i_in_use y = true ->
    (exists x, x ∈ inbound_streams s /\ i_in_use x = true /\ i_stream x = i_stream y /\ i_peer_id x = i_peer_id y) \/
    (ev_kind ev = ANTS_TRANSPORT_EV_STREAM_OPENED /\ ev_stream ev = Some (i_stream y) /\ ev_peer_id ev = i_peer_id y).

Lemma insert_in {A} (l : list A) i x y : y ∈ <[i := x]> l -> y = x \/ y ∈ l.
Proof.
  intros (j & Hj)%list_elem_of_lookup. apply list_lookup_insert_Some in Hj as [(_ & <- & _)|[_ Hj]]; [by left|right].
  by apply list_elem_of_lookup_2 with j.
Qed.

Lemma slots_put ev s i x x0 : x0 ∈ inbound_streams s -> i_in_use x0 = true -> i_stream x0 = i_stream x -> i_peer_id x0 = i_peer_id x ->
  slots_from ev s (with_inbound (<[i := x]> (inbound_streams s)) s).
Proof. intros H0 Hu Hst Hp y [->|Hy]%insert_in Huy; left; [by exists x0|by exists y]. Qed.

Lemma slots_released ev s i : slots_from ev s (released i s).
Proof. intros y [->|Hy]%insert_in Huy; [done|left; by exists y]. Qed.

Lemma slots_same ev s : slots_from ev s s.
Proof. intros y Hy Hu. left. by exists y. Qed.

Lemma slots_announces ev s s' l : slots_from ev s s' -> slots_from ev s (with_announces l s').
Proof. done. Qed.

Definition event_ok (ev : ants_transport_event_t) : Prop :=
  id_ok (ev_peer_id ev) /\ bytes_ok (ev_payload ev) /\ zlen (ev_payload ev) <= INT64_MAX.

Section events.
Context `{B : Blake3} {Laws : Blake3Laws B}.

(** What one event may do: only a FIN changes the announcements and calls the
    transport. *)
Inductive event_effect (ev : ants_transport_event_t) (now : Z) (s : dht_server) : list ants_dht_announce -> list transport_call -> Prop :=
| effect_none : event_effect ev now s (announces s) []
| effect_fin slot l cs : ev_kind ev = ANTS_TRANSPORT_EV_STREAM_FIN -> ev_stream ev = Some (i_stream slot) ->
    slot ∈ inbound_streams s -> i_in_use slot = true -> fin_effect s slot now l cs -> event_effect ev now s l cs.

Record event_done (ev : ants_transport_event_t) (now : Z) (w w' : server_world) : Prop := {
  ed_ok : server_ok (server w');
  ed_table : table (server w') = table (server w);
  ed_secret : server_secret (server w') = server_secret (server w);
  ed_slots : slots_from ev (server w) (server w');
  ed_effect : exists cs, calls w' = calls w ++ cs /\ event_effect ev now (server w) (announces (server w')) cs
}.

Lemma done_inbound ev now w an l : server_ok (with_inbound l (server w)) -> slots_from ev (server w) (with_inbound l (server w)) ->
  event_done ev now w (mk_sworld (with_inbound l (server w)) an (calls w)).
Proof.
  intros Hok Hsl. split; try done. exists []. rewrite app_nil_r. split; [done|]. exact (effect_none ev now (server w)).
Qed.

Lemma done_same ev now w an : server_ok (server w) -> event_done ev now w (mk_sworld (server w) an (calls w)).
Proof.
  intros Hok. split; try done; [apply slots_same|]. exists []. rewrite app_nil_r. split; [done|]. exact (effect_none ev now (server w)).
Qed.

Lemma found_slot s stream i : inbound_find_by_stream s stream = Some i ->
  exists x, inbound_streams s !! i = Some x /\ i_in_use x = true /\ i_stream x = stream.
Proof.
  intros H. apply find_index_0 in H as (x & Hx & Hb). exists x. unfold bound_to in Hb.
  apply andb_true_iff in Hb as [? ?%Z.eqb_eq]. done.
Qed.

Lemma accumulate_run ev now i slot held payload w : server_ok (server w) -> inbound_streams (server w) !! i = Some slot ->
  i_in_use slot = true -> bytes_ok held -> zlen held <= ANTS_DHT_INBOUND_RECV_CAP -> bytes_ok payload -> zlen payload <= INT64_MAX ->
  exists w', accumulate i slot held payload w = Ok w' tt /\ event_done ev now w w'.
Proof.
  intros Hs Hi Hu Hh Hcap Hp Hpl. pose proof (zlen_nonneg held). unfold ANTS_DHT_INBOUND_RECV_CAP in *.
  assert (Hsub : size_sub 4096 (zlen held) = 4096 - zlen held) by (unfold size_sub; apply u64_small; zlia).
  unfold accumulate, ANTS_DHT_INBOUND_RECV_CAP. rewrite Hsub. assert (Hin : slot ∈ inbound_streams (server w)) by (by apply list_elem_of_lookup_2 with i).
  destruct (Z.ltb_spec (4096 - zlen held) (zlen payload)) as [Hlt|Hge]; (eexists; split; [reflexivity|]).
  - apply done_inbound; [by apply released_ok|apply slots_released].
  - apply done_inbound; [|by apply (slots_put ev _ i _ slot)]. apply put_ok; [done| |].
    + destruct (proj1 (Forall_lookup _ _) (so_slot _ Hs) i slot Hi) as [Hid _]. split; [done|]. cbn.
      split; [by apply Forall_app|]. unfold ANTS_DHT_INBOUND_RECV_CAP. rewrite zlen_app. lia.
    + intros j y Hj Hy _ He. by apply (so_streams _ Hs j i y slot).
Qed.

Lemma announces_after_ok s slot m now : server_ok s -> slot_ok slot -> is_u64 now -> fields_ok m ->
  server_ok (with_announces (announces_after s (i_peer_id slot) m now) s).
Proof.
  intros Hs [Hid _] Hn [_ Hf]. assert (Hsame : server_ok (with_announces (announces s) s)) by (by destruct s).
  destruct m; cbn [announces_after]; try done. case_bool_decide; [|done]. destruct Hf as [Hk _].
  apply upsert_ok; try done. split; [done|]. by split; [constructor|].
Qed.

Lemma fin_run ev now i w : server_ok (server w) -> is_u64 now -> ev_kind ev = ANTS_TRANSPORT_EV_STREAM_FIN ->
  (exists stream, ev_stream ev = Some stream /\ inbound_find_by_stream (server w) stream = Some i) ->
  exists w', process_fin i now w = Ok w' tt /\ event_done ev now w w'.
Proof using Laws.
  intros Hs Hn Hk (stream & Hstr & Hf). destruct (found_slot _ _ _ Hf) as (slot & Hi & Hu & <-).
  destruct (process_fin_run i slot w now Hs Hi) as (l & cs & Hrun & He). eexists. split; [exact Hrun|].
  assert (Hin : slot ∈ inbound_streams (server w)) by (by apply list_elem_of_lookup_2 with i).
  assert (Hslot : slot_ok slot) by (apply (proj1 (Forall_lookup _ _) (so_slot _ Hs) i slot Hi)).
  split; try done.
  - apply (released_ok (with_announces l (server w)) i).
    destruct He as [m reply _ Hmf _ _ _|_]; [by apply announces_after_ok|by destruct w as [[] ? ?]].
  - exact (slots_released ev (server w) i).
  - exists cs. split; [done|]. by apply (effect_fin _ _ _ slot).
Qed.

Lemma alloc_run ev now conn stream w : server_ok (server w) -> event_ok ev -> ev_kind ev = ANTS_TRANSPORT_EV_STREAM_OPENED ->
  ev_stream ev = Some stream -> inbound_find_by_stream (server w) stream = None ->
  exists w', inbound_alloc conn stream (ev_peer_id ev) w = Ok w' tt /\ event_done ev now w w'.
Proof.
  intros Hs [Hid _] Hk Hst Hno. apply find_index_none in Hno. unfold inbound_alloc, bind, get_server.
  destruct (find_index _ 0 _) as [i|] eqn:Ef; (eexists; split; [reflexivity|]); [|destruct w; by apply done_same].
  apply done_inbound.
  - apply put_ok; [done|split; [done|exact I]|]. intros j y Hj Hy _ He. cbn in He.
    apply list_elem_of_lookup_2 in Hj. rewrite Forall_forall in Hno. specialize (Hno y Hj). unfold bound_to in Hno.
    rewrite Hy, He, Z.eqb_refl in Hno. done.
  - intros y [->|Hy]%insert_in Hu; [right|left; by exists y]. by rewrite Hk, Hst.
Qed.

Lemma readable_run ev now i w : server_ok (server w) -> event_ok ev ->
  (exists stream, inbound_find_by_stream (server w) stream = Some i) ->
  exists w', on_readable i (ev_payload ev) w = Ok w' tt /\ event_done ev now w w'.
Proof.
  intros Hs (_ & Hp & Hl) (stream & Hf). destruct (found_slot _ _ _ Hf) as (slot & Hi & Hu & <-). unfold on_readable.
  destruct (zlen (ev_payload ev) =? 0); [eexists; split; [reflexivity|]; destruct w; by apply done_same|].
  rewrite (bind_Ok _ _ w w slot) by (unfold slot_at, bind, get_server, deref; by rewrite Hi).
  destruct (proj1 (Forall_lookup _ _) (so_slot _ Hs) i slot Hi) as [_ Hb].
  destruct (recv_buf slot) as [held|].
  - destruct Hb. by apply accumulate_run.
  - unfold bind, malloc_ok. destruct w as [s [|[] ms] cs]; cbn [mallocs server calls negb] in *.
    + apply accumulate_run; first [done|constructor|by_decision].
    + destruct (accumulate_run ev now i slot [] (ev_payload ev) (mk_sworld s ms cs)) as (w' & -> & []);
        [first [done|constructor|by_decision]..|]. exists w'. split; [done|]. by split.
    + eexists. split; [reflexivity|]. apply (done_inbound ev now (mk_sworld s (false :: ms) cs)); [by apply released_ok|apply slots_released].
Qed.

(** Every event is handled. *)
Lemma event_run ev now w : server_ok (server w) -> event_ok ev -> is_u64 now ->
  exists w', ants_dht_server_handle_event ev now w = Ok w' tt /\ event_done ev now w w'.
Proof using Laws.
  intros Hs Hev Hn. assert (Hret : exists w', ret tt w = Ok w' tt /\ event_done ev now w w').
  { eexists. split; [reflexivity|]. destruct w. by apply done_same. }
  unfold ants_dht_server_handle_event. destruct (ev_kind ev) eqn:Hk.
  2: { eexists. split; [reflexivity|]. apply done_inbound.
    - apply with_inbound_ok; [done|by rewrite length_map; apply so_slots| |].
      + apply Forall_map. eapply Forall_impl; [by apply so_slot|]. intros x Hx. unfold release_of_conn.
        destruct (_ && _); [exact free_slot_ok|done].
      + apply distinct_by_map; [by apply so_streams|]. intros x. unfold release_of_conn. by destruct (_ && _).
    - intros y (x & -> & Hx)%list_elem_of_fmap Hu. left. exists x. unfold release_of_conn in *. by destruct (_ && _). }
  all: destruct (ev_stream ev) as [stream|] eqn:Hst; [|exact Hret].
  all: rewrite (bind_Ok _ _ w w (server w)) by done; destruct (inbound_find_by_stream (server w) stream) as [i|] eqn:Hf;
    try exact Hret.
  - destruct (negb (ev_bidi ev)); exact Hret.
  - destruct (negb (ev_bidi ev)); [exact Hret|]. by apply alloc_run.
  - apply readable_run; [done..|by exists stream].
  - apply fin_run; [done..|by exists stream].
  - eexists. split; [reflexivity|]. apply done_inbound; [by apply released_ok|apply slots_released].
Qed.

(** ** Runs *)

Inductive server_label : Type :=
| Event (ev : ants_transport_event_t) (now : Z)
| Rerouted
| AnnouncedHere (key now : Z)
| Unannounced (key : Z)
| Dropped.

Definition with_mallocs (an : list bool) (w : server_world) : server_world := mk_sworld (server w) an (calls w).

(** The state a call leaves, whatever code it returns. *)
Definition left_by {A} (o : outcome server_world A) : option server_world :=
  match o with Ok w _ | Err w _ => Some w | UB | NoFuel => None end.

(** The server between the calls of its callers: transport events, whatever
    the node's other parts make of the routing table, its own announcements,
    the clean-up; [malloc] answers as it likes. *)
Inductive server_step (w : server_world) : server_label -> server_world -> Prop :=
| step_event an ev now w' : event_ok ev -> is_u64 now ->
    left_by (ants_dht_server_handle_event ev now (with_mallocs an w)) = Some w' -> server_step w (Event ev now) w'
| step_table t : table_good t -> local_peer_id t = local_peer_id (table (server w)) ->
    server_step w Rerouted (mk_sworld (with_table t (server w)) (mallocs w) (calls w))
| step_announce key addr now w' : is_u64 key -> is_u64 now -> bytes_ok addr -> zlen addr < ANTS_MULTIADDR_MAX_LEN ->
    left_by (ants_dht_announce_shard key addr now w) = Some w' -> server_step w (AnnouncedHere key now) w'
| step_unannounce key w' : left_by (ants_dht_unannounce key w) = Some w' -> server_step w (Unannounced key) w'
| step_drop w' : left_by (ants_dht_server_drop_all w) = Some w' -> server_step w Dropped w'.

(** A run, the steps newest first, each with the world it started from. *)
Inductive server_run (local : bytes) : list (server_world * server_label) -> server_world -> Prop :=
| srun_init t w0 w : table_good t -> local_peer_id t = local -> left_by (server_init t w0) = Some w -> server_run local [] w
| srun_step tr w l w' : server_run local tr w -> server_step w l w' -> server_run local ((w, l) :: tr) w'.

Definition opened_for (tr : list (server_world * server_label)) (stream : Z) (peer : bytes) : Prop :=
  exists w ev t, (w, Event ev t) ∈ tr /\ ev_kind ev = ANTS_TRANSPORT_EV_STREAM_OPENED /\
    ev_stream ev = Some stream /\ ev_peer_id ev = peer.

(** The origin of an announcement: this node, or a request with the token of
    its peer, at the end of a stream opened for this peer. *)
Definition earned (local : bytes) (tr : list (server_world * server_label)) (a : ants_dht_announce) : Prop :=
  (peer_id (announcer a) = local /\ exists w, (w, AnnouncedHere (shard_key a) (a_last_seen_us a)) ∈ tr) \/
  (exists w ev slot txid, (w, Event ev (a_last_seen_us a)) ∈ tr /\ ev_kind ev = ANTS_TRANSPORT_EV_STREAM_FIN /\
    ev_stream ev = Some (i_stream slot) /\ slot ∈ inbound_streams (server w) /\ i_in_use slot = true /\
    recv_buf slot = Some (encode (message_doc
      (AnnouncePeer (mk_ann txid (shard_key a) (token_of (digest local) (peer_id (announcer a))))))) /\
    opened_for tr (i_stream slot) (peer_id (announcer a))).

Record server_inv (local : bytes) (tr : list (server_world * server_label)) (w : server_world) : Prop := {
  si_ok : server_ok (server w);
  si_local : local_peer_id (table (server w)) = local;
  si_secret : server_secret (server w) = digest local;
  si_earned : forall a, a ∈ announces (server w) -> a_in_use a = true -> earned local tr a;
  si_opened : forall x, x ∈ inbound_streams (server w) -> i_in_use x = true -> opened_for tr (i_stream x) (i_peer_id x)
}.

Lemma opened_more tr wl stream peer : opened_for tr stream peer -> opened_for (wl :: tr) stream peer.
Proof. intros (w & ev & t & Hin & H). exists w, ev, t. split; [by right|done]. Qed.

Lemma earned_more local tr wl a : earned local tr a -> earned local (wl :: tr) a.
Proof.
  intros [(He & w & Hw)|(w & ev & slot & txid & Hw & Hk & Hst & Hin & Hu & Hb & Ho)]; [left|right].
  - split; [done|]. exists w. by right.
  - exists w, ev, slot, txid. split; [by right|]. repeat (split; [done|]). by apply opened_more.
Qed.

Lemma server_init_ok local t w0 w : id_ok local -> table_good t -> local_peer_id t = local ->
  left_by (server_init t w0) = Some w -> server_inv local [] w.
Proof using Laws.
  intros [Hl Hb] Ht Hlocal H. unfold ANTS_PEER_ID_SIZE in Hl. unfold server_init in H. rewrite Hlocal in H.
  assert (Hh : ants_blake3_hash (Some local) (zlen local) = Ok tt (digest local)).
  { unfold ants_blake3_hash. cbn [is_null andb]. bdecide. by rewrite slice_all. }
  rewrite Hh in H. apply (inj Some) in H. subst w. split; cbn [server table server_secret announces inbound_streams]; try done.
  - split; cbn [table inbound_streams announces local_announces server_secret]; try done.
    + apply Forall_replicate, free_slot_ok.
    + by intros i j x y (-> & _)%lookup_replicate.
    + apply Forall_replicate, free_announce_ok.
    + by intros i j x y (-> & _)%lookup_replicate.
    + split; [apply digest_size|apply digest_bytes].
  - by intros a (-> & _)%elem_of_replicate.
  - by intros a (-> & _)%elem_of_replicate.
Qed.

Lemma table_good_id t : table_good t -> id_ok (local_peer_id t).
Proof. intros [Ht _]. apply (ko_local _ (to_buckets _ Ht)). Qed.

(** An announcement that an upsert leaves: the new one, or an old one. *)
Lemma upserted_in key p now l a : a ∈ upserted_announces key p now l -> a = mk_announce true key p now \/ a ∈ l.
Proof. apply insert_in. Qed.

Lemma event_step_inv local tr w ev now w' : server_inv local tr w -> server_step w (Event ev now) w' ->
  server_inv local ((w, Event ev now) :: tr) w'.
Proof using Laws.
  intros [Hok Hl Hs He Ho] Hstep. inversion Hstep as [an ev' now' w2 Hev Hn H| | | |]; subst.
  destruct (event_run ev now (with_mallocs an w) Hok Hev Hn) as (w2 & Hrun & [Hok' Ht' Hs' Hsl' (cs & _ & Heff)]).
  rewrite Hrun in H. injection H as ->. cbn [server with_mallocs] in *.
  assert (Hopen : forall x, x ∈ inbound_streams (server w') -> i_in_use x = true ->
    opened_for ((w, Event ev now) :: tr) (i_stream x) (i_peer_id x)).
  { intros x Hx Hu. destruct (Hsl' x Hx Hu) as [(x0 & Hx0 & Hu0 & <- & <-)|(Hk & Hst & Hp)].
    - apply opened_more. by apply Ho.
    - exists w, ev, now. split; [by left|done]. }
  split; try done; [congruence|congruence|]. intros a Ha Hu.
  remember (announces (server w')) as l eqn:El. destruct Heff as [|slot l cs Hk Hst Hin Huse Hfin]; [by apply earned_more, He|].
  destruct Hfin as [m reply _ Hmf Hb _ _|_]; [|by apply earned_more, He].
  destruct m as [|m|m|m|m|m|m|m]; cbn [announces_after] in Ha; try by apply earned_more, He.
  case_bool_decide as Htok; [|by apply earned_more, He]. apply upserted_in in Ha as [->|Ha]; [|by apply earned_more, He].
  right. exists w, ev, slot, (ann_txid m). cbn [shard_key announcer a_last_seen_us peer_id].
  split; [by left|]. do 4 (split; [done|]). split; [|by apply opened_more, Ho].
  rewrite Hb. do 3 f_equal. destruct m as [x k tok]. cbn in Htok |- *. congruence.
Qed.

Lemma inv_more local tr wl w : server_inv local tr w -> server_inv local (wl :: tr) w.
Proof. intros [H1 H2 H3 H4 H5]. split; try done; intros; [by apply earned_more, H4|by apply opened_more, H5]. Qed.

Lemma announce_step_inv local tr w key addr now w' : server_inv local tr w -> is_u64 key -> is_u64 now -> bytes_ok addr ->
  zlen addr < ANTS_MULTIADDR_MAX_LEN -> left_by (ants_dht_announce_shard key addr now w) = Some w' ->
  server_inv local ((w, AnnouncedHere key now) :: tr) w'.
Proof using Laws.
  intros Hinv Hk Hn Ha Hal H. pose proof (inv_more _ _ (w, AnnouncedHere key now) _ Hinv) as Hmore.
  destruct Hinv as [Hok Hl Hs He Ho]. unfold ants_dht_announce_shard, bind at 1, get_server in H.
  destruct (existsb _ _); [by injection H as <-|]. destruct (find_index _ 0 _) as [i|]; [|by injection H as <-].
  cbn in H. injection H as <-. pose proof (table_good_id _ (so_table _ Hok)) as Hid.
  assert (Hp : peer_ok (mk_peer (local_peer_id (table (server w))) addr)) by (split; [done|by split]).
  split; cbn [server table server_secret announces inbound_streams with_announces with_locals]; try done.
  - pose proof (upsert_ok _ key _ now Hok Hp Hk Hn) as [H1 H2 H3 H4 H5 H6 H7 H8 H9]. split; try done.
    cbn. rewrite length_insert. apply (so_locals _ Hok).
  - intros a [->|Hin]%insert_in Hu; [|by apply (si_earned _ _ _ Hmore)]. left. cbn. split; [done|]. exists w. by left.
  - apply (si_opened _ _ _ Hmore).
Qed.

Lemma unannounce_step_inv local tr w key w' : server_inv local tr w -> left_by (ants_dht_unannounce key w) = Some w' ->
  server_inv local ((w, Unannounced key) :: tr) w'.
Proof using Laws.
  intros Hinv H. apply (inv_more _ _ (w, Unannounced key)) in Hinv. destruct Hinv as [Hok Hl Hs He Ho].
  cbn in H. injection H as <-.
  assert (Hdrop : forall b, a_in_use (drop_own key (local_peer_id (table (server w))) b) = true ->
    drop_own key (local_peer_id (table (server w))) b = b) by (intros b; unfold drop_own; by destruct (same_announce _ _ _)).
  split; cbn [server table server_secret announces inbound_streams with_announces with_locals]; try done.
  - destruct Hok as [H1 H2 H3 H4 H5 H6 H7 H8 H9].
    split; cbn [table server_secret announces inbound_streams local_announces with_announces with_locals]; try done;
      try (by rewrite length_map).
    + apply Forall_map. eapply Forall_impl; [exact H6|]. intros b Hb. cbn. unfold drop_own. by destruct (same_announce _ _ _).
    + apply distinct_by_map; [done|]. intros b Hb. pose proof (Hdrop b Hb) as E. rewrite E in Hb |- *. done.
  - intros a (b & -> & Hb)%list_elem_of_fmap Hu. rewrite (Hdrop b Hu) in Hu |- *. by apply He.
Qed.

Lemma drop_step_inv local tr w w' : server_inv local tr w -> left_by (ants_dht_server_drop_all w) = Some w' ->
  server_inv local ((w, Dropped) :: tr) w'.
Proof using Laws.
  intros Hinv H. apply (inv_more _ _ (w, Dropped)) in Hinv. destruct Hinv as [Hok Hl Hs He Ho].
  cbn in H. injection H as <-. split; try done.
  - apply with_inbound_ok; [done|by rewrite length_map; apply so_slots| |].
    + apply Forall_map. eapply Forall_impl; [by apply so_slot|]. intros x Hx. cbn. destruct (i_in_use x); [exact free_slot_ok|done].
    + apply distinct_by_map; [by apply so_streams|]. intros x. by destruct (i_in_use x) eqn:E; rewrite ?E.
  - intros x (y & -> & Hy)%list_elem_of_fmap Hu. destruct (i_in_use y) eqn:E; [done|congruence].
Qed.

Lemma run_inv local tr w : server_run local tr w -> server_inv local tr w.
Proof using Laws.
  induction 1 as [t w0 w Ht Hl H|tr w l w' _ IH Hs].
  - apply (server_init_ok local t w0); try done. subst local. by apply table_good_id.
  - destruct Hs as [an ev now w' Hev Hn H|t Ht Hl|key addr now w' Hk Hn Ha Hal H|key w' H|w' H].
    + apply event_step_inv; [done|]. by apply (step_event _ an).
    + apply (inv_more _ _ (w, Rerouted)) in IH. destruct IH as [Hok' Hlo Hse He Ho].
      split; try done; [by destruct Hok'; split|cbn; congruence].
    + by apply (announce_step_inv _ _ _ _ addr).
    + by apply unannounce_step_inv.
    + by apply drop_step_inv.
Qed.

(** ** What the server guarantees *)

(** The server never fails: in every run, whatever bytes peers send and
    however [malloc] answers, each transport event is handled to its end with
    [ANTS_OK] and without touching memory outside its objects, no stream is
    bound to two slots, what a slot has collected fits its buffer, and no two
    announcements are of the same shard by the same peer. *)
Theorem server_invariant local tr w : server_run local tr w ->
  server_ok (server w) /\
  forall an ev now, event_ok ev -> is_u64 now ->
    exists w', ants_dht_server_handle_event ev now (with_mallocs an w) = Ok w' tt.
Proof using Laws.
  intros Hrun. pose proof (si_ok _ _ _ (run_inv _ _ _ Hrun)) as Hok. split; [done|]. intros an ev now Hev Hn.
  destruct (event_run ev now (with_mallocs an w) Hok Hev Hn) as (w' & Hw' & _). by exists w'.
Qed.

(** C14: Every announcement in the store was earned: in any run, one that is
    not the node's own was made at the end of a stream the transport had
    opened for the announcing peer, and the bytes of that stream were exactly
    the canonical ANNOUNCE_PEER request for this shard with the token
    BLAKE3(secret || peer) of this very peer. *)
Theorem announces_earned local tr w a : server_run local tr w ->
  a ∈ announces (server w) -> a_in_use a = true -> earned local tr a.
Proof using Laws. intros Hrun. apply (si_earned _ _ _ (run_inv _ _ _ Hrun)). Qed.

Lemma response_fits stream m : fields_ok m -> short_addresses 155 (peers_of m) ->
  response_call stream m = StreamSend stream (encode (message_doc m)) true.
Proof.
  intros Hf Hs. unfold response_call. pose proof (message_size m 155 Hf ltac:(lia) Hs).
  unfold DHT_SERVER_RESP_BUF_SIZE. by bdecide.
Qed.

Lemma only_request m m' : is_request m -> is_request m' -> fields_ok m -> fields_ok m' ->
  encode (message_doc m) = encode (message_doc m') -> m = m'.
Proof.
  intros Hr Hr' Hf Hf' He. rewrite <- (cut_request m Hr), <- (cut_request m' Hr'). by apply same_bytes_cut.
Qed.

Lemma fin_event_run ev now slot w : server_ok (server w) -> ev_kind ev = ANTS_TRANSPORT_EV_STREAM_FIN ->
  ev_stream ev = Some (i_stream slot) -> slot ∈ inbound_streams (server w) -> i_in_use slot = true ->
  exists i l cs, inbound_streams (server w) !! i = Some slot /\
    ants_dht_server_handle_event ev now w = Ok (finished i l cs w) tt /\ fin_effect (server w) slot now l cs.
Proof using Laws.
  intros Hs Hk Hst Hin Hu. unfold ants_dht_server_handle_event. rewrite Hk, Hst.
  rewrite (bind_Ok _ _ w w (server w)) by done. destruct (inbound_find_by_stream (server w) (i_stream slot)) as [i|] eqn:Hf.
  - destruct (found_slot _ _ _ Hf) as (x & Hx & Hux & Hsx). apply list_elem_of_lookup in Hin as (j & Hj).
    assert (i = j) as -> by (by apply (so_streams _ Hs i j x slot)). assert (x = slot) as -> by congruence.
    destruct (process_fin_run j slot w now Hs Hj) as (l & cs & Hrun & He). by exists j, l, cs.
  - apply find_index_none in Hf. rewrite Forall_forall in Hf. specialize (Hf slot Hin). unfold bound_to in Hf.
    by rewrite Hu, Z.eqb_refl in Hf.
Qed.

(** C15: What the end of a request does, on every input.  When the bytes of
    the stream are the canonical encoding of one of the four requests, the
    documented answer (the txid echoed; the K closest peers, or the first K
    announcers of the shard when there are any; the token of this peer) is
    sent with FIN if its encoding fits the response buffer of 4096 bytes, as
    it does when the addresses in it have at most 155 bytes, and otherwise
    the stream is reset; only an ANNOUNCE_PEER with a valid token changes the
    announcements.  On any other bytes nothing is sent and nothing changes:
    the stream is left alone when they do not start like an envelope, and
    reset when they do.  The slot is free afterwards. *)
Theorem requests_answered local tr w ev now slot : server_run local tr w ->
  ev_kind ev = ANTS_TRANSPORT_EV_STREAM_FIN -> ev_stream ev = Some (i_stream slot) ->
  slot ∈ inbound_streams (server w) -> i_in_use slot = true ->
  exists w', ants_dht_server_handle_event ev now w = Ok w' tt /\
    (forall m, is_request m -> fields_ok m -> recv_buf slot = Some (encode (message_doc m)) ->
      exists reply, answers_with (server w) (i_peer_id slot) m reply /\
        announces (server w') = announces_after (server w) (i_peer_id slot) m now /\
        calls w' = calls w ++
          [if zlen (encode (message_doc reply)) <=? DHT_SERVER_RESP_BUF_SIZE
           then StreamSend (i_stream slot) (encode (message_doc reply)) true
           else StreamReset (i_stream slot) 2] /\
        (short_addresses 155 (peers_of reply) ->
         calls w' = calls w ++ [StreamSend (i_stream slot) (encode (message_doc reply)) true])) /\
    ((forall m, is_request m -> fields_ok m -> recv_buf slot <> Some (encode (message_doc m))) ->
      announces (server w') = announces (server w) /\ calls w' = calls w ++ refusal slot) /\
    (forall x, x ∈ inbound_streams (server w') -> i_in_use x = true -> i_stream x <> i_stream slot).
Proof using Laws.
  intros Hrun Hk Hst Hin Hu. pose proof (si_ok _ _ _ (run_inv _ _ _ Hrun)) as Hok.
  destruct (fin_event_run ev now slot w Hok Hk Hst Hin Hu) as (i & l & cs & Hi & Hev & Hfin).
  exists (finished i l cs w). split; [done|]. cbn [finished server calls released with_inbound with_announces announces inbound_streams].
  split; [|split].
  - intros m Hr Hf Hb. destruct Hfin as [m' reply Hr' Hf' Hb' Hrf Ha|Hno]; [|by destruct (Hno m)].
    assert (m' = m) as -> by (apply only_request; try done; congruence). exists reply. do 3 (split; [done|]).
    intros Hshort. by rewrite (response_fits _ _ Hrf Hshort).
  - intros Hno. destruct Hfin as [m reply Hr Hf Hb _ _|_]; [by destruct (Hno m)|done].
  - intros x (j & Hj)%list_elem_of_lookup Hux He.
    apply list_lookup_insert_Some in Hj as [(_ & <- & _)|[Hne Hj]]; [done|]. apply Hne. symmetry.
    by apply (so_streams _ Hok j i x slot).
Qed.

(** C39: The announcements are a bounded map with least-recent eviction: in
    any run, recording (shard, peer) leaves exactly one record of the pair,
    with the new time; every other record stays, except that when all 32 are
    in use and the pair is new, one with the smallest time goes. *)
Theorem announce_store_exact local tr w key p now : server_run local tr w -> peer_ok p -> is_u64 key -> is_u64 now ->
  exists w' lost, ants_dht_server_upsert_announce key p now w = Ok w' tt /\ lost ∈ announces (server w) /\
    (forall b, b ∈ announces (server w') /\ pair_of b = (key, peer_id p) /\ a_in_use b = true <-> b = mk_announce true key p now) /\
    (forall b, a_in_use b = true -> pair_of b <> (key, peer_id p) ->
      (b ∈ announces (server w') <-> b ∈ announces (server w) /\ b <> lost)) /\
    (a_in_use lost = true -> pair_of lost <> (key, peer_id p) ->
      Forall (fun b => a_in_use b = true /\ pair_of b <> (key, peer_id p)) (announces (server w)) /\
      Forall (fun b => a_last_seen_us lost <= a_last_seen_us b) (announces (server w))).
Proof using Laws.
  intros Hrun Hp Hk Hn. pose proof (si_ok _ _ _ (run_inv _ _ _ Hrun)) as Hok. pose proof (upsert_ok _ key p now Hok Hp Hk Hn) as Hok'.
  set (l := announces (server w)). set (new := mk_announce true key p now).
  destruct (upsert_slot_spec key (peer_id p) l) as (lost & Hlost & Hcase);
    [by intros E; pose proof (so_records _ Hok) as Hl; fold l in Hl; rewrite E in Hl|by apply so_record|apply Hp|].
  eexists _, lost. split; [reflexivity|]. cbn [server announces with_announces]. fold l new.
  set (i := upsert_slot key (peer_id p) l) in *. split; [by apply list_elem_of_lookup_2 with i|].
  assert (Hi : <[i := new]> l !! i = Some new) by (apply list_lookup_insert_eq; by apply lookup_lt_Some in Hlost).
  assert (Hd : distinct_by a_in_use pair_of (<[i := new]> l)) by exact (so_pairs _ Hok').
  split; [|split].
  - intros b. split.
    + intros ((j & Hj)%list_elem_of_lookup & Hb & Hu). assert (j = i) as -> by (by apply (Hd j i b new)). congruence.
    + intros ->. split; [by apply list_elem_of_lookup_2 with i|done].
  - intros b Hu Hb. split.
    + intros (j & Hj)%list_elem_of_lookup. apply list_lookup_insert_Some in Hj as [(_ & <- & _)|[Hij Hj]]; [done|].
      split; [by apply list_elem_of_lookup_2 with j|]. intros ->. by apply Hij, (so_pairs _ Hok i j lost lost).
    + intros [(j & Hj)%list_elem_of_lookup Hne]. apply list_elem_of_lookup_2 with j.
      rewrite list_lookup_insert_ne; [done|]. intros ->. congruence.
  - intros Hu Hb. destruct Hcase as [[_ Hsame]|[Hno [Hfree|[Hall Hleast]]]]; [done|congruence|]. split; [|done].
    rewrite Forall_forall in Hall. apply Forall_forall. intros b Hin. split; [by apply Hall|]. by apply Hno; [|apply Hall].
Qed.

(** ** What a token is worth *)

(** The announcement of a shard by [peer] to the node [local], made from the
    two identities only. *)
Definition forged_request (local peer : bytes) (key : Z) : bytes :=
  encode (message_doc (AnnouncePeer (mk_ann 0 key (token_of (digest local) peer)))).

Definition opening (peer : bytes) : ants_transport_event_t :=
  mk_event ANTS_TRANSPORT_EV_STREAM_OPENED 1 (Some 2) true peer [].
Definition sending (peer data : bytes) : ants_transport_event_t :=
  mk_event ANTS_TRANSPORT_EV_STREAM_READABLE 1 (Some 2) true peer data.
Definition ending (peer : bytes) : ants_transport_event_t :=
  mk_event ANTS_TRANSPORT_EV_STREAM_FIN 1 (Some 2) true peer [].


Lemma forged_ok local peer key : is_u64 key -> fields_ok (AnnouncePeer (mk_ann 0 key (token_of (digest local) peer))).
Proof using Laws. intros Hk. split; [done|]. split; [done|apply token_good]. Qed.

Lemma forged_size local peer key : is_u64 key -> 0 < zlen (forged_request local peer key) <= 4096.
Proof using Laws.
  intros Hk. unfold forged_request. set (m := AnnouncePeer _).
  pose proof (message_size m 0 (forged_ok local peer key Hk) ltac:(lia) ltac:(by apply Forall_nil)).
  assert (zlen (encode (message_doc m)) <> 0) by (intros E; apply zlen_O in E; by apply encode_ne in E).
  pose proof (zlen_nonneg (encode (message_doc m))). lia.
Qed.

(** The world in which the request has arrived. *)
Definition pending (peer data : bytes) (w : server_world) : server_world :=
  mk_sworld (with_inbound (<[0%nat := mk_inbound true 1 2 peer (Some data)]> (inbound_streams (server w))) (server w))
    (mallocs w) (calls w).

Lemma delivered t w0 w peer data : left_by (server_init t w0) = Some w -> mallocs w = [] -> 0 < zlen data <= 4096 ->
  exists w1, ants_dht_server_handle_event (opening peer) 0 w = Ok w1 tt /\ mallocs w1 = [] /\
    ants_dht_server_handle_event (sending peer data) 0 w1 = Ok (pending peer data w) tt.
Proof.
  intros H Hm Hd. unfold server_init in H. destruct (ants_blake3_hash _ _) as [u secret| | |]; try done.
  apply (inj Some) in H. subst w. cbn [mallocs] in Hm. rewrite Hm. eexists. split; [reflexivity|]. split; [done|].
  unfold ants_dht_server_handle_event. cbn [ev_kind ev_stream sending ev_payload].
  match goal with |- bind _ _ ?x = _ => rewrite (bind_Ok _ _ x x (server x)) by done end.
  match goal with |- context [inbound_find_by_stream ?s 2] => change (inbound_find_by_stream s 2) with (Some 0%nat) end.
  cbv iota. unfold on_readable. rewrite (proj2 (Z.eqb_neq (zlen data) 0)) by lia.
  match goal with |- bind (slot_at 0) _ ?x = _ => rewrite (bind_Ok _ _ x x (mk_inbound true 1 2 peer None)) by done end.
  cbn [recv_buf]. match goal with |- bind malloc_ok _ ?x = _ => rewrite (bind_Ok _ _ x x true) by done end.
  cbn [negb]. unfold accumulate. replace (size_sub ANTS_DHT_INBOUND_RECV_CAP (zlen (A := Z) [])) with 4096 by done.
  rewrite (proj2 (Z.ltb_ge 4096 (zlen data))) by lia. reflexivity.
Qed.

(** C16: The token proves nothing about its bearer: the secret is the hash of
    the node's public identity, so a peer that knows the two identities and
    has never asked GET_PEERS makes the token itself, and its announcement is
    stored, for any shard. *)
Theorem token_is_public local t w0 w peer key now :
  id_ok local -> table_good t -> local_peer_id t = local -> left_by (server_init t w0) = Some w -> mallocs w = [] ->
  id_ok peer -> is_u64 key -> is_u64 now ->
  exists w1 w2 w3, ants_dht_server_handle_event (opening peer) 0 w = Ok w1 tt /\
    ants_dht_server_handle_event (sending peer (forged_request local peer key)) 0 w1 = Ok w2 tt /\
    ants_dht_server_handle_event (ending peer) now w2 = Ok w3 tt /\
    mk_announce true key (mk_peer peer []) now ∈ announces (server w3).
Proof using Laws.
  intros Hl Ht Htl Hinit Hm Hp Hk Hn. pose proof (forged_size local peer key Hk) as Hsize. pose proof (forged_ok local peer key Hk) as Hf.
  destruct (delivered t w0 w peer (forged_request local peer key) Hinit Hm Hsize) as (w1 & H1 & Hm1 & H2).
  exists w1, (pending peer (forged_request local peer key) w).
  assert (Hbytes : bytes_ok (forged_request local peer key)) by (apply encode_ok; by apply message_doc_wf).
  assert (Hrun : server_run local
    [(w1, Event (sending peer (forged_request local peer key)) 0); (w, Event (opening peer) 0)]
    (pending peer (forged_request local peer key) w)).
  { eapply srun_step; [eapply srun_step; [by eapply srun_init|]|].
    - apply (step_event _ []); [split; [done|split; [constructor|done]]|done|].
      replace (with_mallocs [] w) with w by (destruct w; cbn in Hm; by subst). by rewrite H1.
    - apply (step_event _ []); [split; [done|split; [done|]]|done|].
      + change (zlen (forged_request local peer key) <= INT64_MAX). zlia.
      + replace (with_mallocs [] w1) with w1 by (destruct w1; cbn in Hm1; by subst). by rewrite H2. }
  set (slot := mk_inbound true 1 2 peer (Some (forged_request local peer key))).
  pose proof (run_inv _ _ _ Hrun) as [Hok _ Hsec _ _].
  assert (Hin : slot ∈ inbound_streams (server (pending peer (forged_request local peer key) w))).
  { apply list_elem_of_lookup_2 with 0%nat. apply list_lookup_insert_eq.
    pose proof (so_slots _ (si_ok _ _ _ (server_init_ok local t w0 w Hl Ht Htl Hinit))) as E. rewrite E. unfold ANTS_DHT_MAX_INBOUND_STREAMS. lia. }
  destruct (fin_event_run (ending peer) now slot _ Hok) as (i & l & cs & _ & H3 & Hfin); try done.
  eexists. split; [exact H1|]. split; [exact H2|]. split; [exact H3|].
  destruct Hfin as [m reply Hr Hmf Hb _ _|Hno]; [|by destruct (Hno (AnnouncePeer (mk_ann 0 key (token_of (digest local) peer))))].
  assert (m = AnnouncePeer (mk_ann 0 key (token_of (digest local) peer))) as ->.
  { apply only_request; try done. cbn [recv_buf slot] in Hb. unfold forged_request in Hb. congruence. }
  cbn [announces_after ann_token ann_key slot i_peer_id]. rewrite Hsec, bool_decide_true by done.
  apply list_elem_of_lookup_2 with (upsert_slot key peer (announces (server (pending peer (forged_request local peer key) w)))).
  apply list_lookup_insert_eq.
  destruct (upsert_slot_spec key peer (announces (server (pending peer (forged_request local peer key) w)))) as (a & Ha & _);
    [|by apply so_record|done|by apply lookup_lt_Some in Ha].
  intros E. pose proof (so_records _ Hok) as Hlen. rewrite E in Hlen. done.
Qed.
End events.

(** ** A run to evaluate: a peer announces a shard *)

Definition demo_local_id : bytes := replicate 32 9.
Definition demo_table : ants_dht_state := ants_dht_init demo_local_id 1000.
Definition demo_before : server_world := mk_sworld (mk_server demo_table [] [] [] []) [] [].
Definition after {A} (o : outcome server_world A) : server_world := default demo_before (left_by o).
Definition demo_request : bytes := forged_request (B := toy_blake3) demo_local_id demo_peer_id 77.
Definition demo_begun : server_world := after (server_init (B := toy_blake3) demo_table demo_before).
Definition demo_opened : server_world := after (ants_dht_server_handle_event (B := toy_blake3) (opening demo_peer_id) 0 demo_begun).
Definition demo_pending : server_world :=
  after (ants_dht_server_handle_event (B := toy_blake3) (sending demo_peer_id demo_request) 0 demo_opened).
Definition demo_stored : server_world := after (ants_dht_server_handle_event (B := toy_blake3) (ending demo_peer_id) 5 demo_pending).
Definition demo_arrived : list (server_world * server_label) :=
  [(demo_opened, Event (sending demo_peer_id demo_request) 0); (demo_begun, Event (opening demo_peer_id) 0)].
Definition demo_slot : ants_dht_inbound_stream := mk_inbound true 1 2 demo_peer_id (Some demo_request).

Lemma demo_table_good : table_good demo_table.
Proof.
  split; [apply (wo_table _ _ (dht_init_ok demo_local_id 1000 ltac:(by_decision)))|].
  assert (E : all_entries demo_table = []) by reflexivity. rewrite E. constructor.
Qed.

Lemma demo_begun_eq : left_by (server_init (B := toy_blake3) demo_table demo_before) = Some demo_begun.
Proof. vm_compute. reflexivity. Qed.

Lemma demo_pending_run : server_run (B := toy_blake3) demo_local_id demo_arrived demo_pending.
Proof.
  eapply srun_step; [eapply srun_step; [eapply srun_init; [exact demo_table_good|reflexivity|exact demo_begun_eq]|]|];
    (apply (step_event _ []); [split; [by_decision|split; by_decision]|by_decision|vm_compute; reflexivity]).
Qed.

Lemma demo_stored_run :
  server_run (B := toy_blake3) demo_local_id ((demo_pending, Event (ending demo_peer_id) 5) :: demo_arrived) demo_stored.
Proof.
  eapply srun_step; [exact demo_pending_run|].
  apply (step_event _ []); [split; [by_decision|split; by_decision]|by_decision|vm_compute; reflexivity].
Qed.

Lemma demo_slot_in : demo_slot ∈ inbound_streams (server demo_pending).
Proof. apply list_elem_of_lookup_2 with 0%nat. vm_compute. reflexivity. Qed.

Lemma server_invariant_witness : exists w',
  ants_dht_server_handle_event (B := toy_blake3) (ending demo_peer_id) 5 (with_mallocs [false] demo_pending) = Ok w' tt.
Proof.
  apply (server_invariant (B := toy_blake3) (Laws := toy_blake3_laws) demo_local_id demo_arrived demo_pending demo_pending_run).
  - split; [by_decision|split; by_decision].
  - by_decision.
Defined.

Lemma announces_earned_witness :
  earned (B := toy_blake3) demo_local_id ((demo_pending, Event (ending demo_peer_id) 5) :: demo_arrived)
    (mk_announce true 77 (mk_peer demo_peer_id []) 5).
Proof.
  apply (announces_earned (B := toy_blake3) (Laws := toy_blake3_laws) _ _ demo_stored).
  - exact demo_stored_run.
  - apply list_elem_of_lookup_2 with 0%nat. vm_compute. reflexivity.
  - reflexivity.
Defined.

Lemma requests_answered_witness : exists w' reply,
  ants_dht_server_handle_event (B := toy_blake3) (ending demo_peer_id) 5 demo_pending = Ok w' tt /\
  reply = AnnouncePeerResp (mk_acked 0) /\ calls w' = [StreamSend 2 (encode (message_doc reply)) true].
Proof.
  destruct (requests_answered (B := toy_blake3) (Laws := toy_blake3_laws) demo_local_id demo_arrived demo_pending
    (ending demo_peer_id) 5 demo_slot demo_pending_run) as (w' & Hw & Hans & _); [reflexivity|reflexivity|exact demo_slot_in|reflexivity|].
  destruct (Hans (AnnouncePeer (mk_ann 0 77 (token_of (B := toy_blake3) (digest (B := toy_blake3) demo_local_id) demo_peer_id))))
    as ([| | | | | | |[x]] & Ha & _ & _ & Hc); [exact I|split; [by_decision|split; [by_decision|split; by_decision]]|reflexivity|destruct Ha..|].
  exists w', (AnnouncePeerResp (mk_acked x)). split; [exact Hw|]. cbn in Ha. subst x. split; [reflexivity|].
  apply Hc. constructor.
Defined.

Lemma announce_store_exact_witness : exists w' lost,
  ants_dht_server_upsert_announce 77 (mk_peer demo_peer_id [47]) 9 demo_stored = Ok w' tt /\
  (mk_announce true 77 (mk_peer demo_peer_id []) 5 ∈ announces (server demo_stored)) /\
  lost ∈ announces (server demo_stored).
Proof.
  destruct (announce_store_exact (B := toy_blake3) (Laws := toy_blake3_laws) demo_local_id _ demo_stored 77 (mk_peer demo_peer_id [47]) 9
    demo_stored_run) as (w' & lost & Hw & Hl & _); [split; [by_decision|split; by_decision]|by_decision|by_decision|].
  exists w', lost. split; [exact Hw|]. split; [|exact Hl]. apply list_elem_of_lookup_2 with 0%nat. vm_compute. reflexivity.
Defined.

Lemma token_is_public_witness : exists w1 w2 w3,
  ants_dht_server_handle_event (B := toy_blake3) (opening demo_peer_id) 0 demo_begun = Ok w1 tt /\
  ants_dht_server_handle_event (B := toy_blake3) (sending demo_peer_id demo_request) 0 w1 = Ok w2 tt /\
  ants_dht_server_handle_event (B := toy_blake3) (ending demo_peer_id) 5 w2 = Ok w3 tt /\
  mk_announce true 77 (mk_peer demo_peer_id []) 5 ∈ announces (server w3).
Proof.
  apply (token_is_public (B := toy_blake3) (Laws := toy_blake3_laws) demo_local_id demo_table demo_before);
    [by_decision|exact demo_table_good|reflexivity|exact demo_begun_eq|vm_compute; reflexivity|by_decision|by_decision|by_decision].
Defined.

(** ** A full answer with long addresses does not fit *)

(** Twenty nearest peers whose addresses have 200 bytes. *)
Definition long_peers : list ants_dht_peer_t := replicate ANTS_DHT_K (mk_peer demo_peer_id (replicate 200 47)).

Lemma long_answer_reset stream :
  response_call stream (FindNodeResp (mk_found 1 long_peers)) = StreamReset stream 2.
Proof. vm_compute. reflexivity. Qed.
